(* ===== verification/_CoqProject ===== *)
-Q . S2P
Prelude.v
Bytes.v
Hash.v
Sha256.v
Codec.v
CanonicalJSON.v
StrictJSON.v
Endpoint.v
Merkle.v
Checkpoint.v
Update.v
Firewall.v
WitnessPolicy.v
Monitor.v
Reconstruct.v
SiteDescriptor.v
SiteChain.v
SitePublication.v
GF256.v
Kyber.v
RLNC.v
Decoder.v
Packet.v
Bounded.v
Replay.v
Sequence.v
Frame.v
RawCache.v
FairQueue.v
Node.v
Fabric.v
Scheduler.v
Topology.v
TopologyDocument.v
Watermark.v
Epoch.v
Chain.v
Revocation.v
Erasure.v
Rotation.v
Journal.v
Mix.v
Threshold.v
Committee.v
Rounds.v
Availability.v
Transcript.v
Airlock.v
Uplink.v
Handshake.v
PublishQueue.v
Drain.v
Publication.v
Batch.v
Generate.v
Materialize.v
Share.v
ObjectStore.v
