(* ===== verification/Prelude.v ===== *)
(** * Nomad: a verification development

    Nomad is a publication network in which an observer of the wire learns
    nothing from what a user publishes or reads.  An object is cut into fragments
    in a local queue; a drain hands one cell per tick of a public clock to an entry
    operator, work or cover; the operator's airlock collects the cells of an epoch,
    seals them into a batch of fixed size, a committee of mixers shuffles the batch
    and signs each round, a quorum of the committee decrypts it, and the fragments
    travel between operators as coded cells over constant-rate links.  Who the
    operators are is a signed topology; epochs succeed each other in a chain of
    descriptors that a quorum approves; site owners log their publications in a
    Merkle tree that witnesses cosign.

    ** Files, by part of the program

    Foundations: [Prelude] (results of fallible functions, integer widths, list
    lemmas, tactics, the hint database [nomad]), [Bytes] (big-endian integers,
    framed fields), [Hash] (the interface [HashFunction], collision freedom of a
    finite list of messages), [Sha256] (its instance, with the published test
    vectors), [Codec] (hexadecimal, base64, numbers, the order of names),
    [CanonicalJSON] ([src/live/topology/canonical.go]), [StrictJSON]
    ([src/live/strictjson]: the scan that refuses ambiguous documents).

    Transparency log, [src/sdk/nomad-local-reconstruction/site/transparency]:
    [Merkle] ([tree.go]), [Checkpoint] ([checkpoint.go]; also the interfaces
    [SignatureScheme] for Ed25519 and [Calendar] for RFC 3339), [WitnessPolicy]
    ([witness.go]), [Monitor] ([monitor.go], the log and [Witness]).

    Erasure code, [src/components/nomad-rlnc/rlnc]: [GF256], [RLNC], [Decoder],
    [Packet], [Bounded], each the file of that name.

    Links, [src/live/hop], [src/live/node] and
    [src/components/nomad-constant-rate-fabric/fabric]: [Replay] ([replay.go]),
    [Sequence] ([sequence.go] of [hop] and [uplink]), [Frame] ([frame.go]), [RawCache]
    ([src/live/rawcache/store.go]), [FairQueue] ([fairqueue.go]), [Node] ([node.go]:
    a cell received, cached, queued for its turn, relayed), [Fabric] ([cell.go]),
    [Scheduler] ([scheduler.go]).

    Sites, [src/sdk/nomad-local-reconstruction/site] and
    [src/components/nomad-local-reconstruction/reconstruct]: [Reconstruct]
    ([reconstruct.go], [manifest.go]; the interface [ObjectDecoder] to the erasure
    code), [SiteDescriptor] ([descriptor.go], [encoding.go]: the keys of a site and
    the policies under which they rotate and are recovered), [SiteChain]
    ([chain.go], [distribution.go]), [SitePublication] ([publication.go]).

    Membership, [src/live/topology], [src/live/epoch] and [src/live/committee]:
    [Endpoint] (the addresses of operators and their one spelling), [Topology]
    (documents, look-ups, connectivity), [TopologyDocument] (validation,
    attestations, signing and verification of [topology.go]), [Committee]
    ([certificate.go], [share.go]), [Watermark] ([watermark.go]), [Epoch]
    ([descriptor.go], [encoding.go], [vectors.go]), [Chain] ([chain.go]),
    [Revocation] ([revocation.go]), [Erasure] ([erasure.go]), [Rotation]
    ([rotation.go]), [Journal] ([journal.go]).

    Mixing, [src/components/nomad-anytrust-mix-sim/mix]: [Kyber] (interfaces to the
    cryptographic library), [Mix] ([mix.go]), [Threshold] ([threshold.go]),
    [Rounds] ([transcript.go], [blame.go]), [Availability] ([availability.go]),
    [Transcript] ([transcript_export.go]).

    Publication, [src/live]: [Airlock] ([airlock/]), [Uplink] ([uplink/session.go]),
    [Handshake] ([uplink/handshake.go]), [PublishQueue] ([publish/queue.go]), [Drain]
    ([deposit/]), [Publication] (the composition of airlock, rounds and threshold
    decryption), [Batch] ([batch/descriptor.go], [dto.go], [share.go] and
    [bundle/bundle.go]: an encrypted batch and its signed description), [Generate]
    ([batch/generate.go]: from an object to its batch).

    Reading, [src/live] and [src/browser]: [Share] ([share/], [partialfetch/],
    [fetchplan/]: partial decryptions from the operators to a reader), [Materialize]
    ([materialize/materializer.go]: from the batch and the partial decryptions to the
    object on disk), [ObjectStore] ([browser/objectstore]: from the disk to what is
    shown), [Update] ([browser/update] and [browser/cmd/nomad-browser-verify]: the
    releases of the client), [Firewall] ([src/components/nomad-selection-firewall]:
    the public emission plan).

    ** How code is modelled

    A Go function is a Rocq function of the same name; a method takes the receiver
    and returns it updated; an error is the [Err] of a [result] with one
    constructor per failure.  Integers keep their width where the code depends on
    it ([u16], [u32], [u64], [i64] write the wrap-around out).  Locks make calls
    atomic, so a run is a sequence of calls; code that does not lock is a step
    relation over its atomic operations ([Fabric.queue_step], [Drain.drain_step]).
    Files are maps from names to contents, with the content that survives a power
    loss kept apart where code syncs; the outcome of each call into the operating
    system, the clock and the random source are arguments.

    Code outside the repository is a class with the laws its documentation states,
    and every theorem that uses one has an instance on which its witness is
    evaluated: [HashFunction], [SignatureScheme], [Calendar], [KyberGroup], [Sharing],
    [RepProofs], [Shuffles], [AEAD], [HKDF], [X25519], [TopologyInputs] (URLs,
    X25519 keys), and the decoding of JSON into structures ([CommitteeJSON],
    [EpochJSON], [BatchJSON], [ReleaseJSON], [RevocationJSON], [SiteJSON],
    [FetchPlanJSON], [PartialEncoding], [ObjectJSON]).

    Interfaces between components are classes as well: [EpochInputs], what an epoch
    asks of topology and committee, has the instance [Committee.epoch_inputs];
    [ObjectDecoder], what reconstruction asks of the erasure code, has the instance
    [Materialize.packet_decoder]; [EpochGuard], what the share service asks of the
    epochs, has [Share.chain_guard] and [Share.window_guard].  Security statements assume
    collision freedom of the finite list of messages hashed, soundness of the
    accepted proofs at hand, or that the signatures presented under honest keys are
    those parties' own, as named hypotheses.

    ** What the theorems show

    Publication end to end: what takes a slot in the airlock comes out of the
    release, cover never does ([Publication.deposits_published],
    [Publication.epoch_seals], [Rounds.mixnet_end_to_end],
    [Threshold.threshold_decrypts_columns]), work leaves the queue in a cell
    that the airlock stores, if cells arrive in order and not in another window than
    the one they left in ([Drain.work_gets_its_slot]), every cell's header and nonce
    are those of a number that is never reused ([Drain.nonces_never_reused], [Sequence.sequence_unique]), the queue on disk
    implements a set of pending fragments ([PublishQueue.queue_refines_pending]),
    publisher and entry operator agree on a session that no replay repeats
    ([Handshake.handshake_establishes], [Handshake.responder_sessions]).

    Reading end to end: the batch a publisher generates verifies
    ([Generate.publication_verifies]) and a descriptor that verifies binds object,
    committee and mixing rounds ([Batch.batch_descriptor_sound]); the shares of the
    operators that are up reach the reader ([Share.shares_reach_reader],
    [Share.share_served_once], [Share.poll_order_irrelevant]); a threshold of them
    gives back the object ([Materialize.object_materialized]) and nothing else is
    ever stored ([Materialize.materialized_sound]) or shown
    ([ObjectStore.object_rendered], [ObjectStore.rendered_exactly]).

    Evidence: chains without a fault and transcripts that verify only permute
    ([Rounds.accepted_chain_permutes], [Transcript.transcript_sound]); availability
    reports hold an honest observer's word.

    Membership: one descriptor per epoch, one active epoch, equivocation halts,
    split brain needs a dishonest approver as long as no power loss takes away the
    latest entries of a journal ([Chain], [Journal]), revoked identities
    stay out ([Revocation]), digests bind what they sign ([Epoch], [Erasure]); a
    topology that verifies is attested by all its operators, connected and without
    a key, or an address of one kind, that two of them share ([TopologyDocument.topology_verified_sound],
    [Endpoint.endpoint_key_exact]), its digest stands for the whole document
    ([TopologyDocument.topology_digest_binds], [CanonicalJSON.canonical_text_exact]),
    the ambiguous texts are refused exactly ([StrictJSON.strict_json_exact]), and the
    committee of an epoch, key and members, is the one its topology's operators certified
    ([Committee.epoch_committee_bound]).

    Releases: installations only move forward, over approved manifests
    ([Update.installs_move_forward], [Update.release_approved],
    [Update.versions_exact]).  The emission plan is the public timetable
    ([Firewall.plan_exact]).

    Log: inclusion and consistency proofs are sound and complete, monitors only
    move forward, a split view needs equivocating witnesses.

    Sites: a publication is accepted only from a key the site's descriptor names
    and has not revoked ([SitePublication.publisher_verified_sound],
    [SitePublication.publication_accepted], [SitePublication.unknown_means_absent]);
    a revoked key never returns and a recovery needs the recovery quorum
    ([SiteDescriptor.revocation_absorbing], [SiteDescriptor.recovery_authority]);
    the followed history is one chain, its links are logged, and a publisher is
    accused only on two conflicting signatures ([SiteChain.site_history],
    [SiteChain.witnessed_links_logged], [SiteChain.accusation_needs_conflict]);
    what is reconstructed is the signed object ([Reconstruct.reconstruct_sound]).

    Coding and links: decoding returns what was encoded, budgets hold, the replay
    window implements the full history, sealed cells cannot be altered, the emission
    schedule does not depend on the work, queues are fair and first-in-first-out, a
    node relays a cell once, under a sequence number of its own and never a cover
    cell ([Node.wire_sequences_unique], [Node.relay_once],
    [Node.relay_cells_typed]).

    Some theorems state where the code departs from its comments
    ([Chain.failed_append_is_permanent], [Journal.journal_power_loss],
    [Rounds.honest_mixer_framed], [Airlock.occupancy_oracle],
    [Availability.deadline_exact], [Revocation.revocation_store_limits],
    [SiteDescriptor.recovery_blocked], [Node.peer_stops_node],
    [Endpoint.loopback_name_merged], [StrictJSON.case_variants_pass],
    [Update.one_approver_suffices], [Update.dash_after_final],
    [Firewall.cadence_wraps], [Share.garbage_blocks_reader],
    [ObjectStore.closing_bracket_passes], [Drain.late_cover_takes_slot]).

    ** Fuel

    Loops that are not structural carry fuel: the Merkle recursions and verifiers
    (64, the width of a tree size, or the number of leaves; shown to suffice by
    [Merkle.verifiers_terminate]), the refresh of a chain (one more than the files,
    [Chain.refreshLocked_ends]), the topology search (the number of operators),
    the scheduler (the number of slots asked for), the population count of a word
    (64, [Reconstruct.hamming_distance]), the walk over a JSON text (twice its length
    and two, which [StrictJSON.strict_json_exact] shows to be enough), the digits of a
    number (20, for 64 bits), the groups of an address (8), the symbol sizes that are
    tried (475, the capacity of a packet).

    ** Not modelled

    Sockets, TLS and UDP ([New], [Run] and the health file of [node.go],
    [entry.go], [udp.go], the HTTP client and server under [share] and
    [partialfetch], of which the requests and answers are modelled; the observer of
    [availability]); the decoding of JSON text into structures and the wrappers that
    load and encode files; key files and file permissions ([keysource.go],
    [secrets.go], [key.go]); the DKG protocol (it drives packages of kyber); the rest
    of the browser, embeddings and the ranking of results over floating point;
    command-line programs other than [nomad-browser-verify], the simulator, the
    generators of test vectors and the copies of packages under [src/sdk]. *)

From stdpp Require Import base list list_numbers sets gmap strings.
From Stdlib Require Import ZArith Lia.

#[global] Open Scope Z_scope.

(** ** Results of fallible Go functions *)

(** A Go function returning [(T, error)] returns [result E T]: either the
    value with a nil error, or one of the errors the function can produce. *)
Inductive result (E A : Type) : Type :=
| Ok (a : A)
| Err (e : E).
Arguments Ok {E A} a.
Arguments Err {E A} e.

#[export] Instance result_ret E : MRet (result E) := fun A a => Ok a.
#[export] Instance result_bind E : MBind (result E) := fun A B f m =>
  match m with Ok a => f a | Err e => Err e end.
#[export] Instance result_fmap E : FMap (result E) := fun A B f m =>
  match m with Ok a => Ok (f a) | Err e => Err e end.

#[export] Instance Ok_inj E A : Inj (=) (=) (@Ok E A).
Proof. by intros x y [= ->]. Qed.

Definition is_ok {E A} (r : result E A) : bool :=
  match r with Ok _ => true | Err _ => false end.

(** [wrap f r] is Go's [fmt.Errorf("...: %w", err)] on the error side. *)
Definition wrap {E F A} (f : E -> F) (r : result E A) : result F A :=
  match r with Ok a => Ok a | Err e => Err (f e) end.

(** ** Notation *)

Declare Scope go_scope.
Delimit Scope go_scope with go.
#[global] Open Scope go_scope.

(** Go's [len]: the length of a slice, array or string as an integer. *)
Notation len l := (Z.of_nat (length l)).

(** Unsigned machine arithmetic at width [w], wrapping as Go's does. *)
Definition wrapu (w : Z) (z : Z) : Z := z mod 2 ^ w.

Notation u16 := (wrapu 16).
Notation u32 := (wrapu 32).
Notation u64 := (wrapu 64).

(** Signed 64-bit arithmetic: Go's [int] and [int64] wrap to two's complement. *)
Definition i64 (z : Z) : Z := wrapu 64 (z + 2 ^ 63) - 2 ^ 63.

(** [fits w z]: [z] is a value of the [w]-bit unsigned type. *)
Definition fits (w z : Z) : Prop := 0 <= z < 2 ^ w.

#[export] Instance fits_dec w z : Decision (fits w z).
Proof. unfold fits. apply _. Defined.

(** ** Tactics *)

(** Split on every boolean test in the goal or in hypotheses, turning integer
    comparisons into propositions. *)
Ltac reflect_bools :=
  repeat match goal with
  | H : (_ && _)%bool = true |- _ => apply andb_true_iff in H; destruct H
  | H : (_ || _)%bool = false |- _ => apply orb_false_iff in H; destruct H
  | H : negb _ = true |- _ => apply negb_true_iff in H
  | H : negb _ = false |- _ => apply negb_false_iff in H
  | H : (_ <? _) = true |- _ => apply Z.ltb_lt in H
  | H : (_ <? _) = false |- _ => apply Z.ltb_ge in H
  | H : (_ <=? _) = true |- _ => apply Z.leb_le in H
  | H : (_ <=? _) = false |- _ => apply Z.leb_gt in H
  | H : (_ =? _) = true |- _ => apply Z.eqb_eq in H
  | H : (_ =? _) = false |- _ => apply Z.eqb_neq in H
  | H : bool_decide _ = true |- _ => apply bool_decide_eq_true in H
  | H : bool_decide _ = false |- _ => apply bool_decide_eq_false in H
  end.

(** Case analysis on the scrutinee of the first [if]/[match] of the goal. *)
Ltac case_goal :=
  match goal with
  | |- context [if ?b then _ else _] => destruct b eqn:?
  | |- context [match ?x with _ => _ end] => destruct x eqn:?
  end.

(** The same in a hypothesis. *)
Ltac case_hyp H :=
  match type of H with
  | context [if ?b then _ else _] => destruct b eqn:?
  | context [match ?x with _ => _ end] => destruct x eqn:?
  end.

(** Run through all the guards of a handler in hypothesis [H], discarding the
    branches that contradict the result [H] states. *)
Ltac run_guards H :=
  repeat (case_hyp H; try discriminate H); simplify_eq; reflect_bools.

(** Break up [Forall] facts about conses and concatenations. *)
Ltac split_forall :=
  repeat match goal with
  | H : Forall _ (_ :: _) |- _ => apply Forall_cons in H as [? H]
  | H : Forall _ (_ ++ _) |- _ => apply Forall_app in H as [? H]
  | H : Forall _ [] |- _ => clear H
  end.

Create HintDb nomad.

(** ** Machine integers *)

Lemma wrapu_small w z : fits w z -> wrapu w z = z.
Proof. unfold fits, wrapu. intros. by apply Z.mod_small. Qed.

Lemma i64_small z : - 2 ^ 63 <= z < 2 ^ 63 -> i64 z = z.
Proof. intros Hz. unfold i64. rewrite wrapu_small; [lia|]. unfold fits. lia. Qed.

Lemma wrapu_fits w z : 0 <= w -> fits w (wrapu w z).
Proof. unfold fits, wrapu. intros. apply Z.mod_pos_bound. lia. Qed.

#[export] Hint Resolve wrapu_fits : nomad.
#[export] Hint Rewrite wrapu_small using (unfold fits; lia) : nomad.

(** ** Lists *)

Lemma app_eq_length_inj {A} (x1 x2 y1 y2 : list A) :
  length x1 = length x2 -> x1 ++ y1 = x2 ++ y2 -> x1 = x2 /\ y1 = y2.
Proof. intros Hl He. by apply app_inj_1 in He. Qed.

Lemma take_app_exact {A} n (x y : list A) : length x = n -> take n (x ++ y) = x.
Proof. intros <-. apply take_app_length. Qed.

Lemma drop_app_exact {A} n (x y : list A) : length x = n -> drop n (x ++ y) = y.
Proof. intros <-. apply drop_app_length. Qed.

Lemma map_lookup_Some_1 {A B} (f : A -> B) l i y :
  map f l !! i = Some y -> exists x, l !! i = Some x /\ y = f x.
Proof. intros H. apply (list_lookup_fmap_Some f) in H as (x & -> & Hx). eauto. Qed.

Lemma elem_of_map_2 {A B} (f : A -> B) l x : x ∈ l -> f x ∈ map f l.
Proof. apply (list_elem_of_fmap_2 f). Qed.

(** A boolean search over [0..n-1]; used to discharge statements that range
    over a finite set of small integers by evaluation. *)
Fixpoint forall_below (n : nat) (p : nat -> bool) : bool :=
  match n with
  | O => true
  | S k => p k && forall_below k p
  end.

Lemma forall_below_spec n p :
  forall_below n p = true -> forall i, (i < n)%nat -> p i = true.
Proof.
  induction n as [|n IH]; simpl; intros H i Hi; [lia|].
  apply andb_true_iff in H as [Hp Hr].
  destruct (decide (i = n)) as [->|]; [done|]. apply IH; [done|lia].
Qed.

(** A list has at least as many elements as the set of them. *)
Lemma size_list_to_set_le `{Countable A} (l : list A) : (size (list_to_set l : gset A) <= length l)%nat.
Proof.
  induction l as [|x l IH]; [by rewrite list_to_set_nil, size_empty|].
  rewrite list_to_set_cons, size_union_alt, size_singleton. simpl.
  pose proof (subseteq_size (list_to_set l ∖ {[x]} : gset A) (list_to_set l) ltac:(set_solver)). lia.
Qed.

(** ** Loops that stop at the first error *)

(** [for _, a := range l { b, err := f(a); if err != nil { return err }; ... }] *)
Fixpoint collect {E A B} (f : A -> result E B) (l : list A) : result E (list B) :=
  match l with
  | [] => Ok []
  | a :: l => b ← f a; bs ← collect f l; Ok (b :: bs)
  end.

Lemma collect_ok {E A B} (f : A -> result E B) l r : collect f l = Ok r <-> Forall2 (fun a b => f a = Ok b) l r.
Proof.
  split.
  - revert r. induction l as [|a l IH]; intros r; simpl; [intros [= <-]; constructor|].
    destruct (f a) as [b|] eqn:Ea; [|done]. cbn [mbind result_bind]. destruct (collect f l) as [bs|]; [|done].
    intros [= <-]. constructor; [done|]. by apply IH.
  - induction 1 as [|a b l r Ha _ IH]; [done|]. simpl. rewrite Ha. cbn [mbind result_bind]. by rewrite IH.
Qed.

Lemma collect_ext {E A B} (f g : A -> result E B) l : (forall a, a ∈ l -> f a = g a) -> collect f l = collect g l.
Proof.
  induction l as [|a l IH]; intros Hfg; [done|]. simpl. rewrite Hfg by set_solver.
  rewrite IH by (intros; apply Hfg; set_solver). done.
Qed.

Lemma collect_total {E A B} (f : A -> B) l : collect (E := E) (fun a => Ok (f a)) l = Ok (map f l).
Proof. induction l as [|a l IH]; [done|]. simpl. by rewrite IH. Qed.

Lemma collect_map {E A B C} (f : B -> result E C) (g : A -> B) l : collect f (map g l) = collect (fun a => f (g a)) l.
Proof. induction l as [|a l IH]; [done|]. simpl. by rewrite IH. Qed.
