(* ===== verification/Bytes.v ===== *)
(** Bytes, big-endian integers and length-prefixed framing: the parts of Go's
    [encoding/binary] and [encoding/hex] that the components use, and the
    [appendUint64]/[appendString] helpers that every signed message of the
    program is built from. *)

From stdpp Require Import base list list_numbers sets gmap strings.
From Stdlib Require Import ZArith Lia Strings.Byte.
From S2P Require Import Prelude.

Notation byte := Byte.byte.

(** ** Bytes and integers *)

Definition Z_of_byte (b : byte) : Z := Z.of_N (Byte.to_N b).

(** Conversion to [byte] truncates to the low eight bits, as Go's does. *)
Definition byte_of_Z (z : Z) : byte :=
  match Byte.of_N (Z.to_N (wrapu 8 z)) with
  | Some b => b
  | None => x00
  end.

#[export] Instance byte_eq_dec : EqDecision byte.
Proof. intros a b. destruct (Byte.eqb a b) eqn:E.
  - left. by apply Byte.byte_dec_bl.
  - right. intros ->. by rewrite Byte.byte_dec_lb in E.
Defined.

Lemma Z_of_byte_range b : 0 <= Z_of_byte b < 256.
Proof. unfold Z_of_byte. pose proof (Byte.to_N_bounded b). lia. Qed.

Lemma Z_of_byte_of_Z z : Z_of_byte (byte_of_Z z) = wrapu 8 z.
Proof.
  unfold byte_of_Z, Z_of_byte.
  pose proof (wrapu_fits 8 z ltac:(lia)) as Hr. unfold fits in Hr. change (2 ^ 8) with 256 in Hr.
  destruct (Byte.of_N (Z.to_N (wrapu 8 z))) as [b|] eqn:E.
  - apply Byte.to_of_N in E. rewrite E. lia.
  - apply Byte.of_N_None_iff in E. lia.
Qed.

Lemma byte_of_Z_of_byte b : byte_of_Z (Z_of_byte b) = b.
Proof.
  unfold byte_of_Z. rewrite wrapu_small by (apply Z_of_byte_range).
  unfold Z_of_byte. rewrite N2Z.id, Byte.of_to_N. done.
Qed.

#[export] Instance Z_of_byte_inj : Inj (=) (=) Z_of_byte.
Proof. intros a b H. by rewrite <- (byte_of_Z_of_byte a), H, byte_of_Z_of_byte. Qed.

#[export] Instance byte_countable : Countable byte.
Proof.
  refine (inj_countable' Z_of_byte byte_of_Z byte_of_Z_of_byte).
Defined.

#[export] Hint Rewrite Z_of_byte_of_Z byte_of_Z_of_byte : nomad.

(** ** Bitwise operations on bytes *)

Definition bxor (a b : byte) : byte := byte_of_Z (Z.lxor (Z_of_byte a) (Z_of_byte b)).

Lemma byte_testbit_high b i : 8 <= i -> Z.testbit (Z_of_byte b) i = false.
Proof.
  intros Hi. pose proof (Z_of_byte_range b).
  rewrite <- (Z.mod_small (Z_of_byte b) (2 ^ 8)) by (change (2 ^ 8) with 256; lia).
  apply Z.mod_pow2_bits_high. lia.
Qed.

(** Two bytes are equal when their eight bits are. *)
Lemma byte_eq_bits a b :
  (forall i, 0 <= i < 8 -> Z.testbit (Z_of_byte a) i = Z.testbit (Z_of_byte b) i) -> a = b.
Proof.
  intros H. apply (inj Z_of_byte), Z.bits_inj'. intros i Hi.
  destruct (decide (i < 8)); [by apply H|].
  by rewrite !byte_testbit_high by lia.
Qed.

Lemma wrapu_testbit w z i : 0 <= i < w -> Z.testbit (wrapu w z) i = Z.testbit z i.
Proof. intros. unfold wrapu. apply Z.mod_pow2_bits_low. lia. Qed.

Lemma bxor_testbit a b i : 0 <= i < 8 ->
  Z.testbit (Z_of_byte (bxor a b)) i =
  xorb (Z.testbit (Z_of_byte a) i) (Z.testbit (Z_of_byte b) i).
Proof.
  intros. unfold bxor. by rewrite Z_of_byte_of_Z, wrapu_testbit, Z.lxor_spec by lia.
Qed.

Ltac byte_bits :=
  apply byte_eq_bits; intros; rewrite ?bxor_testbit by lia;
  repeat match goal with |- context [Z.testbit (Z_of_byte ?b) ?i] =>
    destruct (Z.testbit (Z_of_byte b) i) end; try done.

Lemma bxor_comm a b : bxor a b = bxor b a.
Proof. byte_bits. Qed.
Lemma bxor_assoc a b c : bxor a (bxor b c) = bxor (bxor a b) c.
Proof. byte_bits. Qed.
Lemma bxor_0_l a : bxor x00 a = a.
Proof. apply byte_eq_bits; intros. rewrite bxor_testbit by lia.
  change (Z_of_byte x00) with 0. by rewrite Z.bits_0, xorb_false_l. Qed.
Lemma bxor_0_r a : bxor a x00 = a.
Proof. by rewrite bxor_comm, bxor_0_l. Qed.
Lemma bxor_diag a : bxor a a = x00.
Proof. apply byte_eq_bits; intros. rewrite bxor_testbit by lia.
  change (Z_of_byte x00) with 0. by rewrite Z.bits_0, xorb_nilpotent. Qed.
Lemma bxor_cancel a b : bxor (bxor a b) b = a.
Proof. by rewrite <- bxor_assoc, bxor_diag, bxor_0_r. Qed.

(** ** Big-endian encoding *)

(** [be n v] is [v] as [n] big-endian bytes: [PutUint16], [PutUint32] and
    [AppendUint64] are [be 2], [be 4] and [be 8]. *)
Fixpoint be (n : nat) (v : Z) : list byte :=
  match n with
  | O => []
  | S k => be k (v / 256) ++ [byte_of_Z v]
  end.

(** [be_val l] is [Uint16]/[Uint32]/[Uint64] of the bytes [l]. *)
Definition be_val (l : list byte) : Z :=
  fold_left (fun acc b => acc * 256 + Z_of_byte b) l 0.

Lemma length_be n v : length (be n v) = n.
Proof. revert v; induction n; intros v; simpl; [done|]. rewrite length_app, IHn. simpl. lia. Qed.

Lemma be_val_snoc l b : be_val (l ++ [b]) = be_val l * 256 + Z_of_byte b.
Proof. unfold be_val. by rewrite fold_left_app. Qed.

Lemma be_val_be n v : be_val (be n v) = v mod 256 ^ Z.of_nat n.
Proof.
  revert v; induction n as [|n IH]; intros v.
  - simpl. by rewrite Z.mod_1_r.
  - cbn [be]. rewrite be_val_snoc, IH, Z_of_byte_of_Z. unfold wrapu. change (2 ^ 8) with 256.
    rewrite Nat2Z.inj_succ, Z.pow_succ_r by lia.
    rewrite Z.rem_mul_r by lia. lia.
Qed.

Lemma be_val_be_fits n v : 0 <= v < 256 ^ Z.of_nat n -> be_val (be n v) = v.
Proof. intros. rewrite be_val_be. by apply Z.mod_small. Qed.

Lemma be_val_range l : 0 <= be_val l < 256 ^ len l.
Proof.
  induction l as [|b l IH] using rev_ind; [unfold be_val; simpl; lia|].
  rewrite be_val_snoc, length_app. simpl length.
  replace (Z.of_nat (length l + 1)) with (Z.succ (len l)) by lia.
  rewrite Z.pow_succ_r by lia. pose proof (Z_of_byte_range b). nia.
Qed.

Lemma be_be_val l : be (length l) (be_val l) = l.
Proof.
  induction l as [|b l IH] using rev_ind; [done|].
  rewrite length_app, be_val_snoc. simpl length. rewrite Nat.add_1_r. cbn [be].
  pose proof (Z_of_byte_range b).
  rewrite (Z.div_add_l _ 256), (Z.div_small (Z_of_byte b)), Z.add_0_r, IH by lia.
  f_equal. f_equal. apply (inj Z_of_byte).
  rewrite Z_of_byte_of_Z. unfold wrapu. change (2 ^ 8) with 256.
  rewrite Z.add_comm, Z_mod_plus_full. apply Z.mod_small. lia.
Qed.

Lemma be_inj n v w :
  0 <= v < 256 ^ Z.of_nat n -> 0 <= w < 256 ^ Z.of_nat n -> be n v = be n w -> v = w.
Proof. intros Hv Hw H. by rewrite <- (be_val_be_fits n v Hv), H, be_val_be_fits. Qed.

#[export] Hint Rewrite length_be : nomad.

(** ** Length-prefixed framing *)

(** [binary.BigEndian.AppendUint64(out, value)]. *)
Definition appendUint64 (out : list byte) (value : Z) : list byte := out ++ be 8 value.

(** Every variable-length field is written after its own length. *)
Definition appendString (out value : list byte) : list byte :=
  appendUint64 out (len value) ++ value.

(** A Go slice or string never exceeds the range of a 64-bit length. *)
Definition addressable (l : list byte) : Prop := len l < 2 ^ 63.

#[export] Instance addressable_dec l : Decision (addressable l).
Proof. unfold addressable. apply _. Defined.

Lemma be8_len_inj (v w : list byte) :
  addressable v -> addressable w -> be 8 (len v) = be 8 (len w) -> length v = length w.
Proof.
  unfold addressable. intros Hv Hw H. change (2 ^ 63) with 9223372036854775808 in *.
  apply be_inj in H; change (256 ^ Z.of_nat 8) with 18446744073709551616 in *; lia.
Qed.

(** Framed fields determine their contents and what follows them: moving a
    field boundary cannot produce the same bytes. *)
Lemma appendString_split p v w r s :
  addressable v -> addressable w ->
  appendString p v ++ r = appendString p w ++ s -> v = w /\ r = s.
Proof.
  unfold appendString, appendUint64. rewrite <- !app_assoc. intros Hv Hw H.
  apply app_inv_head in H.
  apply app_eq_length_inj in H as [Hl H]; [|by rewrite !length_be].
  apply app_eq_length_inj in H; [done|]. by apply be8_len_inj.
Qed.

Lemma appendUint64_split p v w r s :
  fits 64 v -> fits 64 w ->
  appendUint64 p v ++ r = appendUint64 p w ++ s -> v = w /\ r = s.
Proof.
  unfold appendUint64, fits. rewrite <- !app_assoc. intros Hv Hw H.
  apply app_inv_head in H.
  apply app_eq_length_inj in H as [Hl H]; [|by rewrite !length_be].
  by apply be_inj in Hl.
Qed.

(** ** Slices *)

(** Go's [source[i:j]], for bounds within the slice. *)
Definition slice (source : list byte) (i j : nat) : list byte := take (j - i) (drop i source).

Lemma slice_app_at pre x post i j : length pre = i -> (length x = j - i)%nat ->
  slice (pre ++ x ++ post) i j = x.
Proof. intros Hp Hx. unfold slice. rewrite drop_app_exact by done. by apply take_app_exact. Qed.

(** Cutting a string at two places and gluing it back. *)
Lemma slice_join wire i j k : (i <= j <= k)%nat -> slice wire i j ++ slice wire j k = slice wire i k.
Proof.
  intros H. unfold slice. replace (drop j wire) with (drop (j - i) (drop i wire)).
  - rewrite <- (take_drop (j - i) (take (k - i) (drop i wire))). rewrite take_take.
    replace (Nat.min (j - i) (k - i)) with (j - i)%nat by lia. f_equal.
    rewrite skipn_firstn_comm. f_equal. lia.
  - rewrite drop_drop. f_equal. lia.
Qed.

Lemma length_slice wire i j : (i <= j <= length wire)%nat -> length (slice wire i j) = (j - i)%nat.
Proof. intros H. unfold slice. rewrite length_take, length_drop. lia. Qed.

Lemma slice_all wire : slice wire 0 (length wire) = wire.
Proof. unfold slice. rewrite Nat.sub_0_r, drop_0. apply take_ge. lia. Qed.
