(* ===== verification/Hash.v ===== *)
(** The hash functions of Go's [crypto/sha256] and [crypto/hmac], as an
    interface.  Components are verified against [HashFunction]; [Sha256.v]
    provides the SHA-256 instance. *)

From stdpp Require Import base list list_numbers sets.
From Stdlib Require Import ZArith Lia Strings.Byte.
From S2P Require Import Prelude Bytes.

(** A Go [[32]byte]: a list of exactly 32 bytes. *)
Definition is_digest (h : list byte) : Prop := length h = 32%nat.

#[export] Instance is_digest_dec h : Decision (is_digest h).
Proof. unfold is_digest. apply _. Defined.

Lemma all_digests l : forallb (fun h => Nat.eqb (length h) 32) l = true -> Forall is_digest l.
Proof.
  rewrite forallb_forall. intros Hl. apply Forall_forall. intros h Hh.
  by apply Nat.eqb_eq, Hl, list_elem_of_In.
Qed.

Class HashFunction := {
  sha256 : list byte -> list byte;
  sha256_digest : forall m, is_digest (sha256 m);
}.

#[export] Hint Resolve sha256_digest : nomad.

(** [collision_free ms]: no two distinct messages of [ms] share a digest.
    Security statements assume it of the messages that were actually hashed,
    a finite list, because no function onto 32 bytes is injective everywhere. *)
Definition collision_free `{HashFunction} (ms : list (list byte)) : Prop :=
  forall x y, x ∈ ms -> y ∈ ms -> sha256 x = sha256 y -> x = y.

Section collision_free.
Context `{HashFunction}.

Lemma collision_free_mono ms ns :
  (forall m, m ∈ ns -> m ∈ ms) -> collision_free ms -> collision_free ns.
Proof. unfold collision_free. eauto. Qed.

Lemma collision_free_app_l ms ns : collision_free (ms ++ ns) -> collision_free ms.
Proof. apply collision_free_mono. set_solver. Qed.

Lemma collision_free_app_r ms ns : collision_free (ms ++ ns) -> collision_free ns.
Proof. apply collision_free_mono. set_solver. Qed.
End collision_free.

(** The same test as a boolean, for evaluation on concrete message lists. *)
Definition collision_freeb `{HashFunction} (ms : list (list byte)) : bool :=
  let hs := map (fun m => (m, sha256 m)) ms in
  forallb (fun p => forallb (fun q =>
    orb (bool_decide (p.1 = q.1)) (negb (bool_decide (p.2 = q.2)))) hs) hs.

Lemma collision_freeb_ok `{HashFunction} ms : collision_freeb ms = true -> collision_free ms.
Proof.
  unfold collision_freeb, collision_free. intros Hb x y Hx Hy He.
  rewrite forallb_forall in Hb.
  specialize (Hb (x, sha256 x)). rewrite forallb_forall in Hb.
  specialize (Hb (in_map (fun m => (m, sha256 m)) _ _ (proj1 (list_elem_of_In _ _) Hx)) (y, sha256 y)
                 (in_map (fun m => (m, sha256 m)) _ _ (proj1 (list_elem_of_In _ _) Hy))).
  apply orb_true_iff in Hb as [Hb|Hb]; reflect_bools; simpl in *; congruence.
Qed.

(** HMAC (RFC 2104) over the hash function with a 64-byte block, for the
    32-byte keys the program uses: the key is zero-padded to one block. *)
Definition hmac `{HashFunction} (key message : list byte) : list byte :=
  let block := key ++ replicate (64 - length key) x00 in
  let ipad := map (fun b => bxor b x36) block in
  let opad := map (fun b => bxor b x5c) block in
  sha256 (opad ++ sha256 (ipad ++ message)).

Lemma hmac_digest `{HashFunction} key message : is_digest (hmac key message).
Proof. apply sha256_digest. Qed.
#[export] Hint Resolve hmac_digest : nomad.

(** A cheap instance for evaluating examples: a rolling checksum over a window
    of 32 bytes.  It satisfies the interface and distinguishes the few messages
    an example hashes; it is no cryptographic hash. *)
Definition roll (window : list byte) (b : byte) : list byte :=
  match window with
  | [] => []
  | h :: rest => rest ++ [byte_of_Z (5 * Z_of_byte h + Z_of_byte b + 7)]
  end.

Lemma length_roll window b : length (roll window b) = length window.
Proof. destruct window; [done|]. simpl. rewrite length_app. simpl. lia. Qed.

Definition example_hash : HashFunction.
Proof.
  refine {| sha256 := fun m => fold_left roll m (replicate 32 x00) |}.
  intros m. unfold is_digest. assert (length (replicate 32 x00) = 32%nat) as Hl by done.
  revert Hl. generalize (replicate 32 x00) as w. induction m as [|b m IH]; intros w Hw; simpl; [done|].
  apply IH. by rewrite length_roll.
Defined.
