(* ===== verification/Sha256.v ===== *)
(** SHA-256 (FIPS 180-4), the instance of [HashFunction] behind Go's
    [crypto/sha256].  Words are 32-bit integers with their wrap-around written
    out.  The examples at the end are the published test vectors. *)

From stdpp Require Import base list list_numbers.
From Stdlib Require Import ZArith Lia Strings.Byte.
From S2P Require Import Prelude Bytes Hash.

Module SHA256.

Definition rotr (n x : Z) : Z := Z.lor (Z.shiftr x n) (u32 (Z.shiftl x (32 - n))).
Definition not32 (x : Z) : Z := 4294967295 - x.

Definition Ch (x y z : Z) : Z := Z.lxor (Z.land x y) (Z.land (not32 x) z).
Definition Maj (x y z : Z) : Z := Z.lxor (Z.lxor (Z.land x y) (Z.land x z)) (Z.land y z).
Definition Sigma0 (x : Z) : Z := Z.lxor (Z.lxor (rotr 2 x) (rotr 13 x)) (rotr 22 x).
Definition Sigma1 (x : Z) : Z := Z.lxor (Z.lxor (rotr 6 x) (rotr 11 x)) (rotr 25 x).
Definition sigma0 (x : Z) : Z := Z.lxor (Z.lxor (rotr 7 x) (rotr 18 x)) (Z.shiftr x 3).
Definition sigma1 (x : Z) : Z := Z.lxor (Z.lxor (rotr 17 x) (rotr 19 x)) (Z.shiftr x 10).

(** The constants, from their definition in the standard: the first 32 bits
    of the fractional parts of the cube roots of the first 64 primes, and of
    the square roots of the first 8. *)
Definition is_prime (p : Z) : bool :=
  forallb (fun d => negb (p mod Z.of_nat d =? 0)) (seq 2 (Z.to_nat p - 2)).
Definition primes : list Z := filter (fun p => is_prime p = true) (map Z.of_nat (seq 2 310)).

(** The integer cube root by setting bits from bit [n] down. *)
Fixpoint cbrt_bits (n : nat) (r x : Z) : Z :=
  let r' := r + 2 ^ Z.of_nat n in
  let r := if r' ^ 3 <=? x then r' else r in
  match n with
  | O => r
  | S n => cbrt_bits n r x
  end.

Definition K : list Z := Eval vm_compute in
  map (fun p => u32 (cbrt_bits 35 0 (p * 2 ^ 96))) primes.

Definition H0 : list Z := Eval vm_compute in
  map (fun p => u32 (Z.sqrt (p * 2 ^ 64))) (take 8 primes).

(** One round on the working variables, given the round's constant plus
    schedule word. *)
Definition round (s : list Z) (kw : Z) : list Z :=
  match s with
  | [a; b; c; d; e; f; g; h] =>
      let t1 := u32 (h + Sigma1 e + Ch e f g + kw) in
      let t2 := u32 (Sigma0 a + Maj a b c) in
      [u32 (t1 + t2); a; b; c; u32 (d + t1); e; f; g]
  | _ => s
  end.

(** The message schedule, run as a sliding window of the last sixteen words:
    [rounds] consumes the window's head and appends the next word. *)
Definition next_word (w : list Z) : Z :=
  u32 (sigma1 (nth 14 w 0) + nth 9 w 0 + sigma0 (nth 1 w 0) + nth 0 w 0).

Fixpoint rounds (ks : list Z) (w s : list Z) : list Z :=
  match ks with
  | [] => s
  | k :: ks => rounds ks (tail w ++ [next_word w]) (round s (k + nth 0 w 0))
  end.

Fixpoint words (n : nat) (bs : list byte) : list Z :=
  match n with
  | O => []
  | S k => be_val (take 4 bs) :: words k (drop 4 bs)
  end.

Definition compress (h : list Z) (block : list byte) : list Z :=
  zip_with (fun x y => u32 (x + y)) h (rounds K (words 16 block) h).

Definition pad (m : list byte) : list byte :=
  let l := length m in
  let zeros := Nat.modulo (119 - Nat.modulo l 64) 64 in
  m ++ [x80] ++ replicate zeros x00 ++ be 8 (8 * Z.of_nat l).

Fixpoint blocks (n : nat) (h : list Z) (bs : list byte) : list Z :=
  match n with
  | O => h
  | S k => blocks k (compress h (take 64 bs)) (drop 64 bs)
  end.

Definition digest (m : list byte) : list byte :=
  let p := pad m in
  concat (map (be 4) (blocks (Nat.div (length p) 64) H0 p)).

Lemma round_length s kw : length s = 8%nat -> length (round s kw) = 8%nat.
Proof. intros H. by destruct s as [|a [|b [|c [|d [|e [|f [|g [|h [|]]]]]]]]]. Qed.

Lemma rounds_length ks w s : length s = 8%nat -> length (rounds ks w s) = 8%nat.
Proof. revert w s. induction ks; simpl; intros; [done|]. by apply IHks, round_length. Qed.

Lemma blocks_length n h bs : length h = 8%nat -> length (blocks n h bs) = 8%nat.
Proof.
  revert h bs. induction n; simpl; intros h bs Hh; [done|].
  apply IHn. unfold compress. rewrite length_zip_with, rounds_length; lia.
Qed.

Lemma digest_length m : is_digest (digest m).
Proof.
  unfold is_digest, digest.
  pose proof (blocks_length (Nat.div (length (pad m)) 64) H0 (pad m) eq_refl) as Hl.
  revert Hl. generalize (blocks (Nat.div (length (pad m)) 64) H0 (pad m)). intros h Hh.
  do 9 (destruct h as [|? h]; try discriminate Hh).
  cbn [map concat]. by rewrite !length_app, !length_be.
Qed.

End SHA256.

#[export] Instance SHA256_hash : HashFunction :=
  {| sha256 := SHA256.digest; sha256_digest := SHA256.digest_length |}.

(** FIPS 180-4 vectors: the empty message and "abc". *)
Example sha256_empty_vector :
  map Z_of_byte (sha256 []) =
  [0xe3;0xb0;0xc4;0x42;0x98;0xfc;0x1c;0x14;0x9a;0xfb;0xf4;0xc8;0x99;0x6f;0xb9;0x24;
   0x27;0xae;0x41;0xe4;0x64;0x9b;0x93;0x4c;0xa4;0x95;0x99;0x1b;0x78;0x52;0xb8;0x55].
Proof. vm_compute. reflexivity. Qed.

Example sha256_abc_vector :
  map Z_of_byte (sha256 [x61; x62; x63]) =
  [0xba;0x78;0x16;0xbf;0x8f;0x01;0xcf;0xea;0x41;0x41;0x40;0xde;0x5d;0xae;0x22;0x23;
   0xb0;0x03;0x61;0xa3;0x96;0x17;0x7a;0x9c;0xb4;0x10;0xff;0x61;0xf2;0x00;0x15;0xad].
Proof. vm_compute. reflexivity. Qed.
