(* ===== verification/Codec.v ===== *)
(** The text encodings of Go's standard library that signed documents use:
    [encoding/hex] and [encoding/base64] ([StdEncoding], strict decoding). *)

From stdpp Require Import base list list_numbers.
From Stdlib Require Import ZArith Lia Strings.Byte.
From S2P Require Import Prelude Bytes.

(** ** Hexadecimal *)

(** The digit of a value below 16, lower case. *)
Definition hex_digit (v : Z) : byte := if v <? 10 then byte_of_Z (48 + v) else byte_of_Z (87 + v).

(** The value of a digit; decoding accepts both cases. *)
Definition hex_value (b : byte) : option Z :=
  let c := Z_of_byte b in
  if (48 <=? c) && (c <=? 57) then Some (c - 48)
  else if (97 <=? c) && (c <=? 102) then Some (c - 87)
  else if (65 <=? c) && (c <=? 70) then Some (c - 55)
  else None.

Definition hex_encode (l : list byte) : list byte :=
  flat_map (fun b => [hex_digit (Z_of_byte b / 16); hex_digit (Z_of_byte b mod 16)]) l.

Fixpoint hex_decode (l : list byte) : option (list byte) :=
  match l with
  | [] => Some []
  | h :: lo :: l =>
      vh ← hex_value h; vl ← hex_value lo; rest ← hex_decode l;
      Some (byte_of_Z (16 * vh + vl) :: rest)
  | [_] => None
  end.

Lemma hex_value_digit v : 0 <= v < 16 -> hex_value (hex_digit v) = Some v.
Proof.
  intros Hv. assert (v ∈ seqZ 0 16) as Hin by (apply elem_of_seqZ; lia).
  revert v Hv Hin. assert (Forall (fun v => hex_value (hex_digit v) = Some v) (seqZ 0 16)) as Hall
    by (repeat constructor).
  intros v Hv Hin. exact (proj1 (Forall_forall _ _) Hall v Hin).
Qed.

Lemma hex_decode_encode l : hex_decode (hex_encode l) = Some l.
Proof.
  induction l as [|b l IH]; [done|]. cbn [hex_encode flat_map app hex_decode].
  pose proof (Z_of_byte_range b) as Hb.
  rewrite !hex_value_digit by (split; [apply Z.div_pos || apply Z.mod_pos_bound|
    apply Z.div_lt_upper_bound || apply Z.mod_pos_bound]; lia).
  simpl. unfold hex_encode in IH. rewrite IH. simpl.
  rewrite <- (Z.div_mod (Z_of_byte b) 16) by lia. by rewrite byte_of_Z_of_byte.
Qed.

Lemma hex_encode_inj a b : hex_encode a = hex_encode b -> a = b.
Proof. intros E. apply (inj Some). by rewrite <- !hex_decode_encode, E. Qed.

Lemma length_hex_encode d : length (hex_encode d) = (2 * length d)%nat.
Proof.
  unfold hex_encode. induction d as [|b d IH]; [done|]. simpl. rewrite IH. lia.
Qed.

(** ** Base64 *)

Definition b64_digit (v : Z) : byte :=
  if v <? 26 then byte_of_Z (65 + v)
  else if v <? 52 then byte_of_Z (71 + v)
  else if v <? 62 then byte_of_Z (v - 4)
  else if v =? 62 then x2b else x2f.

Definition b64_value (b : byte) : option Z :=
  let c := Z_of_byte b in
  if (65 <=? c) && (c <=? 90) then Some (c - 65)
  else if (97 <=? c) && (c <=? 122) then Some (c - 71)
  else if (48 <=? c) && (c <=? 57) then Some (c + 4)
  else if c =? 43 then Some 62
  else if c =? 47 then Some 63
  else None.

Definition b64_pad : byte := x3d.

(** [EncodeToString]: three bytes to four digits, the last group padded. *)
Fixpoint b64_encode (l : list byte) : list byte :=
  match l with
  | [] => []
  | [a] =>
      let v := Z_of_byte a * 65536 in
      [b64_digit (v / 262144); b64_digit (v / 4096 mod 64); b64_pad; b64_pad]
  | [a; b] =>
      let v := Z_of_byte a * 65536 + Z_of_byte b * 256 in
      [b64_digit (v / 262144); b64_digit (v / 4096 mod 64); b64_digit (v / 64 mod 64); b64_pad]
  | a :: b :: c :: l =>
      let v := Z_of_byte a * 65536 + Z_of_byte b * 256 + Z_of_byte c in
      b64_digit (v / 262144) :: b64_digit (v / 4096 mod 64) :: b64_digit (v / 64 mod 64) ::
      b64_digit (v mod 64) :: b64_encode l
  end.

(** Strict decoding of a string without line breaks: padding only in the last
    group, and its unused bits must be zero. *)
Fixpoint b64_decode_groups (l : list byte) : option (list byte) :=
  match l with
  | [] => Some []
  | c0 :: c1 :: c2 :: c3 :: l =>
      v0 ← b64_value c0; v1 ← b64_value c1;
      if bool_decide (c2 = b64_pad) then
        if bool_decide (c3 = b64_pad) && bool_decide (l = []) && (v1 mod 16 =? 0)
        then Some [byte_of_Z (v0 * 4 + v1 / 16)] else None
      else
        v2 ← b64_value c2;
        if bool_decide (c3 = b64_pad) then
          if bool_decide (l = []) && (v2 mod 4 =? 0)
          then Some [byte_of_Z (v0 * 4 + v1 / 16); byte_of_Z (v1 * 16 + v2 / 4)] else None
        else
          v3 ← b64_value c3;
          rest ← b64_decode_groups l;
          Some (byte_of_Z (v0 * 4 + v1 / 16) :: byte_of_Z (v1 * 16 + v2 / 4) ::
                byte_of_Z (v2 * 64 + v3) :: rest)
  | _ => None
  end.

(** [Strict().DecodeString] skips carriage returns and line feeds. *)
Definition b64_decode (l : list byte) : option (list byte) :=
  b64_decode_groups (filter (fun b => b <> x0d /\ b <> x0a) l).

Lemma b64_value_digit v : 0 <= v < 64 ->
  b64_value (b64_digit v) = Some v /\ b64_digit v <> b64_pad /\
  b64_digit v <> x0d /\ b64_digit v <> x0a.
Proof.
  intros Hv. assert (v ∈ seqZ 0 64) as Hin by (apply elem_of_seqZ; lia).
  assert (Forall (fun v => b64_value (b64_digit v) = Some v /\ b64_digit v <> b64_pad /\
    b64_digit v <> x0d /\ b64_digit v <> x0a) (seqZ 0 64)) as Hall.
  { repeat (constructor; [by split_and!|]). constructor. }
  exact (proj1 (Forall_forall _ _) Hall v Hin).
Qed.

Lemma byte_of_Z_eq z b : 0 <= z - Z_of_byte b -> (z - Z_of_byte b) mod 256 = 0 -> byte_of_Z z = b.
Proof.
  intros Hz Hm. apply (inj Z_of_byte). rewrite Z_of_byte_of_Z. unfold wrapu. change (2 ^ 8) with 256.
  pose proof (Z_of_byte_range b). Z.to_euclidean_division_equations. lia.
Qed.

(** Induction in steps of three bytes. *)
Lemma triple_ind (P : list byte -> Prop) :
  P [] -> (forall a, P [a]) -> (forall a b, P [a; b]) ->
  (forall a b c l, P l -> P (a :: b :: c :: l)) -> forall l, P l.
Proof.
  intros H0 H1 H2 H3 l. assert (P l /\ (forall a, P (a :: l)) /\ forall a b, P (a :: b :: l)) as [H _]; [|done].
  induction l as [|c l (IH0 & IH1 & IH2)]; [done|]. split_and!; auto.
Qed.

(** Rewrites with one digit's facts. *)
Ltac b64_step v :=
  let Hv := fresh in let Hp := fresh in
  destruct (b64_value_digit v) as (Hv & Hp & _); [Z.to_euclidean_division_equations; lia|];
  rewrite ?Hv; rewrite ?(bool_decide_false _ Hp).

Ltac b64_bytes :=
  repeat f_equal; try (apply byte_of_Z_eq; Z.to_euclidean_division_equations; lia).

Lemma b64_groups_encode l : b64_decode_groups (b64_encode l) = Some l.
Proof.
  induction l as [|a|a b|a b c l IH] using triple_ind; [done|..]; cbn [b64_encode b64_decode_groups];
    pose proof (Z_of_byte_range a) as Ha; try pose proof (Z_of_byte_range b) as Hb;
    try pose proof (Z_of_byte_range c) as Hc.
  - set (v := _ * 65536). b64_step (v / 262144). b64_step (v / 4096 mod 64). simpl.
    rewrite (proj2 (Z.eqb_eq _ _)) by (unfold v; Z.to_euclidean_division_equations; lia).
    unfold v. b64_bytes.
  - set (v := _ * 65536 + _). b64_step (v / 262144). b64_step (v / 4096 mod 64).
    b64_step (v / 64 mod 64). simpl.
    rewrite (proj2 (Z.eqb_eq _ _)) by (unfold v; Z.to_euclidean_division_equations; lia).
    unfold v. b64_bytes.
  - set (v := _ * 65536 + _ + _). b64_step (v / 262144). b64_step (v / 4096 mod 64).
    b64_step (v / 64 mod 64). b64_step (v mod 64). simpl. rewrite IH. simpl. unfold v. b64_bytes.
Qed.

Lemma b64_encode_no_breaks l : Forall (fun b => b <> x0d /\ b <> x0a) (b64_encode l).
Proof.
  assert (forall v, 0 <= v < 64 -> b64_digit v <> x0d /\ b64_digit v <> x0a) as Hd.
  { intros v Hv. by destruct (b64_value_digit v Hv) as (_ & _ & ?). }
  induction l as [|a|a b|a b c l IH] using triple_ind; cbn [b64_encode];
    try pose proof (Z_of_byte_range a); try pose proof (Z_of_byte_range b); try pose proof (Z_of_byte_range c);
    repeat constructor; try done; try apply Hd; Z.to_euclidean_division_equations; lia.
Qed.

Lemma filter_all {A} (P : A -> Prop) `{forall x, Decision (P x)} l : Forall P l -> filter P l = l.
Proof.
  induction 1 as [|x l Hx Hl IH]; [done|]. by rewrite filter_cons, decide_True, IH.
Qed.

Lemma b64_decode_encode l : b64_decode (b64_encode l) = Some l.
Proof.
  unfold b64_decode. rewrite (filter_all _ _ (b64_encode_no_breaks l)).
  apply b64_groups_encode.
Qed.

(** The check the verifiers make: the text decodes, to [size] bytes, and is
    the text that encoding those bytes gives. *)
Definition canonical_base64 (text : list byte) (size : nat) : option (list byte) :=
  raw ← b64_decode text;
  if negb (Nat.eqb (length raw) size) then None
  else if negb (bool_decide (b64_encode raw = text)) then None
  else Some raw.

Lemma canonical_base64_encode raw size : length raw = size ->
  canonical_base64 (b64_encode raw) size = Some raw.
Proof.
  intros <-. unfold canonical_base64. rewrite b64_decode_encode. simpl.
  by rewrite Nat.eqb_refl, bool_decide_true.
Qed.

Lemma canonical_base64_unique text size raw : canonical_base64 text size = Some raw ->
  length raw = size /\ text = b64_encode raw.
Proof.
  unfold canonical_base64. destruct (b64_decode text) as [r|]; [|done]. simpl.
  destruct (Nat.eqb_spec (length r) size) as [Hl|]; [|done]. simpl. case_bool_decide; [|done].
  by intros [= <-].
Qed.

Definition canonical_hex (text : list byte) (size : nat) : option (list byte) :=
  raw ← hex_decode text;
  if negb (Nat.eqb (length raw) size) || negb (bool_decide (hex_encode raw = text)) then None
  else Some raw.

Lemma canonical_hex_encode raw size : length raw = size ->
  canonical_hex (hex_encode raw) size = Some raw.
Proof.
  intros <-. unfold canonical_hex. rewrite hex_decode_encode. simpl. by rewrite Nat.eqb_refl, bool_decide_true.
Qed.

Lemma canonical_hex_unique text size raw : canonical_hex text size = Some raw ->
  length raw = size /\ text = hex_encode raw.
Proof.
  unfold canonical_hex. destruct (hex_decode text) as [r|]; [|done]. simpl.
  destruct (Nat.eqb_spec (length r) size) as [Hl|]; [|done]. simpl. case_bool_decide; [|done].
  by intros [= <-].
Qed.

(** ** Strict base64 has one text per byte string *)

Lemma b64_digit_value c v : b64_value c = Some v -> 0 <= v < 64 /\ b64_digit v = c.
Proof.
  destruct c; intros E; vm_compute in E; first [discriminate E|injection E as <-; split; [lia|reflexivity]].
Qed.

Lemma quad_ind (P : list byte -> Prop) :
  P [] -> (forall a, P [a]) -> (forall a b, P [a; b]) -> (forall a b c, P [a; b; c]) ->
  (forall a b c d l, P l -> P (a :: b :: c :: d :: l)) -> forall l, P l.
Proof.
  intros H0 H1 H2 H3 H4 l.
  assert (P l /\ (forall a, P (a :: l)) /\ (forall a b, P (a :: b :: l)) /\ forall a b c, P (a :: b :: c :: l))
    as [H _]; [|done].
  induction l as [|d l (IH0 & IH1 & IH2 & IH3)]; [done|]. split_and!; auto.
Qed.

(** The digits of a group, recomputed from the bytes it decodes to. *)
Lemma b64_regroup v0 v1 v2 v3 : 0 <= v0 < 64 -> 0 <= v1 < 64 -> 0 <= v2 < 64 -> 0 <= v3 < 64 ->
  let a := Z_of_byte (byte_of_Z (v0 * 4 + v1 / 16)) in
  let b := Z_of_byte (byte_of_Z (v1 * 16 + v2 / 4)) in
  let c := Z_of_byte (byte_of_Z (v2 * 64 + v3)) in
  a = v0 * 4 + v1 / 16 /\ b = (v1 mod 16) * 16 + v2 / 4 /\ c = (v2 mod 4) * 64 + v3.
Proof.
  cbv zeta. intros. rewrite !Z_of_byte_of_Z. unfold wrapu. change (2 ^ 8) with 256.
  split_and!; Z.to_euclidean_division_equations; lia.
Qed.

Lemma b64_decode_groups_unique l raw : b64_decode_groups l = Some raw -> l = b64_encode raw.
Proof.
  revert raw. induction l as [|a|a b|a b c|c0 c1 c2 c3 l IH] using quad_ind; intros raw; try done.
  { by intros [= <-]. }
  cbn [b64_decode_groups]. destruct (b64_value c0) as [v0|] eqn:E0; [|done]. cbn [mbind option_bind].
  destruct (b64_value c1) as [v1|] eqn:E1; [|done]. cbn [mbind option_bind].
  apply b64_digit_value in E0 as [R0 <-], E1 as [R1 <-].
  case_bool_decide as P2.
  - subst c2. case_bool_decide as P3; [|done]. subst c3. case_bool_decide as Pl; [|done]. subst l. simpl.
    destruct (v1 mod 16 =? 0) eqn:Z1; [|done]. intros [= <-]. cbn [b64_encode].
    destruct (b64_regroup v0 v1 0 0) as (-> & _); [lia..|]. repeat f_equal; Z.to_euclidean_division_equations; lia.
  - destruct (b64_value c2) as [v2|] eqn:E2; [|done]. cbn [mbind option_bind]. apply b64_digit_value in E2 as [R2 <-].
    case_bool_decide as P3.
    + subst c3. case_bool_decide as Pl; [|done]. subst l. simpl. destruct (v2 mod 4 =? 0) eqn:Z2; [|done].
      intros [= <-]. cbn [b64_encode]. destruct (b64_regroup v0 v1 v2 0) as (-> & -> & _); [lia..|].
      repeat f_equal; Z.to_euclidean_division_equations; lia.
    + destruct (b64_value c3) as [v3|] eqn:E3; [|done]. cbn [mbind option_bind].
      apply b64_digit_value in E3 as [R3 <-].
      destruct (b64_decode_groups l) as [rest|] eqn:El; [|done]. intros [= <-]. cbn [b64_encode].
      destruct (b64_regroup v0 v1 v2 v3) as (-> & -> & ->); [lia..|]. rewrite <- (IH rest eq_refl).
      repeat f_equal; Z.to_euclidean_division_equations; lia.
Qed.

(** ** Order of names *)

(** [sort.Strings] orders by bytes. *)
Fixpoint name_leb (a b : list byte) : bool :=
  match a, b with
  | [], _ => true
  | _ :: _, [] => false
  | x :: a, y :: b => (Z_of_byte x <? Z_of_byte y) || (bool_decide (x = y) && name_leb a b)
  end.
Definition name_le (a b : list byte) : Prop := name_leb a b = true.
#[export] Instance name_le_dec a b : Decision (name_le a b).
Proof. unfold name_le. apply _. Defined.

Lemma name_le_refl a : name_le a a.
Proof. unfold name_le. induction a as [|x a IH]; [done|]. cbn [name_leb]. rewrite bool_decide_true, IH by done. apply orb_true_r. Qed.

Lemma name_le_cons x a y b : name_le (x :: a) (y :: b) <-> Z_of_byte x < Z_of_byte y \/ x = y /\ name_le a b.
Proof.
  unfold name_le. cbn [name_leb]. rewrite orb_true_iff, andb_true_iff, bool_decide_eq_true, Z.ltb_lt. done.
Qed.

#[export] Instance name_le_total : Total name_le.
Proof.
  intros a. induction a as [|x a IH]; intros [|y b]; [by left|by left|by right|]. rewrite !name_le_cons.
  destruct (Z_lt_ge_dec (Z_of_byte x) (Z_of_byte y)); [by left; left|]. destruct (Z_lt_ge_dec (Z_of_byte y) (Z_of_byte x)); [by right; left|].
  assert (x = y) as -> by (apply (inj Z_of_byte); lia). destruct (IH b); [left|right]; by right.
Qed.

#[export] Instance name_le_trans : Transitive name_le.
Proof.
  intros a. induction a as [|x a IH]; intros [|y b] [|z c]; try done. rewrite !name_le_cons.
  intros [H1|[-> H1]] [H2|[-> H2]]; [left; lia|by left|by left|]. right. split; [done|]. by eapply IH.
Qed.

(** ** Base64 fields of signed documents *)

(** [strictjson.DecodeBase64]: Go's strict decoding, of texts that hold only the
    alphabet's characters. *)
Definition isBase64Alphabet (b : byte) : bool :=
  let c := Z_of_byte b in
  ((65 <=? c) && (c <=? 90)) || ((97 <=? c) && (c <=? 122)) || ((48 <=? c) && (c <=? 57)) ||
  (c =? 43) || (c =? 47) || (c =? 61).

Definition DecodeBase64 (encoded : list byte) : option (list byte) :=
  if negb (forallb isBase64Alphabet encoded) then None
  else b64_decode encoded.

(** [decodeBase64] and [decodeFixed] of several packages: to a given size. *)
Definition decodeBase64 (encoded : list byte) (size : nat) : option (list byte) :=
  decoded ← DecodeBase64 encoded; if Nat.eqb (length decoded) size then Some decoded else None.

Lemma alphabet_no_breaks text : forallb isBase64Alphabet text = true ->
  Forall (fun b => b <> x0d /\ b <> x0a) text.
Proof.
  rewrite forallb_forall. intros Ht. apply Forall_forall. intros b Hb. specialize (Ht b (proj1 (list_elem_of_In _ _) Hb)).
  split; intros ->; discriminate Ht.
Qed.

Lemma DecodeBase64_unique text raw : DecodeBase64 text = Some raw -> text = b64_encode raw.
Proof.
  unfold DecodeBase64. destruct (forallb _ _) eqn:Ha; [|done]. simpl. unfold b64_decode.
  rewrite filter_all by (by apply alphabet_no_breaks). apply b64_decode_groups_unique.
Qed.

Lemma b64_digit_alphabet v : 0 <= v < 64 -> isBase64Alphabet (b64_digit v) = true.
Proof.
  intros Hv. replace v with (Z.of_nat (Z.to_nat v)) by lia.
  apply (forall_below_spec 64 (fun i => isBase64Alphabet (b64_digit (Z.of_nat i)))); [done|lia].
Qed.

Lemma b64_encode_alphabet l : forallb isBase64Alphabet (b64_encode l) = true.
Proof.
  induction l as [|a|a b|a b c l IH] using triple_ind; cbn [b64_encode forallb]; [done|..];
    try pose proof (Z_of_byte_range a); try pose proof (Z_of_byte_range b); try pose proof (Z_of_byte_range c);
    rewrite !andb_true_iff; split_and!; try done; apply b64_digit_alphabet; Z.to_euclidean_division_equations; lia.
Qed.

Lemma DecodeBase64_encode raw : DecodeBase64 (b64_encode raw) = Some raw.
Proof. unfold DecodeBase64. rewrite b64_encode_alphabet. apply b64_decode_encode. Qed.

Lemma decodeBase64_encode raw size : length raw = size -> decodeBase64 (b64_encode raw) size = Some raw.
Proof.
  intros <-. unfold decodeBase64, DecodeBase64. rewrite b64_encode_alphabet. simpl. rewrite b64_decode_encode. simpl.
  by rewrite Nat.eqb_refl.
Qed.

(** ** Decimal numbers *)

Definition dec_digit (v : Z) : byte := byte_of_Z (48 + v).
Definition is_digit (b : byte) : bool := (48 <=? Z_of_byte b) && (Z_of_byte b <=? 57).

(** [strconv.FormatUint(v, 10)]: a 64-bit number has at most twenty digits. *)
Fixpoint format_digits (fuel : nat) (v : Z) : list byte :=
  match fuel with
  | O => []
  | S fuel => if v <? 10 then [dec_digit v] else format_digits fuel (v / 10) ++ [dec_digit (v mod 10)]
  end.

Definition FormatUint (v : Z) : list byte := format_digits 20 v.

Definition digits_value (l : list byte) : Z := fold_left (fun acc b => acc * 10 + (Z_of_byte b - 48)) l 0.

(** [strconv.ParseUint(s, 10, bits)]: digits only, leading zeros among them. *)
Definition ParseUint (bits : Z) (s : list byte) : option Z :=
  if bool_decide (s = []) || negb (forallb is_digit s) then None
  else if digits_value s <? 2 ^ bits then Some (digits_value s) else None.

Lemma dec_digit_spec v : 0 <= v < 10 -> Z_of_byte (dec_digit v) = 48 + v /\ is_digit (dec_digit v) = true.
Proof.
  intros Hv. assert (Z_of_byte (dec_digit v) = 48 + v) as E.
  { unfold dec_digit. rewrite Z_of_byte_of_Z, wrapu_small; [done|]. unfold fits. lia. }
  split; [done|]. unfold is_digit. rewrite E. apply andb_true_iff. split; apply Z.leb_le; lia.
Qed.

Lemma digits_value_snoc l b : digits_value (l ++ [b]) = digits_value l * 10 + (Z_of_byte b - 48).
Proof. unfold digits_value. by rewrite fold_left_app. Qed.

Lemma tenth_range v p : 0 <= v < 10 * p -> 0 <= v / 10 < p.
Proof. intros Hv. split; [apply Z.div_pos; lia|apply Z.div_lt_upper_bound; lia]. Qed.

Lemma format_digits_spec fuel v : 0 <= v < 10 ^ Z.of_nat fuel ->
  digits_value (format_digits fuel v) = v /\ forallb is_digit (format_digits fuel v) = true.
Proof.
  revert v. induction fuel as [|fuel IH]; intros v Hv.
  { change (10 ^ Z.of_nat 0) with 1 in Hv. split; [unfold digits_value; simpl; lia|done]. }
  rewrite Nat2Z.inj_succ, Z.pow_succ_r in Hv by lia. cbn [format_digits]. destruct (v <? 10) eqn:E; reflect_bools.
  - destruct (dec_digit_spec v) as [Hd Hi]; [lia|]. cbn [forallb]. rewrite Hi. unfold digits_value. simpl. rewrite Hd. split; [lia|done].
  - destruct (IH (v / 10)) as [IHv IHd]; [by apply tenth_range|].
    destruct (dec_digit_spec (v mod 10)) as [Hd Hi]; [Z.to_euclidean_division_equations; lia|].
    rewrite digits_value_snoc, IHv, Hd, forallb_app, IHd. cbn [forallb]. rewrite Hi. split; [Z.to_euclidean_division_equations; lia|done].
Qed.

Lemma format_digits_head fuel v : (0 < fuel)%nat -> 0 <= v < 10 ^ Z.of_nat fuel ->
  exists b t, format_digits fuel v = b :: t /\ (t <> [] -> b <> x30).
Proof.
  intros Hf. revert v. induction fuel as [|fuel IH]; intros v Hv; [lia|]. clear Hf.
  rewrite Nat2Z.inj_succ, Z.pow_succ_r in Hv by lia. cbn [format_digits]. destruct (v <? 10) eqn:E; reflect_bools; [by eexists _, _|].
  destruct fuel as [|fuel]; [simpl in Hv; lia|].
  destruct (IH ltac:(lia) (v / 10)) as (b & t & Ht & Hb); [by apply tenth_range|]. rewrite Ht.
  eexists _, _. split; [done|]. intros _ ->. destruct t as [|c t]; [|by apply Hb].
  destruct (format_digits_spec (S fuel) (v / 10)) as [Hd _]; [by apply tenth_range|].
  rewrite Ht in Hd. unfold digits_value in Hd. simpl in Hd. change (Z_of_byte x30) with 48 in Hd.
  Z.to_euclidean_division_equations. lia.
Qed.

Lemma FormatUint_spec v : fits 64 v -> digits_value (FormatUint v) = v /\ forallb is_digit (FormatUint v) = true.
Proof. intros Hv. apply format_digits_spec. unfold fits in Hv. simpl. lia. Qed.

Lemma FormatUint_head v : fits 64 v -> exists b t, FormatUint v = b :: t /\ (t <> [] -> b <> x30).
Proof. intros Hv. apply format_digits_head; [lia|]. unfold fits in Hv. simpl. lia. Qed.

Lemma FormatUint_inj v w : fits 64 v -> fits 64 w -> FormatUint v = FormatUint w -> v = w.
Proof. intros Hv Hw E. by rewrite <- (proj1 (FormatUint_spec v Hv)), E, (proj1 (FormatUint_spec w Hw)). Qed.

Lemma digits_value_nonneg l : forallb is_digit l = true -> 0 <= digits_value l.
Proof.
  induction l as [|b l IH] using rev_ind; [done|]. rewrite forallb_app, digits_value_snoc. cbn [forallb]. rewrite andb_true_r.
  intros [Hl Hb]%andb_true_iff. unfold is_digit in Hb. apply IH in Hl. reflect_bools. lia.
Qed.

Lemma ParseUint_range bits s v : ParseUint bits s = Some v -> 0 <= v < 2 ^ bits.
Proof.
  unfold ParseUint. destruct (_ || _) eqn:E; [done|]. destruct (_ <? _) eqn:El; [|done]. intros [= <-]. reflect_bools.
  split; [by apply digits_value_nonneg|done].
Qed.
