(* ===== verification/CanonicalJSON.v ===== *)
(** The canonical JSON of signed documents ([live/topology/canonical.go]): one
    text per value, whatever order a parser kept the members in. *)

From stdpp Require Import base list list_numbers strings sorting.
From Stdlib Require Import ZArith Lia Strings.Byte.
From S2P Require Import Prelude Bytes Codec.

(** ** Values *)

(** What [json.Decode] with [UseNumber] puts in an [any].  The members of an
    object are listed in the order in which the map is walked, which Go leaves
    open. *)
#[local] Unset Elimination Schemes.
Inductive json :=
| JNull
| JBool (b : bool)
| JNumber (literal : list byte)
| JString (value : list byte)
| JArray (elements : list json)
| JObject (members : list (list byte * json)).
#[local] Set Elimination Schemes.

Fixpoint json_ind (P : json -> Prop) (Pnull : P JNull) (Pbool : forall b, P (JBool b))
  (Pnumber : forall l, P (JNumber l)) (Pstring : forall s, P (JString s))
  (Parray : forall l, Forall P l -> P (JArray l))
  (Pobject : forall ms, Forall (fun m => P m.2) ms -> P (JObject ms)) (v : json) : P v :=
  let ind := json_ind P Pnull Pbool Pnumber Pstring Parray Pobject in
  match v with
  | JNull => Pnull
  | JBool b => Pbool b
  | JNumber l => Pnumber l
  | JString s => Pstring s
  | JArray l => Parray l ((fix go l : Forall P l :=
      match l with [] => Forall_nil_2 _ | v :: l => Forall_cons_2 _ _ _ (ind v) (go l) end) l)
  | JObject ms => Pobject ms ((fix go ms : Forall (fun m => P m.2) ms :=
      match ms with [] => Forall_nil_2 _ | m :: ms => Forall_cons_2 _ _ _ (ind m.2) (go ms) end) ms)
  end.

Inductive canonical_error :=
| ErrEmptyNumber
| ErrNotInteger
| ErrLeadingZero
| ErrNegativeZero
| ErrInvalidUTF8.

(** ** UTF-8 and UTF-16 *)

Definition between (lo hi : Z) (b : byte) : bool := (lo <=? Z_of_byte b) && (Z_of_byte b <=? hi).
Definition continuation : byte -> bool := between 128 191.

Definition rune2 (b0 b1 : byte) : Z := (Z_of_byte b0 - 192) * 64 + (Z_of_byte b1 - 128).
Definition rune3 (b0 b1 b2 : byte) : Z :=
  (Z_of_byte b0 - 224) * 4096 + (Z_of_byte b1 - 128) * 64 + (Z_of_byte b2 - 128).
Definition rune4 (b0 b1 b2 b3 : byte) : Z :=
  (Z_of_byte b0 - 240) * 262144 + (Z_of_byte b1 - 128) * 4096 + (Z_of_byte b2 - 128) * 64 + (Z_of_byte b3 - 128).

(** The second bytes that may follow a first byte of three or four. *)
Definition second3 (b0 b1 : byte) : bool :=
  between (if Z_of_byte b0 =? 224 then 160 else 128) (if Z_of_byte b0 =? 237 then 159 else 191) b1.
Definition second4 (b0 b1 : byte) : bool :=
  between (if Z_of_byte b0 =? 240 then 144 else 128) (if Z_of_byte b0 =? 244 then 143 else 191) b1.

(** [[]rune(s)]: a byte that starts no encoding is U+FFFD of width one ([None]). *)
Fixpoint runes (l : list byte) : list (option Z) :=
  match l with
  | [] => []
  | b0 :: l1 =>
      if between 0 127 b0 then Some (Z_of_byte b0) :: runes l1
      else match l1 with
      | b1 :: l2 =>
          if between 194 223 b0 && continuation b1 then Some (rune2 b0 b1) :: runes l2
          else match l2 with
          | b2 :: l3 =>
              if between 224 239 b0 && second3 b0 b1 && continuation b2 then Some (rune3 b0 b1 b2) :: runes l3
              else match l3 with
              | b3 :: l4 =>
                  if between 240 244 b0 && second4 b0 b1 && continuation b2 && continuation b3
                  then Some (rune4 b0 b1 b2 b3) :: runes l4
                  else None :: runes l1
              | [] => None :: runes l1
              end
          | [] => None :: runes l1
          end
      | [] => None :: runes l1
      end
  end.

(** What [json.Marshal] writes and [json.Decode] reads back of a text: a byte that
    is not UTF-8 becomes U+FFFD. *)
Fixpoint coerce_utf8 (l : list byte) : list byte :=
  match l with
  | [] => []
  | b0 :: l1 =>
      if between 0 127 b0 then b0 :: coerce_utf8 l1
      else match l1 with
      | b1 :: l2 =>
          if between 194 223 b0 && continuation b1 then b0 :: b1 :: coerce_utf8 l2
          else match l2 with
          | b2 :: l3 =>
              if between 224 239 b0 && second3 b0 b1 && continuation b2 then b0 :: b1 :: b2 :: coerce_utf8 l3
              else match l3 with
              | b3 :: l4 =>
                  if between 240 244 b0 && second4 b0 b1 && continuation b2 && continuation b3
                  then b0 :: b1 :: b2 :: b3 :: coerce_utf8 l4
                  else xef :: xbf :: xbd :: coerce_utf8 l1
              | [] => xef :: xbf :: xbd :: coerce_utf8 l1
              end
          | [] => xef :: xbf :: xbd :: coerce_utf8 l1
          end
      | [] => xef :: xbf :: xbd :: coerce_utf8 l1
      end
  end.

(** [utf8.ValidString]. *)
Definition valid_utf8 (s : list byte) : bool := forallb (fun r => bool_decide (is_Some r)) (runes s).

(** [utf16.Encode]; decoding yields no surrogates. *)
Definition utf16_units (r : option Z) : list Z :=
  let r := match r with Some r => r | None => 65533 end in
  if r <? 65536 then [r] else [55296 + (r - 65536) / 1024; 56320 + (r - 65536) mod 1024].

Definition utf16 (s : list byte) : list Z := concat (map utf16_units (runes s)).

Fixpoint less_units (l r : list Z) : bool :=
  match l, r with
  | x :: l, y :: r => if negb (x =? y) then x <? y else less_units l r
  | [], _ :: _ => true
  | _, [] => false
  end.

Definition lessUTF16 (left right : list byte) : bool := less_units (utf16 left) (utf16 right).

(** The order [sort.Slice] arranges names in. *)
Definition by_name {A} (m n : list byte * A) : Prop := lessUTF16 n.1 m.1 = false.
#[export] Instance by_name_dec {A} (m n : list byte * A) : Decision (by_name m n).
Proof. unfold by_name. apply _. Defined.

(** ** Writing *)

Notation digit := is_digit.

Definition trim_minus (literal : list byte) : list byte :=
  match literal with x2d :: body => body | _ => literal end.

Definition writeCanonicalNumber (literal : list byte) : result canonical_error (list byte) :=
  if bool_decide (literal = []) then Err ErrEmptyNumber
  else
    let body := trim_minus literal in
    if bool_decide (body = []) then Err ErrNotInteger
    else if negb (forallb digit body) then Err ErrNotInteger
    else if (1 <? len body) && bool_decide (head body = Some x30) then Err ErrLeadingZero
    else if bool_decide (literal = [x2d; x30]) then Err ErrNegativeZero
    else Ok literal.

Definition escape (b : byte) : list byte :=
  match b with
  | x22 => [x5c; x22]
  | x5c => [x5c; x5c]
  | x08 => [x5c; x62]
  | x0c => [x5c; x66]
  | x0a => [x5c; x6e]
  | x0d => [x5c; x72]
  | x09 => [x5c; x74]
  | _ => if Z_of_byte b <? 32
         then [x5c; x75; x30; x30; hex_digit (Z_of_byte b / 16); hex_digit (Z_of_byte b mod 16)]
         else [b]
  end.

Definition writeCanonicalString (value : list byte) : result canonical_error (list byte) :=
  if negb (valid_utf8 value) then Err ErrInvalidUTF8
  else Ok (x22 :: concat (map escape value) ++ [x22]).

(** The elements with a comma before each but the first. *)
Definition comma (parts : list (list byte)) : list byte :=
  match parts with
  | [] => []
  | first :: rest => first ++ concat (map (fun p => x2c :: p) rest)
  end.

Definition write_member (m : list byte * result canonical_error (list byte)) : result canonical_error (list byte) :=
  name ← writeCanonicalString m.1; value ← m.2; Ok (name ++ x3a :: value).

Fixpoint writeCanonical (v : json) : result canonical_error (list byte) :=
  match v with
  | JNull => Ok [x5b; x5d]
  | JBool b => Ok (String.list_byte_of_string (if b then "true" else "false"))
  | JNumber literal => writeCanonicalNumber literal
  | JString value => writeCanonicalString value
  | JArray elements =>
      parts ← collect id (map writeCanonical elements);
      Ok (x5b :: comma parts ++ [x5d])
  | JObject members =>
      parts ← collect write_member (merge_sort by_name (map (fun m => (m.1, writeCanonical m.2)) members));
      Ok (x7b :: comma parts ++ [x7d])
  end.

(** The value with its members in order and an absent array made an empty one:
    what one text stands for. *)
Fixpoint canonical (v : json) : json :=
  match v with
  | JNull => JArray []
  | JArray elements => JArray (map canonical elements)
  | JObject members => JObject (merge_sort by_name (map (fun m => (m.1, canonical m.2)) members))
  | _ => v
  end.

Example canonical_example :
  writeCanonical (JObject [([x62], JNumber [x31; x30]); ([x61], JArray [JNull; JString [x22; x26; x01]])]) =
  Ok (String.list_byte_of_string "{" ++ [x22; x61; x22; x3a; x5b; x5b; x5d; x2c; x22; x5c; x22; x26;
        x5c; x75; x30; x30; x30; x31; x22; x5d; x2c; x22; x62; x22; x3a; x31; x30; x7d]).
Proof. vm_compute. reflexivity. Qed.

Example runes_example : runes [x61; xc3; xa9; xe2; x82; xac; xf0; x9f; x98; x80; xff; xc3] =
  [Some 97; Some 233; Some 8364; Some 128512; None; None].
Proof. vm_compute. reflexivity. Qed.

(** ** The order of names *)

Lemma less_units_irrefl l : less_units l l = false.
Proof. induction l as [|x l IH]; [done|]. simpl. by rewrite Z.eqb_refl. Qed.

Lemma less_units_asym l r : less_units l r = true -> less_units r l = false.
Proof.
  revert r. induction l as [|x l IH]; intros [|y r]; try done. simpl. rewrite (Z.eqb_sym y).
  destruct (x =? y) eqn:E; simpl; [apply IH|]. intros. reflect_bools. apply Z.ltb_ge. lia.
Qed.

Lemma less_units_antisym l r : less_units l r = false -> less_units r l = false -> l = r.
Proof.
  revert r. induction l as [|x l IH]; intros [|y r]; try done. simpl. rewrite (Z.eqb_sym y).
  destruct (x =? y) eqn:E; simpl; intros; reflect_bools; [by rewrite E, (IH r)|lia].
Qed.

Lemma less_units_trans l m r : less_units m l = false -> less_units r m = false -> less_units r l = false.
Proof.
  revert m r. induction l as [|x l IH]; intros [|y m] [|z r]; try done. simpl.
  destruct (y =? x) eqn:E1, (z =? y) eqn:E2, (z =? x) eqn:E3; simpl; intros; reflect_bools; subst; try lia;
    first [by eapply IH|apply Z.ltb_ge; lia].
Qed.

Section by_name.
Context {A : Type}.

#[export] Instance by_name_total : Total (@by_name A).
Proof.
  intros m n. unfold by_name, lessUTF16. destruct (less_units (utf16 n.1) (utf16 m.1)) eqn:E; [right|by left].
  by apply less_units_asym.
Qed.

#[export] Instance by_name_trans : Transitive (@by_name A).
Proof. intros l m n. unfold by_name, lessUTF16. apply less_units_trans. Qed.
End by_name.

(** Sorting looks at the names alone. *)
Definition on_values {A B} (f : A -> B) (m : list byte * A) : list byte * B := (m.1, f m.2).

Lemma list_merge_on_values {A B} (f : A -> B) l1 l2 :
  list_merge by_name (map (on_values f) l1) (map (on_values f) l2) = map (on_values f) (list_merge by_name l1 l2).
Proof.
  revert l2. induction l1 as [|m l1 IH1]; intros l2; [by destruct l2|].
  induction l2 as [|n l2 IH2]; [done|]. cbn [map]. rewrite !list_merge_cons.
  destruct (decide (by_name m n)) as [Hd|Hd]; [rewrite decide_True by exact Hd|rewrite decide_False by exact Hd];
    cbn [map]; f_equal; [apply (IH1 (n :: l2))|apply IH2].
Qed.

Lemma merge_stack_on_values {A B} (f : A -> B) st :
  merge_stack by_name (map (fmap (map (on_values f))) st) = map (on_values f) (merge_stack by_name st).
Proof.
  induction st as [|[l|] st IH]; [done|..]; simpl; [|done]. by rewrite IH, list_merge_on_values.
Qed.

Lemma merge_list_to_stack_on_values {A B} (f : A -> B) st l :
  merge_list_to_stack by_name (map (fmap (map (on_values f))) st) (map (on_values f) l) =
  map (fmap (map (on_values f))) (merge_list_to_stack by_name st l).
Proof.
  revert l. induction st as [|[k|] st IH]; intros l; [done|..]; simpl; [|done].
  by rewrite list_merge_on_values, IH.
Qed.

Lemma merge_sort_on_values {A B} (f : A -> B) l :
  merge_sort by_name (map (on_values f) l) = map (on_values f) (merge_sort by_name l).
Proof.
  unfold merge_sort. enough (forall st, merge_sort_aux by_name (map (fmap (map (on_values f))) st) (map (on_values f) l) =
    map (on_values f) (merge_sort_aux by_name st l)) as Hg by apply (Hg []).
  induction l as [|m l IH]; intros st; simpl; [apply merge_stack_on_values|].
  rewrite <- IH. f_equal. apply (merge_list_to_stack_on_values f st [m]).
Qed.

(** What is written for an object, member by member. *)
Definition write_pair (m : list byte * json) : result canonical_error (list byte) :=
  write_member (on_values writeCanonical m).

Lemma write_object ms : writeCanonical (JObject ms) =
  (parts ← collect write_pair (merge_sort by_name ms); Ok (x7b :: comma parts ++ [x7d])).
Proof.
  cbn [writeCanonical]. change (fun m : list byte * json => (m.1, writeCanonical m.2)) with (on_values writeCanonical).
  by rewrite merge_sort_on_values, collect_map.
Qed.

Lemma write_array l : writeCanonical (JArray l) = (parts ← collect writeCanonical l; Ok (x5b :: comma parts ++ [x5d])).
Proof. cbn [writeCanonical]. by rewrite (collect_map id writeCanonical). Qed.

Lemma canonical_object ms : canonical (JObject ms) = JObject (map (on_values canonical) (merge_sort by_name ms)).
Proof. cbn [canonical]. f_equal. apply merge_sort_on_values. Qed.

(** ** Unique decodability *)

(** What follows a written value does not prolong a number. *)
Definition delimited (rest : list byte) : Prop := match rest with b :: _ => digit b = false | [] => True end.

(** [a] can be told from the text that begins with it. *)
Definition decodable {A B} (f : A -> result canonical_error (list byte)) (g : A -> B) (a : A) : Prop :=
  forall a' w w' r r', f a = Ok w -> f a' = Ok w' -> delimited r -> delimited r' -> w ++ r = w' ++ r' ->
    g a = g a' /\ r = r'.

(** Written values are not empty and do not begin with a bracket that closes. *)
Definition opens (w : list byte) : Prop := match w with b :: _ => b <> x5d /\ b <> x7d | [] => False end.

Section lists.
Context {A B : Type} (f : A -> result canonical_error (list byte)) (g : A -> B) (close : byte).
Hypothesis Hclose : close = x5d \/ close = x7d.
Hypothesis Hopens : forall a w, f a = Ok w -> opens w.

Lemma delimited_rest parts r : delimited (concat (map (fun p => x2c :: p) parts) ++ close :: r).
Proof. destruct parts; [|done]. simpl. by destruct Hclose as [-> | ->]. Qed.

Lemma collect_cons a l parts : collect f (a :: l) = Ok parts ->
  exists w ws, f a = Ok w /\ collect f l = Ok ws /\ parts = w :: ws.
Proof.
  simpl. destruct (f a) as [w|]; [|done]. cbn [mbind result_bind]. destruct (collect f l) as [ws|]; [|done].
  intros [= <-]. eauto.
Qed.

Lemma rest_unique l l' parts parts' r r' : Forall (decodable f g) l ->
  collect f l = Ok parts -> collect f l' = Ok parts' ->
  concat (map (fun p => x2c :: p) parts) ++ close :: r = concat (map (fun p => x2c :: p) parts') ++ close :: r' ->
  map g l = map g l' /\ r = r'.
Proof.
  intros Hl. revert l' parts parts'. induction Hl as [|a l Ha _ IH]; intros [|a' l'] parts parts' E E'.
  - injection E as <-. injection E' as <-. by intros [= ->].
  - injection E as <-. apply collect_cons in E' as (w & ws & _ & _ & ->). simpl. intros [= Hc _].
    destruct Hclose; congruence.
  - injection E' as <-. apply collect_cons in E as (w & ws & _ & _ & ->). simpl. intros [= Hc _].
    destruct Hclose; congruence.
  - apply collect_cons in E as (w & ws & Ew & Es & ->), E' as (w' & ws' & Ew' & Es' & ->). simpl.
    rewrite <- !app_assoc. intros [= Eq].
    destruct (Ha a' _ _ _ _ Ew Ew' (delimited_rest _ _) (delimited_rest _ _) Eq) as [Hg Hr].
    destruct (IH _ _ _ Es Es' Hr) as [Hm ->]. by rewrite Hg, Hm.
Qed.

Lemma comma_unique l l' parts parts' r r' : Forall (decodable f g) l ->
  collect f l = Ok parts -> collect f l' = Ok parts' -> comma parts ++ close :: r = comma parts' ++ close :: r' ->
  map g l = map g l' /\ r = r'.
Proof.
  intros Hl E E' Eq. destruct Hl as [|a l Ha Hl], l' as [|a' l'].
  - injection E as <-. injection E' as <-. by injection Eq.
  - injection E as <-. apply collect_cons in E' as (w & ws & Ew & _ & ->). apply Hopens in Ew.
    destruct w; [done|]. simpl in *. injection Eq as -> _. destruct Hclose; naive_solver.
  - injection E' as <-. apply collect_cons in E as (w & ws & Ew & _ & ->). apply Hopens in Ew.
    destruct w; [done|]. simpl in *. injection Eq as <- _. destruct Hclose; naive_solver.
  - apply collect_cons in E as (w & ws & Ew & Es & ->), E' as (w' & ws' & Ew' & Es' & ->).
    simpl in Eq. rewrite <- !app_assoc in Eq.
    destruct (Ha a' _ _ _ _ Ew Ew' (delimited_rest _ _) (delimited_rest _ _) Eq) as [Hg Hr].
    destruct (rest_unique _ _ _ _ _ _ Hl Es Es' Hr) as [Hm ->]. simpl. by rewrite Hg, Hm.
Qed.
End lists.

(** *** Numbers and strings *)

Lemma writeCanonicalNumber_ok l w : writeCanonicalNumber l = Ok w ->
  w = l /\ trim_minus l <> [] /\ forallb digit (trim_minus l) = true.
Proof. unfold writeCanonicalNumber. intros E. run_guards E. done. Qed.

Lemma digits_unique a a' r r' : forallb digit a = true -> forallb digit a' = true -> delimited r -> delimited r' ->
  a ++ r = a' ++ r' -> a = a' /\ r = r'.
Proof.
  revert a'. induction a as [|b a IH]; intros [|b' a'] Ha Ha' Hr Hr'; simpl in *; intros E.
  - done.
  - subst r. simpl in Hr. apply andb_true_iff in Ha' as [? _]. congruence.
  - subst r'. simpl in Hr'. apply andb_true_iff in Ha as [? _]. congruence.
  - injection E as -> E. apply andb_true_iff in Ha as [_ Ha], Ha' as [_ Ha'].
    by destruct (IH a' Ha Ha' Hr Hr' E) as [-> ->].
Qed.

(** A literal is its sign and its digits. *)
Lemma trim_minus_cases l : l = trim_minus l \/ l = x2d :: trim_minus l.
Proof. destruct l as [|b l]; [by left|]. destruct b; by first [left; reflexivity|right; reflexivity]. Qed.

Lemma digit_head l : forallb digit l = true -> head l <> Some x2d.
Proof. destruct l as [|b l]; [done|]. simpl. intros Hb [= ->]. done. Qed.

Lemma number_head l w : writeCanonicalNumber l = Ok w -> exists b t, w = b :: t /\ (b = x2d \/ digit b = true).
Proof.
  intros (-> & Hn & Hd)%writeCanonicalNumber_ok. destruct (trim_minus_cases l) as [E|E].
  - rewrite <- E in *. destruct l as [|b t]; [done|]. simpl in Hd. apply andb_true_iff in Hd as [? _]. eauto.
  - exists x2d, (trim_minus l). auto.
Qed.

Lemma number_unique l : decodable writeCanonicalNumber id l.
Proof.
  intros l' w w' r r' (-> & Hn & Hd)%writeCanonicalNumber_ok (-> & Hn' & Hd')%writeCanonicalNumber_ok Hr Hr' E.
  pose proof (digit_head _ Hd) as Hh. pose proof (digit_head _ Hd') as Hh'.
  destruct (trim_minus_cases l) as [L|L], (trim_minus_cases l') as [L'|L']; rewrite L, L' in E.
  - destruct (digits_unique _ _ _ _ Hd Hd' Hr Hr' E) as [E1 ->]. by rewrite L, L', E1.
  - destruct (trim_minus l); [done|]. simpl in *. congruence.
  - destruct (trim_minus l'); [done|]. simpl in *. congruence.
  - injection E as E. destruct (digits_unique _ _ _ _ Hd Hd' Hr Hr' E) as [E1 ->]. by rewrite L, L', E1.
Qed.

(** Reading one escaped byte. *)
Definition unescape (l : list byte) : option (byte * list byte) :=
  match l with
  | x5c :: x22 :: l => Some (x22, l)
  | x5c :: x5c :: l => Some (x5c, l)
  | x5c :: x62 :: l => Some (x08, l)
  | x5c :: x66 :: l => Some (x0c, l)
  | x5c :: x6e :: l => Some (x0a, l)
  | x5c :: x72 :: l => Some (x0d, l)
  | x5c :: x74 :: l => Some (x09, l)
  | x5c :: x75 :: x30 :: x30 :: h :: d :: l =>
      vh ← hex_value h; vd ← hex_value d; Some (byte_of_Z (16 * vh + vd), l)
  | b :: l => Some (b, l)
  | [] => None
  end.

Lemma unescape_escape b l : unescape (escape b ++ l) = Some (b, l).
Proof. destruct b; vm_compute; reflexivity. Qed.

Lemma escape_head b : exists c t, escape b = c :: t /\ c <> x22.
Proof. destruct b; eexists _, _; (split; [vm_compute; reflexivity|discriminate]). Qed.

Lemma escaped_unique s s' r r' : concat (map escape s) ++ x22 :: r = concat (map escape s') ++ x22 :: r' ->
  s = s' /\ r = r'.
Proof.
  revert s'. induction s as [|b s IH]; intros [|b' s']; cbn [map concat]; rewrite <- ?app_assoc.
  - intros E. injection E. auto.
  - destruct (escape_head b') as (c & t & -> & Hc). simpl. intros [= E _]. done.
  - destruct (escape_head b) as (c & t & -> & Hc). simpl. intros [= E _]. done.
  - intros E. apply (f_equal unescape) in E. rewrite !unescape_escape in E. injection E as -> E.
    by destruct (IH s' E) as [-> ->].
Qed.

Lemma string_text s w : writeCanonicalString s = Ok w -> w = x22 :: concat (map escape s) ++ [x22] /\ valid_utf8 s = true.
Proof. unfold writeCanonicalString. intros E. run_guards E. done. Qed.

Lemma string_unique s s' w w' r r' : writeCanonicalString s = Ok w -> writeCanonicalString s' = Ok w' ->
  w ++ r = w' ++ r' -> s = s' /\ r = r'.
Proof.
  intros [-> _]%string_text [-> _]%string_text. simpl. rewrite <- !app_assoc. intros [= E]. by apply escaped_unique.
Qed.

(** *** Values *)

(** The first byte of a written value tells its kind. *)
Definition kind_head (v : json) (b : byte) : Prop :=
  match v with
  | JNull | JArray _ => b = x5b
  | JBool t => b = if t then x74 else x66
  | JNumber _ => b = x2d \/ digit b = true
  | JString _ => b = x22
  | JObject _ => b = x7b
  end.

Lemma written_head v w : writeCanonical v = Ok w -> exists b t, w = b :: t /\ kind_head v b.
Proof.
  destruct v as [|[]|l|s|l|ms]; [| | | | | |rewrite write_object]; cbn [writeCanonical].
  - intros [= <-]. by eexists _, _.
  - intros E. injection E as <-. by eexists _, _.
  - intros E. injection E as <-. by eexists _, _.
  - apply number_head.
  - intros [-> _]%string_text. by eexists _, _.
  - rewrite (collect_map id writeCanonical). destruct (collect _ _); [|done]. intros [= <-]. by eexists _, _.
  - destruct (collect _ _); [|done]. intros [= <-]. by eexists _, _.
Qed.

Lemma written_opens v w : writeCanonical v = Ok w -> opens w.
Proof.
  intros (b & t & -> & Hb)%written_head. destruct v as [|[]| | | |]; simpl in *; try (by subst).
  by destruct Hb as [-> | Hb]; [done|]; split; intros ->.
Qed.

Lemma pair_text m w : write_pair m = Ok w ->
  exists n v, writeCanonicalString m.1 = Ok n /\ writeCanonical m.2 = Ok v /\ w = n ++ x3a :: v.
Proof.
  unfold write_pair, write_member. simpl. destruct (writeCanonicalString m.1) as [n|]; [|done]. cbn [mbind result_bind].
  destruct (writeCanonical m.2) as [v|]; [|done]. intros [= <-]. eauto.
Qed.

Lemma pair_opens m w : write_pair m = Ok w -> opens w.
Proof. intros (n & v & [-> _]%string_text & _ & ->)%pair_text. done. Qed.

Lemma pair_unique m : decodable writeCanonical canonical m.2 -> decodable write_pair (on_values canonical) m.
Proof.
  intros Hv m' w w' r r' (n & v & En & Ev & ->)%pair_text (n' & v' & En' & Ev' & ->)%pair_text Hr Hr'.
  rewrite <- !app_assoc. intros E. destruct (string_unique _ _ _ _ _ _ En En' E) as [Hn Eq].
  injection Eq as Eq. destruct (Hv _ _ _ _ _ Ev Ev' Hr Hr' Eq) as [Hc ->]. unfold on_values. by rewrite Hn, Hc.
Qed.

Lemma values_of_kinds v v' w w' r r' : writeCanonical v = Ok w -> writeCanonical v' = Ok w' -> w ++ r = w' ++ r' ->
  exists b, kind_head v b /\ kind_head v' b.
Proof.
  intros (b & t & -> & Hb)%written_head (b' & t' & -> & Hb')%written_head [= -> _]. eauto.
Qed.

(** Arrays, an absent one among them. *)
Definition elements_of (v : json) : option (list json) :=
  match v with JNull => Some [] | JArray l => Some l | _ => None end.

Lemma write_elements v l : elements_of v = Some l ->
  writeCanonical v = (parts ← collect writeCanonical l; Ok (x5b :: comma parts ++ [x5d])) /\
  canonical v = JArray (map canonical l).
Proof. destruct v; intros [= <-]; [done|]. split; [apply write_array|done]. Qed.

Lemma array_unique v l : elements_of v = Some l -> Forall (decodable writeCanonical canonical) l ->
  decodable writeCanonical canonical v.
Proof.
  intros Hv Hl v' w w' r r' E E' Hr Hr' Eq. destruct (values_of_kinds _ _ _ _ _ _ E E' Eq) as (b & Hb & Hb').
  assert (exists l', elements_of v' = Some l') as [l' Hv'].
  { destruct v; try discriminate Hv; simpl in Hb; subst b; destruct v' as [|[]| | | |]; simpl in Hb';
      first [discriminate Hb'|by eauto|by destruct Hb']. }
  destruct (write_elements _ _ Hv) as [Ew ->], (write_elements _ _ Hv') as [Ew' ->]. rewrite Ew in E. rewrite Ew' in E'.
  destruct (collect writeCanonical l) as [p|] eqn:Ep; [|done]. destruct (collect writeCanonical l') as [p'|] eqn:Ep'; [|done].
  injection E as <-. injection E' as <-. injection Eq as Eq. rewrite <- !app_assoc in Eq.
  destruct (comma_unique _ _ x5d (or_introl eq_refl) written_opens _ _ _ _ _ _ Hl Ep Ep' Eq) as [-> ->]. done.
Qed.

Lemma object_unique ms : Forall (fun m => decodable writeCanonical canonical m.2) ms ->
  decodable writeCanonical canonical (JObject ms).
Proof.
  intros Hms v' w w' r r' E E' Hr Hr' Eq. destruct (values_of_kinds _ _ _ _ _ _ E E' Eq) as (b & Hb & Hb').
  simpl in Hb. subst b. destruct v' as [|[]| | | |ms']; simpl in Hb'; try discriminate Hb'; [by destruct Hb'|].
  rewrite write_object in E, E'. rewrite !canonical_object.
  destruct (collect write_pair (merge_sort by_name ms)) as [p|] eqn:Ep; [|done].
  destruct (collect write_pair (merge_sort by_name ms')) as [p'|] eqn:Ep'; [|done].
  injection E as <-. injection E' as <-. injection Eq as Eq. rewrite <- !app_assoc in Eq.
  assert (Forall (decodable write_pair (on_values canonical)) (merge_sort by_name ms)) as Hs.
  { rewrite merge_sort_Permutation. eapply Forall_impl; [apply Hms|apply pair_unique]. }
  by destruct (comma_unique _ _ x7d (or_intror eq_refl) pair_opens _ _ _ _ _ _ Hs Ep Ep' Eq) as [-> ->].
Qed.

Lemma value_unique v : decodable writeCanonical canonical v.
Proof.
  induction v as [| |l|s|l IH|ms IH]; [by apply (array_unique _ [])| | | |by apply (array_unique _ l)|by apply object_unique];
    intros v' w w' r r' E E' Hr Hr' Eq; destruct (values_of_kinds _ _ _ _ _ _ E E' Eq) as (h & Hb & Hb').
  - destruct b, v' as [|[]| | | |]; simpl in *; subst; try discriminate Hb'; try (by destruct Hb');
      injection E as <-; injection E' as <-; (split; [done|]); by injection Eq.
  - destruct v' as [|[]| | | |]; simpl in *; try (subst h; by destruct Hb).
    destruct (number_unique l _ _ _ _ _ E E' Hr Hr' Eq) as [Hl ->]. unfold id in Hl. by subst.
  - destruct v' as [|[]| | | |]; simpl in *; subst; try discriminate Hb'; [by destruct Hb'|].
    by destruct (string_unique _ _ _ _ _ _ E E' Eq) as [-> ->].
Qed.

(** ** Valid names are told apart by their UTF-16 units *)

(** The encodings of UTF-8, with the code points they stand for. *)
Inductive utf8 : list byte -> list Z -> Prop :=
| utf8_nil : utf8 [] []
| utf8_1 b0 l rs : between 0 127 b0 = true -> utf8 l rs -> utf8 (b0 :: l) (Z_of_byte b0 :: rs)
| utf8_2 b0 b1 l rs : between 194 223 b0 = true -> continuation b1 = true -> utf8 l rs ->
    utf8 (b0 :: b1 :: l) (rune2 b0 b1 :: rs)
| utf8_3 b0 b1 b2 l rs : between 224 239 b0 = true -> second3 b0 b1 = true -> continuation b2 = true -> utf8 l rs ->
    utf8 (b0 :: b1 :: b2 :: l) (rune3 b0 b1 b2 :: rs)
| utf8_4 b0 b1 b2 b3 l rs : between 240 244 b0 = true -> second4 b0 b1 = true -> continuation b2 = true ->
    continuation b3 = true -> utf8 l rs -> utf8 (b0 :: b1 :: b2 :: b3 :: l) (rune4 b0 b1 b2 b3 :: rs).

Lemma valid_utf8_decodes s : valid_utf8 s = true -> exists rs, utf8 s rs /\ runes s = map Some rs.
Proof.
  unfold valid_utf8. induction s as [s IH] using (induction_ltof1 _ (@length byte)). unfold ltof in IH.
  destruct s as [|b0 l1]; [exists []; split; [constructor|done]|]. cbn [runes].
  assert (forall r t, (length t < length (b0 :: l1))%nat -> (forall rs, utf8 t rs -> utf8 (b0 :: l1) (r :: rs)) ->
    forallb (fun r => bool_decide (is_Some r)) (Some r :: runes t) = true ->
    exists rs, utf8 (b0 :: l1) rs /\ Some r :: runes t = map Some rs) as Hstep.
  { intros r t Ht Hu Hv. simpl in Hv. destruct (IH t Ht Hv) as (rs & Hrs & ->). exists (r :: rs). auto. }
  clear IH. destruct (between 0 127 b0) eqn:E1; [apply Hstep; [simpl; lia|by constructor]|].
  destruct l1 as [|b1 l2]; [done|].
  destruct (between 194 223 b0 && continuation b1) eqn:E2; [reflect_bools; apply Hstep; [simpl; lia|by constructor]|].
  destruct l2 as [|b2 l3]; [done|].
  destruct (between 224 239 b0 && _ && _) eqn:E3; [reflect_bools; apply Hstep; [simpl; lia|by constructor]|].
  destruct l3 as [|b3 l4]; [done|].
  destruct (between 240 244 b0 && _ && _ && _) eqn:E4; [reflect_bools; apply Hstep; [simpl; lia|by constructor]|done].
Qed.

(** The range tests of an encoding, as inequalities. *)
Ltac utf8_ranges :=
  unfold continuation, second3, second4, between in *; reflect_bools;
  repeat match goal with
  | H : context [if ?c then _ else _] |- _ => destruct c eqn:?; reflect_bools
  end.

(** A code point is below 0x110000 and no surrogate. *)
Definition code_point (r : Z) : Prop := 0 <= r < 55296 \/ 57344 <= r < 1114112.

Lemma utf8_code_points s rs : utf8 s rs -> Forall code_point rs.
Proof.
  induction 1; constructor; try done; unfold code_point, rune2, rune3, rune4; utf8_ranges; lia.
Qed.

Lemma utf8_inj s s' rs : utf8 s rs -> utf8 s' rs -> s = s'.
Proof.
  intros Hs. revert s'. induction Hs; intros s' Hs'; inversion Hs'; subst; [done|..];
    match goal with
    | IH : forall t, utf8 t ?rs -> _ = t, Ht : utf8 _ ?rs |- _ => rewrite (IH _ Ht); clear IH
    end;
    clear Hs'; unfold rune2, rune3, rune4 in *; utf8_ranges; try (exfalso; lia);
    repeat f_equal; apply (inj Z_of_byte); lia.
Qed.

Lemma units_some r : utf16_units (Some r) =
  if r <? 65536 then [r] else [55296 + (r - 65536) / 1024; 56320 + (r - 65536) mod 1024].
Proof. done. Qed.

Lemma units_inj rs rs' : Forall code_point rs -> Forall code_point rs' ->
  concat (map utf16_units (map Some rs)) = concat (map utf16_units (map Some rs')) -> rs = rs'.
Proof.
  intros Hrs. revert rs'. induction Hrs as [|r rs Hr _ IH]; intros rs' Hrs'; destruct Hrs' as [|r' rs' Hr' Hrs']; cbn [map concat];
    rewrite ?units_some.
  - done.
  - destruct (r' <? 65536); simpl; intros E; discriminate E.
  - destruct (r <? 65536); simpl; intros E; discriminate E.
  - destruct (r <? 65536) eqn:E, (r' <? 65536) eqn:E'; intros Eq; injection Eq; clear Eq; intros; reflect_bools;
      unfold code_point in *.
    + subst. by rewrite (IH rs').
    + Z.to_euclidean_division_equations. lia.
    + Z.to_euclidean_division_equations. lia.
    + rewrite (IH rs') by done. f_equal. Z.to_euclidean_division_equations. lia.
Qed.

Lemma utf16_inj s s' : valid_utf8 s = true -> valid_utf8 s' = true -> utf16 s = utf16 s' -> s = s'.
Proof.
  intros (rs & Hs & E)%valid_utf8_decodes (rs' & Hs' & E')%valid_utf8_decodes. unfold utf16. rewrite E, E'.
  intros Eq%units_inj; [|by eapply utf8_code_points..]. subst. by eapply utf8_inj.
Qed.

(** ** One text per value *)

(** The same value: the members of an object in any order, an absent array and
    an empty one. *)
#[local] Unset Elimination Schemes.
Inductive same : json -> json -> Prop :=
| same_bool b : same (JBool b) (JBool b)
| same_number l : same (JNumber l) (JNumber l)
| same_string s : same (JString s) (JString s)
| same_array v v' l l' : elements_of v = Some l -> elements_of v' = Some l' -> Forall2 same l l' -> same v v'
| same_object ms ms' s s' : s ≡ₚ ms -> s' ≡ₚ ms' -> Forall2 (fun m m' => m.1 = m'.1 /\ same m.2 m'.2) s s' ->
    same (JObject ms) (JObject ms').

(** The keys of a Go map are distinct. *)
Inductive is_map : json -> Prop :=
| map_atom v : match v with JArray _ | JObject _ => False | _ => True end -> is_map v
| map_array l : Forall is_map l -> is_map (JArray l)
| map_object ms : NoDup (map fst ms) -> Forall (fun m => is_map m.2) ms -> is_map (JObject ms).
#[local] Set Elimination Schemes.

Lemma merge_sort_by_name {A} (l l' : list (list byte * A)) : l ≡ₚ l' -> NoDup (map fst l) ->
  Forall (fun m => valid_utf8 m.1 = true) l -> merge_sort by_name l = merge_sort by_name l'.
Proof.
  intros Hp Hn Hv. apply (StronglySorted_unique_strong by_name); [|apply StronglySorted_merge_sort; apply _..|].
  - intros m m'. rewrite !merge_sort_Permutation, <- Hp. intros Hm Hm' Hle Hge.
    rewrite Forall_forall in Hv.
    assert (m.1 = m'.1) as E by (apply utf16_inj; [by apply Hv..|by apply less_units_antisym]).
    apply list_elem_of_lookup_1 in Hm as [i Hi], Hm' as [j Hj].
    assert (i = j) as -> by (apply (NoDup_lookup _ _ _ m.1 Hn); apply (list_lookup_fmap_Some fst); eauto).
    congruence.
  - by rewrite !merge_sort_Permutation.
Qed.

Lemma map_eq_Forall2 {A B} (f : A -> B) l l' : map f l = map f l' <-> Forall2 (fun a b => f a = f b) l l'.
Proof.
  split.
  - revert l'. induction l as [|a l IH]; intros [|b l'] E; try discriminate E; constructor; [by injection E|].
    apply IH. by injection E.
  - induction 1 as [|a b l l' E _ IH]; [done|]. simpl. by rewrite E, IH.
Qed.

Lemma Forall2_strengthen {A} (P : A -> Prop) (R S : A -> A -> Prop) l l' : Forall P l -> Forall2 R l l' ->
  (forall a b, P a -> R a b -> S a b) -> Forall2 S l l'.
Proof. intros HP HR HS. induction HR as [|a b l l' Hab _ IH]; [done|]. apply Forall_cons in HP as [Ha HP]. auto. Qed.

(** The text depends on the canonical value alone. *)
Lemma canonical_elements v l v' : elements_of v = Some l -> canonical v = canonical v' ->
  exists l', elements_of v' = Some l' /\ Forall2 (fun a b => canonical a = canonical b) l l'.
Proof.
  intros Hv E. rewrite (proj2 (write_elements _ _ Hv)) in E.
  destruct v' as [| | | |l'|]; try discriminate E; eexists; (split; [done|]); injection E as E; by apply map_eq_Forall2.
Qed.

Lemma canonical_members ms v' : canonical (JObject ms) = canonical v' -> exists ms', v' = JObject ms' /\
  Forall2 (fun m m' => m.1 = m'.1 /\ canonical m.2 = canonical m'.2) (merge_sort by_name ms) (merge_sort by_name ms').
Proof.
  destruct v' as [| | | | |ms']; try (intros E; rewrite canonical_object in E; discriminate E).
  rewrite !canonical_object. intros [= E]. exists ms'. split; [done|]. apply map_eq_Forall2 in E.
  eapply Forall2_impl; [exact E|]. intros m m' Em. by injection Em.
Qed.

Lemma Forall2_collect {A} (f : A -> result canonical_error (list byte)) l l' : Forall2 (fun a b => f a = f b) l l' ->
  collect f l = collect f l'.
Proof. induction 1 as [|a b l l' E _ IH]; [done|]. simpl. by rewrite E, IH. Qed.

Lemma write_canonical v v' : canonical v = canonical v' -> writeCanonical v = writeCanonical v'.
Proof.
  revert v'. induction v as [| | | |l IH|ms IH]; intros v' E; try (destruct v' as [| | | | |]; try discriminate E;
    [by injection E as ->]).
  - destruct (canonical_elements JNull [] v' eq_refl E) as (l' & Hl' & Hf). apply Forall2_nil_inv_l in Hf as ->.
    by rewrite (proj1 (write_elements _ _ Hl')).
  - destruct (canonical_elements (JArray l) l v' eq_refl E) as (l' & Hl' & Hf).
    rewrite (proj1 (write_elements _ _ Hl')), write_array. erewrite Forall2_collect; [done|].
    eapply Forall2_strengthen; [exact IH|exact Hf|]. auto.
  - apply canonical_members in E as (ms' & -> & Hf). rewrite !write_object. erewrite Forall2_collect; [done|].
    eapply (Forall2_strengthen (fun m => forall v', canonical m.2 = canonical v' -> writeCanonical m.2 = writeCanonical v'));
      [by rewrite merge_sort_Permutation|exact Hf|].
    intros m m' Hm [Hn Hc]. unfold write_pair, on_values. by rewrite Hn, (Hm _ Hc).
Qed.

Lemma canonical_same v v' : canonical v = canonical v' -> same v v'.
Proof.
  revert v'. induction v as [| | | |l IH|ms IH]; intros v' E; try (destruct v' as [| | | | |]; try discriminate E;
    [injection E as ->; constructor]).
  - destruct (canonical_elements JNull [] v' eq_refl E) as (l' & Hl' & Hf). by eapply same_array; [..|apply Forall2_nil_inv_l in Hf as ->].
  - destruct (canonical_elements (JArray l) l v' eq_refl E) as (l' & Hl' & Hf). eapply same_array; [done..|].
    eapply Forall2_strengthen; [exact IH|exact Hf|]. auto.
  - apply canonical_members in E as (ms' & -> & Hf). apply (same_object _ _ (merge_sort by_name ms) (merge_sort by_name ms')); [apply merge_sort_Permutation..|].
    eapply (Forall2_strengthen (fun m => forall v', canonical m.2 = canonical v' -> same m.2 v'));
      [by rewrite merge_sort_Permutation|exact Hf|]. naive_solver.
Qed.

(** A value that can be written, part by part. *)
Lemma written_elements v l w : elements_of v = Some l -> writeCanonical v = Ok w ->
  Forall (fun a => exists w, writeCanonical a = Ok w) l.
Proof.
  intros Hv. rewrite (proj1 (write_elements _ _ Hv)). destruct (collect writeCanonical l) as [p|] eqn:E; [|done]. intros _.
  apply collect_ok in E. eapply Forall2_Forall_l; [exact E|]. apply Forall_forall. eauto.
Qed.

Lemma written_members ms w : writeCanonical (JObject ms) = Ok w ->
  Forall (fun m => valid_utf8 m.1 = true /\ exists w, writeCanonical m.2 = Ok w) ms.
Proof.
  rewrite write_object. destruct (collect write_pair (merge_sort by_name ms)) as [p|] eqn:E; [|done]. intros _.
  apply collect_ok in E. rewrite <- (merge_sort_Permutation by_name ms).
  eapply Forall2_Forall_l; [exact E|]. apply Forall_forall. intros x _ m (n & v & [_ Hn]%string_text & Hv & _)%pair_text. eauto.
Qed.

Lemma is_map_elements v l : elements_of v = Some l -> is_map v -> Forall is_map l.
Proof. destruct v; intros [= <-]; [done|]. by inversion 1. Qed.

Lemma is_map_members ms : is_map (JObject ms) -> NoDup (map fst ms) /\ Forall (fun m => is_map m.2) ms.
Proof. by inversion 1. Qed.

Lemma sort_members s ms : s ≡ₚ ms -> NoDup (map fst ms) -> Forall (fun m => valid_utf8 m.1 = true) ms ->
  map (on_values canonical) (merge_sort by_name ms) = merge_sort by_name (map (on_values canonical) s).
Proof.
  intros Hp Hn Hv. rewrite <- merge_sort_on_values. apply merge_sort_by_name.
  - by apply (fmap_Permutation (on_values canonical)).
  - by rewrite map_map.
  - by apply (Forall_fmap (on_values canonical)).
Qed.

Lemma same_canonical v v' w : same v v' -> is_map v -> is_map v' -> writeCanonical v = Ok w -> canonical v = canonical v'.
Proof.
  revert v' w. induction v as [| | | |l IH|ms IH]; intros v' w Hs Hm Hm' Hw; inversion Hs as [| | |? ? k k' Ek Ek' Hk|? ? st st' Es Es' Hk];
    subst; try done.
  - destruct v'; simplify_eq/=; [done|]. apply Forall2_nil_inv_l in Hk as ->. done.
  - injection Ek as <-. rewrite (proj2 (write_elements _ _ Ek')). simpl. f_equal. apply map_eq_Forall2.
    pose proof (written_elements (JArray l) l _ eq_refl Hw) as Hws.
    pose proof (is_map_elements (JArray l) l eq_refl Hm) as Hml. pose proof (is_map_elements _ _ Ek' Hm') as Hmk.
    clear -IH Hk Hws Hml Hmk. induction Hk as [|a b l k Hab _ IHk]; [done|].
    apply Forall_cons in IH as [Ha IH], Hws as [[w Hw] Hws], Hml as [Hma Hml], Hmk as [Hmb Hmk]. constructor; eauto.
  - apply is_map_members in Hm as [Hn Hm], Hm' as [Hn' Hm']. apply written_members in Hw.
    assert (Forall (fun m => valid_utf8 m.1 = true) ms) as Hv by (eapply Forall_impl; [exact Hw|naive_solver]).
    assert (Forall2 (fun m m' => m.1 = m'.1 /\ canonical m.2 = canonical m'.2) st st') as Hc.
    { rewrite <- Es in IH, Hm, Hw. rewrite <- Es' in Hm'. clear -IH Hk Hw Hm Hm'.
      induction Hk as [|a b l k [Hab1 Hab2] _ IHk]; [done|].
      apply Forall_cons in IH as [Ha IH], Hw as [[_ [w Hw]] Hws], Hm as [Hma Hml], Hm' as [Hmb Hmk]. constructor; eauto. }
    assert (Forall (fun m => valid_utf8 m.1 = true) ms') as Hv'.
    { rewrite <- Es in Hv. rewrite <- Es'. clear -Hv Hc. induction Hc as [|a b l k [Hab _] _ IHc]; [done|].
      apply Forall_cons in Hv as [Ha Hv]. constructor; [by rewrite <- Hab|auto]. }
    rewrite !canonical_object, (sort_members st), (sort_members st') by done. do 2 f_equal. apply map_eq_Forall2.
    eapply Forall2_impl; [exact Hc|]. intros m m' [Hmn Hmc]. unfold on_values. by rewrite Hmn, Hmc.
Qed.

(** C16: Two values whose objects have distinct keys are given one canonical text
    exactly when they are the same value up to the order of members and the
    spelling of an empty array: the encoding neither depends on how a parser
    kept an object nor merges different documents. *)
Theorem canonical_text_exact v v' w : is_map v -> is_map v' -> writeCanonical v = Ok w ->
  writeCanonical v' = Ok w <-> same v v'.
Proof.
  intros Hm Hm' Hw. split.
  - intros Hw'. apply canonical_same. by apply (value_unique v v' w w [] []).
  - intros Hs. rewrite <- Hw. symmetry. apply write_canonical. by eapply same_canonical.
Qed.

Lemma canonical_text_exact_witness : exists w,
  writeCanonical (JObject [([x61], JNull); ([x62], JNumber [x37])]) = Ok w /\
  writeCanonical (JObject [([x62], JNumber [x37]); ([x61], JArray [])]) = Ok w.
Proof.
  eexists. split; [reflexivity|]. apply (canonical_text_exact (JObject [([x61], JNull); ([x62], JNumber [x37])])).
  - apply map_object; [apply (bool_decide_unpack _); by vm_compute|]. repeat constructor.
  - apply map_object; [apply (bool_decide_unpack _); by vm_compute|].
    apply Forall_cons. split; [by apply map_atom|]. apply Forall_singleton. by apply map_array.
  - reflexivity.
  - apply (same_object _ _ [([x61], JNull); ([x62], JNumber [x37])] [([x61], JArray []); ([x62], JNumber [x37])]);
      [done|apply Permutation_swap|].
    apply Forall2_cons. split; [split; [done|by eapply same_array]|]. apply Forall2_cons. split; [split; [done|constructor]|done].
Defined.
