(* ===== verification/StrictJSON.v ===== *)
(** The check for ambiguous JSON ([live/strictjson/strictjson.go] and
    [internal/strictjson/strictjson.go] of the reconstruction component): a walk
    over the tokens of [encoding/json] that refuses an object in which a key is
    repeated. *)

From stdpp Require Import base list list_numbers strings sets.
From Stdlib Require Import ZArith Lia Strings.Byte.
From S2P Require Import Prelude Bytes Codec CanonicalJSON.

(** ** Scanning *)

Definition space (b : byte) : bool := bool_decide (b ∈ [x20; x09; x0d; x0a]).

(** What is left after white space. *)
Fixpoint skip (l : list byte) : list byte :=
  match l with
  | b :: l' => if space b then skip l' else l
  | [] => []
  end.

Fixpoint span_digits (l : list byte) : list byte * list byte :=
  match l with
  | b :: l' => if is_digit b then (b :: (span_digits l').1, (span_digits l').2) else ([], l)
  | [] => ([], [])
  end.

(** One digit or more. *)
Definition digits1 (l : list byte) : option (list byte * list byte) :=
  match span_digits l with
  | ([], _) => None
  | (ds, r) => Some (ds, r)
  end.

Definition scan_integer (l : list byte) : option (list byte * list byte) :=
  match l with
  | x30 :: r => Some ([x30], r)
  | _ => digits1 l
  end.

Definition scan_fraction (l : list byte) : option (list byte * list byte) :=
  match l with
  | x2e :: r => p ← digits1 r; Some (x2e :: p.1, p.2)
  | _ => Some ([], l)
  end.

Definition scan_exponent (l : list byte) : option (list byte * list byte) :=
  match l with
  | e :: r =>
      if bool_decide (e ∈ [x65; x45])
      then match r with
           | s :: r' =>
               if bool_decide (s ∈ [x2b; x2d]) then p ← digits1 r'; Some (e :: s :: p.1, p.2)
               else p ← digits1 r; Some (e :: p.1, p.2)
           | [] => None
           end
      else Some ([], l)
  | [] => Some ([], l)
  end.

(** The literal of a number and what follows it. *)
Definition scan_number (l : list byte) : option (list byte * list byte) :=
  let '(sign, l) := match l with x2d :: r => ([x2d], r) | _ => ([], l) end in
  n ← scan_integer l; f ← scan_fraction n.2; e ← scan_exponent f.2;
  Some (sign ++ n.1 ++ f.1 ++ e.1, e.2).

(** A string between its quotes: bytes, and the code units of [\u] escapes. *)
Inductive piece :=
| Raw (b : byte)
| Unit (u : Z).

Definition simple_escape (b : byte) : option byte :=
  match b with
  | x22 => Some x22
  | x5c => Some x5c
  | x2f => Some x2f
  | x62 => Some x08
  | x66 => Some x0c
  | x6e => Some x0a
  | x72 => Some x0d
  | x74 => Some x09
  | _ => None
  end.

Definition hex4 (a b c d : byte) : option Z :=
  va ← hex_value a; vb ← hex_value b; vc ← hex_value c; vd ← hex_value d;
  Some (((va * 16 + vb) * 16 + vc) * 16 + vd).

(** To the closing quote. *)
Fixpoint scan_pieces (l : list byte) : option (list piece * list byte) :=
  match l with
  | [] => None
  | b :: l1 =>
      if bool_decide (b = x22) then Some ([], l1)
      else if Z_of_byte b <? 32 then None
      else if bool_decide (b = x5c) then
        match l1 with
        | [] => None
        | e :: l2 =>
            if bool_decide (e = x75) then
              match l2 with
              | h1 :: h2 :: h3 :: h4 :: l3 => u ← hex4 h1 h2 h3 h4; p ← scan_pieces l3; Some (Unit u :: p.1, p.2)
              | _ => None
              end
            else v ← simple_escape e; p ← scan_pieces l2; Some (Raw v :: p.1, p.2)
        end
      else p ← scan_pieces l1; Some (Raw b :: p.1, p.2)
  end.

(** [utf8.EncodeRune] of a rune that is no surrogate. *)
Definition encode_rune (r : Z) : list byte :=
  if r <? 128 then [byte_of_Z r]
  else if r <? 2048 then [byte_of_Z (192 + r / 64); byte_of_Z (128 + r mod 64)]
  else if r <? 65536 then [byte_of_Z (224 + r / 4096); byte_of_Z (128 + r / 64 mod 64); byte_of_Z (128 + r mod 64)]
  else [byte_of_Z (240 + r / 262144); byte_of_Z (128 + r / 4096 mod 64); byte_of_Z (128 + r / 64 mod 64); byte_of_Z (128 + r mod 64)].

Definition high_surrogate (u : Z) : bool := (55296 <=? u) && (u <? 56320).
Definition low_surrogate (u : Z) : bool := (56320 <=? u) && (u <? 57344).
Definition replacement : list byte := [xef; xbf; xbd].

(** Surrogates in pairs are one rune, alone they are replaced. *)
Fixpoint unescape_pieces (l : list piece) : list byte :=
  match l with
  | [] => []
  | Raw b :: l => b :: unescape_pieces l
  | Unit u :: l1 =>
      if high_surrogate u then
        match l1 with
        | Unit u' :: l2 =>
            if low_surrogate u' then encode_rune (65536 + (u - 55296) * 1024 + (u' - 56320)) ++ unescape_pieces l2
            else replacement ++ unescape_pieces l1
        | _ => replacement ++ unescape_pieces l1
        end
      else if low_surrogate u then replacement ++ unescape_pieces l1
      else encode_rune u ++ unescape_pieces l1
  end.

(** Bytes that are not UTF-8 are replaced too.  An escape stands for whole runes,
    so nothing is lost by replacing after the escapes are gone. *)
Definition unquote (l : list piece) : list byte := coerce_utf8 (unescape_pieces l).

(** From the opening quote. *)
Definition scan_string (l : list byte) : option (list byte * list byte) :=
  match l with
  | x22 :: r => p ← scan_pieces r; Some (unquote p.1, p.2)
  | _ => None
  end.

Definition scan_word (word l : list byte) : option (list byte) :=
  if bool_decide (take (length word) l = word) then Some (drop (length word) l) else None.

(** A value that is no object and no array. *)
Definition scan_scalar (l : list byte) : option (json * list byte) :=
  match l with
  | x22 :: _ => p ← scan_string l; Some (JString p.1, p.2)
  | x74 :: _ => r ← scan_word (String.list_byte_of_string "true") l; Some (JBool true, r)
  | x66 :: _ => r ← scan_word (String.list_byte_of_string "false") l; Some (JBool false, r)
  | x6e :: _ => r ← scan_word (String.list_byte_of_string "null") l; Some (JNull, r)
  | _ => p ← scan_number l; Some (JNumber p.1, p.2)
  end.

Example scan_string_example :
  scan_string [x22; x61; x5c; x75; x44; x38; x33; x44; x5c; x75; x64; x65; x30; x30; x5c; x6e; x5c; x75; x64; x38; x30; x30; xff; x22; x2c] =
  Some ([x61; xf0; x9f; x98; x80; x0a; xef; xbf; xbd; xef; xbf; xbd], [x2c]).
Proof. vm_compute. reflexivity. Qed.

Example scan_number_example :
  scan_number (String.list_byte_of_string "-12.50e+3]") = Some (String.list_byte_of_string "-12.50e+3", [x5d]) /\
  scan_number (String.list_byte_of_string "01") = Some ([x30], [x31]) /\
  scan_number (String.list_byte_of_string "1.") = None.
Proof. vm_compute. done. Qed.

(** ** Tokens *)

Inductive tokenState :=
| TopValue | ArrayStart | ArrayValue | ArrayComma
| ObjectStart | ObjectKey | ObjectColon | ObjectValue | ObjectComma.

Record Decoder := mkDecoder {
  Rest : list byte;
  State : tokenState;
  Stack : list tokenState;
}.

Inductive token :=
| Delim (b : byte)
| Scalar (v : json).

Inductive strict_error :=
| ErrEOF
| ErrSyntax
| ErrDuplicateKey
| ErrKeyType
| ErrTrailing
| ErrDepth
| ErrMembers
| ErrElements
| ErrFuel.

Definition value_allowed (s : tokenState) : bool :=
  match s with TopValue | ArrayStart | ArrayValue | ObjectValue => true | _ => false end.

Definition value_end (s : tokenState) : tokenState :=
  match s with
  | ArrayStart | ArrayValue => ArrayComma
  | ObjectValue => ObjectComma
  | _ => s
  end.

Definition obtain {A} (o : option A) (e : strict_error) : result strict_error A :=
  match o with Some a => Ok a | None => Err e end.

(** A comma or a colon, where one is due. *)
Definition punctuate (d : Decoder) : result strict_error Decoder :=
  match skip (Rest d), State d with
  | x2c :: r, ArrayComma => Ok (mkDecoder r ArrayValue (Stack d))
  | x2c :: r, ObjectComma => Ok (mkDecoder r ObjectKey (Stack d))
  | x2c :: r, _ => Err ErrSyntax
  | x3a :: r, ObjectColon => Ok (mkDecoder r ObjectValue (Stack d))
  | x3a :: r, _ => Err ErrSyntax
  | _, _ => Ok d
  end.

Definition open_delim (d : Decoder) (b : byte) (r : list byte) (start : tokenState) : result strict_error (token * Decoder) :=
  if value_allowed (State d) then Ok (Delim b, mkDecoder r start (State d :: Stack d)) else Err ErrSyntax.

Definition close_delim (d : Decoder) (b : byte) (r : list byte) (allowed : bool) : result strict_error (token * Decoder) :=
  if allowed
  then match Stack d with
       | s :: stack => Ok (Delim b, mkDecoder r (value_end s) stack)
       | [] => Err ErrSyntax             (* not reached: an open delimiter has pushed *)
       end
  else Err ErrSyntax.

Definition next_token (d : Decoder) : result strict_error (token * Decoder) :=
  match skip (Rest d) with
  | [] => Err ErrEOF
  | b :: r =>
      if bool_decide (b = x5b) then open_delim d b r ArrayStart
      else if bool_decide (b = x5d) then
        close_delim d b r (match State d with ArrayStart | ArrayComma => true | _ => false end)
      else if bool_decide (b = x7b) then open_delim d b r ObjectStart
      else if bool_decide (b = x7d) then
        close_delim d b r (match State d with ObjectStart | ObjectComma => true | _ => false end)
      else if bool_decide (b = x22) && match State d with ObjectStart | ObjectKey => true | _ => false end then
        p ← obtain (scan_string (b :: r)) ErrSyntax;
        Ok (Scalar (JString p.1), mkDecoder p.2 ObjectColon (Stack d))
      else if value_allowed (State d) then
        p ← obtain (scan_scalar (b :: r)) ErrSyntax;
        Ok (Scalar p.1, mkDecoder p.2 (value_end (State d)) (Stack d))
      else Err ErrSyntax
  end.

Definition Token (d : Decoder) : result strict_error (token * Decoder) :=
  d ← punctuate d; next_token d.

Definition More (d : Decoder) : bool :=
  match skip (Rest d) with
  | [] => false
  | b :: _ => negb (bool_decide (b = x5d)) && negb (bool_decide (b = x7d))
  end.

Definition NewDecoder (data : list byte) : Decoder := mkDecoder data TopValue [].

(** ** The walks *)

(** The bounds of the second implementation; the first has none. *)
Record limits := mkBounds {
  maxDepth : Z;
  maxElements : Z;
}.

Definition exceeds (bound : option limits) (field : limits -> Z) (v : Z) : bool :=
  match bound with Some b => field b <? v | None => false end.

Definition key_of (t : token) : result strict_error (list byte) :=
  match t with Scalar (JString k) => Ok k | _ => Err ErrKeyType end.

(** [depth] is that of the value that is walked, [count] the number of members or
    elements before the next one. *)
Fixpoint walk_value (bound : option limits) (fuel : nat) (depth : Z) (d : Decoder) : result strict_error Decoder :=
  match fuel with
  | O => Err ErrFuel
  | S fuel =>
      if exceeds bound maxDepth depth then Err ErrDepth
      else
        t ← Token d;
        match t with
        | (Delim b, d) =>
            d ← (if bool_decide (b = x7b) then walk_members bound fuel depth 0 [] d
                 else if bool_decide (b = x5b) then walk_elements bound fuel depth 0 d
                 else Ok d);
            closing ← Token d;
            Ok closing.2
        | (Scalar _, d) => Ok d
        end
  end
with walk_members (bound : option limits) (fuel : nat) (depth count : Z) (seen : list (list byte)) (d : Decoder)
  : result strict_error Decoder :=
  match fuel with
  | O => Err ErrFuel
  | S fuel =>
      if More d then
        if exceeds bound maxElements (count + 1) then Err ErrMembers
        else
          t ← Token d;
          key ← key_of t.1;
          if bool_decide (key ∈ seen) then Err ErrDuplicateKey
          else
            d ← walk_value bound fuel (depth + 1) t.2;
            walk_members bound fuel depth (count + 1) (key :: seen) d
      else Ok d
  end
with walk_elements (bound : option limits) (fuel : nat) (depth count : Z) (d : Decoder) : result strict_error Decoder :=
  match fuel with
  | O => Err ErrFuel
  | S fuel =>
      if More d then
        if exceeds bound maxElements (count + 1) then Err ErrElements
        else
          d ← walk_value bound fuel (depth + 1) d;
          walk_elements bound fuel depth (count + 1) d
      else Ok d
  end.

(** A call consumes a byte or more, or is a turn of a loop that does. *)
Definition walk_fuel (data : list byte) : nat := 2 * length data + 2.

Definition walk (data : list byte) (d : Decoder) : result strict_error Decoder := walk_value None (walk_fuel data) 0 d.

Definition RejectDuplicateKeys (data : list byte) : result strict_error unit :=
  d ← walk data (NewDecoder data);
  match Token d with
  | Err ErrEOF => Ok tt
  | _ => Err ErrTrailing
  end.

Definition MaxElements : Z := 4096.

(** Of the reconstruction component. *)
Definition RejectDuplicateKeysWithin (encoded : list byte) (depth : Z) : result strict_error unit :=
  _ ← walk_value (Some (mkBounds depth MaxElements)) (walk_fuel encoded) 0 (NewDecoder encoded); Ok tt.

Definition json_text (s : string) : list byte := map (fun b => if bool_decide (b = x27) then x22 else b) (String.list_byte_of_string s).

Example strict_examples :
  RejectDuplicateKeys (json_text "{'a':1,'a':2}") = Err ErrDuplicateKey /\
  RejectDuplicateKeys (json_text "{'list':[{'c':1,'\u0063':2}]}") = Err ErrDuplicateKey /\
  RejectDuplicateKeys (json_text "{'list':[{'a':1}, {'a':[]}], 'a':-1.5e3} ") = Ok tt /\
  RejectDuplicateKeys (json_text "{'a':1") = Err ErrEOF /\
  RejectDuplicateKeys (json_text "{'a':1} 7") = Err ErrTrailing /\
  RejectDuplicateKeys (json_text "[1,]") = Err ErrSyntax /\
  RejectDuplicateKeysWithin (json_text "[[1]]") 1 = Err ErrDepth /\
  RejectDuplicateKeysWithin (json_text "[[]] x") 1 = Ok tt.
Proof. vm_compute. done. Qed.

(** ** The grammar *)

(** [reads l v r]: a value at the start of [l] is [v], and [r] is left.  There is
    no state here and no stack: each form is read by its own rule. *)
Inductive reads : list byte -> json -> list byte -> Prop :=
| reads_scalar l v r : scan_scalar (skip l) = Some (v, r) -> reads l v r
| reads_array l l1 vs r : skip l = x5b :: l1 -> reads_elements l1 vs r -> reads l (JArray vs) r
| reads_object l l1 ms r : skip l = x7b :: l1 -> reads_members l1 ms r -> reads l (JObject ms) r
with reads_elements : list byte -> list json -> list byte -> Prop :=
| elements_none l r : skip l = x5d :: r -> reads_elements l [] r
| elements_some l v l1 vs r : reads l v l1 -> more_elements l1 vs r -> reads_elements l (v :: vs) r
with more_elements : list byte -> list json -> list byte -> Prop :=
| elements_end l r : skip l = x5d :: r -> more_elements l [] r
| elements_next l l1 v l2 vs r : skip l = x2c :: l1 -> reads l1 v l2 -> more_elements l2 vs r -> more_elements l (v :: vs) r
with reads_members : list byte -> list (list byte * json) -> list byte -> Prop :=
| members_none l r : skip l = x7d :: r -> reads_members l [] r
| members_some l m l1 ms r : reads_member l m l1 -> more_members l1 ms r -> reads_members l (m :: ms) r
with more_members : list byte -> list (list byte * json) -> list byte -> Prop :=
| members_end l r : skip l = x7d :: r -> more_members l [] r
| members_next l l1 m l2 ms r : skip l = x2c :: l1 -> reads_member l1 m l2 -> more_members l2 ms r -> more_members l (m :: ms) r
with reads_member : list byte -> list byte * json -> list byte -> Prop :=
| reads_pair l k l1 l2 v r : scan_string (skip l) = Some (k, l1) -> skip l1 = x3a :: l2 -> reads l2 v r -> reads_member l (k, v) r.

Scheme reads_mut := Minimality for reads Sort Prop
with elements_mut := Minimality for reads_elements Sort Prop
with more_elements_mut := Minimality for more_elements Sort Prop
with members_mut := Minimality for reads_members Sort Prop
with more_members_mut := Minimality for more_members Sort Prop
with member_mut := Minimality for reads_member Sort Prop.
Combined Scheme reads_induction from reads_mut, elements_mut, more_elements_mut, members_mut, more_members_mut, member_mut.

(** What the walks allow: no key twice in an object, and the bounds, for a value at
    depth [depth]. *)
Fixpoint clear (bound : option limits) (depth : Z) (v : json) : bool :=
  negb (exceeds bound maxDepth depth) &&
  match v with
  | JArray vs => negb (exceeds bound maxElements (len vs)) && forallb (clear bound (depth + 1)) vs
  | JObject ms =>
      negb (exceeds bound maxElements (len ms)) && bool_decide (NoDup (map fst ms)) &&
      forallb (fun m => clear bound (depth + 1) m.2) ms
  | _ => true
  end.

(** *** Progress *)

Lemma length_skip l : (length (skip l) <= length l)%nat.
Proof. induction l as [|b l IH]; simpl; [done|]. destruct (space b); simpl; lia. Qed.

Lemma skip_skip l : skip (skip l) = skip l.
Proof. induction l as [|b l IH]; simpl; [done|]. destruct (space b) eqn:E; [done|]. simpl. by rewrite E. Qed.

Lemma skip_nil l : skip l = [] <-> forallb space l = true.
Proof. induction l as [|b l IH]; simpl; [done|]. by destruct (space b). Qed.

Lemma span_digits_app l : l = (span_digits l).1 ++ (span_digits l).2.
Proof. induction l as [|b l IH]; simpl; [done|]. destruct (is_digit b); simpl; [by f_equal|done]. Qed.

Lemma digits1_length l p : digits1 l = Some p -> (length p.2 < length l)%nat.
Proof.
  unfold digits1. pose proof (span_digits_app l) as E. destruct (span_digits l) as [[|b ds] r]; [done|]. intros [= <-].
  apply (f_equal length) in E. rewrite length_app in E. simpl in *. lia.
Qed.

Lemma scan_fraction_length l p : scan_fraction l = Some p -> (length p.2 <= length l)%nat.
Proof.
  unfold scan_fraction. destruct l as [|b l]; [by intros [= <-]|].
  assert (forall o, o = Some ([], b :: l) -> o = Some p -> (length p.2 <= length (b :: l))%nat) as Hno by (intros ? -> [= <-]; done).
  destruct b; try (apply Hno; reflexivity). destruct (digits1 l) as [q|] eqn:E; [|done]. simpl. intros [= <-].
  apply digits1_length in E. simpl. lia.
Qed.

Lemma scan_exponent_length l p : scan_exponent l = Some p -> (length p.2 <= length l)%nat.
Proof.
  unfold scan_exponent. destruct l as [|e l]; [by intros [= <-]|]. case_bool_decide; [|by intros [= <-]].
  destruct l as [|s l]; [done|]. case_bool_decide.
  - destruct (digits1 l) as [q|] eqn:E; [|done]. simpl. intros [= <-]. apply digits1_length in E. simpl. lia.
  - destruct (digits1 (s :: l)) as [q|] eqn:E; [|done]. simpl. intros [= <-]. apply digits1_length in E. simpl in *. lia.
Qed.

Lemma scan_integer_length l p : scan_integer l = Some p -> (length p.2 < length l)%nat.
Proof.
  unfold scan_integer. destruct l as [|b l]; [apply digits1_length|]. destruct b; try apply digits1_length. intros [= <-]. simpl. lia.
Qed.

Lemma scan_number_length l p : scan_number l = Some p -> (length p.2 < length l)%nat.
Proof.
  unfold scan_number.
  assert (exists sign l', (match l with x2d :: r => ([x2d], r) | _ => ([], l) end) = (sign, l') /\ (length l' <= length l)%nat)
    as (sign & l' & -> & Hl).
  { destruct l as [|b l]; [by eexists _, _|]. destruct b; eexists _, _; (split; [reflexivity|simpl; lia]). }
  destruct (scan_integer l') as [n|] eqn:En; [|done]. simpl. destruct (scan_fraction n.2) as [f|] eqn:Ef; [|done]. simpl.
  destruct (scan_exponent f.2) as [e|] eqn:Ee; [|done]. simpl. intros [= <-].
  apply scan_integer_length in En. apply scan_fraction_length in Ef. apply scan_exponent_length in Ee. simpl. lia.
Qed.

Lemma scan_pieces_length l p : scan_pieces l = Some p -> (length p.2 < length l)%nat.
Proof.
  revert p. induction l as [l IH] using (induction_ltof1 _ (@length byte)). unfold ltof in IH. intros p.
  destruct l as [|b l1]; [done|]. cbn [scan_pieces]. case_bool_decide; [intros [= <-]; simpl; lia|].
  destruct (_ <? _); [done|].
  assert (forall l' f, (length l' <= length l1)%nat -> (q ← scan_pieces l'; Some (f q.1, q.2)) = Some p -> (length p.2 < length (b :: l1))%nat) as Hk.
  { intros l' f Hl E. destruct (scan_pieces l') as [q|] eqn:Eq; [|done]. simpl in E. injection E as <-.
    apply IH in Eq; simpl in *; lia. }
  case_bool_decide; [|apply (Hk l1 (cons (Raw b))); done].
  destruct l1 as [|e l2]; [done|]. case_bool_decide.
  - destruct l2 as [|h1 [|h2 [|h3 [|h4 l3]]]]; try done. destruct (hex4 h1 h2 h3 h4) as [u|]; [|done].
    apply (Hk l3 (cons (Unit u))). simpl. lia.
  - destruct (simple_escape e) as [v|]; [|done]. apply (Hk l2 (cons (Raw v))). simpl. lia.
Qed.

Lemma scan_string_inv l p : scan_string l = Some p -> exists r, l = x22 :: r /\ (length p.2 < length l)%nat.
Proof.
  unfold scan_string. destruct l as [|b l]; [done|]. destruct b; try done. destruct (scan_pieces l) as [q|] eqn:E; [|done].
  simpl. intros [= <-]. apply scan_pieces_length in E. exists l. simpl. split; [done|lia].
Qed.

Lemma scan_word_length word l r : word <> [] -> scan_word word l = Some r -> (length r < length l)%nat.
Proof.
  intros Hw. unfold scan_word. case_bool_decide as E; [|done]. intros [= <-].
  pose proof (f_equal length E) as El. rewrite length_take in El. rewrite length_drop.
  destruct word; [done|]. cbn [length] in *. lia.
Qed.

Lemma scan_scalar_length l v r : scan_scalar l = Some (v, r) -> (length r < length l)%nat.
Proof.
  unfold scan_scalar. destruct l as [|b l]; [done|].
  assert ((p ← scan_number (b :: l); Some (JNumber p.1, p.2)) = Some (v, r) -> (length r < length (b :: l))%nat) as Hn.
  { destruct (scan_number (b :: l)) as [p|] eqn:E; [|done]. simpl. intros [= _ <-]. by apply scan_number_length in E. }
  assert (forall w j, w <> [] -> (q ← scan_word w (b :: l); Some (j, q)) = Some (v, r) -> (length r < length (b :: l))%nat) as Hw.
  { intros w j Hne. destruct (scan_word w (b :: l)) as [q|] eqn:E; [|done]. simpl. intros [= _ <-]. by apply scan_word_length in E. }
  destruct b; try exact Hn; try (apply Hw; discriminate).
  destruct (scan_string (x22 :: l)) as [p|] eqn:E; [|done]. simpl. intros [= _ <-]. by apply scan_string_inv in E as (? & _ & ?).
Qed.

(** A scalar begins with none of the delimiters. *)
Definition structural : list byte := [x5b; x5d; x7b; x7d; x2c; x3a].

Lemma scan_scalar_head b l v r : scan_scalar (b :: l) = Some (v, r) -> b ∉ structural.
Proof.
  intros E Hb. unfold structural in Hb. repeat (apply elem_of_cons in Hb as [-> |Hb]; [discriminate E|]). by apply elem_of_nil in Hb.
Qed.

Lemma scan_scalar_leaf l v r : scan_scalar l = Some (v, r) -> (forall vs, v <> JArray vs) /\ (forall ms, v <> JObject ms).
Proof.
  unfold scan_scalar.
  destruct (match l with x22 :: _ => _ | x74 :: _ => _ | x66 :: _ => _ | x6e :: _ => _ | _ => _ end) as [[w q]|] eqn:E; [|done].
  intros [= -> ->].
  assert ((p ← scan_number l; Some (JNumber p.1, p.2)) = Some (v, r) -> (forall vs, v <> JArray vs) /\ (forall ms, v <> JObject ms)) as Hn.
  { destruct (scan_number l) as [p|]; [|done]. simpl. by intros [= <- _]. }
  assert (forall w b, (p ← scan_word w l; Some (b, p)) = Some (v, r) -> (forall vs, b <> JArray vs) /\ (forall ms, b <> JObject ms) ->
    (forall vs, v <> JArray vs) /\ (forall ms, v <> JObject ms)) as Hw.
  { intros w b. destruct (scan_word w l) as [p|]; [|done]. simpl. by intros [= <- _]. }
  destruct l as [|b l]; [by apply Hn|]. destruct b; try (apply Hn, E); try (eapply Hw; [exact E|done]).
  destruct (scan_string _) as [p|]; [|done]. simpl in E. by injection E as <- _.
Qed.

(** *** One token *)

Lemma reads_head l v r : reads l v r -> exists b t, skip l = b :: t /\ b ∉ [x5d; x7d; x2c; x3a].
Proof.
  destruct 1 as [l v r E|l l1 vs r E _|l l1 ms r E _].
  - destruct (skip l) as [|b t]; [done|]. exists b, t. split; [done|]. apply scan_scalar_head in E. unfold structural in E. set_solver.
  - exists x5b, l1. split; [done|]. apply (bool_decide_unpack _). by vm_compute.
  - exists x7b, l1. split; [done|]. apply (bool_decide_unpack _). by vm_compute.
Qed.

Lemma punctuate_id d b t : skip (Rest d) = b :: t -> b ∉ [x2c; x3a] -> punctuate d = Ok d.
Proof. intros E Hb. unfold punctuate. rewrite E. destruct b; try done; exfalso; apply Hb; set_solver. Qed.

Lemma punctuate_inv d d' : punctuate d = Ok d' ->
  (d' = d /\ (forall b t, skip (Rest d) = b :: t -> b ∉ [x2c; x3a])) \/
  exists r, (State d = ArrayComma /\ skip (Rest d) = x2c :: r /\ d' = mkDecoder r ArrayValue (Stack d)) \/
    (State d = ObjectComma /\ skip (Rest d) = x2c :: r /\ d' = mkDecoder r ObjectKey (Stack d)) \/
    (State d = ObjectColon /\ skip (Rest d) = x3a :: r /\ d' = mkDecoder r ObjectValue (Stack d)).
Proof.
  unfold punctuate. destruct (skip (Rest d)) as [|b r]; [intros [= <-]; left; naive_solver|].
  destruct (decide (b ∈ [x2c; x3a])) as [Hb|Hb].
  - apply elem_of_cons in Hb as [-> |Hb]; [|apply list_elem_of_singleton in Hb as ->];
      destruct (State d) eqn:Es; try done; intros [= <-]; right; exists r; tauto.
  - intros E. left. split; [|by intros ? ? [= <- _]]. destruct b; try congruence; exfalso; apply Hb; set_solver.
Qed.

Lemma More_head d b t : skip (Rest d) = b :: t -> b ∉ [x5d; x7d] -> More d = true.
Proof. intros E Hb. unfold More. rewrite E, !bool_decide_false by set_solver. done. Qed.

Lemma More_inv d : More d = true -> exists b t, skip (Rest d) = b :: t /\ b ∉ [x5d; x7d].
Proof.
  unfold More. destruct (skip (Rest d)) as [|b t]; [done|]. intros E. exists b, t. split; [done|]. reflect_bools. set_solver.
Qed.

Lemma next_open d b t start : skip (Rest d) = b :: t -> (b = x5b /\ start = ArrayStart) \/ (b = x7b /\ start = ObjectStart) ->
  value_allowed (State d) = true -> next_token d = Ok (Delim b, mkDecoder t start (State d :: Stack d)).
Proof.
  intros E Hb Ha. unfold next_token. rewrite E. unfold open_delim. rewrite Ha. by destruct Hb as [[-> ->] | [-> ->]].
Qed.

Lemma next_scalar d v r : scan_scalar (skip (Rest d)) = Some (v, r) -> value_allowed (State d) = true ->
  next_token d = Ok (Scalar v, mkDecoder r (value_end (State d)) (Stack d)).
Proof.
  intros E Ha. unfold next_token. destruct (skip (Rest d)) as [|b t]; [done|]. pose proof (scan_scalar_head _ _ _ _ E) as Hb.
  assert (forall c, bool_decide (c ∈ structural) = true -> bool_decide (b = c) = false) as Hc
    by (intros c Hc; reflect_bools; apply bool_decide_false; congruence).
  rewrite (Hc x5b), (Hc x5d), (Hc x7b), (Hc x7d) by done.
  assert (bool_decide (b = x22) && match State d with ObjectStart | ObjectKey => true | _ => false end = false) as ->
    by (rewrite andb_false_iff; right; by destruct (State d)).
  rewrite Ha, E. done.
Qed.

Lemma next_key d k r : scan_string (skip (Rest d)) = Some (k, r) -> State d = ObjectStart \/ State d = ObjectKey ->
  next_token d = Ok (Scalar (JString k), mkDecoder r ObjectColon (Stack d)).
Proof.
  intros E Hs. unfold next_token. pose proof (scan_string_inv _ _ E) as (t & Et & _). rewrite Et in *.
  rewrite !(bool_decide_false (x22 = _)) by done. rewrite bool_decide_true by done.
  assert ((match State d with ObjectStart | ObjectKey => true | _ => false end) = true) as -> by (by destruct Hs as [-> | ->]).
  cbn [andb]. rewrite E. done.
Qed.

Lemma next_close d b t s stack : skip (Rest d) = b :: t -> Stack d = s :: stack ->
  (b = x5d /\ (State d = ArrayStart \/ State d = ArrayComma)) \/ (b = x7d /\ (State d = ObjectStart \/ State d = ObjectComma)) ->
  Token d = Ok (Delim b, mkDecoder t (value_end s) stack).
Proof.
  intros E Hst Hb. unfold Token.
  rewrite (punctuate_id d b t E) by (destruct Hb as [[-> _] | [-> _]]; apply (bool_decide_unpack _); by vm_compute).
  cbn [mbind result_bind]. unfold next_token. rewrite E. unfold close_delim. rewrite Hst.
  destruct Hb as [[-> [-> | ->]] | [-> [-> | ->]]]; done.
Qed.

(** What a token can be where a value is due. *)
Lemma next_value_inv d t d' : next_token d = Ok (t, d') -> value_allowed (State d) = true ->
  (forall b r, skip (Rest d) = b :: r -> State d = ArrayStart -> b <> x5d) ->
  (exists v, t = Scalar v /\ scan_scalar (skip (Rest d)) = Some (v, Rest d') /\ d' = mkDecoder (Rest d') (value_end (State d)) (Stack d)) \/
  (t = Delim x5b /\ exists r, skip (Rest d) = x5b :: r /\ d' = mkDecoder r ArrayStart (State d :: Stack d)) \/
  (t = Delim x7b /\ exists r, skip (Rest d) = x7b :: r /\ d' = mkDecoder r ObjectStart (State d :: Stack d)).
Proof.
  unfold next_token. destruct (skip (Rest d)) as [|b r] eqn:Es; [done|]. intros E Ha Hc. unfold open_delim in E. rewrite Ha in E.
  case_bool_decide as Hb; [subst; injection E as <- <-; eauto 6|]. case_bool_decide as Hb2.
  { subst. unfold close_delim in E. destruct (State d) eqn:Est; try done. by destruct (Hc _ _ eq_refl eq_refl). }
  case_bool_decide as Hb3; [subst; injection E as <- <-; eauto 6|]. case_bool_decide as Hb4.
  { subst. unfold close_delim in E. by destruct (State d). }
  assert (bool_decide (b = x22) && match State d with ObjectStart | ObjectKey => true | _ => false end = false) as Ek
    by (rewrite andb_false_iff; right; by destruct (State d)).
  rewrite Ek in E. destruct (scan_scalar (b :: r)) as [[v q]|] eqn:Ev; [|done]. cbn [obtain mbind result_bind] in E.
  injection E as <- <-. left. eauto.
Qed.

(** What a token can be where a key is due. *)
Lemma next_key_inv d t d' : next_token d = Ok (t, d') -> State d = ObjectStart \/ State d = ObjectKey ->
  (forall b r, skip (Rest d) = b :: r -> State d = ObjectStart -> b <> x7d) ->
  exists k, t = Scalar (JString k) /\ scan_string (skip (Rest d)) = Some (k, Rest d') /\ d' = mkDecoder (Rest d') ObjectColon (Stack d).
Proof.
  unfold next_token. destruct (skip (Rest d)) as [|b r] eqn:Es; [done|]. intros E Hs Hc.
  assert (value_allowed (State d) = false) as Ha by (by destruct Hs as [-> | ->]). unfold open_delim in E. rewrite Ha in E.
  case_bool_decide as Hb; [done|]. case_bool_decide as Hb2; [unfold close_delim in E; by destruct Hs as [Hs|Hs]; rewrite Hs in E|].
  case_bool_decide as Hb3; [done|]. case_bool_decide as Hb4.
  { subst. unfold close_delim in E. destruct Hs as [Hs|Hs]; rewrite Hs in E; [|done]. by destruct (Hc _ _ eq_refl Hs). }
  destruct (bool_decide (b = x22) && _) eqn:Ek; [|done]. destruct (scan_string (b :: r)) as [[k q]|] eqn:Ev; [|done].
  cbn [obtain mbind result_bind] in E. injection E as <- <-. eauto.
Qed.

(** What the token after a loop can be. *)
Lemma next_close_inv d t d' closing s stack : Token d = Ok (t, d') -> More d = false -> Stack d = s :: stack ->
  (closing = x5d /\ (State d = ArrayStart \/ State d = ArrayComma)) \/ (closing = x7d /\ (State d = ObjectStart \/ State d = ObjectComma)) ->
  skip (Rest d) = closing :: Rest d' /\ d' = mkDecoder (Rest d') (value_end s) stack.
Proof.
  intros E Hm Hst Hs. unfold Token in E.
  destruct (skip (Rest d)) as [|b r] eqn:Er.
  { unfold punctuate in E. rewrite Er in E. cbn [mbind result_bind] in E. unfold next_token in E. by rewrite Er in E. }
  assert (b = x5d \/ b = x7d) as Hb.
  { unfold More in Hm. rewrite Er in Hm. apply andb_false_iff in Hm as [Hm|Hm]; reflect_bools; auto. }
  rewrite (punctuate_id d b r Er) in E by (destruct Hb as [-> | ->]; apply (bool_decide_unpack _); by vm_compute).
  cbn [mbind result_bind] in E. unfold next_token in E. rewrite Er in E. unfold close_delim in E. rewrite Hst in E.
  destruct Hb as [-> | ->], Hs as [[-> [Hs|Hs]] | [-> [Hs|Hs]]]; rewrite Hs in E; simpl in E; try done;
    injection E as <- <-; done.
Qed.

(** *** The walks accept what the grammar reads *)

Lemma reads_progress :
  (forall l v r, reads l v r -> (length r < length l)%nat) /\
  (forall l vs r, reads_elements l vs r -> (length r < length l)%nat) /\
  (forall l vs r, more_elements l vs r -> (length r < length l)%nat) /\
  (forall l ms r, reads_members l ms r -> (length r < length l)%nat) /\
  (forall l ms r, more_members l ms r -> (length r < length l)%nat) /\
  (forall l m r, reads_member l m r -> (length r < length l)%nat).
Proof.
  assert (forall l b t, skip l = b :: t -> (length t < length l)%nat) as Hs.
  { intros l b t E. pose proof (length_skip l) as Hl. rewrite E in Hl. simpl in Hl. lia. }
  apply reads_induction; intros;
    repeat match goal with E : skip _ = _ :: _ |- _ => apply Hs in E end; try lia.
  - match goal with E : scan_scalar _ = _ |- _ => apply scan_scalar_length in E end. pose proof (length_skip l). lia.
  - match goal with E : scan_string _ = _ |- _ => apply scan_string_inv in E as (? & _ & ?) end. pose proof (length_skip l). simpl in *. lia.
Qed.

Lemma exceeds_mono bound field m n : m <= n -> exceeds bound field n = false -> exceeds bound field m = false.
Proof. unfold exceeds. destruct bound; [|done]. intros. apply Z.ltb_ge. reflect_bools. lia. Qed.

Lemma clear_depth bound depth v : clear bound depth v = true -> exceeds bound maxDepth depth = false.
Proof. destruct v; simpl; intros E; by apply andb_true_iff in E as [E%negb_true_iff _]. Qed.

Lemma Token_after d d1 : punctuate d = Ok d1 -> Token d = next_token d1.
Proof. intros E. unfold Token. by rewrite E. Qed.

Section complete.
Variable bound : option limits.

Definition value_ok (l : list byte) (v : json) (r : list byte) : Prop := forall fuel depth d st stk,
  punctuate d = Ok (mkDecoder l st stk) -> value_allowed st = true ->
  clear bound depth v = true -> (2 * (length l - length r) <= fuel)%nat ->
  walk_value bound fuel depth d = Ok (mkDecoder r (value_end st) stk).

Definition elements_ok (st : tokenState) (l : list byte) (vs : list json) (r : list byte) : Prop := forall fuel depth count s stk,
  forallb (clear bound (depth + 1)) vs = true -> exceeds bound maxElements (count + len vs) = false ->
  (2 * (length l - length r) <= fuel + 1)%nat ->
  exists d', walk_elements bound fuel depth count (mkDecoder l st (s :: stk)) = Ok d' /\
    Token d' = Ok (Delim x5d, mkDecoder r (value_end s) stk).

Definition members_ok (st : tokenState) (l : list byte) (ms : list (list byte * json)) (r : list byte) : Prop :=
  forall fuel depth count seen s stk,
  forallb (fun m => clear bound (depth + 1) m.2) ms = true -> exceeds bound maxElements (count + len ms) = false ->
  NoDup (map fst ms) -> (forall k, k ∈ map fst ms -> k ∉ seen) -> (2 * (length l - length r) <= fuel + 1)%nat ->
  exists d', walk_members bound fuel depth count seen (mkDecoder l st (s :: stk)) = Ok d' /\
    Token d' = Ok (Delim x7d, mkDecoder r (value_end s) stk).

Definition member_ok (l : list byte) (m : list byte * json) (r : list byte) : Prop := forall d st stk,
  punctuate d = Ok (mkDecoder l st stk) -> st = ObjectStart \/ st = ObjectKey ->
  exists d1, Token d = Ok (Scalar (JString m.1), d1) /\
    forall fuel depth, clear bound depth m.2 = true -> (2 * (length l - length r) <= fuel)%nat ->
      walk_value bound fuel depth d1 = Ok (mkDecoder r ObjectComma stk).

(** One turn of each loop. *)
Lemma elements_turn st l st1 l1 v l2 vs r : (forall stk, punctuate (mkDecoder l st stk) = Ok (mkDecoder l1 st1 stk)) ->
  value_allowed st1 = true -> value_end st1 = ArrayComma -> (forall stk, More (mkDecoder l st stk) = true) ->
  (length l1 <= length l)%nat -> value_ok l1 v l2 -> elements_ok ArrayComma l2 vs r -> (length l2 < length l1)%nat ->
  (length r < length l2)%nat -> elements_ok st l (v :: vs) r.
Proof.
  intros Hp Ha He Hm Hl Hv Hvs Hlt1 Hlt2 fuel depth count s stk Hc Hx Hf. destruct fuel as [|fuel]; [lia|].
  cbn [walk_elements]. rewrite Hm. cbn [forallb] in Hc. apply andb_true_iff in Hc as [Hc1 Hc2]. cbn [length] in Hx.
  rewrite (exceeds_mono _ _ (count + 1) (count + Z.of_nat (S (length vs)))) by (done || lia).
  rewrite (Hv fuel (depth + 1) _ st1 (s :: stk)) by (done || lia).
  cbn [mbind result_bind]. rewrite He. apply Hvs; [done| |lia].
  by replace (count + 1 + len vs) with (count + Z.of_nat (S (length vs))) by lia.
Qed.

Lemma members_turn st l st1 l1 m l2 ms r : (forall stk, punctuate (mkDecoder l st stk) = Ok (mkDecoder l1 st1 stk)) ->
  st1 = ObjectStart \/ st1 = ObjectKey -> (forall stk, More (mkDecoder l st stk) = true) ->
  (length l1 <= length l)%nat -> member_ok l1 m l2 -> members_ok ObjectComma l2 ms r -> (length l2 < length l1)%nat ->
  (length r < length l2)%nat -> members_ok st l (m :: ms) r.
Proof.
  intros Hp Hs Hm Hl Hv Hvs Hlt1 Hlt2 fuel depth count seen s stk Hc Hx Hnd Hseen Hf. destruct fuel as [|fuel]; [lia|].
  cbn [walk_members]. rewrite Hm. cbn [forallb] in Hc. apply andb_true_iff in Hc as [Hc1 Hc2]. cbn [length] in Hx.
  rewrite (exceeds_mono _ _ (count + 1) (count + Z.of_nat (S (length ms)))) by (done || lia).
  destruct (Hv _ _ _ (Hp (s :: stk)) Hs) as (d1 & Et & Hw). rewrite Et. cbn [mbind result_bind fst key_of snd].
  cbn [map] in Hnd, Hseen. apply NoDup_cons in Hnd as [Hn Hnd].
  rewrite bool_decide_false by (apply Hseen; left). rewrite Hw by (done || lia). cbn [mbind result_bind].
  apply Hvs; [done| |done| |lia].
  - by replace (count + 1 + len ms) with (count + Z.of_nat (S (length ms))) by lia.
  - intros k Hk. apply not_elem_of_cons. split; [by intros -> |]. apply Hseen. by right.
Qed.

Lemma loop_end d : More d = false -> forall fuel depth count, (0 < fuel)%nat ->
  walk_elements bound fuel depth count d = Ok d /\ forall seen, walk_members bound fuel depth count seen d = Ok d.
Proof. intros Hm [|fuel] depth count Hf; [lia|]. cbn [walk_elements walk_members]. by rewrite Hm. Qed.

Lemma closed l b r stk st : skip l = b :: r -> b = x5d \/ b = x7d -> More (mkDecoder l st stk) = false.
Proof. intros E Hb. unfold More. cbn [Rest]. rewrite E. by destruct Hb as [-> | ->]. Qed.

Lemma skip_shorter l b t : skip l = b :: t -> (length t < length l)%nat.
Proof. intros E. pose proof (length_skip l) as Hl. rewrite E in Hl. simpl in Hl. lia. Qed.

Lemma walk_complete :
  (forall l v r, reads l v r -> value_ok l v r) /\
  (forall l vs r, reads_elements l vs r -> elements_ok ArrayStart l vs r) /\
  (forall l vs r, more_elements l vs r -> elements_ok ArrayComma l vs r) /\
  (forall l ms r, reads_members l ms r -> members_ok ObjectStart l ms r) /\
  (forall l ms r, more_members l ms r -> members_ok ObjectComma l ms r) /\
  (forall l m r, reads_member l m r -> member_ok l m r).
Proof.
  destruct reads_progress as (Pv & Pe & Pme & Pm & Pmm & Pk).
  assert (forall l b t, reads l b t -> forall stk st, punctuate (mkDecoder l st stk) = Ok (mkDecoder l st stk)) as Hpu.
  { intros l v r (b & t & E & Hb)%reads_head stk st. eapply punctuate_id; [exact E|set_solver]. }
  assert (forall l m t, reads_member l m t -> (forall stk st, punctuate (mkDecoder l st stk) = Ok (mkDecoder l st stk)) /\
    forall stk st, More (mkDecoder l st stk) = true) as Hkey.
  { intros l m t Hm. destruct Hm as [l k l1 l2 v r E _ _]. apply scan_string_inv in E as (t & E & _).
    split; intros; [eapply punctuate_id; [exact E|]|eapply More_head; [exact E|]]; apply (bool_decide_unpack _); by vm_compute. }
  assert (forall l b t, skip l = b :: t -> b ∉ [x5d; x7d] -> forall st stk, More (mkDecoder l st stk) = true) as Hmo
    by (intros; by eapply More_head).
  assert (x2c ∉ [x5d; x7d]) as Hcomma by (apply (bool_decide_unpack _); by vm_compute).
  apply reads_induction.
  - intros l v r E fuel depth d st stk Hp Ha Hc Hf. apply scan_scalar_length in E as Hl. pose proof (length_skip l).
    destruct fuel as [|fuel]; [lia|]. cbn [walk_value]. rewrite (clear_depth _ _ _ Hc). rewrite (Token_after _ _ Hp).
    by rewrite (next_scalar (mkDecoder l st stk) v r E Ha).
  - intros l l1 vs r E Hr IH fuel depth d st stk Hp Ha Hc Hf. apply Pe in Hr. apply skip_shorter in E as Hl.
    destruct fuel as [|fuel]; [lia|]. cbn [walk_value]. rewrite (clear_depth _ _ _ Hc). rewrite (Token_after _ _ Hp).
    rewrite (next_open (mkDecoder l st stk) x5b l1 ArrayStart E) by auto. cbn [clear] in Hc. reflect_bools.
    destruct (IH fuel depth 0 st stk) as (d' & Hw & Ht); [done..|lia|]. cbn [State Stack mbind result_bind] in *.
    change (bool_decide (x5b = x7b)) with false. change (bool_decide (x5b = x5b)) with true. cbn iota. rewrite Hw. cbn [mbind result_bind]. by rewrite Ht.
  - intros l l1 ms r E Hr IH fuel depth d st stk Hp Ha Hc Hf. apply Pm in Hr. apply skip_shorter in E as Hl.
    destruct fuel as [|fuel]; [lia|]. cbn [walk_value]. rewrite (clear_depth _ _ _ Hc). rewrite (Token_after _ _ Hp).
    rewrite (next_open (mkDecoder l st stk) x7b l1 ObjectStart E) by auto. cbn [clear] in Hc. reflect_bools.
    destruct (IH fuel depth 0 [] st stk) as (d' & Hw & Ht); [done..|set_solver|lia|]. cbn [State Stack mbind result_bind] in *.
    change (bool_decide (x7b = x7b)) with true. cbn iota. rewrite Hw. cbn [mbind result_bind]. by rewrite Ht.
  - intros l r E fuel depth count s stk _ _ Hf. apply skip_shorter in E as Hl. eexists. split.
    + eapply loop_end; [eapply closed; [exact E|auto]|lia].
    + by eapply next_close; [exact E|done|auto].
  - intros l v l1 vs r Hv IHv Hvs IHvs. pose proof (reads_head _ _ _ Hv) as (b & t & E & Hb).
    eapply elements_turn; eauto using Hpu; [|set_solver..]. eapply Hmo; [exact E|set_solver].
  - intros l r E fuel depth count s stk _ _ Hf. apply skip_shorter in E as Hl. eexists. split.
    + eapply loop_end; [eapply closed; [exact E|auto]|lia].
    + by eapply next_close; [exact E|done|auto].
  - intros l l1 v l2 vs r E Hv IHv Hvs IHvs. apply skip_shorter in E as Hl. eapply (elements_turn _ _ ArrayValue l1); eauto; [|lia].
    intros stk. unfold punctuate. cbn [Rest State]. by rewrite E.
  - intros l r E fuel depth count seen s stk _ _ _ _ Hf. apply skip_shorter in E as Hl. eexists. split.
    + eapply loop_end; [eapply closed; [exact E|auto]|lia].
    + by eapply next_close; [exact E|done|auto].
  - intros l m l1 ms r Hm IHm Hms IHms. destruct (Hkey _ _ _ Hm). eapply members_turn; eauto.
  - intros l r E fuel depth count seen s stk _ _ _ _ Hf. apply skip_shorter in E as Hl. eexists. split.
    + eapply loop_end; [eapply closed; [exact E|auto]|lia].
    + by eapply next_close; [exact E|done|auto].
  - intros l l1 m l2 ms r E Hm IHm Hms IHms. apply skip_shorter in E as Hl. eapply (members_turn _ _ ObjectKey l1); eauto; [|lia].
    intros stk. unfold punctuate. cbn [Rest State]. by rewrite E.
  - intros l k l1 l2 v r Ek Ec Hv IHv d st stk Hp Hs. exists (mkDecoder l1 ObjectColon stk). split.
    + rewrite (Token_after _ _ Hp). by apply (next_key (mkDecoder l st stk)).
    + intros fuel depth Hc Hf. apply scan_string_inv in Ek as (? & _ & Hlen). pose proof (length_skip l). simpl in Hlen.
      apply skip_shorter in Ec as Hl. apply Pv in Hv. apply (IHv fuel depth _ ObjectValue stk); [|done|done|lia].
      unfold punctuate. cbn [Rest State]. by rewrite Ec.
Qed.
End complete.

(** *** The grammar reads what the walks accept *)

Section sound.
Variable bound : option limits.
Hypothesis bound_ok : exceeds bound maxElements 0 = false.

(** Where a walk is started. *)
Definition value_due (d : Decoder) : Prop :=
  match State d with
  | TopValue | ObjectColon => True
  | ArrayStart | ArrayComma => More d = true
  | _ => False
  end.

Definition value_read (fuel : nat) : Prop := forall depth d d', walk_value bound fuel depth d = Ok d' -> value_due d ->
  exists l st v, punctuate d = Ok (mkDecoder l st (Stack d)) /\ value_allowed st = true /\ reads l v (Rest d') /\
    clear bound depth v = true /\ d' = mkDecoder (Rest d') (value_end st) (Stack d).

Definition elements_read (fuel : nat) : Prop := forall depth count d d' s stk t d'', walk_elements bound fuel depth count d = Ok d' ->
  State d = ArrayStart \/ State d = ArrayComma -> Stack d = s :: stk -> Token d' = Ok (t, d'') -> exceeds bound maxElements count = false ->
  exists vs, (State d = ArrayStart -> reads_elements (Rest d) vs (Rest d'')) /\ (State d = ArrayComma -> more_elements (Rest d) vs (Rest d'')) /\
    forallb (clear bound (depth + 1)) vs = true /\ exceeds bound maxElements (count + len vs) = false /\
    d'' = mkDecoder (Rest d'') (value_end s) stk.

Definition members_read (fuel : nat) : Prop := forall depth count seen d d' s stk t d'', walk_members bound fuel depth count seen d = Ok d' ->
  State d = ObjectStart \/ State d = ObjectComma -> Stack d = s :: stk -> Token d' = Ok (t, d'') -> exceeds bound maxElements count = false ->
  exists ms, (State d = ObjectStart -> reads_members (Rest d) ms (Rest d'')) /\ (State d = ObjectComma -> more_members (Rest d) ms (Rest d'')) /\
    forallb (fun m => clear bound (depth + 1) m.2) ms = true /\ exceeds bound maxElements (count + len ms) = false /\
    NoDup (map fst ms) /\ (forall k, k ∈ map fst ms -> k ∉ seen) /\ d'' = mkDecoder (Rest d'') (value_end s) stk.

(** The punctuation before a value. *)
Lemma due_punctuate d d1 t d2 : value_due d -> punctuate d = Ok d1 -> next_token d1 = Ok (t, d2) ->
  Stack d1 = Stack d /\ value_allowed (State d1) = true /\ (forall b r, skip (Rest d1) = b :: r -> State d1 = ArrayStart -> b <> x5d).
Proof.
  intros Hd Hp Ht. destruct (punctuate_inv _ _ Hp) as [[-> _] | (r & [(Es & _ & ->) | [(Es & _ & ->) | (Es & _ & ->)]])]; unfold value_due in Hd;
    [|by split_and!|by rewrite Es in Hd|by split_and!].
  assert (value_allowed (State d) = true -> Stack d = Stack d /\ value_allowed (State d) = true /\
    (forall b r, skip (Rest d) = b :: r -> State d = ArrayStart -> b <> x5d)) as Hok.
  { intros Ha. split_and!; [done|done|]. intros b r E Es. rewrite Es in Hd. apply More_inv in Hd as (b' & r' & E' & Hb).
    rewrite E in E'. injection E' as <- _. set_solver. }
  destruct (State d) eqn:Es; try done; try (by apply Hok).
  all: exfalso; unfold next_token in Ht; destruct (skip (Rest d)) as [|b r] eqn:Er; [done|]; unfold open_delim, close_delim in Ht;
    rewrite Es in Ht; cbn [value_allowed] in Ht; repeat case_bool_decide; try done.
  apply More_inv in Hd as (b' & r' & E' & Hb). rewrite Er in E'. injection E' as <- _. set_solver.
Qed.

Lemma value_step fuel : elements_read fuel -> members_read fuel -> value_read (S fuel).
Proof.
  intros He Hm depth d d' E Hd. cbn [walk_value] in E. destruct (exceeds bound maxDepth depth) eqn:Ex; [done|].
  unfold Token at 2 in E. destruct (punctuate d) as [d1|] eqn:Ep; [|done]. cbn [mbind result_bind] in E.
  destruct (next_token d1) as [[t d2]|] eqn:Et; [|done]. cbn [mbind result_bind] in E.
  destruct (due_punctuate _ _ _ _ Hd Ep Et) as (Hst & Ha & Hc). exists (Rest d1), (State d1).
  destruct (next_value_inv _ _ _ Et Ha Hc) as [(v & -> & Ev & E2) | [(-> & r & Er & ->) | (-> & r & Er & ->)]].
  - injection E as <-. exists v. rewrite <- Hst. split_and!; [by destruct d1|done|by apply reads_scalar| |done].
    apply scan_scalar_leaf in Ev as [Hna Hno]. destruct v; simpl; rewrite Ex; try done; [by destruct (Hna elements)|by destruct (Hno members)].
  - change (bool_decide (x5b = x7b)) with false in E. change (bool_decide (x5b = x5b)) with true in E. cbn iota in E.
    destruct (walk_elements _ _ _ _ _) as [d3|] eqn:Ew; [|done]. cbn [mbind result_bind] in E.
    destruct (Token d3) as [[t4 d4]|] eqn:Ec; [|done]. injection E as <-.
    destruct (He _ _ _ _ _ _ _ _ Ew (or_introl eq_refl) eq_refl Ec bound_ok) as (vs & Hr & _ & Hcl & Hlen & E4).
    exists (JArray vs). rewrite <- Hst. split_and!; [by destruct d1|done| | |exact E4].
    + eapply reads_array; [exact Er|by apply Hr].
    + simpl. rewrite Ex, Hcl. rewrite Z.add_0_l in Hlen. by rewrite Hlen.
  - change (bool_decide (x7b = x7b)) with true in E. cbn iota in E.
    destruct (walk_members _ _ _ _ _ _) as [d3|] eqn:Ew; [|done]. cbn [mbind result_bind] in E.
    destruct (Token d3) as [[t4 d4]|] eqn:Ec; [|done]. injection E as <-.
    destruct (Hm _ _ _ _ _ _ _ _ _ Ew (or_introl eq_refl) eq_refl Ec bound_ok) as (ms & Hr & _ & Hcl & Hlen & Hnd & _ & E4).
    exists (JObject ms). rewrite <- Hst. split_and!; [by destruct d1|done| | |exact E4].
    + eapply reads_object; [exact Er|by apply Hr].
    + simpl. rewrite Ex, Hcl. rewrite Z.add_0_l in Hlen. rewrite Hlen. by rewrite bool_decide_true.
Qed.

Lemma elements_step fuel : value_read fuel -> elements_read fuel -> elements_read (S fuel).
Proof.
  intros Hv He depth count d d' s stk t d'' E Hs Hst Ht Hx. cbn [walk_elements] in E. destruct (More d) eqn:Em.
  - destruct (exceeds bound maxElements (count + 1)) eqn:Ex; [done|].
    destruct (walk_value bound fuel (depth + 1) d) as [d1|] eqn:E1; [|done]. cbn [mbind result_bind] in E.
    assert (value_due d) as Hd by (unfold value_due; by destruct Hs as [-> | ->]).
    destruct (Hv _ _ _ E1 Hd) as (l & st & v & Hp & Ha & Hr & Hc & Ed1).
    assert (State d1 = ArrayComma /\ ((State d = ArrayStart /\ l = Rest d) \/ (State d = ArrayComma /\ skip (Rest d) = x2c :: l))) as [Hs1 Hl].
    { rewrite Ed1. cbn [State]. destruct (punctuate_inv _ _ Hp) as [[Ed _] | (r & [(Es & Er & [= -> ->]) | [(Es & _) | (Es & _)]])].
      - rewrite <- Ed in *. cbn [State Rest] in *. destruct Hs as [-> | ->]; [auto|done].
      - auto.
      - destruct Hs; congruence.
      - destruct Hs; congruence. }
    assert (Stack d1 = s :: stk) as Hst1 by (rewrite Ed1; exact Hst).
    destruct (He _ _ _ _ _ _ _ _ E (or_intror Hs1) Hst1 Ht Ex) as (vs & _ & Hmore & Hcl & Hlen & Ed'').
    exists (v :: vs). split_and!.
    + intros Es. destruct Hl as [[_ ->] | [? _]]; [|congruence]. eapply elements_some; [exact Hr|by apply Hmore].
    + intros Es. destruct Hl as [[? _] | [_ Hl]]; [congruence|]. eapply elements_next; [exact Hl|exact Hr|by apply Hmore].
    + simpl. by rewrite Hc, Hcl.
    + cbn [length]. by replace (count + Z.of_nat (S (length vs))) with (count + 1 + len vs) by lia.
    + done.
  - injection E as <-. destruct (next_close_inv d t d'' x5d s stk Ht Em Hst) as [Er Ed]; [auto|]. exists []. split_and!.
    + intros _. by constructor.
    + intros _. by constructor.
    + done.
    + cbn [length]. by rewrite Z.add_0_r.
    + done.
Qed.

Lemma members_step fuel : value_read fuel -> members_read fuel -> members_read (S fuel).
Proof.
  intros Hv He depth count seen d d' s stk t d'' E Hs Hst Ht Hx. cbn [walk_members] in E. destruct (More d) eqn:Em.
  - destruct (exceeds bound maxElements (count + 1)) eqn:Ex; [done|].
    unfold Token in E. destruct (punctuate d) as [d0|] eqn:Ep; [|done]. cbn [mbind result_bind] in E.
    destruct (next_token d0) as [[tk d1]|] eqn:Ek; [|done]. cbn [mbind result_bind fst snd] in E.
    assert (Stack d0 = Stack d /\ ((State d = ObjectStart /\ d0 = d) \/ (State d = ObjectComma /\ State d0 = ObjectKey /\ skip (Rest d) = x2c :: Rest d0)
      \/ (State d = ObjectComma /\ d0 = d))) as [Hst0 Hl].
    { destruct (punctuate_inv _ _ Ep) as [[-> _] | (r & [(Es & _) | [(Es & Er & ->) | (Es & _)]])]; [| | |].
      - split; [done|]. destruct Hs; auto.
      - destruct Hs; congruence.
      - split; [done|]. right. left. done.
      - destruct Hs; congruence. }
    assert (exists k, tk = Scalar (JString k) /\ scan_string (skip (Rest d0)) = Some (k, Rest d1) /\ d1 = mkDecoder (Rest d1) ObjectColon (Stack d0))
      as (k & -> & Hk & Ed1).
    { apply More_inv in Em as (b & r & Er & Hb). destruct Hl as [[Es ->] | [(Es & Es0 & _) | [Es ->]]].
      - apply (next_key_inv d _ _ Ek); [auto|]. intros b' r' E' _. rewrite Er in E'. injection E' as <- _. set_solver.
      - apply (next_key_inv d0 _ _ Ek); [auto|]. intros b' r' _ ?. congruence.
      - exfalso. unfold next_token in Ek. rewrite Er in Ek. unfold open_delim, close_delim in Ek. rewrite Es in Ek. cbn [value_allowed] in Ek.
        rewrite andb_false_r in Ek. repeat case_bool_decide; try done. set_solver. }
    cbn [key_of mbind result_bind] in E. case_bool_decide as Hseen; [done|].
    destruct (walk_value bound fuel (depth + 1) d1) as [d2|] eqn:E1; [|done]. cbn [mbind result_bind] in E.
    assert (value_due d1) as Hd by (rewrite Ed1; done).
    destruct (Hv _ _ _ E1 Hd) as (l & st & v & Hp & Ha & Hr & Hc & Ed2).
    assert (skip (Rest d1) = x3a :: l /\ st = ObjectValue) as [Hcolon ->].
    { destruct (punctuate_inv _ _ Hp) as [[Ed _] | (r & [(Es & _) | [(Es & _) | (_ & Er & [= -> ->])]])]; [|rewrite Ed1 in Es; done..|done].
      apply (f_equal State) in Ed. cbn [State] in Ed. rewrite Ed, Ed1 in Ha. done. }
    assert (Stack d2 = s :: stk) as Hst2 by (rewrite Ed2, Ed1; cbn [Stack]; by rewrite Hst0).
    assert (State d2 = ObjectComma) as Hs2 by (by rewrite Ed2).
    destruct (He _ _ _ _ _ _ _ _ _ E (or_intror Hs2) Hst2 Ht Ex) as (ms & _ & Hmore & Hcl & Hlen & Hnd & Hdis & Ed'').
    assert (reads_member (Rest d0) (k, v) (Rest d2)) as Hmem by (by econstructor).
    exists ((k, v) :: ms). split_and!.
    + intros Es. destruct Hl as [[_ ->] | [(? & _) | [? _]]]; [|congruence..]. eapply members_some; [exact Hmem|by apply Hmore].
    + intros Es. destruct Hl as [[? _] | [(_ & _ & Hl) | [_ ->]]]; [congruence| |].
      * eapply members_next; [exact Hl|exact Hmem|by apply Hmore].
      * exfalso. pose proof (scan_string_inv _ _ Hk) as (r & Er & _). unfold next_token in Ek. rewrite Er in Ek. rewrite Es in Ek. done.
    + simpl. by rewrite Hc, Hcl.
    + cbn [length]. by replace (count + Z.of_nat (S (length ms))) with (count + 1 + len ms) by lia.
    + cbn [map fst]. constructor; [|done]. intros Hin. apply (Hdis k Hin). left.
    + cbn [map fst]. intros x Hx'. apply elem_of_cons in Hx' as [-> |Hx']; [done|]. intros Hin. apply (Hdis x Hx'). by right.
    + done.
  - injection E as <-. destruct (next_close_inv d t d'' x7d s stk Ht Em Hst) as [Er Ed]; [auto|]. exists []. split_and!.
    + intros _. by constructor.
    + intros _. by constructor.
    + done.
    + cbn [length]. by rewrite Z.add_0_r.
    + constructor.
    + set_solver.
    + done.
Qed.

Lemma walk_sound fuel : value_read fuel /\ elements_read fuel /\ members_read fuel.
Proof.
  induction fuel as [|fuel (IHv & IHe & IHm)]; [split_and!; repeat intro; done|].
  split_and!; [by apply value_step|by apply elements_step|by apply members_step].
Qed.
End sound.

(** *** The walks end *)

Lemma Token_length d t d' : Token d = Ok (t, d') -> (length (Rest d') < length (Rest d))%nat.
Proof.
  unfold Token. destruct (punctuate d) as [d1|] eqn:Ep; [|done]. cbn [mbind result_bind]. intros Et.
  assert (length (Rest d1) <= length (Rest d))%nat as Hl.
  { destruct (punctuate_inv _ _ Ep) as [[-> _] | (r & Hr)]; [done|].
    destruct Hr as [(_ & E & ->) | [(_ & E & ->) | (_ & E & ->)]]; apply skip_shorter in E; simpl; lia. }
  revert Et. unfold next_token. destruct (skip (Rest d1)) as [|b r] eqn:Es; [done|].
  pose proof (length_skip (Rest d1)) as Hs. rewrite Es in Hs. cbn [length] in Hs.
  unfold open_delim, close_delim. intros Et.
  assert (forall A (o : option A) f, (p ← obtain o ErrSyntax; Ok (f p)) = Ok (t, d') -> exists p, o = Some p /\ f p = (t, d')) as Hob.
  { intros A [p|] f E; [|done]. cbn [obtain mbind result_bind] in E. injection E as E. eauto. }
  assert (r = Rest d' \/ (exists p, scan_string (b :: r) = Some p /\ p.2 = Rest d') \/ (exists p, scan_scalar (b :: r) = Some p /\ p.2 = Rest d'))
    as [<- | [([k q] & Ek & <-) | ([v q] & Ev & <-)]].
  { destruct (bool_decide (b = x5b)); [destruct (value_allowed _); [|done]; left; by injection Et as _ <-|].
    destruct (bool_decide (b = x5d)); [destruct (State d1), (Stack d1); try done; left; by injection Et as _ <-|].
    destruct (bool_decide (b = x7b)); [destruct (value_allowed _); [|done]; left; by injection Et as _ <-|].
    destruct (bool_decide (b = x7d)); [destruct (State d1), (Stack d1); try done; left; by injection Et as _ <-|].
    destruct (_ && _); [apply Hob in Et as (p & Ep' & [= _ <-]); eauto|].
    destruct (value_allowed _); [|done]. apply Hob in Et as (p & Ep' & [= _ <-]); eauto. }
  - lia.
  - apply scan_string_inv in Ek as (? & _ & Hk). simpl in *. lia.
  - apply scan_scalar_length in Ev. simpl in *. lia.
Qed.

Lemma Token_fuel d : Token d <> Err ErrFuel.
Proof.
  unfold Token. destruct (punctuate d) as [d1|e] eqn:Ep.
  - cbn [mbind result_bind]. unfold next_token, open_delim, close_delim. destruct (skip (Rest d1)) as [|b r]; [done|].
    repeat case_match; try done; destruct (scan_string _) || destruct (scan_scalar _); done.
  - unfold punctuate in Ep. destruct (skip (Rest d)) as [|b r]; [done|]. destruct b, (State d); try discriminate Ep; injection Ep as <-; discriminate.
Qed.

(** The result of a walk over [l] with [fuel]: less is left, or the fuel was short. *)
Definition ends (strict : nat) (fuel : nat) (l : list byte) (r : result strict_error Decoder) : Prop :=
  match r with
  | Ok d => (length (Rest d) + strict <= length l)%nat
  | Err e => e = ErrFuel -> (fuel <= 2 * length l + 1 - strict)%nat
  end.

Lemma walk_ends bound fuel :
  (forall depth d, ends 1 fuel (Rest d) (walk_value bound fuel depth d)) /\
  (forall depth count d, ends 0 fuel (Rest d) (walk_elements bound fuel depth count d)) /\
  (forall depth count seen d, ends 0 fuel (Rest d) (walk_members bound fuel depth count seen d)).
Proof.
  induction fuel as [|fuel (IHv & IHe & IHm)]; [split_and!; intros; cbn [walk_value walk_elements walk_members ends]; lia|]. split_and!.
  - intros depth d. cbn [walk_value]. destruct (exceeds _ _ _); [by intros ?|]. destruct (Token d) as [[t d1]|e] eqn:Et.
    2: { cbn [mbind result_bind ends]. intros ->. by apply Token_fuel in Et. }
    apply Token_length in Et. cbn [mbind result_bind]. destruct t as [b|v]; [|cbn [ends]; lia].
    set (loop := if bool_decide (b = x7b) then _ else _).
    assert (ends 0 fuel (Rest d1) loop) as Hloop.
    { unfold loop. destruct (bool_decide (b = x7b)); [apply IHm|]. destruct (bool_decide (b = x5b)); [apply IHe|]. cbn [ends]. lia. }
    destruct loop as [d2|e]; cbn [mbind result_bind ends] in *; [|intros He; specialize (Hloop He); lia].
    destruct (Token d2) as [[t d3]|e] eqn:Ec; cbn [mbind result_bind ends snd].
    + apply Token_length in Ec. lia.
    + intros ->. by apply Token_fuel in Ec.
  - intros depth count d. cbn [walk_elements]. destruct (More d); [|cbn [ends]; lia]. destruct (exceeds _ _ _); [by intros ?|].
    specialize (IHv (depth + 1) d). destruct (walk_value bound fuel (depth + 1) d) as [d1|e]; cbn [mbind result_bind ends] in *;
      [|intros He; specialize (IHv He); lia].
    specialize (IHe depth (count + 1) d1). destruct (walk_elements _ _ _ _ _) as [d2|e]; cbn [ends] in *; [lia|intros He; specialize (IHe He); lia].
  - intros depth count seen d. cbn [walk_members]. destruct (More d); [|cbn [ends]; lia]. destruct (exceeds _ _ _); [by intros ?|].
    destruct (Token d) as [[t d0]|e] eqn:Et.
    2: { cbn [mbind result_bind ends]. intros ->. by apply Token_fuel in Et. }
    apply Token_length in Et. cbn [mbind result_bind fst snd]. destruct (key_of t) as [k|e] eqn:Ek.
    2: { cbn [mbind result_bind ends]. intros ->. unfold key_of in Ek. by destruct t as [|[]]. }
    cbn [mbind result_bind]. destruct (bool_decide _); [by intros ?|].
    specialize (IHv (depth + 1) d0). destruct (walk_value bound fuel (depth + 1) d0) as [d1|e]; cbn [mbind result_bind ends] in *;
      [|intros He; specialize (IHv He); lia].
    specialize (IHm depth (count + 1) (k :: seen) d1). destruct (walk_members _ _ _ _ _ _) as [d2|e]; cbn [ends] in *; [lia|intros He; specialize (IHm He); lia].
Qed.

Lemma walk_enough bound data : walk_value bound (walk_fuel data) 0 (NewDecoder data) <> Err ErrFuel.
Proof.
  intros E. destruct (walk_ends bound (walk_fuel data)) as [Hv _]. specialize (Hv 0 (NewDecoder data)). rewrite E in Hv.
  specialize (Hv eq_refl). unfold walk_fuel in Hv. simpl in Hv. lia.
Qed.

Lemma walk_exact bound data d' : exceeds bound maxElements 0 = false ->
  walk_value bound (walk_fuel data) 0 (NewDecoder data) = Ok d' <->
  exists v, reads data v (Rest d') /\ clear bound 0 v = true /\ d' = mkDecoder (Rest d') TopValue [].
Proof.
  intros Hb. split.
  - intros E. destruct (walk_sound bound Hb (walk_fuel data)) as [Hv _].
    destruct (Hv 0 _ _ E I) as (l & st & v & Hp & Ha & Hr & Hc & Ed).
    destruct (punctuate_inv _ _ Hp) as [[[= -> ->] _] | (r & [(Es & _) | [(Es & _) | (Es & _)]])]; [|done..]. eauto.
  - intros (v & Hr & Hc & ->). destruct (walk_complete bound) as [Hw _].
    apply (Hw data v _ Hr (walk_fuel data) 0 (NewDecoder data) TopValue []); [|done|done|].
    + apply reads_head in Hr as (b & t & E & Hb'). eapply punctuate_id; [exact E|set_solver].
    + unfold walk_fuel. lia.
Qed.

(** A text has one reading. *)
Lemma reads_unique :
  (forall l v r, reads l v r -> forall v' r', reads l v' r' -> v = v' /\ r = r') /\
  (forall l vs r, reads_elements l vs r -> forall vs' r', reads_elements l vs' r' -> vs = vs' /\ r = r') /\
  (forall l vs r, more_elements l vs r -> forall vs' r', more_elements l vs' r' -> vs = vs' /\ r = r') /\
  (forall l ms r, reads_members l ms r -> forall ms' r', reads_members l ms' r' -> ms = ms' /\ r = r') /\
  (forall l ms r, more_members l ms r -> forall ms' r', more_members l ms' r' -> ms = ms' /\ r = r') /\
  (forall l m r, reads_member l m r -> forall m' r', reads_member l m' r' -> m = m' /\ r = r').
Proof.
  assert (forall l b t v r, skip l = b :: t -> bool_decide (b ∈ structural) = true -> scan_scalar (skip l) = Some (v, r) -> False) as Hno.
  { intros l b t v r E Hb Hs. rewrite E in Hs. apply scan_scalar_head in Hs. by apply bool_decide_eq_true in Hb. }
  assert (forall l b t v r, skip l = b :: t -> reads l v r -> bool_decide (b ∈ [x5d; x7d; x2c; x3a]) = true -> False) as Hrd.
  { intros l b t v r E (b' & t' & E' & Hb)%reads_head Hd. rewrite E in E'. injection E' as <- _. by apply bool_decide_eq_true in Hd. }
  assert (forall l b t m r, skip l = b :: t -> reads_member l m r -> b = x22) as Hmem.
  { intros l b t m r E Hm. destruct Hm as [l k l1 l2 v r Ek _ _]. apply scan_string_inv in Ek as (q & Eq & _). congruence. }
  apply reads_induction.
  - intros l v r E v' r' Hr. destruct Hr as [l v' r' E'|l l1 vs r' E' _|l l1 ms r' E' _]; [by simplify_eq|exfalso; by eapply Hno..].
  - intros l l1 vs r E _ IH v' r' Hr. destruct Hr as [l v' r' E'|l l1' vs' r' E' Hr'|l l1' ms r' E' _]; [exfalso; by eapply Hno| |congruence].
    rewrite E in E'. injection E' as <-. destruct (IH _ _ Hr') as [-> ->]. done.
  - intros l l1 vs r E _ IH v' r' Hr. destruct Hr as [l v' r' E'|l l1' vs' r' E' Hr'|l l1' ms r' E' Hr']; [exfalso; by eapply Hno|congruence|].
    rewrite E in E'. injection E' as <-. destruct (IH _ _ Hr') as [-> ->]. done.
  - intros l r E vs' r' Hr. destruct Hr as [l r' E'|l v l1 vs' r' Hv _]; [rewrite E in E'; by simplify_eq|exfalso; by eapply Hrd].
  - intros l v l1 vs r Hv IHv _ IHvs vs' r' Hr. destruct Hr as [l r' E'|l v' l1' vs' r' Hv' Hvs']; [exfalso; by eapply Hrd|].
    destruct (IHv _ _ Hv') as [-> ->]. destruct (IHvs _ _ Hvs') as [-> ->]. done.
  - intros l r E vs' r' Hr. destruct Hr as [l r' E'|l l1 v l2 vs' r' E' _ _]; [rewrite E in E'; by simplify_eq|congruence].
  - intros l l1 v l2 vs r E Hv IHv _ IHvs vs' r' Hr. destruct Hr as [l r' E'|l l1' v' l2' vs' r' E' Hv' Hvs']; [congruence|].
    rewrite E in E'. injection E' as <-. destruct (IHv _ _ Hv') as [-> ->]. destruct (IHvs _ _ Hvs') as [-> ->]. done.
  - intros l r E ms' r' Hr. destruct Hr as [l r' E'|l m l1 ms' r' Hm _]; [rewrite E in E'; by simplify_eq|]. by pose proof (Hmem _ _ _ _ _ E Hm).
  - intros l m l1 ms r Hm IHm _ IHms ms' r' Hr. destruct Hr as [l r' E'|l m' l1' ms' r' Hm' Hms']; [by pose proof (Hmem _ _ _ _ _ E' Hm)|].
    destruct (IHm _ _ Hm') as [-> ->]. destruct (IHms _ _ Hms') as [-> ->]. done.
  - intros l r E ms' r' Hr. destruct Hr as [l r' E'|l l1 m l2 ms' r' E' _ _]; [rewrite E in E'; by simplify_eq|congruence].
  - intros l l1 m l2 ms r E Hm IHm _ IHms ms' r' Hr. destruct Hr as [l r' E'|l l1' m' l2' ms' r' E' Hm' Hms']; [congruence|].
    rewrite E in E'. injection E' as <-. destruct (IHm _ _ Hm') as [-> ->]. destruct (IHms _ _ Hms') as [-> ->]. done.
  - intros l k l1 l2 v r Ek Ec _ IH m' r' Hr. destruct Hr as [l k' l1' l2' v' r' Ek' Ec' Hv'].
    rewrite Ek in Ek'. injection Ek' as <- <-. rewrite Ec in Ec'. injection Ec' as <-. destruct (IH _ _ Hv') as [-> ->]. done.
Qed.

Lemma trailing_space l : Token (mkDecoder l TopValue []) = Err ErrEOF <-> forallb space l = true.
Proof.
  rewrite <- skip_nil. split.
  - unfold Token. destruct (punctuate _) as [d|e] eqn:Ep.
    + destruct (punctuate_inv _ _ Ep) as [[-> _] | (r & [(Es & _) | [(Es & _) | (Es & _)]])]; [|done..]. cbn [mbind result_bind].
      unfold next_token, open_delim, close_delim. cbn [Rest State Stack value_allowed]. destruct (skip l) as [|b r]; [done|].
      repeat case_match; try done; destruct (scan_string _) || destruct (scan_scalar _); done.
    + cbn [mbind result_bind]. intros [= ->]. unfold punctuate in Ep. cbn [Rest State] in Ep. destruct (skip l) as [|b r]; [done|].
      by destruct b.
  - intros E. unfold Token, punctuate, next_token. cbn [Rest State]. rewrite E. cbn [mbind result_bind Rest]. by rewrite E.
Qed.

(** C15: The check is exact.  [RejectDuplicateKeys] accepts a text exactly if it is one
    JSON value and white space and no object in it, at any depth, has a key
    twice, escapes being read first; the second implementation accepts exactly
    the texts that begin with such a value, no deeper and no wider than the
    bounds.  The value is the only one the text can be read as, and both end on
    every input. *)
Theorem strict_json_exact (data : list byte) (depth : Z) :
  (RejectDuplicateKeys data = Ok tt <->
     exists v r, reads data v r /\ clear None 0 v = true /\ forallb space r = true) /\
  (RejectDuplicateKeysWithin data depth = Ok tt <->
     exists v r, reads data v r /\ clear (Some (mkBounds depth MaxElements)) 0 v = true) /\
  (forall v r v' r', reads data v r -> reads data v' r' -> v = v') /\
  RejectDuplicateKeys data <> Err ErrFuel /\ RejectDuplicateKeysWithin data depth <> Err ErrFuel.
Proof.
  split_and!.
  - unfold RejectDuplicateKeys, walk. split.
    + destruct (walk_value _ _ _ _) as [d|] eqn:E; [|done]. cbn [mbind result_bind]. intros Ht.
      apply (walk_exact None data d) in E as (v & Hr & Hc & Ed); [|done]. exists v, (Rest d). split_and!; [done|done|].
      apply trailing_space. rewrite <- Ed. destruct (Token d) as [|[]]; done.
    + intros (v & r & Hr & Hc & Hs).
      rewrite (proj2 (walk_exact None data (mkDecoder r TopValue []) eq_refl)) by (by exists v). cbn [mbind result_bind].
      by rewrite (proj2 (trailing_space r) Hs).
  - unfold RejectDuplicateKeysWithin. split.
    + destruct (walk_value _ _ _ _) as [d|] eqn:E; [|done]. intros _. apply walk_exact in E as (v & Hr & Hc & _); [|done]. eauto.
    + intros (v & r & Hr & Hc). by rewrite (proj2 (walk_exact (Some (mkBounds depth MaxElements)) data (mkDecoder r TopValue []) eq_refl)) by (by exists v).
  - intros v r v' r' Hr Hr'. by destruct (proj1 reads_unique _ _ _ Hr _ _ Hr').
  - unfold RejectDuplicateKeys, walk. pose proof (walk_enough None data) as Hw. destruct (walk_value _ _ _ _) as [d|e]; cbn [mbind result_bind].
    + by destruct (Token d) as [|[]].
    + congruence.
  - unfold RejectDuplicateKeysWithin. pose proof (walk_enough (Some (mkBounds depth MaxElements)) data) as Hw.
    destruct (walk_value _ _ _ _) as [d|e]; cbn [mbind result_bind]; congruence.
Qed.

(** ** Names that differ in case *)

(** How [json.Decode] finds the field of a struct for a key, ASCII letters being
    equal to their capitals: the field of that name, or the first that differs in
    case alone.  An unknown key is an error. *)
Definition fold_case (name : list byte) : list byte :=
  map (fun b => if between 97 122 b then byte_of_Z (Z_of_byte b - 32) else b) name.

Definition field_of (names : list (list byte)) (key : list byte) : option nat :=
  match list_find (fun n => n = key) names with
  | Some (i, _) => Some i
  | None => fst <$> list_find (fun n => fold_case n = fold_case key) names
  end.

(** The fields after the members were stored in turn, a later one over an earlier. *)
Fixpoint decode_fields (names : list (list byte)) (fields : list json) (members : list (list byte * json)) : option (list json) :=
  match members with
  | [] => Some fields
  | m :: members => i ← field_of names m.1; decode_fields names (<[i := m.2]> fields) members
  end.

(** Keys that differ in case are not refused, and name one field: of the two values
    the decoder keeps the last, while a reader that compares names exactly sees
    another value, or a key it does not know. *)
Lemma case_variants_pass :
  let names := [String.list_byte_of_string "document"; String.list_byte_of_string "signature"] in
  let members := [(String.list_byte_of_string "signature", JNumber [x31]); (String.list_byte_of_string "Signature", JNumber [x32])] in
  let data := json_text "{'signature':1,'Signature':2}" in
  RejectDuplicateKeys data = Ok tt /\ reads data (JObject members) [] /\
  decode_fields names [JNull; JNull] members = Some [JNull; JNumber [x32]] /\
  decode_fields names [JNull; JNull] (take 1 members) = Some [JNull; JNumber [x31]].
Proof.
  cbv zeta. split_and!; [vm_compute; reflexivity| |vm_compute; reflexivity..].
  eapply reads_object; [vm_compute; reflexivity|]. eapply members_some.
  - eapply reads_pair; [vm_compute; reflexivity..|]. apply reads_scalar. vm_compute. reflexivity.
  - eapply members_next; [vm_compute; reflexivity|..].
    + eapply reads_pair; [vm_compute; reflexivity..|]. apply reads_scalar. vm_compute. reflexivity.
    + by apply members_end.
Qed.
