(* ===== verification/Endpoint.v ===== *)
(** Where operators listen ([live/topology/topology.go], [canonicalEndpoint] and
    below): the one form of a socket address under which the topology compares
    endpoints, with the parts of Go's [net] and [net/netip] it is built on. *)

From stdpp Require Import base list list_numbers strings sets.
From Stdlib Require Import ZArith Lia Strings.Byte.
From S2P Require Import Prelude Bytes Codec.

(** ** Strings *)

Definition colon : byte := x3a.
Definition dot : byte := x2e.
Definition percent : byte := x25.

Definition index_byte (c : byte) (s : list byte) : option nat := fst <$> list_find (eq c) s.
Definition last_index (c : byte) (s : list byte) : option nat := (fun i => length s - 1 - i)%nat <$> index_byte c (reverse s).
Definition has (c : byte) (s : list byte) : bool := bool_decide (c ∈ s).

(** [strings.Split(s, c)] for a separator of one byte. *)
Fixpoint split_on (c : byte) (s : list byte) : list (list byte) :=
  match s with
  | [] => [[]]
  | b :: s =>
      if bool_decide (b = c) then [] :: split_on c s
      else match split_on c s with
      | [] => [[b]]
      | part :: parts => (b :: part) :: parts
      end
  end.

Inductive endpoint_error :=
| ErrHostPort
| ErrNoHostOrPort
| ErrPort
| ErrPortZero
| ErrZone
| ErrUnusable
| ErrBracketed
| ErrEmptyHost
| ErrHostLength
| ErrLabelLength
| ErrHyphen
| ErrLabelCharacter
| ErrNumericTop
| ErrNoEndpoint.

(** ** [net] and [net/netip] *)

(** [net.SplitHostPort]. *)
Definition SplitHostPort (hostport : list byte) : option (list byte * list byte) :=
  match last_index colon hostport with
  | None => None
  | Some i =>
      let finish (host : list byte) (j k : nat) :=
        if has x5b (drop j hostport) then None
        else if has x5d (drop k hostport) then None
        else Some (host, drop (S i) hostport) in
      if bool_decide (head hostport = Some x5b) then
        match index_byte x5d hostport with
        | None => None
        | Some end_ =>
            if negb (Nat.eqb (S end_) i) then None
            else finish (slice hostport 1 end_) 1%nat (S end_)
        end
      else
        let host := take i hostport in
        if has colon host then None else finish host 0%nat 0%nat
  end.

(** [net.JoinHostPort]. *)
Definition JoinHostPort (host port : list byte) : list byte :=
  if has colon host then x5b :: host ++ x5d :: colon :: port else host ++ colon :: port.

(** [netip.Addr]: an IPv4 address, or an IPv6 address with its zone. *)
Inductive Addr :=
| V4 (bytes : list byte)
| V6 (bytes zone : list byte).

#[export] Instance Addr_eq_dec : EqDecision Addr.
Proof. solve_decision. Defined.

(** [parseIPv4Fields]: [fields] are the octets finished, [val] and [digLen] the
    one being read, [prev] the byte before; [first] tells the first byte. *)
Fixpoint ipv4_fields (s : list byte) (first : bool) (prev : byte) (fields : list byte) (val digLen : Z) : option (list byte) :=
  match s with
  | [] => if Nat.ltb (length fields) 3 then None else Some (fields ++ [byte_of_Z val])
  | c :: s =>
      if is_digit c then
        if (digLen =? 1) && (val =? 0) then None
        else
          let val := val * 10 + (Z_of_byte c - 48) in
          if 255 <? val then None else ipv4_fields s false c fields val (digLen + 1)
      else if bool_decide (c = dot) then
        if first || bool_decide (s = []) || bool_decide (prev = dot) then None
        else if Nat.eqb (length fields) 3 then None
        else ipv4_fields s false c (fields ++ [byte_of_Z val]) 0 0
      else None
  end.

Definition parseIPv4Fields (s : list byte) : option (list byte) := ipv4_fields s true x00 [] 0 0.

(** One group of hexadecimal digits: its value, how many there are and what
    follows; [None] when there are more than four. *)
Fixpoint hex_group (s : list byte) (off acc : Z) : option (Z * Z * list byte) :=
  match s with
  | [] => Some (acc, off, [])
  | c :: s' =>
      match hex_value c with
      | None => Some (acc, off, s)
      | Some v =>
          let acc := acc * 16 + v in
          if 3 <? off then None
          else if 65535 <? acc then None
          else hex_group s' (off + 1) acc
      end
  end.

(** The loop of [parseIPv6]: [ip] are the bytes written, [ellipsis] the position of
    [::]; every turn writes two bytes, so eight turns are enough. *)
Fixpoint ipv6_groups (fuel : nat) (s ip : list byte) (ellipsis : option nat) : option (list byte * option nat * list byte) :=
  match fuel with
  | O => Some (ip, ellipsis, s)
  | S fuel =>
      match hex_group s 0 0 with
      | None => None
      | Some (acc, off, rest) =>
          if off =? 0 then None
          else if bool_decide (head rest = Some dot) then
            if bool_decide (ellipsis = None) && negb (Nat.eqb (length ip) 12) then None
            else if Nat.ltb 16 (length ip + 4) then None
            else match parseIPv4Fields s with
            | None => None
            | Some quad => Some (ip ++ quad, ellipsis, [])
            end
          else
            let ip := ip ++ be 2 acc in
            match rest with
            | [] => Some (ip, ellipsis, [])
            | c :: rest =>
                if negb (bool_decide (c = colon)) then None
                else match rest with
                | [] => None
                | c2 :: rest2 =>
                    if bool_decide (c2 = colon) then
                      match ellipsis with
                      | Some _ => None
                      | None =>
                          match rest2 with
                          | [] => Some (ip, Some (length ip), [])
                          | _ => ipv6_groups fuel rest2 ip (Some (length ip))
                          end
                      end
                    else ipv6_groups fuel rest ip ellipsis
                end
            end
      end
  end.

Definition split_zone (input : list byte) : option (list byte * list byte) :=
  match index_byte percent input with
  | None => Some (input, [])
  | Some i => let zone := drop (S i) input in if bool_decide (zone = []) then None else Some (take i input, zone)
  end.

Definition parseIPv6 (input : list byte) : option Addr :=
  match split_zone input with
  | None => None
  | Some (s, zone) =>
      let leading := bool_decide (take 2 s = [colon; colon]) in
      let s := if leading then drop 2 s else s in
      let ellipsis := if leading then Some 0%nat else None in
      if leading && bool_decide (s = []) then Some (V6 (replicate 16 x00) zone)
      else match ipv6_groups 8 s [] ellipsis with
      | None => None
      | Some (ip, ellipsis, rest) =>
          if negb (bool_decide (rest = [])) then None
          else if Nat.ltb (length ip) 16 then
            match ellipsis with
            | None => None
            | Some e => Some (V6 (take e ip ++ replicate (16 - length ip) x00 ++ drop e ip) zone)
            end
          else match ellipsis with Some _ => None | None => Some (V6 ip zone) end
      end
  end.

(** [netip.ParseAddr] looks for the first byte that tells the kind. *)
Definition ParseAddr (s : list byte) : option Addr :=
  match list_find (fun b => b = dot \/ b = colon \/ b = percent) s with
  | Some (_, b) =>
      if bool_decide (b = dot) then V4 <$> parseIPv4Fields s
      else if bool_decide (b = colon) then parseIPv6 s
      else None
  | None => None
  end.

Definition mapped_prefix : list byte := replicate 10 x00 ++ [xff; xff].

Definition Unmap (a : Addr) : Addr :=
  match a with
  | V6 bytes _ => if bool_decide (take 12 bytes = mapped_prefix) then V4 (drop 12 bytes) else a
  | V4 _ => a
  end.

Definition Zone (a : Addr) : list byte := match a with V4 _ => [] | V6 _ zone => zone end.

Definition IsUnspecified (a : Addr) : bool :=
  bool_decide (a = V4 (replicate 4 x00)) || bool_decide (a = V6 (replicate 16 x00) []).

Definition IsMulticast (a : Addr) : bool :=
  match a with
  | V4 (b :: _) => Z.land (Z_of_byte b) 240 =? 224
  | V6 (b :: _) _ => Z_of_byte b =? 255
  | _ => false
  end.

Definition IsLoopback (a : Addr) : bool :=
  match a with
  | V4 (b :: _) => Z_of_byte b =? 127
  | V4 [] => false
  | V6 bytes _ => bool_decide (bytes = replicate 15 x00 ++ [x01])
  end.

(** [Addr.String] of an address without a zone: dotted decimal, or the groups in
    hexadecimal with the first longest run of two or more zeros left out. *)
Fixpoint join (sep : byte) (parts : list (list byte)) : list byte :=
  match parts with
  | [] => []
  | [part] => part
  | part :: parts => part ++ sep :: join sep parts
  end.

Fixpoint format_hex (fuel : nat) (v : Z) : list byte :=
  match fuel with
  | O => []
  | S fuel => if v <? 16 then [hex_digit v] else format_hex fuel (v / 16) ++ [hex_digit (v mod 16)]
  end.

(** The eight 16-bit groups. *)
Fixpoint groups (bytes : list byte) : list Z :=
  match bytes with
  | a :: b :: bytes => be_val [a; b] :: groups bytes
  | _ => []
  end.

(** The zeros at the head of a list. *)
Fixpoint zero_run (gs : list Z) : nat :=
  match gs with
  | g :: gs => if g =? 0 then S (zero_run gs) else 0
  | [] => 0
  end.

(** The run that is left out, as the loop over start positions finds it. *)
Definition longest_run (gs : list Z) : option (nat * nat) :=
  fold_left (fun best i =>
    let l := zero_run (drop i gs) in
    if Nat.leb 2 l && Nat.ltb (match best with Some (_, len) => len | None => 0 end) l then Some (i, l) else best)
    (seq 0 8) None.

Definition string6 (bytes : list byte) : list byte :=
  let gs := groups bytes in
  let texts := map (format_hex 4) gs in
  match longest_run gs with
  | None => join colon texts
  | Some (start, l) => join colon (take start texts) ++ colon :: colon :: join colon (drop (start + l) texts)
  end.

Definition AddrString (a : Addr) : list byte :=
  match a with
  | V4 bytes => join dot (map (fun b => FormatUint (Z_of_byte b)) bytes)
  | V6 bytes _ => string6 bytes
  end.

(** ** The canonical form of an endpoint *)

Definition loopbackHost : list byte := String.list_byte_of_string "loopback".
Definition localhost : list byte := String.list_byte_of_string "localhost".

Definition usableAsPeerAddress (a : Addr) : bool :=
  if IsUnspecified a || IsMulticast a then false else negb (bool_decide (a = V4 (replicate 4 xff))).

Definition allDigits (label : list byte) : bool :=
  if bool_decide (label = []) then false else forallb is_digit label.

Definition is_upper (b : byte) : bool := (65 <=? Z_of_byte b) && (Z_of_byte b <=? 90).
Definition is_lower (b : byte) : bool := (97 <=? Z_of_byte b) && (Z_of_byte b <=? 122).

(** One character of a label, folded; [None] for one that no name has. *)
Definition fold_char (b : byte) : option byte :=
  if is_lower b || is_digit b || bool_decide (b = x2d) then Some b
  else if is_upper b then Some (byte_of_Z (Z_of_byte b + 32))
  else None.

Definition lower_label (label : list byte) : result endpoint_error (list byte) :=
  collect (fun b => match fold_char b with Some c => Ok c | None => Err ErrLabelCharacter end) label.

(** The loop over the labels; [lowered] is what has been folded so far. *)
Fixpoint lower_labels (lowered : list byte) (labels : list (list byte)) : result endpoint_error (list byte) :=
  match labels with
  | [] => Ok lowered
  | label :: labels =>
      if Nat.eqb (length label) 0 || Nat.ltb 63 (length label) then Err ErrLabelLength
      else if bool_decide (head label = Some x2d) || bool_decide (last label = Some x2d) then Err ErrHyphen
      else
        let lowered := if Nat.ltb 0 (length lowered) then lowered ++ [dot] else lowered in
        folded ← lower_label label; lower_labels (lowered ++ folded) labels
  end.

(** [strings.TrimSuffix(host, ".")]. *)
Definition trim_dot (host : list byte) : list byte :=
  if bool_decide (last host = Some dot) then take (length host - 1) host else host.

Definition canonicalHostname (host : list byte) : result endpoint_error (list byte) :=
  let name := trim_dot host in
  if bool_decide (name = []) || bool_decide (last name = Some dot) then Err ErrEmptyHost
  else if Nat.ltb 253 (length name) then Err ErrHostLength
  else
    lowered ← lower_labels [] (split_on dot name);
    if allDigits (default [] (last (split_on dot lowered))) then Err ErrNumericTop
    else if bool_decide (lowered = localhost) then Ok loopbackHost
    else Ok lowered.

Definition canonicalHost (host : list byte) (bracketed : bool) : result endpoint_error (list byte) :=
  match ParseAddr host with
  | Some address =>
      let address := Unmap address in
      if negb (bool_decide (Zone address = [])) then Err ErrZone
      else if negb (usableAsPeerAddress address) then Err ErrUnusable
      else if IsLoopback address then Ok loopbackHost
      else Ok (AddrString address)
  | None => if bracketed then Err ErrBracketed else canonicalHostname host
  end.

Definition canonicalEndpoint (endpoint : list byte) : result endpoint_error (list byte) :=
  match SplitHostPort endpoint with
  | None => Err ErrHostPort
  | Some (host, port) =>
      if bool_decide (host = []) || bool_decide (port = []) then Err ErrNoHostOrPort
      else match ParseUint 16 port with
      | None => Err ErrPort
      | Some number =>
          if number =? 0 then Err ErrPortZero
          else
            canonical ← canonicalHost host (bool_decide (head endpoint = Some x5b));
            Ok (canonical ++ colon :: FormatUint number)
      end
  end.

(** What [url.Parse] makes of an address. *)
Record URL := mkURL {
  Scheme : list byte;
  Hostname : list byte;
  Port : list byte;
  HasUser : bool;
  Path : list byte;
  RawQuery : list byte;
  Fragment : list byte;
}.

Definition canonicalURLEndpoint (endpoint : option URL) : result endpoint_error (list byte) :=
  match endpoint with
  | None => Err ErrNoEndpoint
  | Some url =>
      if bool_decide (Hostname url = []) || bool_decide (Port url = []) then Err ErrNoHostOrPort
      else canonicalEndpoint (JoinHostPort (Hostname url) (Port url))
  end.

(** Neither user, path, query nor fragment. *)
Definition bare (url : URL) : bool :=
  negb (bool_decide (Hostname url = []) || bool_decide (Port url = []) || HasUser url ||
        (negb (bool_decide (Path url = [])) && negb (bool_decide (Path url = [x2f]))) ||
        negb (bool_decide (RawQuery url = [])) || negb (bool_decide (Fragment url = []))).

Definition http : list byte := String.list_byte_of_string "http".
Definition https : list byte := String.list_byte_of_string "https".

(** [net.ParseIP] of a host without a zone: the address in either form. *)
Definition ParseIP (host : list byte) : option Addr :=
  match ParseAddr host with
  | Some a => if bool_decide (Zone a = []) then Some (Unmap a) else None
  | None => None
  end.

Definition validCeremonyURL (url : URL) : bool :=
  if negb (bare url) then false
  else if bool_decide (Scheme url = https) then true
  else if negb (bool_decide (Scheme url = http)) then false
  else if bool_decide (Hostname url = localhost) then true
  else match ParseIP (Hostname url) with Some ip => IsLoopback ip | None => false end.

Definition text (s : string) : list byte := String.list_byte_of_string s.

Example endpoint_examples :
  map canonicalEndpoint [text "[0:0:0:0:0:0:0:1]:80"; text "127.9.9.9:080"; text "LocalHost.:80"; text "loopback:80"] =
    replicate 4 (Ok (text "loopback:80")) /\
  canonicalEndpoint (text "[2001:DB8::0:1]:4300") = Ok (text "2001:db8::1:4300") /\
  canonicalEndpoint (text "[::ffff:10.0.0.1]:1") = Ok (text "10.0.0.1:1") /\
  canonicalEndpoint (text "[1:0:0:2:0:0:0:3]:1") = Ok (text "1:0:0:2::3:1") /\
  canonicalEndpoint (text "Operator-A.example:65535") = Ok (text "operator-a.example:65535") /\
  canonicalEndpoint (text "0177.0.0.1:1") = Err ErrNumericTop /\ canonicalEndpoint (text "2130706433:1") = Err ErrNumericTop /\
  canonicalEndpoint (text "[fe80::1%eth0]:1") = Err ErrZone /\ canonicalEndpoint (text "0.0.0.0:1") = Err ErrUnusable /\
  canonicalEndpoint (text "255.255.255.255:1") = Err ErrUnusable /\ canonicalEndpoint (text "[foo:bar]:1") = Err ErrBracketed /\
  canonicalEndpoint (text "a:0") = Err ErrPortZero /\ canonicalEndpoint (text "a:65536") = Err ErrPort /\
  canonicalEndpoint (text "a::1") = Err ErrHostPort /\ canonicalEndpoint (text "-a:1") = Err ErrHyphen.
Proof. vm_compute. repeat split. Qed.

(** ** Splitting and joining *)

Lemma split_on_nonempty c s : split_on c s <> [].
Proof. destruct s as [|b s]; [done|]. simpl. case_bool_decide; [done|]. by destruct (split_on c s). Qed.

Lemma split_on_app c a b : split_on c (a ++ c :: b) = split_on c a ++ split_on c b.
Proof.
  induction a as [|x a IH]; simpl; [by rewrite bool_decide_true|]. case_bool_decide; [by rewrite IH|].
  rewrite IH. pose proof (split_on_nonempty c a). by destruct (split_on c a).
Qed.

Lemma split_on_free (c : byte) s : c ∉ s -> split_on c s = [s].
Proof.
  induction s as [|b s IH]; intros Hc; [done|]. apply not_elem_of_cons in Hc as [Hb Hs]. simpl.
  rewrite bool_decide_false by congruence. by rewrite IH.
Qed.

Lemma join_cons c p q parts : join c (p :: q :: parts) = p ++ c :: join c (q :: parts).
Proof. done. Qed.

Lemma split_on_join c parts : parts <> [] -> Forall (fun p => c ∉ p) parts -> split_on c (join c parts) = parts.
Proof.
  induction parts as [|p parts IH]; intros Hne Hp; [done|]. apply Forall_cons in Hp as [Hp Hps].
  destruct parts as [|q parts]; [by apply split_on_free|].
  rewrite join_cons, split_on_app, split_on_free, IH by done. done.
Qed.

Lemma join_split_on c s : join c (split_on c s) = s.
Proof.
  induction s as [|b s IH]; [done|]. simpl. pose proof (split_on_nonempty c s) as Hn.
  destruct (split_on c s) as [|p ps]; [done|]. case_bool_decide as Hb; [subst b; cbn [join app]; f_equal; exact IH|].
  rewrite <- IH. by destruct ps.
Qed.

Lemma last_separator c (a a' b b' : list byte) : c ∉ b -> c ∉ b' -> a ++ c :: b = a' ++ c :: b' -> a = a' /\ b = b'.
Proof.
  intros Hb Hb' E. apply (f_equal (split_on c)) in E. rewrite !split_on_app, (split_on_free c b), (split_on_free c b') in E by done.
  apply app_inj_2 in E as [Ea Eb]; [|done]. split; [|by injection Eb].
  by rewrite <- (join_split_on c a), Ea, join_split_on.
Qed.

(** ** Texts of addresses are distinct *)

Lemma digits_free c s : is_digit c = false -> forallb is_digit s = true -> c ∉ s.
Proof.
  intros Hc Hs Hin. apply list_elem_of_In in Hin. pose proof (proj1 (forallb_forall is_digit s) Hs c Hin). congruence.
Qed.

Lemma byte_fits b : fits 64 (Z_of_byte b).
Proof. pose proof (Z_of_byte_range b). unfold fits. lia. Qed.

Lemma octets_free c bytes : is_digit c = false -> Forall (fun p => c ∉ p) (map (fun b => FormatUint (Z_of_byte b)) bytes).
Proof.
  intros Hc. apply Forall_map, Forall_forall. intros b _. apply digits_free; [done|].
  apply FormatUint_spec, byte_fits.
Qed.

Lemma split_quad bytes : bytes <> [] ->
  split_on dot (AddrString (V4 bytes)) = map (fun b => FormatUint (Z_of_byte b)) bytes.
Proof. intros Hne. apply split_on_join; [by destruct bytes|by apply octets_free]. Qed.

Lemma quad_inj bytes bytes' : bytes <> [] -> bytes' <> [] -> AddrString (V4 bytes) = AddrString (V4 bytes') -> bytes = bytes'.
Proof.
  intros Hb Hb' E. apply (f_equal (split_on dot)) in E. rewrite !split_quad in E by done. revert E.
  assert (Inj (=) (=) (fun b => FormatUint (Z_of_byte b))) as Hinj.
  { intros a b E. apply (inj Z_of_byte), FormatUint_inj; [apply byte_fits..|done]. }
  apply (list_fmap_eq_inj _ Hinj).
Qed.

Lemma quad_numeric bytes : bytes <> [] -> allDigits (default [] (last (split_on dot (AddrString (V4 bytes))))) = true.
Proof.
  intros Hb. rewrite split_quad by done. destruct (last _) as [p|] eqn:E.
  - apply last_Some_elem_of, list_elem_of_fmap in E as (b & -> & _). simpl. unfold allDigits.
    destruct (FormatUint_head _ (byte_fits b)) as (d & t & Hd & _).
    rewrite bool_decide_false by (by rewrite Hd). apply FormatUint_spec, byte_fits.
  - apply last_None in E. by destruct bytes.
Qed.

Lemma join_free c sep parts : c <> sep -> Forall (fun p => c ∉ p) parts -> c ∉ join sep parts.
Proof.
  intros Hc. induction 1 as [|p ps Hp Hps IH]; [apply not_elem_of_nil|]. destruct ps as [|q ps]; [done|].
  rewrite join_cons, not_elem_of_app, not_elem_of_cons. done.
Qed.

(** *** IPv6 *)

Definition hex_text_value (l : list byte) : Z := fold_left (fun acc b => acc * 16 + default 0 (hex_value b)) l 0.

Lemma hex_text_value_snoc l b : hex_text_value (l ++ [b]) = hex_text_value l * 16 + default 0 (hex_value b).
Proof. unfold hex_text_value. by rewrite fold_left_app. Qed.

Lemma sixteenth_range v p : 0 <= v < 16 * p -> 0 <= v / 16 < p.
Proof. intros Hv. split; [apply Z.div_pos; lia|apply Z.div_lt_upper_bound; lia]. Qed.

Lemma hex_digit_not_colon v : 0 <= v < 16 -> hex_digit v <> colon.
Proof. intros Hv E. apply hex_value_digit in Hv. rewrite E in Hv. discriminate Hv. Qed.

Lemma format_hex_spec fuel v : 0 <= v < 16 ^ Z.of_nat fuel ->
  hex_text_value (format_hex fuel v) = v /\ colon ∉ format_hex fuel v.
Proof.
  revert v. induction fuel as [|fuel IH]; intros v Hv.
  { change (16 ^ Z.of_nat 0) with 1 in Hv. split; [unfold hex_text_value; simpl; lia|apply not_elem_of_nil]. }
  rewrite Nat2Z.inj_succ, Z.pow_succ_r in Hv by lia. cbn [format_hex]. destruct (v <? 16) eqn:E; reflect_bools.
  - unfold hex_text_value. simpl. rewrite hex_value_digit by lia. split; [simpl; lia|].
    apply not_elem_of_cons. split; [|apply not_elem_of_nil]. intros Hc. by apply (hex_digit_not_colon v); [lia|].
  - destruct (IH (v / 16)) as [IHv IHc]; [by apply sixteenth_range|].
    assert (0 <= v mod 16 < 16) as Hm by (apply Z.mod_pos_bound; lia).
    rewrite hex_text_value_snoc, IHv, hex_value_digit by done. split; [simpl; Z.to_euclidean_division_equations; lia|].
    rewrite not_elem_of_app, not_elem_of_cons. split_and!; [done| |apply not_elem_of_nil].
    intros Hc. by apply (hex_digit_not_colon (v mod 16)).
Qed.

Definition group (g : Z) : Prop := 0 <= g < 65536.

Lemma format_hex_inj g g' : group g -> group g' -> format_hex 4 g = format_hex 4 g' -> g = g'.
Proof.
  intros Hg Hg' E. destruct (format_hex_spec 4 g Hg) as [Hv _], (format_hex_spec 4 g' Hg') as [Hv' _].
  by rewrite <- Hv, E, Hv'.
Qed.

Lemma format_hex_nonempty g : format_hex 4 g <> [].
Proof.
  change (format_hex 4 g) with (if g <? 16 then [hex_digit g] else format_hex 3 (g / 16) ++ [hex_digit (g mod 16)]).
  destruct (g <? 16); [done|]. by destruct (format_hex 3 (g / 16)).
Qed.

Lemma pair_list_ind (P : list byte -> Prop) : P [] -> (forall a, P [a]) -> (forall a b l, P l -> P (a :: b :: l)) -> forall l, P l.
Proof.
  intros H0 H1 H2 l. assert (P l /\ forall a, P (a :: l)) as [Hl _]; [|done].
  induction l as [|b l [IH IH']]; [auto|]. split; [apply IH'|intros a; by apply H2].
Qed.

Lemma groups_range bytes : Forall group (groups bytes).
Proof.
  induction bytes as [|a|a b l IH] using pair_list_ind; [done..|]. cbn [groups]. constructor; [|done].
  pose proof (be_val_range [a; b]) as Hr. exact Hr.
Qed.

Lemma length_groups bytes : length (groups bytes) = Nat.div2 (length bytes).
Proof. induction bytes as [|a|a b l IH] using pair_list_ind; [done..|]. simpl. by rewrite IH. Qed.

Lemma groups_inj n bytes bytes' : length bytes = (2 * n)%nat -> length bytes' = (2 * n)%nat ->
  groups bytes = groups bytes' -> bytes = bytes'.
Proof.
  revert bytes bytes'. induction n as [|n IH]; intros bytes bytes' Hl Hl' E.
  { destruct bytes, bytes'; done || (simpl in *; lia). }
  destruct bytes as [|a [|b l]], bytes' as [|a' [|b' l']]; simpl in Hl, Hl'; try lia. cbn [groups] in E.
  injection E as Eg El. rewrite (IH l l') by (done || lia).
  assert (be_val [a; b] = be_val [a'; b']) as Ev by done. apply (f_equal (be 2)) in Ev.
  change 2%nat with (length [a; b]) in Ev at 1. rewrite be_be_val in Ev.
  change 2%nat with (length [a'; b']) in Ev. rewrite be_be_val in Ev. by injection Ev as -> ->.
Qed.

(** What the parts of a text between colons say about the groups. *)
Fixpoint until_empty (parts : list (list byte)) : list (list byte) :=
  match parts with
  | [] | [] :: _ => []
  | part :: parts => part :: until_empty parts
  end.

Definition recover (parts : list (list byte)) : list (list byte) :=
  let left := until_empty parts in
  let right := reverse (until_empty (reverse parts)) in
  if Nat.eqb (length left) (length parts) then left
  else left ++ replicate (8 - length left - length right) (format_hex 4 0) ++ right.

Lemma until_empty_app parts rest : Forall (fun p => p <> []) parts -> until_empty (parts ++ [] :: rest) = parts.
Proof. induction 1 as [|[|b p] parts Hp _ IH]; [done..|]. cbn [app until_empty]. by rewrite IH. Qed.

Lemma until_empty_all parts : Forall (fun p => p <> []) parts -> until_empty parts = parts.
Proof. induction 1 as [|[|b p] parts Hp _ IH]; [done..|]. cbn [until_empty]. by rewrite IH. Qed.

(** The parts on one side of the double colon. *)
Definition side (parts : list (list byte)) : list (list byte) := match parts with [] => [[]] | _ => parts end.

Lemma split_side parts : Forall (fun p => colon ∉ p) parts -> split_on colon (join colon parts) = side parts.
Proof. intros Hp. destruct parts as [|p parts]; [done|]. by rewrite split_on_join. Qed.

Lemma until_empty_side left rest : Forall (fun p => p <> []) left -> until_empty (side left ++ [] :: rest) = left.
Proof. intros Hl. destruct left as [|p left]; [done|]. by apply until_empty_app. Qed.

Lemma recover_compressed left right l : Forall (fun p => p <> []) left -> Forall (fun p => p <> []) right ->
  (length left + l + length right = 8)%nat ->
  recover (side left ++ [] :: side right) = left ++ replicate l (format_hex 4 0) ++ right.
Proof.
  intros Hl Hr Hlen. unfold recover. rewrite until_empty_side by done.
  assert (until_empty (reverse (side left ++ [] :: side right)) = reverse right) as ->.
  { rewrite reverse_app, reverse_cons, <- app_assoc. cbn [app].
    assert (reverse (side right) = side (reverse right)) as ->.
    { destruct right as [|p right]; [done|]. cbn [side]. destruct (reverse (p :: right)) eqn:E; [|done].
      apply (f_equal length) in E. rewrite length_reverse in E. done. }
    apply until_empty_side. by apply Forall_reverse. }
  rewrite reverse_involutive. destruct (Nat.eqb_spec (length left) (length (side left ++ [] :: side right))) as [E|_].
  { rewrite length_app in E. cbn [length] in E. destruct left; cbn [side length] in E; lia. }
  do 2 f_equal. by replace (8 - length left - length right)%nat with l by lia.
Qed.

Lemma zero_run_zeros gs : take (zero_run gs) gs = replicate (zero_run gs) 0 /\ (zero_run gs <= length gs)%nat.
Proof.
  induction gs as [|g gs [IH IHl]]; [done|]. simpl. destruct (g =? 0) eqn:E; [|simpl; split; [done|lia]].
  reflect_bools. subst g. simpl. rewrite IH. split; [done|lia].
Qed.

Lemma longest_run_spec gs start l : length gs = 8%nat -> longest_run gs = Some (start, l) ->
  (start + l <= 8)%nat /\ gs = take start gs ++ replicate l 0 ++ drop (start + l) gs.
Proof.
  intros Hlen. unfold longest_run.
  enough (forall ix best, Forall (fun i => (i < 8)%nat) ix ->
    (forall s l, best = Some (s, l) -> (s < 8)%nat /\ l = zero_run (drop s gs)) ->
    fold_left (fun best i => let l := zero_run (drop i gs) in
      if Nat.leb 2 l && Nat.ltb (match best with Some (_, len) => len | None => 0 end) l then Some (i, l) else best)
      ix best = Some (start, l) -> (start < 8)%nat /\ l = zero_run (drop start gs)) as Hg.
  { intros E. apply Hg in E as [Hs ->]; [|by apply Forall_seq; lia|done].
    destruct (zero_run_zeros (drop start gs)) as [Hz Hle]. rewrite length_drop in Hle. split; [lia|].
    rewrite <- Hz, <- drop_drop, take_drop. by rewrite take_drop. }
  induction ix as [|i ix IH]; intros best His Hb; simpl; [intros ->; by apply Hb|].
  apply Forall_cons in His as [Hi His]. apply IH; [done|]. intros s k.
  destruct (_ && _); [|by apply Hb]. by intros [= <- <-].
Qed.

Lemma texts_free gs : Forall group gs -> Forall (fun p => colon ∉ p) (map (format_hex 4) gs).
Proof. intros Hg. apply Forall_map. eapply Forall_impl; [exact Hg|]. intros g Hr. by apply (format_hex_spec 4 g). Qed.

Lemma texts_nonempty gs : Forall (fun p => p <> []) (map (format_hex 4) gs).
Proof. apply Forall_map, Forall_forall. intros g _. apply format_hex_nonempty. Qed.

Lemma recover_string6 bytes : length bytes = 16%nat ->
  recover (split_on colon (string6 bytes)) = map (format_hex 4) (groups bytes) /\ colon ∈ string6 bytes.
Proof.
  intros Hlen. assert (length (groups bytes) = 8%nat) as Hg by (by rewrite length_groups, Hlen).
  pose proof (groups_range bytes) as Hr. unfold string6. destruct (longest_run (groups bytes)) as [[start l]|] eqn:E.
  - destruct (longest_run_spec _ _ _ Hg E) as [Hle Hsplit].
    rewrite firstn_map, skipn_map. split; [|set_solver].
    rewrite split_on_app. change (colon :: ?x) with ([] ++ colon :: x). rewrite split_on_app, !split_side
      by (apply texts_free; by apply Forall_take || by apply Forall_drop). cbn [split_on app].
    rewrite (recover_compressed _ _ l); [|apply texts_nonempty..|rewrite !length_map, length_take, length_drop; lia].
    rewrite Hsplit at 3. by rewrite !map_app, (fmap_replicate (format_hex 4)).
  - split.
    + rewrite split_on_join; [|by destruct (groups bytes)|by apply texts_free]. unfold recover.
      rewrite until_empty_all by apply texts_nonempty. by rewrite Nat.eqb_refl.
    + destruct (groups bytes) as [|g [|g' gs]]; try done. cbn [map]. rewrite join_cons. set_solver.
Qed.

Lemma string6_inj bytes bytes' : length bytes = 16%nat -> length bytes' = 16%nat -> string6 bytes = string6 bytes' -> bytes = bytes'.
Proof.
  intros Hl Hl' E. apply (groups_inj 8); [done..|].
  destruct (recover_string6 bytes Hl) as [Hr _], (recover_string6 bytes' Hl') as [Hr' _].
  rewrite E, Hr' in Hr. clear -Hr. pose proof (groups_range bytes) as Hg. pose proof (groups_range bytes') as Hg'.
  revert Hg Hg' Hr. generalize (groups bytes) (groups bytes'). intros gs gs' Hg. revert gs'.
  induction Hg as [|g gs Hg _ IH]; intros gs' Hg' E; destruct Hg' as [|g' gs' Hg' Hgs']; try discriminate E; [done|].
  pose proof (f_equal head E) as Eg. pose proof (f_equal tail E) as Egs. cbn [map head tail] in Eg, Egs. apply (inj Some) in Eg. by rewrite (format_hex_inj g' g Hg' Hg Eg), (IH gs' Hgs' Egs).
Qed.

(** ** What an accepted host stands for *)

(** An address that parsing produces has four or sixteen bytes. *)
Definition sized (a : Addr) : Prop :=
  match a with V4 bytes => length bytes = 4%nat | V6 bytes _ => length bytes = 16%nat end.

Lemma ipv4_fields_length s first prev fields val digLen bytes : (length fields <= 3)%nat ->
  ipv4_fields s first prev fields val digLen = Some bytes -> length bytes = 4%nat.
Proof.
  revert first prev fields val digLen. induction s as [|c s IH]; intros first prev fields val digLen Hf; cbn [ipv4_fields].
  - destruct (Nat.ltb_spec (length fields) 3); [done|]. intros [= <-]. rewrite length_app. simpl. lia.
  - destruct (is_digit c).
    + destruct (_ && _); [done|]. destruct (255 <? _); [done|]. by apply IH.
    + case_bool_decide; [|done]. destruct (first || _ || _); [done|]. destruct (Nat.eqb_spec (length fields) 3); [done|].
      apply IH. rewrite length_app. simpl. lia.
Qed.

Lemma parseIPv4Fields_length s bytes : parseIPv4Fields s = Some bytes -> length bytes = 4%nat.
Proof. apply ipv4_fields_length. simpl. lia. Qed.

Lemma ipv6_groups_length fuel s ip e ip' e' rest : (length ip + 2 * fuel = 16)%nat ->
  (forall x, e = Some x -> (x <= length ip)%nat) ->
  ipv6_groups fuel s ip e = Some (ip', e', rest) -> (length ip' <= 16)%nat /\ forall x, e' = Some x -> (x <= length ip')%nat.
Proof.
  revert s ip e. induction fuel as [|fuel IH]; intros s ip e Hl He; cbn [ipv6_groups].
  { intros [= <- <- <-]. split; [lia|done]. }
  destruct (hex_group s 0 0) as [[[acc off] r]|]; [|done]. destruct (off =? 0); [done|].
  case_bool_decide.
  - destruct (_ && _); [done|]. destruct (Nat.ltb_spec 16 (length ip + 4)); [done|].
    destruct (parseIPv4Fields s) as [quad|] eqn:Eq; [|done]. intros [= <- <- <-]. apply parseIPv4Fields_length in Eq.
    rewrite length_app. split; [lia|]. intros x Hx. apply He in Hx. lia.
  - assert (length (ip ++ be 2 acc) = length ip + 2)%nat as Hl2 by (rewrite length_app, length_be; done).
    assert (forall x, e = Some x -> (x <= length (ip ++ be 2 acc))%nat) as He2 by (intros x Hx; apply He in Hx; lia).
    revert Hl2 He2. generalize (ip ++ be 2 acc). intros ip2 Hl2 He2.
    destruct r as [|c r]; [intros [= <- <- <-]; split; [lia|done]|]. case_bool_decide; [|done]. simpl.
    destruct r as [|c2 r2]; [done|]. case_bool_decide.
    + destruct e; [done|]. assert (forall x, Some (length ip2) = Some x -> (x <= length ip2)%nat)
        as He3 by (intros x [= <-]; lia).
      destruct r2; [intros [= <- <- <-]; split; [lia|done]|]. apply IH; [lia|done].
    + apply IH; [lia|done].
Qed.

Lemma ParseAddr_sized s a : ParseAddr s = Some a -> sized a.
Proof.
  unfold ParseAddr. destruct (list_find _ s) as [[i b]|]; [|done]. case_bool_decide.
  { destruct (parseIPv4Fields s) as [bytes|] eqn:E; [|done]. intros [= <-]. by eapply parseIPv4Fields_length. }
  case_bool_decide; [|done]. unfold parseIPv6.
  destruct (split_zone s) as [[t zone]|]; [|done]. cbv zeta.
  destruct (_ && _); [intros [= <-]; done|].
  destruct (ipv6_groups _ _ _ _) as [[[ip e] rest]|] eqn:E; [|done]. destruct (negb (bool_decide (rest = []))); [done|].
  eapply ipv6_groups_length in E as [Hl He]; [|done|by intros x Hx; destruct (bool_decide (take 2 t = _)); simplify_eq].
  destruct (Nat.ltb_spec (length ip) 16).
  - destruct e as [x|]; [|done]. intros [= <-]. specialize (He x eq_refl). simpl.
    rewrite !length_app, length_take, length_replicate, length_drop. lia.
  - destruct e; [done|]. intros [= <-]. simpl. lia.
Qed.

Lemma Unmap_sized a : sized a -> sized (Unmap a).
Proof.
  destruct a as [bytes|bytes zone]; simpl; [done|]. intros Hl. case_bool_decide; simpl; [|done]. rewrite length_drop. lia.
Qed.

(** Where a host leads: this machine, another address, or what a name resolves
    to. *)
Inductive target :=
| Loopback
| Address (a : Addr)
| Name (n : list byte).

Definition fold_case (s : list byte) : list byte := map (fun b => default b (fold_char b)) s.

Definition meaning (host : list byte) : target :=
  match ParseAddr host with
  | Some a => if IsLoopback (Unmap a) then Loopback else Address (Unmap a)
  | None => if bool_decide (fold_case (trim_dot host) = localhost) then Loopback else Name (fold_case (trim_dot host))
  end.

Definition target_text (t : target) : list byte :=
  match t with Loopback => loopbackHost | Address a => AddrString a | Name n => n end.

(** A name has no colon and its last label is not a number. *)
Definition name_ok (n : list byte) : Prop :=
  colon ∉ n /\ allDigits (default [] (last (split_on dot n))) = false.

Definition target_ok (t : target) : Prop :=
  match t with
  | Loopback => True
  | Address a => sized a /\ Zone a = []
  | Name n => name_ok n
  end.

Lemma lower_label_ok label folded : lower_label label = Ok folded ->
  folded = fold_case label /\ Forall (fun b => is_Some (fold_char b)) label.
Proof.
  intros E. apply collect_ok in E. induction E as [|b c label folded Eb _ [-> IH]]; [done|].
  destruct (fold_char b) as [d|] eqn:Ed; [|done]. injection Eb as ->. split; [unfold fold_case; simpl; by rewrite Ed|].
  constructor; [by rewrite Ed|done].
Qed.

Lemma fold_case_length s : length (fold_case s) = length s.
Proof. apply length_map. Qed.

Lemma lower_labels_ok lowered labels out : labels <> [] -> lower_labels lowered labels = Ok out ->
  out = (if Nat.ltb 0 (length lowered) then lowered ++ [dot] else lowered) ++ fold_case (join dot labels) /\
  Forall (Forall (fun b => is_Some (fold_char b))) labels.
Proof.
  revert lowered. induction labels as [|label labels IH]; intros lowered Hne; [done|]. cbn [lower_labels].
  destruct (Nat.eqb_spec (length label) 0) as [|Hl]; [done|]. destruct (Nat.ltb _ _); [done|]. cbn [orb].
  destruct (_ || _); [done|]. cbv zeta. set (start := if Nat.ltb 0 (length lowered) then _ else _).
  destruct (lower_label label) as [folded|] eqn:E; [|done]. apply lower_label_ok in E as [-> Hf]. cbn [mbind result_bind].
  destruct labels as [|next labels].
  - cbn [lower_labels join]. intros [= <-]. by repeat constructor.
  - intros E. apply IH in E as [-> Hr]; [|done]. split; [|by constructor].
    rewrite (proj2 (Nat.ltb_lt _ _)) by (rewrite length_app, fold_case_length; lia).
    rewrite join_cons. unfold fold_case. rewrite map_app. cbn [map]. rewrite <- !app_assoc. done.
Qed.

Lemma fold_char_not_colon b c : fold_char b = Some c -> c <> colon.
Proof. destruct b; vm_compute; intros [= <-]; discriminate. Qed.

Lemma fold_case_no_colon labels : Forall (Forall (fun b => is_Some (fold_char b))) labels ->
  colon ∉ fold_case (join dot labels).
Proof.
  intros Hl Hc. unfold fold_case in Hc. apply list_elem_of_fmap in Hc as (b & Eb & Hb).
  assert (b = dot \/ is_Some (fold_char b)) as [-> | [c Ec]]; [|done|rewrite Ec in Eb; by apply fold_char_not_colon in Ec].
  clear -Hl Hb. induction Hl as [|label labels Hlabel Hl IH]; [by apply elem_of_nil in Hb|].
  rewrite Forall_forall in Hlabel. destruct labels as [|next labels]; [right; by apply Hlabel|].
  rewrite join_cons in Hb. apply elem_of_app in Hb as [Hb|[->|Hb]%elem_of_cons]; [right; by apply Hlabel|by left|by apply IH].
Qed.

Lemma canonicalHostname_ok host k : canonicalHostname host = Ok k ->
  let n := fold_case (trim_dot host) in name_ok n /\ k = if bool_decide (n = localhost) then loopbackHost else n.
Proof.
  unfold canonicalHostname. destruct (_ || _); [done|]. destruct (Nat.ltb _ _); [done|].
  destruct (lower_labels [] _) as [lowered|] eqn:E; [|done]. cbn [mbind result_bind].
  apply lower_labels_ok in E as [E Hf]; [|apply split_on_nonempty]. cbn [length Nat.ltb Nat.leb app] in E.
  assert (colon ∉ lowered) as Hc by (rewrite E; by apply fold_case_no_colon).
  rewrite join_split_on in E. subst lowered. destruct (allDigits _) eqn:Hd; [done|]. intros Hk.
  split; [by split|]. case_bool_decide; by injection Hk.
Qed.

(** An accepted host is written by what it stands for. *)
Lemma canonicalHost_ok host bracketed k : canonicalHost host bracketed = Ok k ->
  target_ok (meaning host) /\ k = target_text (meaning host).
Proof.
  unfold canonicalHost, meaning. destruct (ParseAddr host) as [a|] eqn:Ea.
  - case_bool_decide as Hz; [|done]. cbn [negb]. destruct (negb (usableAsPeerAddress _)); [done|].
    destruct (IsLoopback (Unmap a)); intros [= <-]; [done|]. split; [|done]. split; [|done].
    by apply Unmap_sized, (ParseAddr_sized host).
  - destruct bracketed; [done|]. intros [Hn ->]%canonicalHostname_ok. case_bool_decide; done.
Qed.

Lemma loopbackHost_name_ok : name_ok loopbackHost.
Proof. split; [apply (bool_decide_unpack _); by vm_compute|by vm_compute]. Qed.

(** The kinds of target by the text alone. *)
Lemma address_text a : sized a -> if a is V6 _ _ then colon ∈ AddrString a else
  colon ∉ AddrString a /\ allDigits (default [] (last (split_on dot (AddrString a)))) = true.
Proof.
  destruct a as [bytes|bytes zone]; simpl; intros Hl; [|by apply recover_string6].
  assert (bytes <> []) as Hne by (by intros ->). split; [apply join_free; [done|by apply octets_free]|by apply quad_numeric].
Qed.

Lemma address_not_name a n : sized a -> name_ok n -> AddrString a <> n.
Proof.
  intros Hs [Hc Hd] E. pose proof (address_text a Hs) as Ha. rewrite E in Ha. destruct a; [|done]. destruct Ha as [_ Ha]. congruence.
Qed.

Lemma AddrString_inj a a' : sized a -> sized a' -> Zone a = [] -> Zone a' = [] -> AddrString a = AddrString a' -> a = a'.
Proof.
  intros Hs Hs' Hz Hz' E. pose proof (address_text a Hs) as Ha. pose proof (address_text a' Hs') as Ha'. rewrite E in Ha.
  destruct a as [b|b z], a' as [b' |b' z']; simpl in *.
  - f_equal. apply quad_inj; [by intros -> |by intros -> |done].
  - by destruct Ha.
  - by destruct Ha'.
  - subst. f_equal. by apply string6_inj.
Qed.

(** Different targets have different texts, but for a host called [loopback]. *)
Lemma target_text_inj t t' : target_ok t -> target_ok t' -> t <> Name loopbackHost -> t' <> Name loopbackHost ->
  target_text t = target_text t' -> t = t'.
Proof.
  destruct t as [|a|n], t' as [|a'|n']; simpl; intros Ht Ht' Hn Hn' E; try done; try congruence.
  - destruct (address_not_name a' loopbackHost); [naive_solver|apply loopbackHost_name_ok|done].
  - destruct (address_not_name a loopbackHost); [naive_solver|apply loopbackHost_name_ok|done].
  - f_equal. apply AddrString_inj; naive_solver.
  - by destruct (address_not_name a n'); [naive_solver..|].
  - by destruct (address_not_name a' n); [naive_solver..|].
Qed.

(** ** Endpoints *)

(** The socket address an endpoint names. *)
Definition socket (endpoint : list byte) : option (target * Z) :=
  match SplitHostPort endpoint with
  | None => None
  | Some (host, port) => number ← ParseUint 16 port; Some (meaning host, number)
  end.

Lemma canonicalEndpoint_ok e k : canonicalEndpoint e = Ok k -> exists t p,
  socket e = Some (t, p) /\ target_ok t /\ 0 < p < 65536 /\ k = target_text t ++ colon :: FormatUint p.
Proof.
  unfold canonicalEndpoint, socket. destruct (SplitHostPort e) as [[host port]|]; [|done]. destruct (_ || _); [done|].
  destruct (ParseUint 16 port) as [p|] eqn:Ep; [|done]. destruct (p =? 0) eqn:Ez; [done|].
  destruct (canonicalHost host _) as [c|] eqn:Ec; [|done]. intros [= <-]. apply canonicalHost_ok in Ec as [Ht ->].
  apply ParseUint_range in Ep. reflect_bools. exists (meaning host), p. split_and!; [done|done|lia|lia|done].
Qed.

(** C17: The key under which the topology compares endpoints is exact: two accepted
    endpoints have one key when and only when they name one socket address,
    whatever the spelling of address, case, trailing dot or port, with all of
    loopback taken as one; the only name that is not told apart is the host
    called [loopback]. *)
Theorem endpoint_key_exact e e' k k' : canonicalEndpoint e = Ok k -> canonicalEndpoint e' = Ok k' ->
  (forall p, socket e <> Some (Name loopbackHost, p)) -> (forall p, socket e' <> Some (Name loopbackHost, p)) ->
  k = k' <-> socket e = socket e'.
Proof.
  intros (t & p & Hs & Ht & Hp & ->)%canonicalEndpoint_ok (t' & p' & Hs' & Ht' & Hp' & ->)%canonicalEndpoint_ok Hn Hn'.
  rewrite Hs, Hs' in *. split; [|by intros [= -> ->]]. intros E.
  destruct (FormatUint_spec p) as [_ Hd]; [unfold fits; lia|]. destruct (FormatUint_spec p') as [_ Hd']; [unfold fits; lia|].
  apply last_separator in E as [Et Ep]; [|by apply digits_free..].
  assert (t = t') as -> by (apply target_text_inj; naive_solver).
  assert (p = p') as -> by (apply FormatUint_inj; [unfold fits; lia..|done]). done.
Qed.

Lemma endpoint_key_exact_witness :
  canonicalEndpoint (text "[2001:db8:0::1]:80") = canonicalEndpoint (text "[2001:DB8::0001]:080").
Proof.
  destruct (canonicalEndpoint (text "[2001:db8:0::1]:80")) as [k|] eqn:E; [|discriminate E].
  destruct (canonicalEndpoint (text "[2001:DB8::0001]:080")) as [k'|] eqn:E'; [|discriminate E'].
  f_equal. apply (endpoint_key_exact (text "[2001:db8:0::1]:80") (text "[2001:DB8::0001]:080") k k' E E');
    [intros p; vm_compute; discriminate..|by vm_compute].
Defined.

(** A machine whose name is [loopback] is taken for this one. *)
Lemma loopback_name_merged :
  canonicalEndpoint (text "loopback:4300") = canonicalEndpoint (text "127.0.0.1:4300") /\
  socket (text "loopback:4300") <> socket (text "127.0.0.1:4300").
Proof. split; [by vm_compute|vm_compute; discriminate]. Qed.
