(* ===== verification/Merkle.v ===== *)
(** The append-only Merkle tree of the site log
    ([sdk/nomad-local-reconstruction/site/transparency/tree.go]): RFC 6962
    hashing, tree heads, inclusion proofs and consistency proofs, with their
    verifiers.

    Tree sizes and indices are 64-bit integers in the verifiers, because they
    come out of proofs supplied by the other side; the prover's recursion is
    over the leaf list it holds. *)

From stdpp Require Import base list list_numbers sets.
From Stdlib Require Import ZArith Lia Strings.Byte.
From S2P Require Import Prelude Bytes Hash Sha256.

(** ** Definitions *)

Definition leafPrefix : byte := x00.
Definition nodePrefix : byte := x01.

(** [bits.Len64]: the number of bits needed to represent [x]. *)
Definition Len64 (x : Z) : Z := if x =? 0 then 0 else Z.log2 x + 1.

Definition largestPowerOfTwoBelow (n : Z) : Z :=
  if n <? 2 then 1 else u64 (Z.shiftl 1 (Len64 (u64 (n - 1)) - 1)).

Definition isPowerOfTwo (n : Z) : bool :=
  negb (n =? 0) && (Z.land n (u64 (n - 1)) =? 0).

(** Where a leaf list of length at least two is split. *)
Definition split {A} (leaves : list A) : nat :=
  Z.to_nat (largestPowerOfTwoBelow (len leaves)).

(** The loop of [descend]: from the tree head downwards, whether the entry is
    in the right half at each split.  [None] would be a loop that has not
    finished within [fuel] iterations. *)
Fixpoint descend_loop (fuel : nat) (index size : Z) : option (list bool) :=
  if size <=? 1 then Some []
  else match fuel with
  | O => None
  | S fuel =>
      let split := largestPowerOfTwoBelow size in
      if index <? split
      then cons false <$> descend_loop fuel index split
      else cons true <$> descend_loop fuel (u64 (index - split)) (u64 (size - split))
  end.

(** Sizes are 64-bit, and every iteration removes at least one bit of the
    size, so 64 iterations are enough ([descend_total]). *)
Definition descend (index size : Z) : option (list bool) := descend_loop 64 index size.

Fixpoint descendConsistency_loop (fuel : nat) (old size : Z) : option (list bool) :=
  if old =? size then Some []
  else match fuel with
  | O => None
  | S fuel =>
      let split := largestPowerOfTwoBelow size in
      if old <=? split
      then cons false <$> descendConsistency_loop fuel old split
      else cons true <$> descendConsistency_loop fuel (u64 (old - split)) (u64 (size - split))
  end.

Definition descendConsistency (old size : Z) : option (list bool) :=
  descendConsistency_loop 64 old size.

Record InclusionProof := mkInclusionProof {
  Index : Z;
  Size : Z;
  Path : list (list byte);
}.

Record ConsistencyProof := mkConsistencyProof {
  Old : Z;
  New : Z;
  CPath : list (list byte);
}.

(** The errors of this file's operations, one constructor per return. *)
Inductive tree_error :=
| ErrSizeBeyondTree          (* the tree has fewer entries than asked about *)
| ErrIndexNotInTree          (* entry index at or past the size *)
| ErrEmptyTreeProof          (* an inclusion proof against an empty tree *)
| ErrPathLength              (* the path has the wrong number of hashes *)
| ErrRootMismatch            (* the inclusion path does not reach the root *)
| ErrCannotProve             (* consistency asked for outside the tree *)
| ErrShrinks                 (* Old > New *)
| ErrEmptyLogPath            (* a path in a proof from the empty log *)
| ErrEmptyLogRoot            (* Old = 0 offered against a non-empty head *)
| ErrEqualSizePath           (* a path between equal sizes *)
| ErrTwoRootsOneSize         (* equal sizes, different roots *)
| ErrNotPrefix               (* the earlier head is not reproduced *)
| ErrNotExtension            (* the current head is not reproduced *)
| ErrOutOfFuel.              (* the descent did not finish *)

Section Tree.
Context `{HashFunction}.

Definition HashLeaf (entry : list byte) : list byte := sha256 ([leafPrefix] ++ entry).
Definition HashNode (left right : list byte) : list byte :=
  sha256 ([nodePrefix] ++ left ++ right).

(** The root of a leaf list.  The recursion halves the list; its depth is
    bounded by the list's length. *)
Fixpoint rootOf_fuel (fuel : nat) (leaves : list (list byte)) : list byte :=
  match leaves with
  | [] => sha256 []
  | [leaf] => leaf
  | _ => match fuel with
         | O => sha256 []
         | S fuel => HashNode (rootOf_fuel fuel (take (split leaves) leaves))
                              (rootOf_fuel fuel (drop (split leaves) leaves))
         end
  end.
Definition rootOf (leaves : list (list byte)) : list byte := rootOf_fuel (length leaves) leaves.

Fixpoint inclusionPath_fuel (fuel : nat) (leaves : list (list byte)) (index : Z)
  : list (list byte) :=
  match fuel with
  | O => []
  | S fuel =>
      if len leaves <=? 1 then []
      else
        let sp := largestPowerOfTwoBelow (len leaves) in
        if index <? sp
        then inclusionPath_fuel fuel (take (split leaves) leaves) index
               ++ [rootOf (drop (split leaves) leaves)]
        else inclusionPath_fuel fuel (drop (split leaves) leaves) (index - sp)
               ++ [rootOf (take (split leaves) leaves)]
  end.
Definition inclusionPath (leaves : list (list byte)) (index : Z) : list (list byte) :=
  inclusionPath_fuel (length leaves) leaves index.

Fixpoint consistencyPath_fuel (fuel : nat) (leaves : list (list byte)) (old : Z)
  (wholeSubtree : bool) : list (list byte) :=
  match fuel with
  | O => []
  | S fuel =>
      if old =? len leaves then (if wholeSubtree then [] else [rootOf leaves])
      else
        let sp := largestPowerOfTwoBelow (len leaves) in
        if old <=? sp
        then consistencyPath_fuel fuel (take (split leaves) leaves) old wholeSubtree
               ++ [rootOf (drop (split leaves) leaves)]
        else consistencyPath_fuel fuel (drop (split leaves) leaves) (old - sp) false
               ++ [rootOf (take (split leaves) leaves)]
  end.
Definition consistencyPath (leaves : list (list byte)) (old : Z) (wholeSubtree : bool) :=
  consistencyPath_fuel (length leaves) leaves old wholeSubtree.

(** The tree keeps every leaf hash. *)
Record Tree := mkTree { leaves : list (list byte) }.

Definition emptyTree : Tree := mkTree [].

Definition Append (tree : Tree) (entry : list byte) : Tree * Z :=
  let tree' := mkTree (leaves tree ++ [HashLeaf entry]) in
  (tree', len (leaves tree') - 1).

Definition TreeSize (tree : Tree) : Z := len (leaves tree).

Definition Root (tree : Tree) (size : Z) : result tree_error (list byte) :=
  if TreeSize tree <? size then Err ErrSizeBeyondTree
  else Ok (rootOf (take (Z.to_nat size) (leaves tree))).

Definition ProveInclusion (tree : Tree) (index size : Z) : result tree_error InclusionProof :=
  if TreeSize tree <? size then Err ErrSizeBeyondTree
  else if size <=? index then Err ErrIndexNotInTree
  else Ok (mkInclusionProof index size
             (inclusionPath (take (Z.to_nat size) (leaves tree)) index)).

(** One step of recomputing the root: the sibling goes on the left when the
    entry is in the right half. *)
Definition climb (computed : list byte) (step : bool * list byte) : list byte :=
  let '(side, sibling) := step in
  if side then HashNode sibling computed else HashNode computed sibling.

Definition VerifyInclusion (proof : InclusionProof) (entry root : list byte)
  : result tree_error unit :=
  if Size proof =? 0 then Err ErrEmptyTreeProof
  else if Size proof <=? Index proof then Err ErrIndexNotInTree
  else match descend (Index proof) (Size proof) with
  | None => Err ErrOutOfFuel
  | Some sides =>
      if negb (len (Path proof) =? len sides) then Err ErrPathLength
      else
        let computed := fold_left climb (zip (rev sides) (Path proof)) (HashLeaf entry) in
        if bool_decide (computed = root) then Ok tt else Err ErrRootMismatch
  end.

Definition ProveConsistency (tree : Tree) (old new : Z) : result tree_error ConsistencyProof :=
  if (new <? old) || (TreeSize tree <? new) then Err ErrCannotProve
  else if old =? 0 then Ok (mkConsistencyProof 0 new [])
  else Ok (mkConsistencyProof old new
             (consistencyPath (take (Z.to_nat new) (leaves tree)) old true)).

(** One step of recomputing both heads at once. *)
Definition climb2 (heads : list byte * list byte) (step : bool * list byte)
  : list byte * list byte :=
  let '(lhead, rhead) := heads in
  let '(side, sibling) := step in
  if side then (HashNode sibling lhead, HashNode sibling rhead)
  else (lhead, HashNode rhead sibling).

Definition VerifyConsistency (proof : ConsistencyProof) (oldRoot newRoot : list byte)
  : result tree_error unit :=
  if New proof <? Old proof then Err ErrShrinks
  else if Old proof =? 0 then
    if negb (len (CPath proof) =? 0) then Err ErrEmptyLogPath
    else if bool_decide (oldRoot = sha256 []) then Ok tt else Err ErrEmptyLogRoot
  else if Old proof =? New proof then
    if negb (len (CPath proof) =? 0) then Err ErrEqualSizePath
    else if bool_decide (oldRoot = newRoot) then Ok tt else Err ErrTwoRootsOneSize
  else match descendConsistency (Old proof) (New proof) with
  | None => Err ErrOutOfFuel
  | Some sides =>
      let seeded := negb (isPowerOfTwo (Old proof)) in
      let expected := if seeded then len sides + 1 else len sides in
      if negb (len (CPath proof) =? expected) then Err ErrPathLength
      else
        let '(seed, path) := if seeded then (hd [] (CPath proof), tail (CPath proof))
                             else (oldRoot, CPath proof) in
        let '(lhead, rhead) := fold_left climb2 (zip (rev sides) path) (seed, seed) in
        if negb (bool_decide (lhead = oldRoot)) then Err ErrNotPrefix
        else if negb (bool_decide (rhead = newRoot)) then Err ErrNotExtension
        else Ok tt
  end.

End Tree.

(** Conversion unfolds the wrappers before the loops they call. *)
#[global] Strategy 100 [descend_loop descendConsistency_loop].

(** ** The split point *)

Lemma lp2_spec n : 2 <= n < 2 ^ 64 ->
  exists k, 0 <= k /\ largestPowerOfTwoBelow n = 2 ^ k /\ 2 ^ k < n <= 2 * 2 ^ k.
Proof.
  intros Hn. exists (Z.log2 (n - 1)).
  pose proof (Z.log2_nonneg (n - 1)) as Hk.
  pose proof (Z.log2_spec (n - 1) ltac:(lia)) as [Hlo Hhi].
  rewrite Z.pow_succ_r in Hhi by done.
  split; [done|]. split; [|lia].
  unfold largestPowerOfTwoBelow.
  destruct (n <? 2) eqn:E; reflect_bools; [lia|].
  rewrite (wrapu_small 64 (n - 1)) by (unfold fits; lia).
  unfold Len64. destruct (n - 1 =? 0) eqn:E'; reflect_bools; [lia|].
  replace (Z.log2 (n - 1) + 1 - 1) with (Z.log2 (n - 1)) by lia.
  rewrite Z.shiftl_mul_pow2, Z.mul_1_l by lia.
  apply wrapu_small. unfold fits. lia.
Qed.

Lemma lp2_bounds n : 2 <= n < 2 ^ 64 ->
  0 < largestPowerOfTwoBelow n < n /\ n <= 2 * largestPowerOfTwoBelow n.
Proof.
  intros Hn. destruct (lp2_spec n Hn) as (k & Hk & -> & ? & ?).
  pose proof (Z.pow_pos_nonneg 2 k). lia.
Qed.

(** The split is determined by the two inequalities: any power of two strictly
    below [n] and at least half of it is the split of [n]. *)
Lemma lp2_unique n k : 2 <= n < 2 ^ 64 -> 0 <= k -> 2 ^ k < n <= 2 * 2 ^ k ->
  largestPowerOfTwoBelow n = 2 ^ k.
Proof.
  intros Hn Hk Hb. destruct (lp2_spec n Hn) as (j & Hj & -> & Hb').
  rewrite <- !Z.pow_succ_r in * by done.
  assert (2 ^ j < 2 ^ Z.succ k) as H1 by lia. assert (2 ^ k < 2 ^ Z.succ j) as H2 by lia.
  apply Z.pow_lt_mono_r_iff in H1; [|lia..]. apply Z.pow_lt_mono_r_iff in H2; [|lia..].
  f_equal. lia.
Qed.

Lemma lp2_of_pow2 k : 0 < k < 64 -> largestPowerOfTwoBelow (2 ^ k) = 2 ^ (k - 1).
Proof.
  intros Hk. assert (2 ^ k = 2 * 2 ^ (k - 1)) as He.
  { rewrite <- Z.pow_succ_r by lia. f_equal. lia. }
  pose proof (Z.pow_pos_nonneg 2 (k - 1)).
  pose proof (Z.pow_lt_mono_r 2 k 64). apply lp2_unique; lia.
Qed.

Lemma isPowerOfTwo_pow2 k : 0 <= k < 64 -> isPowerOfTwo (2 ^ k) = true.
Proof.
  intros Hk. pose proof (Z.pow_pos_nonneg 2 k). pose proof (Z.pow_lt_mono_r 2 k 64).
  unfold isPowerOfTwo. rewrite wrapu_small by (unfold fits; lia).
  apply andb_true_iff. split; [by apply negb_true_iff, Z.eqb_neq; lia|].
  apply Z.eqb_eq, Z.bits_inj'. intros i Hi. rewrite Z.land_spec, Z.bits_0.
  rewrite Z.pow2_bits_eqb by lia. destruct (Z.eqb_spec k i) as [<-|]; [|done].
  simpl. replace (2 ^ k - 1) with (Z.ones k) by (rewrite Z.ones_equiv; lia).
  apply Z.ones_spec_high. lia.
Qed.

Lemma isPowerOfTwo_inv n : 0 <= n < 2 ^ 64 -> isPowerOfTwo n = true ->
  exists k, 0 <= k < 64 /\ n = 2 ^ k.
Proof.
  unfold isPowerOfTwo. intros Hn H. reflect_bools.
  rewrite wrapu_small in * by (unfold fits; lia).
  assert (0 < n) as Hpos by lia.
  pose proof (Z.log2_nonneg n). pose proof (Z.log2_spec n Hpos) as [Hlo Hhi].
  exists (Z.log2 n). split.
  { split; [done|]. apply Z.log2_lt_pow2; lia. }
  destruct (Z.eq_dec n (2 ^ Z.log2 n)) as [|Hne]; [done|]. exfalso.
  (* [n - 1] then has the same top bit as [n] *)
  assert (Z.log2 (n - 1) = Z.log2 n) as Hl.
  { apply Z.log2_unique; [done|]. lia. }
  assert (Z.testbit (Z.land n (n - 1)) (Z.log2 n) = true) as Hb.
  { rewrite Z.land_spec, Z.bit_log2 by lia. rewrite <- Hl, Z.bit_log2 by lia. done. }
  by rewrite H0, Z.bits_0 in Hb.
Qed.

(** ** Termination of the verifiers' descents *)

(** Each level of the tree removes one bit of the size. *)
Lemma lp2_halves n fuel : 2 <= n < 2 ^ 64 -> n <= 2 ^ Z.of_nat (S fuel) ->
  largestPowerOfTwoBelow n <= 2 ^ Z.of_nat fuel.
Proof.
  intros Hn Hf. destruct (lp2_spec n Hn) as (k & Hk & -> & Hb).
  rewrite Nat2Z.inj_succ in Hf. apply Z.pow_le_mono_r; [lia|].
  assert (2 ^ k < 2 ^ Z.succ (Z.of_nat fuel)) as Hlt by lia.
  apply Z.pow_lt_mono_r_iff in Hlt; lia.
Qed.

(** With [2^fuel] at least the size, the descent ends within [fuel] steps. *)
Lemma descend_loop_total fuel index size :
  0 <= size < 2 ^ 64 -> 0 <= index < 2 ^ 64 -> size <= 2 ^ Z.of_nat fuel ->
  exists sides, descend_loop fuel index size = Some sides /\ (length sides <= fuel)%nat.
Proof.
  revert index size. induction fuel as [|fuel IH]; intros index size Hs Hi Hf; cbn [descend_loop].
  - simpl in Hf. destruct (size <=? 1) eqn:E; reflect_bools; [|lia]. by exists [].
  - destruct (size <=? 1) eqn:E; reflect_bools; [exists []; simpl; split; [done|lia]|].
    pose proof (lp2_bounds size ltac:(lia)) as [Hb1 Hb2].
    pose proof (lp2_halves size fuel ltac:(lia) Hf).
    destruct (index <? largestPowerOfTwoBelow size) eqn:E2; reflect_bools.
    + destruct (IH index (largestPowerOfTwoBelow size)) as (sides & -> & ?); [lia..|].
      eexists. split; [done|]. simpl. lia.
    + rewrite !wrapu_small by (unfold fits; lia).
      destruct (IH (index - largestPowerOfTwoBelow size) (size - largestPowerOfTwoBelow size))
        as (sides & -> & ?); [lia..|].
      eexists. split; [done|]. simpl. lia.
Qed.

Lemma descendConsistency_loop_total fuel old size :
  1 <= old <= size -> size < 2 ^ 64 -> size <= 2 ^ Z.of_nat fuel ->
  exists sides, descendConsistency_loop fuel old size = Some sides /\ (length sides <= fuel)%nat.
Proof.
  revert old size. induction fuel as [|fuel IH]; intros old size Ho Hs Hf;
    cbn [descendConsistency_loop].
  - simpl in Hf. destruct (old =? size) eqn:E; reflect_bools; [|lia]. by exists [].
  - destruct (old =? size) eqn:E; reflect_bools; [exists []; simpl; split; [done|lia]|].
    pose proof (lp2_bounds size ltac:(lia)) as [Hb1 Hb2].
    pose proof (lp2_halves size fuel ltac:(lia) Hf).
    destruct (old <=? largestPowerOfTwoBelow size) eqn:E2; reflect_bools.
    + destruct (IH old (largestPowerOfTwoBelow size)) as (sides & -> & ?); [lia..|].
      eexists. split; [done|]. simpl. lia.
    + rewrite !wrapu_small by (unfold fits; lia).
      destruct (IH (old - largestPowerOfTwoBelow size) (size - largestPowerOfTwoBelow size))
        as (sides & -> & ?); [lia..|].
      eexists. split; [done|]. simpl. lia.
Qed.

(** ** Splitting leaf lists *)

(** A leaf list short enough for its length to be a 64-bit size. *)
Definition sized {A} (l : list A) : Prop := len l < 2 ^ 64.

Lemma sized_take {A} n (l : list A) : sized l -> sized (take n l).
Proof. unfold sized. rewrite length_take. lia. Qed.
Lemma sized_drop {A} n (l : list A) : sized l -> sized (drop n l).
Proof. unfold sized. rewrite length_drop. lia. Qed.
#[export] Hint Resolve sized_take sized_drop : nomad.

Section split.
Context {A : Type}.
Implicit Types l : list A.

Lemma split_bounds l : (2 <= length l)%nat -> sized l ->
  (0 < split l < length l)%nat /\ Z.of_nat (split l) = largestPowerOfTwoBelow (len l).
Proof.
  unfold sized, split. intros Hl Hs. pose proof (lp2_bounds (len l) ltac:(lia)). lia.
Qed.

Lemma split_lengths l : (2 <= length l)%nat -> sized l ->
  length (take (split l) l) = split l /\ length (drop (split l) l) = (length l - split l)%nat.
Proof.
  intros Hl Hs. destruct (split_bounds l Hl Hs). rewrite length_take, length_drop. lia.
Qed.

(** Induction along the tree: a property of the empty list and of single
    leaves that passes from both halves to the whole holds everywhere. *)
Lemma tree_ind (P : list A -> Prop) :
  P [] -> (forall x, P [x]) ->
  (forall l, (2 <= length l)%nat -> sized l ->
     P (take (split l) l) -> P (drop (split l) l) -> P l) ->
  forall l, sized l -> P l.
Proof.
  intros H0 H1 H2 l. induction l as [l IH] using (induction_ltof1 _ (@length A)).
  unfold ltof in IH. intros Hs.
  destruct l as [|x [|y r]]; [done..|].
  destruct (split_bounds (x :: y :: r)) as [Hb _]; [simpl; lia|done|].
  destruct (split_lengths (x :: y :: r)) as [Ht Hd]; [simpl; lia|done|].
  apply H2; [simpl; lia|done|apply IH; eauto with nomad; lia..].
Qed.
End split.

Lemma split_same_length {A B} (l : list A) (m : list B) : length l = length m -> split l = split m.
Proof. unfold split. intros ->. done. Qed.

(** Two lists cut at the same place are equal when both parts are. *)
Lemma take_drop_ext {A} n (l m : list A) : take n l = take n m -> drop n l = drop n m -> l = m.
Proof. intros Ht Hd. by rewrite <- (take_drop n l), Ht, Hd, take_drop. Qed.

(** ** Equations of the prover *)

Section equations.
Context `{HashFunction}.
Implicit Types l : list (list byte).

Lemma rootOf_fuel_S fuel l : (2 <= length l)%nat ->
  rootOf_fuel (S fuel) l = HashNode (rootOf_fuel fuel (take (split l) l))
                                    (rootOf_fuel fuel (drop (split l) l)).
Proof. intros Hl. destruct l as [|x [|y r]]; simpl in Hl; [lia..|]. done. Qed.

Lemma rootOf_fuel_enough l : sized l -> forall fuel, (length l <= fuel)%nat ->
  rootOf_fuel fuel l = rootOf l.
Proof.
  revert l. apply (tree_ind (fun l => forall fuel, (length l <= fuel)%nat ->
    rootOf_fuel fuel l = rootOf l)); [by intros [|?] ? | by intros ? [|?] ? |].
  intros l Hl Hs IHt IHd fuel Hf.
  destruct (split_bounds l Hl Hs) as [Hb _]. destruct (split_lengths l Hl Hs) as [Ht Hd].
  unfold rootOf. destruct fuel as [|fuel]; [lia|].
  destruct (length l) as [|n] eqn:En; [lia|].
  rewrite !rootOf_fuel_S, !IHt, !IHd by lia. done.
Qed.

Lemma rootOf_split l : (2 <= length l)%nat -> sized l ->
  rootOf l = HashNode (rootOf (take (split l) l)) (rootOf (drop (split l) l)).
Proof.
  intros Hl Hs. destruct (split_bounds l Hl Hs) as [Hb _].
  destruct (split_lengths l Hl Hs) as [Ht Hd].
  unfold rootOf at 1. destruct (length l) as [|n] eqn:En; [lia|].
  rewrite rootOf_fuel_S by lia. rewrite !rootOf_fuel_enough; eauto with nomad; lia.
Qed.

Lemma inclusionPath_fuel_enough l : sized l -> forall fuel index, (length l <= fuel)%nat ->
  inclusionPath_fuel fuel l index = inclusionPath l index.
Proof.
  revert l. apply (tree_ind (fun l => forall fuel index, (length l <= fuel)%nat ->
    inclusionPath_fuel fuel l index = inclusionPath l index)); [by intros [|?] ? ? | |].
  { intros x [|fuel] index Hf; simpl in Hf; [lia|done]. }
  intros l Hl Hs IHt IHd fuel index Hf.
  destruct (split_bounds l Hl Hs) as [Hb _]. destruct (split_lengths l Hl Hs) as [Ht Hd].
  unfold inclusionPath. destruct fuel as [|fuel]; [lia|].
  destruct (length l) as [|n] eqn:En; [lia|].
  cbn [inclusionPath_fuel]. rewrite !IHt, !IHd by lia. done.
Qed.

Lemma inclusionPath_split l index : (2 <= length l)%nat -> sized l ->
  inclusionPath l index =
  if index <? largestPowerOfTwoBelow (len l)
  then inclusionPath (take (split l) l) index ++ [rootOf (drop (split l) l)]
  else inclusionPath (drop (split l) l) (index - largestPowerOfTwoBelow (len l))
         ++ [rootOf (take (split l) l)].
Proof.
  intros Hl Hs. destruct (split_bounds l Hl Hs) as [Hb _].
  destruct (split_lengths l Hl Hs) as [Ht Hd].
  unfold inclusionPath at 1. destruct (length l) as [|n] eqn:En; [lia|].
  cbn [inclusionPath_fuel].
  destruct (len l <=? 1) eqn:E; reflect_bools; [lia|].
  rewrite !inclusionPath_fuel_enough by (eauto with nomad; lia). by rewrite En.
Qed.

Lemma consistencyPath_fuel_enough l : sized l -> forall fuel old w,
  1 <= old <= len l -> (length l <= fuel)%nat ->
  consistencyPath_fuel fuel l old w = consistencyPath l old w.
Proof.
  revert l. apply (tree_ind (fun l => forall fuel old w, 1 <= old <= len l ->
    (length l <= fuel)%nat -> consistencyPath_fuel fuel l old w = consistencyPath l old w)).
  - simpl. lia.
  - intros x [|fuel] old w Ho Hf; simpl in *; [lia|].
    assert (old = 1) as -> by lia. done.
  - intros l Hl Hs IHt IHd fuel old w Ho Hf.
    destruct (split_bounds l Hl Hs) as [Hb Hsp]. destruct (split_lengths l Hl Hs) as [Ht Hd].
    unfold consistencyPath. destruct fuel as [|fuel]; [lia|].
    destruct (length l) as [|n] eqn:En; [lia|].
    cbn [consistencyPath_fuel]. rewrite En.
    destruct (old =? Z.of_nat (S n)) eqn:E; [done|].
    destruct (old <=? largestPowerOfTwoBelow (Z.of_nat (S n))) eqn:E2; reflect_bools.
    + rewrite !IHt by lia. done.
    + rewrite !IHd by lia. done.
Qed.

Lemma consistencyPath_split l old w : sized l -> 1 <= old < len l ->
  consistencyPath l old w =
  if old <=? largestPowerOfTwoBelow (len l)
  then consistencyPath (take (split l) l) old w ++ [rootOf (drop (split l) l)]
  else consistencyPath (drop (split l) l) (old - largestPowerOfTwoBelow (len l)) false
         ++ [rootOf (take (split l) l)].
Proof.
  intros Hs Ho. assert (2 <= length l)%nat as Hl by lia.
  destruct (split_bounds l Hl Hs) as [Hb Hsp]. destruct (split_lengths l Hl Hs) as [Ht Hd].
  unfold consistencyPath at 1. destruct (length l) as [|n] eqn:En; [lia|].
  cbn [consistencyPath_fuel]. rewrite En.
  destruct (old =? Z.of_nat (S n)) eqn:E; reflect_bools; [lia|].
  destruct (old <=? largestPowerOfTwoBelow (Z.of_nat (S n))) eqn:E2; reflect_bools.
  - rewrite consistencyPath_fuel_enough; eauto with nomad; lia.
  - rewrite consistencyPath_fuel_enough; eauto with nomad; lia.
Qed.

Lemma consistencyPath_whole l w : (1 <= length l)%nat ->
  consistencyPath l (len l) w = if w then [] else [rootOf l].
Proof.
  intros Hl. unfold consistencyPath. destruct (length l) as [|n] eqn:En; [lia|].
  cbn [consistencyPath_fuel]. by rewrite En, Z.eqb_refl.
Qed.
End equations.

(** ** What gets hashed

    The messages a tree and a verifier hash, listed so that the security
    statements can assume collision freedom of exactly those. *)

Section messages.
Context `{HashFunction}.

Definition node_message (a b : list byte) : list byte := [nodePrefix] ++ a ++ b.
Definition leaf_message (entry : list byte) : list byte := [leafPrefix] ++ entry.

Fixpoint node_messages_fuel (fuel : nat) (l : list (list byte)) : list (list byte) :=
  match fuel with
  | O => []
  | S fuel =>
      if len l <=? 1 then []
      else node_message (rootOf (take (split l) l)) (rootOf (drop (split l) l))
           :: node_messages_fuel fuel (take (split l) l) ++ node_messages_fuel fuel (drop (split l) l)
  end.
(** The node messages hashed to build the head of the leaf list [l]. *)
Definition node_messages (l : list (list byte)) := node_messages_fuel (length l) l.

(** The node messages hashed while climbing an inclusion path. *)
Fixpoint climb_messages (c : list byte) (steps : list (bool * list byte)) : list (list byte) :=
  match steps with
  | [] => []
  | (side, sib) :: rest =>
      (if side then node_message sib c else node_message c sib)
        :: climb_messages (climb c (side, sib)) rest
  end.

(** The node messages hashed while climbing a consistency path. *)
Fixpoint climb2_messages (h : list byte * list byte) (steps : list (bool * list byte))
  : list (list byte) :=
  match steps with
  | [] => []
  | (side, sib) :: rest =>
      (if side then [node_message sib h.1; node_message sib h.2] else [node_message h.2 sib])
        ++ climb2_messages (climb2 h (side, sib)) rest
  end.

(** Everything hashed by a tree over [entries]: its leaves and its nodes. *)
Definition tree_messages (entries : list (list byte)) : list (list byte) :=
  map leaf_message entries ++ node_messages (map HashLeaf entries).
End messages.

(** ** Climbing *)

Lemma zip_rev_snoc {A B} (s : A) (sides : list A) (path : list B) h :
  length path = length sides ->
  zip (rev (s :: sides)) (path ++ [h]) = zip (rev sides) path ++ [(s, h)].
Proof.
  intros Hl. simpl. rewrite zip_with_app by (rewrite length_rev; done). done.
Qed.

Section climbing.
Context `{HashFunction}.
Implicit Types l : list (list byte).

Lemma climb_messages_app c s1 s2 :
  climb_messages c (s1 ++ s2) = climb_messages c s1 ++ climb_messages (fold_left climb s1 c) s2.
Proof. revert c. induction s1 as [|[side sib] s1 IH]; intros c; simpl; [done|]. by rewrite IH. Qed.

Lemma climb2_messages_app c s1 s2 :
  climb2_messages c (s1 ++ s2) =
  climb2_messages c s1 ++ climb2_messages (fold_left climb2 s1 c) s2.
Proof.
  revert c. induction s1 as [|[side sib] s1 IH]; intros c; simpl; [done|].
  by rewrite IH, app_assoc.
Qed.

Lemma node_messages_fuel_enough l : sized l -> forall fuel, (length l <= fuel)%nat ->
  node_messages_fuel fuel l = node_messages l.
Proof.
  revert l. apply (tree_ind (fun l => forall fuel, (length l <= fuel)%nat ->
    node_messages_fuel fuel l = node_messages l)); [by intros [|?] ? | |].
  { intros x [|fuel] Hf; simpl in Hf; [lia|done]. }
  intros l Hl Hs IHt IHd fuel Hf.
  destruct (split_bounds l Hl Hs) as [Hb _]. destruct (split_lengths l Hl Hs) as [Ht Hd].
  unfold node_messages. destruct fuel as [|fuel]; [lia|].
  destruct (length l) as [|n] eqn:En; [lia|].
  cbn [node_messages_fuel]. rewrite !IHt, !IHd by lia. done.
Qed.

Lemma node_messages_split l : (2 <= length l)%nat -> sized l ->
  node_messages l =
  node_message (rootOf (take (split l) l)) (rootOf (drop (split l) l))
    :: node_messages (take (split l) l) ++ node_messages (drop (split l) l).
Proof.
  intros Hl Hs. destruct (split_bounds l Hl Hs) as [Hb _].
  destruct (split_lengths l Hl Hs) as [Ht Hd].
  unfold node_messages at 1. destruct (length l) as [|n] eqn:En; [lia|].
  cbn [node_messages_fuel]. rewrite En. destruct (Z.of_nat (S n) <=? 1) eqn:E; reflect_bools; [lia|].
  rewrite !node_messages_fuel_enough by (eauto with nomad; lia). done.
Qed.

Lemma HashNode_digest a b : is_digest (HashNode a b).
Proof. apply sha256_digest. Qed.

Lemma rootOf_digest l : sized l -> Forall is_digest l -> is_digest (rootOf l).
Proof.
  intros Hs. pattern l. apply tree_ind; [..|exact Hs]; clear l Hs.
  - intros _. apply sha256_digest.
  - intros x Hx. apply Forall_cons in Hx as [Hx _]. exact Hx.
  - intros l Hl Hs _ _ _. rewrite rootOf_split by done. apply HashNode_digest.
Qed.

Lemma climb_digest steps c : is_digest c -> is_digest (fold_left climb steps c).
Proof.
  revert c. induction steps as [|[[] sib] steps IH]; intros c Hc; simpl; [done|..];
    apply IH, HashNode_digest.
Qed.

Lemma HashNode_inj ms a b c d :
  collision_free ms -> node_message a b ∈ ms -> node_message c d ∈ ms ->
  is_digest a -> is_digest c -> HashNode a b = HashNode c d -> a = c /\ b = d.
Proof.
  unfold is_digest. intros Hcf H1 H2 Ha Hc He.
  apply Hcf in He; [|done..]. unfold node_message in He.
  apply app_inv_head in He. apply app_eq_length_inj in He; [done|congruence].
Qed.

(** A head determines the leaves under it. *)
Lemma rootOf_inj ms l m : collision_free ms ->
  sized l -> length l = length m -> Forall is_digest l -> Forall is_digest m ->
  Forall (.∈ ms) (node_messages l) -> Forall (.∈ ms) (node_messages m) -> rootOf l = rootOf m -> l = m.
Proof.
  intros Hcf Hs. revert m. pattern l. apply tree_ind; [..|exact Hs]; clear l Hs.
  - intros [|??]; done.
  - intros x [|y [|??]]; try done. simpl. unfold rootOf. simpl. congruence.
  - intros l Hl Hs IHt IHd m Hlen Hdl Hdm Hml Hmm He.
    assert (sized m) as Hsm by (unfold sized in *; congruence).
    rewrite (rootOf_split l), (rootOf_split m) in He by (done || congruence).
    rewrite node_messages_split in Hml by done.
    rewrite node_messages_split in Hmm by (done || congruence).
    rewrite <- (split_same_length l m Hlen) in *.
    assert (length (take (split l) l) = length (take (split l) m)) by (rewrite !length_take; lia).
    assert (length (drop (split l) l) = length (drop (split l) m)) by (rewrite !length_drop; lia).
    split_forall.
    apply (HashNode_inj ms) in He as [Ht Hd]; [|done..
      |apply rootOf_digest; eauto using Forall_take with nomad
      |apply rootOf_digest; eauto using Forall_take with nomad].
    apply (take_drop_ext (split l)).
    + apply IHt; eauto using Forall_take.
    + apply IHd; eauto using Forall_drop.
Qed.
End climbing.

(** ** Inclusion *)

Lemma descend_loop_step fuel index size sides :
  2 <= size < 2 ^ 64 -> 0 <= index < size -> descend_loop fuel index size = Some sides ->
  exists fuel' sides',
    (index < largestPowerOfTwoBelow size /\ sides = false :: sides' /\
     descend_loop fuel' index (largestPowerOfTwoBelow size) = Some sides') \/
    (largestPowerOfTwoBelow size <= index /\ sides = true :: sides' /\
     descend_loop fuel' (index - largestPowerOfTwoBelow size)
       (size - largestPowerOfTwoBelow size) = Some sides').
Proof.
  intros Hs Hi Hd. pose proof (lp2_bounds size Hs) as [Hb1 Hb2].
  destruct fuel as [|fuel]; cbn [descend_loop] in Hd;
    destruct (size <=? 1) eqn:E; reflect_bools; try lia; [done|].
  exists fuel. destruct (index <? largestPowerOfTwoBelow size) eqn:E2; reflect_bools.
  - apply fmap_Some in Hd as (s & Hs' & ->). exists s. left. done.
  - rewrite !wrapu_small in Hd by (unfold fits; lia).
    apply fmap_Some in Hd as (s & Hs' & ->). exists s. right. done.
Qed.

Lemma descendConsistency_loop_step fuel old size sides :
  1 <= old < size -> size < 2 ^ 64 -> descendConsistency_loop fuel old size = Some sides ->
  exists fuel' sides',
    (old <= largestPowerOfTwoBelow size /\ sides = false :: sides' /\
     descendConsistency_loop fuel' old (largestPowerOfTwoBelow size) = Some sides') \/
    (largestPowerOfTwoBelow size < old /\ sides = true :: sides' /\
     descendConsistency_loop fuel' (old - largestPowerOfTwoBelow size)
       (size - largestPowerOfTwoBelow size) = Some sides').
Proof.
  intros Ho Hs Hd. pose proof (lp2_bounds size ltac:(lia)) as [Hb1 Hb2].
  destruct fuel as [|fuel]; cbn [descendConsistency_loop] in Hd;
    destruct (old =? size) eqn:E; reflect_bools; try lia; [done|].
  exists fuel. destruct (old <=? largestPowerOfTwoBelow size) eqn:E2; reflect_bools.
  - apply fmap_Some in Hd as (s & Hs' & ->). exists s. left. done.
  - rewrite !wrapu_small in Hd by (unfold fits; lia).
    apply fmap_Some in Hd as (s & Hs' & ->). exists s. right. done.
Qed.

Lemma descend_loop_leaf fuel index : descend_loop fuel index 1 = Some [].
Proof. by destruct fuel. Qed.

Lemma descendConsistency_loop_whole fuel n : descendConsistency_loop fuel n n = Some [].
Proof. destruct fuel; simpl; by rewrite Z.eqb_refl. Qed.

(** The last hash of a path belongs to the topmost split. *)
Lemma path_snoc {A B} (path : list A) (s : B) sides :
  length path = length (s :: sides) -> exists p h, path = p ++ [h] /\ length p = length sides.
Proof.
  intros Hl. destruct path as [|h p _] using rev_ind; [done|].
  exists p, h. rewrite length_app in Hl. simpl in Hl. split; [done|lia].
Qed.

Section inclusion.
Context `{HashFunction}.
Implicit Types l : list (list byte).

Lemma fold_climb_snoc s sides path h c : length path = length sides ->
  fold_left climb (zip (rev (s :: sides)) (path ++ [h])) c =
  climb (fold_left climb (zip (rev sides) path) c) (s, h).
Proof. intros Hl. by rewrite zip_rev_snoc, fold_left_app by done. Qed.

(** The prover's path has the length the verifier expects and climbs from
    the leaf to the head. *)
Lemma inclusionPath_climbs l : sized l -> forall fuel index sides,
  0 <= index < len l -> descend_loop fuel index (len l) = Some sides ->
  length (inclusionPath l index) = length sides /\
  exists leaf, l !! Z.to_nat index = Some leaf /\
    fold_left climb (zip (rev sides) (inclusionPath l index)) leaf = rootOf l.
Proof.
  intros Hs. pattern l. apply tree_ind; [..|exact Hs]; clear l Hs.
  - simpl. lia.
  - intros x fuel index sides Hi. simpl in Hi. assert (index = 0) as -> by lia.
    rewrite descend_loop_leaf. intros [= <-]. split; [done|]. by exists x.
  - intros l Hl Hs IHt IHd fuel index sides Hi Hdesc.
    destruct (split_bounds l Hl Hs) as [Hb Hsp]. destruct (split_lengths l Hl Hs) as [Ht Hd].
    rewrite (inclusionPath_split l), (rootOf_split l) by done.
    rewrite Ht in IHt. rewrite Hd in IHd.
    apply descend_loop_step in Hdesc as (fuel' & sides' & [(Hlt & -> & Hd')|(Hge & -> & Hd')]);
      [| |unfold sized in Hs; lia|done].
    + rewrite (proj2 (Z.ltb_lt _ _)) by done. rewrite <- Hsp in Hd'.
      destruct (IHt fuel' index sides') as (Hlen & leaf & Hleaf & Hf); [lia|done|].
      rewrite length_app. split; [simpl; lia|]. exists leaf.
      rewrite lookup_take_lt in Hleaf by lia. split; [done|].
      rewrite fold_climb_snoc, Hf by done. done.
    + rewrite (proj2 (Z.ltb_ge _ _)) by done.
      replace (len l - largestPowerOfTwoBelow (len l)) with (Z.of_nat (length l - split l)) in Hd' by lia.
      destruct (IHd fuel' (index - largestPowerOfTwoBelow (len l)) sides')
        as (Hlen & leaf & Hleaf & Hf); [lia|done|].
      rewrite length_app. split; [simpl; lia|]. exists leaf.
      rewrite lookup_drop in Hleaf.
      replace (split l + Z.to_nat (index - largestPowerOfTwoBelow (len l)))%nat
        with (Z.to_nat index) in Hleaf by lia. split; [done|].
      rewrite fold_climb_snoc, Hf by done. done.
Qed.

(** A path of the right length that climbs to the head starts at the leaf
    that is really there. *)
Lemma climb_sound ms l : collision_free ms -> sized l ->
  forall fuel index sides path leaf,
  Forall is_digest l -> Forall is_digest path -> is_digest leaf ->
  Forall (.∈ ms) (node_messages l) -> Forall (.∈ ms) (climb_messages leaf (zip (rev sides) path)) ->
  0 <= index < len l -> descend_loop fuel index (len l) = Some sides ->
  length path = length sides ->
  fold_left climb (zip (rev sides) path) leaf = rootOf l ->
  l !! Z.to_nat index = Some leaf.
Proof.
  intros Hcf Hs. pattern l. apply tree_ind; [..|exact Hs]; clear l Hs.
  - simpl. lia.
  - intros x fuel index sides path leaf _ _ _ _ _ Hi. simpl in Hi.
    assert (index = 0) as -> by lia. rewrite descend_loop_leaf. intros [= <-] _.
    simpl. unfold rootOf. simpl. by intros ->.
  - intros l Hl Hs IHt IHd fuel index sides path leaf Hdl Hdp Hdleaf Hml Hmc Hi Hdesc Hlen Hf.
    destruct (split_bounds l Hl Hs) as [Hb Hsp]. destruct (split_lengths l Hl Hs) as [Ht Hd].
    rewrite rootOf_split in Hf by done. rewrite node_messages_split in Hml by done.
    apply descend_loop_step in Hdesc as (fuel' & sides' & [(Hlt & -> & Hd')|(Hge & -> & Hd')]);
      [| |unfold sized in Hs; lia|done];
    destruct (path_snoc path _ _ Hlen) as (p & h & -> & Hp);
    rewrite zip_rev_snoc, climb_messages_app in Hmc by done; simpl in Hmc;
    rewrite fold_climb_snoc in Hf by done; simpl in Hf; split_forall;
    (apply (HashNode_inj ms) in Hf as [He1 He2];
      [|done..|auto using climb_digest
       |apply rootOf_digest; eauto using Forall_take with nomad]).
    + rewrite <- lookup_take_lt with (n := split l) by lia.
      apply (IHt fuel' index sides' p); eauto using Forall_take; [lia|].
      by rewrite Ht, Hsp.
    + replace (Z.to_nat index)
        with (split l + Z.to_nat (index - largestPowerOfTwoBelow (len l)))%nat by lia.
      rewrite <- lookup_drop.
      apply (IHd fuel' _ sides' p); eauto using Forall_drop; [lia|].
      rewrite Hd. by replace (Z.of_nat (length l - split l))
        with (len l - largestPowerOfTwoBelow (len l)) by lia.
Qed.
End inclusion.

(** ** Consistency *)

(** A descent that never turned right. *)
Definition straight (sides : list bool) : bool := forallb negb sides.

Lemma straight_pow2 fuel old size sides :
  1 <= old < size -> size < 2 ^ 64 -> descendConsistency_loop fuel old size = Some sides ->
  straight sides = true -> isPowerOfTwo old = true.
Proof.
  revert fuel size. induction sides as [|side sides IH]; intros fuel size Ho Hs Hd Hst.
  - apply descendConsistency_loop_step in Hd as (? & ? & [(_ & ? & _)|(_ & ? & _)]); done.
  - pose proof (lp2_bounds size ltac:(lia)).
    apply descendConsistency_loop_step in Hd
      as (fuel' & sides' & [(Hle & [= -> ->] & Hd')|(_ & [= -> ->] & _)]); [|done..].
    destruct (decide (old = largestPowerOfTwoBelow size)) as [He|Hne].
    + destruct (lp2_spec size ltac:(lia)) as (k & Hk & Hp & Hb). rewrite He, Hp.
      apply isPowerOfTwo_pow2. split; [done|]. apply (Z.pow_lt_mono_r_iff 2); lia.
    + by apply (IH fuel' (largestPowerOfTwoBelow size)); try lia.
Qed.

Lemma pow2_straight fuel old size sides :
  1 <= old <= size -> size < 2 ^ 64 -> descendConsistency_loop fuel old size = Some sides ->
  isPowerOfTwo old = true -> straight sides = true.
Proof.
  revert fuel size. induction sides as [|side sides IH]; intros fuel size Ho Hs Hd Hp; [done|].
  destruct (decide (old = size)) as [->|].
  { rewrite descendConsistency_loop_whole in Hd. done. }
  pose proof (lp2_bounds size ltac:(lia)) as [Hb1 Hb2].
  apply descendConsistency_loop_step in Hd
    as (fuel' & sides' & [(Hle & [= -> ->] & Hd')|(Hgt & [= -> ->] & _)]); [| |lia..].
  - by apply (IH fuel' (largestPowerOfTwoBelow size)); try lia.
  - exfalso. apply isPowerOfTwo_inv in Hp as (j & Hj & ->); [|lia].
    destruct (lp2_spec size ltac:(lia)) as (k & Hk & Hpk & Hbk). rewrite Hpk in *.
    apply Z.pow_lt_mono_r_iff in Hgt; [|lia..].
    assert (2 ^ Z.succ k <= 2 ^ j) as Hkj by (apply Z.pow_le_mono_r; lia).
    rewrite Z.pow_succ_r in Hkj by lia. lia.
Qed.

Lemma straight_iff_pow2 fuel old size sides :
  1 <= old < size -> size < 2 ^ 64 -> descendConsistency_loop fuel old size = Some sides ->
  straight sides = isPowerOfTwo old.
Proof.
  intros Ho Hs Hd. apply eq_bool_prop_intro. rewrite !Is_true_true. split.
  - by apply (straight_pow2 fuel old size sides).
  - apply (pow2_straight fuel old size sides); [lia|done|done].
Qed.

Section consistency.
Context `{HashFunction}.
Implicit Types l : list (list byte).

Lemma fold_climb2_snoc s sides path h c : length path = length sides ->
  fold_left climb2 (zip (rev (s :: sides)) (path ++ [h])) c =
  climb2 (fold_left climb2 (zip (rev sides) path) c) (s, h).
Proof. intros Hl. by rewrite zip_rev_snoc, fold_left_app by done. Qed.

Lemma climb2_digest steps c : is_digest c.1 -> is_digest c.2 ->
  is_digest (fold_left climb2 steps c).1 /\ is_digest (fold_left climb2 steps c).2.
Proof.
  revert c. induction steps as [|[[] sib] steps IH]; intros [a b] Ha Hb; simpl in *; [done|..];
    apply IH; simpl; auto using HashNode_digest.
Qed.

(** A prefix that reaches past the split has the whole tree's split. *)
Lemma rootOf_take_past_split l n : sized l -> (2 <= length l)%nat ->
  (split l < n <= length l)%nat ->
  split (take n l) = split l /\
  rootOf (take n l) =
  HashNode (rootOf (take (split l) l)) (rootOf (take (n - split l) (drop (split l) l))).
Proof.
  intros Hs Hl Hn. destruct (split_bounds l Hl Hs) as [Hb Hsp].
  assert (length (take n l) = n) as Hlt by (rewrite length_take; lia).
  assert (split (take n l) = split l) as Hsplit.
  { unfold split. rewrite Hlt. f_equal. unfold sized in Hs.
    destruct (lp2_spec (len l) ltac:(lia)) as (k & Hk & Hp & Hk1). rewrite Hp.
    apply lp2_unique; lia. }
  split; [done|].
  rewrite rootOf_split by (eauto with nomad; lia). rewrite Hsplit.
  f_equal; f_equal.
  - rewrite take_take. f_equal. lia.
  - rewrite take_drop_commute. do 2 f_equal. lia.
Qed.

(** The prover's consistency path climbs to both heads. *)
Lemma consistencyPath_climbs l : sized l -> forall fuel old sides w,
  1 <= old <= len l -> descendConsistency_loop fuel old (len l) = Some sides ->
  exists seed rest,
    consistencyPath l old w = (if w && straight sides then [] else [seed]) ++ rest /\
    length rest = length sides /\
    (straight sides = true -> seed = rootOf (take (Z.to_nat old) l)) /\
    fold_left climb2 (zip (rev sides) rest) (seed, seed) =
      (rootOf (take (Z.to_nat old) l), rootOf l).
Proof.
  intros Hs. pattern l. apply tree_ind; [..|exact Hs]; clear l Hs.
  - simpl. lia.
  - intros x fuel old sides w Ho. simpl in Ho. assert (old = 1) as -> by lia.
    rewrite descendConsistency_loop_whole. intros [= <-]. exists x, [].
    split; [|by auto]. destruct w; done.
  - intros l Hl Hs IHt IHd fuel old sides w Ho Hdesc.
    destruct (split_bounds l Hl Hs) as [Hb Hsp]. destruct (split_lengths l Hl Hs) as [Ht Hd].
    destruct (decide (old = len l)) as [->|Hne].
    { rewrite descendConsistency_loop_whole in Hdesc. injection Hdesc as <-.
      exists (rootOf l), []. rewrite consistencyPath_whole, Nat2Z.id, firstn_all by lia.
      split; [by destruct w|done]. }
    rewrite (consistencyPath_split l), (rootOf_split l) by (done || lia).
    rewrite Ht in IHt. rewrite Hd in IHd.
    apply descendConsistency_loop_step in Hdesc
      as (fuel' & sides' & [(Hle & -> & Hd')|(Hgt & -> & Hd')]); [| |lia|done].
    + rewrite (proj2 (Z.leb_le _ _)) by done. rewrite <- Hsp in Hd'.
      destruct (IHt fuel' old sides' w) as (seed & rest & -> & Hlen & Hseed & Hf); [lia|done|].
      rewrite take_take in Hf, Hseed. rewrite Nat.min_l in Hf, Hseed by lia.
      exists seed, (rest ++ [rootOf (drop (split l) l)]).
      rewrite app_assoc, length_app, fold_climb2_snoc, Hf by done.
      split_and!; [done|simpl; lia|done|done].
    + rewrite (proj2 (Z.leb_gt _ _)) by done.
      replace (len l - largestPowerOfTwoBelow (len l)) with (Z.of_nat (length l - split l)) in Hd' by lia.
      destruct (IHd fuel' (old - largestPowerOfTwoBelow (len l)) sides' false)
        as (seed & rest & -> & Hlen & _ & Hf); [lia|done|].
      exists seed, (rest ++ [rootOf (take (split l) l)]).
      rewrite length_app, fold_climb2_snoc, Hf by done. rewrite andb_false_r.
      destruct (rootOf_take_past_split l (Z.to_nat old)) as [_ ->]; [done|done|lia|].
      replace (Z.to_nat (old - largestPowerOfTwoBelow (len l))) with (Z.to_nat old - split l)%nat by lia.
      split_and!; [done|simpl; lia|done|done].
Qed.

(** Two heads reproduced from one path: the older leaves are a prefix. *)
Lemma climb2_sound ms l : collision_free ms -> sized l ->
  forall fuel old sides path seed m,
  Forall is_digest l -> Forall is_digest m -> Forall is_digest path -> is_digest seed ->
  Forall (.∈ ms) (node_messages l) -> Forall (.∈ ms) (node_messages m) ->
  Forall (.∈ ms) (climb2_messages (seed, seed) (zip (rev sides) path)) ->
  1 <= old <= len l -> len m = old -> descendConsistency_loop fuel old (len l) = Some sides ->
  length path = length sides ->
  fold_left climb2 (zip (rev sides) path) (seed, seed) = (rootOf m, rootOf l) ->
  m = take (Z.to_nat old) l.
Proof.
  intros Hcf Hs. pattern l. apply tree_ind; [..|exact Hs]; clear l Hs.
  - simpl. lia.
  - intros x fuel old sides path seed m Hdl Hdm _ _ Hml Hmm _ Ho Hm. simpl in Ho.
    assert (old = 1) as -> by lia. rewrite descendConsistency_loop_whole. intros [= <-] _.
    simpl. intros [= Hx Hy]. apply (rootOf_inj ms); eauto; [unfold sized; lia|simpl; lia|congruence].
  - intros l Hl Hs IHt IHd fuel old sides path seed m Hdl Hdm Hdp Hds Hml Hmm Hmc Ho Hm Hdesc Hlen Hf.
    destruct (split_bounds l Hl Hs) as [Hb Hsp]. destruct (split_lengths l Hl Hs) as [Ht Hd].
    assert (sized m) as Hsm by (unfold sized in *; lia).
    destruct (decide (old = len l)) as [->|Hne].
    { rewrite descendConsistency_loop_whole in Hdesc. injection Hdesc as <-.
      simpl in Hf. injection Hf as Hx Hy. rewrite Nat2Z.id, firstn_all.
      apply (rootOf_inj ms); eauto; [lia|congruence]. }
    apply descendConsistency_loop_step in Hdesc
      as (fuel' & sides' & [(Hle & -> & Hd')|(Hgt & -> & Hd')]); [| |lia|done];
    destruct (path_snoc path _ _ Hlen) as (p & h & -> & Hp);
    rewrite node_messages_split in Hml by done; rewrite (rootOf_split l) in Hf by done;
    rewrite zip_rev_snoc, climb2_messages_app in Hmc by done;
    rewrite fold_climb2_snoc in Hf by done;
    pose proof (climb2_digest (zip (rev sides') p) (seed, seed) Hds Hds) as [Hd1 Hd2];
    destruct (fold_left climb2 (zip (rev sides') p) (seed, seed)) as [a b] eqn:Eab;
    simpl in *; split_forall.
    + injection Hf as -> Hr.
      apply (HashNode_inj ms) in Hr as [-> ->]; [|done..|
        apply rootOf_digest; eauto using Forall_take with nomad].
      rewrite (IHt fuel' old sides' p seed m) at 1; eauto using Forall_take; [|lia|by rewrite Ht, Hsp].
      rewrite take_take. f_equal. lia.
    + injection Hf as Hl1 Hr.
      destruct (split_bounds m) as [Hbm Hspm]; [lia|done|].
      assert (split m = split l) as Hsm'.
      { rewrite <- (proj1 (rootOf_take_past_split l (Z.to_nat old) Hs Hl ltac:(lia))).
        apply split_same_length. rewrite length_take. lia. }
      rewrite (rootOf_split m) in Hl1 by (done || lia).
      rewrite node_messages_split in Hmm by (done || lia). rewrite Hsm' in *. split_forall.
      apply (HashNode_inj ms) in Hr as [-> ->]; [|done..|
        apply rootOf_digest; eauto using Forall_take with nomad].
      apply (HashNode_inj ms) in Hl1 as [Hlm ->]; [|done..|
        apply rootOf_digest; eauto using Forall_take with nomad].
      apply (rootOf_inj ms) in Hlm; eauto using Forall_take with nomad;
        [|rewrite !length_take; lia].
      apply (take_drop_ext (split l)).
      * rewrite <- Hlm, take_take. f_equal. lia.
      * rewrite (IHd fuel' (old - largestPowerOfTwoBelow (len l)) sides' p seed (drop (split l) m)) at 1;
          eauto using Forall_drop.
        -- rewrite take_drop_commute. do 2 f_equal. lia.
        -- lia.
        -- rewrite length_drop. lia.
        -- rewrite Hd. by replace (Z.of_nat (length l - split l))
             with (len l - largestPowerOfTwoBelow (len l)) by lia.
Qed.
End consistency.

(** ** The tree over a list of entries *)

Section theorems.
Context `{HashFunction}.

(** The tree a log holds after appending [entries] in order. *)
Definition treeOf (entries : list (list byte)) : Tree :=
  fold_left (fun t e => (Append t e).1) entries emptyTree.

Lemma leaves_treeOf entries : leaves (treeOf entries) = map HashLeaf entries.
Proof.
  unfold treeOf. change (map HashLeaf entries) with (leaves emptyTree ++ map HashLeaf entries).
  generalize emptyTree. induction entries as [|e es IH]; intros t; simpl; [by rewrite app_nil_r|].
  rewrite IH. simpl. by rewrite <- app_assoc.
Qed.

Lemma HashLeaf_digests entries : Forall is_digest (map HashLeaf entries).
Proof. apply Forall_map, Forall_true. intros. apply sha256_digest. Qed.

Lemma sized_map {A B} (f : A -> B) l : sized l -> sized (map f l).
Proof. unfold sized. by rewrite length_map. Qed.

Lemma HashLeaf_inj_on ms es fs : collision_free ms ->
  Forall (.∈ ms) (map leaf_message es) -> Forall (.∈ ms) (map leaf_message fs) ->
  map HashLeaf es = map HashLeaf fs -> es = fs.
Proof.
  intros Hcf. revert fs. induction es as [|e es IH]; intros [|f fs] He Hf Heq; simpl in *; try done.
  split_forall. injection Heq as Hh Ht. apply Hcf in Hh; [|done..].
  injection Hh as ->. f_equal. by apply IH.
Qed.

Lemma descend_total index size : fits 64 index -> fits 64 size ->
  exists sides, descend index size = Some sides /\ (length sides <= 64)%nat.
Proof.
  unfold fits. intros Hi Hs. apply descend_loop_total; [done..|].
  change (Z.of_nat 64) with 64. lia.
Qed.

Lemma descendConsistency_total old size : 1 <= old <= size -> fits 64 size ->
  exists sides, descendConsistency old size = Some sides /\ (length sides <= 64)%nat.
Proof.
  unfold fits. intros Ho Hs. apply descendConsistency_loop_total; [done|lia|].
  change (Z.of_nat 64) with 64. lia.
Qed.

(** The messages hashed by one call of the inclusion verifier. *)
Definition inclusion_messages (proof : InclusionProof) (entry : list byte) : list (list byte) :=
  leaf_message entry ::
  climb_messages (HashLeaf entry)
    (zip (rev (default [] (descend (Index proof) (Size proof)))) (Path proof)).

(** The messages hashed by one call of the consistency verifier. *)
Definition consistency_messages (proof : ConsistencyProof) (oldRoot : list byte)
  : list (list byte) :=
  let '(seed, path) := if negb (isPowerOfTwo (Old proof))
                       then (hd [] (CPath proof), tail (CPath proof))
                       else (oldRoot, CPath proof) in
  climb2_messages (seed, seed)
    (zip (rev (default [] (descendConsistency (Old proof) (New proof)))) path).

Lemma VerifyInclusion_complete (entries : list (list byte)) (index size : Z)
  (Hs : sized entries) (Hi : 0 <= index < size) (Hn : size <= len entries) :
  exists entry proof root,
    entries !! Z.to_nat index = Some entry /\
    ProveInclusion (treeOf entries) index size = Ok proof /\
    Root (treeOf entries) size = Ok root /\
    VerifyInclusion proof entry root = Ok tt.
Proof.
  set (ls := take (Z.to_nat size) (map HashLeaf entries)).
  assert (len ls = size) as Hls by (unfold ls; rewrite length_take, length_map; lia).
  assert (sized ls) as Hsls by (unfold sized in *; lia).
  unfold sized in Hs.
  destruct (descend_total index size) as (sides & Hd & _); [unfold fits; lia..|].
  destruct (inclusionPath_climbs ls Hsls 64 index sides) as (Hlen & leaf & Hleaf & Hf);
    [lia|rewrite Hls; exact Hd|].
  unfold ls in Hleaf. rewrite lookup_take_lt in Hleaf by lia.
  apply map_lookup_Some_1 in Hleaf as (entry & He & ->).
  exists entry, (mkInclusionProof index size (inclusionPath ls index)), (rootOf ls).
  unfold ProveInclusion, Root, TreeSize. rewrite leaves_treeOf, length_map.
  rewrite (proj2 (Z.ltb_ge _ _)), (proj2 (Z.leb_gt _ _)) by lia.
  split_and!; [done..|].
  unfold VerifyInclusion. simpl.
  rewrite (proj2 (Z.eqb_neq _ _)), (proj2 (Z.leb_gt _ _)), Hd by lia.
  rewrite Hlen, Z.eqb_refl. simpl. rewrite bool_decide_true by done. done.
Qed.

(** Every proof the log produces for an entry it holds is accepted by the
    verifier against the log's own head at that size: for any tree, index and
    size in range, [ProveInclusion] and [Root] succeed and
    [VerifyInclusion] accepts their results for the entry at that index. *)
Theorem inclusion_roundtrip (entries : list (list byte)) (index size : Z)
  (Hs : sized entries) (Hi : 0 <= index < size) (Hn : size <= len entries) :
  exists entry proof root,
    entries !! Z.to_nat index = Some entry /\
    ProveInclusion (treeOf entries) index size = Ok proof /\
    Root (treeOf entries) size = Ok root /\
    VerifyInclusion proof entry root = Ok tt.
Proof. by apply VerifyInclusion_complete. Qed.

Lemma VerifyInclusion_sound (entries : list (list byte)) (proof : InclusionProof) (entry : list byte)
  (Hs : sized entries) (Hi : fits 64 (Index proof)) (Hsize : Size proof = len entries)
  (Hp : Forall is_digest (Path proof))
  (Hcf : collision_free (tree_messages entries ++ inclusion_messages proof entry))
  (Hv : VerifyInclusion proof entry (rootOf (map HashLeaf entries)) = Ok tt) :
  entries !! Z.to_nat (Index proof) = Some entry.
Proof.
  unfold VerifyInclusion in Hv. unfold fits in Hi.
  set (ms := tree_messages entries ++ inclusion_messages proof entry) in *.
  assert (Forall (.∈ ms) ms) as Hms by (apply Forall_forall; done).
  unfold ms at 2, tree_messages, inclusion_messages in Hms.
  destruct (Size proof =? 0) eqn:E0; [done|]. destruct (Size proof <=? Index proof) eqn:E1; [done|].
  reflect_bools.
  destruct (descend (Index proof) (Size proof)) as [sides|] eqn:Hd; [|done].
  run_guards Hv. simpl in Hms. rewrite <- app_assoc in Hms. split_forall.
  assert (map HashLeaf entries !! Z.to_nat (Index proof) = Some (HashLeaf entry)) as Hl.
  { apply (climb_sound ms _ Hcf (sized_map _ _ Hs) 64 _ sides (Path proof));
      auto using HashLeaf_digests; [apply sha256_digest|..].
    - rewrite length_map. lia.
    - rewrite length_map, <- Hsize. exact Hd.
    - lia. }
  apply map_lookup_Some_1 in Hl as (e & He & Hh).
  rewrite He. f_equal. apply Hcf in Hh; [by injection Hh|done|].
  apply list_elem_of_lookup_2 in He.
  unfold ms, tree_messages. rewrite !elem_of_app. left. left.
  by apply (elem_of_map_2 leaf_message).
Qed.

(** An accepted inclusion proof is true: if the verifier accepts [entry]
    at [Index proof] against the head of a log over [entries], then [entry]
    is the log's entry at that index, unless SHA-256 collided on two of the
    messages hashed by the log and the verifier. *)
Theorem inclusion_sound (entries : list (list byte)) (proof : InclusionProof) (entry : list byte)
  (Hs : sized entries) (Hi : fits 64 (Index proof)) (Hsize : Size proof = len entries)
  (Hp : Forall is_digest (Path proof))
  (Hcf : collision_free (tree_messages entries ++ inclusion_messages proof entry))
  (Hv : VerifyInclusion proof entry (rootOf (map HashLeaf entries)) = Ok tt) :
  entries !! Z.to_nat (Index proof) = Some entry.
Proof. by apply VerifyInclusion_sound. Qed.

(** What the consistency verifier's climb shows about the entries. *)
Lemma climb2_prefix ms olds news sides path seed :
  collision_free ms -> sized news -> Forall is_digest path -> is_digest seed ->
  Forall (.∈ ms) (map leaf_message olds) -> Forall (.∈ ms) (map leaf_message news) ->
  Forall (.∈ ms) (node_messages (map HashLeaf olds)) ->
  Forall (.∈ ms) (node_messages (map HashLeaf news)) ->
  Forall (.∈ ms) (climb2_messages (seed, seed) (zip (rev sides) path)) ->
  1 <= len olds <= len news -> length path = length sides ->
  descendConsistency (len olds) (len news) = Some sides ->
  fold_left climb2 (zip (rev sides) path) (seed, seed) =
    (rootOf (map HashLeaf olds), rootOf (map HashLeaf news)) ->
  olds `prefix_of` news.
Proof.
  intros Hcf Hs Hdp Hds Hlo Hln Hno Hnn Hc Ho Hlen Hd Hf.
  assert (map HashLeaf olds = take (Z.to_nat (len olds)) (map HashLeaf news)) as Hm.
  { apply (climb2_sound ms _ Hcf (sized_map _ _ Hs) 64 (len olds) sides path seed);
      rewrite ?length_map; [auto using HashLeaf_digests..|exact Hd|auto|auto]. }
  rewrite firstn_map in Hm. apply (HashLeaf_inj_on ms) in Hm; [|done|done|].
  - rewrite Hm. apply prefix_take.
  - rewrite <- firstn_map. by apply Forall_take.
Qed.

Lemma VerifyConsistency_complete (entries : list (list byte)) (old new : Z)
  (Hs : sized entries) (Ho : 0 <= old <= new) (Hn : new <= len entries) :
  exists proof oldRoot newRoot,
    ProveConsistency (treeOf entries) old new = Ok proof /\
    Root (treeOf entries) old = Ok oldRoot /\ Root (treeOf entries) new = Ok newRoot /\
    VerifyConsistency proof oldRoot newRoot = Ok tt.
Proof.
  set (ls := take (Z.to_nat new) (map HashLeaf entries)).
  assert (len ls = new) as Hls by (unfold ls; rewrite length_take, length_map; lia).
  assert (sized ls) as Hsls by (unfold sized in *; lia). unfold sized in Hs.
  assert (take (Z.to_nat old) ls = take (Z.to_nat old) (map HashLeaf entries)) as Htk.
  { unfold ls. rewrite take_take. f_equal. lia. }
  unfold ProveConsistency, Root, TreeSize. rewrite leaves_treeOf, length_map. fold ls.
  rewrite !(proj2 (Z.ltb_ge _ _)) by lia. simpl. rewrite <- Htk.
  destruct (old =? 0) eqn:E0; reflect_bools.
  { subst old. eexists _, _, _. split_and!; [done..|]. unfold VerifyConsistency. simpl.
    rewrite (proj2 (Z.ltb_ge _ _)) by lia. by rewrite bool_decide_true by done. }
  eexists _, _, _. split_and!; [done..|]. unfold VerifyConsistency. simpl.
  rewrite (proj2 (Z.ltb_ge _ _)), (proj2 (Z.eqb_neq _ _)) by lia.
  destruct (old =? new) eqn:E1; reflect_bools.
  { subst old. rewrite <- Hls, consistencyPath_whole, Nat2Z.id, firstn_all by lia. simpl.
    by rewrite bool_decide_true by done. }
  destruct (descendConsistency_total old new) as (sides & Hd & _); [lia|unfold fits; lia|].
  rewrite Hd.
  destruct (consistencyPath_climbs ls Hsls 64 old sides true)
    as (seed & rest & -> & Hlen & Hseed & Hf); [lia|rewrite Hls; exact Hd|].
  rewrite <- (straight_iff_pow2 64 old new sides); [|lia|lia|exact Hd].
  destruct (straight sides) eqn:Est; cbn [andb negb app hd tail].
  - rewrite Hlen, Z.eqb_refl. simpl. rewrite <- (Hseed eq_refl), Hf.
    rewrite (Hseed eq_refl). by rewrite !bool_decide_true by done.
  - rewrite (proj2 (Z.eqb_eq _ _)) by (simpl length; lia). cbn [negb].
    rewrite Hf. by rewrite !bool_decide_true by done.
Qed.

(** Every consistency proof the log produces between two of its heads is
    accepted by the verifier against those heads. *)
Theorem consistency_roundtrip (entries : list (list byte)) (old new : Z)
  (Hs : sized entries) (Ho : 0 <= old <= new) (Hn : new <= len entries) :
  exists proof oldRoot newRoot,
    ProveConsistency (treeOf entries) old new = Ok proof /\
    Root (treeOf entries) old = Ok oldRoot /\ Root (treeOf entries) new = Ok newRoot /\
    VerifyConsistency proof oldRoot newRoot = Ok tt.
Proof. by apply VerifyConsistency_complete. Qed.

Lemma VerifyConsistency_sound (olds news : list (list byte)) (proof : ConsistencyProof)
  (Hs : sized news) (Ho : Old proof = len olds) (Hn : New proof = len news)
  (Hp : Forall is_digest (CPath proof))
  (Hcf : collision_free (tree_messages olds ++ tree_messages news ++
                         consistency_messages proof (rootOf (map HashLeaf olds))))
  (Hv : VerifyConsistency proof (rootOf (map HashLeaf olds)) (rootOf (map HashLeaf news)) = Ok tt) :
  olds `prefix_of` news.
Proof.
  unfold VerifyConsistency in Hv.
  set (ms := tree_messages olds ++ tree_messages news ++ _) in *.
  assert (Forall (.∈ ms) ms) as Hms by (apply Forall_forall; done).
  unfold ms at 2, tree_messages, consistency_messages in Hms.
  destruct (New proof <? Old proof) eqn:Elt; [done|]. reflect_bools.
  destruct (Old proof =? 0) eqn:E0; reflect_bools.
  { destruct olds; [apply prefix_nil|simpl in *; lia]. }
  rewrite <- !app_assoc in Hms.
  assert (sized olds) as Hso by (unfold sized in *; lia).
  destruct (Old proof =? New proof) eqn:E1; reflect_bools.
  { run_guards Hv. split_forall.
    assert (map HashLeaf olds = map HashLeaf news) as Hm.
    { apply (rootOf_inj ms); eauto using HashLeaf_digests, sized_map.
      rewrite !length_map. lia. }
    apply (HashLeaf_inj_on ms) in Hm; [|done..]. by subst. }
  destruct (descendConsistency (Old proof) (New proof)) as [sides|] eqn:Hd; [|done].
  simpl in Hms.
  destruct (negb (isPowerOfTwo (Old proof))) eqn:Eseed; simpl in Hms;
    run_guards Hv; split_forall.
  - destruct (CPath proof) as [|seed path] eqn:Ep; cbn [hd tail length] in *; [lia|]. split_forall.
    apply (climb2_prefix ms olds news sides path seed); auto; [lia|lia|rewrite <- Ho, <- Hn; exact Hd|congruence].
  - apply (climb2_prefix ms olds news sides (CPath proof) (rootOf (map HashLeaf olds)));
      auto using rootOf_digest, HashLeaf_digests, sized_map;
      [lia|lia|rewrite <- Ho, <- Hn; exact Hd|congruence].
Qed.

(** C24: an accepted consistency proof is true: if the verifier accepts a proof
    between the heads of two logs, over [olds] and over [news], then [olds] is
    a prefix of [news]: the log appended and did not rewrite, unless SHA-256
    collided on two of the messages hashed. *)
Theorem consistency_sound (olds news : list (list byte)) (proof : ConsistencyProof)
  (Hs : sized news) (Ho : Old proof = len olds) (Hn : New proof = len news)
  (Hp : Forall is_digest (CPath proof))
  (Hcf : collision_free (tree_messages olds ++ tree_messages news ++
                         consistency_messages proof (rootOf (map HashLeaf olds))))
  (Hv : VerifyConsistency proof (rootOf (map HashLeaf olds)) (rootOf (map HashLeaf news)) = Ok tt) :
  olds `prefix_of` news.
Proof. by apply (VerifyConsistency_sound olds news proof). Qed.

(** C38: the verifiers do bounded work on any input: for all 64-bit indices and
    sizes, including the largest, the descent of either verifier ends within
    64 iterations, so neither verifier spins on a size an attacker chose. *)
Theorem verifiers_terminate (iproof : InclusionProof) (cproof : ConsistencyProof)
  (entry root oldRoot newRoot : list byte)
  (Hi : fits 64 (Index iproof)) (Hs : fits 64 (Size iproof))
  (Ho : fits 64 (Old cproof)) (Hn : fits 64 (New cproof)) :
  (exists sides, descend (Index iproof) (Size iproof) = Some sides /\ (length sides <= 64)%nat) /\
  VerifyInclusion iproof entry root <> Err ErrOutOfFuel /\
  (1 <= Old cproof <= New cproof -> exists sides,
     descendConsistency (Old cproof) (New cproof) = Some sides /\ (length sides <= 64)%nat) /\
  VerifyConsistency cproof oldRoot newRoot <> Err ErrOutOfFuel.
Proof.
  unfold fits in *. split_and!; [by apply descend_total| | |].
  - unfold VerifyInclusion. destruct (descend_total (Index iproof) (Size iproof)) as (sides & -> & _);
      [done..|]. by repeat case_goal.
  - intros. by apply descendConsistency_total.
  - unfold VerifyConsistency.
    destruct (New cproof <? Old cproof) eqn:E1; [done|].
    destruct (Old cproof =? 0) eqn:E2; [by repeat case_goal|]. reflect_bools.
    destruct (descendConsistency_total (Old cproof) (New cproof)) as (sides & -> & _);
      [lia|unfold fits; lia|]. by repeat case_goal.
Qed.
End theorems.

(** ** Concrete instances *)

(** A log of five entries, hashed with SHA-256. *)
Definition sample_entries : list (list byte) := [[x61]; [x62]; [x63]; [x64; x64]; []].

Lemma inclusion_roundtrip_witness :
  exists entry proof root,
    sample_entries !! 2%nat = Some entry /\
    ProveInclusion (treeOf sample_entries) 2 5 = Ok proof /\
    Root (treeOf sample_entries) 5 = Ok root /\
    VerifyInclusion proof entry root = Ok tt.
Proof. apply (inclusion_roundtrip sample_entries 2 5); vm_compute; intuition congruence. Defined.

Definition sample_inclusion : InclusionProof :=
  mkInclusionProof 2 3 (inclusionPath (map HashLeaf (take 3 sample_entries)) 2).

Lemma inclusion_sound_witness : take 3 sample_entries !! 2%nat = Some [x63].
Proof.
  apply (inclusion_sound (take 3 sample_entries) sample_inclusion [x63]).
  - vm_compute. reflexivity.
  - vm_compute. intuition congruence.
  - reflexivity.
  - apply all_digests. vm_compute. reflexivity.
  - apply collision_freeb_ok. vm_compute. reflexivity.
  - vm_compute. reflexivity.
Defined.

Lemma consistency_roundtrip_witness :
  exists proof oldRoot newRoot,
    ProveConsistency (treeOf sample_entries) 3 5 = Ok proof /\
    Root (treeOf sample_entries) 3 = Ok oldRoot /\ Root (treeOf sample_entries) 5 = Ok newRoot /\
    VerifyConsistency proof oldRoot newRoot = Ok tt.
Proof. apply (consistency_roundtrip sample_entries 3 5); vm_compute; intuition congruence. Defined.

Definition sample_consistency : ConsistencyProof :=
  mkConsistencyProof 2 3 (consistencyPath (map HashLeaf (take 3 sample_entries)) 2 true).

Lemma consistency_sound_witness : take 2 sample_entries `prefix_of` take 3 sample_entries.
Proof.
  apply (consistency_sound (take 2 sample_entries) (take 3 sample_entries) sample_consistency).
  - vm_compute. reflexivity.
  - reflexivity.
  - reflexivity.
  - apply all_digests. vm_compute. reflexivity.
  - apply collision_freeb_ok. vm_compute. reflexivity.
  - vm_compute. reflexivity.
Defined.

(** The largest size a proof can name. *)
Lemma verifiers_terminate_witness :
  VerifyInclusion (mkInclusionProof 0 (2 ^ 64 - 1) []) [] [] <> Err ErrOutOfFuel /\
  VerifyConsistency (mkConsistencyProof 1 (2 ^ 64 - 1) []) [] [] <> Err ErrOutOfFuel.
Proof.
  destruct (verifiers_terminate (mkInclusionProof 0 (2 ^ 64 - 1) [])
    (mkConsistencyProof 1 (2 ^ 64 - 1) []) [] [] [] []) as (_ & H1 & _ & H2);
    [vm_compute; intuition congruence..|].
  split; assumption.
Defined.
