(* ===== verification/Checkpoint.v ===== *)
(** Signed log heads ([sdk/.../site/transparency/checkpoint.go]) and the
    interfaces to what the code takes from elsewhere: Ed25519, RFC 3339 times
    and JSON. *)

From stdpp Require Import base list list_numbers strings.
From Stdlib Require Import ZArith Lia Strings.Byte.
From S2P Require Import Prelude Bytes Hash Codec Merkle.

(** ** Interfaces *)

(** [crypto/ed25519]: keys and signatures are byte strings of fixed sizes, and
    a signature verifies under the public half of its key. *)
Class SignatureScheme := {
  public : list byte -> list byte;
  sign : list byte -> list byte -> list byte;
  verify : list byte -> list byte -> list byte -> bool;
  public_length : forall private, length private = 64%nat -> length (public private) = 32%nat;
  sign_length : forall private message, length (sign private message) = 64%nat;
  sign_verify : forall private message, length private = 64%nat ->
    verify (public private) message (sign private message) = true;
}.

(** Instants are nanoseconds since the Unix epoch. *)
Definition second : Z := 1000000000.
Definition truncate_second (t : Z) : Z := t / second * second.

(** The instants RFC 3339 can write: the years 0000 to 9999. *)
Definition writable (t : Z) : Prop := -62167219200 * second <= t < 253402300800 * second.

(** [Format(time.RFC3339)] of a UTC time, and [time.Parse(time.RFC3339, _)]. *)
Class Calendar := {
  format_time : Z -> list byte;
  parse_time : list byte -> option Z;
  parse_format : forall t, writable t -> t mod second = 0 -> parse_time (format_time t) = Some t;
}.

(** ** Definitions *)

Definition CheckpointVersion : list byte := String.list_byte_of_string "nomad-site-log-checkpoint-v1".
Definition checkpointDomain : list byte :=
  String.list_byte_of_string "nomad-site-log-checkpoint-signature-v1".
Definition maxCheckpointBytes : Z := 8192.
Definition maxOriginBytes : Z := 255.

Record Cosignature := mkCosignature {
  CWitness : list byte;
  CSignature : list byte;
}.

Record Checkpoint := mkCheckpoint {
  Version : list byte;
  Origin : list byte;
  HeadSize : Z;
  HeadRoot : list byte;       (* hexadecimal text *)
  Time : list byte;           (* RFC 3339 text *)
  Signature : list byte;      (* base64 text *)
  Cosignatures : list Cosignature;
}.

Record SignedCheckpoint := mkSigned {
  SOrigin : list byte;
  SSize : Z;
  SRoot : list byte;
  STime : Z;
  Encoded : list byte;
}.

(** [json.Marshal] of a checkpoint. *)
Class CheckpointJSON := { marshal : Checkpoint -> option (list byte) }.

Inductive checkpoint_error :=
| ErrNoOrigin
| ErrOriginLength
| ErrLogKey                  (* not an Ed25519 key *)
| ErrTree (e : tree_error)
| ErrVersion
| ErrWrongOrigin
| ErrRootEncoding
| ErrTimeEncoding
| ErrSignatureEncoding
| ErrSignature
| ErrMarshal
| ErrCheckpointLength.

Definition checkpointSigningMessage (origin : list byte) (size : Z) (root when_ : list byte) : list byte :=
  let out := appendString [] checkpointDomain in
  let out := appendString out origin in
  let out := appendUint64 out size in
  let out := out ++ root in
  appendString out when_.

Definition CheckpointSigningMessage := checkpointSigningMessage.

Definition decodeRoot (encoded : list byte) : result checkpoint_error (list byte) :=
  match canonical_hex encoded 32 with
  | Some root => Ok root
  | None => Err ErrRootEncoding
  end.

Section operations.
Context `{HashFunction} `{SignatureScheme} `{Calendar} `{CheckpointJSON}.

Definition validateCanonicalTime (encoded : list byte) : result checkpoint_error Z :=
  match parse_time encoded with
  | None => Err ErrTimeEncoding
  | Some parsed => if bool_decide (format_time parsed = encoded) then Ok parsed else Err ErrTimeEncoding
  end.

Definition EncodeCheckpoint (checkpoint : Checkpoint) : result checkpoint_error (list byte) :=
  match marshal checkpoint with
  | None => Err ErrMarshal
  | Some encoded => if maxCheckpointBytes <? len encoded then Err ErrCheckpointLength else Ok encoded
  end.

Definition SignCheckpoint (origin : list byte) (tree : Tree) (size : Z) (when_ : Z)
  (private : list byte) : result checkpoint_error Checkpoint :=
  if bool_decide (origin = []) then Err ErrNoOrigin
  else if maxOriginBytes <? len origin then Err ErrOriginLength
  else if negb (Nat.eqb (length private) 64) then Err ErrLogKey
  else
    root ← wrap ErrTree (Root tree size);
    let stamp := format_time (truncate_second when_) in
    let signature := sign private (checkpointSigningMessage origin size root stamp) in
    Ok (mkCheckpoint CheckpointVersion origin size (hex_encode root) stamp (b64_encode signature) []).

(** The time is parsed a second time after the signature check, with the same
    result; both uses are the one value here. *)
Definition VerifyCheckpoint (checkpoint : Checkpoint) (expectedOrigin logKey : list byte)
  : result checkpoint_error SignedCheckpoint :=
  if negb (bool_decide (Version checkpoint = CheckpointVersion)) then Err ErrVersion
  else if bool_decide (expectedOrigin = []) then Err ErrNoOrigin
  else if negb (bool_decide (Origin checkpoint = expectedOrigin)) then Err ErrWrongOrigin
  else if negb (Nat.eqb (length logKey) 32) then Err ErrLogKey
  else
    root ← decodeRoot (HeadRoot checkpoint);
    time ← validateCanonicalTime (Time checkpoint);
    match canonical_base64 (Signature checkpoint) 64 with
    | None => Err ErrSignatureEncoding
    | Some signature =>
        let message := checkpointSigningMessage (Origin checkpoint) (HeadSize checkpoint) root
                         (Time checkpoint) in
        if negb (verify logKey message signature) then Err ErrSignature
        else
          encoded ← EncodeCheckpoint checkpoint;
          Ok (mkSigned (Origin checkpoint) (HeadSize checkpoint) root time encoded)
    end.
End operations.

(** ** Signing messages *)

(** A digest field is not length-prefixed; its size is fixed. *)
Lemma digest_split r1 r2 s1 s2 : is_digest r1 -> is_digest r2 -> r1 ++ s1 = r2 ++ s2 ->
  r1 = r2 /\ s1 = s2.
Proof. unfold is_digest. intros H1 H2. apply app_eq_length_inj. congruence. Qed.

Lemma appendString_inj p v w : addressable v -> addressable w ->
  appendString p v = appendString p w -> v = w.
Proof.
  intros Hv Hw E. apply (appendString_split p v w [] []); [done..|]. by rewrite !app_nil_r.
Qed.

Lemma signing_message_fields o n r t :
  checkpointSigningMessage o n r t =
  appendString (appendString [] checkpointDomain) o ++ appendUint64 [] n ++ r ++ appendString [] t.
Proof.
  unfold checkpointSigningMessage. cbv zeta. unfold appendString, appendUint64.
  by rewrite <- !app_assoc.
Qed.

(** Every field of a head is determined by its signing message. *)
Lemma checkpointSigningMessage_inj o1 o2 n1 n2 r1 r2 t1 t2 :
  addressable o1 -> addressable o2 -> fits 64 n1 -> fits 64 n2 -> is_digest r1 -> is_digest r2 ->
  addressable t1 -> addressable t2 ->
  checkpointSigningMessage o1 n1 r1 t1 = checkpointSigningMessage o2 n2 r2 t2 ->
  o1 = o2 /\ n1 = n2 /\ r1 = r2 /\ t1 = t2.
Proof.
  intros Ho1 Ho2 Hn1 Hn2 Hr1 Hr2 Ht1 Ht2 E. rewrite !signing_message_fields in E.
  apply appendString_split in E as [-> E]; [|done..].
  apply (appendUint64_split []) in E as [-> E]; [|done..].
  apply digest_split in E as [-> E]; [|done..].
  split_and!; [done..|]. by apply (appendString_inj []).
Qed.

(** ** Signing and verifying *)

Section properties.
Context `{HashFunction} `{SignatureScheme} `{Calendar} `{CheckpointJSON}.

Lemma Root_digest tree size root : sized (leaves tree) -> Forall is_digest (leaves tree) -> Root tree size = Ok root ->
  is_digest root.
Proof.
  unfold Root. intros Hsz Hl E. run_guards E.
  apply rootOf_digest; [by apply sized_take|by apply Forall_take].
Qed.

Lemma truncate_second_spec t : writable t ->
  writable (truncate_second t) /\ truncate_second t mod second = 0.
Proof.
  unfold writable, truncate_second, second. intros Ht. split; [|apply Z.mod_mul; lia].
  Z.to_euclidean_division_equations. lia.
Qed.

Lemma Verify_Sign (origin private : list byte) (tree : Tree) (size now : Z)
  (checkpoint : Checkpoint) (encoded : list byte)
  (Hsz : sized (leaves tree)) (Hl : Forall is_digest (leaves tree)) (Hnow : writable now)
  (Hs : SignCheckpoint origin tree size now private = Ok checkpoint)
  (He : EncodeCheckpoint checkpoint = Ok encoded) :
  exists root, Root tree size = Ok root /\
    VerifyCheckpoint checkpoint origin (public private) =
      Ok (mkSigned origin size root (truncate_second now) encoded) /\
    forall other, other <> [] -> other <> origin ->
      VerifyCheckpoint checkpoint other (public private) = Err ErrWrongOrigin.
Proof.
  unfold SignCheckpoint in Hs. case_bool_decide as Ho; [done|].
  destruct (maxOriginBytes <? len origin); [done|].
  destruct (negb (Nat.eqb (length private) 64)) eqn:Ek; [done|]. reflect_bools. apply Nat.eqb_eq in Ek.
  destruct (Root tree size) as [root|] eqn:Er; [|done]. cbn [wrap mbind result_bind] in Hs.
  apply (inj Ok) in Hs. exists root. split; [done|].
  pose proof (Root_digest tree size root Hsz Hl Er) as Hd. unfold is_digest in Hd.
  destruct (truncate_second_spec now Hnow) as [Hw Hz].
  assert (Version checkpoint = CheckpointVersion /\ Origin checkpoint = origin) as [Hv Hor] by (by subst).
  split.
  - unfold VerifyCheckpoint. rewrite Hv, Hor, (bool_decide_true (CheckpointVersion = _)), (bool_decide_false (origin = [])),
      (bool_decide_true (origin = origin)) by done. cbn [negb].
    rewrite (public_length private Ek). cbn [Nat.eqb negb].
    subst checkpoint. cbn [HeadRoot Time Signature Origin HeadSize] in *.
    unfold decodeRoot. rewrite canonical_hex_encode by done. cbn [mbind result_bind].
    unfold validateCanonicalTime. rewrite parse_format by done.
    rewrite (bool_decide_true (format_time _ = _)) by done. cbn [mbind result_bind].
    rewrite canonical_base64_encode by apply sign_length. rewrite sign_verify by done. cbn [negb]. rewrite He. reflexivity.
  - intros other Hn Hne. unfold VerifyCheckpoint.
    rewrite Hv, Hor, (bool_decide_true (CheckpointVersion = _)), !bool_decide_false by done. done.
Qed.

(** A head the log signed verifies under the log's public key and no other
    origin: the verifier gets back the origin, the size, the root of the tree
    at that size and the signing time to the second. *)
Theorem checkpoint_roundtrip (origin private : list byte) (tree : Tree) (size now : Z)
  (checkpoint : Checkpoint) (encoded : list byte)
  (Hsz : sized (leaves tree)) (Hl : Forall is_digest (leaves tree)) (Hnow : writable now)
  (Hs : SignCheckpoint origin tree size now private = Ok checkpoint)
  (He : EncodeCheckpoint checkpoint = Ok encoded) :
  exists root, Root tree size = Ok root /\
    VerifyCheckpoint checkpoint origin (public private) =
      Ok (mkSigned origin size root (truncate_second now) encoded) /\
    forall other, other <> [] -> other <> origin ->
      VerifyCheckpoint checkpoint other (public private) = Err ErrWrongOrigin.
Proof. by apply Verify_Sign. Qed.

(** What a verified head guarantees. *)
Lemma VerifyCheckpoint_ok c o k v : VerifyCheckpoint c o k = Ok v ->
  Origin c = o /\ SOrigin v = o /\ SSize v = HeadSize c /\ is_digest (SRoot v) /\
  HeadRoot c = hex_encode (SRoot v) /\
  exists signature, Signature c = b64_encode signature /\
    verify k (checkpointSigningMessage o (SSize v) (SRoot v) (Time c)) signature = true.
Proof.
  unfold VerifyCheckpoint, decodeRoot. intros E.
  destruct (negb _) in E; [done|]. destruct (bool_decide (o = [])) in E; [done|].
  destruct (negb (bool_decide (Origin c = o))) eqn:Eo; [done|]. reflect_bools.
  destruct (negb (Nat.eqb _ _)) in E; [done|].
  destruct (canonical_hex (HeadRoot c) 32) as [root|] eqn:Er; [|done]. cbn [mbind result_bind] in E.
  destruct (validateCanonicalTime (Time c)) as [t|]; [|done]. cbn [mbind result_bind] in E.
  destruct (canonical_base64 (Signature c) 64) as [sg|] eqn:Es; [|done].
  destruct (negb (verify _ _ _)) eqn:Ev; [done|]. reflect_bools.
  destruct (EncodeCheckpoint c) as [enc|]; [|done]. cbn [mbind result_bind] in E.
  apply (inj Ok) in E. subst v. simpl.
  apply canonical_hex_unique in Er as [Hl Hr]. apply canonical_base64_unique in Es as [_ Hs].
  subst o. split_and!; try done. by exists sg.
Qed.
End properties.

(** ** Example instances *)

(** Small instances of the interfaces, on which examples are evaluated.  The
    signature is the key and the message cut to size: it satisfies the laws of
    the interface and makes no claim to security. *)
Definition example_signature (key message : list byte) : list byte :=
  take 64 (key ++ message ++ replicate 64 x00).

Lemma length_example_signature key message : length (example_signature key message) = 64%nat.
Proof. unfold example_signature. rewrite length_take, !length_app, length_replicate. lia. Qed.

Definition example_signatures : SignatureScheme.
Proof.
  refine {| public := take 32;
            sign := fun private => example_signature (take 32 private);
            verify := fun key message signature =>
              bool_decide (signature = example_signature key message) |}.
  - intros k Hk. rewrite length_take. lia.
  - intros. apply length_example_signature.
  - intros. by apply bool_decide_true.
Defined.

Definition example_calendar : Calendar.
Proof.
  refine {| format_time := fun t => be 8 (t / second + 2 ^ 62);
            parse_time := fun l => if Nat.eqb (length l) 8 then Some ((be_val l - 2 ^ 62) * second)
                                   else None |}.
  intros t Ht Hz. rewrite length_be, Nat.eqb_refl. f_equal. unfold writable, second in *.
  rewrite be_val_be_fits by (simpl; Z.to_euclidean_division_equations; lia).
  Z.to_euclidean_division_equations; lia.
Defined.

Definition example_json : CheckpointJSON := {| marshal := fun c => Some (Origin c) |}.

Section witness.
#[local] Existing Instance example_hash.
#[local] Existing Instance example_signatures.
#[local] Existing Instance example_calendar.
#[local] Existing Instance example_json.

Definition example_log_key : list byte := replicate 64 x07.
Definition example_tree : Tree := mkTree [replicate 32 x01; replicate 32 x02].

Lemma checkpoint_roundtrip_witness : exists checkpoint,
  SignCheckpoint [x6c] example_tree 2 5000000000 example_log_key = Ok checkpoint /\
  VerifyCheckpoint checkpoint [x6c] (public example_log_key) =
    Ok (mkSigned [x6c] 2 (rootOf (leaves example_tree)) 5000000000 [x6c]).
Proof.
  eexists. split; [reflexivity|].
  edestruct (checkpoint_roundtrip [x6c] example_log_key example_tree 2 5000000000) as (root & Hr & Hv & _).
  - reflexivity.
  - apply all_digests. reflexivity.
  - split; [apply Z.leb_le|apply Z.ltb_lt]; reflexivity.
  - reflexivity.
  - reflexivity.
  - apply (inj Ok) in Hr. rewrite <- Hr in Hv. exact Hv.
Defined.
End witness.
