(* ===== verification/Update.v ===== *)
(** Releases of the browser ([browser/update/update.go] and the program
    [nomad-browser-verify]): versions, manifests that two people approve, the
    record of what is installed, and the check of the installer. *)

From stdpp Require Import base list list_numbers strings sets sorting.
From Stdlib Require Import ZArith Lia Strings.Byte.
From S2P Require Import Prelude Bytes Hash Codec CanonicalJSON Endpoint Checkpoint.

Definition ReleaseVersion : list byte := String.list_byte_of_string "nomad-browser-release-v2".
Definition MinimumApprovals : Z := 2.
Definition signingLabel : list byte := String.list_byte_of_string "nomad-browser-release-manifest-v1".
Definition MaximumManifestBytes : Z := 65536.

(** ** Versions *)

Record Version := mkVersion {
  Major : Z;
  Minor : Z;
  Patch : Z;
  Pre : list byte;
}.

#[export] Instance Version_eq_dec : EqDecision Version.
Proof. solve_decision. Defined.

Inductive update_error :=
| ErrVersionFields
| ErrVersionComponent
| ErrVersionNumber
| ErrVersionSpace
| ErrManifestSize
| ErrTooFewKeys
| ErrKeyLength
| ErrKeysRepeat
| ErrManifestText
| ErrManifestVersion
| ErrRelease (e : update_error)
| ErrArtifactDigest
| ErrArtifactSize
| ErrManifestFields
| ErrArtifactName
| ErrTooManyApprovals
| ErrApproverKey
| ErrApprovalSignature
| ErrUntrustedApprover
| ErrApproval
| ErrSameApprover
| ErrTooFewApprovals
| ErrApproverPrivate
| ErrMarkRead
| ErrMarkText
| ErrMarkIncomplete
| ErrMarkVersion
| ErrChannel
| ErrOlder
| ErrEquivocation
| ErrSliceBounds
| ErrInstalled
| ErrMarkWrite
| ErrArtifactRead
| ErrArtifactLength
| ErrArtifactMismatch
| ErrVerifyPaths
| ErrManifestRead.

Definition dash : byte := x2d.

(** [strings.Cut(s, "-")], without whether the separator was found. *)
Fixpoint cut (c : byte) (s : list byte) : list byte * list byte :=
  match s with
  | [] => ([], [])
  | b :: s => if bool_decide (b = c) then ([], s) else let '(before, after) := cut c s in (b :: before, after)
  end.

Definition parse_component (field : list byte) : result update_error Z :=
  if bool_decide (field = []) || ((1 <? len field) && bool_decide (head field = Some x30)) then Err ErrVersionComponent
  else match ParseUint 32 field with Some value => Ok value | None => Err ErrVersionNumber end.

Definition ParseVersion (text : list byte) : result update_error Version :=
  let '(core, pre) := cut dash text in
  match split_on dot core with
  | [a; b; c] =>
      major ← parse_component a;
      minor ← parse_component b;
      patch ← parse_component c;
      if existsb (fun b => bool_decide (b ∈ [x20; x09; x0a])) pre then Err ErrVersionSpace
      else Ok (mkVersion major minor patch pre)
  | _ => Err ErrVersionFields
  end.

Definition VersionString (v : Version) : list byte :=
  let core := FormatUint (Major v) ++ dot :: FormatUint (Minor v) ++ dot :: FormatUint (Patch v) in
  if bool_decide (Pre v = []) then core else core ++ dash :: Pre v.

(** Go's [<] on strings. *)
Definition string_less (a b : list byte) : bool := name_leb a b && negb (bool_decide (a = b)).

Definition Compare (v other : Version) : Z :=
  if negb (Major v =? Major other) then if Major v <? Major other then -1 else 1
  else if negb (Minor v =? Minor other) then if Minor v <? Minor other then -1 else 1
  else if negb (Patch v =? Patch other) then if Patch v <? Patch other then -1 else 1
  else if bool_decide (Pre v = Pre other) then 0
  else if bool_decide (Pre v = []) then 1
  else if bool_decide (Pre other = []) then -1
  else if string_less (Pre v) (Pre other) then -1
  else 1.

(** ** Manifests *)

Record ReleaseApproval := mkReleaseApproval {
  RAPublicKey : list byte;
  RASignature : list byte;
}.

Record ReleaseManifest := mkReleaseManifest {
  RMVersion : list byte;
  RMRelease : list byte;
  RMChannel : list byte;
  RMArtifactName : list byte;
  RMArtifactDigest : list byte;
  RMArtifactBytes : Z;
  RMApprovals : list ReleaseApproval;
}.

Record VerifiedRelease := mkVerifiedRelease {
  VRManifest : ReleaseManifest;
  VRRelease : Version;
  VRDigest : list byte;
  VRChannel : list byte;
  VRApprovers : list (list byte);
}.

(** What is installed. *)
Record ReleaseMark := mkReleaseMark {
  MarkVersion : list byte;
  MarkDigest : list byte;
  MarkChannel : list byte;
}.

Definition coerce_mark (w : ReleaseMark) : ReleaseMark :=
  mkReleaseMark (coerce_utf8 (MarkVersion w)) (coerce_utf8 (MarkDigest w)) (coerce_utf8 (MarkChannel w)).

(** [encoding/json] for both documents.  Reading back what was written gives the
    texts with invalid UTF-8 replaced, and no text read from JSON has any. *)
Class ReleaseJSON := {
  release_parse : list byte -> option ReleaseManifest;
  mark_text : ReleaseMark -> list byte;
  mark_parse : list byte -> option ReleaseMark;
  release_parse_typed : forall b m, release_parse b = Some m -> - 2 ^ 63 <= RMArtifactBytes m < 2 ^ 63 /\
    coerce_utf8 (RMRelease m) = RMRelease m /\ coerce_utf8 (RMChannel m) = RMChannel m;
  mark_roundtrip : forall w, mark_parse (mark_text w) = Some (coerce_mark w);
}.

Section operations.
Context `{HashFunction, SignatureScheme, ReleaseJSON}.

Definition release_field (field : list byte) : list byte := be 4 (u32 (len field)) ++ field.

Definition signed_fields (m : ReleaseManifest) : list byte :=
  signingLabel ++ release_field (RMVersion m) ++ release_field (RMRelease m) ++ release_field (RMChannel m) ++ release_field (RMArtifactName m) ++
  release_field (RMArtifactDigest m) ++ be 8 (u64 (RMArtifactBytes m)).

Definition releaseSigningMessage (m : ReleaseManifest) : list byte := sha256 (signed_fields m).

Definition set_approvals (m : ReleaseManifest) (approvals : list ReleaseApproval) : ReleaseManifest :=
  mkReleaseManifest (RMVersion m) (RMRelease m) (RMChannel m) (RMArtifactName m) (RMArtifactDigest m) (RMArtifactBytes m) approvals.

Definition Prepare (m : ReleaseManifest) : ReleaseManifest :=
  mkReleaseManifest ReleaseVersion (RMRelease m) (RMChannel m) (RMArtifactName m) (RMArtifactDigest m) (RMArtifactBytes m) [].

Definition ApproveRelease (m : ReleaseManifest) (key : list byte) : result update_error ReleaseManifest :=
  if negb (Nat.eqb (length key) 64) then Err ErrApproverPrivate
  else
    let signature := sign key (releaseSigningMessage (set_approvals m [])) in
    Ok (set_approvals m (RMApprovals m ++ [mkReleaseApproval (hex_encode (public key)) (hex_encode signature)])).

(** ** Verification *)

Fixpoint check_distinct (seen : list (list byte)) (keys : list (list byte)) : result update_error unit :=
  match keys with
  | [] => Ok tt
  | key :: keys =>
      if negb (Nat.eqb (length key) 32) then Err ErrKeyLength
      else if bool_decide (hex_encode key ∈ seen) then Err ErrKeysRepeat
      else check_distinct (hex_encode key :: seen) keys
  end.

Definition distinctApprovers (trusted : list (list byte)) : result update_error (list (list byte)) :=
  if len trusted <? MinimumApprovals then Err ErrTooFewKeys
  else _ ← check_distinct [] trusted; Ok trusted.

Definition matchTrusted (trusted : list (list byte)) (declared : list byte) : option (list byte) :=
  snd <$> list_find (eq declared) trusted.

(** The loop over the approvals: the texts of the keys counted so far. *)
Fixpoint count_approvals (approvers : list (list byte)) (message : list byte) (satisfied : list (list byte)) (approvals : list ReleaseApproval)
  : result update_error (list (list byte)) :=
  match approvals with
  | [] => Ok satisfied
  | approval :: approvals =>
      match hex_decode (RAPublicKey approval) with
      | None => Err ErrApproverKey
      | Some declared =>
          if negb (Nat.eqb (length declared) 32) then Err ErrApproverKey
          else match hex_decode (RASignature approval) with
          | None => Err ErrApprovalSignature
          | Some signature =>
              if negb (Nat.eqb (length signature) 64) then Err ErrApprovalSignature
              else match matchTrusted approvers declared with
              | None => Err ErrUntrustedApprover
              | Some trustedKey =>
                  if negb (verify trustedKey message signature) then Err ErrApproval
                  else if bool_decide (RAPublicKey approval ∈ satisfied) then Err ErrSameApprover
                  else count_approvals approvers message (RAPublicKey approval :: satisfied) approvals
              end
          end
      end
  end.

Definition is_path (name : list byte) : bool := existsb (fun b => bool_decide (b ∈ [x2f; x5c])) name || bool_decide (name = [x2e; x2e]).

Definition DecodeRelease (encoded : list byte) (trusted : list (list byte)) : result update_error VerifiedRelease :=
  if bool_decide (encoded = []) || (MaximumManifestBytes <? len encoded) then Err ErrManifestSize
  else
    approvers ← distinctApprovers trusted;
    match release_parse encoded with
    | None => Err ErrManifestText
    | Some m =>
        if negb (bool_decide (RMVersion m = ReleaseVersion)) then Err ErrManifestVersion
        else
          release ← wrap ErrRelease (ParseVersion (RMRelease m));
          match hex_decode (RMArtifactDigest m) with
          | None => Err ErrArtifactDigest
          | Some digest =>
              if negb (Nat.eqb (length digest) 32) then Err ErrArtifactDigest
              else if RMArtifactBytes m <=? 0 then Err ErrArtifactSize
              else if bool_decide (RMChannel m = []) || bool_decide (RMArtifactName m = []) then Err ErrManifestFields
              else if is_path (RMArtifactName m) then Err ErrArtifactName
              else if len approvers <? len (RMApprovals m) then Err ErrTooManyApprovals
              else
                satisfied ← count_approvals approvers (releaseSigningMessage m) [] (RMApprovals m);
                if len satisfied <? MinimumApprovals then Err ErrTooFewApprovals
                else Ok (mkVerifiedRelease m release digest (RMChannel m)
                           (filter (fun key => key ∈ satisfied) (map hex_encode approvers)))
          end
    end.

(** ** The record of what is installed *)

(** Whether the record can be read and replaced. *)
Record mark_io := mkMarkIO {
  mark_read : bool;
  mark_write : bool;
}.

Definition readReleaseMark (env : mark_io) (file : option (list byte)) : result update_error (option ReleaseMark) :=
  match file with
  | None => Ok None
  | Some encoded =>
      if negb (mark_read env) then Err ErrMarkRead
      else match mark_parse encoded with
      | None => Err ErrMarkText
      | Some w =>
          if bool_decide (MarkVersion w = []) || bool_decide (MarkDigest w = []) || bool_decide (MarkChannel w = [])
          then Err ErrMarkIncomplete else Ok (Some w)
      end
  end.

Definition mark_of (r : VerifiedRelease) : ReleaseMark := mkReleaseMark (VersionString (VRRelease r)) (hex_encode (VRDigest r)) (VRChannel r).

Definition writeReleaseMark (env : mark_io) (file : option (list byte)) (w : ReleaseMark) : option (list byte) * result update_error unit :=
  if mark_write env then (Some (mark_text w), Ok tt) else (file, Err ErrMarkWrite).

(** May the release replace what is installed?  Slicing the first sixteen bytes of
    a shorter digest panics. *)
Definition may_install (installed : option ReleaseMark) (r : VerifiedRelease) : result update_error unit :=
  match installed with
  | None => Ok tt
  | Some w =>
      if negb (bool_decide (MarkChannel w = VRChannel r)) then Err ErrChannel
      else
        current ← wrap (fun _ => ErrMarkVersion) (ParseVersion (MarkVersion w));
        if Compare (VRRelease r) current =? -1 then Err ErrOlder
        else if Compare (VRRelease r) current =? 0 then
          if negb (bool_decide (MarkDigest w = hex_encode (VRDigest r)))
          then if len (MarkDigest w) <? 16 then Err ErrSliceBounds else Err ErrEquivocation
          else Err ErrInstalled
        else Ok tt
  end.

Definition AcceptRelease (env : mark_io) (file : option (list byte)) (r : VerifiedRelease) : option (list byte) * result update_error unit :=
  match readReleaseMark env file with
  | Err e => (file, Err e)
  | Ok installed =>
      match may_install installed r with
      | Err e => (file, Err e)
      | Ok _ => writeReleaseMark env file (mark_of r)
      end
  end.

Definition InstalledVersion (env : mark_io) (file : option (list byte)) : result update_error (option Version) :=
  installed ← readReleaseMark env file;
  match installed with
  | None => Ok None
  | Some w => v ← wrap (fun _ => ErrMarkVersion) (ParseVersion (MarkVersion w)); Ok (Some v)
  end.

(** ** The installer *)

(** The file, if it can be opened and read. *)
Definition VerifyArtifact (artifact : option (list byte)) (r : VerifiedRelease) : result update_error unit :=
  match artifact with
  | None => Err ErrArtifactRead
  | Some content =>
      if negb (len content =? RMArtifactBytes (VRManifest r)) then Err ErrArtifactLength
      else if negb (bool_decide (sha256 content = VRDigest r)) then Err ErrArtifactMismatch
      else Ok tt
  end.

(** [nomad-browser-verify]: the release that was accepted. *)
Definition run_verify (env : mark_io) (paths dryRun : bool) (trusted : result update_error (list (list byte))) (manifest artifact file : option (list byte))
  : option (list byte) * result update_error VerifiedRelease :=
  let checked :=
    _ ← (if paths then Ok tt else Err ErrVerifyPaths);
    trusted ← trusted;
    encoded ← match manifest with Some encoded => Ok encoded | None => Err ErrManifestRead end;
    release ← DecodeRelease encoded trusted;
    _ ← VerifyArtifact artifact release;
    _ ← InstalledVersion env file;
    Ok release in
  match checked with
  | Err e => (file, Err e)
  | Ok release =>
      if dryRun then (file, Ok release)
      else match AcceptRelease env file release with
      | (file, Err e) => (file, Err e)
      | (file, Ok _) => (file, Ok release)
      end
  end.
End operations.

(** ** The order of versions *)

Definition pre_lt (a b : list byte) : Prop := a <> b /\ a <> [] /\ (b = [] \/ name_le a b).

(** Lexicographic, a final release after its pre-releases. *)
Definition version_lt (v w : Version) : Prop :=
  Major v < Major w \/ Major v = Major w /\
  (Minor v < Minor w \/ Minor v = Minor w /\
   (Patch v < Patch w \/ Patch v = Patch w /\ pre_lt (Pre v) (Pre w))).

Lemma name_le_antisym a b : name_le a b -> name_le b a -> a = b.
Proof.
  revert b. induction a as [|x a IH]; intros [|y b]; try done. rewrite !name_le_cons.
  intros [H1|[-> H1]] [H2|[E H2]]; [lia|subst; lia|lia|]. f_equal. by apply IH.
Qed.

Lemma pre_lt_trans a b c : pre_lt a b -> pre_lt b c -> pre_lt a c.
Proof.
  intros (Hab & Ha & [->|H1]) (Hbc & Hb & H2); [done|]. destruct H2 as [->|H2]; [split_and!; auto|].
  split_and!; [|done|right; by etrans]. intros <-. apply Hab. by apply name_le_antisym.
Qed.

Lemma pre_lt_total a b : a = b \/ pre_lt a b \/ pre_lt b a.
Proof.
  destruct (decide (a = b)) as [->|Hne]; [by left|right]. unfold pre_lt. destruct (decide (a = [])) as [->|Ha]; [right; split_and!; auto|].
  destruct (decide (b = [])) as [->|Hb]; [left; split_and!; auto|]. destruct (name_le_total a b); [left|right]; split_and!; auto.
Qed.

Lemma pre_lt_asym a b : pre_lt a b -> ~ pre_lt b a.
Proof. intros H1 H2. by destruct (pre_lt_trans _ _ _ H1 H2). Qed.

Lemma Compare_lt v w : Compare v w = -1 <-> version_lt v w.
Proof.
  unfold Compare, version_lt.
  destruct (Z.eqb_spec (Major v) (Major w)) as [E1|E1]; cbn [negb]; [|destruct (Z.ltb_spec (Major v) (Major w)); split; intros; (done || lia)].
  destruct (Z.eqb_spec (Minor v) (Minor w)) as [E2|E2]; cbn [negb]; [|destruct (Z.ltb_spec (Minor v) (Minor w)); split; intros; (done || lia)].
  destruct (Z.eqb_spec (Patch v) (Patch w)) as [E3|E3]; cbn [negb]; [|destruct (Z.ltb_spec (Patch v) (Patch w)); split; intros; (done || lia)].
  rewrite E1, E2, E3. transitivity (pre_lt (Pre v) (Pre w)); [|split; [auto 10|intuition lia]]. unfold pre_lt, string_less.
  case_bool_decide as Hp; [split; [done|by intros [? _]]|]. case_bool_decide as Hv; [split; [done|by intros (_ & ? & _)]|].
  case_bool_decide as Hw; [split; auto|]. cbn [negb]. rewrite andb_true_r. change (name_leb (Pre v) (Pre w) = true) with (name_le (Pre v) (Pre w)).
  destruct (name_leb (Pre v) (Pre w)) eqn:E; split; intros Hx; try done; [by split_and!; auto|]. destruct Hx as (_ & _ & [?|Hx]); [done|].
  unfold name_le in Hx. congruence.
Qed.

Lemma Compare_range v w : Compare v w = -1 \/ Compare v w = 0 \/ Compare v w = 1.
Proof. unfold Compare. repeat case_goal; auto. Qed.

Lemma Compare_eq v w : Compare v w = 0 <-> v = w.
Proof.
  split.
  - unfold Compare. destruct v as [a b c p], w as [a' b' c' p']. cbn [Major Minor Patch Pre]. repeat case_goal; try done. intros _. reflect_bools. by subst.
  - intros ->. unfold Compare. rewrite !Z.eqb_refl, bool_decide_true by done. done.
Qed.

Lemma version_lt_trans u v w : version_lt u v -> version_lt v w -> version_lt u w.
Proof.
  unfold version_lt. intros H1 H2. destruct H1 as [?|(? & [?|(? & [?|(? & H1)])])], H2 as [?|(? & [?|(? & [?|(? & H2)])])]; try (left; lia); right;
    (split; [lia|]); try (left; lia); right; (split; [lia|]); try (left; lia); right. split; [lia|by eapply pre_lt_trans].
Qed.

Lemma version_lt_irrefl v : ~ version_lt v v.
Proof. unfold version_lt. intros [?|(_ & [?|(_ & [?|(_ & Hp)])])]; [lia..|]. by destruct Hp. Qed.

Lemma version_lt_total v w : v = w \/ version_lt v w \/ version_lt w v.
Proof.
  unfold version_lt. destruct v as [a b c p], w as [a' b' c' p']. cbn [Major Minor Patch Pre].
  destruct (Ztrichotomy a a') as [?|[->|?]]; [tauto| |intuition lia]. destruct (Ztrichotomy b b') as [?|[->|?]]; [tauto| |intuition lia].
  destruct (Ztrichotomy c c') as [?|[->|?]]; [tauto| |intuition lia]. destruct (pre_lt_total p p') as [->|[?|?]]; [by left|tauto|tauto].
Qed.

Lemma Compare_opposite v w : Compare w v = - Compare v w.
Proof.
  destruct (version_lt_total v w) as [->|[Hl|Hl]].
  - by rewrite (proj2 (Compare_eq w w)).
  - rewrite (proj2 (Compare_lt v w) Hl). destruct (Compare_range w v) as [E|[E|E]]; rewrite E; [|apply Compare_eq in E; subst; by apply version_lt_irrefl in Hl|done].
    apply Compare_lt in E. by destruct (version_lt_irrefl v (version_lt_trans _ _ _ Hl E)).
  - rewrite (proj2 (Compare_lt w v) Hl). destruct (Compare_range v w) as [E|[E|E]]; rewrite E; [|apply Compare_eq in E; subst; by apply version_lt_irrefl in Hl|done].
    apply Compare_lt in E. by destruct (version_lt_irrefl v (version_lt_trans _ _ _ E Hl)).
Qed.

(** ** Versions as text *)

Definition version_wf (v : Version) : Prop :=
  fits 32 (Major v) /\ fits 32 (Minor v) /\ fits 32 (Patch v) /\ existsb (fun b => bool_decide (b ∈ [x20; x09; x0a])) (Pre v) = false.

Lemma component_digits s c : forallb is_digit s = true -> is_digit c = false -> c ∉ s.
Proof. intros Hs Hc Hin. rewrite forallb_forall in Hs. apply list_elem_of_In, Hs in Hin. congruence. Qed.

Lemma fits_32_64 v : fits 32 v -> fits 64 v.
Proof. unfold fits. lia. Qed.

Lemma FormatUint_free v c : fits 32 v -> is_digit c = false -> c ∉ FormatUint v.
Proof. intros Hv. apply component_digits. by apply FormatUint_spec, fits_32_64. Qed.

Lemma parse_component_format v : fits 32 v -> parse_component (FormatUint v) = Ok v.
Proof.
  intros Hv. pose proof (fits_32_64 v Hv) as H64. destruct (FormatUint_head v H64) as (b & t & Ht & Hb). destruct (FormatUint_spec v H64) as [Hval Hdig].
  unfold parse_component, ParseUint. rewrite Hval, Hdig, bool_decide_false by (by rewrite Ht). unfold fits in Hv. rewrite (proj2 (Z.ltb_lt v (2 ^ 32))) by lia. cbn [negb orb].
  destruct ((1 <? len (FormatUint v)) && _) eqn:E; [|done]. exfalso. apply andb_true_iff in E as [El Eh]. rewrite Ht in *. apply bool_decide_eq_true in Eh.
  injection Eh as ->. apply Hb; [|done]. intros ->. by vm_compute in El.
Qed.

Lemma cut_free c s : c ∉ s -> cut c s = (s, []).
Proof.
  induction s as [|b s IH]; intros Hc; [done|]. cbn [cut]. rewrite bool_decide_false by (intros ->; set_solver). rewrite IH by set_solver. done.
Qed.

Lemma cut_app c s t : c ∉ s -> cut c (s ++ c :: t) = (s, t).
Proof.
  induction s as [|b s IH]; intros Hc; cbn [cut app]; [by rewrite bool_decide_true|]. rewrite bool_decide_false by (intros ->; set_solver).
  rewrite IH by set_solver. done.
Qed.

Lemma cut_inv c s a b : cut c s = (a, b) -> c ∉ a /\ (s = a /\ b = [] \/ s = a ++ c :: b).
Proof.
  revert a b. induction s as [|x s IH]; intros a b; cbn [cut]; [intros [= <- <-]; split; [set_solver|by left]|].
  case_bool_decide as Hx; [intros [= <- <-]; subst; split; [set_solver|by right]|]. destruct (cut c s) as [a' b'] eqn:E. intros [= <- <-].
  destruct (IH _ _ eq_refl) as [Hc [[-> ->]| ->]]; (split; [set_solver|]); [by left|by right].
Qed.

Lemma core_of v : version_wf v -> let core := FormatUint (Major v) ++ dot :: FormatUint (Minor v) ++ dot :: FormatUint (Patch v) in
  dash ∉ core /\ split_on dot core = [FormatUint (Major v); FormatUint (Minor v); FormatUint (Patch v)].
Proof.
  intros (H1 & H2 & H3 & _). cbv zeta. pose proof (FormatUint_free _ dash H1 eq_refl). pose proof (FormatUint_free _ dash H2 eq_refl).
  pose proof (FormatUint_free _ dash H3 eq_refl). split.
  - rewrite !elem_of_app, !elem_of_cons, !elem_of_app, !elem_of_cons. intros [?|[?|[?|[?|?]]]]; done.
  - rewrite !split_on_app, !split_on_free by (by apply FormatUint_free). done.
Qed.

Lemma ParseVersion_string v : version_wf v -> ParseVersion (VersionString v) = Ok v.
Proof.
  intros Hv. destruct (core_of v Hv) as [Hd Hs]. destruct Hv as (H1 & H2 & H3 & Hp). unfold ParseVersion, VersionString.
  set (core := FormatUint (Major v) ++ dot :: FormatUint (Minor v) ++ dot :: FormatUint (Patch v)) in *.
  case_bool_decide as Hpre; [rewrite (cut_free _ _ Hd)|rewrite (cut_app _ _ _ Hd)]; rewrite Hs, !parse_component_format by done;
    cbn [mbind result_bind]; [|rewrite Hp]; destruct v; simpl in *; by subst.
Qed.

Lemma digit_value b : is_digit b = true -> 0 <= Z_of_byte b - 48 < 10 /\ dec_digit (Z_of_byte b - 48) = b.
Proof.
  unfold is_digit. intros Hb. apply andb_true_iff in Hb as [H1 H2]. reflect_bools. split; [lia|]. unfold dec_digit.
  replace (48 + (Z_of_byte b - 48)) with (Z_of_byte b) by lia. apply byte_of_Z_of_byte.
Qed.

Lemma digits_lower b t : b <> x30 -> forallb is_digit (b :: t) = true -> 10 ^ len t <= digits_value (b :: t).
Proof.
  intros Hb. induction t as [|c t IH] using rev_ind; intros Hd.
  - cbn [forallb] in Hd. apply andb_true_iff in Hd as [Hd _]. destruct (digit_value b Hd) as [Hr _]. unfold digits_value. simpl.
    destruct (decide (Z_of_byte b = 48)) as [E|E]; [|lia]. exfalso. apply Hb. apply (inj Z_of_byte). exact E.
  - rewrite app_comm_cons in *. rewrite forallb_app in Hd. apply andb_true_iff in Hd as [Hd Hc]. cbn [forallb] in Hc. rewrite andb_true_r in Hc.
    destruct (digit_value c Hc) as [Hr _]. specialize (IH Hd). rewrite digits_value_snoc, length_app. change (length [c]) with 1%nat.
    rewrite Nat2Z.inj_add, Z.pow_add_r by lia. change (10 ^ Z.of_nat 1) with 10. lia.
Qed.

(** Digits without a leading zero are the only spelling of their value. *)
Lemma canonical_digits fuel l : l <> [] -> forallb is_digit l = true -> (1 <? len l) && bool_decide (head l = Some x30) = false -> (length l <= fuel)%nat ->
  format_digits fuel (digits_value l) = l.
Proof.
  revert l. induction fuel as [|fuel IH]; intros l Hne Hd Hz Hl; [destruct l; simpl in *; [done|lia]|].
  destruct l as [|b l _] using rev_ind; [done|]. rewrite forallb_app in Hd. apply andb_true_iff in Hd as [Hd Hb]. cbn [forallb] in Hb. rewrite andb_true_r in Hb.
  destruct (digit_value b Hb) as [Hr Hback]. rewrite digits_value_snoc. cbn [format_digits]. destruct l as [|x l].
  - change (digits_value []) with 0. rewrite (proj2 (Z.ltb_lt _ _)) by lia. cbn [app]. f_equal. by rewrite Z.mul_0_l.
  - assert (x <> x30) as Hx.
    { intros ->. rewrite length_app in Hz. cbn [head app length] in Hz. rewrite (bool_decide_true (Some x30 = Some x30)) in Hz by done.
      rewrite andb_true_r in Hz. reflect_bools. lia. }
    pose proof (digits_lower x l Hx Hd) as Hlow. pose proof (Z.pow_pos_nonneg 10 (len l) ltac:(lia) ltac:(lia)).
    rewrite (proj2 (Z.ltb_ge _ _)) by lia. set (v := digits_value (x :: l)) in *.
    replace ((v * 10 + (Z_of_byte b - 48)) / 10) with v by (Z.to_euclidean_division_equations; lia).
    replace ((v * 10 + (Z_of_byte b - 48)) mod 10) with (Z_of_byte b - 48) by (Z.to_euclidean_division_equations; lia).
    rewrite Hback. f_equal. apply IH; [done|done| |rewrite length_app in Hl; simpl in *; lia].
    rewrite (bool_decide_false (head (x :: l) = Some x30)) by (simpl; congruence). apply andb_false_r.
Qed.

Lemma parse_component_canonical f n : parse_component f = Ok n -> f = FormatUint n /\ fits 32 n.
Proof.
  unfold parse_component. destruct (_ || _) eqn:E; [done|]. destruct (ParseUint 32 f) as [v|] eqn:Ep; [|done]. intros [= <-].
  pose proof (ParseUint_range _ _ _ Ep) as Hr. split; [|exact Hr]. unfold ParseUint in Ep. destruct (_ || negb _) eqn:Ed; [done|].
  destruct (digits_value f <? _); [|done]. injection Ep as <-. apply orb_false_iff in E as [E1 E2], Ed as [_ Ed]. apply negb_false_iff in Ed.
  apply bool_decide_eq_false in E1. unfold FormatUint. symmetry. apply canonical_digits; [done|done|done|].
  destruct f as [|b [|c t]]; [done|simpl; lia|]. assert (b <> x30) as Hb.
  { intros ->. cbn [head] in E2. rewrite (bool_decide_true (Some x30 = Some x30)) in E2 by done. cbn [length] in E2. rewrite andb_true_r in E2. reflect_bools. lia. }
  pose proof (digits_lower b (c :: t) Hb Ed) as Hlow. destruct (decide (length (b :: c :: t) <= 20)%nat) as [|Hgt]; [done|]. exfalso.
  assert (10 ^ 20 <= 10 ^ len (c :: t)) by (apply Z.pow_le_mono_r; simpl in *; lia). lia.
Qed.

(** What a text that parses says, and how it is spelled. *)
Lemma ParseVersion_ok text v : ParseVersion text = Ok v -> version_wf v /\ (text = VersionString v \/ Pre v = [] /\ text = VersionString v ++ [dash]).
Proof.
  unfold ParseVersion. destruct (cut dash text) as [core pre] eqn:Ec. destruct (split_on dot core) as [|a [|b [|c [|]]]] eqn:Es; try done.
  destruct (parse_component a) as [x|] eqn:Ea; [|done]. cbn [mbind result_bind]. destruct (parse_component b) as [y|] eqn:Eb; [|done].
  cbn [mbind result_bind]. destruct (parse_component c) as [z|] eqn:Ez; [|done]. cbn [mbind result_bind].
  destruct (existsb _ pre) eqn:Ep; [done|]. intros [= <-].
  apply parse_component_canonical in Ea as [-> Hx], Eb as [-> Hy], Ez as [-> Hz]. split; [done|].
  pose proof (join_split_on dot core) as Hj. rewrite Es in Hj. cbn [join] in Hj. unfold VersionString. cbn [Major Minor Patch Pre]. rewrite Hj.
  apply cut_inv in Ec as [_ [[-> ->]| ->]]; [left; by rewrite bool_decide_true|]. case_bool_decide as Hpre; [subst; by right|by left].
Qed.

(** Versions are totally ordered, a final release after its pre-releases, and the
    rollback check compares exactly what is written: [Compare] decides the
    lexicographic order, which is strict and total and under which two versions
    are equal exactly if nothing differs; printing a version and parsing it gives
    it back; and a text that parses is the printed form of its version, except
    that one dash may follow a final release. *)
Theorem versions_exact (u v w : Version) (text : list byte) :
  (Compare v w = -1 <-> version_lt v w) /\ (Compare v w = 0 <-> v = w) /\ (Compare v w = 1 <-> version_lt w v) /\
  (version_lt u v -> version_lt v w -> version_lt u w) /\ ~ version_lt v v /\
  (Pre v <> [] -> Compare v (mkVersion (Major v) (Minor v) (Patch v) []) = -1) /\
  (version_wf v -> ParseVersion (VersionString v) = Ok v) /\
  (ParseVersion text = Ok v -> version_wf v /\ (text = VersionString v \/ Pre v = [] /\ text = VersionString v ++ [dash])).
Proof.
  split_and!; [apply Compare_lt|apply Compare_eq| |apply version_lt_trans|apply version_lt_irrefl| |apply ParseVersion_string|apply ParseVersion_ok].
  - rewrite <- Compare_lt, Compare_opposite. lia.
  - intros Hp. apply Compare_lt. unfold version_lt. cbn [Major Minor Patch Pre]. right. split; [done|]. right. split; [done|]. right. split; [done|].
    unfold pre_lt. auto.
Qed.

(** The second spelling. *)
Lemma dash_after_final : ParseVersion (String.list_byte_of_string "1.2.3-") = ParseVersion (String.list_byte_of_string "1.2.3").
Proof. reflexivity. Qed.

(** ** What a verified release shows *)

Section releases.
Context `{HashFunction, SignatureScheme, ReleaseJSON}.

(** An approval by a trusted key that verifies. *)
Definition approved_by (trusted : list (list byte)) (m : ReleaseManifest) (text key : list byte) : Prop :=
  hex_decode text = Some key /\ key ∈ trusted /\ exists signature, verify key (releaseSigningMessage m) signature = true.

Lemma matchTrusted_ok trusted declared key : matchTrusted trusted declared = Some key -> key = declared /\ key ∈ trusted.
Proof.
  unfold matchTrusted. destruct (list_find _ _) as [[i k]|] eqn:E; [|done]. intros [= <-]. apply list_find_Some in E as (Hi & -> & _).
  split; [done|]. by eapply list_elem_of_lookup_2.
Qed.

Lemma matchTrusted_in trusted key : key ∈ trusted -> matchTrusted trusted key = Some key.
Proof.
  intros Hin. unfold matchTrusted. destruct (list_find (eq key) trusted) as [[i k]|] eqn:E; [by apply list_find_Some in E as (_ & <- & _)|].
  exfalso. apply list_find_None in E. rewrite Forall_forall in E. by apply (E key).
Qed.

Lemma count_approvals_ok trusted m satisfied approvals r : count_approvals trusted (releaseSigningMessage m) satisfied approvals = Ok r ->
  NoDup satisfied -> Forall (fun text => exists key, approved_by trusted m text key) satisfied ->
  NoDup r /\ Forall (fun text => exists key, approved_by trusted m text key) r /\ r ≡ₚ map RAPublicKey approvals ++ satisfied.
Proof.
  revert satisfied. induction approvals as [|a approvals IH]; intros satisfied; cbn [count_approvals]; [intros [= <-]; auto|].
  destruct (hex_decode (RAPublicKey a)) as [declared|] eqn:Ek; [|done]. destruct (negb _); [done|].
  destruct (hex_decode (RASignature a)) as [signature|]; [|done]. destruct (negb _); [done|].
  destruct (matchTrusted trusted declared) as [key|] eqn:Em; [|done]. apply matchTrusted_ok in Em as [-> Hin].
  destruct (verify declared _ signature) eqn:Ev; [|done]. cbn [negb]. case_bool_decide as Hd; [done|]. intros Hr Hnd Hall.
  destruct (IH _ Hr) as (Hn & Hf & Hp).
  - by constructor.
  - constructor; [|done]. exists declared. split_and!; [done|done|eauto].
  - split_and!; [done|done|]. rewrite Hp. cbn [map app]. by rewrite Permutation_middle.
Qed.

Lemma check_distinct_ok seen keys : check_distinct seen keys = Ok tt -> NoDup keys /\ (forall k, k ∈ keys -> length k = 32%nat /\ hex_encode k ∉ seen).
Proof.
  revert seen. induction keys as [|k keys IH]; intros seen; cbn [check_distinct]; [intros _; split; [constructor|set_solver]|].
  destruct (Nat.eqb (length k) 32) eqn:El; [|done]. cbn [negb]. case_bool_decide as Hs; [done|]. intros Hr. destruct (IH _ Hr) as [Hn Hk]. split.
  - constructor; [|done]. intros Hin. destruct (Hk k Hin) as [_ Hx]. set_solver.
  - intros k' Hin. apply elem_of_cons in Hin as [->|Hin]; [by apply Nat.eqb_eq in El|]. destruct (Hk k' Hin) as [? Hx]. set_solver.
Qed.

(** Every check that a release passed. *)
Record release_ok (trusted : list (list byte)) (r : VerifiedRelease) (texts : list (list byte)) : Prop := {
  ro_version : RMVersion (VRManifest r) = ReleaseVersion /\ ParseVersion (RMRelease (VRManifest r)) = Ok (VRRelease r);
  ro_digest : hex_decode (RMArtifactDigest (VRManifest r)) = Some (VRDigest r) /\ length (VRDigest r) = 32%nat;
  ro_size : 0 < RMArtifactBytes (VRManifest r) < 2 ^ 63;
  ro_channel : VRChannel r = RMChannel (VRManifest r) /\ VRChannel r <> [] /\ coerce_utf8 (VRChannel r) = VRChannel r;
  ro_name : RMArtifactName (VRManifest r) <> [] /\ is_path (RMArtifactName (VRManifest r)) = false;
  ro_utf8 : coerce_utf8 (RMRelease (VRManifest r)) = RMRelease (VRManifest r);
  ro_trusted : NoDup trusted /\ Forall (fun k => length k = 32%nat) trusted;
  ro_texts : NoDup texts /\ 2 <= len texts /\ Forall (fun text => exists key, approved_by trusted (VRManifest r) text key) texts;
  ro_all : texts ≡ₚ map RAPublicKey (RMApprovals (VRManifest r));
  ro_approvers : VRApprovers r = filter (fun key => key ∈ texts) (map hex_encode trusted);
}.

Lemma DecodeRelease_ok encoded trusted r : DecodeRelease encoded trusted = Ok r ->
  release_parse encoded = Some (VRManifest r) /\ exists texts, release_ok trusted r texts.
Proof.
  unfold DecodeRelease. destruct (_ || _); [done|]. unfold distinctApprovers. destruct (_ <? _); [done|].
  destruct (check_distinct [] trusted) as [[]|] eqn:Et; [|done]. cbn [mbind result_bind]. destruct (release_parse encoded) as [m|] eqn:Em; [|done].
  case_bool_decide as Hv; [|done]. cbn [negb]. destruct (ParseVersion (RMRelease m)) as [v|] eqn:Ev; [|done]. cbn [wrap mbind result_bind].
  destruct (hex_decode (RMArtifactDigest m)) as [digest|] eqn:Ed; [|done]. destruct (Nat.eqb (length digest) 32) eqn:El; [|done]. cbn [negb].
  destruct (RMArtifactBytes m <=? 0) eqn:Eb; [done|]. destruct (_ || _) eqn:Ef; [done|]. destruct (is_path _) eqn:Ep; [done|].
  destruct (len trusted <? _); [done|]. destruct (count_approvals _ _ _ _) as [texts|] eqn:Ec; [|done]. cbn [mbind result_bind].
  destruct (len texts <? MinimumApprovals) eqn:Eq; [done|]. intros E. apply (inj Ok) in E. subst r. split; [done|]. exists texts.
  apply count_approvals_ok in Ec as (Hn & Hf & Hp); [|constructor|constructor]. rewrite app_nil_r in Hp.
  apply check_distinct_ok in Et as [Hnd Hk]. destruct (release_parse_typed _ _ Em) as (Hr & Hu & Hc). reflect_bools. unfold MinimumApprovals in *.
  split; cbn [VRManifest VRRelease VRDigest VRChannel VRApprovers]; auto; try lia.
  - split; [done|]. by apply Nat.eqb_eq.
  - split; [done|]. apply Forall_forall. intros k Hk'. by apply Hk.
Qed.

(** All approvals of a manifest that verified, not only two of them, are valid. *)
Lemma release_ok_approvals trusted r texts : release_ok trusted r texts ->
  2 <= len (RMApprovals (VRManifest r)) /\ NoDup (map RAPublicKey (RMApprovals (VRManifest r))) /\
  Forall (fun a => exists key, approved_by trusted (VRManifest r) (RAPublicKey a) key) (RMApprovals (VRManifest r)).
Proof.
  intros [_ _ _ _ _ _ _ (Hn & H2 & Hall) Hp _]. split_and!.
  - apply Permutation_length in Hp. rewrite length_map in Hp. lia.
  - by rewrite <- Hp.
  - assert (Forall (fun text => exists key, approved_by trusted (VRManifest r) text key) (map RAPublicKey (RMApprovals (VRManifest r)))) as Hm by (by rewrite <- Hp).
    exact (proj1 (Forall_map _ _ _) Hm).
Qed.

End releases.

Lemma NoDup_hex keys : NoDup keys -> NoDup (map hex_encode keys).
Proof. intros Hn. change (map hex_encode keys) with (hex_encode <$> keys). apply NoDup_fmap_2; [|done]. intros x y. apply hex_encode_inj. Qed.

(** What the two-person rule enforces.  A release that is accepted carries at least
    two approvals, no two under the same text, and each of them is a valid
    signature over everything the manifest says by a key of the trusted set.  The
    approvers that are recorded are different people whose approvals verified;
    and if every key is written in the form in which the code itself writes keys,
    there are at least two of them. *)
Theorem release_approved `{HashFunction, SignatureScheme, ReleaseJSON} encoded trusted r : DecodeRelease encoded trusted = Ok r ->
  let approvals := RMApprovals (VRManifest r) in
  2 <= len approvals /\ NoDup (map RAPublicKey approvals) /\
  Forall (fun a => exists key, approved_by trusted (VRManifest r) (RAPublicKey a) key) approvals /\
  NoDup (VRApprovers r) /\ Forall (fun text => exists key, text = hex_encode key /\ approved_by trusted (VRManifest r) text key) (VRApprovers r) /\
  (Forall (fun a => exists key, RAPublicKey a = hex_encode key) approvals -> 2 <= len (VRApprovers r)).
Proof.
  intros (_ & texts & Hok)%DecodeRelease_ok. cbv zeta. pose proof (release_ok_approvals _ _ _ Hok) as (Hc2 & Hnp & Hallp).
  destruct Hok as [_ _ _ _ _ _ [Htn _] (Hn & H2 & Hall) Hp Ha].
  assert (NoDup (VRApprovers r)) as Hnd by (rewrite Ha; by apply NoDup_filter, NoDup_hex).
  split_and!; [done..| |].
  - apply Forall_forall. intros text Hin. rewrite Ha in Hin. apply list_elem_of_filter in Hin as [Ht Hin]. apply list_elem_of_In, in_map_iff in Hin as (key & <- & _).
    rewrite Forall_forall in Hall. destruct (Hall _ Ht) as (key' & Hk). pose proof Hk as [Hd _]. rewrite hex_decode_encode in Hd. injection Hd as <-. eauto.
  - intros Hcan. assert (texts ⊆+ VRApprovers r) as Hsub.
    { apply NoDup_submseteq; [done|]. intros text Ht. rewrite Ha. apply list_elem_of_filter. split; [done|].
      rewrite Forall_forall in Hall. destruct (Hall text Ht) as (key & Hd & Hin & _).
      assert (text ∈ map RAPublicKey (RMApprovals (VRManifest r))) as Hm by (by rewrite <- Hp). apply list_elem_of_In, in_map_iff in Hm as (a & <- & Hina).
      rewrite Forall_forall in Hcan. destruct (Hcan a ltac:(by apply list_elem_of_In)) as (key' & Hk). rewrite Hk, hex_decode_encode in Hd.
      injection Hd as <-. rewrite Hk. by apply elem_of_map_2. }
    apply submseteq_length in Hsub. lia.
Qed.

(** C19: One approver can release alone.  The approvals are told apart by the text of
    the key, and decoding a key accepts both cases of a hexadecimal digit: whoever
    holds one trusted key signs once, writes the key in a second spelling next to
    the first, and the manifest verifies; the record of approvers then holds one
    person. *)
Theorem one_approver_suffices `{HashFunction, SignatureScheme, ReleaseJSON} encoded trusted m key other version digest :
  2 <= len trusted -> check_distinct [] trusted = Ok tt -> length key = 64%nat -> public key ∈ trusted ->
  hex_decode other = Some (public key) -> other <> hex_encode (public key) ->
  encoded <> [] -> len encoded <= MaximumManifestBytes -> RMVersion m = ReleaseVersion -> RMApprovals m = [] -> ParseVersion (RMRelease m) = Ok version ->
  hex_decode (RMArtifactDigest m) = Some digest -> length digest = 32%nat -> 0 < RMArtifactBytes m -> RMChannel m <> [] -> RMArtifactName m <> [] ->
  is_path (RMArtifactName m) = false ->
  release_parse encoded = Some (set_approvals m [mkReleaseApproval (hex_encode (public key)) (hex_encode (sign key (releaseSigningMessage m)));
    mkReleaseApproval other (hex_encode (sign key (releaseSigningMessage m)))]) ->
  exists r, DecodeRelease encoded trusted = Ok r /\ VRRelease r = version /\ VRDigest r = digest /\ VRApprovers r = [hex_encode (public key)].
Proof.
  intros H2 Hdist Hkey Hin Hother Hne Hnil Hlen Hver Hnone Hparse Hdig Hdl Hsize Hch Hname Hpath Htext.
  pose proof (public_length key Hkey) as Hpl. destruct (check_distinct_ok _ _ Hdist) as [Hnd _].
  unfold DecodeRelease. rewrite bool_decide_false by done. rewrite (proj2 (Z.ltb_ge _ _)) by lia. cbn [orb]. unfold distinctApprovers, MinimumApprovals.
  rewrite (proj2 (Z.ltb_ge (len trusted) 2)) by lia. rewrite Hdist. cbn [mbind result_bind]. rewrite Htext.
  cbn [set_approvals RMVersion RMRelease RMArtifactDigest RMArtifactBytes RMChannel RMArtifactName RMApprovals]. rewrite bool_decide_true by done. cbn [negb].
  rewrite Hparse. cbn [wrap mbind result_bind]. rewrite Hdig, Hdl. cbn [Nat.eqb negb]. rewrite (proj2 (Z.leb_gt _ _)) by lia.
  rewrite (bool_decide_false (RMChannel m = [])), (bool_decide_false (RMArtifactName m = [])) by done. cbn [orb]. rewrite Hpath.
  change (len [_; _]) with 2. rewrite (proj2 (Z.ltb_ge (len trusted) 2)) by lia.
  set (a1 := mkReleaseApproval _ _). set (a2 := mkReleaseApproval other _).
  assert (releaseSigningMessage (set_approvals m [a1; a2]) = releaseSigningMessage m) as -> by done.
  cbn [count_approvals a1 a2 RAPublicKey RASignature]. rewrite !hex_decode_encode, Hother, Hpl, sign_length. cbn [Nat.eqb negb].
  rewrite (matchTrusted_in _ _ Hin), (sign_verify _ _ Hkey). cbn [negb].
  rewrite (bool_decide_false (hex_encode (public key) ∈ [])) by set_solver. rewrite (bool_decide_false (other ∈ [hex_encode (public key)])) by set_solver.
  cbn [mbind result_bind]. change (len [_; _] <? 2) with false. cbn [andb]. eexists. split; [reflexivity|]. cbn [VRRelease VRDigest VRApprovers]. split_and!; [done|done|].
  apply Permutation_singleton_r, NoDup_Permutation; [by apply NoDup_filter, NoDup_hex|apply NoDup_singleton|]. intros text.
  rewrite list_elem_of_filter, list_elem_of_singleton. split.
  - intros [Ht Hm]. apply list_elem_of_In, in_map_iff in Hm as (k & <- & _). apply elem_of_cons in Ht as [Ht|Ht%list_elem_of_singleton]; [|done].
    exfalso. apply Hne. rewrite <- Ht, hex_decode_encode in Hother. injection Hother as ->. by rewrite Ht.
  - intros ->. split; [set_solver|by apply elem_of_map_2].
Qed.

(** ** What is installed over time *)

(** One use of the program. *)
Record install_call := mkCall {
  ic_env : mark_io;
  ic_paths : bool;
  ic_dry : bool;
  ic_trusted : result update_error (list (list byte));
  ic_manifest : option (list byte);
  ic_artifact : option (list byte);
}.

Section installing.
Context `{HashFunction, SignatureScheme, ReleaseJSON}.

Definition install (c : install_call) (file : option (list byte)) : option (list byte) * result update_error VerifiedRelease :=
  run_verify (ic_env c) (ic_paths c) (ic_dry c) (ic_trusted c) (ic_manifest c) (ic_artifact c) file.

(** A sequence of uses: the record that is left, and the releases installed, in
    order. *)
Fixpoint installs (calls : list install_call) (file : option (list byte)) : option (list byte) * list VerifiedRelease :=
  match calls with
  | [] => (file, [])
  | c :: calls =>
      let '(file, r) := install c file in
      let '(file', accepted) := installs calls file in
      (file', match r with Ok r => if ic_dry c then accepted else r :: accepted | Err _ => accepted end)
  end.

Lemma coerce_ascii s t : forallb (between 0 127) s = true -> coerce_utf8 (s ++ t) = s ++ coerce_utf8 t.
Proof. induction s as [|b s IH]; [done|]. cbn [forallb app]. intros [Hb Hs]%andb_true_iff. cbn [coerce_utf8]. by rewrite Hb, IH. Qed.

Lemma digits_ascii s : forallb is_digit s = true -> forallb (between 0 127) s = true.
Proof.
  rewrite !forallb_forall. intros Hs b Hb. specialize (Hs b Hb). unfold is_digit in Hs. unfold between. apply andb_true_iff in Hs as [Hx Hy]. reflect_bools.
  apply andb_true_iff. split; apply Z.leb_le; lia.
Qed.

Lemma hex_ascii s : forallb (between 0 127) (hex_encode s) = true.
Proof.
  assert (forall v, 0 <= v < 16 -> between 0 127 (hex_digit v) = true) as Hd.
  { intros v Hv. assert (v ∈ seqZ 0 16) as Hin by (apply elem_of_seqZ; lia).
    assert (Forall (fun v => between 0 127 (hex_digit v) = true) (seqZ 0 16)) as Hall by (repeat constructor). rewrite Forall_forall in Hall. by apply Hall. }
  induction s as [|b s IH]; [done|]. cbn [hex_encode flat_map app forallb]. pose proof (Z_of_byte_range b).
  rewrite !Hd by (Z.to_euclidean_division_equations; lia). exact IH.
Qed.

Lemma core_ascii v : version_wf v ->
  forallb (between 0 127) (FormatUint (Major v) ++ dot :: FormatUint (Minor v) ++ dot :: FormatUint (Patch v)) = true.
Proof.
  intros (W1 & W2 & W3 & _). rewrite forallb_app. cbn [forallb]. rewrite forallb_app. cbn [forallb].
  rewrite !digits_ascii by (by apply FormatUint_spec, fits_32_64). done.
Qed.

(** The record of a verified release reads back as it was written. *)
Lemma coerce_mark_of trusted r texts : release_ok trusted r texts -> coerce_mark (mark_of r) = mark_of r.
Proof.
  intros [[_ Hv] _ _ (_ & _ & Hc) _ Hu _ _ _ _]. apply ParseVersion_ok in Hv as [Hwf Ht]. unfold coerce_mark, mark_of. cbn [MarkVersion MarkDigest MarkChannel].
  rewrite Hc. rewrite <- (app_nil_r (hex_encode _)) at 1. rewrite coerce_ascii by apply hex_ascii. cbn [coerce_utf8]. rewrite app_nil_r. f_equal.
  destruct Ht as [Ht|[Hp _]]; [by rewrite <- Ht|]. unfold VersionString. rewrite bool_decide_true by done.
  rewrite <- (app_nil_r (_ ++ _)) at 1. rewrite coerce_ascii by (by apply core_ascii). cbn [coerce_utf8]. by rewrite app_nil_r.
Qed.

(** What an installed release has to do with the use that installed it: it is the
    one named by the manifest this use was given, signed by keys that this use was
    told to trust, and the installer at hand has the signed length and digest. *)
Definition installed_by (c : install_call) (r : VerifiedRelease) : Prop :=
  exists encoded trusted content, ic_manifest c = Some encoded /\ ic_trusted c = Ok trusted /\ ic_artifact c = Some content /\
    release_parse encoded = Some (VRManifest r) /\ ParseVersion (RMRelease (VRManifest r)) = Ok (VRRelease r) /\
    VRChannel r = RMChannel (VRManifest r) /\ 2 <= len (RMApprovals (VRManifest r)) /\ NoDup (map RAPublicKey (RMApprovals (VRManifest r))) /\
    Forall (fun a => exists key, approved_by trusted (VRManifest r) (RAPublicKey a) key) (RMApprovals (VRManifest r)) /\
    len content = RMArtifactBytes (VRManifest r) /\ sha256 content = VRDigest r /\ hex_decode (RMArtifactDigest (VRManifest r)) = Some (VRDigest r).

(** One use that installs. *)
Lemma install_ok c file file' r : install c file = (file', Ok r) -> ic_dry c = false ->
  file' = Some (mark_text (mark_of r)) /\ (exists trusted texts, release_ok trusted r texts) /\ installed_by c r /\
  exists installed, readReleaseMark (ic_env c) file = Ok installed /\ may_install installed r = Ok tt.
Proof.
  unfold install, run_verify. intros E Hdry. rewrite Hdry in E. destruct (ic_paths c); [|done]. cbn [mbind result_bind] in E.
  destruct (ic_trusted c) as [trusted|] eqn:Et; [|done]. cbn [mbind result_bind] in E. destruct (ic_manifest c) as [encoded|] eqn:Em; [|done]. cbn [mbind result_bind] in E.
  destruct (DecodeRelease encoded trusted) as [r0|] eqn:Ed; [|done]. cbn [mbind result_bind] in E.
  destruct (VerifyArtifact (ic_artifact c) r0) as [[]|] eqn:Ea; [|done]. cbn [mbind result_bind] in E.
  destruct (InstalledVersion (ic_env c) file); [|done]. cbn [mbind result_bind] in E. unfold AcceptRelease in E.
  destruct (readReleaseMark (ic_env c) file) as [installed|] eqn:Er; [|done]. destruct (may_install installed r0) as [[]|] eqn:Ei; [|done].
  unfold writeReleaseMark in E. destruct (mark_write (ic_env c)); [|done]. injection E as <- <-. pose proof (DecodeRelease_ok _ _ _ Ed) as (Hp & texts & Hok).
  unfold VerifyArtifact in Ea. destruct (ic_artifact c) as [content|] eqn:Ec; [|done]. destruct (len content =? _) eqn:El; [|done]. cbn [negb] in Ea.
  case_bool_decide; [|done]. reflect_bools. split_and!; [done|eauto| |eauto].
  destruct (release_ok_approvals _ _ _ Hok) as (Htwo & Hn & Hall). exists encoded, trusted, content. destruct Hok as [[_ Hv] [Hd _] _ [Hch _] _ _ _ _ _ _].
  by split_and!.
Qed.

Lemma install_err c file file' r : install c file = (file', r) -> ic_dry c = true \/ (exists e, r = Err e) -> file' = file.
Proof.
  unfold install, run_verify. intros E Hor. destruct (_ ≫= _) as [release|] in E; [|by injection E as <- _].
  destruct (ic_dry c); [by injection E as <- _|]. destruct Hor as [?|[e ->]]; [done|]. unfold AcceptRelease, writeReleaseMark in E.
  destruct (readReleaseMark _ _); [|by injection E as <- _]. destruct (may_install _ _); [|by injection E as <- _].
  destruct (mark_write _); [done|]. by injection E as <- _.
Qed.

Lemma may_install_newer w r : may_install (Some w) r = Ok tt -> MarkChannel w = VRChannel r /\
  exists current, ParseVersion (MarkVersion w) = Ok current /\ version_lt current (VRRelease r).
Proof.
  unfold may_install. case_bool_decide as Hc; [|done]. cbn [negb]. destruct (ParseVersion (MarkVersion w)) as [current|]; [|done]. cbn [wrap mbind result_bind].
  destruct (Compare (VRRelease r) current =? -1) eqn:E1; [done|]. destruct (Compare (VRRelease r) current =? 0) eqn:E2.
  - repeat case_goal; done.
  - intros _. split; [done|]. exists current. split; [done|]. reflect_bools. apply Compare_lt. rewrite Compare_opposite.
    destruct (Compare_range (VRRelease r) current) as [?|[?|E]]; [done|done|]. by rewrite E.
Qed.

(** The releases that can follow what a file records. *)
Definition follows (file : option (list byte)) (r : VerifiedRelease) : Prop :=
  match file with
  | None => True
  | Some encoded => exists w current, mark_parse encoded = Some w /\ ParseVersion (MarkVersion w) = Ok current /\
      version_lt current (VRRelease r) /\ MarkChannel w = VRChannel r
  end.

Lemma install_follows c file file' r : install c file = (file', Ok r) -> ic_dry c = false -> follows file r.
Proof.
  intros E Hd. destruct (install_ok _ _ _ _ E Hd) as (_ & _ & _ & installed & Hr & Hm). unfold follows. destruct file as [encoded|]; [|done].
  unfold readReleaseMark in Hr. destruct (negb _); [done|]. destruct (mark_parse encoded) as [w|]; [|done]. destruct (_ || _); [done|].
  injection Hr as <-. apply may_install_newer in Hm as (Hc & current & Hp & Hlt). by exists w, current.
Qed.

Definition newer (r r' : VerifiedRelease) : Prop := version_lt (VRRelease r) (VRRelease r') /\ VRChannel r = VRChannel r'.

Lemma follows_mark r r' : (exists trusted texts, release_ok trusted r texts) -> follows (Some (mark_text (mark_of r))) r' -> newer r r'.
Proof.
  intros (trusted & texts & Hok) (w & current & Hw & Hp & Hlt & Hc). rewrite mark_roundtrip, (coerce_mark_of _ _ _ Hok) in Hw. injection Hw as <-.
  cbn [mark_of MarkVersion MarkChannel] in *. destruct Hok as [[_ Hv] _ _ _ _ _ _ _ _ _]. apply ParseVersion_ok in Hv as [Hwf _].
  rewrite ParseVersion_string in Hp by done. injection Hp as <-. by split.
Qed.

Lemma newer_trans r r' r'' : newer r r' -> newer r' r'' -> newer r r''.
Proof. intros [L1 C1] [L2 C2]. split; [by eapply version_lt_trans|congruence]. Qed.

Lemma follows_newer file r r' : follows file r -> newer r r' -> follows file r'.
Proof.
  unfold follows. destruct file as [encoded|]; [|done]. intros (w & current & Hw & Hp & Hlt & Hc) [Hn Hch]. exists w, current. split_and!; [done|done| |congruence].
  by eapply version_lt_trans.
Qed.

Lemma installs_spec calls file file' accepted : installs calls file = (file', accepted) ->
  StronglySorted newer accepted /\ Forall (follows file) accepted /\
  Forall (fun r => exists c, c ∈ calls /\ installed_by c r) accepted /\
  file' = match last accepted with Some r => Some (mark_text (mark_of r)) | None => file end.
Proof.
  revert file file' accepted. induction calls as [|c calls IH]; intros file file' accepted; cbn [installs]; [intros [= <- <-]; split_and!; constructor|].
  destruct (install c file) as [file1 r] eqn:Ei. destruct (installs calls file1) as [file2 rest] eqn:Es. intros E. destruct (IH _ _ _ Es) as (Hsort & Hfol & Hall & Hlast).
  assert (Forall (fun r => exists c0, c0 ∈ c :: calls /\ installed_by c0 r) rest) as Hall'.
  { eapply Forall_impl; [exact Hall|]. intros x (c0 & Hin & Hx). exists c0. split; [by right|done]. }
  assert ((ic_dry c = true \/ exists e, r = Err e) \/ exists r0, r = Ok r0 /\ ic_dry c = false) as [Hno|(r0 & -> & Hd)].
  { destruct r as [r0|e]; [|left; right; eauto]. destruct (ic_dry c); [by left; left|right; eauto]. }
  - pose proof (install_err _ _ _ _ Ei Hno) as ->. assert (accepted = rest /\ file' = file2) as [-> ->].
    { destruct Hno as [Hd|[e ->]]; [rewrite Hd in E; destruct r|]; by injection E as <- <-. }
    by split_and!.
  - rewrite Hd in E. injection E as <- <-. destruct (install_ok _ _ _ _ Ei Hd) as (-> & Hok & Hby & _).
    assert (Forall (newer r0) rest) as Hnew by (eapply Forall_impl; [exact Hfol|]; intros x; by apply follows_mark).
    pose proof (install_follows _ _ _ _ Ei Hd) as Hf0. split_and!.
    + by constructor.
    + constructor; [done|]. eapply Forall_impl; [exact Hnew|]. intros x. by apply follows_newer.
    + constructor; [|done]. exists c. split; [left|done].
    + rewrite Hlast, last_cons. by destruct (last rest).
Qed.
End installing.

(** C18: An installation only moves forward.  Over any sequence of uses of
    [nomad-browser-verify], with whatever manifests, installers, keys and disk
    errors, the versions that are installed increase strictly, on one channel, so
    no release is installed twice, no older one after a newer one and no two
    installers under one version; they also lie above what the record named
    before, and a record that cannot be decoded lets nothing through.  Each of
    them is the release of the manifest that its own use of the program was given,
    with at least two approvals, under differently written keys, each of them a
    signature by a key that this same use was told to trust (keys that the
    manifest itself brings count for nothing), and with an installer of the signed
    length and digest; and the record names the last. *)
Theorem installs_move_forward `{HashFunction, SignatureScheme, ReleaseJSON} (calls : list install_call) (file : option (list byte)) :
  let '(file', accepted) := installs calls file in
  StronglySorted (fun r r' => version_lt (VRRelease r) (VRRelease r') /\ VRChannel r = VRChannel r') accepted /\
  (forall encoded, file = Some encoded -> mark_parse encoded = None -> accepted = []) /\
  (forall encoded w current, file = Some encoded -> mark_parse encoded = Some w -> ParseVersion (MarkVersion w) = Ok current ->
    Forall (fun r => version_lt current (VRRelease r) /\ MarkChannel w = VRChannel r) accepted) /\
  Forall (fun r => exists c, c ∈ calls /\ installed_by c r) accepted /\
  file' = match last accepted with Some r => Some (mark_text (mark_of r)) | None => file end.
Proof.
  destruct (installs calls file) as [file' accepted] eqn:E. apply installs_spec in E as (Hs & Hf & Hall & Hl). split_and!; [exact Hs| | |done|done].
  - intros encoded -> Hn. destruct accepted as [|r accepted]; [done|]. apply Forall_cons in Hf as [(w & _ & Hw & _) _]. congruence.
  - intros encoded w current -> Hw Hp. eapply Forall_impl; [exact Hf|]. intros r (w' & current' & Hw' & Hp' & Hlt & Hc).
    rewrite Hw in Hw'. injection Hw' as <-. rewrite Hp in Hp'. injection Hp' as <-. by split.
Qed.

(** ** Example: two approvers *)

Section example.
#[local] Existing Instance example_hash.
#[local] Existing Instance example_signatures.

(** A stand-in for the text of a record: every byte marked, a zero at the end. *)
Definition mark_field (s : list byte) : list byte := flat_map (fun b => [x01; b]) s ++ [x00].

Fixpoint read_field (l : list byte) : option (list byte * list byte) :=
  match l with
  | x00 :: l => Some ([], l)
  | x01 :: b :: l => match read_field l with Some (s, rest) => Some (b :: s, rest) | None => None end
  | _ => None
  end.

Lemma read_mark_field s rest : read_field (mark_field s ++ rest) = Some (s, rest).
Proof. unfold mark_field. induction s as [|b s IH]; [done|]. cbn [flat_map app read_field]. by rewrite IH. Qed.

Definition read_mark (l : list byte) : option ReleaseMark :=
  match read_field l with
  | Some (v, l) => match read_field l with
    | Some (d, l) => match read_field l with Some (c, []) => Some (coerce_mark (mkReleaseMark v d c)) | _ => None end
    | None => None end
  | None => None end.

Definition example_manifest : ReleaseManifest :=
  mkReleaseManifest ReleaseVersion (String.list_byte_of_string "1.2.0") (String.list_byte_of_string "stable") (String.list_byte_of_string "nomad.dmg")
    (hex_encode (sha256 [x61; x62])) 2 [].

Definition alice : list byte := replicate 64 xab.
Definition bob : list byte := replicate 64 xcd.

Definition approval_of (text key : list byte) : ReleaseApproval := mkReleaseApproval text (hex_encode (sign key (releaseSigningMessage example_manifest))).

(** "ABAB...": the key of Alice in capitals. *)
Definition alice_capitals : list byte := concat (replicate 32 [x41; x42]).

Definition both : ReleaseManifest :=
  set_approvals example_manifest [approval_of (hex_encode (public alice)) alice; approval_of (hex_encode (public bob)) bob].
Definition alone : ReleaseManifest :=
  set_approvals example_manifest [approval_of (hex_encode (public alice)) alice; approval_of alice_capitals alice].

Definition release_json : ReleaseJSON.
Proof.
  refine {| release_parse := fun b => if bool_decide (b = [x01]) then Some both else if bool_decide (b = [x02]) then Some alone else None;
            mark_text := fun w => mark_field (MarkVersion w) ++ mark_field (MarkDigest w) ++ mark_field (MarkChannel w) ++ [];
            mark_parse := read_mark |}.
  - intros b m. case_bool_decide; [intros [= <-]; by vm_compute|]. case_bool_decide; [intros [= <-]; by vm_compute|done].
  - intros w. unfold read_mark. rewrite !read_mark_field. by destruct w.
Defined.

#[local] Existing Instance release_json.

Definition release_both : VerifiedRelease :=
  mkVerifiedRelease both (mkVersion 1 2 0 []) (sha256 [x61; x62]) (String.list_byte_of_string "stable") [hex_encode (public alice); hex_encode (public bob)].

Lemma both_verifies : DecodeRelease [x01] [public alice; public bob] = Ok release_both.
Proof. vm_compute. reflexivity. Qed.

Lemma release_approved_witness : DecodeRelease [x01] [public alice; public bob] = Ok release_both /\ 2 <= len (VRApprovers release_both).
Proof.
  split; [exact both_verifies|]. apply (release_approved [x01] [public alice; public bob] release_both both_verifies).
  constructor; [by exists (public alice)|]. constructor; [by exists (public bob)|constructor].
Defined.

Lemma one_approver_suffices_witness : exists r, DecodeRelease [x02] [public alice; public bob] = Ok r /\ VRRelease r = mkVersion 1 2 0 [] /\
  VRDigest r = sha256 [x61; x62] /\ VRApprovers r = [hex_encode (public alice)].
Proof.
  apply (one_approver_suffices [x02] [public alice; public bob] example_manifest alice alice_capitals (mkVersion 1 2 0 []) (sha256 [x61; x62]));
    try (vm_compute; reflexivity); try (vm_compute; discriminate). apply list_elem_of_here.
Defined.

(** The first release is installed, the same one is refused, and nothing happens
    on the installer of another. *)
Example example_installs :
  let call artifact := mkCall (mkMarkIO true true) true false (Ok [public alice; public bob]) (Some [x01]) (Some artifact) in
  installs [call [x61; x63]; call [x61; x62]; call [x61; x62]] None = (Some (mark_text (mark_of release_both)), [release_both]) /\
  (install (call [x61; x62]) (Some (mark_text (mark_of release_both)))).2 = Err ErrInstalled.
Proof. vm_compute. split; reflexivity. Qed.
End example.
