(* ===== verification/Firewall.v ===== *)
(** The emission plan ([components/nomad-selection-firewall/firewall/firewall.go]):
    when and to which peer slot cells leave, as a function of public configuration
    only. *)

From stdpp Require Import base list list_numbers sets strings.
From Stdlib Require Import ZArith Lia Strings.Byte.
From S2P Require Import Prelude Bytes Hash.

Definition MaxCellsPerEpoch : Z := 1048576.

Record NetworkConfig := mkNetworkConfig {
  CellsPerEpoch : Z;
  FwCellSize : Z;
  FwCellInterval : Z;
  PeerSlots : Z;
  PublicSeed : list byte;
}.

(** The widths of the fields. *)
Definition config_typed (c : NetworkConfig) : Prop :=
  fits 32 (CellsPerEpoch c) /\ fits 32 (FwCellSize c) /\ - 2 ^ 63 <= FwCellInterval c < 2 ^ 63 /\ fits 16 (PeerSlots c) /\ length (PublicSeed c) = 32%nat.

Inductive firewall_error :=
| ErrCellsPerEpoch
| ErrFwCellSize
| ErrPlannerLimit
| ErrCellInterval
| ErrPeerSlots
| ErrEpochDuration
| ErrCadenceIndex.

Definition ValidateNetwork (c : NetworkConfig) : result firewall_error unit :=
  if CellsPerEpoch c =? 0 then Err ErrCellsPerEpoch
  else if FwCellSize c =? 0 then Err ErrFwCellSize
  else if MaxCellsPerEpoch <? CellsPerEpoch c then Err ErrPlannerLimit
  else if FwCellInterval c <=? 0 then Err ErrCellInterval
  else if PeerSlots c =? 0 then Err ErrPeerSlots
  else if (2 ^ 63 - 1) / u64 (CellsPerEpoch c) <? u64 (FwCellInterval c) then Err ErrEpochDuration
  else Ok tt.

Definition EpochDuration (c : NetworkConfig) : result firewall_error Z :=
  _ ← ValidateNetwork c; Ok (i64 (CellsPerEpoch c * FwCellInterval c)).

Record Emission := mkEmission {
  EmEpoch : Z;
  EmSlot : Z;
  CadenceIndex : Z;
  EmOffset : Z;
  PeerSlot : Z;
  EmSize : Z;
}.

Definition planDomain : list byte := String.list_byte_of_string "nomad-selection-firewall-plan-v1".
Definition observableDomain : list byte := String.list_byte_of_string "nomad-observable-plan-v1".

Section plan.
Context `{HashFunction}.

Definition peer_of (c : NetworkConfig) (epoch i : Z) : Z :=
  be_val (take 2 (sha256 (planDomain ++ PublicSeed c ++ be 8 epoch ++ be 4 i))) mod PeerSlots c.

Definition emission (c : NetworkConfig) (epoch i : Z) : Emission :=
  mkEmission epoch i (u64 (u64 (epoch * CellsPerEpoch c) + i)) (i64 (i * FwCellInterval c)) (peer_of c epoch i) (FwCellSize c).

Definition Plan (c : NetworkConfig) (epoch : Z) : result firewall_error (list Emission) :=
  _ ← ValidateNetwork c;
  if (2 ^ 64 - 1) / u64 (CellsPerEpoch c) <? epoch then Err ErrCadenceIndex
  else Ok (map (emission c epoch) (seqZ 0 (CellsPerEpoch c))).

Definition emission_bytes (e : Emission) : list byte :=
  be 8 (EmEpoch e) ++ be 4 (EmSlot e) ++ be 8 (CadenceIndex e) ++ be 8 (u64 (EmOffset e)) ++ be 2 (PeerSlot e) ++ be 4 (EmSize e).

Definition observable_message (plan : list Emission) : list byte := observableDomain ++ concat (map emission_bytes plan).

Definition ObservableDigest (plan : list Emission) : list byte := sha256 (observable_message plan).

(** ** Properties *)

Lemma ValidateNetwork_ok c : config_typed c -> ValidateNetwork c = Ok tt <->
  0 < CellsPerEpoch c <= MaxCellsPerEpoch /\ 0 < FwCellSize c /\ 0 < FwCellInterval c /\ 0 < PeerSlots c /\ CellsPerEpoch c * FwCellInterval c < 2 ^ 63.
Proof.
  intros (Hc & Hs & Hi & Hp & _). unfold fits in *. unfold ValidateNetwork, MaxCellsPerEpoch. rewrite (wrapu_small 64 (CellsPerEpoch c)) by (unfold fits; lia). split.
  - intros E. run_guards E. rewrite wrapu_small in * by (unfold fits; lia). split_and!; try lia.
    assert (FwCellInterval c <= (2 ^ 63 - 1) / CellsPerEpoch c) as Hle by lia. assert (0 < CellsPerEpoch c) by lia.
    pose proof (Z.mul_div_le (2 ^ 63 - 1) (CellsPerEpoch c) ltac:(lia)). nia.
  - intros (Hc0 & Hs0 & Hi0 & Hp0 & Hd). rewrite !(proj2 (Z.eqb_neq _ _)) by lia. rewrite (proj2 (Z.ltb_ge _ _)), (proj2 (Z.leb_gt _ _)) by lia.
    rewrite wrapu_small by (unfold fits; lia). rewrite (proj2 (Z.ltb_ge _ _)); [done|]. apply Z.div_le_lower_bound; lia.
Qed.

Lemma emission_exact c epoch i : config_typed c -> ValidateNetwork c = Ok tt -> 0 <= epoch -> (epoch + 1) * CellsPerEpoch c <= 2 ^ 64 -> 0 <= i < CellsPerEpoch c ->
  CadenceIndex (emission c epoch i) = epoch * CellsPerEpoch c + i /\ EmOffset (emission c epoch i) = i * FwCellInterval c /\
  0 <= PeerSlot (emission c epoch i) < PeerSlots c.
Proof.
  intros Ht Hv He Hlast Hi. apply ValidateNetwork_ok in Hv as (Hc & Hs & Hiv & Hp & Hd); [|done]. cbn [emission CadenceIndex EmOffset PeerSlot].
  split_and!; [|rewrite i64_small; [done|nia]|apply Z.mod_pos_bound; lia|apply Z.mod_pos_bound; lia].
  rewrite (wrapu_small 64 (epoch * _)) by (unfold fits; nia). rewrite wrapu_small by (unfold fits; nia). done.
Qed.

Lemma emission_bytes_length e : length (emission_bytes e) = 34%nat.
Proof. unfold emission_bytes. by rewrite !length_app, !length_be. Qed.

(** Values within the widths of the fields. *)
Definition emission_typed (e : Emission) : Prop :=
  fits 64 (EmEpoch e) /\ fits 32 (EmSlot e) /\ fits 64 (CadenceIndex e) /\ - 2 ^ 63 <= EmOffset e < 2 ^ 63 /\ fits 16 (PeerSlot e) /\ fits 32 (EmSize e).

Lemma emission_bytes_inj e e' : emission_typed e -> emission_typed e' -> emission_bytes e = emission_bytes e' -> e = e'.
Proof.
  intros (A1 & A2 & A3 & A4 & A5 & A6) (B1 & B2 & B3 & B4 & B5 & B6). unfold emission_bytes, fits in *.
  intros [E1 [E2 [E3 [E4 [E5 E6]%app_eq_length_inj]%app_eq_length_inj]%app_eq_length_inj]%app_eq_length_inj]%app_eq_length_inj; try (by rewrite !length_be).
  apply be_inj in E1, E2, E3, E4, E5, E6; try (simpl; lia); try (simpl; unfold wrapu; apply Z.mod_pos_bound; lia).
  assert (EmOffset e = EmOffset e') as Eo. { unfold wrapu in E4. Z.to_euclidean_division_equations. lia. }
  destruct e, e'; simpl in *; by subst.
Qed.

Lemma observable_inj p p' : Forall emission_typed p -> Forall emission_typed p' -> observable_message p = observable_message p' -> p = p'.
Proof.
  intros Hp. unfold observable_message. revert p'. induction Hp as [|e p He Hp IH]; intros p' Hp' E; apply app_inv_head in E.
  - destruct p' as [|e' p']; [done|]. apply (f_equal length) in E. cbn [map concat] in E. rewrite length_app, emission_bytes_length in E. simpl in E. lia.
  - destruct Hp' as [|e' p' He' Hp'].
    + apply (f_equal length) in E. cbn [map concat] in E. rewrite length_app, emission_bytes_length in E. simpl in E. lia.
    + cbn [map concat] in E. apply app_eq_length_inj in E as [E1 E2]; [|by rewrite !emission_bytes_length].
      apply emission_bytes_inj in E1 as ->; [|done|done]. f_equal. apply IH; [done|]. by rewrite E2.
Qed.

Lemma Plan_defined c epoch : config_typed c -> fits 64 epoch ->
  is_ok (Plan c epoch) = true <-> is_ok (ValidateNetwork c) = true /\ epoch * CellsPerEpoch c <= 2 ^ 64 - 1.
Proof.
  intros Ht He. unfold Plan. destruct (ValidateNetwork c) as [[]|] eqn:Ev; cbn [mbind result_bind is_ok]; [|split; [done|by intros [? _]]].
  apply ValidateNetwork_ok in Ev as (Hc & _); [|done]. unfold fits, MaxCellsPerEpoch in *. rewrite (wrapu_small 64 (CellsPerEpoch c)) by (unfold fits; lia).
  pose proof (Z.mul_div_le (2 ^ 64 - 1) (CellsPerEpoch c) ltac:(lia)) as Hm.
  destruct (Z.ltb_spec ((2 ^ 64 - 1) / CellsPerEpoch c) epoch) as [Hlt|Hge]; cbn [is_ok]; split; try done.
  - intros [_ Hle]. exfalso. assert (epoch <= (2 ^ 64 - 1) / CellsPerEpoch c) by (apply Z.div_le_lower_bound; lia). lia.
  - intros _. split; [done|]. nia.
Qed.

Lemma Plan_ok c epoch plan : config_typed c -> fits 64 epoch -> Plan c epoch = Ok plan -> (epoch + 1) * CellsPerEpoch c <= 2 ^ 64 ->
  ValidateNetwork c = Ok tt /\ len plan = CellsPerEpoch c /\
  (forall i e, plan !! i = Some e -> EmEpoch e = epoch /\ EmSlot e = Z.of_nat i /\ CadenceIndex e = epoch * CellsPerEpoch c + Z.of_nat i /\
    EmOffset e = Z.of_nat i * FwCellInterval c /\ 0 <= PeerSlot e < PeerSlots c /\ EmSize e = FwCellSize c) /\
  Forall emission_typed plan.
Proof.
  intros Ht He Hp Hlast. unfold Plan in Hp. destruct (ValidateNetwork c) as [[]|] eqn:Ev; [|done]. cbn [mbind result_bind] in Hp.
  destruct (_ <? epoch); [done|]. apply (inj Ok) in Hp. subst plan. pose proof Ev as Ev'. apply ValidateNetwork_ok in Ev' as (Hc & Hs & Hiv & Hps & Hd); [|done].
  assert (forall i e, map (emission c epoch) (seqZ 0 (CellsPerEpoch c)) !! i = Some e -> EmEpoch e = epoch /\ EmSlot e = Z.of_nat i /\
    CadenceIndex e = epoch * CellsPerEpoch c + Z.of_nat i /\ EmOffset e = Z.of_nat i * FwCellInterval c /\ 0 <= PeerSlot e < PeerSlots c /\
    EmSize e = FwCellSize c /\ Z.of_nat i < CellsPerEpoch c) as Hat.
  { intros i e Hi. apply map_lookup_Some_1 in Hi as (x & Hx & ->). apply lookup_seqZ in Hx as [-> Hx]. rewrite Z.add_0_l in *.
    unfold fits in He. destruct (emission_exact c epoch (Z.of_nat i) Ht Ev ltac:(lia) Hlast ltac:(lia)) as (-> & -> & Hpeer). split_and!; try done; lia. }
  split_and!; [done| | |].
  - rewrite length_map, length_seqZ. lia.
  - intros i e Hi. destruct (Hat i e Hi) as (? & ? & ? & ? & ? & ? & _). done.
  - apply Forall_forall. intros e Hin. apply list_elem_of_lookup in Hin as [i Hi]. destruct (Hat i e Hi) as (E1 & E2 & E3 & E4 & Hpeer & E6 & Hlt).
    destruct Ht as (T1 & T2 & T3 & T4 & _). unfold emission_typed. rewrite E1, E2, E3, E4, E6. unfold fits, MaxCellsPerEpoch in *. split_and!; try lia; nia.
Qed.
End plan.

(** C22: The plan is exactly the public timetable.  It exists exactly if the
    configuration is valid and the cadence index of the epoch's first cell fits 64
    bits.  Where that of the last cell fits too, slot [i] of epoch [e] is the cell number [e * CellsPerEpoch + i] of the
    network, so consecutive epochs continue each other without gap or repetition;
    it leaves [i] intervals after the start, before the end of the epoch, to a
    peer slot that exists, with the one public size; no arithmetic wraps; and two
    plans with the same observable digest are the same plan, of the messages at
    hand no two being assumed to collide. *)
Theorem plan_exact `{HashFunction} (c c' : NetworkConfig) (epoch epoch' : Z) :
  config_typed c -> config_typed c' -> fits 64 epoch -> fits 64 epoch' ->
  (is_ok (Plan c epoch) = true <-> is_ok (ValidateNetwork c) = true /\ epoch * CellsPerEpoch c <= 2 ^ 64 - 1) /\
  forall plan, Plan c epoch = Ok plan -> (epoch + 1) * CellsPerEpoch c <= 2 ^ 64 ->
    len plan = CellsPerEpoch c /\
    (forall i e, plan !! i = Some e -> EmEpoch e = epoch /\ EmSlot e = Z.of_nat i /\ CadenceIndex e = epoch * CellsPerEpoch c + Z.of_nat i /\
      EmOffset e = Z.of_nat i * FwCellInterval c /\ EpochDuration c = Ok (CellsPerEpoch c * FwCellInterval c) /\
      EmOffset e < CellsPerEpoch c * FwCellInterval c /\ 0 <= PeerSlot e < PeerSlots c /\ EmSize e = FwCellSize c) /\
    forall plan', Plan c' epoch' = Ok plan' -> (epoch' + 1) * CellsPerEpoch c' <= 2 ^ 64 ->
      collision_free [observable_message plan; observable_message plan'] -> ObservableDigest plan = ObservableDigest plan' -> plan = plan'.
Proof.
  intros Ht Ht' He He'. split; [by apply Plan_defined|]. intros plan Hp Hlast. destruct (Plan_ok c epoch plan Ht He Hp Hlast) as (Hv & Hlen & Hat & Htyped).
  split_and!; [done| |].
  - intros i e Hi. pose proof Hv as Hv'. apply ValidateNetwork_ok in Hv' as (Hc & _ & Hiv & _ & Hd); [|done]. pose proof (lookup_lt_Some _ _ _ Hi) as Hlt.
    destruct (Hat i e Hi) as (E1 & E2 & Hcad & Hoff & Hpeer & E6). split_and!; try done; try lia; [|nia].
    unfold EpochDuration. rewrite Hv. cbn [mbind result_bind]. rewrite i64_small; [done|nia].
  - intros plan' Hp' Hlast' Hcf E. destruct (Plan_ok c' epoch' plan' Ht' He' Hp' Hlast') as (_ & _ & _ & Htyped').
    apply observable_inj; [done|done|]. apply Hcf; [set_solver|set_solver|exact E].
Qed.

Section example.
#[local] Existing Instance example_hash.

Definition example_network : NetworkConfig := mkNetworkConfig 10 1200 20000000 5 (replicate 32 x07).

Lemma plan_exact_witness : exists plan, Plan example_network 3 = Ok plan /\ len plan = 10 /\
  (forall e, plan !! 4%nat = Some e -> CadenceIndex e = 34 /\ EmOffset e = 80000000).
Proof.
  eexists. split; [vm_compute; reflexivity|].
  destruct (plan_exact example_network example_network 3 3) as [_ Hp]; try (apply (bool_decide_unpack _); vm_compute; exact I).
  destruct (Hp _ ltac:(vm_compute; reflexivity) ltac:(vm_compute; discriminate)) as (Hl & Hat & _). split; [exact Hl|].
  intros e He. destruct (Hat _ _ He) as (_ & _ & Hc & Ho & _). split; [exact Hc|exact Ho].
Defined.

(** The test of the cadence index looks at the first cell of the epoch only: in the
    last epoch that it lets through, the index wraps. *)
Lemma cadence_wraps : exists plan, Plan example_network 1844674407370955161 = Ok plan /\ CadenceIndex <$> last plan = Some 3.
Proof. eexists. split; vm_compute; reflexivity. Qed.
End example.
