(* ===== verification/WitnessPolicy.v ===== *)
(** The pinned witness set of a reader
    ([sdk/.../site/transparency/witness.go], [WitnessPolicy]): which witnesses
    count, how many are required, and the check of a head's cosignatures. *)

From stdpp Require Import base list list_numbers gmap fin_sets strings.
From Stdlib Require Import ZArith Lia Strings.Byte.
From S2P Require Import Prelude Bytes Hash Codec Merkle Checkpoint.

(** ** Definitions *)

Definition witnessDomain : list byte :=
  String.list_byte_of_string "nomad-site-log-witness-signature-v1".
Definition maxCosignatures : Z := 16.
Definition maxWitnessNameBytes : Z := 64.

Definition WitnessSigningMessage (witness origin : list byte) (size : Z) (root when_ : list byte)
  : list byte :=
  let out := appendString [] witnessDomain in
  let out := appendString out witness in
  let out := appendString out origin in
  let out := appendUint64 out size in
  let out := out ++ root in
  appendString out when_.

Record WitnessPolicy := mkPolicy {
  threshold : Z;
  keys : gmap (list byte) (list byte);
}.

Inductive policy_error :=
| ErrNoWitnesses
| ErrTooManyWitnesses
| ErrThresholdLow
| ErrThresholdHigh
| ErrWitnessName
| ErrWitnessNameLength
| ErrWitnessKey
| ErrSharedKey
| ErrNoPolicy
| ErrTooManyCosignatures
| ErrWitnessTwice
| ErrCosignatureEncoding
| ErrCosignature
| ErrUnderwitnessed.

(** The loop over the given keys, with the keys seen so far.  Go visits a map
    in an unspecified order; the order decides which error is reported, never
    whether there is one. *)
Fixpoint check_keys (seen : list (list byte)) (entries : list (list byte * list byte))
  : result policy_error unit :=
  match entries with
  | [] => Ok tt
  | (name, key) :: entries =>
      if bool_decide (name = []) then Err ErrWitnessName
      else if maxWitnessNameBytes <? len name then Err ErrWitnessNameLength
      else if negb (Nat.eqb (length key) 32) then Err ErrWitnessKey
      else if bool_decide (key ∈ seen) then Err ErrSharedKey
      else check_keys (key :: seen) entries
  end.

Definition NewWitnessPolicy (threshold : Z) (keys : gmap (list byte) (list byte))
  : result policy_error WitnessPolicy :=
  if Z.of_nat (size keys) =? 0 then Err ErrNoWitnesses
  else if maxCosignatures <? Z.of_nat (size keys) then Err ErrTooManyWitnesses
  else if threshold <? 1 then Err ErrThresholdLow
  else if Z.of_nat (size keys) <? threshold then Err ErrThresholdHigh
  else _ ← check_keys [] (map_to_list keys); Ok (mkPolicy threshold keys).

Section operations.
Context `{SignatureScheme}.

(** The loop over the cosignatures: the pinned witnesses counted so far. *)
Fixpoint count_cosignatures (policy : WitnessPolicy) (checkpoint : Checkpoint) (root : list byte)
  (counted : gset (list byte)) (cosignatures : list Cosignature)
  : result policy_error (gset (list byte)) :=
  match cosignatures with
  | [] => Ok counted
  | c :: cosignatures =>
      match keys policy !! CWitness c with
      | None => count_cosignatures policy checkpoint root counted cosignatures
      | Some key =>
          if bool_decide (CWitness c ∈ counted) then Err ErrWitnessTwice
          else match canonical_base64 (CSignature c) 64 with
          | None => Err ErrCosignatureEncoding
          | Some signature =>
              let message := WitnessSigningMessage (CWitness c) (Origin checkpoint)
                               (HeadSize checkpoint) root (Time checkpoint) in
              if negb (verify key message signature) then Err ErrCosignature
              else count_cosignatures policy checkpoint root ({[CWitness c]} ∪ counted) cosignatures
          end
      end
  end.

(** [None] is a nil policy. *)
Definition PolicyVerify (policy : option WitnessPolicy) (checkpoint : Checkpoint) (root : list byte)
  : result policy_error unit :=
  match policy with
  | None => Err ErrNoPolicy
  | Some policy =>
      if maxCosignatures <? len (Cosignatures checkpoint) then Err ErrTooManyCosignatures
      else
        counted ← count_cosignatures policy checkpoint root ∅ (Cosignatures checkpoint);
        if Z.of_nat (size counted) <? threshold policy then Err ErrUnderwitnessed else Ok tt
  end.
End operations.

(** ** Signing messages *)

Lemma witness_message_fields w o n r t :
  WitnessSigningMessage w o n r t =
  appendString (appendString [] witnessDomain) w ++ appendString [] o ++ appendUint64 [] n ++
  r ++ appendString [] t.
Proof.
  unfold WitnessSigningMessage. cbv zeta. unfold appendString, appendUint64.
  by rewrite <- !app_assoc.
Qed.

Lemma WitnessSigningMessage_inj w1 w2 o1 o2 n1 n2 r1 r2 t1 t2 :
  addressable w1 -> addressable w2 -> addressable o1 -> addressable o2 ->
  fits 64 n1 -> fits 64 n2 -> is_digest r1 -> is_digest r2 -> addressable t1 -> addressable t2 ->
  WitnessSigningMessage w1 o1 n1 r1 t1 = WitnessSigningMessage w2 o2 n2 r2 t2 ->
  w1 = w2 /\ o1 = o2 /\ n1 = n2 /\ r1 = r2 /\ t1 = t2.
Proof.
  intros Hw1 Hw2 Ho1 Ho2 Hn1 Hn2 Hr1 Hr2 Ht1 Ht2 E. rewrite !witness_message_fields in E.
  apply appendString_split in E as [-> E]; [|done..].
  apply appendString_split in E as [-> E]; [|done..].
  apply (appendUint64_split []) in E as [-> E]; [|done..].
  apply digest_split in E as [-> E]; [|done..].
  split_and!; [done..|]. by apply (appendString_inj []).
Qed.

(** What a log or a witness signs determines everything it says: two heads
    with the same signing message are the same head, two witness statements
    with the same message are the same statement by the same witness, and a
    log's own signature can never serve as a witness's. *)
Theorem signing_messages_unambiguous
  (w1 w2 o1 o2 r1 r2 t1 t2 : list byte) (n1 n2 : Z)
  (Hw1 : addressable w1) (Hw2 : addressable w2) (Ho1 : addressable o1) (Ho2 : addressable o2)
  (Hn1 : fits 64 n1) (Hn2 : fits 64 n2) (Hr1 : is_digest r1) (Hr2 : is_digest r2)
  (Ht1 : addressable t1) (Ht2 : addressable t2) :
  (checkpointSigningMessage o1 n1 r1 t1 = checkpointSigningMessage o2 n2 r2 t2 ->
     o1 = o2 /\ n1 = n2 /\ r1 = r2 /\ t1 = t2) /\
  (WitnessSigningMessage w1 o1 n1 r1 t1 = WitnessSigningMessage w2 o2 n2 r2 t2 ->
     w1 = w2 /\ o1 = o2 /\ n1 = n2 /\ r1 = r2 /\ t1 = t2) /\
  checkpointSigningMessage o1 n1 r1 t1 <> WitnessSigningMessage w2 o2 n2 r2 t2.
Proof.
  split_and!.
  - by apply checkpointSigningMessage_inj.
  - by apply WitnessSigningMessage_inj.
  - rewrite signing_message_fields, witness_message_fields. intros E.
    apply (f_equal (fun l => nth 7 l x00)) in E. discriminate E.
Qed.

Lemma signing_messages_unambiguous_witness :
  checkpointSigningMessage [x6c] 2 (replicate 32 x01) [x74] <>
  WitnessSigningMessage [x77] [x6c] 2 (replicate 32 x01) [x74].
Proof.
  apply (signing_messages_unambiguous [x77] [x77] [x6c] [x6c] (replicate 32 x01) (replicate 32 x01)
           [x74] [x74] 2 2); try reflexivity; (split; [apply Z.leb_le|apply Z.ltb_lt]; reflexivity).
Defined.

(** ** Thresholds *)

Section properties.
Context `{SignatureScheme}.

(** The witness [name] signed the head [checkpoint] with root [root]. *)
Definition cosigned (policy : WitnessPolicy) (checkpoint : Checkpoint) (root name : list byte) : Prop :=
  exists key signature, keys policy !! name = Some key /\
    mkCosignature name (b64_encode signature) ∈ Cosignatures checkpoint /\
    verify key (WitnessSigningMessage name (Origin checkpoint) (HeadSize checkpoint) root
                  (Time checkpoint)) signature = true.

Lemma count_cosignatures_sound policy checkpoint root cs counted counted' :
  (forall c, c ∈ cs -> c ∈ Cosignatures checkpoint) ->
  count_cosignatures policy checkpoint root counted cs = Ok counted' ->
  forall name, name ∈ counted' -> name ∈ counted \/ cosigned policy checkpoint root name.
Proof.
  revert counted. induction cs as [|c cs IH]; intros counted Hsub E name Hn; simpl in E.
  { injection E as <-. by left. }
  assert (forall c', c' ∈ cs -> c' ∈ Cosignatures checkpoint) as Hsub' by (intros; apply Hsub; by right).
  destruct (keys policy !! CWitness c) as [key|] eqn:Ek; [|eauto].
  case_bool_decide; [done|].
  destruct (canonical_base64 (CSignature c) 64) as [sg|] eqn:Es; [|done].
  destruct (negb (verify _ _ _)) eqn:Ev; [done|]. reflect_bools.
  destruct (IH _ Hsub' E name Hn) as [[->%elem_of_singleton|Hin]%elem_of_union|]; auto.
  right. exists key, sg. apply canonical_base64_unique in Es as [_ <-].
  split_and!; [done| |done]. apply Hsub. destruct c. by left.
Qed.

Lemma check_keys_inj seen entries : check_keys seen entries = Ok tt ->
  NoDup (map snd entries) /\ forall k, k ∈ map snd entries -> k ∉ seen.
Proof.
  revert seen. induction entries as [|[name key] entries IH]; intros seen E; simpl in *.
  { split; [constructor|]. by intros k ?%elem_of_nil. }
  case_bool_decide; [done|]. destruct (_ <? _); [done|]. destruct (negb _); [done|].
  case_bool_decide as Hs; [done|]. apply IH in E as [Hnd Hk]. split.
  - constructor; [|done]. intros Hin. apply Hk in Hin. apply Hin. by left.
  - intros k [->|Hin]%elem_of_cons; [done|]. apply Hk in Hin. intros Hin'. apply Hin. by right.
Qed.

(** A policy the constructor accepted: its keys are pairwise distinct. *)
Definition policy_wf (policy : WitnessPolicy) : Prop :=
  1 <= threshold policy <= Z.of_nat (size (keys policy)) /\ Z.of_nat (size (keys policy)) <= 16 /\
  forall n1 n2 k, keys policy !! n1 = Some k -> keys policy !! n2 = Some k -> n1 = n2.

Lemma NewWitnessPolicy_wf t ks policy : NewWitnessPolicy t ks = Ok policy ->
  policy_wf policy /\ threshold policy = t /\ keys policy = ks.
Proof.
  unfold NewWitnessPolicy. intros E.
  destruct (_ =? _) eqn:E0; [done|]. destruct (maxCosignatures <? _) eqn:E1; [done|].
  destruct (t <? 1) eqn:E2; [done|]. destruct (_ <? t) eqn:E3; [done|]. reflect_bools.
  destruct (check_keys [] (map_to_list ks)) as [[]|] eqn:Ec; [|done].
  cbn [mbind result_bind] in E. apply (inj Ok) in E. subst policy. simpl. split; [|done].
  unfold policy_wf. simpl. unfold maxCosignatures in *. split_and!; try lia.
  intros n1 n2 k H1 H2. apply check_keys_inj in Ec as [Hnd _].
  apply elem_of_map_to_list, list_elem_of_lookup in H1 as [i1 H1].
  apply elem_of_map_to_list, list_elem_of_lookup in H2 as [i2 H2].
  assert (i1 = i2) as <-.
  { apply (NoDup_lookup _ i1 i2 k Hnd); rewrite list_lookup_fmap; by rewrite ?H1, ?H2. }
  congruence.
Qed.

(** What an accepted head carries: a set of pinned witnesses, as large as the
    threshold, each with a valid statement. *)
Lemma PolicyVerify_ok policy checkpoint root : PolicyVerify (Some policy) checkpoint root = Ok tt ->
  exists signers : gset (list byte), threshold policy <= Z.of_nat (size signers) /\
    forall name, name ∈ signers -> cosigned policy checkpoint root name.
Proof.
  unfold PolicyVerify. destruct (_ <? _); [done|].
  destruct (count_cosignatures _ _ _ _ _) as [counted|] eqn:E; [|done]. cbn [mbind result_bind].
  destruct (_ <? _) eqn:Et; [done|]. intros _. reflect_bools. exists counted. split; [done|].
  intros name Hn. destruct (count_cosignatures_sound _ _ _ _ _ _ (fun c Hc => Hc) E name Hn); [|done].
  set_solver.
Qed.

(** The threshold counts parties: a head that a policy accepts carries valid
    statements about exactly that head, at that time, under at least
    [threshold] pairwise distinct pinned keys. *)
Theorem threshold_counts_parties (t : Z) (ks : gmap (list byte) (list byte)) (policy : WitnessPolicy)
  (checkpoint : Checkpoint) (root : list byte)
  (Hp : NewWitnessPolicy t ks = Ok policy)
  (Hv : PolicyVerify (Some policy) checkpoint root = Ok tt) :
  exists signing : list (list byte), NoDup signing /\ t <= len signing /\
    forall key, key ∈ signing -> exists name signature, ks !! name = Some key /\
      verify key (WitnessSigningMessage name (Origin checkpoint) (HeadSize checkpoint) root
                    (Time checkpoint)) signature = true.
Proof.
  apply NewWitnessPolicy_wf in Hp as (Hwf & Ht & Hk).
  destruct (PolicyVerify_ok policy checkpoint root Hv) as (signers & Hsize & Hsig).
  set (key_of name := default [] (keys policy !! name)).
  exists (map key_of (elements signers)). split_and!.
  - apply NoDup_fmap_2_strong; [|apply NoDup_elements].
    intros x y Hx%elem_of_elements Hy%elem_of_elements E.
    destruct (Hsig x Hx) as (k1 & _ & H1 & _), (Hsig y Hy) as (k2 & _ & H2 & _).
    unfold key_of in E. rewrite H1, H2 in E. simpl in E. subst k2.
    destruct Hwf as (_ & _ & Hinj). by apply (Hinj x y k1).
  - rewrite length_map. unfold size, set_size in Hsize. simpl in Hsize. lia.
  - intros key Hin. apply list_elem_of_fmap in Hin as (name & -> & Hn%elem_of_elements).
    destruct (Hsig name Hn) as (k & sg & H1 & _ & H2). exists name, sg. unfold key_of.
    rewrite H1 in *. by rewrite <- Hk.
Qed.

(** Two readers with one policy cannot be given different heads without
    witnesses that equivocate: if the policy accepts two heads of one log at
    one size with different roots, at least [2 * threshold - n] of the [n]
    pinned witnesses have signed both, under their own names. *)
Theorem split_needs_equivocating_witnesses (t : Z) (ks : gmap (list byte) (list byte))
  (policy : WitnessPolicy) (c1 c2 : Checkpoint) (r1 r2 : list byte)
  (Hp : NewWitnessPolicy t ks = Ok policy)
  (H1 : PolicyVerify (Some policy) c1 r1 = Ok tt) (H2 : PolicyVerify (Some policy) c2 r2 = Ok tt) :
  exists both : gset (list byte), 2 * t - Z.of_nat (size ks) <= Z.of_nat (size both) /\
    forall name, name ∈ both -> cosigned policy c1 r1 name /\ cosigned policy c2 r2 name.
Proof.
  apply NewWitnessPolicy_wf in Hp as (Hwf & Ht & Hk).
  destruct (PolicyVerify_ok policy c1 r1 H1) as (s1 & Hs1 & Hc1).
  destruct (PolicyVerify_ok policy c2 r2 H2) as (s2 & Hs2 & Hc2).
  exists (s1 ∩ s2). split; [|set_solver].
  assert (s1 ∪ s2 ⊆ dom ks) as Hsub.
  { intros name Hn. apply elem_of_dom. rewrite <- Hk.
    apply elem_of_union in Hn as [Hn|Hn]; [destruct (Hc1 name Hn) as (k & _ & Hkk & _)|
      destruct (Hc2 name Hn) as (k & _ & Hkk & _)]; by exists k. }
  apply subseteq_size in Hsub. rewrite size_dom in Hsub.
  pose proof (size_union_alt s1 s2) as Hu.
  assert (size s2 = size (s2 ∖ s1) + size (s1 ∩ s2))%nat as Hd.
  { rewrite <- size_union by set_solver. f_equal. apply set_eq. intros x.
    destruct (decide (x ∈ s1)); set_solver. }
  lia.
Qed.
End properties.

(** ** Witnesses *)

Section witness.
#[local] Existing Instance example_signatures.

Definition example_keys : gmap (list byte) (list byte) :=
  <[[x61] := replicate 32 x0a]> (<[[x62] := replicate 32 x0b]> ∅).
Definition example_policy : WitnessPolicy := mkPolicy 2 example_keys.

Definition example_cosign (name key root : list byte) : Cosignature :=
  mkCosignature name
    (b64_encode (example_signature key (WitnessSigningMessage name [x6c] 2 root [x74]))).

(** A head of the log "l" cosigned by the witnesses "a" and "b". *)
Definition example_head (root : list byte) : Checkpoint :=
  mkCheckpoint CheckpointVersion [x6c] 2 (hex_encode root) [x74] []
    [example_cosign [x61] (replicate 32 x0a) root; example_cosign [x62] (replicate 32 x0b) root].

Lemma threshold_counts_parties_witness : exists signing : list (list byte), NoDup signing /\ 2 <= len signing.
Proof.
  destruct (threshold_counts_parties 2 example_keys example_policy (example_head (replicate 32 x01))
    (replicate 32 x01)) as (signing & Hn & Hl & _).
  - reflexivity.
  - reflexivity.
  - exists signing. split; [exact Hn|exact Hl].
Defined.

Lemma split_needs_equivocating_witnesses_witness : exists both : gset (list byte),
  2 <= Z.of_nat (size both).
Proof.
  destruct (split_needs_equivocating_witnesses 2 example_keys example_policy
    (example_head (replicate 32 x01)) (example_head (replicate 32 x02))
    (replicate 32 x01) (replicate 32 x02)) as (both & Hs & _).
  - reflexivity.
  - reflexivity.
  - reflexivity.
  - exists both. change (2 * 2 - Z.of_nat (size example_keys)) with 2 in Hs. exact Hs.
Defined.
End witness.
