(* ===== verification/Monitor.v ===== *)
(** The reader's and the witness's side of the transparency log
    ([sdk/.../site/transparency/monitor.go] and [Witness] of [witness.go]), and
    the log itself.

    A [Monitor] is updated in one order by its callers; a run is a sequence of
    calls. *)

From stdpp Require Import base list list_numbers gmap strings.
From Stdlib Require Import ZArith Lia Strings.Byte.
From S2P Require Import Prelude Bytes Hash Codec Merkle Checkpoint WitnessPolicy.

(** ** Definitions *)

Definition maxClockSkew : Z := 5 * 60 * second.
Definition maxRememberedHeads : nat := 128.

Record SplitViewProof := mkSplit {
  POrigin : list byte;
  PSize : Z;
  First : Checkpoint;
  Second : Checkpoint;
}.

Record Monitor := mkMonitor {
  origin : list byte;
  logKey : list byte;
  freshness : Z;
  latest : option SignedCheckpoint;
  heads : gmap Z Checkpoint;
  order : list Z;
  policy : option WitnessPolicy;
  split_view : option SplitViewProof;
}.

Inductive monitor_error :=
| ErrMonitorOrigin
| ErrMonitorKey
| ErrMonitorFreshness
| ErrMonitorPolicy           (* a cosigned monitor needs a policy *)
| ErrSplitView (proof : SplitViewProof)
| ErrCheckpoint (e : checkpoint_error)
| ErrFutureHead
| ErrPolicy (e : policy_error)
| ErrLogShrank
| ErrTimeBackwards
| ErrProofRange
| ErrConsistency (e : tree_error)
| ErrStale
| ErrProofSize
| ErrInclusion (e : tree_error)
| ErrNoProof
| ErrSplitSize
| ErrSameRoot
| ErrWitnessParty            (* witness name or key refused *)
| ErrHeadMissing
| ErrEntryMissing.

Section operations.
Context `{HashFunction} `{SignatureScheme} `{Calendar} `{CheckpointJSON}.

Definition VerifySplitView (proof : option SplitViewProof) (logKey : list byte)
  : result monitor_error unit :=
  match proof with
  | None => Err ErrNoProof
  | Some proof =>
      first ← wrap ErrCheckpoint (VerifyCheckpoint (First proof) (POrigin proof) logKey);
      second ← wrap ErrCheckpoint (VerifyCheckpoint (Second proof) (POrigin proof) logKey);
      if negb (SSize first =? PSize proof) || negb (SSize second =? PSize proof) then Err ErrSplitSize
      else if bool_decide (SRoot first = SRoot second) then Err ErrSameRoot
      else Ok tt
  end.

Definition NewMonitor (origin logKey : list byte) (freshness : Z) : result monitor_error Monitor :=
  if bool_decide (origin = []) then Err ErrMonitorOrigin
  else if negb (Nat.eqb (length logKey) 32) then Err ErrMonitorKey
  else if freshness <=? 0 then Err ErrMonitorFreshness
  else Ok (mkMonitor origin logKey freshness None ∅ [] None None).

Definition NewCosignedMonitor (origin logKey : list byte) (freshness : Z)
  (policy : option WitnessPolicy) : result monitor_error Monitor :=
  match policy with
  | None => Err ErrMonitorPolicy
  | Some p =>
      m ← NewMonitor origin logKey freshness;
      let 'mkMonitor o k f l h ord _ sp := m in
      Ok (mkMonitor o k f l h ord (Some p) sp)
  end.

Definition Equivocating (m : Monitor) : option SplitViewProof := split_view m.
Definition Head (m : Monitor) : option SignedCheckpoint := latest m.

Definition Fresh (m : Monitor) (now : Z) : bool :=
  match latest m with
  | None => false
  | Some head => now <=? STime head + freshness m
  end.

(** The eviction loop of [remember]. *)
Fixpoint evict (fuel : nat) (heads : gmap Z Checkpoint) (order : list Z)
  : gmap Z Checkpoint * list Z :=
  match fuel with
  | O => (heads, order)
  | S fuel =>
      if bool_decide (maxRememberedHeads < length order)%nat then
        match order with
        | oldest :: order => evict fuel (delete oldest heads) order
        | [] => (heads, order)
        end
      else (heads, order)
  end.

Definition remember (heads : gmap Z Checkpoint) (order : list Z) (size : Z) (checkpoint : Checkpoint)
  : gmap Z Checkpoint * list Z :=
  let order := match heads !! size with Some _ => order | None => order ++ [size] end in
  evict (length order) (<[size := checkpoint]> heads) order.

(** The checks of [Update] against the held head. *)
Definition extends_held (m : Monitor) (verified : SignedCheckpoint) (proof : ConsistencyProof)
  : result monitor_error unit :=
  match latest m with
  | Some held =>
      if SSize verified <? SSize held then Err ErrLogShrank
      else if STime verified <? STime held then Err ErrTimeBackwards
      else if negb (Old proof =? SSize held) || negb (New proof =? SSize verified)
      then Err ErrProofRange
      else wrap ErrConsistency (VerifyConsistency proof (SRoot held) (SRoot verified))
  | None =>
      if negb (Old proof =? 0) || negb (New proof =? SSize verified) then Err ErrProofRange else Ok tt
  end.

Definition Update (m : Monitor) (checkpoint : Checkpoint) (proof : ConsistencyProof) (now : Z)
  : Monitor * result monitor_error unit :=
  match split_view m with
  | Some evidence => (m, Err (ErrSplitView evidence))
  | None =>
    match VerifyCheckpoint checkpoint (origin m) (logKey m) with
    | Err e => (m, Err (ErrCheckpoint e))
    | Ok verified =>
      if now + maxClockSkew <? STime verified then (m, Err ErrFutureHead)
      else
        let conflict := match heads m !! SSize verified with
                        | Some previous =>
                            if bool_decide (HeadRoot previous = HeadRoot checkpoint) then None
                            else Some previous
                        | None => None
                        end in
        match conflict with
        | Some previous =>
            let evidence := mkSplit (origin m) (SSize verified) previous checkpoint in
            (mkMonitor (origin m) (logKey m) (freshness m) (latest m) (heads m) (order m)
               (policy m) (Some evidence), Err (ErrSplitView evidence))
        | None =>
            match match policy m with
                  | None => Ok tt
                  | Some p => PolicyVerify (Some p) checkpoint (SRoot verified)
                  end with
            | Err e => (m, Err (ErrPolicy e))
            | Ok _ =>
                match extends_held m verified proof with
                | Err e => (m, Err e)
                | Ok _ =>
                    let (heads', order') := remember (heads m) (order m) (SSize verified) checkpoint in
                    (mkMonitor (origin m) (logKey m) (freshness m) (Some verified) heads' order'
                       (policy m) (split_view m), Ok tt)
                end
            end
        end
    end
  end.

Definition MonitorAccept (m : Monitor) (entry : list byte) (proof : InclusionProof) (now : Z)
  : result monitor_error unit :=
  match split_view m with
  | Some evidence => Err (ErrSplitView evidence)
  | None =>
      match latest m with
      | None => Err ErrStale
      | Some held =>
          if negb (Fresh m now) then Err ErrStale
          else if negb (Size proof =? SSize held) then Err ErrProofSize
          else wrap ErrInclusion (VerifyInclusion proof entry (SRoot held))
      end
  end.

(** The publishing side. *)
Record Log := mkLog {
  log_origin : list byte;
  private : list byte;
  tree : Tree;
  entries : list (list byte);
  index : gmap (list byte) Z;
}.

Definition NewLog (origin private : list byte) : result monitor_error Log :=
  if bool_decide (origin = []) then Err ErrMonitorOrigin
  else if maxOriginBytes <? len origin then Err (ErrCheckpoint ErrOriginLength)
  else if negb (Nat.eqb (length private) 64) then Err ErrMonitorKey
  else Ok (mkLog origin private emptyTree [] ∅).

Definition LogAppend (log : Log) (entry : list byte) : Log * Z :=
  match index log !! entry with
  | Some at_ => (log, at_)
  | None =>
      let (tree', at_) := Append (tree log) entry in
      (mkLog (log_origin log) (private log) tree' (entries log ++ [entry])
         (<[entry := at_]> (index log)), at_)
  end.

Definition LogCheckpointAt (log : Log) (size now : Z) : result monitor_error Checkpoint :=
  wrap ErrCheckpoint (SignCheckpoint (log_origin log) (tree log) size now (private log)).
Definition LogCheckpoint (log : Log) (now : Z) : result monitor_error Checkpoint :=
  LogCheckpointAt log (TreeSize (tree log)) now.

Definition LogProveInclusion (log : Log) (entry : list byte) (size : Z)
  : result monitor_error InclusionProof :=
  match index log !! entry with
  | None => Err ErrEntryMissing
  | Some at_ => wrap ErrInclusion (ProveInclusion (tree log) at_ size)
  end.

Definition LogProveConsistency (log : Log) (old new : Z) : result monitor_error ConsistencyProof :=
  wrap ErrConsistency (ProveConsistency (tree log) old new).

(** A witness: a monitor and a signing key. *)
Record Witness := mkWitness {
  name : list byte;
  wprivate : list byte;
  monitor : Monitor;
}.

Definition NewWitness (name private origin logKey : list byte) (freshness : Z)
  : result monitor_error Witness :=
  if bool_decide (name = []) then Err ErrWitnessParty
  else if maxWitnessNameBytes <? len name then Err ErrWitnessParty
  else if negb (Nat.eqb (length private) 64) then Err ErrWitnessParty
  else m ← NewMonitor origin logKey freshness; Ok (mkWitness name private m).

Definition Cosign (w : Witness) (checkpoint : Checkpoint) (proof : ConsistencyProof) (now : Z)
  : Witness * result monitor_error Cosignature :=
  match Update (monitor w) checkpoint proof now with
  | (m', Err e) => (mkWitness (name w) (wprivate w) m', Err e)
  | (m', Ok _) =>
      let w' := mkWitness (name w) (wprivate w) m' in
      match Head m' with
      | None => (w', Err ErrHeadMissing)
      | Some head =>
          let message := WitnessSigningMessage (name w) (SOrigin head) (SSize head) (SRoot head)
                           (Time checkpoint) in
          (w', Ok (mkCosignature (name w) (b64_encode (sign (wprivate w) message))))
      end
  end.
End operations.

(** ** The remembered heads *)

Section memory.

Lemma evict_spec fuel hs o : (length o - maxRememberedHeads <= fuel)%nat -> NoDup o ->
  let k := (length o - maxRememberedHeads)%nat in
  (evict fuel hs o).2 = drop k o /\
  forall n, (evict fuel hs o).1 !! n = if bool_decide (n ∈ take k o) then None else hs !! n.
Proof.
  revert hs o. induction fuel as [|fuel IH]; intros hs o Hf Hnd; simpl.
  { replace (length o - maxRememberedHeads)%nat with 0%nat by lia. split; [done|].
    intros n. by rewrite bool_decide_false by apply not_elem_of_nil. }
  case_bool_decide as Hlt.
  2: { replace (length o - maxRememberedHeads)%nat with 0%nat by lia. split; [done|].
       intros n. by rewrite bool_decide_false by apply not_elem_of_nil. }
  destruct o as [|x o]; [simpl in Hlt; unfold maxRememberedHeads in *; lia|].
  cbn [length] in *. apply NoDup_cons in Hnd as [Hx Hnd].
  replace (S (length o) - maxRememberedHeads)%nat with (S (length o - maxRememberedHeads)) by lia.
  destruct (IH (delete x hs) o) as [Ho Hh]; [lia|done|]. simpl. split; [done|].
  intros n. rewrite Hh, lookup_delete. destruct (decide (x = n)) as [<-|Hne].
  - rewrite (bool_decide_true (x ∈ x :: _)) by (by left). by case_bool_decide.
  - rewrite (bool_decide_ext (n ∈ x :: take (length o - maxRememberedHeads) o)
               (n ∈ take (length o - maxRememberedHeads) o)); [done|].
    rewrite elem_of_cons. split; [intros [->|?]; done|by right].
Qed.

(** [order] lists the sizes of [heads], once each, at most 128 of them. *)
Definition memory_inv (hs : gmap Z Checkpoint) (o : list Z) : Prop :=
  NoDup o /\ (length o <= maxRememberedHeads)%nat /\ forall n, n ∈ o <-> is_Some (hs !! n).

Lemma remember_inv hs o n c : memory_inv hs o -> (forall x, x ∈ o -> x <= n) ->
  memory_inv (remember hs o n c).1 (remember hs o n c).2 /\
  (remember hs o n c).1 !! n = Some c /\
  (forall x, x ∈ (remember hs o n c).2 -> x <= n) /\
  (forall x c', (remember hs o n c).1 !! x = Some c' -> x <> n -> hs !! x = Some c').
Proof.
  intros (Hnd & Hlen & Hdom) Hmax. unfold remember.
  set (o1 := match hs !! n with Some _ => o | None => o ++ [n] end).
  assert (NoDup o1) as Hnd1.
  { unfold o1. destruct (hs !! n) eqn:E; [done|]. apply NoDup_app. split_and!; [done| |by apply NoDup_singleton].
    intros x Hx ->%list_elem_of_singleton. apply Hdom in Hx. rewrite E in Hx. by destruct Hx. }
  assert (forall x, x ∈ o1 <-> x = n \/ is_Some (hs !! x)) as Hdom1.
  { intros x. unfold o1. destruct (hs !! n) as [c0|] eqn:E.
    - rewrite Hdom. split; [by right|]. intros [->|]; [by rewrite E|done].
    - rewrite elem_of_app, list_elem_of_singleton, Hdom. naive_solver. }
  assert (n ∈ drop (length o1 - maxRememberedHeads) o1 /\
          (length o1 <= S maxRememberedHeads)%nat) as [Hn Hl1].
  { unfold o1. destruct (hs !! n) as [c0|] eqn:E.
    - replace (length o - maxRememberedHeads)%nat with 0%nat by lia.
      split; [apply Hdom; by rewrite E|lia].
    - rewrite length_app. cbn [length]. split; [|lia]. rewrite drop_app_le by (unfold maxRememberedHeads in *; lia).
      apply elem_of_app. right. by left. }
  destruct (evict_spec (length o1) (<[n:=c]> hs) o1) as [Ho Hh]; [lia|done|].
  set (k := (length o1 - maxRememberedHeads)%nat) in *.
  assert (forall x, x ∈ take k o1 -> x ∈ drop k o1 -> False) as Hdisj.
  { rewrite <- (take_drop k o1) in Hnd1. apply NoDup_app in Hnd1 as (_ & Hd & _). eauto. }
  assert (forall x, x ∈ o1 <-> x ∈ take k o1 \/ x ∈ drop k o1) as Hsplit.
  { intros x. rewrite <- elem_of_app, take_drop. done. }
  split_and!.
  - rewrite Ho. unfold memory_inv. split_and!.
    + rewrite <- (take_drop k o1) in Hnd1. by apply NoDup_app in Hnd1 as (_ & _ & ?).
    + rewrite length_drop. unfold k. lia.
    + intros x. rewrite Hh. case_bool_decide as Hx.
      * split; [intros Hd; by destruct (Hdisj x)|by intros [? ?]].
      * assert (x ∈ drop k o1 <-> x ∈ o1) as -> by (rewrite (Hsplit x); tauto).
        rewrite Hdom1. destruct (decide (n = x)) as [->|Hne].
        -- rewrite lookup_insert_eq. split; [by eauto|by left].
        -- rewrite lookup_insert_ne by done. naive_solver.
  - rewrite Hh. rewrite bool_decide_false by eauto. by rewrite lookup_insert_eq.
  - rewrite Ho. intros x Hx. assert (x ∈ o1) as Hx1 by (apply Hsplit; by right).
    apply Hdom1 in Hx1 as [->|Hs]; [lia|]. by apply Hmax, Hdom.
  - intros x c'. rewrite Hh. case_bool_decide; [done|]. intros Hx Hne.
    by rewrite lookup_insert_ne in Hx.
Qed.
End memory.

(** ** The monitor's invariant *)

Section invariant.
Context `{HashFunction} `{SignatureScheme} `{Calendar} `{CheckpointJSON}.

(** A remembered head is one whose signature verified, at its own size. *)
Definition head_ok (m : Monitor) (n : Z) (c : Checkpoint) : Prop :=
  exists v, VerifyCheckpoint c (origin m) (logKey m) = Ok v /\ SSize v = n.

Definition monitor_inv (m : Monitor) : Prop :=
  memory_inv (heads m) (order m) /\
  (forall n c, heads m !! n = Some c -> head_ok m n c) /\
  match latest m with
  | None => order m = []
  | Some held => (forall n, n ∈ order m -> n <= SSize held) /\
      exists c, heads m !! SSize held = Some c /\ HeadRoot c = hex_encode (SRoot held)
  end /\
  match split_view m with
  | None => True
  | Some evidence => VerifySplitView (Some evidence) (logKey m) = Ok tt
  end.

(** What a successful [Update] established. *)
Lemma Update_ok m c proof now m' : Update m c proof now = (m', Ok tt) ->
  split_view m = None /\ exists v, VerifyCheckpoint c (origin m) (logKey m) = Ok v /\
    STime v <= now + maxClockSkew /\
    (forall previous, heads m !! SSize v = Some previous -> HeadRoot previous = HeadRoot c) /\
    (forall p, policy m = Some p -> PolicyVerify (Some p) c (SRoot v) = Ok tt) /\
    extends_held m v proof = Ok tt /\
    m' = mkMonitor (origin m) (logKey m) (freshness m) (Some v)
           (remember (heads m) (order m) (SSize v) c).1 (remember (heads m) (order m) (SSize v) c).2
           (policy m) None.
Proof.
  unfold Update. destruct (split_view m) eqn:Es; [done|].
  destruct (VerifyCheckpoint c (origin m) (logKey m)) as [v|] eqn:Ev; [|done].
  destruct (_ <? _) eqn:Et; [done|]. reflect_bools.
  destruct (match heads m !! SSize v with Some _ => _ | None => _ end) eqn:Ec; [done|].
  destruct (match policy m with Some p => _ | None => _ end) as [[]|] eqn:Ep; [|done].
  destruct (extends_held m v proof) as [[]|] eqn:Ex; [|done].
  destruct (remember _ _ _ _) as [h' o'] eqn:Er. intros E. injection E as <-.
  split; [done|]. exists v. split_and!; try done.
  - intros previous Hp. rewrite Hp in Ec. by case_bool_decide.
  - intros p Hp. by rewrite Hp in Ep.
  - by rewrite Er.
Qed.

(** A failed [Update] changes nothing, except to record equivocation. *)
Lemma Update_err m c proof now m' e : Update m c proof now = (m', Err e) ->
  m' = m \/ exists evidence, e = ErrSplitView evidence /\ split_view m = None /\
    m' = mkMonitor (origin m) (logKey m) (freshness m) (latest m) (heads m) (order m) (policy m)
           (Some evidence) /\
    exists v previous, VerifyCheckpoint c (origin m) (logKey m) = Ok v /\
      heads m !! SSize v = Some previous /\ HeadRoot previous <> HeadRoot c /\
      evidence = mkSplit (origin m) (SSize v) previous c.
Proof.
  unfold Update. destruct (split_view m) eqn:Es; [by intros [= <- <-]; left|].
  destruct (VerifyCheckpoint c (origin m) (logKey m)) as [v|] eqn:Ev; [|by intros [= <- <-]; left].
  destruct (_ <? _); [by intros [= <- <-]; left|].
  destruct (match heads m !! SSize v with Some _ => _ | None => _ end) as [pr|] eqn:Ec.
  - intros E. injection E as <- <-. right. destruct (heads m !! SSize v) as [pr'|] eqn:Eh; [|done].
    case_bool_decide as Hb; [done|]. injection Ec as <-.
    eexists. split_and!; [done..|]. exists v, pr'. done.
  - destruct (match policy m with Some p => _ | None => _ end) as [[]|]; [|by intros [= <- <-]; left].
    destruct (extends_held m v proof) as [[]|]; [|by intros [= <- <-]; left].
    by destruct (remember _ _ _ _).
Qed.

Lemma extends_held_size m v proof held : extends_held m v proof = Ok tt -> latest m = Some held ->
  SSize held <= SSize v /\ STime held <= STime v /\ Old proof = SSize held /\ New proof = SSize v /\
  VerifyConsistency proof (SRoot held) (SRoot v) = Ok tt.
Proof.
  unfold extends_held. intros E Hl. rewrite Hl in E.
  destruct (_ <? _) eqn:E1; [done|]. destruct (_ <? _) eqn:E2 in E; [done|].
  destruct (_ || _) eqn:E3 in E; [done|]. reflect_bools.
  destruct (VerifyConsistency _ _ _) as [[]|]; [|done]. split_and!; done || lia.
Qed.

Lemma Update_inv m c proof now : monitor_inv m -> monitor_inv (Update m c proof now).1.
Proof.
  intros (Hmem & Hheads & Hlatest & Hsplit).
  destruct (Update m c proof now) as [m' [[]|e]] eqn:E; simpl.
  - apply Update_ok in E as (Hs & v & Hv & _ & _ & _ & Hx & ->).
    pose proof (VerifyCheckpoint_ok c _ _ v Hv) as (_ & _ & _ & _ & Hroot & _).
    assert (forall x, x ∈ order m -> x <= SSize v) as Hmax.
    { destruct (latest m) as [held|] eqn:El.
      - destruct Hlatest as [Hl _]. destruct (extends_held_size _ _ _ _ Hx El) as (Hle & _).
        intros x Hx'. specialize (Hl x Hx'). lia.
      - rewrite Hlatest. by intros x ?%elem_of_nil. }
    destruct (remember_inv _ _ (SSize v) c Hmem Hmax) as (R1 & R2 & R3 & R4).
    unfold monitor_inv, head_ok. simpl. split_and!; [done| |done|by exists c|done].
    intros n c' Hn. destruct (decide (n = SSize v)) as [->|Hne].
    + rewrite R2 in Hn. injection Hn as <-. by exists v.
    + apply (Hheads n c'). by apply R4.
  - apply Update_err in E as [->|(ev & _ & Hs & -> & v & pr & Hv & Hp & Hne & ->)]; [done|].
    unfold monitor_inv, head_ok. simpl. split_and!; [done..|].
    destruct (Hheads _ _ Hp) as (v' & Hv' & Hsz). simpl. rewrite Hv', Hv.
    cbn [wrap mbind result_bind]. rewrite Hsz, !Z.eqb_refl. cbn [negb orb].
    rewrite bool_decide_false; [done|]. intros He.
    apply VerifyCheckpoint_ok in Hv as (_ & _ & _ & _ & Hr & _).
    apply VerifyCheckpoint_ok in Hv' as (_ & _ & _ & _ & Hr' & _). congruence.
Qed.

(** A run of updates, in order. *)
Fixpoint update_all (m : Monitor) (calls : list (Checkpoint * ConsistencyProof * Z)) : Monitor :=
  match calls with
  | [] => m
  | (c, proof, now) :: calls => update_all (Update m c proof now).1 calls
  end.

Lemma update_all_inv calls m : monitor_inv m -> monitor_inv (update_all m calls).
Proof.
  revert m. induction calls as [|[[c p] now] calls IH]; intros m Hm; simpl; [done|].
  by apply IH, Update_inv.
Qed.

Lemma Update_identity m c proof now :
  origin (Update m c proof now).1 = origin m /\ logKey (Update m c proof now).1 = logKey m /\
  policy (Update m c proof now).1 = policy m.
Proof.
  destruct (Update m c proof now) as [m' [[]|e]] eqn:E; simpl.
  - apply Update_ok in E as (_ & v & _ & _ & _ & _ & _ & ->). done.
  - apply Update_err in E as [->|(ev & _ & _ & -> & _)]; done.
Qed.

Lemma NewMonitor_inv o k f m : NewMonitor o k f = Ok m ->
  monitor_inv m /\ origin m = o /\ logKey m = k /\ latest m = None /\ split_view m = None /\
  heads m = ∅ /\ policy m = None.
Proof.
  unfold NewMonitor. intros E. run_guards E. split_and!; try done.
  unfold monitor_inv, memory_inv. simpl. split_and!; try done.
  - constructor.
  - unfold maxRememberedHeads. lia.
  - intros n. rewrite lookup_empty. split; [by intros ?%elem_of_nil|by intros [? ?]].
Qed.
End invariant.

(** ** What the reader is promised *)

Section reader.
Context `{HashFunction} `{SignatureScheme} `{Calendar} `{CheckpointJSON}.

Lemma memory_size hs o : memory_inv hs o -> size hs = length o.
Proof.
  intros (Hnd & _ & Hdom). rewrite <- size_dom.
  replace (dom hs) with (list_to_set o : gset Z).
  - by apply size_list_to_set.
  - apply set_eq. intros n. by rewrite elem_of_list_to_set, Hdom, elem_of_dom.
Qed.

(** The monitor's memory is bounded and never loses the head that matters:
    after any run of updates, accepted or refused, at most 128 heads are
    remembered, one per size, every one of them carries a signature of the
    log that verified, and the head currently held is among them. *)
Theorem monitor_memory (o k : list byte) (f : Z) (m : Monitor)
  (calls : list (Checkpoint * ConsistencyProof * Z)) (Hm : NewMonitor o k f = Ok m) :
  let m' := update_all m calls in
  (size (heads m') <= 128)%nat /\ (forall n, n ∈ order m' <-> is_Some (heads m' !! n)) /\
  (forall n c, heads m' !! n = Some c ->
     exists v, VerifyCheckpoint c (origin m') (logKey m') = Ok v /\ SSize v = n) /\
  forall held, latest m' = Some held ->
    exists c, heads m' !! SSize held = Some c /\ HeadRoot c = hex_encode (SRoot held).
Proof.
  apply NewMonitor_inv in Hm as (Hinv & _).
  pose proof (update_all_inv calls m Hinv) as (Hmem & Hheads & Hlatest & _). cbv zeta.
  rewrite (memory_size _ _ Hmem). destruct Hmem as (_ & Hlen & Hdom).
  split_and!; [done..|]. intros held Hh. rewrite Hh in Hlatest. by destruct Hlatest.
Qed.

Lemma extends_held_err m v proof e : extends_held m v proof = Err e -> forall ev, e <> ErrSplitView ev.
Proof.
  unfold extends_held. intros E ev. repeat (case_hyp E; simplify_eq; try done).
  all: destruct (VerifyConsistency _ _ _); by simplify_eq/=.
Qed.

Lemma Update_split m c proof now m' evidence :
  Update m c proof now = (m', Err (ErrSplitView evidence)) -> split_view m' = Some evidence.
Proof.
  unfold Update. destruct (split_view m) as [ev|] eqn:Es; [by intros [= <- <-]|].
  destruct (VerifyCheckpoint _ _ _) as [v|]; [|done]. destruct (_ <? _); [done|].
  destruct (match heads _ !! _ with Some _ => _ | None => _ end) as [pr|]; [by intros [= <- <-]|].
  destruct (match policy _ with Some _ => _ | None => _ end); [|done].
  destruct (extends_held m v proof) as [[]|e] eqn:Ex; [by destruct (remember _ _ _ _)|].
  intros [= _ ->]. by destruct (extends_held_err _ _ _ _ Ex evidence).
Qed.

(** Equivocation is final and provable: once an update reports a split view,
    the evidence it carries verifies for anyone who holds the log's key, and
    from then on every update and every acceptance returns that same evidence
    without changing the reader, whatever the log offers. *)
Theorem split_view_final (o k : list byte) (f now : Z) (m m' : Monitor) (c : Checkpoint)
  (proof : ConsistencyProof) (evidence : SplitViewProof)
  (calls : list (Checkpoint * ConsistencyProof * Z))
  (Hm : NewMonitor o k f = Ok m)
  (Hu : Update (update_all m calls) c proof now = (m', Err (ErrSplitView evidence))) :
  VerifySplitView (Some evidence) k = Ok tt /\ Equivocating m' = Some evidence /\
  (forall c' proof' now', Update m' c' proof' now' = (m', Err (ErrSplitView evidence))) /\
  (forall entry iproof now', MonitorAccept m' entry iproof now' = Err (ErrSplitView evidence)).
Proof.
  apply NewMonitor_inv in Hm as (Hinv & _ & Hk & _).
  pose proof (update_all_inv calls m Hinv) as Hinv1.
  assert (logKey (update_all m calls) = k) as Hk1.
  { subst k. clear. revert m. induction calls as [|[[c p] n] calls IH]; intros m; simpl; [done|].
    rewrite IH. by destruct (Update_identity m c p n) as (_ & ? & _). }
  pose proof (Update_inv (update_all m calls) c proof now Hinv1) as Hinv'. rewrite Hu in Hinv'. simpl in Hinv'.
  pose proof (Update_split _ _ _ _ _ _ Hu) as Hs.
  assert (logKey m' = k) as Hk'.
  { destruct (Update_identity (update_all m calls) c proof now) as (_ & Hid & _).
    rewrite Hu in Hid. simpl in Hid. congruence. }
  destruct Hinv' as (_ & _ & _ & Hev). rewrite Hs, Hk' in Hev.
  split_and!; [done|done| |].
  - intros. unfold Update. by rewrite Hs.
  - intros. unfold MonitorAccept. by rewrite Hs.
Qed.

(** A reader's log only grows: if the reader holds the head of a log over
    [olds] and accepts a head of a log over [news], then [olds] is a prefix of
    [news] and the new head is not older than the held one, unless SHA-256
    collided on the messages hashed. *)
Theorem update_append_only (m m' : Monitor) (held held' : SignedCheckpoint) (c : Checkpoint)
  (proof : ConsistencyProof) (now : Z) (olds news : list (list byte))
  (Hheld : latest m = Some held) (Hold : SRoot held = rootOf (map HashLeaf olds)) (Hlold : SSize held = len olds)
  (Hup : Update m c proof now = (m', Ok tt)) (Hheld' : latest m' = Some held')
  (Hnew : SRoot held' = rootOf (map HashLeaf news)) (Hlnew : SSize held' = len news)
  (Hs : sized news) (Hp : Forall is_digest (CPath proof))
  (Hcf : collision_free (tree_messages olds ++ tree_messages news ++
                         consistency_messages proof (rootOf (map HashLeaf olds)))) :
  olds `prefix_of` news /\ STime held <= STime held' <= now + maxClockSkew.
Proof.
  apply Update_ok in Hup as (_ & v & _ & Ht & _ & _ & Hx & ->). injection Hheld' as <-.
  destruct (extends_held_size _ _ _ _ Hx Hheld) as (_ & Hle & Ho & Hn & Hv).
  split; [|lia]. apply (VerifyConsistency_sound olds news proof); try done; congruence.
Qed.

(** An entry the reader accepts is in the log: it is the entry at the
    proof's index of the log whose head the reader holds, and that head is no
    older than the freshness window, unless SHA-256 collided. *)
Theorem accept_in_log (m : Monitor) (held : SignedCheckpoint) (entry : list byte)
  (proof : InclusionProof) (now : Z) (entries : list (list byte))
  (Hheld : latest m = Some held) (Hroot : SRoot held = rootOf (map HashLeaf entries))
  (Hsize : SSize held = len entries) (Hs : sized entries) (Hi : fits 64 (Index proof))
  (Hp : Forall is_digest (Path proof))
  (Hcf : collision_free (tree_messages entries ++ inclusion_messages proof entry))
  (Ha : MonitorAccept m entry proof now = Ok tt) :
  entries !! Z.to_nat (Index proof) = Some entry /\ now <= STime held + freshness m /\
  split_view m = None.
Proof.
  unfold MonitorAccept in Ha. destruct (split_view m); [done|]. rewrite Hheld in Ha.
  destruct (negb (Fresh m now)) eqn:Ef; [done|]. destruct (negb (Size proof =? SSize held)) eqn:Es; [done|].
  unfold Fresh in Ef. rewrite Hheld in Ef. reflect_bools.
  destruct (VerifyInclusion proof entry (SRoot held)) as [[]|] eqn:Ev; [|done].
  split_and!; try done.
  apply VerifyInclusion_sound; try done; congruence.
Qed.

(** ** Witnesses as parties *)

(** The heads a witness signs during a run of requests. *)
Fixpoint cosign_all (w : Witness) (calls : list (Checkpoint * ConsistencyProof * Z))
  : Witness * list SignedCheckpoint :=
  match calls with
  | [] => (w, [])
  | (c, proof, now) :: calls =>
      let (w', r) := Cosign w c proof now in
      let (w'', signed) := cosign_all w' calls in
      match r, Head (monitor w') with
      | Ok _, Some head => (w'', head :: signed)
      | _, _ => (w'', signed)
      end
  end.

(** Nothing signed so far is above the held size, and what was signed at the
    held size has the held root. *)
Definition signed_inv (m : Monitor) (signed : list SignedCheckpoint) : Prop :=
  forall s, s ∈ signed -> exists held, latest m = Some held /\ SSize s <= SSize held /\
    (SSize s = SSize held -> SRoot s = SRoot held).

Lemma Update_same_size m c proof now m' held v : monitor_inv m ->
  Update m c proof now = (m', Ok tt) -> latest m = Some held -> latest m' = Some v ->
  SSize held <= SSize v /\ (SSize held = SSize v -> SRoot held = SRoot v).
Proof.
  intros (_ & _ & Hl & _) E Hh Hh'. rewrite Hh in Hl. destruct Hl as (_ & c0 & Hc0 & Hr0).
  apply Update_ok in E as (_ & v' & Hv & _ & Hno & _ & Hx & ->). injection Hh' as <-.
  destruct (extends_held_size _ _ _ _ Hx Hh) as (Hle & _). split; [done|]. intros Heq.
  rewrite Heq in Hc0. apply Hno in Hc0.
  apply VerifyCheckpoint_ok in Hv as (_ & _ & _ & _ & Hr & _).
  apply hex_encode_inj. congruence.
Qed.

Lemma Cosign_monitor w c proof now :
  monitor (Cosign w c proof now).1 = (Update (monitor w) c proof now).1.
Proof. unfold Cosign. destruct (Update (monitor w) c proof now) as [m' [[]|e]]; [by destruct (Head m')|done]. Qed.

Lemma cosign_all_roots calls w signed : monitor_inv (monitor w) -> signed_inv (monitor w) signed ->
  (forall s1 s2, s1 ∈ signed -> s2 ∈ signed -> SSize s1 = SSize s2 -> SRoot s1 = SRoot s2) ->
  let all := signed ++ (cosign_all w calls).2 in
  forall s1 s2, s1 ∈ all -> s2 ∈ all -> SSize s1 = SSize s2 -> SRoot s1 = SRoot s2.
Proof.
  revert w signed. induction calls as [|[[c proof] now] calls IH]; intros w signed Hinv Hsig Hsame.
  { simpl. by rewrite app_nil_r. }
  cbn [cosign_all]. pose proof (Cosign_monitor w c proof now) as Hmon.
  pose proof (Update_inv (monitor w) c proof now Hinv) as Hinv'.
  destruct (Cosign w c proof now) as [w' r] eqn:Ec. simpl in Hmon. rewrite <- Hmon in Hinv'.
  specialize (IH w'). destruct (cosign_all w' calls) as [w'' rest]. cbn [snd] in *.
  unfold Cosign in Ec. destruct (Update (monitor w) c proof now) as [m' [[]|e]] eqn:Eu; simpl in Hmon.
  - pose proof Eu as Hok. apply Update_ok in Hok as (_ & v & _ & _ & _ & _ & _ & Hm').
    assert (Head m' = Some v) as Hv by (by rewrite Hm'). rewrite Hv in Ec. injection Ec as <- <-.
    cbn [monitor]. rewrite Hv. cbn [snd].
    replace (signed ++ v :: rest) with ((signed ++ [v]) ++ rest) by (by rewrite <- app_assoc).
    assert (forall s, s ∈ signed -> SSize s <= SSize v /\ (SSize s = SSize v -> SRoot s = SRoot v)) as Hnew.
    { intros s Hs. destruct (Hsig s Hs) as (held & Hh & Hle & Heq).
      destruct (Update_same_size _ _ _ _ _ held v Hinv Eu Hh Hv) as [Hle' Heq'].
      split; [lia|]. intros Hs'. rewrite Heq, Heq' by lia. done. }
    apply IH; [done| |].
    + intros s Hs. exists v. split; [exact Hv|]. apply elem_of_app in Hs as [Hs| ->%list_elem_of_singleton]; [auto|].
      split; [lia|done].
    + intros s1 s2 [Hs1| ->%list_elem_of_singleton]%elem_of_app [Hs2| ->%list_elem_of_singleton]%elem_of_app He;
        auto; [by apply Hnew|]. symmetry. by apply Hnew.
  - injection Ec as <- <-. cbn [monitor snd]. apply IH; [done| |done].
    intros s Hs. destruct (Hsig s Hs) as (held & Hh & Hr). exists held. split; [|done].
    apply Update_err in Eu as [->|(ev & _ & _ & -> & _)]; exact Hh.
Qed.

(** An honest witness signs at most one branch: whatever heads, proofs and
    times it is asked to cosign, in any order and number, no two of the heads
    it signed have the same size and different roots. *)
Theorem witness_single_branch (wname key o k : list byte) (f : Z) (w : Witness)
  (calls : list (Checkpoint * ConsistencyProof * Z))
  (Hw : NewWitness wname key o k f = Ok w) (s1 s2 : SignedCheckpoint)
  (Hs1 : s1 ∈ (cosign_all w calls).2) (Hs2 : s2 ∈ (cosign_all w calls).2)
  (Hsize : SSize s1 = SSize s2) : SRoot s1 = SRoot s2.
Proof.
  unfold NewWitness in Hw. case_bool_decide; [done|]. destruct (_ <? _) in Hw; [done|].
  destruct (negb _) in Hw; [done|]. destruct (NewMonitor o k f) as [m|] eqn:Em; [|done].
  cbn [mbind result_bind] in Hw. apply (inj Ok) in Hw. subst w.
  apply NewMonitor_inv in Em as (Hinv & _).
  apply (cosign_all_roots calls (mkWitness wname key m) []); try done.
  - intros s Hs%elem_of_nil. done.
  - intros s1' s2' Hs%elem_of_nil. done.
Qed.
End reader.

(** ** The honest log *)

Section honest.
Context `{HashFunction} `{SignatureScheme} `{Calendar} `{CheckpointJSON}.

(** The log's tree is the tree of its entries, and its index points into them. *)
Definition log_wf (log : Log) : Prop :=
  tree log = treeOf (entries log) /\
  forall e i, index log !! e = Some i <-> 0 <= i /\ entries log !! Z.to_nat i = Some e.

Lemma treeOf_snoc es e : treeOf (es ++ [e]) = (Append (treeOf es) e).1.
Proof. unfold treeOf. by rewrite fold_left_app. Qed.

Lemma NewLog_wf o k log : NewLog o k = Ok log -> log_wf log /\ entries log = [].
Proof.
  unfold NewLog. intros E. run_guards E. split; [|done]. split; [done|]. simpl.
  intros e i. rewrite lookup_empty, lookup_nil. naive_solver.
Qed.

(** Appending keeps the log consistent, and logs an entry once. *)
Lemma LogAppend_wf log e : log_wf log -> sized (entries log ++ [e]) ->
  let log' := (LogAppend log e).1 in
  log_wf log' /\ (entries log' = entries log \/ entries log' = entries log ++ [e]) /\
  entries log' !! Z.to_nat (LogAppend log e).2 = Some e.
Proof.
  intros [Ht Hi] Hs. unfold LogAppend. destruct (index log !! e) as [i|] eqn:E; simpl.
  { split; [done|]. split; [by left|]. by apply Hi in E as [_ ?]. }
  assert (e ∉ entries log) as Hne.
  { intros [j Hj]%list_elem_of_lookup. assert (index log !! e = Some (Z.of_nat j)) as Hx.
    { apply Hi. rewrite Nat2Z.id. split; [lia|done]. }
    congruence. }
  assert (len (leaves (tree log)) = len (entries log)) as Hl.
  { by rewrite Ht, leaves_treeOf, length_map. }
  unfold sized in Hs. rewrite length_app in Hs. simpl in Hs.
  assert (len (leaves (tree log) ++ [HashLeaf e]) - 1 = len (entries log)) as Hat.
  { rewrite length_app. simpl. lia. }
  rewrite !Hat. unfold log_wf. simpl. split_and!.
  - by rewrite treeOf_snoc, <- Ht.
  - intros e' i. destruct (decide (e = e')) as [<-|Hne'].
    + rewrite lookup_insert_eq. split.
      * intros [= <-]. split; [lia|]. rewrite Nat2Z.id. by rewrite list_lookup_middle.
      * intros [H0' Hx]. f_equal. apply lookup_app_Some in Hx as [Hx|[Hge Hx]].
        -- by apply list_elem_of_lookup_2 in Hx.
        -- apply list_lookup_singleton_Some in Hx as [Hx _]. lia.
    + rewrite lookup_insert_ne by done. rewrite Hi. split; intros [H0' Hx]; split; try done.
      * by apply lookup_app_l_Some.
      * apply lookup_app_Some in Hx as [Hx|[Hge Hx]]; [done|].
        by apply list_lookup_singleton_Some in Hx as [_ ->].
  - by right.
  - rewrite Nat2Z.id. by rewrite list_lookup_middle.
Qed.

(** The reader [m] has been following [log] and nothing else. *)
Definition follows (log : Log) (m : Monitor) : Prop :=
  origin m = log_origin log /\ logKey m = public (private log) /\ policy m = None /\
  split_view m = None /\
  (forall n c, heads m !! n = Some c ->
     exists root, Root (tree log) n = Ok root /\ HeadRoot c = hex_encode root) /\
  forall held, latest m = Some held ->
    0 <= SSize held /\ Root (tree log) (SSize held) = Ok (SRoot held).

Lemma Root_size t n root : Root t n = Ok root -> n <= TreeSize t.
Proof. unfold Root. intros E. by run_guards E. Qed.

(** A log that appends keeps its old heads, so its readers keep following it. *)
Lemma follows_append log e m : log_wf log -> sized (entries log ++ [e]) -> follows log m ->
  follows (LogAppend log e).1 m.
Proof.
  intros Hwf Hs (Ho & Hk & Hp & Hsp & Hh & Hl).
  destruct (LogAppend_wf log e Hwf Hs) as (Hwf' & He & _).
  assert (forall n root, Root (tree log) n = Ok root -> Root (tree (LogAppend log e).1) n = Ok root) as Hroot.
  { intros n root Hr. pose proof (Root_size _ _ _ Hr) as Hn. destruct Hwf as [Ht _], Hwf' as [Ht' _].
    revert Hr Hn. rewrite Ht, Ht'. unfold Root, TreeSize. rewrite !leaves_treeOf, !length_map.
    destruct He as [->| ->]; [done|]. rewrite length_app. cbn [length]. intros Hr Hn.
    rewrite (proj2 (Z.ltb_ge _ _)) in Hr by lia. rewrite (proj2 (Z.ltb_ge _ _)) by lia.
    by rewrite map_app, take_app_le by (rewrite length_map; lia). }
  assert (log_origin (LogAppend log e).1 = log_origin log /\
          private (LogAppend log e).1 = private log) as [Eo Ep].
  { unfold LogAppend. by destruct (index log !! e). }
  unfold follows. rewrite Eo, Ep. split_and!; try done.
  - intros n c Hc. destruct (Hh n c Hc) as (root & Hr & Heq). eauto.
  - intros held Hheld. destruct (Hl held Hheld) as [H0' Hr]. auto.
Qed.

Definition held_size (m : Monitor) : Z := match latest m with Some held => SSize held | None => 0 end.

(** An honest log serves its readers: whoever has only followed this log, from
    nothing or from any of its earlier heads, accepts its current head with
    the consistency proof the log produces, keeps following it, and then
    accepts every entry of the log with the inclusion proof the log produces,
    until the freshness window ends. *)
Theorem honest_log_served (log : Log) (m : Monitor) (now : Z) (c : Checkpoint) (encoded : list byte)
  (Hwf : log_wf log) (Hs : sized (entries log)) (Hf : follows log m) (Hinv : monitor_inv m)
  (Hnow : writable now) (Htime : forall held, latest m = Some held -> STime held <= truncate_second now)
  (Hc : LogCheckpoint log now = Ok c) (He : EncodeCheckpoint c = Ok encoded) :
  exists proof m', LogProveConsistency log (held_size m) (len (entries log)) = Ok proof /\
    Update m c proof now = (m', Ok tt) /\ follows log m' /\ held_size m' = len (entries log) /\
    forall entry now', entry ∈ entries log -> now' <= truncate_second now + freshness m ->
      exists iproof, LogProveInclusion log entry (len (entries log)) = Ok iproof /\
        MonitorAccept m' entry iproof now' = Ok tt.
Proof.
  destruct Hwf as [Ht Hi]. destruct Hf as (Ho & Hk & Hp & Hsp & Hh & Hl).
  assert (TreeSize (tree log) = len (entries log)) as Hts.
  { unfold TreeSize. by rewrite Ht, leaves_treeOf, length_map. }
  unfold LogCheckpoint, LogCheckpointAt in Hc. rewrite Hts in Hc.
  destruct (SignCheckpoint _ _ _ _ _) as [c'|] eqn:Es; [|done]. cbn [wrap] in Hc. apply (inj Ok) in Hc. subst c'.
  assert (sized (leaves (tree log)) /\ Forall is_digest (leaves (tree log))) as [Hsl Hdl].
  { unfold sized. rewrite Ht, leaves_treeOf, length_map. split; [done|apply HashLeaf_digests]. }
  destruct (Verify_Sign _ _ _ _ now c encoded Hsl Hdl Hnow Es He) as (root & Hr & Hv & _).
  set (v := mkSigned _ _ _ _ _) in Hv. rewrite <- Ho, <- Hk in Hv.
  assert (0 <= held_size m <= len (entries log)) as Hold.
  { unfold held_size. destruct (latest m) as [held|] eqn:El; [|lia].
    destruct (Hl held eq_refl) as [H0' Hr0]. apply Root_size in Hr0. lia. }
  destruct (VerifyConsistency_complete (entries log) (held_size m) (len (entries log)) Hs Hold ltac:(lia))
    as (proof & r1 & r2 & Hpr & Hr1 & Hr2 & Hvc).
  rewrite <- Ht in Hpr, Hr1, Hr2.
  assert (Old proof = held_size m /\ New proof = len (entries log)) as [Hpo Hpn].
  { unfold ProveConsistency in Hpr. repeat (case_hyp Hpr; try done).
    all: apply (inj Ok) in Hpr; rewrite <- Hpr; reflect_bools; done. }
  exists proof.
  assert (Update m c proof now = (mkMonitor (origin m) (logKey m) (freshness m) (Some v)
    (remember (heads m) (order m) (SSize v) c).1 (remember (heads m) (order m) (SSize v) c).2
    (policy m) None, Ok tt)) as Hup.
  { unfold Update. rewrite Hsp, Hv. cbn [SSize STime SRoot v].
    assert (STime v <= now) as Hvt.
    { cbn [STime v]. unfold truncate_second, second. Z.to_euclidean_division_equations. lia. }
    cbn [STime v] in Hvt. rewrite (proj2 (Z.ltb_ge _ _)) by (unfold maxClockSkew, second; lia).
    assert (match heads m !! len (entries log) with
            | Some previous => if bool_decide (HeadRoot previous = HeadRoot c) then None else Some previous
            | None => None end = None) as ->.
    { destruct (heads m !! len (entries log)) as [pr|] eqn:Eh; [|done].
      destruct (Hh _ _ Eh) as (root' & Hr' & Hhr). rewrite Hr in Hr'. injection Hr' as <-.
      apply VerifyCheckpoint_ok in Hv as (_ & _ & _ & _ & Hvr & _).
      change (SRoot v) with root in Hvr. by rewrite bool_decide_true by congruence. }
    rewrite Hp.
    assert (extends_held m v proof = Ok tt) as ->.
    { unfold extends_held. unfold held_size in *. destruct (latest m) as [held|] eqn:El.
      - destruct (Hl held eq_refl) as [_ Hrh]. cbn [SSize STime SRoot v].
        rewrite Hrh in Hr1. injection Hr1 as <-. rewrite Hr in Hr2. injection Hr2 as <-.
        specialize (Htime held eq_refl).
        rewrite !(proj2 (Z.ltb_ge _ _)) by lia. rewrite Hpo, Hpn, !Z.eqb_refl. cbn [negb orb].
        by rewrite Hvc.
      - rewrite Hpo, Hpn. cbn [SSize v]. by rewrite !Z.eqb_refl. }
    by destruct (remember _ _ _ _). }
  eexists. split_and!; [by unfold LogProveConsistency; rewrite Hpr|exact Hup| |done|].
  - unfold follows. simpl. split_and!; try done.
    + intros n c0 Hn. destruct (decide (n = len (entries log))) as [->|Hne].
      * pose proof (Update_inv m c proof now Hinv) as Hinv'. rewrite Hup in Hinv'.
        destruct Hinv' as (_ & _ & Hlat & _). simpl in Hlat. destruct Hlat as (_ & c1 & Hc1 & Hr1').
        simpl in Hc1. rewrite Hn in Hc1. injection Hc1 as <-. exists root. done.
      * apply (Hh n c0).
        assert (forall x, x ∈ order m -> x <= len (entries log)) as Hmax.
        { destruct Hinv as (Hmem & _). intros x Hx. apply Hmem in Hx as [c1 Hc1].
          destruct (Hh _ _ Hc1) as (r' & Hr' & _). apply Root_size in Hr'. lia. }
        destruct Hinv as (Hmem & _).
        destruct (remember_inv _ _ (len (entries log)) c Hmem Hmax) as (_ & _ & _ & R4). by apply R4.
    + intros held [= <-]. cbn [SSize SRoot v]. split; [lia|done].
  - intros entry now' Hin Hfresh. apply list_elem_of_lookup in Hin as [j Hj].
    assert (index log !! entry = Some (Z.of_nat j)) as Hidx.
    { apply Hi. rewrite Nat2Z.id. split; [lia|done]. }
    pose proof (lookup_lt_Some _ _ _ Hj) as Hlt.
    destruct (VerifyInclusion_complete (entries log) (Z.of_nat j) (len (entries log)) Hs ltac:(lia) ltac:(lia))
      as (entry' & ip & r3 & He' & Hip & Hr3 & Hvi).
    rewrite Nat2Z.id, Hj in He'. injection He' as <-. rewrite <- Ht in Hip, Hr3.
    rewrite Hr in Hr3. injection Hr3 as <-.
    exists ip. unfold LogProveInclusion. rewrite Hidx, Hip. split; [done|].
    assert (Size ip = len (entries log)) as Hsz.
    { unfold ProveInclusion in Hip. run_guards Hip. done. }
    unfold MonitorAccept, Fresh. simpl. rewrite (proj2 (Z.leb_le _ _)) by done. cbn [negb].
    rewrite Hsz, Z.eqb_refl. cbn [negb]. by rewrite Hvi.
Qed.
End honest.

(** ** Witnesses *)

Section witness.
#[local] Existing Instance example_hash.
#[local] Existing Instance example_signatures.
#[local] Existing Instance example_calendar.
#[local] Existing Instance example_json.

Definition example_monitor : Monitor :=
  mkMonitor [x6c] (public example_log_key) (10 * second) None ∅ [] None None.

Definition log_of (es : list (list byte)) : Log :=
  fold_left (fun log e => (LogAppend log e).1) es (mkLog [x6c] example_log_key emptyTree [] ∅).

Definition entries1 : list (list byte) := [[x61]].
Definition entries2 : list (list byte) := [[x61]; [x62]].
Definition entries2' : list (list byte) := [[x61]; [x63]].

Definition head_of (es : list (list byte)) (now : Z) : Checkpoint :=
  match LogCheckpoint (log_of es) now with
  | Ok c => c
  | Err _ => mkCheckpoint [] [] 0 [] [] [] []
  end.

Definition proof_of (es : list (list byte)) (old : Z) : ConsistencyProof :=
  match LogProveConsistency (log_of es) old (len es) with
  | Ok p => p
  | Err _ => mkConsistencyProof 0 0 []
  end.

Definition example_calls : list (Checkpoint * ConsistencyProof * Z) :=
  [(head_of entries2 second, proof_of entries2 0, second)].

Lemma monitor_memory_witness :
  (size (heads (update_all example_monitor example_calls)) <= 128)%nat.
Proof.
  apply (monitor_memory [x6c] (public example_log_key) (10 * second) example_monitor example_calls).
  reflexivity.
Defined.

(** The log shows two different heads of size two. *)
Lemma split_view_final_witness : exists m' evidence,
  Update (update_all example_monitor example_calls) (head_of entries2' second) (proof_of entries2' 2) second =
    (m', Err (ErrSplitView evidence)) /\
  VerifySplitView (Some evidence) (public example_log_key) = Ok tt.
Proof.
  eexists _, _.
  assert (Update (update_all example_monitor example_calls) (head_of entries2' second)
    (proof_of entries2' 2) second =
    (mkMonitor [x6c] (public example_log_key) (10 * second)
       (latest (update_all example_monitor example_calls))
       (heads (update_all example_monitor example_calls))
       (order (update_all example_monitor example_calls)) None
       (Some (mkSplit [x6c] 2 (head_of entries2 second) (head_of entries2' second))),
     Err (ErrSplitView (mkSplit [x6c] 2 (head_of entries2 second) (head_of entries2' second)))))
    as Hu by reflexivity.
  split; [exact Hu|].
  exact (proj1 (split_view_final [x6c] (public example_log_key) (10 * second) second example_monitor
    _ _ _ _ example_calls eq_refl Hu)).
Defined.

Definition held_of (es : list (list byte)) : SignedCheckpoint :=
  mkSigned [x6c] (len es) (rootOf (map HashLeaf es)) second [x6c].

Definition reader_of (es : list (list byte)) : Monitor :=
  mkMonitor [x6c] (public example_log_key) (10 * second) (Some (held_of es))
    {[len es := head_of es second]} [len es] None None.

Lemma update_append_only_witness : entries1 `prefix_of` entries2.
Proof.
  destruct (update_append_only (reader_of entries1)
    (Update (reader_of entries1) (head_of entries2 second) (proof_of entries2 1) second).1
    (held_of entries1) (held_of entries2) (head_of entries2 second) (proof_of entries2 1) second
    entries1 entries2) as [Hp _].
  - reflexivity.
  - reflexivity.
  - reflexivity.
  - reflexivity.
  - reflexivity.
  - reflexivity.
  - reflexivity.
  - reflexivity.
  - apply all_digests. reflexivity.
  - apply collision_freeb_ok. reflexivity.
  - exact Hp.
Defined.

Definition example_inclusion : InclusionProof :=
  mkInclusionProof 1 2 (inclusionPath (map HashLeaf entries2) 1).

Lemma accept_in_log_witness :
  MonitorAccept (reader_of entries2) [x62] example_inclusion second = Ok tt /\
  entries2 !! 1%nat = Some [x62].
Proof.
  assert (MonitorAccept (reader_of entries2) [x62] example_inclusion second = Ok tt) as Ha by reflexivity.
  split; [exact Ha|].
  refine (proj1 (accept_in_log (reader_of entries2) (held_of entries2) [x62] example_inclusion second entries2
    eq_refl eq_refl eq_refl eq_refl _ _ _ Ha)).
  - split; [apply Z.leb_le|apply Z.ltb_lt]; reflexivity.
  - apply all_digests. reflexivity.
  - apply collision_freeb_ok. reflexivity.
Defined.

Lemma witness_single_branch_witness : exists w s1 s2,
  NewWitness [x77] example_log_key [x6c] (public example_log_key) (10 * second) = Ok w /\
  s1 ∈ (cosign_all w example_calls).2 /\ s2 ∈ (cosign_all w example_calls).2 /\ SRoot s1 = SRoot s2.
Proof.
  exists (mkWitness [x77] example_log_key example_monitor), (held_of entries2), (held_of entries2).
  assert (held_of entries2 ∈ (cosign_all (mkWitness [x77] example_log_key example_monitor) example_calls).2) as Hin.
  { change (cosign_all (mkWitness [x77] example_log_key example_monitor) example_calls).2
      with [held_of entries2]. apply list_elem_of_singleton. reflexivity. }
  split; [reflexivity|]. split; [exact Hin|]. split; [exact Hin|].
  exact (witness_single_branch [x77] example_log_key [x6c] (public example_log_key) (10 * second)
    (mkWitness [x77] example_log_key example_monitor) example_calls eq_refl _ _ Hin Hin eq_refl).
Defined.

Lemma honest_log_served_witness : exists proof m',
  LogProveConsistency (log_of entries2) 0 2 = Ok proof /\
  Update example_monitor (head_of entries2 second) proof second = (m', Ok tt) /\ held_size m' = 2.
Proof.
  assert (NewLog [x6c] example_log_key = Ok (log_of [])) as Hn by reflexivity.
  apply NewLog_wf in Hn as [Hw0 _].
  assert (log_wf (log_of entries1)) as Hw1 by (apply (LogAppend_wf (log_of []) [x61] Hw0); reflexivity).
  assert (log_wf (log_of entries2)) as Hw2 by (apply (LogAppend_wf (log_of entries1) [x62] Hw1); reflexivity).
  assert (NewMonitor [x6c] (public example_log_key) (10 * second) = Ok example_monitor) as Hm by reflexivity.
  apply NewMonitor_inv in Hm as (Hinv & _).
  destruct (honest_log_served (log_of entries2) example_monitor second (head_of entries2 second) [x6c] Hw2)
    as (proof & m' & Hp & Hu & _ & Hsz & _).
  - reflexivity.
  - unfold follows. split_and!; try reflexivity; [intros n c Hc; discriminate Hc|intros held Hh; discriminate Hh].
  - exact Hinv.
  - split; [apply Z.leb_le|apply Z.ltb_lt]; reflexivity.
  - intros held Hh. discriminate Hh.
  - reflexivity.
  - reflexivity.
  - exists proof, m'. split; [exact Hp|]. split; [exact Hu|exact Hsz].
Defined.
End witness.
