(* ===== verification/Reconstruct.v ===== *)
(** Objects and their manifests
    ([components/nomad-local-reconstruction/reconstruct]): [reconstruct.go] (the
    Hamming distance of basins, verification of a recovered object, reconstruction
    over any decoder) and [manifest.go] (the signed description of one object and
    its fixed wire form).  [Rank] compares floating-point scores and is not
    modelled. *)

From stdpp Require Import base list list_numbers sets strings.
From Stdlib Require Import ZArith Lia Strings.Byte.
From S2P Require Import Prelude Bytes Hash Codec Checkpoint.

(** ** Basins *)

(** [for x != 0 { x &= x - 1; n++ }], with fuel for the iterations. *)
Fixpoint popcount (fuel : nat) (x n : Z) : Z :=
  match fuel with
  | O => n
  | S fuel => if x =? 0 then n else popcount fuel (Z.land x (u64 (x - 1))) (n + 1)
  end.

Definition hamming (a b : Z) : Z := popcount 64 (Z.lxor a b) 0.

(** ** Manifests *)

Definition ManifestSize : nat := 228.
Definition manifestMagic : list byte := [x4e; x4f; x4d; x01].
Definition objectDomain : list byte := String.list_byte_of_string "nomad-object-v1".
Definition generationDomain : list byte := String.list_byte_of_string "nomad-generation-v1".
Definition manifestDomain : list byte := String.list_byte_of_string "nomad-manifest-v1".

Record Manifest := mkManifest {
  MLength : Z;
  Basin : Z;
  Generation : list byte;
  MRoot : list byte;
  MPublicKey : list byte;
  ObjectSignature : list byte;
  ManifestSignature : list byte;
}.

Record Verifier := mkVerifier {
  VfRoot : list byte;
  VfPublicKey : list byte;
  VfSignature : list byte;
}.

Inductive object_error :=
| ErrEmptyObject
| ErrPrivateKey
| ErrZeroLength
| ErrGeneration
| ErrObjectSignature
| ErrManifestSignature
| ErrObjectLength
| ErrVerifierKey
| ErrVerifierSignatureLength
| ErrContentHash
| ErrVerifierSignature
| ErrManifestSize
| ErrManifestMagic.

(** The types of the fields: two [uint64] and five arrays. *)
Record manifest_typed (m : Manifest) : Prop := {
  typed_length : fits 64 (MLength m);
  typed_basin : fits 64 (Basin m);
  typed_generation : length (Generation m) = 16%nat;
  typed_root : is_digest (MRoot m);
  typed_key : length (MPublicKey m) = 32%nat;
  typed_object_signature : length (ObjectSignature m) = 64%nat;
  typed_manifest_signature : length (ManifestSignature m) = 64%nat;
}.

Definition SigningMessage (root : list byte) : list byte := objectDomain ++ root.

Definition signingMessage (m : Manifest) : list byte :=
  manifestDomain ++ be 8 (MLength m) ++ be 8 (Basin m) ++ Generation m ++ MRoot m ++ MPublicKey m ++ ObjectSignature m.

Section operations.
Context `{HashFunction} `{SignatureScheme}.

Definition GenerationFor (root : list byte) : list byte := take 16 (sha256 (generationDomain ++ root)).

Definition NewManifest (data : list byte) (basin : Z) (privateKey : list byte) : result object_error Manifest :=
  if bool_decide (data = []) then Err ErrEmptyObject
  else if negb (Nat.eqb (length privateKey) 64) then Err ErrPrivateKey
  else
    let root := sha256 data in
    let unsigned := mkManifest (u64 (len data)) basin (GenerationFor root) root (public privateKey)
                      (sign privateKey (SigningMessage root)) (replicate 64 x00) in
    Ok (mkManifest (MLength unsigned) (Basin unsigned) (Generation unsigned) (MRoot unsigned) (MPublicKey unsigned)
          (ObjectSignature unsigned) (sign privateKey (signingMessage unsigned))).

Definition VerifyEnvelope (m : Manifest) : result object_error unit :=
  if MLength m =? 0 then Err ErrZeroLength
  else if negb (bool_decide (Generation m = GenerationFor (MRoot m))) then Err ErrGeneration
  else if negb (verify (MPublicKey m) (SigningMessage (MRoot m)) (ObjectSignature m)) then Err ErrObjectSignature
  else if negb (verify (MPublicKey m) (signingMessage m) (ManifestSignature m)) then Err ErrManifestSignature
  else Ok tt.

Definition VerifierVerify (v : Verifier) (data : list byte) : result object_error unit :=
  if negb (Nat.eqb (length (VfPublicKey v)) 32) then Err ErrVerifierKey
  else if negb (Nat.eqb (length (VfSignature v)) 64) then Err ErrVerifierSignatureLength
  else
    let root := sha256 data in
    if negb (bool_decide (root = VfRoot v)) then Err ErrContentHash
    else if negb (verify (VfPublicKey v) (SigningMessage root) (VfSignature v)) then Err ErrVerifierSignature
    else Ok tt.

Definition ManifestVerifier (m : Manifest) : Verifier := mkVerifier (MRoot m) (MPublicKey m) (ObjectSignature m).

Definition VerifyObject (m : Manifest) (data : list byte) : result object_error unit :=
  _ ← VerifyEnvelope m;
  if negb (u64 (len data) =? MLength m) then Err ErrObjectLength
  else VerifierVerify (ManifestVerifier m) data.

Definition MarshalBinary (m : Manifest) : result object_error (list byte) :=
  _ ← VerifyEnvelope m;
  Ok (manifestMagic ++ be 8 (MLength m) ++ be 8 (Basin m) ++ Generation m ++ MRoot m ++ MPublicKey m ++
      ObjectSignature m ++ ManifestSignature m).

Definition ParseManifest (wire : list byte) : result object_error Manifest :=
  if negb (Nat.eqb (length wire) ManifestSize) then Err ErrManifestSize
  else if negb (bool_decide (slice wire 0 4 = manifestMagic)) then Err ErrManifestMagic
  else
    let manifest := mkManifest (be_val (slice wire 4 12)) (be_val (slice wire 12 20)) (slice wire 20 36)
                      (slice wire 36 68) (slice wire 68 100) (slice wire 100 164) (slice wire 164 228) in
    _ ← VerifyEnvelope manifest;
    Ok manifest.
End operations.

(** ** Reconstruction *)

(** The interface [Decoder]: any type with these three methods. *)
Class ObjectDecoder (D E : Type) := {
  AddFragment : D -> list byte -> D * result E unit;
  DecoderReady : D -> bool;
  DecodeObject : D -> D * result E (list byte);
}.

Inductive reconstruct_error (E : Type) :=
| ErrDecoderRequired
| ErrDecoder (e : E)
| ErrInsufficient
| ErrObject (e : object_error).
Arguments ErrDecoderRequired {E}.
Arguments ErrDecoder {E} e.
Arguments ErrInsufficient {E}.
Arguments ErrObject {E} e.

Section reconstruct.
Context `{HashFunction} `{SignatureScheme} {D E : Type} `{!ObjectDecoder D E}.

Fixpoint feed (dec : D) (fragments : list (list byte)) : D * result (reconstruct_error E) unit :=
  match fragments with
  | [] => (dec, Ok tt)
  | f :: fragments =>
      match AddFragment dec f with
      | (dec, Err e) => (dec, Err (ErrDecoder e))
      | (dec, Ok tt) => if DecoderReady dec then (dec, Ok tt) else feed dec fragments
      end
  end.

Definition Reconstruct (dec : option D) (fragments : list (list byte)) (verifier : Verifier)
  : result (reconstruct_error E) (list byte) :=
  match dec with
  | None => Err ErrDecoderRequired
  | Some dec =>
      match feed dec fragments with
      | (_, Err e) => Err e
      | (dec, Ok _) =>
          if negb (DecoderReady dec) then Err ErrInsufficient
          else match DecodeObject dec with
          | (_, Err e) => Err (ErrDecoder e)
          | (_, Ok data) =>
              match VerifierVerify verifier data with
              | Err e => Err (ErrObject e)
              | Ok _ => Ok data
              end
          end
      end
  end.
End reconstruct.

(** ** The distance of two basins *)

(** The number of positions below 64 at which [x] has a one. *)
Definition ones (x : Z) : nat := length (filter (fun i => Z.testbit x i = true) (seqZ 0 64)).

Lemma lowest_one x : 0 < x -> exists k m, 0 <= k /\ 0 <= m /\ x = 2 ^ k * (2 * m + 1).
Proof.
  intros Hx. destruct x as [|p|]; [lia| |lia]. clear Hx. induction p as [p IH|p IH|].
  - exists 0, (Z.pos p). lia.
  - destruct IH as (k & m & Hk & Hm & E). exists (k + 1), m. rewrite Z.pow_add_r by lia.
    split; [lia|]. split; [done|]. change (Z.pos p~0) with (2 * Z.pos p). rewrite E. ring.
  - exists 0, 0. lia.
Qed.

(** [x & (x - 1)] clears the lowest one. *)
Lemma clear_lowest k m i : 0 <= k -> 0 <= m -> 0 <= i ->
  Z.testbit (Z.land (2 ^ k * (2 * m + 1)) (2 ^ k * (2 * m + 1) - 1)) i =
  Z.testbit (2 ^ k * (2 * m + 1)) i && negb (i =? k).
Proof.
  intros Hk Hm Hi. rewrite Z.land_spec.
  replace (2 ^ k * (2 * m + 1) - 1) with (2 * m * 2 ^ k + (2 ^ k - 1)) by ring.
  rewrite (Z.mul_comm (2 ^ k)), Z.mul_pow2_bits by lia.
  pose proof (Z.pow_pos_nonneg 2 k ltac:(lia) Hk) as Hp.
  destruct (Z.ltb_spec i k) as [Hik|Hik].
  - rewrite (Z.testbit_neg_r _ (i - k)) by lia. done.
  - assert (Z.testbit (2 * m * 2 ^ k + (2 ^ k - 1)) i = Z.testbit (2 * m) (i - k)) as ->.
    { replace i with ((i - k) + k) at 1 by lia. rewrite <- Z.shiftr_spec by lia.
      rewrite Z.shiftr_div_pow2 by lia. rewrite Z.div_add_l, Z.div_small by lia. f_equal. lia. }
    destruct (Z.eqb_spec i k) as [->|Hne].
    + rewrite Z.sub_diag. rewrite Z.testbit_even_0. by rewrite !andb_false_r.
    + replace (i - k) with (Z.succ (i - k - 1)) by lia.
      rewrite Z.testbit_even_succ, Z.testbit_odd_succ by lia. cbn [negb]. rewrite andb_true_r. apply andb_diag.
Qed.

Lemma filter_length_ext (P Q : Z -> Prop) `{!forall i, Decision (P i)} `{!forall i, Decision (Q i)} (l : list Z) :
  (forall i, i ∈ l -> P i <-> Q i) -> length (filter P l) = length (filter Q l).
Proof.
  induction l as [|a l IH]; intros HPQ; [done|]. rewrite !filter_cons.
  assert (P a <-> Q a) as Ha by (apply HPQ; left). rewrite (decide_ext _ _ _ _ Ha).
  assert (length (filter P l) = length (filter Q l)) as E by (apply IH; intros; apply HPQ; by right).
  destruct (decide (Q a)); cbn [length]; congruence.
Qed.

Lemma filter_length_sub (P Q R : Z -> Prop) `{!forall i, Decision (P i)} `{!forall i, Decision (Q i)} `{!forall i, Decision (R i)}
  (l : list Z) : (forall i, P i -> Q i \/ R i) -> (length (filter P l) <= length (filter Q l) + length (filter R l))%nat.
Proof.
  intros HP. induction l as [|a l IH]; [done|]. rewrite !filter_cons. specialize (HP a).
  repeat case_decide; cbn [length]; try lia. tauto.
Qed.

Lemma filter_remove (P Q : Z -> Prop) `{!forall i, Decision (P i)} `{!forall i, Decision (Q i)} (k : Z) (l : list Z) :
  NoDup l -> k ∈ l -> P k -> (forall i, i ∈ l -> Q i <-> P i /\ i <> k) ->
  length (filter P l) = S (length (filter Q l)).
Proof.
  induction l as [|a l IH]; intros Hnd Hk HP HQ; [set_solver|]. apply NoDup_cons in Hnd as [Ha Hnd].
  apply elem_of_cons in Hk as [<-|Hk].
  - rewrite !filter_cons. rewrite decide_True by done. rewrite decide_False by (rewrite HQ by left; tauto).
    cbn [length]. f_equal. apply filter_length_ext. intros i Hi.
    rewrite HQ by (by right). split; [|tauto]. intros. split; [done|]. intros ->. done.
  - rewrite !filter_cons. assert (a <> k) by (intros ->; done).
    assert (length (filter P l) = S (length (filter Q l))) as E.
    { apply IH; try done. intros. apply HQ. by right. }
    destruct (decide (P a)) as [Hp|Hp].
    + rewrite decide_True by (apply HQ; [left|done]). cbn [length]. by rewrite E.
    + rewrite decide_False by (rewrite HQ by left; tauto). done.
Qed.

Lemma ones_clear x : 0 < x < 2 ^ 64 -> ones x = S (ones (Z.land x (x - 1))) /\ 0 <= Z.land x (x - 1) < 2 ^ 64.
Proof.
  intros Hx. destruct (lowest_one x) as (k & m & Hk & Hm & E); [lia|].
  assert (k < 64) as Hk64.
  { destruct (Z.lt_ge_cases k 64); [done|]. pose proof (Z.pow_le_mono_r 2 64 k). nia. }
  split.
  - unfold ones. apply (filter_remove _ _ k).
    + apply NoDup_seqZ.
    + apply elem_of_seqZ. lia.
    + rewrite E, Z.mul_comm, Z.mul_pow2_bits, Z.sub_diag by lia. apply Z.testbit_odd_0.
    + intros i Hi. apply elem_of_seqZ in Hi. rewrite E, clear_lowest by lia. rewrite andb_true_iff, negb_true_iff, Z.eqb_neq. done.
  - split; [apply Z.land_nonneg; lia|].
    destruct (decide (0 < Z.land x (x - 1))) as [Hl|]; [|lia]. apply Z.log2_lt_pow2; [done|].
    pose proof (Z.log2_land x (x - 1)). pose proof (proj1 (Z.log2_lt_pow2 x 64 ltac:(lia))). lia.
Qed.

Lemma ones_zero : ones 0 = O.
Proof. reflexivity. Qed.

Lemma popcount_ones fuel x n : 0 <= x < 2 ^ 64 -> (ones x <= fuel)%nat -> popcount fuel x n = n + Z.of_nat (ones x).
Proof.
  revert x n. induction fuel as [|fuel IH]; intros x n Hx Hf; cbn [popcount]; [lia|].
  destruct (Z.eqb_spec x 0) as [->|Hne]; [rewrite ones_zero; lia|].
  destruct (ones_clear x) as [E Hr]; [lia|]. rewrite wrapu_small by (unfold fits; lia).
  rewrite IH by (try done; lia). lia.
Qed.

Lemma ones_bound x : (ones x <= 64)%nat.
Proof. unfold ones. etrans; [apply length_filter|]. by rewrite length_seqZ. Qed.

Lemma ones_nil x : 0 <= x < 2 ^ 64 -> ones x = O -> x = 0.
Proof.
  intros Hx E. destruct (decide (x = 0)); [done|]. destruct (ones_clear x); [lia|]. lia.
Qed.

Lemma lxor_range x y : fits 64 x -> fits 64 y -> 0 <= Z.lxor x y < 2 ^ 64.
Proof.
  intros [] []. split; [apply Z.lxor_nonneg; lia|].
  destruct (decide (0 < Z.lxor x y)) as [Hl|]; [|lia]. apply Z.log2_lt_pow2; [done|].
  pose proof (Z.log2_lxor x y). assert (forall z, 0 <= z < 2 ^ 64 -> Z.log2 z < 64) as Hz.
  { intros z Hz. destruct (decide (z = 0)) as [->|]; [done|]. apply Z.log2_lt_pow2; lia. }
  pose proof (Hz x). pose proof (Hz y). lia.
Qed.

Lemma hamming_ones x y : fits 64 x -> fits 64 y -> hamming x y = Z.of_nat (ones (Z.lxor x y)).
Proof. intros Hx Hy. unfold hamming. rewrite popcount_ones; [lia|by apply lxor_range|]. pose proof (ones_bound (Z.lxor x y)). lia. Qed.

Lemma lxor_bit x y i : Z.testbit (Z.lxor x y) i = true <-> Z.testbit x i <> Z.testbit y i.
Proof. rewrite Z.lxor_spec. destruct (Z.testbit x i), (Z.testbit y i); naive_solver. Qed.

(** [hamming] ends within the 64 iterations its argument allows and counts the
    positions at which two basins differ; it is the distance the ranking of
    candidates uses: symmetric, zero only between equal basins, and within the
    triangle inequality. *)
Theorem hamming_distance (a b c : Z) (Ha : fits 64 a) (Hb : fits 64 b) (Hc : fits 64 c) :
  (forall extra, popcount (64 + extra) (Z.lxor a b) 0 = hamming a b) /\
  hamming a b = len (filter (fun i => Z.testbit a i <> Z.testbit b i) (seqZ 0 64)) /\
  hamming a b = hamming b a /\ (hamming a b = 0 <-> a = b) /\
  hamming a c <= hamming a b + hamming b c.
Proof.
  split_and!.
  - intros. unfold hamming. rewrite !popcount_ones; try done; try by apply lxor_range. all: pose proof (ones_bound (Z.lxor a b)); lia.
  - rewrite hamming_ones by done. f_equal. apply filter_length_ext. intros. apply lxor_bit.
  - rewrite !hamming_ones by done. by rewrite Z.lxor_comm.
  - rewrite hamming_ones by done. split; [|intros ->; by rewrite Z.lxor_nilpotent].
    intros E. apply Z.lxor_eq. apply ones_nil; [by apply lxor_range|lia].
  - rewrite !hamming_ones by done. unfold ones.
    pose proof (filter_length_sub (fun i => Z.testbit (Z.lxor a c) i = true) (fun i => Z.testbit (Z.lxor a b) i = true)
      (fun i => Z.testbit (Z.lxor b c) i = true) (seqZ 0 64)) as E.
    assert (forall i, Z.testbit (Z.lxor a c) i = true -> Z.testbit (Z.lxor a b) i = true \/ Z.testbit (Z.lxor b c) i = true) as Hor.
    { intros i. rewrite !Z.lxor_spec. destruct (Z.testbit a i), (Z.testbit b i), (Z.testbit c i); naive_solver. }
    specialize (E Hor). lia.
Qed.

Lemma hamming_distance_witness : hamming 12 10 = 2 /\ hamming 12 3 <= hamming 12 10 + hamming 10 3.
Proof.
  destruct (hamming_distance 12 10 3) as (_ & _ & _ & _ & H); [split; [lia|reflexivity]..|]. split; [reflexivity|exact H].
Defined.

(** ** Manifests *)

Section manifests.
Context `{HashFunction} `{SignatureScheme}.

Lemma VerifyEnvelope_ok m : VerifyEnvelope m = Ok tt <->
  MLength m <> 0 /\ Generation m = GenerationFor (MRoot m) /\
  verify (MPublicKey m) (SigningMessage (MRoot m)) (ObjectSignature m) = true /\
  verify (MPublicKey m) (signingMessage m) (ManifestSignature m) = true.
Proof.
  unfold VerifyEnvelope. split.
  - intros E. run_guards E. done.
  - intros (Hl & Hg & Ho & Hm). rewrite (proj2 (Z.eqb_neq _ _) Hl), bool_decide_true, Ho, Hm by done. done.
Qed.

Lemma VerifierVerify_ok v data : VerifierVerify v data = Ok tt <->
  length (VfPublicKey v) = 32%nat /\ length (VfSignature v) = 64%nat /\ sha256 data = VfRoot v /\
  verify (VfPublicKey v) (SigningMessage (sha256 data)) (VfSignature v) = true.
Proof.
  unfold VerifierVerify. split.
  - intros E. run_guards E. rewrite !Nat.eqb_eq in *. done.
  - intros (Hk & Hs & Hr & Hv). rewrite Hk, Hs. cbn [Nat.eqb negb]. rewrite bool_decide_true, Hv by done. done.
Qed.

Lemma VerifyObject_ok m data : VerifyObject m data = Ok tt <->
  VerifyEnvelope m = Ok tt /\ u64 (len data) = MLength m /\ VerifierVerify (ManifestVerifier m) data = Ok tt.
Proof.
  unfold VerifyObject. split.
  - destruct (VerifyEnvelope m) as [[]|]; [|done]. cbn [mbind result_bind]. intros E. run_guards E. done.
  - intros (-> & Hl & Hv). cbn [mbind result_bind]. rewrite (proj2 (Z.eqb_eq _ _) Hl). done.
Qed.

(** A verified manifest names one object: whoever presents data that passes
    [VerifyObject] presents the same bytes, however they were recovered. *)
Lemma VerifyObject_unique m data data' : collision_free [data; data'] ->
  VerifyObject m data = Ok tt -> VerifyObject m data' = Ok tt -> data = data'.
Proof.
  intros Hcf [_ [_ Hv]]%VerifyObject_ok [_ [_ Hv']]%VerifyObject_ok.
  apply VerifierVerify_ok in Hv as (_ & _ & Hr & _). apply VerifierVerify_ok in Hv' as (_ & _ & Hr' & _).
  apply Hcf; [set_solver..|congruence].
Qed.

Lemma GenerationFor_length root : length (GenerationFor root) = 16%nat.
Proof. unfold GenerationFor. rewrite length_take. pose proof (sha256_digest (generationDomain ++ root)) as E. unfold is_digest in E. lia. Qed.

(** The published object satisfies the manifest made for it. *)
Lemma NewManifest_ok data basin key m : len data < 2 ^ 63 -> fits 64 basin -> NewManifest data basin key = Ok m ->
  manifest_typed m /\ VerifyObject m data = Ok tt /\ MRoot m = sha256 data /\ MPublicKey m = public key.
Proof.
  unfold NewManifest. intros Hl Hb E. case_bool_decide as Hne; [done|].
  destruct (negb (Nat.eqb (length key) 64)) eqn:Ek; [done|]. reflect_bools. apply Nat.eqb_eq in Ek. apply (inj Ok) in E.
  assert (0 < len data) as Hpos by (destruct data; [done|cbn; lia]).
  assert (u64 (len data) = len data) as Hu by (apply wrapu_small; unfold fits; lia).
  assert (manifest_typed m) as Ht.
  { subst m. split; cbn; rewrite ?Hu; unfold fits; try lia; try done.
    - apply GenerationFor_length.
    - apply sha256_digest.
    - by apply public_length.
    - apply sign_length.
    - apply sign_length. }
  split; [done|]. split; [|by subst m]. apply VerifyObject_ok. subst m. cbn [MLength]. split_and!.
  - apply VerifyEnvelope_ok. cbn [MLength Generation MRoot MPublicKey ObjectSignature ManifestSignature]. split_and!; [lia|done|by apply sign_verify|].
    change (signingMessage _) with (signingMessage (mkManifest (u64 (len data)) basin (GenerationFor (sha256 data)) (sha256 data) (public key)
      (sign key (SigningMessage (sha256 data))) (replicate 64 x00))) at 1. by apply sign_verify.
  - done.
  - apply VerifierVerify_ok. cbn. split_and!; [by apply public_length|apply sign_length|done|by apply sign_verify].
Qed.

Definition wire_of (m : Manifest) : list byte :=
  manifestMagic ++ be 8 (MLength m) ++ be 8 (Basin m) ++ Generation m ++ MRoot m ++ MPublicKey m ++
  ObjectSignature m ++ ManifestSignature m.

Lemma MarshalBinary_ok m w : MarshalBinary m = Ok w <-> VerifyEnvelope m = Ok tt /\ w = wire_of m.
Proof.
  unfold MarshalBinary. destruct (VerifyEnvelope m) as [[]|]; cbn [mbind result_bind]; [|naive_solver].
  split; [intros [= <-]; done|]. by intros [_ ->].
Qed.

(** The fields a wire form is read into. *)
Definition fields_of (wire : list byte) : Manifest :=
  mkManifest (be_val (slice wire 4 12)) (be_val (slice wire 12 20)) (slice wire 20 36)
    (slice wire 36 68) (slice wire 68 100) (slice wire 100 164) (slice wire 164 228).

Lemma ParseManifest_ok wire m : ParseManifest wire = Ok m <->
  length wire = ManifestSize /\ slice wire 0 4 = manifestMagic /\ m = fields_of wire /\ VerifyEnvelope m = Ok tt.
Proof.
  unfold ParseManifest. cbv zeta. fold (fields_of wire). split.
  - intros E. destruct (negb (Nat.eqb _ _)) eqn:El; [done|]. destruct (negb (bool_decide _)) eqn:Em; [done|]. reflect_bools.
    destruct (VerifyEnvelope _) as [[]|] eqn:Ev; [|done]. cbn [mbind result_bind] in E. apply (inj Ok) in E. subst m.
    split_and!; try done. by apply Nat.eqb_eq.
  - intros (Hl & Hm & -> & Hv). rewrite Hl, Nat.eqb_refl, bool_decide_true by done. cbn [negb]. by rewrite Hv.
Qed.

Lemma wire_of_length m : manifest_typed m -> length (wire_of m) = ManifestSize.
Proof.
  intros []. unfold wire_of. rewrite !length_app, !length_be. unfold is_digest in *. cbn [length manifestMagic]. unfold ManifestSize. lia.
Qed.

(** A field is found between the bytes before and after it. *)
Lemma field_at m pre x post i j : wire_of m = pre ++ x ++ post -> length pre = i -> (length x = j - i)%nat -> slice (wire_of m) i j = x.
Proof. intros -> Hp Hx. by apply slice_app_at. Qed.

Ltac wire_field m pre x post :=
  rewrite (field_at m pre x post) by (unfold wire_of; rewrite ?app_nil_r, <- ?app_assoc, ?length_app, ?length_be; cbn [length manifestMagic]; first [done|lia]).

Lemma fields_wire m : manifest_typed m -> slice (wire_of m) 0 4 = manifestMagic /\ fields_of (wire_of m) = m.
Proof.
  intros [Hl Hb Hg Hr Hk Ho Hs]. unfold is_digest in Hr. split; [by apply (slice_app_at [])|].
  destruct m as [l b g r k o sg]. cbn [MLength Basin Generation MRoot MPublicKey ObjectSignature ManifestSignature] in *.
  set (m := mkManifest l b g r k o sg). unfold fields_of.
  wire_field m manifestMagic (be 8 l) (be 8 b ++ g ++ r ++ k ++ o ++ sg).
  wire_field m (manifestMagic ++ be 8 l) (be 8 b) (g ++ r ++ k ++ o ++ sg).
  wire_field m (manifestMagic ++ be 8 l ++ be 8 b) g (r ++ k ++ o ++ sg).
  wire_field m (manifestMagic ++ be 8 l ++ be 8 b ++ g) r (k ++ o ++ sg).
  wire_field m (manifestMagic ++ be 8 l ++ be 8 b ++ g ++ r) k (o ++ sg).
  wire_field m (manifestMagic ++ be 8 l ++ be 8 b ++ g ++ r ++ k) o sg.
  wire_field m (manifestMagic ++ be 8 l ++ be 8 b ++ g ++ r ++ k ++ o) sg (@nil byte).
  by rewrite !be_val_be_fits.
Qed.

Lemma wire_fields wire : length wire = ManifestSize -> slice wire 0 4 = manifestMagic ->
  manifest_typed (fields_of wire) /\ wire_of (fields_of wire) = wire.
Proof.
  unfold ManifestSize. intros Hl Hm.
  assert (forall i j, (i <= j <= 228)%nat -> length (slice wire i j) = (j - i)%nat) as Hs by (intros; apply length_slice; lia).
  assert (forall i, (i + 8 <= 228)%nat -> be 8 (be_val (slice wire i (i + 8))) = slice wire i (i + 8) /\ fits 64 (be_val (slice wire i (i + 8)))) as Hb.
  { intros i Hi. assert (length (slice wire i (i + 8)) = 8%nat) as E by (rewrite Hs; lia).
    split; [rewrite <- E at 1; apply be_be_val|]. pose proof (be_val_range (slice wire i (i + 8))) as Hr. rewrite E in Hr. exact Hr. }
  destruct (Hb 4%nat) as [E4 F4]; [lia|]. destruct (Hb 12%nat) as [E12 F12]; [lia|]. split.
  - split; cbn [MLength Basin Generation MRoot MPublicKey ObjectSignature ManifestSignature fields_of]; try done;
      unfold is_digest; rewrite Hs by lia; done.
  - unfold wire_of. cbn [MLength Basin Generation MRoot MPublicKey ObjectSignature ManifestSignature fields_of].
    change (slice wire 4 12) with (slice wire 4 (4 + 8)). change (slice wire 12 20) with (slice wire 12 (12 + 8)).
    rewrite E4, E12, <- Hm. cbn [Nat.add]. rewrite !slice_join by lia. rewrite <- Hl. apply slice_all.
Qed.

(** A manifest and its 228 bytes determine each other: the bytes of a verified
    manifest parse to that manifest, whatever parses was made from those bytes
    and from no others, and the manifest a publisher makes for an object goes
    through the wire and verifies the object on the other side.  Two objects that
    verify under one manifest are equal. *)
Theorem manifest_roundtrip (m : Manifest) (wire : list byte) (Ht : manifest_typed m) :
  (MarshalBinary m = Ok wire -> length wire = ManifestSize /\ ParseManifest wire = Ok m) /\
  (forall m', ParseManifest wire = Ok m' -> manifest_typed m' /\ MarshalBinary m' = Ok wire) /\
  (forall data basin key, len data < 2 ^ 63 -> fits 64 basin -> NewManifest data basin key = Ok m ->
     exists w, MarshalBinary m = Ok w /\ ParseManifest w = Ok m /\ VerifyObject m data = Ok tt /\
     forall data', collision_free [data; data'] -> VerifyObject m data' = Ok tt -> data' = data).
Proof.
  assert (forall w, MarshalBinary m = Ok w -> length w = ManifestSize /\ ParseManifest w = Ok m) as Hw.
  { intros w [Hv ->]%MarshalBinary_ok. split; [by apply wire_of_length|]. destruct (fields_wire m Ht) as [Hm Hf].
    apply ParseManifest_ok. rewrite Hf. split_and!; try done. by apply wire_of_length. }
  split_and!.
  - apply Hw.
  - intros m' (Hl & Hm & -> & Hv)%ParseManifest_ok. destruct (wire_fields wire Hl Hm) as [Ht' Hf]. split; [done|].
    apply MarshalBinary_ok. by rewrite Hf.
  - intros data basin key Hl Hb E. destruct (NewManifest_ok _ _ _ _ Hl Hb E) as (_ & Hv & _).
    exists (wire_of m). assert (MarshalBinary m = Ok (wire_of m)) as Em by (apply MarshalBinary_ok; apply VerifyObject_ok in Hv as [? _]; done).
    split_and!; [done|by apply Hw|done|]. intros data' Hcf Hv'. symmetry. by apply (VerifyObject_unique m).
Qed.
End manifests.

(** ** Reconstruction over any decoder *)

Section any_decoder.
Context `{HashFunction} `{SignatureScheme} {D E : Type} `{!ObjectDecoder D E}.

(** A decoder is not trusted: whatever it does with the fragments, what
    [Reconstruct] returns is an object with the committed hash under a valid
    signature of the publisher, and it is the published object itself. *)
Theorem reconstruct_sound (dec : option D) (fragments : list (list byte)) (m : Manifest) (data published : list byte)
  (basin : Z) (key : list byte) (Hp : NewManifest published basin key = Ok m)
  (Hcf : collision_free [data; published])
  (Hr : Reconstruct dec fragments (ManifestVerifier m) = Ok data) : data = published.
Proof.
  unfold Reconstruct in Hr. destruct dec as [d|]; [|done]. destruct (feed d fragments) as [d' [[]|]]; [|done].
  destruct (negb (DecoderReady d')); [done|]. destruct (DecodeObject d') as [d'' [x|]]; [|done].
  destruct (VerifierVerify (ManifestVerifier m) x) as [[]|] eqn:Ev; [|done]. apply (inj Ok) in Hr. subst x.
  apply VerifierVerify_ok in Ev as (_ & _ & Er & _). apply Hcf; [set_solver..|]. rewrite Er. cbn.
  unfold NewManifest in Hp. run_guards Hp. done.
Qed.

(** Once the decoder holds enough, the fragments that follow are not read, so
    nothing in them can turn a recovered object into an error. *)
Lemma feed_stops (dec d : D) (fs gs : list (list byte)) : feed dec fs = (d, Ok tt) -> DecoderReady d = true -> fs <> [] -> feed dec (fs ++ gs) = (d, Ok tt).
Proof.
  revert dec. induction fs as [|f fs IH]; intros dec Hf Hd Hne; [done|]. cbn [feed app] in *.
  destruct (AddFragment dec f) as [d1 [[]|e]]; [|done]. destruct (DecoderReady d1) eqn:Er; [done|].
  destruct fs as [|f' fs]; [cbn [feed] in Hf; injection Hf as ->; congruence|]. by apply IH.
Qed.
End any_decoder.

(** ** Examples *)

Section example.
#[local] Existing Instance example_hash.
#[local] Existing Instance example_signatures.

Definition example_object : list byte := [x68; x69].
Definition example_publisher : list byte := replicate 64 x09.
Definition example_manifest : Manifest :=
  match NewManifest example_object 5 example_publisher with Ok m => m | Err _ => mkManifest 0 0 [] [] [] [] [] end.

Lemma example_manifest_made : NewManifest example_object 5 example_publisher = Ok example_manifest.
Proof. reflexivity. Qed.

Lemma example_manifest_typed : manifest_typed example_manifest.
Proof. split; [split; [discriminate|reflexivity]|split; [discriminate|reflexivity]|vm_compute; reflexivity..]. Qed.

Lemma manifest_roundtrip_witness : exists w, MarshalBinary example_manifest = Ok w /\ ParseManifest w = Ok example_manifest.
Proof.
  destruct (manifest_roundtrip example_manifest [] example_manifest_typed) as (_ & _ & Hn).
  destruct (Hn example_object 5 example_publisher) as (w & Hm & Hp & _).
  - cbn. lia.
  - split; [lia|reflexivity].
  - reflexivity.
  - exists w. split; [exact Hm|exact Hp].
Defined.

(** A decoder that joins the fragments it is given until it has two. *)
#[local] Instance joining_decoder : ObjectDecoder (list (list byte)) unit := {|
  AddFragment := fun d f => (d ++ [f], Ok tt);
  DecoderReady := fun d => Nat.eqb (length d) 2;
  DecodeObject := fun d => (d, Ok (concat d)) |}.

Lemma reconstruct_sound_witness :
  Reconstruct (Some []) [[x68]; [x69]; [x00]] (ManifestVerifier example_manifest) = Ok example_object /\ example_object = [x68; x69].
Proof.
  split; [vm_compute; reflexivity|].
  apply (reconstruct_sound (Some []) [[x68]; [x69]; [x00]] example_manifest example_object [x68; x69] 5 example_publisher).
  - reflexivity.
  - apply collision_freeb_ok. vm_compute. reflexivity.
  - vm_compute. reflexivity.
Defined.
End example.
