(* ===== verification/SiteDescriptor.v ===== *)
(** Key-authority descriptors of a site
    ([sdk/nomad-local-reconstruction/site/descriptor.go] and [encoding.go]): the
    canonical form, the identity a genesis descriptor commits to, and the rules
    under which one descriptor may follow another.  JSON decoding is a parameter.

    The theorems show what the rules are for: a revoked key never comes back, online
    signing keys never reach the recovery authority, recovery takes the site back
    from whoever holds the signing keys; and one thing the rules allow that they
    are meant to exclude, [recovery_blocked]. *)

From stdpp Require Import base list list_numbers gmap sets strings.
From Stdlib Require Import ZArith Lia Strings.Byte.
From S2P Require Import Prelude Bytes Hash Codec Checkpoint.

Definition DescriptorVersion : list byte := String.list_byte_of_string "nomad-site-descriptor-v1".
Definition siteIDDomain : list byte := String.list_byte_of_string "nomad-siteid-v1".
Definition descriptorDigestDom : list byte := String.list_byte_of_string "nomad-site-descriptor-digest-v1".
Definition authorizationDomain : list byte := String.list_byte_of_string "nomad-site-authorization-v1".
Definition TransitionGenesis : list byte := String.list_byte_of_string "genesis".
Definition TransitionRotation : list byte := String.list_byte_of_string "rotation".
Definition TransitionRecovery : list byte := String.list_byte_of_string "recovery".
Definition TransitionRevocation : list byte := String.list_byte_of_string "revocation".
Definition signingRole : list byte := String.list_byte_of_string "signing".
Definition recoveryRole : list byte := String.list_byte_of_string "recovery".
Definition RoleSigning : byte := x01.
Definition RoleRecovery : byte := x02.
Definition maxKeys : Z := 8.
Definition maxRevokedKeys : Z := 1024.
Definition siteMaximumFileBytes : Z := 2 ^ 20.
Definition siteMaxCanonicalBytes : Z := 2 ^ 20.
Definition zeroDigestHex : list byte := hex_encode (replicate 32 x00).

Record Recovery := mkRecovery {
  RecThreshold : Z;                 (* uint32 *)
  RecKeys : list (list byte);       (* base64 texts *)
}.

Record Authorization := mkAuthorization {
  AuthRole : list byte;
  AuthKey : list byte;
  AuthSignature : list byte;
}.

Record Descriptor := mkDescriptor {
  DVersion : list byte;
  DSiteID : list byte;              (* hexadecimal text *)
  Sequence : Z;                     (* uint64 *)
  Transition : list byte;
  PreviousDescriptorDigest : list byte;
  ValidFrom : list byte;
  ValidUntil : list byte;
  SigningKeys : list (list byte);   (* base64 texts *)
  RevokedKeys : list (list byte);
  DRecovery : Recovery;
  Authorizations : list Authorization;
}.

Record Verified := mkVerified {
  VDescriptor : Descriptor;
  VDigest : list byte;
  VSiteID : list byte;
  VValidFrom : Z;
  VValidUntil : Z;
}.

Inductive site_error :=
| ErrSiteVersion | ErrTransition | ErrSiteIDEncoding | ErrPreviousDigest | ErrSiteTime
| ErrKeyListLength | ErrKeyEncoding | ErrCanonicalLength
| ErrNotGenesis | ErrGenesisSequence | ErrGenesisPrevious
| ErrNoSigningKey | ErrNoRecoveryKey | ErrThreshold | ErrDuplicateKey
| ErrActiveAndRevoked | ErrNotDisjoint | ErrRecoveryKeyRevoked
| ErrAuthorizingKey | ErrRole | ErrDescriptorSize | ErrDescriptorJSON
| ErrEmptyWindow | ErrGenesisFollows | ErrGenesisCommitment | ErrGenesisRevokes
| ErrPreviousRequired | ErrDifferentSite | ErrSequence | ErrChaining
| ErrDropsRevoked | ErrReinstates | ErrRecoveryKeepsSigning
| ErrPreviousRecoveryKey | ErrPolicyChange (required got : Z)
| ErrTooManyAuthorizations | ErrAuthorizationKey | ErrAuthorizationSignature
| ErrInvalidAuthorization | ErrDuplicateAuthorization
| ErrGenesisSelfSignature | ErrSigningMajority | ErrRecoveryThreshold | ErrUnprovenKey.

(** Strict decoding of one JSON document: duplicate keys, unknown fields and
    trailing data are refused. *)
Class SiteJSON := descriptor_json : list byte -> option Descriptor.

(** ** Canonical form *)

Definition appendUint32 (out : list byte) (value : Z) : list byte := out ++ be 4 value.
Definition site_appendBytes (out value : list byte) : list byte := appendUint64 out (len value) ++ value.
Definition appendKeyList (out : list byte) (keys : list (list byte)) : list byte :=
  fold_left site_appendBytes keys (appendUint64 out (len keys)).

Definition site_decodeHex (encoded : list byte) (size : nat) : option (list byte) := canonical_hex encoded size.
Definition site_decodeBase64 (encoded : list byte) (size : nat) : option (list byte) := canonical_base64 encoded size.

Definition decode_key (item : list byte) : result site_error (list byte) :=
  match site_decodeBase64 item 32 with None => Err ErrKeyEncoding | Some key => Ok key end.

Definition decodeBoundedKeyList (encoded : list (list byte)) (limit : Z) : result site_error (list (list byte)) :=
  if limit <? len encoded then Err ErrKeyListLength else collect decode_key encoded.

Definition decodeKeyList (encoded : list (list byte)) : result site_error (list (list byte)) :=
  decodeBoundedKeyList encoded maxKeys.

Definition containsKey (keys : list (list byte)) (key : list byte) : bool :=
  existsb (fun candidate => bool_decide (candidate = key)) keys.

Fixpoint requireDistinct (keys : list (list byte)) : result site_error unit :=
  match keys with
  | [] => Ok tt
  | key :: keys => if containsKey keys key then Err ErrDuplicateKey else requireDistinct keys
  end.

Definition known_transition (t : list byte) : bool :=
  bool_decide (t = TransitionGenesis) || bool_decide (t = TransitionRotation) ||
  bool_decide (t = TransitionRecovery) || bool_decide (t = TransitionRevocation).

Section descriptors.
Context `{HashFunction} `{SignatureScheme} `{Calendar}.

Definition site_validateCanonicalTime (encoded : list byte) : result site_error unit :=
  match parse_time encoded with
  | None => Err ErrSiteTime
  | Some parsed => if bool_decide (format_time parsed = encoded) then Ok tt else Err ErrSiteTime
  end.

Definition site_validCanonicalLength (length : Z) : result site_error unit :=
  if (length <? 0) || (siteMaxCanonicalBytes <? length) then Err ErrCanonicalLength else Ok tt.

Definition canonicalBytes (d : Descriptor) (zeroSiteID : bool) : result site_error (list byte) :=
  if negb (bool_decide (DVersion d = DescriptorVersion)) then Err ErrSiteVersion
  else if negb (known_transition (Transition d)) then Err ErrTransition
  else
    siteID ← (if zeroSiteID then Ok (replicate 32 x00)
              else match site_decodeHex (DSiteID d) 32 with None => Err ErrSiteIDEncoding | Some id => Ok id end);
    previous ← match site_decodeHex (PreviousDescriptorDigest d) 32 with None => Err ErrPreviousDigest | Some p => Ok p end;
    _ ← site_validateCanonicalTime (ValidFrom d);
    _ ← site_validateCanonicalTime (ValidUntil d);
    signing ← decodeKeyList (SigningKeys d);
    revoked ← decodeBoundedKeyList (RevokedKeys d) maxRevokedKeys;
    recovery ← decodeKeyList (RecKeys (DRecovery d));
    let canonical := appendString [] (DVersion d) in
    let canonical := canonical ++ siteID in
    let canonical := appendUint64 canonical (Sequence d) in
    let canonical := appendString canonical (Transition d) in
    let canonical := canonical ++ previous in
    let canonical := appendString canonical (ValidFrom d) in
    let canonical := appendString canonical (ValidUntil d) in
    let canonical := appendKeyList canonical signing in
    let canonical := appendKeyList canonical revoked in
    let canonical := appendUint32 canonical (RecThreshold (DRecovery d)) in
    let canonical := appendKeyList canonical recovery in
    _ ← site_validCanonicalLength (len canonical);
    Ok canonical.

Definition site_CanonicalBytes (d : Descriptor) : result site_error (list byte) := canonicalBytes d false.
Definition GenesisCoreBytes (d : Descriptor) : result site_error (list byte) := canonicalBytes d true.

(** ** Structure *)

Fixpoint check_signing (revoked recovery signing : list (list byte)) : result site_error unit :=
  match signing with
  | [] => Ok tt
  | key :: signing =>
      if containsKey revoked key then Err ErrActiveAndRevoked
      else if containsKey recovery key then Err ErrNotDisjoint
      else check_signing revoked recovery signing
  end.

Fixpoint check_recovery (revoked recovery : list (list byte)) : result site_error unit :=
  match recovery with
  | [] => Ok tt
  | key :: recovery => if containsKey revoked key then Err ErrRecoveryKeyRevoked else check_recovery revoked recovery
  end.

Definition validateStructure (d : Descriptor) : result site_error unit :=
  signing ← decodeKeyList (SigningKeys d);
  if bool_decide (signing = []) then Err ErrNoSigningKey
  else
    revoked ← decodeBoundedKeyList (RevokedKeys d) maxRevokedKeys;
    recovery ← decodeKeyList (RecKeys (DRecovery d));
    if bool_decide (recovery = []) then Err ErrNoRecoveryKey
    else if (RecThreshold (DRecovery d) <? 1) || (len recovery <? RecThreshold (DRecovery d)) then Err ErrThreshold
    else
      _ ← requireDistinct signing;
      _ ← requireDistinct revoked;
      _ ← requireDistinct recovery;
      _ ← check_signing revoked recovery signing;
      check_recovery revoked recovery.

(** The identity a genesis descriptor commits to. *)
Definition DeriveID (d : Descriptor) : result site_error (list byte) :=
  if negb (bool_decide (Transition d = TransitionGenesis)) then Err ErrNotGenesis
  else if negb (Sequence d =? 0) then Err ErrGenesisSequence
  else if negb (bool_decide (PreviousDescriptorDigest d = zeroDigestHex)) then Err ErrGenesisPrevious
  else
    _ ← validateStructure d;
    core ← canonicalBytes d true;
    Ok (sha256 (siteIDDomain ++ core)).

Definition Digest (d : Descriptor) : result site_error (list byte) :=
  canonical ← canonicalBytes d false; Ok (sha256 (descriptorDigestDom ++ canonical)).

(** ** Authorizations *)

Definition AuthorizationMessage (digest : list byte) (role : byte) (key : list byte) : list byte :=
  authorizationDomain ++ digest ++ [role] ++ key.

Definition roleByte (role : list byte) : result site_error byte :=
  if bool_decide (role = signingRole) then Ok RoleSigning
  else if bool_decide (role = recoveryRole) then Ok RoleRecovery
  else Err ErrRole.

Definition Authorize (d : Descriptor) (role private : list byte) : result site_error Authorization :=
  if negb (Nat.eqb (length private) 64) then Err ErrAuthorizingKey
  else
    value ← roleByte role;
    digest ← Digest d;
    Ok (mkAuthorization role (b64_encode (public private))
          (b64_encode (sign private (AuthorizationMessage digest value (public private))))).

(** The identifier under which a verified authorization is kept. *)
Definition identifier (role key : list byte) : list byte := role ++ [x3a] ++ key.

Fixpoint check_authorizations (digest : list byte) (verified : gset (list byte)) (l : list Authorization)
  : result site_error (gset (list byte)) :=
  match l with
  | [] => Ok verified
  | a :: l =>
      role ← roleByte (AuthRole a);
      match site_decodeBase64 (AuthKey a) 32 with
      | None => Err ErrAuthorizationKey
      | Some key =>
          match site_decodeBase64 (AuthSignature a) 64 with
          | None => Err ErrAuthorizationSignature
          | Some signature =>
              if negb (verify key (AuthorizationMessage digest role key) signature) then Err ErrInvalidAuthorization
              else if bool_decide (identifier (AuthRole a) key ∈ verified) then Err ErrDuplicateAuthorization
              else check_authorizations digest ({[identifier (AuthRole a) key]} ∪ verified) l
          end
      end
  end.

(** Every key of the list is among the verified ones under the role. *)
Fixpoint require_self (verified : gset (list byte)) (role : list byte) (keys : list (list byte)) : result site_error unit :=
  match keys with
  | [] => Ok tt
  | encoded :: keys =>
      key ← decode_key encoded;
      if bool_decide (identifier role key ∈ verified) then require_self verified role keys else Err ErrGenesisSelfSignature
  end.

(** The number of keys of the list that are verified under the role. *)
Fixpoint count_verified (verified : gset (list byte)) (role : list byte) (keys : list (list byte)) : result site_error Z :=
  match keys with
  | [] => Ok 0
  | encoded :: keys =>
      key ← decode_key encoded;
      count ← count_verified verified role keys;
      Ok (if bool_decide (identifier role key ∈ verified) then count + 1 else count)
  end.

Definition requireSigningMajority (verified : gset (list byte)) (previous : Verified) : result site_error unit :=
  count ← count_verified verified signingRole (SigningKeys (VDescriptor previous));
  if count <? len (SigningKeys (VDescriptor previous)) / 2 + 1 then Err ErrSigningMajority else Ok tt.

Definition requireRecoveryThreshold (verified : gset (list byte)) (previous : Verified) : result site_error unit :=
  count ← count_verified verified recoveryRole (RecKeys (DRecovery (VDescriptor previous)));
  if count <? RecThreshold (DRecovery (VDescriptor previous)) then Err ErrRecoveryThreshold else Ok tt.

(** [previous] is nil for a genesis descriptor only; the caller has checked it,
    and the code would panic otherwise. *)
Definition verifyAuthorizations (d : Descriptor) (digest : list byte) (previous : option Verified) : result site_error unit :=
  if 4 * maxKeys <? len (Authorizations d) then Err ErrTooManyAuthorizations
  else
    verified ← check_authorizations digest ∅ (Authorizations d);
    if bool_decide (Transition d = TransitionGenesis) then
      _ ← require_self verified signingRole (SigningKeys d);
      require_self verified recoveryRole (RecKeys (DRecovery d))
    else match previous with
    | None => Err ErrPreviousRequired
    | Some previous =>
        if bool_decide (Transition d = TransitionRotation) then requireSigningMajority verified previous
        else if bool_decide (Transition d = TransitionRecovery) then requireRecoveryThreshold verified previous
        else if bool_decide (Transition d = TransitionRevocation) then
          match requireSigningMajority verified previous with
          | Ok _ => Ok tt
          | Err _ => requireRecoveryThreshold verified previous
          end
        else Err ErrTransition
    end.

(** Some authorization of the descriptor proves possession of the key. *)
Definition proven (d : Descriptor) (digest role : list byte) (value : byte) (encoded key : list byte) : bool :=
  existsb (fun a =>
    bool_decide (AuthRole a = role) && bool_decide (AuthKey a = encoded) &&
    match site_decodeBase64 (AuthSignature a) 64 with
    | None => false
    | Some signature => verify key (AuthorizationMessage digest value key) signature
    end) (Authorizations d).

Fixpoint check_possession (d : Descriptor) (digest : list byte) (known : gset (list byte)) (role : list byte) (value : byte)
  (keys : list (list byte)) : result site_error unit :=
  match keys with
  | [] => Ok tt
  | encoded :: keys =>
      if bool_decide (encoded ∈ known) then check_possession d digest known role value keys
      else
        key ← decode_key encoded;
        if proven d digest role value encoded key then check_possession d digest known role value keys else Err ErrUnprovenKey
  end.

Definition requirePossessionOfNewKeys (d : Descriptor) (digest : list byte) (previous : option Verified) : result site_error unit :=
  match previous with
  | None => Ok tt
  | Some previous =>
      let known : gset (list byte) :=
        list_to_set (SigningKeys (VDescriptor previous)) ∪ list_to_set (RecKeys (DRecovery (VDescriptor previous))) in
      _ ← check_possession d digest known signingRole RoleSigning (SigningKeys d);
      check_possession d digest known recoveryRole RoleRecovery (RecKeys (DRecovery d))
  end.

(** ** What may follow a descriptor *)

Definition checkRevocationIsAbsorbing (d : Descriptor) (previous : Verified) : result site_error unit :=
  previousRevoked ← decodeBoundedKeyList (RevokedKeys (VDescriptor previous)) maxRevokedKeys;
  revoked ← decodeBoundedKeyList (RevokedKeys d) maxRevokedKeys;
  if negb (forallb (containsKey revoked) previousRevoked) then Err ErrDropsRevoked
  else
    signing ← decodeKeyList (SigningKeys d);
    recovery ← decodeKeyList (RecKeys (DRecovery d));
    if existsb (containsKey previousRevoked) (signing ++ recovery) then Err ErrReinstates else Ok tt.

Definition requireRecoveryRevokesPriorSigning (d : Descriptor) (previous : Verified) : result site_error unit :=
  previousSigning ← decodeKeyList (SigningKeys (VDescriptor previous));
  revoked ← decodeBoundedKeyList (RevokedKeys d) maxRevokedKeys;
  if forallb (containsKey revoked) previousSigning then Ok tt else Err ErrRecoveryKeepsSigning.

(** The number of previous recovery keys that authorise the descriptor. *)
Fixpoint count_recovery (d : Descriptor) (digest : list byte) (keys : list (list byte)) : result site_error Z :=
  match keys with
  | [] => Ok 0
  | encoded :: keys =>
      match site_decodeBase64 encoded 32 with
      | None => Err ErrPreviousRecoveryKey
      | Some key =>
          count ← count_recovery d digest keys;
          Ok (if proven d digest recoveryRole RoleRecovery encoded key then count + 1 else count)
      end
  end.

Definition checkRecoveryPolicyAuthority (d : Descriptor) (previous : Verified) : result site_error unit :=
  let policy := DRecovery (VDescriptor previous) in
  let unchanged := (RecThreshold (DRecovery d) =? RecThreshold policy) && bool_decide (RecKeys (DRecovery d) = RecKeys policy) in
  revoked ← decodeBoundedKeyList (RevokedKeys d) maxRevokedKeys;
  previousRecovery ← decodeKeyList (RecKeys policy);
  let revokesRecovery := existsb (containsKey revoked) previousRecovery in
  if unchanged && negb revokesRecovery then Ok tt
  else
    digest ← Digest d;
    count ← count_recovery d digest (RecKeys policy);
    if count <? RecThreshold policy then Err (ErrPolicyChange (RecThreshold policy) count) else Ok tt.

(** [time.Time{}], what [time.Parse] leaves when it fails. *)
Definition zeroTime : Z := -62135596800 * second.

Definition VerifyDescriptor (d : Descriptor) (previous : option Verified) : result site_error Verified :=
  digest ← Digest d;
  _ ← validateStructure d;
  let validFrom := default zeroTime (parse_time (ValidFrom d)) in
  let validUntil := default zeroTime (parse_time (ValidUntil d)) in
  if negb (validFrom <? validUntil) then Err ErrEmptyWindow
  else match site_decodeHex (DSiteID d) 32 with
  | None => Err ErrSiteIDEncoding
  | Some id =>
      _ ← (if bool_decide (Transition d = TransitionGenesis) then
             match previous with
             | Some _ => Err ErrGenesisFollows
             | None =>
                 derived ← DeriveID d;
                 if negb (bool_decide (derived = id)) then Err ErrGenesisCommitment
                 else if negb (bool_decide (RevokedKeys d = [])) then Err ErrGenesisRevokes
                 else Ok tt
             end
           else match previous with
             | None => Err ErrPreviousRequired
             | Some previous =>
                 if negb (bool_decide (id = VSiteID previous)) then Err ErrDifferentSite
                 else if negb (Sequence d =? u64 (Sequence (VDescriptor previous) + 1)) then Err ErrSequence
                 else if negb (bool_decide (PreviousDescriptorDigest d = hex_encode (VDigest previous))) then Err ErrChaining
                 else
                   _ ← checkRevocationIsAbsorbing d previous;
                   _ ← (if bool_decide (Transition d = TransitionRecovery) then requireRecoveryRevokesPriorSigning d previous else Ok tt);
                   checkRecoveryPolicyAuthority d previous
             end);
      _ ← verifyAuthorizations d digest previous;
      _ ← requirePossessionOfNewKeys d digest previous;
      Ok (mkVerified d digest id validFrom validUntil)
  end.

Definition site_Decode `{SiteJSON} (encoded : list byte) : result site_error Descriptor :=
  if bool_decide (encoded = []) || (siteMaximumFileBytes <? len encoded) then Err ErrDescriptorSize
  else match descriptor_json encoded with None => Err ErrDescriptorJSON | Some d => Ok d end.

Definition site_Verify `{SiteJSON} (encoded : list byte) (previous : option Verified) : result site_error Verified :=
  d ← site_Decode encoded; VerifyDescriptor d previous.

Definition site_ActiveAt (v : Verified) (now : Z) : bool := negb (now <? VValidFrom v) && (now <? VValidUntil v).

Definition AuthorizesKey (v : Verified) (key : list byte) : bool :=
  match decodeKeyList (SigningKeys (VDescriptor v)), decodeBoundedKeyList (RevokedKeys (VDescriptor v)) maxRevokedKeys with
  | Ok signing, Ok revoked => containsKey signing key && negb (containsKey revoked key)
  | _, _ => false
  end.
End descriptors.

(** ** Decoded keys *)

Definition keys_of (r : result site_error (list (list byte))) : list (list byte) := match r with Ok l => l | Err _ => [] end.
Definition signing_of (d : Descriptor) : list (list byte) := keys_of (decodeKeyList (SigningKeys d)).
Definition revoked_of (d : Descriptor) : list (list byte) := keys_of (decodeBoundedKeyList (RevokedKeys d) maxRevokedKeys).
Definition recovery_of (d : Descriptor) : list (list byte) := keys_of (decodeKeyList (RecKeys (DRecovery d))).

Lemma decode_key_ok item key : decode_key item = Ok key <-> item = b64_encode key /\ length key = 32%nat.
Proof.
  unfold decode_key, site_decodeBase64. split.
  - destruct (canonical_base64 item 32) as [k|] eqn:E; [|done]. intros [= ->]. apply canonical_base64_unique in E as [? ?]. done.
  - intros [-> Hl]. by rewrite canonical_base64_encode.
Qed.

Lemma decodeBoundedKeyList_ok encoded limit keys : decodeBoundedKeyList encoded limit = Ok keys <->
  encoded = map b64_encode keys /\ Forall (fun k => length k = 32%nat) keys /\ len keys <= limit.
Proof.
  unfold decodeBoundedKeyList. split.
  - destruct (limit <? len encoded) eqn:El; [done|]. reflect_bools. intros E%collect_ok.
    assert (encoded = map b64_encode keys /\ Forall (fun k => length k = 32%nat) keys) as [-> Hf].
    { induction E as [|x k xs ks Hx _ IH]; [split; constructor|]. cbn [length] in El.
      destruct IH as [-> Hf]; [lia|]. apply decode_key_ok in Hx as [-> Hk]. split; [done|]. by constructor. }
    rewrite length_map in El. done.
  - intros (-> & Hf & Hl). rewrite length_map, (proj2 (Z.ltb_ge _ _) Hl). apply collect_ok.
    clear Hl. induction Hf as [|k ks Hk _ IH]; [constructor|]. cbn [map]. constructor; [by apply decode_key_ok|done].
Qed.

Lemma containsKey_spec keys key : containsKey keys key = true <-> key ∈ keys.
Proof.
  unfold containsKey. rewrite existsb_exists. split.
  - intros (x & Hx & E). apply bool_decide_eq_true in E as ->. by apply list_elem_of_In.
  - intros Hk. exists key. split; [by apply list_elem_of_In|]. by apply bool_decide_eq_true.
Qed.

Lemma containsKey_false keys key : containsKey keys key = false <-> key ∉ keys.
Proof. rewrite <- containsKey_spec. destruct (containsKey keys key); naive_solver. Qed.

Lemma requireDistinct_ok keys : requireDistinct keys = Ok tt <-> NoDup keys.
Proof.
  induction keys as [|k ks IH]; cbn [requireDistinct]; [split; [constructor|done]|]. rewrite NoDup_cons, <- IH, <- containsKey_false.
  destruct (containsKey ks k); naive_solver.
Qed.

Lemma check_signing_ok revoked recovery signing : check_signing revoked recovery signing = Ok tt <->
  forall k, k ∈ signing -> k ∉ revoked /\ k ∉ recovery.
Proof.
  induction signing as [|k ks IH]; cbn [check_signing]; [split; [intros _ ? []%elem_of_nil|done]|].
  destruct (containsKey revoked k) eqn:E1; [rewrite containsKey_spec in E1|rewrite containsKey_false in E1].
  { split; [done|]. intros Hk. by destruct (Hk k) as [[] _]; [left|]. }
  destruct (containsKey recovery k) eqn:E2; [rewrite containsKey_spec in E2|rewrite containsKey_false in E2].
  { split; [done|]. intros Hk. by destruct (Hk k) as [_ []]; [left|]. }
  rewrite IH. split.
  - intros Hk x [->|Hx]%elem_of_cons; [done|]. by apply Hk.
  - intros Hk x Hx. apply Hk. by right.
Qed.

Lemma check_recovery_ok revoked recovery : check_recovery revoked recovery = Ok tt <-> forall k, k ∈ recovery -> k ∉ revoked.
Proof.
  induction recovery as [|k ks IH]; cbn [check_recovery]; [split; [intros _ ? []%elem_of_nil|done]|].
  destruct (containsKey revoked k) eqn:E1; [rewrite containsKey_spec in E1|rewrite containsKey_false in E1].
  { split; [done|]. intros Hk. by destruct (Hk k); [left|]. }
  rewrite IH. split.
  - intros Hk x [->|Hx]%elem_of_cons; [done|]. by apply Hk.
  - intros Hk x Hx. apply Hk. by right.
Qed.

(** What [validateStructure] guarantees about the decoded lists. *)
Record well_structured (d : Descriptor) : Prop := {
  ws_signing : decodeKeyList (SigningKeys d) = Ok (signing_of d);
  ws_revoked : decodeBoundedKeyList (RevokedKeys d) maxRevokedKeys = Ok (revoked_of d);
  ws_recovery : decodeKeyList (RecKeys (DRecovery d)) = Ok (recovery_of d);
  ws_signing_some : signing_of d <> [];
  ws_threshold : 1 <= RecThreshold (DRecovery d) <= len (recovery_of d);
  ws_signing_distinct : NoDup (signing_of d);
  ws_revoked_distinct : NoDup (revoked_of d);
  ws_recovery_distinct : NoDup (recovery_of d);
  ws_signing_apart : forall k, k ∈ signing_of d -> k ∉ revoked_of d /\ k ∉ recovery_of d;
  ws_recovery_apart : forall k, k ∈ recovery_of d -> k ∉ revoked_of d;
}.

Lemma validateStructure_ok d : validateStructure d = Ok tt <-> well_structured d.
Proof.
  unfold validateStructure. split.
  - destruct (decodeKeyList (SigningKeys d)) as [signing|] eqn:Es; [|done]. cbn [mbind result_bind].
    case_bool_decide as Hne; [done|].
    destruct (decodeBoundedKeyList (RevokedKeys d) maxRevokedKeys) as [revoked|] eqn:Er; [|done]. cbn [mbind result_bind].
    destruct (decodeKeyList (RecKeys (DRecovery d))) as [recovery|] eqn:Ec; [|done]. cbn [mbind result_bind].
    case_bool_decide as Hnr; [done|]. destruct (_ || _) eqn:Et; [done|]. reflect_bools.
    destruct (requireDistinct signing) as [[]|] eqn:E1; [|done]. destruct (requireDistinct revoked) as [[]|] eqn:E2; [|done].
    destruct (requireDistinct recovery) as [[]|] eqn:E3; [|done]. cbn [mbind result_bind].
    destruct (check_signing revoked recovery signing) as [[]|] eqn:E4; [|done]. cbn [mbind result_bind]. intros E5.
    rewrite requireDistinct_ok in E1, E2, E3. rewrite check_signing_ok in E4. rewrite check_recovery_ok in E5.
    split; unfold signing_of, revoked_of, recovery_of; rewrite ?Es, ?Er, ?Ec; cbn [keys_of]; try done; lia.
  - intros [Es Er Ec Hne Ht H1 H2 H3 H4 H5]. rewrite Es. cbn [mbind result_bind]. rewrite bool_decide_false by done.
    rewrite Er. cbn [mbind result_bind]. rewrite Ec. cbn [mbind result_bind].
    rewrite bool_decide_false by (intros E; rewrite E in Ht; cbn in Ht; lia).
    rewrite (proj2 (Z.ltb_ge _ 1)), (proj2 (Z.ltb_ge _ _)) by lia. cbn [orb].
    rewrite !(proj2 (requireDistinct_ok _)) by done. cbn [mbind result_bind].
    rewrite (proj2 (check_signing_ok _ _ _)) by done. cbn [mbind result_bind]. by apply check_recovery_ok.
Qed.

Lemma well_structured_revoked_bound d : well_structured d -> len (revoked_of d) <= maxRevokedKeys.
Proof. intros []. by apply decodeBoundedKeyList_ok in ws_revoked0 as (_ & _ & ?). Qed.

(** ** Verified descriptors *)

Section rules.
Context `{HashFunction} `{SignatureScheme} `{Calendar}.

(** What a descriptor must satisfy towards the one before it. *)
Record succeeds (d : Descriptor) (id : list byte) (p : Verified) : Prop := {
  suc_site : id = VSiteID p;
  suc_sequence : Sequence d = u64 (Sequence (VDescriptor p) + 1);
  suc_chained : PreviousDescriptorDigest d = hex_encode (VDigest p);
  suc_absorbing : checkRevocationIsAbsorbing d p = Ok tt;
  suc_recovery : Transition d = TransitionRecovery -> requireRecoveryRevokesPriorSigning d p = Ok tt;
  suc_policy : checkRecoveryPolicyAuthority d p = Ok tt;
}.

Definition genesis_ok (d : Descriptor) (id : list byte) : Prop :=
  DeriveID d = Ok id /\ RevokedKeys d = [].

Record accepted (d : Descriptor) (previous : option Verified) (v : Verified) : Prop := {
  acc_digest : Digest d = Ok (VDigest v);
  acc_structure : well_structured d;
  acc_window : VValidFrom v < VValidUntil v;
  acc_site : DSiteID d = hex_encode (VSiteID v) /\ length (VSiteID v) = 32%nat;
  acc_link : match previous with
             | None => Transition d = TransitionGenesis /\ genesis_ok d (VSiteID v)
             | Some p => Transition d <> TransitionGenesis /\ succeeds d (VSiteID v) p
             end;
  acc_authorized : verifyAuthorizations d (VDigest v) previous = Ok tt;
  acc_possession : requirePossessionOfNewKeys d (VDigest v) previous = Ok tt;
  acc_descriptor : VDescriptor v = d;
  acc_from : VValidFrom v = default zeroTime (parse_time (ValidFrom d));
  acc_until : VValidUntil v = default zeroTime (parse_time (ValidUntil d));
}.

Lemma VerifyDescriptor_ok d previous v : VerifyDescriptor d previous = Ok v <-> accepted d previous v.
Proof.
  unfold VerifyDescriptor. split.
  - intros E. destruct (Digest d) as [digest|] eqn:Ed; [|done]. cbn [mbind result_bind] in E.
    destruct (validateStructure d) as [[]|] eqn:Es; [|done]. cbn [mbind result_bind] in E. rewrite validateStructure_ok in Es.
    destruct (negb _) eqn:Ew in E; [done|]. reflect_bools.
    destruct (site_decodeHex (DSiteID d) 32) as [id|] eqn:Ei; [|done].
    assert (match previous with
            | None => Transition d = TransitionGenesis /\ genesis_ok d id
            | Some p => Transition d <> TransitionGenesis /\ succeeds d id p
            end /\ (_ ← verifyAuthorizations d digest previous; _ ← requirePossessionOfNewKeys d digest previous;
              Ok (mkVerified d digest id (default zeroTime (parse_time (ValidFrom d))) (default zeroTime (parse_time (ValidUntil d))))) = Ok v) as [Hl Hv].
    { case_bool_decide as Ht.
      - destruct previous; [done|]. destruct (DeriveID d) as [derived|] eqn:Er; [|done]. cbn [mbind result_bind] in E.
        case_bool_decide as Hd; [|done]. case_bool_decide as Hr; [|done]. cbn [negb mbind result_bind] in E. subst derived. split; [|exact E]. done.
      - destruct previous as [p|]; [|done]. case_bool_decide as Hs; [|done]. cbn [negb] in E.
        destruct (Z.eqb_spec (Sequence d) (u64 (Sequence (VDescriptor p) + 1))) as [Hq|]; [|done]. cbn [negb] in E.
        case_bool_decide as Hc; [|done]. cbn [negb] in E.
        destruct (checkRevocationIsAbsorbing d p) as [[]|] eqn:Ea; [|done]. cbn [mbind result_bind] in E.
        destruct (bool_decide (Transition d = TransitionRecovery)) eqn:Et in E; reflect_bools.
        + destruct (requireRecoveryRevokesPriorSigning d p) as [[]|] eqn:Er; [|done]. cbn [mbind result_bind] in E.
          destruct (checkRecoveryPolicyAuthority d p) as [[]|] eqn:Ep; [|done]. split; [|exact E]. split; [done|]. by split.
        + cbn [mbind result_bind] in E. destruct (checkRecoveryPolicyAuthority d p) as [[]|] eqn:Ep; [|done]. split; [|exact E]. split; [done|]. by split. }
    clear E. destruct (verifyAuthorizations d digest previous) as [[]|] eqn:Ea; [|done]. cbn [mbind result_bind] in Hv.
    destruct (requirePossessionOfNewKeys d digest previous) as [[]|] eqn:Ep; [|done]. cbn [mbind result_bind] in Hv. apply (inj Ok) in Hv. subst v.
    apply canonical_hex_unique in Ei as [? ?]. by split.
  - destruct v as [dv digest id from until]. intros [Ed Es Hw [Hs Hl] Hk Ha Hp Hd Hf Hu]. cbn [VDigest VSiteID VValidFrom VValidUntil VDescriptor] in *. subst dv from until. cbn [VDigest VSiteID VValidFrom VValidUntil] in *. rewrite Ed. cbn [mbind result_bind].
    rewrite (proj2 (validateStructure_ok d) Es). cbn [mbind result_bind]. rewrite (proj2 (Z.ltb_lt _ _) Hw). cbn [negb].
    unfold site_decodeHex. rewrite Hs, canonical_hex_encode by done. destruct previous as [p|].
    + destruct Hk as [Ht [-> Hq Hc Hab Hrec Hpol]]. rewrite (bool_decide_false (Transition d = TransitionGenesis)), bool_decide_true by done. cbn [negb].
      rewrite (proj2 (Z.eqb_eq _ _) Hq), bool_decide_true, Hab by done. cbn [negb mbind result_bind].
      case_bool_decide as Ht'; [rewrite Hrec by done|]; cbn [mbind result_bind]; rewrite Hpol; cbn [mbind result_bind]; by rewrite Ha, Hp.
    + destruct Hk as [Ht [Hder Hr]]. rewrite bool_decide_true, Hder by done. cbn [mbind result_bind]. rewrite !bool_decide_true by done. cbn [negb mbind result_bind].
      by rewrite Ha, Hp.
Qed.

Lemma accepted_descriptor d previous v : accepted d previous v -> VDescriptor v = d.
Proof. by intros []. Qed.

(** A descriptor that verified after [p], and one that verified at all. *)
Definition follows (p v : Verified) : Prop := VerifyDescriptor (VDescriptor v) (Some p) = Ok v.
Definition genuine (v : Verified) : Prop := exists previous, VerifyDescriptor (VDescriptor v) previous = Ok v.

Lemma follows_genuine p v : follows p v -> genuine v.
Proof. by exists (Some p). Qed.

Lemma genuine_structured v : genuine v -> well_structured (VDescriptor v).
Proof. intros [p Hv%VerifyDescriptor_ok]. apply Hv. Qed.

(** The signature of a key over this descriptor, presented with it. *)
Definition authorized_by (v : Verified) (role key : list byte) (value : byte) : Prop :=
  exists a signature, a ∈ Authorizations (VDescriptor v) /\ AuthRole a = role /\ AuthKey a = b64_encode key /\
    AuthSignature a = b64_encode signature /\ verify key (AuthorizationMessage (VDigest v) value key) signature = true.

Lemma proven_authorized v role value key : length key = 32%nat ->
  proven (VDescriptor v) (VDigest v) role value (b64_encode key) key = true -> authorized_by v role key value.
Proof.
  unfold proven. intros Hl (a & Ha & E)%existsb_exists. reflect_bools.
  unfold site_decodeBase64 in *. destruct (canonical_base64 (AuthSignature a) 64) as [sg|] eqn:Es; [|done].
  apply canonical_base64_unique in Es as [_ Es]. exists a, sg. split_and!; try done. by apply list_elem_of_In.
Qed.

(** What the map of verified authorizations holds. *)
Definition verified_sound (v : Verified) (verified : gset (list byte)) : Prop :=
  forall role key, (role = signingRole \/ role = recoveryRole) -> length key = 32%nat -> identifier role key ∈ verified ->
    authorized_by v role key (if bool_decide (role = signingRole) then RoleSigning else RoleRecovery).

Lemma roleByte_ok role value : roleByte role = Ok value <->
  (role = signingRole /\ value = RoleSigning) \/ (role = recoveryRole /\ value = RoleRecovery).
Proof.
  unfold roleByte. split.
  - repeat case_bool_decide; [intros [= <-]; tauto|intros [= <-]; tauto|done].
  - intros [[-> ->]|[-> ->]]; reflexivity.
Qed.

Lemma identifier_inj role role' key key' : length key = length key' -> identifier role key = identifier role' key' -> role = role' /\ key = key'.
Proof.
  unfold identifier. intros Hl E. assert (length role = length role') as Hr.
  { apply (f_equal length) in E. rewrite !length_app in E. lia. }
  apply app_eq_length_inj in E as [-> E]; [|done]. by injection E as ->.
Qed.

Lemma check_authorizations_sound v l verified verified' :
  (forall a, a ∈ l -> a ∈ Authorizations (VDescriptor v)) -> verified_sound v verified ->
  check_authorizations (VDigest v) verified l = Ok verified' -> verified_sound v verified'.
Proof.
  revert verified. induction l as [|a l IH]; intros verified Hl Hs E; cbn [check_authorizations] in E; [by injection E as <-|].
  destruct (roleByte (AuthRole a)) as [value|] eqn:Er; [|done]. cbn [mbind result_bind] in E.
  unfold site_decodeBase64 in E. destruct (canonical_base64 (AuthKey a) 32) as [key|] eqn:Ek; [|done].
  destruct (canonical_base64 (AuthSignature a) 64) as [sg|] eqn:Eg; [|done].
  destruct (negb (verify _ _ _)) eqn:Ev in E; [done|]. case_bool_decide as Hd; [done|]. reflect_bools.
  apply canonical_base64_unique in Ek as [Hk Ek]. apply canonical_base64_unique in Eg as [_ Eg].
  apply IH in E; [done|intros; apply Hl; by right|].
  intros role key' Hr Hk' [Hin%elem_of_singleton|Hin]%elem_of_union; [|by apply Hs].
  apply identifier_inj in Hin as [-> ->]; [|congruence]. exists a, sg. split_and!; try done; [apply Hl; left|].
  apply roleByte_ok in Er as [[E1 ->]|[E1 ->]]; rewrite E1 in *; exact Ev.
Qed.

Lemma verifyAuthorizations_map v previous : verifyAuthorizations (VDescriptor v) (VDigest v) previous = Ok tt ->
  exists verified, check_authorizations (VDigest v) ∅ (Authorizations (VDescriptor v)) = Ok verified /\ verified_sound v verified.
Proof.
  unfold verifyAuthorizations. intros E. destruct (_ <? _); [done|].
  destruct (check_authorizations _ _ _) as [verified|] eqn:Ec; [|done]. exists verified. split; [done|].
  apply check_authorizations_sound in Ec; [done|done|]. intros ? ? ? ? Hin%elem_of_empty. done.
Qed.

(** Counting keys of a list under a test gives that many distinct ones. *)
Lemma count_verified_sublist verified role keys c : Forall (fun k => length k = 32%nat) keys ->
  count_verified verified role (map b64_encode keys) = Ok c ->
  exists ks, ks `sublist_of` keys /\ len ks = c /\ forall k, k ∈ ks -> identifier role k ∈ verified.
Proof.
  intros Hk. revert c. induction Hk as [|k keys Hl _ IH]; intros c; cbn [map count_verified].
  - intros [= <-]. exists []. split; [constructor|]. split; [done|]. by intros ? []%elem_of_nil.
  - rewrite (proj2 (decode_key_ok _ k)) by done. cbn [mbind result_bind].
    destruct (count_verified _ _ _) as [c'|] eqn:Ec; [|done]. cbn [mbind result_bind]. destruct (IH c' eq_refl) as (ks & Hs & Hc & Hv).
    case_bool_decide as Hin; intros [= <-].
    + exists (k :: ks). split; [by constructor|]. split; [cbn [length]; lia|]. intros x [->|Hx]%elem_of_cons; [done|by apply Hv].
    + exists ks. split; [by constructor|]. done.
Qed.

Lemma count_recovery_sublist v keys c : Forall (fun k => length k = 32%nat) keys ->
  count_recovery (VDescriptor v) (VDigest v) (map b64_encode keys) = Ok c ->
  exists ks, ks `sublist_of` keys /\ len ks = c /\ forall k, k ∈ ks -> authorized_by v recoveryRole k RoleRecovery.
Proof.
  intros Hk. revert c. induction Hk as [|k keys Hl _ IH]; intros c; cbn [map count_recovery].
  - intros [= <-]. exists []. split; [constructor|]. split; [done|]. by intros ? []%elem_of_nil.
  - unfold site_decodeBase64. rewrite canonical_base64_encode by done.
    destruct (count_recovery _ _ _) as [c'|] eqn:Ec; [|done]. cbn [mbind result_bind]. destruct (IH c' eq_refl) as (ks & Hs & Hc & Hv).
    destruct (proven _ _ _ _ _ _) eqn:Ep; intros [= <-].
    + exists (k :: ks). split; [by constructor|]. split; [cbn [length]; lia|].
      intros x [->|Hx]%elem_of_cons; [by apply proven_authorized|by apply Hv].
    + exists ks. split; [by constructor|]. done.
Qed.

(** At least [n] keys of [keys], all different, authorised [v] in the role. *)
Definition quorum (v : Verified) (role : list byte) (value : byte) (keys : list (list byte)) (n : Z) : Prop :=
  exists ks, NoDup ks /\ (forall k, k ∈ ks -> k ∈ keys /\ authorized_by v role k value) /\ n <= len ks.

Lemma decoded_keys encoded limit keys : decodeBoundedKeyList encoded limit = Ok keys ->
  encoded = map b64_encode keys /\ Forall (fun k => length k = 32%nat) keys.
Proof. intros (? & ? & ?)%decodeBoundedKeyList_ok. done. Qed.

Lemma sublist_elem (k : list byte) ks keys : k ∈ ks -> ks `sublist_of` keys -> k ∈ keys.
Proof. intros Hk Hs. eapply elem_of_submseteq; [exact Hk|by apply sublist_submseteq]. Qed.

Lemma sublist_quorum v role value keys ks n : NoDup keys -> ks `sublist_of` keys ->
  (forall k, k ∈ ks -> authorized_by v role k value) -> n <= len ks -> quorum v role value keys n.
Proof.
  intros Hnd Hs Ha Hn. exists ks. split; [by apply (sublist_NoDup _ keys)|]. split; [|done]. intros k Hk. split; [|by apply Ha].
  by apply (sublist_elem _ ks).
Qed.

Lemma requireSigningMajority_quorum v p verified : verified_sound v verified -> well_structured (VDescriptor p) ->
  requireSigningMajority verified p = Ok tt ->
  quorum v signingRole RoleSigning (signing_of (VDescriptor p)) (len (signing_of (VDescriptor p)) / 2 + 1).
Proof.
  intros Hs Hw. unfold requireSigningMajority. destruct (decoded_keys _ _ _ (ws_signing _ Hw)) as [E Hf].
  destruct (count_verified _ _ _) as [c|] eqn:Ec; [|done]. cbn [mbind result_bind]. rewrite E, length_map. destruct (_ <? _) eqn:El; [done|]. reflect_bools. intros _.
  rewrite E in Ec. apply count_verified_sublist in Ec as (ks & Hsub & Hc & Hv); [|done].
  apply (sublist_quorum _ _ _ _ ks); [apply Hw|done| |lia].
  intros k Hk. apply (Hs signingRole); [by left| |by apply Hv].
  eapply Forall_forall in Hf; [exact Hf|]. by apply (sublist_elem _ ks).
Qed.

Lemma requireRecoveryThreshold_quorum v p verified : verified_sound v verified -> well_structured (VDescriptor p) ->
  requireRecoveryThreshold verified p = Ok tt ->
  quorum v recoveryRole RoleRecovery (recovery_of (VDescriptor p)) (RecThreshold (DRecovery (VDescriptor p))).
Proof.
  intros Hs Hw. unfold requireRecoveryThreshold. destruct (decoded_keys _ _ _ (ws_recovery _ Hw)) as [E Hf].
  destruct (count_verified _ _ _) as [c|] eqn:Ec; [|done]. cbn [mbind result_bind]. destruct (_ <? _) eqn:El; [done|]. reflect_bools. intros _.
  rewrite E in Ec. apply count_verified_sublist in Ec as (ks & Hsub & Hc & Hv); [|done].
  apply (sublist_quorum _ _ _ _ ks); [apply Hw|done| |lia].
  intros k Hk. apply (Hs recoveryRole); [by right| |by apply Hv].
  eapply Forall_forall in Hf; [exact Hf|]. by apply (sublist_elem _ ks).
Qed.

(** ** One step of a site's history *)

Lemma absorbing_step p v : follows p v -> genuine p -> forall k, k ∈ revoked_of (VDescriptor p) -> k ∈ revoked_of (VDescriptor v).
Proof.
  intros Hv%VerifyDescriptor_ok Hp%genuine_structured k Hk. destruct (acc_link _ _ _ Hv) as [_ Hs]. pose proof (suc_absorbing _ _ _ Hs) as E.
  unfold checkRevocationIsAbsorbing in E. rewrite (ws_revoked _ Hp), (ws_revoked _ (acc_structure _ _ _ Hv)) in E. cbn [mbind result_bind] in E.
  destruct (negb _) eqn:Ef in E; [done|]. reflect_bools. rewrite forallb_forall in Ef. apply containsKey_spec, Ef. by apply list_elem_of_In.
Qed.

(** The recovery policy stays, with all its keys in force, unless a threshold of
    the previous recovery keys authorised the change. *)
Lemma policy_step p v : follows p v -> genuine p ->
  (DRecovery (VDescriptor v) = DRecovery (VDescriptor p) /\ forall k, k ∈ recovery_of (VDescriptor p) -> k ∉ revoked_of (VDescriptor v)) \/
  quorum v recoveryRole RoleRecovery (recovery_of (VDescriptor p)) (RecThreshold (DRecovery (VDescriptor p))).
Proof.
  intros Hv%VerifyDescriptor_ok Hp%genuine_structured. destruct (acc_link _ _ _ Hv) as [_ Hs]. pose proof (suc_policy _ _ _ Hs) as E.
  unfold checkRecoveryPolicyAuthority in E. rewrite (ws_recovery _ Hp), (ws_revoked _ (acc_structure _ _ _ Hv)) in E. cbn [mbind result_bind] in E.
  rewrite (acc_digest _ _ _ Hv) in E. cbn [mbind result_bind] in E.
  destruct (_ && negb _) eqn:Eu in E.
  - left. reflect_bools. split.
    + destruct (DRecovery (VDescriptor v)), (DRecovery (VDescriptor p)). cbn in *. congruence.
    + intros k Hk Hin. match goal with Hx : existsb _ _ = false |- _ => rename Hx into Hex end.
      assert (existsb (containsKey (revoked_of (VDescriptor v))) (recovery_of (VDescriptor p)) = true) as Ht; [|congruence].
      apply existsb_exists. exists k. split; [by apply list_elem_of_In|by apply containsKey_spec].
  - right. destruct (decoded_keys _ _ _ (ws_recovery _ Hp)) as [Er Hf]. rewrite Er in E.
    destruct (count_recovery _ _ _) as [c|] eqn:Ec; [|done]. cbn [mbind result_bind] in E. destruct (_ <? _) eqn:El in E; [done|]. reflect_bools.
    apply count_recovery_sublist in Ec as (ks & Hsub & Hc & Ha); [|done].
    apply (sublist_quorum _ _ _ _ ks); [apply Hp|done|done|lia].
Qed.

Lemma authority_step p v : follows p v -> genuine p ->
  quorum v signingRole RoleSigning (signing_of (VDescriptor p)) (len (signing_of (VDescriptor p)) / 2 + 1) /\
    (Transition (VDescriptor v) = TransitionRotation \/ Transition (VDescriptor v) = TransitionRevocation) \/
  quorum v recoveryRole RoleRecovery (recovery_of (VDescriptor p)) (RecThreshold (DRecovery (VDescriptor p))) /\
    (Transition (VDescriptor v) = TransitionRecovery \/ Transition (VDescriptor v) = TransitionRevocation).
Proof.
  intros Hv%VerifyDescriptor_ok Hp%genuine_structured. destruct (acc_link _ _ _ Hv) as [Ht _].
  pose proof (acc_authorized _ _ _ Hv) as E. destruct (verifyAuthorizations_map _ _ E) as (verified & Ec & Hs).
  unfold verifyAuthorizations in E. destruct (_ <? _) in E; [done|]. rewrite Ec in E. cbn [mbind result_bind] in E.
  rewrite bool_decide_false in E by done. case_bool_decide as Hc1; [left; split; [by apply (requireSigningMajority_quorum v p verified)|by left]|].
  case_bool_decide as Hc2; [right; split; [by apply (requireRecoveryThreshold_quorum v p verified)|by left]|].
  case_bool_decide as Hc3; [|done]. destruct (requireSigningMajority verified p) as [[]|] eqn:Em.
  - left. split; [by apply (requireSigningMajority_quorum v p verified)|by right].
  - right. split; [by apply (requireRecoveryThreshold_quorum v p verified)|by right].
Qed.

Lemma recovery_step p v : follows p v -> genuine p -> Transition (VDescriptor v) = TransitionRecovery ->
  forall k, k ∈ signing_of (VDescriptor p) -> k ∈ revoked_of (VDescriptor v).
Proof.
  intros Hv%VerifyDescriptor_ok Hp%genuine_structured Ht k Hk. destruct (acc_link _ _ _ Hv) as [_ Hs]. pose proof (suc_recovery _ _ _ Hs Ht) as E.
  unfold requireRecoveryRevokesPriorSigning in E. rewrite (ws_signing _ Hp), (ws_revoked _ (acc_structure _ _ _ Hv)) in E. cbn [mbind result_bind] in E.
  destruct (forallb _ _) eqn:Ef in E; [|done]. rewrite forallb_forall in Ef. apply containsKey_spec, Ef. by apply list_elem_of_In.
Qed.

(** ** Histories *)

Lemma descends_genuine p v : rtc follows p v -> genuine p -> genuine v.
Proof. induction 1 as [|x y z Hxy _ IH]; [done|]. intros _. apply IH. by apply (follows_genuine x). Qed.

Lemma revoked_kept p v : rtc follows p v -> genuine p -> forall k, k ∈ revoked_of (VDescriptor p) -> k ∈ revoked_of (VDescriptor v).
Proof.
  induction 1 as [|x y z Hxy Hyz IH]; [done|]. intros Hg k Hk. apply IH; [by apply (follows_genuine x)|]. by apply (absorbing_step x).
Qed.

Lemma AuthorizesKey_spec v key : genuine v -> AuthorizesKey v key = true <-> key ∈ signing_of (VDescriptor v).
Proof.
  intros Hg%genuine_structured. unfold AuthorizesKey. rewrite (ws_signing _ Hg), (ws_revoked _ Hg). split.
  - intros E. reflect_bools. by apply containsKey_spec.
  - intros Hk. destruct (ws_signing_apart _ Hg key Hk) as [Hn _]. rewrite (proj2 (containsKey_spec _ _) Hk), (proj2 (containsKey_false _ _) Hn). done.
Qed.

(** Revocation is absorbing: a key revoked by one descriptor is revoked by every
    descriptor that comes after it, authorises nothing there, and is never again
    among the signing or the recovery keys. *)
Theorem revocation_absorbing (p v : Verified) (key : list byte) (Hp : genuine p) (Hd : rtc follows p v)
  (Hk : key ∈ revoked_of (VDescriptor p)) :
  key ∈ revoked_of (VDescriptor v) /\ AuthorizesKey v key = false /\
  key ∉ signing_of (VDescriptor v) /\ key ∉ recovery_of (VDescriptor v).
Proof.
  pose proof (revoked_kept p v Hd Hp key Hk) as Hr. pose proof (descends_genuine p v Hd Hp) as Hg.
  pose proof (genuine_structured v Hg) as Hw. assert (key ∉ signing_of (VDescriptor v)) as Hn by (intros Hs; by destruct (ws_signing_apart _ Hw key Hs)).
  split_and!; try done.
  - destruct (AuthorizesKey v key) eqn:E; [|done]. by apply AuthorizesKey_spec in E.
  - intros Hc. by apply (ws_recovery_apart _ Hw key Hc).
Qed.

(** Signing keys never reach the recovery authority.  As long as no descriptor of
    a history carries the authorizations of a threshold of the recovery keys, the
    recovery policy is the one the history started with and none of its keys is
    revoked, whatever the holders of the signing keys publish. *)
Theorem recovery_authority (p v : Verified) (Hp : genuine p)
  (Hd : rtc (fun x y => follows x y /\
    ~ quorum y recoveryRole RoleRecovery (recovery_of (VDescriptor x)) (RecThreshold (DRecovery (VDescriptor x)))) p v) :
  DRecovery (VDescriptor v) = DRecovery (VDescriptor p) /\
  (forall k, k ∈ recovery_of (VDescriptor p) -> k ∉ revoked_of (VDescriptor v)).
Proof.
  induction Hd as [x|x y z [Hxy Hq] Hyz IH].
  - split; [done|]. apply (ws_recovery_apart _ (genuine_structured _ Hp)).
  - destruct (policy_step x y Hxy Hp) as [[Er Hr]|]; [|done]. destruct (IH (follows_genuine _ _ Hxy)) as [Ez Hz].
    rewrite Ez, Er. split; [done|]. intros k Hk. apply Hz. unfold recovery_of. by rewrite Er.
Qed.

(** The list of revoked keys is bounded and only grows, and a recovery has to add
    the signing keys in force to it.  Once a descriptor revokes as many keys as the
    list holds, no recovery verifies after it or after any of its descendants. *)
Lemma full_list_blocks (p v : Verified) (d : Descriptor) (Hp : genuine p)
  (Hfull : len (revoked_of (VDescriptor p)) = maxRevokedKeys) (Hd : rtc follows p v)
  (Ht : Transition d = TransitionRecovery) : exists e, VerifyDescriptor d (Some v) = Err e.
Proof.
  destruct (VerifyDescriptor d (Some v)) as [w|e] eqn:E; [exfalso|by exists e].
  pose proof (accepted_descriptor _ _ _ (proj1 (VerifyDescriptor_ok _ _ _) E)) as Ew. rewrite <- Ew in E, Ht.
  pose proof (descends_genuine p v Hd Hp) as Hg. pose proof (genuine_structured _ Hg) as Hv.
  pose proof (genuine_structured _ (follows_genuine v w E)) as Hw.
  destruct (signing_of (VDescriptor v)) as [|k ks] eqn:Es; [by destruct (ws_signing_some _ Hv)|].
  assert (k ∈ signing_of (VDescriptor v)) as Hk by (rewrite Es; left).
  assert (k ∉ revoked_of (VDescriptor p)) as Hn.
  { intros Hr. apply (revoked_kept p v Hd Hp) in Hr. by destruct (ws_signing_apart _ Hv k Hk). }
  assert (S (length (revoked_of (VDescriptor p))) <= length (revoked_of (VDescriptor w)))%nat as Hl.
  { change (S _) with (length (k :: revoked_of (VDescriptor p))). apply submseteq_length, NoDup_submseteq.
    - apply NoDup_cons. split; [done|]. apply (ws_revoked_distinct _ (genuine_structured _ Hp)).
    - intros x [->|Hx]%elem_of_cons; [by apply (recovery_step v w)|]. apply (absorbing_step v w E Hg). by apply (revoked_kept p v Hd Hp). }
  pose proof (well_structured_revoked_bound _ Hw). unfold maxRevokedKeys in *. lia.
Qed.

(** Two majorities of one list share an element. *)
Lemma majorities_meet (keys ks ks' : list (list byte)) : NoDup ks -> NoDup ks' -> (forall k, k ∈ ks -> k ∈ keys) -> (forall k, k ∈ ks' -> k ∈ keys) ->
  len keys / 2 + 1 <= len ks -> len keys / 2 + 1 <= len ks' -> exists k, k ∈ ks /\ k ∈ ks'.
Proof.
  intros Hn Hn' Hs Hs' Hl Hl'. destruct (decide (Exists (fun k => k ∈ ks') ks)) as [He|He].
  { apply Exists_exists in He. naive_solver. }
  assert (length (ks ++ ks') <= length keys)%nat as Hb.
  { apply submseteq_length, NoDup_submseteq.
    - apply NoDup_app. split_and!; try done. intros k Hk Hk'. apply He, Exists_exists. by exists k.
    - intros k [Hk|Hk]%elem_of_app; auto. }
  rewrite length_app in Hb. Z.to_euclidean_division_equations. lia.
Qed.

(** Two different rotations of one descriptor need a signing key that authorised
    both: while every holder of a signing key authorises one successor, rotations
    cannot fork the history of a site. *)
Lemma rotation_fork_needs_double_signer (p v w : Verified) (Hp : genuine p) (Hv : follows p v) (Hw : follows p w)
  (Htv : Transition (VDescriptor v) = TransitionRotation) (Htw : Transition (VDescriptor w) = TransitionRotation) :
  exists key, key ∈ signing_of (VDescriptor p) /\ authorized_by v signingRole key RoleSigning /\ authorized_by w signingRole key RoleSigning.
Proof.
  assert (forall x, follows p x -> Transition (VDescriptor x) = TransitionRotation ->
    quorum x signingRole RoleSigning (signing_of (VDescriptor p)) (len (signing_of (VDescriptor p)) / 2 + 1)) as Hq.
  { intros x Hx Et. destruct (authority_step p x Hx Hp) as [[Hq _]|[_ [E|E]]]; [done|..]; rewrite Et in E; discriminate E. }
  destruct (Hq v Hv Htv) as (ks & Hn & Hk & Hl). destruct (Hq w Hw Htw) as (ks' & Hn' & Hk' & Hl').
  destruct (majorities_meet (signing_of (VDescriptor p)) ks ks') as (k & H1' & H2'); try done; [intros; by apply Hk|intros; by apply Hk'|].
  exists k. split_and!; [by apply Hk|by apply Hk|by apply Hk'].
Qed.
End rules.

(** ** The canonical form determines the descriptor *)

Definition key_size (k : list byte) : Prop := length k = 32%nat.

(** The fields as they follow each other. *)
Definition key_block (keys : list (list byte)) : list byte := be 8 (len keys) ++ concat (map (fun k => be 8 (len k) ++ k) keys).
Definition text_block (t : list byte) : list byte := be 8 (len t) ++ t.

Lemma appendKeyList_block out keys : appendKeyList out keys = out ++ key_block keys.
Proof.
  unfold appendKeyList, key_block, appendUint64. rewrite app_assoc. generalize (out ++ be 8 (len keys)) as pre.
  induction keys as [|k ks IH]; intros pre; cbn [fold_left map concat]; [by rewrite app_nil_r|].
  rewrite IH. unfold site_appendBytes, appendUint64. by rewrite <- !app_assoc.
Qed.

Lemma appendString_block out t : appendString out t = out ++ text_block t.
Proof. unfold appendString, text_block, appendUint64. by rewrite <- ?app_assoc. Qed.

Lemma key_block_split a b r s : Forall key_size a -> Forall key_size b -> len a < 2 ^ 63 -> len b < 2 ^ 63 ->
  key_block a ++ r = key_block b ++ s -> a = b /\ r = s.
Proof.
  unfold key_block. intros Ha Hb Hla Hlb. rewrite <- !app_assoc. intros E.
  apply (appendUint64_split []) in E as [El E]; [|unfold fits; lia..].
  assert (length a = length b) as Hl by lia. clear El Hla Hlb. revert b Hb Hl E. induction Ha as [|k a Hk _ IH]; intros b Hb Hl E.
  - destruct b; [done|]. done.
  - destruct Hb as [|k' b Hk' Hb]; [done|]. cbn [map concat] in E. rewrite <- !app_assoc in E. unfold key_size in Hk, Hk'.
    apply app_eq_length_inj in E as [_ E]; [|by rewrite !length_be]. apply app_eq_length_inj in E as [-> E]; [|congruence].
    destruct (IH b) as [-> ->]; try done. cbn in Hl. lia.
Qed.

Lemma text_block_split a b r s : addressable a -> addressable b -> text_block a ++ r = text_block b ++ s -> a = b /\ r = s.
Proof. intros Ha Hb E. apply (appendString_split [] a b r s Ha Hb). by rewrite !appendString_block. Qed.

Definition layout (site previous : list byte) (signing revoked recovery : list (list byte)) (d : Descriptor) : list byte :=
  text_block (DVersion d) ++ site ++ be 8 (Sequence d) ++ text_block (Transition d) ++ previous ++
  text_block (ValidFrom d) ++ text_block (ValidUntil d) ++ key_block signing ++ key_block revoked ++
  be 4 (RecThreshold (DRecovery d)) ++ key_block recovery.

(** The types of the two integer fields. *)
Definition descriptor_typed (d : Descriptor) : Prop := fits 64 (Sequence d) /\ fits 32 (RecThreshold (DRecovery d)).

Lemma layout_chain site previous signing revoked recovery d :
  appendKeyList (appendUint32 (appendKeyList (appendKeyList (appendString (appendString
    (appendString (appendUint64 (appendString [] (DVersion d) ++ site) (Sequence d)) (Transition d) ++ previous)
    (ValidFrom d)) (ValidUntil d)) signing) revoked) (RecThreshold (DRecovery d))) recovery =
  layout site previous signing revoked recovery d.
Proof.
  rewrite !appendKeyList_block, !appendString_block. unfold appendUint32, appendUint64, layout. by rewrite <- !app_assoc.
Qed.

Section binding.
Context `{HashFunction} `{SignatureScheme} `{Calendar}.

Lemma canonicalBytes_ok d z c : canonicalBytes d z = Ok c <->
  DVersion d = DescriptorVersion /\ known_transition (Transition d) = true /\
  site_validateCanonicalTime (ValidFrom d) = Ok tt /\ site_validateCanonicalTime (ValidUntil d) = Ok tt /\
  exists site previous signing revoked recovery,
    (if z then site = replicate 32 x00 else site_decodeHex (DSiteID d) 32 = Some site) /\
    site_decodeHex (PreviousDescriptorDigest d) 32 = Some previous /\
    decodeKeyList (SigningKeys d) = Ok signing /\ decodeBoundedKeyList (RevokedKeys d) maxRevokedKeys = Ok revoked /\
    decodeKeyList (RecKeys (DRecovery d)) = Ok recovery /\
    c = layout site previous signing revoked recovery d /\ len c <= siteMaxCanonicalBytes.
Proof.
  unfold canonicalBytes. cbv zeta. split.
  - case_bool_decide as Hv; [|done]. destruct (known_transition (Transition d)); [|done]. cbn [negb]. intros E.
    destruct (if z then Ok (replicate 32 x00) else match site_decodeHex (DSiteID d) 32 with None => Err ErrSiteIDEncoding | Some id => Ok id end) as [site|] eqn:Es; [|done].
    cbn [mbind result_bind] in E. destruct (site_decodeHex (PreviousDescriptorDigest d) 32) as [previous|]; [|done]. cbn [mbind result_bind] in E.
    destruct (site_validateCanonicalTime (ValidFrom d)) as [[]|]; [|done]. cbn [mbind result_bind] in E.
    destruct (site_validateCanonicalTime (ValidUntil d)) as [[]|]; [|done]. cbn [mbind result_bind] in E.
    destruct (decodeKeyList (SigningKeys d)) as [signing|]; [|done]. cbn [mbind result_bind] in E.
    destruct (decodeBoundedKeyList (RevokedKeys d) maxRevokedKeys) as [revoked|]; [|done]. cbn [mbind result_bind] in E.
    destruct (decodeKeyList (RecKeys (DRecovery d))) as [recovery|]; [|done]. cbn [mbind result_bind] in E.
    rewrite layout_chain in E. unfold site_validCanonicalLength in E. destruct (_ || _) eqn:El in E; [done|]. reflect_bools.
    apply (inj Ok) in E. split_and!; try done. exists site, previous, signing, revoked, recovery. subst c. split_and!; try done.
    destruct z; [by injection Es as <-|]. destruct (site_decodeHex (DSiteID d) 32); [|done]. by injection Es as <-.
  - intros (Hv & Ht & Hf & Hu & site & previous & signing & revoked & recovery & Hs & Hp & E1 & E2 & E3 & -> & Hl).
    rewrite bool_decide_true, Ht by done. cbn [negb]. rewrite Hp, Hf, Hu, E1, E2, E3.
    assert ((if z then Ok (replicate 32 x00) else match site_decodeHex (DSiteID d) 32 with None => Err ErrSiteIDEncoding | Some id => Ok id end) = (Ok site : result site_error (list byte))) as ->.
    { destruct z; [by subst site|]. by rewrite Hs. }
    cbn [mbind result_bind]. rewrite layout_chain. unfold site_validCanonicalLength.
    rewrite (proj2 (Z.ltb_ge _ 0)), (proj2 (Z.ltb_ge _ _)) by lia. done.
Qed.

Lemma layout_texts site previous signing revoked recovery d : len (layout site previous signing revoked recovery d) <= siteMaxCanonicalBytes ->
  addressable (DVersion d) /\ addressable (Transition d) /\ addressable (ValidFrom d) /\ addressable (ValidUntil d).
Proof.
  unfold layout, text_block, addressable, siteMaxCanonicalBytes. rewrite !length_app. lia.
Qed.

Lemma bounded_keys encoded limit keys : decodeBoundedKeyList encoded limit = Ok keys -> limit < 2 ^ 63 ->
  Forall key_size keys /\ len keys < 2 ^ 63 /\ encoded = map b64_encode keys.
Proof. intros (? & ? & ?)%decodeBoundedKeyList_ok ?. split_and!; [done|lia|done]. Qed.

(** Every field the digest covers, everything but the authorizations. *)
Definition same_fields (d d' : Descriptor) : Prop :=
  DVersion d = DVersion d' /\ Sequence d = Sequence d' /\ Transition d = Transition d' /\
  PreviousDescriptorDigest d = PreviousDescriptorDigest d' /\ ValidFrom d = ValidFrom d' /\ ValidUntil d = ValidUntil d' /\
  SigningKeys d = SigningKeys d' /\ RevokedKeys d = RevokedKeys d' /\ DRecovery d = DRecovery d'.

Lemma canonicalBytes_inj d d' z c : descriptor_typed d -> descriptor_typed d' -> canonicalBytes d z = Ok c -> canonicalBytes d' z = Ok c ->
  same_fields d d' /\ (z = false -> DSiteID d = DSiteID d').
Proof.
  intros [Hq Ht] [Hq' Ht'] (Hv & _ & _ & _ & site & prev & signing & revoked & recovery & Hs & Hp & E1 & E2 & E3 & Ec & Hl)%canonicalBytes_ok
    (Hv' & _ & _ & _ & site' & prev' & signing' & revoked' & recovery' & Hs' & Hp' & E1' & E2' & E3' & Ec' & Hl')%canonicalBytes_ok.
  rewrite Ec in Hl. rewrite Ec' in Hl'. destruct (layout_texts _ _ _ _ _ _ Hl) as (A1 & A2 & A3 & A4). destruct (layout_texts _ _ _ _ _ _ Hl') as (B1 & B2 & B3 & B4).
  assert (length site = 32%nat /\ length site' = 32%nat) as [Ls Ls'].
  { destruct z; [subst; by rewrite length_replicate|]. by apply canonical_hex_unique in Hs as [? _], Hs' as [? _]. }
  assert (z = false -> DSiteID d = hex_encode site /\ DSiteID d' = hex_encode site') as Hsite.
  { intros ->. by apply canonical_hex_unique in Hs as [_ ?], Hs' as [_ ?]. }
  apply canonical_hex_unique in Hp as [Lp Hp], Hp' as [Lp' Hp'].
  destruct (bounded_keys _ _ _ E1 eq_refl) as (F1 & N1 & K1). destruct (bounded_keys _ _ _ E1' eq_refl) as (F1' & N1' & K1').
  destruct (bounded_keys _ _ _ E2 eq_refl) as (F2 & N2 & K2). destruct (bounded_keys _ _ _ E2' eq_refl) as (F2' & N2' & K2').
  destruct (bounded_keys _ _ _ E3 eq_refl) as (F3 & N3 & K3). destruct (bounded_keys _ _ _ E3' eq_refl) as (F3' & N3' & K3').
  rewrite Ec in Ec'. unfold layout in Ec'.
  apply text_block_split in Ec' as [EV Ec']; [|done..]. apply app_eq_length_inj in Ec' as [ES Ec']; [|congruence].
  apply (appendUint64_split []) in Ec' as [EQ Ec']; [|done..]. apply text_block_split in Ec' as [ET Ec']; [|done..].
  apply app_eq_length_inj in Ec' as [EP Ec']; [|congruence]. apply text_block_split in Ec' as [EF Ec']; [|done..].
  apply text_block_split in Ec' as [EU Ec']; [|done..]. apply key_block_split in Ec' as [EK1 Ec']; [|done..].
  apply key_block_split in Ec' as [EK2 Ec']; [|done..]. apply app_eq_length_inj in Ec' as [ER Ec']; [|by rewrite !length_be].
  apply be_inj in ER; [|apply Ht|apply Ht'].
  assert (recovery = recovery') as EK3 by (apply (key_block_split recovery recovery' [] []); [done..|by rewrite !app_nil_r]).
  split.
  - unfold same_fields. rewrite K1, K1', K2, K2', Hp, Hp'. split_and!; try congruence.
    destruct (DRecovery d) as [t ks], (DRecovery d') as [t' ks']. cbn in *. congruence.
  - intros Hz. destruct (Hsite Hz) as [-> ->]. congruence.
Qed.

Lemma digest_binds d d' c c' digest : descriptor_typed d -> descriptor_typed d' -> canonicalBytes d false = Ok c -> canonicalBytes d' false = Ok c' ->
  collision_free [descriptorDigestDom ++ c; descriptorDigestDom ++ c'] -> Digest d = Ok digest -> Digest d' = Ok digest ->
  same_fields d d' /\ DSiteID d = DSiteID d'.
Proof.
  intros Hd Hd' E E' Hcf. unfold Digest. rewrite E, E'. cbn [mbind result_bind]. intros Ed Ed'. apply (inj Ok) in Ed, Ed'. rewrite <- Ed in Ed'.
  apply Hcf in Ed'; [|set_solver..]. apply app_inv_head in Ed'. subst c'. destruct (canonicalBytes_inj d d' false c) as [? Hs]; try done. auto.
Qed.

Lemma site_binds d d' c c' id : descriptor_typed d -> descriptor_typed d' -> canonicalBytes d true = Ok c -> canonicalBytes d' true = Ok c' ->
  collision_free [siteIDDomain ++ c; siteIDDomain ++ c'] -> DeriveID d = Ok id -> DeriveID d' = Ok id -> same_fields d d'.
Proof.
  intros Hd Hd' E E' Hcf. unfold DeriveID. rewrite E, E'. intros Ed Ed'. run_guards Ed. run_guards Ed'.
  cbn [mbind result_bind] in *. destruct (validateStructure d) as [[]|]; [|done]. destruct (validateStructure d') as [[]|]; [|done]. cbn [mbind result_bind] in *.
  apply (inj Ok) in Ed, Ed'. rewrite <- Ed in Ed'. apply Hcf in Ed'; [|set_solver..]. apply app_inv_head in Ed'. subst c'.
  by destruct (canonicalBytes_inj d d' true c) as [? _].
Qed.

(** What is signed is what is meant: under one digest there is one site, sequence
    number, transition, predecessor, validity window and set of keys, so an
    authorization cannot be moved to another descriptor; and one site identifier
    stands for one genesis, up to its authorizations.  The hash is assumed to
    separate the canonical forms at hand. *)
Theorem digest_binds_site (d d' : Descriptor) (c c' : list byte) (Hd : descriptor_typed d) (Hd' : descriptor_typed d') :
  (canonicalBytes d false = Ok c -> canonicalBytes d' false = Ok c' ->
   collision_free [descriptorDigestDom ++ c; descriptorDigestDom ++ c'] ->
   forall digest, Digest d = Ok digest -> Digest d' = Ok digest -> same_fields d d' /\ DSiteID d = DSiteID d') /\
  (canonicalBytes d true = Ok c -> canonicalBytes d' true = Ok c' ->
   collision_free [siteIDDomain ++ c; siteIDDomain ++ c'] ->
   forall id, DeriveID d = Ok id -> DeriveID d' = Ok id -> same_fields d d').
Proof. split; intros; [by eapply digest_binds|by eapply site_binds]. Qed.
End binding.

(** ** Recovery by the owner *)

Section recovery.
Context `{HashFunction} `{SignatureScheme} `{Calendar}.

Definition with_authorizations (d : Descriptor) (l : list Authorization) : Descriptor :=
  mkDescriptor (DVersion d) (DSiteID d) (Sequence d) (Transition d) (PreviousDescriptorDigest d) (ValidFrom d) (ValidUntil d)
    (SigningKeys d) (RevokedKeys d) (DRecovery d) l.

(** A successor of [p] with one new signing key that revokes [extra] on top of
    what is revoked already and keeps the recovery policy. *)
Definition successor (kind : list byte) (p : Verified) (next : list byte) (extra : list (list byte)) (from until : Z) : Descriptor :=
  mkDescriptor DescriptorVersion (hex_encode (VSiteID p)) (Sequence (VDescriptor p) + 1) kind (hex_encode (VDigest p))
    (format_time from) (format_time until) [b64_encode (public next)]
    (RevokedKeys (VDescriptor p) ++ map b64_encode extra) (DRecovery (VDescriptor p)) [].

(** It is authorised by the new key and by the keys at hand, in their role. *)
Definition sign_successor (d : Descriptor) (next role : list byte) (signers : list (list byte)) : result site_error Descriptor :=
  own ← Authorize d signingRole next;
  others ← collect (Authorize d role) signers;
  Ok (with_authorizations d (own :: others)).

Lemma structured_authorizations d l : well_structured d -> well_structured (with_authorizations d l).
Proof. intros []. by split. Qed.

Lemma length_key_block keys : Forall key_size keys -> len (key_block keys) = 8 + 40 * len keys.
Proof.
  unfold key_block. rewrite length_app, length_be. induction 1 as [|k ks Hk _ IH]; [done|]. cbn [map concat].
  rewrite !length_app, length_be, Hk. cbn [length]. lia.
Qed.

Lemma canonical_time_format t : writable t -> t mod second = 0 -> site_validateCanonicalTime (format_time t) = Ok tt.
Proof. intros Hw Hs. unfold site_validateCanonicalTime. rewrite parse_format by done. by rewrite bool_decide_true. Qed.

(** What an honest key adds to the map of verified authorizations. *)
Definition honest_authorization (digest role : list byte) (value : byte) (private : list byte) : Authorization :=
  mkAuthorization role (b64_encode (public private)) (b64_encode (sign private (AuthorizationMessage digest value (public private)))).

Lemma Authorize_honest d role value digest private : length private = 64%nat -> roleByte role = Ok value -> Digest d = Ok digest ->
  Authorize d role private = Ok (honest_authorization digest role value private).
Proof. intros Hl Hr Hd. unfold Authorize. rewrite Hl, Hr. cbn [Nat.eqb negb mbind result_bind]. by rewrite Hd. Qed.

Lemma check_honest digest verified role value private l : length private = 64%nat -> roleByte role = Ok value ->
  identifier role (public private) ∉ verified ->
  check_authorizations digest verified (honest_authorization digest role value private :: l) =
  check_authorizations digest ({[identifier role (public private)]} ∪ verified) l.
Proof.
  intros Hl Hr Hn. cbn [check_authorizations honest_authorization AuthRole AuthKey AuthSignature]. rewrite Hr. cbn [mbind result_bind].
  unfold site_decodeBase64. rewrite canonical_base64_encode by (by apply public_length). rewrite canonical_base64_encode by apply sign_length.
  rewrite sign_verify by done. cbn [negb]. by rewrite bool_decide_false.
Qed.

Lemma check_all_honest digest verified role value privates : Forall (fun k => length k = 64%nat) privates -> roleByte role = Ok value ->
  NoDup (map public privates) -> (forall k, k ∈ privates -> identifier role (public k) ∉ verified) ->
  exists verified', check_authorizations digest verified (map (honest_authorization digest role value) privates) = Ok verified' /\
    forall k, k ∈ privates -> identifier role (public k) ∈ verified'.
Proof.
  intros Hl Hr. revert verified. assert (forall verified, exists verified',
    (NoDup (map public privates) -> (forall k, k ∈ privates -> identifier role (public k) ∉ verified) ->
     check_authorizations digest verified (map (honest_authorization digest role value) privates) = Ok verified' /\
     verified ⊆ verified' /\ forall k, k ∈ privates -> identifier role (public k) ∈ verified')) as Hx; [|intros v Hnd Hn; destruct (Hx v) as [v' Hv']; exists v'; naive_solver].
  induction Hl as [|k ks Hk Hks IH]; intros verified.
  - exists verified. intros _ _. split; [done|]. split; [done|]. by intros ? []%elem_of_nil.
  - destruct (IH ({[identifier role (public k)]} ∪ verified)) as [v' Hv']. exists v'. intros Hnd Hn. cbn [map] in *.
    apply NoDup_cons in Hnd as [Hnk Hnd]. rewrite check_honest by (try done; apply Hn; left).
    destruct (Hv' Hnd) as (E & Hsub & Hin).
    { intros x Hx [Hi%elem_of_singleton|Hi]%elem_of_union; [|by apply (Hn x); [right|]].
      apply identifier_inj in Hi as [_ Hi]; [|rewrite !public_length; [done|done|by eapply Forall_forall in Hks]].
      apply Hnk. rewrite <- Hi. by apply elem_of_map_2. }
    split; [done|]. split; [set_solver|]. intros x [->|Hx]%elem_of_cons; [apply Hsub; set_solver|by apply Hin].
Qed.

Lemma count_verified_filter verified role keys : Forall key_size keys ->
  count_verified verified role (map b64_encode keys) = Ok (len (filter (fun k => identifier role k ∈ verified) keys)).
Proof.
  induction 1 as [|k ks Hk _ IH]; [done|]. cbn [map count_verified]. rewrite (proj2 (decode_key_ok _ k)) by done. cbn [mbind result_bind].
  rewrite IH. cbn [mbind result_bind]. rewrite filter_cons. case_bool_decide; [rewrite decide_True by done|rewrite decide_False by done]; [|done].
  cbn [length]. f_equal. lia.
Qed.

Lemma count_verified_ge verified role keys ks : Forall key_size keys -> NoDup ks -> (forall k, k ∈ ks -> k ∈ keys /\ identifier role k ∈ verified) ->
  exists c, count_verified verified role (map b64_encode keys) = Ok c /\ len ks <= c.
Proof.
  intros Hk Hnd Hin. eexists. split; [by apply count_verified_filter|].
  assert (length ks <= length (filter (fun k => identifier role k ∈ verified) keys))%nat; [|lia].
  apply submseteq_length, NoDup_submseteq; [done|]. intros k Hks. apply list_elem_of_filter. by destruct (Hin k Hks).
Qed.

Lemma check_possession_known d digest known role value keys : (forall k, k ∈ keys -> k ∈ known) -> check_possession d digest known role value keys = Ok tt.
Proof.
  induction keys as [|k ks IH]; intros Hk; [done|]. cbn [check_possession]. rewrite bool_decide_true by (apply Hk; left). apply IH. intros. apply Hk. by right.
Qed.

(** What it takes to publish such a successor.  Both cases need a new key, room in
    the list of revoked keys and a window; the authority is a majority of the
    signing keys for a rotation and a threshold of the recovery keys for a
    recovery, which has to revoke the signing keys in force. *)
Record can_extend (kind : list byte) (p : Verified) (next : list byte) (extra signers : list (list byte)) (from until : Z) : Prop := {
  ce_genuine : genuine p;
  ce_sequence : 0 <= Sequence (VDescriptor p) < 2 ^ 64 - 1;
  ce_extra : Forall key_size extra;
  ce_extra_distinct : NoDup extra;
  ce_extra_apart : forall k, k ∈ extra -> k ∉ revoked_of (VDescriptor p) /\ k ∉ recovery_of (VDescriptor p) /\ k <> public next;
  ce_room : len (revoked_of (VDescriptor p)) + len extra <= maxRevokedKeys;
  ce_from : writable from /\ from mod second = 0 /\ len (format_time from) <= 64;
  ce_until : writable until /\ until mod second = 0 /\ len (format_time until) <= 64;
  ce_window : from < until;
  ce_next : length next = 64%nat;
  ce_new : public next ∉ revoked_of (VDescriptor p) ++ signing_of (VDescriptor p) ++ recovery_of (VDescriptor p);
  ce_signers : Forall (fun k => length k = 64%nat) signers;
  ce_distinct : NoDup (map public signers);
  ce_authority :
    (kind = TransitionRotation /\ (forall k, k ∈ signers -> public k ∈ signing_of (VDescriptor p)) /\
     len (signing_of (VDescriptor p)) / 2 + 1 <= len signers) \/
    (kind = TransitionRecovery /\ (forall k, k ∈ signers -> public k ∈ recovery_of (VDescriptor p)) /\
     RecThreshold (DRecovery (VDescriptor p)) <= len signers /\ (forall k, k ∈ signing_of (VDescriptor p) -> k ∈ extra));
}.

(** The role in which the keys of a kind of transition authorise it. *)
Definition role_of (kind : list byte) : list byte := if bool_decide (kind = TransitionRotation) then signingRole else recoveryRole.
Definition value_of (kind : list byte) : byte := if bool_decide (kind = TransitionRotation) then RoleSigning else RoleRecovery.

Lemma roleByte_of kind : roleByte (role_of kind) = Ok (value_of kind).
Proof. unfold role_of, value_of. by case_bool_decide. Qed.

Section extend.
Context (kind : list byte) (p : Verified) (next : list byte) (extra signers : list (list byte)) (from until : Z)
  (Hc : can_extend kind p next extra signers from until).

#[local] Definition pd : Descriptor := VDescriptor p.
#[local] Definition sd : Descriptor := successor kind p next extra from until.

Lemma before_structured : well_structured pd.
Proof using Hc. apply genuine_structured, Hc. Qed.

Lemma successor_lists : signing_of sd = [public next] /\ revoked_of sd = revoked_of pd ++ extra /\ recovery_of sd = recovery_of pd /\
  decodeKeyList (SigningKeys sd) = Ok [public next] /\ decodeBoundedKeyList (RevokedKeys sd) maxRevokedKeys = Ok (revoked_of pd ++ extra) /\
  decodeKeyList (RecKeys (DRecovery sd)) = Ok (recovery_of pd).
Proof using Hc.
  pose proof before_structured as Hw. assert (key_size (public next)) as Hk by apply public_length, Hc.
  assert (decodeKeyList (SigningKeys sd) = Ok [public next]) as E1.
  { apply decodeBoundedKeyList_ok. split; [done|]. split; [by repeat constructor|]. done. }
  assert (decodeBoundedKeyList (RevokedKeys sd) maxRevokedKeys = Ok (revoked_of pd ++ extra)) as E2.
  { destruct (decoded_keys _ _ _ (ws_revoked _ Hw)) as [Er Fr].
    apply decodeBoundedKeyList_ok. rewrite map_app, length_app. split_and!; [|apply Forall_app; split; [done|apply Hc]|].
    - unfold sd, successor. cbn [RevokedKeys]. unfold pd in *. by rewrite <- Er.
    - pose proof (ce_room _ _ _ _ _ _ _ Hc). unfold pd. lia. }
  assert (decodeKeyList (RecKeys (DRecovery sd)) = Ok (recovery_of pd)) as E3 by apply Hw.
  unfold signing_of at 1, revoked_of at 1, recovery_of at 1. rewrite E1, E2, E3. done.
Qed.

Lemma successor_structured : well_structured sd.
Proof using Hc.
  pose proof before_structured as Hw. destruct successor_lists as (E1 & E2 & E3 & D1 & D2 & D3).
  pose proof (ce_new _ _ _ _ _ _ _ Hc) as Hn. rewrite !elem_of_app in Hn. fold pd in Hn. pose proof (ce_extra_apart _ _ _ _ _ _ _ Hc) as Hx. fold pd in Hx.
  split; rewrite ?E1, ?E2, ?E3; try done; try apply Hw.
  - by apply NoDup_singleton.
  - apply NoDup_app. split_and!; [apply Hw| |apply Hc]. intros k Hr Hs. by destruct (Hx k Hs).
  - intros k ->%list_elem_of_singleton. rewrite elem_of_app. split; [|tauto]. intros [?|Hin]; [tauto|]. by destruct (Hx _ Hin) as (_ & _ & []).
  - intros k Hk. rewrite elem_of_app. intros [Hr|Hs]; [by apply (ws_recovery_apart _ Hw k Hk)|by destruct (Hx k Hs) as (_ & ? & _)].
Qed.

Lemma successor_digest : exists digest, Digest sd = Ok digest.
Proof using Hc.
  pose proof before_structured as Hw. destruct successor_lists as (E1 & E2 & E3 & D1 & D2 & D3).
  destruct (ce_genuine _ _ _ _ _ _ _ Hc) as [previous Hg%VerifyDescriptor_ok].
  assert (length (VDigest p) = 32%nat) as Hd.
  { pose proof (acc_digest _ _ _ Hg) as E. unfold Digest in E. destruct (canonicalBytes _ _); [|done]. cbn [mbind result_bind] in E.
    apply (inj Ok) in E. rewrite <- E. apply sha256_digest. }
  destruct (ce_from _ _ _ _ _ _ _ Hc) as (F1 & F2 & F3). destruct (ce_until _ _ _ _ _ _ _ Hc) as (U1 & U2 & U3).
  destruct (acc_site _ _ _ Hg) as [_ Hs].
  assert (known_transition kind = true /\ len kind <= 10) as [Hkt Hkl] by (destruct (ce_authority _ _ _ _ _ _ _ Hc) as [[-> _]|[-> _]]; split; [done|cbn; lia|done|cbn; lia]).
  assert (canonicalBytes sd false = Ok (layout (VSiteID p) (VDigest p) [public next] (revoked_of pd ++ extra) (recovery_of pd) sd)) as Ec.
  { apply canonicalBytes_ok. split_and!; [done|done|by apply canonical_time_format|by apply canonical_time_format|].
    eexists _, _, _, _, _. split_and!; [by apply canonical_hex_encode|by apply canonical_hex_encode|exact D1|exact D2|exact D3|done|].
    destruct (decoded_keys _ _ _ D1) as [_ K1]. destruct (decoded_keys _ _ _ D2) as [_ K2].
    destruct (proj1 (decodeBoundedKeyList_ok (RecKeys (DRecovery sd)) maxKeys (recovery_of pd)) D3) as (_ & K3 & L3).
    unfold layout, text_block. rewrite !length_app, !Nat2Z.inj_add, !length_key_block by done. rewrite !length_be, Hs, Hd.
    pose proof (ce_room _ _ _ _ _ _ _ Hc). fold pd in *. unfold sd, successor. cbn [DVersion Transition ValidFrom ValidUntil DRecovery].
    change (length DescriptorVersion) with 24%nat. rewrite length_app. cbn [length].
    unfold maxKeys, maxRevokedKeys, siteMaxCanonicalBytes in *. lia. }
  unfold Digest. rewrite Ec. cbn [mbind result_bind]. by eexists.
Qed.

Lemma successor_signed digest : Digest sd = Ok digest ->
  sign_successor sd next (role_of kind) signers = Ok (with_authorizations sd
    (honest_authorization digest signingRole RoleSigning next :: map (honest_authorization digest (role_of kind) (value_of kind)) signers)).
Proof using Hc.
  intros Ed. unfold sign_successor. rewrite (Authorize_honest sd signingRole RoleSigning digest) by (done || apply Hc). cbn [mbind result_bind].
  assert (collect (Authorize sd (role_of kind)) signers = Ok (map (honest_authorization digest (role_of kind) (value_of kind)) signers)) as ->; [|done].
  rewrite <- collect_total. apply collect_ext. intros k Hk. apply Authorize_honest; [|apply roleByte_of|done].
  by apply (proj1 (Forall_forall _ _) (ce_signers _ _ _ _ _ _ _ Hc)).
Qed.

Lemma successor_succeeds l : succeeds (with_authorizations sd l) (VSiteID p) p.
Proof using Hc.
  pose proof before_structured as Hw. destruct successor_lists as (E1 & E2 & E3 & D1 & D2 & D3).
  pose proof (ce_new _ _ _ _ _ _ _ Hc) as Hn. rewrite !elem_of_app in Hn. fold pd in Hn. pose proof (ce_extra_apart _ _ _ _ _ _ _ Hc) as Hx. fold pd in Hx.
  assert (existsb (containsKey (revoked_of pd ++ extra)) (recovery_of pd) = false) as Hrec.
  { destruct (existsb _ _) eqn:E; [|done]. apply existsb_exists in E as (k & Hk%list_elem_of_In & Hin%containsKey_spec).
    apply elem_of_app in Hin as [Hr|Hs]; [by destruct (ws_recovery_apart _ Hw k Hk)|by destruct (Hx k Hs) as (_ & ? & _)]. }
  split; try done.
  - unfold sd, successor. cbn [with_authorizations Sequence]. pose proof (ce_sequence _ _ _ _ _ _ _ Hc). rewrite wrapu_small; [done|]. unfold fits. lia.
  - unfold checkRevocationIsAbsorbing. fold pd. cbn [with_authorizations RevokedKeys SigningKeys DRecovery]. rewrite (ws_revoked _ Hw), D2. cbn [mbind result_bind].
    replace (forallb _ _) with true; cycle 1.
    { symmetry. apply forallb_forall. intros k Hk%list_elem_of_In. apply containsKey_spec, elem_of_app. by left. }
    cbn [negb]. rewrite D1, D3. cbn [mbind result_bind].
    destruct (existsb (containsKey (revoked_of pd)) ([public next] ++ recovery_of pd)) eqn:E; [exfalso|done].
    apply existsb_exists in E as (k & Hk%list_elem_of_In & Hin%containsKey_spec).
    apply elem_of_app in Hk as [->%list_elem_of_singleton|Hk]; [tauto|]. by apply (ws_recovery_apart _ Hw k Hk).
  - intros Ht. unfold requireRecoveryRevokesPriorSigning. fold pd. cbn [with_authorizations RevokedKeys]. rewrite (ws_signing _ Hw), D2. cbn [mbind result_bind].
    replace (forallb _ _) with true; [done|]. symmetry. apply forallb_forall. intros k Hk%list_elem_of_In. apply containsKey_spec, elem_of_app. right.
    cbn in Ht. destruct (ce_authority _ _ _ _ _ _ _ Hc) as [[Ek _]|(_ & _ & _ & Hall)]; [rewrite Ht in Ek; discriminate Ek|by apply Hall].
  - unfold checkRecoveryPolicyAuthority. fold pd. cbn [with_authorizations RevokedKeys DRecovery]. rewrite D2, (ws_recovery _ Hw). cbn [mbind result_bind]. rewrite Hrec.
    change (DRecovery sd) with (DRecovery pd). rewrite Z.eqb_refl, bool_decide_true by done. done.
Qed.

(** The keys that authorise, and how many the rule asks for. *)
Lemma signers_bound : (length signers <= 8)%nat.
Proof using Hc.
  pose proof before_structured as Hw.
  assert (exists keys, (forall k, k ∈ signers -> public k ∈ keys) /\ (length keys <= 8)%nat) as (keys & Hm & Hl).
  { destruct (ce_authority _ _ _ _ _ _ _ Hc) as [(_ & Hm & _)|(_ & Hm & _)]; eexists; (split; [exact Hm|]); fold pd.
    - pose proof (proj1 (decodeBoundedKeyList_ok _ _ _) (ws_signing _ Hw)) as (_ & _ & ?). unfold maxKeys in *. lia.
    - pose proof (proj1 (decodeBoundedKeyList_ok _ _ _) (ws_recovery _ Hw)) as (_ & _ & ?). unfold maxKeys in *. lia. }
  etrans; [|exact Hl]. rewrite <- (length_map public signers). apply submseteq_length, NoDup_submseteq; [apply Hc|].
  intros x (k & -> & Hk)%list_elem_of_fmap. by apply Hm.
Qed.

(** The authorizations at hand carry the transition and prove the new key. *)
Lemma successor_authorized digest l : Digest sd = Ok digest ->
  l = honest_authorization digest signingRole RoleSigning next :: map (honest_authorization digest (role_of kind) (value_of kind)) signers ->
  verifyAuthorizations (with_authorizations sd l) digest (Some p) = Ok tt /\
  requirePossessionOfNewKeys (with_authorizations sd l) digest (Some p) = Ok tt.
Proof using Hc.
  intros Ed ->. pose proof before_structured as Hw. pose proof signers_bound as Hlen. pose proof (ce_new _ _ _ _ _ _ _ Hc) as Hn. rewrite !elem_of_app in Hn. split.
  - unfold verifyAuthorizations, with_authorizations. cbn [Authorizations Transition length]. rewrite length_map.
    unfold maxKeys. rewrite (proj2 (Z.ltb_ge _ _)) by lia. rewrite check_honest; [|apply Hc|done|by apply not_elem_of_empty].
    destruct (check_all_honest digest ({[identifier signingRole (public next)]} ∪ ∅) (role_of kind) (value_of kind) signers) as (v' & Ev & Hv); try apply Hc; [apply roleByte_of| |].
    { intros k Hk [Hi%elem_of_singleton|Hi%elem_of_empty]%elem_of_union; [|done]. apply identifier_inj in Hi as [Hr Hi].
      - destruct (ce_authority _ _ _ _ _ _ _ Hc) as [(-> & Hm & _)|(-> & _)]; [|discriminate Hr]. apply Hn. right. left. rewrite <- Hi. by apply Hm.
      - rewrite !public_length; [done|apply Hc|]. by apply (proj1 (Forall_forall _ _) (ce_signers _ _ _ _ _ _ _ Hc)). }
    rewrite Ev. cbn [mbind result_bind]. change (Transition sd) with kind. unfold role_of in Hv.
    assert (forall role keys n, (forall k, k ∈ signers -> public k ∈ keys /\ identifier role (public k) ∈ v') -> Forall key_size keys -> n <= len signers ->
      exists c, count_verified v' role (map b64_encode keys) = Ok c /\ n <= c) as Hcount.
    { intros role keys n Hin Hks Hnum. destruct (count_verified_ge v' role keys (map public signers)) as (c & Ec & Hcnt); [done|apply Hc| |].
      - intros x (k & -> & Hk)%list_elem_of_fmap. by apply Hin.
      - exists c. rewrite length_map in Hcnt. split; [done|lia]. }
    destruct (ce_authority _ _ _ _ _ _ _ Hc) as [(-> & Hm & Hmaj)|(-> & Hm & Hthr & _)].
    + rewrite (bool_decide_false (TransitionRotation = TransitionGenesis)), (bool_decide_true (TransitionRotation = TransitionRotation)) by done.
      unfold requireSigningMajority. fold pd in *. destruct (decoded_keys _ _ _ (ws_signing _ Hw)) as [K Kf]. rewrite K, length_map.
      destruct (Hcount signingRole (signing_of pd) _ (fun k Hk => conj (Hm k Hk) (Hv k Hk)) Kf Hmaj) as (c & -> & Hle). cbn [mbind result_bind].
      by rewrite (proj2 (Z.ltb_ge _ _)).
    + rewrite (bool_decide_false (TransitionRecovery = TransitionGenesis)), (bool_decide_false (TransitionRecovery = TransitionRotation)), (bool_decide_true (TransitionRecovery = TransitionRecovery)) by done.
      unfold requireRecoveryThreshold. fold pd in *. destruct (decoded_keys _ _ _ (ws_recovery _ Hw)) as [K Kf]. rewrite K.
      destruct (Hcount recoveryRole (recovery_of pd) _ (fun k Hk => conj (Hm k Hk) (Hv k Hk)) Kf Hthr) as (c & -> & Hle). cbn [mbind result_bind].
      by rewrite (proj2 (Z.ltb_ge _ _)).
  - unfold requirePossessionOfNewKeys. fold pd. cbv zeta. rewrite (check_possession_known _ _ _ recoveryRole) by (intros k Hk; apply elem_of_union_r, elem_of_list_to_set, Hk).
    change (SigningKeys (with_authorizations sd _)) with [b64_encode (public next)]. cbn [check_possession].
    case_bool_decide; [done|]. rewrite (proj2 (decode_key_ok _ (public next))) by (split; [done|apply public_length, Hc]). cbn [mbind result_bind].
    unfold proven. cbn [with_authorizations Authorizations existsb honest_authorization AuthRole AuthKey AuthSignature].
    rewrite !bool_decide_true by done. unfold site_decodeBase64. rewrite canonical_base64_encode by apply sign_length.
    rewrite sign_verify by apply Hc. done.
Qed.

(** The successor, signed by those who hold the keys, verifies. *)
Lemma successor_follows : exists d v, sign_successor sd next (role_of kind) signers = Ok d /\ VDescriptor v = d /\ follows p v /\
  signing_of d = [public next] /\ revoked_of d = revoked_of pd ++ extra.
Proof using Hc.
  destruct successor_digest as [digest Ed].
  set (d := with_authorizations sd
    (honest_authorization digest signingRole RoleSigning next :: map (honest_authorization digest (role_of kind) (value_of kind)) signers)).
  set (v := mkVerified d digest (VSiteID p) from until). exists d, v. destruct (successor_authorized digest _ Ed eq_refl) as [Ha Hp].
  destruct (ce_from _ _ _ _ _ _ _ Hc) as (F1 & F2 & F3). destruct (ce_until _ _ _ _ _ _ _ Hc) as (U1 & U2 & U3).
  destruct successor_lists as (E1 & E2 & _). split_and!; [by apply successor_signed|done| |done|done].
  apply VerifyDescriptor_ok. split; try done.
  - apply structured_authorizations. exact successor_structured.
  - apply (ce_window _ _ _ _ _ _ _ Hc).
  - destruct (ce_genuine _ _ _ _ _ _ _ Hc) as [previous Hg%VerifyDescriptor_ok]. split; [done|]. apply (acc_site _ _ _ Hg).
  - split; [|apply successor_succeeds]. change (kind <> TransitionGenesis). destruct (ce_authority _ _ _ _ _ _ _ Hc) as [[-> _]|[-> _]]; discriminate.
  - cbn [VValidFrom v d with_authorizations sd successor ValidFrom VDescriptor]. by rewrite parse_format.
  - cbn [VValidUntil v d with_authorizations sd successor ValidUntil VDescriptor]. by rewrite parse_format.
Qed.
End extend.

(** Recovery takes the site back: with room in the list of revoked keys, a fresh
    key and a threshold of the recovery keys, the descriptor the owner signs
    verifies after whatever descriptor is in force; under it the fresh key speaks
    for the site and no key that spoke for it before does, now or later. *)
Theorem recovery_possible (p : Verified) (fresh : list byte) (helpers : list (list byte)) (from until : Z)
  (Hc : can_extend TransitionRecovery p fresh (signing_of (VDescriptor p)) helpers from until) :
  exists d v, sign_successor (successor TransitionRecovery p fresh (signing_of (VDescriptor p)) from until) fresh recoveryRole helpers = Ok d /\
    VDescriptor v = d /\ follows p v /\ AuthorizesKey v (public fresh) = true /\
    forall w k, rtc follows v w -> k ∈ signing_of (VDescriptor p) -> AuthorizesKey w k = false.
Proof.
  destruct (successor_follows TransitionRecovery p fresh _ helpers from until Hc) as (d & v & Es & Ev & Hf & E1 & E2).
  exists d, v. pose proof (follows_genuine p v Hf) as Hg. split_and!; [exact Es|done|done| |].
  - apply AuthorizesKey_spec; [done|]. rewrite Ev, E1. by left.
  - intros w k Hw Hk. pose proof (descends_genuine v w Hw Hg) as Hgw.
    destruct (AuthorizesKey w k) eqn:Ea; [exfalso|done]. apply AuthorizesKey_spec in Ea; [|done].
    assert (k ∈ revoked_of (VDescriptor w)) as Hr.
    { apply (revoked_kept v w Hw Hg). rewrite Ev, E2. apply elem_of_app. by right. }
    by destruct (ws_signing_apart _ (genuine_structured _ Hgw) k Ea).
Qed.

(** Whoever holds a majority of the signing keys can take recovery away for good:
    a rotation may revoke arbitrary keys, and one that fills the list of revoked
    keys verifies; after it and after all of its descendants no recovery descriptor
    verifies, whatever the recovery keys sign. *)
Theorem recovery_blocked (p : Verified) (next : list byte) (junk signers : list (list byte)) (from until : Z)
  (Hc : can_extend TransitionRotation p next junk signers from until)
  (Hfull : len (revoked_of (VDescriptor p)) + len junk = maxRevokedKeys) :
  exists d v, sign_successor (successor TransitionRotation p next junk from until) next signingRole signers = Ok d /\
    VDescriptor v = d /\ follows p v /\
    forall w r, rtc follows v w -> Transition r = TransitionRecovery -> exists e, VerifyDescriptor r (Some w) = Err e.
Proof.
  destruct (successor_follows TransitionRotation p next junk signers from until Hc) as (d & v & Es & Ev & Hf & _ & E2).
  exists d, v. split_and!; [exact Es|done|done|]. intros w r Hw Hr.
  apply (full_list_blocks v w r); [by apply (follows_genuine p)| |done|done]. rewrite Ev, E2, length_app. unfold pd. lia.
Qed.
End recovery.

(** ** Examples *)

Section example.
#[local] Existing Instance example_hash.
#[local] Existing Instance example_signatures.
#[local] Existing Instance example_calendar.

Definition key_one : list byte := replicate 64 x01.
Definition key_two : list byte := replicate 64 x02.
Definition key_three : list byte := replicate 64 x03.
Definition recovery_key : list byte := replicate 64 x04.
Definition text_of (private : list byte) : list byte := b64_encode (public private).

Definition authorize_all (d : Descriptor) (l : list (list byte * list byte)) : Descriptor :=
  with_authorizations d
    (fold_right (fun rk acc => match Authorize d (fst rk) (snd rk) with Ok a => a :: acc | Err _ => acc end) [] l).

Definition nothing_verified : Verified := mkVerified (mkDescriptor [] [] 0 [] [] [] [] [] [] (mkRecovery 0 []) []) [] [] 0 0.
Definition verified_or (r : result site_error Verified) : Verified := match r with Ok v => v | Err _ => nothing_verified end.

Lemma verified_or_ok d p : is_ok (VerifyDescriptor d p) = true -> VerifyDescriptor (VDescriptor (verified_or (VerifyDescriptor d p))) p = Ok (verified_or (VerifyDescriptor d p)).
Proof.
  destruct (VerifyDescriptor d p) as [v|] eqn:E; [|done]. intros _. cbn [verified_or].
  pose proof (proj1 (VerifyDescriptor_ok _ _ _) E) as Ha%accepted_descriptor. by rewrite Ha.
Qed.

Definition unsigned_genesis (site : list byte) : Descriptor :=
  mkDescriptor DescriptorVersion site 0 TransitionGenesis zeroDigestHex (format_time 0) (format_time (100 * second))
    [text_of key_one] [] (mkRecovery 1 [text_of recovery_key]) [].
Definition example_site : list byte := match DeriveID (unsigned_genesis []) with Ok id => id | Err _ => [] end.
Definition genesis_descriptor : Descriptor :=
  authorize_all (unsigned_genesis (hex_encode example_site)) [(signingRole, key_one); (recoveryRole, recovery_key)].
Definition genesis_link : Verified := verified_or (VerifyDescriptor genesis_descriptor None).

Lemma genesis_link_ok : VerifyDescriptor (VDescriptor genesis_link) None = Ok genesis_link.
Proof. apply verified_or_ok. vm_compute. reflexivity. Qed.

Lemma genesis_link_genuine : genuine genesis_link.
Proof. exists None. apply genesis_link_ok. Qed.

(** A rotation from [p] to the key [next], authorised by [by_key], revoking [revoked]. *)
Definition rotation_from (p : Verified) (by_key next : list byte) (revoked : list (list byte)) : Descriptor :=
  authorize_all
    (mkDescriptor DescriptorVersion (hex_encode (VSiteID p)) (Sequence (VDescriptor p) + 1) TransitionRotation (hex_encode (VDigest p))
       (format_time 0) (format_time (100 * second)) [text_of next] revoked (DRecovery (VDescriptor p)) [])
    [(signingRole, by_key); (signingRole, next)].

Definition rotated : Verified := verified_or (VerifyDescriptor (rotation_from genesis_link key_one key_two []) (Some genesis_link)).
Definition rotated' : Verified := verified_or (VerifyDescriptor (rotation_from genesis_link key_one key_three []) (Some genesis_link)).

Lemma rotated_follows : follows genesis_link rotated.
Proof. apply verified_or_ok. vm_compute. reflexivity. Qed.

Lemma rotated'_follows : follows genesis_link rotated'.
Proof. apply verified_or_ok. vm_compute. reflexivity. Qed.

(** Nobody used the recovery key. *)
Lemma rotated_no_recovery : ~ quorum rotated recoveryRole RoleRecovery (recovery_of (VDescriptor genesis_link)) (RecThreshold (DRecovery (VDescriptor genesis_link))).
Proof.
  intros (ks & _ & Hk & Hl). destruct ks as [|k ks]; [vm_compute in Hl; by apply Hl|].
  destruct (Hk k) as [_ (a & sg & Ha & Hr & _)]; [left|].
  assert (forallb (fun a => bool_decide (AuthRole a = signingRole)) (Authorizations (VDescriptor rotated)) = true) as Hall by (vm_compute; reflexivity).
  rewrite forallb_forall in Hall. specialize (Hall a (proj1 (list_elem_of_In _ _) Ha)). apply bool_decide_eq_true in Hall. rewrite Hr in Hall. discriminate Hall.
Qed.

Lemma recovery_authority_witness : DRecovery (VDescriptor rotated) = DRecovery (VDescriptor genesis_link) /\
  (forall k, k ∈ recovery_of (VDescriptor genesis_link) -> k ∉ revoked_of (VDescriptor rotated)).
Proof.
  apply recovery_authority.
  - exact genesis_link_genuine.
  - apply rtc_once. split; [exact rotated_follows|exact rotated_no_recovery].
Defined.

(** The owner takes the site back after the rotation. *)
Lemma example_can_recover : can_extend TransitionRecovery rotated key_three (signing_of (VDescriptor rotated)) [recovery_key] 0 (50 * second).
Proof.
  split.
  - exact (follows_genuine _ _ rotated_follows).
  - vm_compute. split; [discriminate|reflexivity].
  - apply (decodeBoundedKeyList_ok (SigningKeys (VDescriptor rotated)) maxKeys). vm_compute. reflexivity.
  - apply requireDistinct_ok. vm_compute. reflexivity.
  - intros k Hk. assert (signing_of (VDescriptor rotated) = [public key_two]) as E by (vm_compute; reflexivity). rewrite E in Hk.
    apply list_elem_of_singleton in Hk as ->. split_and!; [apply containsKey_false; vm_compute; reflexivity..|discriminate].
  - vm_compute. discriminate.
  - split_and!; [split; [discriminate|reflexivity]|reflexivity|vm_compute; discriminate].
  - split_and!; [split; [discriminate|reflexivity]|reflexivity|vm_compute; discriminate].
  - reflexivity.
  - reflexivity.
  - apply containsKey_false. vm_compute. reflexivity.
  - repeat constructor.
  - by apply NoDup_singleton.
  - right. split_and!; [reflexivity| |vm_compute; discriminate|done].
    intros k ->%list_elem_of_singleton. apply containsKey_spec. vm_compute. reflexivity.
Qed.

Lemma recovery_possible_witness : exists d v,
  sign_successor (successor TransitionRecovery rotated key_three (signing_of (VDescriptor rotated)) 0 (50 * second)) key_three recoveryRole [recovery_key] = Ok d /\
  VDescriptor v = d /\ follows rotated v /\ AuthorizesKey v (public key_three) = true /\
  forall w k, rtc follows v w -> k ∈ signing_of (VDescriptor rotated) -> AuthorizesKey w k = false.
Proof. apply recovery_possible. exact example_can_recover. Defined.

(** The holder of the online key fills the list of revoked keys at once. *)
Definition junk_key (i : nat) : list byte := be 2 (Z.of_nat i) ++ replicate 30 x55.
Definition junk_keys : list (list byte) := map junk_key (seq 0 1024).

Lemma junk_keys_distinct : NoDup junk_keys.
Proof.
  unfold junk_keys. apply NoDup_alt. intros i j k Hi Hj.
  apply map_lookup_Some_1 in Hi as (x & Hx & ->). apply map_lookup_Some_1 in Hj as (y & Hy & E).
  apply lookup_seq in Hx as [-> Hi]. apply lookup_seq in Hy as [-> Hj]. unfold junk_key in E.
  apply app_eq_length_inj in E as [E _]; [|by rewrite !length_be]. apply be_inj in E; lia.
Qed.

(** A junk key is no key of the example: its last bytes differ. *)
Lemma junk_keys_apart keys : forallb (fun k => negb (bool_decide (drop 2 k = replicate 30 x55))) keys = true -> forall k, k ∈ junk_keys -> k ∉ keys.
Proof.
  intros Hk k (i & -> & _)%list_elem_of_fmap Hin. rewrite forallb_forall in Hk. specialize (Hk _ (proj1 (list_elem_of_In _ _) Hin)).
  rewrite bool_decide_true in Hk; [discriminate Hk|]. unfold junk_key. by apply drop_app_exact, length_be.
Qed.

Lemma example_can_burn : can_extend TransitionRotation genesis_link key_two junk_keys [key_one] 0 (50 * second).
Proof.
  assert (length junk_keys = 1024%nat) as Hl by (unfold junk_keys; by rewrite length_map, length_seq).
  split.
  - exact genesis_link_genuine.
  - vm_compute. split; [discriminate|reflexivity].
  - apply Forall_forall. intros k (i & -> & _)%list_elem_of_fmap. unfold key_size, junk_key. by rewrite length_app, length_be, length_replicate.
  - exact junk_keys_distinct.
  - intros k Hk. split_and!; [revert k Hk; apply junk_keys_apart; vm_compute; reflexivity..|].
    intros ->. revert Hk. assert (forallb (fun k => negb (bool_decide (drop 2 k = replicate 30 x55))) [public key_two] = true) as E by (vm_compute; reflexivity).
    intros Hk. apply (junk_keys_apart _ E _ Hk). by left.
  - rewrite Hl. vm_compute. discriminate.
  - split_and!; [split; [discriminate|reflexivity]|reflexivity|vm_compute; discriminate].
  - split_and!; [split; [discriminate|reflexivity]|reflexivity|vm_compute; discriminate].
  - reflexivity.
  - reflexivity.
  - apply containsKey_false. vm_compute. reflexivity.
  - repeat constructor.
  - by apply NoDup_singleton.
  - left. split_and!; [reflexivity| |vm_compute; discriminate].
    intros k ->%list_elem_of_singleton. apply containsKey_spec. vm_compute. reflexivity.
Qed.

Lemma recovery_blocked_witness : exists v, follows genesis_link v /\
  forall w r, rtc follows v w -> Transition r = TransitionRecovery -> exists e, VerifyDescriptor r (Some w) = Err e.
Proof.
  destruct (recovery_blocked genesis_link key_two junk_keys [key_one] 0 (50 * second) example_can_burn) as (d & v & _ & _ & Hf & Hb).
  - unfold junk_keys. rewrite length_map, length_seq. vm_compute. reflexivity.
  - exists v. split; [exact Hf|exact Hb].
Defined.

(** A rotation that revokes the key it replaces, and one after it. *)
Definition replaced : Verified := verified_or (VerifyDescriptor (rotation_from genesis_link key_one key_two [text_of key_one]) (Some genesis_link)).
Definition replaced' : Verified := verified_or (VerifyDescriptor (rotation_from replaced key_two key_three [text_of key_one]) (Some replaced)).

Lemma revocation_absorbing_witness : follows replaced replaced' /\ AuthorizesKey replaced' (public key_one) = false.
Proof.
  assert (follows genesis_link replaced) as H1 by (apply verified_or_ok; vm_compute; reflexivity).
  assert (follows replaced replaced') as H2 by (apply verified_or_ok; vm_compute; reflexivity).
  split; [exact H2|].
  refine (proj1 (proj2 (revocation_absorbing replaced replaced' (public key_one) (follows_genuine _ _ H1) (rtc_once _ _ H2) _))).
  apply containsKey_spec. vm_compute. reflexivity.
Defined.

Lemma digest_binds_site_witness : same_fields genesis_descriptor (with_authorizations genesis_descriptor []).
Proof.
  destruct (canonicalBytes genesis_descriptor true) as [c|] eqn:Ec; [|vm_compute in Ec; discriminate Ec].
  assert (descriptor_typed genesis_descriptor) as Ht by (split; split; [discriminate|reflexivity|discriminate|reflexivity]).
  destruct (digest_binds_site genesis_descriptor (with_authorizations genesis_descriptor []) c c Ht Ht) as [_ Hid].
  apply (Hid Ec Ec) with (id := example_site).
  - intros x y Hx Hy _. rewrite !elem_of_cons, elem_of_nil in Hx, Hy. destruct Hx as [->|[->|[]]], Hy as [->|[->|[]]]; reflexivity.
  - vm_compute. reflexivity.
  - vm_compute. reflexivity.
Defined.
End example.
