(* ===== verification/SiteChain.v ===== *)
(** A reader's history of one site
    ([sdk/nomad-local-reconstruction/site/chain.go] and [distribution.go]): the
    accepted descriptors, evidence of equivocation, and the view of the log that
    carries them.

    The log view is shared with the goroutine that refreshes it; the model keeps
    its current state in the chain, and a run interleaves refreshes with the other
    calls.  Both objects hold a lock for each call. *)

From stdpp Require Import base list list_numbers gmap sets strings.
From Stdlib Require Import ZArith Lia Strings.Byte.
From S2P Require Import Prelude Bytes Hash Codec Merkle Checkpoint WitnessPolicy Monitor SiteDescriptor.

(** ** The log view *)

Definition logEntryDomain : list byte := String.list_byte_of_string "nomad-site-log-entry-v1".

Definition LogEntry (encoded : list byte) : list byte := appendUint64 logEntryDomain (len encoded) ++ encoded.

Record Distribution := mkDistribution { monitor : Monitor }.

Record EquivocationProof := mkEquivocation {
  EqSiteID : list byte;
  EqSequence : Z;
  Prefix : list (list byte);
  EqFirst : list byte;
  EqSecond : list byte;
}.

Inductive chain_error :=
| ErrSite (e : site_error)
| ErrGenesisSite             (* the genesis is for a different site *)
| ErrUnwitnessed
| ErrUseWitnessed
| ErrLogSplit (proof : SplitViewProof)
| ErrStaleDistribution (held : option Z)
| ErrNotInLog (e : monitor_error)
| ErrEquivocation (proof : EquivocationProof)
| ErrForeignDescriptor
| ErrNotInChain
| ErrSuperseded (e : site_error)
| ErrAppendSequence
| ErrEmptyChain              (* the code would panic; a chain is never empty *)
| ErrProofPrefix
| ErrProofAncestor (index : nat) (e : site_error)
| ErrProofGenesis
| ErrProofSite
| ErrProofFirst (e : site_error)
| ErrProofSecond (e : site_error)
| ErrProofSequence
| ErrProofIdentical.

Record Chain := mkChain {
  siteID : list byte;
  links : list Verified;
  encodings : list (list byte);
  equivoke : option EquivocationProof;
  distribution : option Distribution;
}.

Section operations.
Context `{HashFunction} `{SignatureScheme} `{Calendar} `{CheckpointJSON} `{SiteJSON}.

Definition NewDistribution (origin logKey : list byte) (freshness : Z) : result monitor_error Distribution :=
  m ← NewMonitor origin logKey freshness; Ok (mkDistribution m).

Definition NewCosignedDistribution (origin logKey : list byte) (freshness : Z) (policy : option WitnessPolicy)
  : result monitor_error Distribution :=
  m ← NewCosignedMonitor origin logKey freshness policy; Ok (mkDistribution m).

Definition Refresh (d : Distribution) (checkpoint : Checkpoint) (proof : ConsistencyProof) (now : Z)
  : Distribution * result monitor_error unit :=
  let (m, r) := Update (monitor d) checkpoint proof now in (mkDistribution m, r).

Definition DistributionFresh (d : Distribution) (now : Z) : bool := Fresh (monitor d) now.
Definition DistributionEquivocating (d : Distribution) : option SplitViewProof := Equivocating (monitor d).
Definition DistributionHead (d : Distribution) : option SignedCheckpoint := Head (monitor d).

Definition DistributionWitness (d : Distribution) (encoded : list byte) (proof : InclusionProof) (now : Z) : result monitor_error unit :=
  MonitorAccept (monitor d) (LogEntry encoded) proof now.

Definition requireUsable (d : option Distribution) (now : Z) : result chain_error unit :=
  match d with
  | None => Err ErrUnwitnessed
  | Some d =>
      match DistributionEquivocating d with
      | Some proof => Err (ErrLogSplit proof)
      | None =>
          if DistributionFresh d now then Ok tt
          else Err (ErrStaleDistribution (STime <$> DistributionHead d))
      end
  end.

(** ** The chain *)

Definition site_NewChain (expected genesisEncoded : list byte) : result chain_error Chain :=
  match site_Verify genesisEncoded None with
  | Err e => Err (ErrSite e)
  | Ok verified =>
      if negb (bool_decide (VSiteID verified = expected)) then Err ErrGenesisSite
      else Ok (mkChain expected [verified] [genesisEncoded] None None)
  end.

Definition NewWitnessedChain (expected genesisEncoded : list byte) (proof : InclusionProof) (d : option Distribution) (now : Z)
  : result chain_error Chain :=
  match d with
  | None => Err ErrUnwitnessed
  | Some dist =>
      _ ← requireUsable d now;
      _ ← wrap ErrNotInLog (DistributionWitness dist genesisEncoded proof now);
      chain ← site_NewChain expected genesisEncoded;
      Ok (mkChain (siteID chain) (links chain) (encodings chain) (equivoke chain) d)
  end.

Definition with_equivoke (c : Chain) (proof : EquivocationProof) : Chain :=
  mkChain (siteID c) (links c) (encodings c) (Some proof) (distribution c).
Definition with_link (c : Chain) (v : Verified) (e : list byte) : Chain :=
  mkChain (siteID c) (links c ++ [v]) (encodings c ++ [e]) (equivoke c) (distribution c).

(** The branch for a sequence number that is taken already.  [int(Sequence)] is
    an index below the tip's, so it is never negative. *)
Definition append_taken (c : Chain) (encoded : list byte) (d : Descriptor) (digest : list byte) : Chain * result chain_error Verified :=
  let index := i64 (Sequence d) in
  if len (links c) <=? index then (c, Err ErrNotInChain)
  else match links c !! Z.to_nat index with
  | None => (c, Err ErrNotInChain)
  | Some stored =>
      if bool_decide (VDigest stored = digest) then (c, Ok stored)
      else
        let previous := if 0 <? index then links c !! Z.to_nat (index - 1) else None in
        match VerifyDescriptor d previous with
        | Err e => (c, Err (ErrSuperseded e))
        | Ok _ =>
            let proof := mkEquivocation (siteID c) (Sequence d) (take (Z.to_nat index) (encodings c))
                           (default [] (encodings c !! Z.to_nat index)) encoded in
            (with_equivoke c proof, Err (ErrEquivocation proof))
        end
  end.

Definition appendLocked (c : Chain) (encoded : list byte) : Chain * result chain_error Verified :=
  match equivoke c with
  | Some proof => (c, Err (ErrEquivocation proof))
  | None =>
      match site_Decode encoded with
      | Err e => (c, Err (ErrSite e))
      | Ok d =>
          if negb (bool_decide (DSiteID d = hex_encode (siteID c))) then (c, Err ErrForeignDescriptor)
          else match Digest d with
          | Err e => (c, Err (ErrSite e))
          | Ok digest =>
              match last (links c) with
              | None => (c, Err ErrEmptyChain)
              | Some tip =>
                  if Sequence d <=? Sequence (VDescriptor tip) then append_taken c encoded d digest
                  else if negb (Sequence d =? u64 (Sequence (VDescriptor tip) + 1)) then (c, Err ErrAppendSequence)
                  else match VerifyDescriptor d (Some tip) with
                  | Err e => (c, Err (ErrSite e))
                  | Ok verified => (with_link c verified encoded, Ok verified)
                  end
              end
          end
      end
  end.

Definition site_Append (c : Chain) (encoded : list byte) : Chain * result chain_error Verified :=
  match distribution c with
  | Some _ => (c, Err ErrUseWitnessed)
  | None => appendLocked c encoded
  end.

Definition AppendWitnessed (c : Chain) (encoded : list byte) (proof : InclusionProof) (now : Z) : Chain * result chain_error Verified :=
  match distribution c with
  | None => (c, Err ErrUnwitnessed)
  | Some d =>
      match requireUsable (Some d) now with
      | Err e => (c, Err e)
      | Ok _ =>
          match DistributionWitness d encoded proof now with
          | Err e => (c, Err (ErrNotInLog e))
          | Ok _ => appendLocked c encoded
          end
      end
  end.

(** The refresh of the log view this chain shares. *)
Definition RefreshView (c : Chain) (checkpoint : Checkpoint) (proof : ConsistencyProof) (now : Z) : Chain :=
  match distribution c with
  | None => c
  | Some d => mkChain (siteID c) (links c) (encodings c) (equivoke c) (Some (fst (Refresh d checkpoint proof now)))
  end.

Definition Witnessed (c : Chain) : bool := match distribution c with Some _ => true | None => false end.

Definition ChainHead (c : Chain) : result chain_error Verified :=
  match equivoke c with
  | Some proof => Err (ErrEquivocation proof)
  | None => match last (links c) with Some v => Ok v | None => Err ErrEmptyChain end
  end.

Definition DescriptorByDigest (c : Chain) (digest : list byte) : option Verified :=
  match equivoke c with
  | Some _ => None
  | None => snd <$> list_find (fun link => VDigest link = digest) (links c)
  end.

(** The ancestors a proof carries, verified from the genesis on. *)
Fixpoint verify_prefix (site : list byte) (index : nat) (previous : option Verified) (prefix : list (list byte))
  : result chain_error (option Verified) :=
  match prefix with
  | [] => Ok previous
  | encoded :: prefix =>
      match site_Verify encoded previous with
      | Err e => Err (ErrProofAncestor index e)
      | Ok verified =>
          _ ← (if Nat.eqb index 0 then
                 match DeriveID (VDescriptor verified) with
                 | Err e => Err (ErrSite e)
                 | Ok derived => if bool_decide (derived = site) then Ok tt else Err ErrProofGenesis
                 end
               else Ok tt);
          if negb (bool_decide (VSiteID verified = site)) then Err ErrProofSite
          else verify_prefix site (S index) (Some verified) prefix
      end
  end.

Definition VerifyEquivocationProof (proof : EquivocationProof) : result chain_error unit :=
  if negb (len (Prefix proof) =? i64 (EqSequence proof)) then Err ErrProofPrefix
  else
    previous ← verify_prefix (EqSiteID proof) 0 None (Prefix proof);
    match site_Verify (EqFirst proof) previous with
    | Err e => Err (ErrProofFirst e)
    | Ok first =>
        match site_Verify (EqSecond proof) previous with
        | Err e => Err (ErrProofSecond e)
        | Ok second =>
            if negb (Sequence (VDescriptor first) =? EqSequence proof) || negb (Sequence (VDescriptor second) =? EqSequence proof) then Err ErrProofSequence
            else if negb (bool_decide (VSiteID first = EqSiteID proof)) || negb (bool_decide (VSiteID second = EqSiteID proof)) then Err ErrProofSite
            else if bool_decide (VDigest first = VDigest second) then Err ErrProofIdentical
            else Ok tt
        end
    end.
End operations.

(** ** Histories *)

Section histories.
Context `{HashFunction} `{SignatureScheme} `{Calendar} `{CheckpointJSON} `{SiteJSON}.

(** [linked previous es vs]: the encoded descriptors [es] verify one after the
    other, the first after [previous], as [vs]. *)
Inductive linked : option Verified -> list (list byte) -> list Verified -> Prop :=
| linked_nil previous : linked previous [] []
| linked_cons previous e v es vs : site_Verify e previous = Ok v -> linked (Some v) es vs -> linked previous (e :: es) (v :: vs).

(** The descriptor before position [i]. *)
Definition before (previous : option Verified) (vs : list Verified) (i : nat) : option Verified :=
  match i with O => previous | S j => vs !! j end.

Lemma linked_length previous es vs : linked previous es vs -> length es = length vs.
Proof. induction 1 as [|previous e v es vs _ _ IH]; [done|]. cbn. congruence. Qed.

Lemma history_snoc previous es vs e v : linked previous es vs -> site_Verify e (before previous vs (length vs)) = Ok v ->
  linked previous (es ++ [e]) (vs ++ [v]).
Proof.
  induction 1 as [|previous e' v' es vs Hv Hl IH]; intros E; cbn [app].
  - econstructor; [exact E|constructor].
  - econstructor; [exact Hv|]. apply IH. destruct vs; exact E.
Qed.

Lemma linked_lookup previous es vs i v : linked previous es vs -> vs !! i = Some v ->
  exists e, es !! i = Some e /\ site_Verify e (before previous vs i) = Ok v.
Proof.
  intros Hl. revert i. induction Hl as [|previous e' v' es vs Hv Hl IH]; intros i Hi; [done|].
  destruct i as [|i]; [injection Hi as <-; by exists e'|]. destruct (IH i Hi) as (e & He & E). exists e. split; [done|]. destruct i; exact E.
Qed.

Lemma linked_take previous es vs n : linked previous es vs -> linked previous (take n es) (take n vs).
Proof.
  intros Hl. revert n. induction Hl as [|previous e v es vs Hv Hl IH]; intros n; [rewrite !take_nil; constructor|].
  destruct n as [|n]; [constructor|]. cbn [take]. econstructor; [exact Hv|apply IH].
Qed.

Lemma site_Verify_ok e previous v : site_Verify e previous = Ok v <-> site_Decode e = Ok (VDescriptor v) /\ accepted (VDescriptor v) previous v.
Proof.
  unfold site_Verify. destruct (site_Decode e) as [d|]; cbn [mbind result_bind]; [|naive_solver]. split.
  - intros E%VerifyDescriptor_ok. pose proof (accepted_descriptor _ _ _ E) as Ed. by rewrite Ed.
  - intros [[= ->] Ha]. by apply VerifyDescriptor_ok.
Qed.

(** From the genesis on, all descriptors carry its site and sit at their number. *)
Lemma linked_positions es vs i v v0 : linked None es vs -> vs !! O = Some v0 -> vs !! i = Some v ->
  VSiteID v = VSiteID v0 /\ Sequence (VDescriptor v) = u64 (Z.of_nat i).
Proof.
  intros Hl H0'. revert v. induction i as [|i IH]; intros v Hi.
  - assert (v = v0) as -> by congruence. split; [done|]. destruct (linked_lookup _ _ _ _ _ Hl H0') as (e & _ & [_ Ha]%site_Verify_ok).
    destruct (acc_link _ _ _ Ha) as [_ [Hd _]]. unfold DeriveID in Hd. run_guards Hd. done.
  - destruct (linked_lookup _ _ _ _ _ Hl Hi) as (e & _ & [_ Ha]%site_Verify_ok). cbn [before] in Ha.
    destruct (vs !! i) as [p|] eqn:Ep; [|apply lookup_ge_None in Ep; apply lookup_lt_Some in Hi; lia].
    destruct (IH p eq_refl) as [Es Eq]. destruct (acc_link _ _ _ Ha) as [_ Hs]. split; [by rewrite (suc_site _ _ _ Hs)|].
    rewrite (suc_sequence _ _ _ Hs), Eq. unfold wrapu. rewrite Zplus_mod_idemp_l. f_equal. lia.
Qed.

Lemma linked_genuine previous es vs v : linked previous es vs -> v ∈ vs -> genuine v.
Proof.
  intros Hl (i & Hi)%list_elem_of_lookup_1. destruct (linked_lookup _ _ _ _ _ Hl Hi) as (e & _ & [_ Ha]%site_Verify_ok).
  eexists. by apply VerifyDescriptor_ok.
Qed.

Lemma linked_follows previous es vs i p v : linked previous es vs -> vs !! i = Some p -> vs !! S i = Some v -> follows p v.
Proof.
  intros Hl Hp Hv. destruct (linked_lookup _ _ _ _ _ Hl Hv) as (e & _ & [_ Ha]%site_Verify_ok). cbn [before] in Ha. rewrite Hp in Ha. by apply VerifyDescriptor_ok.
Qed.

Lemma linked_descends previous es vs i j p v : linked previous es vs -> (i <= j)%nat -> vs !! i = Some p -> vs !! j = Some v -> rtc follows p v.
Proof.
  intros Hl Hij Hp. revert v. induction Hij as [|j Hij IH]; intros v Hv; [assert (p = v) as -> by congruence; apply rtc_refl|].
  destruct (vs !! j) as [w|] eqn:Ew; [|apply lookup_ge_None in Ew; apply lookup_lt_Some in Hv; lia].
  eapply rtc_r; [by apply IH|]. by apply (linked_follows previous es vs j).
Qed.

(** ** Evidence *)

Lemma last_before (vs : list Verified) : last vs = before None vs (length vs).
Proof. rewrite last_lookup. destruct vs as [|v vs]; [done|]. done. Qed.

Lemma verify_prefix_ok site es index previous r : verify_prefix site index previous es = Ok r ->
  exists vs, linked previous es vs /\ r = before previous vs (length vs) /\ (forall v, v ∈ vs -> VSiteID v = site) /\
    (index = O -> forall v, vs !! O = Some v -> DeriveID (VDescriptor v) = Ok site).
Proof.
  revert index previous. induction es as [|e es IH]; intros index previous E; cbn [verify_prefix] in E.
  - apply (inj Ok) in E as <-. exists []. split_and!; [constructor|done|by intros ? []%elem_of_nil|done].
  - destruct (site_Verify e previous) as [v|] eqn:Ev; [|done].
    destruct (if Nat.eqb index 0 then _ else _) as [[]|] eqn:Eg in E; [|done]. cbn [mbind result_bind] in E. case_bool_decide as Hs; [|done]. cbn [negb] in E.
    apply IH in E as (vs & Hl & -> & Hvs & _). exists (v :: vs). split_and!.
    + econstructor; [exact Ev|exact Hl].
    + by destruct vs.
    + intros x [->|Hx]%elem_of_cons; [done|by apply Hvs].
    + intros -> x [= <-]. cbn [Nat.eqb] in Eg. destruct (DeriveID (VDescriptor v)) as [derived|]; [|done]. case_bool_decide as Hd; [|done]. by rewrite Hd.
Qed.

Lemma verify_prefix_complete es index previous vs site : linked previous es vs -> (forall v, v ∈ vs -> VSiteID v = site) ->
  (index = O -> previous = None) -> verify_prefix site index previous es = Ok (before previous vs (length vs)).
Proof.
  intros Hl. revert index. induction Hl as [|previous e v es vs Hv Hl IH]; intros index Hs Hp; [done|]. cbn [verify_prefix]. rewrite Hv.
  assert (VSiteID v = site) as Hvs by (apply Hs; left).
  assert ((if Nat.eqb index 0 then match DeriveID (VDescriptor v) with Err e => Err (ErrSite e) | Ok derived => if bool_decide (derived = site) then Ok tt else Err ErrProofGenesis end
           else Ok tt) = (Ok tt : result chain_error unit)) as ->.
  { destruct index as [|index]; [|done]. cbn [Nat.eqb]. rewrite (Hp eq_refl) in Hv. apply site_Verify_ok in Hv as [_ Ha].
    destruct (acc_link _ _ _ Ha) as [_ [Hd _]]. rewrite Hd. by rewrite bool_decide_true. }
  cbn [mbind result_bind]. rewrite bool_decide_true by done. cbn [negb]. rewrite IH; [by destruct vs|intros x Hx; apply Hs; by right|done].
Qed.

(** ** The invariant of a chain *)

Record chain_inv (c : Chain) : Prop := {
  ci_linked : linked None (encodings c) (links c);
  ci_some : links c <> [];
  ci_site : forall v, v ∈ links c -> VSiteID v = siteID c;
  ci_sequence : forall i v, links c !! i = Some v -> Sequence (VDescriptor v) = Z.of_nat i;
  ci_evidence : forall pr, equivoke c = Some pr -> EqSiteID pr = siteID c /\ VerifyEquivocationProof pr = Ok tt;
}.

Lemma site_NewChain_ok expected e c : site_NewChain expected e = Ok c ->
  chain_inv c /\ siteID c = expected /\ equivoke c = None /\ distribution c = None /\ encodings c = [e] /\
  exists v, links c = [v] /\ DeriveID (VDescriptor v) = Ok expected.
Proof.
  unfold site_NewChain. destruct (site_Verify e None) as [v|] eqn:Ev; [|done]. case_bool_decide as Hs; [|done]. cbn [negb]. intros [= <-].
  pose proof Ev as [_ Ha]%site_Verify_ok. destruct (acc_link _ _ _ Ha) as [_ [Hd _]]. split.
  - split; cbn [links encodings siteID equivoke]; [econstructor; [exact Ev|constructor]|done| | |done].
    + intros x ->%list_elem_of_singleton. done.
    + intros [|i] x Hx; [|done]. injection Hx as <-. unfold DeriveID in Hd. run_guards Hd. done.
  - split_and!; try done. exists v. split; [done|]. by rewrite Hd, Hs.
Qed.

Lemma chain_tip c : chain_inv c -> exists tip, last (links c) = Some tip /\ Sequence (VDescriptor tip) = len (links c) - 1 /\
  links c !! (length (links c) - 1)%nat = Some tip.
Proof.
  intros Hi. destruct (links c) as [|v vs] eqn:E using rev_ind; [by destruct (ci_some _ Hi)|]. clear IHvs. exists v.
  rewrite last_snoc. assert ((vs ++ [v]) !! (length (vs ++ [v]) - 1)%nat = Some v) as Hl.
  { rewrite length_app. cbn [length]. rewrite Nat.add_sub. by rewrite list_lookup_middle. }
  split_and!; [done| |done]. rewrite <- E in Hl. rewrite (ci_sequence _ Hi _ _ Hl), E, length_app. cbn [length]. lia.
Qed.

(** What one delivery does to a chain. *)
Inductive append_outcome (c : Chain) (e : list byte) : Chain -> result chain_error Verified -> Prop :=
| outcome_refused err : (forall pr, err = ErrEquivocation pr -> equivoke c = Some pr) -> append_outcome c e c (Err err)
| outcome_known v i : equivoke c = None -> links c !! i = Some v -> append_outcome c e c (Ok v)
| outcome_next tip v : equivoke c = None -> last (links c) = Some tip -> site_Verify e (Some tip) = Ok v -> DSiteID (VDescriptor v) = hex_encode (siteID c) ->
    append_outcome c e (with_link c v e) (Ok v)
| outcome_fork i stored v first : equivoke c = None -> links c !! i = Some stored -> encodings c !! i = Some first ->
    site_Verify e (before None (links c) i) = Ok v -> DSiteID (VDescriptor v) = hex_encode (siteID c) -> VDigest v <> VDigest stored -> Sequence (VDescriptor v) = Z.of_nat i ->
    append_outcome c e (with_equivoke c (mkEquivocation (siteID c) (Z.of_nat i) (take i (encodings c)) first e))
      (Err (ErrEquivocation (mkEquivocation (siteID c) (Z.of_nat i) (take i (encodings c)) first e))).

Lemma append_taken_outcome c e d digest tip c' r : chain_inv c -> equivoke c = None -> len (links c) < 2 ^ 63 ->
  site_Decode e = Ok d -> DSiteID d = hex_encode (siteID c) -> Digest d = Ok digest -> 0 <= Sequence d <= Sequence (VDescriptor tip) -> Sequence (VDescriptor tip) = len (links c) - 1 ->
  append_taken c e d digest = (c', r) -> append_outcome c e c' r.
Proof.
  intros Hi He Hn Hd Hs Hg Hle Ht. unfold append_taken. rewrite i64_small by lia. rewrite (proj2 (Z.leb_gt _ _)) by lia.
  set (i := Z.to_nat (Sequence d)). assert (Sequence d = Z.of_nat i) as Hq by lia.
  destruct (links c !! i) as [stored|] eqn:El; [|apply lookup_ge_None in El; lia].
  case_bool_decide as Hdg; [intros [= <- <-]; by econstructor|].
  assert ((if 0 <? Sequence d then links c !! Z.to_nat (Sequence d - 1) else None) = before None (links c) i) as ->.
  { rewrite Hq. destruct i as [|i']; [done|]. rewrite (proj2 (Z.ltb_lt _ _)) by lia. cbn [before]. f_equal. lia. }
  destruct (VerifyDescriptor d (before None (links c) i)) as [v|] eqn:Ev; [|intros [= <- <-]; by constructor].
  destruct (linked_lookup _ _ _ _ _ (ci_linked _ Hi) El) as (first & Hf & _). rewrite Hf. cbn [default from_option]. unfold id. rewrite Hq.
  intros [= <- <-]. pose proof (accepted_descriptor _ _ _ (proj1 (VerifyDescriptor_ok _ _ _) Ev)) as Edv.
  apply (outcome_fork c e i stored v first); try done.
  - unfold site_Verify. rewrite Hd. done.
  - by rewrite Edv.
  - pose proof (acc_digest _ _ _ (proj1 (VerifyDescriptor_ok _ _ _) Ev)) as E. rewrite Hg in E. apply (inj Ok) in E. congruence.
  - by rewrite Edv.
Qed.

(** The numbers in decoded descriptors are [uint64]. *)
Definition json_typed : Prop := forall e d, descriptor_json e = Some d -> descriptor_typed d.

Lemma site_Decode_typed' e d : json_typed -> site_Decode e = Ok d -> descriptor_typed d.
Proof. intros Hj. unfold site_Decode. intros E. run_guards E. by apply (Hj e d). Qed.

Lemma site_Decode_typed e d : json_typed -> site_Decode e = Ok d -> 0 <= Sequence d.
Proof. intros Hj E. by destruct (site_Decode_typed' e d Hj E) as [[? _] _]. Qed.

Lemma appendLocked_outcome c e c' r : json_typed -> chain_inv c -> len (links c) < 2 ^ 63 -> appendLocked c e = (c', r) -> append_outcome c e c' r.
Proof.
  intros Hj Hi Hn. unfold appendLocked. destruct (equivoke c) as [pr|] eqn:He; [intros [= <- <-]; constructor; intros ? [= ->]; done|].
  destruct (site_Decode e) as [d|] eqn:Ed; [|intros [= <- <-]; by constructor]. case_bool_decide as Hs; [|intros [= <- <-]; by constructor]. cbn [negb].
  destruct (Digest d) as [digest|] eqn:Eg; [|intros [= <- <-]; by constructor]. destruct (chain_tip c Hi) as (tip & Etip & Eseq & _). rewrite Etip.
  destruct (Z.leb_spec (Sequence d) (Sequence (VDescriptor tip))) as [Hle|Hlt].
  - apply (append_taken_outcome c e d digest tip); try done. split; [by apply (site_Decode_typed e)|done].
  - destruct (negb _); [intros [= <- <-]; by constructor|].
    destruct (VerifyDescriptor d (Some tip)) as [v|] eqn:Ev; [|intros [= <- <-]; by constructor]. intros [= <- <-].
    pose proof (accepted_descriptor _ _ _ (proj1 (VerifyDescriptor_ok _ _ _) Ev)) as Edv.
    apply (outcome_next c e tip); try done; [|by rewrite Edv]. unfold site_Verify. by rewrite Ed.
Qed.

(** The evidence a chain records convinces anyone who checks it. *)
Lemma fork_evidence c e i stored v first : chain_inv c -> len (links c) < 2 ^ 63 -> links c !! i = Some stored -> encodings c !! i = Some first ->
  site_Verify e (before None (links c) i) = Ok v -> DSiteID (VDescriptor v) = hex_encode (siteID c) -> VDigest v <> VDigest stored ->
  Sequence (VDescriptor v) = Z.of_nat i ->
  VerifyEquivocationProof (mkEquivocation (siteID c) (Z.of_nat i) (take i (encodings c)) first e) = Ok tt.
Proof.
  intros Hi Hn Hl Hf Hv Hs Hne Hq. pose proof (lookup_lt_Some _ _ _ Hl) as Hlt. pose proof (linked_length _ _ _ (ci_linked _ Hi)) as Hlen.
  unfold VerifyEquivocationProof. cbn [Prefix EqSequence EqSiteID EqFirst EqSecond]. rewrite length_take, i64_small by lia.
  replace (Z.of_nat (i `min` length (encodings c))) with (Z.of_nat i) by lia. rewrite Z.eqb_refl. cbn [negb].
  rewrite (verify_prefix_complete _ 0 None (take i (links c)) (siteID c)); [|by apply linked_take, Hi| |done].
  2:{ intros x Hx. apply Hi. eapply elem_of_submseteq; [exact Hx|]. apply sublist_submseteq, sublist_take. }
  cbn [mbind result_bind]. rewrite length_take. replace (i `min` length (links c))%nat with i by lia.
  assert (before None (take i (links c)) i = before None (links c) i) as ->.
  { destruct i as [|i]; [done|]. cbn [before]. apply lookup_take_lt. lia. }
  destruct (linked_lookup _ _ _ _ _ (ci_linked _ Hi) Hl) as (first' & Hf' & Ev). assert (first' = first) as -> by congruence. rewrite Ev, Hv.
  rewrite (ci_sequence _ Hi _ _ Hl), Hq, Z.eqb_refl. cbn [negb orb].
  rewrite (bool_decide_true (VSiteID stored = siteID c)) by (apply Hi; by eapply list_elem_of_lookup_2).
  rewrite (bool_decide_true (VSiteID v = siteID c)); cycle 1.
  { apply site_Verify_ok in Hv as [_ Ha]. destruct (acc_site _ _ _ Ha) as [E _]. rewrite Hs in E. symmetry. by apply hex_encode_inj. }
  cbn [negb orb]. by rewrite bool_decide_false.
Qed.

Lemma append_outcome_inv c e c' r : chain_inv c -> len (links c) < 2 ^ 63 -> append_outcome c e c' r ->
  chain_inv c' /\ siteID c' = siteID c /\ distribution c' = distribution c /\ links c `prefix_of` links c' /\
  (len (links c') <= len (links c) + 1) /\ (forall pr, equivoke c = Some pr -> c' = c).
Proof.
  intros Hi Hn Ho. destruct Ho as [err Herr|v i He Hv|tip v He Ht Hv Hs|i stored v first He Hl Hf Hv Hs Hne Hq].
  - split_and!; try done; lia.
  - split_and!; try done; lia.
  - split_and!; try done; cbn [with_link links].
    + destruct (chain_tip c Hi) as (tip' & Et & Eq & El). assert (tip' = tip) as -> by congruence.
      pose proof Hv as [_ Ha]%site_Verify_ok. destruct (acc_link _ _ _ Ha) as [_ Hsuc].
      assert (links c <> []) as Hne by apply Hi. assert (0 < length (links c))%nat as Hpos by (destruct (links c); [done|cbn; lia]).
      split; cbn [with_link links encodings siteID equivoke].
      * apply history_snoc; [apply Hi|]. rewrite <- last_before, Ht. done.
      * by destruct (links c).
      * intros x [Hx|Hx]%elem_of_app; [by apply Hi|]. apply list_elem_of_singleton in Hx as ->. rewrite (suc_site _ _ _ Hsuc). apply Hi. by eapply list_elem_of_lookup_2.
      * intros i x [Hx|[Hge Hx]]%lookup_app_Some; [by apply Hi|]. apply list_lookup_singleton_Some in Hx as [Hz <-].
        rewrite (suc_sequence _ _ _ Hsuc), Eq, wrapu_small; [lia|]. unfold fits. lia.
      * intros pr E. congruence.
    + by apply prefix_app_r.
    + rewrite length_app. cbn [length]. lia.
    + intros pr E. congruence.
  - split_and!; try done; cbn [with_equivoke links]; [|lia|intros pr E; congruence].
    split; cbn [with_equivoke links encodings siteID equivoke]; try apply Hi.
    intros pr [= <-]. split; [done|]. by apply (fork_evidence c e i stored v first).
Qed.

(** ** Runs of a reader *)

Inductive chain_op :=
| OpAppend (encoded : list byte)
| OpWitnessed (encoded : list byte) (proof : InclusionProof) (now : Z)
| OpRefresh (checkpoint : Checkpoint) (proof : ConsistencyProof) (now : Z).

Definition chain_step (c : Chain) (op : chain_op) : Chain :=
  match op with
  | OpAppend e => fst (site_Append c e)
  | OpWitnessed e proof now => fst (AppendWitnessed c e proof now)
  | OpRefresh checkpoint proof now => RefreshView c checkpoint proof now
  end.
Definition chain_run (c : Chain) (ops : list chain_op) : Chain := fold_left chain_step ops c.

(** A step leaves the chain alone, delivers a descriptor, or refreshes the view. *)
Lemma chain_step_cases c op : chain_step c op = c \/ (exists e, chain_step c op = fst (appendLocked c e)) \/
  (exists d, chain_step c op = mkChain (siteID c) (links c) (encodings c) (equivoke c) d).
Proof.
  destruct op as [e|e proof now|cp proof now]; cbn [chain_step].
  - unfold site_Append. destruct (distribution c); [by left|]. right. left. by exists e.
  - unfold AppendWitnessed. destruct (distribution c) as [d|]; [|by left]. destruct (requireUsable _ _); [|by left].
    destruct (DistributionWitness _ _ _ _); [|by left]. right. left. by exists e.
  - unfold RefreshView. destruct (distribution c); [|by left]. right. right. by eexists.
Qed.

Lemma chain_step_inv c op : json_typed -> chain_inv c -> len (links c) < 2 ^ 63 ->
  let c' := chain_step c op in
  chain_inv c' /\ siteID c' = siteID c /\ links c `prefix_of` links c' /\ len (links c') <= len (links c) + 1 /\
  (forall pr, equivoke c = Some pr -> links c' = links c /\ equivoke c' = Some pr).
Proof.
  intros Hj Hi Hn. cbv zeta. destruct (chain_step_cases c op) as [->|[[e ->]|[d ->]]].
  - split_and!; try done; lia.
  - destruct (appendLocked c e) as [c' r] eqn:E. apply appendLocked_outcome in E; [|done..]. apply append_outcome_inv in E; [|done..]. cbn [fst].
    destruct E as (Hi' & Es & _ & Hp & Hl & Hq). split_and!; try done. intros pr Hpr. by rewrite (Hq pr Hpr).
  - split_and!; cbn [links siteID equivoke]; try done; [|lia]. destruct Hi as [Hl Hs Ht Hq He]. by split.
Qed.

Lemma chain_run_inv c ops : json_typed -> chain_inv c -> len (links c) + len ops < 2 ^ 63 ->
  chain_inv (chain_run c ops) /\ siteID (chain_run c ops) = siteID c /\ links c `prefix_of` links (chain_run c ops) /\
  len (links (chain_run c ops)) <= len (links c) + len ops /\
  (forall pr, equivoke c = Some pr -> links (chain_run c ops) = links c /\ equivoke (chain_run c ops) = Some pr).
Proof.
  intros Hj. revert c. induction ops as [|op ops IH]; intros c Hi Hn; [split_and!; try done; cbn; lia|]. cbn [length] in *.
  destruct (chain_step_inv c op Hj Hi ltac:(lia)) as (Hi' & Es & Hp & Hl & Hq).
  destruct (IH (chain_step c op) Hi' ltac:(lia)) as (Hi2 & Es2 & Hp2 & Hl2 & Hq2). change (chain_run c (op :: ops)) with (chain_run (chain_step c op) ops).
  split_and!; [done|congruence|by etrans|lia|]. intros pr Hpr. destruct (Hq pr Hpr) as [E1 E2]. destruct (Hq2 pr E2) as [E3 E4].
  split; [|done]. congruence.
Qed.

Lemma NewWitnessedChain_ok expected genesis proof d now c : NewWitnessedChain expected genesis proof d now = Ok c ->
  exists dist c0, d = Some dist /\ requireUsable d now = Ok tt /\ DistributionWitness dist genesis proof now = Ok tt /\ site_NewChain expected genesis = Ok c0 /\
    c = mkChain (siteID c0) (links c0) (encodings c0) (equivoke c0) d.
Proof.
  unfold NewWitnessedChain. destruct d as [dist|]; [|done]. destruct (requireUsable _ _) as [[]|]; [|done]. cbn [mbind result_bind].
  destruct (DistributionWitness _ _ _ _) as [[]|] eqn:Ew; [|done]. cbn [wrap mbind result_bind].
  destruct (site_NewChain expected genesis) as [c0|] eqn:Ec; [|done]. cbn [mbind result_bind]. intros [= <-]. by exists dist, c0.
Qed.

(** How a reader starts following a site. *)
Definition started (expected genesis : list byte) (c : Chain) : Prop :=
  site_NewChain expected genesis = Ok c \/ exists proof d now, NewWitnessedChain expected genesis proof d now = Ok c.

Lemma started_inv expected genesis c : started expected genesis c ->
  chain_inv c /\ siteID c = expected /\ len (links c) = 1 /\ exists v, links c = [v] /\ DeriveID (VDescriptor v) = Ok expected.
Proof.
  intros [Hc|(proof & d & now & Hc)].
  - apply site_NewChain_ok in Hc as (Hi & Hs & _ & _ & _ & v & Hv & Hd). split_and!; [done|done|by rewrite Hv|by exists v].
  - apply NewWitnessedChain_ok in Hc as (dist & c0 & _ & _ & _ & Hc & ->). apply site_NewChain_ok in Hc as (Hi & Hs & _ & _ & _ & v & Hv & Hd).
    split_and!; cbn [siteID links]; [|done|by rewrite Hv|by exists v]. destruct Hi as [Hl Hs' Ht Hq He]. by split.
Qed.

(** C23: The history a reader holds is one chain of authority from the genesis that
    derives the site the reader asked for: every descriptor follows the one
    before it and sits at its sequence number, a key revoked anywhere in it is
    authorised nowhere after, later calls only extend it, recorded evidence of a
    fork verifies, and after that nothing is accepted any more. *)
Theorem site_history (expected genesis : list byte) (c0 : Chain) (ops more : list chain_op) (Hj : json_typed)
  (Hnew : started expected genesis c0) (Hn : len ops + len more < 2 ^ 62) :
  let c := chain_run c0 ops in let c' := chain_run c more in
  siteID c = expected /\
  (exists g, links c !! O = Some g /\ DeriveID (VDescriptor g) = Ok expected) /\
  (forall i p v, links c !! i = Some p -> links c !! S i = Some v -> follows p v) /\
  (forall i v, links c !! i = Some v -> Sequence (VDescriptor v) = Z.of_nat i) /\
  (forall i j p v key, (i <= j)%nat -> links c !! i = Some p -> links c !! j = Some v -> key ∈ revoked_of (VDescriptor p) -> AuthorizesKey v key = false) /\
  links c `prefix_of` links c' /\
  forall pr, equivoke c = Some pr -> VerifyEquivocationProof pr = Ok tt /\ links c' = links c /\ equivoke c' = Some pr.
Proof.
  cbv zeta. destruct (started_inv _ _ _ Hnew) as (Hi0 & Hs0 & Hl0 & g & Hg & Hd).
  destruct (chain_run_inv c0 ops Hj Hi0) as (Hi & Hs & [ext Hp] & Hl & _); [lia|].
  destruct (chain_run_inv (chain_run c0 ops) more Hj Hi) as (_ & _ & Hp' & _ & Hq'); [lia|].
  pose proof (ci_linked _ Hi) as Hlk. split_and!.
  - congruence.
  - exists g. split; [by rewrite Hp, Hg|done].
  - intros i p v. apply (linked_follows _ _ _ _ _ _ Hlk).
  - apply Hi.
  - intros i j p v key Hij Hpi Hvj Hk. assert (genuine p) as Hgp by (apply (linked_genuine _ _ _ _ Hlk); by eapply list_elem_of_lookup_2).
    pose proof (linked_descends _ _ _ _ _ _ _ Hlk Hij Hpi Hvj) as Hd'. pose proof (revoked_kept p v Hd' Hgp key Hk) as Hr.
    pose proof (descends_genuine p v Hd' Hgp) as Hgv. destruct (AuthorizesKey v key) eqn:Ea; [|done]. apply AuthorizesKey_spec in Ea; [|done].
    by destruct (ws_signing_apart _ (genuine_structured _ Hgv) key Ea).
  - done.
  - intros pr Hpr. split; [by apply (ci_evidence _ Hi)|by apply Hq'].
Qed.

(** A descriptor's canonical form is a function of the fields the digest covers. *)
Lemma same_fields_canonical d d' z : same_fields d d' -> DSiteID d = DSiteID d' -> canonicalBytes d z = canonicalBytes d' z.
Proof.
  destruct d, d'. unfold same_fields. cbn. intros (-> & -> & -> & -> & -> & -> & -> & -> & ->) ->. reflexivity.
Qed.

(** The evidence of a fork cannot be made up.  A proof that verifies shows a
    genuine history of the accused site and two different descriptors that both
    follow its last one; if both are rotations, one signing key authorised both.
    A fork at the genesis would be a collision of the hash. *)
Theorem accusation_needs_conflict (pr : EquivocationProof) (Hj : json_typed) (Hv : VerifyEquivocationProof pr = Ok tt)
  (Hcf : forall d d' c c', site_Decode (EqFirst pr) = Ok d -> site_Decode (EqSecond pr) = Ok d' ->
     canonicalBytes d true = Ok c -> canonicalBytes d' true = Ok c' -> collision_free [siteIDDomain ++ c; siteIDDomain ++ c']) :
  exists vs p v w, linked None (Prefix pr) vs /\ last vs = Some p /\ genuine p /\ VSiteID p = EqSiteID pr /\
    (exists g, vs !! O = Some g /\ DeriveID (VDescriptor g) = Ok (EqSiteID pr)) /\
    site_Decode (EqFirst pr) = Ok (VDescriptor v) /\ site_Decode (EqSecond pr) = Ok (VDescriptor w) /\
    follows p v /\ follows p w /\ VDigest v <> VDigest w /\
    (Transition (VDescriptor v) = TransitionRotation -> Transition (VDescriptor w) = TransitionRotation ->
     exists key, key ∈ signing_of (VDescriptor p) /\ authorized_by v signingRole key RoleSigning /\ authorized_by w signingRole key RoleSigning).
Proof.
  unfold VerifyEquivocationProof in Hv. destruct (negb _) eqn:Ep in Hv; [done|]. destruct (verify_prefix _ _ _ _) as [previous|] eqn:Ev; [|done].
  cbn [mbind result_bind] in Hv. apply verify_prefix_ok in Ev as (vs & Hl & -> & Hsite & Hder).
  destruct (site_Verify (EqFirst pr) _) as [v|] eqn:E1; [|done]. destruct (site_Verify (EqSecond pr) _) as [w|] eqn:E2; [|done].
  destruct (_ || _) eqn:Eq in Hv; [done|]. destruct (_ || _) eqn:Es in Hv; [done|]. case_bool_decide as Hne; [done|]. reflect_bools.
  apply site_Verify_ok in E1 as [D1 A1], E2 as [D2 A2]. destruct vs as [|g vs].
  { cbn [before length] in A1, A2. destruct (acc_link _ _ _ A1) as [_ [Hid1 _]]. destruct (acc_link _ _ _ A2) as [_ [Hid2 _]].
    destruct Hne. pose proof (acc_digest _ _ _ A1) as G1. pose proof (acc_digest _ _ _ A2) as G2.
    destruct (acc_site _ _ _ A1) as [S1 _]. destruct (acc_site _ _ _ A2) as [S2 _].
    assert (same_fields (VDescriptor v) (VDescriptor w)) as Hsame; [|].
    { destruct (canonicalBytes (VDescriptor v) true) as [c|] eqn:C1; cycle 1.
      { unfold DeriveID in Hid1. rewrite C1 in Hid1. run_guards Hid1. destruct (validateStructure _); done. }
      destruct (canonicalBytes (VDescriptor w) true) as [c'|] eqn:C2; cycle 1.
      { unfold DeriveID in Hid2. rewrite C2 in Hid2. run_guards Hid2. destruct (validateStructure _); done. }
      apply (site_binds (VDescriptor v) (VDescriptor w) c c' (VSiteID v)); try done.
      - by apply (site_Decode_typed' (EqFirst pr)).
      - by apply (site_Decode_typed' (EqSecond pr)).
      - by apply (Hcf (VDescriptor v) (VDescriptor w)).
      - congruence. }
    unfold Digest in G1, G2. rewrite (same_fields_canonical _ (VDescriptor w) false Hsame) in G1 by congruence. congruence. }
  destruct (last (g :: vs)) as [p|] eqn:Elast; [|by apply last_None in Elast].
  rewrite <- last_before, Elast in A1, A2. pose proof (last_Some_elem_of _ _ Elast) as Hp.
  assert (genuine p) as Hgp by by apply (linked_genuine _ _ _ _ Hl).
  assert (follows p v) as F1 by by apply VerifyDescriptor_ok. assert (follows p w) as F2 by by apply VerifyDescriptor_ok.
  exists (g :: vs), p, v, w. split_and!; try done.
  - by apply Hsite.
  - exists g. split; [done|]. by apply Hder.
  - intros T1 T2. by apply rotation_fork_needs_double_signer.
Qed.

(** ** Descriptors in the log *)

Lemma LogEntry_inj a b : addressable a -> addressable b -> LogEntry a = LogEntry b -> a = b.
Proof.
  unfold LogEntry, appendUint64. rewrite <- !app_assoc. intros Ha Hb E%app_inv_head.
  apply (appendString_inj [] a b); [done..|]. unfold appendString, appendUint64. by rewrite !app_nil_l.
Qed.

(** A step of a witnessed chain adds a descriptor only with an inclusion proof
    that the view of that moment accepts. *)
Lemma witnessed_step c d op : distribution c = Some d ->
  (exists d', distribution (chain_step c op) = Some d') /\
  forall e, e ∈ encodings (chain_step c op) -> e ∈ encodings c \/
    exists proof now, op = OpWitnessed e proof now /\ MonitorAccept (monitor d) (LogEntry e) proof now = Ok tt.
Proof.
  intros Hd. destruct op as [e|e proof now|cp proof now]; cbn [chain_step].
  - unfold site_Append. rewrite Hd. cbn [fst]. split; [by exists d|]. by left.
  - unfold AppendWitnessed. rewrite Hd. destruct (requireUsable _ _); [|cbn [fst]; split; [by exists d|by left]].
    destruct (DistributionWitness d e proof now) as [[]|] eqn:Ew; [|cbn [fst]; split; [by exists d|by left]].
    assert (distribution (fst (appendLocked c e)) = distribution c /\
      (encodings (fst (appendLocked c e)) = encodings c \/ encodings (fst (appendLocked c e)) = encodings c ++ [e])) as [E1 E2].
    { unfold appendLocked, append_taken. repeat case_goal; cbn; auto. }
    rewrite E1. split; [by exists d|]. intros x Hx. destruct E2 as [E2|E2]; rewrite E2 in Hx; [by left|].
    apply elem_of_app in Hx as [Hx|Hx]; [by left|]. apply list_elem_of_singleton in Hx as ->. right. by exists proof, now.
  - unfold RefreshView. rewrite Hd. cbn [distribution encodings]. split; [by eexists|]. by left.
Qed.

(** The descriptors that were presented, with their proofs. *)
Definition presented (genesis : list byte) (proof : InclusionProof) (ops : list chain_op) : list (list byte * InclusionProof) :=
  (genesis, proof) :: omap (fun op => match op with OpWitnessed e p _ => Some (e, p) | _ => None end) ops.

Lemma MonitorAccept_held m entry proof now : MonitorAccept m entry proof now = Ok tt ->
  exists held, latest m = Some held /\ Size proof = SSize held /\ VerifyInclusion proof entry (SRoot held) = Ok tt.
Proof.
  unfold MonitorAccept. destruct (split_view m); [done|]. destruct (latest m) as [held|]; [|done].
  destruct (negb (Fresh m now)); [done|]. destruct (negb _) eqn:Es; [done|]. reflect_bools.
  destruct (VerifyInclusion proof entry (SRoot held)) as [[]|] eqn:E; [|done]. by exists held.
Qed.

(** A witnessed chain holds only descriptors that are in the public log, from the
    genesis on: if every head the reader ever held is the head of a prefix of
    [log], each descriptor of the chain is an entry of [log], where the owner of
    the site can see it. *)
Theorem witnessed_links_logged (expected genesis : list byte) (proof : InclusionProof) (d : option Distribution) (now : Z) (c0 : Chain)
  (ops : list chain_op) (log : list (list byte)) (Hnew : NewWitnessedChain expected genesis proof d now = Ok c0) (Hs : sized log)
  (Hlog : forall n dist held, distribution (chain_run c0 (take n ops)) = Some dist -> latest (monitor dist) = Some held ->
     exists k, (k <= length log)%nat /\ SRoot held = rootOf (map HashLeaf (take k log)) /\ SSize held = Z.of_nat k)
  (Htyped : forall e p, (e, p) ∈ presented genesis proof ops -> fits 64 (Index p) /\ Forall is_digest (Path p))
  (Hcf : forall e p k, (e, p) ∈ presented genesis proof ops -> collision_free (tree_messages (take k log) ++ inclusion_messages p (LogEntry e))) :
  Witnessed (chain_run c0 ops) = true /\ forall e, e ∈ encodings (chain_run c0 ops) -> LogEntry e ∈ log.
Proof.
  assert (forall n dist e p t, distribution (chain_run c0 (take n ops)) = Some dist -> (e, p) ∈ presented genesis proof ops ->
    MonitorAccept (monitor dist) (LogEntry e) p t = Ok tt -> LogEntry e ∈ log) as Hin.
  { intros n dist e p t Hd Hp (held & Hh & Hz & Hv)%MonitorAccept_held. destruct (Hlog n dist held Hd Hh) as (k & Hk & Hr & Hsz).
    destruct (Htyped e p Hp) as [Hi Hpath]. rewrite Hr in Hv.
    assert (take k log !! Z.to_nat (Index p) = Some (LogEntry e)) as Hl.
    { apply VerifyInclusion_sound; try done; [|rewrite Hz, Hsz, length_take; lia|by apply Hcf]. unfold sized in *. rewrite length_take. lia. }
    apply list_elem_of_lookup_2 in Hl. eapply elem_of_submseteq; [exact Hl|]. apply sublist_submseteq, sublist_take. }
  apply NewWitnessedChain_ok in Hnew as (dist0 & cc & -> & _ & Hw0 & Hcc & E0). apply site_NewChain_ok in Hcc as (_ & _ & _ & _ & Hcc & _).
  assert (forall n, (exists dist, distribution (chain_run c0 (take n ops)) = Some dist) /\ forall e, e ∈ encodings (chain_run c0 (take n ops)) -> LogEntry e ∈ log) as Hall.
  { induction n as [|n [[dist Hd] IH]].
    - rewrite take_0. cbn [chain_run fold_left]. rewrite E0. cbn [distribution encodings]. split; [by exists dist0|].
      intros e He. rewrite Hcc in He. apply list_elem_of_singleton in He as ->.
      apply (Hin O dist0 genesis proof now); [rewrite take_0; cbn; by rewrite E0|by left|exact Hw0].
    - destruct (ops !! n) as [op|] eqn:Eo; cycle 1.
      { apply lookup_ge_None in Eo. rewrite take_ge in Hd, IH by lia. rewrite take_ge by lia. split; [by exists dist|done]. }
      rewrite (take_S_r _ _ _ Eo). unfold chain_run in *. rewrite fold_left_app. cbn [fold_left].
      destruct (witnessed_step _ dist op Hd) as [Hd' He']. split; [done|]. intros e He. destruct (He' e He) as [|(p & t & -> & Ha)]; [by apply IH|].
      apply (Hin n dist e p t); [done| |done]. right. apply list_elem_of_omap. exists (OpWitnessed e p t). split; [by eapply list_elem_of_lookup_2|done]. }
  destruct (Hall (length ops)) as [[dist Hd] He]. rewrite take_ge in Hd, He by lia. split; [|done]. unfold Witnessed. by rewrite Hd.
Qed.
End histories.

(** ** Examples *)

Section example.
#[local] Existing Instance example_hash.
#[local] Existing Instance example_signatures.
#[local] Existing Instance example_calendar.
#[local] Existing Instance example_json.

(** Three documents: the genesis of the example site and two rotations of it. *)
Definition rotation_two : Descriptor := rotation_from genesis_link key_one key_two [].
Definition rotation_three : Descriptor := rotation_from genesis_link key_one key_three [].
#[local] Instance example_site_json : SiteJSON := fun e =>
  if bool_decide (e = [x67]) then Some genesis_descriptor
  else if bool_decide (e = [x72]) then Some rotation_two
  else if bool_decide (e = [x73]) then Some rotation_three else None.

Definition typedb (d : Descriptor) : bool :=
  (0 <=? Sequence d) && (Sequence d <? 2 ^ 64) && (0 <=? RecThreshold (DRecovery d)) && (RecThreshold (DRecovery d) <? 2 ^ 32).

Lemma typedb_ok d : typedb d = true -> descriptor_typed d.
Proof. unfold typedb, descriptor_typed, fits. intros E. reflect_bools. done. Qed.

Lemma example_json_typed : json_typed.
Proof.
  intros e d. unfold descriptor_json, example_site_json. repeat case_bool_decide; intros E; try discriminate E;
    apply (inj Some) in E; subst d; apply typedb_ok; vm_compute; reflexivity.
Qed.

Definition chain_or (r : result chain_error Chain) : Chain := match r with Ok c => c | Err _ => mkChain [] [] [] None None end.
Definition example_chain : Chain := chain_or (site_NewChain example_site [x67]).

Lemma example_chain_started : site_NewChain example_site [x67] = Ok example_chain.
Proof.
  unfold example_chain. destruct (site_NewChain example_site [x67]) eqn:E; [reflexivity|].
  assert (is_ok (site_NewChain example_site [x67]) = true) as Hok by (vm_compute; reflexivity). rewrite E in Hok. discriminate Hok.
Qed.

Definition forked_chain : Chain := chain_run example_chain [OpAppend [x72]; OpAppend [x73]].

Lemma site_history_witness : exists pr, equivoke forked_chain = Some pr /\ VerifyEquivocationProof pr = Ok tt.
Proof.
  pose proof (site_history example_site [x67] example_chain [OpAppend [x72]; OpAppend [x73]] [] example_json_typed (or_introl example_chain_started) eq_refl) as Hh.
  cbv zeta in Hh. destruct Hh as (_ & _ & _ & _ & _ & _ & Hf). fold forked_chain in Hf.
  destruct (equivoke forked_chain) as [pr|] eqn:E.
  - exists pr. split; [reflexivity|]. exact (proj1 (Hf pr eq_refl)).
  - assert (match equivoke forked_chain with Some _ => true | None => false end = true) as Hs by (vm_compute; reflexivity). rewrite E in Hs. discriminate Hs.
Defined.

Definition example_evidence : EquivocationProof := mkEquivocation example_site 1 [[x67]] [x72] [x73].

Lemma accusation_needs_conflict_witness : VerifyEquivocationProof example_evidence = Ok tt /\
  exists p v w, follows p v /\ follows p w /\ VDigest v <> VDigest w.
Proof.
  assert (VerifyEquivocationProof example_evidence = Ok tt) as Hv by (vm_compute; reflexivity). split; [exact Hv|].
  destruct (accusation_needs_conflict example_evidence example_json_typed Hv) as (vs & p & v & w & _ & _ & _ & _ & _ & _ & _ & F1 & F2 & Hne & _).
  - intros d d' c c' E E' Ec Ec'.
    assert (site_Decode (EqFirst example_evidence) = Ok rotation_two) as D1 by (vm_compute; reflexivity).
    assert (site_Decode (EqSecond example_evidence) = Ok rotation_three) as D2 by (vm_compute; reflexivity).
    rewrite D1 in E. rewrite D2 in E'. apply (inj Ok) in E, E'. subst d d'. apply collision_freeb_ok.
    assert (match canonicalBytes rotation_two true, canonicalBytes rotation_three true with
            | Ok a, Ok b => collision_freeb [siteIDDomain ++ a; siteIDDomain ++ b] | _, _ => true end = true) as Hb by (vm_compute; reflexivity).
    rewrite Ec, Ec' in Hb. exact Hb.
  - exists p, v, w. split_and!; assumption.
Defined.

(** The same site, followed through a log with the genesis and one rotation. *)
Definition site_log : list (list byte) := [LogEntry [x67]; LogEntry [x72]].
Definition site_view : Distribution := mkDistribution (reader_of site_log).
Definition entry_proof (i : Z) : InclusionProof := mkInclusionProof i 2 (inclusionPath (map HashLeaf site_log) i).
Definition witnessed_chain : Chain := chain_or (NewWitnessedChain example_site [x67] (entry_proof 0) (Some site_view) second).
Definition witnessed_ops : list chain_op := [OpWitnessed [x72] (entry_proof 1) second].

Lemma witnessed_chain_started : NewWitnessedChain example_site [x67] (entry_proof 0) (Some site_view) second = Ok witnessed_chain.
Proof.
  unfold witnessed_chain. destruct (NewWitnessedChain example_site [x67] (entry_proof 0) (Some site_view) second) eqn:E; [reflexivity|].
  assert (is_ok (NewWitnessedChain example_site [x67] (entry_proof 0) (Some site_view) second) = true) as Hok by (vm_compute; reflexivity).
  rewrite E in Hok. discriminate Hok.
Qed.

Lemma example_presented e p : (e, p) ∈ presented [x67] (entry_proof 0) witnessed_ops -> (e, p) = ([x67], entry_proof 0) \/ (e, p) = ([x72], entry_proof 1).
Proof. unfold presented. cbn [witnessed_ops omap list_omap]. rewrite !elem_of_cons, elem_of_nil. tauto. Qed.

Lemma witnessed_view n : exists m, distribution (chain_run witnessed_chain (take n witnessed_ops)) = Some (mkDistribution m) /\ latest m = Some (held_of site_log).
Proof.
  destruct n as [|n].
  - exists (reader_of site_log). split; [vm_compute; reflexivity|reflexivity].
  - exists (reader_of site_log). change (take (S n) witnessed_ops) with (OpWitnessed [x72] (entry_proof 1) second :: take n []). rewrite take_nil.
    split; [vm_compute; reflexivity|reflexivity].
Qed.

Lemma witnessed_links_logged_witness : Witnessed (chain_run witnessed_chain witnessed_ops) = true /\
  len (encodings (chain_run witnessed_chain witnessed_ops)) = 2 /\
  forall e, e ∈ encodings (chain_run witnessed_chain witnessed_ops) -> LogEntry e ∈ site_log.
Proof.
  destruct (witnessed_links_logged example_site [x67] (entry_proof 0) (Some site_view) second witnessed_chain witnessed_ops site_log witnessed_chain_started) as [Hw He].
  - reflexivity.
  - intros n dist held Hd Hh. destruct (witnessed_view n) as (m & Em & El). rewrite Em in Hd. injection Hd as <-. cbn [monitor] in Hh. rewrite El in Hh. injection Hh as <-.
    exists 2%nat. split; [cbn; lia|]. split; reflexivity.
  - intros e p [[= -> ->]|[= -> ->]]%example_presented.
    + split; [split; [discriminate|reflexivity]|apply all_digests; vm_compute; reflexivity].
    + split; [split; [discriminate|reflexivity]|apply all_digests; vm_compute; reflexivity].
  - intros e p k Hp. assert (forall n, (n <= 2)%nat -> take k site_log = take n site_log -> collision_free (tree_messages (take k site_log) ++ inclusion_messages p (LogEntry e))) as Hn.
    { intros n Hn ->. apply example_presented in Hp as [[= -> ->]|[= -> ->]]; destruct n as [|[|[|n]]]; try lia; apply collision_freeb_ok; vm_compute; reflexivity. }
    destruct k as [|[|k]]; [apply (Hn 0%nat); [lia|reflexivity]|apply (Hn 1%nat); [lia|reflexivity]|].
    apply (Hn 2%nat); [lia|]. rewrite !take_ge by (cbn; lia). reflexivity.
  - split; [exact Hw|]. split; [vm_compute; reflexivity|exact He].
Defined.
End example.
