(* ===== verification/SitePublication.v ===== *)
(** Publications of a site and the verdict a reader shows for them
    ([sdk/nomad-local-reconstruction/site/publication.go]).  The object and its
    manifest are those of [Reconstruct.v], the chain that of [SiteChain.v]. *)

From stdpp Require Import base list list_numbers gmap sets strings.
From Stdlib Require Import ZArith Lia Strings.Byte.
From S2P Require Import Prelude Bytes Hash Codec Merkle Checkpoint WitnessPolicy Monitor Reconstruct SiteDescriptor SiteChain.

Definition PublicationVersion : list byte := String.list_byte_of_string "nomad-site-publication-v1".
Definition publicationDomain : list byte := String.list_byte_of_string "nomad-site-publication-v1".

Record Publication := mkPublication {
  PVersion : list byte;
  PSiteID : list byte;
  DescriptorDigest : list byte;
  SigningKey : list byte;
  ObjectRoot : list byte;
  PManifestDigest : list byte;
  PublishedAt : list byte;
  PSignature : list byte;
}.

Inductive State := ObjectVerified | PublisherVerified | PublisherUnknown | PublisherInvalid | ObjectInvalid.

Inductive publication_error :=
| ErrPublicationVersion
| ErrPublicationSite
| ErrPublicationDescriptor
| ErrPublicationKey
| ErrPublicationRoot
| ErrPublicationManifest
| ErrPublicationTime (e : site_error)
| ErrPublishingKey
| ErrKeyNotActive
| ErrManifest (e : object_error)
| ErrObjectVerification (e : object_error)
| ErrMalformed (e : publication_error)
| ErrNoChain
| ErrChain (e : chain_error)
| ErrChainSite
| ErrClaimsOtherSite
| ErrOtherObject
| ErrOtherManifest
| ErrPublicationSignatureEncoding
| ErrPublicationSignature
| ErrUnknownDescriptor
| ErrPublicationTimestamp
| ErrOutsideWindow
| ErrKeyUnauthorized
| ErrKeyRevoked.

Section publication.
Context `{HashFunction} `{SignatureScheme} `{Calendar} `{CheckpointJSON} `{SiteJSON}.

Definition field {A} (e : publication_error) (o : option A) : result publication_error A := match o with Some a => Ok a | None => Err e end.

Definition publicationCanonicalBytes (p : Publication) : result publication_error (list byte) :=
  if negb (bool_decide (PVersion p = PublicationVersion)) then Err ErrPublicationVersion
  else
    siteID ← field ErrPublicationSite (site_decodeHex (PSiteID p) 32);
    descriptorDigest ← field ErrPublicationDescriptor (site_decodeHex (DescriptorDigest p) 32);
    signingKey ← field ErrPublicationKey (site_decodeBase64 (SigningKey p) 32);
    objectRoot ← field ErrPublicationRoot (site_decodeHex (ObjectRoot p) 32);
    manifestDigest ← field ErrPublicationManifest (site_decodeHex (PManifestDigest p) 32);
    _ ← wrap ErrPublicationTime (site_validateCanonicalTime (PublishedAt p));
    let canonical := appendString [] (PVersion p) in
    let canonical := canonical ++ siteID in
    let canonical := canonical ++ descriptorDigest in
    let canonical := site_appendBytes canonical signingKey in
    let canonical := canonical ++ objectRoot in
    let canonical := canonical ++ manifestDigest in
    Ok (appendString canonical (PublishedAt p)).

Definition publicationSigningMessage (p : Publication) : result publication_error (list byte) :=
  canonical ← publicationCanonicalBytes p; Ok (publicationDomain ++ canonical).

Definition ManifestDigest (m : Manifest) : result object_error (list byte) :=
  encoded ← MarshalBinary m; Ok (sha256 encoded).

Definition NewPublication (siteID : list byte) (descriptor : Verified) (m : Manifest) (publishedAt : Z) (private : list byte)
  : result publication_error Publication :=
  if negb (Nat.eqb (length private) 64) then Err ErrPublishingKey
  else if negb (AuthorizesKey descriptor (public private)) then Err ErrKeyNotActive
  else
    manifestDigest ← wrap ErrManifest (ManifestDigest m);
    let p := mkPublication PublicationVersion (hex_encode siteID) (hex_encode (VDigest descriptor)) (b64_encode (public private))
               (hex_encode (MRoot m)) (hex_encode manifestDigest) (format_time (truncate_second publishedAt)) [] in
    message ← publicationSigningMessage p;
    Ok (mkPublication (PVersion p) (PSiteID p) (DescriptorDigest p) (SigningKey p) (ObjectRoot p) (PManifestDigest p) (PublishedAt p)
          (b64_encode (sign private message))).

Definition headRevoked (head : Verified) (key : list byte) : bool :=
  match decodeBoundedKeyList (RevokedKeys (VDescriptor head)) maxRevokedKeys with
  | Err _ => true
  | Ok revoked => containsKey revoked key
  end.

(** The checks a chain can settle, in their order; [None] when all passed. *)
Definition contradiction (intended : list byte) (c : Chain) (p : Publication) (m : Manifest) : option publication_error :=
  match equivoke c with
  | Some proof => Some (ErrChain (ErrEquivocation proof))
  | None =>
    if negb (bool_decide (siteID c = intended)) then Some ErrChainSite
    else if negb (bool_decide (PSiteID p = hex_encode intended)) then Some ErrClaimsOtherSite
    else match site_decodeHex (ObjectRoot p) 32 with
    | None => Some ErrPublicationRoot
    | Some claimedRoot =>
      if negb (bool_decide (claimedRoot = MRoot m)) then Some ErrOtherObject
      else match ManifestDigest m with
      | Err e => Some (ErrManifest e)
      | Ok manifestDigest =>
        match site_decodeHex (PManifestDigest p) 32 with
        | None => Some ErrPublicationManifest
        | Some claimedManifest =>
          if negb (bool_decide (claimedManifest = manifestDigest)) then Some ErrOtherManifest
          else match site_decodeBase64 (SigningKey p) 32 with
          | None => Some ErrPublicationKey
          | Some signingKey =>
            match publicationSigningMessage p with
            | Err e => Some e
            | Ok message =>
              match site_decodeBase64 (PSignature p) 64 with
              | None => Some ErrPublicationSignatureEncoding
              | Some signature =>
                if negb (verify signingKey message signature) then Some ErrPublicationSignature
                else match site_decodeHex (DescriptorDigest p) 32 with
                | None => Some ErrPublicationDescriptor
                | Some descriptorDigest =>
                  match DescriptorByDigest c descriptorDigest with
                  | None => Some ErrUnknownDescriptor
                  | Some descriptor =>
                    match ChainHead c with
                    | Err e => Some (ErrChain e)
                    | Ok head =>
                      match parse_time (PublishedAt p) with
                      | None => Some ErrPublicationTimestamp
                      | Some publishedAt =>
                        if negb (site_ActiveAt descriptor publishedAt) then Some ErrOutsideWindow
                        else if negb (AuthorizesKey descriptor signingKey) then Some ErrKeyUnauthorized
                        else if headRevoked head signingKey then Some ErrKeyRevoked
                        else None
                      end
                    end
                  end
                end
              end
            end
          end
        end
      end
    end
  end.

Definition Resolve (intended : list byte) (chain : option Chain) (publication : option Publication) (m : Manifest) (data : list byte) (now : Z)
  : State * option publication_error :=
  match VerifyObject m data with
  | Err e => (ObjectInvalid, Some (ErrObjectVerification e))
  | Ok _ =>
    match publication with
    | None => (ObjectVerified, None)
    | Some p =>
      match publicationCanonicalBytes p with
      | Err e => (PublisherInvalid, Some (ErrMalformed e))
      | Ok _ =>
        match chain with
        | None => (PublisherUnknown, Some ErrNoChain)
        | Some c =>
          match contradiction intended c p m with
          | Some e => (PublisherInvalid, Some e)
          | None =>
            match requireUsable (distribution c) now with
            | Err (ErrLogSplit proof) => (PublisherInvalid, Some (ErrChain (ErrLogSplit proof)))
            | Err e => (PublisherUnknown, Some (ErrChain e))
            | Ok _ => (PublisherVerified, None)
            end
          end
        end
      end
    end
  end.
End publication.

(** ** What a verdict rests on *)

Section verdicts.
Context `{HashFunction} `{SignatureScheme} `{Calendar} `{CheckpointJSON} `{SiteJSON}.

(** A claim the chain supports: the publication names the intended site, this
    object and this manifest, and is signed by a key that the descriptor it
    names authorised when it was made and that the head has not revoked. *)
Record claim_supported (intended : list byte) (c : Chain) (p : Publication) (m : Manifest) (key : list byte) (v head : Verified) : Prop := {
  cl_fork : equivoke c = None;
  cl_chain : siteID c = intended;
  cl_site : PSiteID p = hex_encode intended;
  cl_root : ObjectRoot p = hex_encode (MRoot m) /\ length (MRoot m) = 32%nat;
  cl_manifest : exists digest, ManifestDigest m = Ok digest /\ PManifestDigest p = hex_encode digest /\ length digest = 32%nat;
  cl_key : SigningKey p = b64_encode key /\ length key = 32%nat;
  cl_signed : exists message signature, publicationSigningMessage p = Ok message /\ PSignature p = b64_encode signature /\
    length signature = 64%nat /\ verify key message signature = true;
  cl_descriptor : DescriptorDigest p = hex_encode (VDigest v) /\ length (VDigest v) = 32%nat /\ DescriptorByDigest c (VDigest v) = Some v;
  cl_head : ChainHead c = Ok head;
  cl_window : exists t, parse_time (PublishedAt p) = Some t /\ site_ActiveAt v t = true;
  cl_authorized : AuthorizesKey v key = true;
  cl_unrevoked : headRevoked head key = false;
}.

Lemma site_decodeHex_some text size raw : site_decodeHex text size = Some raw <-> text = hex_encode raw /\ length raw = size.
Proof.
  unfold site_decodeHex. split.
  - intros [? ?]%canonical_hex_unique. done.
  - intros [-> Hl]. by apply canonical_hex_encode.
Qed.

Lemma site_decodeBase64_some text size raw : site_decodeBase64 text size = Some raw <-> text = b64_encode raw /\ length raw = size.
Proof.
  unfold site_decodeBase64. split.
  - intros [? ?]%canonical_base64_unique. done.
  - intros [-> Hl]. by apply canonical_base64_encode.
Qed.

Lemma DescriptorByDigest_some c digest v : DescriptorByDigest c digest = Some v -> v ∈ links c /\ VDigest v = digest /\ equivoke c = None.
Proof.
  unfold DescriptorByDigest. destruct (equivoke c); [done|]. destruct (list_find _ (links c)) as [[i x]|] eqn:E; [|done]. cbn. intros [= ->].
  apply list_find_Some in E as (Hx & Hd & _). split_and!; try done. by eapply list_elem_of_lookup_2.
Qed.

Lemma contradiction_none intended c p m : contradiction intended c p m = None <-> exists key v head, claim_supported intended c p m key v head.
Proof.
  split.
  - unfold contradiction. intros E. destruct (equivoke c) eqn:Ee; [done|]. case_bool_decide as Hs; [|done]. case_bool_decide as Hp; [|done]. cbn [negb] in E.
    destruct (site_decodeHex (ObjectRoot p) 32) as [root|] eqn:Er; [|done]. case_bool_decide as Hr; [|done]. cbn [negb] in E. subst root.
    destruct (ManifestDigest m) as [md|] eqn:Em; [|done]. destruct (site_decodeHex (PManifestDigest p) 32) as [cm|] eqn:Ec; [|done].
    case_bool_decide as Hm; [|done]. cbn [negb] in E. subst cm. destruct (site_decodeBase64 (SigningKey p) 32) as [key|] eqn:Ek; [|done].
    destruct (publicationSigningMessage p) as [message|] eqn:Eg; [|done]. destruct (site_decodeBase64 (PSignature p) 64) as [sg|] eqn:Esg; [|done].
    destruct (negb (verify key message sg)) eqn:Ev; [done|]. destruct (site_decodeHex (DescriptorDigest p) 32) as [dd|] eqn:Ed; [|done].
    destruct (DescriptorByDigest c dd) as [v|] eqn:Edd; [|done]. destruct (ChainHead c) as [head|] eqn:Eh; [|done].
    destruct (parse_time (PublishedAt p)) as [t|] eqn:Et; [|done]. destruct (negb (site_ActiveAt v t)) eqn:Ea; [done|].
    destruct (negb (AuthorizesKey v key)) eqn:Eu; [done|]. destruct (headRevoked head key) eqn:Eh'; [done|]. reflect_bools.
    apply site_decodeHex_some in Er, Ec, Ed. apply site_decodeBase64_some in Ek, Esg. destruct (DescriptorByDigest_some _ _ _ Edd) as (_ & Hvd & _). subst dd.
    exists key, v, head. split; try done.
    + by exists md.
    + exists message, sg. split_and!; try done; apply Esg.
    + split; [apply Ed|]. split; [apply Ed|done].
    + by exists t.
  - intros (key & v & head & [Hf Hc Hs Hr (md & Hmd & Hm & Hml) Hk (message & sg & Hmsg & Hsg & Hsl & Hver) (Hd & Hdl & Hv) Hh (t & Ht & Ha) Hu Hrev]).
    unfold contradiction. rewrite Hf, Hc, Hs, !bool_decide_true by done. cbn [negb]. rewrite (proj2 (site_decodeHex_some _ 32 (MRoot m))) by done.
    rewrite bool_decide_true, Hmd by done. cbn [negb]. rewrite (proj2 (site_decodeHex_some _ 32 md)), bool_decide_true by done. cbn [negb].
    rewrite (proj2 (site_decodeBase64_some _ 32 key)), Hmsg by done. rewrite (proj2 (site_decodeBase64_some _ 64 sg)), Hver by done. cbn [negb].
    rewrite (proj2 (site_decodeHex_some _ 32 (VDigest v))), Hv, Hh, Ht, Ha, Hu, Hrev by done. done.
Qed.

Lemma Resolve_verified intended chain publication m data now e : Resolve intended chain publication m data now = (PublisherVerified, e) ->
  exists c p, chain = Some c /\ publication = Some p /\ VerifyObject m data = Ok tt /\ requireUsable (distribution c) now = Ok tt /\
    exists key v head, claim_supported intended c p m key v head.
Proof.
  unfold Resolve. intros E. destruct (VerifyObject m data) as [[]|]; [|done]. destruct publication as [p|]; [|done].
  destruct (publicationCanonicalBytes p); [|done]. destruct chain as [c|]; [|done]. destruct (contradiction intended c p m) eqn:Ec; [done|].
  destruct (requireUsable (distribution c) now) as [[]|[]] eqn:Eu; try done. exists c, p. split_and!; try done. by apply contradiction_none.
Qed.

Lemma chain_head_link c head : ChainHead c = Ok head -> head ∈ links c /\ last (links c) = Some head.
Proof. unfold ChainHead. destruct (equivoke c); [done|]. destruct (last (links c)) as [v|] eqn:E; [|done]. intros [= <-]. split; [by apply last_Some_elem_of|done]. Qed.

Lemma headRevoked_spec head key : genuine head -> headRevoked head key = false <-> key ∉ revoked_of (VDescriptor head).
Proof. intros Hg%genuine_structured. unfold headRevoked. rewrite (ws_revoked _ Hg). apply containsKey_false. Qed.

Lemma link_below_head c v head : chain_inv c -> v ∈ links c -> last (links c) = Some head -> rtc follows v head.
Proof.
  intros Hi (i & Hv)%list_elem_of_lookup_1 Hl. rewrite last_lookup in Hl. pose proof (lookup_lt_Some _ _ _ Hv).
  apply (linked_descends _ _ _ i (Nat.pred (length (links c))) _ _ (ci_linked _ Hi)); [lia|done|done].
Qed.

(** ** Theorems *)

Lemma run_chain_inv expected genesis c0 ops : json_typed -> started expected genesis c0 -> len ops < 2 ^ 62 ->
  chain_inv (chain_run c0 ops) /\ siteID (chain_run c0 ops) = expected /\
  exists g, links (chain_run c0 ops) !! O = Some g /\ DeriveID (VDescriptor g) = Ok expected.
Proof.
  intros Hj Hs Hn. destruct (started_inv _ _ _ Hs) as (Hi & He & Hl & g & Hg & Hd). destruct (chain_run_inv c0 ops Hj Hi) as (Hi' & He' & [ext Hp] & _); [lia|].
  split_and!; [done|congruence|]. exists g. split; [by rewrite Hp, Hg|done].
Qed.

(** C10: The verdict PUBLISHER_VERIFIED is earned.  After any run of a reader it is
    given only for bytes with the manifest's hash, under a signature over that
    hash by a key which a descriptor of the intended site authorised at the time
    of publication, where the site's chain starts at the genesis the site
    identifier commits to, no descriptor of the chain revokes the key, no fork of
    the chain or of its log is known, and the view of the log is fresh. *)
Theorem publisher_verified_sound (expected intended genesis : list byte) (c0 : Chain) (ops : list chain_op) (p : option Publication)
  (m : Manifest) (data : list byte) (now : Z) (e : option publication_error) (Hj : json_typed) (Hs : started expected genesis c0)
  (Hn : len ops < 2 ^ 62) (Hr : Resolve intended (Some (chain_run c0 ops)) p m data now = (PublisherVerified, e)) :
  let c := chain_run c0 ops in
  intended = expected /\ sha256 data = MRoot m /\ equivoke c = None /\
  (exists d held, distribution c = Some d /\ split_view (monitor d) = None /\ latest (monitor d) = Some held /\ now <= STime held + freshness (monitor d)) /\
  exists g v key pub message signature t, links c !! O = Some g /\ DeriveID (VDescriptor g) = Ok intended /\ v ∈ links c /\ rtc follows g v /\
    p = Some pub /\ ObjectRoot pub = hex_encode (sha256 data) /\ PSiteID pub = hex_encode intended /\ DescriptorDigest pub = hex_encode (VDigest v) /\
    publicationSigningMessage pub = Ok message /\ verify key message signature = true /\
    parse_time (PublishedAt pub) = Some t /\ VValidFrom v <= t < VValidUntil v /\
    key ∈ signing_of (VDescriptor v) /\ forall w, w ∈ links c -> key ∉ revoked_of (VDescriptor w).
Proof.
  cbv zeta. destruct (run_chain_inv _ _ _ _ Hj Hs Hn) as (Hi & He & g & Hg & Hder). set (c := chain_run c0 ops) in *.
  apply Resolve_verified in Hr as (c' & pub & [= <-] & -> & Hobj & Hu & key & v & head & Hcl).
  destruct Hcl as [Hf Hc Hps [Hro _] _ _ (message & sg & Hmsg & _ & _ & Hver) (Hd & _ & Hv) Hh (t & Ht & Ha) Hau Hrev].
  apply DescriptorByDigest_some in Hv as (Hv & _ & _). apply chain_head_link in Hh as [Hhl Hlast].
  apply VerifyObject_ok in Hobj as (_ & _ & (_ & _ & Hroot & _)%VerifierVerify_ok). cbn [ManifestVerifier VfRoot] in Hroot.
  assert (forall w, w ∈ links c -> genuine w) as Hgen by (intros; by apply (linked_genuine _ _ _ _ (ci_linked _ Hi))).
  split_and!; [congruence|done|done| |].
  - unfold requireUsable in Hu. destruct (distribution c) as [d|]; [|done]. unfold DistributionEquivocating, Equivocating in Hu.
    destruct (split_view (monitor d)) eqn:Esp; [done|]. unfold DistributionFresh, Fresh in Hu. destruct (latest (monitor d)) as [held|] eqn:El; [|done].
    destruct (_ <=? _) eqn:Ele in Hu; [|done]. reflect_bools. by exists d, held.
  - exists g, v, key, pub, message, sg, t. rewrite Hroot. unfold site_ActiveAt in Ha. reflect_bools. split_and!; try done; try congruence.
    + apply list_elem_of_lookup_1 in Hv as [i Hvi]. apply (linked_descends _ _ _ O i _ _ (ci_linked _ Hi)); [lia|done|done].
    + by apply AuthorizesKey_spec; [apply Hgen|].
    + intros w Hw Hkr. apply (headRevoked_spec head key (Hgen head Hhl)) in Hrev. apply Hrev. apply (revoked_kept w head); [by apply (link_below_head c)|by apply Hgen|done].
Qed.

Lemma DescriptorByDigest_unique c v : equivoke c = None -> NoDup (map VDigest (links c)) -> v ∈ links c -> DescriptorByDigest c (VDigest v) = Some v.
Proof.
  intros He Hnd Hv. unfold DescriptorByDigest. rewrite He. destruct (list_find _ (links c)) as [[i x]|] eqn:E; cbn.
  - apply list_find_Some in E as (Hx & Hd & _). apply list_elem_of_lookup_1 in Hv as [j Hj]. f_equal.
    assert (i = j) as ->; [|congruence]. eapply NoDup_lookup; [exact Hnd|..]; rewrite list_lookup_fmap, ?Hx, ?Hj; cbn; by rewrite ?Hd.
  - apply list_find_None in E. eapply Forall_forall in E; [|exact Hv]. done.
Qed.

(** An honest publication reaches the reader: what a key holder publishes under a
    descriptor of the chain, within its window, is PUBLISHER_VERIFIED for every
    reader with a fresh view of the log, as long as the head has not revoked the
    key; later rotations do not take that away. *)
Theorem publication_accepted (expected genesis : list byte) (c0 : Chain) (ops : list chain_op) (v head : Verified) (m : Manifest) (data : list byte)
  (publishedAt now : Z) (private : list byte) (p : Publication) (Hj : json_typed) (Hs : started expected genesis c0) (Hn : len ops < 2 ^ 62)
  (Hfork : equivoke (chain_run c0 ops) = None) (Hdistinct : NoDup (map VDigest (links (chain_run c0 ops))))
  (Hv : v ∈ links (chain_run c0 ops)) (Hhead : last (links (chain_run c0 ops)) = Some head) (Hm : manifest_typed m) (Hobj : VerifyObject m data = Ok tt)
  (Hw : writable publishedAt) (Hact : VValidFrom v <= truncate_second publishedAt < VValidUntil v)
  (Hp : NewPublication expected v m publishedAt private = Ok p) (Hrev : public private ∉ revoked_of (VDescriptor head))
  (Hu : requireUsable (distribution (chain_run c0 ops)) now = Ok tt) :
  Resolve expected (Some (chain_run c0 ops)) (Some p) m data now = (PublisherVerified, None).
Proof.
  destruct (run_chain_inv _ _ _ _ Hj Hs Hn) as (Hi & He & _). set (c := chain_run c0 ops) in *.
  assert (forall w, w ∈ links c -> genuine w) as Hgen by (intros; by apply (linked_genuine _ _ _ _ (ci_linked _ Hi))).
  unfold NewPublication in Hp. destruct (negb (Nat.eqb _ _)) eqn:Ek; [done|]. destruct (negb (AuthorizesKey _ _)) eqn:Ea; [done|]. reflect_bools. apply Nat.eqb_eq in Ek.
  destruct (ManifestDigest m) as [md|] eqn:Em; [|done]. cbn [wrap mbind result_bind] in Hp.
  set (p0 := mkPublication _ _ _ _ _ _ _ []) in Hp. destruct (publicationSigningMessage p0) as [message|] eqn:Eg; [|done]. cbn [mbind result_bind] in Hp.
  apply (inj Ok) in Hp.
  assert (publicationSigningMessage p = Ok message) as Hmsg by (rewrite <- Hp, <- Eg; reflexivity).
  assert (exists bytes, publicationCanonicalBytes p = Ok bytes) as [bytes Hbytes].
  { unfold publicationSigningMessage in Hmsg. destruct (publicationCanonicalBytes p); [by eexists|done]. }
  assert (length (VDigest v) = 32%nat) as Hvd.
  { destruct (Hgen v Hv) as [prev Ha%VerifyDescriptor_ok]. pose proof (acc_digest _ _ _ Ha) as E. unfold Digest in E. destruct (canonicalBytes _ _); [|done].
    apply (inj Ok) in E. rewrite <- E. apply sha256_digest. }
  assert (length md = 32%nat) as Hmd.
  { unfold ManifestDigest in Em. destruct (MarshalBinary m); [|done]. apply (inj Ok) in Em. rewrite <- Em. apply sha256_digest. }
  destruct (truncate_second_spec publishedAt Hw) as [Hw' Hz]. assert (head ∈ links c) as Hhl by by apply last_Some_elem_of.
  unfold Resolve. rewrite Hobj, Hbytes, (proj2 (contradiction_none expected c p m)), Hu; [done|]. exists (public private), v, head. split.
  - done.
  - done.
  - by rewrite <- Hp.
  - rewrite <- Hp. split; [done|apply Hm].
  - exists md. by rewrite <- Hp.
  - rewrite <- Hp. split; [done|by apply public_length].
  - exists message, (sign private message). split_and!; [done|by rewrite <- Hp|apply sign_length|by apply sign_verify].
  - rewrite <- Hp. split_and!; [done|done|by apply DescriptorByDigest_unique].
  - unfold ChainHead. by rewrite Hfork, Hhead.
  - exists (truncate_second publishedAt). rewrite <- Hp. cbn [PublishedAt p0]. split; [by apply parse_format|].
    unfold site_ActiveAt. rewrite (proj2 (Z.ltb_ge _ _)), (proj2 (Z.ltb_lt _ _)) by lia. done.
  - done.
  - by apply headRevoked_spec; [apply Hgen|].
Qed.

(** A reader is told UNKNOWN only for what is missing, never for what is wrong.
    Either no chain is at hand, or the claim holds in every other respect and the
    view of the log is absent or stale: with a usable view the same publication is
    PUBLISHER_VERIFIED. *)
Theorem unknown_means_absent (intended : list byte) (chain : option Chain) (p : option Publication) (m : Manifest) (data : list byte) (now : Z)
  (e : option publication_error) (Hr : Resolve intended chain p m data now = (PublisherUnknown, e)) :
  VerifyObject m data = Ok tt /\
  (chain = None /\ e = Some ErrNoChain \/
   exists c err, chain = Some c /\ e = Some (ErrChain err) /\ (err = ErrUnwitnessed \/ exists held, err = ErrStaleDistribution held) /\
     forall d later, requireUsable (Some d) later = Ok tt ->
       Resolve intended (Some (mkChain (siteID c) (links c) (encodings c) (equivoke c) (Some d))) p m data later = (PublisherVerified, None)).
Proof.
  unfold Resolve in Hr. destruct (VerifyObject m data) as [[]|] eqn:Eo; [|done]. split; [done|]. destruct p as [p|]; [|done].
  destruct (publicationCanonicalBytes p) as [bytes|] eqn:Eb; [|done]. destruct chain as [c|]; [right|left; by injection Hr as <-].
  destruct (contradiction intended c p m) eqn:Ec; [done|].
  destruct (requireUsable (distribution c) now) as [[]|err] eqn:Eu; [done|].
  assert (e = Some (ErrChain err) /\ (err = ErrUnwitnessed \/ exists held, err = ErrStaleDistribution held)) as [-> Herr].
  { unfold requireUsable in Eu. destruct (distribution c) as [d|]; [|injection Eu as <-; injection Hr as <-; split; [done|by left]].
    destruct (DistributionEquivocating d); [injection Eu as <-; done|]. destruct (DistributionFresh d now); [done|]. injection Eu as <-. injection Hr as <-.
    split; [done|]. right. by eexists. }
  exists c, err. split_and!; try done. intros d later Hu. unfold Resolve. rewrite Eo, Eb.
  assert (contradiction intended (mkChain (siteID c) (links c) (encodings c) (equivoke c) (Some d)) p m = None) as -> by exact Ec. cbn [distribution]. by rewrite Hu.
Qed.
End verdicts.

(** ** Examples *)

Section example.
#[local] Existing Instance example_hash.
#[local] Existing Instance example_signatures.
#[local] Existing Instance example_calendar.
#[local] Existing Instance example_json.
#[local] Existing Instance example_site_json.

Definition reader_chain : Chain := chain_run witnessed_chain witnessed_ops.
Definition example_link : Verified := verified_or (VerifyDescriptor rotation_two (Some genesis_link)).
Definition example_publication : Publication :=
  match NewPublication example_site example_link example_manifest second key_two with
  | Ok p => p
  | Err _ => mkPublication [] [] [] [] [] [] [] []
  end.

Lemma example_published : NewPublication example_site example_link example_manifest second key_two = Ok example_publication.
Proof.
  unfold example_publication. destruct (NewPublication example_site example_link example_manifest second key_two) eqn:E; [reflexivity|].
  assert (is_ok (NewPublication example_site example_link example_manifest second key_two) = true) as Hok by (vm_compute; reflexivity).
  rewrite E in Hok. discriminate Hok.
Qed.

Lemma reader_links : links reader_chain = [genesis_link; example_link].
Proof. vm_compute. reflexivity. Qed.

Lemma reader_started : started example_site [x67] witnessed_chain.
Proof. right. exists (entry_proof 0), (Some site_view), second. exact witnessed_chain_started. Qed.

Lemma publication_accepted_witness : Resolve example_site (Some reader_chain) (Some example_publication) example_manifest example_object second = (PublisherVerified, None).
Proof.
  unfold reader_chain.
  apply (publication_accepted example_site [x67] witnessed_chain witnessed_ops example_link example_link example_manifest example_object second second key_two example_publication).
  - exact example_json_typed.
  - exact reader_started.
  - reflexivity.
  - vm_compute. reflexivity.
  - fold reader_chain. rewrite reader_links. apply requireDistinct_ok. vm_compute. reflexivity.
  - fold reader_chain. rewrite reader_links. right. left.
  - fold reader_chain. rewrite reader_links. reflexivity.
  - exact example_manifest_typed.
  - vm_compute. reflexivity.
  - split; [discriminate|reflexivity].
  - vm_compute. split; [discriminate|reflexivity].
  - exact example_published.
  - apply containsKey_false. vm_compute. reflexivity.
  - vm_compute. reflexivity.
Defined.

Lemma publisher_verified_sound_witness : sha256 example_object = MRoot example_manifest /\
  exists v key, v ∈ links reader_chain /\ key ∈ signing_of (VDescriptor v) /\ forall w, w ∈ links reader_chain -> key ∉ revoked_of (VDescriptor w).
Proof.
  assert (Resolve example_site (Some (chain_run witnessed_chain witnessed_ops)) (Some example_publication) example_manifest example_object second = (PublisherVerified, None))
    as Hr by (vm_compute; reflexivity).
  pose proof (publisher_verified_sound example_site example_site [x67] witnessed_chain witnessed_ops (Some example_publication) example_manifest example_object second None
    example_json_typed reader_started eq_refl Hr) as Hs. cbv zeta in Hs.
  destruct Hs as (_ & Hh & _ & _ & g & v & key & pub & message & sg & t & _ & _ & Hv & _ & _ & _ & _ & _ & _ & _ & _ & _ & Hk & Hw).
  split; [exact Hh|]. exists v, key. split_and!; assumption.
Defined.

Lemma unknown_means_absent_witness : exists c err, Some (chain_run example_chain [OpAppend [x72]]) = Some c /\ err = ErrUnwitnessed /\
  Resolve example_site (Some (mkChain (siteID c) (links c) (encodings c) (equivoke c) (Some site_view))) (Some example_publication) example_manifest example_object second = (PublisherVerified, None).
Proof.
  assert (Resolve example_site (Some (chain_run example_chain [OpAppend [x72]])) (Some example_publication) example_manifest example_object second =
    (PublisherUnknown, Some (ErrChain ErrUnwitnessed))) as Hr by (vm_compute; reflexivity).
  destruct (unknown_means_absent example_site _ _ _ _ _ _ Hr) as (_ & [[Hn _]|(c & err & Hc & He & _ & Hv)]); [discriminate Hn|].
  exists c, err. split; [exact Hc|]. split; [by injection He|]. apply Hv. vm_compute. reflexivity.
Defined.
End example.
