(* ===== verification/GF256.v ===== *)
(** GF(2^8) arithmetic of the erasure code
    ([components/nomad-rlnc/rlnc/gf256.go]) and the byte-vector operations the
    encoder and decoder build on it ([addScaled] and [scale] of [decoder.go]).
    The field laws are proved here; everything above uses only them. *)

From stdpp Require Import base list list_numbers.
From Stdlib Require Import ZArith Lia Strings.Byte.
From S2P Require Import Prelude Bytes.

(** ** Definitions *)

(** Go's byte operators [&], [<<1] and [>>1]. *)
Definition band (a b : byte) : byte := byte_of_Z (Z.land (Z_of_byte a) (Z_of_byte b)).
Definition bshl1 (a : byte) : byte := byte_of_Z (Z.shiftl (Z_of_byte a) 1).
Definition bshr1 (a : byte) : byte := byte_of_Z (Z.shiftr (Z_of_byte a) 1).

Definition add (a b : byte) : byte := bxor a b.

(** One iteration of the loop of [mul], on the loop's variables [p], [a], [b]. *)
Definition mul_step (s : byte * byte * byte) : byte * byte * byte :=
  let '(p, a, b) := s in
  let p := if bool_decide (band b x01 = x00) then p else bxor p a in
  let hi := band a x80 in
  let a := bshl1 a in
  let a := if bool_decide (hi = x00) then a else bxor a x1b in
  (p, a, bshr1 b).

Definition mul (a b : byte) : byte := (Nat.iter 8 mul_step (x00, a, b)).1.1.

(** The square-and-multiply loop; [n] halves every iteration, so its bit
    length bounds the number of iterations. *)
Fixpoint pow_loop (fuel : nat) (r a : byte) (n : Z) : byte :=
  match fuel with
  | O => r
  | S fuel =>
      if n <=? 0 then r
      else pow_loop fuel (if Z.land n 1 =? 1 then mul r a else r) (mul a a) (Z.shiftr n 1)
  end.
Definition pow (a : byte) (n : Z) : byte := pow_loop (S (Z.to_nat (Z.log2 n))) x01 a n.

(** [inv] panics on zero; [None] is the panic. *)
Definition inv (a : byte) : option byte :=
  if bool_decide (a = x00) then None else Some (pow a 254).

Definition addScaled (dst src : list byte) (factor : byte) : list byte :=
  zip_with (fun d s => add d (mul factor s)) dst src.

Definition scale (row : list byte) (factor : byte) : list byte :=
  map (fun x => mul x factor) row.

Definition anyNonZero (v : list byte) : bool := existsb (fun x => negb (bool_decide (x = x00))) v.

(** ** Multiplication is bilinear *)

(** Multiplication by x: the update of [a] in the loop. *)
Definition xtime (a : byte) : byte :=
  if bool_decide (band a x80 = x00) then bshl1 a else bxor (bshl1 a) x1b.

Definition bit (b : byte) (i : Z) : bool := Z.testbit (Z_of_byte b) i.

(** The single-bit bytes, a basis of the bytes over exclusive or. *)
Definition unit_byte (i : nat) : byte := byte_of_Z (Z.shiftl 1 (Z.of_nat i)).

Definition additive (f : byte -> byte) : Prop := forall x y, f (bxor x y) = bxor (f x) (f y).

Lemma additive_0 f : additive f -> f x00 = x00.
Proof. intros Hf. specialize (Hf x00 x00). by rewrite bxor_0_l, bxor_diag in Hf. Qed.

Lemma byte_decompose b :
  b = foldr bxor x00 (map (fun i => if bit b (Z.of_nat i) then unit_byte i else x00) (seq 0 8)).
Proof. destruct b; vm_compute; reflexivity. Qed.

(** Additive functions that agree on the basis agree everywhere. *)
Lemma additive_ext f g : additive f -> additive g ->
  (forall i, (i < 8)%nat -> f (unit_byte i) = g (unit_byte i)) -> forall b, f b = g b.
Proof.
  intros Hf Hg He b. rewrite (byte_decompose b).
  assert (forall l : list nat, Forall (fun i => i < 8)%nat l ->
    f (foldr bxor x00 (map (fun i => if bit b (Z.of_nat i) then unit_byte i else x00) l)) =
    g (foldr bxor x00 (map (fun i => if bit b (Z.of_nat i) then unit_byte i else x00) l))) as Hl.
  { induction l as [|i l IH]; intros Hl; simpl; [by rewrite !additive_0|].
    split_forall. rewrite Hf, Hg, IH by done. f_equal.
    destruct (bit b (Z.of_nat i)); [by apply He|by rewrite !additive_0]. }
  apply Hl. vm_compute. repeat (constructor; [repeat constructor|]). constructor.
Qed.

Lemma xtime_additive : additive xtime.
Proof.
  assert (forall a, xtime a = byte_of_Z (Z.lxor (Z.shiftl (Z_of_byte a) 1)
            (if bit a 7 then 27 else 0))) as Hx by (intros a; destruct a; vm_compute; reflexivity).
  intros x y. apply byte_eq_bits. intros i Hi. rewrite bxor_testbit by done. rewrite !Hx.
  rewrite !Z_of_byte_of_Z, !wrapu_testbit, !Z.lxor_spec, !Z.shiftl_spec by lia.
  unfold bit. rewrite (bxor_testbit x y 7) by lia.
  destruct (decide (i = 0)) as [->|Hne].
  - rewrite !Z.testbit_neg_r by lia.
    by destruct (Z.testbit (Z_of_byte x) 7), (Z.testbit (Z_of_byte y) 7).
  - rewrite (bxor_testbit x y (i - 1)) by lia.
    destruct (Z.testbit (Z_of_byte x) 7), (Z.testbit (Z_of_byte y) 7),
      (Z.testbit (Z_of_byte x) (i - 1)), (Z.testbit (Z_of_byte y) (i - 1));
      rewrite ?Z.bits_0; simpl; try done; by destruct (Z.testbit 27 i).
Qed.

Lemma iter_xtime_additive n : additive (Nat.iter n xtime).
Proof.
  induction n as [|n IH]; [done|]. intros x y.
  change (xtime (Nat.iter n xtime (bxor x y)) = bxor (xtime (Nat.iter n xtime x)) (xtime (Nat.iter n xtime y))).
  by rewrite IH, xtime_additive.
Qed.

(** The loop adds [x^i * a] for every set bit [i] of [b]. *)
Definition mul_terms (n : nat) (a b : byte) : byte :=
  foldr bxor x00 (map (fun i => if bit b (Z.of_nat i) then Nat.iter i xtime a else x00) (seq 0 n)).

Lemma mul_step_eq p a b :
  mul_step (p, a, b) = (bxor p (if bit b 0 then a else x00), xtime a, bshr1 b).
Proof.
  unfold mul_step. f_equal.
  assert (bool_decide (band b x01 = x00) = negb (bit b 0)) as -> by (destruct b; vm_compute; reflexivity).
  destruct (bit b 0); simpl; [done|by rewrite bxor_0_r].
Qed.

Lemma bshr1_bit b i : 0 <= i < 8 -> bit (bshr1 b) i = bit b (i + 1).
Proof.
  intros Hi. unfold bit, bshr1. rewrite Z_of_byte_of_Z, wrapu_testbit by lia.
  by rewrite Z.shiftr_spec by lia.
Qed.

Lemma iter_bshr1_bit n b i : 0 <= i -> Z.of_nat n + i < 8 ->
  bit (Nat.iter n bshr1 b) i = bit b (i + Z.of_nat n).
Proof.
  revert i. induction n as [|n IH]; intros i Hi Hn; simpl; [f_equal; lia|].
  rewrite bshr1_bit, IH by lia. f_equal. lia.
Qed.

Lemma foldr_bxor_snoc l x : foldr bxor x00 (l ++ [x]) = bxor (foldr bxor x00 l) x.
Proof.
  induction l as [|y l IH]; simpl; [by rewrite bxor_comm|]. by rewrite IH, bxor_assoc.
Qed.

Lemma mul_iter n a b : (n <= 8)%nat ->
  Nat.iter n mul_step (x00, a, b) = (mul_terms n a b, Nat.iter n xtime a, Nat.iter n bshr1 b).
Proof.
  induction n as [|n IH]; intros Hn; [done|].
  change (Nat.iter (S n) mul_step (x00, a, b)) with (mul_step (Nat.iter n mul_step (x00, a, b))).
  rewrite IH, mul_step_eq by lia.
  f_equal. f_equal. unfold mul_terms. rewrite seq_S, map_app, Nat.add_0_l. cbn [map].
  by rewrite foldr_bxor_snoc, iter_bshr1_bit, Z.add_0_l by lia.
Qed.

Lemma mul_eq a b : mul a b = mul_terms 8 a b.
Proof. unfold mul. by rewrite mul_iter. Qed.

Lemma foldr_bxor_zip (f g : nat -> byte) l :
  foldr bxor x00 (map (fun i => bxor (f i) (g i)) l) =
  bxor (foldr bxor x00 (map f l)) (foldr bxor x00 (map g l)).
Proof.
  induction l as [|i l IH]; simpl; [done|]. rewrite IH.
  rewrite <- !bxor_assoc. f_equal. rewrite !bxor_assoc. f_equal. apply bxor_comm.
Qed.

Lemma mul_additive_l b : additive (fun a => mul a b).
Proof.
  intros x y. rewrite !mul_eq. unfold mul_terms. rewrite <- foldr_bxor_zip. f_equal.
  apply map_ext. intros i. destruct (bit b (Z.of_nat i)); [apply iter_xtime_additive|done].
Qed.

Lemma mul_additive_r a : additive (mul a).
Proof.
  intros x y. rewrite !mul_eq. unfold mul_terms. rewrite <- foldr_bxor_zip. f_equal.
  apply map_ext_in. intros i Hi%in_seq. unfold bit. rewrite bxor_testbit by lia.
  destruct (Z.testbit (Z_of_byte x) (Z.of_nat i)), (Z.testbit (Z_of_byte y) (Z.of_nat i)); simpl;
    by rewrite ?bxor_diag, ?bxor_0_r, ?bxor_0_l.
Qed.

(** ** The field laws *)

(** Statements about all pairs and triples of basis bytes, by evaluation. *)
Lemma mul_comm_basis i j : (i < 8)%nat -> (j < 8)%nat ->
  mul (unit_byte i) (unit_byte j) = mul (unit_byte j) (unit_byte i).
Proof.
  intros Hi Hj.
  assert (forall_below 8 (fun i => forall_below 8 (fun j => bool_decide
    (mul (unit_byte i) (unit_byte j) = mul (unit_byte j) (unit_byte i)))) = true) as Hb
    by (vm_compute; reflexivity).
  apply (forall_below_spec _ _ Hb) in Hi. apply (forall_below_spec _ _ Hi) in Hj.
  by reflect_bools.
Qed.

Lemma mul_assoc_basis i j k : (i < 8)%nat -> (j < 8)%nat -> (k < 8)%nat ->
  mul (unit_byte i) (mul (unit_byte j) (unit_byte k)) =
  mul (mul (unit_byte i) (unit_byte j)) (unit_byte k).
Proof.
  intros Hi Hj Hk.
  assert (forall_below 8 (fun i => forall_below 8 (fun j => forall_below 8 (fun k => bool_decide
    (mul (unit_byte i) (mul (unit_byte j) (unit_byte k)) =
     mul (mul (unit_byte i) (unit_byte j)) (unit_byte k))))) = true) as Hb
    by (vm_compute; reflexivity).
  apply (forall_below_spec _ _ Hb) in Hi. apply (forall_below_spec _ _ Hi) in Hj.
  apply (forall_below_spec _ _ Hj) in Hk. by reflect_bools.
Qed.

Lemma mul_comm a b : mul a b = mul b a.
Proof.
  revert b. apply (additive_ext (mul a) (fun b => mul b a));
    [apply mul_additive_r|apply mul_additive_l|]. intros i Hi.
  revert a. apply (additive_ext (fun a => mul a (unit_byte i)) (mul (unit_byte i)));
    [apply mul_additive_l|apply mul_additive_r|]. intros j Hj. by apply mul_comm_basis.
Qed.

Lemma additive_compose f g : additive f -> additive g -> additive (fun x => f (g x)).
Proof. intros Hf Hg x y. by rewrite Hg, Hf. Qed.

Lemma mul_assoc a b c : mul a (mul b c) = mul (mul a b) c.
Proof.
  revert c. apply (additive_ext (fun c => mul a (mul b c)) (mul (mul a b)));
    [apply (additive_compose (mul a)); apply mul_additive_r|apply mul_additive_r|]. intros k Hk.
  revert b. apply (additive_ext (fun b => mul a (mul b (unit_byte k)))
                     (fun b => mul (mul a b) (unit_byte k)));
    [apply (additive_compose (mul a) (fun b => mul b (unit_byte k)))
    |apply (additive_compose (fun x => mul x (unit_byte k)) (mul a))|];
    try apply mul_additive_r; try apply mul_additive_l. intros j Hj.
  revert a. apply (additive_ext (fun a => mul a (mul (unit_byte j) (unit_byte k)))
                     (fun a => mul (mul a (unit_byte j)) (unit_byte k)));
    [apply mul_additive_l
    |apply (additive_compose (fun x => mul x (unit_byte k)) (fun a => mul a (unit_byte j)))|];
    try apply mul_additive_l. intros i Hi. by apply mul_assoc_basis.
Qed.

Lemma mul_0_l a : mul x00 a = x00.
Proof. apply (additive_0 (fun b => mul b a)), mul_additive_l. Qed.
Lemma mul_0_r a : mul a x00 = x00.
Proof. apply (additive_0 (mul a)), mul_additive_r. Qed.
Lemma mul_1_l a : mul x01 a = a.
Proof. destruct a; vm_compute; reflexivity. Qed.
Lemma mul_1_r a : mul a x01 = a.
Proof. by rewrite mul_comm, mul_1_l. Qed.
Lemma mul_add_r a b c : mul a (add b c) = add (mul a b) (mul a c).
Proof. apply mul_additive_r. Qed.
Lemma mul_add_l a b c : mul (add a b) c = add (mul a c) (mul b c).
Proof. apply (mul_additive_l c). Qed.

Lemma mul_pow254 a : a <> x00 -> mul a (pow a 254) = x01.
Proof. destruct a; intros Ha; [done|vm_compute; reflexivity..]. Qed.

Lemma mul_inv a b : inv a = Some b -> mul a b = x01.
Proof. unfold inv. case_bool_decide; [done|]. intros Hb%(inj Some). rewrite <- Hb. by apply mul_pow254. Qed.

Lemma inv_total a : a <> x00 -> exists b, inv a = Some b.
Proof. intros Ha. unfold inv. rewrite bool_decide_false by done. eauto. Qed.

(** No zero divisors. *)
Lemma mul_eq_0 a b : mul a b = x00 -> a = x00 \/ b = x00.
Proof.
  intros H. destruct (decide (a = x00)) as [|Ha]; [by left|right].
  destruct (inv_total a Ha) as [c Hc]. apply mul_inv in Hc.
  by rewrite <- (mul_1_l b), <- Hc, (mul_comm a c), <- mul_assoc, H, mul_0_r.
Qed.

#[export] Hint Rewrite mul_0_l mul_0_r mul_1_l mul_1_r bxor_0_l bxor_0_r : gf.

(** ** Powers *)

(** [n]-fold multiplication, the reference for [pow]. *)
Definition power (a : byte) (n : Z) : byte := Nat.iter (Z.to_nat n) (mul a) x01.

Lemma power_succ a n : 0 <= n -> power a (Z.succ n) = mul a (power a n).
Proof. intros Hn. unfold power. rewrite Z2Nat.inj_succ by done. done. Qed.

Lemma power_add a m n : 0 <= m -> 0 <= n -> power a (m + n) = mul (power a m) (power a n).
Proof.
  intros Hm Hn. pattern m. apply natlike_ind; [|intros k Hk IH|done].
  - by rewrite Z.add_0_l, mul_1_l.
  - rewrite Z.add_succ_l, !power_succ, IH by lia. apply mul_assoc.
Qed.

Lemma power_square a n : 0 <= n -> power (mul a a) n = power a (2 * n).
Proof.
  intros Hn. pattern n. apply natlike_ind; [done|intros k Hk IH|done].
  replace (2 * Z.succ k) with (Z.succ (Z.succ (2 * k))) by lia.
  rewrite !power_succ, IH by lia. by rewrite mul_assoc.
Qed.

Lemma pow_loop_eq fuel r a n : 0 <= n < 2 ^ Z.of_nat fuel ->
  pow_loop fuel r a n = mul r (power a n).
Proof.
  revert r a n. induction fuel as [|fuel IH]; intros r a n Hn.
  - assert (n = 0) as -> by (simpl in Hn; lia). by rewrite mul_1_r.
  - cbn [pow_loop]. destruct (n <=? 0) eqn:E; reflect_bools.
    { assert (n = 0) as -> by lia. by rewrite mul_1_r. }
    rewrite Nat2Z.inj_succ, Z.pow_succ_r in Hn by lia.
    rewrite IH, Z.shiftr_div_pow2 by (rewrite ?Z.shiftr_div_pow2 by lia;
      change (2 ^ 1) with 2; pose proof (Z.div_mod n 2); pose proof (Z.mod_pos_bound n 2); lia).
    change (2 ^ 1) with 2. rewrite power_square by (apply Z.div_pos; lia).
    change (Z.land n 1) with (Z.land n (Z.ones 1)). rewrite Z.land_ones by lia. change (2 ^ 1) with 2.
    pose proof (Z.div_mod n 2 ltac:(lia)) as Hdm. pose proof (Z.mod_pos_bound n 2 ltac:(lia)).
    destruct (n mod 2 =? 1) eqn:E1; reflect_bools.
    + rewrite <- mul_assoc. f_equal. rewrite <- power_succ by lia. f_equal. lia.
    + f_equal. f_equal. lia.
Qed.

Lemma pow_eq a n : 0 <= n -> pow a n = power a n.
Proof.
  intros Hn. unfold pow. rewrite pow_loop_eq, mul_1_l; [done|]. split; [done|].
  pose proof (Z.log2_nonneg n).
  rewrite Nat2Z.inj_succ, Z2Nat.id by done.
  destruct (decide (n = 0)) as [->|]; [vm_compute; done|].
  apply Z.log2_spec. lia.
Qed.

(** The byte arithmetic of the code is a field: [add] and [mul] are
    associative, commutative and distributive with units 0 and 1, every byte is
    its own additive inverse, [inv] is defined on exactly the non-zero bytes and
    yields multiplicative inverses, and the square-and-multiply [pow] is
    repeated multiplication. *)
Theorem gf256_field :
  (forall a b c, add a (add b c) = add (add a b) c) /\
  (forall a b, add a b = add b a) /\
  (forall a, add x00 a = a) /\
  (forall a, add a a = x00) /\
  (forall a b c, mul a (mul b c) = mul (mul a b) c) /\
  (forall a b, mul a b = mul b a) /\
  (forall a, mul x01 a = a) /\
  (forall a b c, mul a (add b c) = add (mul a b) (mul a c)) /\
  (forall a, inv a = None <-> a = x00) /\
  (forall a b, inv a = Some b -> mul a b = x01) /\
  (forall a n, 0 <= n -> pow a n = power a n).
Proof.
  split_and!; eauto using bxor_assoc, bxor_comm, bxor_0_l, bxor_diag, mul_assoc, mul_comm,
    mul_1_l, mul_add_r, mul_inv, pow_eq.
  intros a. unfold inv. case_bool_decide; split; congruence.
Qed.

#[global] Opaque mul pow inv.
