(* ===== verification/Kyber.v ===== *)
(** The parts of the cryptographic library [go.dedis.ch/kyber/v4] that the mix
    uses, as interfaces with the laws its documentation states: the group of
    [edwards25519], Shamir sharing ([share]), hash-based proofs ([proof]) and
    the verifiable shuffle ([shuffle]).  The library is not part of the
    repository, so it is an argument of everything that follows.  The last part
    gives an instance over GF(2^8), on which examples are evaluated. *)

From stdpp Require Import base list list_numbers vector sets.
From Stdlib Require Import ZArith Lia Strings.Byte.
From S2P Require Import Prelude Bytes GF256.

(** ** The group *)

(** [edwards25519]: a scalar is an integer below the order of the base point and
    [pmul] is the integer multiple, so multiples commute on every point, while
    the scalars act as a field only on the multiples of the base point
    ([prime_order]); the curve has other points, and they decode. *)
Class KyberGroup := {
  point : Type;
  scalar : Type;
  point_eq_dec : EqDecision point;
  Null : point;
  Base : point;
  padd : point -> point -> point;
  psub : point -> point -> point;
  pmul : scalar -> point -> point;
  SetInt64 : Z -> scalar;
  marshal : point -> list byte;
  unmarshal : list byte -> option point;
  smarshal : scalar -> list byte;
  sunmarshal : list byte -> option scalar;
  EmbedLen : Z;
  embed : list byte -> list byte -> point;      (* data, random bytes *)
  point_data : point -> option (list byte);
  prime_order : point -> Prop;

  padd_assoc : forall p q r, padd p (padd q r) = padd (padd p q) r;
  padd_comm : forall p q, padd p q = padd q p;
  psub_padd : forall p q, psub (padd p q) q = p;
  padd_psub : forall p q, padd (psub p q) q = p;
  pmul_padd : forall s p q, pmul s (padd p q) = padd (pmul s p) (pmul s q);
  pmul_pmul : forall s t p, pmul s (pmul t p) = pmul t (pmul s p);
  pmul_base_inj : forall s t, pmul s Base = pmul t Base -> s = t;
  prime_order_base : forall s, prime_order (pmul s Base);
  prime_order_padd : forall p q, prime_order p -> prime_order q -> prime_order (padd p q);
  length_marshal : forall p, length (marshal p) = 32%nat;
  unmarshal_marshal : forall p, unmarshal (marshal p) = Some p;
  length_smarshal : forall s, length (smarshal s) = 32%nat;
  sunmarshal_smarshal : forall s, sunmarshal (smarshal s) = Some s;
  data_embed : forall d r, len d <= EmbedLen -> point_data (embed d r) = Some d;
}.
#[export] Existing Instance point_eq_dec.

Section group.
Context `{KyberGroup}.

#[export] Instance marshal_inj : Inj (=) (=) marshal.
Proof. intros p q E. apply (f_equal unmarshal) in E. rewrite !unmarshal_marshal in E. by simplify_eq. Qed.

(** Multiplying by the secret undoes the mask of an ElGamal pair. *)
Lemma unmask s r m : psub (padd m (pmul r (pmul s Base))) (pmul s (pmul r Base)) = m.
Proof. by rewrite (pmul_pmul r s), psub_padd. Qed.

(** Re-randomising a pair leaves the point it masks. *)
Lemma unmask_rerandomised s x y b :
  psub (padd y (pmul b (pmul s Base))) (pmul s (padd x (pmul b Base))) = psub y (pmul s x).
Proof.
  rewrite pmul_padd, (pmul_pmul s b). set (k := pmul b (pmul s Base)).
  rewrite <- (padd_psub y (pmul s x)) at 1. rewrite <- padd_assoc. apply psub_padd.
Qed.
End group.

(** ** Sharing *)

(** Shamir sharing over the scalars.  A polynomial is the list of its
    coefficients, the secret first; member [i] holds its value at [i+1].  The
    laws are stated for the committee sizes of the program. *)
Class Sharing `{KyberGroup} := {
  PriEval : list scalar -> Z -> scalar;
  PubEval : list point -> Z -> point;
  RecoverCommit : list (Z * point) -> Z -> Z -> option point;      (* shares, threshold, members *)

  PubEval_commit : forall a i, PubEval (map (fun c => pmul c Base) a) i = pmul (PriEval a i) Base;
  recover_total : forall shares t n, 0 <= n <= 64 -> NoDup (map fst shares) ->
    Forall (fun s => 0 <= fst s < n) shares -> t <= len shares -> is_Some (RecoverCommit shares t n);
  recover_commit : forall secret a p shares n, 0 <= n <= 64 -> prime_order p -> NoDup (map fst shares) ->
    Forall (fun s => 0 <= fst s < n) shares -> len (secret :: a) <= len shares ->
    Forall (fun s => snd s = pmul (PriEval (secret :: a) (fst s)) p) shares ->
    RecoverCommit shares (len (secret :: a)) n = Some (pmul secret p);
}.

(** ** Proofs *)

(** [HashProve] and [HashVerify] of a conjunction of [Rep] predicates with one
    secret: each pair [(p, c)] claims [p = secret * c].  Only completeness is a
    law; that an accepted proof is of a true statement is assumed where it is
    used, of the proofs that were accepted. *)
Class RepProofs `{KyberGroup} := {
  rep_prove : list byte -> list (point * point) -> scalar -> list byte -> option (list byte);
  rep_verify : list byte -> list (point * point) -> list byte -> bool;
  rep_complete : forall domain st w r, Forall (fun s => fst s = pmul w (snd s)) st ->
    exists proof, rep_prove domain st w r = Some proof /\ proof <> [] /\ rep_verify domain st proof = true;
}.

Definition rep_sound `{RepProofs} (domain : list byte) (st : list (point * point)) (proof : list byte) : Prop :=
  rep_verify domain st proof = true -> exists w, Forall (fun s => fst s = pmul w (snd s)) st.

(** ** Shuffles *)

Definition at_ `{KyberGroup} (m : list (list point)) (row col : nat) : point :=
  default Null (m !! row ≫= fun l => l !! col).

(** [(x', y')] is [(x, y)] with its columns permuted, each pair re-encrypted
    under [h]; every row follows the same permutation. *)
Definition reencrypts `{KyberGroup} (h : point) (rows cols : nat) (x y x' y' : list (list point)) : Prop :=
  exists (perm : list nat) (beta : nat -> nat -> scalar), perm ≡ₚ seq 0 cols /\
    forall row j i, (row < rows)%nat -> perm !! j = Some i ->
      at_ x' row j = padd (at_ x row i) (pmul (beta row j) Base) /\
      at_ y' row j = padd (at_ y row i) (pmul (beta row j) h).

Definition rectangular {A} (rows cols : nat) (m : list (list A)) : Prop :=
  length m = rows /\ Forall (fun l => length l = cols) m.

(** [SequencesShuffle] with the prover it returns, the sequence verifier of
    [GetSequenceVerifiable] and [Verifier], and the challenges drawn from a
    seeded stream ([blake2xb] and [Scalar.Pick]). *)
Class Shuffles `{KyberGroup} := {
  SequencesShuffle : point -> list (list point) -> list (list point) -> list byte -> list (list point) * list (list point);
  shuffle_prove : list byte -> point -> list (list point) -> list (list point) -> list scalar -> list byte -> option (list byte);
  shuffle_verify : list byte -> point -> list (list point) -> list (list point) ->
    list (list point) -> list (list point) -> list scalar -> list byte -> bool;
  pick_challenges : list byte -> nat -> list scalar;

  shuffle_shape : forall h x y r rows cols, rectangular rows cols x -> rectangular rows cols y ->
    rectangular rows cols (SequencesShuffle h x y r).1 /\ rectangular rows cols (SequencesShuffle h x y r).2;
  shuffle_reencrypts : forall h x y r rows cols, rectangular rows cols x -> rectangular rows cols y ->
    reencrypts h rows cols x y (SequencesShuffle h x y r).1 (SequencesShuffle h x y r).2;
  shuffle_complete : forall domain h x y r cs rows cols, (0 < rows)%nat -> (2 <= cols)%nat ->
    rectangular rows cols x -> rectangular rows cols y -> length cs = rows ->
    exists proof, shuffle_prove domain h x y cs r = Some proof /\ proof <> [] /\
      shuffle_verify domain h x y (SequencesShuffle h x y r).1 (SequencesShuffle h x y r).2 cs proof = true;
  length_challenges : forall seed n, length (pick_challenges seed n) = n;
}.

Definition shuffle_sound `{Shuffles} (domain : list byte) (h : point) (rows cols : nat)
  (x y x' y' : list (list point)) (cs : list scalar) (proof : list byte) : Prop :=
  shuffle_verify domain h x y x' y' cs proof = true -> reencrypts h rows cols x y x' y'.

(** ** An instance over GF(2^8) *)

(** Points are vectors of 32 bytes under exclusive or, scalars are bytes, and a
    multiple scales every byte in the field. *)
Definition vpoint : Type := vec byte 32.

Fixpoint to_vec (n : nat) (l : list byte) : option (vec byte n) :=
  match n, l with
  | O, [] => Some [#]
  | S n, b :: l => vcons b <$> to_vec n l
  | _, _ => None
  end.

Lemma to_vec_list n (v : vec byte n) : to_vec n (vec_to_list v) = Some v.
Proof. induction v as [|b n v IH]; [done|]. simpl. by rewrite IH. Qed.

Definition vadd (p q : vpoint) : vpoint := vzip_with add p q.
Definition vmul (s : byte) (p : vpoint) : vpoint := vmap (mul s) p.
Definition vdata (p : vpoint) : option (list byte) :=
  match vec_to_list p with
  | [] => None
  | n :: l => if 29 <? Z_of_byte n then None else Some (take (Z.to_nat (Z_of_byte n)) l)
  end.
Definition vfill (l : list byte) : vpoint := fun_to_vec (fun i => default x00 (l !! (fin_to_nat i))).
Definition vembed (d r : list byte) : vpoint := vfill (byte_of_Z (len d) :: d ++ r).

Lemma vec_add_assoc p q r : vadd p (vadd q r) = vadd (vadd p q) r.
Proof. apply vec_eq. intros i. unfold vadd. rewrite !vlookup_zip_with. apply bxor_assoc. Qed.
Lemma vec_add_comm p q : vadd p q = vadd q p.
Proof. apply vec_eq. intros i. unfold vadd. rewrite !vlookup_zip_with. apply bxor_comm. Qed.
Lemma vec_add_cancel p q : vadd (vadd p q) q = p.
Proof. apply vec_eq. intros i. unfold vadd. rewrite !vlookup_zip_with. apply bxor_cancel. Qed.
Lemma vmul_vadd s p q : vmul s (vadd p q) = vadd (vmul s p) (vmul s q).
Proof. apply vec_eq. intros i. unfold vmul, vadd. rewrite !vlookup_zip_with, !vlookup_map, vlookup_zip_with. apply mul_add_r. Qed.
Lemma vmul_mul s t p : vmul s (vmul t p) = vmul (mul s t) p.
Proof. apply vec_eq. intros i. unfold vmul. rewrite !vlookup_map. apply mul_assoc. Qed.
Lemma vadd_vmul s t p : vadd (vmul s p) (vmul t p) = vmul (add s t) p.
Proof. apply vec_eq. intros i. unfold vmul, vadd. rewrite vlookup_zip_with, !vlookup_map. by rewrite mul_add_l. Qed.
Lemma vmul_1 p : vmul x01 p = p.
Proof. apply vec_eq. intros i. unfold vmul. rewrite vlookup_map. apply mul_1_l. Qed.

Lemma vec_to_list_vfill l : vec_to_list (vfill l) = map (fun i => default x00 (l !! i)) (seq 0 32).
Proof. unfold vfill. done. Qed.

Lemma vdata_vembed d r : len d <= 29 -> vdata (vembed d r) = Some d.
Proof.
  intros Hd. unfold vdata, vembed. rewrite vec_to_list_vfill.
  change (map ?f (seq 0 32)) with (f 0%nat :: (f <$> (S <$> seq 0 31))). cbv beta.
  change (default x00 ((byte_of_Z (len d) :: d ++ r) !! 0%nat)) with (byte_of_Z (len d)). cbv iota.
  rewrite Z_of_byte_of_Z, wrapu_small by (unfold fits; lia).
  destruct (29 <? len d) eqn:E; [reflect_bools; lia|]. rewrite Nat2Z.id. f_equal.
  apply list_eq. intros i. destruct (decide (i < length d)%nat) as [Hi|Hi].
  - rewrite lookup_take_lt by done. rewrite list_lookup_fmap, list_lookup_fmap.
    rewrite lookup_seq_lt by lia. change (Some (default x00 ((d ++ r) !! i)) = d !! i).
    rewrite lookup_app_l by done. destruct (lookup_lt_is_Some_2 _ _ Hi) as [b ->]. done.
  - rewrite lookup_take_ge by lia. symmetry. apply lookup_ge_None. lia.
Qed.

Lemma vmul_base_inj s t : vmul s (vreplicate 32 x01) = vmul t (vreplicate 32 x01) -> s = t.
Proof.
  intros E. assert (forall i : fin 32, vmul s (vreplicate 32 x01) !!! i = s) as Hv.
  { intros i. unfold vmul, vpoint. by rewrite vlookup_map, vlookup_replicate, mul_1_r. }
  assert (forall i : fin 32, vmul t (vreplicate 32 x01) !!! i = t) as Hw.
  { intros i. unfold vmul, vpoint. by rewrite vlookup_map, vlookup_replicate, mul_1_r. }
  rewrite <- (Hv 0%fin), <- (Hw 0%fin). by rewrite E.
Qed.

Definition gf_group : KyberGroup.
Proof.
  refine {| point := vpoint; scalar := byte; point_eq_dec := (_ : EqDecision (vec byte 32));
    Null := vreplicate 32 x00; Base := vreplicate 32 x01;
    padd := vadd; psub := vadd; pmul := vmul; SetInt64 := byte_of_Z;
    marshal := vec_to_list; unmarshal := to_vec 32;
    smarshal := fun s => s :: replicate 31 x00;
    sunmarshal := fun l => match l with s :: l => if bool_decide (l = replicate 31 x00) then Some s else None | [] => None end;
    EmbedLen := 29; embed := vembed; point_data := vdata; prime_order := fun _ => True |};
    try done; auto using vec_add_assoc, vec_add_comm, vec_add_cancel, vmul_vadd, to_vec_list, vdata_vembed.
  - intros s t p. rewrite !vmul_mul. f_equal. apply mul_comm.
  - intros s t E. by apply vmul_base_inj.
  - intros p. apply length_vec_to_list.
  - intros p. apply (to_vec_list 32).
Defined.

(** Evaluation at [x] by Horner's rule, on scalars and on points. *)
Definition peval (a : list byte) (x : byte) : byte := foldr (fun c acc => add c (mul x acc)) x00 a.
Definition pteval (a : list vpoint) (x : byte) : vpoint := foldr (fun c acc => vadd c (vmul x acc)) (vreplicate 32 x00) a.
Definition abscissa (i : Z) : byte := byte_of_Z (i + 1).

Definition invert (b : byte) : byte := default x00 (inv b).

(** Newton's form: the value at 0 of the polynomial of [t] coefficients through
    the given points. *)
Fixpoint newton (t : nat) (shares : list (byte * vpoint)) : vpoint :=
  match t, shares with
  | S t, (x1, y1) :: rest =>
      vadd y1 (vmul x1 (newton t (map (fun s => (s.1, vmul (invert (add s.1 x1)) (vadd s.2 y1))) rest)))
  | _, _ => vreplicate 32 x00
  end.

(** Synthetic division: the values of a polynomial differ from its value at
    [x1] by a multiple of the distance. *)
Lemma peval_divide a x1 : a <> [] -> exists q, length a = S (length q) /\
  forall x, add (peval a x) (peval a x1) = mul (add x x1) (peval q x).
Proof.
  induction a as [|c a IH]; [done|]. intros _. destruct a as [|c' a].
  { exists []. split; [done|]. intros x. simpl. rewrite !mul_0_r, bxor_0_r. unfold add. by rewrite bxor_diag. }
  destruct IH as (q & Hl & Hq); [done|]. exists (peval (c' :: a) x1 :: q). split; [simpl in *; lia|].
  intros x. set (b := c' :: a) in *. change (peval (c :: b) ?z) with (add c (mul z (peval b z))).
  change (peval (?z :: q) x) with (add z (mul x (peval q x))).
  assert (peval b x = add (peval b x1) (mul (add x x1) (peval q x))) as ->.
  { rewrite <- Hq. unfold add. by rewrite (bxor_comm (peval b x)), bxor_assoc, bxor_diag, bxor_0_l. }
  set (u := peval b x1). set (v := peval q x).
  repeat (rewrite mul_add_l || rewrite mul_add_r). rewrite !mul_assoc, (mul_comm x1 x). unfold add. byte_bits.
Qed.

Lemma peval_0 c a : peval (c :: a) x00 = c.
Proof. unfold peval. simpl. rewrite mul_0_l. apply bxor_0_r. Qed.

Lemma vmul_0 p : vmul x00 p = vreplicate 32 x00.
Proof. apply vec_eq. intros i. unfold vmul. rewrite vlookup_map, vlookup_replicate. apply mul_0_l. Qed.

Lemma newton_correct a p shares : (length a <= length shares)%nat -> NoDup (map fst shares) ->
  Forall (fun s => s.2 = vmul (peval a s.1) p) shares -> newton (length a) shares = vmul (peval a x00) p.
Proof.
  remember (length a) as t eqn:Ht. revert a shares Ht.
  induction t as [|t IH]; intros a shares Ht Hl Hnd Hs.
  { destruct a; [|done]. simpl. by rewrite vmul_0. }
  destruct shares as [|[x1 y1] rest]; [simpl in Hl; lia|]. cbn [newton].
  apply Forall_cons in Hs as [H1 Hs]. simpl in H1, Hnd. apply NoDup_cons in Hnd as [Hx Hnd].
  destruct (peval_divide a x1) as (q & Hq & Hdiv); [by destruct a|].
  rewrite (IH q); [|lia|rewrite length_map; simpl in Hl; lia| |].
  - rewrite H1, vmul_mul, vadd_vmul. f_equal. specialize (Hdiv x00).
    replace (add x00 x1) with x1 in Hdiv by (symmetry; apply bxor_0_l). rewrite <- Hdiv. unfold add.
    by rewrite (bxor_comm (peval a x00)), bxor_assoc, bxor_diag, bxor_0_l.
  - rewrite map_map. done.
  - rewrite Forall_forall in Hs |- *. intros s (z & -> & Hz)%list_elem_of_fmap. simpl.
    rewrite (Hs z Hz), H1, vadd_vmul, Hdiv, vmul_mul, mul_assoc. f_equal.
    assert (add z.1 x1 <> x00) as Hne.
    { intros E. apply Hx. replace x1 with z.1; [by apply elem_of_map_2|].
      rewrite <- (bxor_cancel z.1 x1). unfold add in E. rewrite E. apply bxor_0_l. }
    destruct (inv_total _ Hne) as [b Hb]. unfold invert. rewrite Hb. simpl. rewrite (mul_comm b).
    rewrite (mul_inv _ _ Hb). apply mul_1_l.
Qed.

Lemma pteval_commit a x : pteval (map (fun c => vmul c (vreplicate 32 x01)) a) x = vmul (peval a x) (vreplicate 32 x01).
Proof.
  induction a as [|c a IH]; [simpl; by rewrite vmul_0|]. unfold pteval in *. cbn [map foldr]. rewrite IH.
  by rewrite vmul_mul, vadd_vmul.
Qed.

Lemma abscissa_inj i j : 0 <= i < 64 -> 0 <= j < 64 -> abscissa i = abscissa j -> i = j.
Proof.
  intros Hi Hj E. apply (f_equal Z_of_byte) in E. unfold abscissa in E. rewrite !Z_of_byte_of_Z in E.
  rewrite !wrapu_small in E by (unfold fits; lia). lia.
Qed.

Section reversing.
Context `{KyberGroup}.

Definition gf_reencrypt (m : list (list point)) (beta : nat -> nat -> scalar) (k : point) : list (list point) :=
  imap (fun row l => imap (fun col p => padd p (pmul (beta row col) k)) (reverse l)) m.

Lemma gf_reencrypt_shape m beta k rows cols : rectangular rows cols m -> rectangular rows cols (gf_reencrypt m beta k).
Proof.
  intros [Hr Hc]. unfold gf_reencrypt. split; [by rewrite length_imap|].
  rewrite Forall_lookup in Hc |- *. intros i l. rewrite list_lookup_imap. destruct (m !! i) as [l'|] eqn:E; [|done].
  intros [= <-]. rewrite length_imap, length_reverse. by eapply Hc.
Qed.

Lemma gf_reencrypt_at m beta k rows cols row j i : rectangular rows cols m -> (row < rows)%nat ->
  reverse (seq 0 cols) !! j = Some i ->
  at_ (gf_reencrypt m beta k) row j = padd (at_ m row i) (pmul (beta row j) k).
Proof.
  intros [Hr Hc] Hrow Hj. apply reverse_lookup_Some in Hj as [Hj Hlt]. rewrite length_seq in Hj, Hlt.
  apply lookup_seq in Hj as [Hi Hb]. simpl in Hi. subst i.
  destruct (lookup_lt_is_Some_2 m row) as [l Hl]; [lia|].
  assert (length l = cols) as Hlen by (rewrite Forall_lookup in Hc; by eapply Hc).
  unfold at_, gf_reencrypt. rewrite list_lookup_imap, Hl. simpl. rewrite list_lookup_imap.
  destruct (lookup_lt_is_Some_2 l (cols - S j)) as [p Hp]; [lia|].
  assert (reverse l !! j = Some p) as -> by (apply reverse_lookup_Some; rewrite Hlen; by split). by rewrite Hp.
Qed.
End reversing.

Section instances.
#[local] Existing Instance gf_group.

Definition gf_recover (shares : list (Z * point)) (t n : Z) : option point :=
  if len shares <? t then None
  else Some (newton (Z.to_nat t) (map (fun s => (abscissa s.1, s.2)) shares)).

Definition gf_sharing : Sharing.
Proof.
  refine {| PriEval := fun a i => peval a (abscissa i); PubEval := fun a i => pteval a (abscissa i);
            RecoverCommit := gf_recover |}.
  - intros a i. apply pteval_commit.
  - intros shares t n _ _ _ Ht. unfold gf_recover. destruct (_ <? _) eqn:E; [reflect_bools; lia|done].
  - intros secret a p shares n Hn _ Hnd Hr Hl Hs. unfold gf_recover. destruct (_ <? _) eqn:E; [reflect_bools; lia|].
    rewrite Nat2Z.id. f_equal. rewrite (newton_correct (secret :: a) p).
    + by rewrite peval_0.
    + rewrite length_map. apply Nat2Z.inj_le. exact Hl.
    + rewrite map_map. cbn [fst]. rewrite <- (map_map fst abscissa). change (map ?f ?l) with (f <$> l) in Hnd |- *.
      apply (NoDup_fmap_2_strong abscissa); [|done]. intros i j Hi Hj. rewrite Forall_forall in Hr.
      apply list_elem_of_fmap in Hi as (si & -> & Hi), Hj as (sj & -> & Hj).
      apply Hr in Hi, Hj. apply abscissa_inj; lia.
    + apply Forall_map. exact Hs.
Defined.

(** A proof is the secret itself, checked directly. *)
Definition gf_rep_proofs : RepProofs.
Proof.
  refine {| rep_prove := fun _ _ w _ => Some [w];
            rep_verify := fun _ st proof => match proof with
              | [w] => bool_decide (Forall (fun s => fst s = pmul w (snd s)) st)
              | _ => false end |}.
  intros domain st w r Hst. exists [w]. split_and!; [done|done|]. by apply bool_decide_eq_true.
Defined.

(** A shuffle that reverses the columns and re-encrypts with the given bytes; its
    proof is those bytes. *)
Definition gf_beta (x : list (list point)) (bytes : list byte) (row col : nat) : byte :=
  default x00 (bytes !! (row * length (hd [] x) + col)%nat).
Definition gf_shuffle (h : point) (x y : list (list point)) (r : list byte) : list (list point) * list (list point) :=
  (gf_reencrypt x (gf_beta x r) Base, gf_reencrypt y (gf_beta x r) h).

Definition gf_shuffles : Shuffles.
Proof.
  refine {| SequencesShuffle := gf_shuffle;
    shuffle_prove := fun _ _ _ _ _ r => Some (x01 :: r);
    shuffle_verify := fun _ h x y x' y' _ proof => match proof with
      | x01 :: r => bool_decide ((x', y') = gf_shuffle h x y r)
      | _ => false end;
    pick_challenges := fun _ n => replicate n x01 |}.
  - intros h x y r rows cols Hx Hy. split; by apply gf_reencrypt_shape.
  - intros h x y r rows cols Hx Hy. exists (reverse (seq 0 cols)), (gf_beta x r).
    split; [by rewrite reverse_Permutation|]. intros row j i Hrow Hj.
    split; [exact (gf_reencrypt_at x _ Base _ _ _ _ _ Hx Hrow Hj)|exact (gf_reencrypt_at y _ h _ _ _ _ _ Hy Hrow Hj)].
  - intros domain h x y r cs rows cols _ _ Hx Hy _. exists (x01 :: r). split_and!; [done|done|].
    apply bool_decide_eq_true. by destruct (gf_shuffle h x y r).
  - intros seed n. apply length_replicate.
Defined.

Lemma gf_shuffle_sound domain h rows cols x y x' y' cs proof : rectangular rows cols x -> rectangular rows cols y ->
  @shuffle_sound _ gf_shuffles domain h rows cols x y x' y' cs proof.
Proof.
  intros Hx Hy E. cbn in E. destruct proof as [|[] r]; try done. apply bool_decide_eq_true in E.
  pose proof (@shuffle_reencrypts _ gf_shuffles h x y r rows cols Hx Hy) as Hs. cbn in Hs. unfold gf_shuffle in E. by simplify_eq.
Qed.

Lemma gf_rep_sound domain st proof : @rep_sound _ gf_rep_proofs domain st proof.
Proof. intros E. destruct proof as [|w [|]]; try done. simpl in E. exists w. by apply bool_decide_eq_true in E. Qed.
End instances.
