(* ===== verification/RLNC.v ===== *)
(** The random linear network coder ([components/nomad-rlnc/rlnc/rlnc.go]):
    splitting an object into source symbols, coding them with a coefficient
    vector, and re-encoding received symbols without decoding them.

    Randomness is an explicit argument: [draws] is the sequence of results of
    the calls of [crypto/rand.Read], each either the bytes read or [None] for
    an error. *)

From stdpp Require Import base list list_numbers.
From Stdlib Require Import ZArith Lia Strings.Byte.
From S2P Require Import Prelude Bytes GF256.

(** ** Definitions *)

Record Symbol := mkSymbol {
  Coeff : list byte;
  Data : list byte;
}.

Record Encoder := mkEncoder {
  source : list (list byte);
  original : Z;
  symbolSize : Z;
}.

Inductive rlnc_error :=
| ErrSymbolSize              (* symbolSize must be positive *)
| ErrEmptyData               (* data must not be empty *)
| ErrIndexRange              (* systematic index out of range *)
| ErrRandom                  (* the random source failed *)
| ErrNoDraws                 (* the given draws ran out *)
| ErrNoSymbols
| ErrEmptyDimensions
| ErrIncompatibleSymbols
| ErrZeroSpan                (* symbols span only the zero vector *)
| ErrReEncodeFailed          (* 64 attempts produced no non-zero symbol *)
| ErrInvalidDimensions
| ErrInsufficientSymbols
| ErrEmptySymbolData
| ErrDecoderDimensions       (* invalid decoder dimensions *)
| ErrOriginalSize            (* original size exceeds decoder capacity *)
| ErrSymbolDimensions        (* symbol dimensions do not match decoder *)
| ErrZeroCoefficients        (* zero coefficient vector *)
| ErrInconsistentSymbol
| ErrRankDeficient
| ErrBasisIncomplete.

Definition K (e : Encoder) : Z := len (source e).
Definition OriginalSize (e : Encoder) : Z := original e.
Definition SymbolSize (e : Encoder) : Z := symbolSize e.

(** Source symbol [i]: bytes [i*size .. ] of the object, zero-padded to the
    symbol size ([make] then [copy]). *)
Definition source_symbol (data : list byte) (size i : nat) : list byte :=
  let chunk := take size (drop (i * size) data) in
  chunk ++ replicate (size - length chunk) x00.

Definition NewEncoder (data : list byte) (symbolSize : Z) : result rlnc_error Encoder :=
  if symbolSize <=? 0 then Err ErrSymbolSize
  else if len data =? 0 then Err ErrEmptyData
  else
    let k := (len data + symbolSize - 1) / symbolSize in
    Ok (mkEncoder (map (source_symbol data (Z.to_nat symbolSize)) (seq 0 (Z.to_nat k)))
          (len data) symbolSize).

(** The coding loop, skipping zero coefficients. *)
Definition code_step (out : list byte) (cs : byte * list byte) : list byte :=
  if bool_decide (cs.1 = x00) then out else addScaled out cs.2 cs.1.

Definition encodeWith (e : Encoder) (coeff : list byte) : Symbol :=
  mkSymbol coeff
    (fold_left code_step (zip coeff (source e)) (replicate (Z.to_nat (symbolSize e)) x00)).

(** Draw until the coefficient vector is not zero. *)
Fixpoint Encode (e : Encoder) (draws : list (option (list byte))) : result rlnc_error Symbol :=
  match draws with
  | [] => Err ErrNoDraws
  | None :: _ => Err ErrRandom
  | Some coeff :: draws => if anyNonZero coeff then Ok (encodeWith e coeff) else Encode e draws
  end.

Definition unit_vector (k i : nat) : list byte := <[i := x01]> (replicate k x00).

Definition Systematic (e : Encoder) (i : Z) : result rlnc_error Symbol :=
  if (i <? 0) || (K e <=? i) then Err ErrIndexRange
  else Ok (encodeWith e (unit_vector (length (source e)) (Z.to_nat i))).

(** One attempt of [ReEncode] with the given weights. *)
Definition combine_symbols (symbols : list Symbol) (weights : list byte) (k size : nat) : Symbol :=
  mkSymbol
    (fold_left code_step (zip weights (map Coeff symbols)) (replicate k x00))
    (fold_left code_step (zip weights (map Data symbols)) (replicate size x00)).

Fixpoint reencode_attempts (attempts : nat) (symbols : list Symbol) (k size : nat)
  (draws : list (option (list byte))) : result rlnc_error Symbol :=
  match attempts with
  | O => Err ErrReEncodeFailed
  | S attempts =>
      match draws with
      | [] => Err ErrNoDraws
      | None :: _ => Err ErrRandom
      | Some weights :: draws =>
          if negb (anyNonZero weights) then reencode_attempts attempts symbols k size draws
          else
            let s := combine_symbols symbols weights k size in
            if anyNonZero (Coeff s) then Ok s
            else reencode_attempts attempts symbols k size draws
      end
  end.

Definition ReEncode (symbols : list Symbol) (draws : list (option (list byte)))
  : result rlnc_error Symbol :=
  match symbols with
  | [] => Err ErrNoSymbols
  | first :: _ =>
      let k := length (Coeff first) in
      let size := length (Data first) in
      if (Z.of_nat k =? 0) || (Z.of_nat size =? 0) then Err ErrEmptyDimensions
      else if existsb (fun s => negb (Nat.eqb (length (Coeff s)) k) ||
                                negb (Nat.eqb (length (Data s)) size)) symbols
      then Err ErrIncompatibleSymbols
      else if negb (existsb (fun s => anyNonZero (Coeff s)) symbols) then Err ErrZeroSpan
      else reencode_attempts 64 symbols k size draws
  end.

(** ** Vector algebra *)

Definition vadd (u v : list byte) : list byte := zip_with add u v.
Definition vscale (f : byte) (v : list byte) : list byte := map (mul f) v.
Definition zeros (n : nat) : list byte := replicate n x00.

Lemma addScaled_eq d s f : addScaled d s f = vadd d (vscale f s).
Proof. revert s. induction d as [|x d IH]; intros [|y s]; try done.
  unfold addScaled, vadd, vscale in *. simpl. by rewrite IH. Qed.

Lemma scale_eq v f : scale v f = vscale f v.
Proof. unfold scale, vscale. apply map_ext. intros. apply mul_comm. Qed.

Lemma length_vadd u v : length u = length v -> length (vadd u v) = length u.
Proof. intros. unfold vadd. rewrite length_zip_with. lia. Qed.
Lemma length_vscale f v : length (vscale f v) = length v.
Proof. apply length_map. Qed.
Lemma length_zeros n : length (zeros n) = n.
Proof. apply length_replicate. Qed.
#[export] Hint Rewrite length_vadd length_vscale length_zeros using congruence : gf.

Lemma vadd_comm u v : vadd u v = vadd v u.
Proof. revert v. induction u as [|x u IH]; intros [|y v]; try done.
  unfold vadd in *. simpl. rewrite IH. f_equal. apply bxor_comm. Qed.
Lemma vadd_assoc u v w : vadd u (vadd v w) = vadd (vadd u v) w.
Proof. revert v w. induction u as [|x u IH]; intros [|y v] [|z w]; try done.
  unfold vadd in *. simpl. rewrite IH. f_equal. apply bxor_assoc. Qed.
Lemma vadd_zeros_r u : vadd u (zeros (length u)) = u.
Proof. induction u as [|x u IH]; [done|]. unfold vadd, zeros in *. simpl. rewrite IH.
  f_equal. apply bxor_0_r. Qed.
Lemma vadd_zeros_l u : vadd (zeros (length u)) u = u.
Proof. rewrite vadd_comm. apply vadd_zeros_r. Qed.
Lemma vadd_diag u : vadd u u = zeros (length u).
Proof. induction u as [|x u IH]; [done|]. unfold vadd, zeros in *. simpl. rewrite IH.
  f_equal. apply bxor_diag. Qed.
Lemma vscale_vadd f u v : vscale f (vadd u v) = vadd (vscale f u) (vscale f v).
Proof. revert v. induction u as [|x u IH]; intros [|y v]; try done.
  unfold vadd, vscale in *. simpl. rewrite IH. f_equal. apply mul_add_r. Qed.
Lemma vscale_vscale f g v : vscale f (vscale g v) = vscale (mul f g) v.
Proof. unfold vscale. rewrite map_map. apply map_ext. intros. by rewrite mul_assoc. Qed.
Lemma vscale_1 v : vscale x01 v = v.
Proof. unfold vscale. rewrite <- (map_id v) at 2. apply map_ext, mul_1_l. Qed.
Lemma vscale_0 v : vscale x00 v = zeros (length v).
Proof. induction v as [|x v IH]; [done|]. unfold vscale, zeros in *. simpl. by rewrite IH, mul_0_l. Qed.
Lemma vscale_zeros f n : vscale f (zeros n) = zeros n.
Proof. induction n as [|n IH]; [done|]. unfold vscale, zeros in *. simpl. by rewrite IH, mul_0_r. Qed.
Lemma vscale_add_l f g v : vscale (add f g) v = vadd (vscale f v) (vscale g v).
Proof. induction v as [|x v IH]; [done|]. unfold vscale, vadd in *. simpl. rewrite IH.
  f_equal. apply mul_add_l. Qed.

Lemma vadd_app u1 u2 v1 v2 : length u1 = length v1 ->
  vadd (u1 ++ u2) (v1 ++ v2) = vadd u1 v1 ++ vadd u2 v2.
Proof. intros. by apply zip_with_app. Qed.
Lemma vscale_app f u v : vscale f (u ++ v) = vscale f u ++ vscale f v.
Proof. apply map_app. Qed.

Lemma vadd_swap a b c d : vadd (vadd a b) (vadd c d) = vadd (vadd a c) (vadd b d).
Proof.
  rewrite <- !vadd_assoc. f_equal. rewrite !vadd_assoc. f_equal. apply vadd_comm.
Qed.

Lemma zeros_app m n : zeros (m + n) = zeros m ++ zeros n.
Proof. apply replicate_add. Qed.

(** Reading a coordinate; out of range reads as zero. *)
Notation "v .[ i ]" := (nth i v x00) (at level 1, format "v .[ i ]").

Lemma nth_vadd u v i : length u = length v -> (vadd u v).[i] = add u.[i] v.[i].
Proof.
  revert v i. induction u as [|x u IH]; intros [|y v] i Hl; simpl in *; try lia.
  - by destruct i.
  - destruct i; [done|]. apply IH. lia.
Qed.
Lemma nth_vscale f v i : (vscale f v).[i] = mul f v.[i].
Proof.
  revert i. induction v as [|x v IH]; intros [|i]; simpl; rewrite ?mul_0_r; auto.
Qed.
Lemma nth_zeros n i : (zeros n).[i] = x00.
Proof. revert i. induction n as [|n IH]; intros [|i]; try done. apply IH. Qed.

Lemma vec_ext u v : length u = length v -> (forall i, (i < length u)%nat -> u.[i] = v.[i]) -> u = v.
Proof. intros Hl Hi. by apply (nth_ext _ _ x00 x00). Qed.

Lemma anyNonZero_false v : anyNonZero v = false <-> v = zeros (length v).
Proof.
  induction v as [|x v IH]; [done|]. simpl. rewrite orb_false_iff, IH. unfold zeros. simpl. split.
  - intros [Hx Hv]. reflect_bools. congruence.
  - intros [= -> Hv]. by split.
Qed.

Lemma anyNonZero_zeros n : anyNonZero (zeros n) = false.
Proof. apply anyNonZero_false. by rewrite length_zeros. Qed.

Lemma length_unit k i : length (unit_vector k i) = k.
Proof. unfold unit_vector. by rewrite length_insert, length_replicate. Qed.

Lemma nth_unit k i j : (i < k)%nat ->
  (unit_vector k i).[j] = if Nat.eqb i j then x01 else x00.
Proof.
  intros Hi. unfold unit_vector. revert i j Hi.
  induction k as [|k IH]; intros [|i] [|j] Hi; simpl; try lia; try done.
  - apply (nth_zeros k).
  - apply IH. lia.
Qed.

(** ** Linear combinations *)

Fixpoint comb (m : nat) (cs : list byte) (vs : list (list byte)) : list byte :=
  match cs, vs with
  | c :: cs, v :: vs => vadd (vscale c v) (comb m cs vs)
  | _, _ => zeros m
  end.

Definition vectors (m : nat) (vs : list (list byte)) : Prop := Forall (fun v => length v = m) vs.

Lemma length_comb m cs vs : vectors m vs -> length (comb m cs vs) = m.
Proof.
  intros Hv. revert cs. induction Hv as [|v vs Hl Hv IH]; intros [|c cs]; simpl;
    rewrite ?length_zeros; try done.
  rewrite length_vadd; rewrite length_vscale, ?IH; done.
Qed.

(** The code's accumulating loop computes the linear combination. *)
Lemma fold_code m cs vs acc : vectors m vs -> length acc = m ->
  fold_left code_step (zip cs vs) acc = vadd acc (comb m cs vs).
Proof.
  intros Hv. revert cs acc. induction Hv as [|v vs Hl Hv IH]; intros [|c cs] acc Ha; simpl;
    try (by rewrite <- Ha, vadd_zeros_r).
  unfold code_step at 2. simpl. case_bool_decide as Hc.
  - rewrite IH by done. subst c. rewrite vscale_0, Hl.
    rewrite <- (length_comb m cs vs Hv) at 2. by rewrite vadd_zeros_l.
  - rewrite IH, addScaled_eq, vadd_assoc; [done|].
    rewrite addScaled_eq, length_vadd; rewrite ?length_vscale; lia.
Qed.

Lemma fold_code_zeros m cs vs : vectors m vs ->
  fold_left code_step (zip cs vs) (replicate m x00) = comb m cs vs.
Proof.
  intros Hv. rewrite (fold_code m) by (done || apply length_replicate).
  change (replicate m x00) with (zeros m).
  rewrite <- (length_comb m cs vs Hv) at 1. apply vadd_zeros_l.
Qed.

Lemma comb_vadd m cs ds vs : vectors m vs -> length cs = length vs -> length ds = length vs ->
  comb m (vadd cs ds) vs = vadd (comb m cs vs) (comb m ds vs).
Proof.
  intros Hv. revert cs ds. induction Hv as [|v vs Hl Hv IH]; intros [|c cs] [|d ds] Hc Hd;
    simpl in *; try lia.
  - by rewrite vadd_diag, length_zeros.
  - change (zip_with add cs ds) with (vadd cs ds). rewrite IH by lia.
    rewrite vscale_add_l. apply vadd_swap.
Qed.

Lemma comb_vscale m f cs vs : comb m (vscale f cs) vs = vscale f (comb m cs vs).
Proof.
  revert vs. induction cs as [|c cs IH]; intros [|v vs]; simpl; rewrite ?vscale_zeros; try done.
  change (map (mul f) cs) with (vscale f cs). by rewrite IH, vscale_vadd, vscale_vscale.
Qed.

Lemma comb_zeros m n vs : vectors m vs -> comb m (zeros n) vs = zeros m.
Proof.
  intros Hv. revert n. induction Hv as [|v vs Hl Hv IH]; intros [|n]; simpl; try done.
  change (replicate n x00) with (zeros n). rewrite IH, vscale_0, Hl.
  by rewrite vadd_diag, length_zeros.
Qed.

Lemma comb_unit m vs i : vectors m vs -> (i < length vs)%nat ->
  comb m (unit_vector (length vs) i) vs = nth i vs [].
Proof.
  intros Hv. revert i. induction Hv as [|v vs Hl Hv IH]; intros [|i] Hi; simpl in *; try lia.
  - change (replicate (length vs) x00) with (zeros (length vs)).
    rewrite comb_zeros by done. rewrite vscale_1, <- Hl. apply vadd_zeros_r.
  - change (<[i:=x01]> (replicate (length vs) x00)) with (unit_vector (length vs) i).
    rewrite IH by lia. rewrite vscale_0, Hl.
    assert (length (nth i vs []) = m) as Hn.
    { unfold vectors in Hv. rewrite Forall_forall in Hv. apply Hv.
      apply list_elem_of_In, nth_In. lia. }
    rewrite <- Hn. apply vadd_zeros_l.
Qed.

(** ** Source symbols *)

Definition encoder_wf (e : Encoder) : Prop :=
  0 < symbolSize e /\ vectors (Z.to_nat (symbolSize e)) (source e) /\ 0 < K e /\
  0 < original e <= K e * symbolSize e.

Lemma length_source_symbol data size i : length (source_symbol data size i) = size.
Proof.
  unfold source_symbol. rewrite length_app, length_replicate, length_take. lia.
Qed.

(** Concatenating the source symbols gives the object and its padding. *)
Lemma concat_sources data size n : (0 < size)%nat ->
  exists pad, concat (map (source_symbol data size) (seq 0 n)) =
              take (n * size) data ++ replicate pad x00.
Proof.
  intros Hs. induction n as [|n [pad IH]]; [by exists 0%nat|].
  rewrite seq_S, map_app, concat_app, IH. simpl. rewrite app_nil_r.
  unfold source_symbol.
  destruct (decide (length data <= n * size)%nat) as [Hle|Hgt].
  - rewrite drop_ge, take_nil by done. simpl.
    rewrite !take_ge by lia. exists (pad + (size - 0))%nat.
    by rewrite <- app_assoc, <- replicate_add.
  - assert (take (n * size) data ++ replicate pad x00 = take (n * size) data) as ->.
    { assert (length (take (n * size) data ++ replicate pad x00) = n * size)%nat as Hl.
      { rewrite <- IH, length_concat, map_map.
        assert (forall l, list_sum (map (fun x => length (source_symbol data size x)) l) = length l * size)%nat as Hsum.
        { induction l as [|x l IHl]; simpl; [done|]. rewrite IHl, length_source_symbol. lia. }
        by rewrite Hsum, length_seq. }
      rewrite length_app, length_take, length_replicate in Hl.
      assert (pad = 0)%nat as -> by lia. by rewrite app_nil_r. }
    exists (size - length (take size (drop (n * size) data)))%nat.
    rewrite app_assoc. f_equal. rewrite take_drop_commute.
    replace (size + n * size)%nat with (n * size + size)%nat by lia.
    rewrite <- (take_drop (n * size) (take (n * size + size) data)) at 2.
    rewrite take_take. f_equal. f_equal. lia.
Qed.

Lemma NewEncoder_wf data size e : NewEncoder data size = Ok e ->
  encoder_wf e /\ original e = len data /\
  take (Z.to_nat (original e)) (concat (source e)) = data.
Proof.
  unfold NewEncoder. intros H. run_guards H. simpl.
  set (k := (len data + size - 1) / size).
  assert (len data <= k * size /\ 0 < k) as [Hk Hkp].
  { pose proof (Z.div_mod (len data + size - 1) size ltac:(lia)).
    pose proof (Z.mod_pos_bound (len data + size - 1) size ltac:(lia)). fold k in H. nia. }
  split_and!.
  - unfold encoder_wf, K. simpl. rewrite length_map, length_seq, Z2Nat.id by lia.
    split_and!; try lia. unfold vectors. rewrite Forall_map. apply Forall_true.
    intros. apply length_source_symbol.
  - done.
  - destruct (concat_sources data (Z.to_nat size) (Z.to_nat k)) as [pad ->]; [lia|].
    rewrite Nat2Z.id, (take_ge data) by nia. apply take_app_length.
Qed.

Lemma encodeWith_comb e c : encoder_wf e ->
  encodeWith e c = mkSymbol c (comb (Z.to_nat (symbolSize e)) c (source e)).
Proof. intros (_ & Hv & _). unfold encodeWith. by rewrite fold_code_zeros. Qed.
