(* ===== verification/Decoder.v ===== *)
(** The incremental decoder of the erasure code
    ([components/nomad-rlnc/rlnc/decoder.go] and [Decode] of [rlnc.go]): a
    basis kept in reduced row-echelon form while coded symbols arrive.

    A row is the coefficient vector followed by the coded data. *)

From stdpp Require Import base list list_numbers.
From Stdlib Require Import ZArith Lia Strings.Byte.
From S2P Require Import Prelude Bytes GF256 RLNC.

(** ** Definitions *)

Record Decoder := mkDecoder {
  dk : Z;
  dsymbolSize : Z;
  doriginalSize : Z;
  basis : list (option (list byte));
  rank : Z;
}.

Definition NewDecoder (k symbolSize originalSize : Z) : result rlnc_error Decoder :=
  if (k <=? 0) || (symbolSize <=? 0) || (originalSize <=? 0) then Err ErrDecoderDimensions
  else
    let capacity := u64 (k * symbolSize) in
    if capacity <? originalSize then Err ErrOriginalSize
    else Ok (mkDecoder k symbolSize originalSize (replicate (Z.to_nat k) None) 0).

Definition Ready (d : Decoder) : bool := rank d =? dk d.

(** [d.basis[col]]. *)
Definition row_at (b : list (option (list byte))) (col : nat) : option (list byte) :=
  nth col b None.

(** The first loop of [Add]: reduce against every existing pivot. *)
Definition reduce_step (b : list (option (list byte))) (row : list byte) (col : nat) : list byte :=
  if bool_decide (row.[col] = x00) then row
  else match row_at b col with
       | Some pivot => addScaled row pivot row.[col]
       | None => row
       end.
Definition reduce (b : list (option (list byte))) (k : nat) (row : list byte) : list byte :=
  fold_left (reduce_step b) (seq 0 k) row.

(** The second loop's search for the new row's pivot column. *)
Definition find_pivot (k : nat) (row : list byte) : option nat :=
  find (fun col => negb (bool_decide (row.[col] = x00))) (seq 0 k).

(** Clearing the new pivot's column from one existing row. *)
Definition clear_column (col : nat) (row : list byte) (existing : option (list byte))
  : option (list byte) :=
  match existing with
  | Some e => if bool_decide (e.[col] = x00) then Some e else Some (addScaled e row e.[col])
  | None => None
  end.

(** [Add] returns the decoder it leaves and the method's result; a panic of
    [inv] would be [Err ErrBasisIncomplete] here; the branch is never taken,
    because [inv] is total on the non-zero pivot ([inv_total]). *)
Definition Add (d : Decoder) (symbol : Symbol) : Decoder * result rlnc_error bool :=
  if negb (len (Coeff symbol) =? dk d) || negb (len (Data symbol) =? dsymbolSize d)
  then (d, Err ErrSymbolDimensions)
  else if negb (anyNonZero (Coeff symbol)) then (d, Err ErrZeroCoefficients)
  else
    let k := Z.to_nat (dk d) in
    let row := reduce (basis d) k (Coeff symbol ++ Data symbol) in
    match find_pivot k row with
    | Some col =>
        match inv row.[col] with
        | None => (d, Err ErrBasisIncomplete)
        | Some factor =>
            let row := scale row factor in
            let b := map (clear_column col row) (basis d) in
            (mkDecoder (dk d) (dsymbolSize d) (doriginalSize d)
               (<[col := Some row]> b) (rank d + 1), Ok true)
        end
    | None =>
        if anyNonZero (drop k row) then (d, Err ErrInconsistentSymbol) else (d, Ok false)
    end.

(** The loop of [Decode]: row [i] must exist with a leading one. *)
Fixpoint decode_rows (k i : nat) (b : list (option (list byte))) : result rlnc_error (list byte) :=
  match b with
  | [] => Ok []
  | None :: _ => Err ErrBasisIncomplete
  | Some row :: rest =>
      if bool_decide (row.[i] = x01)
      then out ← decode_rows k (S i) rest; Ok (drop k row ++ out)
      else Err ErrBasisIncomplete
  end.

Definition DecoderDecode (d : Decoder) : result rlnc_error (list byte) :=
  if negb (Ready d) then Err ErrRankDeficient
  else out ← decode_rows (Z.to_nat (dk d)) 0 (basis d);
       Ok (take (Z.to_nat (doriginalSize d)) out).

(** Feed symbols in order, stopping at the first error, as [Decode] does. *)
Fixpoint add_all (d : Decoder) (symbols : list Symbol) : result rlnc_error Decoder :=
  match symbols with
  | [] => Ok d
  | s :: rest => match Add d s with
                 | (d', Ok _) => add_all d' rest
                 | (_, Err e) => Err e
                 end
  end.

Definition Decode (symbols : list Symbol) (k originalSize : Z) : result rlnc_error (list byte) :=
  if (k <=? 0) || (originalSize <=? 0) then Err ErrInvalidDimensions
  else if len symbols <? k then Err ErrInsufficientSymbols
  else
    let size := match symbols with s :: _ => len (Data s) | [] => 0 end in
    if size =? 0 then Err ErrEmptySymbolData
    else d ← NewDecoder k size originalSize;
         d ← add_all d symbols;
         DecoderDecode d.

(** ** Reduction *)

(** The basis invariant: every row is as wide as the generation, has a one at
    its own pivot and zeros at all others: reduced row-echelon form. *)
Definition rref (k n : nat) (b : list (option (list byte))) : Prop :=
  length b = k /\
  forall p r, row_at b p = Some r ->
    length r = n /\ r.[p] = x01 /\
    (forall q r', row_at b q = Some r' -> q <> p -> r.[q] = x00).

Lemma row_at_lt b p r : row_at b p = Some r -> (p < length b)%nat.
Proof.
  unfold row_at. intros H. destruct (decide (p < length b)%nat); [done|].
  rewrite nth_overflow in H by lia. done.
Qed.

Section reduction.
Context (k n : nat) (b : list (option (list byte))) (Hb : rref k n b).

(** Whether or not the column is zero, the step adds the pivot row scaled by
    the column's entry. *)
Lemma reduce_step_eq x col : length x = n ->
  reduce_step b x col =
  match row_at b col with Some r => vadd x (vscale x.[col] r) | None => x end.
Proof.
  intros Hx. unfold reduce_step. destruct (row_at b col) as [r|] eqn:Hr; [|by case_bool_decide].
  destruct (proj2 Hb col r Hr) as (Hlr & _).
  case_bool_decide as Hc; [|by rewrite addScaled_eq].
  rewrite Hc, vscale_0, Hlr, <- Hx. by rewrite vadd_zeros_r.
Qed.

Lemma length_reduce_step x col : length x = n -> length (reduce_step b x col) = n.
Proof.
  intros Hx. rewrite reduce_step_eq by done. destruct (row_at b col) as [r|] eqn:Hr; [|done].
  destruct (proj2 Hb col r Hr) as (Hlr & _). rewrite length_vadd; rewrite ?length_vscale; lia.
Qed.

Lemma reduce_step_linear f x y col : length x = n -> length y = n ->
  reduce_step b (vadd x (vscale f y)) col =
  vadd (reduce_step b x col) (vscale f (reduce_step b y col)).
Proof.
  intros Hx Hy.
  assert (length (vadd x (vscale f y)) = n) by (rewrite length_vadd; rewrite ?length_vscale; lia).
  rewrite !reduce_step_eq by done. destruct (row_at b col) as [r|]; [|done].
  rewrite nth_vadd, nth_vscale by (rewrite length_vscale; lia).
  rewrite vscale_add_l, vscale_vadd, vscale_vscale. apply vadd_swap.
Qed.

Lemma fold_reduce_linear cols f x y : length x = n -> length y = n ->
  fold_left (reduce_step b) cols (vadd x (vscale f y)) =
  vadd (fold_left (reduce_step b) cols x) (vscale f (fold_left (reduce_step b) cols y)).
Proof.
  revert x y. induction cols as [|c cols IH]; intros x y Hx Hy; simpl; [done|].
  rewrite reduce_step_linear, IH by auto using length_reduce_step. done.
Qed.

Lemma length_fold_reduce cols x : length x = n -> length (fold_left (reduce_step b) cols x) = n.
Proof.
  revert x. induction cols as [|c cols IH]; intros x Hx; simpl; [done|].
  by apply IH, length_reduce_step.
Qed.

Lemma length_reduce x : length x = n -> length (reduce b k x) = n.
Proof. apply length_fold_reduce. Qed.

(** After the loop every pivot column is zero. *)
Lemma fold_reduce_pivot cols x p r : length x = n -> row_at b p = Some r ->
  p ∈ cols \/ x.[p] = x00 -> (fold_left (reduce_step b) cols x).[p] = x00.
Proof.
  intros Hx Hp. revert x Hx. induction cols as [|c cols IH]; intros x Hx Hor; simpl.
  { destruct Hor as [Hin|]; [by apply elem_of_nil in Hin|done]. }
  apply IH; [by apply length_reduce_step|].
  destruct (decide (p = c)) as [->|Hne].
  - right. rewrite reduce_step_eq, Hp by done.
    destruct (proj2 Hb c r Hp) as (Hlr & H1 & _).
    rewrite nth_vadd, nth_vscale, H1, mul_1_r by (rewrite length_vscale; lia). apply bxor_diag.
  - destruct Hor as [Hin|H0]; [left; apply elem_of_cons in Hin as [?|?]; done|right].
    rewrite reduce_step_eq by done. destruct (row_at b c) as [r'|] eqn:Hc; [|done].
    destruct (proj2 Hb c r' Hc) as (Hlr & _ & Hz).
    rewrite nth_vadd, nth_vscale, (Hz p r Hp Hne), mul_0_r, H0 by (rewrite length_vscale; lia).
    done.
Qed.

Lemma reduce_pivot x p r : length x = n -> row_at b p = Some r -> (reduce b k x).[p] = x00.
Proof.
  intros Hx Hp. apply (fold_reduce_pivot _ x p r); [done..|]. left.
  apply list_elem_of_In, in_seq. pose proof (row_at_lt b p r Hp). destruct Hb. lia.
Qed.

(** Reduction stays inside any linear set that holds the row and the basis. *)
Lemma reduce_in (V : list byte -> Prop) x :
  (forall u v f, V u -> V v -> length u = n -> length v = n -> V (vadd u (vscale f v))) ->
  (forall p r, row_at b p = Some r -> V r) -> length x = n -> V x -> V (reduce b k x).
Proof.
  intros Hlin Hrows. unfold reduce. generalize (seq 0 k). intros cols. revert x.
  induction cols as [|c cols IH]; intros x Hl Hx; simpl; [done|].
  apply IH; [by apply length_reduce_step|].
  rewrite reduce_step_eq by done. destruct (row_at b c) as [r|] eqn:Hc; [|done].
  apply Hlin; eauto. by destruct (proj2 Hb c r Hc).
Qed.

(** A row that is zero at every pivot is not changed by reduction. *)
Lemma reduce_id x : length x = n -> (forall p r, row_at b p = Some r -> x.[p] = x00) ->
  reduce b k x = x.
Proof.
  intros Hx Hz. unfold reduce. generalize (seq 0 k). intros cols.
  induction cols as [|c cols IH]; simpl; [done|].
  rewrite reduce_step_eq by done. destruct (row_at b c) as [r|] eqn:Hc; [|done].
  destruct (proj2 Hb c r Hc) as (Hlr & _).
  rewrite (Hz c r Hc), vscale_0, Hlr, <- Hx, vadd_zeros_r. exact IH.
Qed.

Lemma fold_reduce_zeros cols : fold_left (reduce_step b) cols (zeros n) = zeros n.
Proof.
  induction cols as [|c cols IH]; simpl; [done|].
  rewrite reduce_step_eq by apply length_zeros. destruct (row_at b c) as [r|] eqn:Hc; [|done].
  destruct (proj2 Hb c r Hc) as (Hlr & _).
  rewrite nth_zeros, vscale_0, Hlr, vadd_diag, length_zeros. done.
Qed.

(** A basis row reduces to zero. *)
Lemma reduce_row p r : row_at b p = Some r -> reduce b k r = zeros n.
Proof.
  intros Hp. destruct (proj2 Hb p r Hp) as (Hlr & H1 & Hz).
  assert (p < k)%nat as Hpk by (pose proof (row_at_lt b p r Hp); destruct Hb; lia).
  unfold reduce.
  replace (seq 0 k) with (seq 0 p ++ p :: seq (S p) (k - S p)).
  2: { change (p :: seq (S p) (k - S p)) with (seq p (S (k - S p))).
       rewrite <- seq_app. f_equal. lia. }
  rewrite fold_left_app. simpl.
  assert (forall cols, Forall (fun c => c <> p) cols -> fold_left (reduce_step b) cols r = r) as Hid.
  { induction cols as [|c cols IH]; intros Hc; simpl; [done|]. split_forall.
    rewrite reduce_step_eq by done. destruct (row_at b c) as [r'|] eqn:Hr'; [|auto].
    destruct (proj2 Hb c r' Hr') as (Hlr' & _).
    rewrite (Hz c r' Hr') by done. rewrite vscale_0, Hlr', <- Hlr, vadd_zeros_r. auto. }
  rewrite Hid.
  2: { apply Forall_forall. intros c Hc%list_elem_of_In%in_seq. lia. }
  rewrite reduce_step_eq, Hp, H1, vscale_1, vadd_diag, Hlr by done.
  apply fold_reduce_zeros.
Qed.
End reduction.

(** ** Inserting a pivot *)

(** The number of rows present. *)
Fixpoint count_rows (b : list (option (list byte))) : nat :=
  match b with
  | [] => 0
  | Some _ :: b => S (count_rows b)
  | None :: b => count_rows b
  end.

Lemma count_rows_le b : (count_rows b <= length b)%nat.
Proof. induction b as [|[r|] b IH]; simpl; lia. Qed.

Lemma count_rows_full b : count_rows b = length b -> forall p, (p < length b)%nat ->
  exists r, row_at b p = Some r.
Proof.
  induction b as [|[r|] b IH]; simpl; intros Hc p Hp; [lia| |].
  - destruct p as [|p]; [by exists r|]. apply IH; lia.
  - pose proof (count_rows_le b). lia.
Qed.

Lemma count_rows_missing b : (count_rows b < length b)%nat -> exists p,
  (p < length b)%nat /\ row_at b p = None.
Proof.
  induction b as [|[r|] b IH]; simpl; intros Hc; [lia| |].
  - destruct IH as (p & Hp & Hr); [lia|]. exists (S p). split; [lia|done].
  - exists 0%nat. split; [lia|done].
Qed.

Lemma count_rows_map f b : (forall o, is_Some (f o) <-> is_Some o) -> count_rows (map f b) = count_rows b.
Proof.
  intros Hf. induction b as [|o b IH]; simpl; [done|]. rewrite IH.
  destruct o as [r|].
  - destruct (proj2 (Hf (Some r)) ltac:(eauto)) as [x ->]. done.
  - destruct (f None) eqn:E; [|done]. destruct (proj1 (Hf None)) as [? ?]; [by rewrite E|done].
Qed.

Lemma count_rows_insert b p r : (p < length b)%nat -> row_at b p = None ->
  count_rows (<[p := Some r]> b) = S (count_rows b).
Proof.
  revert p. induction b as [|o b IH]; intros [|p] Hp Hr; simpl in *; try lia.
  - unfold row_at in Hr. simpl in Hr. by subst.
  - rewrite IH by (lia || done). by destruct o.
Qed.

Lemma row_at_insert b p q r : (p < length b)%nat ->
  row_at (<[p := Some r]> b) q = if Nat.eqb p q then Some r else row_at b q.
Proof.
  unfold row_at. revert p q. induction b as [|o b IH]; intros [|p] [|q] Hp; simpl in *; try lia; try done.
  apply IH. lia.
Qed.

Lemma row_at_map f b q : f None = None -> row_at (map f b) q = f (row_at b q).
Proof. intros Hf. unfold row_at. rewrite <- Hf at 1. apply map_nth. Qed.

Lemma clear_column_some col row o : is_Some (clear_column col row o) <-> is_Some o.
Proof. unfold clear_column. destruct o; [case_bool_decide|]; split; intros [? ?]; eauto. Qed.

Section insert.
Context (k n : nat) (b : list (option (list byte))) (Hb : rref k n b).
Context (col : nat) (row : list byte) (Hcol : (col < k)%nat) (Hlen : length row = n)
  (H1 : row.[col] = x01) (Hz : forall p r, row_at b p = Some r -> row.[p] = x00).

Lemma new_pivot_free : row_at b col = None.
Proof.
  destruct (row_at b col) as [r|] eqn:E; [|done]. apply Hz in E. by rewrite H1 in E.
Qed.

Lemma clear_column_eq p r : row_at b p = Some r ->
  clear_column col row (Some r) = Some (vadd r (vscale r.[col] row)).
Proof.
  intros Hr. destruct (proj2 Hb p r Hr) as (Hlr & _). simpl. case_bool_decide as Hc.
  - by rewrite Hc, vscale_0, Hlen, <- Hlr, vadd_zeros_r.
  - by rewrite addScaled_eq.
Qed.

Definition inserted : list (option (list byte)) := <[col := Some row]> (map (clear_column col row) b).

Lemma row_at_inserted q : row_at inserted q =
  if Nat.eqb col q then Some row else clear_column col row (row_at b q).
Proof.
  unfold inserted. destruct Hb as [Hk _].
  rewrite row_at_insert by (rewrite length_map; lia). by rewrite row_at_map.
Qed.

Lemma row_at_inserted_old q r : row_at inserted q = Some r -> q <> col ->
  exists e, row_at b q = Some e /\ r = vadd e (vscale e.[col] row).
Proof.
  rewrite row_at_inserted. intros Hr Hq. rewrite (proj2 (Nat.eqb_neq _ _)) in Hr by done.
  destruct (row_at b q) as [e|] eqn:He; [|done].
  rewrite (clear_column_eq q e He) in Hr. exists e. split; [done|]. by injection Hr.
Qed.

Lemma inserted_rref : rref k n inserted.
Proof.
  split. { unfold inserted. rewrite length_insert, length_map. by destruct Hb. }
  intros p r Hr. destruct (decide (p = col)) as [->|Hp].
  - rewrite row_at_inserted, Nat.eqb_refl in Hr. injection Hr as <-.
    split_and!; [done..|]. intros q r' Hr' Hq.
    apply row_at_inserted_old in Hr' as (e & He & _); eauto.
  - apply row_at_inserted_old in Hr as (e & He & ->); [|done].
    destruct (proj2 Hb p e He) as (Hle & He1 & Hez).
    split_and!.
    + rewrite length_vadd; rewrite ?length_vscale; lia.
    + rewrite nth_vadd, nth_vscale, He1, (Hz p e He), mul_0_r by (rewrite length_vscale; lia). done.
    + intros q r' Hr' Hq.
      rewrite nth_vadd, nth_vscale by (rewrite length_vscale; lia).
      destruct (decide (q = col)) as [->|Hqc].
      * rewrite H1, mul_1_r. apply bxor_diag.
      * apply row_at_inserted_old in Hr' as (e' & He' & _); [|done].
        rewrite (Hez q e' He' Hq), (Hz q e' He'), mul_0_r. done.
Qed.

Lemma inserted_count : count_rows inserted = S (count_rows b).
Proof.
  unfold inserted. destruct Hb as [Hk _].
  rewrite count_rows_insert.
  - by rewrite count_rows_map by apply clear_column_some.
  - rewrite length_map. lia.
  - rewrite row_at_map by done. by rewrite new_pivot_free.
Qed.

(** The rows stay inside any linear set that holds them. *)
Lemma inserted_in (V : list byte -> Prop) :
  (forall u v f, V u -> V v -> length u = n -> length v = n -> V (vadd u (vscale f v))) ->
  (forall p r, row_at b p = Some r -> V r) -> V row ->
  forall p r, row_at inserted p = Some r -> V r.
Proof.
  intros Hlin Hrows Hrow p r Hr. destruct (decide (p = col)) as [->|Hp].
  - rewrite row_at_inserted, Nat.eqb_refl in Hr. by injection Hr as <-.
  - apply row_at_inserted_old in Hr as (e & He & ->); [|done].
    apply Hlin; eauto. by destruct (proj2 Hb p e He).
Qed.
End insert.

(** ** The decoder invariant *)

Definition width (d : Decoder) : nat := (Z.to_nat (dk d) + Z.to_nat (dsymbolSize d))%nat.

Definition decoder_wf (d : Decoder) : Prop :=
  0 < dk d /\ 0 < dsymbolSize d /\ 0 < doriginalSize d <= dk d * dsymbolSize d /\
  rref (Z.to_nat (dk d)) (width d) (basis d) /\ rank d = Z.of_nat (count_rows (basis d)).

Lemma NewDecoder_wf k s o d : NewDecoder k s o = Ok d -> decoder_wf d /\
  dk d = k /\ dsymbolSize d = s /\ doriginalSize d = o /\ (forall p, row_at (basis d) p = None).
Proof.
  unfold NewDecoder. intros H. run_guards H. unfold decoder_wf, width. simpl.
  assert (forall p, row_at (replicate (Z.to_nat k) None) p = None) as Hn.
  { intros p. unfold row_at. generalize (Z.to_nat k) as m. intros m. revert p.
    induction m as [|m IH]; intros [|p]; simpl; auto. }
  assert (u64 (k * s) <= k * s) by (unfold wrapu; apply Z.mod_le; nia).
  split_and!; try lia; try done.
  - split; [by rewrite length_replicate|]. intros p r Hr. by rewrite Hn in Hr.
  - generalize (Z.to_nat k) as m. intros m. induction m; simpl; lia.
Qed.

Lemma find_pivot_some k row col : find_pivot k row = Some col -> (col < k)%nat /\ row.[col] <> x00.
Proof.
  unfold find_pivot. intros H. apply find_some in H as [Hin Hb]. apply in_seq in Hin.
  reflect_bools. split; [lia|done].
Qed.

Lemma find_pivot_none k row : find_pivot k row = None -> forall col, (col < k)%nat -> row.[col] = x00.
Proof.
  unfold find_pivot. intros H col Hc. pose proof (find_none _ _ H col) as Hf.
  rewrite in_seq in Hf. specialize (Hf ltac:(lia)). by reflect_bools.
Qed.

(** The row [Add] works on, once its dimensions are checked. *)
Definition symbol_row (s : Symbol) : list byte := Coeff s ++ Data s.

Definition fits_decoder (d : Decoder) (s : Symbol) : Prop :=
  len (Coeff s) = dk d /\ len (Data s) = dsymbolSize d.

Lemma length_symbol_row d s : fits_decoder d s -> length (symbol_row s) = width d.
Proof. intros [Hc Hd]. unfold symbol_row, width. rewrite length_app. lia. Qed.

(** What [Add] does when it succeeds, case by case. *)
Lemma Add_cases d s d' r : decoder_wf d -> Add d s = (d', Ok r) ->
  fits_decoder d s /\
  let row := reduce (basis d) (Z.to_nat (dk d)) (symbol_row s) in
  if r then
    exists col factor,
      (col < Z.to_nat (dk d))%nat /\ row_at (basis d) col = None /\ mul row.[col] factor = x01 /\
      (vscale factor row).[col] = x01 /\
      (forall p e, row_at (basis d) p = Some e -> (vscale factor row).[p] = x00) /\
      d' = mkDecoder (dk d) (dsymbolSize d) (doriginalSize d)
             (inserted (basis d) col (vscale factor row)) (rank d + 1)
  else d' = d /\ row = zeros (width d).
Proof.
  intros (Hk & Hs & _ & Hb & Hr) H. unfold Add in H.
  destruct (negb _ || negb _) eqn:Edim; [done|]. reflect_bools.
  destruct (negb (anyNonZero (Coeff s))) eqn:Ez; [done|].
  assert (fits_decoder d s) as Hf by done. split; [done|].
  pose proof (length_symbol_row d s Hf) as Hl. unfold symbol_row in *. cbv zeta in *.
  set (row := reduce (basis d) (Z.to_nat (dk d)) (Coeff s ++ Data s)) in *.
  assert (length row = width d) as Hlr by (apply (length_reduce _ _ _ Hb); done).
  destruct (find_pivot (Z.to_nat (dk d)) row) as [col|] eqn:Ep.
  - apply find_pivot_some in Ep as [Hc Hne].
    destruct (inv row.[col]) as [factor|] eqn:Ei; [|done].
    apply mul_inv in Ei. injection H as <- <-. rewrite scale_eq.
    assert ((vscale factor row).[col] = x01) as Hone by (by rewrite nth_vscale, mul_comm).
    assert (forall p e, row_at (basis d) p = Some e -> (vscale factor row).[p] = x00) as Hz.
    { intros p e Hp. rewrite nth_vscale. unfold row.
      rewrite (reduce_pivot _ _ _ Hb _ _ _ Hl Hp). apply mul_0_r. }
    exists col, factor. split_and!; [done| |done..].
    by apply (new_pivot_free _ _ _ Hone Hz).
  - destruct (anyNonZero (drop (Z.to_nat (dk d)) row)) eqn:Ed; [done|].
    injection H as <- <-. split; [done|].
    apply anyNonZero_false in Ed. rewrite <- (take_drop (Z.to_nat (dk d)) row), Ed.
    unfold width. rewrite zeros_app, length_drop, Hlr. unfold width. f_equal; [|f_equal; lia].
    apply vec_ext; rewrite length_take, Hlr, ?length_zeros; unfold width; [lia|].
    intros i Hi. rewrite nth_zeros, nth_firstn.
    destruct (Nat.ltb_spec i (Z.to_nat (dk d))); [by apply (find_pivot_none _ _ Ep)|lia].
Qed.

Lemma Add_wf d s d' r : decoder_wf d -> Add d s = (d', r) ->
  decoder_wf d' /\ dk d' = dk d /\ dsymbolSize d' = dsymbolSize d /\ doriginalSize d' = doriginalSize d.
Proof.
  intros Hwf H. destruct r as [r|e].
  - pose proof (Add_cases d s d' r Hwf H) as [Hf Hc]. destruct r.
    + destruct Hc as (col & factor & Hcol & Hn & _ & H1 & Hz & ->). simpl.
      split; [|done]. destruct Hwf as (Hk & Hs & Ho & Hb & Hr).
      unfold decoder_wf, width in *. simpl.
      assert (length (vscale factor (reduce (basis d) (Z.to_nat (dk d)) (symbol_row s))) = width d) as Hl.
      { rewrite length_vscale. apply (length_reduce _ _ _ Hb). by apply length_symbol_row. }
      split_and!; try lia.
      * by apply inserted_rref.
      * rewrite (inserted_count (Z.to_nat (dk d)) (width d)); [lia|done..].
    + by destruct Hc as [-> _].
  - assert (d' = d) as ->; [|by split].
    revert H. unfold Add. cbv zeta. repeat case_goal; by intros [= <- ?].
Qed.

(** ** Spans *)

Inductive span (n : nat) (V : list (list byte)) : list byte -> Prop :=
| span_zero : span n V (zeros n)
| span_add u v f : span n V u -> v ∈ V -> span n V (vadd u (vscale f v)).

Definition rows (b : list (option (list byte))) : list (list byte) := omap id b.

Lemma elem_of_rows b r : r ∈ rows b <-> exists p, row_at b p = Some r.
Proof.
  unfold rows. induction b as [|o b IH]; simpl.
  - rewrite elem_of_nil. split; [done|]. intros [[|p] Hp]; done.
  - assert ((exists p, row_at (o :: b) p = Some r) <-> o = Some r \/ exists p, row_at b p = Some r) as ->.
    { split.
      - intros [[|p] Hp]; [by left|right; by exists p].
      - intros [->|[p Hp]]; [by exists 0%nat|by exists (S p)]. }
    rewrite <- IH. destruct o as [r'|]; simpl; rewrite ?elem_of_cons; split; intuition congruence.
Qed.

Section span.
Context (n : nat).

Lemma span_length V u : vectors n V -> span n V u -> length u = n.
Proof.
  intros HV Hu. induction Hu as [|u v f Hu IH Hv]; [apply length_zeros|].
  unfold vectors in HV. rewrite Forall_forall in HV.
  rewrite length_vadd; rewrite ?length_vscale, ?(HV v Hv); lia.
Qed.

Lemma span_linear V u w f : vectors n V -> span n V u -> span n V w ->
  span n V (vadd u (vscale f w)).
Proof.
  intros HV Hu Hw. pose proof (span_length V u HV Hu) as Hl.
  induction Hw as [|w v g Hw IH Hv].
  - rewrite vscale_zeros. replace (vadd u (zeros n)) with u; [done|].
    by rewrite <- Hl, vadd_zeros_r.
  - rewrite vscale_vadd, vscale_vscale, vadd_assoc. by apply span_add.
Qed.

Lemma span_mem V v : vectors n V -> v ∈ V -> span n V v.
Proof.
  intros HV Hv. pose proof HV as HV'. unfold vectors in HV'. rewrite Forall_forall in HV'.
  replace v with (vadd (zeros n) (vscale x01 v)); [apply span_add; [constructor|done]|].
  by rewrite vscale_1, <- (HV' v Hv), vadd_zeros_l.
Qed.

Lemma span_trans V W u : vectors n W -> (forall v, v ∈ V -> span n W v) -> span n V u -> span n W u.
Proof.
  intros HW HV Hu. induction Hu as [|u v f Hu IH Hv]; [constructor|].
  apply span_linear; auto.
Qed.
End span.

Lemma vadd_cancel u v : length u = length v -> vadd (vadd u v) v = u.
Proof. intros Hl. by rewrite <- vadd_assoc, vadd_diag, <- Hl, vadd_zeros_r. Qed.

Section basis_span.
Context (k n : nat) (b : list (option (list byte))) (Hb : rref k n b).

Lemma rows_vectors : vectors n (rows b).
Proof.
  apply Forall_forall. intros r [p Hp]%elem_of_rows. by destruct (proj2 Hb p r Hp).
Qed.

(** What reduction removes is in the span of the basis. *)
Lemma unreduce W x : vectors n W -> (forall r, r ∈ rows b -> span n W r) -> length x = n ->
  span n W (reduce b k x) -> span n W x.
Proof.
  intros HW Hrows. unfold reduce. generalize (seq 0 k). intros cols. revert x.
  induction cols as [|c cols IH]; intros x Hx Hs; simpl in Hs; [done|].
  apply IH in Hs; [|by apply (length_reduce_step k)].
  rewrite (reduce_step_eq k n) in Hs by done. destruct (row_at b c) as [r|] eqn:Hc; [|done].
  destruct (proj2 Hb c r Hc) as (Hlr & _).
  rewrite <- (vadd_cancel x (vscale x.[c] r)) by (rewrite length_vscale; lia).
  apply span_linear; [done..|]. apply Hrows, elem_of_rows. by exists c.
Qed.

(** Everything in the span of the basis reduces to zero. *)
Lemma reduce_span x : span n (rows b) x -> reduce b k x = zeros n.
Proof.
  induction 1 as [|u v f Hu IH [p Hv]%elem_of_rows].
  - apply (fold_reduce_zeros k n b Hb).
  - unfold reduce in *. rewrite (fold_reduce_linear k n b Hb), IH.
    + fold (reduce b k v). rewrite (reduce_row k n b Hb p v Hv).
      rewrite vscale_zeros, vadd_diag, length_zeros. done.
    + by apply (span_length n (rows b)); [apply rows_vectors|].
    + by destruct (proj2 Hb p v Hv).
Qed.
End basis_span.

(** A symbol that [Add] took without error is in the span of the basis after
    it, and so is everything that was there before. *)
Lemma Add_span d s d' r : decoder_wf d -> Add d s = (d', Ok r) ->
  span (width d) (rows (basis d')) (symbol_row s) /\
  (forall x, span (width d) (rows (basis d)) x -> span (width d) (rows (basis d')) x).
Proof.
  intros Hwf H. pose proof (Add_cases d s d' r Hwf H) as [Hf Hc].
  destruct Hwf as (Hk & Hs & Ho & Hb & Hr).
  pose proof (length_symbol_row d s Hf) as Hl.
  destruct r; cycle 1.
  { destruct Hc as [-> Hz]. split; [|done].
    apply (unreduce _ _ _ Hb); [by eapply rows_vectors| |done|].
    - intros x Hx. apply span_mem; [by eapply rows_vectors|done].
    - rewrite Hz. constructor. }
  destruct Hc as (col & factor & Hcol & Hn & Hfac & H1 & Hz & ->). simpl.
  set (row := reduce (basis d) (Z.to_nat (dk d)) (symbol_row s)) in *.
  assert (length row = width d) as Hlr by (by apply (length_reduce _ _ _ Hb)).
  assert (length (vscale factor row) = width d) as Hlv by (by rewrite length_vscale).
  set (b' := inserted (basis d) col (vscale factor row)).
  assert (rref (Z.to_nat (dk d)) (width d) b') as Hb' by (by apply inserted_rref).
  pose proof (rows_vectors _ _ _ Hb') as HV.
  assert (span (width d) (rows b') (vscale factor row)) as Hnew.
  { apply span_mem; [done|]. apply elem_of_rows. exists col. unfold b'.
    by rewrite (row_at_inserted _ _ _ Hb _ _ Hcol), Nat.eqb_refl. }
  assert (forall x, x ∈ rows (basis d) -> span (width d) (rows b') x) as Hold.
  { intros e [p He]%elem_of_rows. destruct (proj2 Hb p e He) as (Hle & _).
    rewrite <- (vadd_cancel e (vscale e.[col] (vscale factor row))) by (rewrite length_vscale; lia).
    apply span_linear; [done| |exact Hnew]. apply span_mem; [done|].
    apply elem_of_rows. exists p. unfold b'. rewrite (row_at_inserted _ _ _ Hb _ _ Hcol), He by done.
    assert (col <> p) by congruence. rewrite (proj2 (Nat.eqb_neq _ _)) by done.
    by apply (clear_column_eq _ _ _ Hb col (vscale factor row) Hlv p). }
  split.
  - apply (unreduce _ _ _ Hb); [done..|]. fold row.
    replace row with (vadd (zeros (width d)) (vscale row.[col] (vscale factor row))).
    + apply span_linear; [done|constructor|done].
    + rewrite vscale_vscale, Hfac, vscale_1, <- Hlr. apply vadd_zeros_l.
  - intros x Hx. by apply (span_trans _ (rows (basis d))).
Qed.

(** Feeding a list of symbols. *)
Lemma add_all_wf symbols d d' : decoder_wf d -> add_all d symbols = Ok d' ->
  decoder_wf d' /\ dk d' = dk d /\ dsymbolSize d' = dsymbolSize d /\
  doriginalSize d' = doriginalSize d /\
  (count_rows (basis d') <= count_rows (basis d) + length symbols)%nat.
Proof.
  revert d. induction symbols as [|s symbols IH]; intros d Hwf H; simpl in H.
  - injection H as <-. simpl. split_and!; [done..|lia].
  - destruct (Add d s) as [d1 [r|e]] eqn:E; [|done].
    pose proof (Add_wf d s d1 (Ok r) Hwf E) as (Hwf1 & Hk1 & Hs1 & Ho1).
    apply IH in H as (Hwf' & Hk' & Hs' & Ho' & Hc); [|done].
    rewrite Hk', Hs', Ho'. split_and!; [done..|]. simpl.
    pose proof (Add_cases d s d1 r Hwf E) as [_ Hcs].
    destruct Hwf as (_ & _ & _ & _ & Hr). destruct Hwf1 as (_ & _ & _ & _ & Hr1).
    destruct r; [destruct Hcs as (? & ? & _ & _ & _ & _ & _ & ->)|destruct Hcs as [-> _]];
      simpl in *; lia.
Qed.

Lemma add_all_span symbols d d' : decoder_wf d -> add_all d symbols = Ok d' ->
  (forall x, span (width d) (rows (basis d)) x -> span (width d) (rows (basis d')) x) /\
  (forall s, s ∈ symbols -> span (width d) (rows (basis d')) (symbol_row s)).
Proof.
  revert d. induction symbols as [|s symbols IH]; intros d Hwf H; simpl in H.
  - injection H as <-. split; [done|]. intros s Hs. by apply elem_of_nil in Hs.
  - destruct (Add d s) as [d1 [r|e]] eqn:E; [|done].
    pose proof (Add_wf d s d1 (Ok r) Hwf E) as (Hwf1 & Hk1 & Hs1 & Ho1).
    pose proof (Add_span d s d1 r Hwf E) as [Hnew Hold].
    assert (width d1 = width d) as Hw by (unfold width; congruence).
    apply IH in H as [Hx Hy]; [|done]. rewrite Hw in *.
    split; [by eauto|]. intros s' [->|Hs']%elem_of_cons; eauto.
Qed.

(** ** Correctness of decoding *)

(** A row is honest for the sources [src] when its data is the combination of
    the sources that its coefficients name. *)
Definition honest_row (src : list (list byte)) (m : nat) (row : list byte) : Prop :=
  exists c, length c = length src /\ row = c ++ comb m c src.

Lemma honest_linear src m u v f : vectors m src ->
  honest_row src m u -> honest_row src m v -> honest_row src m (vadd u (vscale f v)).
Proof.
  intros Hv (c & Hc & ->) (c' & Hc' & ->). exists (vadd c (vscale f c')).
  assert (length (vscale f c') = length c) by (rewrite length_vscale; lia).
  split; [rewrite length_vadd; lia|].
  rewrite comb_vadd, comb_vscale by (done || lia).
  rewrite vscale_app, vadd_app by lia. done.
Qed.

Lemma honest_scale src m v f : vectors m src -> honest_row src m v -> honest_row src m (vscale f v).
Proof.
  intros Hv (c & Hc & ->). exists (vscale f c).
  split; [by rewrite length_vscale|]. by rewrite vscale_app, comb_vscale.
Qed.

Definition honest_basis (src : list (list byte)) (d : Decoder) : Prop :=
  forall p r, row_at (basis d) p = Some r -> honest_row src (Z.to_nat (dsymbolSize d)) r.

(** Honest symbols keep the basis honest, and are never refused as
    inconsistent. *)
Lemma Add_honest src d s : decoder_wf d -> vectors (Z.to_nat (dsymbolSize d)) src ->
  len src = dk d -> honest_basis src d -> honest_row src (Z.to_nat (dsymbolSize d)) (symbol_row s) ->
  fits_decoder d s -> anyNonZero (Coeff s) = true ->
  exists d' r, Add d s = (d', Ok r) /\ honest_basis src d'.
Proof.
  intros Hwf Hv Hk Hb Hs Hf Hnz. destruct (Add d s) as [d' [r|e]] eqn:E.
  - exists d', r. split; [done|].
    pose proof (Add_cases d s d' r Hwf E) as [_ Hc]. destruct Hwf as (_ & _ & _ & Hrref & _).
    pose proof (length_symbol_row d s Hf) as Hl.
    destruct r; [|by destruct Hc as [-> _]].
    destruct Hc as (col & factor & Hcol & _ & _ & H1 & Hz & ->). unfold honest_basis. simpl.
    apply (inserted_in (Z.to_nat (dk d)) (width d)); auto.
    + by rewrite length_vscale, (length_reduce _ _ _ Hrref).
    + intros. by apply honest_linear.
    + apply honest_scale; [done|].
      apply (reduce_in _ _ _ Hrref); auto. intros. by apply honest_linear.
  - exfalso. destruct Hwf as (Hk0 & Hs0 & _ & Hrref & _).
    pose proof (length_symbol_row d s Hf) as Hl.
    unfold Add in E. destruct Hf as [Hf1 Hf2]. rewrite Hf1, Hf2, !Z.eqb_refl, Hnz in E. cbn [negb orb] in E.
    cbv zeta in E. fold (symbol_row s) in E.
    set (row := reduce (basis d) (Z.to_nat (dk d)) (symbol_row s)) in *.
    destruct (find_pivot (Z.to_nat (dk d)) row) as [col|] eqn:Ep.
    + apply find_pivot_some in Ep as [_ Hne]. destruct (inv_total _ Hne) as [g Hg].
      by rewrite Hg in E.
    + assert (honest_row src (Z.to_nat (dsymbolSize d)) row) as (c & Hc & Hrow).
      { apply (reduce_in _ _ _ Hrref); auto. intros. by apply honest_linear. }
      assert (c = zeros (length src)) as ->.
      { apply vec_ext; rewrite ?length_zeros; [done|]. intros i Hi. rewrite nth_zeros.
        pose proof (find_pivot_none _ _ Ep i ltac:(lia)) as Hi0.
        by rewrite Hrow, app_nth1 in Hi0 by lia. }
      rewrite comb_zeros in Hrow by done.
      assert (drop (Z.to_nat (dk d)) row = zeros (Z.to_nat (dsymbolSize d))) as Hd.
      { rewrite Hrow. apply drop_app_exact. rewrite length_zeros. lia. }
      by rewrite Hd, anyNonZero_zeros in E.
Qed.

Lemma add_all_honest src symbols d : decoder_wf d -> vectors (Z.to_nat (dsymbolSize d)) src ->
  len src = dk d -> honest_basis src d ->
  Forall (fun s => honest_row src (Z.to_nat (dsymbolSize d)) (symbol_row s) /\
                   fits_decoder d s /\ anyNonZero (Coeff s) = true) symbols ->
  exists d', add_all d symbols = Ok d' /\ honest_basis src d'.
Proof.
  revert d. induction symbols as [|s symbols IH]; intros d Hwf Hv Hk Hb Hs; simpl; [eauto|].
  split_forall. destruct H as (Hh & Hf & Hnz).
  destruct (Add_honest src d s) as (d1 & r & E & Hb1); auto. rewrite E.
  pose proof (Add_wf d s d1 (Ok r) Hwf E) as (Hwf1 & Hk1 & Hs1 & _).
  apply IH; rewrite ?Hk1, ?Hs1; auto.
  eapply Forall_impl; [exact Hs|]. intros x (Hx1 & [Hx2 Hx3] & Hx4). unfold fits_decoder.
  rewrite Hk1, Hs1. auto.
Qed.

(** A complete honest basis holds exactly the sources. *)
Lemma complete_basis src d : decoder_wf d -> vectors (Z.to_nat (dsymbolSize d)) src ->
  len src = dk d -> honest_basis src d -> Ready d = true ->
  decode_rows (Z.to_nat (dk d)) 0 (basis d) = Ok (concat src).
Proof.
  intros (Hk & Hs & _ & [Hlb Hrref] & Hr) Hv Hlen Hb Hready.
  unfold Ready in Hready. reflect_bools.
  assert (forall p, (p < length (basis d))%nat -> exists r, row_at (basis d) p = Some r) as Hfull.
  { apply count_rows_full. lia. }
  assert (forall p r, row_at (basis d) p = Some r ->
    r.[p] = x01 /\ drop (Z.to_nat (dk d)) r = nth p src []) as Hrow.
  { intros p r Hp. destruct (Hrref p r Hp) as (Hl & H1 & Hz). split; [done|].
    destruct (Hb p r Hp) as (c & Hc & ->).
    pose proof (row_at_lt _ _ _ Hp) as Hpl.
    assert (c = unit_vector (length src) p) as ->.
    { apply vec_ext; rewrite ?length_unit; [done|]. intros i Hi.
      rewrite nth_unit by lia. destruct (Nat.eqb_spec p i) as [<-|Hne].
      - by rewrite app_nth1 in H1 by lia.
      - destruct (Hfull i) as [r' Hr']; [lia|]. specialize (Hz i r' Hr' ltac:(auto)).
        by rewrite app_nth1 in Hz by lia. }
    rewrite comb_unit by (done || lia). apply drop_app_exact. rewrite length_unit. lia. }
  assert (forall b ss i, length b = length ss ->
    (forall j, (j < length b)%nat -> exists r, row_at b j = Some r /\ r.[i + j] = x01 /\
               drop (Z.to_nat (dk d)) r = nth j ss []) ->
    decode_rows (Z.to_nat (dk d)) i b = Ok (concat ss)) as Hgen.
  { induction b as [|o b IH]; intros [|x ss] i Hl Hj; simpl in *; try lia; [done|].
    destruct (Hj 0%nat) as (r & Ho & H1 & Hd); [lia|]. unfold row_at in Ho. simpl in Ho, Hd.
    subst o. rewrite Nat.add_0_r in H1. rewrite bool_decide_true by done.
    rewrite (IH ss (S i)); [|lia|].
    - simpl. by rewrite Hd.
    - intros j Hlt. destruct (Hj (S j)) as (r' & Hr' & H1' & Hd'); [lia|].
      exists r'. rewrite Nat.add_succ_r in H1'. done. }
  apply Hgen; [lia|]. intros j Hj. destruct (Hfull j Hj) as [r Hr']. exists r. split; [done|].
  by apply Hrow.
Qed.

(** Spanning coefficient vectors complete the basis. *)
Lemma spanning_ready symbols d d' : decoder_wf d -> add_all d symbols = Ok d' ->
  Forall (fits_decoder d) symbols ->
  (forall i, (i < Z.to_nat (dk d))%nat ->
     span (Z.to_nat (dk d)) (map Coeff symbols) (unit_vector (Z.to_nat (dk d)) i)) ->
  Ready d' = true.
Proof.
  intros Hwf H Hfits Hspan.
  pose proof (add_all_wf symbols d d' Hwf H) as (Hwf' & Hk' & Hs' & _ & _).
  pose proof (add_all_span symbols d d' Hwf H) as [_ Hsym].
  destruct Hwf' as (_ & _ & _ & Hb & Hr).
  assert (width d' = width d) as Hw by (unfold width; congruence). rewrite Hw, Hk' in Hb.
  unfold Ready. apply Z.eqb_eq. rewrite Hr, Hk'.
  destruct (decide (count_rows (basis d') = length (basis d'))) as [He|Hne].
  { destruct Hb as [Hl _], Hwf as (Hk & _). lia. }
  exfalso. pose proof (count_rows_le (basis d')).
  destruct (count_rows_missing (basis d')) as (col & Hc & Hn); [lia|].
  destruct Hb as [Hl Hrows]. rewrite Hl in Hc. pose proof (conj Hl Hrows) as Hb.
  assert (exists x, span (width d) (rows (basis d')) x /\
            take (Z.to_nat (dk d)) x = unit_vector (Z.to_nat (dk d)) col) as (x & Hx & Hxu).
  { specialize (Hspan col Hc). remember (unit_vector _ col) as u eqn:Hu. clear Hu.
    induction Hspan as [|u v f Hsp (x & Hx & <-) Hv].
    - exists (zeros (width d)). split; [constructor|]. unfold width. rewrite zeros_app.
      apply take_app_exact, length_zeros.
    - apply list_elem_of_fmap in Hv as (s & -> & Hs).
      rewrite Forall_forall in Hfits. specialize (Hfits s Hs). pose proof Hfits as [Hf1 Hf2].
      exists (vadd x (vscale f (symbol_row s))). split.
      + apply span_linear; [by eapply rows_vectors|done|by apply Hsym].
      + pose proof (span_length _ _ _ (rows_vectors _ _ _ Hb) Hx) as Hlx.
        pose proof (length_symbol_row d s Hfits) as Hls. unfold width in *.
        rewrite <- (take_drop (Z.to_nat (dk d)) x) at 1. unfold symbol_row.
        rewrite vscale_app, vadd_app by (rewrite length_take, length_vscale; lia).
        apply take_app_exact. rewrite length_vadd; rewrite ?length_take, ?length_vscale; lia. }
  assert (length x = width d) as Hlx by (eapply span_length; [by eapply rows_vectors|done]).
  assert (forall i, (i < Z.to_nat (dk d))%nat -> x.[i] = (unit_vector (Z.to_nat (dk d)) col).[i]) as Hxi.
  { intros i Hi. rewrite <- Hxu, nth_firstn. by destruct (Nat.ltb_spec i (Z.to_nat (dk d))); [|lia]. }
  assert (reduce (basis d') (Z.to_nat (dk d)) x = x) as Hid.
  { apply (reduce_id _ _ _ Hb); [done|]. intros p r Hp.
    pose proof (row_at_lt _ _ _ Hp). rewrite Hxi, nth_unit by lia.
    destruct (Nat.eqb_spec col p); [congruence|done]. }
  pose proof (reduce_span _ _ _ Hb x Hx) as Hz. rewrite Hid in Hz.
  specialize (Hxi col Hc). rewrite nth_unit, Nat.eqb_refl, Hz, nth_zeros in Hxi by done. done.
Qed.

Lemma NewEncoder_symbolSize data size e : NewEncoder data size = Ok e -> symbolSize e = size.
Proof. unfold NewEncoder. intros H. by run_guards H. Qed.

(** C25: decoding is complete and correct: for any object and symbol size, any
    list of symbols produced by the encoder from non-zero coefficient vectors
    that span the coefficient space decodes to exactly the original object. *)
Theorem decode_encoded (data : list byte) (size : Z) (e : Encoder) (coeffs : list (list byte))
  (He : NewEncoder data size = Ok e) (Hfit : K e * size < 2 ^ 64)
  (Hc : Forall (fun c => len c = K e /\ anyNonZero c = true) coeffs)
  (Hspan : forall i, (i < length (source e))%nat ->
     span (length (source e)) coeffs (unit_vector (length (source e)) i)) :
  Decode (map (encodeWith e) coeffs) (K e) (OriginalSize e) = Ok data.
Proof.
  pose proof (NewEncoder_symbolSize data size e He) as Hss.
  pose proof (NewEncoder_wf data size e He) as ((Hs & Hv & Hk & Ho) & Hol & Hdata).
  rewrite Hss in *. unfold OriginalSize.
  assert (NewDecoder (K e) size (original e) =
          Ok (mkDecoder (K e) size (original e) (replicate (Z.to_nat (K e)) None) 0)) as Hd.
  { unfold NewDecoder. rewrite !(proj2 (Z.leb_gt _ _)) by lia. simpl.
    rewrite wrapu_small, (proj2 (Z.ltb_ge _ _)) by (unfold fits; lia). done. }
  set (d0 := mkDecoder _ _ _ _ _) in Hd.
  pose proof (NewDecoder_wf _ _ _ _ Hd) as (Hwf & Hdk & Hds & Hdo & Hempty).
  assert (Forall (fun s => honest_row (source e) (Z.to_nat (dsymbolSize d0)) (symbol_row s) /\
                   fits_decoder d0 s /\ anyNonZero (Coeff s) = true) (map (encodeWith e) coeffs)) as Hsym.
  { apply Forall_map. eapply Forall_impl; [exact Hc|]. simpl. intros c [Hcl Hcz].
    rewrite encodeWith_comb by (unfold encoder_wf; rewrite Hss; auto).
    unfold symbol_row, honest_row, fits_decoder. simpl. rewrite Hss. split_and!; [|done| |done].
    - exists c. unfold K in Hcl. split; [lia|done].
    - rewrite length_comb by done. lia. }
  destruct (add_all_honest (source e) (map (encodeWith e) coeffs) d0) as (d' & Hadd & Hb); auto.
  { intros p r Hp. by rewrite Hempty in Hp. }
  pose proof (add_all_wf _ _ _ Hwf Hadd) as (Hwf' & Hk' & Hs' & Ho' & Hcount).
  assert (Ready d' = true) as Hready.
  { apply (spanning_ready (map (encodeWith e) coeffs) d0); auto.
    - eapply Forall_impl; [exact Hsym|]. by intros s (_ & Hf & _).
    - simpl. rewrite map_map. simpl. rewrite map_id. unfold K in *. rewrite Nat2Z.id. done. }
  assert (K e <= len (map (encodeWith e) coeffs)) as Hlen.
  { unfold Ready in Hready. reflect_bools. destruct Hwf' as (_ & _ & _ & _ & Hr').
    destruct Hwf as (_ & _ & _ & _ & Hr). simpl in *. lia. }
  unfold Decode. rewrite !(proj2 (Z.leb_gt _ _)), (proj2 (Z.ltb_ge _ _)) by lia. cbn [orb].
  destruct (map (encodeWith e) coeffs) as [|s ss] eqn:Ess; [simpl in Hlen; lia|].
  pose proof Hsym as Hs0. split_forall. destruct H as (_ & [_ Hsl] & _). simpl in Hsl. rewrite Hsl.
  rewrite (proj2 (Z.eqb_neq _ _)) by lia. rewrite Hd. cbn [mbind result_bind]. rewrite Hadd.
  cbn [mbind result_bind]. unfold DecoderDecode. rewrite Hready. cbn [negb].
  rewrite (complete_basis (source e) d'); rewrite ?Hk', ?Hs', ?Ho'; auto.
  simpl. by rewrite Hdata.
Qed.

(** A three-byte object in two symbols, decoded from two coded combinations. *)
Lemma decode_encoded_witness : exists e,
  NewEncoder [x6e; x6f; x6d] 2 = Ok e /\
  Decode (map (encodeWith e) [[x01; x01]; [x01; x02]]) (K e) (OriginalSize e) = Ok [x6e; x6f; x6d].
Proof.
  eexists. split; [reflexivity|].
  apply (decode_encoded [x6e; x6f; x6d] 2).
  - reflexivity.
  - reflexivity.
  - repeat constructor.
  - intros i Hi. change (i < 2)%nat in Hi. destruct i as [|[|i]]; [| |lia].
    + change (unit_vector _ 0) with (vadd (vadd (zeros 2) (vscale xf7 [x01; x01])) (vscale xf6 [x01; x02])).
      repeat constructor.
    + change (unit_vector _ 1) with (vadd (vadd (zeros 2) (vscale xf6 [x01; x01])) (vscale xf6 [x01; x02])).
      repeat constructor.
Defined.

(** ** What [Add] reports *)

Lemma Add_error_unchanged d s d' e : Add d s = (d', Err e) -> d' = d.
Proof. unfold Add. cbv zeta. repeat case_goal; by intros [= <- ?]. Qed.

(** The verdict of [Add] on a well-formed decoder and a symbol of the right
    dimensions with non-zero coefficients: it answers [false] exactly when the
    whole row is already spanned by the basis, it answers [true] only for a row
    outside that span and then the rank grows by one and the row is spanned,
    and the only error left is that of an inconsistent symbol, which leaves
    the decoder untouched and is raised only for a row outside the span. *)
Theorem add_classifies (d : Decoder) (s : Symbol) (Hwf : decoder_wf d)
  (Hf : fits_decoder d s) (Hnz : anyNonZero (Coeff s) = true) :
  let spanned := span (width d) (rows (basis d)) (symbol_row s) in
  match Add d s with
  | (d', Ok false) => d' = d /\ spanned
  | (d', Ok true) => ~ spanned /\ decoder_wf d' /\ rank d' = rank d + 1 /\
                     span (width d) (rows (basis d')) (symbol_row s)
  | (d', Err e) => e = ErrInconsistentSymbol /\ d' = d /\ ~ spanned
  end.
Proof.
  intros spanned. destruct (Add d s) as [d' [r|e]] eqn:E.
  - pose proof (Add_cases d s d' r Hwf E) as [_ Hc]. pose proof (Add_span d s d' r Hwf E) as [Hsp _].
    pose proof (Add_wf d s d' (Ok r) Hwf E) as (Hwf' & _).
    destruct Hwf as (_ & _ & _ & Hb & _). destruct r.
    + destruct Hc as (col & factor & Hcol & Hn & Hm & H1 & Hz & Hd'). split_and!; auto.
      * intros Hin. rewrite (reduce_span _ _ _ Hb _ Hin), nth_zeros, mul_0_l in Hm. done.
      * by rewrite Hd'.
    + destruct Hc as [-> _]. done.
  - pose proof (Add_error_unchanged d s d' e E) as ->. destruct Hwf as (_ & _ & _ & Hb & _).
    destruct Hf as [Hf1 Hf2]. unfold Add in E.
    rewrite Hf1, Hf2, !Z.eqb_refl, Hnz in E. cbn [negb orb] in E. cbv zeta in E.
    fold (symbol_row s) in E. destruct (find_pivot _ _) as [col|] eqn:Ep.
    + apply find_pivot_some in Ep as [_ Hne]. destruct (inv_total _ Hne) as [g Hg].
      by rewrite Hg in E.
    + destruct (anyNonZero _) eqn:Ed in E; [|done]. injection E as <-. split_and!; [done..|].
      intros Hin. rewrite (reduce_span _ _ _ Hb _ Hin) in Ed. unfold width in Ed.
      rewrite zeros_app, drop_app_exact, anyNonZero_zeros in Ed by apply length_zeros. done.
Qed.

(** The second symbol of a generation of two, after the first. *)
Definition example_decoder : Decoder :=
  mkDecoder 2 1 2 [Some [x01; x00; x05]; None] 1.

Lemma example_decoder_wf : decoder_wf example_decoder.
Proof.
  unfold decoder_wf. split_and!; try done; try (cbn; lia).
  split; [done|]. intros [|[|[|p]]] r Hr; try done. injection Hr as <-.
  split_and!; [done..|]. by intros [|[|[|q]]] r' Hq Hne.
Qed.

Lemma add_classifies_witness :
  anyNonZero (Coeff (mkSymbol [x02; x03] [x07])) = true /\
  match Add example_decoder (mkSymbol [x02; x03] [x07]) with
  | (d', Ok true) => rank d' = 2
  | _ => False
  end.
Proof.
  split; [reflexivity|].
  pose proof (add_classifies example_decoder (mkSymbol [x02; x03] [x07])
    example_decoder_wf (conj eq_refl eq_refl) eq_refl) as Hc. cbv zeta in Hc.
  destruct (Add example_decoder (mkSymbol [x02; x03] [x07])) as [d' [[]|e]] eqn:E.
  - destruct Hc as (_ & _ & -> & _). reflexivity.
  - vm_compute in E. discriminate E.
  - vm_compute in E. discriminate E.
Defined.

(** ** Re-encoding *)

(** A row that is the weighted sum of honest rows is honest: stated for the
    coefficient and data parts that [ReEncode] accumulates separately. *)
Lemma honest_comb src k m symbols weights : vectors m src -> length src = k ->
  Forall (fun s => length (Coeff s) = k /\ Data s = comb m (Coeff s) src) symbols ->
  comb m (comb k weights (map Coeff symbols)) src = comb m weights (map Data symbols).
Proof.
  intros Hv Hk Hs. revert weights.
  induction Hs as [|s symbols [Hc Hd] Hs IH]; intros [|w weights]; simpl.
  - apply comb_zeros. done.
  - apply comb_zeros. done.
  - apply comb_zeros. done.
  - rewrite comb_vadd, comb_vscale, IH, Hd; rewrite ?length_vscale; try done; try lia.
    rewrite length_comb; [done|]. apply Forall_map. eapply Forall_impl; [exact Hs|].
    by intros x [? _].
Qed.

Lemma reencode_attempts_honest src k m symbols attempts draws s : vectors m src -> length src = k ->
  Forall (fun s => length (Coeff s) = k /\ Data s = comb m (Coeff s) src) symbols ->
  reencode_attempts attempts symbols k m draws = Ok s ->
  length (Coeff s) = k /\ Data s = comb m (Coeff s) src /\ anyNonZero (Coeff s) = true.
Proof.
  intros Hv Hk Hs. revert draws. induction attempts as [|a IH]; intros [|[w|] draws] H; simpl in H;
    try done.
  destruct (negb (anyNonZero w)); [by apply IH in H|].
  destruct (anyNonZero (fold_left _ _ _)) eqn:En; [|by apply IH in H]. injection H as <-. simpl.
  assert (vectors k (map Coeff symbols)) as Hvc.
  { apply Forall_map. eapply Forall_impl; [exact Hs|]. by intros x [? _]. }
  assert (vectors m (map Data symbols)) as Hvd.
  { apply Forall_map. eapply Forall_impl; [exact Hs|]. intros x [? ->]. by apply length_comb. }
  rewrite !fold_code_zeros in * by done. split_and!; [by apply length_comb| |done].
  by rewrite <- (honest_comb src k m symbols w).
Qed.
