(* ===== verification/Packet.v ===== *)
(** The fixed-size packet of the erasure code
    ([components/nomad-rlnc/rlnc/packet.go]): validation, the 504-byte wire
    form with random padding, and re-encoding of packets of one generation.

    The padding source is [None] for a nil reader, or the bytes the reader
    yields before it fails. *)

From stdpp Require Import base list list_numbers.
From Stdlib Require Import ZArith Lia Strings.Byte.
From S2P Require Import Prelude Bytes GF256 RLNC Decoder.

(** ** Definitions *)

Definition PacketSize : Z := 504.
Definition PacketHeaderSize : Z := 28.
Definition packetMagic : list byte := [x4e; x52; x4c; x01].

Record Packet := mkPacket {
  Generation : list byte;
  pK : Z;
  pSymbolSize : Z;
  pOriginalSize : Z;
  pSymbol : Symbol;
}.

Inductive packet_error :=
| ErrPacketDimensions        (* invalid packet dimensions *)
| ErrWireFields              (* packet dimensions exceed wire fields *)
| ErrPacketFit               (* coded symbol does not fit fixed packet *)
| ErrPacketCapacity          (* original size exceeds generation capacity *)
| ErrPacketSymbol            (* symbol dimensions do not match packet *)
| ErrPacketZero              (* zero coefficient vector *)
| ErrNilPadding
| ErrPadding                 (* random packet padding *)
| ErrPacketLength            (* packet must be exactly 504 bytes *)
| ErrPacketMagic
| ErrPacketCell              (* packet dimensions exceed fixed cell *)
| ErrNoPackets
| ErrIncompatiblePackets
| ErrReEncode (e : rlnc_error).

Definition packet_validate (p : Packet) : result packet_error unit :=
  if (pK p <=? 0) || (pSymbolSize p <=? 0) || (pOriginalSize p <=? 0) then Err ErrPacketDimensions
  else if (65535 <? pK p) || (65535 <? pSymbolSize p) || (4294967295 <? u64 (pOriginalSize p))
  then Err ErrWireFields
  else if PacketSize <? PacketHeaderSize + pK p + pSymbolSize p then Err ErrPacketFit
  else
    let capacity := u64 (u64 (pK p) * u64 (pSymbolSize p)) in
    if capacity <? u64 (pOriginalSize p) then Err ErrPacketCapacity
    else if negb (len (Coeff (pSymbol p)) =? pK p) || negb (len (Data (pSymbol p)) =? pSymbolSize p)
    then Err ErrPacketSymbol
    else if negb (anyNonZero (Coeff (pSymbol p))) then Err ErrPacketZero
    else Ok tt.

Definition NewPacket (generation : list byte) (k symbolSize originalSize : Z) (symbol : Symbol)
  : result packet_error Packet :=
  let p := mkPacket generation k symbolSize originalSize symbol in
  _ ← packet_validate p; Ok p.

(** [io.ReadFull] of [n] bytes from a reader that yields [random]. *)
Definition ReadFull (random : list byte) (n : nat) : option (list byte) :=
  if bool_decide (n <= length random)%nat then Some (take n random) else None.

(** The slices the code fills are adjacent, in this order. *)
Definition MarshalBinaryFrom (p : Packet) (random : option (list byte))
  : result packet_error (list byte) :=
  _ ← packet_validate p;
  match random with
  | None => Err ErrNilPadding
  | Some random =>
      let head := packetMagic ++ Generation p ++ be 2 (pK p) ++ be 2 (pSymbolSize p) ++
                  be 4 (pOriginalSize p) ++ Coeff (pSymbol p) ++ Data (pSymbol p) in
      match ReadFull random (Z.to_nat (PacketSize - (28 + pK p + pSymbolSize p))) with
      | None => Err ErrPadding
      | Some padding => Ok (head ++ padding)
      end
  end.

Definition ParsePacket (wire : list byte) : result packet_error Packet :=
  if negb (len wire =? PacketSize) then Err ErrPacketLength
  else if negb (bool_decide (slice wire 0 4 = packetMagic)) then Err ErrPacketMagic
  else
    let generation := slice wire 4 20 in
    let k := be_val (slice wire 20 22) in
    let symbolSize := be_val (slice wire 22 24) in
    let originalSize := be_val (slice wire 24 28) in
    if len wire <? PacketHeaderSize + k + symbolSize then Err ErrPacketCell
    else NewPacket generation k symbolSize originalSize
           (mkSymbol (slice wire 28 (28 + Z.to_nat k))
              (slice wire (28 + Z.to_nat k) (28 + Z.to_nat k + Z.to_nat symbolSize))).

(** The loop of [ReEncodePackets]: the first packet that differs from the
    generation or is invalid decides the error. *)
Fixpoint gather_symbols (first : Packet) (packets : list Packet)
  : result packet_error (list Symbol) :=
  match packets with
  | [] => Ok []
  | p :: rest =>
      if negb (bool_decide (Generation p = Generation first)) || negb (pK p =? pK first) ||
         negb (pSymbolSize p =? pSymbolSize first) || negb (pOriginalSize p =? pOriginalSize first)
      then Err ErrIncompatiblePackets
      else _ ← packet_validate p;
           symbols ← gather_symbols first rest;
           Ok (pSymbol p :: symbols)
  end.

Definition ReEncodePackets (packets : list Packet) (draws : list (option (list byte)))
  : result packet_error Packet :=
  match packets with
  | [] => Err ErrNoPackets
  | first :: _ =>
      symbols ← gather_symbols first packets;
      symbol ← wrap ErrReEncode (ReEncode symbols draws);
      NewPacket (Generation first) (pK first) (pSymbolSize first) (pOriginalSize first) symbol
  end.

(** ** Validity *)

(** What [validate] accepts: the reference predicate. *)
Definition packet_ok (p : Packet) : Prop :=
  0 < pK p /\ 0 < pSymbolSize p /\ 28 + pK p + pSymbolSize p <= 504 /\
  0 < pOriginalSize p <= pK p * pSymbolSize p /\
  len (Coeff (pSymbol p)) = pK p /\ len (Data (pSymbol p)) = pSymbolSize p /\
  anyNonZero (Coeff (pSymbol p)) = true.

(** Go's [int] holds the original size of a packet a caller built. *)
Definition packet_typed (p : Packet) : Prop :=
  length (Generation p) = 16%nat /\ pOriginalSize p < 2 ^ 63.

Lemma validate_ok p : packet_typed p -> packet_validate p = Ok tt <-> packet_ok p.
Proof.
  unfold packet_typed, packet_validate, packet_ok, PacketSize, PacketHeaderSize. intros [_ Ht]. split.
  - intros H. run_guards H.
    rewrite !wrapu_small in * by (rewrite ?wrapu_small; unfold fits; nia). split_and!; try done; lia.
  - intros (Hk & Hs & Hfit & Ho & Hc & Hd & Hz).
    rewrite !(wrapu_small 64) by (rewrite ?wrapu_small; unfold fits; nia).
    rewrite Hc, Hd, Hz, !Z.eqb_refl.
    rewrite !(proj2 (Z.leb_gt _ _)), !(proj2 (Z.ltb_ge _ _)) by nia. done.
Qed.

(** ** Round trips *)

(** A packet that validates is written as exactly 504 bytes whenever the
    padding source yields enough of them, and parsing those bytes gives the
    packet back, whatever the padding was. *)
Theorem packet_roundtrip (p : Packet) (random : list byte)
  (Ht : packet_typed p) (Hv : packet_validate p = Ok tt) (Hr : (504 <= length random)%nat) :
  exists wire, MarshalBinaryFrom p (Some random) = Ok wire /\
    len wire = PacketSize /\ ParsePacket wire = Ok p.
Proof.
  pose proof (proj1 (validate_ok p Ht) Hv) as (Hk & Hs & Hfit & Ho & Hc & Hd & Hz).
  destruct Ht as [Hg Ht]. unfold MarshalBinaryFrom. rewrite Hv. cbn [mbind result_bind].
  unfold ReadFull, PacketSize. rewrite bool_decide_true by lia.
  set (pad := take _ random). eexists. split; [done|].
  assert (length pad = Z.to_nat (504 - (28 + pK p + pSymbolSize p))) as Hpad
    by (unfold pad; rewrite length_take; lia).
  set (wire := _ ++ pad).
  assert (len wire = 504) as Hw.
  { unfold wire. rewrite !length_app, !length_be, Hpad, Hg. cbn [length packetMagic]. lia. }
  split; [done|]. unfold ParsePacket, PacketSize, PacketHeaderSize. rewrite Hw. cbn [Z.eqb Pos.eqb negb].
  assert (slice wire 0 4 = packetMagic /\ slice wire 4 20 = Generation p /\
          slice wire 20 22 = be 2 (pK p) /\ slice wire 22 24 = be 2 (pSymbolSize p) /\
          slice wire 24 28 = be 4 (pOriginalSize p)) as (-> & -> & -> & -> & ->).
  { unfold wire. rewrite <- !app_assoc. split_and!.
    - by apply (slice_app_at []).
    - by apply slice_app_at; rewrite ?Hg.
    - rewrite (app_assoc packetMagic). apply slice_app_at; rewrite ?length_app, ?length_be, ?Hg; done.
    - rewrite (app_assoc packetMagic), (app_assoc _ (be 2 (pK p))).
      apply slice_app_at; rewrite ?length_app, ?length_be, ?Hg; done.
    - rewrite (app_assoc packetMagic), (app_assoc _ (be 2 (pK p))), (app_assoc _ (be 2 _)).
      apply slice_app_at; rewrite ?length_app, ?length_be, ?Hg; done. }
  rewrite bool_decide_true by done. cbn [negb]. rewrite !be_val_be_fits by (simpl; nia).
  rewrite (proj2 (Z.ltb_ge _ _)) by lia.
  set (pre := packetMagic ++ Generation p ++ be 2 (pK p) ++ be 2 (pSymbolSize p) ++ be 4 (pOriginalSize p)).
  assert (length pre = 28%nat) as Hpre by (unfold pre; rewrite !length_app, !length_be, Hg; done).
  assert (wire = pre ++ Coeff (pSymbol p) ++ Data (pSymbol p) ++ pad) as ->
    by (unfold wire, pre; by rewrite <- !app_assoc).
  rewrite (slice_app_at pre) by lia. rewrite (app_assoc pre).
  rewrite (slice_app_at (pre ++ _)) by (rewrite ?length_app; lia).
  destruct p as [g k s o [c dd]]. unfold NewPacket. simpl in *. by rewrite Hv.
Qed.

Definition example_packet : Packet :=
  mkPacket (replicate 16 xaa) 2 1 2 (mkSymbol [x01; x03] [x07]).

Lemma packet_roundtrip_witness :
  exists wire, MarshalBinaryFrom example_packet (Some (replicate 504 x2a)) = Ok wire /\
    len wire = PacketSize /\ ParsePacket wire = Ok example_packet.
Proof.
  apply (packet_roundtrip example_packet (replicate 504 x2a)).
  - split; [reflexivity|]. reflexivity.
  - reflexivity.
  - apply Nat.leb_le. reflexivity.
Defined.

(** Parsing accepts nothing else: every wire image that parses is the
    marshalled form, under its own padding, of the packet it parses to, and
    that packet satisfies every invariant of the format. *)
Theorem parse_canonical (wire : list byte) (p : Packet) (H : ParsePacket wire = Ok p) :
  packet_typed p /\ packet_ok p /\
  MarshalBinaryFrom p (Some (drop (Z.to_nat (28 + pK p + pSymbolSize p)) wire)) = Ok wire.
Proof.
  unfold ParsePacket in H. destruct (negb (len wire =? PacketSize)) eqn:El; [done|]. reflect_bools.
  unfold PacketSize, PacketHeaderSize in *.
  destruct (negb (bool_decide (slice wire 0 4 = packetMagic))) eqn:Em; [done|]. reflect_bools.
  set (k := be_val (slice wire 20 22)) in *. set (s := be_val (slice wire 22 24)) in *.
  set (o := be_val (slice wire 24 28)) in *.
  destruct (len wire <? 28 + k + s) eqn:Efit; [done|]. reflect_bools.
  unfold NewPacket in H. destruct (packet_validate _) as [[]|] eqn:Ev in H; [|done].
  apply (inj Ok) in H. subst p.
  pose proof (be_val_range (slice wire 20 22)) as Hk. pose proof (be_val_range (slice wire 22 24)) as Hs.
  pose proof (be_val_range (slice wire 24 28)) as Ho. fold k in Hk. fold s in Hs. fold o in Ho.
  rewrite length_slice in Hk, Hs, Ho by lia. simpl in Hk, Hs, Ho.
  assert (packet_typed (mkPacket (slice wire 4 20) k s o
    (mkSymbol (slice wire 28 (28 + Z.to_nat k))
       (slice wire (28 + Z.to_nat k) (28 + Z.to_nat k + Z.to_nat s))))) as Ht.
  { split; simpl; [rewrite length_slice; lia|lia]. }
  split; [done|]. split; [by apply validate_ok|].
  unfold MarshalBinaryFrom. rewrite Ev. cbn [mbind result_bind Generation pK pSymbolSize
    pOriginalSize pSymbol Coeff Data]. unfold ReadFull, PacketSize.
  rewrite bool_decide_true by (rewrite length_drop; lia). f_equal.
  assert (be 2 k = slice wire 20 22 /\ be 2 s = slice wire 22 24 /\ be 4 o = slice wire 24 28) as (-> & -> & ->).
  { unfold k, s, o. split_and!.
    all: etransitivity; [|apply be_be_val]; rewrite length_slice by lia; done. }
  replace (take _ (drop _ wire)) with (slice wire (28 + Z.to_nat k + Z.to_nat s) (length wire)).
  2: { unfold slice. f_equal; [lia|]. f_equal. lia. }
  rewrite <- Em, <- !app_assoc, !slice_join by lia. apply slice_all.
Qed.

Definition example_wire : list byte :=
  packetMagic ++ replicate 16 xaa ++ [x00; x02; x00; x01; x00; x00; x00; x02; x01; x03; x07] ++
  replicate 473 x00.

Lemma parse_canonical_witness : ParsePacket example_wire = Ok example_packet /\
  MarshalBinaryFrom example_packet (Some (replicate 473 x00)) = Ok example_wire.
Proof.
  assert (ParsePacket example_wire = Ok example_packet) as H by reflexivity. split; [exact H|].
  destruct (parse_canonical example_wire example_packet H) as (_ & _ & Hm). exact Hm.
Defined.

(** ** Re-encoding *)

Lemma gather_symbols_ok first packets symbols : gather_symbols first packets = Ok symbols ->
  symbols = map pSymbol packets /\
  Forall (fun p => Generation p = Generation first /\ pK p = pK first /\
    pSymbolSize p = pSymbolSize first /\ pOriginalSize p = pOriginalSize first /\
    packet_validate p = Ok tt) packets.
Proof.
  revert symbols. induction packets as [|p packets IH]; intros symbols H; simpl in H.
  - by injection H as <-.
  - destruct (_ || _) eqn:Eb in H; [done|]. reflect_bools.
    destruct (packet_validate p) as [[]|] eqn:Ev; [|done]. cbn [mbind result_bind] in H.
    destruct (gather_symbols first packets) as [ss|] eqn:Eg; [|done].
    cbn [mbind result_bind] in H. injection H as <-.
    destruct (IH ss eq_refl) as [-> Hf]. split; [done|]. constructor; [|done]. done.
Qed.

(** Re-encoding in the network preserves decodability: from packets of one
    generation that encode the same sources, [ReEncodePackets] can only produce
    a packet of that generation that validates, whose coefficients are not all
    zero and whose data is the combination of the sources they name. *)
Theorem reencode_packets_honest (src : list (list byte)) (packets : list Packet) (first p : Packet)
  (draws : list (option (list byte)))
  (Hfirst : head packets = Some first)
  (Hv : vectors (Z.to_nat (pSymbolSize first)) src) (Hk : len src = pK first)
  (Hh : Forall (fun q => Data (pSymbol q) =
          comb (Z.to_nat (pSymbolSize first)) (Coeff (pSymbol q)) src) packets)
  (H : ReEncodePackets packets draws = Ok p) :
  Generation p = Generation first /\ pK p = pK first /\ pSymbolSize p = pSymbolSize first /\
  pOriginalSize p = pOriginalSize first /\ packet_validate p = Ok tt /\
  anyNonZero (Coeff (pSymbol p)) = true /\
  Data (pSymbol p) = comb (Z.to_nat (pSymbolSize first)) (Coeff (pSymbol p)) src.
Proof.
  destruct packets as [|p0 packets]; [done|]. injection Hfirst as ->.
  unfold ReEncodePackets in H. destruct (gather_symbols _ _) as [symbols|] eqn:Eg; [|done].
  cbn [mbind result_bind] in H. apply gather_symbols_ok in Eg as [-> Hg].
  destruct (ReEncode _ draws) as [s|] eqn:Er; [|done]. cbn [wrap mbind result_bind] in H.
  unfold NewPacket in H. destruct (packet_validate _) as [[]|] eqn:Ev in H; [|done]. injection H as <-.
  cbn [Generation pK pSymbolSize pOriginalSize pSymbol].
  assert (forall q, packet_validate q = Ok tt -> len (Coeff (pSymbol q)) = pK q /\
            len (Data (pSymbol q)) = pSymbolSize q) as Hdim.
  { intros q Hq. unfold packet_validate in Hq. by run_guards Hq. }
  assert (Forall (fun s => length (Coeff s) = length src /\
    Data s = comb (Z.to_nat (pSymbolSize first)) (Coeff s) src) (map pSymbol (first :: packets))) as Hs.
  { apply Forall_map. eapply Forall_impl; [exact (proj2 (Forall_and _ _) (conj Hg Hh))|].
    intros q [(_ & Hqk & _ & _ & Hq) Hqd]. split; [|done]. apply Hdim in Hq. lia. }
  unfold ReEncode in Er. cbn [map] in Er. destruct (_ || _) in Er; [done|].
  destruct (existsb _ _) in Er; [done|]. destruct (negb _) in Er; [done|].
  assert (length (Coeff (pSymbol first)) = length src /\
          length (Data (pSymbol first)) = Z.to_nat (pSymbolSize first)) as [H1 H2].
  { apply Forall_cons in Hg as [(_ & _ & _ & _ & Hq) _]. apply Hdim in Hq. lia. }
  rewrite H1, H2 in Er.
  apply (reencode_attempts_honest src) in Er as (_ & Hd & Hz); [|done..]. done.
Qed.

Lemma reencode_packets_honest_witness :
  let src := [[x05]; [x09]] in
  let p1 := mkPacket (replicate 16 xaa) 2 1 2 (mkSymbol [x01; x00] [x05]) in
  let p2 := mkPacket (replicate 16 xaa) 2 1 2 (mkSymbol [x01; x01] [x0c]) in
  exists p, ReEncodePackets [p1; p2] [Some [x00; x00]; Some [x03; x01]] = Ok p /\
    anyNonZero (Coeff (pSymbol p)) = true /\ Data (pSymbol p) = comb 1 (Coeff (pSymbol p)) src.
Proof.
  intros src p1 p2. eexists. split; [reflexivity|].
  apply (reencode_packets_honest src [p1; p2] p1 _ [Some [x00; x00]; Some [x03; x01]]).
  - reflexivity.
  - repeat constructor.
  - reflexivity.
  - repeat constructor.
  - reflexivity.
Defined.
