(* ===== verification/Bounded.v ===== *)
(** The budgeted decoder ([components/nomad-rlnc/rlnc/bounded.go]): per-
    generation limits, duplicate suppression and verification of systematic
    symbols against the commitments of the signed descriptor.

    Times and durations are integers (nanoseconds); the clock is an argument,
    as it is in the code. *)

From stdpp Require Import base list list_numbers gmap strings.
From Stdlib Require Import ZArith Lia Strings.Byte.
From S2P Require Import Prelude Bytes Hash Sha256 GF256 RLNC Decoder.

(** ** Definitions *)

Record Limits := mkLimits {
  MaxSymbols : Z;
  MaxBytes : Z;
  MaxRankAttempts : Z;
  MaxWorkUnits : Z;
  MaxMemoryBytes : Z;
  Lifetime : Z;
}.

Inductive budget := SymbolCount | ByteCount | RankAttempts | EliminationWork | BasisMemory.

Inductive bounded_error :=
| ErrLimits                        (* every generation limit must be positive *)
| ErrCommitmentCount               (* commitments must cover every source symbol *)
| ErrDecoder (e : rlnc_error)
| ErrBudgetExhausted (b : budget)
| ErrGenerationExpired
| ErrCommitmentMismatch
| ErrBoundedDimensions.            (* symbol dimensions do not match decoder *)

Definition DefaultLimits (k symbolSize : Z) : Limits :=
  let overheadFactor := 4 in
  let rowWidth := i64 (k + symbolSize) in
  mkLimits (i64 (overheadFactor * k)) (i64 (i64 (overheadFactor * k) * rowWidth))
    (i64 (overheadFactor * k)) (i64 (i64 (i64 (overheadFactor * k) * k) * rowWidth))
    (i64 (k * rowWidth)) (5 * 60 * 1000000000).

Definition limits_validate (limits : Limits) : result bounded_error unit :=
  if (MaxSymbols limits <=? 0) || (MaxBytes limits <=? 0) || (MaxRankAttempts limits <=? 0) ||
     (MaxWorkUnits limits <=? 0) || (MaxMemoryBytes limits <=? 0) || (Lifetime limits <=? 0)
  then Err ErrLimits else Ok tt.

(** "nomad-rlnc-source-commitment-v1" *)
Definition commitment_domain : list byte :=
  String.list_byte_of_string "nomad-rlnc-source-commitment-v1".

Section operations.
Context `{HashFunction}.

Definition commitment_message (index : Z) (data : list byte) : list byte :=
  commitment_domain ++ be 4 (u32 index) ++ data.

Definition commitSymbol (index : Z) (data : list byte) : list byte :=
  sha256 (commitment_message index data).

Definition CommitSource (sources : list (list byte)) : list (list byte) :=
  imap (fun index source => commitSymbol (Z.of_nat index) source) sources.

(** The loop of [systematicIndex], from position [index] with [found]. *)
Fixpoint systematic_loop (coeff : list byte) (index found : Z) : Z :=
  match coeff with
  | [] => found
  | value :: coeff =>
      if bool_decide (value = x00) then systematic_loop coeff (index + 1) found
      else if (0 <=? found) || negb (bool_decide (value = x01)) then -1
      else systematic_loop coeff (index + 1) index
  end.
Definition systematicIndex (coeff : list byte) : Z := systematic_loop coeff 0 (-1).

Record BoundedDecoder := mkBounded {
  decoder : Decoder;
  limits : Limits;
  commitments : option (list (list byte));
  deadline : Z;
  symbols : Z;
  bytes : Z;
  attempts : Z;
  work : Z;
  memory : Z;
  seen : gset (list byte);
  failed : option bounded_error;
  rejected : Z;
  duplicate : Z;
}.

Definition NewBoundedDecoder (k symbolSize originalSize : Z) (limits : Limits)
  (commitments : option (list (list byte))) (now : Z) : result bounded_error BoundedDecoder :=
  _ ← limits_validate limits;
  if match commitments with Some cs => negb (len cs =? k) | None => false end
  then Err ErrCommitmentCount
  else
    decoder ← wrap ErrDecoder (NewDecoder k symbolSize originalSize);
    Ok (mkBounded decoder limits commitments (now + Lifetime limits) 0 0 0 0 0 ∅ None 0 0).

(** The counters of [Stats]. *)
Record Stats := mkStats {
  sSymbols : Z; sBytes : Z; sAttempts : Z; sWorkUnits : Z; sMemoryUsed : Z;
  sRejected : Z; sDuplicates : Z; sRank : Z;
}.
Definition BoundedStats (b : BoundedDecoder) : Stats :=
  mkStats (symbols b) (bytes b) (attempts b) (work b) (memory b) (rejected b) (duplicate b)
    (rank (decoder b)).

Definition release (d : Decoder) : Decoder :=
  mkDecoder (dk d) (dsymbolSize d) (doriginalSize d) [] 0.

Definition fail (b : BoundedDecoder) (e : bounded_error) : BoundedDecoder * bounded_error :=
  match failed b with
  | Some e' => (b, e')
  | None =>
      (mkBounded (release (decoder b)) (limits b) (commitments b) (deadline b) (symbols b)
         (bytes b) (attempts b) (work b) 0 ∅ (Some e) (rejected b) (duplicate b), e)
  end.

Definition fail_with (b : BoundedDecoder) (e : bounded_error)
  : BoundedDecoder * result bounded_error bool :=
  let (b', e') := fail b e in (b', Err e').

Definition reject (b : BoundedDecoder) : BoundedDecoder :=
  mkBounded (decoder b) (limits b) (commitments b) (deadline b) (symbols b) (bytes b)
    (attempts b) (work b) (memory b) (seen b) (failed b) (rejected b + 1) (duplicate b).

Definition fingerprint (s : Symbol) : list byte := sha256 (Coeff s ++ Data s).

(** The commitment test: [true] when the symbol contradicts its source. *)
Definition contradicts (b : BoundedDecoder) (s : Symbol) : bool :=
  match commitments b with
  | None => false
  | Some cs =>
      let index := systematicIndex (Coeff s) in
      if index <? 0 then false
      else negb (bool_decide (nth (Z.to_nat index) cs [] = commitSymbol index (Data s)))
  end.

(** The accounting and the call of the inner decoder. *)
Definition admit_symbol (b : BoundedDecoder) (s : Symbol) (symbolBytes rowWidth projected : Z)
  : BoundedDecoder * result bounded_error bool :=
  let (d', r) := Add (decoder b) s in
  let charged rejected memory :=
    mkBounded d' (limits b) (commitments b) (deadline b) (i64 (symbols b + 1))
      (i64 (bytes b + symbolBytes)) (i64 (attempts b + 1)) (i64 (work b + projected)) memory
      ({[fingerprint s]} ∪ seen b) (failed b) rejected (duplicate b) in
  match r with
  | Err e => (charged (rejected b + 1) (memory b), Err (ErrDecoder e))
  | Ok innovative =>
      (charged (rejected b)
         (if innovative then i64 (memory b + rowWidth) else memory b), Ok innovative)
  end.

Definition BoundedAdd (b : BoundedDecoder) (s : Symbol) (now : Z)
  : BoundedDecoder * result bounded_error bool :=
  match failed b with
  | Some e => (b, Err e)
  | None =>
    if negb (now <? deadline b) then fail_with b ErrGenerationExpired
    else if negb (len (Coeff s) =? dk (decoder b)) || negb (len (Data s) =? dsymbolSize (decoder b))
    then (reject b, Err ErrBoundedDimensions)
    else if bool_decide (fingerprint s ∈ seen b) then
      (mkBounded (decoder b) (limits b) (commitments b) (deadline b) (symbols b) (bytes b)
         (attempts b) (work b) (memory b) (seen b) (failed b) (rejected b) (duplicate b + 1),
       Ok false)
    else if MaxSymbols (limits b) <? i64 (symbols b + 1)
    then fail_with b (ErrBudgetExhausted SymbolCount)
    else
      let symbolBytes := len (Coeff s) + len (Data s) in
      if MaxBytes (limits b) <? i64 (bytes b + symbolBytes)
      then fail_with b (ErrBudgetExhausted ByteCount)
      else if MaxRankAttempts (limits b) <? i64 (attempts b + 1)
      then fail_with b (ErrBudgetExhausted RankAttempts)
      else if contradicts b s then (reject b, Err ErrCommitmentMismatch)
      else
        let rowWidth := i64 (dk (decoder b) + dsymbolSize (decoder b)) in
        let projected := i64 ((rank (decoder b) + 1) * rowWidth) in
        if MaxWorkUnits (limits b) <? i64 (work b + projected)
        then fail_with b (ErrBudgetExhausted EliminationWork)
        else if negb (Ready (decoder b)) && (MaxMemoryBytes (limits b) <? i64 (memory b + rowWidth))
        then fail_with b (ErrBudgetExhausted BasisMemory)
        else admit_symbol b s symbolBytes rowWidth projected
  end.

Definition BoundedDecode (b : BoundedDecoder) : result bounded_error (list byte) :=
  match failed b with
  | Some e => Err e
  | None => wrap ErrDecoder (DecoderDecode (decoder b))
  end.

Definition SourceCommitments (e : Encoder) : list (list byte) := CommitSource (source e).

(** A run: symbols offered one after the other, each at its own time. *)
Fixpoint offer_all (b : BoundedDecoder) (offers : list (Symbol * Z)) : BoundedDecoder :=
  match offers with
  | [] => b
  | (s, now) :: offers => offer_all (BoundedAdd b s now).1 offers
  end.
End operations.

(** ** Budgets *)

Section properties.
Context `{HashFunction}.

Definition row_width (b : BoundedDecoder) : Z := dk (decoder b) + dsymbolSize (decoder b).

(** Limits and dimensions small enough that no counter can wrap. *)
Definition roomy (b : BoundedDecoder) : Prop :=
  MaxSymbols (limits b) < 2 ^ 62 /\ MaxBytes (limits b) < 2 ^ 62 /\
  MaxRankAttempts (limits b) < 2 ^ 62 /\ MaxWorkUnits (limits b) < 2 ^ 62 /\
  MaxMemoryBytes (limits b) < 2 ^ 62 /\ 0 < dk (decoder b) /\ 0 < dsymbolSize (decoder b) /\
  (dk (decoder b) + 1) * row_width b < 2 ^ 62.

Definition within_budget (b : BoundedDecoder) : Prop :=
  0 <= symbols b <= MaxSymbols (limits b) /\ 0 <= bytes b <= MaxBytes (limits b) /\
  0 <= attempts b <= MaxRankAttempts (limits b) /\ 0 <= work b <= MaxWorkUnits (limits b) /\
  0 <= memory b <= MaxMemoryBytes (limits b).

(** While the generation is alive, the counters describe the basis. *)
Definition accounted (b : BoundedDecoder) : Prop :=
  match failed b with
  | Some _ => basis (decoder b) = [] /\ memory b = 0 /\ seen b = ∅
  | None => decoder_wf (decoder b) /\ memory b = rank (decoder b) * row_width b /\
            bytes b = symbols b * row_width b /\ attempts b = symbols b
  end.

Definition bounded_inv (b : BoundedDecoder) : Prop :=
  roomy b /\ within_budget b /\ accounted b.

Lemma decoder_rank_bound d : decoder_wf d -> 0 <= rank d <= dk d.
Proof.
  intros (Hk & _ & _ & [Hl _] & Hr). pose proof (count_rows_le (basis d)). lia.
Qed.

Lemma Add_rank d s d' r : decoder_wf d -> Add d s = (d', Ok r) ->
  rank d' = rank d + (if r then 1 else 0).
Proof.
  intros Hwf E. pose proof (Add_cases d s d' r Hwf E) as [_ Hc].
  destruct r; [destruct Hc as (? & ? & _ & _ & _ & _ & _ & ->)|destruct Hc as [-> _]]; simpl; lia.
Qed.

Lemma fail_with_inv b e : bounded_inv b -> failed b = None ->
  bounded_inv (fail_with b e).1.
Proof.
  intros (Hr & Hw & Ha) Hf. unfold fail_with, fail. rewrite Hf. simpl.
  unfold bounded_inv, roomy, within_budget, accounted, row_width in *. simpl. rewrite Hf in Ha.
  split_and!; try done; try lia.
Qed.

(** The admission step charges every counter by what its guard allowed. *)
Lemma admit_symbol_inv b s : bounded_inv b -> failed b = None ->
  fits_decoder (decoder b) s ->
  let rw := row_width b in
  let projected := (rank (decoder b) + 1) * rw in
  symbols b + 1 <= MaxSymbols (limits b) -> bytes b + rw <= MaxBytes (limits b) ->
  attempts b + 1 <= MaxRankAttempts (limits b) -> work b + projected <= MaxWorkUnits (limits b) ->
  (Ready (decoder b) = false -> memory b + rw <= MaxMemoryBytes (limits b)) ->
  bounded_inv (admit_symbol b s rw rw projected).1.
Proof.
  intros (Hr & Hw & Ha) Hf Hfit rw projected G1 G2 G3 G4 G5. unfold accounted in Ha.
  rewrite Hf in Ha. destruct Ha as (Hwf & Hm & Hb & Hat).
  pose proof (decoder_rank_bound _ Hwf) as Hrk.
  unfold admit_symbol. destruct (Add (decoder b) s) as [d' r] eqn:E.
  pose proof (Add_wf _ _ _ _ Hwf E) as (Hwf' & Hk' & Hs' & _).
  unfold roomy, within_budget, row_width in *. fold rw in Hr, Hm, Hb.
  assert (0 < rw) by lia. assert (0 <= projected < 2 ^ 62) by (unfold projected; nia).
  rewrite !i64_small by lia.
  assert (forall rej mem, 0 <= mem <= MaxMemoryBytes (limits b) -> mem = rank d' * rw ->
    bounded_inv (mkBounded d' (limits b) (commitments b) (deadline b) (symbols b + 1)
      (bytes b + rw) (attempts b + 1) (work b + projected) mem ({[fingerprint s]} ∪ seen b)
      (failed b) rej (duplicate b))) as Hinv.
  { intros rej mem Hmem Hmr. unfold bounded_inv, roomy, within_budget, accounted, row_width. simpl.
    rewrite Hf, Hk', Hs'. fold rw. split_and!; try done; try lia. }
  destruct r as [[]|e]; simpl.
  - pose proof (Add_rank _ _ _ _ Hwf E) as Hr'. cbn in Hr'. pose proof (decoder_rank_bound _ Hwf') as Hrk'.
    assert (Ready (decoder b) = false) as Hnr.
    { unfold Ready. apply Z.eqb_neq. lia. }
    specialize (G5 Hnr). apply Hinv; [lia|]. rewrite Hr'. lia.
  - pose proof (Add_rank _ _ _ _ Hwf E) as Hr'. cbn in Hr'. apply Hinv; [lia|]. rewrite Hr'. lia.
  - apply Add_error_unchanged in E as ->. apply Hinv; lia.
Qed.

Lemma BoundedAdd_inv b s now : bounded_inv b -> bounded_inv (BoundedAdd b s now).1.
Proof.
  intros Hinv. unfold BoundedAdd. destruct (failed b) as [e|] eqn:Hf; [done|].
  pose proof Hinv as (Hr & Hw & Ha). unfold accounted in Ha. rewrite Hf in Ha.
  destruct Ha as (Hwf & Hm & Hb & Hat). pose proof (decoder_rank_bound _ Hwf) as Hrk.
  unfold roomy in Hr. pose proof Hw as Hw'. unfold within_budget in Hw'.
  assert (0 < row_width b) by (unfold row_width; lia).
  destruct (negb (now <? deadline b)); [by apply fail_with_inv|].
  destruct (_ || _) eqn:Ed; [done|]. reflect_bools.
  assert (fits_decoder (decoder b) s) as Hfit by done.
  case_bool_decide; [done|].
  assert (len (Coeff s) + len (Data s) = row_width b) as Hrw by (unfold row_width; lia).
  rewrite !Hrw. fold (row_width b).
  assert (row_width b < 2 ^ 62 /\ 0 <= (rank (decoder b) + 1) * row_width b < 2 ^ 62) as [Hrb Hpb].
  { clear - Hr Hrk H0. nia. }
  rewrite (i64_small (row_width b)) by lia.
  rewrite (i64_small ((_ + _) * _)) by lia. rewrite !i64_small by lia.
  destruct (MaxSymbols _ <? _) eqn:?; [by apply fail_with_inv|].
  destruct (MaxBytes _ <? _) eqn:?; [by apply fail_with_inv|].
  destruct (MaxRankAttempts _ <? _) eqn:?; [by apply fail_with_inv|].
  destruct (contradicts b s); [done|].
  destruct (MaxWorkUnits _ <? _) eqn:?; [by apply fail_with_inv|].
  destruct (negb _ && _) eqn:Emem; [by apply fail_with_inv|]. reflect_bools.
  apply admit_symbol_inv; try done; try lia.
  intros Hnr. rewrite Hnr in Emem. cbn in Emem. reflect_bools. lia.
Qed.

Lemma offer_all_inv offers b : bounded_inv b -> bounded_inv (offer_all b offers).
Proof.
  revert b. induction offers as [|[s now] offers IH]; intros b Hb; simpl; [done|].
  apply IH. by apply BoundedAdd_inv.
Qed.

Lemma NewBoundedDecoder_inv k size original l cs now b :
  NewBoundedDecoder k size original l cs now = Ok b ->
  MaxSymbols l < 2 ^ 62 -> MaxBytes l < 2 ^ 62 -> MaxRankAttempts l < 2 ^ 62 ->
  MaxWorkUnits l < 2 ^ 62 -> MaxMemoryBytes l < 2 ^ 62 -> (k + 1) * (k + size) < 2 ^ 62 ->
  bounded_inv b /\ limits b = l /\ commitments b = cs /\ deadline b = now + Lifetime l /\
  dk (decoder b) = k /\ dsymbolSize (decoder b) = size /\ failed b = None /\ symbols b = 0 /\ work b = 0 /\
  NewDecoder k size original = Ok (decoder b).
Proof.
  intros E B1 B2 B3 B4 B5 B6. unfold NewBoundedDecoder in E.
  destruct (limits_validate l) as [[]|] eqn:El; [|done]. cbn [mbind result_bind] in E.
  destruct (match cs with Some cs => _ | None => _ end); [done|].
  destruct (NewDecoder k size original) as [d|] eqn:Ed; [|done].
  cbn [wrap mbind result_bind] in E. apply (inj Ok) in E. subst b.
  unfold limits_validate in El. run_guards El.
  pose proof (NewDecoder_wf _ _ _ _ Ed) as (Hwf & Hk & Hs & _ & Hn).
  pose proof Hwf as (Hk0 & Hs0 & _ & [Hl _] & Hr).
  assert (rank d = 0) as Hr0.
  { rewrite Hr. destruct (count_rows (basis d)) as [|n] eqn:Ec; [done|].
    exfalso. revert Hn Ec. clear. generalize (basis d) as bs. induction bs as [|o bs IH]; simpl; [done|].
    intros Hn. pose proof (Hn 0%nat) as H0. unfold row_at in H0. simpl in H0. subst o.
    apply IH. intros p. apply (Hn (S p)). }
  unfold bounded_inv, roomy, within_budget, accounted, row_width. simpl.
  rewrite Hk, Hs, Hr0 in *. split_and!; try done; try lia.
Qed.

(** A generation cannot cost more than its budget: from a fresh decoder,
    after any sequence of symbols offered at any times, every counter is
    within its limit, the memory charged is exactly that of the rows in the
    basis, and the basis is in reduced row-echelon form; a terminated
    generation holds no basis, no fingerprints and no memory.  Limits and
    dimensions are assumed small enough not to wrap a 64-bit counter. *)
Theorem budgets_enforced (k size original now : Z) (l : Limits)
  (cs : option (list (list byte))) (b : BoundedDecoder) (offers : list (Symbol * Z))
  (Hnew : NewBoundedDecoder k size original l cs now = Ok b)
  (Hcount : MaxSymbols l < 2 ^ 62) (Hbytes : MaxBytes l < 2 ^ 62)
  (Hatt : MaxRankAttempts l < 2 ^ 62) (Hwork : MaxWorkUnits l < 2 ^ 62)
  (Hmem : MaxMemoryBytes l < 2 ^ 62) (Hdim : (k + 1) * (k + size) < 2 ^ 62) :
  let b' := offer_all b offers in
  within_budget b' /\
  match failed b' with
  | Some _ => basis (decoder b') = [] /\ memory b' = 0 /\ seen b' = ∅
  | None => decoder_wf (decoder b') /\ memory b' = rank (decoder b') * row_width b' /\
            bytes b' = symbols b' * row_width b' /\ attempts b' = symbols b'
  end.
Proof.
  destruct (NewBoundedDecoder_inv _ _ _ _ _ _ _ Hnew) as (Hinv & _); [done..|].
  destruct (offer_all_inv offers b Hinv) as (_ & Hw & Ha). exact (conj Hw Ha).
Qed.

(** Termination is final. *)
Lemma failed_absorbing_step b e s now : failed b = Some e ->
  BoundedAdd b s now = (b, Err e).
Proof. intros Hf. unfold BoundedAdd. by rewrite Hf. Qed.

Lemma failure_absorbing_run offers b e : failed b = Some e ->
  offer_all b offers = b /\ BoundedDecode (offer_all b offers) = Err e.
Proof.
  intros Hf. assert (offer_all b offers = b) as ->.
  { induction offers as [|[s now] offers IH]; simpl; [done|].
    by rewrite (failed_absorbing_step b e). }
  split; [done|]. unfold BoundedDecode. by rewrite Hf.
Qed.

(** Once a generation has failed it stays failed with the same error:
    no further symbol changes anything and decoding returns that error. *)
Theorem failure_absorbing (b : BoundedDecoder) (e : bounded_error) (offers : list (Symbol * Z))
  (Hf : failed b = Some e) :
  offer_all b offers = b /\ BoundedDecode (offer_all b offers) = Err e.
Proof. by apply failure_absorbing_run. Qed.

(** ** Systematic symbols *)

Lemma systematic_loop_found c idx found : 0 <= found ->
  systematic_loop c idx found = if anyNonZero c then -1 else found.
Proof.
  intros Hf. revert idx. induction c as [|v c IH]; intros idx; simpl; [done|].
  case_bool_decide; simpl; [apply IH|]. by rewrite (proj2 (Z.leb_le _ _)).
Qed.

Lemma systematic_loop_unit c idx i : 0 <= idx -> (i < length c)%nat ->
  systematic_loop c idx (-1) = idx + Z.of_nat i <-> c = unit_vector (length c) i.
Proof.
  unfold unit_vector. revert idx i. induction c as [|v c IH]; intros idx i Hidx Hi; simpl in *; [lia|].
  case_bool_decide as Hv.
  - destruct i as [|i]; simpl.
    + split; [|intros [= -> _]; done]. intros Hs. exfalso.
      assert (forall c j, 0 <= j -> systematic_loop c j (-1) = -1 \/ j <= systematic_loop c j (-1)) as Hge.
      { clear. induction c as [|v c IH]; intros j Hj; simpl; [by left|]. case_bool_decide.
        - destruct (IH (j + 1)); [lia| |]; auto with lia.
        - case_bool_decide; simpl; [|by left]. rewrite systematic_loop_found by done.
          destruct (anyNonZero c); auto with lia. }
      destruct (Hge c (idx + 1)); lia.
    + replace (idx + Z.of_nat (S i)) with (idx + 1 + Z.of_nat i) by lia.
      rewrite IH by lia. subst v. split; [by intros <-|by intros [= <-]].
  - destruct (bool_decide (v = x01)) eqn:H1; reflect_bools; simpl.
    + rewrite systematic_loop_found by done.
      destruct (anyNonZero c) eqn:Ez.
      * split; [lia|]. destruct i; simpl; intros [= Hx Hc]; subst; [|done].
        change (replicate (length c) x00) with (zeros (length c)) in Hc.
        rewrite Hc, anyNonZero_zeros in Ez. done.
      * apply anyNonZero_false in Ez. destruct i; simpl; split; try lia; try done.
        -- intros _. by rewrite H1, Ez at 1.
        -- intros [= Hx _]. by subst.
    + split; [lia|]. destruct i; simpl; intros [= Hx _]; by subst.
Qed.

(** [systematicIndex] answers [i] exactly for the [i]-th unit vector. *)
Lemma systematicIndex_unit c i : (i < length c)%nat ->
  systematicIndex c = Z.of_nat i <-> c = unit_vector (length c) i.
Proof. intros Hi. apply (systematic_loop_unit c 0 i); [lia|done]. Qed.

Lemma nth_CommitSource src i : (i < length src)%nat ->
  nth i (CommitSource src) [] = commitSymbol (Z.of_nat i) (nth i src []).
Proof.
  intros Hi. apply nth_lookup_Some. unfold CommitSource. rewrite list_lookup_imap.
  destruct (src !! i) as [x|] eqn:E.
  - simpl. by rewrite (nth_lookup_Some _ _ _ _ E).
  - apply lookup_ge_None in E. lia.
Qed.

(** A systematic symbol is settled before it is admitted: against the
    commitments of the sources, one whose data differs from the source symbol
    it names is never accepted and leaves the inner decoder as it was (or
    released, if a limit ended the generation), and one that carries the
    source symbol is never refused as a mismatch.  Collision resistance is
    assumed of the two messages compared. *)
Theorem systematic_verified (src : list (list byte)) (b b' : BoundedDecoder) (i : nat)
  (data : list byte) (now : Z) (r : result bounded_error bool)
  (Hcs : commitments b = Some (CommitSource src)) (Hi : (i < length src)%nat)
  (Hcf : collision_free [commitment_message (Z.of_nat i) data;
                         commitment_message (Z.of_nat i) (nth i src [])])
  (Hadd : BoundedAdd b (mkSymbol (unit_vector (length src) i) data) now = (b', r)) :
  if bool_decide (data = nth i src []) then r <> Err ErrCommitmentMismatch \/ failed b <> None
  else r <> Ok true /\ (decoder b' = decoder b \/ decoder b' = release (decoder b)).
Proof.
  set (s := mkSymbol _ data) in *.
  assert (contradicts b s = negb (bool_decide (data = nth i src []))) as Hc.
  { unfold contradicts. rewrite Hcs. cbn [Coeff s].
    assert (systematicIndex (unit_vector (length src) i) = Z.of_nat i) as ->.
    { apply systematicIndex_unit; rewrite length_unit; done. }
    rewrite (proj2 (Z.ltb_ge _ _)) by lia. rewrite Nat2Z.id, nth_CommitSource by done. f_equal.
    apply bool_decide_ext. cbn [Data s]. split; [|by intros ->]. intros He.
    apply Hcf in He; [|set_solver..]. unfold commitment_message in He.
    by apply app_inv_head, app_inv_head in He. }
  assert (forall e, (fail_with b e).2 <> Ok true /\
            (decoder (fail_with b e).1 = decoder b \/
             decoder (fail_with b e).1 = release (decoder b))) as Hfail.
  { intros e. unfold fail_with, fail. destruct (failed b); simpl; auto. }
  unfold BoundedAdd in Hadd. cbv zeta in Hadd. rewrite Hc in Hadd.
  case_bool_decide; cbn [negb] in Hadd.
  - destruct (failed b) eqn:Hf; [by right|]. left. intros ->.
    assert (forall e b', fail_with b e <> (b', Err ErrCommitmentMismatch) \/
              e = ErrCommitmentMismatch) as Hno.
    { intros e b0. unfold fail_with, fail. rewrite Hf. destruct e; auto; by left. }
    repeat (case_hyp Hadd; try done; try (by destruct (Hno _ _ Hadd))).
    all: try (by edestruct Hno).
    unfold admit_symbol in Hadd. by repeat case_hyp Hadd.
  - repeat (case_hyp Hadd; try (injection Hadd as <- <-; auto; fail)).
    all: try (match type of Hadd with fail_with _ ?e = _ =>
      specialize (Hfail e); by rewrite Hadd in Hfail end).
Qed.

(** ** Refinement of the plain decoder *)

(** Symbols that reach the inner decoder, whatever it answers. *)
Definition inner_adds (d : Decoder) (ss : list Symbol) : Decoder :=
  fold_left (fun d s => (Add d s).1) ss d.

Lemma BoundedAdd_inner b s now : failed (BoundedAdd b s now).1 = None ->
  failed b = None /\
  ((decoder (BoundedAdd b s now).1 = decoder b /\ symbols (BoundedAdd b s now).1 = symbols b /\
    (BoundedAdd b s now).2 <> Ok true) \/
   (decoder (BoundedAdd b s now).1 = (Add (decoder b) s).1 /\
    symbols (BoundedAdd b s now).1 = i64 (symbols b + 1) /\
    (BoundedAdd b s now).2 = wrap ErrDecoder (Add (decoder b) s).2)).
Proof.
  assert (forall e, failed b = None -> failed (fail_with b e).1 = None -> False) as Hfail.
  { intros e Hf. unfold fail_with, fail. by rewrite Hf. }
  unfold BoundedAdd. cbv zeta. destruct (failed b) as [e|] eqn:Hf; [simpl; congruence|].
  intros Hn. split; [done|]. revert Hn.
  repeat (case_goal; try (intros Hn; exfalso; by eapply Hfail); try (intros _; left; split_and!; done)).
  intros _. right. unfold admit_symbol. by destruct (Add (decoder b) s) as [d' [r|e]].
Qed.

(** The budgeted decoder refines the plain one: while the generation has
    not failed, its basis is exactly what the plain decoder reaches on a
    subsequence of the offered symbols, one plain [Add] per symbol charged,
    so budgets and duplicate suppression never alter the elimination. *)
Theorem bounded_refines_decoder (b : BoundedDecoder) (offers : list (Symbol * Z))
  (Hinv : bounded_inv b) (Hlive : failed (offer_all b offers) = None) :
  exists admitted, admitted `sublist_of` map fst offers /\
    decoder (offer_all b offers) = inner_adds (decoder b) admitted /\
    symbols (offer_all b offers) = symbols b + len admitted.
Proof.
  revert b Hinv Hlive. induction offers as [|[s now] offers IH]; intros b Hinv Hlive; simpl in *.
  { exists []. split_and!; [done..|simpl; lia]. }
  pose proof (BoundedAdd_inv b s now Hinv) as Hinv1.
  destruct (IH _ Hinv1 Hlive) as (admitted & Hsub & Hd & Hs).
  assert (failed (BoundedAdd b s now).1 = None) as Hf1.
  { destruct (failed (BoundedAdd b s now).1) as [e|] eqn:Hf; [|done].
    destruct (failure_absorbing_run offers _ e Hf) as [-> _] in Hlive. congruence. }
  destruct (BoundedAdd_inner b s now Hf1) as [Hf [(E1 & E2 & _)|(E1 & E2 & _)]].
  - exists admitted. rewrite Hd, Hs, E1, E2. split_and!; [by apply sublist_cons|done..].
  - exists (s :: admitted). rewrite Hd, Hs, E1, E2. simpl.
    destruct Hinv as (Hr & Hw & _). unfold roomy, within_budget in *.
    rewrite i64_small by lia. split_and!; [by apply sublist_skip|done|lia].
Qed.

(** ** The default limits *)

Definition small_dimensions (k size : Z) : Prop := 0 < k <= 65535 /\ 0 < size <= 65535.

Lemma DefaultLimits_eq k size : small_dimensions k size ->
  DefaultLimits k size = mkLimits (4 * k) (4 * k * (k + size)) (4 * k) (4 * k * k * (k + size))
    (k * (k + size)) (5 * 60 * 1000000000).
Proof.
  intros [Hk Hs]. unfold DefaultLimits. rewrite (i64_small (k + size)) by lia.
  rewrite (i64_small (4 * k)), (i64_small (4 * k * k)) by nia. rewrite !i64_small by nia. done.
Qed.

(** A live generation under the default limits that is not complete and has
    room for one more symbol admits it. *)
Lemma default_step b k size s now : small_dimensions k size -> bounded_inv b -> failed b = None ->
  limits b = DefaultLimits k size -> dk (decoder b) = k -> dsymbolSize (decoder b) = size ->
  now < deadline b -> symbols b < 4 * k -> work b <= symbols b * k * (k + size) ->
  Ready (decoder b) = false ->
  let b' := (BoundedAdd b s now).1 in
  failed b' = None /\ symbols b' <= symbols b + 1 /\
  work b' <= symbols b' * k * (k + size) /\ limits b' = limits b /\ deadline b' = deadline b /\
  dk (decoder b') = k /\ dsymbolSize (decoder b') = size.
Proof.
  intros Hsm Hinv Hf Hl Hk Hs Hnow Hroom Hwork Hready b'.
  pose proof (DefaultLimits_eq k size Hsm) as Hd. destruct Hsm as [Hk0 Hs0].
  pose proof Hinv as (Hr & Hw & Ha). unfold accounted in Ha. rewrite Hf in Ha.
  destruct Ha as (Hwf & Hm & Hb & Hat). pose proof (decoder_rank_bound _ Hwf) as Hrk.
  unfold roomy, within_budget, row_width in *. rewrite Hl, Hd, Hk, Hs in *.
  cbn [MaxSymbols MaxBytes MaxRankAttempts MaxWorkUnits MaxMemoryBytes] in *.
  assert (rank (decoder b) < k) as Hrank.
  { unfold Ready in Hready. rewrite Hk in Hready. reflect_bools. lia. }
  set (rw := k + size) in *.
  assert (0 < rw) by lia.
  assert ((rank (decoder b) + 1) * rw <= k * rw) as Hproj by nia.
  assert (0 <= (rank (decoder b) + 1) * rw) by nia.
  assert (symbols b * k * rw + k * rw <= 4 * k * k * rw) as Hwmax by (clear - Hroom H0 Hk0; nia).
  assert (symbols b * rw + rw <= 4 * k * rw) as Hbmax by (clear - Hroom H0 Hk0; nia).
  assert (rank (decoder b) * rw + rw <= k * rw) as Hmmax by nia.
  subst b'. unfold BoundedAdd. rewrite Hf, Hl, Hk, Hs. fold rw.
  cbn [MaxSymbols MaxBytes MaxRankAttempts MaxWorkUnits MaxMemoryBytes].
  rewrite (proj2 (Z.ltb_lt _ _) Hnow). cbn [negb].
  destruct (_ || _) eqn:Edim; [simpl; rewrite Hk, Hs; split_and!; auto; lia|]. reflect_bools.
  case_bool_decide; [simpl; rewrite Hk, Hs; split_and!; auto; lia|].
  replace (len (Coeff s) + len (Data s)) with rw by lia.
  rewrite (i64_small rw), (i64_small ((_ + _) * _)) by lia. rewrite !i64_small by lia.
  rewrite !(proj2 (Z.ltb_ge _ _)) by lia. rewrite andb_false_r.
  destruct (contradicts b s); [simpl; rewrite Hk, Hs; split_and!; auto; lia|].
  unfold admit_symbol. destruct (Add (decoder b) s) as [d' r] eqn:E.
  pose proof (Add_wf _ _ _ _ Hwf E) as (_ & Hk' & Hs' & _).
  rewrite !(i64_small (symbols b + 1)), !(i64_small (work b + _)) by lia.
  assert (work b + (rank (decoder b) + 1) * rw <= (symbols b + 1) * k * rw) by lia.
  destruct r as [r|e]; simpl; rewrite Hk', Hs', Hk, Hs; split_and!; auto; lia.
Qed.

Lemma default_run offers k size b : small_dimensions k size -> bounded_inv b -> failed b = None ->
  limits b = DefaultLimits k size -> dk (decoder b) = k -> dsymbolSize (decoder b) = size ->
  Forall (fun o => o.2 < deadline b) offers -> symbols b + len offers <= 4 * k ->
  work b <= symbols b * k * (k + size) ->
  failed (offer_all b offers) = None \/
  exists n, (n < length offers)%nat /\ Ready (decoder (offer_all b (take n offers))) = true.
Proof.
  intros Hsm. revert b. induction offers as [|[s now] offers IH];
    intros b Hinv Hf Hl Hk Hs Hnow Hroom Hwork; simpl; [by left|].
  destruct (Ready (decoder b)) eqn:Hready; [right; exists 0%nat; split; [lia|done]|].
  apply Forall_cons in Hnow as [Ht Hnow]. cbn [length snd] in *.
  destruct (default_step b k size s now) as (F1 & F2 & F3 & F4 & F5 & F6 & F7); auto; [lia|].
  destruct (IH (BoundedAdd b s now).1) as [Hdone|(n & Hn & Hr)]; auto.
  - by apply BoundedAdd_inv.
  - by rewrite F4.
  - by rewrite F5.
  - lia.
  - right. exists (S n). split; [lia|done].
Qed.

(** The default limits never starve a generation that still needs
    symbols: offered up to [4k] symbols within its lifetime, whatever they
    are and whoever sent them, a fresh generation has not failed unless its
    decoder was already complete before one of them. *)
Theorem default_limits_suffice (k size original now : Z) (cs : option (list (list byte)))
  (b : BoundedDecoder) (offers : list (Symbol * Z))
  (Hk : k <= 65535) (Hs : size <= 65535)
  (Hnew : NewBoundedDecoder k size original (DefaultLimits k size) cs now = Ok b)
  (Htime : Forall (fun o => o.2 < now + 300000000000) offers)
  (Hcount : len offers <= 4 * k) :
  failed (offer_all b offers) = None \/
  exists n, (n < length offers)%nat /\ Ready (decoder (offer_all b (take n offers))) = true.
Proof.
  assert (0 < k /\ 0 < size) as [Hk0 Hs0].
  { unfold NewBoundedDecoder in Hnew. destruct (limits_validate _); [|done].
    cbn [mbind result_bind] in Hnew. destruct (match cs with Some _ => _ | None => _ end); [done|].
    destruct (NewDecoder k size original) as [d|] eqn:Ed; [|done].
    apply NewDecoder_wf in Ed as (Hwf & <- & <- & _). by destruct Hwf as (? & ? & _). }
  assert (small_dimensions k size) as Hsm by (unfold small_dimensions; lia).
  rewrite (DefaultLimits_eq k size Hsm) in Hnew.
  apply NewBoundedDecoder_inv in Hnew as (Hinv & Hl & _ & Hdl & Hdk & Hds & Hf & Hsy & Hwk & _);
    cbn [MaxSymbols MaxBytes MaxRankAttempts MaxWorkUnits MaxMemoryBytes] in *; try nia.
  apply (default_run offers k size); auto.
  - by rewrite Hl, (DefaultLimits_eq k size Hsm).
  - rewrite Hdl. exact Htime.
  - lia.
  - rewrite Hsy, Hwk. lia.
Qed.
End properties.

(** ** Witnesses *)

(** A generation of two one-byte symbols with its commitments. *)
Definition example_sources : list (list byte) := [[x05]; [x09]].

Lemma budgets_enforced_witness : exists b,
  NewBoundedDecoder 2 1 2 (DefaultLimits 2 1) (Some (CommitSource example_sources)) 0 = Ok b /\
  within_budget (offer_all b [(mkSymbol [x01; x00] [x05], 1); (mkSymbol [x02; x03] [x07], 2)]).
Proof.
  eexists. split; [reflexivity|].
  apply (budgets_enforced 2 1 2 0 (DefaultLimits 2 1) (Some (CommitSource example_sources)) _
    [(mkSymbol [x01; x00] [x05], 1); (mkSymbol [x02; x03] [x07], 2)]); reflexivity.
Defined.

Definition expired_generation : BoundedDecoder :=
  mkBounded (mkDecoder 2 1 2 [] 0) (DefaultLimits 2 1) None 10 1 3 1 3 0 ∅
    (Some ErrGenerationExpired) 0 0.

Lemma failure_absorbing_witness :
  BoundedDecode (offer_all expired_generation [(mkSymbol [x01; x00] [x05], 3)]) =
  Err ErrGenerationExpired.
Proof.
  exact (proj2 (failure_absorbing expired_generation ErrGenerationExpired
    [(mkSymbol [x01; x00] [x05], 3)] eq_refl)).
Defined.

Definition example_bounded : BoundedDecoder :=
  mkBounded (mkDecoder 2 1 2 [None; None] 0) (DefaultLimits 2 1)
    (Some (CommitSource example_sources)) 300000000000 0 0 0 0 0 ∅ None 0 0.

Lemma systematic_verified_witness :
  NewBoundedDecoder 2 1 2 (DefaultLimits 2 1) (Some (CommitSource example_sources)) 0 =
    Ok example_bounded /\
  exists b' r, BoundedAdd example_bounded (mkSymbol (unit_vector 2 1) [x08]) 1 = (b', r) /\
    r <> Ok true.
Proof.
  split; [reflexivity|].
  destruct (BoundedAdd example_bounded (mkSymbol (unit_vector 2 1) [x08]) 1) as [b' r] eqn:E.
  exists b', r. split; [reflexivity|].
  refine (proj1 (systematic_verified example_sources example_bounded b' 1 [x08] 1 r eq_refl _ _ E)).
  - cbn. lia.
  - apply collision_freeb_ok. vm_compute. reflexivity.
Defined.

Lemma bounded_refines_decoder_witness : exists b admitted,
  NewBoundedDecoder 2 1 2 (DefaultLimits 2 1) None 0 = Ok b /\
  admitted `sublist_of` map fst [(mkSymbol [x01] [x05], 1)] /\
  decoder (offer_all b [(mkSymbol [x01] [x05], 1)]) = inner_adds (decoder b) admitted.
Proof.
  eexists. eassert (NewBoundedDecoder 2 1 2 (DefaultLimits 2 1) None 0 = Ok _) as Hnew by reflexivity.
  destruct (bounded_refines_decoder _ [(mkSymbol [x01] [x05], 1)]
    (proj1 (NewBoundedDecoder_inv _ _ _ _ _ _ _ Hnew eq_refl eq_refl eq_refl eq_refl eq_refl eq_refl)) eq_refl)
    as (admitted & Hsub & Hd & _).
  exists admitted. split; [exact Hnew|]. split; [exact Hsub|exact Hd].
Defined.

Lemma default_limits_suffice_witness : exists b,
  NewBoundedDecoder 2 1 2 (DefaultLimits 2 1) None 0 = Ok b /\
  let offers := [(mkSymbol [x01; x00] [x05], 1); (mkSymbol [x02; x03] [x07], 2)] in
  failed (offer_all b offers) = None \/
  exists n, (n < length offers)%nat /\ Ready (decoder (offer_all b (take n offers))) = true.
Proof.
  eexists. split; [reflexivity|].
  apply (default_limits_suffice 2 1 2 0 None); try reflexivity; try (cbn; lia).
  repeat constructor.
Defined.
