(* ===== verification/Replay.v ===== *)
(** The anti-replay window of one hop ([live/hop/replay.go]): a 64-bit bitmap
    below the highest sequence number accepted.  It is verified against a
    specification that remembers the whole history. *)

From stdpp Require Import base list list_numbers.
From Stdlib Require Import ZArith Lia.
From S2P Require Import Prelude.

(** ** Definitions *)

Record ReplayWindow := mkWindow {
  initialized : bool;
  highest : Z;
  bitmap : Z;
}.

Inductive replay_error := ErrReplay.

(** The zero value of the struct. *)
Definition new_window : ReplayWindow := mkWindow false 0 0.

Definition Accept (window : ReplayWindow) (sequence : Z) : ReplayWindow * result replay_error unit :=
  if sequence =? 0 then (window, Err ErrReplay)
  else if negb (initialized window) then (mkWindow true sequence 1, Ok tt)
  else if highest window <? sequence then
    let shift := u32 (sequence - highest window) in
    let bits := if 64 <=? shift then 1
                else Z.lor (u64 (Z.shiftl (bitmap window) shift)) 1 in
    (mkWindow true sequence bits, Ok tt)
  else
    let delta := u32 (highest window - sequence) in
    (** Go's shift count is not masked: [1 << delta] is 0 from 64 on, but the
        first disjunct already answers there. *)
    if (64 <=? delta) || negb (Z.land (bitmap window) (u64 (Z.shiftl 1 delta)) =? 0)
    then (window, Err ErrReplay)
    else (mkWindow true (highest window) (Z.lor (bitmap window) (u64 (Z.shiftl 1 delta))), Ok tt).

(** Answers of the window to a sequence of arrivals. *)
Fixpoint answers (window : ReplayWindow) (arrivals : list Z) : list bool :=
  match arrivals with
  | [] => []
  | s :: arrivals => let (window', r) := Accept window s in is_ok r :: answers window' arrivals
  end.

(** ** Specification *)

(** A number is admitted when it is not zero, was not accepted before and is
    not 64 or more below any accepted number. *)
Definition admissible (accepted : list Z) (s : Z) : bool :=
  negb (s =? 0) && forallb (fun x => negb (x =? s) && (x <? s + 64)) accepted.

Fixpoint spec_answers (accepted : list Z) (arrivals : list Z) : list bool :=
  match arrivals with
  | [] => []
  | s :: arrivals =>
      let ok := admissible accepted s in
      ok :: spec_answers (if ok then s :: accepted else accepted) arrivals
  end.

(** ** Refinement *)

(** The bitmap is the set of accepted numbers within 64 of the highest. *)
Definition represents (window : ReplayWindow) (accepted : list Z) : Prop :=
  Forall (fun x => 0 < x < 2 ^ 32) accepted /\
  if initialized window then
    highest window ∈ accepted /\ (forall x, x ∈ accepted -> x <= highest window) /\
    fits 64 (bitmap window) /\
    forall d, 0 <= d < 64 ->
      Z.testbit (bitmap window) d = bool_decide (highest window - d ∈ accepted)
  else accepted = [].

Lemma u64_testbit z i : 0 <= i -> Z.testbit (u64 z) i = (i <? 64) && Z.testbit z i.
Proof.
  intros Hi. unfold wrapu. destruct (Z.ltb_spec i 64).
  - by rewrite Z.mod_pow2_bits_low.
  - by rewrite Z.mod_pow2_bits_high by lia.
Qed.

Lemma bit_testbit delta i : 0 <= delta < 64 -> 0 <= i ->
  Z.testbit (u64 (Z.shiftl 1 delta)) i = (i =? delta).
Proof.
  intros Hd Hi. rewrite u64_testbit, Z.shiftl_1_l, Z.pow2_bits_eqb by lia.
  destruct (Z.eqb_spec delta i), (Z.ltb_spec i 64), (Z.eqb_spec i delta); lia || done.
Qed.

Lemma fits_lor a b : fits 64 a -> fits 64 b -> fits 64 (Z.lor a b).
Proof.
  unfold fits. intros Ha Hb.
  assert (Z.lor a b = Z.lor a b mod 2 ^ 64) as ->; [|apply Z.mod_pos_bound; lia].
  apply Z.bits_inj'. intros i Hi. rewrite Z.lor_spec.
  destruct (decide (i < 64)).
  - by rewrite Z.mod_pow2_bits_low, Z.lor_spec.
  - rewrite Z.mod_pow2_bits_high by lia.
    rewrite <- (Z.mod_small a (2 ^ 64)), <- (Z.mod_small b (2 ^ 64)) by lia.
    by rewrite !Z.mod_pow2_bits_high by lia.
Qed.

(** Testing one bit of the map. *)
Lemma land_bit b delta : 0 <= delta < 64 ->
  (Z.land b (u64 (Z.shiftl 1 delta)) =? 0) = negb (Z.testbit b delta).
Proof.
  intros Hd. destruct (Z.testbit b delta) eqn:E; simpl.
  - apply Z.eqb_neq. intros H0. apply (f_equal (fun z => Z.testbit z delta)) in H0.
    rewrite Z.land_spec, E, bit_testbit, Z.eqb_refl, Z.bits_0 in H0 by lia. done.
  - apply Z.eqb_eq, Z.bits_inj'. intros i Hi. rewrite Z.land_spec, bit_testbit, Z.bits_0 by lia.
    destruct (Z.eqb_spec i delta) as [->|]; [by rewrite E|apply andb_false_r].
Qed.

Lemma admissible_true accepted s :
  admissible accepted s = true <-> s <> 0 /\ s ∉ accepted /\ forall x, x ∈ accepted -> x < s + 64.
Proof.
  unfold admissible. rewrite andb_true_iff, negb_true_iff, Z.eqb_neq, forallb_forall. split.
  - intros [H0 Ha]. split_and!; [done| |].
    + intros Hin%list_elem_of_In. specialize (Ha s Hin). reflect_bools. lia.
    + intros x Hin%list_elem_of_In. specialize (Ha x Hin). by reflect_bools.
  - intros (H0 & Hn & Ha). split; [done|]. intros x Hx%list_elem_of_In.
    apply andb_true_iff. rewrite negb_true_iff, Z.eqb_neq, Z.ltb_lt. split; [by intros ->|auto].
Qed.

Lemma admissible_false accepted s x : x ∈ accepted -> x = s \/ s + 64 <= x -> admissible accepted s = false.
Proof.
  intros Hx Hor. destruct (admissible accepted s) eqn:E; [|done].
  apply admissible_true in E as (_ & Hn & Ha). specialize (Ha x Hx). destruct Hor as [->|]; [done|lia].
Qed.

(** One step of the window is one step of the specification. *)
Lemma Accept_refines window accepted s : represents window accepted -> fits 32 s ->
  is_ok (Accept window s).2 = admissible accepted s /\
  represents (Accept window s).1 (if admissible accepted s then s :: accepted else accepted).
Proof.
  intros [Hpos HR] Hs. unfold fits in Hs. unfold Accept.
  destruct (Z.eqb_spec s 0) as [->|Hs0]; [by split|].
  destruct (initialized window) eqn:Hi; simpl.
  2: { subst accepted. rewrite (proj2 (admissible_true [] s)).
       2: { split_and!; [done|by intros ?%elem_of_nil|by intros ? ?%elem_of_nil]. }
       simpl. split; [done|]. split; [constructor; [lia|constructor]|]. simpl.
       split_and!; [by left|intros x [->|Hx%elem_of_nil]%elem_of_cons; done|done|].
       intros d Hd. destruct (decide (d = 0)) as [->|Hd0].
       - rewrite bool_decide_true; [done|]. apply elem_of_cons. left. lia.
       - rewrite bool_decide_false.
         2: { intros [Hx|Hx%elem_of_nil]%elem_of_cons; [lia|done]. }
         by destruct d. }
  destruct HR as (Hin & Hmax & Hfit & Hbits).
  pose proof (proj1 (Forall_forall _ _) Hpos _ Hin) as Hh. simpl in Hh.
  destruct (Z.ltb_spec (highest window) s) as [Hlt|Hge].
  - rewrite wrapu_small by (unfold fits; lia).
    rewrite (proj2 (admissible_true accepted s)).
    2: { split_and!; [done|intros Hx%Hmax; lia|intros x Hx%Hmax; lia]. }
    split; [done|]. split; [constructor; [lia|done]|]. simpl.
    split; [by left|]. split; [intros x [->|Hx%Hmax]%elem_of_cons; lia|].
    destruct (Z.leb_spec 64 (s - highest window)) as [Hbig|Hsmall].
    + split; [done|]. intros d Hd. destruct (decide (d = 0)) as [->|Hd0].
      * rewrite bool_decide_true; [done|]. apply elem_of_cons. left. lia.
      * rewrite bool_decide_false; [by destruct d|].
        intros [Hx|Hx%Hmax]%elem_of_cons; lia.
    + split; [apply fits_lor; [apply wrapu_fits; lia|done]|].
      intros d Hd. rewrite Z.lor_spec, u64_testbit, Z.shiftl_spec by lia.
      rewrite (proj2 (Z.ltb_lt d 64)) by lia. cbn [andb].
      destruct (decide (d = 0)) as [->|Hd0].
      { rewrite orb_true_r, bool_decide_true; [done|]. apply elem_of_cons. left. lia. }
      replace (Z.testbit 1 d) with false by (by destruct d). rewrite orb_false_r.
      destruct (decide (d < s - highest window)).
      * rewrite Z.testbit_neg_r, bool_decide_false; [done| |lia].
        intros [Hx|Hx%Hmax]%elem_of_cons; lia.
      * rewrite Hbits by lia. apply bool_decide_ext. rewrite elem_of_cons.
        replace (highest window - (d - (s - highest window))) with (s - d) by lia.
        split; [by right|]. intros [Hx|Hx]; [lia|done].
  - rewrite wrapu_small by (unfold fits; lia). set (delta := highest window - s).
    destruct (Z.leb_spec 64 delta) as [Hbig|Hsmall].
    + cbn [orb]. rewrite (admissible_false accepted s (highest window)); [|done|right; unfold delta in *; lia].
      unfold represents. simpl. rewrite Hi. by split_and!.
    + cbn [orb]. rewrite land_bit by (unfold delta in *; lia). rewrite negb_involutive, Hbits by (unfold delta in *; lia).
      replace (highest window - delta) with s by (unfold delta; lia).
      case_bool_decide as Hs'; simpl.
      * rewrite (admissible_false accepted s s); [|done|by left].
        unfold represents. simpl. rewrite Hi. by split_and!.
      * rewrite (proj2 (admissible_true accepted s)).
        2: { split_and!; [done|done|intros x Hx%Hmax; unfold delta in *; lia]. }
        split; [done|]. split; [constructor; [lia|done]|]. simpl.
        split_and!; [by right|intros x [->|Hx%Hmax]%elem_of_cons; unfold delta in *; lia| |].
        { apply fits_lor; [done|apply wrapu_fits; lia]. }
        intros d Hd. rewrite Z.lor_spec, bit_testbit, Hbits by (unfold delta in *; lia).
        destruct (Z.eqb_spec d delta) as [->|Hne].
        -- rewrite orb_true_r, bool_decide_true; [done|]. apply elem_of_cons. left. unfold delta. lia.
        -- rewrite orb_false_r. apply bool_decide_ext. rewrite elem_of_cons.
           split; [by right|]. intros [Hx|Hx]; [unfold delta in *; lia|done].
Qed.

Lemma answers_refine arrivals window accepted : represents window accepted -> Forall (fits 32) arrivals ->
  answers window arrivals = spec_answers accepted arrivals.
Proof.
  intros HR Hf. revert window accepted HR.
  induction Hf as [|s arrivals Hs Hf IH]; intros window accepted HR; simpl; [done|].
  pose proof (Accept_refines window accepted s HR Hs) as [Hok HR'].
  destruct (Accept window s) as [window' r]. simpl in *. rewrite Hok. f_equal. by apply IH.
Qed.

(** C31: the bitmap window implements its specification: on any arrivals it
    accepts exactly the numbers that are non-zero, were not accepted before and
    are less than 64 below every number accepted so far. *)
Theorem window_refines_history (arrivals : list Z) (Hf : Forall (fits 32) arrivals) :
  answers new_window arrivals = spec_answers [] arrivals.
Proof. apply answers_refine; [|done]. split; [constructor|done]. Qed.

Lemma window_refines_history_witness :
  answers new_window [5; 7; 6; 7; 100; 36; 37; 0] =
  [true; true; true; false; true; false; true; false].
Proof.
  rewrite (window_refines_history [5; 7; 6; 7; 100; 36; 37; 0]).
  - reflexivity.
  - repeat (constructor; [split; [apply Z.leb_le|apply Z.ltb_lt]; reflexivity|]). constructor.
Defined.

(** The numbers accepted during a run, oldest first. *)
Definition accepted_of (arrivals : list Z) (oks : list bool) : list Z :=
  map fst (filter (fun p => p.2 = true) (zip arrivals oks)).

(** No sequence number is ever accepted twice, whatever the order, the
    duplication or the loss of the arrivals, and zero never is. *)
Theorem no_replay (arrivals : list Z) (Hf : Forall (fits 32) arrivals) :
  NoDup (accepted_of arrivals (answers new_window arrivals)) /\
  0 ∉ accepted_of arrivals (answers new_window arrivals).
Proof.
  rewrite (answers_refine arrivals new_window []) by (done || (split; [constructor|done])).
  assert (forall arrivals accepted,
    NoDup (accepted_of arrivals (spec_answers accepted arrivals)) /\
    (forall x, x ∈ accepted_of arrivals (spec_answers accepted arrivals) -> x <> 0 /\ x ∉ accepted)) as Hgen.
  { clear. intros arrivals. induction arrivals as [|s arrivals IH]; intros accepted.
    - split; [constructor|]. by intros x ?%elem_of_nil.
    - unfold accepted_of in *. cbn [zip spec_answers]. simpl zip_with. rewrite filter_cons. cbn [snd].
      destruct (admissible accepted s) eqn:E.
      + rewrite decide_True by done. apply admissible_true in E as (H0 & Hn & _).
        destruct (IH (s :: accepted)) as [Hnd Hall]. cbn [map fst]. split.
        * constructor; [|done]. intros Hin. apply Hall in Hin as [_ Hin]. apply Hin. by left.
        * intros x [->|Hx]%elem_of_cons; [done|]. apply Hall in Hx as [Hx0 Hx].
          split; [done|]. intros Hin. apply Hx. by right.
      + rewrite decide_False by done. apply IH. }
  destruct (Hgen arrivals []) as [Hnd Hall]. split; [done|]. intros H0. by apply Hall in H0 as [? _].
Qed.

Lemma no_replay_witness : NoDup (accepted_of [5; 7; 5] (answers new_window [5; 7; 5])) /\
  accepted_of [5; 7; 5] (answers new_window [5; 7; 5]) = [5; 7].
Proof.
  split; [|reflexivity].
  apply (no_replay [5; 7; 5]).
  repeat (constructor; [split; [apply Z.leb_le|apply Z.ltb_lt]; reflexivity|]). constructor.
Defined.
