(* ===== verification/Sequence.v ===== *)
(** Durable sequence reservation ([live/hop/sequence.go] and
    [live/uplink/sequence.go]): the numbers that key the cell ciphers, handed
    out from ranges reserved on disk, across crashes and failed writes.

    Both files implement one algorithm at two widths; [n] is the width in
    bytes (4 for a hop, 8 for an uplink).  The disk is explicit: it has the
    content a reader sees now and the content that is known to survive a
    crash, which differ between a rename and the directory sync after it. *)

From stdpp Require Import base list list_numbers sorting.
From Stdlib Require Import ZArith Lia Strings.Byte Sorting.Sorted.
From S2P Require Import Prelude Bytes.

(** ** Definitions *)

Inductive file := Absent | Regular (content : list byte) | Irregular.

Record disk := mkDisk {
  current : file;       (* what the next open reads *)
  durable : file;       (* what a crash can fall back to *)
}.

Inductive sequence_error :=
| ErrPathRequired
| ErrMkdir
| ErrSequenceWriteFailed
| ErrSequenceExhausted
| ErrSequenceStateInvalid.

(** The outcome of one [atomicStateWrite]: it fails before the rename, at the
    directory sync after the rename, or not at all. *)
Inductive write_outcome := FailsBeforeRename | FailsAtSync | Succeeds.

(** What the operating system does during one reservation. *)
Record io := mkIO {
  read_fails : bool;
  write : write_outcome;
}.

Record FileSequence := mkSequence {
  next : Z;
  reserved : Z;
}.

Definition sequenceReservation : Z := Z.shiftl 1 20.

Section operations.
Context (n : nat).

Definition maximum : Z := 2 ^ (8 * Z.of_nat n) - 1.

Definition readReservation (env : io) (f : file) : result sequence_error Z :=
  match f with
  | Absent => Ok 0
  | Irregular => Err ErrSequenceStateInvalid
  | Regular content =>
      if read_fails env then Err ErrSequenceStateInvalid
      else if negb (Nat.eqb (length content) n) then Err ErrSequenceStateInvalid
      else Ok (be_val content)
  end.

Definition atomicStateWrite (env : io) (d : disk) (data : list byte) : disk * bool :=
  match write env with
  | FailsBeforeRename => (d, false)
  | FailsAtSync => (mkDisk (Regular data) (durable d), false)
  | Succeeds => (mkDisk (Regular data) (Regular data), true)
  end.

Definition reserve (env : io) (d : disk) (s : FileSequence)
  : disk * FileSequence * result sequence_error unit :=
  match readReservation env (current d) with
  | Err e => (d, s, Err e)
  | Ok previous =>
      if maximum - sequenceReservation <? previous then (d, s, Err ErrSequenceExhausted)
      else
        let r := wrapu (8 * Z.of_nat n) (previous + sequenceReservation) in
        let (d', ok) := atomicStateWrite env d (be n r) in
        if negb ok then (d', s, Err ErrSequenceWriteFailed)
        else (d', mkSequence (wrapu (8 * Z.of_nat n) (previous + 1)) r, Ok tt)
  end.

Definition OpenFileSequence (env : io) (path_given mkdir_ok : bool) (d : disk)
  : disk * result sequence_error FileSequence :=
  if negb path_given then (d, Err ErrPathRequired)
  else if negb mkdir_ok then (d, Err ErrMkdir)
  else match reserve env d (mkSequence 0 0) with
       | (d', s, Ok _) => (d', Ok s)
       | (d', _, Err e) => (d', Err e)
       end.

Definition Next (env : io) (d : disk) (s : FileSequence)
  : disk * FileSequence * result sequence_error Z :=
  let issue d s :=
    (d, mkSequence (wrapu (8 * Z.of_nat n) (next s + 1)) (reserved s), Ok (next s)) in
  if (next s =? 0) || (reserved s <? next s) then
    match reserve env d s with
    | (d', s', Ok _) => issue d' s'
    | (d', s', Err e) => (d', s', Err e)
    end
  else issue d s.

Definition Return (s : FileSequence) (value : Z) : FileSequence :=
  if negb (value =? 0) && (next s =? wrapu (8 * Z.of_nat n) (value + 1))
  then mkSequence value (reserved s) else s.
End operations.

(** The two packages. *)
Definition hop_OpenFileSequence := OpenFileSequence 4.
Definition hop_Next := Next 4.
Definition hop_reserve := reserve 4.
Definition hop_readReservation := readReservation 4.
Definition hop_Return := Return 4.

Definition uplink_OpenFileSequence := OpenFileSequence 8.
Definition uplink_Next := Next 8.
Definition uplink_reserve := reserve 8.
Definition uplink_readReservation := readReservation 8.

(** ** Runs with crashes *)

(** A deployment: the disk, the running process if any, the numbers that
    process issued and has not given back (newest first) and those issued by
    earlier processes. *)
Record world := mkWorld {
  wdisk : disk;
  process : option FileSequence;
  mine : list Z;
  past : list Z;
}.

(** Every number that reached, or may have reached, the wire. *)
Definition issued (w : world) : list Z := mine w ++ past w.

Section runs.
Context (n : nat).

Inductive step : world -> world -> Prop :=
(** A start, successful or not; the reservation may have been written even
    when opening fails. *)
| step_open env d d' s p :
    OpenFileSequence n env true true d = (d', Ok s) ->
    step (mkWorld d None [] p) (mkWorld d' (Some s) [] p)
| step_open_fails env given mkdir d d' e p :
    OpenFileSequence n env given mkdir d = (d', Err e) ->
    step (mkWorld d None [] p) (mkWorld d' None [] p)
| step_next env d d' s s' v m p :
    Next n env d s = (d', s', Ok v) ->
    step (mkWorld d (Some s) m p) (mkWorld d' (Some s') (v :: m) p)
| step_next_fails env d d' s s' e m p :
    Next n env d s = (d', s', Err e) ->
    step (mkWorld d (Some s) m p) (mkWorld d' (Some s') m p)
(** The caller returns the last number it holds, as the contract says. *)
| step_return d s v m p :
    step (mkWorld d (Some s) (v :: m) p) (mkWorld d (Some (Return n s v)) m p)
(** The process stops; with it the machine may lose what was not synced. *)
| step_crash d o m p f : f = current d \/ f = durable d ->
    step (mkWorld d o m p) (mkWorld (mkDisk f f) None [] (m ++ p)).

Inductive reachable : world -> Prop :=
| reachable_start : reachable (mkWorld (mkDisk Absent Absent) None [] [])
| reachable_step w w' : reachable w -> step w w' -> reachable w'.

(** The reservation a file holds, if it can be read at all. *)
Definition file_value (f : file) : option Z :=
  match f with
  | Absent => Some 0
  | Regular content => if Nat.eqb (length content) n then Some (be_val content) else None
  | Irregular => None
  end.

Definition covers (f : file) (v : Z) : Prop := forall x, file_value f = Some x -> v <= x.

Definition seq_inv (w : world) : Prop :=
  StronglySorted Z.gt (issued w) /\
  (forall v, v ∈ issued w -> 0 < v <= maximum n /\
     covers (current (wdisk w)) v /\ covers (durable (wdisk w)) v) /\
  match process w with
  | None => mine w = []
  | Some s =>
      0 <= next s <= maximum n /\ 0 <= reserved s <= maximum n /\
      covers (current (wdisk w)) (reserved s) /\ covers (durable (wdisk w)) (reserved s) /\
      (forall v, v ∈ issued w -> next s = 0 \/ v < next s)
  end.
End runs.

Section proofs.
Context (n : nat).

Lemma maximum_pow : maximum n + 1 = 256 ^ Z.of_nat n.
Proof.
  unfold maximum. change 256 with (2 ^ 8). rewrite <- Z.pow_mul_r by lia. lia.
Qed.

Lemma wrapu_width v : 0 <= v <= maximum n -> wrapu (8 * Z.of_nat n) v = v.
Proof. unfold maximum. intros Hv. apply wrapu_small. unfold fits. lia. Qed.

Lemma covers_be r v : 0 <= r <= maximum n -> v <= r -> covers n (Regular (be n r)) v.
Proof.
  intros Hr Hv x Hx. unfold file_value in Hx. rewrite length_be, Nat.eqb_refl in Hx.
  injection Hx as <-. rewrite be_val_be_fits; [done|]. rewrite <- maximum_pow. lia.
Qed.

Lemma readReservation_value env f previous : readReservation n env f = Ok previous ->
  file_value n f = Some previous /\ 0 <= previous <= maximum n.
Proof.
  unfold readReservation, file_value. destruct f as [|content|]; [| |done].
  - intros [= <-]. split; [done|]. unfold maximum. pose proof (Z.pow_pos_nonneg 2 (8 * Z.of_nat n)). lia.
  - destruct (read_fails env); [done|]. destruct (Nat.eqb_spec (length content) n) as [Hl|]; [|done].
    intros [= <-]. split; [done|]. pose proof (be_val_range content) as Hb.
    rewrite Hl, <- maximum_pow in Hb. lia.
Qed.

(** One reservation: what was covered stays covered, and a success starts a
    range above everything covered. *)
Lemma reserve_spec env d s d' s' r : reserve n env d s = (d', s', r) ->
  (forall v, covers n (current d) v -> covers n (durable d) v ->
     covers n (current d') v /\ covers n (durable d') v) /\
  match r with
  | Err _ => s' = s
  | Ok _ => exists previous, file_value n (current d) = Some previous /\
      0 <= previous /\ previous + sequenceReservation <= maximum n /\
      s' = mkSequence (previous + 1) (previous + sequenceReservation) /\
      covers n (current d') (reserved s') /\ covers n (durable d') (reserved s')
  end.
Proof.
  unfold reserve. destruct (readReservation n env (current d)) as [previous|e] eqn:Er.
  2: { intros [= <- <- <-]. auto. }
  apply readReservation_value in Er as [Hv Hp].
  destruct (maximum n - sequenceReservation <? previous) eqn:Ex.
  { intros [= <- <- <-]. auto. }
  reflect_bools. change sequenceReservation with 1048576 in *.
  rewrite !wrapu_width by lia.
  assert (forall v, covers n (current d) v ->
            covers n (Regular (be n (previous + 1048576))) v) as Hc.
  { intros v Hc. specialize (Hc _ Hv). apply covers_be; lia. }
  unfold atomicStateWrite. destruct (write env); cbn [negb]; intros [= <- <- <-]; simpl;
    (split; [by auto|]); [done..|].
  exists previous. split_and!; try done; try lia; apply covers_be; lia.
Qed.

Lemma issue_inv d s m p : seq_inv n (mkWorld d (Some s) m p) -> next s <> 0 ->
  next s <= reserved s ->
  seq_inv n (mkWorld d (Some (mkSequence (wrapu (8 * Z.of_nat n) (next s + 1)) (reserved s)))
               (next s :: m) p).
Proof.
  unfold seq_inv, issued. simpl. intros (Hsort & Hcov & Hn & Hr & Hcc & Hcd & Hlt) Hn0 Hle.
  split; [|split].
  - constructor; [done|]. apply Forall_forall. intros v Hv. destruct (Hlt v Hv); lia.
  - intros v [->|Hv]%elem_of_cons; [|auto]. split; [lia|].
    split; intros x Hx; [specialize (Hcc x Hx)|specialize (Hcd x Hx)]; lia.
  - assert (wrapu (8 * Z.of_nat n) (next s + 1) = 0 \/
            wrapu (8 * Z.of_nat n) (next s + 1) = next s + 1) as Hw.
    { destruct (decide (next s = maximum n)) as [He|].
      - left. rewrite He. unfold wrapu, maximum. rewrite Z.sub_add. by rewrite Z.mod_same by lia.
      - right. apply wrapu_width. lia. }
    pose proof (wrapu_fits (8 * Z.of_nat n) (next s + 1) ltac:(lia)) as Hf. unfold fits in Hf.
    split_and!; try done; try lia; try (unfold maximum; lia).
    + intros v [->|Hv]%elem_of_cons; destruct Hw as [->| ->]; auto; right; [lia|].
      destruct (Hlt v Hv); lia.
Qed.

Lemma reserve_inv env d d' s s' r m p : seq_inv n (mkWorld d (Some s) m p) ->
  reserve n env d s = (d', s', r) -> seq_inv n (mkWorld d' (Some s') m p) /\
  (is_ok r = true -> next s' <> 0 /\ next s' <= reserved s').
Proof.
  intros (Hsort & Hcov & Hn & Hr & Hcc & Hcd & Hlt) E. simpl in *.
  apply reserve_spec in E as [Hkeep Hs]. unfold seq_inv, issued in *. simpl in *.
  assert (forall v, v ∈ m ++ p -> 0 < v <= maximum n /\ covers n (current d') v /\ covers n (durable d') v)
    as Hcov'.
  { intros v Hv. destruct (Hcov v Hv) as (Hb & Hc & Hd). split; [done|]. by apply Hkeep. }
  destruct r as [u|e].
  - destruct Hs as (previous & Hp & Hp0 & Hpm & -> & Hc' & Hd'). simpl in *.
    change sequenceReservation with 1048576 in *.
    split; [|intros _; lia]. split_and!; try done; try lia.
    intros v Hv. right. destruct (Hcov v Hv) as (_ & Hc & _). specialize (Hc _ Hp). lia.
  - subst s'. split; [|done]. destruct (Hkeep _ Hcc Hcd) as [Hc' Hd']. split_and!; auto; lia.
Qed.

Lemma step_inv w w' : seq_inv n w -> step n w w' -> seq_inv n w'.
Proof.
  intros Hinv Hstep. destruct Hstep as [env d d' s p E|env given mkdir d d' e p E|env d d' s s' v m p E
    |env d d' s s' e m p E|d s v m p|d o m p f Hf].
  - unfold OpenFileSequence in E. cbn [negb] in E.
    destruct (reserve n env d (mkSequence 0 0)) as [[d1 s1] [u|e]] eqn:Er; [|done].
    injection E as <- <-. eapply reserve_inv; [|exact Er].
    destruct Hinv as (Hsort & Hcov & _). unfold seq_inv, issued in *. simpl in *.
    pose proof maximum_pow. pose proof (Z.pow_pos_nonneg 256 (Z.of_nat n)).
    assert (forall f, covers n f 0) as Hzero.
    { intros f x. unfold file_value. destruct f as [|c|]; [intros [= <-]; lia| |done].
      destruct (Nat.eqb _ _); [|done]. intros [= <-]. pose proof (be_val_range c). lia. }
    split_and!; auto; lia.
  - assert (exists s' r, reserve n env d (mkSequence 0 0) = (d', s', r) \/ d' = d) as (s' & r & Hr).
    { unfold OpenFileSequence in E. destruct (negb given).
      { injection E as <- <-. exists (mkSequence 0 0), (Ok tt). by right. }
      destruct (negb mkdir). { injection E as <- <-. exists (mkSequence 0 0), (Ok tt). by right. }
      destruct (reserve n env d (mkSequence 0 0)) as [[d1 s1] [u|e1]]; [done|].
      injection E as <- <-. exists s1, (Err e1). by left. }
    destruct Hr as [Hr| ->]; [|done]. apply reserve_spec in Hr as [Hkeep _].
    destruct Hinv as (Hsort & Hcov & _). unfold seq_inv, issued in *. simpl in *.
    split_and!; [done| |done]. intros v Hv. destruct (Hcov v Hv) as (Hb & Hc & Hd). split; [done|].
    by apply Hkeep.
  - unfold Next in E. destruct (_ || _) eqn:Eb in E.
    + destruct (reserve n env d s) as [[d1 s1] [u|e]] eqn:Er; [|done].
      destruct (reserve_inv _ _ _ _ _ _ _ _ Hinv Er) as [Hinv' Hok]. destruct (Hok eq_refl).
      injection E as <- <- <-. by apply issue_inv.
    + reflect_bools. injection E as <- <- <-. by apply issue_inv.
  - unfold Next in E. destruct (_ || _) eqn:Eb in E; [|done].
    destruct (reserve n env d s) as [[d1 s1] [u|e1]] eqn:Er; [done|]. injection E as <- <- <-.
    by destruct (reserve_inv _ _ _ _ _ _ _ _ Hinv Er) as [Hinv' _].
  - destruct Hinv as (Hsort & Hcov & Hn & Hr & Hcc & Hcd & Hlt). unfold seq_inv, issued in *.
    cbn [mine past wdisk process app] in *.
    apply StronglySorted_inv in Hsort as [Hsort Hgt]. rewrite Forall_forall in Hgt.
    destruct (Hcov v ltac:(by left)) as (Hv & _).
    assert (forall x, x ∈ m ++ p -> x ∈ v :: m ++ p) as Hsub by (intros; by right).
    unfold Return. destruct (negb _ && _); simpl; split_and!; auto; try lia.
    intros x Hx. right. specialize (Hgt x Hx). lia.
  - destruct Hinv as (Hsort & Hcov & _). unfold seq_inv, issued in *. simpl in *.
    split_and!; [done| |done]. intros v Hv. destruct (Hcov v Hv) as (Hb & Hc & Hd).
    by destruct Hf as [->| ->].
Qed.

Lemma reachable_inv w : reachable n w -> seq_inv n w.
Proof.
  induction 1 as [|w w' _ IH Hs]; [|by eapply step_inv].
  unfold seq_inv, issued. simpl. split_and!; [constructor|by intros v ?%elem_of_nil|done].
Qed.

(** C26: Authenticated sequence numbers are never reused: in every run of
    starts, issues, returns of unsent numbers, failed reads, writes that fail
    before or after the rename, and crashes that may lose an unsynced rename,
    the numbers issued and not given back are strictly increasing over the
    whole life of the state file, across all processes, and never zero. *)
Theorem sequence_unique (w : world) (Hw : reachable n w) :
  StronglySorted Z.gt (issued w) /\ Forall (fun v => 0 < v <= maximum n) (issued w).
Proof.
  destruct (reachable_inv w Hw) as (Hsort & Hcov & _). split; [done|].
  apply Forall_forall. intros v Hv. by destruct (Hcov v Hv).
Qed.

Definition healthy : io := mkIO false Succeeds.

(** Progress and exhaustion: on a readable disk that takes the write,
    [Next] issues a number whenever one is left, and when the range on disk
    cannot be extended it fails with the exhaustion error and changes
    nothing, instead of wrapping around. *)
Theorem next_progress (d : disk) (s : FileSequence) (x : Z)
  (Hx : file_value n (current d) = Some x) :
  if (next s =? 0) || (reserved s <? next s) then
    if maximum n - sequenceReservation <? x
    then Next n healthy d s = (d, s, Err ErrSequenceExhausted)
    else exists d' s', Next n healthy d s = (d', s', Ok (x + 1))
  else exists s', Next n healthy d s = (d, s', Ok (next s)).
Proof.
  unfold Next. destruct (_ || _); [|by eexists]. unfold reserve.
  assert (readReservation n healthy (current d) = Ok x) as Hr.
  { unfold readReservation, file_value in *. destruct (current d); simplify_eq; [done|].
    simpl. destruct (Nat.eqb _ _); [by simplify_eq/=|done]. }
  rewrite Hr. destruct (_ <? _) eqn:E; [done|]. reflect_bools.
  apply readReservation_value in Hr as [_ Hb]. change sequenceReservation with 1048576 in *. simpl.
  rewrite (wrapu_width (x + 1)) by lia. do 2 eexists. reflexivity.
Qed.
End proofs.

(** ** Witnesses *)

Definition disk_of (v : Z) : disk := mkDisk (Regular (be 4 v)) (Regular (be 4 v)).

(** Open, issue two numbers, lose one in a crash, start again. *)
Definition restarted : world :=
  mkWorld (disk_of 2097152) (Some (mkSequence 1048578 2097152)) [1048577] [2; 1].

Lemma restarted_reachable : reachable 4 restarted.
Proof.
  eapply reachable_step; [eapply reachable_step; [eapply reachable_step; [eapply reachable_step;
    [eapply reachable_step; [eapply reachable_step; [constructor|]|]|]|]|]|].
  - by apply (step_open 4 healthy).
  - by apply (step_next 4 healthy).
  - by apply (step_next 4 healthy).
  - apply step_crash. by left.
  - by apply (step_open 4 healthy).
  - by apply (step_next 4 healthy).
Qed.

Lemma sequence_unique_witness : reachable 4 restarted /\ StronglySorted Z.gt [1048577; 2; 1].
Proof.
  split; [exact restarted_reachable|].
  exact (proj1 (sequence_unique 4 restarted restarted_reachable)).
Defined.

Lemma next_progress_witness : exists d' s',
  Next 4 healthy (disk_of 1048576) (mkSequence 1048577 1048576) = (d', s', Ok 1048577).
Proof.
  exact (next_progress 4 (disk_of 1048576) (mkSequence 1048577 1048576) 1048576 eq_refl).
Defined.

(** [Return] does not remember what this process issued: right after a restart
    it takes back the last number of the previous process's range, and the
    next call issues that number again. *)
Lemma return_reissues_foreign_number : exists d s d' s',
  hop_OpenFileSequence healthy true true (disk_of 1048576) = (d, Ok s) /\
  hop_Next healthy d (hop_Return s 1048576) = (d', s', Ok 1048576).
Proof. do 4 eexists. split; reflexivity. Qed.
