(* ===== verification/Frame.v ===== *)
(** One authenticated, encrypted UDP hop ([live/hop/frame.go]): the routing
    metadata of a cell, sealing it for a peer and opening it, over the hash
    interface.

    A cell is the list of its 1200 bytes: 1152 of payload and a 48-byte header.
    [None] stands for a nil cell pointer. *)

From stdpp Require Import base list list_numbers strings.
From Stdlib Require Import ZArith Lia Strings.Byte.
From S2P Require Import Prelude Bytes Hash Sha256.

(** ** Definitions *)

Definition CellSize : nat := 1200.
Definition CiphertextSize : nat := 1152.
Definition HeaderSize : nat := 48.
Definition TagSize : nat := 16.
Definition MaximumBatch : Z := 256.
Definition FlagWork : Z := 1.
Definition sealedSize : nat := 24.
Definition tagOffset : nat := HeaderSize - TagSize.

Definition streamKeyLabel : list byte := String.list_byte_of_string "nomad-hop-link-stream-v2".
Definition headerTagLabel : list byte := String.list_byte_of_string "nomad-hop-cell-v2".
Definition wireMagic : list byte := [x4e; x48; x43; x02].
Definition localMagic : list byte := [x4e; x48; x4c; x02].
Definition emptyStream : list byte := replicate 16 x00.

Record Metadata := mkMetadata {
  Sender : Z;
  Ordinal : Z;
  BatchSize : Z;
  Flags : Z;
  Stream : list byte;
  Sequence : Z;
}.

Record Context := mkContext {
  TopologyDigest : list byte;
  NetworkID : list byte;
  Epoch : Z;
  Receiver : Z;
}.

Inductive hop_error :=
| ErrNilCell
| ErrHopFlags                (* unsupported hop flags *)
| ErrWorkStream              (* work cell has an empty stream ID *)
| ErrWorkCoordinates         (* work cell has invalid batch coordinates *)
| ErrCoverMetadata           (* cover cell carries work metadata *)
| ErrZeroKey
| ErrContextIncomplete
| ErrZeroSequence
| ErrHopHeader               (* unsupported hop header *)
| ErrHopAuthentication
| ErrSenderSlot
| ErrNotSealed
| ErrNotLocal
| ErrStreamCount.

Definition IsWork (metadata : Metadata) : bool := negb (Z.land (Flags metadata) FlagWork =? 0).

Definition validateMetadata (metadata : Metadata) : result hop_error unit :=
  if negb (Z.ldiff (Flags metadata) FlagWork =? 0) then Err ErrHopFlags
  else if IsWork metadata then
    if bool_decide (Stream metadata = emptyStream) then Err ErrWorkStream
    else if (BatchSize metadata <? 2) || (MaximumBatch <? BatchSize metadata) ||
            (BatchSize metadata <=? Ordinal metadata) then Err ErrWorkCoordinates
    else Ok tt
  else if negb (bool_decide (Stream metadata = emptyStream)) || negb (Ordinal metadata =? 0) ||
          negb (BatchSize metadata =? 0) then Err ErrCoverMetadata
  else Ok tt.

Definition WorkMetadata (stream : list byte) (ordinal batchSize : Z) : result hop_error Metadata :=
  let metadata := mkMetadata 0 ordinal batchSize FlagWork stream 0 in
  _ ← validateMetadata metadata; Ok metadata.

Definition CoverMetadata : Metadata := mkMetadata 0 0 0 0 emptyStream 0.

(** The 24 sealed bytes. *)
Definition encodeSealed (metadata : Metadata) : list byte :=
  be 2 (Sender metadata) ++ be 2 (Ordinal metadata) ++ be 2 (BatchSize metadata) ++
  be 2 (Flags metadata) ++ Stream metadata.

Definition decodeSealed (source : list byte) : Metadata :=
  mkMetadata (be_val (slice source 0 2)) (be_val (slice source 2 4)) (be_val (slice source 4 6))
    (be_val (slice source 6 8)) (slice source 8 24) 0.

(** The 48 bytes of an unsealed header. *)
Definition encodeLocalHeader (metadata : Metadata) : list byte :=
  localMagic ++ be 2 (Ordinal metadata) ++ be 2 (BatchSize metadata) ++ be 2 (Flags metadata) ++
  Stream metadata ++ replicate (HeaderSize - 26) x00.

Definition decodeLocalHeader (source : list byte) : result hop_error Metadata :=
  if negb (Nat.eqb (length source) HeaderSize) || negb (bool_decide (slice source 0 4 = localMagic))
  then Err ErrNotLocal
  else
    let metadata := mkMetadata 0 (be_val (slice source 4 6)) (be_val (slice source 6 8))
                      (be_val (slice source 8 10)) (slice source 10 26) 0 in
    _ ← validateMetadata metadata; Ok metadata.

Definition SetMetadata (cell : option (list byte)) (metadata : Metadata)
  : option (list byte) * result hop_error unit :=
  match cell with
  | None => (None, Err ErrNilCell)
  | Some c =>
      match validateMetadata metadata with
      | Err e => (Some c, Err e)
      | Ok _ => (Some (take CiphertextSize c ++ encodeLocalHeader metadata), Ok tt)
      end
  end.

Definition LocalMetadata (cell : list byte) : result hop_error Metadata :=
  decodeLocalHeader (drop CiphertextSize cell).

Definition WireSequence (cell : list byte) : result hop_error Z :=
  let header := drop CiphertextSize cell in
  if negb (bool_decide (slice header 0 4 = wireMagic)) then Err ErrNotSealed
  else Ok (be_val (slice header 4 8)).

Definition Ciphertext (cell : list byte) : list byte := take CiphertextSize cell.

Definition FromCiphertext (payload : list byte) (metadata : Metadata) : result hop_error (list byte) :=
  match SetMetadata (Some (payload ++ replicate HeaderSize x00)) metadata with
  | (Some c, Ok _) => Ok c
  | (_, Err e) => Err e
  | (None, Ok _) => Err ErrNilCell
  end.

Definition bindContext (context : Context) : list byte :=
  TopologyDigest context ++ be 8 (Epoch context) ++ be 2 (Receiver context) ++
  be 2 (u16 (len (NetworkID context))) ++ NetworkID context.

Definition validateAuthentication (key : list byte) (context : Context) : result hop_error unit :=
  if bool_decide (key = replicate 32 x00) then Err ErrZeroKey
  else if bool_decide (TopologyDigest context = replicate 32 x00) ||
          bool_decide (NetworkID context = []) || (Epoch context =? 0)
  then Err ErrContextIncomplete
  else Ok tt.

Section operations.
Context `{HashFunction}.

Definition StreamFor (payloads : list (list byte)) : result hop_error (list byte) :=
  if (len payloads <? 2) || (MaximumBatch <? len payloads) then Err ErrStreamCount
  else Ok (take 16 (sha256 (String.list_byte_of_string "nomad-live-stream-v1" ++
                            be 2 (u16 (len payloads)) ++ concat payloads))).

Record counterStream := mkStream {
  skey : list byte;
  counter : Z;
  block : list byte;
  offset : nat;
}.

Definition stream_message (context : Context) (sequence : Z) : list byte :=
  streamKeyLabel ++ bindContext context ++ be 4 sequence.

Definition linkStream (key : list byte) (context : Context) (sequence : Z) : counterStream :=
  mkStream (hmac key (stream_message context sequence)) 0 (replicate 32 x00) 32.

(** The head of one iteration: refill the block when it is used up. *)
Definition refill (stream : counterStream) : counterStream :=
  if Nat.eqb (offset stream) 32
  then mkStream (skey stream) (u32 (counter stream + 1))
         (hmac (skey stream) (be 4 (counter stream))) 0
  else stream.

Fixpoint XORKeyStream (stream : counterStream) (source : list byte)
  : counterStream * list byte :=
  match source with
  | [] => (stream, [])
  | b :: source =>
      let stream := refill stream in
      let out := bxor b (nth (offset stream) (block stream) x00) in
      let stream := mkStream (skey stream) (counter stream) (block stream) (S (offset stream)) in
      let (stream, rest) := XORKeyStream stream source in
      (stream, out :: rest)
  end.

Definition tag_message (cell : list byte) (context : Context) : list byte :=
  headerTagLabel ++ bindContext context ++ take (CiphertextSize + tagOffset) cell.

Definition authenticationTag (cell key : list byte) (context : Context) : list byte :=
  take TagSize (hmac key (tag_message cell context)).

Definition Seal (cell : option (list byte)) (metadata : Metadata) (sender sequence : Z)
  (key : list byte) (context : Context) : option (list byte) * result hop_error unit :=
  match cell with
  | None => (None, Err ErrNilCell)
  | Some c =>
      match validateAuthentication key context with
      | Err e => (Some c, Err e)
      | Ok _ =>
          let metadata := mkMetadata sender (Ordinal metadata) (BatchSize metadata)
                            (Flags metadata) (Stream metadata) sequence in
          if sequence =? 0 then (Some c, Err ErrZeroSequence)
          else match validateMetadata metadata with
          | Err e => (Some c, Err e)
          | Ok _ =>
              let stream := linkStream key context sequence in
              let (stream, payload) := XORKeyStream stream (take CiphertextSize c) in
              let (_, sealed) := XORKeyStream stream (encodeSealed metadata) in
              let body := payload ++ wireMagic ++ be 4 sequence ++ sealed in
              (Some (body ++ authenticationTag body key context), Ok tt)
          end
      end
  end.

Definition Open (cell : option (list byte)) (expectedSender : Z) (key : list byte)
  (context : Context) : option (list byte) * result hop_error Metadata :=
  match cell with
  | None => (None, Err ErrNilCell)
  | Some c =>
      match validateAuthentication key context with
      | Err e => (Some c, Err e)
      | Ok _ =>
          let header := drop CiphertextSize c in
          if negb (bool_decide (slice header 0 4 = wireMagic)) then (Some c, Err ErrHopHeader)
          else if negb (bool_decide (drop tagOffset header = authenticationTag c key context))
          then (Some c, Err ErrHopAuthentication)
          else
            let sequence := be_val (slice header 4 8) in
            if sequence =? 0 then (Some c, Err ErrZeroSequence)
            else
              let stream := linkStream key context sequence in
              let (stream, payload) := XORKeyStream stream (take CiphertextSize c) in
              let (_, sealed) := XORKeyStream stream (slice header 8 32) in
              let decoded := decodeSealed sealed in
              let metadata := mkMetadata (Sender decoded) (Ordinal decoded) (BatchSize decoded)
                                (Flags decoded) (Stream decoded) sequence in
              if negb (Sender metadata =? expectedSender) then (Some c, Err ErrSenderSlot)
              else match validateMetadata metadata with
              | Err e => (Some c, Err e)
              | Ok _ => (Some (payload ++ encodeLocalHeader metadata), Ok metadata)
              end
      end
  end.
End operations.

Arguments CiphertextSize : simpl never.
Arguments CellSize : simpl never.

(** ** The keystream *)

Section keystream.
Context `{HashFunction}.

Definition next_byte (stream : counterStream) : counterStream * byte :=
  let stream := refill stream in
  (mkStream (skey stream) (counter stream) (block stream) (S (offset stream)),
   nth (offset stream) (block stream) x00).

Fixpoint keystream (stream : counterStream) (n : nat) : counterStream * list byte :=
  match n with
  | O => (stream, [])
  | S n => let (stream, b) := next_byte stream in
           let (stream, bs) := keystream stream n in (stream, b :: bs)
  end.

(** The stream's state after a call depends on the length only, and the
    output is the source xored with bytes that do not depend on it. *)
Lemma XORKeyStream_eq stream source :
  XORKeyStream stream source =
  ((keystream stream (length source)).1,
   zip_with bxor source (keystream stream (length source)).2).
Proof.
  revert stream. induction source as [|b source IH]; intros stream; [done|].
  cbn [XORKeyStream keystream length next_byte]. rewrite IH. unfold next_byte.
  by destruct (keystream _ (length source)).
Qed.

Lemma length_keystream stream n : length (keystream stream n).2 = n.
Proof.
  revert stream. induction n as [|n IH]; intros stream; [done|].
  cbn [keystream next_byte]. unfold next_byte. specialize (IH (mkStream (skey (refill stream)) (counter (refill stream)) (block (refill stream)) (S (offset (refill stream))))).
  destruct (keystream _ n). simpl in *. lia.
Qed.

Lemma zip_xor_involutive xs ks : length ks = length xs ->
  zip_with bxor (zip_with bxor xs ks) ks = xs.
Proof.
  revert ks. induction xs as [|x xs IH]; intros [|k ks] Hl; simpl in *; try lia; [done|].
  rewrite bxor_cancel, IH by lia. done.
Qed.

Lemma length_XORKeyStream stream source : length (XORKeyStream stream source).2 = length source.
Proof. rewrite XORKeyStream_eq. simpl. rewrite length_zip_with, length_keystream. lia. Qed.

(** Applying the stream twice from the same state gives the source back and
    leaves the same state. *)
Lemma XORKeyStream_involutive stream source :
  XORKeyStream stream (XORKeyStream stream source).2 = ((XORKeyStream stream source).1, source).
Proof.
  rewrite (XORKeyStream_eq stream (XORKeyStream stream source).2), length_XORKeyStream.
  rewrite XORKeyStream_eq. simpl. by rewrite zip_xor_involutive by apply length_keystream.
Qed.
End keystream.

(** ** Metadata *)

(** The fields are within their Go types. *)
Definition metadata_typed (m : Metadata) : Prop :=
  fits 16 (Sender m) /\ fits 16 (Ordinal m) /\ fits 16 (BatchSize m) /\ fits 16 (Flags m) /\
  length (Stream m) = 16%nat /\ fits 32 (Sequence m).

Lemma be2_val v : fits 16 v -> be_val (be 2 v) = v.
Proof. unfold fits. intros Hv. apply be_val_be_fits. simpl. lia. Qed.
Lemma be4_val v : fits 32 v -> be_val (be 4 v) = v.
Proof. unfold fits. intros Hv. apply be_val_be_fits. simpl. lia. Qed.

(** Reading the fields of a concatenation of fields. *)
Lemma slice_head x post j : length x = j -> slice (x ++ post) 0 j = x.
Proof. intros Hx. apply (slice_app_at []); [done|]. simpl. lia. Qed.
Lemma decodeSealed_encode m : metadata_typed m ->
  decodeSealed (encodeSealed m) =
  mkMetadata (Sender m) (Ordinal m) (BatchSize m) (Flags m) (Stream m) 0.
Proof.
  intros (Hs & Ho & Hb & Hf & Hst & _). unfold decodeSealed, encodeSealed.
  rewrite <- (app_nil_r (Stream m)).
  rewrite (slice_head (be 2 _)) by apply length_be.
  rewrite (slice_app_at (be 2 (Sender m)) (be 2 (Ordinal m))) by (rewrite ?length_be; done).
  rewrite (app_assoc (be 2 (Sender m))).
  rewrite (slice_app_at (_ ++ _) (be 2 (BatchSize m))) by (rewrite ?length_app, ?length_be; done).
  rewrite (app_assoc (be 2 (Sender m) ++ _)).
  rewrite (slice_app_at ((_ ++ _) ++ _) (be 2 (Flags m))) by (rewrite ?length_app, ?length_be; done).
  rewrite (app_assoc ((be 2 (Sender m) ++ _) ++ _)).
  rewrite (slice_app_at (((_ ++ _) ++ _) ++ _) (Stream m)) by (rewrite ?length_app, ?length_be, ?Hst; done).
  by rewrite !be2_val, app_nil_r.
Qed.

Lemma length_encodeSealed m : metadata_typed m -> length (encodeSealed m) = sealedSize.
Proof. intros (_ & _ & _ & _ & Hst & _). unfold encodeSealed. rewrite !length_app, !length_be, Hst. done. Qed.

Lemma length_encodeLocalHeader m : metadata_typed m -> length (encodeLocalHeader m) = HeaderSize.
Proof.
  intros (_ & _ & _ & _ & Hst & _). unfold encodeLocalHeader.
  rewrite !length_app, !length_be, Hst, length_replicate. done.
Qed.

Definition local_part (m : Metadata) : Metadata :=
  mkMetadata 0 (Ordinal m) (BatchSize m) (Flags m) (Stream m) 0.

(** Validation looks at the local part only. *)
Lemma validate_local m : validateMetadata (local_part m) = validateMetadata m.
Proof. done. Qed.

Lemma decodeLocalHeader_encode m : metadata_typed m -> validateMetadata m = Ok tt ->
  decodeLocalHeader (encodeLocalHeader m) = Ok (local_part m).
Proof.
  intros Ht Hv. pose proof (length_encodeLocalHeader m Ht) as Hl.
  destruct Ht as (_ & Ho & Hb & Hf & Hst & _).
  unfold decodeLocalHeader. rewrite Hl, Nat.eqb_refl. unfold encodeLocalHeader.
  rewrite (slice_head localMagic) by done. rewrite bool_decide_true by done. cbn [negb orb].
  rewrite (slice_app_at localMagic (be 2 (Ordinal m))) by (rewrite ?length_be; done).
  rewrite (app_assoc localMagic).
  rewrite (slice_app_at (_ ++ _) (be 2 (BatchSize m))) by (rewrite ?length_app, ?length_be; done).
  rewrite (app_assoc (localMagic ++ _)).
  rewrite (slice_app_at ((_ ++ _) ++ _) (be 2 (Flags m))) by (rewrite ?length_app, ?length_be; done).
  rewrite (app_assoc ((localMagic ++ _) ++ _)).
  rewrite (slice_app_at (((_ ++ _) ++ _) ++ _) (Stream m)) by (rewrite ?length_app, ?length_be, ?Hst; done).
  rewrite !be2_val by done. change (mkMetadata 0 _ _ _ _ 0) with (local_part m).
  by rewrite validate_local, Hv.
Qed.

(** A locally written header reads back as the metadata that was set,
    without changing the payload, and a sealed header is refused by the local
    reader instead of being read as metadata. *)
Theorem local_header_roundtrip (c : list byte) (m : Metadata)
  (Hc : length c = CellSize) (Hm : metadata_typed m) (Hv : validateMetadata m = Ok tt) :
  exists c', SetMetadata (Some c) m = (Some c', Ok tt) /\ length c' = CellSize /\
    Ciphertext c' = Ciphertext c /\ LocalMetadata c' = Ok (local_part m) /\
    WireSequence c' = Err ErrNotSealed.
Proof.
  unfold SetMetadata. rewrite Hv. eexists. split; [done|].
  assert (length (take CiphertextSize c) = CiphertextSize) as Hp.
  { rewrite length_take, Hc. done. }
  unfold LocalMetadata, WireSequence, Ciphertext.
  rewrite length_app, Hp, length_encodeLocalHeader by done.
  rewrite (take_app_exact CiphertextSize) by done. rewrite (drop_app_exact CiphertextSize) by done.
  split_and!; [done..|by apply decodeLocalHeader_encode|].
  unfold encodeLocalHeader. rewrite slice_head by done. by rewrite bool_decide_false.
Qed.

Definition example_metadata : Metadata := mkMetadata 3 1 4 1 (replicate 16 x11) 9.
Definition example_context : Context := mkContext (replicate 32 x22) [x6e] 7 2.
Definition example_key : list byte := replicate 32 x33.
Definition example_cell : list byte := replicate 1200 x44.

Lemma example_metadata_typed : metadata_typed example_metadata.
Proof. repeat split; try apply Z.leb_le; try apply Z.ltb_lt; reflexivity. Qed.

Lemma local_header_roundtrip_witness :
  exists c', SetMetadata (Some example_cell) example_metadata = (Some c', Ok tt) /\
    LocalMetadata c' = Ok (mkMetadata 0 1 4 1 (replicate 16 x11) 0).
Proof.
  destruct (local_header_roundtrip example_cell example_metadata eq_refl example_metadata_typed eq_refl)
    as (c' & Hs & _ & _ & Hl & _).
  exists c'. split; [exact Hs|exact Hl].
Defined.

(** ** Sealing and opening *)

Section sealing.
Context `{HashFunction}.

Lemma length_authenticationTag c key ctx : length (authenticationTag c key ctx) = TagSize.
Proof. unfold authenticationTag. rewrite length_take. by rewrite (hmac_digest key). Qed.

(** The tag reads only what precedes it. *)
Lemma authenticationTag_prefix body rest key ctx : length body = (CiphertextSize + tagOffset)%nat ->
  authenticationTag (body ++ rest) key ctx = authenticationTag body key ctx.
Proof.
  intros Hl. unfold authenticationTag, tag_message. rewrite take_app_exact by done.
  rewrite (take_ge body) by lia. done.
Qed.

(** What [Seal] writes, when its checks pass. *)
Lemma Seal_ok c m sender sequence key ctx :
  length c = CellSize -> metadata_typed m -> validateMetadata m = Ok tt ->
  validateAuthentication key ctx = Ok tt -> fits 16 sender -> 0 < sequence < 2 ^ 32 ->
  exists payload sealed, 
    let m' := mkMetadata sender (Ordinal m) (BatchSize m) (Flags m) (Stream m) sequence in
    let s0 := linkStream key ctx sequence in
    let s1 := (XORKeyStream s0 (take CiphertextSize c)).1 in
    payload = (XORKeyStream s0 (take CiphertextSize c)).2 /\
    sealed = (XORKeyStream s1 (encodeSealed m')).2 /\
    length payload = CiphertextSize /\ length sealed = sealedSize /\
    let body := payload ++ wireMagic ++ be 4 sequence ++ sealed in
    length body = (CiphertextSize + tagOffset)%nat /\
    Seal (Some c) m sender sequence key ctx =
      (Some (body ++ authenticationTag body key ctx), Ok tt).
Proof.
  intros Hc Hm Hv Ha Hs Hq. eexists _, _. cbv zeta. split; [reflexivity|]. split; [reflexivity|].
  set (m' := mkMetadata sender _ _ _ _ sequence).
  assert (metadata_typed m') as Hm'.
  { destruct Hm as (_ & ? & ? & ? & ? & _). unfold metadata_typed. simpl. split_and!; try done. unfold fits. lia. }
  assert (length (take CiphertextSize c) = CiphertextSize) as Hp by (rewrite length_take, Hc; done).
  rewrite !length_XORKeyStream, Hp, (length_encodeSealed m' Hm').
  split_and!; [done..| |].
  - rewrite !length_app, length_be, !length_XORKeyStream, Hp, (length_encodeSealed m' Hm'). done.
  - unfold Seal. rewrite Ha. rewrite (proj2 (Z.eqb_neq sequence 0)) by lia.
    fold m'. change (validateMetadata m') with (validateMetadata m). rewrite Hv.
    destruct (XORKeyStream (linkStream key ctx sequence) (take CiphertextSize c)) as [s1 payload].
    cbn [fst snd]. by destruct (XORKeyStream s1 (encodeSealed m')).
Qed.

Lemma Open_Seal (c : list byte) (m : Metadata) (sender sequence : Z)
  (key : list byte) (ctx : Context)
  (Hc : length c = CellSize) (Hm : metadata_typed m) (Hv : validateMetadata m = Ok tt)
  (Ha : validateAuthentication key ctx = Ok tt) (Hs : fits 16 sender) (Hq : 0 < sequence < 2 ^ 32) :
  exists wire, Seal (Some c) m sender sequence key ctx = (Some wire, Ok tt) /\
    length wire = CellSize /\ WireSequence wire = Ok sequence /\
    LocalMetadata wire = Err ErrNotLocal /\
    let m' := mkMetadata sender (Ordinal m) (BatchSize m) (Flags m) (Stream m) sequence in
    Open (Some wire) sender key ctx = (Some (Ciphertext c ++ encodeLocalHeader m'), Ok m').
Proof.
  destruct (Seal_ok c m sender sequence key ctx) as
    (payload & sealed & Hpay & Hsea & Hlp & Hls & Hbody & ->); [done..|].
  cbv zeta in *. set (m' := mkMetadata sender _ _ _ _ sequence) in *.
  set (body := payload ++ _) in *. set (tag := authenticationTag body key ctx).
  assert (length tag = TagSize) as Ht by apply length_authenticationTag.
  exists (body ++ tag). split; [done|].
  assert (drop CiphertextSize (body ++ tag) = wireMagic ++ be 4 sequence ++ sealed ++ tag) as Hd.
  { unfold body. rewrite <- !app_assoc. by apply drop_app_exact. }
  assert (take CiphertextSize (body ++ tag) = payload) as Htk.
  { unfold body. rewrite <- !app_assoc. by apply take_app_exact. }
  assert (slice (wireMagic ++ be 4 sequence ++ sealed ++ tag) 4 8 = be 4 sequence) as H48.
  { apply slice_app_at; [done|by rewrite length_be]. }
  assert (slice (wireMagic ++ be 4 sequence ++ sealed ++ tag) 8 32 = sealed) as H832.
  { rewrite (app_assoc wireMagic). apply slice_app_at; [by rewrite length_app, length_be|].
    by rewrite Hls. }
  assert (drop tagOffset (wireMagic ++ be 4 sequence ++ sealed ++ tag) = tag) as Htag.
  { rewrite !app_assoc. apply drop_app_exact. rewrite !length_app, length_be, Hls. done. }
  split_and!.
  - rewrite length_app, Hbody, Ht. done.
  - unfold WireSequence. rewrite Hd, H48, slice_head, bool_decide_true by done. cbn [negb].
    by rewrite be4_val by (unfold fits; lia).
  - unfold LocalMetadata, decodeLocalHeader. rewrite Hd, slice_head by done.
    rewrite (bool_decide_false (wireMagic = localMagic)) by done. by rewrite orb_true_r.
  - unfold Open. rewrite Ha, Hd, Htk, H48, H832, Htag, slice_head by done.
    rewrite !bool_decide_true by (done || (unfold tag; by rewrite authenticationTag_prefix)).
    cbn [negb]. rewrite be4_val by (unfold fits; lia).
    rewrite (proj2 (Z.eqb_neq sequence 0)) by lia.
    rewrite Hpay, XORKeyStream_involutive, Hsea, XORKeyStream_involutive.
    assert (metadata_typed m') as Hm'.
    { destruct Hm as (_ & ? & ? & ? & ? & _). unfold metadata_typed. simpl. split_and!; try done. unfold fits. lia. }
    rewrite decodeSealed_encode by done. cbv zeta.
    change (mkMetadata (Sender (mkMetadata _ _ _ _ _ 0)) _ _ _ _ sequence) with m'.
    change (Sender m' =? sender) with (sender =? sender). rewrite Z.eqb_refl. cbn [negb].
    change (validateMetadata m') with (validateMetadata m). by rewrite Hv.
Qed.

(** Sealing succeeds on every well-formed cell and opening inverts it:
    the peer that shares the key and the context, expecting the sender that
    sealed the cell, gets exactly the metadata with the sender and sequence
    that were sealed, and the cell becomes the local cell with the original
    payload. *)
Theorem seal_open_roundtrip (c : list byte) (m : Metadata) (sender sequence : Z)
  (key : list byte) (ctx : Context)
  (Hc : length c = CellSize) (Hm : metadata_typed m) (Hv : validateMetadata m = Ok tt)
  (Ha : validateAuthentication key ctx = Ok tt) (Hs : fits 16 sender) (Hq : 0 < sequence < 2 ^ 32) :
  exists wire, Seal (Some c) m sender sequence key ctx = (Some wire, Ok tt) /\
    length wire = CellSize /\ WireSequence wire = Ok sequence /\
    LocalMetadata wire = Err ErrNotLocal /\
    let m' := mkMetadata sender (Ordinal m) (BatchSize m) (Flags m) (Stream m) sequence in
    Open (Some wire) sender key ctx = (Some (Ciphertext c ++ encodeLocalHeader m'), Ok m').
Proof. by apply Open_Seal. Qed.

(** A refused cell is left exactly as it arrived: whatever check fails,
    including those after decryption, [Open] never leaves plaintext behind. *)
Theorem open_error_untouched (cell cell' : option (list byte)) (sender : Z) (key : list byte)
  (ctx : Context) (e : hop_error)
  (Ho : Open cell sender key ctx = (cell', Err e)) : cell' = cell.
Proof.
  unfold Open in Ho. repeat (case_hyp Ho; simplify_eq; try done).
Qed.

(** The two keyed messages of a link determine everything that goes into them. *)
Definition context_typed (ctx : Context) : Prop :=
  length (TopologyDigest ctx) = 32%nat /\ fits 64 (Epoch ctx) /\ fits 16 (Receiver ctx).

Lemma bindContext_inj ctx1 ctx2 r1 r2 : context_typed ctx1 -> context_typed ctx2 ->
  length r1 = length r2 -> bindContext ctx1 ++ r1 = bindContext ctx2 ++ r2 -> ctx1 = ctx2 /\ r1 = r2.
Proof.
  destruct ctx1 as [d1 n1 e1 v1], ctx2 as [d2 n2 e2 v2]. unfold context_typed, bindContext, fits.
  cbn [TopologyDigest NetworkID Epoch Receiver].
  intros (Hd1 & He1 & Hv1) (Hd2 & He2 & Hv2) Hr E. rewrite <- !app_assoc in E.
  apply app_eq_length_inj in E as [-> E]; [|congruence].
  apply app_eq_length_inj in E as [Ee E]; [|by rewrite !length_be].
  apply app_eq_length_inj in E as [Ev E]; [|by rewrite !length_be].
  apply app_eq_length_inj in E as [_ E]; [|by rewrite !length_be].
  apply be_inj in Ee; [|simpl; lia..]. apply be_inj in Ev; [|simpl; lia..].
  assert (length n1 = length n2) as Hn.
  { apply (f_equal length) in E. rewrite !length_app in E. lia. }
  apply app_eq_length_inj in E as [-> ->]; [|done]. by subst.
Qed.

(** No two uses of a pairwise key collide: the message that derives a
    cell's keystream determines the context and the sequence number, the
    message that is authenticated determines the context and all protected
    bytes of the cell, and neither can be taken for the other. *)
Theorem hop_messages_injective (ctx1 ctx2 : Context) (s1 s2 : Z) (c1 c2 : list byte)
  (H1 : context_typed ctx1) (H2 : context_typed ctx2) (Hs1 : fits 32 s1) (Hs2 : fits 32 s2)
  (Hc1 : length c1 = CellSize) (Hc2 : length c2 = CellSize) :
  (stream_message ctx1 s1 = stream_message ctx2 s2 -> ctx1 = ctx2 /\ s1 = s2) /\
  (tag_message c1 ctx1 = tag_message c2 ctx2 ->
     ctx1 = ctx2 /\ take (CiphertextSize + tagOffset) c1 = take (CiphertextSize + tagOffset) c2) /\
  stream_message ctx1 s1 <> tag_message c2 ctx2.
Proof.
  unfold fits in *. split_and!.
  - intros E. unfold stream_message in E. apply app_inv_head in E.
    apply bindContext_inj in E as [-> E]; [|done|done|by rewrite !length_be].
    apply be_inj in E; [done|simpl; lia..].
  - intros E. unfold tag_message in E. apply app_inv_head in E.
    apply bindContext_inj in E as [-> E]; [done..|]. by rewrite !length_take, Hc1, Hc2.
  - intros E. unfold stream_message, tag_message in E.
    apply (f_equal (fun l => nth 10 l x00)) in E.
    rewrite !app_nth1 in E by (apply Nat.ltb_lt; reflexivity). done.
Qed.

(** A tag authenticates one cell in one context: if a peer opens a cell
    that carries the tag of a sealed cell, the cell is the sealed one, byte
    for byte, and it was sealed for that peer's context, unless the two
    authenticated messages collide under the truncated HMAC. *)
Theorem sealed_cell_integrity (c wire forged : list byte) (m m' : Metadata) (sender sender' sequence : Z)
  (key : list byte) (ctx ctx' : Context) (opened : option (list byte))
  (Hc : length c = CellSize) (Hm : metadata_typed m)
  (Hs : fits 16 sender) (Hq : 0 < sequence < 2 ^ 32)
  (Hctx : context_typed ctx) (Hctx' : context_typed ctx')
  (Hseal : Seal (Some c) m sender sequence key ctx = (Some wire, Ok tt))
  (Hf : length forged = CellSize)
  (Htag : drop (CiphertextSize + tagOffset) forged = drop (CiphertextSize + tagOffset) wire)
  (Hcf : authenticationTag forged key ctx' = authenticationTag wire key ctx ->
         tag_message forged ctx' = tag_message wire ctx)
  (Hopen : Open (Some forged) sender' key ctx' = (opened, Ok m')) :
  forged = wire /\ ctx' = ctx.
Proof.
  assert (validateAuthentication key ctx = Ok tt /\ validateMetadata m = Ok tt) as [Ha Hv].
  { unfold Seal in Hseal. destruct (validateAuthentication key ctx) as [[]|]; [|done].
    split; [done|]. destruct (sequence =? 0); [done|].
    change (validateMetadata (mkMetadata sender _ _ _ _ sequence)) with (validateMetadata m) in Hseal.
    by destruct (validateMetadata m) as [[]|]. }
  destruct (Seal_ok c m sender sequence key ctx) as
    (payload & sealed & _ & _ & _ & _ & Hbody & Hw); [done..|]. cbv zeta in Hw, Hbody.
  set (body := payload ++ _) in *. rewrite Hseal in Hw. injection Hw as Hw.
  assert (drop (CiphertextSize + tagOffset) wire = authenticationTag body key ctx) as Hwt.
  { rewrite Hw. by apply drop_app_exact. }
  assert (length wire = CellSize) as Hlw.
  { rewrite Hw, length_app, Hbody, length_authenticationTag. done. }
  assert (drop (CiphertextSize + tagOffset) forged = authenticationTag forged key ctx') as Hft.
  { unfold Open in Hopen. destruct (validateAuthentication key ctx'); [|done]. cbv zeta in Hopen.
    destruct (negb (bool_decide _)) in Hopen; [done|].
    destruct (negb (bool_decide (drop tagOffset _ = _))) eqn:Et in Hopen; [done|]. reflect_bools.
    by rewrite drop_drop in Et. }
  assert (tag_message forged ctx' = tag_message wire ctx) as Hmsg.
  { apply Hcf. rewrite <- Hft, Htag, Hwt, Hw. by rewrite authenticationTag_prefix. }
  unfold tag_message in Hmsg. apply app_inv_head in Hmsg.
  apply bindContext_inj in Hmsg as [-> Hmsg]; [|done|done|by rewrite !length_take, Hf, Hlw].
  split; [|done].
  rewrite <- (take_drop (CiphertextSize + tagOffset) forged), Htag, Hmsg. apply take_drop.
Qed.
End sealing.

(** ** Witnesses *)

Lemma example_context_typed : context_typed example_context.
Proof. repeat split; try apply Z.leb_le; try apply Z.ltb_lt; reflexivity. Qed.

Lemma seal_open_roundtrip_witness :
  exists wire, Seal (Some example_cell) example_metadata 3 9 example_key example_context = (Some wire, Ok tt) /\
    WireSequence wire = Ok 9.
Proof.
  destruct (seal_open_roundtrip example_cell example_metadata 3 9 example_key example_context)
    as (wire & Hs & _ & Hw & _); try reflexivity; try exact example_metadata_typed.
  - split; [apply Z.leb_le|apply Z.ltb_lt]; reflexivity.
  - split; reflexivity.
  - exists wire. split; [exact Hs|exact Hw].
Defined.

Lemma open_error_untouched_witness :
  exists cell', Open (Some example_cell) 3 example_key example_context = (cell', Err ErrHopHeader) /\
    cell' = Some example_cell.
Proof.
  eexists. assert (Open (Some example_cell) 3 example_key example_context =
    (Some example_cell, Err ErrHopHeader)) as Ho by reflexivity.
  split; [exact Ho|].
  exact (open_error_untouched (Some example_cell) _ 3 example_key example_context ErrHopHeader Ho).
Defined.

Lemma hop_messages_injective_witness :
  stream_message example_context 9 <> tag_message example_cell example_context.
Proof.
  apply (hop_messages_injective example_context example_context 9 9 example_cell example_cell);
    try exact example_context_typed; try reflexivity;
    (split; [apply Z.leb_le|apply Z.ltb_lt]; reflexivity).
Defined.

(** The genuine cell, opened by the peer it was sealed for. *)
Lemma sealed_cell_integrity_witness : exists wire forged opened m',
  Seal (Some example_cell) example_metadata 3 9 example_key example_context = (Some wire, Ok tt) /\
  Open (Some forged) 3 example_key example_context = (opened, Ok m') /\ forged = wire.
Proof.
  assert (Hm := example_metadata_typed). assert (Hx := example_context_typed).
  assert (Hsend : fits 16 3) by (split; [apply Z.leb_le|apply Z.ltb_lt]; reflexivity).
  assert (Hq : 0 < 9 < 2 ^ 32) by (split; reflexivity).
  destruct (Open_Seal example_cell example_metadata 3 9 example_key example_context eq_refl Hm eq_refl
    eq_refl Hsend Hq) as (wire & Hs & Hl & _ & _ & Ho).
  eexists wire, wire, _, _. split; [exact Hs|]. split; [exact Ho|].
  exact (proj1 (sealed_cell_integrity example_cell wire wire example_metadata _ 3 3 9 example_key
    example_context example_context _ eq_refl Hm Hsend Hq Hx Hx Hs Hl eq_refl (fun _ => eq_refl) Ho)).
Defined.
