(* ===== verification/RawCache.v ===== *)
(** The raw cache ([live/rawcache/store.go]): the one-way store in which a node
    keeps the authenticated ciphertexts of its peers' batches, bounded in total
    and per sender.

    The root directory is a map from the names of its 32-character directories
    to their contents; the code ignores every other entry.  What the operating
    system does during a call is an argument of the call. *)

From stdpp Require Import base list list_numbers gmap sorting strings.
From Stdlib Require Import ZArith Lia Strings.Byte.
From S2P Require Import Prelude Bytes Hash Codec Frame.

(** One stream's directory: the files [batch-size], [source] and the cells. *)
Record stream_dir := mkDir {
  batch_file : option (list byte);
  source_file : option (list byte);
  cell_files : gmap Z (list byte);
}.

Notation cache_root := (gmap (list byte) stream_dir).

Record Store := mkStore {
  maxStreams : Z;
  perSource : Z;
  sources : gset Z;
}.

Inductive cache_error :=
| ErrCacheRoot
| ErrCacheLimit
| ErrNoSenders
| ErrNoShare
| ErrCacheIO
| ErrCacheFull
| ErrSourceShareFull
| ErrSenderRecord
| ErrBatchSize
| ErrCellSize
| ErrCacheStream
| ErrCacheEquivocation.

Record cache_io := mkCacheIO {
  io_stat : bool;
  io_list : bool;
  io_source : list byte -> bool;
  io_mkdir : bool;
  io_batch_write : bool;
  io_source_write : bool;
  io_batch_read : bool;
  io_cell_read : Z -> bool;
  io_cell_write : bool;
  io_sync : bool;
}.

(** A disk that does what it is asked. *)
Definition sound_disk : cache_io := mkCacheIO true true (fun _ => true) true true true true (fun _ => true) true true.

(** ** Opening *)

Definition OpenCache (root_ok : bool) (limit : Z) : result cache_error Store :=
  if (limit <? 1) || (4096 <? limit) then Err ErrCacheLimit
  else if negb root_ok then Err ErrCacheRoot
  else Ok (mkStore limit 0 ∅).

Definition OpenShared (root_ok : bool) (limit : Z) (senders : list Z) : result cache_error Store :=
  s ← OpenCache root_ok limit;
  if bool_decide (senders = []) then Err ErrNoSenders
  else
    let set := list_to_set senders : gset Z in
    let share := limit / Z.of_nat (size set) in
    if share <? 1 then Err ErrNoShare else Ok (mkStore limit share set).

(** ** Counting *)

(** The loop of [streamCounts] over the sorted names, when senders count. *)
Fixpoint count_sources (env : cache_io) (fs : cache_root) (counts : gmap Z Z) (names : list (list byte))
  : result cache_error (gmap Z Z) :=
  match names with
  | [] => Ok counts
  | name :: names =>
      if negb (io_source env name) then Err ErrCacheIO
      else match fs !! name ≫= source_file with
      | None => count_sources env fs counts names
      | Some recorded =>
          if negb (Nat.eqb (length recorded) 2) then Err ErrSenderRecord
          else
            let sender := be_val recorded in
            count_sources env fs (<[sender := default 0 (counts !! sender) + 1]> counts) names
      end
  end.

Definition cache_names (fs : cache_root) : list (list byte) := merge_sort name_le (elements (dom fs)).

Definition streamCounts (env : cache_io) (s : Store) (fs : cache_root) : result cache_error (Z * gmap Z Z) :=
  if negb (io_list env) then Err ErrCacheIO
  else if perSource s =? 0 then Ok (Z.of_nat (size fs), ∅)
  else counts ← count_sources env fs ∅ (cache_names fs); Ok (Z.of_nat (size fs), counts).

(** ** Storing *)

Definition readBatchSize (env : cache_io) (d : stream_dir) : result cache_error (option Z) :=
  match batch_file d with
  | None => Ok None
  | Some encoded =>
      if negb (io_batch_read env) then Err ErrCacheIO
      else if negb (Nat.eqb (length encoded) 2) then Err ErrBatchSize
      else
        let value := be_val encoded in
        if (value <? 2) || (MaximumBatch <? value) then Err ErrBatchSize else Ok (Some value)
  end.

(** A missing file is an error here. *)
Definition verifyBatchSize (env : cache_io) (d : stream_dir) (expected : Z) : result cache_error unit :=
  observed ← readBatchSize env d;
  match observed with
  | None => Err ErrCacheIO
  | Some observed => if observed =? expected then Ok tt else Err ErrCacheEquivocation
  end.

Definition writeOrCompare (env : cache_io) (d : stream_dir) (ordinal : Z) (data : list byte)
  : stream_dir * result cache_error bool :=
  match cell_files d !! ordinal with
  | Some existing =>
      if negb (io_cell_read env ordinal) then (d, Err ErrCacheIO)
      else (d, if bool_decide (existing = data) then Ok false else Err ErrCacheEquivocation)
  | None =>
      if negb (io_cell_write env) then (d, Err ErrCacheIO)
      else (mkDir (batch_file d) (source_file d) (<[ordinal := data]> (cell_files d)), Ok true)
  end.

(** A new stream: the limits, the directory and its two files. *)
Definition create_stream (env : cache_io) (s : Store) (fs : cache_root) (name : list byte) (m : Metadata)
  : cache_root * result cache_error stream_dir :=
  match streamCounts env s fs with
  | Err e => (fs, Err e)
  | Ok (total, counts) =>
      if maxStreams s <=? total then (fs, Err ErrCacheFull)
      else if (0 <? perSource s) && negb (bool_decide (Sender m ∈ sources s)) then (fs, Err ErrSourceShareFull)
      else if (0 <? perSource s) && (perSource s <=? default 0 (counts !! Sender m)) then (fs, Err ErrSourceShareFull)
      else if negb (io_mkdir env) then (fs, Err ErrCacheIO)
      else
        let d := mkDir None None ∅ in
        if negb (io_batch_write env) then (<[name := d]> fs, Err ErrCacheIO)
        else
          let d := mkDir (Some (be 2 (BatchSize m))) None ∅ in
          if negb (0 <? perSource s) then (<[name := d]> fs, Ok d)
          else if negb (io_source_write env) then (<[name := d]> fs, Err ErrCacheIO)
          else
            let d := mkDir (Some (be 2 (BatchSize m))) (Some (be 2 (Sender m))) ∅ in
            (<[name := d]> fs, Ok d)
  end.

Definition Put (env : cache_io) (s : Store) (fs : cache_root) (m : Metadata) (payload : list byte)
  : cache_root * result cache_error bool :=
  if negb (IsWork m) then (fs, Ok false)
  else
    let name := hex_encode (Stream m) in
    if negb (io_stat env) then (fs, Err ErrCacheIO)
    else
      let '(fs, opened) :=
        match fs !! name with
        | Some d => (fs, Ok d)
        | None => create_stream env s fs name m
        end in
      match opened with
      | Err e => (fs, Err e)
      | Ok d =>
          match verifyBatchSize env d (BatchSize m) with
          | Err e => (fs, Err e)
          | Ok _ =>
              match writeOrCompare env d (Ordinal m) payload with
              | (_, Err e) => (fs, Err e)
              | (d', Ok created) =>
                  (<[name := d']> fs, if created && negb (io_sync env) then Err ErrCacheIO else Ok created)
              end
          end
      end.

(** ** Loading *)

(** The cells from [ordinal] on; [None] is an incomplete stream. *)
Fixpoint load_cells (env : cache_io) (d : stream_dir) (ordinals : list Z) : result cache_error (option (list (list byte))) :=
  match ordinals with
  | [] => Ok (Some [])
  | ordinal :: ordinals =>
      match cell_files d !! ordinal with
      | None => Ok None
      | Some content =>
          if negb (io_cell_read env ordinal) then Err ErrCacheIO
          else if negb (Nat.eqb (length content) CiphertextSize) then Err ErrCellSize
          else
            rest ← load_cells env d ordinals;
            Ok (match rest with Some rest => Some (content :: rest) | None => None end)
      end
  end.

Section loading.
Context `{HashFunction}.

Definition Load (env : cache_io) (fs : cache_root) (stream : list byte) : result cache_error (option (list (list byte))) :=
  match fs !! hex_encode stream with
  | None => Ok None
  | Some d =>
      batchSize ← readBatchSize env d;
      match batchSize with
      | None => Ok None
      | Some batchSize =>
          payloads ← load_cells env d (seqZ 0 batchSize);
          match payloads with
          | None => Ok None
          | Some payloads =>
              calculated ← wrap (fun _ => ErrCacheStream) (StreamFor payloads);
              if bool_decide (calculated = stream) then Ok (Some payloads) else Err ErrCacheEquivocation
          end
      end
  end.

Definition Complete (env : cache_io) (fs : cache_root) (stream : list byte) : result cache_error bool :=
  payloads ← Load env fs stream; Ok (bool_decide (is_Some payloads)).

Fixpoint complete_names (env : cache_io) (fs : cache_root) (names : list (list byte)) : result cache_error (list (list byte)) :=
  match names with
  | [] => Ok []
  | name :: names =>
      match hex_decode name with
      | Some stream =>
          if negb (Nat.eqb (length name) 32) then complete_names env fs names
          else
            complete ← Complete env fs stream;
            rest ← complete_names env fs names;
            Ok (if complete : bool then stream :: rest else rest)
      | None => complete_names env fs names
      end
  end.

Definition CompleteStreams (env : cache_io) (fs : cache_root) : result cache_error (list (list byte)) :=
  if negb (io_list env) then Err ErrCacheIO else complete_names env fs (cache_names fs).
End loading.

(** ** Well-formed calls and counts *)

(** A call as its types allow it. *)
Definition put_typed (m : Metadata) (payload : list byte) : Prop :=
  length (Stream m) = 16%nat /\ fits 16 (Sender m) /\ fits 16 (BatchSize m) /\ length payload = CiphertextSize.

Lemma filter_ext_elem {A} (P Q : A -> Prop) `{!forall x, Decision (P x), !forall x, Decision (Q x)} (l : list A) :
  (forall x, x ∈ l -> P x <-> Q x) -> filter P l = filter Q l.
Proof.
  induction l as [|x l IH]; intros Hl; [done|]. rewrite !filter_cons, IH by (intros y Hy; apply Hl; by right).
  destruct (decide (P x)) as [Hp|Hp], (decide (Q x)) as [Hq|Hq]; try done; exfalso; [apply Hq|apply Hp]; by apply (Hl x); [left|].
Qed.

(** The streams that sender [k] introduced. *)
Definition introduced (fs : cache_root) (k : Z) : list (list byte) :=
  filter (fun name => fs !! name ≫= source_file = Some (be 2 k)) (elements (dom fs)).

(** Every sender record is two bytes. *)
Definition records_ok (fs : cache_root) : Prop :=
  forall name d r, fs !! name = Some d -> source_file d = Some r -> length r = 2%nat.

Lemma sender_record r k : length r = 2%nat -> fits 16 k -> be_val r = k <-> r = be 2 k.
Proof.
  intros Hr Hk. split; [|intros ->; by apply be_val_be_fits].
  intros <-. rewrite <- Hr. symmetry. apply be_be_val.
Qed.

Lemma count_sources_spec env fs names counts counts' k : records_ok fs -> fits 16 k ->
  count_sources env fs counts names = Ok counts' ->
  default 0 (counts' !! k) = default 0 (counts !! k) + len (filter (fun name => fs !! name ≫= source_file = Some (be 2 k)) names).
Proof.
  intros Hok Hk. revert counts. induction names as [|name names IH]; intros counts; cbn [count_sources].
  - intros E%(inj Ok). subst. simpl. lia.
  - destruct (io_source env name); [|done]. cbn [negb]. destruct (fs !! name ≫= source_file) as [r|] eqn:Er.
    + destruct (fs !! name) as [d|] eqn:Ed; [|done]. cbn [mbind option_bind] in Er.
      rewrite (Hok _ _ _ Ed Er). cbn [Nat.eqb negb]. intros E%IH. rewrite E, filter_cons, Ed. cbn [mbind option_bind]. rewrite Er.
      pose proof (sender_record r k (Hok _ _ _ Ed Er) Hk) as Hb. destruct (decide (be_val r = k)) as [Hek|Hek].
      * rewrite decide_True by (f_equal; by apply Hb). rewrite Hek, lookup_insert_eq. cbn [from_option length]. unfold id. lia.
      * rewrite decide_False by (intros [= ?]; by apply Hek, Hb). rewrite lookup_insert_ne by done. done.
    + intros E%IH. rewrite E, filter_cons, decide_False by (by rewrite Er). done.
Qed.

Lemma streamCounts_spec env s fs total counts k : records_ok fs -> fits 16 k -> perSource s <> 0 ->
  streamCounts env s fs = Ok (total, counts) -> total = Z.of_nat (size fs) /\ default 0 (counts !! k) = len (introduced fs k).
Proof.
  intros Hok Hk Hp. unfold streamCounts. destruct (io_list env); [|done]. cbn [negb]. destruct (perSource s =? 0) eqn:E0; [lia|].
  destruct (count_sources _ _ _ _) as [c|] eqn:Ec; [|done]. cbn [mbind result_bind]. intros [= <- <-]. split; [done|].
  rewrite (count_sources_spec _ _ _ _ _ _ Hok Hk Ec), lookup_empty. cbn [from_option]. unfold id, introduced, cache_names.
  by rewrite (merge_sort_Permutation name_le).
Qed.

Lemma streamCounts_total env s fs total counts : streamCounts env s fs = Ok (total, counts) -> total = Z.of_nat (size fs).
Proof.
  unfold streamCounts. destruct (io_list env); [|done]. cbn [negb]. destruct (_ =? 0); [by intros [= <- _]|].
  destruct (count_sources _ _ _ _); [|done]. by intros [= <- _].
Qed.

(** ** What one call does to the directory *)

(** The new directory of [name] keeps what the old one holds. *)
Definition dir_grows (d d' : stream_dir) : Prop :=
  batch_file d' = batch_file d /\ source_file d' = source_file d /\ cell_files d ⊆ cell_files d'.

Inductive put_outcome (env : cache_io) (s : Store) (fs : cache_root) (m : Metadata) (payload : list byte) : cache_root -> Prop :=
| put_nothing : put_outcome env s fs m payload fs
| put_grows d d' : fs !! hex_encode (Stream m) = Some d -> dir_grows d d' ->
    (forall o c, cell_files d' !! o = Some c -> cell_files d !! o = Some c \/ o = Ordinal m /\ c = payload) ->
    put_outcome env s fs m payload (<[hex_encode (Stream m) := d']> fs)
| put_creates d : fs !! hex_encode (Stream m) = None -> Z.of_nat (size fs) < maxStreams s ->
    (source_file d = None \/ source_file d = Some (be 2 (Sender m)) /\ Sender m ∈ sources s /\ 0 < perSource s /\
       (records_ok fs -> fits 16 (Sender m) -> len (introduced fs (Sender m)) < perSource s)) ->
    (batch_file d = None \/ batch_file d = Some (be 2 (BatchSize m))) ->
    (forall o c, cell_files d !! o = Some c -> o = Ordinal m /\ c = payload) ->
    put_outcome env s fs m payload (<[hex_encode (Stream m) := d]> fs).

Lemma writeOrCompare_grows env d o data d' r : writeOrCompare env d o data = (d', r) ->
  dir_grows d d' /\ forall o' c, cell_files d' !! o' = Some c -> cell_files d !! o' = Some c \/ o' = o /\ c = data.
Proof.
  assert (dir_grows d d /\ forall o' c, cell_files d !! o' = Some c -> cell_files d !! o' = Some c \/ o' = o /\ c = data) as Hsame
    by (split; [by split_and!|auto]).
  unfold writeOrCompare. destruct (cell_files d !! o) as [old|] eqn:Eo.
  - destruct (io_cell_read env o); by intros [= <- <-].
  - destruct (io_cell_write env); intros [= <- <-]; [|done]. split.
    + split_and!; [done..|]. cbn [cell_files]. by apply insert_subseteq.
    + cbn [cell_files]. intros o' c [[<- <-]|[_ ?]]%lookup_insert_Some; auto.
Qed.

Lemma create_stream_outcome env s fs m payload fs' r : fs !! hex_encode (Stream m) = None ->
  create_stream env s fs (hex_encode (Stream m)) m = (fs', r) ->
  put_outcome env s fs m payload fs' /\ forall d, r = Ok d -> fs' = <[hex_encode (Stream m) := d]> fs /\ cell_files d = ∅ /\
    batch_file d = Some (be 2 (BatchSize m)) /\ Z.of_nat (size fs) < maxStreams s /\
    (source_file d = None \/ source_file d = Some (be 2 (Sender m)) /\ Sender m ∈ sources s /\ 0 < perSource s /\
       (records_ok fs -> fits 16 (Sender m) -> len (introduced fs (Sender m)) < perSource s)).
Proof.
  intros Hn. unfold create_stream. destruct (streamCounts env s fs) as [[total counts]|] eqn:Ec;
    [|intros [= <- <-]; split; [apply put_nothing|done]].
  pose proof (streamCounts_total _ _ _ _ _ Ec) as ->. destruct (maxStreams s <=? _) eqn:Em; [intros [= <- <-]; split; [apply put_nothing|done]|].
  destruct ((0 <? perSource s) && negb _) eqn:Es; [intros [= <- <-]; split; [apply put_nothing|done]|].
  destruct ((0 <? perSource s) && (perSource s <=? _)) eqn:Ep; [intros [= <- <-]; split; [apply put_nothing|done]|].
  destruct (io_mkdir env); [|intros [= <- <-]; split; [apply put_nothing|done]]. cbn [negb].
  assert (Z.of_nat (size fs) < maxStreams s) as Hlt by lia.
  destruct (io_batch_write env); cbn [negb].
  2: { intros [= <- <-]. split; [|done]. apply put_creates; cbn [source_file batch_file cell_files]; auto. intros o c Hc. by rewrite lookup_empty in Hc. }
  destruct (0 <? perSource s) eqn:E0; cbn [negb andb] in *.
  2: { intros [= <- <-]. split.
       - apply put_creates; cbn [source_file batch_file cell_files]; auto. intros o c Hc. by rewrite lookup_empty in Hc.
       - intros d Hd. apply (inj Ok) in Hd as <-. split_and!; try done. by left. }
  assert (Sender m ∈ sources s /\ 0 < perSource s /\
    (records_ok fs -> fits 16 (Sender m) -> len (introduced fs (Sender m)) < perSource s)) as Hsrc.
  { apply negb_false_iff, bool_decide_eq_true in Es. split_and!; [done|lia|]. intros Hok Hk.
    destruct (streamCounts_spec env s fs _ _ (Sender m) Hok Hk ltac:(lia) Ec) as [_ <-]. lia. }
  destruct (io_source_write env); cbn [negb]; intros [= <- <-]; split; try done.
  - apply put_creates; cbn [source_file batch_file cell_files]; auto. intros o c Hc. by rewrite lookup_empty in Hc.
  - intros d Hd. apply (inj Ok) in Hd as <-. cbn [source_file batch_file cell_files]. split_and!; try done. right. by split.
  - apply put_creates; cbn [source_file batch_file cell_files]; auto. intros o c Hc. by rewrite lookup_empty in Hc.
Qed.

Lemma Put_outcome env s fs m payload fs' r : Put env s fs m payload = (fs', r) -> put_outcome env s fs m payload fs'.
Proof.
  unfold Put. destruct (IsWork m); [|intros [= <- _]; apply put_nothing]. cbn [negb].
  destruct (io_stat env); [|intros [= <- _]; apply put_nothing]. cbn [negb].
  destruct (fs !! hex_encode (Stream m)) as [d|] eqn:Ed.
  - destruct (verifyBatchSize _ _ _); [|intros [= <- _]; apply put_nothing].
    destruct (writeOrCompare _ _ _ _) as [d' [created|]] eqn:Ew; intros [= <- _]; [|apply put_nothing].
    apply writeOrCompare_grows in Ew as [Hg Hc]. by eapply put_grows.
  - destruct (create_stream _ _ _ _ _) as [fs1 opened] eqn:Ec. destruct (create_stream_outcome _ _ _ _ payload _ _ Ed Ec) as [Ho Hd].
    destruct opened as [d|]; [|by intros [= <- _]]. destruct (Hd d eq_refl) as (-> & Hcells & Hb & Hlt & Hs).
    destruct (verifyBatchSize _ _ _); [|by intros [= <- _]].
    destruct (writeOrCompare _ _ _ _) as [d' [created|]] eqn:Ew; intros [= <- _]; [|done].
    apply writeOrCompare_grows in Ew as [(Eb & Es & _) Hc]. rewrite insert_insert_eq. apply put_creates; [done|done| | |].
    + by rewrite Es.
    + right. by rewrite Eb.
    + intros o c Hoc. destruct (Hc o c Hoc) as [Hold|?]; [|done]. by rewrite Hcells, lookup_empty in Hold.
Qed.

(** ** Runs *)

Record put_call := mkPut { put_env : cache_io; put_meta : Metadata; put_payload : list byte }.

Definition put_step (s : Store) (fs : cache_root) (c : put_call) : cache_root := fst (Put (put_env c) s fs (put_meta c) (put_payload c)).
Definition put_run (s : Store) (fs : cache_root) (calls : list put_call) : cache_root := fold_left (put_step s) calls fs.
Definition calls_typed (calls : list put_call) : Prop := Forall (fun c => put_typed (put_meta c) (put_payload c)) calls.

Lemma put_step_outcome s fs c : put_outcome (put_env c) s fs (put_meta c) (put_payload c) (put_step s fs c).
Proof. unfold put_step. destruct (Put _ _ _ _ _) as [fs' r] eqn:E. by eapply Put_outcome. Qed.

Lemma introduced_insert_same fs name d d' k : fs !! name = Some d -> source_file d' = source_file d ->
  introduced (<[name := d']> fs) k = introduced fs k.
Proof.
  intros Hd Hs. unfold introduced. rewrite dom_insert_lookup_L by (by eexists). apply list_filter_iff. intros n.
  destruct (decide (name = n)) as [<-|]; [rewrite lookup_insert_eq, Hd; cbn [mbind option_bind]; by rewrite Hs|by rewrite lookup_insert_ne].
Qed.

Lemma introduced_insert_new fs name d k : fs !! name = None ->
  introduced (<[name := d]> fs) k ≡ₚ (if decide (source_file d = Some (be 2 k)) then [name] else []) ++ introduced fs k.
Proof.
  intros Hd. unfold introduced. rewrite dom_insert_L, elements_union_singleton by (by apply not_elem_of_dom).
  rewrite filter_cons, lookup_insert_eq. cbn [mbind option_bind].
  assert (filter (fun n => <[name := d]> fs !! n ≫= source_file = Some (be 2 k)) (elements (dom fs)) =
          filter (fun n => fs !! n ≫= source_file = Some (be 2 k)) (elements (dom fs))) as ->.
  { apply filter_ext_elem. intros n Hn%elem_of_elements. rewrite lookup_insert_ne; [done|].
    intros <-. by apply not_elem_of_dom in Hd. }
  by destruct (decide _).
Qed.

Record cache_inv (s : Store) (fs : cache_root) : Prop := {
  ci_total : Z.of_nat (size fs) <= maxStreams s;
  ci_records : records_ok fs;
  ci_known : forall name d r, fs !! name = Some d -> source_file d = Some r -> exists k, k ∈ sources s /\ fits 16 k /\ r = be 2 k;
  ci_share : forall k, fits 16 k -> len (introduced fs k) <= perSource s;
}.

Lemma put_step_inv s fs c : 0 <= perSource s -> put_typed (put_meta c) (put_payload c) -> cache_inv s fs -> cache_inv s (put_step s fs c).
Proof.
  intros Hp (_ & Hk & _ & _) [Ht Hr Hkn Hs].
  destruct (put_step_outcome s fs c) as [|d d' Hd (_ & Es & _) _|d Hd Hlt Hsrc _ _]; [done| |].
  - split.
    + by rewrite map_size_insert_Some by (by eexists).
    + intros n e r [[<- <-]|[_ Hn]]%lookup_insert_Some; [rewrite Es; exact (Hr _ _ _ Hd)|exact (Hr _ _ _ Hn)].
    + intros n e r [[<- <-]|[_ Hn]]%lookup_insert_Some; [rewrite Es; exact (Hkn _ _ _ Hd)|exact (Hkn _ _ _ Hn)].
    + intros k Hfk. rewrite (introduced_insert_same _ _ d) by done. by apply Hs.
  - split.
    + rewrite map_size_insert_None by done. lia.
    + intros n e r [[<- <-]|[_ Hn]]%lookup_insert_Some; [|exact (Hr _ _ _ Hn)].
      destruct Hsrc as [->|(-> & _)]; [done|]. intros E. apply (inj Some) in E as <-. by rewrite length_be.
    + intros n e r [[<- <-]|[_ Hn]]%lookup_insert_Some; [|exact (Hkn _ _ _ Hn)].
      destruct Hsrc as [->|(-> & Hin & _)]; [done|]. intros E. apply (inj Some) in E as <-. by exists (Sender (put_meta c)).
    + intros k Hfk. rewrite (introduced_insert_new _ _ _ _ Hd), length_app. specialize (Hs k Hfk).
      destruct (decide _) as [Hsk|]; [|simpl; lia]. destruct Hsrc as [Hno|(Hyes & _ & _ & Hroom)]; [by rewrite Hno in Hsk|].
      rewrite Hyes in Hsk. apply (inj Some) in Hsk. apply be_inj in Hsk; [|by destruct Hk..]. subst k.
      specialize (Hroom Hr Hk). simpl. lia.
Qed.

Lemma put_run_inv s fs calls : 0 <= perSource s -> calls_typed calls -> cache_inv s fs -> cache_inv s (put_run s fs calls).
Proof.
  intros Hp Hc. revert fs. induction Hc as [|c calls Hc _ IH]; intros fs Hi; [done|]. apply IH. by apply put_step_inv.
Qed.

(** Streams and cells are never removed or changed. *)
Definition cache_kept (fs fs' : cache_root) : Prop := forall name d, fs !! name = Some d -> exists d', fs' !! name = Some d' /\ dir_grows d d'.

#[export] Instance cache_kept_preorder : PreOrder cache_kept.
Proof.
  split.
  - intros fs name d Hd. exists d. by split_and!.
  - intros f1 f2 f3 H12 H23 name d Hd. destruct (H12 _ _ Hd) as (d2 & H2' & B2 & S2 & C2), (H23 _ _ H2') as (d3 & H3' & B3 & S3 & C3).
    exists d3. split; [done|]. split_and!; [congruence|congruence|by etrans].
Qed.

Lemma put_step_kept s fs c : cache_kept fs (put_step s fs c).
Proof.
  destruct (put_step_outcome s fs c) as [|d d' Hd Hg _|d Hd _ _ _ _]; [done| |].
  - intros name e He. destruct (decide (hex_encode (Stream (put_meta c)) = name)) as [<-|].
    + exists d'. rewrite lookup_insert_eq. split; [done|]. by simplify_eq.
    + exists e. rewrite lookup_insert_ne by done. by split_and!.
  - intros name e He. exists e. rewrite lookup_insert_ne by (by intros <-; rewrite Hd in He). by split_and!.
Qed.

Lemma put_run_kept s fs calls : cache_kept fs (put_run s fs calls).
Proof. revert fs. induction calls as [|c calls IH]; intros fs; [reflexivity|]. etrans; [apply put_step_kept|apply IH]. Qed.

Lemma OpenShared_ok ok limit senders s : OpenShared ok limit senders = Ok s ->
  1 <= limit <= 4096 /\ maxStreams s = limit /\ sources s = list_to_set senders /\ 1 <= perSource s /\
  perSource s * Z.of_nat (size (sources s)) <= limit.
Proof.
  unfold OpenShared, OpenCache. destruct ((limit <? 1) || _) eqn:El; [done|]. destruct ok; [|done]. cbn [negb mbind result_bind].
  case_bool_decide as Hs; [done|]. cbv zeta. destruct (limit / _ <? 1) eqn:Es; [done|]. intros E%(inj Ok). subst s. cbn [maxStreams sources perSource].
  split_and!; try done; try lia. set (n := Z.of_nat (size _)) in *.
  assert (0 < n) as Hn.
  { subst n. destruct senders as [|k senders]; [done|]. assert (size (list_to_set (k :: senders) : gset Z) <> 0%nat); [|lia].
    apply size_non_empty_iff. intros E. assert (k ∈ (∅ : gset Z)) as Hk; [|set_solver]. rewrite <- E. set_solver. }
  rewrite Z.mul_comm. apply Z.mul_div_le. lia.
Qed.

Lemma cache_inv_empty s : 0 <= maxStreams s -> 0 <= perSource s -> cache_inv s ∅.
Proof.
  intros Hm Hp. split.
  - by rewrite map_size_empty.
  - by intros n d r Hn.
  - by intros n d r Hn.
  - intros k _. unfold introduced. rewrite dom_empty_L, elements_empty. simpl. lia.
Qed.

(** The cache stays within its limits and forgets nothing.  Over any run of
    calls on a shared cache, whatever operations of the disk fail, there are never
    more streams than the limit, no sender has introduced more than its equal
    share, only senders of the signed set have introduced any, and every stream and
    cell that a call stored is still there, unchanged. *)
Theorem cache_bounded ok limit senders s calls later : OpenShared ok limit senders = Ok s -> calls_typed calls -> calls_typed later ->
  let fs := put_run s ∅ calls in
  Z.of_nat (size fs) <= limit /\
  (forall k, fits 16 k -> len (introduced fs k) <= perSource s /\ (k ∉ senders -> introduced fs k = [])) /\
  perSource s * Z.of_nat (size (list_to_set senders : gset Z)) <= limit /\
  cache_kept fs (put_run s fs later).
Proof.
  intros (Hl & Hm & Hsrc & Hp & Hle)%OpenShared_ok Hc _ fs. rewrite <- Hsrc.
  assert (cache_inv s fs) as [Ht Hr Hk Hsh] by (apply put_run_inv; [lia|done|apply cache_inv_empty; lia]).
  split_and!; [lia| |done|apply put_run_kept]. intros k Hfk. split; [by apply Hsh|]. intros Hno.
  destruct (introduced fs k) as [|name rest] eqn:E; [done|]. exfalso.
  assert (name ∈ introduced fs k) as Hin by (rewrite E; by left). apply list_elem_of_filter in Hin as [Hs Hin].
  destruct (fs !! name) as [d|] eqn:Ed; [|done]. cbn [mbind option_bind] in Hs.
  destruct (Hk _ _ _ Ed Hs) as (k' & Hk' & Hf' & E'). apply be_inj in E'; [|by destruct Hfk|by destruct Hf']. subst k'.
  rewrite Hsrc in Hk'. by apply elem_of_list_to_set in Hk'.
Qed.

(** ** Fairness *)

(** Every stream has its sender on record. *)
Definition attributed (s : Store) (fs : cache_root) : Prop :=
  forall name d, fs !! name = Some d -> exists k, k ∈ sources s /\ fits 16 k /\ source_file d = Some (be 2 k).

Lemma sound_count fs names counts : records_ok fs -> is_Some (match count_sources sound_disk fs counts names with Ok c => Some c | Err _ => None end).
Proof.
  intros Hok. revert counts. induction names as [|name names IH]; intros counts; cbn [count_sources sound_disk io_source negb]; [by eexists|].
  destruct (fs !! name) as [d|] eqn:Ed; cbn [mbind option_bind]; [|apply IH]. destruct (source_file d) as [r|] eqn:Er; [|apply IH].
  rewrite (Hok _ _ _ Ed Er). cbn [Nat.eqb negb]. apply IH.
Qed.

Lemma sound_streamCounts s fs : records_ok fs -> exists counts, streamCounts sound_disk s fs = Ok (Z.of_nat (size fs), counts).
Proof.
  intros Hok. unfold streamCounts. cbn [sound_disk io_list negb]. destruct (_ =? 0); [by eexists|].
  destruct (sound_count fs (cache_names fs) ∅ Hok) as [c Hc].
  destruct (count_sources sound_disk fs ∅ (cache_names fs)) as [c'|] eqn:E; [|done]. by eexists.
Qed.

(** Each of [l] has a key in [ks]: counting by key loses nothing. *)
Lemma count_by_key {A} (f : A -> option (list byte)) (ks : list Z) (l : list A) :
  (forall x, x ∈ l -> exists k, k ∈ ks /\ f x = Some (be 2 k)) ->
  len l <= Z.of_nat (sum_list_with (fun k => length (filter (fun x => f x = Some (be 2 k)) l)) ks).
Proof.
  induction l as [|x l IH]; intros Hl; [simpl; lia|]. specialize (IH ltac:(intros y Hy; apply Hl; by right)).
  destruct (Hl x ltac:(by left)) as (k & Hk & Hx).
  assert (S (sum_list_with (fun k => length (filter (fun x => f x = Some (be 2 k)) l)) ks) <=
          sum_list_with (fun k => length (filter (fun x => f x = Some (be 2 k)) (x :: l))) ks)%nat as Hs.
  { clear IH Hl. assert (forall j, (length (filter (fun x => f x = Some (be 2 j)) l) <=
      length (filter (fun x => f x = Some (be 2 j)) (x :: l)))%nat) as Hle by (intros j; rewrite filter_cons; destruct (decide _); simpl; lia).
    assert (forall js, (sum_list_with (fun k => length (filter (fun x => f x = Some (be 2 k)) l)) js <=
      sum_list_with (fun k => length (filter (fun x => f x = Some (be 2 k)) (x :: l))) js)%nat) as Hall
      by (intros js; induction js as [|j js IHj]; [done|]; cbn [sum_list_with]; specialize (Hle j); lia).
    induction ks as [|j ks IHk]; [by apply elem_of_nil in Hk|]. cbn [sum_list_with]. apply elem_of_cons in Hk as [<-|Hk].
    - rewrite (filter_cons _ x), decide_True by done. cbn [length]. specialize (Hall ks). lia.
    - specialize (IHk Hk). specialize (Hle j). lia. }
  rewrite length_cons. lia.
Qed.

Lemma attributed_total s fs k : attributed s fs -> k ∈ sources s -> fits 16 k ->
  (forall j, fits 16 j -> len (introduced fs j) <= perSource s) -> 0 < perSource s -> len (introduced fs k) < perSource s ->
  (forall j, j ∈ sources s -> fits 16 j) ->
  Z.of_nat (size fs) < perSource s * Z.of_nat (size (sources s)).
Proof.
  intros Ha Hk Hfk Hsh Hp Hroom Hfits.
  assert (len (elements (dom fs)) <= Z.of_nat (sum_list_with (fun j => length (introduced fs j)) (elements (sources s)))) as Hsum.
  { apply (count_by_key (fun name => fs !! name ≫= source_file)). intros name Hn. apply elem_of_elements, elem_of_dom in Hn as [d Hd].
    destruct (Ha _ _ Hd) as (j & Hj & _ & Hs). exists j. split; [by apply elem_of_elements|]. by rewrite Hd. }
  rewrite <- (size_dom fs). unfold size at 1, set_size. cbn [compose]. 
  assert (k ∈ elements (sources s)) as Hin by (by apply elem_of_elements).
  assert (forall j, j ∈ elements (sources s) -> len (introduced fs j) <= perSource s) as Hall
    by (intros j Hj; apply Hsh, Hfits; by apply elem_of_elements).
  unfold size, set_size. cbn [compose]. revert Hin Hall Hsum. generalize (len (elements (dom fs))) as total. generalize (elements (sources s)) as ks.
  intros ks total Hin Hall Hsum. enough (Z.of_nat (sum_list_with (fun j => length (introduced fs j)) ks) < perSource s * len ks) by lia. clear Hsum.
  induction ks as [|j ks IH]; [by apply elem_of_nil in Hin|]. cbn [sum_list_with]. rewrite length_cons.
  assert (Z.of_nat (sum_list_with (fun j => length (introduced fs j)) ks) <= perSource s * len ks) as Hle.
  { clear IH Hin. assert (forall i, i ∈ ks -> len (introduced fs i) <= perSource s) as Hks by (intros i Hi; apply Hall; by right). clear Hall.
    induction ks as [|i ks IH]; [simpl; lia|]. cbn [sum_list_with]. rewrite length_cons.
    pose proof (Hks i ltac:(by left)). specialize (IH ltac:(intros; apply Hks; by right)). lia. }
  apply elem_of_cons in Hin as [<-|Hin]; [lia|]. pose proof (Hall j ltac:(by left)).
  specialize (IH Hin ltac:(intros; apply Hall; by right)). lia.
Qed.

Lemma verifyBatchSize_sound n src cells : 2 <= n <= MaximumBatch -> verifyBatchSize sound_disk (mkDir (Some (be 2 n)) src cells) n = Ok tt.
Proof.
  intros Hn. unfold verifyBatchSize, readBatchSize. cbn [batch_file sound_disk io_batch_read negb]. rewrite length_be. cbn [Nat.eqb negb].
  change MaximumBatch with 256 in *. rewrite be_val_be_fits by (simpl; lia).
  destruct ((n <? 2) || _) eqn:E; [reflect_bools; lia|]. cbn [mbind result_bind]. by rewrite Z.eqb_refl.
Qed.

(** A disk without faults records the sender of every stream it creates. *)
Lemma sound_put_attributed s fs m payload : 0 < perSource s -> fits 16 (Sender m) -> attributed s fs ->
  attributed s (fst (Put sound_disk s fs m payload)).
Proof.
  intros Hp Hk Ha. unfold Put. destruct (IsWork m); [|done]. change (io_stat sound_disk) with true. cbn [negb].
  assert (forall d d', source_file d' = source_file d -> forall fs' : cache_root, attributed s fs' -> fs' !! hex_encode (Stream m) = Some d ->
    attributed s (<[hex_encode (Stream m) := d']> fs')) as Hkeep.
  { intros d d' Es fs' Ha' Hd name e [[<- <-]|[_ Hn]]%lookup_insert_Some; [rewrite Es; by apply Ha' in Hd|by apply Ha' in Hn]. }
  assert (forall (fs' : cache_root) opened, attributed s fs' -> (forall d, opened = Ok d -> fs' !! hex_encode (Stream m) = Some d) ->
    attributed s (fst match opened with
      | Err e => (fs', Err e)
      | Ok d => match verifyBatchSize sound_disk d (BatchSize m) with
        | Err e => (fs', Err e)
        | Ok _ => match writeOrCompare sound_disk d (Ordinal m) payload with
          | (_, Err e) => (fs', Err e)
          | (d', Ok created) => (<[hex_encode (Stream m) := d']> fs', if created && negb (io_sync sound_disk) then Err ErrCacheIO else Ok created) end end end)) as Hrest.
  { intros fs' [d|] Ha' Hd; [|done]. destruct (verifyBatchSize _ _ _); [|done].
    destruct (writeOrCompare _ _ _ _) as [d' [created|]] eqn:Ew; [|done]. apply writeOrCompare_grows in Ew as [(_ & Es & _) _].
    cbn [fst]. by eapply Hkeep; [exact Es| |apply Hd]. }
  destruct (fs !! hex_encode (Stream m)) as [d|] eqn:Ed; [refine (Hrest fs (Ok d) Ha _); by intros ? [= <-]|].
  destruct (create_stream _ _ _ _ _) as [fs1 opened] eqn:Ec. revert Ec. unfold create_stream.
  destruct (streamCounts _ _ _) as [[total counts]|]; [|intros [= <- <-]; by refine (Hrest fs (Err _) Ha _)].
  destruct (maxStreams s <=? total); [intros [= <- <-]; by refine (Hrest fs (Err _) Ha _)|]. rewrite (proj2 (Z.ltb_lt _ _) Hp). cbn [andb].
  case_bool_decide as Hin; cbn [negb]; [|intros [= <- <-]; by refine (Hrest fs (Err _) Ha _)].
  destruct (perSource s <=? _); [intros [= <- <-]; by refine (Hrest fs (Err _) Ha _)|]. change (io_mkdir sound_disk) with true.
  change (io_batch_write sound_disk) with true. change (io_source_write sound_disk) with true. cbn [negb].
  intros [= <- <-]. refine (Hrest _ (Ok _) _ _); [|intros d [= <-]; apply lookup_insert_eq].
  intros name e [[<- <-]|[_ Hn]]%lookup_insert_Some; [by exists (Sender m)|by apply Ha in Hn].
Qed.

Lemma sound_run_attributed s fs calls : 0 < perSource s -> calls_typed calls -> Forall (fun c => put_env c = sound_disk) calls ->
  attributed s fs -> attributed s (put_run s fs calls).
Proof.
  intros Hp Hc. revert fs. induction Hc as [|c calls (_ & Hk & _) _ IH]; intros fs He Ha; [done|].
  apply Forall_cons in He as [He Hes]. apply IH; [done|]. unfold put_step. rewrite He. by apply sound_put_attributed.
Qed.

(** A new stream of a sender with room. *)
Lemma sound_put_new s fs m payload : records_ok fs -> fits 16 (Sender m) -> IsWork m = true -> 2 <= BatchSize m <= MaximumBatch ->
  fs !! hex_encode (Stream m) = None -> Z.of_nat (size fs) < maxStreams s ->
  0 < perSource s -> Sender m ∈ sources s -> len (introduced fs (Sender m)) < perSource s ->
  Put sound_disk s fs m payload =
    (<[hex_encode (Stream m) := mkDir (Some (be 2 (BatchSize m))) (Some (be 2 (Sender m))) {[Ordinal m := payload]}]> fs, Ok true).
Proof.
  intros Hr Hk Hw Hb Hnew Htot Hp Hins Hroom.
  unfold Put. rewrite Hw, Hnew. change (io_stat sound_disk) with true. cbn [negb]. unfold create_stream.
  destruct (sound_streamCounts s fs Hr) as [counts Ec]. rewrite Ec.
  destruct (streamCounts_spec sound_disk s fs _ _ (Sender m) Hr Hk ltac:(lia) Ec) as [_ Hcount].
  destruct (maxStreams s <=? _) eqn:E1; [lia|]. rewrite (proj2 (Z.ltb_lt 0 (perSource s))) by lia. rewrite bool_decide_true by done. cbn [andb negb].
  destruct (perSource s <=? _) eqn:E2; [lia|]. change (io_mkdir sound_disk) with true.
  change (io_batch_write sound_disk) with true. change (io_source_write sound_disk) with true. cbn [negb].
  rewrite verifyBatchSize_sound by done. unfold writeOrCompare. cbn [cell_files]. rewrite lookup_empty.
  change (io_cell_write sound_disk) with true. change (io_sync sound_disk) with true. cbn [negb batch_file source_file andb]. by rewrite insert_insert_eq.
Qed.

(** Another cell of a stream. *)
Lemma sound_put_next s fs m payload src cells : IsWork m = true -> 2 <= BatchSize m <= MaximumBatch ->
  fs !! hex_encode (Stream m) = Some (mkDir (Some (be 2 (BatchSize m))) src cells) -> cells !! Ordinal m = None ->
  Put sound_disk s fs m payload =
    (<[hex_encode (Stream m) := mkDir (Some (be 2 (BatchSize m))) src (<[Ordinal m := payload]> cells)]> fs, Ok true).
Proof.
  intros Hw Hb Hd Hc. unfold Put. rewrite Hw, Hd. change (io_stat sound_disk) with true. cbn [negb]. rewrite verifyBatchSize_sound by done.
  unfold writeOrCompare. cbn [cell_files]. rewrite Hc. done.
Qed.

(** Nobody is crowded out.  As long as the disk works, a sender of the signed set
    that has not used its share can always introduce another stream, whatever
    the other senders have sent: the limit is never reached before the shares
    are. *)
Theorem share_guaranteed ok limit senders s calls m payload : OpenShared ok limit senders = Ok s ->
  Forall (fits 16) senders -> calls_typed calls -> Forall (fun c => put_env c = sound_disk) calls ->
  let fs := put_run s ∅ calls in
  put_typed m payload -> IsWork m = true -> 2 <= BatchSize m <= MaximumBatch -> Sender m ∈ senders ->
  len (introduced fs (Sender m)) < perSource s -> fs !! hex_encode (Stream m) = None ->
  exists d, Put sound_disk s fs m payload = (<[hex_encode (Stream m) := d]> fs, Ok true) /\ cell_files d = {[Ordinal m := payload]}.
Proof.
  intros (Hl & Hm & Hsrc & Hp & Hle)%OpenShared_ok Hfit Hc Henv fs (Hst & Hk & _ & _) Hw Hb Hin Hroom Hnew.
  assert (cache_inv s fs) as [Ht Hr Hkn Hsh] by (apply put_run_inv; [lia|done|apply cache_inv_empty; lia]).
  assert (attributed s fs) as Ha by (apply sound_run_attributed; [lia|done|done|by intros name d Hd]).
  assert (Sender m ∈ sources s) as Hins by (rewrite Hsrc; by apply elem_of_list_to_set).
  assert (forall j, j ∈ sources s -> fits 16 j) as Hfits
    by (intros j; rewrite Hsrc, elem_of_list_to_set; intros Hj; by eapply Forall_forall in Hfit).
  pose proof (attributed_total s fs (Sender m) Ha Hins Hk Hsh ltac:(lia) Hroom Hfits) as Htot.
  eexists. split; [apply sound_put_new; done || lia|done].
Qed.

(** ** Loading *)

Section loads.
Context `{HashFunction}.

(** The files of [ordinals] hold the full-size cells [cs]. *)
Definition holds (d : stream_dir) (ordinals : list Z) (cs : list (list byte)) : Prop :=
  Forall2 (fun o c => cell_files d !! o = Some c /\ length c = CiphertextSize) ordinals cs.

Lemma load_cells_holds env d os cs : load_cells env d os = Ok (Some cs) -> holds d os cs.
Proof.
  revert cs. induction os as [|o os IH]; intros cs; cbn [load_cells]; [intros [= <-]; constructor|].
  destruct (cell_files d !! o) as [c|] eqn:Eo; [|done]. destruct (io_cell_read env o); [|done]. cbn [negb].
  destruct (Nat.eqb (length c) CiphertextSize) eqn:El; [|done]. apply Nat.eqb_eq in El. cbn [negb].
  destruct (load_cells env d os) as [[rest|]|]; cbn [mbind result_bind]; intros [= <-]. constructor; [done|by apply IH].
Qed.

Lemma load_cells_sound d os cs : holds d os cs -> load_cells sound_disk d os = Ok (Some cs).
Proof.
  induction 1 as [|o c os cs [Ho Hl] _ IH]; [done|]. cbn [load_cells]. rewrite Ho, Hl, Nat.eqb_refl, IH. done.
Qed.

(** Loading with full-size cells, or less, never depends on their content. *)
Lemma load_cells_any env d os : (forall o c, cell_files d !! o = Some c -> length c = CiphertextSize) ->
  (forall o, io_cell_read env o = true) -> exists r, load_cells env d os = Ok r.
Proof.
  intros Hs He. induction os as [|o os [r IH]]; cbn [load_cells]; [by eexists|]. destruct (cell_files d !! o) as [c|] eqn:Eo; [|by eexists].
  rewrite He, (Hs _ _ Eo), Nat.eqb_refl, IH. by eexists.
Qed.

Lemma readBatchSize_be env src cells n : 2 <= n <= MaximumBatch ->
  readBatchSize env (mkDir (Some (be 2 n)) src cells) = if io_batch_read env then Ok (Some n) else Err ErrCacheIO.
Proof.
  intros Hn. unfold readBatchSize. cbn [batch_file]. rewrite length_be. destruct (io_batch_read env); [|done]. cbn [Nat.eqb negb].
  change MaximumBatch with 256 in *. rewrite be_val_be_fits by (simpl; lia). destruct ((n <? 2) || _) eqn:E; [reflect_bools; lia|done].
Qed.

Lemma StreamFor_count payloads stream : StreamFor payloads = Ok stream -> 2 <= len payloads <= MaximumBatch /\ length stream = 16%nat.
Proof.
  unfold StreamFor. destruct ((_ <? 2) || _) eqn:E; [done|]. intros E'%(inj Ok). subst stream. reflect_bools.
  split; [lia|]. rewrite length_take, (sha256_digest _). done.
Qed.

(** A directory that agrees with the batch [payloads]. *)
Definition agrees (payloads : list (list byte)) (d : stream_dir) : Prop :=
  (batch_file d = None \/ batch_file d = Some (be 2 (len payloads))) /\
  forall o c, cell_files d !! o = Some c -> 0 <= o /\ payloads !! Z.to_nat o = Some c.

(** A call that offers a cell of this batch, if it is for this stream. *)
Definition honest_for (stream : list byte) (payloads : list (list byte)) (c : put_call) : Prop :=
  put_typed (put_meta c) (put_payload c) /\
  (Stream (put_meta c) = stream -> BatchSize (put_meta c) = len payloads /\ 0 <= Ordinal (put_meta c) /\
     payloads !! Z.to_nat (Ordinal (put_meta c)) = Some (put_payload c)).

Lemma put_step_agrees stream payloads s fs c : length stream = 16%nat -> honest_for stream payloads c ->
  (forall d, fs !! hex_encode stream = Some d -> agrees payloads d) ->
  forall d, put_step s fs c !! hex_encode stream = Some d -> agrees payloads d.
Proof.
  intros Hl [_ Hh] Ha d. destruct (put_step_outcome s fs c) as [|e e' He (Eb & _ & Hc) Hnew|e He _ _ Hb Hnew]; [by apply Ha| |].
  - intros [[Hs <-]|[_ Hd]]%lookup_insert_Some; [|by apply Ha]. apply hex_encode_inj in Hs. destruct (Hh Hs) as (_ & Ho & Hp). rewrite Hs in He.
    destruct (Ha _ He) as [Hbatch Hcells]. split; [by rewrite Eb|]. intros o x Hx. destruct (Hnew o x Hx) as [Hold|[-> ->]]; [by apply Hcells|done].
  - intros [[Hs <-]|[_ Hd]]%lookup_insert_Some; [|by apply Ha]. apply hex_encode_inj in Hs. destruct (Hh Hs) as (Hn & Ho & Hp).
    split; [by rewrite Hn in Hb|]. intros o x Hx. by destruct (Hnew o x Hx) as [-> ->].
Qed.

Lemma put_run_agrees stream payloads s fs calls : length stream = 16%nat -> Forall (honest_for stream payloads) calls ->
  (forall d, fs !! hex_encode stream = Some d -> agrees payloads d) ->
  forall d, put_run s fs calls !! hex_encode stream = Some d -> agrees payloads d.
Proof.
  intros Hl Hc. revert fs. induction Hc as [|c calls Hc _ IH]; intros fs Ha; [done|]. apply IH. by apply put_step_agrees.
Qed.

(** A call that returns without an error has its cell in the cache. *)
Lemma Put_stores env s fs m payload fs' b : IsWork m = true -> Put env s fs m payload = (fs', Ok b) ->
  exists d, fs' !! hex_encode (Stream m) = Some d /\ batch_file d <> None /\ cell_files d !! Ordinal m = Some payload.
Proof.
  intros Hw. unfold Put. rewrite Hw. cbn [negb]. destruct (io_stat env); [|done]. cbn [negb].
  destruct (match fs !! _ with Some d => _ | None => _ end) as [fs1 [d|]]; [|done].
  destruct (verifyBatchSize env d (BatchSize m)) as [[]|] eqn:Ev; [|done].
  assert (batch_file d <> None) as Hb by (unfold verifyBatchSize, readBatchSize in Ev; by destruct (batch_file d)).
  unfold writeOrCompare. destruct (cell_files d !! Ordinal m) as [old|] eqn:Eo.
  - destruct (io_cell_read env _); [|done]. cbn [negb]. case_bool_decide as Hs; [|done]. intros [= <- _]. subst old.
    exists d. by rewrite lookup_insert_eq.
  - destruct (io_cell_write env); [|done]. cbn [negb]. intros [= <- _]. eexists. rewrite lookup_insert_eq. split_and!; [done|done|].
    cbn [cell_files]. apply lookup_insert_eq.
Qed.

(** A cell offered by some call of a run that this call accepted. *)
Definition accepted_in (s : Store) (fs : cache_root) (calls : list put_call) (stream : list byte) (ordinal : Z) : Prop :=
  exists before c after b, calls = before ++ c :: after /\ Stream (put_meta c) = stream /\ Ordinal (put_meta c) = ordinal /\
    IsWork (put_meta c) = true /\ snd (Put (put_env c) s (put_run s fs before) (put_meta c) (put_payload c)) = Ok b.

Lemma accepted_stays s fs calls stream o : accepted_in s fs calls stream o ->
  exists d c, put_run s fs calls !! hex_encode stream = Some d /\ batch_file d <> None /\ cell_files d !! o = Some c.
Proof.
  intros (before & c & after & b & -> & <- & <- & Hw & Hok). unfold put_run. rewrite fold_left_app. cbn [fold_left].
  fold (put_run s fs before). set (fs1 := put_run s fs before) in *. fold (put_run s (put_step s fs1 c) after).
  unfold put_step at 1. destruct (Put _ _ _ _ _) as [fs2 r] eqn:Ep. cbn [fst snd] in *. subst r.
  destruct (Put_stores _ _ _ _ _ _ _ Hw Ep) as (d & Hd & Hb & Hc).
  destruct (put_run_kept s fs2 after _ _ Hd) as (d' & Hd' & Eb & _ & Hsub). exists d', (put_payload c). split_and!; [done|by rewrite Eb|].
  by eapply lookup_weaken.
Qed.
End loads.

(** An honest batch comes back whole.  Put its cells in any order, repeated, mixed
    with any other streams and with any failures of the disk: loading returns
    either nothing yet or exactly the batch, never an error; and once a call for
    each ordinal has succeeded, it returns the batch. *)
Theorem batch_roundtrip `{HashFunction} s payloads stream calls : StreamFor payloads = Ok stream ->
  Forall (fun p => length p = CiphertextSize) payloads -> Forall (honest_for stream payloads) calls ->
  let fs := put_run s ∅ calls in
  (Load sound_disk fs stream = Ok None \/ Load sound_disk fs stream = Ok (Some payloads)) /\
  ((forall o, 0 <= o < len payloads -> accepted_in s ∅ calls stream o) -> Load sound_disk fs stream = Ok (Some payloads)).
Proof.
  intros Hs Hsz Hc fs. destruct (StreamFor_count _ _ Hs) as [Hn Hl].
  assert (forall d, fs !! hex_encode stream = Some d -> agrees payloads d) as Ha
    by (apply put_run_agrees; [done|done|by intros d Hd; rewrite lookup_empty in Hd]).
  assert (forall d cs, agrees payloads d -> holds d (seqZ 0 (len payloads)) cs -> cs = payloads) as Huniq.
  { intros d cs [_ Hcells] Hh. pose proof (Forall2_length _ _ _ Hh) as Hlen. rewrite length_seqZ, Nat2Z.id in Hlen.
    apply list_eq. intros i. destruct (cs !! i) as [c|] eqn:Ei.
    - destruct (Forall2_lookup_r _ _ _ _ _ Hh Ei) as (o & Ho & Hoc & _). apply lookup_seqZ in Ho as [-> _].
      destruct (Hcells _ _ Hoc) as [_ E]. rewrite Z.add_0_l, Nat2Z.id in E. by rewrite E.
    - symmetry. apply lookup_ge_None. apply lookup_ge_None in Ei. lia. }
  assert (forall d, fs !! hex_encode stream = Some d -> batch_file d <> None ->
    Load sound_disk fs stream = match load_cells sound_disk d (seqZ 0 (len payloads)) with
      | Ok (Some cs) => Ok (Some cs) | Ok None => Ok None | Err e => Err e end) as Hload.
  { intros d Hd Hb. pose proof (Ha d Hd) as Hag. destruct Hag as [[?|Hbf] Hcells] eqn:Hag'; [done|]. clear Hag'. unfold Load. rewrite Hd.
    destruct d as [bf src cf]. cbn [batch_file] in Hbf. subst bf. rewrite readBatchSize_be by done. cbn [sound_disk io_batch_read mbind result_bind].
    fold sound_disk. destruct (load_cells sound_disk _ _) as [[cs|]|] eqn:El; cbn [mbind result_bind]; [|done|done].
    apply load_cells_holds in El. rewrite (Huniq _ _ Hag El), Hs. cbn [wrap mbind result_bind]. by rewrite bool_decide_true. }
  split.
  - destruct (fs !! hex_encode stream) as [d|] eqn:Ed; [|left; unfold Load; by rewrite Ed].
    destruct (batch_file d) as [bf|] eqn:Eb; [|left; unfold Load, readBatchSize; by rewrite Ed, Eb].
    rewrite (Hload d eq_refl) by (by rewrite Eb). pose proof (Ha d eq_refl) as [_ Hcells] .
    destruct (load_cells_any sound_disk d (seqZ 0 (len payloads))) as [[cs|] Er]; [|done| |].
    + intros o c Hoc. destruct (Hcells _ _ Hoc) as [_ Hp]. by eapply Forall_lookup in Hsz.
    + rewrite Er. right. do 2 f_equal. apply (Huniq d); [by apply Ha|by apply load_cells_holds in Er].
    + rewrite Er. by left.
  - intros Hacc. destruct (accepted_stays _ _ _ _ _ (Hacc 0 ltac:(lia))) as (d & _ & Hd & Hb & _). fold fs in Hd.
    rewrite (Hload d Hd Hb). enough (holds d (seqZ 0 (len payloads)) payloads) as Hh by (by rewrite (load_cells_sound _ _ _ Hh)).
    apply Forall2_same_length_lookup_2; [by rewrite length_seqZ, Nat2Z.id|]. intros i o p Ho Hp. apply lookup_seqZ in Ho as [-> Hi].
    destruct (accepted_stays _ _ _ _ _ (Hacc (0 + Z.of_nat i) ltac:(lia))) as (d' & c & Hd' & _ & Hc'). fold fs in Hd'. rewrite Hd in Hd'.
    injection Hd' as <-. destruct (Ha d Hd) as [_ Hcells]. destruct (Hcells _ _ Hc') as [_ E]. rewrite Z.add_0_l, Nat2Z.id in E.
    rewrite Hp in E. injection E as <-. split; [done|]. by eapply Forall_lookup in Hsz.
Qed.

(** ** Streams that never load *)

Section poisoned.
Context `{HashFunction}.

Lemma load_cells_env env d os cs : holds d os cs -> load_cells env d os = Ok (Some cs) \/ exists e, load_cells env d os = Err e.
Proof.
  induction 1 as [|o c os cs [Ho Hl] _ IH]; [by left|]. cbn [load_cells]. rewrite Ho. destruct (io_cell_read env o); [|by right; eexists].
  cbn [negb]. rewrite Hl, Nat.eqb_refl. cbn [negb]. destruct IH as [-> |[e ->]]; [by left|by right; eexists].
Qed.

(** The cells of the stream are all there and are not those it is named by. *)
Definition poisoned (fs : cache_root) (stream : list byte) : Prop :=
  exists d n cs other, fs !! hex_encode stream = Some d /\ batch_file d = Some (be 2 n) /\ 2 <= n <= MaximumBatch /\
    holds d (seqZ 0 n) cs /\ StreamFor cs = Ok other /\ other <> stream.

Lemma poisoned_kept fs fs' stream : cache_kept fs fs' -> poisoned fs stream -> poisoned fs' stream.
Proof.
  intros Hk (d & n & cs & other & Hd & Hb & Hn & Hh & Hs & Hne). destruct (Hk _ _ Hd) as (d' & Hd' & Eb & _ & Hsub).
  exists d', n, cs, other. split_and!; try done; [by rewrite Eb|..|lia|]; [lia|].
  eapply Forall2_impl; [exact Hh|]. intros o c [Ho Hl]. split; [by eapply lookup_weaken|done].
Qed.

Lemma poisoned_load env fs stream r : poisoned fs stream -> Load env fs stream <> Ok r.
Proof.
  intros (d & n & cs & other & Hd & Hb & Hn & Hh & Hs & Hne). unfold Load. rewrite Hd. destruct d as [bf src cf]. cbn [batch_file] in Hb. subst bf.
  rewrite readBatchSize_be by done. destruct (io_batch_read env); [|done]. cbn [mbind result_bind].
  destruct (load_cells_env env _ _ _ Hh) as [-> |[e ->]]; cbn [mbind result_bind]; [|done]. rewrite Hs. cbn [wrap mbind result_bind].
  by rewrite bool_decide_false.
Qed.

(** One such stream makes the list of all complete streams unavailable. *)
Lemma poisoned_complete env fs stream l : length stream = 16%nat -> poisoned fs stream -> CompleteStreams env fs <> Ok l.
Proof.
  intros Hl Hp. unfold CompleteStreams. destruct (io_list env); [|done]. cbn [negb].
  assert (hex_encode stream ∈ cache_names fs) as Hin.
  { destruct Hp as (d & _ & _ & _ & Hd & _). unfold cache_names. rewrite merge_sort_Permutation. apply elem_of_elements, elem_of_dom. by eexists. }
  revert l Hin. induction (cache_names fs) as [|name names IH]; intros l; [by intros ?%elem_of_nil|]. cbn [complete_names].
  intros [<-|Hin]%elem_of_cons.
  - rewrite hex_decode_encode, length_hex_encode, Hl. cbn [Nat.eqb Nat.mul Nat.add negb]. unfold Complete.
    destruct (Load env fs stream) as [r|] eqn:E; [by apply (poisoned_load env fs stream r Hp) in E|done].
  - destruct (hex_decode name) as [st|]; [|by apply IH]. destruct (Nat.eqb (length name) 32); [|by apply IH]. cbn [negb].
    destruct (Complete env fs st) as [b|]; [|done]. cbn [mbind result_bind]. destruct (complete_names env fs names) as [rest|]; [|done].
    intros _. by eapply IH.
Qed.

(** A directory left without its batch size, by a failed write or a crash between
    the two, is never repaired: no later call for the stream succeeds, and the
    stream counts against the limit. *)
Lemma torn_stream_wedged s fs calls d stream env m payload : fs !! hex_encode stream = Some d -> batch_file d = None ->
  Stream m = stream -> IsWork m = true -> forall b, snd (Put env s (put_run s fs calls) m payload) <> Ok b.
Proof.
  intros Hd Hb Hm Hw b. destruct (put_run_kept s fs calls _ _ Hd) as (d' & Hd' & Eb & _). unfold Put. rewrite Hw, Hm, Hd'. cbn [negb].
  destruct (io_stat env); [|done]. cbn [negb]. unfold verifyBatchSize, readBatchSize. by rewrite Eb, Hb.
Qed.
End poisoned.

(** ** Examples *)

Section example.
#[local] Existing Instance example_hash.

Definition example_cells : list (list byte) := [replicate CiphertextSize x41; replicate CiphertextSize x42].
Definition example_stream : list byte := match StreamFor example_cells with Ok s => s | Err _ => [] end.
Definition example_cache : Store := mkStore 5 2 {[1; 3]}.
Definition example_put (ordinal : nat) : put_call :=
  mkPut sound_disk (mkMetadata 3 (Z.of_nat ordinal) 2 FlagWork example_stream 0) (default [] (example_cells !! ordinal)).
Definition example_puts : list put_call := [example_put 1; example_put 0; example_put 1].

Lemma example_cache_opens : OpenShared true 5 [1; 3] = Ok example_cache.
Proof. vm_compute. reflexivity. Qed.

Lemma example_stream_ok : StreamFor example_cells = Ok example_stream.
Proof. reflexivity. Qed.

Lemma example_puts_honest : Forall (honest_for example_stream example_cells) example_puts.
Proof.
  assert (length example_stream = 16%nat) as Hl by (apply (StreamFor_count _ _ example_stream_ok)).
  assert (forall i, (i < 2)%nat -> honest_for example_stream example_cells (example_put i)) as Hp.
  { intros i Hi. assert (i = 0%nat \/ i = 1%nat) as [-> | ->] by lia; (split; [split; [exact Hl|]|intros _; split; [reflexivity|split; [vm_compute; discriminate|reflexivity]]]);
      (split; [split; vm_compute; [discriminate|reflexivity]|]; split; [split; vm_compute; [discriminate|reflexivity]|reflexivity]). }
  unfold example_puts. apply Forall_cons. split; [apply Hp; lia|]. apply Forall_cons. split; [apply Hp; lia|]. apply Forall_singleton, Hp. lia.
Qed.

Lemma example_puts_typed : calls_typed example_puts.
Proof. eapply Forall_impl; [exact example_puts_honest|]. intros c [Hc _]. exact Hc. Qed.

Lemma cache_bounded_witness : Z.of_nat (size (put_run example_cache ∅ example_puts)) <= 5 /\
  len (introduced (put_run example_cache ∅ example_puts) 3) <= 2.
Proof.
  destruct (cache_bounded true 5 [1; 3] example_cache example_puts [] example_cache_opens example_puts_typed (Forall_nil_2 _)) as (H1' & H2' & _).
  split; [exact H1'|]. apply (H2' 3). split; [lia|reflexivity].
Defined.

Definition example_next : Metadata := mkMetadata 3 0 2 FlagWork (replicate 16 x07) 0.

Lemma share_guaranteed_witness : exists d, Put sound_disk example_cache (put_run example_cache ∅ example_puts) example_next (replicate CiphertextSize x43) =
  (<[hex_encode (replicate 16 x07) := d]> (put_run example_cache ∅ example_puts), Ok true).
Proof.
  destruct (share_guaranteed true 5 [1; 3] example_cache example_puts example_next (replicate CiphertextSize x43)) as (d & Hd & _).
  - exact example_cache_opens.
  - repeat constructor; lia.
  - exact example_puts_typed.
  - repeat constructor.
  - split; [reflexivity|split; [split; [simpl; lia|reflexivity]|split; [split; [simpl; lia|reflexivity]|reflexivity]]].
  - reflexivity.
  - simpl. change MaximumBatch with 256. lia.
  - right. left.
  - vm_compute. reflexivity.
  - vm_compute. reflexivity.
  - exists d. exact Hd.
Defined.

Lemma batch_roundtrip_witness : Load sound_disk (put_run example_cache ∅ example_puts) example_stream = Ok (Some example_cells).
Proof.
  apply (batch_roundtrip example_cache example_cells example_stream example_puts example_stream_ok).
  - repeat constructor.
  - exact example_puts_honest.
  - intros o Ho. assert (o = 0 \/ o = 1) as [->| ->] by (change (len example_cells) with 2 in Ho; lia).
    + exists [example_put 1], (example_put 0), [example_put 1], true. split; [reflexivity|]. split; [reflexivity|]. split; [reflexivity|].
      split; [reflexivity|]. vm_compute. reflexivity.
    + exists [], (example_put 1), [example_put 0; example_put 1], true. split; [reflexivity|]. split; [reflexivity|]. split; [reflexivity|].
      split; [reflexivity|]. vm_compute. reflexivity.
Defined.
End example.
