(* ===== verification/FairQueue.v ===== *)
(** Relay work with a share per source ([live/node/fairqueue.go]).  Every
    method holds the queue's mutex for its whole body, so a run is a sequence
    of calls.  Cells are the values of an arbitrary type. *)

From stdpp Require Import base list list_numbers gmap.
From Stdlib Require Import ZArith Lia.
From S2P Require Import Prelude.

(** ** Definitions *)

Section operations.
Context {cell : Type}.

Record FairQueue := mkQueue {
  capacity : Z;
  perSource : Z;
  order : list Z;
  lines : gmap Z (list cell);
  turn : Z;
  dropped : gmap Z Z;
}.

Inductive queue_error :=
| ErrCapacity
| ErrNoSources
| ErrShare                   (* capacity is smaller than the operator set *)
| ErrNoWork.

(** The construction loop: the sources without repetitions, in order. *)
Fixpoint distinct (seen sources : list Z) : list Z :=
  match sources with
  | [] => []
  | s :: sources => if bool_decide (s ∈ seen) then distinct seen sources
                    else s :: distinct (s :: seen) sources
  end.

Definition NewFairQueue (capacity : Z) (sources : list Z) : result queue_error FairQueue :=
  if capacity <? 1 then Err ErrCapacity
  else if len sources =? 0 then Err ErrNoSources
  else
    let perSource := capacity / len sources in
    if perSource <? 1 then Err ErrShare
    else
      let order := distinct [] sources in
      Ok (mkQueue capacity perSource order (list_to_map (map (fun s => (s, [])) order)) 0 ∅).

Definition Enqueue (queue : FairQueue) (source : Z) (c : cell) : FairQueue * bool :=
  match lines queue !! source with
  | None => (queue, false)
  | Some line =>
      if perSource queue <=? len line then
        (mkQueue (capacity queue) (perSource queue) (order queue) (lines queue) (turn queue)
           (<[source := u64 (default 0 (dropped queue !! source) + 1)]> (dropped queue)), false)
      else
        (mkQueue (capacity queue) (perSource queue) (order queue)
           (<[source := line ++ [c]]> (lines queue)) (turn queue) (dropped queue), true)
  end.

(** The scan of [NextCell]: the first of the given sources with a cell. *)
Fixpoint first_waiting (ls : gmap Z (list cell)) (sources : list Z) : option (Z * cell * list cell) :=
  match sources with
  | [] => None
  | s :: sources =>
      match ls !! s with
      | Some (c :: rest) => Some (s, c, rest)
      | _ => first_waiting ls sources
      end
  end.

(** [order] from position [start], wrapping around. *)
Definition rotation (order : list Z) (start : nat) : list Z := drop start order ++ take start order.

Definition NextCell (queue : FairQueue) : FairQueue * result queue_error cell :=
  let n := len (order queue) in
  if n =? 0 then (queue, Err ErrNoWork)
  else
    let start := turn queue mod n in
    let turn' := (turn queue + 1) mod n in
    match first_waiting (lines queue) (rotation (order queue) (Z.to_nat start)) with
    | None => (mkQueue (capacity queue) (perSource queue) (order queue) (lines queue) turn'
                 (dropped queue), Err ErrNoWork)
    | Some (source, c, rest) =>
        (mkQueue (capacity queue) (perSource queue) (order queue) (<[source := rest]> (lines queue))
           turn' (dropped queue), Ok c)
    end.

Definition QueueLen (queue : FairQueue) : Z :=
  map_fold (fun _ line total => total + len line) 0 (lines queue).

Definition PerSource (queue : FairQueue) : Z := perSource queue.
Definition Dropped (queue : FairQueue) : gmap Z Z := dropped queue.
End operations.
Arguments FairQueue : clear implicits.

(** ** Invariant *)

Section proofs.
Context {cell : Type}.
Implicit Types q : FairQueue cell.

Definition queue_inv q : Prop :=
  NoDup (order q) /\ 0 < len (order q) /\ 1 <= perSource q /\
  perSource q * len (order q) <= capacity q /\ 0 <= turn q < len (order q) /\
  (forall s, s ∈ order q <-> is_Some (lines q !! s)) /\
  forall s line, lines q !! s = Some line -> len line <= perSource q.

Lemma distinct_spec seen sources : NoDup (distinct seen sources) /\
  (forall s, s ∈ distinct seen sources <-> s ∈ sources /\ s ∉ seen) /\
  (length (distinct seen sources) <= length sources)%nat.
Proof.
  revert seen. induction sources as [|s sources IH]; intros seen; simpl.
  { split_and!; [constructor| |lia]. intros s. rewrite elem_of_nil. tauto. }
  case_bool_decide as Hs.
  - destruct (IH seen) as (Hnd & Hel & Hl). split_and!; [done| |lia].
    intros x. rewrite Hel, elem_of_cons. split; [tauto|]. intros [[->|Hx] Hn]; [done|tauto].
  - destruct (IH (s :: seen)) as (Hnd & Hel & Hl). split_and!; [|..|simpl; lia].
    + constructor; [|done]. rewrite Hel, elem_of_cons. tauto.
    + intros x. rewrite !elem_of_cons, Hel, elem_of_cons. split.
      * intros [->|[Hx Hn]]; [tauto|]. tauto.
      * intros [[->|Hx] Hn]; [by left|]. destruct (decide (x = s)); [by left|right]. tauto.
Qed.

Lemma NewFairQueue_inv cap sources q : NewFairQueue cap sources = Ok q ->
  queue_inv q /\ capacity q = cap /\ (forall s, s ∈ order q <-> s ∈ sources) /\
  forall s, s ∈ sources -> lines q !! s = Some [].
Proof.
  unfold NewFairQueue. intros E.
  destruct (cap <? 1) eqn:E1; [done|]. destruct (_ =? 0) eqn:E2; [done|].
  destruct (_ <? 1) eqn:E3 in E; [done|]. reflect_bools. apply (inj Ok) in E. subst q.
  destruct (distinct_spec [] sources) as (Hnd & Hel & Hl).
  assert (forall s, s ∈ distinct [] sources <-> s ∈ sources) as Hel'.
  { intros s. rewrite Hel, elem_of_nil. tauto. }
  assert (forall s, s ∈ sources ->
    (list_to_map (map (fun s => (s, [])) (distinct [] sources)) : gmap Z (list cell)) !! s = Some []) as Hlk.
  { intros s Hs. apply elem_of_list_to_map_1.
    - rewrite <- list_fmap_compose. by rewrite list_fmap_id.
    - apply list_elem_of_fmap. exists s. split; [done|]. by apply Hel'. }
  assert (0 < len (distinct [] sources)) as Hpos.
  { destruct sources as [|s sources]; [simpl in *; lia|].
    assert (s ∈ distinct [] (s :: sources)) as Hin by (apply Hel'; by left).
    destruct (distinct [] (s :: sources)); [by apply elem_of_nil in Hin|simpl; lia]. }
  unfold queue_inv. simpl. split_and!; try done; try lia.
  - assert (cap / len sources * len sources <= cap).
    { pose proof (Z.mul_div_le cap (len sources) ltac:(lia)). lia. }
    nia.
  - intros s. split.
    + intros Hs%Hel'. rewrite Hlk by done. by eexists.
    + intros [line Hline]. apply elem_of_list_to_map_2 in Hline.
      apply list_elem_of_fmap in Hline as (s' & [= -> _] & Hs'). done.
  - intros s line Hline. apply elem_of_list_to_map_2 in Hline.
    apply list_elem_of_fmap in Hline as (s' & [= _ ->] & _). simpl. lia.
Qed.

Lemma Enqueue_inv q s c : queue_inv q -> queue_inv (Enqueue q s c).1.
Proof.
  intros (Hnd & Hpos & Hps & Hcap & Ht & Hdom & Hlen). unfold Enqueue.
  destruct (lines q !! s) as [line|] eqn:El; [|done].
  destruct (_ <=? _) eqn:Ef; reflect_bools; unfold queue_inv; simpl; split_and!; try done; try lia.
  - intros x. rewrite Hdom. destruct (decide (s = x)) as [<-|Hne].
    + rewrite lookup_insert_eq, El. split; by eexists.
    + by rewrite lookup_insert_ne.
  - intros x line' Hx. destruct (decide (s = x)) as [<-|Hne].
    + rewrite lookup_insert_eq in Hx. injection Hx as <-. rewrite length_app. simpl. lia.
    + rewrite lookup_insert_ne in Hx by done. eauto.
Qed.

Lemma first_waiting_some (ls : gmap Z (list cell)) sources s c rest :
  first_waiting ls sources = Some (s, c, rest) ->
  s ∈ sources /\ ls !! s = Some (c :: rest) /\
  exists before after, sources = before ++ s :: after /\
    forall x, x ∈ before -> ls !! x = None \/ ls !! x = Some [].
Proof.
  induction sources as [|x sources IH]; simpl; [done|].
  destruct (ls !! x) as [[|c' line]|] eqn:Ex.
  3, 1: intros (Hs & Hl & before & after & -> & Hb)%IH; (split_and!; [by right|done|]);
    exists (x :: before), after; (split; [done|]); intros y [->|Hy]%elem_of_cons; auto.
  intros [= <- <- <-]. split_and!; [by left|done|]. exists [], sources. split; [done|].
  by intros y ?%elem_of_nil.
Qed.

Lemma first_waiting_none (ls : gmap Z (list cell)) sources : first_waiting ls sources = None ->
  forall s, s ∈ sources -> ls !! s = None \/ ls !! s = Some [].
Proof.
  induction sources as [|x sources IH]; simpl; [by intros _ s ?%elem_of_nil|].
  destruct (ls !! x) as [[|c line]|] eqn:Ex; [| |]; try done;
    intros Hn s [->|Hs]%elem_of_cons; auto.
Qed.

Lemma elem_of_rotation o n s : s ∈ rotation o n <-> s ∈ o.
Proof.
  assert (s ∈ o <-> s ∈ take n o \/ s ∈ drop n o) as -> by (by rewrite <- elem_of_app, take_drop).
  unfold rotation. rewrite elem_of_app. tauto.
Qed.

Lemma NextCell_inv q : queue_inv q -> queue_inv (NextCell q).1.
Proof.
  intros (Hnd & Hpos & Hps & Hcap & Ht & Hdom & Hlen). unfold NextCell.
  destruct (_ =? 0); [done|].
  assert (0 <= (turn q + 1) mod len (order q) < len (order q)) by (apply Z.mod_pos_bound; lia).
  destruct (first_waiting _ _) as [[[s c] rest]|] eqn:Ef; unfold queue_inv; simpl; split_and!; try done; try lia.
  - apply first_waiting_some in Ef as (_ & Hl & _). intros x. rewrite Hdom.
    destruct (decide (s = x)) as [<-|Hne].
    + rewrite lookup_insert_eq, Hl. split; by eexists.
    + by rewrite lookup_insert_ne.
  - apply first_waiting_some in Ef as (_ & Hl & _). intros x line Hx. destruct (decide (s = x)) as [<-|Hne].
    + rewrite lookup_insert_eq in Hx. injection Hx as <-. apply Hlen in Hl. simpl in Hl. lia.
    + rewrite lookup_insert_ne in Hx by done. eauto.
Qed.

(** ** Runs *)

Inductive op := OpEnqueue (source : Z) (c : cell) | OpNext.

(** The source and cell the next call of [NextCell] takes. *)
Definition serves q : option (Z * cell) :=
  match first_waiting (lines q) (rotation (order q) (Z.to_nat (turn q mod len (order q)))) with
  | Some (s, c, _) => Some (s, c)
  | None => None
  end.

(** The queue after a run, the cells served and the cells admitted, each with
    its source, oldest first. *)
Fixpoint run q (ops : list op) : FairQueue cell * list (Z * cell) * list (Z * cell) :=
  match ops with
  | [] => (q, [], [])
  | OpEnqueue s c :: ops =>
      let (q', ok) := Enqueue q s c in
      let '(q'', served, admitted) := run q' ops in
      (q'', served, if ok then (s, c) :: admitted else admitted)
  | OpNext :: ops =>
      let '(q'', served, admitted) := run (NextCell q).1 ops in
      (q'', match serves q with Some sc => sc :: served | None => served end, admitted)
  end.

Lemma NextCell_serves q : queue_inv q ->
  (NextCell q).2 = match serves q with Some (_, c) => Ok c | None => Err ErrNoWork end.
Proof.
  intros (_ & Hpos & _). unfold NextCell, serves. rewrite (proj2 (Z.eqb_neq _ _)) by lia.
  by destruct (first_waiting _ _) as [[[s c] rest]|].
Qed.

(** The effect of one call on the lines. *)
Lemma NextCell_lines q : queue_inv q ->
  match serves q with
  | Some (s, c) => exists rest, lines q !! s = Some (c :: rest) /\
      lines (NextCell q).1 = <[s := rest]> (lines q)
  | None => lines (NextCell q).1 = lines q /\
      forall s line, lines q !! s = Some line -> line = []
  end /\ order (NextCell q).1 = order q /\ turn (NextCell q).1 = (turn q + 1) mod len (order q).
Proof.
  intros (_ & Hpos & _ & _ & _ & Hdom & _). unfold NextCell, serves.
  rewrite (proj2 (Z.eqb_neq _ _)) by lia.
  destruct (first_waiting _ _) as [[[s c] rest]|] eqn:Ef; simpl; (split; [|done]).
  - apply first_waiting_some in Ef as (_ & Hl & _). by exists rest.
  - split; [done|]. intros s line Hs.
    destruct (first_waiting_none _ _ Ef s) as [Hn|Hn]; [|congruence..].
    apply elem_of_rotation, Hdom. by exists line.
Qed.

Lemma run_inv q ops : queue_inv q -> queue_inv (run q ops).1.1.
Proof.
  revert q. induction ops as [|[s c|] ops IH]; intros q Hq; simpl; [done|..].
  - pose proof (Enqueue_inv q s c Hq) as Hq'. destruct (Enqueue q s c) as [q' ok]. simpl in Hq'.
    specialize (IH q' Hq'). by destruct (run q' ops) as [[q'' served] admitted].
  - specialize (IH _ (NextCell_inv q Hq)). by destruct (run (NextCell q).1 ops) as [[q'' served] admitted].
Qed.

(** The cells of one source in a log. *)
Definition of_source (s : Z) (log : list (Z * cell)) : list cell :=
  map snd (filter (fun p => p.1 = s) log).

Lemma of_source_cons s p log :
  of_source s (p :: log) = if decide (p.1 = s) then p.2 :: of_source s log else of_source s log.
Proof. unfold of_source. rewrite filter_cons. by destruct (decide (p.1 = s)). Qed.

(** What is served plus what waits is what waited plus what was admitted. *)
Lemma run_conserves ops q s line : queue_inv q -> lines q !! s = Some line ->
  exists line', lines (run q ops).1.1 !! s = Some line' /\
    of_source s (run q ops).1.2 ++ line' = line ++ of_source s (run q ops).2.
Proof.
  revert q line. induction ops as [|[s' c|] ops IH]; intros q line Hq Hl; simpl.
  { exists line. split; [done|]. unfold of_source. simpl. by rewrite app_nil_r. }
  - pose proof (Enqueue_inv q s' c Hq) as Hq'. unfold Enqueue in *.
    destruct (lines q !! s') as [l'|] eqn:El; simpl in *.
    2: { destruct (IH q line Hq Hl) as (line' & H1 & H2).
         destruct (run q ops) as [[q'' sv] ad]. simpl in *. by exists line'. }
    destruct (_ <=? _); simpl in *.
    + destruct (IH _ line Hq' Hl) as (line' & H1 & H2).
      destruct (run _ ops) as [[q'' sv] ad]. simpl in *. by exists line'.
    + destruct (decide (s' = s)) as [->|Hne].
      * rewrite Hl in El. injection El as <-.
        destruct (IH _ (line ++ [c]) Hq') as (line' & H1 & H2); [simpl; by rewrite lookup_insert_eq|].
        destruct (run _ ops) as [[q'' sv] ad]. simpl in *. exists line'. split; [done|].
        rewrite of_source_cons. simpl. rewrite decide_True by done. rewrite H2. by rewrite <- app_assoc.
      * destruct (IH _ line Hq') as (line' & H1 & H2); [simpl; by rewrite lookup_insert_ne|].
        destruct (run _ ops) as [[q'' sv] ad]. simpl in *. exists line'. split; [done|].
        rewrite of_source_cons. simpl. by rewrite decide_False by done.
  - destruct (NextCell_lines q Hq) as [Hs _]. pose proof (NextCell_inv q Hq) as Hq'.
    destruct (serves q) as [[s' c]|].
    + destruct Hs as (rest & Hl' & Hlines). destruct (decide (s' = s)) as [->|Hne].
      * rewrite Hl in Hl'. injection Hl' as ->.
        destruct (IH _ rest Hq') as (line' & H1 & H2); [by rewrite Hlines, lookup_insert_eq|].
        destruct (run _ ops) as [[q'' sv] ad]. simpl in *. exists line'. split; [done|].
        rewrite of_source_cons. simpl. rewrite decide_True by done. simpl. by rewrite H2.
      * destruct (IH _ line Hq') as (line' & H1 & H2); [by rewrite Hlines, lookup_insert_ne|].
        destruct (run _ ops) as [[q'' sv] ad]. simpl in *. exists line'. split; [done|].
        rewrite of_source_cons. simpl. by rewrite decide_False by done.
    + destruct Hs as [Hlines _]. destruct (IH _ line Hq') as (line' & H1 & H2); [by rewrite Hlines|].
      destruct (run _ ops) as [[q'' sv] ad]. simpl in *. by exists line'.
Qed.

(** The queue neither loses, duplicates nor reorders a source's cells:
    over any run of arrivals and services, the cells served from a source
    followed by those still waiting are exactly the cells that were admitted
    from it, in the order of admission. *)
Theorem fifo_per_source (cap : Z) (sources : list Z) (q : FairQueue cell) (ops : list op) (s : Z)
  (Hq : NewFairQueue cap sources = Ok q) (Hs : s ∈ sources) :
  exists waiting, lines (run q ops).1.1 !! s = Some waiting /\
    of_source s (run q ops).1.2 ++ waiting = of_source s (run q ops).2.
Proof.
  apply NewFairQueue_inv in Hq as (Hinv & _ & _ & Hl).
  exact (run_conserves ops q s [] Hinv (Hl s Hs)).
Qed.

(** ** Bounds *)

Lemma QueueLen_bound q : queue_inv q -> 0 <= QueueLen q <= perSource q * len (order q).
Proof.
  intros (Hnd & _ & Hps & _ & _ & Hdom & Hlen).
  assert (size (lines q) = length (order q)) as Hsz.
  { rewrite <- size_dom. replace (dom (lines q)) with (list_to_set (order q) : gset Z).
    - by apply size_list_to_set.
    - apply set_eq. intros s. by rewrite elem_of_list_to_set, Hdom, elem_of_dom. }
  rewrite <- Hsz. unfold QueueLen. revert Hlen. generalize (lines q) as m. clear - Hps.
  intros m. induction m as [|i x m Hi Hfirst IH] using map_first_key_ind; intros Hlen.
  { rewrite map_fold_empty, map_size_empty. lia. }
  rewrite map_fold_insert_first_key by done. rewrite map_size_insert_None by done.
  assert (len x <= perSource q) by (apply (Hlen i); by rewrite lookup_insert_eq).
  destruct IH as [H1 H2].
  { intros s line Hs. apply (Hlen s). destruct (decide (i = s)) as [<-|]; [congruence|].
    by rewrite lookup_insert_ne. }
  lia.
Qed.

(** Memory and isolation: after any run, no source holds more than its share
    and all together never hold more than the configured capacity; an arrival
    from one source leaves every other line as it is; and it is refused
    only when its own line holds a full share or its source is not in the
    signed set. *)
Theorem share_enforced (cap : Z) (sources : list Z) (q : FairQueue cell) (ops : list op)
  (Hq : NewFairQueue cap sources = Ok q) :
  let q' := (run q ops).1.1 in
  QueueLen q' <= cap /\
  (forall s line, lines q' !! s = Some line -> len line <= perSource q') /\
  (forall s c other, other <> s -> lines (Enqueue q' s c).1 !! other = lines q' !! other) /\
  (forall s c, (Enqueue q' s c).2 = false ->
     s ∉ sources \/ exists line, lines q' !! s = Some line /\ len line = perSource q').
Proof.
  apply NewFairQueue_inv in Hq as (Hinv & Hcap & Hord & _). intros q'.
  assert (queue_inv q' /\ capacity q' = cap /\ order q' = order q) as (Hinv' & Hcap' & Hord').
  { subst cap. unfold q'. split; [by apply run_inv|]. clear - Hinv. revert q Hinv.
    induction ops as [|[s c|] ops IH]; intros q Hq; simpl; [done|..].
    - pose proof (Enqueue_inv q s c Hq) as Hq'.
      assert (capacity (Enqueue q s c).1 = capacity q /\ order (Enqueue q s c).1 = order q) as [E1 E2].
      { unfold Enqueue. destruct (lines q !! s); [|done]. by destruct (_ <=? _). }
      destruct (Enqueue q s c) as [q1 ok]. simpl in *. specialize (IH q1 Hq').
      destruct (run q1 ops) as [[q2 sv] ad]. simpl in *. destruct IH. split; congruence.
    - assert (capacity (NextCell q).1 = capacity q /\ order (NextCell q).1 = order q) as [E1 E2].
      { unfold NextCell. destruct (_ =? 0); [done|]. by destruct (first_waiting _ _) as [[[? ?] ?]|]. }
      specialize (IH _ (NextCell_inv q Hq)). destruct (run (NextCell q).1 ops) as [[q2 sv] ad].
      simpl in *. destruct IH. split; congruence. }
  pose proof (QueueLen_bound q' Hinv') as Hb.
  destruct Hinv' as (_ & _ & _ & Hc & _ & Hdom & Hlen).
  split_and!; [lia|done|..].
  - intros s c other Hne. unfold Enqueue. destruct (lines q' !! s); [|done].
    destruct (_ <=? _); simpl; [done|]. by rewrite lookup_insert_ne.
  - intros s c. unfold Enqueue. destruct (lines q' !! s) as [line|] eqn:El.
    + destruct (_ <=? _) eqn:Ef; [|done]. reflect_bools. intros _. right. exists line.
      apply Hlen in El as Hle. split; [done|lia].
    + intros _. left. intros Hs%Hord. rewrite <- Hord' in Hs. apply Hdom in Hs as [? Hx]. congruence.
Qed.

(** ** Service *)

Fixpoint services (ops : list op) : Z :=
  match ops with
  | [] => 0
  | OpNext :: ops => 1 + services ops
  | OpEnqueue _ _ :: ops => services ops
  end.

(** When the cursor is at a source with work, that source is served. *)
Lemma serves_at_cursor q p s c rest : queue_inv q -> order q !! p = Some s ->
  lines q !! s = Some (c :: rest) -> turn q = Z.of_nat p -> serves q = Some (s, c).
Proof.
  intros (_ & _ & _ & _ & Ht & _) Hp Hl Hturn. unfold serves.
  rewrite Z.mod_small by done. rewrite Hturn, Nat2Z.id. unfold rotation.
  rewrite (drop_S _ _ _ Hp). simpl. by rewrite Hl.
Qed.

(** Steps until the cursor, now at [turn], reaches position [p]. *)
Definition distance q (p : nat) : Z := (Z.of_nat p - turn q) mod len (order q).

Lemma distance_step q p : queue_inv q -> turn q <> Z.of_nat p -> (p < length (order q))%nat ->
  distance (NextCell q).1 p = distance q p - 1.
Proof.
  intros Hq Hne Hp. destruct (NextCell_lines q Hq) as (_ & Ho & Ht).
  destruct Hq as (_ & Hpos & _ & _ & Hturn & _). unfold distance. rewrite Ho, Ht.
  set (n := len (order q)) in *.
  assert (turn q + 1 < n \/ turn q + 1 = n) as [Hlt|Heq] by lia.
  - rewrite (Z.mod_small (turn q + 1)) by lia.
    destruct (decide (turn q < Z.of_nat p)).
    + rewrite !Z.mod_small by lia. lia.
    + rewrite <- (Z.mod_add (Z.of_nat p - (turn q + 1)) 1), <- (Z.mod_add (Z.of_nat p - turn q) 1) by lia.
      rewrite !Z.mod_small by lia. lia.
  - rewrite Heq, Z.mod_same by lia.
    rewrite <- (Z.mod_add (Z.of_nat p - turn q) 1) by lia. rewrite !Z.mod_small by lia. lia.
Qed.

Lemma run_serves ops q p s c rest : queue_inv q -> order q !! p = Some s ->
  lines q !! s = Some (c :: rest) -> distance q p < services ops -> (s, c) ∈ (run q ops).1.2.
Proof.
  revert q rest. induction ops as [|[s' c'|] ops IH]; intros q rest Hq Hp Hl Hd; simpl in *.
  - pose proof (Z.mod_pos_bound (Z.of_nat p - turn q) (len (order q))) as Hb.
    destruct Hq as (_ & Hpos & _). unfold distance in Hd. lia.
  - pose proof (Enqueue_inv q s' c' Hq) as Hq'.
    assert (order (Enqueue q s' c').1 = order q /\ turn (Enqueue q s' c').1 = turn q /\
            exists rest', lines (Enqueue q s' c').1 !! s = Some (c :: rest')) as (Eo & Et & rest' & El).
    { unfold Enqueue. destruct (lines q !! s') as [l'|] eqn:Es; [|by eauto].
      destruct (_ <=? _); simpl; [by eauto|]. split_and!; [done..|].
      destruct (decide (s' = s)) as [->|Hne]; [rewrite lookup_insert_eq|rewrite lookup_insert_ne by done; by eauto].
      rewrite Hl in Es. injection Es as <-. by eexists. }
    destruct (Enqueue q s' c') as [q1 ok]. simpl in *.
    assert ((s, c) ∈ (run q1 ops).1.2) as Hin.
    { apply (IH q1 rest'); [done| |done|]; unfold distance in *; rewrite ?Eo, ?Et; done. }
    by destruct (run q1 ops) as [[q2 sv] ad].
  - destruct (decide (turn q = Z.of_nat p)) as [Ht|Ht].
    { rewrite (serves_at_cursor q p s c rest) by done. destruct (run _ ops) as [[q2 sv] ad]. by left. }
    destruct (NextCell_lines q Hq) as (Hs & Ho & _). pose proof (NextCell_inv q Hq) as Hq'.
    pose proof (distance_step q p Hq Ht (lookup_lt_Some _ _ _ Hp)) as Hdist.
    destruct (serves q) as [[s' c']|].
    + destruct (decide (s' = s)) as [->|Hne].
      * destruct Hs as (r & Hl' & _). rewrite Hl in Hl'. injection Hl' as <- <-.
        destruct (run _ ops) as [[q2 sv] ad]. by left.
      * destruct Hs as (r & _ & Hlines).
        assert ((s, c) ∈ (run (NextCell q).1 ops).1.2) as Hin.
        { apply (IH _ rest); [done|by rewrite Ho|by rewrite Hlines, lookup_insert_ne|lia]. }
        destruct (run _ ops) as [[q2 sv] ad]. by right.
    + destruct Hs as [Hlines _].
      assert ((s, c) ∈ (run (NextCell q).1 ops).1.2) as Hin.
      { apply (IH _ rest); [done|by rewrite Ho|by rewrite Hlines|lia]. }
      by destruct (run _ ops) as [[q2 sv] ad].
Qed.

(** No source can be starved: from any reachable state, the cell at the head
    of a source's line is served within as many calls of [NextCell] as there
    are sources, whatever the other sources send meanwhile; and a call comes
    back empty only when every line is empty. *)
Theorem no_starvation (cap : Z) (sources : list Z) (q : FairQueue cell) (before after : list op)
  (s : Z) (c : cell) (rest : list cell)
  (Hq : NewFairQueue cap sources = Ok q)
  (Hl : lines (run q before).1.1 !! s = Some (c :: rest))
  (Hn : len (order (run q before).1.1) <= services after) :
  (s, c) ∈ (run (run q before).1.1 after).1.2 /\ (NextCell (run q before).1.1).2 <> Err ErrNoWork.
Proof.
  apply NewFairQueue_inv in Hq as (Hinv & _). pose proof (run_inv q before Hinv) as Hq'.
  set (q' := (run q before).1.1) in *. split.
  - pose proof Hq' as (_ & Hpos & _ & _ & _ & Hdom & _).
    assert (s ∈ order q') as Hs by (apply Hdom; by eexists).
    apply list_elem_of_lookup in Hs as [p Hp]. apply (run_serves after q' p s c rest); try done.
    unfold distance. pose proof (Z.mod_pos_bound (Z.of_nat p - turn q') (len (order q'))). lia.
  - rewrite NextCell_serves by done. destruct (NextCell_lines q' Hq') as (Hs & _).
    destruct (serves q') as [[s' c']|]; [done|]. destruct Hs as [_ Hempty].
    by specialize (Hempty s _ Hl).
Qed.
End proofs.

(** ** Witnesses *)

Definition example_ops : list (@op nat) :=
  [OpEnqueue 1 10%nat; OpEnqueue 1 11%nat; OpEnqueue 1 12%nat; OpEnqueue 2 20%nat].

Definition example_queue : FairQueue nat :=
  mkQueue 5 2 [1; 2] (list_to_map (map (fun s => (s, [])) [1; 2])) 0 ∅.

Lemma fifo_per_source_witness : NewFairQueue 5 [1; 2] = Ok example_queue /\
  exists waiting, lines (run example_queue (example_ops ++ [OpNext])).1.1 !! 1 = Some waiting /\
    of_source 1 (run example_queue (example_ops ++ [OpNext])).1.2 ++ waiting = [10%nat; 11%nat].
Proof.
  split; [reflexivity|].
  apply (fifo_per_source 5 [1; 2] example_queue (example_ops ++ [OpNext]) 1 eq_refl).
  apply elem_of_cons. left. reflexivity.
Defined.

Lemma share_enforced_witness : QueueLen (run example_queue example_ops).1.1 <= 5.
Proof. apply (share_enforced 5 [1; 2] example_queue example_ops). reflexivity. Defined.

Lemma no_starvation_witness :
  (2, 20%nat) ∈ (run (run example_queue example_ops).1.1 [OpNext; OpEnqueue 1 13%nat; OpNext]).1.2.
Proof.
  apply (no_starvation 5 [1; 2] example_queue example_ops [OpNext; OpEnqueue 1 13%nat; OpNext] 2 20%nat []).
  - reflexivity.
  - reflexivity.
  - apply Z.leb_le. reflexivity.
Defined.
