(* ===== verification/Node.v ===== *)
(** The relay node ([live/node/node.go]): the authenticated sink that puts one
    cell per tick on the wire, the handling of a received datagram, the seed
    batch and the periodic sweep of the cache.

    Sockets and timers are outside: a datagram arrives as its bytes and source
    address, a write is the outcome of the system call.  The three goroutines
    of [Run] share the cache, which locks, and the queue, which locks; a run of
    the receiving side is a sequence of their calls. *)

From stdpp Require Import base list list_numbers gmap strings.
From Stdlib Require Import ZArith Lia Strings.Byte Sorting.Sorted.
From S2P Require Import Prelude Bytes Hash Codec Replay Sequence Frame RawCache FairQueue.

(** ** The sink *)

(** The causes of a failed emission that the code tells apart. *)
Inductive send_cause :=
| DeadlineExceeded | ENOBUFS | ENOMEM | EAGAIN | EINTR | ENETUNREACH | EHOSTUNREACH | ENETDOWN
| SequenceWriteFailed
| OtherCause.                 (* a closed socket, EPERM, EINVAL, a short write, ... *)

Definition sendFailureIsTransient (cause : send_cause) : bool :=
  match cause with OtherCause => false | _ => true end.

Inductive send_error :=
| ErrSourceCell (e : hop_error)
| ErrSequenceUnusable (e : sequence_error)
| ErrSealing (e : hop_error)
| ErrSendFatal (cause : send_cause)
| ErrNotClearing (cause : send_cause)
| ErrCellDropped (cause : send_cause)
| ErrNoPeer.                  (* an index out of range, which panics *)

Definition maximumConsecutiveDrops : Z := 4096.

Record outgoingPeer := mkOutgoing {
  peer_index : Z;
  peer_key : list byte;
}.

(** The counters of the sink are 64-bit. *)
Record Sink := mkSink {
  sink_self : Z;
  sink_peers : list outgoingPeer;
  sink_plan : list nat;
  sink_next : Z;
  sink_sequence : FileSequence;
  sink_context : Context;
  consecutive : Z;
  stat_sent : Z;
  stat_relayed : Z;
  stat_cover : Z;
  stat_dropped : Z;
}.

(** What the system does during one [Send]: reading and writing the sequence
    state, setting the deadline, and writing the datagram. *)
Inductive udp_write := Wrote (count : nat) | WriteFails (cause : send_cause).
Record send_io := mkSendIO {
  sequence_io : io;
  deadline_fails : option send_cause;
  udp : udp_write;
}.

(** A datagram on the wire: the tick's peer, the sequence number and the bytes. *)
Record wire_cell := mkWire {
  wire_peer : outgoingPeer;
  wire_sequence : Z;
  wire_bytes : list byte;
}.

Section sink.
Context `{HashFunction}.

Definition with_drops (s : Sink) (c dropped : Z) : Sink :=
  mkSink (sink_self s) (sink_peers s) (sink_plan s) (sink_next s) (sink_sequence s) (sink_context s) c
    (stat_sent s) (stat_relayed s) (stat_cover s) dropped.

Definition with_sequence (s : Sink) (n : Z) (q : FileSequence) : Sink :=
  mkSink (sink_self s) (sink_peers s) (sink_plan s) n q (sink_context s) (consecutive s)
    (stat_sent s) (stat_relayed s) (stat_cover s) (stat_dropped s).

Definition sink_drop (s : Sink) (cause : send_cause) : Sink * send_error :=
  if maximumConsecutiveDrops <? consecutive s + 1 then (with_drops s (consecutive s + 1) (stat_dropped s), ErrNotClearing cause)
  else (with_drops s (consecutive s + 1) (u64 (stat_dropped s + 1)), ErrCellDropped cause).

Definition classify (s : Sink) (cause : send_cause) : Sink * send_error :=
  if negb (sendFailureIsTransient cause) then (with_drops s 0 (stat_dropped s), ErrSendFatal cause) else sink_drop s cause.

Definition count_sent (s : Sink) (work : bool) : Sink :=
  mkSink (sink_self s) (sink_peers s) (sink_plan s) (sink_next s) (sink_sequence s) (sink_context s) 0
    (u64 (stat_sent s + 1)) (if work then u64 (stat_relayed s + 1) else stat_relayed s)
    (if work then stat_cover s else u64 (stat_cover s + 1)) (stat_dropped s).

(** The disk, the sink, what reached the socket and the error. *)
Definition Send (env : send_io) (d : disk) (s : Sink) (cell : list byte)
  : disk * Sink * option wire_cell * option send_error :=
  match LocalMetadata cell with
  | Err e => (d, s, None, Some (ErrSourceCell e))
  | Ok metadata =>
      match sink_plan s !! Z.to_nat (sink_next s mod len (sink_plan s)) ≫= fun slot => sink_peers s !! slot with
      | None => (d, s, None, Some ErrNoPeer)
      | Some peer =>
          let tick := u64 (sink_next s + 1) in
          match hop_Next (sequence_io env) d (sink_sequence s) with
          | (d, q, Err e) =>
              let s := with_sequence s tick q in
              match e with
              | ErrSequenceWriteFailed => let (s, e) := sink_drop s SequenceWriteFailed in (d, s, None, Some e)
              | _ => (d, s, None, Some (ErrSequenceUnusable e))
              end
          | (d, q, Ok sequence) =>
              let s := with_sequence s tick q in
              let context := mkContext (TopologyDigest (sink_context s)) (NetworkID (sink_context s)) (Epoch (sink_context s)) (peer_index peer) in
              match Seal (Some cell) metadata (sink_self s) sequence (peer_key peer) context with
              | (_, Err e) => (d, s, None, Some (ErrSealing e))
              | (None, Ok _) => (d, s, None, Some (ErrSealing ErrNilCell))
              | (Some sealed, Ok _) =>
                  match deadline_fails env with
                  | Some cause =>
                      let (s, e) := classify (with_sequence s tick (hop_Return q sequence)) cause in (d, s, None, Some e)
                  | None =>
                      match udp env with
                      | WriteFails cause =>
                          let (s, e) := classify (with_sequence s tick (hop_Return q sequence)) cause in (d, s, None, Some e)
                      | Wrote written =>
                          let wire := Some (mkWire peer sequence (take written sealed)) in
                          if negb (Nat.eqb written CellSize) then
                            let (s, e) := classify s OtherCause in (d, s, wire, Some e)
                          else (d, count_sent s (IsWork metadata), wire, None)
                      end
                  end
              end
          end
      end
  end.
End sink.

(** ** The receiving side *)

Record incomingPeer := mkIncoming {
  in_operator : Z;
  in_key : list byte;
}.

(** What [New] takes from the signed topology and the operator's secrets. *)
Record node_config := mkNodeConfig {
  cfg_self : Z;
  cfg_digest : list byte;
  cfg_network : list byte;
  cfg_epoch : Z;
  cfg_incoming : gmap (list byte) incomingPeer;
  cfg_cache : Store;
}.

Record counters := mkCounters {
  received : Z; stored_count : Z; wrongSize : Z; unknownPeer : Z; authRejected : Z; replayRejected : Z;
  duplicate : Z; queueDropped : Z; cacheRejected : Z;
}.

Record Node := mkNode {
  node_cache : cache_root;
  node_queue : FairQueue (list byte);
  node_replay : gmap Z ReplayWindow;
  node_stats : counters;
}.

Inductive counter := CReceived | CStored | CWrongSize | CUnknownPeer | CAuthRejected | CReplayRejected | CDuplicate | CQueueDropped | CCacheRejected.

Definition bump (k : counter) (c : counters) : counters :=
  let plus (j : counter) (v : Z) : Z :=
    match k, j with
    | CReceived, CReceived | CStored, CStored | CWrongSize, CWrongSize | CUnknownPeer, CUnknownPeer | CAuthRejected, CAuthRejected
    | CReplayRejected, CReplayRejected | CDuplicate, CDuplicate | CQueueDropped, CQueueDropped | CCacheRejected, CCacheRejected => u64 (v + 1)
    | _, _ => v
    end in
  mkCounters (plus CReceived (received c)) (plus CStored (stored_count c)) (plus CWrongSize (wrongSize c)) (plus CUnknownPeer (unknownPeer c))
    (plus CAuthRejected (authRejected c)) (plus CReplayRejected (replayRejected c)) (plus CDuplicate (duplicate c))
    (plus CQueueDropped (queueDropped c)) (plus CCacheRejected (cacheRejected c)).

Definition with_stats (n : Node) (c : counters) : Node := mkNode (node_cache n) (node_queue n) (node_replay n) c.
Definition with_cache (n : Node) (fs : cache_root) : Node := mkNode fs (node_queue n) (node_replay n) (node_stats n).
Definition with_queue (n : Node) (q : FairQueue (list byte)) : Node := mkNode (node_cache n) q (node_replay n) (node_stats n).
Definition with_replay (n : Node) (r : gmap Z ReplayWindow) : Node := mkNode (node_cache n) (node_queue n) r (node_stats n).
Definition counting (k : counter) (n : Node) : Node := with_stats n (bump k (node_stats n)).

Section receiving.
Context `{HashFunction}.

Definition receive_context (cfg : node_config) : Context := mkContext (cfg_digest cfg) (cfg_network cfg) (cfg_epoch cfg) (cfg_self cfg).

(** One datagram of [receive]; the second component is the cell handed to the
    relay queue, with its coordinate, if one was. *)
Definition receive_one (cfg : node_config) (env : cache_io) (n : Node) (datagram source : list byte)
  : Node * option (list byte * Z) :=
  let n := counting CReceived n in
  if negb (Nat.eqb (length datagram) CellSize) then (counting CWrongSize n, None)
  else match cfg_incoming cfg !! source with
  | None => (counting CUnknownPeer n, None)
  | Some peer =>
      match Open (Some datagram) (in_operator peer) (in_key peer) (receive_context cfg) with
      | (Some cell, Ok metadata) =>
          match Accept (default new_window (node_replay n !! in_operator peer)) (Sequence metadata) with
          | (_, Err _) => (counting CReplayRejected n, None)
          | (window, Ok _) =>
              let n := with_replay n (<[in_operator peer := window]> (node_replay n)) in
              if negb (IsWork metadata) then (n, None)
              else match Put env (cfg_cache cfg) (node_cache n) metadata (Ciphertext cell) with
              | (fs, Err _) => (counting CCacheRejected (with_cache n fs), None)
              | (fs, Ok false) => (counting CDuplicate (with_cache n fs), None)
              | (fs, Ok true) =>
                  let n := counting CStored (with_cache n fs) in
                  let (q, ok) := Enqueue (node_queue n) (in_operator peer) cell in
                  let n := with_queue n q in
                  ((if ok : bool then n else counting CQueueDropped n), Some (Stream metadata, Ordinal metadata))
              end
          end
      | _ => (counting CAuthRejected n, None)
      end
  end.

Inductive node_error :=
| ErrNodeHop (e : hop_error)
| ErrNodeCache (e : cache_error)
| ErrSeedShare.

(** The loop of [seed] over the payloads from [ordinal] on. *)
Fixpoint seed_cells (cfg : node_config) (env : nat -> cache_io) (n : Node) (stream : list byte) (total ordinal : nat) (payloads : list (list byte))
  : Node * result node_error unit :=
  match payloads with
  | [] => (n, Ok tt)
  | payload :: payloads =>
      match WorkMetadata stream (u16 (Z.of_nat ordinal)) (u16 (Z.of_nat total)) with
      | Err e => (n, Err (ErrNodeHop e))
      | Ok metadata =>
          match Put (env ordinal) (cfg_cache cfg) (node_cache n) metadata payload with
          | (fs, Err e) => (with_cache n fs, Err (ErrNodeCache e))
          | (fs, Ok _) =>
              let n := with_cache n fs in
              match FromCiphertext payload metadata with
              | Err e => (n, Err (ErrNodeHop e))
              | Ok cell =>
                  match Enqueue (node_queue n) (cfg_self cfg) cell with
                  | (q, false) => (with_queue n q, Err ErrSeedShare)
                  | (q, true) => seed_cells cfg env (with_queue n q) stream total (S ordinal) payloads
                  end
              end
          end
      end
  end.

Definition seed (cfg : node_config) (env : nat -> cache_io) (n : Node) (stream : list byte) (payloads : list (list byte)) : Node * result node_error unit :=
  seed_cells cfg env n stream (length payloads) 0 payloads.

(** The inner loop of [enqueueCached]; [false] when the queue refused a cell,
    which ends the sweep. *)
Fixpoint enqueue_cells (cfg : node_config) (n : Node) (stream : list byte) (total ordinal : nat) (payloads : list (list byte))
  : Node * result node_error bool :=
  match payloads with
  | [] => (n, Ok true)
  | payload :: payloads =>
      match WorkMetadata stream (u16 (Z.of_nat ordinal)) (u16 (Z.of_nat total)) with
      | Err e => (n, Err (ErrNodeHop e))
      | Ok metadata =>
          match FromCiphertext payload metadata with
          | Err e => (n, Err (ErrNodeHop e))
          | Ok cell =>
              match Enqueue (node_queue n) (cfg_self cfg) cell with
              | (q, false) => (counting CQueueDropped (with_queue n q), Ok false)
              | (q, true) => enqueue_cells cfg (with_queue n q) stream total (S ordinal) payloads
              end
          end
      end
  end.

Fixpoint enqueue_streams (cfg : node_config) (env : cache_io) (n : Node) (streams : list (list byte)) : Node * result node_error unit :=
  match streams with
  | [] => (n, Ok tt)
  | stream :: streams =>
      match Load env (node_cache n) stream with
      | Err e => (n, Err (ErrNodeCache e))
      | Ok None => enqueue_streams cfg env n streams
      | Ok (Some payloads) =>
          match enqueue_cells cfg n stream (length payloads) 0 payloads with
          | (n, Err e) => (n, Err e)
          | (n, Ok false) => (n, Ok tt)
          | (n, Ok true) => enqueue_streams cfg env n streams
          end
      end
  end.

(** A tick of the cache timer in [maintain], whose error ends the node. *)
Definition enqueueCached (cfg : node_config) (env : cache_io) (n : Node) : Node * result node_error unit :=
  match CompleteStreams env (node_cache n) with
  | Err e => (n, Err (ErrNodeCache e))
  | Ok streams => enqueue_streams cfg env n streams
  end.
End receiving.

(** ** Sequence numbers on the wire *)

Section wire.
Context `{HashFunction}.

(** What one [Send] does to the sequence state: nothing, a failed or successful
    draw, or a draw that is given back. *)
Lemma Send_sequence env d s cell d' s' w e m p : Send env d s cell = (d', s', w, e) ->
  reachable 4 (mkWorld d (Some (sink_sequence s)) m p) ->
  exists m', reachable 4 (mkWorld d' (Some (sink_sequence s')) m' p) /\
    (m' = m \/ exists v, m' = v :: m) /\ forall x, w = Some x -> m' = wire_sequence x :: m.
Proof.
  unfold Send. intros Hs Hr. destruct (LocalMetadata cell) as [metadata|]; [|injection Hs as <- <- <- <-; exists m; split_and!; auto; done].
  destruct (_ ≫= _) as [peer|]; [|injection Hs as <- <- <- <-; exists m; split_and!; auto; done].
  assert (forall t c, sink_sequence (fst (classify t c)) = sink_sequence t) as Hcl
    by (intros t c; unfold classify, sink_drop; destruct (sendFailureIsTransient c); [destruct (_ <? _)|]; done).
  destruct (hop_Next _ _ _) as [[d1 q] [sequence|err]] eqn:En.
  - pose proof (reachable_step _ _ _ Hr (step_next 4 _ _ _ _ _ _ m p En)) as Hr1. cbv zeta in Hs.
    assert (reachable 4 (mkWorld d1 (Some (hop_Return q sequence)) m p)) as Hr2 by (eapply reachable_step; [exact Hr1|apply step_return]).
    destruct (Seal _ _ _ _ _ _) as [[sealed|] [[]|]]; [|injection Hs as <- <- <- <-; exists (sequence :: m); split_and!; eauto; done..].
    destruct (deadline_fails env) as [cause|].
    + destruct (classify _ cause) as [t x] eqn:Ec. injection Hs as <- <- <- <-. exists m. apply (f_equal fst) in Ec. cbn [fst] in Ec.
      rewrite <- Ec, Hcl. split_and!; auto; done.
    + destruct (udp env) as [written|cause].
      * destruct (Nat.eqb written CellSize); cbn [negb] in Hs.
        -- injection Hs as <- <- <- <-. exists (sequence :: m). split_and!; [done|by eauto|]. by intros x [= <-].
        -- destruct (classify _ OtherCause) as [t x] eqn:Ec. injection Hs as <- <- <- <-. exists (sequence :: m).
           apply (f_equal fst) in Ec. cbn [fst] in Ec. rewrite <- Ec, Hcl. split_and!; [done|by eauto|]. by intros x' [= <-].
      * destruct (classify _ cause) as [t x] eqn:Ec. injection Hs as <- <- <- <-. exists m. apply (f_equal fst) in Ec. cbn [fst] in Ec.
        rewrite <- Ec, Hcl. split_and!; auto; done.
  - pose proof (reachable_step _ _ _ Hr (step_next_fails 4 _ _ _ _ _ _ m p En)) as Hr1. exists m. cbv zeta in Hs.
    destruct err; try (injection Hs as <- <- <- <-; split_and!; auto; done).
    unfold sink_drop in Hs. destruct (_ <? _); injection Hs as <- <- <- <-; split_and!; auto; done.
Qed.

(** The life of a state file: sinks are started on it, send, and stop, possibly
    losing what was not synced.  The log holds what reached the socket, newest
    first. *)
Inductive sink_life : disk -> option Sink -> list wire_cell -> Prop :=
| life_start : sink_life (mkDisk Absent Absent) None []
| life_opens env d d' q s log : sink_life d None log -> hop_OpenFileSequence env true true d = (d', Ok q) -> sink_sequence s = q ->
    sink_life d' (Some s) log
| life_open_fails env given mkdir d d' e log : sink_life d None log -> hop_OpenFileSequence env given mkdir d = (d', Err e) -> sink_life d' None log
| life_sends env d s cell d' s' w e log : sink_life d (Some s) log -> Send env d s cell = (d', s', w, e) ->
    sink_life d' (Some s') (option_list w ++ log)
| life_stops d o log f : sink_life d o log -> f = current d \/ f = durable d -> sink_life (mkDisk f f) None log.

Lemma sink_life_reachable d o log : sink_life d o log ->
  exists m p, reachable 4 (mkWorld d (sink_sequence <$> o) m p) /\ (o = None -> m = []) /\ map wire_sequence log `sublist_of` m ++ p.
Proof.
  induction 1 as [|env d d' q s log _ (m & p & Hr & Hm & Hl) Ho Hq|env given mkdir d d' e log _ (m & p & Hr & Hm & Hl) Ho
    |env d s cell d' s' w e log _ (m & p & Hr & Hm & Hl) Hs|d o log f _ (m & p & Hr & Hm & Hl) Hf].
  - exists [], []. split_and!; [apply reachable_start|done|done].
  - rewrite (Hm eq_refl) in *. exists [], p. split_and!; [|done|done]. cbn [fmap option_fmap option_map]. rewrite Hq.
    eapply reachable_step; [exact Hr|]. by eapply step_open.
  - rewrite (Hm eq_refl) in *. exists [], p. split_and!; [|done|done]. eapply reachable_step; [exact Hr|]. by eapply step_open_fails.
  - destruct (Send_sequence _ _ _ _ _ _ _ _ _ _ Hs Hr) as (m' & Hr' & Hcase & Hw). exists m', p. split_and!; [done|done|].
    destruct w as [x|]; cbn [option_list app map].
    + rewrite (Hw x eq_refl). cbn [app]. by apply sublist_skip.
    + destruct Hcase as [-> |[v ->]]; [done|]. cbn [app]. by apply sublist_cons.
  - exists [], (m ++ p). split_and!; [|done|done]. eapply reachable_step; [exact Hr|]. by apply step_crash.
Qed.

Lemma StronglySorted_sublist {A} (R : A -> A -> Prop) (l k : list A) : l `sublist_of` k -> StronglySorted R k -> StronglySorted R l.
Proof.
  induction 1 as [|x l k Hl IH|x l k Hl IH]; intros Hs; [done| |].
  - apply StronglySorted_inv in Hs as [Hs Hx]. constructor; [by apply IH|]. rewrite Forall_forall in *. intros y Hy. apply Hx. by eapply elem_of_sublist.
  - apply StronglySorted_inv in Hs as [Hs _]. by apply IH.
Qed.
End wire.

(** No keystream is used twice.  Over the whole life of a node's state file, with
    any number of restarts, crashes, failed reservations, failed and short
    writes, the sequence numbers of the datagrams that reached the socket only
    grow and are never zero: a number is given back only if its datagram was not
    sent. *)
Theorem wire_sequences_unique `{HashFunction} d o log : sink_life d o log ->
  StronglySorted Z.gt (map wire_sequence log) /\ Forall (fun w => 0 < wire_sequence w < 2 ^ 32) log.
Proof.
  intros (m & p & Hr & _ & Hl)%sink_life_reachable. pose proof (reachable_inv 4 _ Hr) as (Hs & Hv & _). unfold issued in *. cbn [mine past] in *.
  split; [by eapply StronglySorted_sublist|]. apply Forall_forall. intros w Hw.
  assert (wire_sequence w ∈ m ++ p) as Hin by (eapply elem_of_sublist; [|exact Hl]; by apply list_elem_of_fmap_2).
  destruct (Hv _ Hin) as [Hb _]. change (maximum 4) with (2 ^ 32 - 1) in Hb. lia.
Qed.

(** ** Where and whether a tick goes out *)

Section ticks.
Context `{HashFunction}.

(** A run of the scheduler's calls: what each put on the wire and returned. *)
Fixpoint send_run (d : disk) (s : Sink) (ticks : list (send_io * list byte)) : disk * Sink * list (option wire_cell * option send_error) :=
  match ticks with
  | [] => (d, s, [])
  | (env, cell) :: ticks =>
      match Send env d s cell with
      | (d, s, w, e) => match send_run d s ticks with (d, s, out) => (d, s, (w, e) :: out) end
      end
  end.

(** The peer the signed plan gives to tick [t]. *)
Definition planned (s : Sink) (t : Z) : option outgoingPeer :=
  sink_plan s !! Z.to_nat (t mod len (sink_plan s)) ≫= fun slot => sink_peers s !! slot.

Lemma classify_static s c : sink_plan (fst (classify s c)) = sink_plan s /\ sink_peers (fst (classify s c)) = sink_peers s /\
  sink_next (fst (classify s c)) = sink_next s.
Proof. unfold classify, sink_drop. destruct (sendFailureIsTransient c); [destruct (_ <? _)|]; done. Qed.

Lemma Send_planned env d s cell d' s' w e : Send env d s cell = (d', s', w, e) -> is_ok (LocalMetadata cell) = true ->
  is_Some (planned s (sink_next s)) ->
  sink_plan s' = sink_plan s /\ sink_peers s' = sink_peers s /\ sink_next s' = u64 (sink_next s + 1) /\
  forall x, w = Some x -> planned s (sink_next s) = Some (wire_peer x).
Proof.
  unfold Send. intros Hs Hok [peer Hp]. destruct (LocalMetadata cell) as [metadata|]; [|done]. unfold planned in *. rewrite Hp in *.
  destruct (hop_Next _ _ _) as [[d1 q] [sequence|err]]; cbv zeta in Hs.
  - destruct (Seal _ _ _ _ _ _) as [[sealed|] [[]|]]; [|injection Hs as <- <- <- <-; split_and!; done..].
    destruct (deadline_fails env) as [cause|];
      [|destruct (udp env) as [written|cause]; [destruct (Nat.eqb written CellSize); cbn [negb] in Hs|]].
    + pose proof (classify_static (with_sequence (with_sequence s (u64 (sink_next s + 1)) q) (u64 (sink_next s + 1)) (hop_Return q sequence)) cause) as Hc.
      destruct (classify _ _) as [t x]. injection Hs as <- <- <- <-. cbn [fst] in Hc. destruct Hc as (-> & -> & ->). by split_and!.
    + injection Hs as <- <- <- <-. split_and!; [done..|]. by intros x [= <-].
    + pose proof (classify_static (with_sequence s (u64 (sink_next s + 1)) q) OtherCause) as Hc.
      destruct (classify _ _) as [t x]. injection Hs as <- <- <- <-. cbn [fst] in Hc. destruct Hc as (-> & -> & ->). split_and!; [done..|]. by intros y [= <-].
    + pose proof (classify_static (with_sequence (with_sequence s (u64 (sink_next s + 1)) q) (u64 (sink_next s + 1)) (hop_Return q sequence)) cause) as Hc.
      destruct (classify _ _) as [t x]. injection Hs as <- <- <- <-. cbn [fst] in Hc. destruct Hc as (-> & -> & ->). by split_and!.
  - destruct err; try (injection Hs as <- <- <- <-; split_and!; done).
    unfold sink_drop in Hs. destruct (_ <? _); injection Hs as <- <- <- <-; split_and!; done.
Qed.

Lemma Send_dropped env d s cell d' s' w cause : 0 <= consecutive s -> Send env d s cell = (d', s', w, Some (ErrCellDropped cause)) ->
  consecutive s' = consecutive s + 1 /\ consecutive s' <= maximumConsecutiveDrops /\ w = None.
Proof.
  intros H0'. unfold Send. destruct (LocalMetadata cell) as [metadata|]; [|done]. destruct (_ ≫= _) as [peer|]; [|done].
  assert (forall t c t', sink_drop t c = (t', ErrCellDropped cause) -> consecutive t' = consecutive t + 1 /\ consecutive t' <= maximumConsecutiveDrops) as Hd.
  { intros t c t'. unfold sink_drop. destruct (_ <? _) eqn:E; [done|]. intros [= <- _]. cbn [consecutive with_drops]. lia. }
  assert (forall t c t', classify t c = (t', ErrCellDropped cause) -> consecutive t' = consecutive t + 1 /\ consecutive t' <= maximumConsecutiveDrops) as Hc.
  { intros t c t'. unfold classify. destruct (sendFailureIsTransient c); [apply Hd|done]. }
  destruct (hop_Next _ _ _) as [[d1 q] [sequence|err]]; cbv zeta.
  - destruct (Seal _ _ _ _ _ _) as [[sealed|] [[]|]]; try done. destruct (deadline_fails env) as [c|];
      [|destruct (udp env) as [written|c]; [destruct (Nat.eqb written CellSize); cbn [negb]; [done|]|]].
    + destruct (classify _ c) as [t x] eqn:E. intros [= <- <- <- ->]. destruct (Hc _ _ _ E). by split_and!.
    + by unfold classify.
    + destruct (classify _ c) as [t x] eqn:E. intros [= <- <- <- ->]. destruct (Hc _ _ _ E). by split_and!.
  - destruct err; try done. destruct (sink_drop _ _) as [t x] eqn:E. intros [= <- <- <- ->]. destruct (Hd _ _ _ E). by split_and!.
Qed.
End ticks.

(** Destinations depend on nothing local.  Whatever fails, whichever cells are
    work, the datagram of tick [k], if one is sent, goes to the peer that the
    signed plan has at position [k]; a failed tick neither repeats nor skips a
    peer.  The tick counter must not pass its 64 bits. *)
Theorem destinations_fixed `{HashFunction} d s ticks d' s' out k w e : send_run d s ticks = (d', s', out) ->
  Forall (fun t => is_ok (LocalMetadata (snd t)) = true) ticks -> (forall t, is_Some (planned s t)) ->
  0 <= sink_next s -> sink_next s + len ticks < 2 ^ 64 -> out !! k = Some (Some w, e) ->
  planned s (sink_next s + Z.of_nat k) = Some (wire_peer w).
Proof.
  revert d s k out. induction ticks as [|[env cell] ticks IH]; intros d s k out; cbn [send_run]; [by intros [= <- <- <-]|].
  destruct (Send env d s cell) as [[[d1 s1] w1] e1] eqn:Es. destruct (send_run d1 s1 ticks) as [[d2 s2] rest] eqn:Er.
  intros [= <- <- <-] [Hc Hcs]%Forall_cons Hp H0' Hn Hk. cbn [snd] in Hc. rewrite length_cons in Hn.
  destruct (Send_planned _ _ _ _ _ _ _ _ Es Hc (Hp _)) as (Epl & Epe & Ene & Hw).
  rewrite wrapu_small in Ene by (unfold fits; lia).
  assert (forall t, planned s1 t = planned s t) as Hsame by (intros t; unfold planned; by rewrite Epl, Epe).
  destruct k as [|k].
  - cbn in Hk. injection Hk as -> _. rewrite Z.add_0_r. by apply Hw.
  - rewrite lookup_cons_ne_0 in Hk by done. cbn [pred] in Hk. rewrite <- Hsame.
    replace (sink_next s + Z.of_nat (S k)) with (sink_next s1 + Z.of_nat k) by lia.
    eapply IH; [exact Er|done|intros t; rewrite Hsame; apply Hp|lia|lia|exact Hk].
Qed.

(** A node that cannot emit stops.  No run of ticks, from any state of the sink
    with drops already counted, loses more than the allowed number of consecutive
    cells to local conditions: the next failure is returned as a fatal error. *)
Theorem silence_bounded `{HashFunction} d s ticks d' s' out : send_run d s ticks = (d', s', out) -> 0 <= consecutive s ->
  (forall w e, (w, e) ∈ out -> exists cause, e = Some (ErrCellDropped cause)) ->
  out = [] \/ consecutive s + len out <= maximumConsecutiveDrops.
Proof.
  revert d s out. induction ticks as [|[env cell] ticks IH]; intros d s out; cbn [send_run]; [intros [= <- <- <-]; by left|].
  destruct (Send env d s cell) as [[[d1 s1] w1] e1] eqn:Es. destruct (send_run d1 s1 ticks) as [[d2 s2] rest] eqn:Er.
  intros [= <- <- <-] H0' Hall. right. destruct (Hall w1 e1 ltac:(by left)) as [cause ->].
  destruct (Send_dropped _ _ _ _ _ _ _ _ H0' Es) as (Hc & Hm & _). rewrite length_cons.
  destruct (IH _ _ _ Er ltac:(lia) ltac:(intros w e Hin; apply (Hall w e); by right)) as [-> |]; simpl; lia.
Qed.

(** ** Relaying *)

Lemma Put_created env s fs m payload fs' : Put env s fs m payload = (fs', Ok true) ->
  IsWork m = true /\ (forall d, fs !! hex_encode (Stream m) = Some d -> cell_files d !! Ordinal m = None) /\
  exists d, fs' !! hex_encode (Stream m) = Some d /\ cell_files d !! Ordinal m = Some payload.
Proof.
  intros E. assert (IsWork m = true) as Hw by (unfold Put in E; by destruct (IsWork m)). split; [done|].
  destruct (Put_stores _ _ _ _ _ _ _ Hw E) as (d & Hd & _ & Hc). split; [|by exists d].
  intros d0 Hd0. revert E. unfold Put. rewrite Hw, Hd0. cbn [negb]. destruct (io_stat env); [|done]. cbn [negb].
  destruct (verifyBatchSize _ _ _); [|done]. unfold writeOrCompare. destruct (cell_files d0 !! Ordinal m); [|done].
  destruct (io_cell_read _ _); [|done]. cbn [negb]. by case_bool_decide.
Qed.

Section relaying.
Context `{HashFunction}.

Record arrival := mkArrival { arr_env : cache_io; arr_bytes : list byte; arr_source : list byte }.

Definition receive_step (cfg : node_config) (n : Node) (a : arrival) : Node := fst (receive_one cfg (arr_env a) n (arr_bytes a) (arr_source a)).
Definition receive_run (cfg : node_config) (n : Node) (arrivals : list arrival) : Node := fold_left (receive_step cfg) arrivals n.

(** The coordinates of the cells handed to the relay queue. *)
Fixpoint relayed_coordinates (cfg : node_config) (n : Node) (arrivals : list arrival) : list (list byte * Z) :=
  match arrivals with
  | [] => []
  | a :: arrivals =>
      let (n', c) := receive_one cfg (arr_env a) n (arr_bytes a) (arr_source a) in
      option_list c ++ relayed_coordinates cfg n' arrivals
  end.

(** The cell of a coordinate is in the cache. *)
Definition cached (fs : cache_root) (c : list byte * Z) : Prop :=
  exists d payload, fs !! hex_encode (fst c) = Some d /\ cell_files d !! snd c = Some payload.

Lemma cached_kept fs fs' c : cache_kept fs fs' -> cached fs c -> cached fs' c.
Proof. intros Hk (d & p & Hd & Hc). destruct (Hk _ _ Hd) as (d' & Hd' & _ & _ & Hs). exists d', p. split; [done|]. by eapply lookup_weaken. Qed.

Lemma receive_one_cache cfg env n datagram source n' c : receive_one cfg env n datagram source = (n', c) ->
  cache_kept (node_cache n) (node_cache n') /\
  forall x, c = Some x -> ~ cached (node_cache n) x /\ cached (node_cache n') x.
Proof.
  unfold receive_one. destruct (Nat.eqb _ _); cbn [negb]; [|by intros [= <- <-]].
  destruct (cfg_incoming cfg !! source) as [peer|]; [|by intros [= <- <-]].
  destruct (Open _ _ _ _) as [[cell|] [metadata|]]; [|by intros [= <- <-]..].
  destruct (Accept _ _) as [window [[]|]]; [|by intros [= <- <-]]. cbv zeta. destruct (IsWork metadata); cbn [negb]; [|by intros [= <- <-]].
  cbn [node_cache with_replay counting with_stats].
  destruct (Put env (cfg_cache cfg) (node_cache n) metadata (Ciphertext cell)) as [fs r] eqn:Ep.
  assert (cache_kept (node_cache n) fs) as Hk.
  { pose proof (put_step_kept (cfg_cache cfg) (node_cache n) (mkPut env metadata (Ciphertext cell))) as Hk. unfold put_step in Hk.
    cbn [put_env put_meta put_payload] in Hk. by rewrite Ep in Hk. }
  destruct r as [[]|]; [|by intros [= <- <-]..]. destruct (Enqueue _ _ _) as [q ok]. intros [= <- <-].
  assert (node_cache (if ok then with_queue (counting CStored (with_cache (with_replay (counting CReceived n)
    (<[in_operator peer:=window]> (node_replay n))) fs)) q else counting CQueueDropped (with_queue (counting CStored (with_cache
    (with_replay (counting CReceived n) (<[in_operator peer:=window]> (node_replay n))) fs)) q)) = fs) as Hn by (by destruct ok).
  cbn [node_replay counting with_stats] in *. rewrite Hn. split; [done|]. intros x [= <-].
  destruct (Put_created _ _ _ _ _ _ Ep) as (_ & Hno & d & Hd & Hc). split; [|by exists d, (Ciphertext cell)].
  intros (d0 & p & Hd0 & Hc0). cbn [fst snd] in *. by rewrite (Hno _ Hd0) in Hc0.
Qed.

Lemma receive_run_kept cfg n arrivals : cache_kept (node_cache n) (node_cache (receive_run cfg n arrivals)).
Proof.
  revert n. induction arrivals as [|a arrivals IH]; intros n; [reflexivity|]. cbn [receive_run fold_left]. etrans; [|apply IH].
  unfold receive_step. destruct (receive_one _ _ _ _ _) as [n' c] eqn:E. by eapply receive_one_cache.
Qed.

Lemma relayed_fresh cfg n arrivals c : c ∈ relayed_coordinates cfg n arrivals -> ~ cached (node_cache n) c.
Proof.
  revert n. induction arrivals as [|a arrivals IH]; intros n; cbn [relayed_coordinates]; [by intros ?%elem_of_nil|].
  destruct (receive_one _ _ _ _ _) as [n' o] eqn:E. destruct (receive_one_cache _ _ _ _ _ _ _ E) as [Hk Ho].
  intros [Hin|Hin]%elem_of_app.
  - destruct o as [x|]; [|by apply elem_of_nil in Hin]. apply list_elem_of_singleton in Hin as ->. by apply Ho.
  - intros Hc. eapply IH; [exact Hin|]. by eapply cached_kept.
Qed.
End relaying.

(** Nothing is relayed twice.  Over any run of datagrams, replayed, repeated with
    fresh sequence numbers, or sent by several peers, and with any failures of the
    disk, a stream coordinate is handed to the relay queue at most once, and never
    if its cell was cached before. *)
Theorem relay_once `{HashFunction} cfg n arrivals :
  NoDup (relayed_coordinates cfg n arrivals) /\ forall c, c ∈ relayed_coordinates cfg n arrivals -> ~ cached (node_cache n) c.
Proof.
  split; [|by apply relayed_fresh]. revert n. induction arrivals as [|a arrivals IH]; intros n; cbn [relayed_coordinates]; [constructor|].
  destruct (receive_one _ _ _ _ _) as [n' o] eqn:E. destruct (receive_one_cache _ _ _ _ _ _ _ E) as [_ Ho].
  destruct o as [x|]; cbn [option_list app]; [|apply IH]. constructor; [|apply IH].
  intros Hin%relayed_fresh. by apply Hin, Ho.
Qed.

(** ** What one peer can do *)

Section peers.
Context `{HashFunction}.

(** A fresh sequence number passes the window. *)
Lemma Accept_newer w q : 0 < q < 2 ^ 32 -> initialized w = false \/ 0 <= highest w < q ->
  exists bits, Accept w q = (mkWindow true q bits, Ok tt).
Proof.
  intros Hq Hw. unfold Accept. destruct (q =? 0) eqn:E0; [lia|]. destruct (initialized w); cbn [negb]; [|by eexists].
  destruct Hw as [?|Hw]; [done|]. destruct (highest w <? q) eqn:E1; [by eexists|lia].
Qed.

(** The metadata a peer seals for cell [ordinal] of a stream of two. *)
Definition pair_metadata (sender q : Z) (stream : list byte) (ordinal : Z) : Metadata := mkMetadata sender ordinal 2 FlagWork stream q.

(** A work cell that peer [peer] seals under number [q] reaches the cache. *)
Lemma sealed_cell_reaches_cache cfg n source peer q stream ordinal payload fs : cfg_incoming cfg !! source = Some peer ->
  validateAuthentication (in_key peer) (receive_context cfg) = Ok tt -> fits 16 (in_operator peer) -> 0 < q < 2 ^ 32 ->
  let w := default new_window (node_replay n !! in_operator peer) in (initialized w = false \/ 0 <= highest w < q) ->
  length stream = 16%nat -> stream <> emptyStream -> 0 <= ordinal < 2 -> length payload = CiphertextSize ->
  Put sound_disk (cfg_cache cfg) (node_cache n) (pair_metadata (in_operator peer) q stream ordinal) payload = (fs, Ok true) ->
  exists wire bits, length wire = CellSize /\
    let n' := fst (receive_one cfg sound_disk n wire source) in
    node_cache n' = fs /\ node_replay n' = <[in_operator peer := mkWindow true q bits]> (node_replay n).
Proof.
  intros Hpeer Ha Hf Hq w Hw Hl Hne Ho Hp Hput.
  set (m := pair_metadata 0 0 stream ordinal). set (c := payload ++ replicate HeaderSize x00).
  assert (length c = CellSize) as Hc by (unfold c; rewrite length_app, length_replicate, Hp; reflexivity).
  assert (metadata_typed m) as Hm by (unfold m, pair_metadata, metadata_typed, fits, FlagWork; cbn [Sender Ordinal BatchSize Flags Stream Sequence]; split_and!; (done || lia)).
  assert (validateMetadata m = Ok tt) as Hv.
  { unfold validateMetadata, m, pair_metadata. cbn [Flags Stream BatchSize Ordinal]. unfold IsWork. cbn [Flags]. change (Z.ldiff FlagWork FlagWork =? 0) with true.
    change (negb (Z.land FlagWork FlagWork =? 0)) with true. cbn [negb]. rewrite bool_decide_false by done.
    change ((2 <? 2) || (MaximumBatch <? 2)) with false. cbn [orb]. destruct (2 <=? ordinal) eqn:E; [lia|done]. }
  destruct (Open_Seal c m (in_operator peer) q (in_key peer) (receive_context cfg) Hc Hm Hv Ha Hf Hq) as (wire & _ & Hlen & _ & _ & Hopen).
  destruct (Accept_newer w q Hq Hw) as [bits Hacc]. exists wire, bits. split; [done|]. cbv zeta in Hopen |- *.
  enough (exists q' st co, receive_one cfg sound_disk n wire source = (mkNode fs q' (<[in_operator peer := mkWindow true q bits]> (node_replay n)) st, co))
    as (? & ? & ? & ->) by done.
  unfold receive_one. rewrite Hlen, Nat.eqb_refl, Hpeer. cbn [negb]. rewrite Hopen. cbn [Sequence]. 
  replace (node_replay (counting CReceived n)) with (node_replay n) by done. fold w. rewrite Hacc.
  change (IsWork (mkMetadata _ _ _ _ _ _)) with true. cbn [negb]. unfold Ciphertext at 1.
  assert (take CiphertextSize (Ciphertext c ++ encodeLocalHeader (pair_metadata (in_operator peer) q stream ordinal)) = payload) as Ht.
  { unfold Ciphertext, c. rewrite (take_app_exact CiphertextSize payload) by done. by rewrite (take_app_exact CiphertextSize payload) by done. }
  change (mkMetadata (in_operator peer) (Ordinal m) (BatchSize m) (Flags m) (Stream m) q) with (pair_metadata (in_operator peer) q stream ordinal).
  rewrite Ht. cbn [node_cache with_replay counting with_stats]. rewrite Hput. destruct (Enqueue _ _ _) as [q' ok]. destruct ok; repeat eexists.
Qed.
End peers.

(** One peer can stop a node for good.  A peer of the signed plan, with room in its
    own share, sends two correctly sealed cells under a stream identifier that is
    not the one of their payloads.  From then on every sweep of the cache fails,
    whatever else is received, whatever the disk does, and in every process that
    opens the cache again; and a failed sweep ends the node. *)
Theorem peer_stops_node `{HashFunction} cfg n source peer q stream p0 p1 : cfg_incoming cfg !! source = Some peer ->
  validateAuthentication (in_key peer) (receive_context cfg) = Ok tt -> fits 16 (in_operator peer) -> 0 < q -> q + 1 < 2 ^ 32 ->
  let w := default new_window (node_replay n !! in_operator peer) in (initialized w = false \/ 0 <= highest w < q) ->
  length stream = 16%nat -> stream <> emptyStream -> length p0 = CiphertextSize -> length p1 = CiphertextSize ->
  StreamFor [p0; p1] <> Ok stream ->
  let s := cfg_cache cfg in
  records_ok (node_cache n) -> node_cache n !! hex_encode stream = None -> Z.of_nat (size (node_cache n)) < maxStreams s ->
  0 < RawCache.perSource s -> in_operator peer ∈ sources s -> len (introduced (node_cache n) (in_operator peer)) < RawCache.perSource s ->
  exists w0 w1, length w0 = CellSize /\ length w1 = CellSize /\
    let n1 := fst (receive_one cfg sound_disk n w0 source) in
    let n2 := fst (receive_one cfg sound_disk n1 w1 source) in
    forall later arrivals env, cache_kept (node_cache n2) (node_cache later) ->
      exists e, snd (enqueueCached cfg env (receive_run cfg later arrivals)) = Err e.
Proof.
  intros Hpeer Ha Hf Hq0 Hq1 w Hw Hl Hne Hp0 Hp1 Hbad s Hr Hnew Htot Hps Hsrc Hroom.
  assert (forall k o, IsWork (pair_metadata (in_operator peer) k stream o) = true) as Hwork by done.
  assert (2 <= 2 <= MaximumBatch) as Hb by (change MaximumBatch with 256; lia).
  pose proof (sound_put_new s (node_cache n) (pair_metadata (in_operator peer) q stream 0) p0 Hr Hf (Hwork _ _) Hb Hnew Htot Hps Hsrc Hroom) as Put0.
  destruct (sealed_cell_reaches_cache cfg n source peer q stream 0 p0 _ Hpeer Ha Hf ltac:(lia) Hw Hl Hne ltac:(lia) Hp0 Put0) as (w0 & bits & L0 & C0 & R0).
  set (n1 := fst (receive_one cfg sound_disk n w0 source)) in *. cbn [pair_metadata Stream BatchSize Sender Ordinal] in C0.
  pose proof (sound_put_next s (node_cache n1) (pair_metadata (in_operator peer) (q + 1) stream 1) p1 (Some (be 2 (in_operator peer))) {[0 := p0]}
    (Hwork _ _) Hb) as Put1. cbn [pair_metadata Stream BatchSize Sender Ordinal] in Put1. rewrite C0 in Put1.
  specialize (Put1 (lookup_insert_eq _ _ _) eq_refl). rewrite <- C0 in Put1.
  assert (let w := default new_window (node_replay n1 !! in_operator peer) in initialized w = false \/ 0 <= highest w < q + 1) as Hw1
    by (right; rewrite R0, lookup_insert_eq; cbn; lia).
  destruct (sealed_cell_reaches_cache cfg n1 source peer (q + 1) stream 1 p1 _ Hpeer Ha Hf ltac:(lia) Hw1 Hl Hne ltac:(lia) Hp1 Put1) as (w1 & bits1 & L1 & C1 & _).
  exists w0, w1. split_and!; [done|done|]. cbv zeta. fold n1. set (n2 := fst (receive_one cfg sound_disk n1 w1 source)) in *.
  intros later arrivals env Hk.
  assert (poisoned (node_cache n2) stream) as Hpo.
  { destruct (StreamFor [p0; p1]) as [other|] eqn:Es; [|done]. rewrite C1.
    eexists _, 2, [p0; p1], other. split; [apply lookup_insert_eq|]. split; [done|]. split; [done|].
    split; [|split; [done|by intros ->]]. unfold holds. change (seqZ 0 2) with [0; 1]. cbn [cell_files].
    apply Forall2_cons_2; [split; [by rewrite lookup_insert_ne, lookup_singleton_eq|done]|].
    apply Forall2_cons_2; [split; [by rewrite lookup_insert_eq|done]|apply Forall2_nil_2]. }
  assert (poisoned (node_cache (receive_run cfg later arrivals)) stream) as Hpr.
  { eapply poisoned_kept; [|exact Hpo]. etrans; [exact Hk|apply receive_run_kept]. }
  unfold enqueueCached. destruct (CompleteStreams env _) as [l|e] eqn:Ec; [|by exists (ErrNodeCache e)].
  by apply (poisoned_complete env _ stream l Hl Hpr) in Ec.
Qed.

(** A node can seed its own batch only as operator zero.  The seed's cells carry
    no sender, which counts as operator zero: in a cache that is shared among
    senders without operator zero, the first cell is refused. *)
Theorem seed_needs_operator_zero `{HashFunction} cfg n stream payload payloads : let s := cfg_cache cfg in
  0 < RawCache.perSource s -> 0 ∉ sources s -> records_ok (node_cache n) -> Z.of_nat (size (node_cache n)) < maxStreams s ->
  node_cache n !! hex_encode stream = None -> stream <> emptyStream -> 2 <= len (payload :: payloads) <= MaximumBatch ->
  seed cfg (fun _ => sound_disk) n stream (payload :: payloads) = (n, Err (ErrNodeCache ErrSourceShareFull)).
Proof.
  intros s Hp H0' Hr Hsz Hnew Hne Hlen. unfold seed. cbn [seed_cells]. change MaximumBatch with 256 in Hlen.
  change (Z.of_nat 0) with 0. rewrite !wrapu_small by (unfold fits; lia).
  assert (validateMetadata (mkMetadata 0 0 (len (payload :: payloads)) FlagWork stream 0) = Ok tt) as Hv.
  { unfold validateMetadata. cbn [Flags Stream BatchSize Ordinal]. unfold IsWork. cbn [Flags]. change (Z.ldiff FlagWork FlagWork =? 0) with true.
    change (negb (Z.land FlagWork FlagWork =? 0)) with true. cbn [negb]. rewrite bool_decide_false by done.
    change MaximumBatch with 256. destruct (_ || _) eqn:E; [reflect_bools; lia|done]. }
  unfold WorkMetadata. rewrite Hv. cbn [mbind result_bind]. unfold Put. change (IsWork (mkMetadata _ _ _ _ _ _)) with true.
  change (io_stat sound_disk) with true. cbn [negb Stream]. rewrite Hnew. unfold create_stream.
  destruct (sound_streamCounts (cfg_cache cfg) (node_cache n) Hr) as [counts ->]. fold s. destruct (maxStreams s <=? _) eqn:E; [lia|].
  rewrite (proj2 (Z.ltb_lt _ _) Hp), bool_decide_false by done. cbn [andb negb]. by destruct n.
Qed.

(** ** Cells waiting to be sent *)

Section typed.
Context `{HashFunction}.

(** A cell the scheduler can send: full size, with a local header of work. *)
Definition work_cell (c : list byte) : Prop := length c = CellSize /\ exists m, LocalMetadata c = Ok m /\ IsWork m = true.
Definition queue_typed (q : FairQueue (list byte)) : Prop := forall s line, lines q !! s = Some line -> Forall work_cell line.

Lemma Enqueue_typed q source c q' ok : queue_typed q -> work_cell c -> Enqueue q source c = (q', ok) -> queue_typed q'.
Proof.
  intros Hq Hc. unfold Enqueue. destruct (lines q !! source) as [line|] eqn:El; [|by intros [= <- _]]. destruct (_ <=? _); intros [= <- _]; [done|].
  intros s l. cbn [lines]. destruct (decide (s = source)) as [->|Hne].
  - rewrite lookup_insert_eq. intros [= <-]. apply Forall_app. split; [by apply (Hq source)|by apply Forall_singleton].
  - rewrite lookup_insert_ne by done. apply Hq.
Qed.

Lemma waiting_line (ls : gmap Z (list (list byte))) sources s c rest : first_waiting ls sources = Some (s, c, rest) -> ls !! s = Some (c :: rest).
Proof.
  induction sources as [|x xs IH]; [done|]. cbn [first_waiting]. destruct (ls !! x) as [[|c' r]|] eqn:E; [done| |done]. intros [= <- <- <-]. done.
Qed.

Lemma NextCell_typed q q' r : queue_typed q -> NextCell q = (q', r) -> queue_typed q' /\ forall c, r = Ok c -> work_cell c.
Proof.
  intros Hq. unfold NextCell. destruct (_ =? 0); [intros [= <- <-]; done|]. destruct (first_waiting _ _) as [[[s c] rest]|] eqn:E; intros [= <- <-]; [|done].
  apply waiting_line in E. pose proof (Hq s _ E) as [Hc Hr]%Forall_cons. split; [|by intros x [= <-]].
  intros s' l. cbn [lines]. destruct (decide (s' = s)) as [->|Hne]; [rewrite lookup_insert_eq; by intros [= <-]|rewrite lookup_insert_ne by done; apply Hq].
Qed.

Lemma local_work_cell payload m : length payload = CiphertextSize -> metadata_typed m -> validateMetadata m = Ok tt -> IsWork m = true ->
  work_cell (payload ++ encodeLocalHeader m).
Proof.
  intros Hl Ht Hv Hw. split; [rewrite length_app, Hl, length_encodeLocalHeader by done; done|]. exists (local_part m). split; [|done].
  unfold LocalMetadata. rewrite drop_app_exact by done. by apply decodeLocalHeader_encode.
Qed.

Lemma decodeSealed_typed source seq : length source = 24%nat -> fits 32 seq ->
  let d := decodeSealed source in metadata_typed (mkMetadata (Sender d) (Ordinal d) (BatchSize d) (Flags d) (Stream d) seq).
Proof.
  intros Hl Hs. cbv zeta. assert (forall i, (i + 2 <= 24)%nat -> fits 16 (be_val (slice source i (i + 2)))) as Hb.
  { intros i Hi. pose proof (be_val_range (slice source i (i + 2))) as Hr. rewrite length_slice in Hr by lia. replace (i + 2 - i)%nat with 2%nat in Hr by lia. exact Hr. }
  unfold metadata_typed, decodeSealed. cbn [Sender Ordinal BatchSize Flags Stream Sequence].
  split_and!; [apply (Hb 0%nat)|apply (Hb 2%nat)|apply (Hb 4%nat)|apply (Hb 6%nat)|rewrite length_slice by lia|done]; lia.
Qed.

Lemma Open_work_cell datagram sender key ctx cell m : length datagram = CellSize ->
  Open (Some datagram) sender key ctx = (Some cell, Ok m) -> IsWork m = true -> work_cell cell.
Proof.
  intros Hl Ho Hw. unfold Open in Ho. destruct (validateAuthentication key ctx); [|done]. cbv zeta in Ho.
  destruct (negb (bool_decide _)) in Ho; [done|]. destruct (negb (bool_decide _)) in Ho; [done|]. destruct (_ =? 0) in Ho; [done|].
  destruct (XORKeyStream _ (take CiphertextSize datagram)) as [st payload] eqn:E1. destruct (XORKeyStream st _) as [st' sealed] eqn:E2.
  destruct (negb (_ =? _)) in Ho; [done|]. destruct (validateMetadata _) as [[]|] eqn:Ev in Ho; [|done]. injection Ho as <- <-.
  apply (f_equal (fun x => length x.2)) in E1, E2. rewrite length_XORKeyStream in E1, E2. cbn [snd] in E1, E2.
  apply local_work_cell; [rewrite <- E1, length_take, Hl; unfold CellSize, CiphertextSize; lia| |done|done].
  apply decodeSealed_typed.
  - rewrite <- E2, length_slice; [lia|]. rewrite length_drop, Hl. unfold CellSize, CiphertextSize. lia.
  - pose proof (be_val_range (slice (drop CiphertextSize datagram) 4 8)) as Hr. rewrite length_slice in Hr by (rewrite length_drop, Hl; unfold CellSize, CiphertextSize; lia). exact Hr.
Qed.

Lemma FromCiphertext_work_cell payload stream o t m cell : length payload = CiphertextSize -> length stream = 16%nat ->
  WorkMetadata stream (u16 o) (u16 t) = Ok m -> FromCiphertext payload m = Ok cell -> work_cell cell.
Proof.
  intros Hl Hs Hm Hf. unfold WorkMetadata in Hm. destruct (validateMetadata _) as [[]|] eqn:Ev in Hm; [|done]. cbn [mbind result_bind] in Hm. apply (inj Ok) in Hm.
  unfold FromCiphertext, SetMetadata in Hf. rewrite <- Hm, Ev in Hf. apply (inj Ok) in Hf. rewrite <- Hf, take_app_exact by done.
  apply local_work_cell; try done. unfold metadata_typed. cbn [Sender Ordinal BatchSize Flags Stream Sequence].
  split_and!; try done; try (apply wrapu_fits; lia); split; done.
Qed.

Lemma hex_decode_length l r : hex_decode l = Some r -> length l = (2 * length r)%nat.
Proof.
  revert l. induction r as [|b r IH]; intros l; destruct l as [|x [|y l]]; cbn [hex_decode]; try done.
  - destruct (hex_value x), (hex_value y), (hex_decode l); done.
  - destruct (hex_value x), (hex_value y); try done. destruct (hex_decode l) as [r'|] eqn:E; try done. intros [= _ ->]. cbn [length]. rewrite (IH l E). lia.
Qed.

Lemma complete_names_streams env fs names streams : complete_names env fs names = Ok streams -> Forall (fun s => length s = 16%nat) streams.
Proof.
  revert streams. induction names as [|name names IH]; intros streams; cbn [complete_names]; [intros [= <-]; constructor|].
  destruct (hex_decode name) as [stream|] eqn:Eh; [|apply IH]. destruct (Nat.eqb (length name) 32) eqn:El; [|apply IH]. cbn [negb].
  apply Nat.eqb_eq in El. apply hex_decode_length in Eh.
  destruct (Complete env fs stream) as [complete|]; [|done]. cbn [mbind result_bind]. destruct (complete_names env fs names) as [rest|]; [|done]. cbn [mbind result_bind].
  intros [= <-]. destruct complete; [constructor; [lia|]|]; by apply IH.
Qed.

Lemma Load_payloads env fs stream ps : Load env fs stream = Ok (Some ps) -> Forall (fun p => length p = CiphertextSize) ps.
Proof.
  unfold Load. destruct (fs !! hex_encode stream) as [d|]; [|done]. destruct (readBatchSize env d) as [[n|]|]; cbn [mbind result_bind]; [|done..].
  destruct (load_cells env d (seqZ 0 n)) as [[cs|]|] eqn:E; cbn [mbind result_bind]; [|done..].
  destruct (StreamFor cs) as [calc|]; cbn [wrap mbind result_bind]; [|done]. case_bool_decide; [|done]. intros [= <-].
  apply load_cells_holds in E. induction E as [|o c os cs' [_ Hl] _ IH]; [constructor|by constructor].
Qed.

Lemma enqueue_cells_typed cfg n stream total ordinal ps n' r : length stream = 16%nat -> Forall (fun p => length p = CiphertextSize) ps ->
  queue_typed (node_queue n) -> enqueue_cells cfg n stream total ordinal ps = (n', r) -> queue_typed (node_queue n').
Proof.
  intros Hs Hp. revert n ordinal. induction Hp as [|p ps Hl _ IH]; intros n ordinal Hq; cbn [enqueue_cells]; [by intros [= <- _]|].
  destruct (WorkMetadata _ _ _) as [m|] eqn:Em; [|by intros [= <- _]]. destruct (FromCiphertext p m) as [cell|] eqn:Ef; [|by intros [= <- _]].
  assert (work_cell cell) as Hc by by eapply FromCiphertext_work_cell. destruct (Enqueue _ _ _) as [q [|]] eqn:Eq.
  - apply IH. by eapply Enqueue_typed.
  - intros [= <- _]. by eapply Enqueue_typed.
Qed.

Lemma enqueue_streams_typed cfg env n streams n' r : Forall (fun s => length s = 16%nat) streams ->
  queue_typed (node_queue n) -> enqueue_streams cfg env n streams = (n', r) -> queue_typed (node_queue n').
Proof.
  intros Hs. revert n. induction Hs as [|s streams Hl _ IH]; intros n Hq; cbn [enqueue_streams]; [by intros [= <- _]|].
  destruct (Load env (node_cache n) s) as [[ps|]|] eqn:El; [|by apply IH|by intros [= <- _]].
  destruct (enqueue_cells _ _ _ _ _ _) as [n1 r1] eqn:Ec.
  assert (queue_typed (node_queue n1)) as Hq1 by (eapply enqueue_cells_typed; [exact Hl|by eapply Load_payloads|exact Hq|exact Ec]).
  destruct r1 as [[|]|]; [by apply IH|by intros [= <- _]..].
Qed.

Lemma seed_cells_typed cfg env n stream total ordinal ps n' r : length stream = 16%nat -> Forall (fun p => length p = CiphertextSize) ps ->
  queue_typed (node_queue n) -> seed_cells cfg env n stream total ordinal ps = (n', r) -> queue_typed (node_queue n').
Proof.
  intros Hs Hp. revert n ordinal. induction Hp as [|p ps Hl _ IH]; intros n ordinal Hq; cbn [seed_cells]; [by intros [= <- _]|].
  destruct (WorkMetadata _ _ _) as [m|] eqn:Em; [|by intros [= <- _]]. destruct (Put _ _ _ _ _) as [fs [b|]]; [|by intros [= <- _]]. cbv zeta.
  destruct (FromCiphertext p m) as [cell|] eqn:Ef; [|by intros [= <- _]].
  assert (work_cell cell) as Hc by by eapply FromCiphertext_work_cell. destruct (Enqueue _ _ _) as [q [|]] eqn:Eq.
  - apply IH. by eapply Enqueue_typed.
  - intros [= <- _]. by eapply Enqueue_typed.
Qed.

Lemma receive_one_typed cfg env n datagram source : queue_typed (node_queue n) -> queue_typed (node_queue (fst (receive_one cfg env n datagram source))).
Proof.
  intros Hq. unfold receive_one. cbv zeta. destruct (Nat.eqb (length datagram) CellSize) eqn:El; [|done]. apply Nat.eqb_eq in El. cbn [negb].
  destruct (cfg_incoming cfg !! source) as [peer|]; [|done]. destruct (Open _ _ _ _) as [[cell|] [m|]] eqn:Eo; try done.
  destruct (Accept _ _) as [w [|]]; [|done]. destruct (IsWork m) eqn:Ew; [|done]. cbn [negb]. destruct (Put _ _ _ _ _) as [fs [[|]|]]; try done.
  destruct (Enqueue _ _ _) as [q ok] eqn:Eq. cbn [fst]. assert (queue_typed q) as Ht by (eapply Enqueue_typed; [|by eapply Open_work_cell|exact Eq]; done).
  destruct ok; exact Ht.
Qed.

Lemma classify_error t c x : snd (classify t c) <> ErrSourceCell x.
Proof. unfold classify, sink_drop. destruct (sendFailureIsTransient c); [destruct (_ <? _)|]; done. Qed.

Ltac classified Hs :=
  let t := fresh in let y := fresh in let Ec := fresh in let x := fresh in
  destruct (classify _ _) as [t y] eqn:Ec; injection Hs as <- <- <- <-; apply (f_equal snd) in Ec; cbn [snd] in Ec;
  split; [intros x [= ->]; by apply (classify_error _ _ x Ec)|done].

(** Sending such a cell never fails for its header, and counts it as work. *)
Lemma Send_work_cell env d s cell d' s' w e : work_cell cell -> Send env d s cell = (d', s', w, e) ->
  (forall x, e <> Some (ErrSourceCell x)) /\ (e = None -> stat_relayed s' = u64 (stat_relayed s + 1) /\ stat_cover s' = stat_cover s).
Proof.
  intros [_ (m & Hm & Hw)] Hs. unfold Send in Hs. rewrite Hm in Hs. destruct (_ ≫= _) as [peer|]; [|by injection Hs as <- <- <- <-].
  destruct (hop_Next _ _ _) as [[d1 sq] [sequence|err]]; cbv zeta in Hs; cycle 1.
  { destruct err; try (by injection Hs as <- <- <- <-). unfold sink_drop in Hs. destruct (_ <? _); by injection Hs as <- <- <- <-. }
  destruct (Seal _ _ _ _ _ _) as [[sealed|] [[]|]]; try (by injection Hs as <- <- <- <-).
  destruct (deadline_fails env) as [cause|]; [by classified Hs|]. destruct (udp env) as [written|cause]; [|by classified Hs].
  destruct (negb _); [by classified Hs|]. injection Hs as <- <- <- <-. split; [done|]. intros _. by rewrite Hw.
Qed.

(** What happens to a node, one event at a time; [ENext] is the scheduler
    taking a cell. *)
Inductive node_event :=
| EReceive (env : cache_io) (datagram source : list byte)
| ESeed (env : nat -> cache_io) (stream : list byte) (payloads : list (list byte))
| ESweep (env : cache_io)
| ENext.

Definition node_step (cfg : node_config) (n : Node) (e : node_event) : Node :=
  match e with
  | EReceive env datagram source => fst (receive_one cfg env n datagram source)
  | ESeed env stream payloads => fst (seed cfg env n stream payloads)
  | ESweep env => fst (enqueueCached cfg env n)
  | ENext => with_queue n (fst (NextCell (node_queue n)))
  end.

(** Go's types of a bundle: 16-byte stream, full-size payloads. *)
Definition event_typed (e : node_event) : Prop :=
  match e with ESeed _ stream payloads => length stream = 16%nat /\ Forall (fun p => length p = CiphertextSize) payloads | _ => True end.

Lemma node_step_typed cfg n e : event_typed e -> queue_typed (node_queue n) -> queue_typed (node_queue (node_step cfg n e)).
Proof.
  destruct e as [env datagram source|env stream ps|env|]; intros He Hq; cbn [node_step].
  - by apply receive_one_typed.
  - unfold seed. destruct (seed_cells _ _ _ _ _ _ _) as [n' r] eqn:E. destruct He. by eapply seed_cells_typed in E.
  - unfold enqueueCached, CompleteStreams. destruct (negb (io_list env)); [done|]. destruct (complete_names _ _ _) as [streams|] eqn:Ec; [|done].
    destruct (enqueue_streams _ _ _ _) as [n' r] eqn:E. apply complete_names_streams in Ec. by eapply enqueue_streams_typed in E.
  - destruct (NextCell (node_queue n)) as [q r] eqn:E. by eapply NextCell_typed in E as [? _].
Qed.

(** C39: Whatever arrives, is seeded or is read back from disk, the relay queue holds
    full-size cells with a local work header and nothing else, so the cell the
    scheduler takes is always one that [Send] can address: it is never refused
    for its header and is counted as relayed work, not as cover. *)
Theorem relay_cells_typed (cfg : node_config) (capacity : Z) (sources : list Z) (q : FairQueue (list byte)) (fs : cache_root) (stats : counters) (events : list node_event)
  (Hq : NewFairQueue capacity sources = Ok q) (He : Forall event_typed events) :
  let n := fold_left (node_step cfg) events (mkNode fs q ∅ stats) in
  queue_typed (node_queue n) /\
  forall q' cell, NextCell (node_queue n) = (q', Ok cell) -> work_cell cell /\
    forall env d s d' s' w e, Send env d s cell = (d', s', w, e) ->
      (forall x, e <> Some (ErrSourceCell x)) /\ (e = None -> stat_relayed s' = u64 (stat_relayed s + 1) /\ stat_cover s' = stat_cover s).
Proof.
  cbv zeta. assert (queue_typed (node_queue (fold_left (node_step cfg) events (mkNode fs q ∅ stats)))) as Ht.
  { assert (queue_typed q) as H0'.
    { unfold NewFairQueue in Hq. run_guards Hq. intros s line. cbn [lines]. intros Hl. apply elem_of_list_to_map_2 in Hl.
      apply list_elem_of_fmap in Hl as (x & [= <- ->] & _). constructor. }
    change (queue_typed (node_queue (mkNode fs q ∅ stats))) in H0'. revert H0'. generalize (mkNode fs q ∅ stats).
    induction He as [|e events Hev _ IH]; intros n Hn; [done|]. cbn [fold_left]. apply IH. by apply node_step_typed. }
  split; [exact Ht|]. intros q' cell Hn. destruct (NextCell_typed _ _ _ Ht Hn) as [_ Hc]. specialize (Hc cell eq_refl). split; [done|].
  intros env d s d' s' w e. by apply Send_work_cell.
Qed.
End typed.

(** ** Examples *)

Section example.
#[local] Existing Instance example_hash.

Definition example_link : list byte := replicate 32 x0b.
Definition example_node_context : Context := mkContext (replicate 32 x01) [x6e] 4 0.
Definition example_peers : list outgoingPeer := [mkOutgoing 1 example_link; mkOutgoing 3 example_link].
Definition example_sink : Sink := mkSink 2 example_peers [0; 1; 1]%nat 0 (mkSequence 1 sequenceReservation) example_node_context 0 0 0 0 0.
Definition example_cover : list byte := replicate CiphertextSize x2a ++ encodeLocalHeader CoverMetadata.
Definition io_fine : send_io := mkSendIO healthy None (Wrote CellSize).
Definition io_lost : send_io := mkSendIO healthy None (WriteFails ENOBUFS).
Definition example_ticks : list (send_io * list byte) := [(io_fine, example_cover); (io_lost, example_cover); (io_fine, example_cover)].
Definition example_disk : disk := disk_of sequenceReservation.

Lemma sink_life_run d s log ticks d' s' out : sink_life d (Some s) log -> send_run d s ticks = (d', s', out) ->
  exists log', sink_life d' (Some s') log' /\ length log' = (length (omap fst out) + length log)%nat.
Proof.
  revert d s log out. induction ticks as [|[env cell] ticks IH]; intros d s log out Hl; cbn [send_run]; [intros [= <- <- <-]; by exists log|].
  destruct (Send env d s cell) as [[[d1 s1] w] e] eqn:Es. destruct (send_run d1 s1 ticks) as [[d2 s2] rest] eqn:Er. intros [= <- <- <-].
  destruct (IH _ _ _ _ (life_sends _ _ _ _ _ _ _ _ _ Hl Es) Er) as (log' & Hl' & Hlen). exists log'. split; [done|]. rewrite Hlen, length_app.
  unfold omap. cbn [list_omap fst]. destruct w; simpl; lia.
Qed.

Lemma example_life : exists log d s, sink_life d (Some s) log /\ length log = 2%nat.
Proof.
  assert (sink_life example_disk (Some example_sink) []) as H0'
    by (eapply (life_opens healthy); [apply life_start|reflexivity|reflexivity]).
  destruct (send_run example_disk example_sink example_ticks) as [[d s] out] eqn:E.
  assert (length (omap fst (snd (send_run example_disk example_sink example_ticks))) = 2%nat) as Hn by (vm_compute; reflexivity).
  rewrite E in Hn. cbn [snd] in Hn. destruct (sink_life_run _ _ _ _ _ _ _ H0' E) as (log & Hl & Hlen). exists log, d, s.
  split; [exact Hl|]. rewrite Hlen, Hn. reflexivity.
Qed.

Lemma wire_sequences_unique_witness : exists log, length log = 2%nat /\ StronglySorted Z.gt (map wire_sequence log).
Proof.
  destruct example_life as (log & d & s & Hl & Hn). exists log. split; [exact Hn|]. exact (proj1 (wire_sequences_unique d (Some s) log Hl)).
Defined.

Lemma example_planned t : is_Some (planned example_sink t).
Proof.
  unfold planned. change (len (sink_plan example_sink)) with 3. assert (t mod 3 = 0 \/ t mod 3 = 1 \/ t mod 3 = 2) as [-> |[-> | ->]]
    by (pose proof (Z.mod_pos_bound t 3 ltac:(lia)); lia); by eexists.
Qed.

(** The third tick goes to the third slot, although the second was lost. *)
Lemma destinations_fixed_witness : exists w, planned example_sink 2 = Some (wire_peer w).
Proof.
  destruct (send_run example_disk example_sink example_ticks) as [[d s] out] eqn:E.
  assert (match snd (send_run example_disk example_sink example_ticks) !! 2%nat with Some (Some _, None) => true | _ => false end = true) as Hn
    by (vm_compute; reflexivity).
  rewrite E in Hn. cbn [snd] in Hn. destruct (out !! 2%nat) as [[[w|] [e|]]|] eqn:Ho; [discriminate Hn| |discriminate Hn..]. exists w.
  apply (destinations_fixed _ _ _ _ _ _ 2 w None E).
  - repeat (apply Forall_cons; split; [vm_compute; reflexivity|]). apply Forall_nil. exact I.
  - apply example_planned.
  - cbn. lia.
  - cbn. lia.
  - exact Ho.
Defined.

Lemma silence_bounded_witness : exists d s out, send_run example_disk example_sink [(io_lost, example_cover)] = (d, s, out) /\ length out = 1%nat /\
  (out = [] \/ 0 + len out <= maximumConsecutiveDrops).
Proof.
  destruct (send_run example_disk example_sink [(io_lost, example_cover)]) as [[d s] out] eqn:E.
  assert (match snd (send_run example_disk example_sink [(io_lost, example_cover)]) with [(_, Some (ErrCellDropped ENOBUFS))] => true | _ => false end = true) as Hn
    by (vm_compute; reflexivity).
  rewrite E in Hn. cbn [snd] in Hn. destruct out as [|[w [[| | | | |[]|]|]] [|]]; try discriminate Hn.
  eexists _, _, _. split; [reflexivity|]. split; [reflexivity|]. apply (silence_bounded _ _ _ _ _ _ E).
  - cbn. lia.
  - intros w' e' Hin. apply list_elem_of_singleton in Hin. injection Hin as -> ->. eexists. reflexivity.
Defined.

Definition example_store : Store := RawCache.mkStore 6 2 {[2; 1; 3]}.
Definition example_config : node_config :=
  mkNodeConfig 2 (replicate 32 x01) [x6e] 4 {[ [x31] := mkIncoming 1 example_link ]} example_store.
Definition example_node : Node := mkNode ∅ (mkQueue 4 1 [2; 1] ∅ 0 ∅) ∅ (mkCounters 0 0 0 0 0 0 0 0 0).

Lemma peer_stops_node_witness : exists w0 w1,
  let n1 := fst (receive_one example_config sound_disk example_node w0 [x31]) in
  let n2 := fst (receive_one example_config sound_disk n1 w1 [x31]) in
  exists e, snd (enqueueCached example_config sound_disk n2) = Err e.
Proof.
  destruct (peer_stops_node example_config example_node [x31] (mkIncoming 1 example_link) 7 (replicate 16 x05)
    (replicate CiphertextSize x41) (replicate CiphertextSize x42)) as (w0 & w1 & _ & _ & Hstop).
  - reflexivity.
  - vm_compute. reflexivity.
  - cbn. split; [lia|reflexivity].
  - reflexivity.
  - reflexivity.
  - left. reflexivity.
  - reflexivity.
  - discriminate.
  - reflexivity.
  - reflexivity.
  - assert (match StreamFor [replicate CiphertextSize x41; replicate CiphertextSize x42] with Ok s => bool_decide (s = replicate 16 x05) | Err _ => false end = false)
      as E by (vm_compute; reflexivity). intros E'. rewrite E' in E. rewrite bool_decide_true in E by reflexivity. discriminate E.
  - intros name d r Hn. change (node_cache example_node) with (∅ : cache_root) in Hn. rewrite lookup_empty in Hn. discriminate Hn.
  - reflexivity.
  - reflexivity.
  - reflexivity.
  - cbn [cfg_cache example_config sources example_store in_operator]. set_solver.
  - reflexivity.
  - exists w0, w1. cbv zeta in *. apply (Hstop _ [] sound_disk). reflexivity.
Defined.

Lemma seed_needs_operator_zero_witness :
  seed example_config (fun _ => sound_disk) example_node (replicate 16 x05) [replicate CiphertextSize x41; replicate CiphertextSize x42] =
  (example_node, Err (ErrNodeCache ErrSourceShareFull)).
Proof.
  apply seed_needs_operator_zero.
  - reflexivity.
  - cbn [cfg_cache example_config sources example_store]. set_solver.
  - intros name d r Hn. change (node_cache example_node) with (∅ : cache_root) in Hn. rewrite lookup_empty in Hn. discriminate Hn.
  - reflexivity.
  - reflexivity.
  - discriminate.
  - cbn. change MaximumBatch with 256. lia.
Defined.

(** Operator 0 seeds a bundle of two, receives a cell of its peer, and relays. *)
Definition relay_config : node_config :=
  mkNodeConfig 0 (replicate 32 x01) [x6e] 4 {[ [x31] := mkIncoming 1 example_link ]} (RawCache.mkStore 6 2 {[0; 1; 3]}).

Definition bundle : list (list byte) := [replicate CiphertextSize x41; replicate CiphertextSize x42].
Definition bundle_stream : list byte := match StreamFor bundle with Ok s => s | Err _ => [] end.

Definition peer_datagram : list byte :=
  match FromCiphertext (replicate CiphertextSize x43) (pair_metadata 0 0 (replicate 16 x05) 1) with
  | Ok cell => match Seal (Some cell) (pair_metadata 0 0 (replicate 16 x05) 1) 1 7 example_link (receive_context relay_config) with
               | (Some wire, Ok _) => wire
               | _ => []
               end
  | Err _ => []
  end.

Definition relay_events : list node_event :=
  [ESeed (fun _ => sound_disk) bundle_stream bundle; EReceive sound_disk peer_datagram [x31]; ENext].

Definition relay_queue : FairQueue (list byte) := match NewFairQueue 8 [0; 1] with Ok q => q | Err _ => mkQueue 0 0 [] ∅ 0 ∅ end.
Definition relay_node : Node :=
  fold_left (node_step relay_config) relay_events (mkNode ∅ relay_queue ∅ (mkCounters 0 0 0 0 0 0 0 0 0)).

(** One of the seeded cells is gone, one of them and the received one wait. *)
Example relay_waiting : (length <$> lines (node_queue relay_node) !! 0) = Some 1%nat /\
  (length <$> lines (node_queue relay_node) !! 1) = Some 1%nat.
Proof. vm_compute. split; reflexivity. Qed.

(** The received cell is the next one, and it leaves as relayed work. *)
Lemma relay_cells_typed_witness : exists q' cell d s w, NextCell (node_queue relay_node) = (q', Ok cell) /\
  take CiphertextSize cell = replicate CiphertextSize x43 /\ work_cell cell /\
  Send io_fine example_disk example_sink cell = (d, s, Some w, None) /\ stat_relayed s = 1 /\ stat_cover s = 0.
Proof.
  destruct (relay_cells_typed relay_config 8 [0; 1] relay_queue ∅ (mkCounters 0 0 0 0 0 0 0 0 0) relay_events) as [_ Ht].
  - vm_compute. reflexivity.
  - constructor; [|repeat constructor]. split; [vm_compute; reflexivity|repeat constructor].
  - change (fold_left _ _ _) with relay_node in Ht. destruct (NextCell (node_queue relay_node)) as [q' [cell|]] eqn:En.
    2: { assert (is_ok (snd (NextCell (node_queue relay_node))) = true) as Hok by (vm_compute; reflexivity). rewrite En in Hok. discriminate Hok. }
    assert (match snd (NextCell (node_queue relay_node)) with
            | Ok c => bool_decide (take CiphertextSize c = replicate CiphertextSize x43) &&
                match Send io_fine example_disk example_sink c with (_, _, Some _, None) => true | _ => false end
            | Err _ => false end = true) as Hok by (vm_compute; reflexivity).
    rewrite En in Hok. cbn [snd] in Hok. apply andb_true_iff in Hok as [Hcell Hok]. apply bool_decide_eq_true in Hcell.
    destruct (Ht q' cell eq_refl) as [Hw Hsend].
    destruct (Send io_fine example_disk example_sink cell) as [[[d s] [w|]] [e|]] eqn:Es; try discriminate Hok.
    destruct (Hsend _ _ _ _ _ _ _ Es) as [_ Hcount]. destruct (Hcount eq_refl) as [Hr Hc].
    exists q', cell, d, s, w. split; [reflexivity|]. split; [exact Hcell|]. split; [exact Hw|]. split; [exact Es|].
    split; [rewrite Hr; reflexivity|rewrite Hc; reflexivity].
Defined.
End example.
