(* ===== verification/Fabric.v ===== *)
(** The constant-rate fabric ([components/nomad-constant-rate-fabric/fabric]):
    the lock-free work queue ([cell.go], [QueueSource]) as a step relation over
    its atomic operations, the cover source, and the fixed-cadence scheduler
    ([scheduler.go]).  Cells are the values of an arbitrary type. *)

From stdpp Require Import base list list_numbers.
From Stdlib Require Import ZArith Lia.
From S2P Require Import Prelude.

(** ** The work queue *)

Section queue.
Context {cell : Type}.

(** A slot: the publication mark and the cell's bytes. *)
Record queueSlot := mkSlot {
  published : Z;
  content : cell;
}.

(** A producer inside [Enqueue], by the atomic operation it does next. *)
Inductive producer :=
| PIdle
| PWant (c : cell)                         (* loads enqueue *)
| PLoaded (c : cell) (position : Z)        (* loads dequeue *)
| PChecked (c : cell) (position consumed : Z)   (* tests for room, then CAS *)
| PReserved (c : cell) (position : Z)      (* copies the cell *)
| PWrote (c : cell) (position : Z).        (* stores published *)

(** The single consumer inside [NextCell]. *)
Inductive consumer :=
| CIdle
| CLoaded (position : Z)                   (* loads enqueue *)
| CChecked (position : Z)                  (* loads published *)
| CReady (position : Z)                    (* copies the cell *)
| CCopied (position : Z) (c : cell).       (* stores dequeue *)

(** [assigned] and [taken] record history: the cells in the order their
    positions were reserved, and the cells handed to the consumer. *)
Record QueueSource := mkQueueSource {
  qcapacity : Z;
  slots : list queueSlot;
  enqueue : Z;
  dequeue : Z;
  producers : list producer;
  the_consumer : consumer;
  assigned : list cell;
  taken : list cell;
}.

Definition NewQueueSource (capacity : Z) (zero : cell) (threads : nat) : option QueueSource :=
  if capacity <? 1 then None
  else Some (mkQueueSource capacity (replicate (Z.to_nat capacity) (mkSlot 0 zero)) 0 0
               (replicate threads PIdle) CIdle [] []).

(** [q.slots[position%q.capacity]]. *)
Definition slot_of (q : QueueSource) (position : Z) : nat := Z.to_nat (position mod qcapacity q).

Definition set_producer (q : QueueSource) (i : nat) (p : producer) : QueueSource :=
  mkQueueSource (qcapacity q) (slots q) (enqueue q) (dequeue q) (<[i := p]> (producers q))
    (the_consumer q) (assigned q) (taken q).

Definition set_consumer (q : QueueSource) (k : consumer) : QueueSource :=
  mkQueueSource (qcapacity q) (slots q) (enqueue q) (dequeue q) (producers q) k (assigned q) (taken q).

Definition set_slot (q : QueueSource) (position : Z) (s : queueSlot) : QueueSource :=
  mkQueueSource (qcapacity q) (<[slot_of q position := s]> (slots q)) (enqueue q) (dequeue q)
    (producers q) (the_consumer q) (assigned q) (taken q).

(** One atomic operation of one thread.  Positions are 64-bit counters; a run
    is followed until one of them would wrap. *)
Inductive queue_step : QueueSource -> QueueSource -> Prop :=
| enqueue_call q i c : producers q !! i = Some PIdle -> queue_step q (set_producer q i (PWant c))
| enqueue_load q i c : producers q !! i = Some (PWant c) ->
    queue_step q (set_producer q i (PLoaded c (enqueue q)))
| enqueue_load_dequeue q i c position : producers q !! i = Some (PLoaded c position) ->
    queue_step q (set_producer q i (PChecked c position (dequeue q)))
| enqueue_full q i c position consumed : producers q !! i = Some (PChecked c position consumed) ->
    qcapacity q <= u64 (position - consumed) ->
    queue_step q (set_producer q i PIdle)
| enqueue_cas_lost q i c position consumed : producers q !! i = Some (PChecked c position consumed) ->
    u64 (position - consumed) < qcapacity q -> enqueue q <> position ->
    queue_step q (set_producer q i (PWant c))
| enqueue_cas q i c position consumed : producers q !! i = Some (PChecked c position consumed) ->
    u64 (position - consumed) < qcapacity q -> enqueue q = position -> position + 1 < 2 ^ 64 ->
    queue_step q
      (mkQueueSource (qcapacity q) (slots q) (position + 1) (dequeue q)
         (<[i := PReserved c position]> (producers q)) (the_consumer q) (assigned q ++ [c]) (taken q))
(** The copy of the 1200 bytes is not atomic: before it completes the slot can
    hold anything. *)
| enqueue_copying q i c position s torn : producers q !! i = Some (PReserved c position) ->
    slots q !! slot_of q position = Some s ->
    queue_step q (set_producer (set_slot q position (mkSlot (published s) torn)) i (PReserved c position))
| enqueue_copied q i c position s : producers q !! i = Some (PReserved c position) ->
    slots q !! slot_of q position = Some s ->
    queue_step q (set_producer (set_slot q position (mkSlot (published s) c)) i (PWrote c position))
| enqueue_publish q i c position s : producers q !! i = Some (PWrote c position) ->
    slots q !! slot_of q position = Some s ->
    queue_step q (set_producer (set_slot q position (mkSlot (position + 1) (content s))) i PIdle)
| next_call q : the_consumer q = CIdle -> queue_step q (set_consumer q (CLoaded (dequeue q)))
| next_empty q position : the_consumer q = CLoaded position -> enqueue q <= position ->
    queue_step q (set_consumer q CIdle)
| next_reserved q position : the_consumer q = CLoaded position -> position < enqueue q ->
    queue_step q (set_consumer q (CChecked position))
| next_unpublished q position s : the_consumer q = CChecked position ->
    slots q !! slot_of q position = Some s -> published s <> position + 1 ->
    queue_step q (set_consumer q CIdle)
| next_published q position s : the_consumer q = CChecked position ->
    slots q !! slot_of q position = Some s -> published s = position + 1 ->
    queue_step q (set_consumer q (CReady position))
| next_copy q position s : the_consumer q = CReady position ->
    slots q !! slot_of q position = Some s ->
    queue_step q (set_consumer q (CCopied position (content s)))
| next_store q position c : the_consumer q = CCopied position c ->
    queue_step q
      (mkQueueSource (qcapacity q) (slots q) (enqueue q) (position + 1) (producers q) CIdle
         (assigned q) (taken q ++ [c])).

Inductive queue_reachable (capacity : Z) (zero : cell) (threads : nat) : QueueSource -> Prop :=
| queue_start q : NewQueueSource capacity zero threads = Some q -> queue_reachable capacity zero threads q
| queue_steps q q' : queue_reachable capacity zero threads q -> queue_step q q' ->
    queue_reachable capacity zero threads q'.

(** ** Invariant *)

(** A producer that owns a position: reserved and not yet published. *)
Definition owns (p : producer) (position : Z) (c : cell) : Prop :=
  p = PReserved c position \/ p = PWrote c position.

Definition producer_ok (q : QueueSource) (p : producer) : Prop :=
  match p with
  | PIdle | PWant _ => True
  | PLoaded _ position => 0 <= position <= enqueue q
  | PChecked _ position consumed => 0 <= position <= enqueue q /\ 0 <= consumed <= dequeue q
  | PReserved c position => dequeue q <= position < enqueue q /\ assigned q !! Z.to_nat position = Some c
  | PWrote c position => dequeue q <= position < enqueue q /\ assigned q !! Z.to_nat position = Some c /\
      exists m, slots q !! slot_of q position = Some (mkSlot m c)
  end.

Definition consumer_ok (q : QueueSource) : Prop :=
  match the_consumer q with
  | CIdle => True
  | CLoaded position => position = dequeue q
  | CChecked position => position = dequeue q /\ position < enqueue q
  | CReady position => position = dequeue q /\ position < enqueue q /\
      exists s, slots q !! slot_of q position = Some s /\ published s = position + 1
  | CCopied position c => position = dequeue q /\ position < enqueue q /\
      assigned q !! Z.to_nat position = Some c /\
      exists s, slots q !! slot_of q position = Some s /\ published s = position + 1
  end.

(** A publication mark names a position of its slot that was reserved, that no
    producer still owns, and whose cell the slot holds until it is consumed. *)
Definition slot_ok (q : QueueSource) (j : nat) (s : queueSlot) : Prop :=
  published s = 0 \/
  exists position, published s = position + 1 /\ 0 <= position < enqueue q /\ slot_of q position = j /\
    (forall i p c, producers q !! i = Some p -> ~ owns p position c) /\
    (dequeue q <= position -> assigned q !! Z.to_nat position = Some (content s)).

(** No reserved position is lost: it is still owned by its producer, or its
    slot is marked with it. *)
Definition pending_ok (q : QueueSource) (position : Z) : Prop :=
  (exists i p c, producers q !! i = Some p /\ owns p position c) \/
  (exists s, slots q !! slot_of q position = Some s /\ published s = position + 1).

Definition queue_source_inv (q : QueueSource) : Prop :=
  0 < qcapacity q /\ length (slots q) = Z.to_nat (qcapacity q) /\
  0 <= dequeue q <= enqueue q /\ enqueue q <= dequeue q + qcapacity q /\ enqueue q < 2 ^ 64 /\
  len (assigned q) = enqueue q /\ taken q = take (Z.to_nat (dequeue q)) (assigned q) /\
  (forall i p, producers q !! i = Some p -> producer_ok q p) /\
  (forall i1 i2 p1 p2 position c1 c2, producers q !! i1 = Some p1 -> producers q !! i2 = Some p2 ->
     owns p1 position c1 -> owns p2 position c2 -> i1 = i2) /\
  (forall j s, slots q !! j = Some s -> slot_ok q j s) /\
  consumer_ok q /\
  (forall position, dequeue q <= position < enqueue q -> pending_ok q position).
End queue.
Arguments QueueSource : clear implicits.
Arguments queueSlot : clear implicits.
Arguments producer : clear implicits.

Section queue_proofs.
Context {cell : Type}.
Implicit Types q : QueueSource cell.

(** Two unconsumed positions share a slot only if they are the same. *)
Lemma slot_of_inj q p1 p2 : queue_source_inv q -> dequeue q <= p1 < enqueue q ->
  dequeue q <= p2 < enqueue q -> slot_of q p1 = slot_of q p2 -> p1 = p2.
Proof.
  intros (Hc & _ & Hd & He & _) H1 H2 E. unfold slot_of in E.
  apply (Z2Nat.inj (p1 mod _) (p2 mod _)) in E; [|apply Z.mod_pos_bound; lia..].
  pose proof (Z.div_mod p1 (qcapacity q) ltac:(lia)). pose proof (Z.div_mod p2 (qcapacity q) ltac:(lia)).
  assert (p1 / qcapacity q = p2 / qcapacity q) by nia. nia.
Qed.

Lemma slot_of_lt q position : queue_source_inv q -> 0 <= position ->
  (slot_of q position < length (slots q))%nat.
Proof.
  intros (Hc & Hl & _) Hp. rewrite Hl. unfold slot_of.
  pose proof (Z.mod_pos_bound position (qcapacity q) Hc). lia.
Qed.

Lemma owns_bounds q i p position c : queue_source_inv q -> producers q !! i = Some p -> owns p position c ->
  dequeue q <= position < enqueue q /\ assigned q !! Z.to_nat position = Some c.
Proof.
  intros (_ & _ & _ & _ & _ & _ & _ & Hp & _) Hi Ho. specialize (Hp i p Hi).
  destruct Ho as [->| ->]; simpl in Hp; [done|]. by destruct Hp as (? & ? & _).
Qed.

Lemma insert_producer_cases (ps : list (producer cell)) i p j pj : <[i := p]> ps !! j = Some pj ->
  (j = i /\ pj = p) \/ (j <> i /\ ps !! j = Some pj).
Proof.
  intros Hj. apply list_lookup_insert_Some in Hj as [(-> & <- & _)|(Hne & Hj)]; [by left|right].
  split; [congruence|done].
Qed.

Lemma owns_functional (p : producer cell) x1 x2 c1 c2 : owns p x1 c1 -> owns p x2 c2 -> x1 = x2.
Proof. intros [-> | ->] [E|E]; congruence. Qed.

Lemma producer_at (ps : list (producer cell)) i p0 p : ps !! i = Some p0 -> <[i := p]> ps !! i = Some p.
Proof. intros Hi. apply list_lookup_insert_eq. by eapply lookup_lt_Some. Qed.

(** A change of producer [i] from [p0] to [p] keeps the owners of every other
    position. *)
Lemma owners_kept q i p0 p position : producers q !! i = Some p0 ->
  (forall c, owns p0 position c -> exists c', owns p position c') ->
  (exists j pj c, producers q !! j = Some pj /\ owns pj position c) ->
  exists j pj c, <[i := p]> (producers q) !! j = Some pj /\ owns pj position c.
Proof.
  intros Hi Hkeep (j & pj & c & Hj & Ho). destruct (decide (j = i)) as [->|Hne].
  - simplify_eq. destruct (Hkeep c Ho) as [c' Hc']. exists i, p, c'. split; [by eapply producer_at|done].
  - exists j, pj, c. split; [by rewrite list_lookup_insert_ne|done].
Qed.

(** Changing what one producer does next, when it owns nothing before or after. *)
Lemma set_producer_inv q i p0 p : queue_source_inv q -> producers q !! i = Some p0 ->
  (forall position c, ~ owns p0 position c) -> (forall position c, ~ owns p position c) ->
  producer_ok q p -> queue_source_inv (set_producer q i p).
Proof.
  intros (Hc & Hl & Hd & He & H64 & Ha & Ht & Hp & Hu & Hs & Hk & Hw) Hi Hno0 Hno Hok.
  unfold queue_source_inv. simpl. split_and!; try done; try lia.
  - intros j pj [[-> ->]|[_ Hj]]%insert_producer_cases; [by destruct p|].
    specialize (Hp j pj Hj). by destruct pj.
  - intros i1 i2 p1 p2 position c1 c2 [[-> ->]|[_ H1]]%insert_producer_cases
      [[-> ->]|[_ H2]]%insert_producer_cases Ho1 Ho2; [done|..|by eauto]; exfalso; by eapply Hno.
  - intros j s Hj. destruct (Hs j s Hj) as [H0|(position & E & Hb & Hj' & Hown & Hcell)]; [by left|right].
    exists position. simpl. split_and!; try done; try lia.
    intros i' p' c [[-> ->]|[_ Hi']]%insert_producer_cases; [apply Hno|by eauto].
  - intros position Hb. destruct (Hw position Hb) as [Ho|Hm]; [left|by right].
    apply (owners_kept q i p0); [done| |done]. intros c Ho'. by apply Hno0 in Ho'.
Qed.

Lemma set_consumer_inv q k : queue_source_inv q -> consumer_ok (set_consumer q k) ->
  queue_source_inv (set_consumer q k).
Proof.
  intros (Hc & Hl & Hd & He & H64 & Ha & Ht & Hp & Hu & Hs & Hk & Hw) Hok.
  unfold queue_source_inv. simpl. split_and!; try done; try lia.
Qed.

(** Reserving the next position. *)
Lemma cas_inv q i c consumed : queue_source_inv q ->
  producers q !! i = Some (PChecked c (enqueue q) consumed) ->
  u64 (enqueue q - consumed) < qcapacity q -> enqueue q + 1 < 2 ^ 64 ->
  queue_source_inv
    (mkQueueSource (qcapacity q) (slots q) (enqueue q + 1) (dequeue q)
       (<[i := PReserved c (enqueue q)]> (producers q)) (the_consumer q) (assigned q ++ [c]) (taken q)).
Proof.
  intros Hinv Hi Hroom H64'. pose proof Hinv as (Hc & Hl & Hd & He & H64 & Ha & Ht & Hp & Hu & Hs & Hk & Hw).
  pose proof (Hp i _ Hi) as [_ Hcon]. rewrite wrapu_small in Hroom by (unfold fits; lia).
  assert (forall k x, assigned q !! k = Some x -> (assigned q ++ [c]) !! k = Some x) as Hmono
    by (intros; by apply lookup_app_l_Some).
  unfold queue_source_inv. simpl. split_and!; try done; try lia.
  - rewrite length_app. simpl. lia.
  - rewrite take_app_le by lia. done.
  - intros j pj [[-> ->]|[Hne Hj]]%insert_producer_cases; simpl.
    + split; [lia|]. rewrite lookup_app_r by lia.
      replace (Z.to_nat (enqueue q) - length (assigned q))%nat with 0%nat by lia. done.
    + specialize (Hp j pj Hj). destruct pj; simpl in *; try done; try lia.
      * destruct Hp. split; [lia|auto].
      * destruct Hp as (? & ? & ?). split_and!; [lia|lia|auto|done].
  - intros i1 i2 p1 p2 position c1 c2 [[-> ->]|[Hn1 H1]]%insert_producer_cases [[-> ->]|[Hn2 H2]]%insert_producer_cases Ho1 Ho2; [done|..|by eauto].
    + destruct Ho1 as [[= _ <-]|]; [|done]. apply (owns_bounds q i2 p2) in Ho2; [lia|done..].
    + destruct Ho2 as [[= _ <-]|]; [|done]. apply (owns_bounds q i1 p1) in Ho1; [lia|done..].
  - intros j s Hj. destruct (Hs j s Hj) as [H0|(position & E & Hb & Hj' & Hown & Hcell)]; [by left|right].
    exists position. simpl. split_and!; try done; try lia; [|by auto].
    intros i' p' c' [[-> ->]|[Hne Hi']]%insert_producer_cases; [|by eauto]. intros [[= _ Heq]|]; [lia|done].
  - unfold consumer_ok in *. simpl. destruct (the_consumer q); try done.
    + destruct Hk. split; [done|lia].
    + destruct Hk as (? & ? & ?). split_and!; [done|lia|done].
    + destruct Hk as (? & ? & ? & ?). split_and!; [done|lia|auto|done].
  - intros position Hb. destruct (decide (position = enqueue q)) as [->|Hne].
    + left. exists i, (PReserved c (enqueue q)), c. split; [by eapply producer_at|by left].
    + destruct (Hw position ltac:(lia)) as [Ho|Hm]; [left|by right].
      eapply owners_kept; [done| |done]. by intros ? [|].
Qed.

(** Writing to the slot of an owned position touches nothing that is read. *)
Lemma owned_slot_private q i p position c s : queue_source_inv q -> producers q !! i = Some p ->
  owns p position c -> slots q !! slot_of q position = Some s ->
  (forall position', published s = position' + 1 -> ~ dequeue q <= position') /\
  (forall i' p' position' c', producers q !! i' = Some p' -> owns p' position' c' ->
     slot_of q position' = slot_of q position -> i' = i).
Proof.
  intros Hinv Hi Ho Hs. pose proof (owns_bounds q i p position c Hinv Hi Ho) as [Hb _].
  pose proof Hinv as (_ & _ & Hd & _ & _ & _ & _ & _ & Hu & Hslots & _ & _).
  assert (forall position', published s = position' + 1 -> ~ dequeue q <= position') as Hold.
  { intros position' E Hle. destruct (Hslots _ _ Hs) as [H0|(x & E' & Hx & Hj & Hown & _)]; [lia|].
    assert (x = position') as -> by lia.
    assert (position' = position) as -> by (apply (slot_of_inj q); [done|lia|lia|done]).
    by apply (Hown i p c Hi). }
  split; [done|].
  intros i' p' position' c' Hi' Ho' E.
  pose proof (owns_bounds q i' p' position' c' Hinv Hi' Ho') as [Hb' _].
  assert (position' = position) as -> by (by apply (slot_of_inj q)).
  by apply (Hu i' i p' p position c' c).
Qed.

(** A producer's write to the slot it owns, with the producer's next state. *)
Lemma write_slot_inv q i p p' position c s s' : queue_source_inv q -> producers q !! i = Some p ->
  owns p position c -> slots q !! slot_of q position = Some s ->
  (forall x c', owns p' x c' -> owns p x c') ->
  (owns p' position c \/ published s' = position + 1) ->
  producer_ok (set_producer (set_slot q position s') i p') p' ->
  slot_ok (set_producer (set_slot q position s') i p') (slot_of q position) s' ->
  queue_source_inv (set_producer (set_slot q position s') i p').
Proof.
  intros Hinv Hi Ho Hslot Hsub Hpend Hpok Hsok.
  pose proof (owned_slot_private q i p position c s Hinv Hi Ho Hslot) as [Hold Hpriv].
  pose proof (owns_bounds q i p position c Hinv Hi Ho) as [Hb _].
  pose proof Hinv as (Hc & Hl & Hd & He & H64 & Ha & Ht & Hp & Hu & Hs & Hk & Hw).
  unfold queue_source_inv. simpl. split_and!; try done; try lia.
  - by rewrite length_insert.
  - intros j pj [[-> ->]|[Hne Hj]]%insert_producer_cases; [done|].
    pose proof (Hp j pj Hj) as Hpj. destruct pj; simpl in *; try done.
    destruct Hpj as (? & ? & m & Hm). split_and!; [lia|lia|done|]. exists m.
    change (slot_of (set_producer _ _ _)) with (slot_of q).
    rewrite list_lookup_insert_ne; [done|]. intros E. apply Hne.
    eapply (Hpriv j); [done|by right|by symmetry].
  - intros i1 i2 p1 p2 x c1 c2 [[-> ->]|[_ H1]]%insert_producer_cases
      [[-> ->]|[_ H2]]%insert_producer_cases Ho1 Ho2; [done|..]; eauto.
  - intros j sj Hj. apply list_lookup_insert_Some in Hj as [(<- & <- & _)|(Hne & Hj)]; [done|].
    destruct (Hs j sj Hj) as [H0|(x & E & Hx & Hj' & Hown & Hcell)]; [by left|right].
    exists x. simpl. split_and!; try done; try lia.
    intros i' p'' c' [[-> ->]|[_ Hi']]%insert_producer_cases; [|by eauto].
    intros Ho'. apply Hsub in Ho'. by eapply Hown.
  - assert (forall x sx, slots q !! slot_of q x = Some sx -> published sx = x + 1 -> dequeue q <= x ->
       <[slot_of q position := s']> (slots q) !! slot_of q x = Some sx) as Hread.
    { intros x sx Hsx E Hx. rewrite list_lookup_insert_ne; [done|]. intros E'. rewrite E' in Hslot.
      simplify_eq. by apply (Hold x). }
    unfold consumer_ok in *. simpl. destruct (the_consumer q) as [| | |x|x cx]; try done.
    + destruct Hk as (-> & ? & sx & ? & ?). split_and!; [done|done|]. exists sx. split; [|done].
      apply Hread; [done|done|lia].
    + destruct Hk as (-> & ? & ? & sx & ? & ?). split_and!; [done|done|done|]. exists sx. split; [|done].
      apply Hread; [done|done|lia].
  - intros x Hx. destruct (decide (x = position)) as [->|Hne].
    + destruct Hpend as [Ho'|Hm]; [left|right].
      * exists i, p', c. split; [by eapply producer_at|done].
      * exists s'. split; [|done]. apply list_lookup_insert_eq. apply slot_of_lt; [done|lia].
    + destruct (Hw x Hx) as [Hown|(sx & Hsx & E)]; [left|right].
      * eapply (owners_kept (set_slot q position s')); [done| |done].
        intros c' Ho'. destruct Hne. by eapply owns_functional.
      * exists sx. split; [|done]. simpl. rewrite list_lookup_insert_ne; [done|].
        intros E'. destruct Hne. symmetry. apply (slot_of_inj q); [done|lia|lia|done].
Qed.

(** The consumer's release of the slot it has copied. *)
Lemma store_inv q position c : queue_source_inv q -> the_consumer q = CCopied position c ->
  queue_source_inv
    (mkQueueSource (qcapacity q) (slots q) (enqueue q) (position + 1) (producers q) CIdle
       (assigned q) (taken q ++ [c])).
Proof.
  intros Hinv Hcon. pose proof Hinv as (Hc & Hl & Hd & He & H64 & Ha & Ht & Hp & Hu & Hs & Hk & Hw).
  unfold consumer_ok in Hk. rewrite Hcon in Hk. destruct Hk as (-> & Hlt & Hcell & s & Hslot & Hmark).
  assert (forall i p c', producers q !! i = Some p -> ~ owns p (dequeue q) c') as Hfree.
  { destruct (Hs _ _ Hslot) as [|(x & E & _ & _ & Hown & _)]; [lia|].
    assert (x = dequeue q) as -> by lia. done. }
  unfold queue_source_inv. simpl. split_and!; try done; try lia.
  - rewrite Ht. replace (Z.to_nat (dequeue q + 1)) with (S (Z.to_nat (dequeue q))) by lia.
    symmetry. by apply take_S_r.
  - intros i p Hi. pose proof (Hp i p Hi) as Hpi.
    destruct p as [| | | |c' x|c' x]; simpl in *; try done; try lia;
      (assert (x <> dequeue q) by (intros ->; apply (Hfree i _ c' Hi); unfold owns; auto)).
    + destruct Hpi. split; [lia|done].
    + destruct Hpi as (? & ? & ?). split_and!; [lia|lia|done|done].
  - intros j sj Hj. destruct (Hs j sj Hj) as [H0|(x & E & Hx & Hj' & Hown & Hheld)]; [by left|right].
    exists x. simpl. split_and!; try done; try lia. intros ?. apply Hheld. lia.
  - intros x Hx. apply Hw. lia.
Qed.

Lemma queue_step_inv q q' : queue_source_inv q -> queue_step q q' -> queue_source_inv q'.
Proof.
  intros Hinv Hstep. pose proof Hinv as (Hc & Hl & Hd & He & H64 & Ha & Ht & Hp & Hu & Hs & Hk & Hw).
  destruct Hstep as [q i c Hi|q i c Hi|q i c x Hi|q i c x y Hi Hfull|q i c x y Hi Hroom Hlost|
    q i c x y Hi Hroom Hwon Hmax|q i c x s torn Hi Hx|q i c x s Hi Hx|q i c x s Hi Hx|
    q Hcon|q x Hcon Hx|q x Hcon Hx|q x s Hcon Hx Hn|q x s Hcon Hx Hn|q x s Hcon Hx|q x c Hcon];
    try (pose proof (Hp i _ Hi) as Hpi; simpl in Hpi);
    try (eapply set_producer_inv; [done|exact Hi|by intros ? ? [|]|by intros ? ? [|]|simpl; lia]).
  - subst x. by eapply cas_inv.
  - eapply (write_slot_inv q i (PReserved c x)); [done|done|by left|done|done|by left; left|done|].
    destruct (owned_slot_private q i _ x c s Hinv Hi ltac:(by left) Hx) as [Hold _].
    destruct (Hs _ _ Hx) as [H0|(y & E & Hy & Hj & Hown & Hcell)]; [by left|right].
    exists y. simpl. split_and!; try done; try lia; [|by intros ?%(Hold y)].
    intros i' p' c' Hi'. rewrite list_insert_id in Hi' by done. by eapply Hown.
  - eapply (write_slot_inv q i (PReserved c x)); [done|done|by left|done| |by left; right| |].
    + intros ? ? [|[= -> ->]]; [done|by left].
    + destruct Hpi. simpl. split_and!; [lia|lia|done|]. exists (published s). simpl.
      apply list_lookup_insert_eq. apply slot_of_lt; [done|lia].
    + destruct (owned_slot_private q i _ x c s Hinv Hi ltac:(by left) Hx) as [Hold _].
      destruct (Hs _ _ Hx) as [H0|(y & E & Hy & Hj & Hown & Hcell)]; [by left|right].
      exists y. simpl. split_and!; try done; try lia; [|by intros ?%(Hold y)].
      intros i' p' c' [[-> ->]|[_ Hi']]%insert_producer_cases; [|by eauto].
      intros [|[= _ ->]]; [done|]. eapply (Hown i); [done|by left].
  - eapply (write_slot_inv q i (PWrote c x)); [done|done|by right|done|by intros ? ? [|]|by right|done|].
    destruct Hpi as (Hb & Hcell & m & Hm). right. exists x. simpl. split_and!; try done; try lia.
    + intros i' p' c' [[-> ->]|[Hne Hi']]%insert_producer_cases; [by intros [|]|].
      intros Ho. apply Hne. eapply (Hu i' i); [done|done|done|by right].
    + intros _. rewrite Hm in Hx. by simplify_eq.
  - by apply set_consumer_inv.
  - by apply set_consumer_inv.
  - apply set_consumer_inv; [done|]. unfold consumer_ok in *. rewrite Hcon in Hk. simpl. by split.
  - by apply set_consumer_inv.
  - apply set_consumer_inv; [done|]. unfold consumer_ok in *. rewrite Hcon in Hk. simpl.
    destruct Hk. split_and!; [done|done|by exists s].
  - apply set_consumer_inv; [done|]. unfold consumer_ok in *. rewrite Hcon in Hk. simpl.
    destruct Hk as (-> & ? & s' & Hs' & Hm). rewrite Hx in Hs'. simplify_eq.
    split_and!; [done|done| |by exists s'].
    destruct (Hs _ _ Hx) as [H0|(y & E & Hy & Hj & Hown & Hcell)]; [lia|].
    assert (y = dequeue q) as -> by lia. by apply Hcell.
  - by apply store_inv.
Qed.

Lemma NewQueueSource_inv capacity zero threads q :
  NewQueueSource capacity zero threads = Some q -> queue_source_inv q.
Proof.
  unfold NewQueueSource. destruct (capacity <? 1) eqn:Hc; [done|]. intros [= <-].
  unfold queue_source_inv. simpl. split_and!; try done; try lia.
  - by rewrite length_replicate.
  - intros i p [-> _]%lookup_replicate. done.
  - intros i1 i2 p1 p2 x c1 c2 [-> _]%lookup_replicate. by intros _ [|].
  - intros j s [-> _]%lookup_replicate. by left.
Qed.

Lemma queue_reachable_inv capacity zero threads q :
  queue_reachable capacity zero threads q -> queue_source_inv q.
Proof. induction 1; [by eapply NewQueueSource_inv|by eapply queue_step_inv]. Qed.

(** Nothing stands between the consumer and a cell whose producer has returned:
    with no reservation open, the next position's slot carries its mark and the
    cell that was assigned to it. *)
Lemma settled_head q : queue_source_inv q -> dequeue q < enqueue q ->
  (forall i p x c, producers q !! i = Some p -> ~ owns p x c) ->
  exists s, slots q !! slot_of q (dequeue q) = Some s /\ published s = dequeue q + 1 /\
    assigned q !! Z.to_nat (dequeue q) = Some (content s).
Proof.
  intros (Hc & Hl & Hd & He & H64 & Ha & Ht & Hp & Hu & Hs & Hk & Hw) Hlt Hfree.
  destruct (Hw (dequeue q) ltac:(lia)) as [(i & p & c & Hi & Ho)|(s & Hslot & Hm)]; [by destruct (Hfree i p _ c Hi Ho)|].
  exists s. split_and!; [done|done|].
  destruct (Hs _ _ Hslot) as [|(y & E & Hy & Hj & Hown & Hcell)]; [lia|].
  assert (y = dequeue q) as -> by lia. by apply Hcell.
Qed.
End queue_proofs.

(** In every state the work queue can reach, under any interleaving of any
    number of producers with the one consumer, and although the copy of a cell
    into its slot is not atomic: the cells handed to the scheduler are a prefix
    of the cells accepted, in the order their positions were reserved, whole
    and once each; at most [capacity] accepted cells are waiting; and once no
    producer is between reserving and publishing, the oldest waiting cell is
    in its slot, marked, ready for the next call of [NextCell]. *)
Theorem mpsc_fifo {cell : Type} capacity (zero : cell) threads q :
  queue_reachable capacity zero threads q ->
  assigned q = taken q ++ drop (Z.to_nat (dequeue q)) (assigned q) /\
  len (taken q) = dequeue q /\ len (assigned q) = enqueue q /\
  0 <= enqueue q - dequeue q <= qcapacity q /\
  (dequeue q < enqueue q -> (forall i p x c, producers q !! i = Some p -> ~ owns p x c) ->
   exists s, slots q !! slot_of q (dequeue q) = Some s /\ published s = dequeue q + 1 /\
     assigned q !! Z.to_nat (dequeue q) = Some (content s)).
Proof.
  intros Hinv%queue_reachable_inv.
  pose proof Hinv as (Hc & Hl & Hd & He & H64 & Ha & Ht & Hp & Hu & Hs & Hk & Hw).
  split_and!; try lia.
  - by rewrite Ht, take_drop.
  - rewrite Ht, length_take. lia.
  - intros Hlt Hfree. by apply settled_head.
Qed.

(** Extends a run [R] by one operation, whose side conditions compute. *)
Tactic Notation "run_step" hyp(R) uconstr(step) :=
  eapply queue_steps in R; [|eapply step; reflexivity]; cbn -[Z.pow] in R.

(** Enqueue by thread [i] from a call to the publication, uncontended. *)
Ltac run_enqueue R i c :=
  run_step R (enqueue_call _ i c);
  run_step R (enqueue_load _ i);
  run_step R (enqueue_load_dequeue _ i);
  run_step R (enqueue_cas _ i);
  run_step R (enqueue_copied _ i);
  run_step R (enqueue_publish _ i).

Ltac run_next R :=
  run_step R next_call; run_step R next_reserved; run_step R next_published;
  run_step R next_copy; run_step R next_store.

Lemma mpsc_fifo_witness : exists q : QueueSource nat,
  queue_reachable 2 0%nat 1 q /\ taken q = [7]%nat /\ assigned q = [7; 8]%nat /\
  assigned q = taken q ++ drop (Z.to_nat (dequeue q)) (assigned q).
Proof.
  pose proof (queue_start 2 0%nat 1 _ eq_refl) as R. cbn in R.
  run_enqueue R 0%nat 7%nat. run_enqueue R 0%nat 8%nat. run_next R.
  eexists. split; [exact R|]. split; [reflexivity|]. split; [reflexivity|].
  exact (proj1 (mpsc_fifo _ _ _ _ R)).
Defined.

(** [Enqueue] can refuse a cell although the queue is empty.  The producer
    loads [enqueue] first and [dequeue] second; when other producers' cells are
    accepted and consumed between the two loads, [position-consumed] is negative
    and, in 64-bit arithmetic, wraps to a number no capacity exceeds, so the test for
    room fails before the compare-and-swap could notice the stale position. *)
Theorem Enqueue_spurious_refusal : exists (q : QueueSource nat) i c position consumed,
  queue_reachable 1 0%nat 2 q /\ enqueue q = dequeue q /\
  producers q !! i = Some (PChecked c position consumed) /\
  qcapacity q <= u64 (position - consumed) /\
  queue_step q (set_producer q i PIdle).
Proof.
  pose proof (queue_start 1 0%nat 2 _ eq_refl) as R. cbn in R.
  run_step R (enqueue_call _ 0%nat 9%nat). run_step R (enqueue_load _ 0%nat).
  run_enqueue R 1%nat 7%nat. run_next R.
  run_step R (enqueue_load_dequeue _ 0%nat).
  eexists _, 0%nat, 9%nat, 0, 1. split; [exact R|]. split_and!; [done|done|by vm_compute|].
  eapply (enqueue_full _ 0%nat); [done|by vm_compute].
Qed.
