(* ===== verification/Scheduler.v ===== *)
(** The fixed-cadence scheduler of the constant-rate fabric
    ([components/nomad-constant-rate-fabric/fabric/scheduler.go]) and the cover
    source of [cell.go].

    Sources and sinks are the two interfaces of the code, as type classes with
    explicit state.  The world outside (the clock, the timer, the context) is a
    stream of observations read in order; [tick] counts the observations made.
    A run is followed for a number of loop iterations ([fuel]) and a number of
    passes of each spin loop ([patience]); [OutOfFuel] says the run was still
    going when it was left. *)

From stdpp Require Import base list list_numbers.
From Stdlib Require Import ZArith Lia Sorted.
From S2P Require Import Prelude.

(** Instants and durations are nanoseconds. *)
Definition Millisecond : Z := 1000000.

(** ** Configuration *)

Record Config := mkConfig {
  Epoch : Z;
  CellsPerEpoch : Z;
  MaxLateness : Z;
  DeadlineSpin : Z;
}.

Inductive config_error :=
| epoch_not_positive
| cells_not_positive
| epoch_too_short
| epoch_not_divisible
| lateness_negative
| spin_negative
| spin_too_long.

(** The duration division truncates. *)
Definition CellInterval (c : Config) : Z :=
  if CellsPerEpoch c <=? 0 then 0 else Z.quot (Epoch c) (CellsPerEpoch c).

(** [None] is the nil error. *)
Definition Validate (c : Config) : option config_error :=
  if Epoch c <=? 0 then Some epoch_not_positive
  else if CellsPerEpoch c <=? 0 then Some cells_not_positive
  else if CellInterval c <=? 0 then Some epoch_too_short
  else if negb (Z.rem (Epoch c) (CellsPerEpoch c) =? 0) then Some epoch_not_divisible
  else if MaxLateness c <? 0 then Some lateness_negative
  else if DeadlineSpin c <? 0 then Some spin_negative
  else if CellInterval c <=? DeadlineSpin c then Some spin_too_long
  else None.

Definition DeadlineSpinFor (interval : Z) : Z :=
  let nominal := 2 * Millisecond in
  if interval <=? 0 then 0
  else let quarter := Z.quot interval 4 in if quarter <? nominal then quarter else nominal.

Definition CellSize : Z := 1200.

(** The planned byte count per accounting epoch. *)
Definition EpochTrace (cfg : Config) (epochs : Z) : option (list Z) :=
  match Validate cfg with
  | Some _ => None
  | None => if epochs <? 0 then None
            else Some (replicate (Z.to_nat epochs) (CellsPerEpoch cfg * CellSize))
  end.

(** ** Sources and sinks *)

Inductive cell_error :=
| ErrCellDropped
| ErrNoWork
| FillerRequired
| OtherError (code : Z).

(** [errors.Is(err, ErrCellDropped)]. *)
Definition is_dropped (err : cell_error) : bool :=
  match err with ErrCellDropped => true | _ => false end.

Class Source (cell state : Type) := NextCell : state -> state * (cell + cell_error).
Class Sink (cell state : Type) := Send : state -> cell -> state * option cell_error.

Record CoverSource (work filler : Type) := mkCoverSource {
  Work : option work;
  Filler : option filler;
  fallback : Z;
}.
Arguments mkCoverSource {work filler}.
Arguments Work {work filler}.
Arguments Filler {work filler}.
Arguments fallback {work filler}.

(** The end of [CoverSource.NextCell]: the filler, counted. *)
Definition next_filler {cell work filler} `{Source cell filler} (w : option work) (f : filler) (count : Z) :
  CoverSource work filler * (cell + cell_error) :=
  let '(f', result) := NextCell f in (mkCoverSource w (Some f') (u64 (count + 1)), result).

#[export] Instance CoverSource_Source {cell work filler} `{Source cell work, Source cell filler} :
  Source cell (CoverSource work filler) := fun s =>
  match Filler s with
  | None => (s, inr FillerRequired)
  | Some f =>
      match Work s with
      | None => next_filler None f (fallback s)
      | Some w =>
          match NextCell w with
          | (w', inl c) => (mkCoverSource (Some w') (Some f) (fallback s), inl c)
          | (w', inr _) => next_filler (Some w') f (fallback s)
          end
      end
  end.

Definition Fallbacks {work filler} (s : CoverSource work filler) : Z := fallback s.

(** ** The run *)

(** What the scheduler reads from outside: the [n]-th observation is a clock
    reading, the winner of a select between the timer and the context, or the
    context's error, whichever the code asks for. *)
Record Env := mkEnv {
  now : nat -> Z;
  timer_first : nat -> bool;
  ctx_done : nat -> bool;
}.

Inductive run_error :=
| ErrDeadlineMissed
| ContextDone
| EmitFailed (err : cell_error).

Inductive status :=
| Returned (err : option run_error)
| OutOfFuel.

Inductive wait_result := WReached | WCancelled | WStillWaiting.

(** The spin to the deadline: a clock reading and a context check per pass. *)
Fixpoint spin_until (e : Env) (patience : nat) (tick : nat) (deadline : Z) : nat * wait_result :=
  match patience with
  | O => (tick, WStillWaiting)
  | S patience =>
      if now e tick <? deadline then
        if ctx_done e (S tick) then (S (S tick), WCancelled)
        else spin_until e patience (S (S tick)) deadline
      else (S tick, WReached)
  end.

Definition waitUntil (e : Env) (patience : nat) (tick : nat) (deadline spin : Z) : nat * wait_result :=
  let delay := deadline - now e tick - spin in
  if 0 <? delay then
    if timer_first e (S tick) then spin_until e patience (S (S tick)) deadline
    else (S (S tick), WCancelled)
  else spin_until e patience (S tick) deadline.

(** One cell handed to the sink: the slot it belongs to, that slot's deadline
    and the last clock reading before the send. *)
Record emission (cell : Type) := mkEmission {
  slot : Z;
  deadline : Z;
  instant : Z;
  body : cell;
}.
Arguments mkEmission {cell}.
Arguments slot {cell}.
Arguments deadline {cell}.
Arguments instant {cell}.
Arguments body {cell}.

(** The variables of [run], the scheduler's counter, and two records kept for
    the statements: the calls made to the source and the cells sent. *)
Record run_state (cell src snk : Type) := mkRun {
  tick : nat;
  source : src;
  sink : snk;
  dropped : Z;
  next : Z;
  emitted : Z;
  prefetched : cell + cell_error;
  calls : nat;
  emissions : list (emission cell);
}.
Arguments mkRun {cell src snk}.
Arguments tick {cell src snk}.
Arguments source {cell src snk}.
Arguments sink {cell src snk}.
Arguments dropped {cell src snk}.
Arguments next {cell src snk}.
Arguments emitted {cell src snk}.
Arguments prefetched {cell src snk}.
Arguments calls {cell src snk}.
Arguments emissions {cell src snk}.

(** [NewScheduler]: an invalid configuration, a missing source and a missing
    sink are refused. *)
Definition NewScheduler {src snk : Type} (cfg : Config) (s : option src) (k : option snk) :
  option (Config * src * snk) :=
  match Validate cfg, s, k with
  | None, Some s, Some k => Some (cfg, s, k)
  | _, _, _ => None
  end.

Section run.
Context {cell src snk : Type} `{Source cell src, Sink cell snk}.
Context (cfg : Config) (e : Env) (patience : nat).

Definition EmitOne (s : src) (k : snk) : src * snk * option cell_error :=
  match NextCell s with
  | (s', inr err) => (s', k, Some err)
  | (s', inl c) => let '(k', err) := Send k c in (s', k', err)
  end.

Definition allowed : Z := if MaxLateness cfg =? 0 then CellInterval cfg else MaxLateness cfg.

Definition set_tick (r : run_state cell src snk) (t : nat) : run_state cell src snk :=
  mkRun t (source r) (sink r) (dropped r) (next r) (emitted r) (prefetched r) (calls r) (emissions r).

(** The send of the slot whose deadline was reached at clock reading [t]. *)
Definition send_slot (r : run_state cell src snk) (t : nat) : run_state cell src snk * option cell_error :=
  match prefetched r with
  | inr err => (set_tick r (S t), Some err)
  | inl c =>
      let '(k, err) := Send (sink r) c in
      (mkRun (S t) (source r) k (dropped r) (next r) (emitted r) (prefetched r) (calls r)
         (emissions r ++ [mkEmission (emitted r) (next r) (now e t) c]), err)
  end.

(** The end of an iteration, after a send that did not stop the run: count a
    drop, advance the deadline, check the clock, and build the next cell if
    another slot is coming. *)
Definition finish_slot (count : Z) (r : run_state cell src snk) (was_dropped : bool) :
  run_state cell src snk * option status :=
  let t := tick r in
  let dropped' := if was_dropped then u64 (dropped r + 1) else dropped r in
  let next' := next r + CellInterval cfg in
  if negb (now e t <? next') then
    (mkRun (S t) (source r) (sink r) dropped' next' (emitted r) (prefetched r) (calls r) (emissions r),
     Some (Returned (Some ErrDeadlineMissed)))
  else
    let '(s, p, n) :=
      if (count <? 0) || (emitted r + 1 <? count)
      then let '(s', p') := NextCell (source r) in (s', p', S (calls r))
      else (source r, prefetched r, calls r) in
    (mkRun (S t) s (sink r) dropped' next' (emitted r + 1) p n (emissions r), None).

(** One iteration of the loop: [None] means the loop goes on. *)
Definition run_slot (count : Z) (r : run_state cell src snk) : run_state cell src snk * option status :=
  match waitUntil e patience (tick r) (next r) (DeadlineSpin cfg) with
  | (t, WStillWaiting) => (set_tick r t, Some OutOfFuel)
  | (t, WCancelled) => (set_tick r t, Some (Returned (Some ContextDone)))
  | (t, WReached) =>
      if allowed <? now e t - next r then (set_tick r (S t), Some (Returned (Some ErrDeadlineMissed)))
      else
        match send_slot r t with
        | (r', None) => finish_slot count r' false
        | (r', Some err) =>
            if is_dropped err then finish_slot count r' true
            else (r', Some (Returned (Some (EmitFailed err))))
        end
  end.

Fixpoint run_loop (fuel : nat) (count : Z) (r : run_state cell src snk) : run_state cell src snk * status :=
  match fuel with
  | O => (r, OutOfFuel)
  | S fuel =>
      if (count <? 0) || (emitted r <? count) then
        match run_slot count r with
        | (r', Some st) => (r', st)
        | (r', None) => run_loop fuel count r'
        end
      else (r, Returned None)
  end.

(** The state in which the loop is entered: one cell built, the first deadline
    one interval after the first clock reading. *)
Definition run_start (s : src) (k : snk) : run_state cell src snk :=
  let '(s', p) := NextCell s in
  mkRun 1 s' k 0 (now e 0 + CellInterval cfg) 0 p 1 [].

Definition run (fuel : nat) (count : Z) (s : src) (k : snk) : option (run_state cell src snk) * status :=
  if count =? 0 then (None, Returned None)
  else let '(r, st) := run_loop fuel count (run_start s k) in (Some r, st).

Definition Run (fuel : nat) := run fuel (-1).

(** [None] is the refusal of a negative count. *)
Definition RunCells (fuel : nat) (count : Z) (s : src) (k : snk) :=
  if count <? 0 then None else Some (run fuel count s k).

Definition Dropped (r : run_state cell src snk) : Z := dropped r.
End run.

(** ** The clock *)

(** [time.Now] carries a monotonic reading. *)
Definition monotone (e : Env) : Prop := forall m n, (m <= n)%nat -> now e m <= now e n.

(** The clock passes every instant. *)
Definition advances (e : Env) : Prop := forall t, exists n, t <= now e n.

Lemma spin_until_reached e patience t d t' : spin_until e patience t d = (t', WReached) ->
  (t < t')%nat /\ d <= now e (Nat.pred t').
Proof.
  revert t. induction patience as [|patience IH]; intros t; simpl; [done|].
  destruct (now e t <? d) eqn:Hd.
  - destruct (ctx_done e (S t)); [done|]. intros [? ?]%IH. split; [lia|done].
  - intros [= <-]. simpl. split; lia.
Qed.

Lemma waitUntil_reached e patience t d spin t' : waitUntil e patience t d spin = (t', WReached) ->
  (t < t')%nat /\ d <= now e (Nat.pred t').
Proof.
  unfold waitUntil. destruct (0 <? _); [destruct (timer_first _ _); [|done]|];
    intros [? ?]%spin_until_reached; split; try done; lia.
Qed.

(** Once the clock has passed the deadline after [n] observations, [n + 1]
    passes are enough. *)
Lemma spin_until_enough e patience t d n : monotone e -> d <= now e n -> (0 < patience)%nat ->
  (n < t + patience)%nat -> snd (spin_until e patience t d) <> WStillWaiting.
Proof.
  intros Hm Hn. revert t. induction patience as [|patience IH]; intros t Hp Hle; [lia|simpl].
  destruct (now e t <? d) eqn:Hd; [|done]. destruct (ctx_done e (S t)); [done|].
  assert (t < n)%nat. { apply not_ge. intros ?. pose proof (Hm n t ltac:(lia)). lia. }
  apply IH; lia.
Qed.

Lemma waitUntil_enough e patience t d spin n : monotone e -> d <= now e n -> (n < patience)%nat ->
  snd (waitUntil e patience t d spin) <> WStillWaiting.
Proof.
  intros Hm Hn Hp. unfold waitUntil.
  destruct (0 <? _); [destruct (timer_first _ _); [|done]|];
    apply (spin_until_enough e patience _ d n); try done; lia.
Qed.

(** ** What a run emits *)

Section run_proofs.
Context {cell src snk : Type} `{Source cell src, Sink cell snk}.
Context (cfg : Config) (e : Env) (patience : nat).

(** The state of the source after [n] calls, and the result of call [n]. *)
Fixpoint source_after (n : nat) (s : src) : src :=
  match n with O => s | S n => fst (NextCell (source_after n s)) end.
Definition source_nth (s : src) (n : nat) : cell + cell_error := snd (NextCell (source_after n s)).

Lemma source_after_S n s : source_after (S n) s = fst (NextCell (source_after n s)).
Proof. done. Qed.

(** The cells the source produced in its first [n] calls, each with its call's
    number. *)
Definition produced (s : src) (n : nat) : list (Z * cell) :=
  omap (fun i => match source_nth s i with inl c => Some (Z.of_nat i, c) | inr _ => None end) (seq 0 n).

Lemma produced_S s n : produced s (S n) =
  produced s n ++ match source_nth s n with inl c => [(Z.of_nat n, c)] | inr _ => [] end.
Proof.
  unfold produced. rewrite seq_S, omap_app. simpl. by destruct (source_nth s n).
Qed.

(** An emission keeps to its slot: the slot's deadline is fixed by the start
    and the interval, and the cell leaves between the deadline and the allowed
    lateness after it. *)
Definition on_time (start : Z) (em : emission cell) : Prop :=
  0 <= slot em /\ deadline em = start + (slot em + 1) * CellInterval cfg /\
  deadline em <= instant em <= deadline em + allowed cfg.

(** No two emissions share a slot, and each leaves before the next one's
    deadline. *)
Definition separate (a b : emission cell) : Prop := slot a < slot b /\ instant a < deadline b.

Definition trace_ok (start : Z) (l : list (emission cell)) : Prop :=
  Forall (on_time start) l /\ StronglySorted separate l.

Definition sent (l : list (emission cell)) : list (Z * cell) := (fun em => (slot em, body em)) <$> l.

(** At the head of the loop. *)
Definition loop_inv (count : Z) (s0 : src) (r : run_state cell src snk) : Prop :=
  let more := (count <? 0) || (emitted r <? count) in
  let n := Z.to_nat (emitted r) in
  next r = now e 0 + (emitted r + 1) * CellInterval cfg /\ 0 <= emitted r /\
  (0 <= count -> emitted r <= count) /\
  trace_ok (now e 0) (emissions r) /\
  Forall (fun em => slot em < emitted r /\ instant em < next r) (emissions r) /\
  sent (emissions r) = produced s0 n /\
  calls r = (if more then S n else n) /\ source r = source_after (calls r) s0 /\
  (more = true -> prefetched r = source_nth s0 n).

Lemma loop_inv_start count s k : count <> 0 -> loop_inv count s (run_start cfg e s k).
Proof.
  intros Hcount. unfold run_start. destruct (NextCell s) as [s' p] eqn:E.
  unfold loop_inv. simpl. assert ((count <? 0) || (0 <? count) = true) as ->.
  { apply orb_true_iff. destruct (decide (count < 0)); [left|right]; lia. }
  split_and!; try done; try lia.
  - split; constructor.
  - simpl. by rewrite E.
  - intros _. unfold source_nth. simpl. by rewrite E.
Qed.

Lemma StronglySorted_snoc {A} (R : A -> A -> Prop) (l : list A) x :
  StronglySorted R l -> Forall (fun y => R y x) l -> StronglySorted R (l ++ [x]).
Proof.
  induction 1 as [|y l Hl IH Hy]; simpl; [by repeat constructor|].
  intros [Hyx Hx]%Forall_cons. constructor; [by apply IH|].
  apply Forall_app. split; [done|by repeat constructor].
Qed.

(** After the send of slot [emitted r], at clock reading [t]. *)
Definition sent_inv (s0 : src) (r r' : run_state cell src snk) (t : nat) : Prop :=
  let n := Z.to_nat (emitted r) in
  tick r' = S t /\ source r' = source r /\ next r' = next r /\ emitted r' = emitted r /\
  prefetched r' = prefetched r /\ calls r' = calls r /\
  trace_ok (now e 0) (emissions r') /\
  Forall (fun em => slot em < emitted r + 1 /\ instant em <= now e t) (emissions r') /\
  sent (emissions r') = produced s0 (S n).

Lemma send_slot_inv count s0 r t r' err : loop_inv count s0 r ->
  (count <? 0) || (emitted r <? count) = true ->
  next r <= now e t <= next r + allowed cfg -> send_slot e r t = (r', err) -> sent_inv s0 r r' t.
Proof.
  unfold loop_inv. intros (Hnext & Hpos & _ & [Hon Hsep] & Hpast & Hsent & _ & _ & Hpre) Hmore Ht.
  specialize (Hpre Hmore). rewrite Hnext in Ht.
  unfold send_slot, sent_inv. rewrite produced_S, <- Hpre, Z2Nat.id by done.
  assert (Forall (fun em => slot em < emitted r + 1 /\ instant em <= now e t) (emissions r)) as Hpast'
    by (eapply Forall_impl; [exact Hpast|]; intros em [? ?]; split; lia).
  destruct (prefetched r) as [c|er] eqn:Epre.
  - destruct (Send (sink r) c) as [k er]. intros [= <- <-]. simpl.
    split_and!; try done.
    + split.
      * apply Forall_app. split; [done|]. constructor; [|done]. unfold on_time. simpl.
        split_and!; [done|lia|lia|lia].
      * apply StronglySorted_snoc; [done|]. eapply Forall_impl; [exact Hpast|]. intros em [? ?].
        by split.
    + apply Forall_app. split; [done|]. constructor; [simpl; lia|done].
    + unfold sent. rewrite fmap_app. fold (sent (emissions r)). by rewrite Hsent.
  - intros [= <- <-]. simpl. rewrite app_nil_r. split_and!; done || by split.
Qed.

Lemma finish_slot_inv count s0 r r1 t was_dropped r2 : monotone e -> loop_inv count s0 r ->
  (count <? 0) || (emitted r <? count) = true -> sent_inv s0 r r1 t ->
  finish_slot cfg e count r1 was_dropped = (r2, None) -> loop_inv count s0 r2.
Proof.
  intros Hm (Hnext & Hpos & _ & _ & _ & _ & Hcalls & Hsrc & _) Hmore
    (E1 & E2 & E3 & E4 & E5 & E6 & Htr & Hpast & Hsent).
  unfold finish_slot. rewrite E1, E3, E4, E6. destruct (now e (S t) <? _) eqn:Hclock; simpl; [|done].
  pose proof (Hm t (S t) ltac:(lia)). rewrite Hmore in Hcalls.
  assert (forall p s n, loop_inv count s0
    (mkRun (S (S t)) s (sink r1) (if was_dropped then u64 (dropped r1 + 1) else dropped r1)
      (next r + CellInterval cfg) (emitted r + 1) p n (emissions r1)) <->
    n = (if (count <? 0) || (emitted r + 1 <? count) then S (S (Z.to_nat (emitted r))) else S (Z.to_nat (emitted r))) /\
    s = source_after n s0 /\
    ((count <? 0) || (emitted r + 1 <? count) = true -> p = source_nth s0 (S (Z.to_nat (emitted r))))) as Hiff.
  { intros p s n. unfold loop_inv. simpl. rewrite Z2Nat.inj_add, Nat.add_1_r by lia.
    split; [by intros (_ & _ & _ & _ & _ & _ & ? & ? & ?)|]. intros (? & ? & ?).
    split_and!; try done; try lia. eapply Forall_impl; [exact Hpast|]. simpl. intros em [? ?]. split; lia. }
  rewrite E2, Hsrc, Hcalls. destruct ((count <? 0) || (emitted r + 1 <? count)) eqn:Hmore'.
  - destruct (NextCell _) as [s' p'] eqn:E. intros [= <-]. apply Hiff.
    split_and!; [done|by rewrite (source_after_S (S _)), E|]. intros _. unfold source_nth. by rewrite E.
  - intros [= <-]. by apply Hiff.
Qed.

(** What can be said of a run however it stops. *)
Definition result_ok (count : Z) (s0 : src) (r : run_state cell src snk) (st : status) : Prop :=
  trace_ok (now e 0) (emissions r) /\
  (exists n, (n <= calls r)%nat /\ sent (emissions r) = produced s0 n) /\
  (st = Returned None -> Z.of_nat (calls r) = count /\ emitted r = count /\
     sent (emissions r) = produced s0 (calls r)).

Lemma run_slot_inv count s0 r : monotone e -> loop_inv count s0 r ->
  (count <? 0) || (emitted r <? count) = true ->
  match run_slot cfg e patience count r with
  | (r', None) => loop_inv count s0 r'
  | (r', Some st) => result_ok count s0 r' st
  end.
Proof.
  intros Hm Hinv Hmore. pose proof Hinv as (Hnext & Hpos & _ & Htr & Hpast & Hsent & Hcalls & _).
  rewrite Hmore in Hcalls.
  assert (forall t st, st <> Returned None -> result_ok count s0 (set_tick r t) st) as Hstop.
  { intros t st Hst. split_and!; try done. exists (Z.to_nat (emitted r)). simpl. split; [lia|done]. }
  unfold run_slot. destruct (waitUntil _ _ _ _ _) as [t []] eqn:Hw; [|by apply Hstop..].
  apply waitUntil_reached in Hw as [Ht Hd]. pose proof (Hm (Nat.pred t) t ltac:(lia)).
  destruct (allowed cfg <? _) eqn:Hlate; [by apply Hstop|].
  destruct (send_slot e r t) as [r1 err] eqn:Hsend.
  apply (send_slot_inv count s0) in Hsend; [|done|done|lia].
  assert (forall r2 st, calls r2 = calls r -> emissions r2 = emissions r1 -> st <> Returned None ->
    result_ok count s0 r2 st) as Hstop'.
  { intros r2 st E1 E2 Hst. destruct Hsend as (_ & _ & _ & _ & _ & _ & ? & _ & ?).
    unfold result_ok. rewrite E1, E2. split_and!; try done. exists (S (Z.to_nat (emitted r))). split; [lia|done]. }
  assert (forall b, match finish_slot cfg e count r1 b with
    | (r2, None) => loop_inv count s0 r2 | (r2, Some st) => result_ok count s0 r2 st end) as Hfinish.
  { intros b. destruct (finish_slot cfg e count r1 b) as [r2 [st|]] eqn:Hf; [|by eapply finish_slot_inv].
    unfold finish_slot in Hf. destruct (now e _ <? _); simpl in Hf.
    - by repeat case_match; simplify_eq.
    - injection Hf as <- <-. apply Hstop'; [|done|done]. by destruct Hsend as (_ & _ & _ & _ & _ & ? & _). }
  destruct err as [err|]; [|apply (Hfinish false)]. destruct (is_dropped err); [apply (Hfinish true)|].
  apply Hstop'; [|done|done]. by destruct Hsend as (_ & _ & _ & _ & _ & ? & _).
Qed.

Lemma run_loop_ok fuel count s0 r : monotone e -> loop_inv count s0 r ->
  let '(r', st) := run_loop cfg e patience fuel count r in result_ok count s0 r' st.
Proof.
  intros Hm. revert r. induction fuel as [|fuel IH]; intros r Hinv; simpl.
  - destruct Hinv as (_ & _ & _ & Htr & _ & Hsent & Hcalls & _). split_and!; [done| |done].
    eexists. split; [|done]. rewrite Hcalls. case_match; lia.
  - destruct ((count <? 0) || (emitted r <? count)) eqn:Hmore.
    + pose proof (run_slot_inv count s0 r Hm Hinv Hmore) as Hslot.
      destruct (run_slot _ _ _ _ _) as [r' [st|]]; [done|by apply IH].
    + destruct Hinv as (_ & Hpos & Hle & Htr & _ & Hsent & Hcalls & _). rewrite Hmore in Hcalls.
      apply orb_false_iff in Hmore as [? ?]. split_and!; [done|exists (calls r)|intros _].
      * split; [lia|by rewrite Hcalls].
      * rewrite Hcalls, Z2Nat.id by done. split_and!; [lia|lia|done].
Qed.
End run_proofs.

(** ** Termination *)

Section run_termination.
Context {cell src snk : Type} `{Source cell src, Sink cell snk}.
Context (cfg : Config) (e : Env) (patience : nat).

Lemma finish_slot_not_out count (r : run_state cell src snk) b :
  snd (finish_slot cfg e count r b) <> Some OutOfFuel.
Proof. unfold finish_slot. by repeat case_match; simpl. Qed.

Lemma run_slot_not_out count (r : run_state cell src snk) n : monotone e -> next r <= now e n ->
  (n < patience)%nat -> snd (run_slot cfg e patience count r) <> Some OutOfFuel.
Proof.
  intros Hm Hn Hp. unfold run_slot.
  pose proof (waitUntil_enough e patience (tick r) (next r) (DeadlineSpin cfg) n Hm Hn Hp) as Hw.
  destruct (waitUntil _ _ _ _ _) as [t []]; [|done|done].
  case_match; [done|]. destruct (send_slot e r t) as [r' [err|]]; [|apply finish_slot_not_out].
  destruct (is_dropped err); [apply finish_slot_not_out|done].
Qed.

(** [count + 1] iterations, and as many passes per wait as the clock needs to
    reach the last deadline, are enough. *)
Lemma run_loop_terminates fuel count s0 (r : run_state cell src snk) n : monotone e -> 0 <= CellInterval cfg ->
  0 < count -> now e 0 + (count + 1) * CellInterval cfg <= now e n -> (n < patience)%nat ->
  loop_inv cfg e count s0 r -> (Z.to_nat (count - emitted r) < fuel)%nat ->
  snd (run_loop cfg e patience fuel count r) <> OutOfFuel.
Proof.
  intros Hm Hi Hcount Hn Hp. revert r. induction fuel as [|fuel IH]; intros r Hinv Hfuel; [lia|simpl].
  destruct ((count <? 0) || (emitted r <? count)) eqn:Hmore; [|done].
  pose proof Hinv as (Hnext & Hpos & _).
  pose proof (run_slot_inv cfg e patience count s0 r Hm Hinv Hmore) as Hslot.
  assert (emitted r < count) by lia.
  pose proof (run_slot_not_out count r n Hm ltac:(nia) Hp) as Hout.
  destruct (run_slot _ _ _ _ _) as [r' [st|]] eqn:E; simpl in *; [congruence|].
  apply IH; [done|]. enough (emitted r' = emitted r + 1) by lia.
  revert E. unfold run_slot, finish_slot, send_slot. repeat case_match; intros; simplify_eq; done.
Qed.
End run_termination.

(** ** Independence of the schedule from the work *)

(** A source that always has a cell, whatever it is. *)
Definition never_fails {cell src} `{Source cell src} (s : src) : Prop :=
  forall n, exists c, source_nth s n = inl c.

(** A sink whose only failures are local drops. *)
Definition local_sink {cell snk} `{Sink cell snk} : Prop :=
  forall k c err, snd (Send k c) = Some err -> is_dropped err = true.
Arguments local_sink cell snk {_}.

(** What an observer of the wire sees of a run: when cells leave. *)
Definition schedule {cell} (l : list (emission cell)) : list (Z * Z * Z) :=
  (fun em => (slot em, deadline em, instant em)) <$> l.

Section independence.
Context {cell src1 snk1 src2 snk2 : Type}.
Context `{Source cell src1, Sink cell snk1, Source cell src2, Sink cell snk2}.
Context (cfg : Config) (e : Env) (patience : nat).
Context (sink1_local : local_sink cell snk1) (sink2_local : local_sink cell snk2).
Context (s1 : src1) (s2 : src2) (s1_steady : never_fails s1) (s2_steady : never_fails s2).

Definition lockstep (r1 : run_state cell src1 snk1) (r2 : run_state cell src2 snk2) : Prop :=
  tick r1 = tick r2 /\ next r1 = next r2 /\ emitted r1 = emitted r2 /\
  schedule (emissions r1) = schedule (emissions r2) /\
  (exists c, prefetched r1 = inl c) /\ (exists c, prefetched r2 = inl c) /\
  (exists n, source r1 = source_after n s1) /\ (exists n, source r2 = source_after n s2).

Lemma lockstep_send r1 r2 t : lockstep r1 r2 ->
  lockstep (fst (send_slot e r1 t)) (fst (send_slot e r2 t)) /\
  tick (fst (send_slot e r1 t)) = S t /\
  (forall err, snd (send_slot e r1 t) = Some err -> is_dropped err = true) /\
  (forall err, snd (send_slot e r2 t) = Some err -> is_dropped err = true).
Proof.
  intros (Et & En & Ee & Es & [c1 Ec1] & [c2 Ec2] & Hn1 & Hn2). unfold send_slot. rewrite Ec1, Ec2.
  pose proof (sink1_local (sink r1) c1) as Hl1. pose proof (sink2_local (sink r2) c2) as Hl2.
  destruct (Send (sink r1) c1) as [k1 e1], (Send (sink r2) c2) as [k2 e2]. simpl in *.
  split_and!; try done. unfold lockstep. simpl. rewrite Ee, En. split_and!; try done; eauto.
  unfold schedule in *. by rewrite !fmap_app, Es.
Qed.

(** The next cell of a steady source. *)
Lemma steady_next {src} `{Source cell src} (s : src) : never_fails s ->
  forall n, exists s' c, NextCell (source_after n s) = (s', inl c) /\ s' = source_after (S n) s.
Proof.
  intros Hs n. destruct (Hs n) as [c Hc]. unfold source_nth in Hc.
  destruct (NextCell (source_after n s)) as [s' p] eqn:E. simpl in Hc. subst p.
  exists s', c. split; [done|]. by rewrite source_after_S, E.
Qed.

Lemma lockstep_finish count r1 r2 b1 b2 : lockstep r1 r2 ->
  lockstep (fst (finish_slot cfg e count r1 b1)) (fst (finish_slot cfg e count r2 b2)) /\
  snd (finish_slot cfg e count r1 b1) = snd (finish_slot cfg e count r2 b2).
Proof.
  intros (Et & En & Ee & Es & Hc1 & Hc2 & [n1 Hn1] & [n2 Hn2]). unfold finish_slot.
  rewrite Et, En, Ee. destruct (now e _ <? _); simpl.
  - destruct ((count <? 0) || _).
    + destruct (steady_next s1 s1_steady n1) as (s1' & c1 & E1 & Ha1).
      destruct (steady_next s2 s2_steady n2) as (s2' & c2 & E2 & Ha2).
      rewrite Hn1, Hn2, E1, E2. simpl. split; [|done]. unfold lockstep. simpl. split_and!; eauto.
    + simpl. split; [|done]. unfold lockstep. simpl. split_and!; eauto.
  - split; [|done]. unfold lockstep. simpl. split_and!; eauto.
Qed.

Lemma lockstep_slot count r1 r2 : lockstep r1 r2 ->
  lockstep (fst (run_slot cfg e patience count r1)) (fst (run_slot cfg e patience count r2)) /\
  snd (run_slot cfg e patience count r1) = snd (run_slot cfg e patience count r2).
Proof.
  intros Hl. pose proof Hl as (Et & En & Ee & Es & Hc1 & Hc2 & Hn1 & Hn2). unfold run_slot.
  rewrite <- Et, <- En. destruct (waitUntil _ _ _ _ _) as [t []].
  - destruct (allowed cfg <? _).
    + simpl. split; [|done]. unfold lockstep. simpl. split_and!; eauto.
    + pose proof (lockstep_send r1 r2 t Hl) as (Hl' & _ & Hd1 & Hd2).
      destruct (send_slot e r1 t) as [r1' [e1|]], (send_slot e r2 t) as [r2' [e2|]]; simpl in *;
        rewrite ?(Hd1 _ eq_refl), ?(Hd2 _ eq_refl); by apply lockstep_finish.
  - simpl. split; [|done]. unfold lockstep. simpl. split_and!; eauto.
  - simpl. split; [|done]. unfold lockstep. simpl. split_and!; eauto.
Qed.

Lemma lockstep_loop fuel count r1 r2 : lockstep r1 r2 ->
  lockstep (fst (run_loop cfg e patience fuel count r1)) (fst (run_loop cfg e patience fuel count r2)) /\
  snd (run_loop cfg e patience fuel count r1) = snd (run_loop cfg e patience fuel count r2).
Proof.
  revert r1 r2. induction fuel as [|fuel IH]; intros r1 r2 Hl; simpl; [done|].
  pose proof Hl as (_ & _ & <- & _). destruct ((count <? 0) || _); [|done].
  pose proof (lockstep_slot count r1 r2 Hl) as [Hl' Hst].
  destruct (run_slot _ _ _ count r1) as [r1' o1], (run_slot _ _ _ count r2) as [r2' o2].
  simpl in Hst. subst o2. destruct o1; [done|by apply IH].
Qed.

Lemma lockstep_start k1 k2 : lockstep (run_start cfg e s1 k1) (run_start cfg e s2 k2).
Proof.
  destruct (steady_next s1 s1_steady 0) as (s1' & c1 & E1 & Ha1).
  destruct (steady_next s2 s2_steady 0) as (s2' & c2 & E2 & Ha2).
  simpl in E1, E2. unfold run_start. rewrite E1, E2. unfold lockstep. simpl. split_and!; eauto.
Qed.
End independence.

(** A cover source whose filler never fails never fails, whatever its work
    source does. *)
Section cover.
Context {cell work filler : Type} `{Source cell work, Source cell filler}.

Lemma cover_filler (w : option work) (f : filler) x : never_fails f ->
  forall n, exists m, Filler (source_after n (mkCoverSource w (Some f) x)) = Some (source_after m f).
Proof.
  intros Hf n. induction n as [|n [m IH]]; [by exists 0%nat|].
  rewrite source_after_S. destruct (source_after n _) as [w' f' x']. simpl in IH. subst f'.
  destruct (steady_next f Hf m) as (f' & c & E & Ef). cbn. unfold next_filler. rewrite E.
  destruct w' as [w'|]; [destruct (NextCell w') as [w'' [|]]|]; cbn; first [by exists m|exists (S m); by f_equal].
Qed.

Lemma cover_never_fails (w : option work) (f : filler) x : never_fails f ->
  never_fails (mkCoverSource w (Some f) x).
Proof.
  intros Hf n. destruct (cover_filler w f x Hf n) as [m Hm]. unfold source_nth.
  destruct (source_after n _) as [w' f' x']. simpl in Hm. subst f'.
  destruct (steady_next f Hf m) as (f' & c & E & _). cbn. unfold next_filler. rewrite E.
  destruct w' as [w'|]; [destruct (NextCell w') as [w'' [|]]|]; simpl; eauto.
Qed.
End cover.

(** The derived spin window never makes a configuration invalid. *)
Lemma DeadlineSpinFor_valid c : Validate (mkConfig (Epoch c) (CellsPerEpoch c) (MaxLateness c) 0) = None ->
  Validate (mkConfig (Epoch c) (CellsPerEpoch c) (MaxLateness c) (DeadlineSpinFor (CellInterval c))) = None.
Proof.
  unfold Validate. simpl. repeat case_match; try done; intros _;
    unfold CellInterval, DeadlineSpinFor, Millisecond in *; simpl in *; repeat case_match; try lia;
    exfalso; Z.to_euclidean_division_equations; nia.
Qed.

(** The interval divides the epoch: as many slots as cells, with nothing left
    over. *)
Lemma CellInterval_exact c : Validate c = None ->
  0 < CellInterval c /\ CellsPerEpoch c * CellInterval c = Epoch c.
Proof.
  unfold Validate, CellInterval. repeat case_match; try done; intros _; try lia.
  split; [lia|]. pose proof (Z.quot_rem' (Epoch c) (CellsPerEpoch c)). lia.
Qed.

(** For every source, sink and environment with a monotonic clock, and
    however the run ends, every cell handed to the sink belongs to a slot whose
    deadline is the start plus a whole number of intervals, leaves between that
    deadline and the allowed lateness after it, no two cells share a slot, each
    leaves before the next one's deadline (there is no catch-up burst), and the
    cell of a slot is the one the source returned at that slot's call, so a
    failed call costs its own slot and shifts nothing. *)
Theorem cadence {cell src snk} `{Source cell src, Sink cell snk} cfg e patience fuel count
  (s : src) (k : snk) r st : monotone e -> run cfg e patience fuel count s k = (Some r, st) ->
  Forall (on_time cfg (now e 0)) (emissions r) /\ StronglySorted separate (emissions r) /\
  exists n, (n <= calls r)%nat /\ sent (emissions r) = produced s n.
Proof.
  intros Hm. unfold run. destruct (count =? 0) eqn:Hc; [done|].
  pose proof (run_loop_ok cfg e patience fuel count s (run_start cfg e s k) Hm
    (loop_inv_start cfg e count s k ltac:(lia))) as Hok.
  destruct (run_loop _ _ _ _ _ _) as [r' st']. intros [= <- <-]. destruct Hok as ([? ?] & ? & _). done.
Qed.

(** With a valid configuration and a clock that advances, [RunCells(n)]
    returns; and when it returns without error it has called the source exactly
    [n] times and sent exactly the cells those calls produced, in order, each
    in its own slot: no cell is taken from the source and discarded. *)
Theorem RunCells_exact {cell src snk} `{Source cell src, Sink cell snk} cfg e count (s : src) (k : snk) :
  monotone e -> advances e -> Validate cfg = None -> 0 < count ->
  exists enough, forall patience fuel, (enough < patience)%nat -> (Z.to_nat count < fuel)%nat ->
  exists r err, RunCells cfg e patience fuel count s k = Some (Some r, Returned err) /\
    (err = None -> Z.of_nat (calls r) = count /\ sent (emissions r) = produced s (Z.to_nat count)).
Proof.
  intros Hm Ha Hv Hcount. destruct (Ha (now e 0 + (count + 1) * CellInterval cfg)) as [n Hn].
  exists n. intros patience fuel Hp Hf. apply CellInterval_exact in Hv as [Hi _].
  unfold RunCells, run. replace (count <? 0) with false by lia. replace (count =? 0) with false by lia.
  pose proof (loop_inv_start cfg e count s k ltac:(lia)) as Hstart.
  pose proof (run_loop_ok cfg e patience fuel count s _ Hm Hstart) as Hok.
  pose proof (run_loop_terminates cfg e patience fuel count s _ n Hm ltac:(lia) Hcount Hn Hp Hstart) as Hend.
  destruct (run_loop _ _ _ _ _ _) as [r st]. simpl in Hend.
  destruct st as [err|]; [|destruct Hend; [|done]; unfold run_start; destruct (NextCell s); simpl; lia].
  exists r, err. split; [done|]. intros ->. destruct Hok as (_ & _ & Hdone).
  destruct (Hdone eq_refl) as (E & _ & Hs). split; [done|]. rewrite Hs. f_equal. lia.
Qed.

(** C35: two nodes that read the same clock, whose cover sources have the same
    or different fillers that never fail, and whose sinks only ever drop locally, send at
    exactly the same instants and stop the same way whatever work either has
    queued: an idle node and a busy one have the same schedule. *)
Theorem schedule_independent {cell work1 filler1 snk1 work2 filler2 snk2}
  `{Source cell work1, Source cell filler1, Sink cell snk1, Source cell work2, Source cell filler2, Sink cell snk2}
  cfg e patience fuel count (w1 : option work1) (f1 : filler1) x1 (k1 : snk1)
  (w2 : option work2) (f2 : filler2) x2 (k2 : snk2) r1 st1 r2 st2 :
  never_fails f1 -> never_fails f2 -> local_sink cell snk1 -> local_sink cell snk2 ->
  run cfg e patience fuel count (mkCoverSource w1 (Some f1) x1) k1 = (Some r1, st1) ->
  run cfg e patience fuel count (mkCoverSource w2 (Some f2) x2) k2 = (Some r2, st2) ->
  st1 = st2 /\ schedule (emissions r1) = schedule (emissions r2).
Proof.
  intros Hf1 Hf2 Hk1 Hk2. unfold run. destruct (count =? 0); [done|].
  pose proof (cover_never_fails w1 f1 x1 Hf1) as Hs1. pose proof (cover_never_fails w2 f2 x2 Hf2) as Hs2.
  pose proof (lockstep_loop cfg e patience Hk1 Hk2 _ _ Hs1 Hs2 fuel count _ _
    (lockstep_start cfg e _ _ Hs1 Hs2 k1 k2)) as [Hl Hst].
  destruct (run_loop _ _ _ _ _ (run_start _ _ _ k1)) as [r1' st1'].
  destruct (run_loop _ _ _ _ _ (run_start _ _ _ k2)) as [r2' st2'].
  intros [= <- <-] [= <- <-]. destruct Hl as (_ & _ & _ & ? & _). done.
Qed.

(** ** Examples *)

Definition example_config : Config := mkConfig 100 10 0 2.
(** A clock that gains one nanosecond per observation. *)
Definition example_env : Env := mkEnv Z.of_nat (fun _ => true) (fun _ => false).
(** A source that counts, and one that has no work. *)
Definition counting : Source nat nat := fun n => (S n, inl n).
Definition no_work : Source nat unit := fun s => (s, inr ErrNoWork).
(** A sink that drops every cell and one that delivers. *)
Definition losing_sink : Sink nat unit := fun k _ => (k, Some ErrCellDropped).
Definition wire_sink : Sink nat (list nat) := fun k c => (k ++ [c], None).

Lemma example_monotone : monotone example_env.
Proof. intros m n Hle. simpl. lia. Qed.

Lemma example_advances : advances example_env.
Proof. intros t. exists (Z.to_nat t). simpl. lia. Qed.

Lemma counting_never_fails n : @never_fails nat nat counting n.
Proof. intros m. unfold source_nth. by eexists. Qed.

#[local] Existing Instance counting.
#[local] Existing Instance no_work.
#[local] Existing Instance losing_sink.
#[local] Existing Instance wire_sink.

Lemma cadence_witness : exists r,
  run example_config example_env 20 5 2 5%nat [] = (Some r, Returned None) /\
  schedule (emissions r) = [(0, 10, 12); (1, 20, 21)] /\ sink r = [5; 6]%nat /\
  Forall (on_time example_config 0) (emissions r).
Proof.
  let x := eval vm_compute in (fst (run example_config example_env 20 5 2 5%nat [])) in
  match x with Some ?r => exists r end.
  split; [reflexivity|]. split; [reflexivity|]. split; [reflexivity|].
  exact (proj1 (cadence example_config example_env 20 5 2 5%nat [] _ (Returned None) example_monotone eq_refl)).
Defined.

Lemma RunCells_exact_witness : exists enough, forall patience fuel, (enough < patience)%nat -> (3 < fuel)%nat ->
  exists r err, RunCells example_config example_env patience fuel 3 5%nat ([] : list nat) = Some (Some r, Returned err) /\
    (err = None -> Z.of_nat (calls r) = 3 /\ sent (emissions r) = produced 5%nat 3).
Proof. apply (RunCells_exact example_config example_env 3); [apply example_monotone|apply example_advances|reflexivity|lia]. Defined.

Lemma schedule_independent_witness : exists r1 r2,
  run example_config example_env 20 5 2 (mkCoverSource (Some 70%nat) (Some 5%nat) 0) [] = (Some r1, Returned None) /\
  run example_config example_env 20 5 2 (mkCoverSource (Some tt) (Some 5%nat) 0) tt = (Some r2, Returned None) /\
  body <$> emissions r1 = [70; 71]%nat /\ body <$> emissions r2 = [5; 6]%nat /\ dropped r2 = 2 /\
  schedule (emissions r1) = schedule (emissions r2).
Proof.
  let x := eval vm_compute in (fst (run example_config example_env 20 5 2 (mkCoverSource (Some 70%nat) (Some 5%nat) 0) [])) in
  match x with Some ?r => exists r end.
  let x := eval vm_compute in (fst (run example_config example_env 20 5 2 (mkCoverSource (Some tt) (Some 5%nat) 0) tt)) in
  match x with Some ?r => exists r end.
  split; [reflexivity|]. split; [reflexivity|]. split; [reflexivity|]. split; [reflexivity|].
  split; [reflexivity|].
  refine (proj2 (schedule_independent example_config example_env 20 5 2 (Some 70%nat) 5%nat 0 []
    (Some tt) 5%nat 0 tt _ _ _ _ (counting_never_fails 5) (counting_never_fails 5) _ _ eq_refl eq_refl)).
  - by intros k c err [=].
  - by intros k c err [= <-].
Defined.
