(* ===== verification/Topology.v ===== *)
(** The signed topology ([live/topology]): the fields of the document that the
    modelled code reads, operator lookup, the peer plan's strong-connectivity
    check ([topology.go]) and the monotonic watermark ([watermark.go]). *)

From stdpp Require Import base list list_numbers relations.
From Stdlib Require Import ZArith Lia Strings.Byte.
From S2P Require Import Prelude Bytes.

(** ** Documents *)

Record TrafficClass := mkTraffic {
  TrafficCellSize : Z;           (* uint16 *)
  CellIntervalMillis : Z;        (* uint32 *)
  MaxLatenessMillis : Z;
  QueueCapacity : Z;
}.

Record DKGProfile := mkDKGProfile {
  Threshold : Z;                 (* uint32 *)
  SessionID : list byte;         (* base64 text *)
  StartAt : list byte;           (* RFC 3339 text *)
  PhaseDurationMillis : Z;       (* uint32 *)
}.

(** Indexes and peer slots are 16-bit numbers; keys and signatures are base64
    texts. *)
Record Operator := mkOperator {
  OpIndex : nat;
  OpID : list byte;
  Endpoint : list byte;
  PartialEndpoint : list byte;
  DKGEndpoint : list byte;
  IdentityKey : list byte;
  KEXKey : list byte;
  DKGIdentityKey : list byte;
  PeerPlan : list nat;
  Attestation : list byte;
}.

Record Document := mkDocument {
  DocVersion : list byte;
  NetworkID : list byte;
  DocEpoch : Z;                  (* uint64 *)
  NotBefore : list byte;         (* RFC 3339 text *)
  NotAfter : list byte;
  Traffic : TrafficClass;
  DKG : DKGProfile;
  Operators : list Operator;
}.

(** [Verified.Operator]. *)
Definition operator_at (d : Document) (index : nat) : option Operator :=
  operator ← Operators d !! index;
  if Nat.eqb (OpIndex operator) index then Some operator else None.

(** [Verified.OperatorByID]. *)
Definition OperatorByID (d : Document) (id : list byte) : option Operator :=
  snd <$> list_find (fun operator => OpID operator = id) (Operators d).

(** [Verified.IncomingPeers]. *)
Definition IncomingPeers (d : Document) (index : nat) : list Operator :=
  filter (fun operator => index ∈ PeerPlan operator) (Operators d).

(** [operatorIDPattern]: [^[a-z0-9][a-z0-9-]{0,62}$]. *)
Definition id_char (b : byte) : bool :=
  let c := Z_of_byte b in ((97 <=? c) && (c <=? 122)) || ((48 <=? c) && (c <=? 57)).

Definition operatorIDPattern (id : list byte) : bool :=
  match id with
  | [] => false
  | first :: rest => id_char first && Nat.leb (length rest) 62 &&
      forallb (fun b => id_char b || (Z_of_byte b =? 45)) rest
  end.

(** ** Strong connectivity *)

(** The two adjacency tables of [validateStrongConnectivity]. *)
Definition forward_of (n : nat) (operators : list Operator) : list (list nat) :=
  foldl (fun g operator => <[OpIndex operator := PeerPlan operator]> g) (replicate n []) operators.

Definition reverse_of (n : nat) (operators : list Operator) : list (list nat) :=
  foldl (fun g operator =>
      foldl (fun g peer => alter (fun l => l ++ [OpIndex operator]) peer g) g (PeerPlan operator))
    (replicate n []) operators.

(** The depth-first search; the stack's top is the head of the list, so a row
    is pushed last neighbour first.  [None] is the fuel running out. *)
Fixpoint traverse (fuel : nat) (g : list (list nat)) (seen : list bool) (stack : list nat) : option (list bool) :=
  match fuel with
  | O => None
  | S fuel =>
      match stack with
      | [] => Some seen
      | current :: stack =>
          if default false (seen !! current) then traverse fuel g seen stack
          else traverse fuel g (<[current := true]> seen) (reverse (default [] (g !! current)) ++ stack)
      end
  end.

(** Every node is expanded once, so every edge is pushed at most once. *)
Definition traverse_fuel (g : list (list nat)) : nat := S (S (sum_list (length <$> g))).

Definition all_reached (n : nat) (g : list (list nat)) : bool :=
  match traverse (traverse_fuel g) g (replicate n false) [0%nat] with
  | Some seen => forallb id seen
  | None => false
  end.

Definition validateStrongConnectivity (operators : list Operator) : bool :=
  let n := length operators in
  all_reached n (forward_of n operators) && all_reached n (reverse_of n operators).

(** *** Correctness of the check *)

(** What the loop over the operators has established before the check runs:
    contiguous indexes and peer slots inside the membership. *)
Definition indexed (operators : list Operator) : Prop :=
  forall i o, operators !! i = Some o ->
    OpIndex o = i /\ Forall (fun peer => (peer < length operators)%nat) (PeerPlan o).

(** One hop of the public peer plan. *)
Definition hop (operators : list Operator) (i j : nat) : Prop :=
  exists o, operators !! i = Some o /\ j ∈ PeerPlan o.

Definition edge (g : list (list nat)) (u v : nat) : Prop := exists row, g !! u = Some row /\ v ∈ row.

Definition seen_at (seen : list bool) (v : nat) : Prop := seen !! v = Some true.

Lemma traverse_sound fuel g seen stack seen' : traverse fuel g seen stack = Some seen' ->
  forall v, seen_at seen' v -> seen_at seen v \/ exists s, s ∈ stack /\ rtc (edge g) s v.
Proof.
  revert seen stack. induction fuel as [|fuel IH]; intros seen stack; simpl; [done|].
  destruct stack as [|c stack]; [intros [= <-]; by left|].
  destruct (default false (seen !! c)) eqn:Hc.
  - intros E v Hv. destruct (IH _ _ E v Hv) as [?|(s & Hs & Hr)]; [by left|right].
    exists s. split; [set_solver|done].
  - intros E v Hv. destruct (IH _ _ E v Hv) as [Hm|(s & Hs & Hr)].
    + unfold seen_at in Hm. apply list_lookup_insert_Some in Hm as [(<- & _)|(_ & Hm)]; [|by left].
      right. exists c. split; [set_solver|done].
    + right. apply elem_of_app in Hs as [Hs|Hs]; [|exists s; set_solver].
      exists c. split; [set_solver|]. rewrite elem_of_reverse in Hs.
      destruct (g !! c) as [row|] eqn:Hrow; simpl in Hs; [|set_solver].
      apply (rtc_l _ c s v); [by exists row|done].
Qed.

(** What has been marked stays marked, what is on the stack gets marked, and
    the marked set is closed under edges. *)
Lemma traverse_complete fuel g seen stack seen' : length seen = length g ->
  Forall (fun v => (v < length g)%nat) stack -> Forall (Forall (fun v => (v < length g)%nat)) g ->
  (forall u v, seen_at seen u -> edge g u v -> seen_at seen v \/ v ∈ stack) ->
  traverse fuel g seen stack = Some seen' ->
  (forall v, seen_at seen v -> seen_at seen' v) /\ (forall v, v ∈ stack -> seen_at seen' v) /\
  (forall u v, seen_at seen' u -> edge g u v -> seen_at seen' v).
Proof.
  intros Hl Hstack Hg. revert seen stack Hl Hstack.
  induction fuel as [|fuel IH]; intros seen stack Hl Hstack Hcl; simpl; [done|].
  destruct stack as [|c stack]; [intros [= <-]; split_and!; [done|by intros v ?%elem_of_nil|]|].
  { intros u v Hu Hv. destruct (Hcl u v Hu Hv) as [?|?%elem_of_nil]; done. }
  apply Forall_cons in Hstack as [Hc Hstack].
  destruct (default false (seen !! c)) eqn:Hsc; intros E.
  - assert (seen_at seen c) as Hsc' by (unfold seen_at; destruct (seen !! c) as [[]|]; simpl in Hsc; congruence).
    destruct (IH seen stack Hl Hstack) as (H1 & H2 & H3); [|done|].
    { intros u v Hu Hv. destruct (Hcl u v Hu Hv) as [?|Hin]; [by left|].
      apply elem_of_cons in Hin as [->|?]; [by left|by right]. }
    split_and!; [done| |done]. intros v [->|?]%elem_of_cons; auto.
  - assert (seen_at (<[c:=true]> seen) c) as Hmark by (apply list_lookup_insert_eq; lia).
    assert (forall v, seen_at seen v -> seen_at (<[c:=true]> seen) v) as Hmono.
    { intros v Hv. destruct (decide (v = c)) as [->|]; [done|]. unfold seen_at. by rewrite list_lookup_insert_ne. }
    destruct (IH (<[c:=true]> seen) (reverse (default [] (g !! c)) ++ stack)) as (H1 & H2 & H3); [..|done|].
    + by rewrite length_insert.
    + apply Forall_app. split; [|done]. apply Forall_reverse.
      destruct (g !! c) as [row|] eqn:Hrow; simpl; [|done]. by eapply (Forall_lookup_1 _ g).
    + intros u v Hu Hv. unfold seen_at in Hu. apply list_lookup_insert_Some in Hu as [(-> & _)|(_ & Hu)].
      * destruct Hv as (row & Hrow & Hv). rewrite Hrow. simpl. right.
        apply elem_of_app. left. by apply elem_of_reverse.
      * destruct (Hcl u v Hu Hv) as [?|[->|?]%elem_of_cons]; [by left; auto|by left|]. right. apply elem_of_app. by right.
    + split_and!; [auto| |done]. intros v [->|?]%elem_of_cons; [by auto|]. apply H2. apply elem_of_app. by right.
Qed.

(** The edges of the nodes not yet expanded. *)
Definition pending (g : list (list nat)) (seen : list bool) : nat :=
  sum_list (zip_with (fun row (s : bool) => if s then 0%nat else length row) g seen).

Lemma pending_mark g seen c row : g !! c = Some row -> seen !! c = Some false ->
  pending g seen = (length row + pending g (<[c := true]> seen))%nat.
Proof.
  revert seen c. induction g as [|r g IH]; intros [|b seen] [|c] Hr Hs; simplify_eq/=; [done|].
  unfold pending in *. simpl. rewrite (IH seen c) by done. lia.
Qed.

Lemma traverse_terminates fuel g seen stack : length seen = length g ->
  Forall (fun v => (v < length g)%nat) stack -> Forall (Forall (fun v => (v < length g)%nat)) g ->
  (length stack + pending g seen < fuel)%nat -> is_Some (traverse fuel g seen stack).
Proof.
  intros Hl Hstack Hg. revert seen stack Hl Hstack.
  induction fuel as [|fuel IH]; intros seen stack Hl Hstack Hf; simpl; [lia|].
  destruct stack as [|c stack]; [done|]. apply Forall_cons in Hstack as [Hc Hstack]. simpl in Hf.
  destruct (lookup_lt_is_Some_2 seen c ltac:(lia)) as [b Hb]. destruct (lookup_lt_is_Some_2 g c Hc) as [row Hrow].
  rewrite Hb. simpl. destruct b; [apply IH; [done|done|lia]|]. rewrite Hrow. simpl.
  apply IH; [by rewrite length_insert| |].
  - apply Forall_app. split; [|done]. apply Forall_reverse. by eapply (Forall_lookup_1 _ g).
  - rewrite length_app, length_reverse. rewrite (pending_mark g seen c row) in Hf by done. lia.
Qed.

Lemma traverse_length fuel g seen stack seen' : length seen = length g ->
  traverse fuel g seen stack = Some seen' -> length seen' = length g.
Proof.
  revert seen stack. induction fuel as [|fuel IH]; intros seen stack Hl; simpl; [done|].
  destruct stack as [|c stack]; [by intros [= <-]|].
  destruct (default false _); apply IH; by rewrite ?length_insert.
Qed.

Lemma pending_start g n : length g = n -> pending g (replicate n false) = sum_list (length <$> g).
Proof. intros <-. unfold pending. induction g as [|r g IH]; [done|]. simpl. by rewrite IH. Qed.

Lemma all_reached_spec g n : length g = n -> Forall (Forall (fun v => (v < n)%nat)) g -> (0 < n)%nat ->
  all_reached n g = true <-> forall v, (v < n)%nat -> rtc (edge g) 0%nat v.
Proof.
  intros Hl Hg Hn. subst n. unfold all_reached.
  assert (Forall (fun v => (v < length g)%nat) [0%nat]) as H0 by (by repeat constructor).
  destruct (traverse_terminates (traverse_fuel g) g (replicate (length g) false) [0%nat]) as [seen Hseen];
    [by rewrite length_replicate|done|done|rewrite pending_start by done; unfold traverse_fuel; simpl; lia|].
  rewrite Hseen.
  assert (forall v, ~ seen_at (replicate (length g) false) v) as Hnone.
  { intros v Hv. unfold seen_at in Hv. by apply lookup_replicate in Hv as [? _]. }
  pose proof (traverse_sound _ _ _ _ _ Hseen) as Hs.
  destruct (fun Hc => traverse_complete _ _ _ _ _ (length_replicate _ _) H0 Hg Hc Hseen) as (_ & Hstart & Hcl);
    [intros u v Hu; by apply Hnone in Hu|].
  assert (length seen = length g) as Hls by (eapply traverse_length; [|done]; apply length_replicate).
  rewrite forallb_forall. split.
  - intros Hall v Hv. destruct (lookup_lt_is_Some_2 seen v ltac:(lia)) as [b Hb].
    assert (b = true) as -> by (apply Hall; apply list_elem_of_In; by eapply list_elem_of_lookup_2).
    destruct (Hs v Hb) as [?|(s & Hin & Hr)]; [by destruct (Hnone v)|].
    by apply list_elem_of_singleton in Hin as ->.
  - intros Hr b Hb. apply list_elem_of_In, list_elem_of_lookup_1 in Hb as [v Hv].
    assert (seen_at seen v) as Hsv; [|unfold seen_at in Hsv; by rewrite Hv in Hsv; injection Hsv].
    specialize (Hr v ltac:(apply lookup_lt_Some in Hv; lia)).
    assert (seen_at seen 0%nat) as Hz by (apply Hstart; set_solver).
    clear -Hr Hcl Hz. induction Hr as [|x y z Hxy _ IH]; [done|]. apply IH. by eapply Hcl.
Qed.

Lemma forward_of_spec operators : indexed operators ->
  forward_of (length operators) operators = PeerPlan <$> operators.
Proof.
  intros Hi. unfold forward_of.
  enough (forall done rest, operators = done ++ rest ->
    foldl (fun g operator => <[OpIndex operator := PeerPlan operator]> g)
      ((PeerPlan <$> done) ++ replicate (length rest) []) rest = PeerPlan <$> operators) as Hgen
    by (by apply (Hgen [] operators)).
  intros done rest. revert done. induction rest as [|o rest IH]; intros done E; simpl.
  - by rewrite E, !app_nil_r.
  - assert (OpIndex o = length done) as ->.
    { apply (Hi (length done) o). rewrite E. by rewrite list_lookup_middle. }
    rewrite insert_app_r_alt by (by rewrite length_fmap). rewrite length_fmap, Nat.sub_diag. simpl.
    rewrite <- (IH (done ++ [o])); [|by rewrite <- app_assoc]. by rewrite fmap_app, <- app_assoc.
Qed.

Notation row g u := (default [] (g !! u)).

Lemma add_reverse_rows index peers (g : list (list nat)) u v : (u < length g)%nat ->
  v ∈ row (foldl (fun g peer => alter (fun l => l ++ [index]) peer g) g peers) u <->
  v ∈ row g u \/ (u ∈ peers /\ v = index).
Proof.
  revert g. induction peers as [|p peers IH]; intros g Hu; simpl; [set_solver|].
  rewrite IH by (by rewrite length_alter). rewrite elem_of_cons.
  destruct (decide (u = p)) as [->|Hne].
  - rewrite list_lookup_alter_eq. destruct (lookup_lt_is_Some_2 g p Hu) as [r ->]. simpl.
    rewrite elem_of_app, list_elem_of_singleton. tauto.
  - rewrite list_lookup_alter_ne by done. tauto.
Qed.

Lemma length_add_reverse index peers (g : list (list nat)) :
  length (foldl (fun g peer => alter (fun l => l ++ [index]) peer g) g peers) = length g.
Proof. revert g. induction peers as [|p peers IH]; intros g; simpl; [done|]. by rewrite IH, length_alter. Qed.

Lemma reverse_of_spec n operators : length (reverse_of n operators) = n /\
  forall u v, (u < n)%nat ->
    v ∈ row (reverse_of n operators) u <-> exists o, o ∈ operators /\ u ∈ PeerPlan o /\ v = OpIndex o.
Proof.
  unfold reverse_of.
  enough (forall g, length g = n -> let g' := foldl (fun g operator =>
      foldl (fun g peer => alter (fun l => l ++ [OpIndex operator]) peer g) g (PeerPlan operator)) g operators in
    length g' = n /\ forall u v, (u < n)%nat -> v ∈ row g' u <->
      v ∈ row g u \/ exists o, o ∈ operators /\ u ∈ PeerPlan o /\ v = OpIndex o) as Hgen.
  { destruct (Hgen (replicate n []) (length_replicate _ _)) as [Hl Hr]. split; [done|].
    intros u v Hu. rewrite Hr by done. rewrite lookup_replicate_2 by done. simpl. set_solver. }
  induction operators as [|o operators IH]; intros g Hl; simpl; [split; [done|set_solver]|].
  destruct (IH (foldl (fun g peer => alter (fun l => l ++ [OpIndex o]) peer g) g (PeerPlan o))) as [Hl' Hr];
    [by rewrite length_add_reverse|].
  split; [done|]. intros u v Hu. rewrite Hr by done. rewrite add_reverse_rows by lia.
  setoid_rewrite elem_of_cons. naive_solver.
Qed.

(** The plan followed along its edges and against them. *)
Lemma forward_edges operators u v : indexed operators ->
  edge (forward_of (length operators) operators) u v <-> hop operators u v.
Proof.
  intros Hi. rewrite forward_of_spec by done. unfold edge, hop.
  setoid_rewrite list_lookup_fmap_Some. naive_solver.
Qed.

Lemma reverse_edges operators u v : indexed operators ->
  edge (reverse_of (length operators) operators) u v <-> hop operators v u.
Proof.
  intros Hi. destruct (reverse_of_spec (length operators) operators) as [Hl Hr]. unfold edge, hop. split.
  - intros (r & Hu & Hv). pose proof (lookup_lt_Some _ _ _ Hu) as Hlt. rewrite Hl in Hlt.
    destruct (proj1 (Hr u v Hlt)) as (o & Ho & Hp & ->); [by rewrite Hu|].
    apply list_elem_of_lookup_1 in Ho as [i Ho]. destruct (Hi i o Ho) as [-> _]. by exists o.
  - intros (o & Ho & Hp). destruct (Hi v o Ho) as [Hv Hb]. rewrite Forall_forall in Hb.
    specialize (Hb u Hp). destruct (lookup_lt_is_Some_2 (reverse_of (length operators) operators) u ltac:(lia)) as [r Hu].
    exists r. split; [done|]. pose proof (proj2 (Hr u v Hb)) as Hin. rewrite Hu in Hin. simpl in Hin.
    apply Hin. exists o. split_and!; [by eapply list_elem_of_lookup_2|done|done].
Qed.

Lemma edge_in_range g n : length g = n -> (forall u v, edge g u v -> (v < n)%nat) ->
  Forall (Forall (fun v => (v < n)%nat)) g.
Proof.
  intros Hl He. apply Forall_lookup. intros u r Hu. apply Forall_forall. intros v Hv. apply (He u v). by exists r.
Qed.

Lemma rtc_same {A} (R S : A -> A -> Prop) x y : (forall x y, R x y -> S x y) -> rtc R x y -> rtc S x y.
Proof. intros Hrs. apply (rtc_congruence (fun x => x)). done. Qed.

Lemma rtc_reversed {A} (R S : A -> A -> Prop) x y : (forall x y, R x y -> S y x) -> rtc R x y -> rtc S y x.
Proof. intros Hrs. induction 1 as [|x y z Hxy _ IH]; [done|]. eapply rtc_r; [done|by apply Hrs]. Qed.

(** On a document whose indexes are contiguous and whose peer slots are
    inside the membership, the check accepts exactly the peer plans in which
    every operator can reach every other by following the plan: both searches
    end, and together they decide strong connectivity. *)
Theorem strong_connectivity_exact operators : indexed operators ->
  validateStrongConnectivity operators = true <->
  forall i j, (i < length operators)%nat -> (j < length operators)%nat -> rtc (hop operators) i j.
Proof.
  intros Hi. set (n := length operators). destruct (decide (n = 0%nat)) as [Hn|Hn].
  { destruct operators; [|done]. split; [intros _ i j Hlt; simpl in *; lia|done]. }
  unfold validateStrongConnectivity. fold n. rewrite andb_true_iff.
  assert (forall u v, hop operators u v -> (v < n)%nat) as Hhop.
  { intros u v (o & Ho & Hv). destruct (Hi u o Ho) as [_ Hb]. rewrite Forall_forall in Hb. by apply Hb. }
  rewrite !all_reached_spec; try lia.
  - split.
    + intros [Hf Hr] i j Hli Hlj. etrans.
      * eapply (rtc_reversed (edge (reverse_of n operators))); [|by apply Hr].
        intros x y. by apply reverse_edges.
      * eapply (rtc_same (edge (forward_of n operators))); [|by apply Hf]. intros x y. by apply forward_edges.
    + intros Hall. split; intros v Hv.
      * eapply (rtc_same (hop operators)); [|by apply Hall; lia]. intros x y. by apply forward_edges.
      * eapply (rtc_reversed (hop operators)); [|by apply Hall; lia]. intros x y. by apply reverse_edges.
  - apply reverse_of_spec.
  - apply edge_in_range; [apply reverse_of_spec|]. intros u v (o & Ho & _)%reverse_edges; [|done].
    by eapply lookup_lt_Some.
  - unfold n. rewrite forward_of_spec by done. apply length_fmap.
  - apply edge_in_range; [unfold n; rewrite forward_of_spec by done; apply length_fmap|].
    intros u v Huv%forward_edges; [by eapply Hhop|done].
Qed.

(** Four operators in a ring, and the same with one edge turned round. *)
Definition ring (index : nat) (id : byte) (next : nat) : Operator :=
  mkOperator index [id] [] [] [] [] [] [] [next] [].
Definition example_ring (last : nat) : list Operator :=
  [ring 0 x61 1; ring 1 x62 2; ring 2 x63 3; ring 3 x64 last].

Lemma strong_connectivity_exact_witness :
  rtc (hop (example_ring 0)) 2%nat 1%nat /\ validateStrongConnectivity (example_ring 2) = false.
Proof.
  split; [|reflexivity].
  apply (proj1 (strong_connectivity_exact (example_ring 0) ltac:(
    intros [|[|[|[|i]]]] o [= <-]; (split; [reflexivity|repeat constructor])))); [reflexivity|simpl; lia|simpl; lia].
Defined.
