(* ===== verification/TopologyDocument.v ===== *)
(** The signed topology as a document ([live/topology/topology.go]): what is
    checked of it, its canonical text, the attestations of the operators and the
    signature of the authority over that text, and its complete verification. *)

From stdpp Require Import base list list_numbers strings sets sorting relations.
From Stdlib Require Import ZArith Lia Strings.Byte.
From S2P Require Import Prelude Bytes Hash Codec CanonicalJSON StrictJSON Endpoint Checkpoint Topology Kyber.

(** ** Interfaces *)

Definition TopologyVersion : list byte := text "nomad-live-topology-v3".
Definition CellSize : Z := 1200.
Definition MaximumTopologyBytes : Z := Z.shiftl 1 20.

Record Signed := mkSignedTopology {
  SDocument : Document;
  SSignature : list byte;        (* base64 text *)
}.

(** What a JSON decoder can put in a document: numbers of the width of their
    fields, texts that are valid UTF-8. *)
Definition operator_typed (o : Operator) : Prop :=
  Forall (fun s => valid_utf8 s = true) [OpID o; Endpoint o; PartialEndpoint o; DKGEndpoint o; IdentityKey o; KEXKey o;
    DKGIdentityKey o; Attestation o] /\
  fits 16 (Z.of_nat (OpIndex o)) /\ Forall (fun p => fits 16 (Z.of_nat p)) (PeerPlan o).

Definition document_typed (d : Document) : Prop :=
  Forall (fun s => valid_utf8 s = true) [DocVersion d; NetworkID d; NotBefore d; NotAfter d; SessionID (DKG d); StartAt (DKG d)] /\
  fits 64 (DocEpoch d) /\ fits 16 (TrafficCellSize (Traffic d)) /\ fits 32 (CellIntervalMillis (Traffic d)) /\
  fits 32 (MaxLatenessMillis (Traffic d)) /\ fits 32 (QueueCapacity (Traffic d)) /\ fits 32 (Threshold (DKG d)) /\
  fits 32 (PhaseDurationMillis (DKG d)) /\ Forall operator_typed (Operators d).

(** [signed_json] is the decoding of a signed topology that refuses unknown keys and
    anything after the value; [url_parse] is [url.Parse];
    [contributory] tells whether [ECDH] with a fixed key accepts a peer's X25519
    key; [Inv] inverts a scalar of the group. *)
Class TopologyInputs `{KyberGroup} := {
  signed_json : list byte -> option Signed;
  url_parse : list byte -> option URL;
  contributory : list byte -> bool;
  Inv : scalar -> scalar;
  signed_json_typed : forall b s, signed_json b = Some s -> document_typed (SDocument s);
}.

Inductive topology_error :=
| ErrTopologySize
| ErrAuthorityKey
| ErrTopologyAmbiguous
| ErrTopologyDecode
| ErrTopologyVersion
| ErrNetworkID
| ErrTopologyEpoch
| ErrNotBefore
| ErrNotAfter
| ErrNotCurrent
| ErrCellSize
| ErrCellInterval
| ErrLateness
| ErrQueueCapacity
| ErrOperatorCount
| ErrThreshold
| ErrSession
| ErrDKGStart
| ErrPhaseDuration
| ErrDKGEnd
| ErrOperatorIndex
| ErrOperatorID
| ErrDuplicateID
| ErrUDPEndpoint (e : endpoint_error)
| ErrDuplicateUDP
| ErrPartialURL
| ErrPartialEndpoint (e : endpoint_error)
| ErrDuplicatePartial
| ErrDKGURL
| ErrDKGEndpoint (e : endpoint_error)
| ErrDuplicateDKG
| ErrIdentityKey
| ErrDuplicateIdentity
| ErrKEXKey
| ErrNonContributory
| ErrDuplicateKEX
| ErrDKGIdentity
| ErrDuplicateDKGIdentity
| ErrPeerPlanLength
| ErrPeerSlot
| ErrDuplicatePeer
| ErrConnectivity
| ErrCanonical (e : canonical_error)
| ErrAuthoritySignature
| ErrAttestation
| ErrPrivateKey
| ErrUnknownOperator
| ErrKeyMismatch.

Section topology.
Context `{HashFunction, SignatureScheme, Calendar, TopologyInputs}.

(** ** Structure *)

(** [mix.ValidateDKGPublicIdentity] ([dkg_protocol.go]). *)
Definition ValidateDKGPublicIdentity (key : list byte) : bool :=
  match unmarshal key with
  | None => false
  | Some p =>
      if negb (bool_decide (Kyber.marshal p = key)) then false
      else if bool_decide (p = Null) then false
      else
        let cleared := pmul (SetInt64 8) p in
        if bool_decide (cleared = Null) then false
        else bool_decide (pmul (Inv (SetInt64 8)) cleared = p)
  end.

(** The keys of the maps that the loop over the operators fills. *)
Record seen := mkSeen {
  seenIDs : list (list byte);
  seenEndpoints : list (list byte);
  seenPartials : list (list byte);
  seenDKG : list (list byte);
  seenIdentities : list (list byte);
  seenKEX : list (list byte);
  seenDKGIdentities : list (list byte);
}.

(** [if _, exists := m[key]; exists { return err }; m[key] = struct{}{}] *)
Definition fresh (e : topology_error) (key : list byte) (m : list (list byte)) : result topology_error (list (list byte)) :=
  if bool_decide (key ∈ m) then Err e else Ok (key :: m).

Definition require (condition : bool) (e : topology_error) : result topology_error unit :=
  if condition then Ok tt else Err e.

Definition validPartialURL (url : URL) : bool :=
  (bool_decide (Scheme url = http) || bool_decide (Scheme url = https)) && bare url.

Fixpoint check_peers (n index : nat) (slots peers : list nat) : result topology_error unit :=
  match peers with
  | [] => Ok tt
  | peer :: peers =>
      if Nat.leb n peer || Nat.eqb peer index then Err ErrPeerSlot
      else if bool_decide (peer ∈ slots) then Err ErrDuplicatePeer
      else check_peers n index (peer :: slots) peers
  end.

(** One turn of the loop over the operators. *)
Definition check_operator (n index : nat) (s : seen) (o : Operator) : result topology_error seen :=
  _ ← require (Nat.eqb (OpIndex o) index) ErrOperatorIndex;
  _ ← require (operatorIDPattern (OpID o)) ErrOperatorID;
  ids ← fresh ErrDuplicateID (OpID o) (seenIDs s);
  canonical ← wrap ErrUDPEndpoint (canonicalEndpoint (Endpoint o));
  endpoints ← fresh ErrDuplicateUDP canonical (seenEndpoints s);
  partialURL ← (match url_parse (PartialEndpoint o) with
                | Some url => if validPartialURL url then Ok url else Err ErrPartialURL
                | None => Err ErrPartialURL
                end);
  canonicalPartial ← wrap ErrPartialEndpoint (canonicalURLEndpoint (Some partialURL));
  partials ← fresh ErrDuplicatePartial canonicalPartial (seenPartials s);
  dkgURL ← (match url_parse (DKGEndpoint o) with
            | Some url => if validCeremonyURL url then Ok url else Err ErrDKGURL
            | None => Err ErrDKGURL
            end);
  canonicalDKG ← wrap ErrDKGEndpoint (canonicalURLEndpoint (Some dkgURL));
  dkg ← fresh ErrDuplicateDKG canonicalDKG (seenDKG s);
  _ ← require (bool_decide (is_Some (decodeBase64 (IdentityKey o) 32))) ErrIdentityKey;
  identities ← fresh ErrDuplicateIdentity (IdentityKey o) (seenIdentities s);
  kexBytes ← (match decodeBase64 (KEXKey o) 32 with Some b => Ok b | None => Err ErrKEXKey end);
  _ ← require (contributory kexBytes) ErrNonContributory;
  kex ← fresh ErrDuplicateKEX (KEXKey o) (seenKEX s);
  dkgBytes ← (match decodeBase64 (DKGIdentityKey o) 32 with Some b => Ok b | None => Err ErrDKGIdentity end);
  _ ← require (ValidateDKGPublicIdentity dkgBytes) ErrDKGIdentity;
  dkgIdentities ← fresh ErrDuplicateDKGIdentity (DKGIdentityKey o) (seenDKGIdentities s);
  _ ← require (negb (Nat.eqb (length (PeerPlan o)) 0) && Nat.ltb (length (PeerPlan o)) n) ErrPeerPlanLength;
  _ ← check_peers n (OpIndex o) [] (PeerPlan o);
  Ok (mkSeen ids endpoints partials dkg identities kex dkgIdentities).

Fixpoint check_operators (n index : nat) (s : seen) (operators : list Operator) : result topology_error unit :=
  match operators with
  | [] => Ok tt
  | o :: operators => s ← check_operator n index s o; check_operators n (S index) s operators
  end.

Definition millisecond : Z := 1000000.

(** [validateDocument]; [now] is absent for Go's zero time. *)
Definition validateDocument (d : Document) (now : option Z) : result topology_error unit :=
  _ ← require (bool_decide (DocVersion d = TopologyVersion)) ErrTopologyVersion;
  _ ← require (operatorIDPattern (NetworkID d)) ErrNetworkID;
  _ ← require (negb (DocEpoch d =? 0)) ErrTopologyEpoch;
  notBefore ← (match parse_time (NotBefore d) with Some t => Ok t | None => Err ErrNotBefore end);
  notAfter ← (match parse_time (NotAfter d) with
              | Some t => if notBefore <? t then Ok t else Err ErrNotAfter
              | None => Err ErrNotAfter
              end);
  _ ← require (match now with Some t => (notBefore <=? t) && (t <? notAfter) | None => true end) ErrNotCurrent;
  let traffic := Traffic d in
  _ ← require (TrafficCellSize traffic =? CellSize) ErrCellSize;
  _ ← require ((5 <=? CellIntervalMillis traffic) && (CellIntervalMillis traffic <=? 60000)) ErrCellInterval;
  _ ← require ((CellIntervalMillis traffic <=? MaxLatenessMillis traffic) &&
               (MaxLatenessMillis traffic <=? u32 (10 * CellIntervalMillis traffic))) ErrLateness;
  _ ← require ((16 <=? QueueCapacity traffic) && (QueueCapacity traffic <=? 65536)) ErrQueueCapacity;
  let n := length (Operators d) in
  _ ← require (Nat.leb 3 n && Nat.leb n 64) ErrOperatorCount;
  _ ← require ((2 <=? Threshold (DKG d)) && (Threshold (DKG d) <=? Z.of_nat n)) ErrThreshold;
  _ ← require (bool_decide (is_Some (decodeBase64 (SessionID (DKG d)) 32))) ErrSession;
  dkgStart ← (match parse_time (StartAt (DKG d)) with
              | Some t => if t <? notBefore then Err ErrDKGStart else Ok t
              | None => Err ErrDKGStart
              end);
  _ ← require ((1000 <=? PhaseDurationMillis (DKG d)) && (PhaseDurationMillis (DKG d) <=? 600000)) ErrPhaseDuration;
  _ ← require (dkgStart + 4 * PhaseDurationMillis (DKG d) * millisecond <=? notAfter) ErrDKGEnd;
  _ ← check_operators n 0 (mkSeen [] [] [] [] [] [] []) (Operators d);
  require (validateStrongConnectivity (Operators d)) ErrConnectivity.
End topology.

(** ** The canonical text *)

Definition jtext (s : list byte) : json := JString (coerce_utf8 s).
Definition jnumber (v : Z) : json := JNumber (FormatUint v).

(** A copied slice is nil when it is empty. *)
Definition jslice (l : list json) : json := match l with [] => JNull | _ => JArray l end.

(** The members of a struct, in the order of its declaration. *)
Definition jstruct (names : list (list byte)) (values : list json) : json := JObject (zip names values).

Definition operator_names : list (list byte) :=
  [text "id"; text "index"; text "endpoint"; text "partial_endpoint"; text "dkg_endpoint"; text "identity_key"; text "kex_key";
   text "dkg_identity_key"; text "peer_plan"; text "attestation"].
Definition operator_value (o : Operator) : json := jstruct operator_names
  [jtext (OpID o); jnumber (Z.of_nat (OpIndex o)); jtext (Endpoint o); jtext (PartialEndpoint o); jtext (DKGEndpoint o);
   jtext (IdentityKey o); jtext (KEXKey o); jtext (DKGIdentityKey o);
   jslice (map (fun p => jnumber (Z.of_nat p)) (PeerPlan o)); jtext (Attestation o)].

Definition traffic_names : list (list byte) :=
  [text "cell_size"; text "cell_interval_ms"; text "max_lateness_ms"; text "queue_capacity"].
Definition traffic_value (t : TrafficClass) : json := jstruct traffic_names
  [jnumber (TrafficCellSize t); jnumber (CellIntervalMillis t); jnumber (MaxLatenessMillis t); jnumber (QueueCapacity t)].

Definition dkg_names : list (list byte) := [text "threshold"; text "session_id"; text "start_at"; text "phase_duration_ms"].
Definition dkg_value (p : DKGProfile) : json := jstruct dkg_names
  [jnumber (Threshold p); jtext (SessionID p); jtext (StartAt p); jnumber (PhaseDurationMillis p)].

Definition document_names : list (list byte) :=
  [text "version"; text "network_id"; text "epoch"; text "not_before"; text "not_after"; text "traffic"; text "dkg"; text "operators"].
Definition document_value (d : Document) : json := jstruct document_names
  [jtext (DocVersion d); jtext (NetworkID d); jnumber (DocEpoch d); jtext (NotBefore d); jtext (NotAfter d);
   traffic_value (Traffic d); dkg_value (DKG d); jslice (map operator_value (Operators d))].

Definition canonicalDocument (d : Document) : result topology_error (list byte) :=
  wrap ErrCanonical (writeCanonical (document_value d)).

(** The document with every attestation blank. *)
Definition set_attestation (a : list byte) (o : Operator) : Operator :=
  mkOperator (OpIndex o) (OpID o) (Endpoint o) (PartialEndpoint o) (DKGEndpoint o) (IdentityKey o) (KEXKey o)
    (DKGIdentityKey o) (PeerPlan o) a.

Definition set_operators (d : Document) (operators : list Operator) : Document :=
  mkDocument (DocVersion d) (NetworkID d) (DocEpoch d) (NotBefore d) (NotAfter d) (Traffic d) (DKG d) operators.

Definition draft (d : Document) : Document := set_operators d (map (set_attestation []) (Operators d)).

Definition topology_message (domain payload : list byte) : list byte := domain ++ payload.
Definition authorityDomain : list byte := text "nomad-topology-authority-v3".
Definition attestationDomain : list byte := text "nomad-operator-attestation-v3".
Definition draftDomain : list byte := text "nomad-topology-draft-v3".
Definition topologyDigestDomain : list byte := text "nomad-topology-digest-v3".

Definition operatorSigningMessage (d : Document) (operatorID : list byte) : result topology_error (list byte) :=
  canonical ← wrap ErrCanonical (writeCanonical
    (jstruct [text "operator_id"; text "document"] [jtext operatorID; document_value (draft d)]));
  Ok (topology_message attestationDomain canonical).

(** ** Signatures *)

Record VerifiedTopology := mkVerifiedTopology {
  TDocument : Document;
  TDigest : list byte;
}.

Section signing.
Context `{HashFunction, SignatureScheme, Calendar, TopologyInputs}.

Definition check_attestation (d : Document) (o : Operator) : result topology_error unit :=
  match decodeBase64 (IdentityKey o) 32 with
  | None => Err ErrIdentityKey
  | Some publicKey =>
      match decodeBase64 (Attestation o) 64 with
      | None => Err ErrAttestation
      | Some attestation =>
          message ← operatorSigningMessage d (OpID o);
          if negb (verify publicKey message attestation) then Err ErrAttestation else Ok tt
      end
  end.

Definition verifyAttestations (d : Document) : result topology_error unit :=
  _ ← collect (check_attestation d) (Operators d); Ok tt.

Definition ValidateDraft (d : Document) : result topology_error unit := validateDocument d None.

Definition ValidateAttestations (d : Document) : result topology_error unit :=
  _ ← validateDocument d None; verifyAttestations d.

Definition DraftDigest (d : Document) : result topology_error (list byte) :=
  _ ← validateDocument (draft d) None;
  canonical ← canonicalDocument (draft d);
  Ok (sha256 (topology_message draftDomain canonical)).

Definition VerifyTopology (encoded authority : list byte) (now : option Z) : result topology_error VerifiedTopology :=
  if bool_decide (encoded = []) || (MaximumTopologyBytes <? len encoded) then Err ErrTopologySize
  else if negb (Nat.eqb (length authority) 32) then Err ErrAuthorityKey
  else if negb (is_ok (RejectDuplicateKeys encoded)) then Err ErrTopologyAmbiguous
  else match signed_json encoded with
  | None => Err ErrTopologyDecode
  | Some signed =>
      _ ← validateDocument (SDocument signed) now;
      canonical ← canonicalDocument (SDocument signed);
      match decodeBase64 (SSignature signed) 64 with
      | None => Err ErrAuthoritySignature
      | Some signature =>
          if negb (verify authority (topology_message authorityDomain canonical) signature) then Err ErrAuthoritySignature
          else
            _ ← verifyAttestations (SDocument signed);
            Ok (mkVerifiedTopology (SDocument signed) (sha256 (topology_message topologyDigestDomain canonical)))
      end
  end.

(** [Attest]: the first operator with the identifier signs the draft. *)
Definition Attest (d : Document) (operatorID identity : list byte) : result topology_error Document :=
  if negb (Nat.eqb (length identity) 64) then Err ErrPrivateKey
  else
    _ ← validateDocument d None;
    match list_find (fun o => OpID o = operatorID) (Operators d) with
    | None => Err ErrUnknownOperator
    | Some (i, o) =>
        if negb (bool_decide (decodeBase64 (IdentityKey o) 32 = Some (public identity))) then Err ErrKeyMismatch
        else
          message ← operatorSigningMessage d (OpID o);
          Ok (set_operators d (<[i := set_attestation (b64_encode (sign identity message)) o]> (Operators d)))
    end.

Definition Finalize (d : Document) (authority : list byte) : result topology_error Signed :=
  if negb (Nat.eqb (length authority) 64) then Err ErrPrivateKey
  else
    _ ← validateDocument d None;
    _ ← verifyAttestations d;
    canonical ← canonicalDocument d;
    Ok (mkSignedTopology d (b64_encode (sign authority (topology_message authorityDomain canonical)))).

(** [Sign]; a missing identity is an empty key. *)
Fixpoint attest_all (d : Document) (ids : list (list byte)) (identities : list byte -> list byte) : result topology_error Document :=
  match ids with
  | [] => Ok d
  | id :: ids => d ← Attest d id (identities id); attest_all d ids identities
  end.

Definition SignTopology (d : Document) (authority : list byte) (identities : list byte -> list byte) : result topology_error Signed :=
  attested ← attest_all d (map OpID (Operators d)) identities; Finalize attested authority.

(** [OperatorIdentity] and [StableOperatorIDs]. *)
Definition OperatorIdentity (o : Operator) : option (list byte) := decodeBase64 (IdentityKey o) 32.
End signing.

(** ** The text binds the document *)

Lemma coerce_valid s : exists rs, utf8 (coerce_utf8 s) rs.
Proof.
  induction s as [s IH] using (induction_ltof1 _ (@length byte)). unfold ltof in IH.
  destruct s as [|b0 l1]; [exists []; constructor|]. cbn [coerce_utf8].
  assert (exists rs, utf8 (xef :: xbf :: xbd :: coerce_utf8 l1) rs) as Hbad.
  { destruct (IH l1) as [rs Hrs]; [simpl; lia|]. exists (rune3 xef xbf xbd :: rs). by apply utf8_3. }
  destruct (between 0 127 b0) eqn:E1; [destruct (IH l1) as [rs Hrs]; [simpl; lia|]; eexists; by apply utf8_1|].
  destruct l1 as [|b1 l2]; [done|].
  destruct (between 194 223 b0 && continuation b1) eqn:E2.
  { destruct (IH l2) as [rs Hrs]; [simpl; lia|]. reflect_bools. eexists. by apply utf8_2. }
  destruct l2 as [|b2 l3]; [done|].
  destruct (between 224 239 b0 && _ && _) eqn:E3.
  { destruct (IH l3) as [rs Hrs]; [simpl; lia|]. reflect_bools. eexists. by apply utf8_3. }
  destruct l3 as [|b3 l4]; [done|]. destruct (between 240 244 b0 && _ && _ && _) eqn:E4; [|done].
  destruct (IH l4) as [rs Hrs]; [simpl; lia|]. reflect_bools. eexists. by apply utf8_4.
Qed.

Lemma between_below lo hi lo' hi' b : between lo hi b = true -> hi' < lo -> between lo' hi' b = false.
Proof. unfold between. intros Hb Hlt. reflect_bools. apply andb_false_iff. right. apply Z.leb_gt. lia. Qed.

(** The first test a first byte passes is the one of its encoding. *)
Lemma utf8_runes s rs : utf8 s rs -> runes s = map Some rs /\ coerce_utf8 s = s.
Proof.
  induction 1 as [|b0 l rs E0 _ [IH IHc]|b0 b1 l rs E0 E1 _ [IH IHc]|b0 b1 b2 l rs E0 E1 E2 _ [IH IHc]|
    b0 b1 b2 b3 l rs E0 E1 E2 E3 _ [IH IHc]]; [done|..]; cbn [runes coerce_utf8 map]; cbv zeta.
  - by rewrite E0, IH, IHc.
  - assert (between 0 127 b0 = false) as -> by (by eapply between_below; [exact E0|]).
    by rewrite E0, E1, IH, IHc.
  - assert (between 0 127 b0 = false) as -> by (by eapply between_below; [exact E0|]).
    assert (between 194 223 b0 = false) as -> by (by eapply between_below; [exact E0|]).
    by rewrite E0, E1, E2, IH, IHc.
  - assert (between 0 127 b0 = false) as -> by (by eapply between_below; [exact E0|]).
    assert (between 194 223 b0 = false) as -> by (by eapply between_below; [exact E0|]).
    assert (between 224 239 b0 = false) as -> by (by eapply between_below; [exact E0|]).
    by rewrite E0, E1, E2, E3, IH, IHc.
Qed.

Lemma coerce_id s : valid_utf8 s = true -> coerce_utf8 s = s.
Proof. intros (rs & Hu & _)%valid_utf8_decodes. by apply (utf8_runes s rs). Qed.

Lemma jtext_writes s : exists w, writeCanonical (jtext s) = Ok w.
Proof.
  destruct (coerce_valid s) as [rs Hrs]. cbn [jtext writeCanonical]. unfold writeCanonicalString, valid_utf8.
  rewrite (proj1 (utf8_runes _ _ Hrs)). assert (forallb (fun r => bool_decide (is_Some r)) (map Some rs) = true) as ->; [|eauto].
  apply forallb_forall. intros r (x & <- & _)%in_map_iff. by apply bool_decide_true.
Qed.

Lemma jnumber_writes v : fits 64 v -> exists w, writeCanonical (jnumber v) = Ok w.
Proof.
  intros Hv. exists (FormatUint v). cbn [jnumber writeCanonical]. unfold writeCanonicalNumber.
  destruct (FormatUint_head v Hv) as (b & t & E & Hb), (FormatUint_spec v Hv) as [_ Hd]. rewrite E in *.
  assert (is_digit b = true) as Hdb by (cbn [forallb] in Hd; by apply andb_true_iff in Hd as [? _]).
  assert (trim_minus (b :: t) = b :: t) as -> by (destruct b; try reflexivity; discriminate Hdb).
  rewrite !bool_decide_false, Hd by done. cbn [negb].
  destruct ((1 <? len (b :: t)) && _) eqn:Ez.
  { reflect_bools. cbn [head] in *. destruct t; [simpl in *; lia|]. by destruct Hb; [|congruence]. }
  rewrite bool_decide_false; [done|]. intros [= -> ->]. discriminate Hdb.
Qed.

Definition writes (v : json) : Prop := exists w, writeCanonical v = Ok w.

Lemma collect_writes l : Forall writes l -> exists ws, collect writeCanonical l = Ok ws.
Proof.
  induction 1 as [|v l [w Hw] _ [ws IH]]; [by exists []|]. exists (w :: ws). simpl. rewrite Hw. cbn [mbind result_bind]. by rewrite IH.
Qed.

Lemma jslice_writes l : Forall writes l -> writes (jslice l).
Proof.
  intros Hl. destruct l as [|v l]; [by eexists|]. destruct (collect_writes _ Hl) as [ws E].
  eexists. cbn [jslice]. rewrite write_array, E. done.
Qed.

Lemma jstruct_writes names values : Forall (fun n => valid_utf8 n = true) names -> Forall writes values ->
  writes (jstruct names values).
Proof.
  intros Hn Hv. unfold writes, jstruct. rewrite write_object.
  assert (Forall (fun m => exists w, write_pair m = Ok w) (merge_sort by_name (zip names values))) as Hm.
  { rewrite merge_sort_Permutation. revert values Hv. induction Hn as [|n names Hn _ IH]; intros values Hv; [done|].
    destruct Hv as [|v values [w Hw] Hv]; [done|]. constructor; [|by apply IH]. unfold write_pair, write_member, writeCanonicalString. simpl.
    rewrite Hn, Hw. by eexists. }
  assert (exists ws, collect write_pair (merge_sort by_name (zip names values)) = Ok ws) as [ws ->]; [|by eexists].
  induction Hm as [|m l [w Hw] _ [ws IH]]; [by exists []|]. exists (w :: ws). simpl. rewrite Hw. cbn [mbind result_bind]. by rewrite IH.
Qed.

(** A struct's text gives back its values. *)
Lemma zip_on_values names values : length values = length names ->
  zip names values = map (on_values (fun i => default JNull (values !! i))) (zip names (seq 0 (length names))).
Proof.
  intros Hl. apply list_eq. intros i. rewrite (list_lookup_fmap (on_values _)). rewrite !lookup_zip_with.
  destruct (names !! i) as [n|] eqn:En; [|done]. simpl. pose proof (lookup_lt_Some _ _ _ En) as Hi.
  rewrite lookup_seq_lt by done. simpl. destruct (lookup_lt_is_Some_2 values i) as [v Hv]; [lia|]. rewrite Hv. simpl.
  unfold on_values. simpl. by rewrite Hv.
Qed.

Lemma jstruct_inj names values values' : length values = length names -> length values' = length names ->
  canonical (jstruct names values) = canonical (jstruct names values') -> map canonical values = map canonical values'.
Proof.
  intros Hl Hl'. unfold jstruct. rewrite !canonical_object, (zip_on_values names values), (zip_on_values names values') by done.
  rewrite !merge_sort_on_values, !map_map. intros [= E]. apply list_eq. intros i.
  rewrite !(list_lookup_fmap canonical). destruct (decide (i < length names)%nat) as [Hi|Hi].
  - destruct (lookup_lt_is_Some_2 values i) as [v Hv]; [lia|]. destruct (lookup_lt_is_Some_2 values' i) as [v' Hv']; [lia|].
    rewrite Hv, Hv'. simpl. f_equal. destruct (lookup_lt_is_Some_2 names i Hi) as [n Hn].
    assert ((n, i) ∈ merge_sort by_name (zip names (seq 0 (length names)))) as Hin.
    { rewrite merge_sort_Permutation. apply (list_elem_of_lookup_2 _ i). rewrite lookup_zip_with, Hn, lookup_seq_lt by done. done. }
    apply list_elem_of_lookup_1 in Hin as [j Hj]. apply (f_equal (fun l => l !! j)) in E.
    rewrite !(list_lookup_fmap (fun x => on_values canonical (on_values _ x))), !Hj in E. simpl in E.
    unfold on_values in E. simpl in E. rewrite Hv, Hv' in E. by injection E.
  - rewrite !lookup_ge_None_2 by lia. done.
Qed.

Lemma canonical_jtext s s' : valid_utf8 s = true -> valid_utf8 s' = true -> canonical (jtext s) = canonical (jtext s') -> s = s'.
Proof. intros Hs Hs'. cbn [canonical jtext]. rewrite !coerce_id by done. by intros [= ->]. Qed.

Lemma canonical_jnumber v v' : fits 64 v -> fits 64 v' -> canonical (jnumber v) = canonical (jnumber v') -> v = v'.
Proof. intros Hv Hv' E. apply FormatUint_inj; [done..|]. unfold jnumber in E. cbn [canonical] in E. congruence. Qed.

Lemma canonical_jslice l : canonical (jslice l) = JArray (map canonical l).
Proof. by destruct l. Qed.

Lemma map_inj_on {A} (P : A -> Prop) (f : A -> json) l l' :
  (forall a b, P a -> P b -> canonical (f a) = canonical (f b) -> a = b) -> Forall P l -> Forall P l' ->
  canonical (jslice (map f l)) = canonical (jslice (map f l')) -> l = l'.
Proof.
  intros Hf Hl Hl'. rewrite !canonical_jslice, !map_map. intros [= E]. revert l' Hl' E.
  induction Hl as [|a l Ha _ IH]; intros l' Hl' E; destruct Hl' as [|b l' Hb Hl']; try discriminate E; [done|].
  pose proof (f_equal head E) as Ea. pose proof (f_equal tail E) as El. cbn [map head tail] in Ea, El. apply (inj Some) in Ea.
  by rewrite (Hf a b Ha Hb Ea), (IH l' Hl' El).
Qed.

(** Values of a struct, one equation each. *)
Ltac struct_fields E :=
  apply jstruct_inj in E; [|done..];
  repeat match type of E with
  | map canonical (_ :: _) = _ =>
      let Eh := fresh "Ef" in
      pose proof (f_equal head E) as Eh; apply (f_equal tail) in E; cbn [map head tail] in Eh, E; apply (inj Some) in Eh
  | _ :: _ = _ :: _ =>
      let Eh := fresh "Ef" in
      pose proof (f_equal head E) as Eh; apply (f_equal tail) in E; cbn [head tail] in Eh, E; apply (inj Some) in Eh
  end; clear E.

Ltac struct_eqs :=
  repeat match goal with
  | Ef : canonical (jtext _) = canonical (jtext _) |- _ => apply canonical_jtext in Ef; [|done..]
  | Ef : canonical (jnumber _) = canonical (jnumber _) |- _ =>
      apply canonical_jnumber in Ef; [|unfold fits in *; lia..]
  end.

Lemma operator_eta o : o = mkOperator (OpIndex o) (OpID o) (Endpoint o) (PartialEndpoint o) (DKGEndpoint o) (IdentityKey o)
  (KEXKey o) (DKGIdentityKey o) (PeerPlan o) (Attestation o).
Proof. by destruct o. Qed.

Lemma operator_value_inj o o' : operator_typed o -> operator_typed o' ->
  canonical (operator_value o) = canonical (operator_value o') -> o = o'.
Proof.
  intros (Ht & Hi & Hp) (Ht' & Hi' & Hp') E. unfold operator_value in E. split_forall. struct_fields E. struct_eqs.
  match goal with Ef : canonical (jslice _) = _ |- _ =>
    apply (map_inj_on (fun p => fits 16 (Z.of_nat p))) in Ef; [|intros a b Ha Hb Eab; apply canonical_jnumber in Eab;
      unfold fits in *; lia|done..] end.
  match goal with Ef : Z.of_nat _ = Z.of_nat _ |- _ => apply Nat2Z.inj in Ef end.
  rewrite (operator_eta o), (operator_eta o'). congruence.
Qed.

Lemma document_eta d : d = mkDocument (DocVersion d) (NetworkID d) (DocEpoch d) (NotBefore d) (NotAfter d)
  (mkTraffic (TrafficCellSize (Traffic d)) (CellIntervalMillis (Traffic d)) (MaxLatenessMillis (Traffic d)) (QueueCapacity (Traffic d)))
  (mkDKGProfile (Threshold (DKG d)) (SessionID (DKG d)) (StartAt (DKG d)) (PhaseDurationMillis (DKG d))) (Operators d).
Proof. by destruct d as [? ? ? ? ? [] [] ?]. Qed.

Lemma document_value_inj d d' : document_typed d -> document_typed d' ->
  canonical (document_value d) = canonical (document_value d') -> d = d'.
Proof.
  intros (Ht & He & Hc & Hci & Hml & Hq & Hth & Hph & Ho) (Ht' & He' & Hc' & Hci' & Hml' & Hq' & Hth' & Hph' & Ho') E.
  unfold document_value in E. split_forall. struct_fields E.
  repeat match goal with
  | Ef : canonical (traffic_value _) = _ |- _ => unfold traffic_value in Ef; struct_fields Ef
  | Ef : canonical (dkg_value _) = _ |- _ => unfold dkg_value in Ef; struct_fields Ef
  end. struct_eqs.
  match goal with Ef : canonical (jslice _) = _ |- _ => apply (map_inj_on operator_typed) in Ef; [|apply operator_value_inj|done..] end.
  rewrite (document_eta d), (document_eta d'). congruence.
Qed.

(** ** What a validated document satisfies *)

Lemma require_ok c e : require c e = Ok tt <-> c = true.
Proof. unfold require. by destruct c. Qed.

Lemma fresh_ok e key m m' : fresh e key m = Ok m' <-> key ∉ m /\ m' = key :: m.
Proof. unfold fresh. case_bool_decide; naive_solver. Qed.

Lemma check_peers_ok n index slots peers : check_peers n index slots peers = Ok tt ->
  NoDup peers /\ Forall (fun p => (p < n)%nat /\ p <> index) peers /\ Forall (fun p => p ∉ slots) peers.
Proof.
  revert slots. induction peers as [|p peers IH]; intros slots; cbn [check_peers].
  { intros _. split_and!; [constructor|done..]. }
  destruct (Nat.leb_spec n p); [done|]. destruct (Nat.eqb_spec p index); [done|]. cbn [orb].
  case_bool_decide as Hp; [done|]. intros (Hn & Hf & Hs)%IH. rewrite Forall_forall in Hs. split_and!.
  - constructor; [|done]. intros Hin. apply (Hs p Hin). by left.
  - by constructor.
  - constructor; [done|]. apply Forall_forall. intros x Hx Hin. apply (Hs x Hx). by right.
Qed.

(** Run through a sequence of checks that ended well. *)
Ltac run_checks E :=
  repeat (match type of E with
  | (require ?c ?e ≫= _) = _ => destruct (require c e) as [[]|] eqn:?; [|discriminate E]
  | (fresh ?e ?k ?m ≫= _) = _ => destruct (fresh e k m) as [?|] eqn:?; [|discriminate E]
  | (wrap ?f ?r ≫= _) = _ => destruct r as [?|] eqn:?; [|discriminate E]; cbn [wrap] in E
  | ((match ?x with Some _ => _ | None => _ end) ≫= _) = _ => destruct x as [?|] eqn:?; [|discriminate E]
  | ((if ?c then _ else _) ≫= _) = _ => destruct c eqn:?; try discriminate E
  | (?r ≫= _) = _ => destruct r as [[]|] eqn:?; [|discriminate E]
  end; cbn [mbind result_bind] in E);
  repeat match goal with
  | Hr : require _ _ = Ok _ |- _ => apply require_ok in Hr
  | Hr : fresh _ _ _ = Ok _ |- _ => apply fresh_ok in Hr as [? ->]
  | Hr : check_peers _ _ _ _ = Ok _ |- _ => apply check_peers_ok in Hr as (? & ? & _)
  end.

Section validated.
Context `{HashFunction, SignatureScheme, Calendar, TopologyInputs}.

(** The forms under which endpoints are compared. *)
Definition endpoint_key (o : Operator) : list byte := match canonicalEndpoint (Endpoint o) with Ok k => k | Err _ => [] end.
Definition url_key (url : list byte) : list byte :=
  match canonicalURLEndpoint (url_parse url) with Ok k => k | Err _ => [] end.

(** The socket address that a URL names. *)
Definition url_socket (url : list byte) : option (target * Z) := u ← url_parse url; socket (JoinHostPort (Hostname u) (Port u)).

Definition plan_ok (n index : nat) (plan : list nat) : Prop :=
  plan <> [] /\ NoDup plan /\ Forall (fun peer => (peer < n)%nat /\ peer <> index) plan.

Record operator_ok (n index : nat) (o : Operator) : Prop := {
  ok_index : OpIndex o = index;
  ok_id : operatorIDPattern (OpID o) = true;
  ok_endpoint : exists k, canonicalEndpoint (Endpoint o) = Ok k;
  ok_partial : exists k, canonicalURLEndpoint (url_parse (PartialEndpoint o)) = Ok k;
  ok_ceremony : exists k, canonicalURLEndpoint (url_parse (DKGEndpoint o)) = Ok k;
  ok_identity : exists key, decodeBase64 (IdentityKey o) 32 = Some key;
  ok_kex : exists key, decodeBase64 (KEXKey o) 32 = Some key /\ contributory key = true;
  ok_dkg : exists key, decodeBase64 (DKGIdentityKey o) 32 = Some key /\ ValidateDKGPublicIdentity key = true;
  ok_plan : plan_ok n index (PeerPlan o);
}.

Lemma check_operator_ok n index s o s' : check_operator n index s o = Ok s' -> operator_ok n index o /\
  s' = mkSeen (OpID o :: seenIDs s) (endpoint_key o :: seenEndpoints s) (url_key (PartialEndpoint o) :: seenPartials s)
         (url_key (DKGEndpoint o) :: seenDKG s) (IdentityKey o :: seenIdentities s) (KEXKey o :: seenKEX s)
         (DKGIdentityKey o :: seenDKGIdentities s) /\
  OpID o ∉ seenIDs s /\ endpoint_key o ∉ seenEndpoints s /\ url_key (PartialEndpoint o) ∉ seenPartials s /\
  url_key (DKGEndpoint o) ∉ seenDKG s /\ IdentityKey o ∉ seenIdentities s /\ KEXKey o ∉ seenKEX s /\
  DKGIdentityKey o ∉ seenDKGIdentities s.
Proof.
  unfold check_operator. intros E. run_checks E. injection E as <-.
  match goal with He : canonicalEndpoint (Endpoint o) = Ok ?k |- _ => assert (endpoint_key o = k) as -> by (unfold endpoint_key; by rewrite He) end.
  repeat match goal with Hu : url_parse ?e = Some ?u, He : canonicalURLEndpoint (Some ?u) = Ok ?k |- _ =>
    assert (url_key e = k) as -> by (unfold url_key; by rewrite Hu, He); revert He end; intros.
  reflect_bools. split; [|split_and!; done]. split; eauto.
  - by apply Nat.eqb_eq.
  - match goal with Hu : url_parse (PartialEndpoint o) = Some _ |- _ => rewrite Hu end. eauto.
  - match goal with Hu : url_parse (DKGEndpoint o) = Some _ |- _ => rewrite Hu end. eauto.
  - match goal with Hn : Nat.eqb (OpIndex o) index = true |- _ => apply Nat.eqb_eq in Hn as <- end. split_and!; [|done..].
    intros Hnil. rewrite Hnil in *. done.
Qed.

Lemma check_operators_ok n index s operators : check_operators n index s operators = Ok tt ->
  forall i o, operators !! i = Some o -> operator_ok n (index + i) o.
Proof.
  revert index s. induction operators as [|o operators IH]; intros index s; cbn [check_operators]; [done|].
  destruct (check_operator n index s o) as [s'|] eqn:E; [|done]. cbn [mbind result_bind]. intros Er i x Hi.
  destruct i as [|i]; [injection Hi as <-; rewrite Nat.add_0_r; by apply check_operator_ok in E as [? _]|].
  rewrite <- Nat.add_succ_comm. by eapply IH.
Qed.

(** A key that one of the maps holds is different for every operator. *)
Lemma check_operators_distinct (held : seen -> list (list byte)) (key : Operator -> list byte) :
  (forall n index s o s', check_operator n index s o = Ok s' -> held s' = key o :: held s /\ key o ∉ held s) ->
  forall n index s operators, check_operators n index s operators = Ok tt ->
  NoDup (map key operators) /\ Forall (fun o => key o ∉ held s) operators.
Proof.
  intros Hheld n index s operators. revert index s. induction operators as [|o operators IH]; intros index s; cbn [check_operators map].
  { intros _. split; [constructor|done]. }
  destruct (check_operator n index s o) as [s'|] eqn:E; [|done]. cbn [mbind result_bind]. intros [Hn Hf]%IH.
  apply Hheld in E as [Es Ho]. rewrite Es in Hf. rewrite Forall_forall in Hf. split.
  - constructor; [|done]. intros (x & Ex & Hx)%list_elem_of_fmap. apply (Hf x Hx). rewrite <- Ex. by left.
  - constructor; [done|]. apply Forall_forall. intros x Hx Hin. apply (Hf x Hx). by right.
Qed.

Record document_ok (d : Document) : Prop := {
  ok_count : (3 <= length (Operators d) <= 64)%nat;
  ok_threshold : 2 <= Threshold (DKG d) <= len (Operators d);
  ok_epoch : DocEpoch d <> 0;
  ok_operators : forall i o, Operators d !! i = Some o -> operator_ok (length (Operators d)) i o;
  ok_ids : NoDup (map OpID (Operators d));
  ok_identities : NoDup (map IdentityKey (Operators d));
  ok_kex_keys : NoDup (map KEXKey (Operators d));
  ok_dkg_keys : NoDup (map DKGIdentityKey (Operators d));
  ok_endpoints : NoDup (map endpoint_key (Operators d));
  ok_partials : NoDup (map (fun o => url_key (PartialEndpoint o)) (Operators d));
  ok_dkg_endpoints : NoDup (map (fun o => url_key (DKGEndpoint o)) (Operators d));
  ok_connected : validateStrongConnectivity (Operators d) = true;
}.

Lemma validateDocument_ok d now : validateDocument d now = Ok tt -> document_ok d.
Proof.
  unfold validateDocument. cbv zeta. intros E. run_checks E.
  match goal with Ec : check_operators _ _ _ _ = Ok _ |- _ =>
    pose proof (check_operators_ok _ _ _ _ Ec) as Hops;
    assert (forall held key, (forall n index s o s', check_operator n index s o = Ok s' -> held s' = key o :: held s /\ key o ∉ held s) ->
      NoDup (map key (Operators d))) as Hnd
      by (intros held key Hk; by destruct (check_operators_distinct held key Hk _ _ _ _ Ec)) end.
  reflect_bools. split; try done.
  - match goal with Ha : Nat.leb 3 _ = true, Hb : Nat.leb _ 64 = true |- _ => apply Nat.leb_le in Ha, Hb; lia end.
  - apply (Hnd seenIDs). intros n i s o s' (_ & -> & ?)%check_operator_ok. naive_solver.
  - apply (Hnd seenIdentities). intros n i s o s' (_ & -> & ?)%check_operator_ok. naive_solver.
  - apply (Hnd seenKEX). intros n i s o s' (_ & -> & ?)%check_operator_ok. naive_solver.
  - apply (Hnd seenDKGIdentities). intros n i s o s' (_ & -> & ?)%check_operator_ok. naive_solver.
  - apply (Hnd seenEndpoints). intros n i s o s' (_ & -> & ?)%check_operator_ok. naive_solver.
  - apply (Hnd seenPartials (fun o => url_key (PartialEndpoint o))). intros n i s o s' (_ & -> & ?)%check_operator_ok. naive_solver.
  - apply (Hnd seenDKG (fun o => url_key (DKGEndpoint o))). intros n i s o s' (_ & -> & ?)%check_operator_ok. naive_solver.
Qed.

Lemma document_ok_indexed d : document_ok d -> indexed (Operators d).
Proof.
  intros Hd i o Ho. destruct (ok_operators d Hd i o Ho) as [Hi _ _ _ _ _ _ _ (_ & _ & Hp)]. split; [done|].
  eapply Forall_impl; [exact Hp|naive_solver].
Qed.

(** Two operators differ in whatever a key function with distinct values reads. *)
Lemma distinct_keys {A} (key : Operator -> A) operators i j o o' : NoDup (map key operators) ->
  operators !! i = Some o -> operators !! j = Some o' -> i <> j -> key o <> key o'.
Proof.
  intros Hn Hi Hj Hij E. apply Hij. apply (NoDup_lookup _ _ _ (key o) Hn); [|rewrite E]; rewrite (list_lookup_fmap key);
    [by rewrite Hi|by rewrite Hj].
Qed.

Lemma document_ok_sockets d i j o o' : document_ok d -> Operators d !! i = Some o -> Operators d !! j = Some o' -> i <> j ->
  socket (Endpoint o) <> socket (Endpoint o').
Proof.
  intros Hd Hi Hj Hij Es. apply (distinct_keys endpoint_key _ _ _ _ _ (ok_endpoints d Hd) Hi Hj Hij).
  destruct (ok_endpoint _ _ _ (ok_operators d Hd i o Hi)) as [k Ek]. destruct (ok_endpoint _ _ _ (ok_operators d Hd j o' Hj)) as [k' Ek'].
  unfold endpoint_key. rewrite Ek, Ek'.
  apply canonicalEndpoint_ok in Ek as (t & p & Hs & _ & _ & ->). apply canonicalEndpoint_ok in Ek' as (t' & p' & Hs' & _ & _ & ->).
  rewrite Hs, Hs' in Es. by injection Es as -> ->.
Qed.

(** URLs that are compared under different keys name different sockets. *)
Lemma url_key_socket e e' k k' : canonicalURLEndpoint (url_parse e) = Ok k -> canonicalURLEndpoint (url_parse e') = Ok k' ->
  url_key e <> url_key e' -> url_socket e <> url_socket e'.
Proof.
  unfold url_key, url_socket. intros Ek Ek' Hne Es. rewrite Ek, Ek' in Hne. unfold canonicalURLEndpoint in Ek, Ek'.
  destruct (url_parse e) as [u|]; [|done]. destruct (url_parse e') as [u'|]; [|done]. destruct (_ || _) in Ek; [done|]. destruct (_ || _) in Ek'; [done|].
  cbn [mbind option_bind] in Es.
  apply canonicalEndpoint_ok in Ek as (t & p & Hs & _ & _ & ->). apply canonicalEndpoint_ok in Ek' as (t' & p' & Hs' & _ & _ & ->).
  rewrite Hs, Hs' in Es. by injection Es as -> ->.
Qed.

Lemma document_ok_urls d i j o o' : document_ok d -> Operators d !! i = Some o -> Operators d !! j = Some o' -> i <> j ->
  url_socket (PartialEndpoint o) <> url_socket (PartialEndpoint o') /\ url_socket (DKGEndpoint o) <> url_socket (DKGEndpoint o').
Proof.
  intros Hd Hi Hj Hij. pose proof (ok_operators d Hd i o Hi) as Ho. pose proof (ok_operators d Hd j o' Hj) as Ho'. split.
  - destruct (ok_partial _ _ _ Ho) as [k Ek], (ok_partial _ _ _ Ho') as [k' Ek']. apply (url_key_socket _ _ k k' Ek Ek').
    exact (distinct_keys (fun o => url_key (PartialEndpoint o)) _ _ _ _ _ (ok_partials d Hd) Hi Hj Hij).
  - destruct (ok_ceremony _ _ _ Ho) as [k Ek], (ok_ceremony _ _ _ Ho') as [k' Ek']. apply (url_key_socket _ _ k k' Ek Ek').
    exact (distinct_keys (fun o => url_key (DKGEndpoint o)) _ _ _ _ _ (ok_dkg_endpoints d Hd) Hi Hj Hij).
Qed.
End validated.

(** ** Verification *)

Section verification.
Context `{HashFunction, SignatureScheme, Calendar, TopologyInputs}.

(** A signature of the operator's own key over the draft under its name. *)
Definition attested (d : Document) (o : Operator) : Prop :=
  exists key message signature, decodeBase64 (IdentityKey o) 32 = Some key /\ operatorSigningMessage d (OpID o) = Ok message /\
    decodeBase64 (Attestation o) 64 = Some signature /\ verify key message signature = true.

Lemma check_attestation_ok d o : check_attestation d o = Ok tt <-> attested d o.
Proof.
  unfold check_attestation, attested. split.
  - destruct (decodeBase64 (IdentityKey o) 32) as [key|]; [|done]. destruct (decodeBase64 (Attestation o) 64) as [signature|]; [|done].
    destruct (operatorSigningMessage d (OpID o)) as [message|]; [|done]. cbn [mbind result_bind].
    destruct (verify key message signature) eqn:E; [|done]. intros _. by exists key, message, signature.
  - intros (key & message & signature & -> & -> & -> & E). cbn [mbind result_bind]. by rewrite E.
Qed.

Lemma verifyAttestations_ok d : verifyAttestations d = Ok tt <-> Forall (attested d) (Operators d).
Proof.
  unfold verifyAttestations. split.
  - destruct (collect _ _) as [r|] eqn:E; [|done]. intros _. apply collect_ok in E.
    eapply Forall2_Forall_l; [exact E|]. apply Forall_forall. intros [] _ o Ho. by apply check_attestation_ok.
  - intros Hall. assert (exists r, collect (check_attestation d) (Operators d) = Ok r) as [r ->]; [|done].
    induction Hall as [|o l Ho _ [r IH]]; [by exists []|]. exists (tt :: r). simpl. apply check_attestation_ok in Ho as ->.
    cbn [mbind result_bind]. by rewrite IH.
Qed.

Lemma VerifyTopology_ok encoded authority now v : VerifyTopology encoded authority now = Ok v ->
  exists signed canonical signature, signed_json encoded = Some signed /\ TDocument v = SDocument signed /\
    validateDocument (TDocument v) now = Ok tt /\ Forall (attested (TDocument v)) (Operators (TDocument v)) /\
    canonicalDocument (TDocument v) = Ok canonical /\ decodeBase64 (SSignature signed) 64 = Some signature /\
    verify authority (topology_message authorityDomain canonical) signature = true /\
    TDigest v = sha256 (topology_message topologyDigestDomain canonical).
Proof.
  unfold VerifyTopology. destruct (_ || _); [done|]. destruct (negb _); [done|].
  destruct (is_ok (RejectDuplicateKeys encoded)) eqn:Ej; [|done]. cbn [negb].
  destruct (signed_json encoded) as [signed|] eqn:Es; [|done].
  destruct (validateDocument (SDocument signed) now) as [[]|] eqn:Ev; [|done]. cbn [mbind result_bind].
  destruct (canonicalDocument (SDocument signed)) as [canonical|] eqn:Ec; [|done]. cbn [mbind result_bind].
  destruct (decodeBase64 (SSignature signed) 64) as [signature|] eqn:Ed; [|done].
  destruct (verify authority _ signature) eqn:Ea; [|done]. cbn [negb].
  destruct (verifyAttestations (SDocument signed)) as [[]|] eqn:Et; [|done]. intros [= <-].
  exists signed, canonical, signature. apply verifyAttestations_ok in Et. done.
Qed.

Lemma canonicalDocument_inj d d' c : document_typed d -> document_typed d' ->
  canonicalDocument d = Ok c -> canonicalDocument d' = Ok c -> d = d'.
Proof.
  unfold canonicalDocument. intros Hd Hd' E E'. apply document_value_inj; [done..|].
  destruct (writeCanonical (document_value d)) as [w|] eqn:Ew; [|done].
  destruct (writeCanonical (document_value d')) as [w'|] eqn:Ew'; [|done].
  injection E as ->. injection E' as ->. by apply (value_unique _ _ c c [] []).
Qed.
End verification.

(** C11: A topology that verification returns has between three and 64 operators,
    numbered in order, no two of which share an identifier or a key, the socket
    address of their UDP endpoints, that of their partial endpoints, or that of
    their DKG endpoints (each kind is compared with its own only: a partial
    endpoint may be the DKG endpoint of another operator); the threshold is between
    two and their number; the peer plan leads from every operator to every other;
    every operator's own key has signed the document under the operator's name;
    and the pinned authority has signed its canonical text. *)
Theorem topology_verified_sound `{HashFunction, SignatureScheme, Calendar, TopologyInputs} encoded authority now v :
  VerifyTopology encoded authority now = Ok v ->
  let d := TDocument v in
  (3 <= length (Operators d) <= 64)%nat /\ 2 <= Threshold (DKG d) <= len (Operators d) /\ indexed (Operators d) /\
  (forall i j o o', Operators d !! i = Some o -> Operators d !! j = Some o' -> i <> j ->
    OpID o <> OpID o' /\ IdentityKey o <> IdentityKey o' /\ KEXKey o <> KEXKey o' /\ DKGIdentityKey o <> DKGIdentityKey o' /\
    socket (Endpoint o) <> socket (Endpoint o') /\ url_socket (PartialEndpoint o) <> url_socket (PartialEndpoint o') /\
    url_socket (DKGEndpoint o) <> url_socket (DKGEndpoint o')) /\
  (forall i j, (i < length (Operators d))%nat -> (j < length (Operators d))%nat -> rtc (hop (Operators d)) i j) /\
  Forall (attested d) (Operators d) /\
  exists canonical signature, canonicalDocument d = Ok canonical /\
    verify authority (topology_message authorityDomain canonical) signature = true.
Proof.
  intros (signed & canonical & signature & Es & Ed & Hv & Ha & Ec & _ & Hs & _)%VerifyTopology_ok. cbv zeta.
  apply validateDocument_ok in Hv. pose proof (document_ok_indexed _ Hv) as Hi.
  split_and!; [apply Hv..|done| | |done|by exists canonical, signature].
  - intros i j o o' Ho Ho' Hij. destruct (document_ok_urls _ i j o o' Hv Ho Ho' Hij) as [Hp Hk].
    split_and!; [by eapply (distinct_keys _ _ i j); [apply Hv|..]..|by eapply (document_ok_sockets _ i j)|exact Hp|exact Hk].
  - apply strong_connectivity_exact; [done|apply Hv].
Qed.

(** C14: Two topologies that verification returns have one digest only if they are
    one document. *)
Theorem topology_digest_binds `{HashFunction, SignatureScheme, Calendar, TopologyInputs} e e' key key' now now' v v' c c' :
  VerifyTopology e key now = Ok v -> VerifyTopology e' key' now' = Ok v' ->
  canonicalDocument (TDocument v) = Ok c -> canonicalDocument (TDocument v') = Ok c' ->
  collision_free [topology_message topologyDigestDomain c; topology_message topologyDigestDomain c'] ->
  TDigest v = TDigest v' -> TDocument v = TDocument v'.
Proof.
  intros (s & w & g & Es & Ed & _ & _ & Ec & _ & _ & Eg)%VerifyTopology_ok
    (s' & w' & g' & Es' & Ed' & _ & _ & Ec' & _ & _ & Eg')%VerifyTopology_ok Hc Hc' Hfree E.
  rewrite Ec in Hc. rewrite Ec' in Hc'. injection Hc as ->. injection Hc' as ->. rewrite Eg, Eg' in E.
  apply Hfree in E; [|by left|by right; left]. apply app_inv_head in E as ->.
  apply signed_json_typed in Es, Es'. rewrite Ed, Ed' in *. by eapply canonicalDocument_inj.
Qed.

(** ** The ceremony *)

Section ceremony.
Context `{HashFunction, SignatureScheme, Calendar, TopologyInputs}.

(** Checks and messages do not read attestations. *)
Lemma check_operators_draft n index s operators :
  check_operators n index s (map (set_attestation []) operators) = check_operators n index s operators.
Proof.
  revert index s. induction operators as [|o operators IH]; intros index s; [done|]. cbn [map check_operators].
  change (check_operator n index s (set_attestation [] o)) with (check_operator n index s o).
  destruct (check_operator n index s o); [|done]. apply IH.
Qed.

Lemma foldl_map {A B C} (f : A -> B -> A) (g : C -> B) a l : foldl f a (map g l) = foldl (fun a c => f a (g c)) a l.
Proof. revert a. induction l as [|c l IH]; intros a; [done|]. simpl. apply IH. Qed.

Lemma connectivity_draft operators :
  validateStrongConnectivity (map (set_attestation []) operators) = validateStrongConnectivity operators.
Proof. unfold validateStrongConnectivity, forward_of, reverse_of. by rewrite length_map, !foldl_map. Qed.

Lemma validate_draft d now : validateDocument (draft d) now = validateDocument d now.
Proof.
  unfold validateDocument, draft. cbn [set_operators Operators DocVersion NetworkID DocEpoch NotBefore NotAfter Traffic DKG].
  by rewrite length_map, check_operators_draft, connectivity_draft.
Qed.

Lemma same_draft d d' now id : draft d = draft d' ->
  validateDocument d now = validateDocument d' now /\ operatorSigningMessage d id = operatorSigningMessage d' id.
Proof. intros E. split; [by rewrite <- (validate_draft d), <- (validate_draft d'), E|]. unfold operatorSigningMessage. by rewrite E. Qed.

(** What the operators named in [ids] have signed. *)
Definition message_of (d : Document) (id : list byte) : list byte :=
  match operatorSigningMessage d id with Ok m => m | Err _ => [] end.

Definition attest_operator (d : Document) (identities : list byte -> list byte) (o : Operator) : Operator :=
  set_attestation (b64_encode (sign (identities (OpID o)) (message_of d (OpID o)))) o.

Definition attested_by (d : Document) (identities : list byte -> list byte) (ids : list (list byte)) : Document :=
  set_operators d (map (fun o => if bool_decide (OpID o ∈ ids) then attest_operator d identities o else o) (Operators d)).

Lemma draft_attested_by d identities ids : draft (attested_by d identities ids) = draft d.
Proof.
  unfold draft, attested_by, set_operators. cbn [Operators DocVersion NetworkID DocEpoch NotBefore NotAfter Traffic DKG].
  f_equal. rewrite map_map. apply map_ext. intros o. by case_bool_decide.
Qed.

Lemma document_writes d : document_typed d -> writes (document_value d).
Proof.
  intros (_ & He & Hc & Hci & Hml & Hq & Hth & Hph & Ho). unfold fits in *.
  assert (forall v w, 0 <= v < 2 ^ w -> 0 <= w <= 64 -> writes (jnumber v)) as Hnum.
  { intros v w Hv Hw. apply jnumber_writes. unfold fits. pose proof (Z.pow_le_mono_r 2 w 64). lia. }
  apply jstruct_writes; [by repeat constructor|].
  repeat apply Forall_cons_2; try apply Forall_nil_2; try apply jtext_writes; try (by eapply Hnum; [eassumption|lia]).
  - apply jstruct_writes; [by repeat constructor|].
    repeat apply Forall_cons_2; try apply Forall_nil_2; (by eapply Hnum; [eassumption|lia]).
  - apply jstruct_writes; [by repeat constructor|].
    repeat apply Forall_cons_2; try apply Forall_nil_2; try apply jtext_writes; (by eapply Hnum; [eassumption|lia]).
  - apply jslice_writes, Forall_map. eapply Forall_impl; [exact Ho|]. intros o (_ & Hi & Hp). unfold fits in *.
    apply jstruct_writes; [by repeat constructor|].
    repeat apply Forall_cons_2; try apply Forall_nil_2; try apply jtext_writes; try (by eapply Hnum; [eassumption|lia]).
    apply jslice_writes, Forall_map. eapply Forall_impl; [exact Hp|]. intros p Hpf. apply (Hnum _ 16); [exact Hpf|lia].
Qed.

Lemma draft_typed d : document_typed d -> document_typed (draft d).
Proof.
  intros (Ht & He & Hc & Hci & Hml & Hq & Hth & Hph & Ho). split_and!; try done.
  cbn [draft set_operators Operators]. apply Forall_map. eapply Forall_impl; [exact Ho|].
  intros o (Hot & Hoi & Hop). split_and!; [|done..]. split_forall. by repeat apply Forall_cons_2.
Qed.

Lemma operatorSigningMessage_ok d id : document_typed d -> operatorSigningMessage d id = Ok (message_of d id).
Proof.
  intros Hd. unfold message_of. assert (exists m, operatorSigningMessage d id = Ok m) as [m ->]; [|done].
  unfold operatorSigningMessage. destruct (jstruct_writes [text "operator_id"; text "document"] [jtext id; document_value (draft d)]) as [w ->];
    [by repeat constructor| |by eexists].
  repeat apply Forall_cons_2; [apply jtext_writes|by apply document_writes, draft_typed|apply Forall_nil_2].
Qed.

(** One more operator signs. *)
Lemma Attest_next d identities ids id identity : document_typed d -> validateDocument d None = Ok tt ->
  identity = identities id -> length identity = 64%nat -> id ∉ ids ->
  (exists o, o ∈ Operators d /\ OpID o = id /\ decodeBase64 (IdentityKey o) 32 = Some (public identity)) ->
  Attest (attested_by d identities ids) id identity = Ok (attested_by d identities (id :: ids)).
Proof.
  intros Ht Hv -> Hl Hid (o & Ho & Eid & Hk). set (a := attested_by d identities ids).
  destruct (same_draft a d None id (draft_attested_by _ _ _)) as [Ev Em]. unfold Attest. rewrite Hl. cbn [Nat.eqb negb].
  rewrite Ev, Hv. cbn [mbind result_bind]. pose proof (ok_ids d (validateDocument_ok d None Hv)) as Hnd.
  apply list_elem_of_lookup_1 in Ho as [i Hi].
  assert (Operators a !! i = Some o) as Hai.
  { unfold a, attested_by. cbn [set_operators Operators]. rewrite (list_lookup_fmap (fun o => if bool_decide _ then _ else _)), Hi. simpl.
    by rewrite bool_decide_false by (by rewrite Eid). }
  assert (list_find (fun o => OpID o = id) (Operators a) = Some (i, o)) as ->.
  { apply list_find_Some. split_and!; [done|done|]. intros j y Hj Hlt Ey.
    unfold a, attested_by in Hj. cbn [set_operators Operators] in Hj.
    rewrite (list_lookup_fmap (fun o => if bool_decide _ then _ else _)) in Hj.
    destruct (Operators d !! j) as [z|] eqn:Hz; [|done]. simpl in Hj. injection Hj as Hj.
    apply (distinct_keys OpID _ i j o z Hnd Hi Hz); [lia|]. rewrite Eid, <- Ey, <- Hj. by case_bool_decide. }
  rewrite bool_decide_true by done. cbn [negb]. rewrite Eid, Em, operatorSigningMessage_ok by done. cbn [mbind result_bind]. f_equal.
  unfold a, attested_by, set_operators. cbn [Operators DocVersion NetworkID DocEpoch NotBefore NotAfter Traffic DKG]. f_equal.
  apply list_eq. intros j. destruct (decide (j = i)) as [->|Hne].
  - rewrite list_lookup_insert_eq by (rewrite length_map; by eapply lookup_lt_Some).
    rewrite (list_lookup_fmap (fun o => if bool_decide _ then _ else _)), Hi. simpl.
    rewrite bool_decide_true by (rewrite Eid; by left). unfold attest_operator. by rewrite Eid.
  - rewrite list_lookup_insert_ne by done. rewrite !(list_lookup_fmap (fun o => if bool_decide _ then _ else _)).
    destruct (Operators d !! j) as [z|] eqn:Hz; [|done]. simpl. f_equal.
    assert (OpID z <> id) by (rewrite <- Eid; by apply (distinct_keys OpID _ j i z o Hnd)).
    destruct (decide (OpID z ∈ ids)); [by rewrite !bool_decide_true by (try right; done)|].
    by rewrite !bool_decide_false by (rewrite ?not_elem_of_cons; done).
Qed.
Lemma attested_by_none d identities : attested_by d identities [] = d.
Proof.
  assert (d = set_operators d (Operators d)) as E by (by destruct d). rewrite E at 2. unfold attested_by. f_equal.
  rewrite <- (map_id (Operators d)) at 2. apply map_ext. intros o. by rewrite bool_decide_false by apply not_elem_of_nil.
Qed.

(** The identities of a ceremony are the operators' own. *)
Definition own_identities (d : Document) (identities : list byte -> list byte) : Prop :=
  forall o, o ∈ Operators d -> length (identities (OpID o)) = 64%nat /\
    decodeBase64 (IdentityKey o) 32 = Some (public (identities (OpID o))).

Lemma attest_all_from d identities before ids : document_typed d -> validateDocument d None = Ok tt -> own_identities d identities ->
  Forall (fun id => id ∈ map OpID (Operators d)) ids -> NoDup (reverse ids ++ before) ->
  attest_all (attested_by d identities before) ids identities = Ok (attested_by d identities (reverse ids ++ before)).
Proof.
  intros Ht Hv Hown Hids. revert before. induction Hids as [|id ids Hid Hids IH]; intros before Hnd; [done|]. cbn [attest_all].
  rewrite reverse_cons, <- app_assoc in *. cbn [app] in *.
  apply list_elem_of_fmap in Hid as (o & Eid & Ho). destruct (Hown o Ho) as [Hl Hk]. rewrite <- Eid in Hl, Hk.
  rewrite (Attest_next d identities before id (identities id)); [|done..| |by exists o].
  - cbn [mbind result_bind]. by apply IH.
  - intros Hin. apply NoDup_app in Hnd as (_ & _ & Hnd). by apply NoDup_cons in Hnd as [? _].
Qed.

Definition fully_attested (d : Document) (identities : list byte -> list byte) : Document :=
  set_operators d (map (attest_operator d identities) (Operators d)).

Lemma attested_by_all d identities ids : ids ≡ₚ map OpID (Operators d) -> attested_by d identities ids = fully_attested d identities.
Proof.
  intros Hp. unfold attested_by, fully_attested. f_equal. apply map_ext_in. intros o Ho%list_elem_of_In.
  rewrite bool_decide_true; [done|]. rewrite Hp. by apply elem_of_map_2.
Qed.

Lemma attest_all_ok d identities ids : document_typed d -> validateDocument d None = Ok tt -> own_identities d identities ->
  ids ≡ₚ map OpID (Operators d) -> attest_all d ids identities = Ok (fully_attested d identities).
Proof.
  intros Ht Hv Hown Hp. rewrite <- (attested_by_none d identities) at 1. rewrite attest_all_from; [|done..| |].
  - rewrite app_nil_r. f_equal. apply attested_by_all. by rewrite reverse_Permutation.
  - apply Forall_forall. intros id Hid. by rewrite <- Hp.
  - rewrite app_nil_r, reverse_Permutation, Hp. apply (ok_ids d). by eapply validateDocument_ok.
Qed.

Lemma fully_attested_draft d identities : draft (fully_attested d identities) = draft d.
Proof. rewrite <- (attested_by_all d identities (map OpID (Operators d))) by done. apply draft_attested_by. Qed.

Lemma b64_encode_valid raw : valid_utf8 (b64_encode raw) = true.
Proof.
  pose proof (b64_encode_alphabet raw) as Ha. revert Ha. generalize (b64_encode raw) as l. unfold valid_utf8.
  induction l as [|b l IH]; [done|]. cbn [forallb]. intros [Hb Hl]%andb_true_iff. cbn [runes].
  assert (between 0 127 b = true) as -> by (destruct b; first [reflexivity|discriminate Hb]).
  cbn [forallb]. rewrite bool_decide_true by done. by apply IH.
Qed.

Lemma fully_attested_typed d identities : document_typed d -> document_typed (fully_attested d identities).
Proof.
  intros (Ht & He & Hc & Hci & Hml & Hq & Hth & Hph & Ho). split_and!; try done.
  cbn [fully_attested set_operators Operators]. apply Forall_map. eapply Forall_impl; [exact Ho|].
  intros o (Hot & Hoi & Hop). split_and!; [|done..]. split_forall. repeat apply Forall_cons_2; try done. apply b64_encode_valid.
Qed.

Lemma fully_attested_verifies d identities : document_typed d -> own_identities d identities ->
  verifyAttestations (fully_attested d identities) = Ok tt.
Proof.
  intros Ht Hown. apply verifyAttestations_ok. cbn [fully_attested set_operators Operators]. apply Forall_map, Forall_forall.
  intros o Ho. destruct (Hown o Ho) as [Hl Hk].
  exists (public (identities (OpID o))), (message_of d (OpID o)), (sign (identities (OpID o)) (message_of d (OpID o))).
  split_and!; [done| | |by apply sign_verify].
  - destruct (same_draft _ _ None (OpID o) (fully_attested_draft d identities)) as [_ Em].
    etrans; [exact Em|by apply operatorSigningMessage_ok].
  - apply decodeBase64_encode, sign_length.
Qed.
End ceremony.

(** Operators who each sign the draft with their own identity, in whatever
    order their signatures are collected, produce one document; the authority can
    finalise it, and every text that decodes to what it signed then verifies under
    the authority's key, as the same document. *)
Theorem topology_ceremony `{HashFunction, SignatureScheme, Calendar, TopologyInputs} d authority identities ids :
  document_typed d -> validateDocument d None = Ok tt -> length authority = 64%nat -> own_identities d identities ->
  ids ≡ₚ map OpID (Operators d) ->
  exists signed, (attested ← attest_all d ids identities; Finalize attested authority) = Ok signed /\
    SignTopology d authority identities = Ok signed /\ draft (SDocument signed) = draft d /\
    forall encoded now, encoded <> [] -> len encoded <= MaximumTopologyBytes -> RejectDuplicateKeys encoded = Ok tt ->
      signed_json encoded = Some signed -> validateDocument d now = Ok tt ->
      exists v, VerifyTopology encoded (public authority) now = Ok v /\ TDocument v = SDocument signed.
Proof.
  intros Ht Hv Hl Hown Hp. set (d' := fully_attested d identities).
  destruct (same_draft d' d None [] (fully_attested_draft d identities)) as [Ev _].
  pose proof (fully_attested_verifies d identities Ht Hown) as Ha.
  assert (exists c, canonicalDocument d' = Ok c) as [c Hc].
  { destruct (document_writes d' (fully_attested_typed d identities Ht)) as [w Hw]. unfold canonicalDocument. rewrite Hw. by eexists. }
  exists (mkSignedTopology d' (b64_encode (sign authority (topology_message authorityDomain c)))).
  assert (Finalize d' authority = Ok (mkSignedTopology d' (b64_encode (sign authority (topology_message authorityDomain c))))) as Hf.
  { unfold Finalize. rewrite Hl. cbn [Nat.eqb negb]. rewrite Ev, Hv. cbn [mbind result_bind]. unfold d'. rewrite Ha. cbn [mbind result_bind].
    fold d'. by rewrite Hc. }
  split_and!; [by rewrite (attest_all_ok d identities ids)|unfold SignTopology; by rewrite attest_all_ok|apply fully_attested_draft|].
  intros encoded now Hne Hlen Hdup Hj Hnow. unfold VerifyTopology.
  rewrite bool_decide_false by done. rewrite (proj2 (Z.ltb_ge _ _)) by done. cbn [orb].
  rewrite public_length by done. cbn [Nat.eqb negb]. rewrite Hdup. cbn [is_ok negb]. rewrite Hj. cbn [SDocument SSignature].
  destruct (same_draft d' d now [] (fully_attested_draft d identities)) as [-> _]. rewrite Hnow. cbn [mbind result_bind].
  rewrite Hc. cbn [mbind result_bind]. rewrite decodeBase64_encode by apply sign_length. rewrite sign_verify by done. cbn [negb].
  unfold d'. rewrite Ha. cbn [mbind result_bind]. by eexists.
Qed.

(** ** Example: three operators in a ring *)

#[export] Instance operator_typed_dec o : Decision (operator_typed o).
Proof. unfold operator_typed. apply _. Defined.
#[export] Instance document_typed_dec d : Decision (document_typed d).
Proof. unfold document_typed. apply _. Defined.

Section example.
#[local] Existing Instance example_hash.
#[local] Existing Instance example_signatures.
#[local] Existing Instance example_calendar.
#[local] Existing Instance gf_group.

(** Addresses of the form [https://host:port]. *)
Definition example_url (s : list byte) : option URL :=
  if bool_decide (take 8 s = text "https://") then
    match SplitHostPort (drop 8 s) with
    | Some (host, port) => Some (mkURL https host port false [] [] [])
    | None => None
    end
  else None.

Definition example_topology_inputs (table : list byte -> option Signed) : TopologyInputs.
Proof.
  refine {| signed_json := fun b => s ← table b; if decide (document_typed (SDocument s)) then Some s else None;
            url_parse := example_url; contributory := fun _ => true; Inv := invert |}.
  intros b s. destruct (table b) as [t|]; [|done]. simpl. case_decide; [|done]. by intros [= <-].
Defined.

Definition ring_identity (id : list byte) : list byte := replicate 64 (default x00 (head id)).

Definition ring_operator (i : nat) (id : byte) : Operator :=
  mkOperator i [id] (text "10.0.0.1:" ++ FormatUint (Z.of_nat i + 1)) (text "https://a.example:" ++ FormatUint (Z.of_nat i + 1))
    (text "https://b.example:" ++ FormatUint (Z.of_nat i + 1)) (b64_encode (replicate 32 id)) (b64_encode (replicate 32 id))
    (b64_encode (replicate 32 id)) [((i + 1) mod 3)%nat] [].

Definition ring_document : Document :=
  mkDocument TopologyVersion [x6e] 1 (format_time 0) (format_time (100 * second)) (mkTraffic 1200 100 200 64)
    (mkDKGProfile 2 (b64_encode (replicate 32 x09)) (format_time 0) 1000)
    [ring_operator 0 x61; ring_operator 1 x62; ring_operator 2 x63].

Definition ring_authority : list byte := replicate 64 x05.

Definition ring_signed : option Signed := Eval vm_compute in
  match @SignTopology _ _ _ (example_topology_inputs (fun _ => None)) ring_document ring_authority ring_identity with
  | Ok s => Some s
  | Err _ => None
  end.

#[local] Instance ring_inputs : TopologyInputs :=
  example_topology_inputs (fun b => if bool_decide (b = [x31]) then ring_signed else None).

Definition ring_verified : option VerifiedTopology := Eval vm_compute in
  match VerifyTopology [x31] (public ring_authority) None with Ok v => Some v | Err _ => None end.

Definition ring_of : VerifiedTopology := default (mkVerifiedTopology ring_document []) ring_verified.

Lemma ring_verifies : VerifyTopology [x31] (public ring_authority) None = Ok ring_of.
Proof. vm_compute. reflexivity. Qed.

Lemma topology_verified_sound_witness : VerifyTopology [x31] (public ring_authority) None = Ok ring_of /\
  (forall i j, (i < length (Operators (TDocument ring_of)))%nat -> (j < length (Operators (TDocument ring_of)))%nat ->
    rtc (hop (Operators (TDocument ring_of))) i j).
Proof.
  split; [apply ring_verifies|]. apply (topology_verified_sound [x31] (public ring_authority) None ring_of ring_verifies).
Defined.

Lemma topology_digest_binds_witness : VerifyTopology [x31] (public ring_authority) None = Ok ring_of /\
  TDocument ring_of = TDocument ring_of.
Proof.
  split; [apply ring_verifies|].
  destruct (VerifyTopology_ok _ _ _ _ ring_verifies) as (s & c & g & Es & _ & _ & _ & Ec & _).
  apply (topology_digest_binds [x31] [x31] (public ring_authority) (public ring_authority) None None ring_of ring_of c c
    ring_verifies ring_verifies Ec Ec); [|reflexivity].
  intros x y Hx Hy _. apply elem_of_cons in Hx as [->|Hx%list_elem_of_singleton]; apply elem_of_cons in Hy as [->|Hy%list_elem_of_singleton]; by subst.
Defined.

Lemma topology_ceremony_witness : exists signed,
  (attested ← attest_all ring_document [[x63]; [x61]; [x62]] ring_identity; Finalize attested ring_authority) = Ok signed /\
  SignTopology ring_document ring_authority ring_identity = Ok signed.
Proof.
  destruct (topology_ceremony ring_document ring_authority ring_identity [[x63]; [x61]; [x62]]) as (signed & E & E' & _).
  - apply (bool_decide_unpack _). vm_compute. exact I.
  - vm_compute. reflexivity.
  - reflexivity.
  - intros o Ho. apply elem_of_cons in Ho as [->|Ho]; [split; vm_compute; reflexivity|].
    apply elem_of_cons in Ho as [->|Ho]; [split; vm_compute; reflexivity|].
    apply list_elem_of_singleton in Ho as ->. split; vm_compute; reflexivity.
  - apply (bool_decide_unpack _). vm_compute. exact I.
  - exists signed. split; assumption.
Defined.
End example.
