(* ===== verification/Watermark.v ===== *)
(** The topology watermark ([live/topology/watermark.go]): the durable record
    that makes a node refuse a topology older than one it has served.  The file
    and the outcome of an atomic write are those of [Sequence]. *)

From stdpp Require Import base list list_numbers strings.
From Stdlib Require Import ZArith Lia Strings.Byte.
From S2P Require Import Prelude Bytes Codec Sequence Topology.

(** ** Definitions *)

Definition WatermarkVersion : list byte := String.list_byte_of_string "nomad-topology-watermark-v1".
Definition topologyMaximumFileBytes : Z := Z.shiftl 1 20.

Record watermarkFile := mkWatermark {
  WVersion : list byte;
  WNetworkID : list byte;
  WEpoch : Z;
  WDigest : list byte;        (* hexadecimal text *)
}.

Inductive watermark_error :=
| ErrWatermarkPath
| ErrWatermarkFile
| ErrWatermarkDecode
| ErrWatermarkVersion
| ErrWatermarkContents
| ErrWatermarkDigest
| ErrTopologyRollback
| ErrTopologyEquivocation
| ErrWatermarkWrite.

(** The contents a reader accepts. *)
Definition watermark_valid (w : watermarkFile) : bool :=
  bool_decide (WVersion w = WatermarkVersion) && negb (WEpoch w =? 0) && operatorIDPattern (WNetworkID w) &&
  match hex_decode (WDigest w) with Some _ => true | None => false end && Nat.eqb (length (WDigest w)) 64.

(** [encoding/json] on the record: one strict decode of the whole file, and
    [json.Marshal].  What was written reads back. *)
Class WatermarkJSON := {
  decode_watermark : list byte -> option watermarkFile;
  encode_watermark : watermarkFile -> list byte;
  watermark_roundtrip : forall w, watermark_valid w = true -> 0 <= WEpoch w < 2 ^ 64 ->
    decode_watermark (encode_watermark w) = Some w /\ len (encode_watermark w) <= topologyMaximumFileBytes;
}.

Section operations.
Context `{WatermarkJSON}.

Definition readWatermark (env : io) (f : file) : result watermark_error (option watermarkFile) :=
  match f with
  | Absent => Ok None
  | Irregular => Err ErrWatermarkFile
  | Regular data =>
      if topologyMaximumFileBytes <? len data then Err ErrWatermarkFile
      else if read_fails env then Err ErrWatermarkFile
      else match decode_watermark data with
           | None => Err ErrWatermarkDecode
           | Some stored =>
               if negb (bool_decide (WVersion stored = WatermarkVersion)) then Err ErrWatermarkVersion
               else if (WEpoch stored =? 0) || negb (operatorIDPattern (WNetworkID stored))
               then Err ErrWatermarkContents
               else match hex_decode (WDigest stored) with
                    | None => Err ErrWatermarkDigest
                    | Some _ => if negb (Nat.eqb (length (WDigest stored)) 64) then Err ErrWatermarkDigest
                                else Ok (Some stored)
                    end
           end
  end.

Definition writeWatermark (env : io) (d : disk) (contents : watermarkFile) : disk * result watermark_error unit :=
  let (d', ok) := atomicStateWrite env d (encode_watermark contents) in
  (d', if ok then Ok tt else Err ErrWatermarkWrite).

(** The topology is given by the three values the function reads of it. *)
Definition AcceptMonotonic (env : io) (path_given : bool) (d : disk) (network : list byte) (epoch : Z)
  (digest : list byte) : disk * result watermark_error unit :=
  if negb path_given then (d, Err ErrWatermarkPath)
  else match readWatermark env (current d) with
       | Err e => (d, Err e)
       | Ok previous =>
           let record := mkWatermark WatermarkVersion network epoch (hex_encode digest) in
           match previous with
           | Some p =>
               if bool_decide (WNetworkID p = network) then
                 if epoch <? WEpoch p then (d, Err ErrTopologyRollback)
                 else if (epoch =? WEpoch p) && negb (bool_decide (WDigest p = hex_encode digest))
                 then (d, Err ErrTopologyEquivocation)
                 else if epoch =? WEpoch p then (d, Ok tt)
                 else writeWatermark env d record
               else writeWatermark env d record
           | None => writeWatermark env d record
           end
       end.

(** ** Runs *)

(** The disk, and what was accepted so far, newest first. *)
Record node := mkNode {
  ndisk : disk;
  accepted : list (Z * list byte);
}.

(** What a verified topology of [network] looks like to the watermark. *)
Definition offered (network : list byte) (epoch : Z) (digest : list byte) : Prop :=
  operatorIDPattern network = true /\ 0 < epoch < 2 ^ 64 /\ length digest = 32%nat.

(** A node of one network.  A restart finds the file as it last was; when
    [power_loss] can happen it may also find what was last synced. *)
Inductive node_step (power_loss : Prop) (network : list byte) : node -> node -> Prop :=
| node_accepts env d d' epoch digest l :
    offered network epoch digest ->
    AcceptMonotonic env true d network epoch digest = (d', Ok tt) ->
    node_step power_loss network (mkNode d l) (mkNode d' ((epoch, digest) :: l))
| node_refuses env given d d' epoch digest e l :
    offered network epoch digest ->
    AcceptMonotonic env given d network epoch digest = (d', Err e) ->
    node_step power_loss network (mkNode d l) (mkNode d' l)
| node_restarts d f l : f = current d \/ (power_loss /\ f = durable d) ->
    node_step power_loss network (mkNode d l) (mkNode (mkDisk f f) l).

Inductive node_reachable (power_loss : Prop) (network : list byte) : node -> Prop :=
| node_start : node_reachable power_loss network (mkNode (mkDisk Absent Absent) [])
| node_steps n n' : node_reachable power_loss network n -> node_step power_loss network n n' ->
    node_reachable power_loss network n'.

(** The file holds a record of the network at or above everything accepted,
    with the digest that was accepted at that epoch. *)
Definition watermark_covers (network : list byte) (f : file) (l : list (Z * list byte)) : Prop :=
  match f with
  | Absent => l = []
  | Irregular => False
  | Regular data => exists w, data = encode_watermark w /\ watermark_valid w = true /\ 0 <= WEpoch w < 2 ^ 64 /\
      WNetworkID w = network /\
      Forall (fun a => a.1 <= WEpoch w /\ (a.1 = WEpoch w -> hex_encode a.2 = WDigest w)) l
  end.

(** Accepted epochs never go back, and one epoch has one digest. *)
Definition monotone_history (l : list (Z * list byte)) : Prop :=
  forall i j a b, (i <= j)%nat -> l !! i = Some a -> l !! j = Some b ->
    b.1 <= a.1 /\ (a.1 = b.1 -> a.2 = b.2).

Lemma offered_valid network epoch digest : offered network epoch digest ->
  watermark_valid (mkWatermark WatermarkVersion network epoch (hex_encode digest)) = true /\ 0 <= epoch < 2 ^ 64.
Proof.
  intros (Hn & He & Hd). split; [|lia]. unfold watermark_valid. cbn [WVersion WNetworkID WEpoch WDigest].
  rewrite bool_decide_true by done. rewrite Hn, hex_decode_encode, length_hex_encode, Hd.
  replace (epoch =? 0) with false by lia. done.
Qed.

(** Reading back what a node wrote. *)
Lemma readWatermark_valid env w : watermark_valid w = true -> 0 <= WEpoch w < 2 ^ 64 ->
  read_fails env = false -> readWatermark env (Regular (encode_watermark w)) = Ok (Some w).
Proof.
  intros Hv Hr Hf. destruct (watermark_roundtrip w Hv Hr) as [Hd Hl]. unfold readWatermark.
  replace (topologyMaximumFileBytes <? _) with false by lia. rewrite Hf, Hd.
  unfold watermark_valid in Hv. rewrite !andb_true_iff in Hv. destruct Hv as [[[[Hver He] Hn] Hx] Hlen].
  apply bool_decide_eq_true in Hver. rewrite bool_decide_true by done. simpl.
  apply negb_true_iff in He. rewrite He, Hn. simpl. destruct (hex_decode (WDigest w)); [|done]. by rewrite Hlen.
Qed.

(** The three ways an accepted call can end. *)
Lemma AcceptMonotonic_ok env given d network epoch digest d' :
  AcceptMonotonic env given d network epoch digest = (d', Ok tt) ->
  exists previous, readWatermark env (current d) = Ok previous /\
  let record := mkWatermark WatermarkVersion network epoch (hex_encode digest) in
  ((d' = mkDisk (Regular (encode_watermark record)) (Regular (encode_watermark record)) /\
    forall p, previous = Some p -> WNetworkID p = network -> WEpoch p < epoch) \/
   (d' = d /\ exists p, previous = Some p /\ WNetworkID p = network /\ WEpoch p = epoch /\
      WDigest p = hex_encode digest)).
Proof.
  unfold AcceptMonotonic. destruct given; [|done]. simpl.
  destruct (readWatermark env (current d)) as [previous|] eqn:Hread; [|done]. intros E. exists previous.
  split; [done|]. assert (forall r, writeWatermark env d r = (d', Ok tt) ->
    d' = mkDisk (Regular (encode_watermark r)) (Regular (encode_watermark r))) as Hw.
  { intros r. unfold writeWatermark, atomicStateWrite. destruct (write env); intros [= <-]; done. }
  destruct previous as [p|]; [|left; split; [by apply Hw|done]].
  case_bool_decide as Hnet; [|left; split; [by apply Hw|by intros ? [= <-]]].
  destruct (epoch <? WEpoch p) eqn:Hlt; [done|].
  destruct (epoch =? WEpoch p) eqn:Heq; simpl in E.
  - case_bool_decide as Hd; simpl in E; [|done]. injection E as <-. right. split; [done|].
    exists p. split_and!; [done|done|lia|done].
  - left. split; [by apply Hw|]. intros ? [= <-] _. lia.
Qed.

(** A refused call leaves the file alone or, when the sync failed, in place. *)
Lemma AcceptMonotonic_err env given d network epoch digest d' e :
  AcceptMonotonic env given d network epoch digest = (d', Err e) ->
  d' = d \/ (exists previous, readWatermark env (current d) = Ok previous /\
    let record := mkWatermark WatermarkVersion network epoch (hex_encode digest) in
    d' = mkDisk (Regular (encode_watermark record)) (durable d) /\
    forall p, previous = Some p -> WNetworkID p = network -> WEpoch p < epoch).
Proof.
  unfold AcceptMonotonic. destruct given; simpl; [|intros [= <-]; by left].
  destruct (readWatermark env (current d)) as [previous|] eqn:Hread; [|intros [= <-]; by left]. intros E.
  assert (forall r, writeWatermark env d r = (d', Err e) ->
    d' = d \/ d' = mkDisk (Regular (encode_watermark r)) (durable d)) as Hw.
  { intros r. unfold writeWatermark, atomicStateWrite. destruct (write env); intros [= <-]; auto. }
  destruct previous as [p|]; [|destruct (Hw _ E); [by left|right; by exists None]].
  case_bool_decide as Hnet; [|destruct (Hw _ E); [by left|right; exists (Some p)];
    split_and!; [done|done|by intros ? [= <-]]].
  destruct (epoch <? WEpoch p) eqn:Hlt; [injection E as <- _; by left|].
  destruct (epoch =? WEpoch p) eqn:Heq; simpl in E; [case_bool_decide; simpl in E; simplify_eq; by left|].
  destruct (Hw _ E); [by left|right; exists (Some p)]. split_and!; [done|done|intros ? [= <-] _; lia].
Qed.

Definition node_inv (network : list byte) (n : node) : Prop :=
  watermark_covers network (current (ndisk n)) (accepted n) /\ monotone_history (accepted n).

Lemma covers_read network env f l previous : watermark_covers network f l ->
  readWatermark env f = Ok previous ->
  match previous with
  | None => l = []
  | Some w => WNetworkID w = network /\ watermark_valid w = true /\ 0 <= WEpoch w < 2 ^ 64 /\
      f = Regular (encode_watermark w) /\
      Forall (fun a => a.1 <= WEpoch w /\ (a.1 = WEpoch w -> hex_encode a.2 = WDigest w)) l
  end.
Proof.
  intros Hc Hr. destruct f as [|data|]; simpl in Hc; [by injection Hr as <-| |done].
  destruct Hc as (w & -> & Hv & He & Hn & Hl).
  destruct (read_fails env) eqn:Hf; [|rewrite readWatermark_valid in Hr by done; by injection Hr as <-].
  simpl in Hr. rewrite Hf in Hr. by case_match.
Qed.

(** A record written over a covering file covers again. *)
Lemma covers_write network env f l previous epoch digest : watermark_covers network f l ->
  offered network epoch digest -> readWatermark env f = Ok previous ->
  (forall p, previous = Some p -> WNetworkID p = network -> WEpoch p < epoch) ->
  watermark_covers network
    (Regular (encode_watermark (mkWatermark WatermarkVersion network epoch (hex_encode digest))))
    ((epoch, digest) :: l) /\
  Forall (fun a => a.1 < epoch) l.
Proof.
  intros Hc Ho Hr Hlt. pose proof (covers_read network env f l previous Hc Hr) as Hp.
  assert (Forall (fun a => a.1 < epoch) l) as Hall.
  { destruct previous as [w|]; [|by subst l]. destruct Hp as (Hn & _ & _ & _ & Hl).
    specialize (Hlt w eq_refl Hn). eapply Forall_impl; [exact Hl|]. simpl. intros a [? _]. lia. }
  split; [|done]. destruct (offered_valid network epoch digest Ho) as [Hv He].
  eexists. split_and!; [done|done|simpl; lia|simpl; lia|done|]. constructor; [done|].
  eapply Forall_impl; [exact Hall|]. simpl. intros a ?. split; lia.
Qed.

Lemma covers_tail network f a l : watermark_covers network f (a :: l) -> watermark_covers network f l.
Proof.
  destruct f as [|data|]; simpl; [done| |done]. intros (w & ? & ? & ? & ? & Hl).
  apply Forall_cons in Hl as [_ Hl]. by exists w.
Qed.

Lemma monotone_cons l epoch digest : monotone_history l ->
  Forall (fun a => a.1 <= epoch /\ (a.1 = epoch -> a.2 = digest)) l -> monotone_history ((epoch, digest) :: l).
Proof.
  intros Hl Hall [|i] [|j] a b Hle Ha Hb; simplify_eq/=; [done| |lia|eapply (Hl i j); [lia|done|done]].
  destruct (Forall_lookup_1 _ _ _ _ Hall Hb) as [? Hd]. split; [done|]. intros E. symmetry. by apply Hd.
Qed.

Lemma node_step_inv network n n' : node_inv network n -> node_step False network n n' -> node_inv network n'.
Proof.
  intros [Hc Hm] Hs.
  destruct Hs as [env d d' epoch digest l Ho E|env given d d' epoch digest e l Ho E|d f l [-> |[[] _]]];
    simpl in *; [| |by split].
  - apply AcceptMonotonic_ok in E as (previous & Hr & [[-> Hlt]|[-> (p & -> & Hn & He & Hd)]]).
    + destruct (covers_write network env _ l previous epoch digest Hc Ho Hr Hlt) as [Hc' Hall].
      split; [done|]. apply monotone_cons; [done|]. eapply Forall_impl; [exact Hall|]. simpl. intros; split; lia.
    + pose proof (covers_read network env _ l _ Hc Hr) as (_ & Hv & Hb & Hf & Hl). subst epoch. split.
      * unfold ndisk. rewrite Hf. exists p. split_and!; try done; try lia. by constructor.
      * apply monotone_cons; [done|]. eapply Forall_impl; [exact Hl|]. simpl. intros a [? Ha]. split; [done|].
        intros E. apply hex_encode_inj. rewrite <- Hd. by apply Ha.
  - apply AcceptMonotonic_err in E as [-> |(previous & Hr & -> & Hlt)]; [done|].
    destruct (covers_write network env _ l previous epoch digest Hc Ho Hr Hlt) as [Hc' _].
    split; [by apply covers_tail in Hc'|done].
Qed.

Lemma node_reachable_inv network n : node_reachable False network n -> node_inv network n.
Proof.
  induction 1 as [|n n' _ IH Hs]; [|by eapply node_step_inv]. split; [done|]. by intros [|] ? ? ? ? ?.
Qed.
End operations.

(** For a node of one network, over any number of accepted and refused
    topologies, failed writes, failed syncs and restarts of the process, the
    epochs the node accepts never go back, and it never accepts two different
    topologies for one epoch. *)
Theorem watermark_monotone `{WatermarkJSON} network n :
  node_reachable False network n -> monotone_history (accepted n).
Proof. intros Hn. by destruct (node_reachable_inv network n Hn). Qed.

(** ** Where the promise ends *)

Definition io_ok : io := mkIO false Succeeds.
Definition io_unsynced : io := mkIO false FailsAtSync.

Section limits.
Context `{WatermarkJSON}.

Definition net_a : list byte := [x61].
Definition net_b : list byte := [x62].
Definition topology_digest (b : byte) : list byte := replicate 32 b.
Definition record_of (network : list byte) (epoch : Z) (b : byte) : file :=
  Regular (encode_watermark (mkWatermark WatermarkVersion network epoch (hex_encode (topology_digest b)))).

Lemma read_record network epoch b env : offered network epoch (topology_digest b) -> read_fails env = false ->
  readWatermark env (record_of network epoch b) =
    Ok (Some (mkWatermark WatermarkVersion network epoch (hex_encode (topology_digest b)))).
Proof. intros [Hv He]%offered_valid Hf. by apply readWatermark_valid. Qed.

(** A topology at a higher epoch, or of another network than the recorded one,
    is written. *)
Lemma accept_over network epoch b network' epoch' b' durable' env :
  offered network epoch (topology_digest b) -> read_fails env = false ->
  network <> network' \/ epoch < epoch' ->
  AcceptMonotonic env true (mkDisk (record_of network epoch b) durable') network' epoch' (topology_digest b') =
    writeWatermark env (mkDisk (record_of network epoch b) durable')
      (mkWatermark WatermarkVersion network' epoch' (hex_encode (topology_digest b'))).
Proof.
  intros Ho Hf Hne. unfold AcceptMonotonic. cbn [negb current]. rewrite read_record by done. cbn [WNetworkID WEpoch].
  case_bool_decide as Hn; [|done]. destruct Hne as [?|Hlt]; [done|].
  replace (epoch' <? epoch) with false by lia. by replace (epoch' =? epoch) with false by lia.
Qed.
End limits.

(** The refusal of older topologies has two limits.  First, a call that
    fails at the directory sync leaves the new record in place; the next call
    for the same topology finds it there and reports success without syncing,
    so a power loss after that success can restore the older record and the
    node then accepts an epoch older than one it has accepted.  Second, the
    file remembers one network only: accepting a topology of another network
    forgets the first one's epoch. *)
Theorem watermark_limits `{WatermarkJSON} :
  (exists n, node_reachable True net_a n /\
     accepted n = [(6, topology_digest x06); (7, topology_digest x07); (5, topology_digest x05)]) /\
  (exists d1 d2 d3,
     AcceptMonotonic io_ok true (mkDisk Absent Absent) net_a 5 (topology_digest x05) = (d1, Ok tt) /\
     AcceptMonotonic io_ok true d1 net_b 1 (topology_digest x01) = (d2, Ok tt) /\
     AcceptMonotonic io_ok true d2 net_a 3 (topology_digest x03) = (d3, Ok tt)).
Proof.
  assert (forall e b, 0 < e < 2 ^ 64 -> offered net_a e (topology_digest b)) as Ha by done.
  split.
  - set (d5 := topology_digest x05). set (d6 := topology_digest x06). set (d7 := topology_digest x07).
    set (f5 := record_of net_a 5 x05). set (f7 := record_of net_a 7 x07).
    assert (node_reachable True net_a (mkNode (mkDisk f5 f5) [(5, d5)])) as R1.
    { eapply node_steps; [apply node_start|]. by apply (node_accepts _ _ io_ok). }
    assert (node_reachable True net_a (mkNode (mkDisk f7 f5) [(5, d5)])) as R2.
    { eapply node_steps; [exact R1|]. apply (node_refuses _ _ io_unsynced true) with 7 d7 ErrWatermarkWrite; [done|].
      etrans; [apply (accept_over net_a 5 x05 net_a 7 x07); [by apply Ha|done|by right]|done]. }
    assert (node_reachable True net_a (mkNode (mkDisk f7 f5) [(7, d7); (5, d5)])) as R3.
    { eapply node_steps; [exact R2|]. apply (node_accepts _ _ io_ok); [done|].
      unfold AcceptMonotonic. cbn [negb current]. unfold f7. rewrite (read_record net_a 7 x07) by (by try apply Ha).
      cbn [WNetworkID WEpoch WDigest]. by rewrite !bool_decide_true by done. }
    assert (node_reachable True net_a (mkNode (mkDisk f5 f5) [(7, d7); (5, d5)])) as R4.
    { eapply node_steps; [exact R3|]. apply node_restarts. by right. }
    eexists (mkNode _ [(6, d6); (7, d7); (5, d5)]). split; [|reflexivity].
    eapply node_steps; [exact R4|]. eapply (node_accepts _ _ io_ok); [done|].
    etrans; [apply (accept_over net_a 5 x05 net_a 6 x06); [by apply Ha|done|by right]|done].
  - eexists _, _, _. split; [done|]. split.
    + etrans; [apply (accept_over net_a 5 x05 net_b 1 x01); [by apply Ha|done|by left]|done].
    + etrans; [apply (accept_over net_b 1 x01 net_a 3 x03); [done|done|by left]|done].
Qed.

(** ** Example *)

(** A codec for the record: epoch, digest, network. *)
Definition example_watermark_json : WatermarkJSON.
Proof.
  refine {| encode_watermark := fun w => be 8 (WEpoch w) ++ WDigest w ++ WNetworkID w;
            decode_watermark := fun l =>
              Some (mkWatermark WatermarkVersion (drop 72 l) (be_val (take 8 l)) (take 64 (drop 8 l))) |}.
  intros [v nw ep dg] Hv He. unfold watermark_valid in Hv. cbn [WVersion WNetworkID WEpoch WDigest] in *.
  rewrite !andb_true_iff in Hv. destruct Hv as [[[[Hver _] Hn] _] Hlen].
  apply bool_decide_eq_true in Hver as ->. apply Nat.eqb_eq in Hlen. split.
  - rewrite (take_app_exact 8) by apply length_be. rewrite (drop_app_exact 8) by apply length_be.
    rewrite (take_app_exact 64) by done. rewrite app_assoc.
    rewrite drop_app_exact by (rewrite length_app, length_be; lia). by rewrite be_val_be_fits.
  - rewrite !length_app, length_be. destruct nw as [|c nw]; [done|]. simpl in Hn.
    rewrite !andb_true_iff in Hn. destruct Hn as [[_ Hl] _]. apply Nat.leb_le in Hl.
    unfold topologyMaximumFileBytes. cbn [length]. change (Z.shiftl 1 20) with 1048576. lia.
Defined.

Lemma watermark_monotone_witness : exists n : node,
  accepted n = [(7, topology_digest x07); (5, topology_digest x05)] /\ monotone_history (accepted n).
Proof.
  pose proof (@node_start example_watermark_json False net_a) as R.
  eapply node_steps in R; [|eapply (node_accepts _ _ io_ok) with (epoch := 5) (digest := topology_digest x05); [done|reflexivity]].
  eapply node_steps in R; [|eapply (node_accepts _ _ io_ok) with (epoch := 7) (digest := topology_digest x07); [done|reflexivity]].
  eexists. split; [|exact (@watermark_monotone example_watermark_json net_a _ R)]. reflexivity.
Defined.

Lemma watermark_limits_witness : exists n, @node_reachable example_watermark_json True net_a n /\
  accepted n = [(6, topology_digest x06); (7, topology_digest x07); (5, topology_digest x05)].
Proof. exact (proj1 (@watermark_limits example_watermark_json)). Defined.
