(* ===== verification/Epoch.v ===== *)
(** Epoch descriptors ([live/epoch/descriptor.go], [encoding.go] and the
    canonical encoding of [vectors.go]): the activation object of one epoch, its
    digest, the signatures over it and its complete verification.  The signed
    topology and the DKG certificate inside a descriptor are read through the
    interface [EpochInputs]. *)

From stdpp Require Import base list list_numbers strings gmap sorting.
From Stdlib Require Import ZArith Lia Strings.Byte.
From S2P Require Import Prelude Bytes Hash Codec Checkpoint Topology.

(** ** Data *)

Definition EpochVersion : list byte := String.list_byte_of_string "nomad-epoch-descriptor-v1".
Definition digestDomain : list byte := String.list_byte_of_string "nomad-epoch-descriptor-digest-v1".
Definition activationDomain : list byte := String.list_byte_of_string "nomad-epoch-activation-v1".
Definition approvalDomain : list byte := String.list_byte_of_string "nomad-epoch-approval-v1".
Definition TransitionGenesis : list byte := String.list_byte_of_string "genesis".
Definition TransitionScheduled : list byte := String.list_byte_of_string "scheduled".
Definition TransitionEmergency : list byte := String.list_byte_of_string "emergency".
Definition MaximumFileBytes : Z := Z.shiftl 1 20.
Definition maxCanonicalBytes : Z := Z.shiftl 4 20.

(** [Approval] and [Activation] have the same fields. *)
Record Endorsement := mkEndorsement {
  EOperatorID : list byte;
  EIndex : Z;                 (* uint32 *)
  ESignature : list byte;     (* base64 text *)
}.

(** The order in which activations are checked. *)
Definition by_index (a b : Endorsement) : Prop := EIndex a <= EIndex b.
#[export] Instance by_index_dec a b : Decision (by_index a b).
Proof. unfold by_index. apply _. Defined.
#[export] Instance by_index_total : Total by_index.
Proof. intros a b. unfold by_index. lia. Qed.
#[export] Instance by_index_trans : Transitive by_index.
Proof. intros a b c. unfold by_index. lia. Qed.

Record Descriptor := mkDescriptor {
  DVersion : list byte;
  PreviousEpochDigest : list byte;   (* hexadecimal text *)
  Transition : list byte;
  DActivateAt : list byte;           (* RFC 3339 text *)
  DRetireAt : list byte;
  DTopology : list byte;             (* base64 text *)
  DKGCertificate : list byte;
  UplinkProfile : list byte;
  Approvals : list Endorsement;
  Activations : list Endorsement;
}.

Inductive epoch_error :=
| ErrDescriptorSize
| ErrDescriptorDecode
| ErrDescriptorVersion
| ErrPreviousDigest
| ErrTransitionKind
| ErrDescriptorTime
| ErrEmbeddedEncoding
| ErrUplinkProfile
| ErrEmbeddedTopology
| ErrEmbeddedCertificate
| ErrWindow
| ErrRevokedOperator
| ErrChainLink
| ErrApprovals
| ErrActivations
| ErrIdentity.

(** What verification reads through other packages.  [descriptor_json] is the
    strict decoding of the descriptor, [topology_json] that of a signed
    topology, [topology_verify] is [topology.Verify] with no clock and
    [committee_decode] is [committee.Decode]. *)
Class EpochInputs := {
  certificate : Type;
  descriptor_json : list byte -> option Descriptor;
  topology_json : list byte -> option Document;
  topology_verify : list byte -> list byte -> option Document;
  committee_decode : list byte -> Document -> option certificate;
  (** A verified topology is the one that decoding reads, numbers its
      operators in order and gives them distinct identifiers and keys. *)
  topology_verify_json : forall b k d, topology_verify b k = Some d -> topology_json b = Some d;
  topology_verify_epoch : forall b k d, topology_verify b k = Some d -> 0 < DocEpoch d < 2 ^ 64;
  topology_verify_operators : forall b k d, topology_verify b k = Some d ->
    indexed (Operators d) /\ NoDup (OpID <$> Operators d) /\ NoDup (IdentityKey <$> Operators d) /\
    len (Operators d) < 2 ^ 16;
}.

Record Verified `{EpochInputs} := mkVerified {
  VDescriptor : Descriptor;
  VDigest : list byte;
  VTopology : Document;
  VCertificate : certificate;
  VEpoch : Z;
  VNetworkID : list byte;
  VActivateAt : Z;
  VRetireAt : Z;
}.

(** ** Encodings *)

Definition validCanonicalLength (length : Z) : bool := negb ((length <? 0) || (maxCanonicalBytes <? length)).

Definition decodeBounded (encoded : list byte) : option (list byte) :=
  decoded ← DecodeBase64 encoded; if validCanonicalLength (len decoded) then Some decoded else None.

Definition appendBytes (out value : list byte) : list byte := appendUint64 out (len value) ++ value.

Section encoding.
Context `{Calendar}.

(** [validateCanonicalTime]: the text is the one form of its instant. *)
Definition canonical_time (encoded : list byte) : bool :=
  match parse_time encoded with
  | None => false
  | Some parsed => bool_decide (format_time parsed = encoded)
  end.

Definition transition_kind (t : list byte) : bool :=
  bool_decide (t = TransitionGenesis) || bool_decide (t = TransitionScheduled) || bool_decide (t = TransitionEmergency).

Definition CanonicalBytes (d : Descriptor) : result epoch_error (list byte) :=
  if negb (bool_decide (DVersion d = EpochVersion)) then Err ErrDescriptorVersion
  else match canonical_hex (PreviousEpochDigest d) 32 with
  | None => Err ErrPreviousDigest
  | Some previousDigest =>
      if negb (transition_kind (Transition d)) then Err ErrTransitionKind
      else if negb (canonical_time (DActivateAt d)) then Err ErrDescriptorTime
      else if negb (canonical_time (DRetireAt d)) then Err ErrDescriptorTime
      else match decodeBounded (DTopology d), decodeBounded (DKGCertificate d), decodeBounded (UplinkProfile d) with
      | Some topologyBytes, Some certificateBytes, Some uplinkBytes =>
          let canonical := appendString [] (DVersion d) in
          let canonical := canonical ++ previousDigest in
          let canonical := appendString canonical (Transition d) in
          let canonical := appendString canonical (DActivateAt d) in
          let canonical := appendString canonical (DRetireAt d) in
          let canonical := appendBytes canonical topologyBytes in
          let canonical := appendBytes canonical certificateBytes in
          Ok (appendBytes canonical uplinkBytes)
      | _, _, _ => Err ErrEmbeddedEncoding
      end
  end.
End encoding.

Definition activationMessage (digest : list byte) : list byte := activationDomain ++ digest.

Definition approvalMessage (previousDigest digest approver : list byte) : list byte :=
  approvalDomain ++ previousDigest ++ digest ++ approver.

(** Go's zero time, the first instant of year 1. *)
Definition zero_time : Z := -62135596800 * second.
Definition millisecond : Z := 1000000.

Section operations.
Context `{HashFunction, SignatureScheme, Calendar, EpochInputs}.

(** [t, _ := time.Parse(...)]: a failed parse leaves the zero time. *)
Definition parse_or_zero (text : list byte) : Z := default zero_time (parse_time text).

Definition Digest (d : Descriptor) : result epoch_error (list byte) :=
  canonical ← CanonicalBytes d; Ok (sha256 (digestDomain ++ canonical)).

(** [New]: an unsigned descriptor that chains to [previous]. *)
Definition NewDescriptor (previous : option Verified) (transition activateAt retireAt topologyBytes certificateBytes : list byte)
  : result epoch_error Descriptor :=
  let previousDigest := match previous with
    | Some p => hex_encode (VDigest p) | None => hex_encode (replicate 32 x00) end in
  let d := mkDescriptor EpochVersion previousDigest transition activateAt retireAt
             (b64_encode topologyBytes) (b64_encode certificateBytes) [] [] [] in
  _ ← Digest d; Ok d.

Definition requireMatchingIdentity (operator : Operator) (identity : list byte) : result epoch_error unit :=
  if negb (Nat.eqb (length identity) 64) then Err ErrIdentity
  else match decodeBase64 (IdentityKey operator) 32 with
       | None => Err ErrIdentity
       | Some configured => if bool_decide (configured = public identity) then Ok tt else Err ErrIdentity
       end.

Definition Activate (d : Descriptor) (operator : Operator) (identity : list byte) : result epoch_error Endorsement :=
  _ ← requireMatchingIdentity operator identity;
  digest ← Digest d;
  Ok (mkEndorsement (OpID operator) (Z.of_nat (OpIndex operator)) (b64_encode (sign identity (activationMessage digest)))).

Definition Approve (d : Descriptor) (previous : Verified) (operator : Operator) (identity : list byte)
  : result epoch_error Endorsement :=
  _ ← requireMatchingIdentity operator identity;
  digest ← Digest d;
  Ok (mkEndorsement (OpID operator) (Z.of_nat (OpIndex operator))
        (b64_encode (sign identity (approvalMessage (VDigest previous) digest (public identity))))).

Definition ApprovalQuorum (previous : Verified) : Z :=
  let members := len (Operators (VTopology previous)) in
  let majority := members / 2 + 1 in
  let threshold := Threshold (DKG (VTopology previous)) in
  if majority <? threshold then threshold else majority.

Definition verifyChainLink (d : Descriptor) (network : Document) (previous : option Verified) (activateAt : Z)
  : result epoch_error unit :=
  if bool_decide (Transition d = TransitionGenesis) then
    match previous with
    | Some _ => Err ErrChainLink
    | None =>
        if negb (bool_decide (PreviousEpochDigest d = hex_encode (replicate 32 x00))) then Err ErrChainLink
        else if negb (bool_decide (Approvals d = [])) then Err ErrChainLink
        else Ok tt
    end
  else match previous with
  | None => Err ErrChainLink
  | Some p =>
      if negb (bool_decide (PreviousEpochDigest d = hex_encode (VDigest p))) then Err ErrChainLink
      else if negb (bool_decide (NetworkID network = VNetworkID p)) then Err ErrChainLink
      else if negb (DocEpoch network =? u64 (VEpoch p + 1)) then Err ErrChainLink
      else if bool_decide (Transition d = TransitionScheduled) then
        if activateAt =? VRetireAt p then Ok tt else Err ErrChainLink
      else if bool_decide (Transition d = TransitionEmergency) then
        if negb (activateAt <? VRetireAt p) then Err ErrChainLink
        else if negb (VActivateAt p <? activateAt) then Err ErrChainLink
        else Ok tt
      else Err ErrChainLink
  end.

(** The loop over the approvals; [seen] are the operators counted so far. *)
Fixpoint check_approvals (p : Verified) (digest : list byte) (revoked : gset (list byte))
  (seen : list (list byte)) (approvals : list Endorsement) : result epoch_error (list (list byte)) :=
  match approvals with
  | [] => Ok seen
  | approval :: approvals =>
      if negb (EIndex approval <? len (Operators (VTopology p))) then Err ErrApprovals
      else match operator_at (VTopology p) (Z.to_nat (u16 (EIndex approval))) with
      | None => Err ErrApprovals
      | Some operator =>
          if negb (bool_decide (OpID operator = EOperatorID approval)) then Err ErrApprovals
          else if bool_decide (OpID operator ∈ seen) then Err ErrApprovals
          else if bool_decide (IdentityKey operator ∈ revoked) then Err ErrApprovals
          else match decodeBase64 (IdentityKey operator) 32, decodeBase64 (ESignature approval) 64 with
          | Some key, Some signature =>
              if verify key (approvalMessage (VDigest p) digest key) signature
              then check_approvals p digest revoked (OpID operator :: seen) approvals
              else Err ErrApprovals
          | _, _ => Err ErrApprovals
          end
      end
  end.

Definition verifyApprovals (d : Descriptor) (digest : list byte) (previous : option Verified) (revoked : gset (list byte))
  : result epoch_error unit :=
  if bool_decide (Transition d = TransitionGenesis) then Ok tt
  else match previous with
  | None => Err ErrApprovals     (* the code dereferences nil here; the chain link was refused before *)
  | Some p =>
      let quorum := ApprovalQuorum p in
      if len (Approvals d) <? quorum then Err ErrApprovals
      else
        seen ← check_approvals p digest revoked [] (Approvals d);
        if len seen <? quorum then Err ErrApprovals else Ok tt
  end.

(** The sorted activations against the membership, position by position. *)
Fixpoint check_activations (index : nat) (message : list byte) (activations : list Endorsement) (operators : list Operator)
  : result epoch_error unit :=
  match activations, operators with
  | [], _ => Ok tt
  | activation :: activations, operator :: operators =>
      if negb (EIndex activation =? Z.of_nat index) || negb (bool_decide (EOperatorID activation = OpID operator))
      then Err ErrActivations
      else match decodeBase64 (IdentityKey operator) 32, decodeBase64 (ESignature activation) 64 with
      | Some key, Some signature =>
          if verify key message signature then check_activations (S index) message activations operators
          else Err ErrActivations
      | _, _ => Err ErrActivations
      end
  | _ :: _, [] => Err ErrActivations     (* excluded by the length check *)
  end.

Definition verifyActivations (d : Descriptor) (digest : list byte) (network : Document) : result epoch_error unit :=
  if negb (Nat.eqb (length (Activations d)) (length (Operators network))) then Err ErrActivations
  else check_activations 0 (activationMessage digest)
         (merge_sort by_index (Activations d)) (Operators network).

Definition Verify (encoded authority : list byte) (previous : option Verified) (revoked : gset (list byte))
  : result epoch_error Verified :=
  if (len encoded =? 0) || (MaximumFileBytes <? len encoded) then Err ErrDescriptorSize
  else match descriptor_json encoded with
  | None => Err ErrDescriptorDecode
  | Some d =>
      digest ← Digest d;
      if negb (bool_decide (UplinkProfile d = [])) then Err ErrUplinkProfile
      else match topology_verify (default [] (decodeBounded (DTopology d))) authority with
      | None => Err ErrEmbeddedTopology
      | Some network =>
          match committee_decode (default [] (decodeBounded (DKGCertificate d))) network with
          | None => Err ErrEmbeddedCertificate
          | Some certified =>
              let activateAt := parse_or_zero (DActivateAt d) in
              let retireAt := parse_or_zero (DRetireAt d) in
              let notBefore := parse_or_zero (NotBefore network) in
              let notAfter := parse_or_zero (NotAfter network) in
              let dkgEnd := parse_or_zero (StartAt (DKG network)) + 4 * PhaseDurationMillis (DKG network) * millisecond in
              if negb (activateAt <? retireAt) then Err ErrWindow
              else if activateAt <? dkgEnd then Err ErrWindow
              else if (activateAt <? notBefore) || (notAfter <? retireAt) then Err ErrWindow
              else if existsb (fun o => bool_decide (IdentityKey o ∈ revoked)) (Operators network)
              then Err ErrRevokedOperator
              else
                _ ← verifyChainLink d network previous activateAt;
                _ ← verifyApprovals d digest previous revoked;
                _ ← verifyActivations d digest network;
                Ok (mkVerified _ d digest network certified (DocEpoch network) (NetworkID network) activateAt retireAt)
          end
      end
  end.
End operations.

(** ** The digest *)

Lemma decodeBounded_unique text raw : decodeBounded text = Some raw -> text = b64_encode raw /\ addressable raw.
Proof.
  unfold decodeBounded. destruct (DecodeBase64 text) as [r|] eqn:E; [|done]. simpl.
  destruct (validCanonicalLength _) eqn:Hl; [|done]. intros [= <-]. split; [by apply DecodeBase64_unique|].
  unfold validCanonicalLength in Hl. reflect_bools. unfold addressable.
  change maxCanonicalBytes with 4194304 in *. lia.
Qed.

Section digest.
Context `{HashFunction, Calendar}.

(** What an honest file can hold: its texts have lengths. *)
Definition descriptor_fits (d : Descriptor) : Prop := addressable (DActivateAt d) /\ addressable (DRetireAt d).

(** The signed part of a descriptor: everything but the signatures. *)
Definition signed_fields (d : Descriptor) :=
  (DVersion d, PreviousEpochDigest d, Transition d, DActivateAt d, DRetireAt d, DTopology d, DKGCertificate d,
   UplinkProfile d).

(** The parts of the canonical bytes, of a descriptor that has them. *)
Lemma CanonicalBytes_parts d c : CanonicalBytes d = Ok c -> exists pd t cert up,
  DVersion d = EpochVersion /\ PreviousEpochDigest d = hex_encode pd /\ is_digest pd /\
  transition_kind (Transition d) = true /\
  DTopology d = b64_encode t /\ DKGCertificate d = b64_encode cert /\ UplinkProfile d = b64_encode up /\
  addressable t /\ addressable cert /\ addressable up /\
  c = appendString [] EpochVersion ++ pd ++ appendString [] (Transition d) ++ appendString [] (DActivateAt d) ++
      appendString [] (DRetireAt d) ++ appendString [] t ++ appendString [] cert ++ appendString [] up.
Proof.
  unfold CanonicalBytes. case_bool_decide as Hv; [|done]. simpl.
  destruct (canonical_hex (PreviousEpochDigest d) 32) as [pd|] eqn:Hpd; [|done].
  destruct (transition_kind (Transition d)) eqn:Hk; [|done]. simpl.
  destruct (canonical_time (DActivateAt d)); [|done]. destruct (canonical_time (DRetireAt d)); [|done]. simpl.
  destruct (decodeBounded (DTopology d)) as [t|] eqn:Ht; [|done].
  destruct (decodeBounded (DKGCertificate d)) as [cert|] eqn:Hc; [|done].
  destruct (decodeBounded (UplinkProfile d)) as [up|] eqn:Hu; [|done]. intros E. apply (inj Ok) in E.
  apply canonical_hex_unique in Hpd as [Hl Hpd].
  apply decodeBounded_unique in Ht as [Ht Ht'], Hc as [Hc Hc'], Hu as [Hu Hu'].
  exists pd, t, cert, up. split_and!; try done. rewrite <- E, Hv. unfold appendBytes, appendString, appendUint64.
  by rewrite <- !app_assoc.
Qed.

Lemma transition_addressable t : transition_kind t = true -> addressable t.
Proof.
  unfold transition_kind. rewrite !orb_true_iff, !bool_decide_eq_true. by intros [[-> | ->]| ->].
Qed.

Lemma CanonicalBytes_inj d1 d2 c : descriptor_fits d1 -> descriptor_fits d2 ->
  CanonicalBytes d1 = Ok c -> CanonicalBytes d2 = Ok c -> signed_fields d1 = signed_fields d2.
Proof.
  intros [Ha1 Hr1] [Ha2 Hr2].
  intros (pd1 & t1 & c1 & u1 & V1 & P1 & L1 & K1 & T1 & C1 & U1 & At1 & Ac1 & Au1 & ->)%CanonicalBytes_parts.
  intros (pd2 & t2 & c2 & u2 & V2 & P2 & L2 & K2 & T2 & C2 & U2 & At2 & Ac2 & Au2 & E)%CanonicalBytes_parts.
  apply transition_addressable in K1, K2.
  apply app_inv_head in E. apply digest_split in E as [-> E]; [|done..].
  apply appendString_split in E as [Et E]; [|done..]. apply appendString_split in E as [Ea E]; [|done..].
  apply appendString_split in E as [Er E]; [|done..]. apply appendString_split in E as [-> E]; [|done..].
  apply appendString_split in E as [-> E]; [|done..]. apply appendString_inj in E; [|done..].
  unfold signed_fields. rewrite V1, V2, P1, P2, T1, T2, C1, C2, U1, U2. by rewrite Et, Ea, Er, E.
Qed.
End digest.

(** The digest of a descriptor binds everything in it but the signatures:
    two descriptors with one digest have the same version, predecessor,
    transition, boundaries, topology, certificate and profile, as texts, unless
    the hash collides on their canonical forms. *)
Theorem digest_binds_descriptor `{HashFunction, Calendar} d1 d2 c1 c2 h :
  descriptor_fits d1 -> descriptor_fits d2 -> CanonicalBytes d1 = Ok c1 -> CanonicalBytes d2 = Ok c2 ->
  Digest d1 = Ok h -> Digest d2 = Ok h -> collision_free [digestDomain ++ c1; digestDomain ++ c2] ->
  signed_fields d1 = signed_fields d2.
Proof.
  intros Hf1 Hf2 Hc1 Hc2. unfold Digest. rewrite Hc1, Hc2. cbn [mbind result_bind].
  intros E1%(inj Ok) E2%(inj Ok) Hcf. rewrite <- E2 in E1.
  apply Hcf in E1; [|set_solver|set_solver]. apply app_inv_head in E1. subst c2. by eapply CanonicalBytes_inj.
Qed.

(** ** Verification *)

Section verification.
Context `{HashFunction, SignatureScheme, Calendar, EpochInputs}.

Lemma Verify_ok encoded authority previous revoked v : Verify encoded authority previous revoked = Ok v ->
  descriptor_json encoded = Some (VDescriptor v) /\ Digest (VDescriptor v) = Ok (VDigest v) /\
  topology_verify (default [] (decodeBounded (DTopology (VDescriptor v)))) authority = Some (VTopology v) /\
  VEpoch v = DocEpoch (VTopology v) /\ VNetworkID v = NetworkID (VTopology v) /\ VActivateAt v < VRetireAt v /\
  (forall o, o ∈ Operators (VTopology v) -> IdentityKey o ∉ revoked) /\
  verifyChainLink (VDescriptor v) (VTopology v) previous (VActivateAt v) = Ok tt /\
  verifyApprovals (VDescriptor v) (VDigest v) previous revoked = Ok tt /\
  verifyActivations (VDescriptor v) (VDigest v) (VTopology v) = Ok tt.
Proof.
  unfold Verify. destruct (_ || _); [done|]. destruct (descriptor_json encoded) as [d|] eqn:Hj; [|done].
  destruct (Digest d) as [digest|] eqn:Hd; [|done]. cbn [mbind result_bind].
  destruct (negb _); [done|]. destruct (topology_verify _ _) as [network|] eqn:Ht; [|done].
  destruct (committee_decode _ _) as [cert|]; [|done].
  destruct (parse_or_zero (DActivateAt d) <? parse_or_zero (DRetireAt d)) eqn:Hw; [|done]. cbn [negb].
  destruct (_ <? parse_or_zero (StartAt (DKG network)) + _); [done|]. destruct (_ || _); [done|].
  destruct (existsb _ _) eqn:Hrev; [done|].
  destruct (verifyChainLink _ _ _ _) as [[]|] eqn:Hl; cbn [mbind result_bind]; [|done].
  destruct (verifyApprovals _ _ _ _) as [[]|] eqn:Ha; cbn [mbind result_bind]; [|done].
  destruct (verifyActivations _ _ _) as [[]|] eqn:Hact; cbn [mbind result_bind]; [|done]. intros E. apply (inj Ok) in E. subst v. simpl.
  split_and!; try done; [lia|]. intros o Ho Hin.
  rewrite <- not_true_iff_false in Hrev. apply Hrev. apply existsb_exists. exists o.
  split; [by apply list_elem_of_In|]. by apply bool_decide_eq_true.
Qed.

(** How a verified epoch follows the one before it. *)
Definition succeeds (p v : Verified) : Prop :=
  PreviousEpochDigest (VDescriptor v) = hex_encode (VDigest p) /\ VNetworkID v = VNetworkID p /\
  VEpoch v = VEpoch p + 1 /\ Transition (VDescriptor v) <> TransitionGenesis /\
  ((Transition (VDescriptor v) = TransitionScheduled /\ VActivateAt v = VRetireAt p) \/
   (Transition (VDescriptor v) = TransitionEmergency /\ VActivateAt p < VActivateAt v < VRetireAt p)).

(** Numbers a verified epoch can have. *)
Lemma Verify_epoch_range encoded authority previous revoked v :
  Verify encoded authority previous revoked = Ok v -> 0 < VEpoch v < 2 ^ 64.
Proof.
  intros (_ & _ & Ht & -> & _)%Verify_ok. by apply topology_verify_epoch in Ht.
Qed.

Lemma Verify_succeeds encoded authority p revoked v : Verify encoded authority (Some p) revoked = Ok v ->
  0 < VEpoch p < 2 ^ 64 -> succeeds p v.
Proof.
  intros Hv Hp. pose proof (Verify_epoch_range _ _ _ _ _ Hv) as Hr.
  apply Verify_ok in Hv as (_ & _ & _ & He & Hn & _ & _ & Hl & _). unfold verifyChainLink in Hl.
  rewrite <- He, <- Hn in Hl.
  case_bool_decide as Hg; [done|]. case_bool_decide as Hd; [|done]. case_bool_decide as Hnet; [|done]. simpl in Hl.
  destruct (VEpoch v =? _) eqn:Hep; [|done]. simpl in Hl. apply Z.eqb_eq in Hep.
  assert (VEpoch v = VEpoch p + 1).
  { destruct (decide (VEpoch p + 1 = 2 ^ 64)) as [E|E]; [rewrite E in Hep; unfold wrapu in Hep; rewrite Z.mod_same in Hep by done; lia|].
    rewrite wrapu_small in Hep by (unfold fits; lia). done. }
  split_and!; try done. case_bool_decide as Hs.
  - destruct (VActivateAt v =? VRetireAt p) eqn:Ha; [|done]. left. split; [done|lia].
  - case_bool_decide as Hem; [|done]. right. split; [done|].
    destruct (VActivateAt v <? VRetireAt p) eqn:Hs1; simpl in Hl; [|done].
    destruct (VActivateAt p <? VActivateAt v) eqn:Hs2; simpl in Hl; [lia|done].
Qed.

Lemma Verify_genesis encoded authority revoked v : Verify encoded authority None revoked = Ok v ->
  Transition (VDescriptor v) = TransitionGenesis /\ Approvals (VDescriptor v) = [].
Proof.
  intros (_ & _ & _ & _ & _ & _ & _ & Hl & _)%Verify_ok. unfold verifyChainLink in Hl.
  case_bool_decide as Hg; [|done]. repeat (case_bool_decide; [|done]). done.
Qed.

(** *** Approvals *)

(** Operator [id] of epoch [p] has signed the transition to [digest]. *)
Definition approved (p : Verified) (digest id : list byte) : Prop :=
  exists operator key signature, operator ∈ Operators (VTopology p) /\ OpID operator = id /\
    decodeBase64 (IdentityKey operator) 32 = Some key /\
    verify key (approvalMessage (VDigest p) digest key) signature = true.

Lemma check_approvals_sound p digest revoked seen approvals seen' :
  check_approvals p digest revoked seen approvals = Ok seen' -> NoDup seen ->
  NoDup seen' /\ forall id, id ∈ seen' -> id ∈ seen \/ approved p digest id.
Proof.
  revert seen. induction approvals as [|a approvals IH]; intros seen; simpl.
  - intros E. apply (inj Ok) in E as ->. auto.
  - destruct (_ <? _); [|done]. simpl. destruct (operator_at _ _) as [o|] eqn:Ho; [|done].
    case_bool_decide; [|done]. case_bool_decide as Hseen; [done|]. case_bool_decide; [done|]. simpl.
    destruct (decodeBase64 (IdentityKey o) 32) as [key|] eqn:Hk; [|done].
    destruct (decodeBase64 (ESignature a) 64) as [sg|]; [|done]. destruct (verify _ _ _) eqn:Hv; [|done].
    intros E Hnd. apply IH in E as [Hnd' Hin]; [|by constructor]. split; [done|].
    intros id Hid. destruct (Hin id Hid) as [[-> |?]%elem_of_cons|?]; [right|by left|by right].
    unfold operator_at in Ho. destruct (Operators _ !! _) as [o'|] eqn:Hl; [|done]. simpl in Ho.
    destruct (Nat.eqb _ _); [|done]. injection Ho as <-. exists o', key, sg. split_and!; try done.
    by eapply list_elem_of_lookup_2.
Qed.

Lemma ApprovalQuorum_majority p : len (Operators (VTopology p)) < 2 * ApprovalQuorum p.
Proof. unfold ApprovalQuorum. case_match; Z.to_euclidean_division_equations; lia. Qed.

(** The operators whose approvals carried a transition. *)
Lemma verified_approvers encoded authority p revoked v : Verify encoded authority (Some p) revoked = Ok v ->
  0 < VEpoch p < 2 ^ 64 ->
  exists s : gset (list byte), ApprovalQuorum p <= Z.of_nat (size s) /\
    forall id, id ∈ s -> approved p (VDigest v) id.
Proof.
  intros Hv Hp. pose proof (Verify_succeeds _ _ _ _ _ Hv Hp) as (_ & _ & _ & Hg & _).
  apply Verify_ok in Hv as (_ & _ & _ & _ & _ & _ & _ & _ & Ha & _). unfold verifyApprovals in Ha.
  rewrite bool_decide_false in Ha by done. destruct (_ <? _); [done|].
  destruct (check_approvals _ _ _ _ _) as [seen|] eqn:Hc; [|done]. cbn [mbind result_bind] in Ha.
  destruct (_ <? _) eqn:Hq; [done|]. apply check_approvals_sound in Hc as [Hnd Hin]; [|constructor].
  exists (list_to_set seen). rewrite size_list_to_set by done. split; [lia|].
  intros id [?%elem_of_nil|?]%elem_of_list_to_set%Hin; done.
Qed.

Lemma approved_member p digest id : approved p digest id -> id ∈ OpID <$> Operators (VTopology p).
Proof. intros (o & _ & _ & Ho & <- & _). by apply list_elem_of_fmap_2. Qed.

Lemma quorums_meet (p : Verified) (d1 d2 : list byte) (s1 s2 : gset (list byte)) :
  ApprovalQuorum p <= Z.of_nat (size s1) -> ApprovalQuorum p <= Z.of_nat (size s2) ->
  (forall id, id ∈ s1 -> approved p d1 id) -> (forall id, id ∈ s2 -> approved p d2 id) ->
  exists id, approved p d1 id /\ approved p d2 id.
Proof.
  intros Hs1 Hs2 Ha1 Ha2. pose proof (ApprovalQuorum_majority p) as Hq.
  set (ids := list_to_set (OpID <$> Operators (VTopology p)) : gset (list byte)).
  assert (s1 ∪ s2 ⊆ ids) as Hsub%subseteq_size.
  { intros id [Hi|Hi]%elem_of_union; apply elem_of_list_to_set; eapply approved_member; eauto. }
  assert (size ids <= length (Operators (VTopology p)))%nat as Hids.
  { rewrite <- (length_fmap OpID). unfold ids. apply size_list_to_set_le. }
  destruct (decide (s1 ∩ s2 = ∅)) as [Hd|[id Hid]%set_choose_L]; [|exists id; set_solver].
  rewrite size_union in Hsub by (by apply disjoint_intersection_L). lia.
Qed.
End verification.

(** ** Activation by every operator *)

Section activation.
Context `{HashFunction, SignatureScheme, Calendar, EpochInputs}.

(** The identity matches the operator's published key. *)
Lemma requireMatchingIdentity_ok operator identity : requireMatchingIdentity operator identity = Ok tt ->
  length identity = 64%nat /\ decodeBase64 (IdentityKey operator) 32 = Some (public identity).
Proof.
  unfold requireMatchingIdentity. destruct (Nat.eqb_spec (length identity) 64) as [Hl|]; [|done]. simpl.
  destruct (decodeBase64 _ _) as [k|]; [|done]. case_bool_decide as Hk; [|done]. by subst k.
Qed.

(** The digest does not depend on the signatures collected so far. *)
Lemma Digest_signed d1 d2 : signed_fields d1 = signed_fields d2 -> Digest d1 = Digest d2.
Proof.
  destruct d1, d2. unfold signed_fields. simpl. intros [= -> -> -> -> -> -> -> ->]. done.
Qed.

(** The activations of all operators, in the operators' order. *)
Definition activates (d : Descriptor) (os : list Operator) (ids : list (list byte)) (acts : list Endorsement) : Prop :=
  Forall2 (fun oi a => Activate d oi.1 oi.2 = Ok a) (zip os ids) acts /\ length ids = length os.

Lemma Activate_ok d o i a digest : Activate d o i = Ok a -> Digest d = Ok digest ->
  EIndex a = Z.of_nat (OpIndex o) /\ EOperatorID a = OpID o /\ exists key,
  decodeBase64 (IdentityKey o) 32 = Some key /\
  exists sg, decodeBase64 (ESignature a) 64 = Some sg /\ verify key (activationMessage digest) sg = true.
Proof.
  unfold Activate. destruct (requireMatchingIdentity o i) as [[]|] eqn:Hm; [|done]. cbn [mbind result_bind].
  intros E Hd. rewrite Hd in E. cbn [mbind result_bind] in E. apply (inj Ok) in E. subst a. simpl.
  apply requireMatchingIdentity_ok in Hm as [Hl Hk]. split_and!; try done. exists (public i). split; [done|].
  exists (sign i (activationMessage digest)). split; [|by apply sign_verify].
  apply decodeBase64_encode, sign_length.
Qed.

Lemma check_activations_ok d digest os ids acts n : Digest d = Ok digest -> activates d os ids acts ->
  (forall i o, os !! i = Some o -> OpIndex o = (n + i)%nat) ->
  check_activations n (activationMessage digest) acts os = Ok tt /\
  StronglySorted by_index acts /\ Forall (fun a => Z.of_nat n <= EIndex a) acts /\ NoDup (EIndex <$> acts).
Proof.
  intros Hd [Ha Hl]. revert ids acts n Ha Hl. induction os as [|o os IH]; intros [|i ids] acts n Ha Hl Hi; try done.
  { apply Forall2_nil_inv_l in Ha as ->. split_and!; try done; constructor. }
  simpl in Ha. apply Forall2_cons_inv_l in Ha as (a & acts' & Ha & Hrest & ->).
  destruct (IH ids acts' (S n)) as (Hc & Hs & Hge & Hnd); [done|simpl in Hl; lia| |].
  { intros j oj Hj. rewrite (Hi (S j) oj Hj). lia. }
  destruct (Activate_ok d o i a digest Ha Hd) as (Ei & Eo & key & Hk & sg & Hsg & Hv).
  rewrite (Hi 0%nat o eq_refl), Nat.add_0_r in Ei. cbn [check_activations].
  rewrite Ei, Z.eqb_refl, Eo, bool_decide_true, Hk, Hsg, Hv by done. simpl. split_and!; [done|..].
  - constructor; [done|]. eapply Forall_impl; [exact Hge|]. intros x Hx. simpl in Hx. unfold by_index. lia.
  - constructor; [lia|]. eapply Forall_impl; [exact Hge|]. simpl. intros x ?. lia.
  - constructor; [|done]. intros (x & Ex & Hx)%list_elem_of_fmap.
    rewrite Forall_forall in Hge. specialize (Hge x Hx). lia.
Qed.

Lemma sorted_by_index_unique l1 l2 : l1 ≡ₚ l2 -> NoDup (EIndex <$> l2) ->
  StronglySorted by_index l1 -> StronglySorted by_index l2 -> l1 = l2.
Proof.
  intros Hp Hnd Hs1 Hs2. apply (StronglySorted_unique_strong by_index); [|done..].
  intros a b Ha Hb Hab Hba. rewrite Hp in Ha. unfold by_index in *. assert (EIndex a = EIndex b) as E by lia.
  apply list_elem_of_lookup_1 in Ha as [i Hi], Hb as [j Hj].
  assert (i = j) as ->; [|congruence].
  eapply (NoDup_lookup (EIndex <$> l2) i j (EIndex a)); [done|by rewrite list_lookup_fmap, Hi|].
  by rewrite list_lookup_fmap, Hj, E.
Qed.
End activation.

(** Once every operator of a topology has activated a descriptor with the
    key the topology publishes for it, the collected activations verify in
    whatever order they were collected, and none of them changes the digest the
    others signed. *)
Theorem activations_verify `{HashFunction, SignatureScheme, Calendar, EpochInputs} d network ids acts collected digest :
  indexed (Operators network) -> Digest d = Ok digest -> activates d (Operators network) ids acts ->
  collected ≡ₚ acts ->
  let d' := mkDescriptor (DVersion d) (PreviousEpochDigest d) (Transition d) (DActivateAt d) (DRetireAt d)
              (DTopology d) (DKGCertificate d) (UplinkProfile d) (Approvals d) collected in
  Digest d' = Ok digest /\ verifyActivations d' digest network = Ok tt.
Proof.
  intros Hi Hd Ha Hp d'. split; [rewrite <- Hd; by apply Digest_signed|].
  destruct (check_activations_ok d digest _ ids acts 0 Hd Ha) as (Hc & Hs & _ & Hnd).
  { intros i o Ho. by destruct (Hi i o Ho) as [-> _]. }
  unfold verifyActivations. change (Activations d') with collected.
  assert (length acts = length (Operators network)) as Hlen.
  { destruct Ha as [Hf Hl]. apply Forall2_length in Hf. rewrite <- Hf, length_zip_with. lia. }
  rewrite Hp, Hlen, Nat.eqb_refl. simpl. rewrite <- Hc. f_equal.
  apply sorted_by_index_unique; [by rewrite merge_sort_Permutation|done|apply StronglySorted_merge_sort; apply _|done].
Qed.

(** ** Example: a network of three operators *)

Definition example_identity (i : nat) : list byte := replicate 64 (byte_of_Z (Z.of_nat i + 1)).

Definition example_operator (i : nat) : Operator :=
  mkOperator i [byte_of_Z (97 + Z.of_nat i)] [] [] [] (b64_encode (replicate 32 (byte_of_Z (Z.of_nat i + 1)))) [] []
    [((i + 1) mod 3)%nat] [].

Definition example_members : list Operator := [example_operator 0; example_operator 1; example_operator 2].

(** Instants of the example, in seconds. *)
Definition at_second `{Calendar} (t : Z) : list byte := format_time (t * second).

Section example.
#[local] Existing Instance example_hash.
#[local] Existing Instance example_signatures.
#[local] Existing Instance example_calendar.

Definition example_document (epoch : Z) : Document :=
  mkDocument [] [x6e] epoch (at_second 0) (at_second 100000) (mkTraffic 0 0 0 0)
    (mkDKGProfile 2 [] (at_second 0) 1000) example_members.

(** A topology is encoded by its epoch number; what descriptors decode to is
    given by a table. *)
Definition example_topology (b : list byte) : option Document :=
  match b with
  | [e] => if Z_of_byte e =? 0 then None else Some (example_document (Z_of_byte e))
  | _ => None
  end.

Definition example_inputs (table : list byte -> option Descriptor) : EpochInputs.
Proof.
  refine {| certificate := unit; descriptor_json := table; topology_json := example_topology;
            topology_verify := fun b _ => example_topology b; committee_decode := fun _ _ => Some tt |}.
  - done.
  - intros [|e [|]] k d E; try discriminate E. simpl in E. pose proof (Z_of_byte_range e).
    destruct (Z_of_byte e =? 0) eqn:Z0; [discriminate E|]. injection E as <-. simpl. lia.
  - intros [|e [|]] k d E; try discriminate E. simpl in E. destruct (Z_of_byte e =? 0); [discriminate E|].
    injection E as <-. split; [|split; [|split]].
    + intros [|[|[|i]]] o [= <-]; (split; [reflexivity|repeat constructor]).
    + apply (bool_decide_unpack _). by vm_compute.
    + apply (bool_decide_unpack _). by vm_compute.
    + by vm_compute.
Defined.

Definition example_draft (previous transition : list byte) (epoch : byte) (from to : Z) : Descriptor :=
  mkDescriptor EpochVersion previous transition (at_second from) (at_second to) (b64_encode [epoch]) (b64_encode [])
    [] [] [].

(** The signatures of all three operators over a draft. *)
Definition example_activations (d : Descriptor) : list Endorsement :=
  match mapM (fun i => match Activate d (example_operator i) (example_identity i) with Ok a => Some a | Err _ => None end)
          [2; 0; 1]%nat with
  | Some l => l
  | None => []
  end.

Definition example_approvals (previous : list byte) (d : Descriptor) : list Endorsement :=
  match Digest d with
  | Ok digest => map (fun i => mkEndorsement (OpID (example_operator i)) (Z.of_nat i)
      (b64_encode (sign (example_identity i) (approvalMessage previous digest (public (example_identity i)))))) [0; 2]%nat
  | Err _ => []
  end.

Definition endorse (d : Descriptor) (approvals activations : list Endorsement) : Descriptor :=
  mkDescriptor (DVersion d) (PreviousEpochDigest d) (Transition d) (DActivateAt d) (DRetireAt d) (DTopology d)
    (DKGCertificate d) (UplinkProfile d) approvals activations.

Definition example_genesis : Descriptor :=
  let d := example_draft (hex_encode (replicate 32 x00)) TransitionGenesis x01 100 1000 in
  endorse d [] (example_activations d).

Definition digest_of (d : Descriptor) : list byte := match Digest d with Ok h => h | Err _ => [] end.

(** A successor of [previous], approved by the first and third operator. *)
Definition example_successor (previous : list byte) (transition : list byte) (epoch : byte) (from to : Z) : Descriptor :=
  let d := example_draft (hex_encode previous) transition epoch from to in
  endorse d (example_approvals previous d) (example_activations d).

Definition example_second : Descriptor :=
  example_successor (digest_of example_genesis) TransitionScheduled x02 1000 2000.
(** A conflicting second epoch, signed by the same operators. *)
Definition example_conflict : Descriptor :=
  example_successor (digest_of example_genesis) TransitionScheduled x02 1000 3000.

Definition example_table (b : list byte) : option Descriptor :=
  match b with
  | [x01] => Some example_genesis
  | [x02] => Some example_second
  | [x03] => Some example_conflict
  | _ => None
  end.

#[local] Instance inputs : EpochInputs := example_inputs example_table.

Definition verified_of (b : list byte) (previous : option Verified) : option Verified :=
  match Verify b [] previous ∅ with Ok v => Some v | Err _ => None end.

Definition example_chain : option (Verified * Verified * Verified) :=
  g ← verified_of [x01] None; s ← verified_of [x02] (Some g); c ← verified_of [x03] (Some g); Some (g, s, c).

Lemma example_chain_exists : is_Some example_chain.
Proof. apply (bool_decide_unpack _). vm_compute. exact I. Qed.

Definition genesis_draft : Descriptor := example_draft (hex_encode (replicate 32 x00)) TransitionGenesis x01 100 1000.
Definition canonical_of (d : Descriptor) : list byte := match CanonicalBytes d with Ok c => c | Err _ => [] end.

Lemma digest_binds_descriptor_witness : signed_fields example_genesis = signed_fields genesis_draft.
Proof.
  apply (digest_binds_descriptor example_genesis genesis_draft (canonical_of example_genesis)
    (canonical_of genesis_draft) (digest_of genesis_draft)).
  - split; reflexivity.
  - split; reflexivity.
  - vm_compute. reflexivity.
  - vm_compute. reflexivity.
  - vm_compute. reflexivity.
  - vm_compute. reflexivity.
  - apply collision_freeb_ok. vm_compute. reflexivity.
Defined.

(** The three activations of the genesis draft in the operators' order. *)
Definition genesis_activations : list Endorsement := Eval vm_compute in
  match mapM (fun i => match Activate genesis_draft (example_operator i) (example_identity i) with
                       | Ok a => Some a | Err _ => None end) [0; 1; 2]%nat with
  | Some l => l
  | None => []
  end.

Lemma activations_verify_witness :
  verifyActivations (endorse genesis_draft [] (reverse genesis_activations)) (digest_of genesis_draft)
    (example_document 1) = Ok tt.
Proof.
  refine (proj2 (activations_verify genesis_draft (example_document 1) (map example_identity [0; 1; 2]%nat)
    genesis_activations (reverse genesis_activations) (digest_of genesis_draft) _ _ _ _)).
  - intros [|[|[|i]]] o [= <-]; (split; [reflexivity|repeat constructor]).
  - vm_compute. reflexivity.
  - split; [|reflexivity]. repeat (apply Forall2_cons; split; [vm_compute; reflexivity|]). apply Forall2_nil. done.
  - apply reverse_Permutation.
Defined.
End example.
