(* ===== verification/Chain.v ===== *)
(** The epoch chain store ([live/epoch/chain.go]): a persisted, append-only
    sequence of verified descriptors that halts on equivocation, burns used
    epoch numbers and selects the one active epoch.

    The directory is explicit: the halted marker, the descriptor files by epoch
    number and the high-water mark.  What the operating system does during one
    call is a record of outcomes. *)

From stdpp Require Import base list list_numbers gmap sorting.
From Stdlib Require Import ZArith Lia Strings.Byte.
From S2P Require Import Prelude Bytes Hash Codec Checkpoint Sequence Topology Epoch.

(** ** Data *)

(** [HIGHEST_EPOCH]: absent, a decimal number, or text that is not one. *)
Inductive mark_file := NoMark | BadMark | Mark (value : Z).

Record store := mkStore {
  marker : bool;                      (* HALTED exists *)
  files : gmap Z (list byte);         (* <number>.epoch.json *)
  stray : bool;                       (* an .epoch.json entry with no number *)
  mark : mark_file;
}.

(** The outcome of the operating system's work during one call. *)
Record chain_io := mkChainIO {
  lock_ok : bool;
  marker_readable : bool;             (* Lstat of the marker gives an answer *)
  file_readable : Z -> bool;
  mark_readable : bool;
  mark_write : write_outcome;
  file_write : bool;                  (* writeNewFile of the descriptor *)
  dir_sync : bool;
  marker_write : bool;                (* writeNewFile of the evidence *)
}.

Inductive chain_error :=
| ErrNetworkIDRequired
| ErrAuthorityKey
| ErrChainIO
| ErrStrayEntry
| ErrStoredEpoch (e : epoch_error)
| ErrStoredNumber
| ErrStoredNetwork
| ErrHalted
| ErrChainDescriptor (e : epoch_error)
| ErrOtherNetwork
| ErrConflictInvalid (e : epoch_error)
| ErrEquivocation (persisted : bool)
| ErrBadMark
| ErrBurned
| ErrRollsBack
| ErrNotStored
| ErrOutOfFuel.

Inductive State := StateReady | StateActive | StateRetired.
#[export] Instance State_eq_dec : EqDecision State.
Proof. solve_decision. Defined.

Section chain.
Context `{HashFunction, SignatureScheme, Calendar, EpochInputs}.

Record Chain := mkChain {
  chain_network : list byte;
  authority : list byte;
  revoked : gset (list byte);
  epochs : list Verified;
  halted : bool;
}.

Definition set_epochs (c : Chain) (l : list Verified) : Chain :=
  mkChain (chain_network c) (authority c) (revoked c) l (halted c).
Definition set_halted (c : Chain) : Chain :=
  mkChain (chain_network c) (authority c) (revoked c) (epochs c) true.

(** ** Opening *)

(** The loop of [OpenChain] over the numbers found, in order. *)
Fixpoint load (env : chain_io) (st : store) (c : Chain) (numbers : list Z) : result chain_error Chain :=
  match numbers with
  | [] => Ok c
  | number :: numbers =>
      match files st !! number with
      | None => Err ErrChainIO
      | Some encoded =>
          if negb (file_readable env number) then Err ErrChainIO
          else match Verify encoded (authority c) (last (epochs c)) ∅ with
          | Err e => Err (ErrStoredEpoch e)
          | Ok v =>
              if negb (VEpoch v =? number) then Err ErrStoredNumber
              else if negb (bool_decide (VNetworkID v = chain_network c)) then Err ErrStoredNetwork
              else load env st (set_epochs c (epochs c ++ [v])) numbers
          end
      end
  end.

Definition OpenChain (env : chain_io) (st : store) (networkID key : list byte) (revoked : gset (list byte))
  : result chain_error Chain :=
  if bool_decide (networkID = []) then Err ErrNetworkIDRequired
  else if negb (Nat.eqb (length key) 32) then Err ErrAuthorityKey
  else if negb (marker_readable env) then Err ErrChainIO
  else if marker st then Ok (mkChain networkID key revoked [] true)
  else if stray st then Err ErrStrayEntry
  else load env st (mkChain networkID key revoked [] false) (merge_sort Z.le (elements (dom (files st)))).

(** ** Appending *)

(** The number refreshing looks for after the epochs in memory. *)
Definition next_number (c : Chain) : Z :=
  match last (epochs c) with Some v => u64 (VEpoch v + 1) | None => 1 end.

(** The loop of [refreshLocked]; [None] is a nil error. *)
Fixpoint refresh_loop (fuel : nat) (env : chain_io) (st : store) (c : Chain) : Chain * option chain_error :=
  match fuel with
  | O => (c, Some ErrOutOfFuel)
  | S fuel =>
      match files st !! next_number c with
      | None => (c, None)
      | Some encoded =>
          if negb (file_readable env (next_number c)) then (c, Some ErrChainIO)
          else match Verify encoded (authority c) (last (epochs c)) ∅ with
          | Err e => (c, Some (ErrStoredEpoch e))
          | Ok v =>
              if negb (bool_decide (VNetworkID v = chain_network c)) then (c, Some ErrStoredNetwork)
              else refresh_loop fuel env st (set_epochs c (epochs c ++ [v]))
          end
      end
  end.

Definition refreshLocked (env : chain_io) (st : store) (c : Chain) : Chain * option chain_error :=
  if halted c then (c, None)
  else if negb (marker_readable env) then (c, Some ErrChainIO)
  else if marker st then (set_halted c, None)
  else refresh_loop (S (size (files st))) env st c.

Definition lookupSlot (c : Chain) (number : Z) : option (nat * Verified) :=
  list_find (fun v => VEpoch v = number) (epochs c).

Definition embeddedIdentity (d : Descriptor) : option (list byte * Z) :=
  b ← decodeBounded (DTopology d);
  doc ← topology_json b;
  if (DocEpoch doc =? 0) || bool_decide (NetworkID doc = []) then None else Some (NetworkID doc, DocEpoch doc).

(** The halt takes effect in memory first; the evidence may fail to persist. *)
Definition halt (env : chain_io) (st : store) (c : Chain) : store * Chain * bool :=
  let c := set_halted c in
  if marker st then (st, c, true)
  else if marker_write env then (mkStore true (files st) (stray st) (mark st), c, true)
  else (st, c, false).

Definition readMark (env : chain_io) (st : store) : result chain_error Z :=
  if negb (mark_readable env) then Err ErrChainIO
  else match mark st with
  | NoMark => Ok 0
  | BadMark => Err ErrBadMark
  | Mark v => Ok v
  end.

Definition raiseMark (env : chain_io) (st : store) (number : Z) : store * option chain_error :=
  match readMark env st with
  | Err e => (st, Some e)
  | Ok current =>
      if number <=? current then (st, Some ErrBurned)
      else match mark_write env with
      | FailsBeforeRename => (st, Some ErrChainIO)
      | FailsAtSync => (mkStore (marker st) (files st) (stray st) (Mark number), Some ErrChainIO)
      | Succeeds => (mkStore (marker st) (files st) (stray st) (Mark number), None)
      end
  end.

(** [writeNewFile] of a descriptor: exclusive creation; a failed write leaves
    no file. *)
Definition write_epoch (env : chain_io) (st : store) (number : Z) (encoded : list byte) : store * bool :=
  match files st !! number with
  | Some _ => (st, false)
  | None => if file_write env
            then (mkStore (marker st) (<[number := encoded]> (files st)) (stray st) (mark st), true)
            else (st, false)
  end.

(** A descriptor that competes with stored epoch [stored] at position [i]. *)
Definition append_slot (env : chain_io) (st : store) (c : Chain) (encoded offered : list byte) (i : nat) (stored : Verified)
  : store * Chain * result chain_error Verified :=
  let slotPrevious := match i with O => None | S j => epochs c !! j end in
  if bool_decide (VDigest stored = offered) then
    match Verify encoded (authority c) slotPrevious (revoked c) with
    | Err e => (st, c, Err (ErrChainDescriptor e))
    | Ok _ => (st, c, Ok stored)
    end
  else match Verify encoded (authority c) slotPrevious (revoked c) with
  | Err e => (st, c, Err (ErrConflictInvalid e))
  | Ok competing =>
      if negb (bool_decide (VNetworkID competing = VNetworkID stored)) then (st, c, Err ErrOtherNetwork)
      else let '(st', c', persisted) := halt env st c in (st', c', Err (ErrEquivocation persisted))
  end.

(** A descriptor for an epoch number that is not stored. *)
Definition append_new (env : chain_io) (st : store) (c : Chain) (encoded : list byte) (probeEpoch : Z)
  : store * Chain * result chain_error Verified :=
  match readMark env st with
  | Err e => (st, c, Err e)
  | Ok watermark =>
      if probeEpoch <=? watermark then (st, c, Err ErrBurned)
      else match Verify encoded (authority c) (last (epochs c)) (revoked c) with
      | Err e => (st, c, Err (ErrChainDescriptor e))
      | Ok v =>
          if match last (epochs c) with Some p => VEpoch v <=? VEpoch p | None => false end
          then (st, c, Err ErrRollsBack)
          else match raiseMark env st (VEpoch v) with
          | (st', Some e) => (st', c, Err e)
          | (st', None) =>
              match write_epoch env st' (VEpoch v) encoded with
              | (st'', false) => (st'', c, Err ErrChainIO)
              | (st'', true) =>
                  if negb (dir_sync env) then (st'', c, Err ErrChainIO)
                  else (st'', set_epochs c (epochs c ++ [v]), Ok v)
              end
          end
      end
  end.

Definition Append (env : chain_io) (st : store) (c : Chain) (encoded : list byte)
  : store * Chain * result chain_error Verified :=
  if negb (lock_ok env) then (st, c, Err ErrChainIO)
  else match refreshLocked env st c with
  | (c, Some e) => (st, c, Err e)
  | (c, None) =>
      if halted c then (st, c, Err ErrHalted)
      else if (len encoded =? 0) || (MaximumFileBytes <? len encoded)
      then (st, c, Err (ErrChainDescriptor ErrDescriptorSize))
      else match descriptor_json encoded with
      | None => (st, c, Err (ErrChainDescriptor ErrDescriptorDecode))
      | Some probe =>
          match Digest probe with
          | Err e => (st, c, Err (ErrChainDescriptor e))
          | Ok offered =>
              match embeddedIdentity probe with
              | None => (st, c, Err (ErrChainDescriptor ErrEmbeddedTopology))
              | Some (network, number) =>
                  if negb (bool_decide (chain_network c = [])) && negb (bool_decide (network = chain_network c))
                  then (st, c, Err ErrOtherNetwork)
                  else match lookupSlot c number with
                  | Some (i, stored) => append_slot env st c encoded offered i stored
                  | None => append_new env st c encoded number
                  end
              end
          end
      end
  end.

(** ** Queries *)

Definition Halted (c : Chain) : bool := halted c.

Definition Tip (c : Chain) : option Verified := if halted c then None else last (epochs c).

(** The walk of [ActiveAt] from the tip down. *)
Fixpoint active_walk (l : list Verified) (now : Z) : option Verified :=
  match l with
  | [] => None
  | candidate :: l =>
      if now <? VActivateAt candidate then active_walk l now
      else if now <? VRetireAt candidate then Some candidate
      else None
  end.

Definition ActiveAt (c : Chain) (now : Z) : option Verified :=
  if halted c then None else active_walk (reverse (epochs c)) now.

Definition stateAtIgnoringSuccessors (v : Verified) (now : Z) : State :=
  if now <? VActivateAt v then StateReady else if now <? VRetireAt v then StateActive else StateRetired.

(** The state of the epoch at position [i], an activated emergency successor
    included. *)
Definition chain_state (l : list Verified) (i : nat) (stored : Verified) (now : Z) : State :=
  match stateAtIgnoringSuccessors stored now, l !! S i with
  | StateActive, Some successor =>
      if bool_decide (Transition (VDescriptor successor) = TransitionEmergency) && negb (now <? VActivateAt successor)
      then StateRetired else StateActive
  | state, _ => state
  end.

Definition StateOf (c : Chain) (number now : Z) : result chain_error State :=
  if halted c then Err ErrHalted
  else match lookupSlot c number with
  | Some (i, stored) => Ok (chain_state (epochs c) i stored now)
  | None => Err ErrNotStored
  end.

(** [true] is the nil error: the epoch may be served. *)
Definition ServesEpoch (c : Chain) (number now : Z) : bool :=
  match StateOf c number now with Ok StateActive => true | _ => false end.

Definition HighestRetired (c : Chain) (now : Z) : Z :=
  foldl (fun highest (p : nat * Verified) =>
      if bool_decide (chain_state (epochs c) p.1 p.2 now = StateRetired) && (highest <? VEpoch p.2)
      then VEpoch p.2 else highest)
    0 (imap (fun i v => (i, v)) (epochs c)).
End chain.
Arguments Chain {_}.

(** ** Well-formed chains *)

Section chain_wf.
Context `{HashFunction, SignatureScheme, Calendar, EpochInputs}.
Implicit Types c : Chain.
Implicit Types v : Verified.

(** Every epoch follows the one before it. *)
Definition linked (l : list Verified) : Prop :=
  forall i p v, l !! i = Some p -> l !! S i = Some v -> succeeds p v.

Definition epoch_ok (network : list byte) v : Prop :=
  0 < VEpoch v < 2 ^ 64 /\ VActivateAt v < VRetireAt v /\ VNetworkID v = network.

Definition chain_wf c : Prop :=
  chain_network c <> [] /\ linked (epochs c) /\ Forall (epoch_ok (chain_network c)) (epochs c).

Lemma linked_snoc l v : linked l -> (forall p, last l = Some p -> succeeds p v) -> linked (l ++ [v]).
Proof.
  intros Hl Hv i p x Hp Hx. apply lookup_snoc_Some in Hx as [[Hlt Hx]|[Hi ->]].
  - apply (Hl i p x); [|done]. by rewrite lookup_app_l in Hp by lia.
  - apply Hv. rewrite lookup_app_l in Hp by lia. rewrite last_lookup. by rewrite <- Hi.
Qed.

Lemma last_epoch_ok c p : chain_wf c -> last (epochs c) = Some p -> epoch_ok (chain_network c) p.
Proof. intros (_ & _ & Hall) Hp. rewrite last_lookup in Hp. by eapply (Forall_lookup_1 _ _ _ _ Hall). Qed.

(** Adding an epoch verified against the last one. *)
Lemma chain_wf_push c v encoded key rv : chain_wf c -> Verify encoded key (last (epochs c)) rv = Ok v ->
  VNetworkID v = chain_network c -> chain_wf (set_epochs c (epochs c ++ [v])).
Proof.
  intros Hwf Hv Hn. pose proof Hwf as (Hne & Hl & Hall). split_and!; [done|..]; simpl.
  - apply linked_snoc; [done|]. intros p Hp. rewrite Hp in Hv. eapply Verify_succeeds; [done|].
    by apply (last_epoch_ok c).
  - apply Forall_app. split; [done|]. constructor; [|done]. split_and!; [..|done].
    + by destruct (Verify_epoch_range _ _ _ _ _ Hv).
    + by destruct (Verify_epoch_range _ _ _ _ _ Hv).
    + by apply Verify_ok in Hv as (_ & _ & _ & _ & _ & ? & _).
Qed.

(** The network and epoch the probe reads are those that verification finds. *)
Lemma Verify_identity encoded key previous rv v d n e : Verify encoded key previous rv = Ok v ->
  descriptor_json encoded = Some d -> embeddedIdentity d = Some (n, e) ->
  VDescriptor v = d /\ VNetworkID v = n /\ VEpoch v = e.
Proof.
  intros (Hj & _ & Ht & -> & -> & _)%Verify_ok Hd Hid. rewrite Hj in Hd. simplify_eq.
  unfold embeddedIdentity in Hid. destruct (decodeBounded (DTopology (VDescriptor v))) as [b|]; [|done]. simpl in *.
  apply topology_verify_json in Ht. rewrite Ht in Hid. simpl in Hid. case_match; [done|]. by simplify_eq.
Qed.

Lemma load_wf env st c numbers c' : chain_wf c -> load env st c numbers = Ok c' -> chain_wf c'.
Proof.
  revert c. induction numbers as [|n numbers IH]; intros c Hwf; simpl; [intros E; by apply (inj Ok) in E as <-|].
  destruct (files st !! n); [|done]. destruct (file_readable env n); [|done]. simpl.
  destruct (Verify _ _ _ _) as [v|] eqn:Hv; [|done]. destruct (VEpoch v =? n); [|done]. simpl.
  case_bool_decide; [|done]. simpl. apply IH. by eapply chain_wf_push.
Qed.

Lemma OpenChain_wf env st network key rv c : OpenChain env st network key rv = Ok c -> chain_wf c.
Proof.
  unfold OpenChain. case_bool_decide as Hn; [done|]. destruct (Nat.eqb _ _); [|done]. simpl.
  destruct (marker_readable env); [|done]. simpl. destruct (marker st).
  - intros E. apply (inj Ok) in E as <-. by split_and!.
  - destruct (stray st); [done|]. apply load_wf. by split_and!.
Qed.

Lemma refresh_loop_wf fuel env st c : chain_wf c -> chain_wf (fst (refresh_loop fuel env st c)).
Proof.
  revert c. induction fuel as [|fuel IH]; intros c Hwf; simpl; [done|].
  destruct (files st !! _); [|done]. destruct (file_readable env _); [|done]. simpl.
  destruct (Verify _ _ _ _) as [v|] eqn:Hv; [|done]. case_bool_decide; [|done]. simpl. apply IH. by eapply chain_wf_push.
Qed.

Lemma refreshLocked_wf env st c : chain_wf c -> chain_wf (fst (refreshLocked env st c)).
Proof.
  intros Hwf. unfold refreshLocked. destruct (halted c); [done|]. destruct (marker_readable env); [|done]. cbn [negb].
  destruct (marker st); [done|]. by apply refresh_loop_wf.
Qed.

(** The loop of [refreshLocked] ends within the files there are: each turn
    adopts a file with a larger number than the turns before. *)
Definition files_above (st : store) (n : Z) : nat := size (filter (fun p => n <= p.1) (files st)).

Lemma files_above_step st n m encoded : files st !! n = Some encoded -> n < m ->
  (files_above st m < files_above st n)%nat.
Proof.
  intros Hn Hm. unfold files_above. apply map_subset_size. apply map_subset_alt. split.
  - apply map_subseteq_spec. intros k x. rewrite !map_lookup_filter_Some. intros [? ?]. simpl in *. split; [done|lia].
  - exists n. split; [rewrite map_lookup_filter_None; right; intros x _; simpl; lia|].
    exists encoded. apply map_lookup_filter_Some. split; [done|simpl; lia].
Qed.

(** Nothing follows the largest epoch number. *)
Lemma refresh_loop_last fuel env st c p : chain_wf c -> last (epochs c) = Some p -> VEpoch p + 1 = 2 ^ 64 ->
  (0 < fuel)%nat -> snd (refresh_loop fuel env st c) <> Some ErrOutOfFuel.
Proof.
  intros Hwf Hp Hmax Hfuel. destruct fuel as [|fuel]; [lia|]. simpl. destruct (files st !! _); [|done].
  destruct (file_readable env _); [|done]. simpl. rewrite Hp.
  destruct (Verify _ _ _ _) as [v|] eqn:Hv; [|done]. exfalso.
  destruct (Verify_succeeds _ _ _ _ _ Hv) as (_ & _ & He & _); [by apply (last_epoch_ok c)|].
  apply Verify_epoch_range in Hv. lia.
Qed.

Lemma refresh_loop_ends fuel env st c : chain_wf c -> (files_above st (next_number c) < fuel)%nat ->
  snd (refresh_loop fuel env st c) <> Some ErrOutOfFuel.
Proof.
  revert c. induction fuel as [|fuel IH]; intros c Hwf Hfuel; [lia|]. simpl.
  destruct (files st !! next_number c) as [encoded|] eqn:Hf; [|done].
  destruct (file_readable env _); [|done]. simpl.
  destruct (Verify _ _ _ _) as [v|] eqn:Hv; [|done]. case_bool_decide; [|done]. simpl.
  assert (chain_wf (set_epochs c (epochs c ++ [v]))) as Hwf' by (by eapply chain_wf_push).
  pose proof (Verify_epoch_range _ _ _ _ _ Hv) as Hr.
  assert (next_number c <= VEpoch v) as Hle.
  { unfold next_number. destruct (last (epochs c)) as [p|] eqn:Hp; [|lia].
    pose proof (last_epoch_ok c p Hwf Hp) as (Hrp & _).
    destruct (Verify_succeeds _ _ _ _ _ Hv Hrp) as (_ & _ & He & _). rewrite wrapu_small by (unfold fits; lia). lia. }
  pose proof (files_above_step st (next_number c) (VEpoch v + 1) encoded Hf ltac:(lia)) as Hlt.
  destruct (decide (VEpoch v + 1 = 2 ^ 64)) as [Hmax|Hmax].
  - apply (refresh_loop_last _ _ _ _ v); [done|apply last_snoc|done|lia].
  - apply IH; [done|]. unfold next_number. simpl. rewrite last_snoc, wrapu_small by (unfold fits; lia). lia.
Qed.

Lemma refreshLocked_ends env st c : chain_wf c -> snd (refreshLocked env st c) <> Some ErrOutOfFuel.
Proof.
  intros Hwf. unfold refreshLocked. destruct (halted c); [done|]. destruct (marker_readable env); [|done]. cbn [negb].
  destruct (marker st); [done|]. apply refresh_loop_ends; [done|]. unfold files_above.
  apply Nat.lt_succ_r, map_subseteq_size, map_filter_subseteq.
Qed.
End chain_wf.

(** ** What a call of [Append] can do *)

Section append.
Context `{HashFunction, SignatureScheme, Calendar, EpochInputs}.
Implicit Types c : Chain.
Implicit Types v : Verified.

(** Two stores that differ at most in the mark and in one new descriptor. *)
Definition store_raised (st st' : store) (number : Z) : Prop :=
  marker st' = marker st /\ stray st' = stray st /\ mark st' = Mark number /\
  (forall m, mark st = Mark m -> m < number) /\ mark st <> BadMark.

(** The outcomes of [Append] after the refresh that gave [c]. *)
Inductive append_outcome (st : store) c (encoded : list byte) : store -> Chain -> result chain_error Verified -> Prop :=
| out_refused e : (forall b, e <> ErrEquivocation b) -> append_outcome st c encoded st c (Err e)
| out_known v i d : epochs c !! i = Some v -> descriptor_json encoded = Some d -> Digest d = Ok (VDigest v) ->
    append_outcome st c encoded st c (Ok v)
| out_equivocation i stored competing previous st' b :
    epochs c !! i = Some stored -> Verify encoded (authority c) previous (revoked c) = Ok competing ->
    previous = match i with O => None | S j => epochs c !! j end ->
    VEpoch competing = VEpoch stored -> VDigest competing <> VDigest stored ->
    files st' = files st -> mark st' = mark st -> stray st' = stray st -> (b = true <-> marker st' = true) ->
    append_outcome st c encoded st' (set_halted c) (Err (ErrEquivocation b))
| out_burned v st' :
    Verify encoded (authority c) (last (epochs c)) (revoked c) = Ok v -> store_raised st st' (VEpoch v) ->
    (files st' = files st \/ (files st !! VEpoch v = None /\ files st' = <[VEpoch v := encoded]> (files st))) ->
    append_outcome st c encoded st' c (Err ErrChainIO)
| out_admitted v st' :
    Verify encoded (authority c) (last (epochs c)) (revoked c) = Ok v -> store_raised st st' (VEpoch v) ->
    files st !! VEpoch v = None -> files st' = <[VEpoch v := encoded]> (files st) ->
    VNetworkID v = chain_network c ->
    append_outcome st c encoded st' (set_epochs c (epochs c ++ [v])) (Ok v).

Lemma append_slot_outcome env st c encoded d offered n e i stored st' c' r : descriptor_json encoded = Some d ->
  Digest d = Ok offered -> embeddedIdentity d = Some (n, e) -> lookupSlot c e = Some (i, stored) ->
  append_slot env st c encoded offered i stored = (st', c', r) -> append_outcome st c encoded st' c' r.
Proof.
  intros Hj Hd Hid Hs. apply list_find_Some in Hs as (Hi & He & _). unfold append_slot.
  case_bool_decide as Hdig.
  - destruct (Verify _ _ _ _) as [v|x]; intros [= <- <- <-].
    + eapply out_known; [done|done|by rewrite Hd, Hdig].
    + by apply out_refused.
  - destruct (Verify _ _ _ _) as [v|x] eqn:Hv; [|intros [= <- <- <-]; by apply out_refused].
    case_bool_decide; simpl; [|intros [= <- <- <-]; by apply out_refused].
    pose proof (Verify_identity _ _ _ _ _ _ _ _ Hv Hj Hid) as (Hvd & _ & Hve).
    assert (VDigest v = offered) as Hvo.
    { apply Verify_ok in Hv as (_ & Hv & _). rewrite Hvd, Hd in Hv. by apply (inj Ok) in Hv. }
    unfold halt. destruct (marker st) eqn:Hm; [|destruct (marker_write env)]; intros [= <- <- <-];
      (eapply (out_equivocation _ _ _ i stored v);
       [done|done|done|congruence|congruence|done|done|done|simpl; rewrite ?Hm; done]).
Qed.

Lemma raiseMark_ok env st n st' : raiseMark env st n = (st', None) ->
  store_raised st st' n /\ files st' = files st.
Proof.
  unfold raiseMark, readMark, store_raised. destruct (mark_readable env); [|done]. simpl.
  destruct (mark st) as [| |m]; [|done|]; (destruct (_ <=? _) eqn:Hle; [done|]);
    destruct (mark_write env); intros [= <-]; simpl; split_and!; try done; intros ? [= <-]; lia.
Qed.

Lemma raiseMark_err env st n st' e : raiseMark env st n = (st', Some e) ->
  st' = st /\ (forall b, e <> ErrEquivocation b) \/ e = ErrChainIO /\ store_raised st st' n /\ files st' = files st.
Proof.
  unfold raiseMark, readMark, store_raised. destruct (mark_readable env); [|intros [= <- <-]; by left]. simpl.
  destruct (mark st) as [| |m]; [|intros [= <- <-]; by left|]; (destruct (_ <=? _) eqn:Hle; [intros [= <- <-]; by left|]);
    destruct (mark_write env); intros [= <- <-]; [by left|right|by left|right]; simpl; split_and!; try done; intros ? [= <-]; lia.
Qed.

Lemma append_new_outcome env st c encoded d n e st' c' r : chain_wf c -> descriptor_json encoded = Some d ->
  embeddedIdentity d = Some (n, e) -> n = chain_network c ->
  append_new env st c encoded e = (st', c', r) -> append_outcome st c encoded st' c' r.
Proof.
  intros Hwf Hj Hid Hn. unfold append_new.
  destruct (readMark env st) as [w|x] eqn:Hr; [|intros [= <- <- <-]; apply out_refused].
  2: { unfold readMark in Hr. intros b ->. repeat case_match; simplify_eq. }
  destruct (e <=? w); [intros [= <- <- <-]; by apply out_refused|].
  destruct (Verify _ _ _ _) as [v|x] eqn:Hv; [|intros [= <- <- <-]; by apply out_refused].
  destruct (match last (epochs c) with Some p => VEpoch v <=? VEpoch p | None => false end);
    [intros [= <- <- <-]; by apply out_refused|].
  destruct (raiseMark env st (VEpoch v)) as [st1 [x|]] eqn:Hm.
  { intros [= <- <- <-]. apply raiseMark_err in Hm as [[-> ?]|(-> & Hm & Hf)]; [by apply out_refused|].
    eapply out_burned; [done|done|by left]. }
  apply raiseMark_ok in Hm as [Hm Hf]. unfold write_epoch. rewrite Hf.
  destruct (files st !! VEpoch v) eqn:Hfile; [intros [= <- <- <-]; eapply out_burned; [done|done|by left]|].
  destruct (file_write env); [|intros [= <- <- <-]; eapply out_burned; [done|done|by left]].
  destruct (dir_sync env); simpl; intros [= <- <- <-].
  - eapply out_admitted; [done|done|done|done|].
    by destruct (Verify_identity _ _ _ _ _ _ _ _ Hv Hj Hid) as (_ & -> & _).
  - eapply out_burned; [done|done|by right].
Qed.

Lemma refreshLocked_errors env st c e : snd (refreshLocked env st c) = Some e -> forall b, e <> ErrEquivocation b.
Proof.
  unfold refreshLocked. destruct (halted c); [done|]. destruct (marker_readable env); cbn [negb]; [|by intros [= <-]].
  destruct (marker st); [done|]. generalize (S (size (files st))) as fuel. intros fuel. revert c.
  induction fuel as [|fuel IH]; intros c; simpl; [by intros [= <-]|]. destruct (files st !! _); [|done].
  destruct (file_readable env _); simpl; [|by intros [= <-]]. destruct (Verify _ _ _ _); [|by intros [= <-]].
  case_bool_decide; simpl; [apply IH|by intros [= <-]].
Qed.

Lemma Append_outcome env st c encoded st' c' r : chain_wf c -> Append env st c encoded = (st', c', r) ->
  (st' = st /\ c' = c /\ r = Err ErrChainIO) \/
  append_outcome st (fst (refreshLocked env st c)) encoded st' c' r.
Proof.
  intros Hwf. unfold Append. destruct (lock_ok env); simpl; [|intros [= <- <- <-]; by left]. intros E. right.
  pose proof (refreshLocked_wf env st c Hwf) as Hwf1. pose proof (refreshLocked_errors env st c) as Herr.
  destruct (refreshLocked env st c) as [c1 [x|]]; simpl in *.
  { injection E as <- <- <-. apply out_refused. by apply Herr. }
  destruct (halted c1); [injection E as <- <- <-; by apply out_refused|].
  destruct (_ || _); [injection E as <- <- <-; by apply out_refused|].
  destruct (descriptor_json encoded) as [d|] eqn:Hj; [|injection E as <- <- <-; by apply out_refused].
  destruct (Digest d) as [offered|] eqn:Hd; [|injection E as <- <- <-; by apply out_refused].
  destruct (embeddedIdentity d) as [[n e]|] eqn:Hid; [|injection E as <- <- <-; by apply out_refused].
  pose proof Hwf1 as (Hne & _). rewrite bool_decide_false in E by done. simpl in E.
  case_bool_decide as Hn; simpl in E; [|injection E as <- <- <-; by apply out_refused].
  destruct (lookupSlot c1 e) as [[i stored]|] eqn:Hs; [by eapply append_slot_outcome|by eapply append_new_outcome].
Qed.

Lemma outcome_wf st c encoded st' c' r : chain_wf c -> append_outcome st c encoded st' c' r -> chain_wf c'.
Proof. intros Hwf Ho. destruct Ho; try done. by eapply chain_wf_push. Qed.

Lemma Append_wf env st c encoded st' c' r : chain_wf c -> Append env st c encoded = (st', c', r) -> chain_wf c'.
Proof.
  intros Hwf [(_ & -> & _)|Ho]%Append_outcome; [done| |done]. eapply outcome_wf; [|done]. by apply refreshLocked_wf.
Qed.
End append.

(** ** Runs: several verifier processes over one store *)

Section runs.
Context `{HashFunction, SignatureScheme, Calendar, EpochInputs}.
Implicit Types v : Verified.

(** The directory, the processes that have it open, and every descriptor that
    some call of [Append] reported as accepted. *)
Record system := mkSystem {
  directory : store;
  procs : list Chain;
  accepted_epochs : list (Z * list byte);
}.

(** A file of the directory may be removed at any time. *)
Definition remove_file (st : store) (n : Z) : store := mkStore (marker st) (delete n (files st)) (stray st) (mark st).

Inductive sys_step (network key : list byte) : system -> system -> Prop :=
| sys_open env st ps log rv c : OpenChain env st network key rv = Ok c ->
    sys_step network key (mkSystem st ps log) (mkSystem st (ps ++ [c]) log)
| sys_accept env st ps log i c encoded st' c' v : ps !! i = Some c ->
    Append env st c encoded = (st', c', Ok v) ->
    sys_step network key (mkSystem st ps log) (mkSystem st' (<[i := c']> ps) ((VEpoch v, VDigest v) :: log))
| sys_refuse env st ps log i c encoded st' c' e : ps !! i = Some c ->
    Append env st c encoded = (st', c', Err e) ->
    sys_step network key (mkSystem st ps log) (mkSystem st' (<[i := c']> ps) log)
| sys_exit st ps log i : sys_step network key (mkSystem st ps log) (mkSystem st (delete i ps) log)
| sys_remove st ps log n : sys_step network key (mkSystem st ps log) (mkSystem (remove_file st n) ps log).

Inductive sys_reachable (network key : list byte) : system -> Prop :=
| sys_start : sys_reachable network key (mkSystem (mkStore false ∅ false NoMark) [] [])
| sys_next s s' : sys_reachable network key s -> sys_step network key s s' -> sys_reachable network key s'.

(** [G] is the digest that each used epoch number stands for. *)
Definition file_known (G : gmap Z (list byte)) (n : Z) (encoded : list byte) : Prop :=
  exists v key previous rv, Verify encoded key previous rv = Ok v /\ VEpoch v = n /\ G !! n = Some (VDigest v).

Definition files_known (G : gmap Z (list byte)) (st : store) : Prop :=
  forall n encoded, files st !! n = Some encoded -> file_known G n encoded.

Definition marked (G : gmap Z (list byte)) (st : store) : Prop :=
  forall n h, G !! n = Some h -> exists m, mark st = Mark m /\ n <= m.

Definition epoch_known (G : gmap Z (list byte)) v : Prop := G !! VEpoch v = Some (VDigest v).

Definition chain_known (G : gmap Z (list byte)) (c : Chain) : Prop := chain_wf c /\ Forall (epoch_known G) (epochs c).

(** Verification decides the epoch number and the digest from the bytes alone. *)
Lemma Verify_determined encoded k1 p1 r1 v1 k2 p2 r2 v2 : Verify encoded k1 p1 r1 = Ok v1 ->
  Verify encoded k2 p2 r2 = Ok v2 -> VEpoch v1 = VEpoch v2 /\ VDigest v1 = VDigest v2.
Proof.
  intros (J1 & D1 & T1 & -> & _)%Verify_ok (J2 & D2 & T2 & -> & _)%Verify_ok.
  rewrite J1 in J2. injection J2 as E. rewrite <- E in D2, T2.
  apply topology_verify_json in T1, T2. rewrite T1 in T2. injection T2 as ->.
  split; [done|]. rewrite D1 in D2. by apply (inj Ok) in D2.
Qed.

Lemma file_known_verify G n encoded key previous rv v : file_known G n encoded ->
  Verify encoded key previous rv = Ok v -> epoch_known G v.
Proof.
  intros (v0 & k0 & p0 & r0 & Hv0 & <- & HG) Hv. destruct (Verify_determined _ _ _ _ _ _ _ _ _ Hv Hv0) as [E1 E2].
  unfold epoch_known. by rewrite E1, E2.
Qed.

Lemma load_known G env st c numbers c' : files_known G st -> chain_known G c -> load env st c numbers = Ok c' ->
  chain_known G c'.
Proof.
  intros Hf. revert c. induction numbers as [|n numbers IH]; intros c Hc; simpl;
    [intros E; by apply (inj Ok) in E as <-|].
  destruct (files st !! n) as [encoded|] eqn:Hn; [|done]. destruct (file_readable env n); [|done]. simpl.
  destruct (Verify _ _ _ _) as [v|] eqn:Hv; [|done]. destruct (VEpoch v =? n); [|done]. simpl.
  case_bool_decide; [|done]. simpl. apply IH. destruct Hc as [Hwf Hall]. split; [by eapply chain_wf_push|].
  apply Forall_app. split; [done|]. constructor; [|done]. by eapply file_known_verify; [apply Hf|].
Qed.

Lemma refresh_known G env st c : files_known G st -> chain_known G c ->
  chain_known G (fst (refreshLocked env st c)).
Proof.
  intros Hf Hc. unfold refreshLocked. destruct (halted c); [done|]. destruct (marker_readable env); [|done].
  cbn [negb]. destruct (marker st); [done|]. generalize (S (size (files st))) as fuel. intros fuel. revert c Hc.
  induction fuel as [|fuel IH]; intros c Hc; simpl; [done|].
  destruct (files st !! _) as [encoded|] eqn:Hn; [|done]. destruct (file_readable env _); [|done]. simpl.
  destruct (Verify _ _ _ _) as [v|] eqn:Hv; [|done]. case_bool_decide; [|done]. simpl. apply IH.
  destruct Hc as [Hwf Hall]. split; [by eapply chain_wf_push|].
  apply Forall_app. split; [done|]. constructor; [|done]. by eapply file_known_verify; [apply Hf|].
Qed.

Lemma OpenChain_known G env st network key rv c : files_known G st -> OpenChain env st network key rv = Ok c ->
  chain_known G c.
Proof.
  intros Hf. unfold OpenChain. case_bool_decide as Hn; [done|]. destruct (Nat.eqb _ _); [|done]. simpl.
  destruct (marker_readable env); [|done]. simpl. destruct (marker st).
  - intros E. apply (inj Ok) in E as <-. split; [by split_and!|done].
  - destruct (stray st); [done|]. apply load_known; [done|]. split; [by split_and!|done].
Qed.

(** Everything known stays known when a fresh number is used. *)
Lemma known_mono (G G' : gmap Z (list byte)) : G ⊆ G' ->
  (forall n e, file_known G n e -> file_known G' n e) /\ (forall v, epoch_known G v -> epoch_known G' v) /\
  (forall c, chain_known G c -> chain_known G' c).
Proof.
  intros HG. assert (forall v, epoch_known G v -> epoch_known G' v) as Hv
    by (intros v Hk; by eapply lookup_weaken).
  split_and!; [|done|].
  - intros n e (v & k & p & r & ? & ? & ?). exists v, k, p, r. split_and!; [done|done|by eapply lookup_weaken].
  - intros c [? Hc]. split; [done|]. eapply Forall_impl; [exact Hc|done].
Qed.

Definition sys_inv (s : system) : Prop := exists G : gmap Z (list byte),
  files_known G (directory s) /\ marked G (directory s) /\ Forall (chain_known G) (procs s) /\
  Forall (fun p => G !! p.1 = Some p.2) (accepted_epochs s).

(** An epoch number above the mark is fresh. *)
Lemma raised_fresh G st st' n : marked G st -> store_raised st st' n -> G !! n = None.
Proof.
  intros Hm (_ & _ & _ & Hlt & _). apply eq_None_not_Some. intros [h Hh].
  destruct (Hm n h Hh) as (m & E & Hle). specialize (Hlt m E). lia.
Qed.

Lemma raised_marked G st st' n : marked G st -> store_raised st st' n -> marked G st'.
Proof.
  intros Hm (_ & _ & E & Hlt & _) k h Hk. exists n. split; [done|]. destruct (Hm k h Hk) as (m & Em & Hle).
  specialize (Hlt m Em). lia.
Qed.

(** The knowledge after one call. *)
Lemma append_known G env st c encoded st' c' r : files_known G st -> marked G st -> chain_known G c ->
  Append env st c encoded = (st', c', r) ->
  exists G', G ⊆ G' /\ files_known G' st' /\ marked G' st' /\ chain_known G' c' /\
    forall v, r = Ok v -> epoch_known G' v.
Proof.
  intros Hf Hm Hc E. destruct (Append_outcome _ _ _ _ _ _ _ (proj1 Hc) E) as [(-> & -> & ->)|Ho]; [by exists G|].
  pose proof (refresh_known G env st c Hf Hc) as Hc1. revert Hc1 Ho. generalize (fst (refreshLocked env st c)) as c1.
  intros c1 Hc1 Ho. clear E Hc c.
  assert (forall v, Verify encoded (authority c1) (last (epochs c1)) (revoked c1) = Ok v ->
    store_raised st st' (VEpoch v) -> files st' = <[VEpoch v := encoded]> (files st) ->
    let G' := <[VEpoch v := VDigest v]> G in
    G ⊆ G' /\ files_known G' st' /\ marked G' st' /\ chain_known G' c1 /\ epoch_known G' v) as Hnew.
  { intros v Hv Hr Hfs G'. pose proof (raised_fresh G st st' _ Hm Hr) as Hnone.
    assert (G ⊆ G') as HG by (by apply insert_subseteq). destruct (known_mono G G' HG) as (Kf & Kv & Kc).
    assert (epoch_known G' v) as Hve by (unfold epoch_known, G'; by rewrite lookup_insert_eq).
    split_and!; [done| | |by apply Kc|done].
    - intros n e. rewrite Hfs. intros [[<- <-]|[_ Hn]]%lookup_insert_Some; [|by apply Kf, Hf].
      exists v, (authority c1), (last (epochs c1)), (revoked c1). done.
    - intros n h Hn. destruct Hr as (_ & _ & Emark & Hlt & _). exists (VEpoch v). split; [done|].
      apply lookup_insert_Some in Hn as [[<- _]|[_ Hn]]; [done|]. destruct (Hm n h Hn) as (m & Em & ?).
      specialize (Hlt m Em). lia. }
  destruct Ho as [e Hne|v i d Hi Hj Hd|i stored competing previous st' b Hi _ _ _ _ Efs Emk _ _|v st' Hv Hr [Efs|[_ Efs]]|v st' Hv Hr Hfree Efs Hnet].
  - by exists G.
  - exists G. split_and!; try done. intros v' [= <-]. destruct Hc1 as [_ Hall].
    by eapply (Forall_lookup_1 _ _ _ _ Hall).
  - exists G. split_and!; try done.
    + intros n e. rewrite Efs. apply Hf.
    + intros n h Hn. rewrite Emk. by apply (Hm n h).
  - exists G. split_and!; try done; [|by eapply raised_marked]. intros n e. rewrite Efs. apply Hf.
  - destruct (Hnew v Hv Hr Efs) as (? & ? & ? & ? & ?). eexists. split_and!; [done|done|done|done|done].
  - destruct (Hnew v Hv Hr Efs) as (? & ? & ? & [Hwf Hall] & ?). eexists. split_and!; [done|done|done| |by intros v' [= <-]].
    split; [by eapply chain_wf_push|]. apply Forall_app. split; [done|]. by constructor.
Qed.

Lemma sys_step_inv network key s s' : sys_inv s -> sys_step network key s s' -> sys_inv s'.
Proof.
  intros (G & Hf & Hm & Hp & Hl) Hs.
  destruct Hs as [env st ps log rv c Ho|env st ps log i c encoded st' c' v Hi E|env st ps log i c encoded st' c' e Hi E|st ps log i|st ps log n];
    simpl in *.
  - exists G. split_and!; try done. apply Forall_app. split; [done|]. constructor; [|done]. by eapply OpenChain_known.
  - destruct (append_known G _ _ _ _ _ _ _ Hf Hm (Forall_lookup_1 _ _ _ _ Hp Hi) E) as (G' & HG & Hf' & Hm' & Hc' & Hr).
    destruct (known_mono G G' HG) as (_ & _ & Kc). exists G'. split_and!; try done.
    + apply Forall_insert; [|done]. eapply Forall_impl; [exact Hp|done].
    + constructor; [by apply Hr|]. eapply Forall_impl; [exact Hl|]. intros p Hk. exact (lookup_weaken _ _ _ _ Hk HG).
  - destruct (append_known G _ _ _ _ _ _ _ Hf Hm (Forall_lookup_1 _ _ _ _ Hp Hi) E) as (G' & HG & Hf' & Hm' & Hc' & _).
    destruct (known_mono G G' HG) as (_ & _ & Kc). exists G'. split_and!; try done.
    + apply Forall_insert; [|done]. eapply Forall_impl; [exact Hp|done].
    + eapply Forall_impl; [exact Hl|]. intros p Hk. exact (lookup_weaken _ _ _ _ Hk HG).
  - exists G. split_and!; try done. by apply Forall_delete.
  - exists G. split_and!; try done. intros k e Hk. simpl in Hk. apply lookup_delete_Some in Hk as [_ Hk]. by apply Hf.
Qed.

Lemma sys_reachable_inv network key s : sys_reachable network key s -> sys_inv s.
Proof. induction 1 as [|s s' _ IH Hs]; [|by eapply sys_step_inv]. exists ∅. by split_and!. Qed.
End runs.

(** C8: over any number of verifier processes sharing one store, any offered
    bytes, any outcome of their writes, restarts and removals of descriptor
    files: an epoch number is only ever accepted for one descriptor, and the
    chains the processes hold are well-formed (each epoch chains to the one
    before it by digest, network, number and boundary) and agree on every epoch
    they share. *)
Theorem one_descriptor_per_epoch `{HashFunction, SignatureScheme, Calendar, EpochInputs} network key s :
  sys_reachable network key s ->
  (forall e h1 h2, (e, h1) ∈ accepted_epochs s -> (e, h2) ∈ accepted_epochs s -> h1 = h2) /\
  (forall c, c ∈ procs s -> chain_wf c) /\
  (forall c1 c2 v1 v2, c1 ∈ procs s -> c2 ∈ procs s -> v1 ∈ epochs c1 -> v2 ∈ epochs c2 ->
     VEpoch v1 = VEpoch v2 -> VDigest v1 = VDigest v2).
Proof.
  intros (G & _ & _ & Hp & Hl)%sys_reachable_inv. rewrite Forall_forall in Hp. rewrite Forall_forall in Hl. split_and!.
  - intros e h1 h2 I1%Hl I2%Hl. simpl in *. congruence.
  - intros c Hc. by apply Hp.
  - intros c1 c2 v1 v2 [_ I1]%Hp [_ I2]%Hp V1 V2 E. rewrite Forall_forall in I1. rewrite Forall_forall in I2.
    specialize (I1 v1 V1). specialize (I2 v2 V2). unfold epoch_known in *. congruence.
Qed.

(** ** The active epoch *)

Section active.
Context `{HashFunction, SignatureScheme, Calendar, EpochInputs}.
Implicit Types c : Chain.
Implicit Types v : Verified.

(** Boundaries and numbers grow along a chain. *)
Lemma linked_grows l network i j p v : linked l -> Forall (epoch_ok network) l -> (i < j)%nat ->
  l !! i = Some p -> l !! j = Some v -> VActivateAt p < VActivateAt v /\ VEpoch p < VEpoch v.
Proof.
  intros Hl Hok. revert p v. induction j as [|j IH]; intros p v Hij Hp Hv; [lia|].
  destruct (lookup_lt_is_Some_2 l j) as [m Hm]; [apply lookup_lt_Some in Hv; lia|].
  pose proof (Forall_lookup_1 _ _ _ _ Hok Hm) as (_ & Hw & _).
  destruct (Hl j m v Hm Hv) as (_ & _ & He & _ & Hb).
  assert (VActivateAt m < VActivateAt v) by (destruct Hb as [[_ ?]|[_ ?]]; lia).
  destruct (decide (i = j)) as [->|]; [rewrite Hp in Hm; simplify_eq; lia|].
  destruct (IH p m ltac:(lia) Hp Hm). lia.
Qed.

(** An epoch whose successor has activated is not active. *)
Lemma superseded_not_active l network i p v now : linked l -> Forall (epoch_ok network) l ->
  l !! i = Some p -> l !! S i = Some v -> VActivateAt v <= now -> chain_state l i p now <> StateActive.
Proof.
  intros Hl Hok Hp Hv Hnow. unfold chain_state, stateAtIgnoringSuccessors.
  destruct (now <? VActivateAt p); [done|]. destruct (now <? VRetireAt p) eqn:Hr; [|done]. rewrite Hv.
  destruct (Hl i p v Hp Hv) as (_ & _ & _ & _ & [[_ Hs]|[Hs _]]); [lia|].
  rewrite bool_decide_true by done. replace (now <? VActivateAt v) with false by lia. done.
Qed.

(** The states of the epochs before the last one do not depend on a last one
    that has not activated. *)
Lemma chain_state_snoc l v i p now : l !! i = Some p -> now < VActivateAt v ->
  chain_state (l ++ [v]) i p now = chain_state l i p now.
Proof.
  intros Hp Hnow. unfold chain_state. pose proof (lookup_lt_Some _ _ _ Hp) as Hlt.
  destruct (stateAtIgnoringSuccessors p now); [done| |done].
  destruct (decide (S i = length l)) as [E|E].
  - rewrite (lookup_ge_None_2 l (S i)) by lia. rewrite E, list_lookup_middle by done.
    replace (now <? VActivateAt v) with true by lia. by rewrite andb_false_r.
  - by rewrite lookup_app_l by lia.
Qed.

Lemma active_walk_spec l network now v : linked l -> Forall (epoch_ok network) l ->
  active_walk (reverse l) now = Some v <-> exists i, l !! i = Some v /\ chain_state l i v now = StateActive.
Proof.
  intros Hl Hok. induction l as [|x l IH] using rev_ind; [split; [done|by intros (i & Hi & _)]|].
  assert (linked l) as Hl' by (intros i p q Hp Hq; apply (Hl i); by apply lookup_app_l_Some).
  apply Forall_app in Hok as [Hok' Hx].
  rewrite reverse_snoc. simpl. destruct (now <? VActivateAt x) eqn:Hact.
  - rewrite (IH Hl' Hok'). split; intros (i & Hi & Hst).
    + exists i. split; [by apply lookup_app_l_Some|]. rewrite chain_state_snoc; [done|done|lia].
    + apply lookup_snoc_Some in Hi as [[_ Hi]|[-> ->]].
      * exists i. split; [done|]. rewrite chain_state_snoc in Hst; [done|done|lia].
      * unfold chain_state, stateAtIgnoringSuccessors in Hst. by rewrite Hact in Hst.
  - assert (chain_state (l ++ [x]) (length l) x now = if now <? VRetireAt x then StateActive else StateRetired) as Hsx.
    { unfold chain_state, stateAtIgnoringSuccessors. rewrite Hact, lookup_ge_None_2 by (rewrite length_app; simpl; lia).
      by destruct (now <? VRetireAt x). }
    assert (forall i p, l !! i = Some p -> chain_state (l ++ [x]) i p now <> StateActive) as Hold.
    { intros i p Hp. pose proof (lookup_lt_Some _ _ _ Hp) as Hlt.
      destruct (lookup_lt_is_Some_2 (l ++ [x]) (S i)) as [q Hq]; [rewrite length_app; simpl; lia|].
      eapply (superseded_not_active _ network); [done|by apply Forall_app|by apply lookup_app_l_Some|done|].
      destruct (decide (S i = length l)) as [E|E]; [rewrite E, list_lookup_middle in Hq by done; simplify_eq; lia|].
      pose proof (linked_grows (l ++ [x]) network (S i) (length l) q x Hl) as Hg.
      destruct Hg as [? _]; [by apply Forall_app|lia|done|by rewrite list_lookup_middle|lia]. }
    split.
    + destruct (now <? VRetireAt x) eqn:Hr; [|done]. intros [= <-]. exists (length l).
      by rewrite list_lookup_middle.
    + intros (i & Hi & Hst). apply lookup_snoc_Some in Hi as [[_ Hi]|[-> ->]]; [by apply Hold in Hst|].
      rewrite Hsx in Hst. by destruct (now <? VRetireAt _).
Qed.

Lemma lookupSlot_wf c i v : chain_wf c -> epochs c !! i = Some v -> lookupSlot c (VEpoch v) = Some (i, v).
Proof.
  intros (_ & Hl & Hok) Hi. apply list_find_Some. split_and!; [done|done|]. intros j y Hy Hj E.
  destruct (linked_grows _ _ j i y v Hl Hok Hj Hy Hi). lia.
Qed.
End active.

(** C33: a well-formed chain that has not halted serves one epoch at a time:
    the walk from the tip and the per-epoch states agree, so [ActiveAt] names
    exactly the epoch that [ServesEpoch] lets work be done for, an emergency
    successor retires its predecessor the instant it activates, and no two epochs
    are ever served at once. *)
Theorem single_active_epoch `{HashFunction, SignatureScheme, Calendar, EpochInputs} (c : Chain) now :
  chain_wf c -> halted c = false ->
  (forall v, ActiveAt c now = Some v <-> v ∈ epochs c /\ ServesEpoch c (VEpoch v) now = true) /\
  (forall n1 n2, ServesEpoch c n1 now = true -> ServesEpoch c n2 now = true -> n1 = n2).
Proof.
  intros Hwf Hh. pose proof Hwf as (_ & Hl & Hok).
  assert (forall v, ActiveAt c now = Some v <-> v ∈ epochs c /\ ServesEpoch c (VEpoch v) now = true) as Hiff.
  { intros v. unfold ActiveAt, ServesEpoch, StateOf. rewrite Hh. rewrite (active_walk_spec _ _ _ _ Hl Hok). split.
    - intros (i & Hi & Hst). split; [by eapply list_elem_of_lookup_2|].
      by rewrite (lookupSlot_wf c i v Hwf Hi), Hst.
    - intros [[i Hi]%list_elem_of_lookup_1 Hs]. rewrite (lookupSlot_wf c i v Hwf Hi) in Hs. exists i. split; [done|].
      by destruct (chain_state _ _ _ _). }
  split; [done|]. intros n1 n2 S1 S2.
  assert (forall n, ServesEpoch c n now = true -> exists v, ActiveAt c now = Some v /\ VEpoch v = n) as Hn.
  { intros n Hs. pose proof Hs as Hs'. unfold ServesEpoch, StateOf in Hs. rewrite Hh in Hs.
    destruct (lookupSlot c n) as [[i v]|] eqn:Hi; [|done]. apply list_find_Some in Hi as (Hi & E & _).
    exists v. split; [|done]. apply Hiff. split; [by eapply list_elem_of_lookup_2|by rewrite E]. }
  destruct (Hn n1 S1) as (v1 & E1 & <-), (Hn n2 S2) as (v2 & E2 & <-). congruence.
Qed.

(** ** Halting and burning *)

Section endings.
Context `{HashFunction, SignatureScheme, Calendar, EpochInputs}.
Implicit Types c : Chain.
Implicit Types v : Verified.

Lemma Verify_size encoded key previous rv v : Verify encoded key previous rv = Ok v ->
  (len encoded =? 0) || (MaximumFileBytes <? len encoded) = false.
Proof. unfold Verify. by destruct (_ || _). Qed.

(** The probe reads a verified descriptor's network and number. *)
Lemma Verify_embedded encoded key previous rv v : Verify encoded key previous rv = Ok v -> VNetworkID v <> [] ->
  embeddedIdentity (VDescriptor v) = Some (VNetworkID v, VEpoch v).
Proof.
  intros Hv Hn. pose proof (Verify_epoch_range _ _ _ _ _ Hv) as Hr.
  apply Verify_ok in Hv as (_ & Hd & Ht & He & Hnet & _). rewrite He, Hnet in *.
  unfold Digest in Hd. destruct (CanonicalBytes (VDescriptor v)) eqn:Hc; [|done]. clear Hd.
  unfold CanonicalBytes in Hc. unfold embeddedIdentity.
  destruct (decodeBounded (DTopology (VDescriptor v))) as [b|]; [|by repeat case_match]. simpl in *.
  apply topology_verify_json in Ht. rewrite Ht. simpl. rewrite bool_decide_false by done.
  by replace (DocEpoch (VTopology v) =? 0) with false by lia.
Qed.

(** A valid descriptor that competes with a stored epoch halts the chain,
    whatever becomes of the evidence. *)
Lemma Append_conflict env st c encoded c1 i stored competing : chain_wf c -> lock_ok env = true ->
  refreshLocked env st c = (c1, None) -> halted c1 = false -> epochs c1 !! i = Some stored ->
  Verify encoded (authority c1) (match i with O => None | S j => epochs c1 !! j end) (revoked c1) = Ok competing ->
  VEpoch competing = VEpoch stored -> VNetworkID competing = chain_network c1 -> VDigest competing <> VDigest stored ->
  exists st' b, Append env st c encoded = (st', set_halted c1, Err (ErrEquivocation b)).
Proof.
  intros Hwf Hlock Hr Hh Hi Hv He Hn Hd. pose proof (refreshLocked_wf env st c Hwf) as Hwf1. rewrite Hr in Hwf1.
  simpl in Hwf1. pose proof Hwf1 as (Hne & _ & Hok). unfold Append. rewrite Hlock, Hr. cbn [negb]. rewrite Hh.
  rewrite (Verify_size _ _ _ _ _ Hv). pose proof (Verify_embedded _ _ _ _ _ Hv ltac:(congruence)) as Hid.
  pose proof Hv as (Hj & Hdig & _)%Verify_ok. rewrite Hj, Hdig, Hid.
  rewrite !bool_decide_false, bool_decide_true by done. cbn [negb andb].
  rewrite He, (lookupSlot_wf c1 i stored Hwf1 Hi). unfold append_slot. rewrite bool_decide_false by congruence.
  rewrite Hv. destruct (Forall_lookup_1 _ _ _ _ Hok Hi) as (_ & _ & Hsn). rewrite bool_decide_true by congruence.
  cbn [negb]. unfold halt. destruct (marker st); [|destruct (marker_write env)]; eauto.
Qed.

(** A halted chain changes nothing and serves nothing. *)
Lemma halted_final env st c encoded now n : halted c = true ->
  (exists e, Append env st c encoded = (st, c, Err e)) /\ ActiveAt c now = None /\ Tip c = None /\
  ServesEpoch c n now = false.
Proof.
  intros Hh. unfold Append, refreshLocked, ActiveAt, Tip, ServesEpoch, StateOf. rewrite Hh.
  split_and!; [|done..]. destruct (lock_ok env); simpl; [rewrite Hh|]; eauto.
Qed.

Lemma refreshLocked_head env st c c1 : refreshLocked env st c = (c1, None) -> halted c1 = false ->
  files st !! next_number c1 = None.
Proof.
  unfold refreshLocked. destruct (halted c) eqn:Hh; [intros [= <-]; congruence|].
  destruct (marker_readable env); [|done]. cbn [negb]. destruct (marker st); [by intros [= <-]|].
  generalize (S (size (files st))) as fuel. intros fuel. revert c Hh.
  induction fuel as [|fuel IH]; intros c Hh; simpl; [done|].
  destruct (files st !! next_number c) eqn:Hf; [|by intros [= <-]].
  destruct (file_readable env _); [|done]. simpl. destruct (Verify _ _ _ _); [|done].
  case_bool_decide; [|done]. simpl. by apply IH.
Qed.

(** The number the chain needs next is already burned, and its file is not
    there to be adopted. *)
Definition wedged (st : store) c : Prop := exists p m, last (epochs c) = Some p /\ mark st = Mark m /\
  VEpoch p + 1 <= m /\ files st !! next_number c = None.

(** Refreshing a wedged chain adopts nothing. *)
Lemma refresh_wedged env st c : wedged st c ->
  fst (refreshLocked env st c) = c \/ fst (refreshLocked env st c) = set_halted c.
Proof.
  intros (p & m & _ & _ & _ & Hf). unfold refreshLocked. destruct (halted c); [by left|].
  destruct (marker_readable env); [|by left]. cbn [negb]. destruct (marker st); [by right|].
  simpl. rewrite Hf. by left.
Qed.

Lemma wedged_append env st c encoded st' c' r : chain_wf c -> wedged st c -> Append env st c encoded = (st', c', r) ->
  wedged st' c' /\ epochs c' = epochs c /\ forall v, r = Ok v -> v ∈ epochs c.
Proof.
  intros Hwf Hw E. pose proof Hw as (p & m & Hp & Hm & Hle & Hf).
  destruct (Append_outcome _ _ _ _ _ _ _ Hwf E) as [(-> & -> & ->)|Ho]; [by split_and!|].
  pose proof (refreshLocked_wf env st c Hwf) as Hwf1.
  assert (epochs (fst (refreshLocked env st c)) = epochs c) as He
    by (destruct (refresh_wedged env st c Hw) as [-> | ->]; done).
  revert Hwf1 He Ho. generalize (fst (refreshLocked env st c)) as c1. intros c1 Hwf1 He Ho.
  assert (next_number c1 = next_number c) as Hnext by (unfold next_number; by rewrite He).
  assert (forall v, Verify encoded (authority c1) (last (epochs c1)) (revoked c1) = Ok v ->
    store_raised st st' (VEpoch v) -> False) as Hno.
  { intros v Hv (_ & _ & _ & Hlt & _). specialize (Hlt m Hm). rewrite He, Hp in Hv.
    destruct (Verify_succeeds _ _ _ _ _ Hv) as (_ & _ & Hs & _); [by apply (last_epoch_ok c)|lia]. }
  destruct Ho as [e Hne|v i d Hi Hj Hd|i stored competing previous st' b Hi _ _ _ _ Efs Emk _ _|v st' Hv Hr _|v st' Hv Hr _ _ _];
    [..|by destruct (Hno v)|by destruct (Hno v)].
  - split_and!; [|done|done]. exists p, m. by rewrite He, Hnext.
  - split_and!; [|done|]; [exists p, m; by rewrite He, Hnext|]. intros v' [= <-]. rewrite <- He. by eapply list_elem_of_lookup_2.
  - split_and!; [|done|done]. exists p, m. rewrite Efs, Emk. simpl. rewrite He.
    change (next_number (set_halted c1)) with (next_number c1). by rewrite Hnext.
Qed.

(** A successor whose file cannot be written leaves the chain wedged. *)
Lemma failed_write_wedges env st c encoded st' c' p : chain_wf c ->
  Append env st c encoded = (st', c', Err ErrChainIO) -> mark st' <> mark st -> files st' = files st ->
  last (epochs c') = Some p -> halted c' = false -> snd (refreshLocked env st c) = None -> wedged st' c'.
Proof.
  intros Hwf E Hmk Hfs Hp Hh Hr. destruct (Append_outcome _ _ _ _ _ _ _ Hwf E) as [(-> & _)|Ho]; [done|].
  pose proof (refreshLocked_wf env st c Hwf) as Hwf1. pose proof (refreshLocked_head env st c) as Hhead.
  destruct (refreshLocked env st c) as [c1 e1]. simpl in *. subst e1.
  inversion Ho as [| |i stored competing previous st1 b|v st1 Hv Hs _|]; subst; [done|].
  pose proof Hs as (_ & _ & Hmark & _). exists p, (VEpoch v). rewrite Hfs. split_and!; [done|done| |by apply Hhead].
  rewrite Hp in Hv. destruct (Verify_succeeds _ _ _ _ _ Hv) as (_ & _ & Hn & _); [by apply (last_epoch_ok c')|lia].
Qed.
End endings.

(** Further calls of [Append], whatever their outcomes. *)
Fixpoint append_all `{HashFunction, SignatureScheme, Calendar, EpochInputs} (st : store) (c : Chain)
  (calls : list (chain_io * list byte)) : store * Chain :=
  match calls with
  | [] => (st, c)
  | (env, encoded) :: calls => let '(st', c', _) := Append env st c encoded in append_all st' c' calls
  end.

(** The only way a call halts a chain it found running. *)
Lemma Append_halts `{HashFunction, SignatureScheme, Calendar, EpochInputs} env st (c : Chain) encoded st' c' r :
  chain_wf c -> Append env st c encoded = (st', c', r) ->
  let found := fst (refreshLocked env st c) in halted found = false -> halted c' = true ->
  exists i stored competing b, r = Err (ErrEquivocation b) /\ epochs found !! i = Some stored /\
    Verify encoded (authority found) (match i with O => None | S j => epochs found !! j end) (revoked found) = Ok competing /\
    VEpoch competing = VEpoch stored /\ VDigest competing <> VDigest stored.
Proof.
  intros Hwf E found Hh Hh'. destruct (Append_outcome _ _ _ _ _ _ _ Hwf E) as [(-> & -> & ->)|Ho].
  - unfold found, refreshLocked in Hh. rewrite Hh' in Hh. simpl in Hh. congruence.
  - fold found in Ho. destruct Ho as [| |i stored competing previous st' b Hi Hv ->| |]; [congruence|congruence| |congruence|simpl in Hh'; congruence].
    by exists i, stored, competing, b.
Qed.

(** C34: equivocation is fatal and nothing else is.  A call to Append that finds the
    chain running halts it only on a competing descriptor that verifies completely
    against the stored epoch's own predecessor, for the same epoch with another
    digest; every such descriptor halts it, whether or not the evidence can be
    written.  In particular a descriptor for an epoch that is not stored never
    halts the chain, also when its number lies at or below the tip (the comment on
    Append says that it does).  And a halted chain accepts no further descriptor,
    names no tip, has no active epoch and serves none. *)
Theorem equivocation_halts `{HashFunction, SignatureScheme, Calendar, EpochInputs} env st (c : Chain) encoded :
  chain_wf c ->
  let found := fst (refreshLocked env st c) in
  (forall st' c' r, Append env st c encoded = (st', c', r) -> halted found = false -> halted c' = true ->
     exists i stored competing b, r = Err (ErrEquivocation b) /\ epochs found !! i = Some stored /\
       Verify encoded (authority found) (match i with O => None | S j => epochs found !! j end) (revoked found) = Ok competing /\
       VEpoch competing = VEpoch stored /\ VDigest competing <> VDigest stored) /\
  (forall c1 i stored competing, lock_ok env = true -> refreshLocked env st c = (c1, None) -> halted c1 = false ->
     epochs c1 !! i = Some stored ->
     Verify encoded (authority c1) (match i with O => None | S j => epochs c1 !! j end) (revoked c1) = Ok competing ->
     VEpoch competing = VEpoch stored -> VNetworkID competing = chain_network c1 -> VDigest competing <> VDigest stored ->
     exists st' b, Append env st c encoded = (st', set_halted c1, Err (ErrEquivocation b))) /\
  (forall st' c' r d network number, Append env st c encoded = (st', c', r) -> descriptor_json encoded = Some d ->
     embeddedIdentity d = Some (network, number) -> lookupSlot found number = None -> halted found = false -> halted c' = false) /\
  (halted c = true -> forall env' st' encoded' now n,
     (exists e, Append env' st' c encoded' = (st', c, Err e)) /\ ActiveAt c now = None /\ Tip c = None /\
     ServesEpoch c n now = false).
Proof.
  intros Hwf found. split_and!.
  - intros st' c' r E Hh Hh'. exact (Append_halts _ _ _ _ _ _ _ Hwf E Hh Hh').
  - intros c1 i stored competing. by apply Append_conflict.
  - intros st' c' r d network number E Hj Hid Hnone Hh. destruct (halted c') eqn:Hh'; [exfalso|done].
    destruct (Append_halts _ _ _ _ _ _ _ Hwf E Hh Hh') as (i & stored & competing & b & _ & Hi & Hv & He & _).
    pose proof (Verify_identity _ _ _ _ _ _ _ _ Hv Hj Hid) as (_ & _ & Hn).
    pose proof (proj1 (list_find_None _ _) Hnone) as Hall. apply (Forall_lookup_1 _ _ _ _ Hall Hi). congruence.
  - intros Hh env' st' encoded' now n. by apply halted_final.
Qed.

(** Raising the high-water mark before writing the descriptor makes a
    failed write permanent.  When the mark was raised and the descriptor's file
    was not written (a full disk, or a crash in between), the number the chain
    needs next is burned while its descriptor is not stored: no sequence of later calls,
    the same descriptor offered again included, ever extends the chain. *)
Theorem failed_append_is_permanent `{HashFunction, SignatureScheme, Calendar, EpochInputs} env st (c : Chain) encoded st' c' p calls :
  chain_wf c -> Append env st c encoded = (st', c', Err ErrChainIO) ->
  snd (refreshLocked env st c) = None -> mark st' <> mark st -> files st' = files st ->
  last (epochs c') = Some p -> halted c' = false ->
  epochs (snd (append_all st' c' calls)) = epochs c'.
Proof.
  intros Hwf E Hr Hm Hf Hp Hh.
  pose proof (failed_write_wedges _ _ _ _ _ _ _ Hwf E Hm Hf Hp Hh Hr) as Hw. apply Append_wf in E; [|done].
  clear -E Hw. revert st' c' E Hw. induction calls as [|[env encoded] calls IH]; intros st c Hwf Hw; [done|]. simpl.
  destruct (Append env st c encoded) as [[st' c'] r] eqn:E. pose proof (Append_wf _ _ _ _ _ _ _ Hwf E) as Hwf'.
  destruct (wedged_append _ _ _ _ _ _ _ Hwf Hw E) as (Hw' & He & _). by rewrite IH, He.
Qed.

(** ** Examples *)

Section example.
#[local] Existing Instance example_hash.
#[local] Existing Instance example_signatures.
#[local] Existing Instance example_calendar.
#[local] Existing Instance inputs.

Definition quiet (file_ok : bool) : chain_io := mkChainIO true true (fun _ => true) true Succeeds file_ok true true.
Definition empty_store : store := mkStore false ∅ false NoMark.
Definition example_key : list byte := replicate 32 x09.
Definition fresh_chain : Chain := mkChain [x6e] example_key ∅ [] false.

(** The store and chain after the given descriptors were appended. *)
Definition example_state (calls : list (list byte)) : store * Chain :=
  append_all empty_store fresh_chain (map (fun b => (quiet true, b)) calls).

Lemma fresh_wf : chain_wf fresh_chain.
Proof. split; [intros E; discriminate E|]. split; [intros i p v Hp; discriminate Hp|constructor]. Qed.

Lemma append_all_wf st c calls : chain_wf c -> chain_wf (snd (append_all st c calls)).
Proof.
  revert st c. induction calls as [|[env encoded] calls IH]; intros st c Hwf; simpl; [exact Hwf|].
  destruct (Append env st c encoded) as [[st' c'] r] eqn:E. apply IH. eapply Append_wf; [exact Hwf|exact E].
Qed.

Lemma example_two : length (epochs (snd (example_state [[x01]; [x02]]))) = 2%nat.
Proof. vm_compute. reflexivity. Qed.

Lemma triple_eta {A B C} (x : A * B * C) : x = (fst (fst x), snd (fst x), snd x).
Proof. destruct x as [[a b] c]. reflexivity. Qed.

(** A call that succeeds, as a step of the system. *)
Lemma sys_accepts env st ps log i c encoded network key : ps !! i = Some c ->
  is_ok (snd (Append env st c encoded)) = true -> sys_reachable network key (mkSystem st ps log) ->
  exists v, snd (Append env st c encoded) = Ok v /\
  sys_reachable network key (mkSystem (fst (fst (Append env st c encoded)))
    (<[i := snd (fst (Append env st c encoded))]> ps) ((VEpoch v, VDigest v) :: log)).
Proof.
  intros Hi Hok Hr. destruct (Append env st c encoded) as [[st' c'] [v|e]] eqn:E; [|discriminate Hok].
  exists v. split; [reflexivity|]. eapply sys_next; [exact Hr|]. eapply sys_accept; [exact Hi|exact E].
Qed.

(** One process accepts two epochs; a second one opens the store after that. *)
Lemma one_descriptor_per_epoch_witness : exists s : system,
  map fst (accepted_epochs s) = [2; 1] /\
  (forall e h1 h2, (e, h1) ∈ accepted_epochs s -> (e, h2) ∈ accepted_epochs s -> h1 = h2).
Proof.
  assert (sys_reachable [x6e] example_key (mkSystem empty_store [fresh_chain] [])) as R0.
  { eapply sys_next; [apply sys_start|]. apply (sys_open _ _ (quiet true) _ [] _ ∅). reflexivity. }
  edestruct (fun a b => sys_accepts (quiet true) _ _ _ 0 fresh_chain [x01] _ _ a b R0) as (v1 & E1 & R1);
    [reflexivity|vm_compute; reflexivity|].
  edestruct (fun a b => sys_accepts (quiet true) _ _ _ 0 (snd (example_state [[x01]])) [x02] _ _ a b R1) as (v2 & E2 & R2);
    [reflexivity|vm_compute; reflexivity|].
  eexists. split; [|exact (proj1 (one_descriptor_per_epoch _ _ _ R2))].
  cbn [accepted_epochs map fst].
  assert (match snd (Append (quiet true) empty_store fresh_chain [x01]) with Ok v => VEpoch v | Err _ => 0 end = 1) as E1'
    by (vm_compute; reflexivity).
  assert (match snd (Append (quiet true) (fst (example_state [[x01]])) (snd (example_state [[x01]])) [x02]) with
          | Ok v => VEpoch v | Err _ => 0 end = 2) as E2' by (vm_compute; reflexivity).
  rewrite E1 in E1'. change (fst (example_state [[x01]])) with (fst (fst (Append (quiet true) empty_store fresh_chain [x01]))) in E2'.
  rewrite E2 in E2'. rewrite E1', E2'. reflexivity.
Defined.

Lemma example_wf calls : chain_wf (snd (example_state calls)).
Proof. apply append_all_wf, fresh_wf. Qed.

Lemma single_active_epoch_witness :
  let c := snd (example_state [[x01]; [x02]]) in
  ServesEpoch c 1 (999 * second) = true /\ ServesEpoch c 2 (1000 * second) = true /\
  forall n, ServesEpoch c n (1000 * second) = true -> n = 2.
Proof.
  intros c. split; [vm_compute; reflexivity|]. split; [vm_compute; reflexivity|].
  intros n Hn. apply (proj2 (single_active_epoch c (1000 * second) (example_wf _) ltac:(vm_compute; reflexivity)));
    [exact Hn|vm_compute; reflexivity].
Defined.

Lemma equivocation_halts_witness :
  let '(st, c) := example_state [[x01]; [x02]] in
  exists b, snd (Append (quiet true) st c [x03]) = Err (ErrEquivocation b).
Proof.
  destruct (example_state [[x01]; [x02]]) as [st c] eqn:E.
  assert (st = fst (example_state [[x01]; [x02]])) as -> by (rewrite E; reflexivity).
  assert (c = snd (example_state [[x01]; [x02]])) as -> by (rewrite E; reflexivity).
  edestruct (proj1 (equivocation_halts (quiet true) (fst (example_state [[x01]; [x02]]))
    (snd (example_state [[x01]; [x02]])) [x03] (example_wf _)) _ _ _ (triple_eta _)) as (_ & _ & _ & b & Hb & _).
  - vm_compute. reflexivity.
  - vm_compute. reflexivity.
  - exists b. exact Hb.
Defined.

Lemma failed_append_is_permanent_witness :
  let c := snd (example_state [[x01]]) in
  let failed := Append (quiet false) (fst (example_state [[x01]])) c [x02] in
  epochs (snd (append_all (fst (fst failed)) (snd (fst failed)) [(quiet true, [x02])])) = epochs (snd (fst failed)) /\
  length (epochs (snd (fst failed))) = 1%nat.
Proof.
  intros c failed. split; [|vm_compute; reflexivity].
  destruct (last (epochs (snd (fst failed)))) as [p|] eqn:Hp.
  2: { exfalso. assert (bool_decide (is_Some (last (epochs (snd (fst failed))))) = true) as Hs by (vm_compute; reflexivity).
       rewrite Hp in Hs. discriminate Hs. }
  assert (match snd failed with Err ErrChainIO => true | _ => false end = true) as Hr by (vm_compute; reflexivity).
  assert (snd (refreshLocked (quiet false) (fst (example_state [[x01]])) c) = None) as Hn by (vm_compute; reflexivity).
  assert (failed = (fst (fst failed), snd (fst failed), Err ErrChainIO)) as E.
  { rewrite (triple_eta failed) at 1. destruct (snd failed) as [|[]]; first [discriminate Hr|reflexivity]. }
  apply (failed_append_is_permanent (quiet false) (fst (example_state [[x01]])) c [x02] _ _ p).
  - apply example_wf.
  - exact E.
  - exact Hn.
  - vm_compute. discriminate.
  - vm_compute. reflexivity.
  - exact Hp.
  - vm_compute. reflexivity.
Defined.
End example.
