(* ===== verification/Revocation.v ===== *)
(** Withdrawal of operator identities ([live/epoch/revocation.go]): who can
    authorise a revocation, that an accepted one keeps the identity out of every
    later epoch, and where the store falls short.  JSON decoding is a parameter,
    as in [Epoch.v]. *)

From stdpp Require Import base list list_numbers gmap sorting strings.
From Stdlib Require Import ZArith Lia Strings.Byte.
From S2P Require Import Prelude Bytes Hash Codec Checkpoint Topology Epoch Chain.

Definition RevocationVersion : list byte := String.list_byte_of_string "nomad-operator-revocation-v1".
Definition revocationDomain : list byte := String.list_byte_of_string "nomad-operator-revocation-v1".
Definition ReasonSelf : list byte := String.list_byte_of_string "self".
Definition ReasonCompromise : list byte := String.list_byte_of_string "compromise".
Definition revocationSuffix : list byte := String.list_byte_of_string ".revocation".

Record Signer := mkRevSigner {
  SgnOperatorID : list byte;
  SgnSignature : list byte;
}.

Record Revocation := mkRevocation {
  RVersion : list byte;
  RNetworkID : list byte;
  ROperatorID : list byte;
  RIdentityKey : list byte;
  EpochObserved : Z;
  Reason : list byte;
  Signatures : list Signer;
}.

Inductive revocation_error :=
| ErrRevocationVersion
| ErrRevocationNetwork
| ErrRevocationOperator
| ErrRevocationEpoch
| ErrRevocationReason
| ErrRevocationIdentity
| ErrForeignNetwork
| ErrForeignEpoch
| ErrTargetUnknown
| ErrTargetKey
| ErrSignerUnknown
| ErrSignerKey
| ErrSignerSignature
| ErrSelfSignature
| ErrPeerQuorum
| ErrSigningIdentity
| ErrRevocationSize
| ErrRevocationJSON
| ErrRevocationIO
| ErrStoredRevocation.

(** The strict decoding of one JSON document, with nothing behind it. *)
Class RevocationJSON := revocation_json : list byte -> option Revocation.

(** ** Statements *)

Definition revocationCanonicalBytes (r : Revocation) : result revocation_error (list byte) :=
  if negb (bool_decide (RVersion r = RevocationVersion)) then Err ErrRevocationVersion
  else if negb (operatorIDPattern (RNetworkID r)) then Err ErrRevocationNetwork
  else if negb (operatorIDPattern (ROperatorID r)) then Err ErrRevocationOperator
  else if EpochObserved r =? 0 then Err ErrRevocationEpoch
  else if negb (bool_decide (Reason r = ReasonSelf) || bool_decide (Reason r = ReasonCompromise)) then Err ErrRevocationReason
  else match decodeBase64 (RIdentityKey r) 32 with
  | None => Err ErrRevocationIdentity
  | Some identity =>
      let canonical := appendString [] (RVersion r) in
      let canonical := appendString canonical (RNetworkID r) in
      let canonical := appendString canonical (ROperatorID r) in
      let canonical := appendBytes canonical identity in
      let canonical := appendUint64 canonical (EpochObserved r) in
      Ok (appendString canonical (Reason r))
  end.

Section revocations.
Context `{HashFunction, SignatureScheme, Calendar, EpochInputs}.

Definition RevocationMessage (r : Revocation) : result revocation_error (list byte) :=
  canonical ← revocationCanonicalBytes r; Ok (revocationDomain ++ sha256 canonical).

Definition SignRevocation (r : Revocation) (operatorID identity : list byte) : result revocation_error Revocation :=
  if negb (Nat.eqb (length identity) 64) then Err ErrSigningIdentity
  else
    message ← RevocationMessage r;
    Ok (mkRevocation (RVersion r) (RNetworkID r) (ROperatorID r) (RIdentityKey r) (EpochObserved r) (Reason r)
          (Signatures r ++ [mkRevSigner operatorID (b64_encode (sign identity message))])).

(** The loop over the signatures; [verified] holds the identifiers found. *)
Fixpoint check_signers (observed : Verified) (message : list byte) (verified : gset (list byte)) (signers : list Signer)
  : result revocation_error (gset (list byte)) :=
  match signers with
  | [] => Ok verified
  | signer :: signers =>
      match OperatorByID (VTopology observed) (SgnOperatorID signer) with
      | None => Err ErrSignerUnknown
      | Some operator =>
          match decodeBase64 (IdentityKey operator) 32 with
          | None => Err ErrSignerKey
          | Some key =>
              match decodeBase64 (SgnSignature signer) 64 with
              | None => Err ErrSignerSignature
              | Some signature =>
                  if negb (verify key message signature) then Err ErrSignerSignature
                  else check_signers observed message ({[OpID operator]} ∪ verified) signers
              end
          end
      end
  end.

Definition VerifyRevocation (r : Revocation) (observed : Verified) : result revocation_error unit :=
  if negb (bool_decide (RNetworkID r = VNetworkID observed)) then Err ErrForeignNetwork
  else if negb (EpochObserved r =? VEpoch observed) then Err ErrForeignEpoch
  else
    message ← RevocationMessage r;
    match OperatorByID (VTopology observed) (ROperatorID r) with
    | None => Err ErrTargetUnknown
    | Some target =>
        if negb (bool_decide (IdentityKey target = RIdentityKey r)) then Err ErrTargetKey
        else
          verified ← check_signers observed message ∅ (Signatures r);
          if bool_decide (Reason r = ReasonSelf)
          then if bool_decide (OpID target ∈ verified) then Ok tt else Err ErrSelfSignature
          else
            let peers := Z.of_nat (size (verified ∖ {[OpID target]})) in
            if peers <? ApprovalQuorum observed then Err ErrPeerQuorum else Ok tt
    end.
End revocations.

(** ** The store *)

(** The directory as a reader sees it and as a power loss leaves it, and the
    revocations in memory by identity key. *)
Record RevocationStore := mkRevStore {
  rev_files : gmap (list byte) (list byte);
  rev_synced : gmap (list byte) (list byte);
  byKey : gmap (list byte) Revocation;
}.

(** What the disk does in one call. *)
Record rev_io := mkRevIO {
  rev_readable : list byte -> bool;
  rev_stat : bool;
  rev_write : bool;
  rev_sync : bool;
}.

(** [filepath.Ext(name) == ".revocation"]. *)
Definition is_revocation (name : list byte) : bool :=
  Nat.leb (length revocationSuffix) (length name) &&
  bool_decide (drop (length name - length revocationSuffix) name = revocationSuffix).

Section store.
Context `{HashFunction, SignatureScheme, Calendar, EpochInputs, RevocationJSON}.

Definition DecodeRevocation (encoded : list byte) : result revocation_error Revocation :=
  if bool_decide (encoded = []) || (MaximumFileBytes <? len encoded) then Err ErrRevocationSize
  else match revocation_json encoded with Some r => Ok r | None => Err ErrRevocationJSON end.

(** The loop of [OpenRevocationStore] over the directory's entries. *)
Fixpoint load_revocations (env : rev_io) (files : gmap (list byte) (list byte)) (held : gmap (list byte) Revocation)
  (names : list (list byte)) : result revocation_error (gmap (list byte) Revocation) :=
  match names with
  | [] => Ok held
  | name :: names =>
      if negb (is_revocation name) then load_revocations env files held names
      else if negb (rev_readable env name) then Err ErrRevocationIO
      else match files !! name with
      | None => Err ErrRevocationIO
      | Some encoded =>
          r ← wrap (fun _ => ErrStoredRevocation) (DecodeRevocation encoded);
          load_revocations env files (<[RIdentityKey r := r]> held) names
      end
  end.

Definition OpenRevocationStore (env : rev_io) (files : gmap (list byte) (list byte)) : result revocation_error RevocationStore :=
  held ← load_revocations env files ∅ (merge_sort name_le (elements (dom files)));
  Ok (mkRevStore files files held).

Definition revocation_name (r : Revocation) (encoded : list byte) : list byte :=
  ROperatorID r ++ [x2d] ++ hex_encode (take 8 (sha256 encoded)) ++ revocationSuffix.

Definition AcceptRevocation (env : rev_io) (s : RevocationStore) (encoded : list byte) (observed : Verified)
  : RevocationStore * result revocation_error unit :=
  match DecodeRevocation encoded with
  | Err e => (s, Err e)
  | Ok r =>
      match VerifyRevocation r observed with
      | Err e => (s, Err e)
      | Ok _ =>
          let name := revocation_name r encoded in
          let held := <[RIdentityKey r := r]> (byKey s) in
          if negb (rev_stat env) then (s, Err ErrRevocationIO)
          else match rev_files s !! name with
          | Some _ => (mkRevStore (rev_files s) (rev_synced s) held, Ok tt)
          | None =>
              if negb (rev_write env) then (s, Err ErrRevocationIO)
              else
                let files := <[name := encoded]> (rev_files s) in
                if negb (rev_sync env) then (mkRevStore files (rev_synced s) (byKey s), Err ErrRevocationIO)
                else (mkRevStore files files held, Ok tt)
          end
      end
  end.

Definition RevocationSet (s : RevocationStore) : gset (list byte) := dom (byKey s).
Definition Revoked (s : RevocationStore) (identityKey : list byte) : bool := bool_decide (is_Some (byKey s !! identityKey)).
End store.

(** ** Who can revoke *)

(** Everything a revocation says, its signatures aside. *)
Definition statement_of (r : Revocation) :=
  (RVersion r, RNetworkID r, ROperatorID r, RIdentityKey r, EpochObserved r, Reason r).

Section statements.
Context `{HashFunction, SignatureScheme, Calendar, EpochInputs}.

Lemma pattern_addressable id : operatorIDPattern id = true -> addressable id.
Proof.
  unfold operatorIDPattern, addressable. destruct id as [|b id]; [done|]. rewrite !andb_true_iff, Nat.leb_le.
  intros [[_ Hl] _]. rewrite length_cons. lia.
Qed.

Lemma reason_addressable r : r = ReasonSelf \/ r = ReasonCompromise -> addressable r.
Proof. by intros [-> | ->]. Qed.

Lemma revocation_canonical r c : revocationCanonicalBytes r = Ok c ->
  RVersion r = RevocationVersion /\ operatorIDPattern (RNetworkID r) = true /\ operatorIDPattern (ROperatorID r) = true /\
  EpochObserved r <> 0 /\ (Reason r = ReasonSelf \/ Reason r = ReasonCompromise) /\
  exists identity, RIdentityKey r = b64_encode identity /\ length identity = 32%nat /\
    c = appendString [] RevocationVersion ++ appendString [] (RNetworkID r) ++ appendString [] (ROperatorID r) ++
        appendString [] identity ++ appendUint64 [] (EpochObserved r) ++ appendString [] (Reason r).
Proof.
  unfold revocationCanonicalBytes. case_bool_decide as Hv; [|done]. destruct (operatorIDPattern (RNetworkID r)) eqn:Hn; [|done].
  destruct (operatorIDPattern (ROperatorID r)) eqn:Ho; [|done]. destruct (EpochObserved r =? 0) eqn:He; [done|].
  destruct (bool_decide (Reason r = ReasonSelf) || _) eqn:Hr; [|done]. cbn [negb].
  rewrite orb_true_iff, !bool_decide_eq_true in Hr. unfold decodeBase64.
  destruct (DecodeBase64 _) as [identity|] eqn:Hi; [|done]. cbn [mbind option_bind].
  destruct (Nat.eqb (length identity) 32) eqn:Hl; [|done]. intros E. apply (inj Ok) in E as <-.
  apply DecodeBase64_unique in Hi. apply Nat.eqb_eq in Hl. split_and!; try done; [lia|]. exists identity. split_and!; [done..|].
  rewrite Hv. unfold appendBytes, appendString, appendUint64. by rewrite !app_nil_l, <- !app_assoc.
Qed.

Lemma revocation_canonical_inj r1 r2 c : fits 64 (EpochObserved r1) -> fits 64 (EpochObserved r2) ->
  revocationCanonicalBytes r1 = Ok c -> revocationCanonicalBytes r2 = Ok c -> statement_of r1 = statement_of r2.
Proof.
  intros F1 F2 (V1 & N1 & O1 & _ & R1 & i1 & K1 & L1 & ->)%revocation_canonical (V2 & N2 & O2 & _ & R2 & i2 & K2 & L2 & E)%revocation_canonical.
  apply app_inv_head in E. apply pattern_addressable in N1, N2, O1, O2. apply reason_addressable in R1, R2.
  apply appendString_split in E as [EN E]; [|done..]. apply appendString_split in E as [EO E]; [|done..].
  apply appendString_split in E as [EI E]; [|unfold addressable; lia..]. apply appendUint64_split in E as [EE E]; [|done..].
  apply appendString_inj in E; [|done..]. unfold statement_of. by rewrite V1, V2, EN, EO, EE, E, K1, K2, EI.
Qed.

(** Among [signers] is operator [id] of epoch [p], with a signature over
    [message] that verifies under its key. *)
Definition signed_by (p : Verified) (message : list byte) (signers : list Signer) (id : list byte) : Prop :=
  exists signer operator key signature, signer ∈ signers /\ operator ∈ Operators (VTopology p) /\ OpID operator = id /\
    decodeBase64 (IdentityKey operator) 32 = Some key /\ decodeBase64 (SgnSignature signer) 64 = Some signature /\
    verify key message signature = true.

Lemma OperatorByID_Some d id o : OperatorByID d id = Some o -> o ∈ Operators d /\ OpID o = id.
Proof.
  unfold OperatorByID. destruct (list_find _ _) as [[i o']|] eqn:E; [|done]. intros [= <-].
  apply list_find_Some in E as (Hi & Ho & _). split; [by eapply list_elem_of_lookup_2|done].
Qed.

Lemma check_signers_sound p message s signers s' : check_signers p message s signers = Ok s' ->
  forall id, id ∈ s' -> id ∈ s \/ signed_by p message signers id.
Proof.
  revert s. induction signers as [|sg signers IH]; intros s; cbn [check_signers].
  - intros E. apply (inj Ok) in E as ->. auto.
  - destruct (OperatorByID _ _) as [o|] eqn:Ho; [|done]. apply OperatorByID_Some in Ho as [Ho _].
    destruct (decodeBase64 (IdentityKey o) 32) as [key|] eqn:Hk; [|done].
    destruct (decodeBase64 (SgnSignature sg) 64) as [sig|] eqn:Hsg; [|done]. destruct (verify _ _ _) eqn:Hv; [|done]. cbn [negb].
    intros E id Hid. destruct (IH _ E id Hid) as [[->%elem_of_singleton|?]%elem_of_union|(sg' & o' & k' & g' & Hin & Hrest)].
    + right. exists sg, o, key, sig. split_and!; try done. by left.
    + by left.
    + right. exists sg', o', k', g'. split; [by right|exact Hrest].
Qed.

Lemma VerifyRevocation_ok r p : VerifyRevocation r p = Ok tt ->
  RNetworkID r = VNetworkID p /\ EpochObserved r = VEpoch p /\
  exists message target (signers : gset (list byte)), RevocationMessage r = Ok message /\ target ∈ Operators (VTopology p) /\
    OpID target = ROperatorID r /\ IdentityKey target = RIdentityKey r /\ (forall id, id ∈ signers -> signed_by p message (Signatures r) id) /\
    (Reason r = ReasonSelf /\ ROperatorID r ∈ signers \/
     Reason r = ReasonCompromise /\ ApprovalQuorum p <= Z.of_nat (size (signers ∖ {[ROperatorID r]}))).
Proof.
  unfold VerifyRevocation. case_bool_decide as Hn; [|done]. destruct (_ =? _) eqn:He; [|done]. cbn [negb].
  destruct (RevocationMessage r) as [message|] eqn:Hm; [|done]. cbn [mbind result_bind].
  destruct (OperatorByID _ _) as [target|] eqn:Ht; [|done]. apply OperatorByID_Some in Ht as [Ht Hid].
  case_bool_decide as Hk; [|done]. cbn [negb]. destruct (check_signers _ _ _ _) as [signers|] eqn:Hs; [|done]. cbn [mbind result_bind].
  intros E. split_and!; [done|lia|]. exists message, target, signers. split_and!; try done.
  { intros id Hin. by destruct (check_signers_sound _ _ _ _ _ Hs id Hin) as [?%elem_of_empty|]. }
  unfold RevocationMessage in Hm. destruct (revocationCanonicalBytes r) as [c|] eqn:Hc; [|done].
  apply revocation_canonical in Hc as (_ & _ & _ & _ & HR & _). rewrite Hid in E. case_bool_decide as Hr.
  - case_bool_decide as Hin; [by left|done].
  - destruct (_ <? _) eqn:Hq; [done|]. right. destruct HR; [done|]. split; [done|lia].
Qed.
End statements.

(** A revocation carries the word of someone who may give it.  If fewer
    operators of the observed epoch than the approval quorum are dishonest, and
    an honest operator's signatures on the statement are its own, then a compromise
    revocation that verifies was signed, with exactly its network, operator, key, epoch and
    reason, by an honest peer of the one revoked; and a self-revocation of an
    honest operator by that operator itself.  So no coalition below the quorum
    evicts anybody, and no signature given for one statement serves for another
    unless the hash collides. *)
Theorem revocation_authorised `{HashFunction, SignatureScheme, Calendar, EpochInputs} (r : Revocation) (p : Verified)
  (dishonest : gset (list byte)) (statements : list byte -> list Revocation) :
  VerifyRevocation r p = Ok tt -> fits 64 (EpochObserved r) ->
  Z.of_nat (size dishonest) < ApprovalQuorum p ->
  (forall message id, RevocationMessage r = Ok message -> id ∉ dishonest -> signed_by p message (Signatures r) id ->
     exists r', r' ∈ statements id /\ fits 64 (EpochObserved r') /\ RevocationMessage r' = Ok message) ->
  (forall c1 c2 id r', r' ∈ statements id -> revocationCanonicalBytes r = Ok c1 -> revocationCanonicalBytes r' = Ok c2 ->
     collision_free [c1; c2]) ->
  exists target, target ∈ Operators (VTopology p) /\ OpID target = ROperatorID r /\ IdentityKey target = RIdentityKey r /\
    (Reason r = ReasonCompromise -> exists peer r', peer ∉ dishonest /\ peer <> OpID target /\
       peer ∈ OpID <$> Operators (VTopology p) /\ r' ∈ statements peer /\ statement_of r' = statement_of r) /\
    (Reason r = ReasonSelf -> OpID target ∉ dishonest -> exists r', r' ∈ statements (OpID target) /\ statement_of r' = statement_of r).
Proof.
  intros (_ & _ & message & target & signers & Hm & Ht & Hid & Hk & Hs & Hcase)%VerifyRevocation_ok Hf Hd Hhonest Hcf.
  assert (forall id, id ∈ signers -> id ∉ dishonest -> exists r', r' ∈ statements id /\ statement_of r' = statement_of r) as Hword.
  { intros id Hin Hno. destruct (Hhonest message id Hm Hno (Hs id Hin)) as (r' & Hr' & Hf' & Hm'). exists r'. split; [done|].
    revert Hm Hm'. unfold RevocationMessage. destruct (revocationCanonicalBytes r) as [c1|] eqn:E1; [|done].
    destruct (revocationCanonicalBytes r') as [c2|] eqn:E2; [|done]. cbn [mbind result_bind].
    intros M1%(inj Ok) M2%(inj Ok). rewrite <- M2 in M1. apply app_inv_head in M1.
    apply (Hcf c1 c2 id r' Hr' eq_refl E2) in M1; [|set_solver|set_solver]. subst c2. by eapply revocation_canonical_inj. }
  exists target. split_and!; try done; intros Hr.
  - destruct Hcase as [[Hself _]|[_ Hq]]; [by rewrite Hself in Hr|].
    assert (exists id, id ∈ signers ∖ {[ROperatorID r]} /\ id ∉ dishonest) as (id & Hin & Hno).
    { destruct (decide (signers ∖ {[ROperatorID r]} ⊆ dishonest)) as [Hsub%subseteq_size|Hsub]; [lia|].
      apply not_set_Forall_Exists in Hsub; [|solve_decision]. destruct Hsub as (id & ? & ?). by exists id. }
    apply elem_of_difference in Hin as [Hin Hne]. destruct (Hword id Hin Hno) as (r' & ? & ?).
    exists id, r'. split_and!; try done; [set_solver|]. destruct (Hs id Hin) as (_ & o & _ & _ & _ & Ho & <- & _). by apply list_elem_of_fmap_2.
  - destruct Hcase as [[_ Hin]|[Hc _]]; [|by rewrite Hc in Hr]. intros Hno. rewrite Hid in *. by apply Hword.
Qed.

(** ** Runs of the store *)

Section runs.
Context `{HashFunction, SignatureScheme, Calendar, EpochInputs, RevocationJSON}.

(** The store, the identity keys whose revocation was accepted, and every
    encoding that was offered. *)
Record rev_world := mkRevWorld {
  rev_store : RevocationStore;
  rev_accepted : gset (list byte);
  rev_offered : list (list byte);
}.

(** Calls and restarts.  With [power_loss] a restart may find only what was
    synced, but no sync fails. *)
Inductive rev_step (power_loss : Prop) : rev_world -> rev_world -> Prop :=
| rev_accepts env s a l encoded observed s' r : (power_loss -> rev_sync env = true) ->
    AcceptRevocation env s encoded observed = (s', Ok tt) -> DecodeRevocation encoded = Ok r ->
    rev_step power_loss (mkRevWorld s a l) (mkRevWorld s' ({[RIdentityKey r]} ∪ a) (encoded :: l))
| rev_refuses env s a l encoded observed s' e : (power_loss -> rev_sync env = true) ->
    AcceptRevocation env s encoded observed = (s', Err e) ->
    rev_step power_loss (mkRevWorld s a l) (mkRevWorld s' a (encoded :: l))
| rev_restarts env s a l fs s' : fs = rev_files s \/ power_loss /\ fs = rev_synced s ->
    OpenRevocationStore env fs = Ok s' ->
    rev_step power_loss (mkRevWorld s a l) (mkRevWorld s' a l).

Inductive rev_reachable (power_loss : Prop) : rev_world -> Prop :=
| rev_start : rev_reachable power_loss (mkRevWorld (mkRevStore ∅ ∅ ∅) ∅ [])
| rev_next w w' : rev_reachable power_loss w -> rev_step power_loss w w' -> rev_reachable power_loss w'.

(** Each file is an encoding that was offered, under its own name; every accepted
    key is in memory and in a file. *)
Record rev_inv (power_loss : Prop) (w : rev_world) : Prop := {
  ri_files : forall name content, rev_files (rev_store w) !! name = Some content ->
    content ∈ rev_offered w /\ exists r, DecodeRevocation content = Ok r /\ name = revocation_name r content;
  ri_memory : rev_accepted w ⊆ dom (byKey (rev_store w));
  ri_stored : forall k, k ∈ rev_accepted w -> exists r content, DecodeRevocation content = Ok r /\ RIdentityKey r = k /\
    rev_files (rev_store w) !! revocation_name r content = Some content;
  ri_synced : power_loss -> rev_synced (rev_store w) = rev_files (rev_store w);
}.

(** No two of the encodings share the eight bytes that name their files. *)
Definition names_distinct (l : list (list byte)) : Prop :=
  forall e1 e2, e1 ∈ l -> e2 ∈ l -> take 8 (sha256 e1) = take 8 (sha256 e2) -> e1 = e2.

Lemma revocation_name_inj r1 e1 r2 e2 : revocation_name r1 e1 = revocation_name r2 e2 -> take 8 (sha256 e1) = take 8 (sha256 e2).
Proof.
  unfold revocation_name. rewrite !app_assoc. intros E. apply app_inv_tail in E.
  apply app_inj_2 in E as [_ E]; [by apply hex_encode_inj in E|]. by rewrite !length_hex_encode, !length_take, !(sha256_digest _).
Qed.

Lemma is_revocation_name r e : is_revocation (revocation_name r e) = true.
Proof.
  unfold is_revocation, revocation_name. rewrite !app_assoc. set (stem := (ROperatorID r ++ [x2d]) ++ _). rewrite length_app, Nat.add_sub.
  rewrite (proj2 (Nat.leb_le _ _)) by lia. by rewrite (drop_app_exact _ _ _ eq_refl), bool_decide_true.
Qed.

Lemma load_keeps env files held names held' k : load_revocations env files held names = Ok held' ->
  k ∈ dom held -> k ∈ dom held'.
Proof.
  revert held. induction names as [|name names IH]; intros held; cbn [load_revocations].
  - by intros E%(inj Ok) ?; subst.
  - destruct (is_revocation name); [|apply IH]. cbn [negb]. destruct (rev_readable env name); [|done]. cbn [negb].
    destruct (files !! name) as [e|]; [|done]. destruct (DecodeRevocation e) as [r|]; cbn [wrap mbind result_bind]; [|done].
    intros E Hk. apply (IH _ E). rewrite dom_insert. set_solver.
Qed.

Lemma load_finds env files held names held' r content : load_revocations env files held names = Ok held' ->
  DecodeRevocation content = Ok r -> files !! revocation_name r content = Some content -> revocation_name r content ∈ names ->
  RIdentityKey r ∈ dom held'.
Proof.
  intros Hl Hr Hf. revert held Hl. induction names as [|name names IH]; intros held Hl; [by intros ?%elem_of_nil|].
  intros [<-|Hin]%elem_of_cons; cbn [load_revocations] in Hl.
  - rewrite is_revocation_name, Hf in Hl. cbn [negb] in Hl. destruct (rev_readable _ _); [|done]. cbn [negb] in Hl.
    rewrite Hr in Hl. cbn [wrap mbind result_bind] in Hl. eapply load_keeps; [exact Hl|]. rewrite dom_insert. set_solver.
  - destruct (is_revocation name); [|exact (IH _ Hl Hin)]. cbn [negb] in Hl. destruct (rev_readable env name); [|done]. cbn [negb] in Hl.
    destruct (files !! name) as [e|]; [|done]. destruct (DecodeRevocation e) as [r'|]; cbn [wrap mbind result_bind] in Hl; [|done].
    exact (IH _ Hl Hin).
Qed.

Lemma load_blocked env files held names name content e held' : is_revocation name = true -> files !! name = Some content ->
  DecodeRevocation content = Err e -> name ∈ names -> load_revocations env files held names <> Ok held'.
Proof.
  intros Hn Hf He. revert held. induction names as [|m names IH]; intros held; [by intros ?%elem_of_nil|]. cbn [load_revocations].
  intros [<-|Hin]%elem_of_cons.
  - rewrite Hn, Hf. cbn [negb]. destruct (rev_readable _ _); [|done]. cbn [negb]. rewrite He. done.
  - destruct (is_revocation m); [|by apply IH]. cbn [negb]. destruct (rev_readable _ _); [|done]. cbn [negb].
    destruct (files !! m) as [c|]; [|done]. destruct (DecodeRevocation c); cbn [wrap mbind result_bind]; [|done]. by apply IH.
Qed.

Lemma OpenRevocationStore_ok env files s : OpenRevocationStore env files = Ok s ->
  rev_files s = files /\ rev_synced s = files /\
  forall r content, DecodeRevocation content = Ok r -> files !! revocation_name r content = Some content -> RIdentityKey r ∈ dom (byKey s).
Proof.
  unfold OpenRevocationStore. destruct (load_revocations _ _ _ _) as [held|] eqn:E; [|done]. cbn [mbind result_bind].
  intros E'%(inj Ok). subst s. split_and!; [done..|]. intros r content Hr Hf. cbn [byKey]. eapply load_finds; [exact E|exact Hr|exact Hf|].
  rewrite merge_sort_Permutation. apply elem_of_elements, elem_of_dom. by eexists.
Qed.

Lemma AcceptRevocation_ok env s encoded observed s' : AcceptRevocation env s encoded observed = (s', Ok tt) ->
  exists r, DecodeRevocation encoded = Ok r /\ byKey s' = <[RIdentityKey r := r]> (byKey s) /\
    let name := revocation_name r encoded in
    (is_Some (rev_files s !! name) /\ rev_files s' = rev_files s /\ rev_synced s' = rev_synced s \/
     rev_files s !! name = None /\ rev_files s' = <[name := encoded]> (rev_files s) /\ rev_synced s' = rev_files s').
Proof.
  unfold AcceptRevocation. destruct (DecodeRevocation encoded) as [r|]; [|done]. destruct (VerifyRevocation _ _); [|done].
  destruct (rev_stat env); [|done]. cbn [negb]. destruct (rev_files s !! _) as [content|] eqn:Ef.
  - intros [= <-]. exists r. split_and!; [done..|]. left. by split_and!.
  - destruct (rev_write env); [|done]. cbn [negb]. destruct (rev_sync env); [|done]. intros [= <-].
    exists r. split_and!; [done..|]. right. by split_and!.
Qed.

Lemma AcceptRevocation_err env s encoded observed s' e : AcceptRevocation env s encoded observed = (s', Err e) ->
  s' = s \/ rev_sync env = false /\ byKey s' = byKey s /\ exists r, DecodeRevocation encoded = Ok r /\
    rev_files s !! revocation_name r encoded = None /\ rev_files s' = <[revocation_name r encoded := encoded]> (rev_files s).
Proof.
  unfold AcceptRevocation. destruct (DecodeRevocation encoded) as [r|]; [|intros [= <- _]; by left].
  destruct (VerifyRevocation _ _); [|intros [= <- _]; by left]. destruct (rev_stat env); [|intros [= <- _]; by left]. cbn [negb].
  destruct (rev_files s !! _) eqn:Ef; [done|]. destruct (rev_write env); [|intros [= <- _]; by left]. cbn [negb].
  destruct (rev_sync env); [done|]. intros [= <- _]. right. split_and!; [done..|]. by exists r.
Qed.

Lemma rev_stored_insert (s : gmap (list byte) (list byte)) (name content : list byte) k : s !! name = None ->
  (exists r c, DecodeRevocation c = Ok r /\ RIdentityKey r = k /\ s !! revocation_name r c = Some c) ->
  exists r c, DecodeRevocation c = Ok r /\ RIdentityKey r = k /\ <[name := content]> s !! revocation_name r c = Some c.
Proof. intros Hn (r & c & ? & ? & Hf). exists r, c. split_and!; [done..|]. rewrite lookup_insert_ne; [done|]. by intros ->; rewrite Hn in Hf. Qed.

Lemma rev_files_insert (s : gmap (list byte) (list byte)) (l : list (list byte)) encoded r : DecodeRevocation encoded = Ok r ->
  (forall name content, s !! name = Some content -> content ∈ l /\ exists r, DecodeRevocation content = Ok r /\ name = revocation_name r content) ->
  forall name content, <[revocation_name r encoded := encoded]> s !! name = Some content ->
    content ∈ encoded :: l /\ exists r, DecodeRevocation content = Ok r /\ name = revocation_name r content.
Proof.
  intros Hr Hs name content [[<- <-]|[_ Hf]]%lookup_insert_Some; [split; [set_solver|by exists r]|].
  destruct (Hs _ _ Hf) as [? ?]. split; [set_solver|done].
Qed.

Lemma rev_step_inv P w w' : rev_step P w w' -> names_distinct (rev_offered w') -> rev_inv P w -> rev_inv P w'.
Proof.
  destruct 1 as [env s a l encoded observed s' r Hsync Ha Hr|env s a l encoded observed s' e Hsync Ha|env s a l fs s' Hfs Ho];
    intros Hnd [Hf Hm Hk Hs]; cbn [rev_store rev_accepted rev_offered] in *.
  - apply AcceptRevocation_ok in Ha as (r' & Hr' & Hb & Hcase). rewrite Hr in Hr'. apply (inj Ok) in Hr' as <-.
    assert (dom (byKey s') = {[RIdentityKey r]} ∪ dom (byKey s)) as Hdom by (rewrite Hb; apply dom_insert_L).
    destruct Hcase as [([content Hc] & Efs & Esy)|(Hc & Efs & Esy)]; split; cbn [rev_store rev_accepted rev_offered]; rewrite ?Efs.
    + intros name c Hname. destruct (Hf _ _ Hname). split; [set_solver|done].
    + rewrite Hdom. set_solver.
    + intros k [->%elem_of_singleton|Hin]%elem_of_union; [|by apply Hk]. exists r, encoded. split_and!; [done..|].
      destruct (Hf _ _ Hc) as (Hin & r' & _ & Hname). apply revocation_name_inj in Hname.
      rewrite (Hnd encoded content) by (done || set_solver). rewrite <- Hc. f_equal. rewrite (Hnd encoded content); [done|set_solver|set_solver|done].
    + intros HP. by rewrite Esy, Hs.
    + by apply rev_files_insert.
    + rewrite Hdom. set_solver.
    + intros k [->%elem_of_singleton|Hin]%elem_of_union; [|by apply rev_stored_insert, Hk].
      exists r, encoded. split_and!; [done..|]. by rewrite lookup_insert_eq.
    + intros _. by rewrite Esy, Efs.
  - apply AcceptRevocation_err in Ha as [->|(Hfail & Hb & r & Hr & Hc & Efs)]; split; cbn [rev_store rev_accepted rev_offered]; try done.
    + intros name c Hname. destruct (Hf _ _ Hname). split; [set_solver|done].
    + rewrite Efs. by apply rev_files_insert.
    + by rewrite Hb.
    + intros k Hin. rewrite Efs. by apply rev_stored_insert, Hk.
    + intros HP. by rewrite Hsync in Hfail.
  - assert (fs = rev_files s) as -> by (destruct Hfs as [->|[HP ->]]; [done|by apply Hs]).
    apply OpenRevocationStore_ok in Ho as (Ef & Es & Hload). split; cbn [rev_store rev_accepted rev_offered]; rewrite ?Ef; try done.
    + intros k Hin. destruct (Hk k Hin) as (r & c & Hr & <- & Hc). by eapply Hload.
Qed.

Lemma rev_step_offered P w w' : rev_step P w w' -> forall e, e ∈ rev_offered w -> e ∈ rev_offered w'.
Proof. destruct 1; cbn [rev_offered]; set_solver. Qed.

Lemma rev_reachable_inv P w : rev_reachable P w -> names_distinct (rev_offered w) -> rev_inv P w.
Proof.
  induction 1 as [|w w' Hr IH Hs]; intros Hnd.
  - split; cbn [rev_store rev_accepted rev_offered rev_files byKey rev_synced]; [|set_solver|set_solver|done].
    intros name c Hn. by rewrite lookup_empty in Hn.
  - eapply rev_step_inv; [exact Hs|done|]. apply IH. intros e1 e2 H1' H2'. apply Hnd; by eapply rev_step_offered.
Qed.
End runs.

(** ** Revocation and admission *)

Section admission.
Context `{HashFunction, SignatureScheme, Calendar, EpochInputs}.

Lemma load_revoked env st c numbers c' : load env st c numbers = Ok c' -> revoked c' = revoked c.
Proof.
  revert c. induction numbers as [|n numbers IH]; intros c; cbn [load]; [intros E; by apply (inj Ok) in E as <-|].
  destruct (files st !! n); [|done]. destruct (file_readable env n); [|done]. cbn [negb].
  destruct (Verify _ _ _ _) as [v|]; [|done]. destruct (VEpoch v =? n); [|done]. cbn [negb].
  case_bool_decide; [|done]. cbn [negb]. intros E. by rewrite (IH _ E).
Qed.

Lemma OpenChain_revoked env st network key rv c : OpenChain env st network key rv = Ok c -> revoked c = rv.
Proof.
  unfold OpenChain. case_bool_decide; [done|]. destruct (Nat.eqb _ _); [|done]. cbn [negb].
  destruct (marker_readable env); [|done]. cbn [negb]. destruct (marker st); [intros E; by apply (inj Ok) in E as <-|].
  destruct (stray st); [done|]. apply load_revoked.
Qed.

Lemma refresh_revoked env st c : revoked (fst (refreshLocked env st c)) = revoked c.
Proof.
  unfold refreshLocked. destruct (halted c); [done|]. destruct (marker_readable env); [|done]. cbn [negb].
  destruct (marker st); [done|]. generalize (S (size (files st))) as fuel. intros fuel. revert c.
  induction fuel as [|fuel IH]; intros c; cbn [refresh_loop]; [done|]. destruct (files st !! _); [|done].
  destruct (file_readable env _); [|done]. cbn [negb]. destruct (Verify _ _ _ _); [|done].
  case_bool_decide; [|done]. cbn [negb]. by rewrite IH.
Qed.

(** Every approval that counts towards a transition is of an operator whose key
    is not revoked. *)
Lemma check_approvals_not_revoked p digest rv seen approvals seen' : check_approvals p digest rv seen approvals = Ok seen' ->
  forall a, a ∈ approvals -> exists o, operator_at (VTopology p) (Z.to_nat (u16 (EIndex a))) = Some o /\ IdentityKey o ∉ rv.
Proof.
  revert seen. induction approvals as [|b approvals IH]; intros seen; cbn [check_approvals]; [by intros _ a ?%elem_of_nil|].
  destruct (_ <? _); [|done]. destruct (operator_at _ _) as [o|] eqn:Ho; [|done].
  case_bool_decide; [|done]. cbn [negb]. case_bool_decide; [done|]. case_bool_decide as Hrv; [done|].
  destruct (decodeBase64 _ _); [|done]. destruct (decodeBase64 _ _); [|done]. destruct (verify _ _ _); [|done].
  intros E a [->|Ha]%elem_of_cons; [by exists o|by eapply IH].
Qed.

Lemma Append_admits env st c encoded st' c' v : chain_wf c -> Append env st c encoded = (st', c', Ok v) ->
  v ∈ epochs (fst (refreshLocked env st c)) \/
  Verify encoded (authority (fst (refreshLocked env st c))) (last (epochs (fst (refreshLocked env st c)))) (revoked c) = Ok v.
Proof.
  intros Hwf E. destruct (Append_outcome _ _ _ _ _ _ _ Hwf E) as [(_ & _ & ?)|Ho]; [done|]. inversion Ho; subst.
  - left. by eapply list_elem_of_lookup_2.
  - right. by rewrite <- (refresh_revoked env st c).
Qed.
End admission.

(** C40: A revoked identity stays out.  Over any run of the store with restarts, as
    long as either no power is lost or no sync fails, the key of every accepted
    revocation is in the set the store gives out; and a chain opened with that set,
    which it keeps, never admits a new epoch in which an operator has the key, nor
    one that an approval by a holder of the key helped to authorise.  The file
    names hold eight bytes of a digest, assumed distinct for the encodings
    offered. *)
Theorem revocations_hold `{HashFunction, SignatureScheme, Calendar, EpochInputs, RevocationJSON} (power_loss : Prop)
  (w : rev_world) k network key : rev_reachable power_loss w -> names_distinct (rev_offered w) -> k ∈ rev_accepted w ->
  Revoked (rev_store w) k = true /\
  (forall env st c, OpenChain env st network key (RevocationSet (rev_store w)) = Ok c ->
     chain_wf c /\ revoked c = RevocationSet (rev_store w)) /\
  (forall env st c encoded st' c' v, chain_wf c -> revoked c = RevocationSet (rev_store w) ->
     Append env st c encoded = (st', c', Ok v) -> chain_wf c' /\ revoked c' = RevocationSet (rev_store w) /\
     (v ∈ epochs (fst (refreshLocked env st c)) \/
      Forall (fun o => IdentityKey o <> k) (Operators (VTopology v)) /\
      (Transition (VDescriptor v) <> TransitionGenesis ->
       exists p, last (epochs (fst (refreshLocked env st c))) = Some p /\ Forall (fun a =>
        exists o, operator_at (VTopology p) (Z.to_nat (u16 (EIndex a))) = Some o /\ IdentityKey o <> k) (Approvals (VDescriptor v))))).
Proof.
  intros Hr Hnd Hk. pose proof (rev_reachable_inv _ _ Hr Hnd) as [_ Hm _ _]. specialize (Hm k Hk). split_and!.
  - unfold Revoked. apply bool_decide_eq_true. by apply elem_of_dom.
  - intros env st c Ho. split; [by eapply OpenChain_wf|by eapply OpenChain_revoked].
  - intros env st c encoded st' c' v Hwf Hrv Ha. split_and!.
    + eapply Append_wf; [exact Hwf|exact Ha].
    + destruct (Append_outcome _ _ _ _ _ _ _ Hwf Ha) as [(_ & -> & ?)|Ho]; [done|]. rewrite <- Hrv, <- (refresh_revoked env st c). by inversion Ho.
    + destruct (Append_admits _ _ _ _ _ _ _ Hwf Ha) as [?|Hv]; [by left|right]. rewrite Hrv in Hv.
      apply Verify_ok in Hv as (_ & _ & _ & _ & _ & _ & Hops & Hlink & Happ & _). split.
      * apply Forall_forall. intros o Ho <-. by apply (Hops o Ho).
      * intros Hg. destruct (last _) as [p|] eqn:Hp; [|by unfold verifyChainLink in Hlink; rewrite bool_decide_false in Hlink].
        exists p. split; [done|]. unfold verifyApprovals in Happ. rewrite bool_decide_false in Happ by done.
        destruct (_ <? _); [done|]. destruct (check_approvals _ _ _ _ _) as [seen|] eqn:Hc; [|done].
        apply Forall_forall. intros a Ha'. destruct (check_approvals_not_revoked _ _ _ _ _ _ Hc a Ha') as (o & ? & Hno).
        exists o. split; [done|]. by intros <-.
Qed.

(** ** Where the store falls short *)

(** Two ways in which an accepted revocation does not last.  After a call whose
    directory sync failed, the retry finds the file, accepts the revocation
    without syncing, and a power loss leaves a store that knows nothing of it.
    And when a process dies while it writes the file, the retry likewise takes
    the cut file for the revocation, and from then on the store cannot be opened
    at all. *)
Theorem revocation_store_limits `{HashFunction, SignatureScheme, Calendar, EpochInputs, RevocationJSON} (encoded : list byte) r observed :
  DecodeRevocation encoded = Ok r -> VerifyRevocation r observed = Ok tt ->
  (exists env1 env2 s1 s2, AcceptRevocation env1 (mkRevStore ∅ ∅ ∅) encoded observed = (s1, Err ErrRevocationIO) /\
     AcceptRevocation env2 s1 encoded observed = (s2, Ok tt) /\ Revoked s2 (RIdentityKey r) = true /\
     forall env s3, OpenRevocationStore env (rev_synced s2) = Ok s3 -> Revoked s3 (RIdentityKey r) = false) /\
  (forall s cut e env, DecodeRevocation cut = Err e -> rev_stat env = true ->
     let s1 := mkRevStore (<[revocation_name r encoded := cut]> (rev_files s)) (rev_synced s) (byKey s) in
     exists s2, AcceptRevocation env s1 encoded observed = (s2, Ok tt) /\ Revoked s2 (RIdentityKey r) = true /\
     forall env', ~ exists s3, OpenRevocationStore env' (rev_files s2) = Ok s3).
Proof.
  intros Hd Hv. split.
  - exists (mkRevIO (fun _ => true) true true false), (mkRevIO (fun _ => true) true true true).
    unfold AcceptRevocation. rewrite Hd, Hv. cbn [rev_stat rev_write rev_sync negb rev_files]. rewrite lookup_empty.
    eexists _, _. split; [reflexivity|]. cbn [rev_files rev_synced byKey]. rewrite lookup_insert_eq. split_and!; [reflexivity| |].
    + unfold Revoked. cbn [byKey]. rewrite lookup_insert_eq. reflexivity.
    + intros env s3. cbn [rev_synced]. unfold OpenRevocationStore. rewrite dom_empty_L, elements_empty. cbn [merge_sort load_revocations mbind result_bind].
      intros E%(inj Ok). subst s3. reflexivity.
  - intros s cut e env Hc Hs. unfold AcceptRevocation. rewrite Hd, Hv, Hs. cbn [negb rev_files byKey rev_synced]. rewrite lookup_insert_eq.
    eexists. split_and!; [reflexivity| |].
    + unfold Revoked. cbn [byKey]. rewrite lookup_insert_eq. reflexivity.
    + cbn [rev_files]. intros env' [s3 Ho]. revert Ho. unfold OpenRevocationStore.
      destruct (load_revocations _ _ _ _) as [held|] eqn:El; [|done]. intros _. revert El.
      eapply (load_blocked env' _ _ _ (revocation_name r encoded) cut e); [apply is_revocation_name|apply lookup_insert_eq|exact Hc|].
      rewrite merge_sort_Permutation. apply elem_of_elements, elem_of_dom. rewrite lookup_insert_eq. by eexists.
Qed.

(** ** Examples *)

Section example.
#[local] Existing Instance example_hash.
#[local] Existing Instance example_signatures.
#[local] Existing Instance example_calendar.
#[local] Existing Instance inputs.

(** The first two operators revoke the third one in the genesis epoch. *)
Definition unsigned_revocation : Revocation :=
  mkRevocation RevocationVersion [x6e] [x63] (IdentityKey (example_operator 2)) 1 ReasonCompromise [].

Definition example_revocation : Revocation :=
  match SignRevocation unsigned_revocation [x61] (example_identity 0) with
  | Ok r => match SignRevocation r [x62] (example_identity 1) with Ok r => r | Err _ => unsigned_revocation end
  | Err _ => unsigned_revocation
  end.

#[local] Instance example_revocation_json : RevocationJSON := fun encoded =>
  match encoded with [x01] => Some example_revocation | _ => None end.

Lemma example_revocation_ok : exists g, Verify [x01] [] None ∅ = Ok g /\ VerifyRevocation example_revocation g = Ok tt /\ ApprovalQuorum g = 2.
Proof.
  assert (match Verify [x01] [] None ∅ with
          | Ok g => is_ok (VerifyRevocation example_revocation g) && (ApprovalQuorum g =? 2)
          | Err _ => false end = true) as E by (vm_compute; reflexivity).
  destruct (Verify [x01] [] None ∅) as [g|]; [|discriminate E]. exists g. apply andb_true_iff in E as [E1 E2].
  apply Z.eqb_eq in E2. split; [reflexivity|split; [|exact E2]]. destruct (VerifyRevocation _ _) as [[]|]; [reflexivity|discriminate E1].
Qed.

Lemma revocation_authorised_witness : exists g peer r', VerifyRevocation example_revocation g = Ok tt /\ peer <> [x61] /\
  r' ∈ [unsigned_revocation] /\ statement_of r' = statement_of example_revocation.
Proof.
  destruct example_revocation_ok as (g & _ & Hv & Hq). exists g.
  destruct (revocation_authorised example_revocation g {[ [x61] ]} (fun _ => [unsigned_revocation]) Hv) as (t & _ & _ & _ & Hc & _).
  - assert (EpochObserved example_revocation = 1) as -> by (vm_compute; reflexivity). unfold fits. lia.
  - rewrite Hq, size_singleton. reflexivity.
  - intros message id Hm _ _. exists unsigned_revocation. split; [left|]. split; [cbn [EpochObserved unsigned_revocation]; unfold fits; lia|].
    rewrite <- Hm. vm_compute. reflexivity.
  - intros c1 c2 id r' ->%list_elem_of_singleton E1 E2. assert (c1 = c2) as ->.
    { assert (revocationCanonicalBytes example_revocation = revocationCanonicalBytes unsigned_revocation) as E by (vm_compute; reflexivity).
      rewrite E1, E2 in E. by apply (inj Ok) in E. }
    intros x y [->|[->|[]%elem_of_nil]%elem_of_cons]%elem_of_cons [->|[->|[]%elem_of_nil]%elem_of_cons]%elem_of_cons _; reflexivity.
  - destruct (Hc eq_refl) as (peer & r' & Hp & _ & _ & Hr & Hs). exists peer, r'. split; [exact Hv|]. split; [|split; assumption].
    intros ->. apply Hp. by apply elem_of_singleton.
Defined.

Definition example_disk : rev_io := mkRevIO (fun _ => true) true true true.

(** The revocation is accepted and the store opened again. *)
Lemma revocations_hold_witness : exists w, IdentityKey (example_operator 2) ∈ rev_accepted w /\
  Revoked (rev_store w) (IdentityKey (example_operator 2)) = true /\
  exists c, OpenChain (quiet true) empty_store [x6e] example_key (RevocationSet (rev_store w)) = Ok c /\
    chain_wf c /\ revoked c = RevocationSet (rev_store w).
Proof.
  destruct example_revocation_ok as (g & _ & Hv & _).
  assert (DecodeRevocation [x01] = Ok example_revocation) as Hd by reflexivity.
  assert (exists s, AcceptRevocation example_disk (mkRevStore ∅ ∅ ∅) [x01] g = (s, Ok tt)) as [s Ha].
  { unfold AcceptRevocation. rewrite Hd, Hv. cbn [rev_stat rev_write rev_sync example_disk negb rev_files]. rewrite lookup_empty. eexists. reflexivity. }
  assert (rev_reachable True (mkRevWorld s ({[RIdentityKey example_revocation]} ∪ ∅) [[x01]])) as Hr.
  { eapply rev_next; [apply rev_start|]. eapply (rev_accepts _ example_disk); [reflexivity|exact Ha|exact Hd]. }
  assert (IdentityKey (example_operator 2) ∈ rev_accepted (mkRevWorld s ({[RIdentityKey example_revocation]} ∪ ∅) [[x01]])) as Hk.
  { apply elem_of_union_l, elem_of_singleton. reflexivity. }
  destruct (revocations_hold True _ (IdentityKey (example_operator 2)) [x6e] example_key Hr) as (H1' & H2' & _); [| exact Hk |].
  - intros e1 e2 ->%list_elem_of_singleton ->%list_elem_of_singleton _. reflexivity.
  - eexists. split; [exact Hk|]. split; [exact H1'|]. eexists. split; [reflexivity|]. apply (H2' (quiet true) empty_store). reflexivity.
Defined.

Lemma revocation_store_limits_witness : exists g env1 env2 s1 s2,
  AcceptRevocation env1 (mkRevStore ∅ ∅ ∅) [x01] g = (s1, Err ErrRevocationIO) /\
  AcceptRevocation env2 s1 [x01] g = (s2, Ok tt) /\ Revoked s2 (IdentityKey (example_operator 2)) = true.
Proof.
  destruct example_revocation_ok as (g & _ & Hv & _). exists g.
  assert (DecodeRevocation [x01] = Ok example_revocation) as Hd by reflexivity.
  destruct (proj1 (revocation_store_limits [x01] example_revocation g Hd Hv)) as (e1 & e2 & s1 & s2 & A1 & A2 & Hr & _).
  exists e1, e2, s1, s2. split; [exact A1|split; [exact A2|exact Hr]].
Defined.
End example.
