(* ===== verification/Erasure.v ===== *)
(** Destruction of a retired epoch's private material and the signed statement
    about it ([live/epoch/erasure.go]). *)

From stdpp Require Import base list list_numbers gmap sorting strings.
From Stdlib Require Import ZArith Lia Strings.Byte.
From S2P Require Import Prelude Bytes Hash Codec Checkpoint Topology Epoch Chain Revocation.

Definition ErasureVersion : list byte := String.list_byte_of_string "nomad-epoch-erasure-v1".
Definition erasureDomain : list byte := String.list_byte_of_string "nomad-epoch-erasure-v1".
Definition erasureMethod : list byte := String.list_byte_of_string "overwrite-random-then-unlink".
Definition ErasureLimitations : list byte := String.list_byte_of_string
  "Overwrite-then-unlink destroys the file as visible to the filesystem. It does not guarantee physical destruction on journaling filesystems, on flash with wear levelling, or where snapshots, backups or copy-on-write clones exist. The operative guarantee is destruction of the file within an encrypted volume; deployments must use full-disk encryption and must not back up the share directory.".

Record ErasedFile := mkErased {
  ErPath : list byte;
  SizeBytes : Z;
  ErDigest : list byte;
}.

Record ErasureStatement := mkErasure {
  ErVersion : list byte;
  ErNetworkID : list byte;
  ErOperatorID : list byte;
  ErEpoch : Z;
  DescriptorDigest : list byte;
  ErFiles : list ErasedFile;
  Method : list byte;
  Filesystem : list byte;
  ErasedAt : list byte;
  Limitations : list byte;
  ErSignature : list byte;
}.

Inductive erasure_error :=
| ErrErasureVersion
| ErrErasureNetwork
| ErrErasureOperator
| ErrErasureEpoch
| ErrErasureDigest
| ErrErasureTime
| ErrErasureLimitations
| ErrErasedFileDigest
| ErrErasureIdentity
| ErrErasureNoPath
| ErrErasureIO
| ErrNotRegular
| ErrErasureForeign
| ErrErasureDescriptor
| ErrErasureUnknown
| ErrErasureKey
| ErrErasureSignature.

(** ** Statements *)

Fixpoint append_files (canonical : list byte) (files : list ErasedFile) : result erasure_error (list byte) :=
  match files with
  | [] => Ok canonical
  | file :: files =>
      match canonical_hex (ErDigest file) 32 with
      | None => Err ErrErasedFileDigest
      | Some fileDigest =>
          let canonical := appendString canonical (ErPath file) in
          let canonical := appendUint64 canonical (u64 (SizeBytes file)) in
          append_files (canonical ++ fileDigest) files
      end
  end.

Section statements.
Context `{HashFunction, SignatureScheme, Calendar, EpochInputs}.

Definition erasureCanonicalBytes (s : ErasureStatement) : result erasure_error (list byte) :=
  if negb (bool_decide (ErVersion s = ErasureVersion)) then Err ErrErasureVersion
  else if negb (operatorIDPattern (ErNetworkID s)) then Err ErrErasureNetwork
  else if negb (operatorIDPattern (ErOperatorID s)) then Err ErrErasureOperator
  else if ErEpoch s =? 0 then Err ErrErasureEpoch
  else match canonical_hex (DescriptorDigest s) 32 with
  | None => Err ErrErasureDigest
  | Some digest =>
      if negb (canonical_time (ErasedAt s)) then Err ErrErasureTime
      else if negb (bool_decide (Limitations s = ErasureLimitations)) then Err ErrErasureLimitations
      else
        let canonical := appendString [] (ErVersion s) in
        let canonical := appendString canonical (ErNetworkID s) in
        let canonical := appendString canonical (ErOperatorID s) in
        let canonical := appendUint64 canonical (ErEpoch s) in
        let canonical := canonical ++ digest in
        let canonical := appendUint64 canonical (len (ErFiles s)) in
        canonical ← append_files canonical (ErFiles s);
        let canonical := appendString canonical (Method s) in
        let canonical := appendString canonical (Filesystem s) in
        let canonical := appendString canonical (ErasedAt s) in
        Ok (appendString canonical (Limitations s))
  end.

Definition ErasureMessage (s : ErasureStatement) : result erasure_error (list byte) :=
  canonical ← erasureCanonicalBytes s; Ok (erasureDomain ++ sha256 canonical).

Definition VerifyErasureStatement (s : ErasureStatement) (retired : Verified) : result erasure_error unit :=
  if negb (bool_decide (ErNetworkID s = VNetworkID retired)) || negb (ErEpoch s =? VEpoch retired) then Err ErrErasureForeign
  else if negb (bool_decide (DescriptorDigest s = hex_encode (VDigest retired))) then Err ErrErasureDescriptor
  else match OperatorByID (VTopology retired) (ErOperatorID s) with
  | None => Err ErrErasureUnknown
  | Some operator =>
      match decodeBase64 (IdentityKey operator) 32 with
      | None => Err ErrErasureKey
      | Some key =>
          message ← ErasureMessage s;
          match decodeBase64 (ErSignature s) 64 with
          | None => Err ErrErasureSignature
          | Some signature => if verify key message signature then Ok tt else Err ErrErasureSignature
          end
      end
  end.
End statements.

(** ** Erasing *)

(** An entry of the file system: a regular file with its content, or not. *)
Inductive fs_entry :=
| FsRegular (content : list byte)
| FsOther.

Notation file_system := (gmap (list byte) fs_entry).

(** Where the operating system fails while one file is erased; writing may have
    replaced the first bytes only. *)
Inductive erase_fault :=
| NoFault
| FailsBefore              (* Lstat, ReadFile, OpenFile, Seek or the random source *)
| FailsWriting (written : nat)
| FailsAfterWrite.         (* Sync, Close or Remove *)

(** [filepath.Base] with '/' as the separator. *)
Definition slash : byte := x2f.
Fixpoint drop_slashes (l : list byte) : list byte :=
  match l with
  | b :: rest => if bool_decide (b = slash) then drop_slashes rest else l
  | [] => []
  end.
Fixpoint until_slash (l : list byte) : list byte :=
  match l with
  | b :: rest => if bool_decide (b = slash) then [] else b :: until_slash rest
  | [] => []
  end.
Definition base (path : list byte) : list byte :=
  match path with
  | [] => [x2e]
  | _ => match until_slash (drop_slashes (reverse path)) with [] => [slash] | l => reverse l end
  end.

Section erasing.
Context `{HashFunction, SignatureScheme, Calendar, EpochInputs}.

(** The file's bytes are replaced by [noise], which has its length. *)
Definition eraseOne (fault : erase_fault) (noise : nat -> list byte) (fs : file_system) (path : list byte)
  : file_system * result erasure_error ErasedFile :=
  match fault, fs !! path with
  | FailsBefore, _ => (fs, Err ErrErasureIO)
  | _, None => (fs, Ok (mkErased (base path) 0 (hex_encode (replicate 32 x00))))
  | _, Some FsOther => (fs, Err ErrNotRegular)
  | FailsWriting written, Some (FsRegular contents) =>
      (<[path := FsRegular (take written (noise (length contents)) ++ drop written contents)]> fs, Err ErrErasureIO)
  | FailsAfterWrite, Some (FsRegular contents) => (<[path := FsRegular (noise (length contents))]> fs, Err ErrErasureIO)
  | NoFault, Some (FsRegular contents) =>
      (delete path fs, Ok (mkErased (base path) (len contents) (hex_encode (sha256 contents))))
  end.

Fixpoint erase_all (faults : list byte -> erase_fault) (noise : nat -> list byte) (fs : file_system) (paths : list (list byte))
  : file_system * result erasure_error (list ErasedFile) :=
  match paths with
  | [] => (fs, Ok [])
  | path :: paths =>
      match eraseOne (faults path) noise fs path with
      | (fs', Err e) => (fs', Err e)
      | (fs', Ok file) =>
          match erase_all faults noise fs' paths with
          | (fs'', Err e) => (fs'', Err e)
          | (fs'', Ok files) => (fs'', Ok (file :: files))
          end
      end
  end.

Definition EraseEpochMaterial (faults : list byte -> erase_fault) (noise : nat -> list byte) (fs : file_system)
  (networkID operatorID : list byte) (retired : Verified) (paths : list (list byte)) (filesystem identity : list byte) (now : Z)
  : file_system * result erasure_error ErasureStatement :=
  if negb (Nat.eqb (length identity) 64) then (fs, Err ErrErasureIdentity)
  else if bool_decide (paths = []) then (fs, Err ErrErasureNoPath)
  else match erase_all faults noise fs (merge_sort name_le paths) with
  | (fs', Err e) => (fs', Err e)
  | (fs', Ok files) =>
      let statement := mkErasure ErasureVersion networkID operatorID (VEpoch retired) (hex_encode (VDigest retired)) files
        erasureMethod filesystem (format_time (truncate_second now)) ErasureLimitations [] in
      (fs', message ← ErasureMessage statement;
            Ok (mkErasure ErasureVersion networkID operatorID (VEpoch retired) (hex_encode (VDigest retired)) files
                  erasureMethod filesystem (format_time (truncate_second now)) ErasureLimitations (b64_encode (sign identity message))))
  end.
End erasing.

(** ** What an erasure does *)

(** The record of a path that is erased in state [fs]. *)
Definition record_of `{HashFunction} (fs : file_system) (path : list byte) : ErasedFile :=
  match fs !! path with
  | Some (FsRegular contents) => mkErased (base path) (len contents) (hex_encode (sha256 contents))
  | _ => mkErased (base path) 0 (hex_encode (replicate 32 x00))
  end.

Section erasing.
Context `{HashFunction, SignatureScheme, Calendar, EpochInputs}.

Lemma eraseOne_ok (fault : erase_fault) (noise : nat -> list byte) (fs fs' : file_system) path file : eraseOne fault noise fs path = (fs', Ok file) ->
  fs' = delete path fs /\ file = record_of fs path.
Proof.
  unfold eraseOne, record_of.
  destruct fault, (fs !! path) as [[contents|]|] eqn:E; intros [= <- <-]; (split; [|reflexivity]); try done; symmetry; by apply delete_id.
Qed.

Lemma erase_all_ok (faults : list byte -> erase_fault) (noise : nat -> list byte) (fs fs' : file_system) paths files : erase_all faults noise fs paths = (fs', Ok files) ->
  (forall path, path ∈ paths -> fs' !! path = None) /\ (forall path, path ∉ paths -> fs' !! path = fs !! path) /\
  length files = length paths /\ (NoDup paths -> files = map (record_of fs) paths).
Proof.
  revert fs files. induction paths as [|p paths IH]; intros fs files; cbn [erase_all].
  - intros [= <- <-]. split_and!; [by intros ? ?%elem_of_nil|done|done|done].
  - destruct (eraseOne _ _ _ _) as [fs1 [file|]] eqn:E1; [|done]. apply eraseOne_ok in E1 as [-> ->].
    destruct (erase_all _ _ _ _) as [fs2 [rest|]] eqn:E2; [|done]. intros [= <- <-].
    destruct (IH _ _ E2) as (Hin & Hout & Hlen & Hmap). split_and!.
    + intros q [->|Hq]%elem_of_cons; [|by apply Hin]. destruct (decide (p ∈ paths)); [by apply Hin|]. rewrite Hout by done. apply lookup_delete_eq.
    + intros q [Hne Hq]%not_elem_of_cons. rewrite Hout by done. by apply lookup_delete_ne.
    + cbn [length]. by rewrite Hlen.
    + intros [Hp Hn]%NoDup_cons. rewrite Hmap by done. cbn [map]. f_equal. apply map_ext_in. intros q Hq%list_elem_of_In.
      unfold record_of. rewrite lookup_delete_ne; [done|]. by intros <-.
Qed.

(** The statement with another signature. *)
Definition with_signature (s : ErasureStatement) (signature : list byte) : ErasureStatement :=
  mkErasure (ErVersion s) (ErNetworkID s) (ErOperatorID s) (ErEpoch s) (DescriptorDigest s) (ErFiles s) (Method s) (Filesystem s)
    (ErasedAt s) (Limitations s) signature.

Lemma EraseEpochMaterial_ok (faults : list byte -> erase_fault) (noise : nat -> list byte) (fs fs' : file_system) network operator retired paths filesystem identity now s :
  EraseEpochMaterial faults noise fs network operator retired paths filesystem identity now = (fs', Ok s) ->
  length identity = 64%nat /\ erase_all faults noise fs (merge_sort name_le paths) = (fs', Ok (ErFiles s)) /\
  ErNetworkID s = network /\ ErOperatorID s = operator /\ ErEpoch s = VEpoch retired /\ DescriptorDigest s = hex_encode (VDigest retired) /\
  exists message, ErasureMessage s = Ok message /\ ErSignature s = b64_encode (sign identity message).
Proof.
  unfold EraseEpochMaterial. destruct (Nat.eqb _ _) eqn:El; [|done]. apply Nat.eqb_eq in El. cbn [negb].
  case_bool_decide; [done|]. destruct (erase_all _ _ _ _) as [fs1 [files|]] eqn:E; [|done]. set (st := mkErasure _ _ _ _ _ _ _ _ _ _ []).
  destruct (ErasureMessage st) as [message|] eqn:Em; cbn [mbind result_bind]; [|done].
  intros [= <- Hs]. subst s. cbn [ErFiles ErNetworkID ErOperatorID ErEpoch DescriptorDigest ErSignature]. split_and!; [done..|].
  exists message. split; [|done]. by rewrite <- Em.
Qed.
End erasing.

(** An erasure that returns a statement has destroyed everything it lists, and
    nothing else: none of the paths exists afterwards, every other entry is as
    it was, and the statement records, path by path in sorted order, the size and
    the digest of what was there, or zeros where nothing was.  Signed by an
    operator of the retired epoch, the statement verifies against that epoch. *)
Theorem erasure_complete `{HashFunction, SignatureScheme, Calendar, EpochInputs}
  (faults : list byte -> erase_fault) (noise : nat -> list byte) (fs fs' : file_system) network operatorID
  retired paths filesystem identity now s :
  EraseEpochMaterial faults noise fs network operatorID retired paths filesystem identity now = (fs', Ok s) ->
  (forall path, path ∈ paths -> fs' !! path = None) /\ (forall path, path ∉ paths -> fs' !! path = fs !! path) /\
  (NoDup paths -> ErFiles s = map (record_of fs) (merge_sort name_le paths)) /\
  (forall operator, network = VNetworkID retired -> OperatorByID (VTopology retired) operatorID = Some operator ->
     decodeBase64 (IdentityKey operator) 32 = Some (public identity) -> VerifyErasureStatement s retired = Ok tt).
Proof.
  intros (Hl & He & Hn & Ho & Hep & Hd & message & Hm & Hsig)%EraseEpochMaterial_ok.
  apply erase_all_ok in He as (Hin & Hout & _ & Hmap). pose proof (merge_sort_Permutation name_le paths) as Hp. split_and!.
  - intros path Hpath. apply Hin. by rewrite Hp.
  - intros path Hpath. apply Hout. by rewrite Hp.
  - intros Hnd. apply Hmap. by rewrite Hp.
  - intros operator -> Hop Hk. unfold VerifyErasureStatement. rewrite Hn, Hep, Z.eqb_refl, bool_decide_true, Hd, bool_decide_true by done.
    cbn [negb orb]. rewrite Ho, Hop, Hk, Hm. cbn [mbind result_bind]. rewrite Hsig, decodeBase64_encode; [|by apply sign_length].
    by rewrite sign_verify.
Qed.

(** ** What a statement says *)

Definition file_fits (f : ErasedFile) : Prop := addressable (ErPath f) /\ fits 64 (SizeBytes f).
Definition erasure_fits (s : ErasureStatement) : Prop :=
  fits 64 (ErEpoch s) /\ fits 64 (len (ErFiles s)) /\ Forall file_fits (ErFiles s) /\ addressable (Method s) /\
  addressable (Filesystem s) /\ addressable (ErasedAt s).

(** Everything in a statement but its signature. *)
Definition erasure_fields (s : ErasureStatement) :=
  (ErVersion s, ErNetworkID s, ErOperatorID s, ErEpoch s, DescriptorDigest s, ErFiles s, Method s, Filesystem s, ErasedAt s, Limitations s).

Section binding.
Context `{HashFunction, Calendar}.

Lemma appendString_app p v : appendString p v = p ++ appendString [] v.
Proof. unfold appendString, appendUint64. by rewrite app_nil_l, <- app_assoc. Qed.

Lemma append_files_extends files : forall p c, append_files p files = Ok c -> exists tail, c = p ++ tail.
Proof.
  induction files as [|f files IH]; intros p c; cbn [append_files]; [intros E%(inj Ok); subst; exists []; by rewrite app_nil_r|].
  destruct (canonical_hex _ _); [|done]. intros [tail ->]%IH. unfold appendUint64, appendString, appendUint64. rewrite <- !app_assoc. by eexists.
Qed.

Lemma append_files_inj files1 : forall files2 p r1 r2 c1 c2, length files1 = length files2 ->
  Forall file_fits files1 -> Forall file_fits files2 -> append_files p files1 = Ok c1 -> append_files p files2 = Ok c2 ->
  c1 ++ r1 = c2 ++ r2 -> files1 = files2 /\ r1 = r2.
Proof.
  induction files1 as [|f1 files1 IH]; intros [|f2 files2] p r1 r2 c1 c2 Hlen F1 F2; cbn [append_files]; try discriminate Hlen.
  - intros E1%(inj Ok) E2%(inj Ok) E. subst c1 c2. by apply app_inv_head in E.
  - apply Forall_cons in F1 as [[A1 S1] F1], F2 as [[A2 S2] F2].
    destruct (canonical_hex (ErDigest f1) 32) as [d1|] eqn:D1; [|done]. destruct (canonical_hex (ErDigest f2) 32) as [d2|] eqn:D2; [|done].
    apply canonical_hex_unique in D1 as [L1 D1], D2 as [L2 D2]. cbv zeta. intros E1 E2 E.
    destruct (append_files_extends _ _ _ E1) as [t1 Ht1], (append_files_extends _ _ _ E2) as [t2 Ht2]. pose proof E as E'. rewrite Ht1, Ht2 in E'. unfold appendUint64 in E'.
    rewrite <- !app_assoc in E'. apply appendString_split in E' as [Ep E']; [|done..].
    apply (appendUint64_split []) in E' as [Es E']; [|by apply wrapu_fits|by apply wrapu_fits].
    apply digest_split in E' as [Ed _]; [|done..]. rewrite Ep, Es, Ed in E1.
    destruct (IH files2 _ r1 r2 _ _ (eq_add_S _ _ Hlen) F1 F2 E1 E2 E) as [-> ->]. split; [|done]. f_equal.
    destruct f1 as [p1 s1 g1], f2 as [p2 s2 g2]; cbn [ErPath SizeBytes ErDigest] in *.
    rewrite !wrapu_small in Es by done. by subst.
Qed.

Lemma erasure_canonical_inj s1 s2 c : erasure_fits s1 -> erasure_fits s2 -> erasureCanonicalBytes s1 = Ok c ->
  erasureCanonicalBytes s2 = Ok c -> erasure_fields s1 = erasure_fields s2.
Proof.
  intros (F1 & N1 & G1 & M1 & Y1 & T1) (F2 & N2 & G2 & M2 & Y2 & T2). unfold erasureCanonicalBytes.
  case_bool_decide as V1; [|done]. destruct (operatorIDPattern (ErNetworkID s1)) eqn:W1; [|done].
  destruct (operatorIDPattern (ErOperatorID s1)) eqn:O1; [|done]. destruct (ErEpoch s1 =? 0); [done|].
  destruct (canonical_hex (DescriptorDigest s1) 32) as [d1|] eqn:D1; [|done]. destruct (canonical_time (ErasedAt s1)); [|done].
  case_bool_decide as L1; [|done]. cbn [negb]. destruct (append_files _ (ErFiles s1)) as [a1|] eqn:A1; [|done]. cbn [mbind result_bind].
  intros C1%(inj Ok).
  case_bool_decide as V2; [|done]. destruct (operatorIDPattern (ErNetworkID s2)) eqn:W2; [|done].
  destruct (operatorIDPattern (ErOperatorID s2)) eqn:O2; [|done]. destruct (ErEpoch s2 =? 0); [done|].
  destruct (canonical_hex (DescriptorDigest s2) 32) as [d2|] eqn:D2; [|done]. destruct (canonical_time (ErasedAt s2)); [|done].
  case_bool_decide as L2; [|done]. cbn [negb]. destruct (append_files _ (ErFiles s2)) as [a2|] eqn:A2; [|done]. cbn [mbind result_bind].
  intros C2%(inj Ok). rewrite <- C2 in C1. clear C2.
  apply pattern_addressable in W1, W2, O1, O2. apply canonical_hex_unique in D1 as [X1 D1], D2 as [X2 D2].
  rewrite L1, L2, V1, V2 in *.
  set (tail1 := appendString [] (Method s1) ++ appendString [] (Filesystem s1) ++ appendString [] (ErasedAt s1) ++ appendString [] ErasureLimitations).
  set (tail2 := appendString [] (Method s2) ++ appendString [] (Filesystem s2) ++ appendString [] (ErasedAt s2) ++ appendString [] ErasureLimitations).
  assert (a1 ++ tail1 = a2 ++ tail2) as E.
  { revert C1. unfold tail1, tail2, appendString, appendUint64. rewrite !app_nil_l, <- !app_assoc. done. }
  assert (ErNetworkID s1 = ErNetworkID s2 /\ ErOperatorID s1 = ErOperatorID s2 /\ ErEpoch s1 = ErEpoch s2 /\ d1 = d2 /\
          len (ErFiles s1) = len (ErFiles s2)) as (HN & HO & HE & HD & Hlen).
  { destruct (append_files_extends _ _ _ A1) as [t1 ->], (append_files_extends _ _ _ A2) as [t2 ->]. revert E.
    generalize tail1 tail2. intros r1 r2. unfold appendUint64.
    rewrite !(appendString_app (appendString _ _)), <- !app_assoc. intros E. apply app_inv_head in E.
    apply appendString_split in E as [EN E]; [|done..]. apply appendString_split in E as [EO E]; [|done..].
    apply (appendUint64_split []) in E as [EE E]; [|done..]. apply digest_split in E as [ED E]; [|done..].
    by apply (appendUint64_split []) in E as [EL E]. }
  rewrite HN, HO, HE, HD, Hlen in A1. destruct (append_files_inj _ _ _ _ _ _ _ ltac:(by apply Nat2Z.inj) G1 G2 A1 A2 E) as [Ef Et]. unfold tail1, tail2 in Et.
  apply appendString_split in Et as [Em Et]; [|done..]. apply appendString_split in Et as [Ey Et]; [|done..].
  apply appendString_split in Et as [Ett _]; [|done..]. unfold erasure_fields. rewrite V1, V2, L1, L2. congruence.
Qed.
End binding.

(** A signature on an erasure statement covers all of it: two statements with
    one signed message agree in everything but the signature, every file record
    and the limitations included, unless the hash collides on their canonical
    forms. *)
Theorem erasure_binds `{HashFunction, Calendar} s1 s2 c1 c2 message : erasure_fits s1 -> erasure_fits s2 ->
  erasureCanonicalBytes s1 = Ok c1 -> erasureCanonicalBytes s2 = Ok c2 ->
  ErasureMessage s1 = Ok message -> ErasureMessage s2 = Ok message -> collision_free [c1; c2] ->
  erasure_fields s1 = erasure_fields s2.
Proof.
  intros F1 F2 C1 C2. unfold ErasureMessage. rewrite C1, C2. cbn [mbind result_bind]. intros M1%(inj Ok) M2%(inj Ok) Hcf.
  rewrite <- M2 in M1. apply app_inv_head, Hcf in M1; [|by left|by right; left]. subst c2. by eapply erasure_canonical_inj.
Qed.

(** Re-running an erasure after a failure loses the record of it.  If the first
    attempt destroys one file and fails on the next one after overwriting it, the
    second attempt succeeds, and its statement reports the first file as absent
    and, for the second, the digest of the random bytes: what was destroyed
    appears nowhere in a statement that is signed as the record of it. *)
Theorem erasure_retry_forgets `{HashFunction, SignatureScheme, Calendar, EpochInputs} (fs : file_system) (noise : nat -> list byte)
  p q (content_p content_q : list byte) : p <> q -> fs !! p = Some (FsRegular content_p) -> fs !! q = Some (FsRegular content_q) ->
  let faults path := if bool_decide (path = q) then FailsAfterWrite else NoFault in
  exists fs1 fs2, erase_all faults noise fs [p; q] = (fs1, Err ErrErasureIO) /\
    erase_all (fun _ => NoFault) noise fs1 [p; q] = (fs2, Ok [mkErased (base p) 0 (hex_encode (replicate 32 x00));
      mkErased (base q) (len (noise (length content_q))) (hex_encode (sha256 (noise (length content_q))))]).
Proof.
  intros Hne Hp Hq faults. unfold faults. cbn [erase_all]. rewrite bool_decide_false by done. unfold eraseOne at 1. rewrite Hp.
  rewrite bool_decide_true by done. unfold eraseOne at 1. rewrite lookup_delete_ne, Hq by done. eexists _, _. split; [reflexivity|].
  unfold eraseOne. rewrite lookup_insert_ne, lookup_delete_eq by done. by rewrite lookup_insert_eq.
Qed.

(** ** Examples *)

Section example.
#[local] Existing Instance example_hash.
#[local] Existing Instance example_signatures.
#[local] Existing Instance example_calendar.
#[local] Existing Instance inputs.

Definition example_share : list byte := [x2f; x64; x2f; x73].
Definition example_log : list byte := [x2f; x64; x2f; x6c].
Definition example_fs : file_system := {[example_share := FsRegular [x01; x02; x03]; [x2f; x65] := FsRegular [x04]]}.
Definition example_noise (n : nat) : list byte := replicate n x5a.

Definition example_erasure (g : Verified) : file_system * result erasure_error ErasureStatement :=
  EraseEpochMaterial (fun _ => NoFault) example_noise example_fs [x6e] [x61] g [example_share; example_log] [x66] (example_identity 0) (5 * second).

Lemma example_erasure_ok : exists g fs s, Verify [x01] [] None ∅ = Ok g /\ example_erasure g = (fs, Ok s) /\ VNetworkID g = [x6e] /\
  OperatorByID (VTopology g) [x61] = Some (example_operator 0).
Proof.
  assert (match Verify [x01] [] None ∅ with
          | Ok g => is_ok (snd (example_erasure g)) && bool_decide (VNetworkID g = [x6e]) &&
                    match OperatorByID (VTopology g) [x61] with Some o => bool_decide (OpID o = [x61]) | None => false end
          | Err _ => false end = true) as E by (vm_compute; reflexivity).
  destruct (Verify [x01] [] None ∅) as [g|] eqn:Hg; [|discriminate E]. destruct (example_erasure g) as [fs [s|]] eqn:Es; [|discriminate E].
  exists g, fs, s. apply andb_true_iff in E as [E _]. apply andb_true_iff in E as [_ E2]. apply bool_decide_eq_true in E2.
  split; [reflexivity|split; [exact Es|split; [exact E2|]]].
  assert (match Verify [x01] [] None ∅ with Ok g => VTopology g | Err _ => example_document 2 end = example_document 1) as Ht by (vm_compute; reflexivity).
  rewrite Hg in Ht. rewrite Ht. vm_compute. reflexivity.
Qed.

Lemma erasure_complete_witness : exists g fs s, example_erasure g = (fs, Ok s) /\ fs !! example_share = None /\
  fs !! [x2f; x65] = example_fs !! [x2f; x65] /\ VerifyErasureStatement s g = Ok tt.
Proof.
  destruct example_erasure_ok as (g & fs & s & _ & He & Hn & Ho). exists g, fs, s. split; [exact He|].
  destruct (erasure_complete _ _ _ _ _ _ _ _ _ _ _ _ He) as (H1' & H2' & _ & H4'). split; [|split].
  - apply H1'. left.
  - apply H2'. intros [E|[E|E%elem_of_nil]%elem_of_cons]%elem_of_cons; [discriminate E|discriminate E|destruct E].
  - apply (H4' (example_operator 0)); [symmetry; exact Hn|exact Ho|vm_compute; reflexivity].
Defined.

Definition example_statement (signature : list byte) : ErasureStatement :=
  mkErasure ErasureVersion [x6e] [x61] 1 (hex_encode (replicate 32 x05)) [mkErased [x73] 3 (hex_encode (replicate 32 x06))]
    erasureMethod [x66] (at_second 5) ErasureLimitations signature.

Definition canonical_statement : list byte :=
  match erasureCanonicalBytes (example_statement []) with Ok c => c | Err _ => [] end.
Definition message_statement : list byte :=
  match ErasureMessage (example_statement []) with Ok c => c | Err _ => [] end.

Lemma erasure_binds_witness : erasure_fields (example_statement [x01]) = erasure_fields (example_statement [x02]).
Proof.
  assert (forall sg, erasure_fits (example_statement sg)) as Hf.
  { intros sg. unfold erasure_fits. cbn [ErEpoch ErFiles Method Filesystem ErasedAt example_statement].
    split; [split; [lia|reflexivity]|]. split; [split; [lia|reflexivity]|].
    split; [apply Forall_singleton; split; [reflexivity|split; [cbn [SizeBytes]; lia|reflexivity]]|].
    split; [reflexivity|split; reflexivity]. }
  apply (erasure_binds (example_statement [x01]) (example_statement [x02]) canonical_statement canonical_statement message_statement (Hf _) (Hf _)).
  - vm_compute. reflexivity.
  - vm_compute. reflexivity.
  - vm_compute. reflexivity.
  - vm_compute. reflexivity.
  - intros x y [->|[->|[]%elem_of_nil]%elem_of_cons]%elem_of_cons [->|[->|[]%elem_of_nil]%elem_of_cons]%elem_of_cons _; reflexivity.
Defined.

Lemma erasure_retry_forgets_witness : exists fs1 fs2 files, erase_all (fun path => if bool_decide (path = [x2f; x65]) then FailsAfterWrite else NoFault)
    example_noise example_fs [example_share; [x2f; x65]] = (fs1, Err ErrErasureIO) /\
  erase_all (fun _ => NoFault) example_noise fs1 [example_share; [x2f; x65]] = (fs2, Ok files).
Proof.
  destruct (erasure_retry_forgets example_fs example_noise example_share [x2f; x65] [x01; x02; x03] [x04]) as (fs1 & fs2 & E1 & E2).
  - discriminate.
  - vm_compute. reflexivity.
  - vm_compute. reflexivity.
  - exists fs1, fs2. eexists. split; [exact E1|exact E2].
Defined.
End example.
