(* ===== verification/Rotation.v ===== *)
(** The rotation plan ([live/epoch/rotation.go]): what the lifecycle asks of an
    operator at an instant, and the instants at which that can change. *)

From stdpp Require Import base list list_numbers gmap.
From Stdlib Require Import ZArith Lia Strings.Byte.
From S2P Require Import Prelude Bytes Hash Codec Checkpoint Topology Epoch Chain.

(** ** Definitions *)

Inductive Action :=
| ActionIdle
| ActionPrepareNext
| ActionAwaitActivation
| ActionRetire
| ActionEscalate
| ActionHalted.

Record Policy := mkRotationPolicy {
  PrepareLead : Z;
  RetryOffsets : list Z;
  EscalateAfter : Z;
}.

Definition hour : Z := 3600 * second.

Definition DefaultPolicy : Policy := mkRotationPolicy (6 * hour) [hour; 2 * hour] (3 * hour).

Inductive policy_error :=
| ErrPrepareLead
| ErrRetryOffset
| ErrRetryOrder
| ErrEscalation.

(** The loop over the retry offsets; [before] is the offset preceding them. *)
Fixpoint check_offsets (lead : Z) (before : option Z) (offsets : list Z) : option policy_error :=
  match offsets with
  | [] => None
  | offset :: offsets =>
      if offset <=? 0 then Some ErrRetryOffset
      else if lead <=? offset then Some ErrRetryOffset
      else if match before with Some b => offset <=? b | None => false end then Some ErrRetryOrder
      else check_offsets lead (Some offset) offsets
  end.

(** [None] is the nil error. *)
Definition policy_validate (policy : Policy) : option policy_error :=
  if PrepareLead policy <=? 0 then Some ErrPrepareLead
  else match check_offsets (PrepareLead policy) None (RetryOffsets policy) with
  | Some e => Some e
  | None =>
      if (EscalateAfter policy <=? 0) || (PrepareLead policy <=? EscalateAfter policy) then Some ErrEscalation
      else match last (RetryOffsets policy) with
      | Some l => if EscalateAfter policy <=? l then Some ErrEscalation else None
      | None => None
      end
  end.

(** The reason, a text for logs, is left out. *)
Record Plan := mkPlan {
  PAction : Action;
  PEpoch : Z;
  Attempt : Z;
  DueAt : option Z;           (* [None] is the zero time *)
}.

Section plan.
Context `{HashFunction, SignatureScheme, Calendar, EpochInputs}.

(** The plan when preparation is due and escalation is not. *)
Definition plan_attempt (now prepareAt epoch : Z) (offsets : list Z) : Plan :=
  let attempt := foldl (fun attempt offset => if now <? prepareAt + offset then attempt else attempt + 1) 1 offsets in
  let due := if 1 <? attempt then prepareAt + default 0 (offsets !! Z.to_nat (attempt - 2)) else prepareAt in
  mkPlan ActionPrepareNext (u64 (epoch + 1)) attempt (Some due).

Definition PlanAt (c : Chain) (now : Z) (policy : Policy) : result policy_error Plan :=
  match policy_validate policy with
  | Some e => Err e
  | None =>
      if halted c then Ok (mkPlan ActionHalted 0 0 None)
      else match last (epochs c) with
      | None => Ok (mkPlan ActionIdle 0 0 None)
      | Some tip =>
          if now <? VActivateAt tip
          then Ok (mkPlan ActionAwaitActivation (VEpoch tip) 1 (Some (VActivateAt tip)))
          else if negb (now <? VRetireAt tip)
          then Ok (mkPlan ActionRetire (VEpoch tip) 0 (Some (VRetireAt tip)))
          else
            let prepareAt := VRetireAt tip - PrepareLead policy in
            if now <? prepareAt then Ok (mkPlan ActionIdle (VEpoch tip) 0 (Some prepareAt))
            else if negb (now <? prepareAt + EscalateAfter policy)
            then Ok (mkPlan ActionEscalate (u64 (VEpoch tip + 1)) (len (RetryOffsets policy) + 1)
                       (Some (prepareAt + EscalateAfter policy)))
            else Ok (plan_attempt now prepareAt (VEpoch tip) (RetryOffsets policy))
      end
  end.

(** The candidates of [NextDeadline], in the order the code lists them. *)
Definition candidates (tip : Verified) (policy : Policy) : list Z :=
  let prepareAt := VRetireAt tip - PrepareLead policy in
  [VActivateAt tip; VRetireAt tip; prepareAt; prepareAt + EscalateAfter policy] ++
  map (fun offset => prepareAt + offset) (RetryOffsets policy).

(** The search for the earliest candidate after [now]; the zero time stands for
    none found. *)
Definition earliest (now : Z) (l : list Z) : Z :=
  foldl (fun best candidate =>
      if (now <? candidate) && ((best =? zero_time) || (candidate <? best)) then candidate else best)
    zero_time l.

(** [Ok None] is the error "no scheduled deadline". *)
Definition NextDeadline (c : Chain) (now : Z) (policy : Policy) : result policy_error (option Z) :=
  match policy_validate policy with
  | Some e => Err e
  | None =>
      if halted c then Ok None
      else match last (epochs c) with
      | None => Ok None
      | Some tip =>
          let best := earliest now (candidates tip policy) in
          if best =? zero_time then Ok None else Ok (Some best)
      end
  end.
End plan.

(** ** The search *)

Lemma earliest_from now l best : zero_time <= now -> (best = zero_time \/ now < best) ->
  let r := foldl (fun best candidate =>
      if (now <? candidate) && ((best =? zero_time) || (candidate <? best)) then candidate else best) best l in
  (r = zero_time \/ now < r) /\
  (r = zero_time -> best = zero_time /\ Forall (fun x => x <= now) l) /\
  (r <> zero_time -> (r = best \/ r ∈ l) /\ (best <> zero_time -> r <= best) /\ Forall (fun x => now < x -> r <= x) l).
Proof.
  intros Hz. revert best. induction l as [|x l IH]; intros best Hb; simpl.
  { split_and!; [done|by intros ->|]. intros _. split_and!; [by left|done|done]. }
  destruct ((now <? x) && ((best =? zero_time) || (x <? best))) eqn:E.
  - apply andb_true_iff in E as [Hx Hlt]. apply Z.ltb_lt in Hx.
    assert (best <> zero_time -> x < best) as Hxb.
    { intros Hne. apply orb_true_iff in Hlt as [?%Z.eqb_eq|?%Z.ltb_lt]; done. }
    destruct (IH x ltac:(lia)) as (H1 & H2 & H3). split_and!; [done|..].
    + intros Hr. destruct (H2 Hr). lia.
    + intros Hr. destruct (H3 Hr) as (Hin & Hle & Hall). specialize (Hle ltac:(lia)). split_and!.
      * right. destruct Hin as [-> |?]; [by left|by right].
      * intros Hne. specialize (Hxb Hne). lia.
      * by constructor.
  - destruct (IH best Hb) as (H1 & H2 & H3). split_and!; [done|..].
    + intros Hr. destruct (H2 Hr) as [-> Hall]. split; [done|]. constructor; [|done].
      rewrite Z.eqb_refl in E. simpl in E. rewrite andb_true_r in E. lia.
    + intros Hr. destruct (H3 Hr) as (Hin & Hle & Hall). split_and!; [destruct Hin as [-> |?]; [by left|by right; right]|done|].
      constructor; [|done]. intros Hx. apply andb_false_iff in E as [E|E]; [lia|].
      apply orb_false_iff in E as [E1 E2]. specialize (Hle ltac:(lia)). lia.
Qed.

Lemma earliest_spec now l : zero_time <= now ->
  (earliest now l = zero_time /\ Forall (fun x => x <= now) l) \/
  (now < earliest now l /\ earliest now l ∈ l /\ Forall (fun x => now < x -> earliest now l <= x) l).
Proof.
  intros Hz. destruct (earliest_from now l zero_time Hz ltac:(by left)) as (H1 & H2 & H3). fold (earliest now l) in *.
  destruct (decide (earliest now l = zero_time)) as [E|E]; [left|right].
  - split; [done|]. by apply H2.
  - destruct (H3 E) as ([?|?] & _ & ?); [done|]. split_and!; [lia|done|done].
Qed.

(** No comparison with a candidate changes between [now] and the next one. *)
Lemma stable_comparison now now' l : now <= now' -> Forall (fun x => now < x -> now' < x) l ->
  Forall (fun x => (now <? x) = (now' <? x)) l.
Proof.
  intros Hle Hall. eapply Forall_impl; [exact Hall|]. intros x Hx. simpl in Hx.
  destruct (now <? x) eqn:E; symmetry; [apply Z.ltb_lt; apply Hx; lia|lia].
Qed.

Section stable.
Context `{HashFunction, SignatureScheme, Calendar, EpochInputs}.

Lemma plan_attempt_stable now now' prepareAt epoch offsets :
  Forall (fun x => (now <? x) = (now' <? x)) (map (fun offset => prepareAt + offset) offsets) ->
  plan_attempt now prepareAt epoch offsets = plan_attempt now' prepareAt epoch offsets.
Proof.
  intros Hall. unfold plan_attempt.
  assert (forall a, foldl (fun attempt offset => if now <? prepareAt + offset then attempt else attempt + 1) a offsets =
    foldl (fun attempt offset => if now' <? prepareAt + offset then attempt else attempt + 1) a offsets) as E.
  { induction offsets as [|o offsets IH]; intros a; simpl in *; [done|].
    apply Forall_cons in Hall as [-> Hall]. by apply IH. }
  by rewrite E.
Qed.

(** The attempt number counts the offsets passed, so the offset it names is in
    the list: the code's index is in range. *)
Lemma plan_attempt_range now prepareAt epoch offsets :
  1 <= Attempt (plan_attempt now prepareAt epoch offsets) <= len offsets + 1.
Proof.
  unfold plan_attempt. simpl.
  enough (forall a, a <= foldl (fun attempt offset => if now <? prepareAt + offset then attempt else attempt + 1) a offsets
    <= a + len offsets) as Hgen by (specialize (Hgen 1); lia).
  induction offsets as [|o offsets IH]; intros a; simpl; [lia|].
  destruct (now <? prepareAt + o); [specialize (IH a)|specialize (IH (a + 1))]; lia.
Qed.

Lemma PlanAt_stable c tip now now' policy : last (epochs c) = Some tip ->
  Forall (fun x => (now <? x) = (now' <? x)) (candidates tip policy) -> PlanAt c now policy = PlanAt c now' policy.
Proof.
  intros Htip Hall. unfold PlanAt, candidates in *. rewrite Htip.
  apply Forall_app in Hall as [Hall Hoff]. rewrite !Forall_cons in Hall. destruct Hall as (-> & -> & -> & -> & _).
  by rewrite (plan_attempt_stable now now').
Qed.
End stable.

(** An operator may sleep until the next deadline: from [now] until the
    instant [NextDeadline] reports the plan is the same at every instant, and
    when it reports none the plan never changes again. *)
Theorem plan_stable_until_deadline `{HashFunction, SignatureScheme, Calendar, EpochInputs} (c : Chain) policy now now' d :
  zero_time <= now <= now' -> NextDeadline c now policy = Ok d -> match d with Some t => now' < t | None => True end ->
  PlanAt c now' policy = PlanAt c now policy.
Proof.
  intros Hnow. unfold NextDeadline. destruct (policy_validate policy) eqn:Hv; [done|].
  destruct (halted c) eqn:Hh; [intros _ _; unfold PlanAt; by rewrite Hv, Hh|].
  destruct (last (epochs c)) as [tip|] eqn:Htip; [|intros _ _; unfold PlanAt; by rewrite Hv, Hh, Htip].
  intros E Hd. symmetry. apply (PlanAt_stable c tip); [done|]. apply stable_comparison; [lia|].
  destruct (earliest_spec now (candidates tip policy) ltac:(lia)) as [[Ez Hall]|(Hlt & Hin & Hall)].
  - eapply Forall_impl; [exact Hall|]. simpl. intros x Hx ?. lia.
  - rewrite (proj2 (Z.eqb_neq _ _)) in E by lia. apply (inj Ok) in E. subst d.
    eapply Forall_impl; [exact Hall|]. simpl. intros x Hx ?. specialize (Hx ltac:(done)). lia.
Qed.

Section example.
#[local] Existing Instance example_hash.
#[local] Existing Instance example_signatures.
#[local] Existing Instance example_calendar.
#[local] Existing Instance inputs.

Definition example_policy : Policy := mkRotationPolicy (100 * second) [20 * second] (50 * second).

(** Epoch 2 of the example runs from 1000 to 2000 seconds; preparation of its
    successor begins at 1900 and is retried at 1920. *)
Lemma plan_stable_until_deadline_witness :
  let c := snd (example_state [[x01]; [x02]]) in
  PlanAt c (1919 * second) example_policy = PlanAt c (1900 * second) example_policy /\
  match PlanAt c (1925 * second) example_policy with Ok p => Attempt p = 2 | Err _ => False end.
Proof.
  intros c. split; [|vm_compute; reflexivity].
  apply (plan_stable_until_deadline c example_policy (1900 * second) (1919 * second) (Some (1920 * second))).
  - vm_compute. split; discriminate.
  - vm_compute. reflexivity.
  - vm_compute. reflexivity.
Defined.
End example.
