(* ===== verification/Journal.v ===== *)
(** The signature journal ([live/epoch/journal.go]): an operator signs at most
    one descriptor per network, epoch and role; and what that means for two
    successors of one epoch. *)

From stdpp Require Import base list list_numbers gmap strings.
From Stdlib Require Import ZArith Lia Strings.Byte.
From S2P Require Import Prelude Bytes Hash Codec Checkpoint Topology Epoch Chain.

(** ** Definitions *)

Definition roleActivation : list byte := String.list_byte_of_string "activation".
Definition roleApproval : list byte := String.list_byte_of_string "approval".
Definition signedSuffix : list byte := String.list_byte_of_string ".signed".
Definition dash : byte := x2d.
Definition newline : byte := x0a.

(** [%0nd] of a number below [10^n]. *)
Fixpoint decimal (n : nat) (v : Z) : list byte :=
  match n with
  | O => []
  | S n => decimal n (v / 10) ++ [byte_of_Z (48 + v mod 10)]
  end.

(** The file name of a (network, epoch, role). *)
Definition journal_path (network : list byte) (epoch : Z) (role : list byte) : list byte :=
  network ++ [dash] ++ decimal 20 epoch ++ [dash] ++ role ++ signedSuffix.

(** The directory as a reader sees it, and what is known to survive a power
    loss. *)
Record Journal := mkJournal {
  entries : gmap (list byte) (list byte);
  synced : gmap (list byte) (list byte);
}.

Record journal_io := mkJournalIO {
  entry_readable : bool;
  entry_write : bool;        (* writeNewFile *)
  entry_sync : bool;         (* durable.Directory *)
}.

Inductive journal_error :=
| ErrJournalNetwork
| ErrJournalRole
| ErrConflictingSignature
| ErrJournalIO
| ErrJournalDescriptor
| ErrSigning (e : epoch_error).

Definition record_entry (digest : list byte) : list byte := hex_encode digest ++ [newline].

(** [None] is the nil error. *)
Definition record (env : journal_io) (j : Journal) (network : list byte) (epoch : Z) (role digest : list byte)
  : Journal * option journal_error :=
  if negb (operatorIDPattern network) then (j, Some ErrJournalNetwork)
  else if negb (bool_decide (role = roleActivation)) && negb (bool_decide (role = roleApproval))
  then (j, Some ErrJournalRole)
  else
    let path := journal_path network epoch role in
    let encoded := record_entry digest in
    if negb (entry_readable env) then (j, Some ErrJournalIO)
    else match entries j !! path with
    | Some existing => if bool_decide (existing = encoded) then (j, None) else (j, Some ErrConflictingSignature)
    | None =>
        if negb (entry_write env) then (j, Some ErrJournalIO)
        else
          let entries' := <[path := encoded]> (entries j) in
          if negb (entry_sync env) then (mkJournal entries' (synced j), Some ErrJournalIO)
          else (mkJournal entries' entries', None)
    end.

Section signing.
Context `{HashFunction, SignatureScheme, Calendar, EpochInputs}.

(** Both entry points take the network, the epoch and the digest from the
    descriptor itself, record the intent and then sign. *)
Definition with_journal (env : journal_io) (j : Journal) (d : Descriptor) (role : list byte)
  (signing : result epoch_error Endorsement) : Journal * result journal_error Endorsement :=
  match embeddedIdentity d with
  | None => (j, Err ErrJournalDescriptor)
  | Some (network, epoch) =>
      match Digest d with
      | Err e => (j, Err (ErrSigning e))
      | Ok digest =>
          match record env j network epoch role digest with
          | (j', Some e) => (j', Err e)
          | (j', None) => (j', wrap ErrSigning signing)
          end
      end
  end.

Definition ActivateWithJournal (env : journal_io) (j : Journal) (d : Descriptor) (operator : Operator) (identity : list byte)
  : Journal * result journal_error Endorsement :=
  with_journal env j d roleActivation (Activate d operator identity).

Definition ApproveWithJournal (env : journal_io) (j : Journal) (d : Descriptor) (previous : Verified) (operator : Operator)
  (identity : list byte) : Journal * result journal_error Endorsement :=
  with_journal env j d roleApproval (Approve d previous operator identity).

(** ** Runs of one operator's signer *)

(** The journal and the descriptors signed so far: network, epoch, role, digest. *)
Record signer := mkSigner {
  journal : Journal;
  signed : list (list byte * Z * list byte * list byte);
}.

(** [power_loss s]: the power may fail in state [s]. *)
Inductive signer_step (power_loss : signer -> Prop) : signer -> signer -> Prop :=
| signer_activates env j l d operator identity j' a n e h :
    embeddedIdentity d = Some (n, e) -> Digest d = Ok h ->
    ActivateWithJournal env j d operator identity = (j', Ok a) ->
    signer_step power_loss (mkSigner j l) (mkSigner j' ((n, e, roleActivation, h) :: l))
| signer_approves env j l d previous operator identity j' a n e h :
    embeddedIdentity d = Some (n, e) -> Digest d = Ok h ->
    ApproveWithJournal env j d previous operator identity = (j', Ok a) ->
    signer_step power_loss (mkSigner j l) (mkSigner j' ((n, e, roleApproval, h) :: l))
| signer_refuses_activation env j l d operator identity j' x :
    ActivateWithJournal env j d operator identity = (j', Err x) ->
    signer_step power_loss (mkSigner j l) (mkSigner j' l)
| signer_refuses_approval env j l d previous operator identity j' x :
    ApproveWithJournal env j d previous operator identity = (j', Err x) ->
    signer_step power_loss (mkSigner j l) (mkSigner j' l)
(** The process dies while it writes a new entry, which is left cut short. *)
| signer_interrupted j l path content k : entries j !! path = None ->
    signer_step power_loss (mkSigner j l) (mkSigner (mkJournal (<[path := take k content]> (entries j)) (synced j)) l)
| signer_restarts j l : signer_step power_loss (mkSigner j l) (mkSigner j l)
(** What was not synced is gone. *)
| signer_loses_power j l : power_loss (mkSigner j l) ->
    signer_step power_loss (mkSigner j l) (mkSigner (mkJournal (synced j) (synced j)) l).

Inductive signer_reachable (power_loss : signer -> Prop) : signer -> Prop :=
| signer_start : signer_reachable power_loss (mkSigner (mkJournal ∅ ∅) [])
| signer_steps s s' : signer_reachable power_loss s -> signer_step power_loss s s' -> signer_reachable power_loss s'.
End signing.

(** The entries of all signatures are synced.  A call that finds its entry in place
    signs without syncing, so this can fail after an earlier call for the same
    descriptor failed at its sync or was cut short. *)
Definition entries_durable (s : signer) : Prop :=
  Forall (fun '(n, e, r, h) => synced (journal s) !! journal_path n e r = Some (record_entry h)) (signed s).

(** ** File names *)

Lemma length_decimal n v : length (decimal n v) = n.
Proof. revert v. induction n as [|n IH]; intros v; simpl; [done|]. rewrite length_app, IH. simpl. lia. Qed.

Lemma decimal_inj n v w : 0 <= v < 10 ^ Z.of_nat n -> 0 <= w < 10 ^ Z.of_nat n -> decimal n v = decimal n w -> v = w.
Proof.
  revert v w. induction n as [|n IH]; intros v w Hv Hw; [simpl in *; lia|].
  rewrite Nat2Z.inj_succ, Z.pow_succ_r in Hv, Hw by lia. simpl. intros [E1 E2]%app_inj_2; [|done].
  apply IH in E1; [|Z.to_euclidean_division_equations; nia..].
  injection E2 as E2. apply (f_equal Z_of_byte) in E2. rewrite !Z_of_byte_of_Z in E2.
  rewrite !wrapu_small in E2 by (unfold fits; Z.to_euclidean_division_equations; lia).
  Z.to_euclidean_division_equations. lia.
Qed.

Definition is_role (role : list byte) : Prop := role = roleActivation \/ role = roleApproval.

(** Entries of different (network, epoch, role) are different files. *)
Lemma journal_path_inj n1 e1 r1 n2 e2 r2 : is_role r1 -> is_role r2 -> 0 <= e1 < 2 ^ 64 -> 0 <= e2 < 2 ^ 64 ->
  journal_path n1 e1 r1 = journal_path n2 e2 r2 -> n1 = n2 /\ e1 = e2 /\ r1 = r2.
Proof.
  intros H1 H2 He1 He2 E. assert (r1 = r2) as ->.
  { apply (f_equal (fun l => last (take (length l - 7) l))) in E. revert E. unfold journal_path.
    rewrite !app_assoc. rewrite !length_app.
    change (length signedSuffix) with 7%nat. rewrite !Nat.add_sub.
    rewrite <- !length_app, !take_app_length. rewrite !last_app.
    destruct H1 as [-> | ->], H2 as [-> | ->]; done. }
  unfold journal_path in E. rewrite !(app_assoc n1), !(app_assoc n2) in E. apply app_inj_2 in E as [E F]; [|].
  2: { rewrite !length_app, !length_decimal. done. }
  apply app_inj_2 in E as [-> _]; [|done]. split_and!; [done| |done].
  apply app_inj_1 in F as [F _]; [|by rewrite !length_decimal].
  apply decimal_inj in F; [done|simpl; lia|simpl; lia].
Qed.

Section single_signature.
Context `{HashFunction, SignatureScheme, Calendar, EpochInputs}.

(** What a successful record leaves behind. *)
Lemma record_ok env j n e r h j' : record env j n e r h = (j', None) ->
  is_role r /\ entries j' !! journal_path n e r = Some (record_entry h) /\ entries j ⊆ entries j'.
Proof.
  unfold record. destruct (operatorIDPattern n); [|done]. cbn [negb].
  destruct (negb (bool_decide (r = roleActivation)) && _) eqn:Hrole; [done|].
  assert (is_role r) as Hr.
  { apply andb_false_iff in Hrole as [Hr|Hr]; apply negb_false_iff, bool_decide_eq_true in Hr; [by left|by right]. }
  clear Hrole. destruct (entry_readable env); [|done]. cbn [negb].
  destruct (entries j !! journal_path n e r) as [existing|] eqn:He.
  - case_bool_decide; [|done]. intros [= <-]. subst existing. split_and!; done.
  - destruct (entry_write env); [|done]. destruct (entry_sync env); [|done]. cbn [negb]. intros [= <-]. simpl.
    split_and!; [done|by rewrite lookup_insert_eq|by apply insert_subseteq].
Qed.

Lemma record_mono env j n e r h j' o : record env j n e r h = (j', o) -> entries j ⊆ entries j'.
Proof.
  unfold record. destruct (operatorIDPattern n); [|by intros [= <- <-]]. cbn [negb].
  destruct (_ && _); [by intros [= <- <-]|]. destruct (entry_readable env); [|by intros [= <- <-]]. cbn [negb].
  destruct (entries j !! _) as [existing|] eqn:He; [case_bool_decide; by intros [= <- <-]|].
  destruct (entry_write env); [|by intros [= <- <-]]. cbn [negb].
  destruct (entry_sync env); intros [= <- <-]; simpl; by apply insert_subseteq.
Qed.

Lemma with_journal_mono env j d role x j' r : with_journal env j d role x = (j', r) -> entries j ⊆ entries j'.
Proof.
  unfold with_journal. destruct (embeddedIdentity d) as [[n e]|]; [|by intros [= <- <-]].
  destruct (Digest d); [|by intros [= <- <-]]. destruct (record env j n e role a) as [j1 [o|]] eqn:Hr;
    intros [= <- <-]; by eapply record_mono.
Qed.

Lemma with_journal_ok env j d role x j' a n e h : embeddedIdentity d = Some (n, e) -> Digest d = Ok h ->
  with_journal env j d role x = (j', Ok a) ->
  is_role role /\ entries j' !! journal_path n e role = Some (record_entry h) /\ entries j ⊆ entries j'.
Proof.
  intros Hid Hd. unfold with_journal. rewrite Hid, Hd.
  destruct (record env j n e role h) as [j1 [o|]] eqn:Hr; [done|]. destruct x; [|done]. intros [= <- <-].
  by apply record_ok in Hr.
Qed.

Definition signer_inv (s : signer) : Prop :=
  Forall (fun '(n, e, r, h) => is_role r /\ entries (journal s) !! journal_path n e r = Some (record_entry h)) (signed s).

Lemma signer_inv_mono j j' l : entries j ⊆ entries j' -> signer_inv (mkSigner j l) -> signer_inv (mkSigner j' l).
Proof.
  intros Hsub Hl. eapply Forall_impl; [exact Hl|]. intros [[[n e] r] h] [Hr Hp]. split; [done|].
  by eapply lookup_weaken.
Qed.

Lemma signer_step_inv s s' : signer_inv s -> signer_step entries_durable s s' -> signer_inv s'.
Proof.
  intros Hinv Hs.
  destruct Hs as [env j l d o i j' a n e h Hid Hd E|env j l d p o i j' a n e h Hid Hd E|env j l d o i j' x E|
    env j l d p o i j' x E|j l path content k Hnone|j l|j l Hdur].
  - destruct (with_journal_ok _ _ _ _ _ _ _ _ _ _ Hid Hd E) as (Hr & Hp & Hsub).
    constructor; [by split|]. exact (signer_inv_mono j j' l Hsub Hinv).
  - destruct (with_journal_ok _ _ _ _ _ _ _ _ _ _ Hid Hd E) as (Hr & Hp & Hsub).
    constructor; [by split|]. exact (signer_inv_mono j j' l Hsub Hinv).
  - apply with_journal_mono in E. by apply (signer_inv_mono j).
  - apply with_journal_mono in E. by apply (signer_inv_mono j).
  - eapply signer_inv_mono; [|done]. by apply insert_subseteq.
  - exact Hinv.
  - unfold signer_inv, entries_durable in *. cbn [journal signed entries] in *. rewrite Forall_forall in *. intros [[[n e] r] h] Hin.
    destruct (Hinv _ Hin) as [Hr _]. split; [exact Hr|]. exact (Hdur _ Hin).
Qed.

Lemma signer_reachable_inv s : signer_reachable entries_durable s -> signer_inv s.
Proof. induction 1 as [|s s' _ IH Hs]; [constructor|by eapply signer_step_inv]. Qed.

Lemma record_entry_inj h1 h2 : record_entry h1 = record_entry h2 -> h1 = h2.
Proof. unfold record_entry. intros [E _]%app_inj_2; [|done]. by apply hex_encode_inj. Qed.

(** One journal never signs two descriptors for one (network, epoch, role). *)
Lemma journal_single s n e r h1 h2 : signer_reachable entries_durable s ->
  (n, e, r, h1) ∈ signed s -> (n, e, r, h2) ∈ signed s -> h1 = h2.
Proof.
  intros Hs%signer_reachable_inv I1 I2. unfold signer_inv in Hs. rewrite Forall_forall in Hs.
  destruct (Hs _ I1) as [_ P1], (Hs _ I2) as [_ P2]. apply record_entry_inj. congruence.
Qed.
(** A call whose intent is recorded ends in the signature. *)
Lemma activate_recorded env j j' d o identity n e h a : embeddedIdentity d = Some (n, e) -> Digest d = Ok h ->
  Activate d o identity = Ok a -> record env j n e roleActivation h = (j', None) ->
  ActivateWithJournal env j d o identity = (j', Ok a).
Proof. intros I D A R. unfold ActivateWithJournal, with_journal. by rewrite I, D, R, A. Qed.

Lemma record_first env j n e h : operatorIDPattern n = true -> entry_readable env = true -> entry_write env = true ->
  entries j !! journal_path n e roleActivation = None ->
  record env j n e roleActivation h =
    (let fs := <[journal_path n e roleActivation := record_entry h]> (entries j) in
     if entry_sync env then (mkJournal fs fs, None) else (mkJournal fs (synced j), Some ErrJournalIO)).
Proof. intros Hn Hr Hw Hj. unfold record. rewrite Hn, Hr, Hw, Hj. simpl. by destruct (entry_sync env). Qed.

Lemma record_again env j n e h : operatorIDPattern n = true -> entry_readable env = true ->
  entries j !! journal_path n e roleActivation = Some (record_entry h) -> record env j n e roleActivation h = (j, None).
Proof. intros Hn Hr Hj. unfold record. rewrite Hn, Hr, Hj. simpl. by rewrite bool_decide_true. Qed.

(** Signing one descriptor twice, by a run. *)
Lemma signs_twice P d o identity n e h a : operatorIDPattern n = true -> embeddedIdentity d = Some (n, e) ->
  Digest d = Ok h -> Activate d o identity = Ok a ->
  exists s, signer_reachable P s /\ signed s = [(n, e, roleActivation, h); (n, e, roleActivation, h)].
Proof.
  intros Hn I D A. set (env := mkJournalIO true true true).
  set (fs := <[journal_path n e roleActivation := record_entry h]> ∅ : gmap (list byte) (list byte)).
  exists (mkSigner (mkJournal fs fs) [(n, e, roleActivation, h); (n, e, roleActivation, h)]). split; [|done].
  eapply signer_steps; [eapply signer_steps; [apply signer_start|]|].
  - eapply (signer_activates _ env _ _ d o identity); [exact I|exact D|].
    eapply activate_recorded; [done..|]. by apply (record_first env (mkJournal ∅ ∅)).
  - eapply (signer_activates _ env _ _ d o identity); [exact I|exact D|].
    eapply activate_recorded; [done..|]. apply (record_again env (mkJournal fs fs)); [done..|]. apply lookup_insert_eq.
Qed.
End single_signature.

(** An operator that signs through its journal signs at most one
    descriptor for each network, epoch and role, over refused and failed calls,
    writes cut short by a crash, restarts of the process, and losses of power that
    find the entries of its signatures synced. *)
Theorem single_signature `{HashFunction, SignatureScheme, Calendar, EpochInputs} s n e r h1 h2 :
  signer_reachable entries_durable s -> (n, e, r, h1) ∈ signed s -> (n, e, r, h2) ∈ signed s -> h1 = h2.
Proof. apply journal_single. Qed.

(** C9: Split brain needs a dishonest approver, or a disk that forgets.  If two
    different descriptors both verify as successors of one epoch, some operator of
    that epoch has approved both; and no run of a journal contains both of those
    approvals, over refused and failed calls, writes cut short, restarts, and
    losses of power at moments when the entries of the signatures made so far are
    synced.  So that operator did not sign through its journal, or its power failed
    while an entry it had signed on was not synced ([journal_power_loss] is such a
    run). *)
Theorem split_brain_needs_dishonest_approver `{HashFunction, SignatureScheme, Calendar, EpochInputs}
  p enc1 enc2 key1 key2 rv1 rv2 v1 v2 :
  0 < VEpoch p < 2 ^ 64 -> Verify enc1 key1 (Some p) rv1 = Ok v1 -> Verify enc2 key2 (Some p) rv2 = Ok v2 ->
  VDigest v1 <> VDigest v2 ->
  exists id, approved p (VDigest v1) id /\ approved p (VDigest v2) id /\
    forall s, signer_reachable entries_durable s ->
      ~ ((VNetworkID v1, VEpoch v1, roleApproval, VDigest v1) ∈ signed s /\
         (VNetworkID v2, VEpoch v2, roleApproval, VDigest v2) ∈ signed s).
Proof.
  intros Hp V1 V2 Hne.
  destruct (verified_approvers _ _ _ _ _ V1 Hp) as (s1 & Q1 & A1), (verified_approvers _ _ _ _ _ V2 Hp) as (s2 & Q2 & A2).
  destruct (quorums_meet p _ _ s1 s2 Q1 Q2 A1 A2) as (id & I1 & I2). exists id. split_and!; [done|done|].
  destruct (Verify_succeeds _ _ _ _ _ V1 Hp) as (_ & N1 & E1 & _), (Verify_succeeds _ _ _ _ _ V2 Hp) as (_ & N2 & E2 & _).
  intros s Hs [M1 M2]. apply Hne. rewrite N1, E1 in M1. rewrite N2, E2 in M2. by eapply journal_single.
Qed.

(** The refusal does not survive every power loss.  A call that fails at the
    directory sync leaves its entry in place; the next call for the same
    descriptor finds the entry and signs without syncing it, so a power loss
    after that signature can take the entry away and the operator then signs a
    different descriptor for the same network, epoch and role. *)
Theorem journal_power_loss `{HashFunction, SignatureScheme, Calendar, EpochInputs}
  d1 d2 o identity n e h1 h2 a1 a2 :
  operatorIDPattern n = true -> embeddedIdentity d1 = Some (n, e) -> embeddedIdentity d2 = Some (n, e) ->
  Digest d1 = Ok h1 -> Digest d2 = Ok h2 -> Activate d1 o identity = Ok a1 -> Activate d2 o identity = Ok a2 ->
  exists s, signer_reachable (fun _ => True) s /\ signed s = [(n, e, roleActivation, h2); (n, e, roleActivation, h1)].
Proof.
  intros Hn I1 I2 D1 D2 A1 A2.
  set (path := journal_path n e roleActivation). set (m1 := <[path := record_entry h1]> ∅ : gmap (list byte) (list byte)).
  set (m2 := <[path := record_entry h2]> ∅ : gmap (list byte) (list byte)).
  set (env := mkJournalIO true true true). set (unsynced := mkJournalIO true true false).
  assert (signer_reachable (fun _ => True) (mkSigner (mkJournal m1 ∅) [])) as R1.
  { eapply signer_steps; [apply signer_start|]. eapply (signer_refuses_activation _ unsynced _ _ d1 o identity).
    unfold ActivateWithJournal, with_journal. rewrite I1, D1. by rewrite (record_first unsynced). }
  assert (signer_reachable (fun _ => True) (mkSigner (mkJournal m1 ∅) [(n, e, roleActivation, h1)])) as R2.
  { eapply signer_steps; [exact R1|]. eapply (signer_activates _ env); [exact I1|exact D1|].
    eapply activate_recorded; [done..|]. apply (record_again env (mkJournal m1 ∅)); [done..|]. apply lookup_insert_eq. }
  assert (signer_reachable (fun _ => True) (mkSigner (mkJournal ∅ ∅) [(n, e, roleActivation, h1)])) as R3.
  { eapply signer_steps; [exact R2|]. by apply (signer_loses_power _ (mkJournal m1 ∅)). }
  exists (mkSigner (mkJournal m2 m2) [(n, e, roleActivation, h2); (n, e, roleActivation, h1)]).
  split; [|reflexivity]. eapply signer_steps; [exact R3|].
  eapply (signer_activates _ env); [exact I2|exact D2|]. eapply activate_recorded; [done..|].
  by apply (record_first env (mkJournal ∅ ∅)).
Qed.

(** ** Examples *)

Section example.
#[local] Existing Instance example_hash.
#[local] Existing Instance example_signatures.
#[local] Existing Instance example_calendar.
#[local] Existing Instance inputs.

(** Two drafts of one epoch that differ in their retirement. *)
Definition other_draft : Descriptor := example_draft (hex_encode (replicate 32 x00)) TransitionGenesis x01 100 2000.

Definition activation_of (d : Descriptor) : option Endorsement :=
  match Activate d (example_operator 0) (example_identity 0) with Ok a => Some a | Err _ => None end.

Lemma draft_facts d : d = genesis_draft \/ d = other_draft ->
  embeddedIdentity d = Some ([x6e], 1) /\ Digest d = Ok (digest_of d) /\
  exists a, Activate d (example_operator 0) (example_identity 0) = Ok a.
Proof.
  intros Hd. assert (is_Some (activation_of d)) as [a Ha].
  { destruct Hd as [-> | ->]; apply (bool_decide_unpack _); vm_compute; exact I. }
  split_and!; [by destruct Hd as [-> | ->]; vm_compute|by destruct Hd as [-> | ->]; vm_compute|].
  exists a. unfold activation_of in Ha. destruct (Activate d _ _); by simplify_eq.
Qed.

(** The first operator activates the genesis draft, twice. *)
Lemma single_signature_witness : exists s,
  signed s = [([x6e], 1, roleActivation, digest_of genesis_draft); ([x6e], 1, roleActivation, digest_of genesis_draft)] /\
  forall h1 h2, ([x6e], 1, roleActivation, h1) ∈ signed s -> ([x6e], 1, roleActivation, h2) ∈ signed s -> h1 = h2.
Proof.
  destruct (draft_facts genesis_draft (or_introl eq_refl)) as (I & D & a & A).
  destruct (signs_twice entries_durable genesis_draft _ _ [x6e] _ _ a eq_refl I D A) as (s & R & E). exists s. split; [exact E|].
  intros h1 h2. apply (single_signature _ _ _ _ _ _ R).
Defined.

Lemma journal_power_loss_witness : digest_of genesis_draft <> digest_of other_draft /\
  exists s, signer_reachable (fun _ => True) s /\
    signed s = [([x6e], 1, roleActivation, digest_of other_draft); ([x6e], 1, roleActivation, digest_of genesis_draft)].
Proof.
  split. { apply (bool_decide_unpack _). vm_compute. exact I. }
  destruct (draft_facts genesis_draft (or_introl eq_refl)) as (I1 & D1 & a1 & A1).
  destruct (draft_facts other_draft (or_intror eq_refl)) as (I2 & D2 & a2 & A2).
  exact (journal_power_loss genesis_draft other_draft _ _ [x6e] _ _ _ a1 a2 eq_refl I1 I2 D1 D2 A1 A2).
Defined.

(** The two successors of the example chain: an operator approved both. *)
Lemma split_brain_needs_dishonest_approver_witness : exists g s c id,
  example_chain = Some (g, s, c) /\ approved g (VDigest s) id /\ approved g (VDigest c) id.
Proof.
  destruct example_chain_exists as [[[g s] c] E].
  assert (match example_chain with
          | Some (g, s, c) => (VEpoch g =? 1) && negb (bool_decide (VDigest s = VDigest c))
          | None => false end = true) as F by (vm_compute; reflexivity).
  rewrite E in F. apply andb_true_iff in F as [Fe Fd]. apply Z.eqb_eq in Fe. apply negb_true_iff, bool_decide_eq_false in Fd.
  exists g, s, c. pose proof E as E'. unfold example_chain, verified_of in E'.
  destruct (Verify [x01] [] None ∅) as [g'|] eqn:V0; [|discriminate E'].
  cbn [mbind option_bind] in E'.
  destruct (Verify [x02] [] (Some g') ∅) as [s'|] eqn:V1; [|discriminate E']. cbn [mbind option_bind] in E'.
  destruct (Verify [x03] [] (Some g') ∅) as [c'|] eqn:V2; [|discriminate E']. cbn [mbind option_bind] in E'.
  injection E' as -> -> ->.
  assert (0 < VEpoch g < 2 ^ 64) as Hg by (rewrite Fe; lia).
  destruct (split_brain_needs_dishonest_approver g _ _ _ _ _ _ s c Hg V1 V2 Fd) as (id & A1 & A2 & _).
  exists id. split; [exact E|split; [exact A1|exact A2]].
Defined.
End example.
