(* ===== verification/Mix.v ===== *)
(** Batches of ElGamal ciphertexts ([components/nomad-anytrust-mix-sim/mix/mix.go]):
    encryption of cells, the wire form of a batch, verifiable shuffles and
    decryption with one key. *)

From stdpp Require Import base list list_numbers sets strings.
From Stdlib Require Import ZArith Lia Strings.Byte.
From S2P Require Import Prelude Bytes Hash Kyber.

(** ** Constants *)

Definition WireCellSize : nat := 1200.
Definition ChunkSize : nat := 28.
Definition ChunkCount : nat := 18.
Definition PlainCellSize : nat := ChunkSize * ChunkCount.
Definition pointSize : nat := 32.
Definition cipherSize : nat := ChunkCount * 2 * pointSize.
Definition proofDomain : list byte := String.list_byte_of_string "nomad-neff-sequence-shuffle-v1".
Definition batchDomain : list byte := String.list_byte_of_string "nomad-mix-batch-v1".
Definition challengeDomain : list byte := String.list_byte_of_string "nomad-mix-sequence-challenge-v1".

Inductive mix_error :=
| ErrTooFewCells
| ErrEmbedLimit
| ErrKeyEncoding
| ErrIdentityPoint
| ErrSmallOrder
| ErrBatchDimensions
| ErrRagged
| ErrPaddingSource
| ErrPointSize
| ErrCipherSize
| ErrPadding
| ErrDecodeCell
| ErrDecryptCell
| ErrChunkLength
| ErrProofDomain
| ErrProver
| ErrEmptyProof
| ErrInputBatch (e : mix_error)
| ErrOutputBatch (e : mix_error)
| ErrBatchSize
| ErrShuffleProof
| ErrNoMixers
| ErrMixer (e : mix_error).

(** The rows of a matrix given by its entries. *)
Definition matrix {A} (f : nat -> nat -> A) (rows cols : nat) : list (list A) :=
  map (fun row => map (f row) (seq 0 cols)) (seq 0 rows).

Section mix.
Context `{HashFunction, KyberGroup}.

(** Rows are chunks, columns are cells.  The entries are never
    nil: only [Encrypt], [ParseWire] and the shuffle build batches. *)
Record Batch := mkBatch {
  batch_x : list (list point);
  batch_y : list (list point);
}.

Definition rejectSmallOrder (p : point) : result mix_error unit :=
  if bool_decide (p = Null) then Err ErrIdentityPoint
  else if bool_decide (pmul (SetInt64 8) p = Null) then Err ErrSmallOrder
  else Ok tt.

Definition publicPoint (key : list byte) : result mix_error point :=
  match unmarshal key with
  | None => Err ErrKeyEncoding
  | Some p => _ ← rejectSmallOrder p; Ok p
  end.

(** [cell[row*ChunkSize : (row+1)*ChunkSize]] *)
Definition chunk (cell : list byte) (row : nat) : list byte := slice cell (row * ChunkSize) (row * ChunkSize + ChunkSize).

(** One chunk under the key [h]; a draw is the random bytes the embedding uses
    and the scalar picked. *)
Definition encrypt_chunk (h : point) (data : list byte) (draw : list byte * scalar) : point * point :=
  let message := embed data draw.1 in
  (pmul draw.2 Base, padd message (pmul draw.2 h)).

(** The rows are filled by parallel workers, each entry from its own draw. *)
Definition Encrypt (pub : list byte) (cells : list (list byte)) (draws : nat -> nat -> list byte * scalar)
  : result mix_error Batch :=
  if len cells <? 2 then Err ErrTooFewCells
  else if EmbedLen <? Z.of_nat ChunkSize then Err ErrEmbedLimit
  else
    h ← publicPoint pub;
    let pair row col := encrypt_chunk h (chunk (default [] (cells !! col)) row) (draws row col) in
    Ok (mkBatch (matrix (fun row col => (pair row col).1) ChunkCount (length cells))
                (matrix (fun row col => (pair row col).2) ChunkCount (length cells))).

Definition Len (b : option Batch) : nat :=
  match b with
  | None => 0
  | Some b => length (hd [] (batch_x b))
  end.

(** The nil batch is [None]. *)
Definition validateBatch (b : option Batch) : result mix_error unit :=
  match b with
  | None => Err ErrBatchDimensions
  | Some b =>
      if negb (Nat.eqb (length (batch_x b)) ChunkCount) || negb (Nat.eqb (length (batch_y b)) ChunkCount) then Err ErrBatchDimensions
      else
        let columns := length (hd [] (batch_x b)) in
        if Nat.ltb columns 2 then Err ErrTooFewCells
        else if forallb (fun l => Nat.eqb (length l) columns) (batch_x b) && forallb (fun l => Nat.eqb (length l) columns) (batch_y b)
        then Ok tt else Err ErrRagged
  end.

(** The points of the batch in row order, [x] before [y]. *)
Definition digest_points (b : Batch) : list point :=
  concat (map (fun row => concat (map (fun col => [at_ (batch_x b) row col; at_ (batch_y b) row col]) (seq 0 (Len (Some b)))))
           (seq 0 ChunkCount)).

Definition BatchDigest (b : option Batch) : result mix_error (list byte) :=
  _ ← validateBatch b;
  match b with
  | None => Err ErrBatchDimensions
  | Some b => Ok (sha256 (batchDomain ++ concat (map marshal (digest_points b))))
  end.

(** Column [col] in wire order: [x] then [y], per row. *)
Definition column_points (b : Batch) (col : nat) : list point :=
  concat (map (fun row => [at_ (batch_x b) row col; at_ (batch_y b) row col]) (seq 0 ChunkCount)).

(** A wire cell: its points and then padding read from the source.  The result
    carries what is left of the source. *)
Definition marshal_cell (points : list point) (padding : list byte) : result mix_error (list byte * list byte) :=
  if negb (forallb (fun p => Nat.eqb (length (marshal p)) pointSize) points) then Err ErrPointSize
  else
    let encoded := concat (map marshal points) in
    if negb (Nat.eqb (length encoded) cipherSize) then Err ErrCipherSize
    else if Nat.ltb (length padding) (WireCellSize - cipherSize) then Err ErrPadding
    else Ok (encoded ++ take (WireCellSize - cipherSize) padding, drop (WireCellSize - cipherSize) padding).

Fixpoint marshal_cells (b : Batch) (columns : list nat) (padding : list byte) : result mix_error (list (list byte)) :=
  match columns with
  | [] => Ok []
  | col :: columns =>
      cp ← marshal_cell (column_points b col) padding;
      cells ← marshal_cells b columns cp.2;
      Ok (cp.1 :: cells)
  end.

(** The padding source is the bytes it will yield; [None] is a nil reader. *)
Definition MarshalWireWithPadding (b : option Batch) (padding : option (list byte)) : result mix_error (list (list byte)) :=
  _ ← validateBatch b;
  match b, padding with
  | Some b, Some padding => marshal_cells b (seq 0 (Len (Some b))) padding
  | _, _ => Err ErrPaddingSource
  end.

Definition parse_cell (cell : list byte) : result mix_error (list point) :=
  collect (fun k => match unmarshal (slice cell (k * pointSize) (k * pointSize + pointSize)) with
                    | Some p => Ok p
                    | None => Err ErrDecodeCell
                    end) (seq 0 (2 * ChunkCount)).

Definition ParseWire (cells : list (list byte)) : result mix_error Batch :=
  if len cells <? 2 then Err ErrTooFewCells
  else
    columns ← collect parse_cell cells;
    let b := mkBatch (matrix (fun row col => at_ columns col (2 * row)) ChunkCount (length cells))
                     (matrix (fun row col => at_ columns col (2 * row + 1)) ChunkCount (length cells)) in
    _ ← validateBatch (Some b);
    Ok b.

Definition GenerateKey (secret : scalar) : list byte * list byte := (marshal (pmul secret Base), smarshal secret).

(** The chunk under a mask. *)
Definition open_chunk (shared py : point) : result mix_error (list byte) :=
  match point_data (psub py shared) with
  | None => Err ErrDecryptCell
  | Some data => if negb (Nat.eqb (length data) ChunkSize) then Err ErrChunkLength else Ok data
  end.

(** What one key makes of a ciphertext pair. *)
Definition decrypt_chunk (secret : scalar) (px py : point) : result mix_error (list byte) :=
  open_chunk (pmul secret px) py.

Definition decrypt_cell (secret : scalar) (b : Batch) (col : nat) : result mix_error (list byte) :=
  chunks ← collect (fun row => decrypt_chunk secret (at_ (batch_x b) row col) (at_ (batch_y b) row col)) (seq 0 ChunkCount);
  Ok (concat chunks).

Definition Decrypt (priv : list byte) (b : option Batch) : result mix_error (list (list byte)) :=
  _ ← validateBatch b;
  match b, sunmarshal priv with
  | Some b, Some secret => collect (decrypt_cell secret b) (seq 0 (Len (Some b)))
  | _, _ => Err ErrKeyEncoding
  end.

(** One cell without a batch.  The draws are those of its rows. *)
Definition encryptCellWithPadding (pub cell : list byte) (draws : nat -> list byte * scalar) (padding : option (list byte))
  : result mix_error (list byte) :=
  match padding with
  | None => Err ErrPaddingSource
  | Some padding =>
      if EmbedLen <? Z.of_nat ChunkSize then Err ErrEmbedLimit
      else
        h ← publicPoint pub;
        let rows := map (fun row => encrypt_chunk h (chunk cell row) (draws row)) (seq 0 ChunkCount) in
        cp ← marshal_cell (concat (map (fun pair => [pair.1; pair.2]) rows)) padding;
        Ok cp.1
  end.

(** A batch that [validateBatch] accepts, with its number of columns. *)
Definition batch_wf (b : Batch) (n : nat) : Prop :=
  (2 <= n)%nat /\ rectangular ChunkCount n (batch_x b) /\ rectangular ChunkCount n (batch_y b).
End mix.

Section shuffle.
Context `{HashFunction, KyberGroup, !Shuffles}.

Definition sequenceChallenges (pub : list byte) (inp out : option Batch) : result mix_error (list scalar) :=
  inDigest ← BatchDigest inp;
  outDigest ← BatchDigest out;
  Ok (pick_challenges (sha256 (challengeDomain ++ pub ++ inDigest ++ outDigest)) ChunkCount).

(** [r] is what the suite's random stream yields. *)
Definition shuffleAndProveWithDomain (pub : list byte) (inp : option Batch) (domain r : list byte)
  : result mix_error (Batch * list byte) :=
  _ ← validateBatch inp;
  if bool_decide (domain = []) then Err ErrProofDomain
  else
    h ← publicPoint pub;
    match inp with
    | None => Err ErrBatchDimensions
    | Some b =>
        let '(x', y') := SequencesShuffle h (batch_x b) (batch_y b) r in
        let out := mkBatch x' y' in
        challenges ← sequenceChallenges pub inp (Some out);
        match shuffle_prove domain h (batch_x b) (batch_y b) challenges r with
        | None => Err ErrProver
        | Some proof => Ok (out, proof)
        end
    end.

Definition ShuffleAndProve (pub : list byte) (inp : option Batch) (r : list byte) : result mix_error (Batch * list byte) :=
  shuffleAndProveWithDomain pub inp proofDomain r.

Definition verifyShuffleWithDomain (pub : list byte) (inp out : option Batch) (proof domain : list byte)
  : result mix_error unit :=
  if bool_decide (proof = []) then Err ErrEmptyProof
  else if bool_decide (domain = []) then Err ErrProofDomain
  else
    _ ← wrap ErrInputBatch (validateBatch inp);
    _ ← wrap ErrOutputBatch (validateBatch out);
    if negb (Nat.eqb (Len inp) (Len out)) then Err ErrBatchSize
    else
      h ← publicPoint pub;
      challenges ← sequenceChallenges pub inp out;
      match inp, out with
      | Some b, Some b' =>
          if shuffle_verify domain h (batch_x b) (batch_y b) (batch_x b') (batch_y b') challenges proof
          then Ok tt else Err ErrShuffleProof
      | _, _ => Err ErrBatchDimensions
      end.

Definition VerifyShuffle (pub : list byte) (inp out : option Batch) (proof : list byte) : result mix_error unit :=
  verifyShuffleWithDomain pub inp out proof proofDomain.

Record Round := mkRound {
  Input : option Batch;
  Output : option Batch;
  ShuffleProof : list byte;
}.

(** One shuffle per mixer, each proof checked before the next; the mixers'
    random bytes are given in order. *)
Fixpoint committee_rounds (pub : list byte) (current : option Batch) (rs : list (list byte))
  : result mix_error (option Batch * list Round) :=
  match rs with
  | [] => Ok (current, [])
  | r :: rs =>
      op ← wrap ErrMixer (ShuffleAndProve pub current r);
      let output := Some (fst op) in
      _ ← wrap ErrMixer (VerifyShuffle pub current output (snd op));
      rest ← committee_rounds pub output rs;
      Ok (fst rest, mkRound current output (snd op) :: snd rest)
  end.

Definition CommitteeMix (pub : list byte) (input : option Batch) (rs : list (list byte))
  : result mix_error (option Batch * list Round) :=
  if len rs <? 1 then Err ErrNoMixers else committee_rounds pub input rs.
End shuffle.

(** ** Matrices *)

Section matrices.
Context `{KyberGroup}.

Lemma matrix_rectangular {A} (f : nat -> nat -> A) rows cols : rectangular rows cols (matrix f rows cols).
Proof.
  unfold rectangular, matrix. split; [by rewrite length_map, length_seq|].
  apply Forall_forall. intros l (row & -> & _)%list_elem_of_fmap. by rewrite length_map, length_seq.
Qed.

Lemma at_matrix f rows cols row col : (row < rows)%nat -> (col < cols)%nat -> at_ (matrix f rows cols) row col = f row col.
Proof.
  intros Hr Hc. unfold at_, matrix. rewrite list_lookup_fmap, lookup_seq_lt by done. cbn [fmap option_fmap option_map].
  cbn [mbind option_bind]. by rewrite list_lookup_fmap, lookup_seq_lt by done.
Qed.

Lemma at_lookup (m : list (list point)) row col l p : m !! row = Some l -> l !! col = Some p -> at_ m row col = p.
Proof. intros Hl Hp. unfold at_. rewrite Hl. cbn [mbind option_bind]. by rewrite Hp. Qed.

(** Matrices of one shape are equal when their entries are. *)
Lemma rectangular_eq (m1 m2 : list (list point)) rows cols : rectangular rows cols m1 -> rectangular rows cols m2 ->
  (forall row col, (row < rows)%nat -> (col < cols)%nat -> at_ m1 row col = at_ m2 row col) -> m1 = m2.
Proof.
  intros [L1 F1] [L2 F2] Hat. apply list_eq_same_length with rows; [done|done|]. intros row l1 l2 Hrow H1 H2.
  rewrite Forall_lookup in F1, F2. apply list_eq_same_length with cols; [by eapply F2|by eapply F1|].
  intros col p q Hcol Hp Hq. specialize (Hat row col Hrow Hcol). unfold at_ in Hat. rewrite H1, H2 in Hat.
  cbn [mbind option_bind] in Hat. by rewrite Hp, Hq in Hat.
Qed.

Lemma lookup_concat (m : list (list point)) rows cols row col : rectangular rows cols m -> (row < rows)%nat ->
  (col < cols)%nat -> concat m !! (row * cols + col)%nat = Some (at_ m row col).
Proof.
  intros [Hl Hf] Hr Hc. subst rows. revert row Hr. induction m as [|l m IH]; intros row Hr; [simpl in Hr; lia|].
  apply Forall_cons in Hf as [Hlen Hf]. cbn [concat]. destruct row as [|row].
  - rewrite lookup_app_l by (simpl; lia). destruct (lookup_lt_is_Some_2 l col) as [p Hp]; [lia|].
    rewrite Nat.mul_0_l, Nat.add_0_l, Hp. f_equal. symmetry. by eapply at_lookup.
  - rewrite lookup_app_r by (rewrite Hlen; simpl; lia).
    replace (S row * cols + col - length l)%nat with (row * cols + col)%nat by (rewrite Hlen; simpl; lia).
    rewrite IH by (done || (simpl in Hr; lia)). done.
Qed.

Lemma length_concat_rect {A} (m : list (list A)) rows cols : rectangular rows cols m -> length (concat m) = (rows * cols)%nat.
Proof.
  intros [Hl Hf]. subst rows. induction m as [|l m IH]; [done|]. apply Forall_cons in Hf as [Hlen Hf].
  cbn [concat length]. rewrite length_app, IH, Hlen by done. lia.
Qed.
End matrices.

Section batches.
Context `{HashFunction, KyberGroup}.

Lemma Len_wf b n : batch_wf b n -> Len (Some b) = n.
Proof.
  intros (_ & [Hl Hf] & _). unfold Len. destruct (batch_x b) as [|l m]; [done|]. by apply Forall_cons in Hf as [? _].
Qed.

Lemma validateBatch_ok b : validateBatch (Some b) = Ok tt <-> exists n, batch_wf b n.
Proof.
  split.
  - unfold validateBatch. destruct (_ || _) eqn:Hd; [done|]. apply orb_false_iff in Hd as [Hx Hy].
    apply negb_false_iff, Nat.eqb_eq in Hx, Hy. destruct (Nat.ltb _ 2) eqn:H2; [done|]. apply Nat.ltb_ge in H2.
    destruct (_ && _) eqn:Hr; [|done]. intros _. apply andb_true_iff in Hr as [Rx Ry].
    exists (length (hd [] (batch_x b))). rewrite forallb_forall in Rx, Ry.
    split_and!; [done|split; [done|]|split; [done|]]; apply Forall_forall; intros l Hl; apply Nat.eqb_eq;
      [apply Rx|apply Ry]; by apply list_elem_of_In.
  - intros [n Hb]. pose proof (Len_wf b n Hb) as Hn. destruct Hb as (H2 & [Lx Fx] & [Ly Fy]).
    unfold validateBatch. rewrite Lx, Ly, !Nat.eqb_refl. cbn [negb orb]. unfold Len in Hn. rewrite Hn.
    destruct (Nat.ltb n 2) eqn:E; [apply Nat.ltb_lt in E; lia|].
    rewrite Forall_forall in Fx, Fy. rewrite !(proj2 (forallb_forall _ _)); [done|..]; intros l Hl;
      apply Nat.eqb_eq; [apply Fy|apply Fx]; by apply list_elem_of_In.
Qed.

Lemma batch_eq b1 b2 n : batch_wf b1 n -> batch_wf b2 n ->
  (forall row col, (row < ChunkCount)%nat -> (col < n)%nat ->
     at_ (batch_x b1) row col = at_ (batch_x b2) row col /\ at_ (batch_y b1) row col = at_ (batch_y b2) row col) -> b1 = b2.
Proof.
  intros (_ & X1 & Y1) (_ & X2 & Y2) Hat. destruct b1 as [x1 y1], b2 as [x2 y2]. simpl in *.
  f_equal; eapply rectangular_eq; try done; intros row col Hr Hc; by apply Hat.
Qed.

(** ** The wire form *)

Lemma length_points l : length (concat (map marshal l)) = (pointSize * length l)%nat.
Proof. induction l as [|p l IH]; simpl; [done|]. rewrite length_app, length_marshal, IH. unfold pointSize. lia. Qed.

Lemma parse_cell_points points rest : length points = (2 * ChunkCount)%nat ->
  parse_cell (concat (map marshal points) ++ rest) = Ok points.
Proof.
  intros Hl. apply collect_ok. apply Forall2_same_length_lookup_2; [by rewrite length_seq|].
  intros i k p Hk Hp. apply lookup_seq in Hk as [-> _]. simpl.
  assert (slice (concat (map marshal points) ++ rest) (i * pointSize) (i * pointSize + pointSize) = marshal p) as ->.
  { rewrite <- (take_drop_middle _ _ _ Hp), map_app, concat_app. cbn [map concat]. rewrite <- !app_assoc.
    apply slice_app_at; [|rewrite length_marshal; unfold pointSize; lia].
    apply lookup_lt_Some in Hp. rewrite length_points, length_take. unfold pointSize. lia. }
  by rewrite unmarshal_marshal.
Qed.

Lemma length_pairs {A} (f : nat -> A) (g : nat -> A) l : length (concat (map (fun i => [f i; g i]) l)) = (2 * length l)%nat.
Proof. induction l as [|i l IH]; simpl in *; lia. Qed.

Lemma lookup_pairs {A} (f g : nat -> A) n row : (row < n)%nat ->
  concat (map (fun i => [f i; g i]) (seq 0 n)) !! (2 * row)%nat = Some (f row) /\
  concat (map (fun i => [f i; g i]) (seq 0 n)) !! (2 * row + 1)%nat = Some (g row).
Proof.
  intros Hr. assert (seq 0 n = seq 0 row ++ row :: seq (S row) (n - S row)) as ->.
  { replace n with (row + S (n - S row))%nat at 1 by lia. by rewrite seq_app. }
  rewrite map_app, concat_app. cbn [map concat].
  pose proof (length_pairs f g (seq 0 row)) as Hl. rewrite length_seq in Hl.
  split; rewrite lookup_app_r by lia; rewrite Hl; [by replace (2 * row - 2 * row)%nat with 0%nat by lia|].
  by replace (2 * row + 1 - 2 * row)%nat with 1%nat by lia.
Qed.

(** Marshalling a cell never fails but for a padding source that runs dry. *)
Lemma marshal_cell_ok points padding : length points = (2 * ChunkCount)%nat ->
  (WireCellSize - cipherSize <= length padding)%nat ->
  marshal_cell points padding =
    Ok (concat (map marshal points) ++ take (WireCellSize - cipherSize) padding, drop (WireCellSize - cipherSize) padding).
Proof.
  intros Hl Hp. unfold marshal_cell.
  rewrite (proj2 (forallb_forall _ _)) by (intros p _; by rewrite length_marshal).
  rewrite length_points, Hl. change (Nat.eqb (pointSize * (2 * ChunkCount)) cipherSize) with true. cbn [negb].
  destruct (Nat.ltb _ _) eqn:E; [|done]. apply Nat.ltb_lt in E. lia.
Qed.

Lemma marshal_cells_ok b columns padding : (length columns * (WireCellSize - cipherSize) <= length padding)%nat ->
  exists cells, marshal_cells b columns padding = Ok cells /\
    Forall2 (fun col cell => length cell = WireCellSize /\ parse_cell cell = Ok (column_points b col)) columns cells.
Proof.
  revert padding. induction columns as [|col columns IH]; intros padding Hp; [exists []; split; [done|constructor]|].
  assert (length (column_points b col) = (2 * ChunkCount)%nat) as Hl by (unfold column_points; by rewrite length_pairs, length_seq).
  change (WireCellSize - cipherSize)%nat with 48%nat in *. cbn [length] in Hp. cbn [marshal_cells].
  rewrite marshal_cell_ok by (done || (change (WireCellSize - cipherSize)%nat with 48%nat; lia)). cbn [mbind result_bind fst snd].
  change (WireCellSize - cipherSize)%nat with 48%nat.
  destruct (IH (drop 48 padding)) as (cells & -> & Hc); [rewrite length_drop; lia|].
  cbn [mbind result_bind]. eexists. split; [done|]. constructor; [|done]. split; [|by apply parse_cell_points].
  rewrite length_app, length_points, length_take, Hl.
  change (pointSize * (2 * ChunkCount))%nat with 1152%nat. unfold WireCellSize. lia.
Qed.

(** Parsing cells whose columns are known. *)
Lemma ParseWire_columns b n cells : batch_wf b n ->
  Forall2 (fun col cell => parse_cell cell = Ok (column_points b col)) (seq 0 n) cells -> ParseWire cells = Ok b.
Proof.
  intros Hb Hc. pose proof (Forall2_length _ _ _ Hc) as Hl. rewrite length_seq in Hl.
  assert (2 <= n)%nat as H2 by apply Hb. unfold ParseWire.
  destruct (len cells <? 2) eqn:E; [reflect_bools; lia|].
  assert (collect parse_cell cells = Ok (map (column_points b) (seq 0 n))) as ->.
  { apply collect_ok. apply Forall2_flip in Hc. rewrite <- (map_id cells). apply Forall2_fmap.
    eapply Forall2_impl; [exact Hc|]. done. }
  cbn [mbind result_bind].
  assert (forall row col, (row < ChunkCount)%nat -> (col < n)%nat ->
    at_ (map (column_points b) (seq 0 n)) col (2 * row) = at_ (batch_x b) row col /\
    at_ (map (column_points b) (seq 0 n)) col (2 * row + 1) = at_ (batch_y b) row col) as Hat.
  { intros row col Hrow Hcol.
    assert (map (column_points b) (seq 0 n) !! col = Some (column_points b col)) as Hm
      by (by rewrite list_lookup_fmap, lookup_seq_lt by done).
    destruct (lookup_pairs (fun row => at_ (batch_x b) row col) (fun row => at_ (batch_y b) row col) ChunkCount row Hrow).
    split; by eapply at_lookup. }
  set (b' := mkBatch _ _). assert (batch_wf b' n) as Hb'.
  { unfold b'. rewrite <- Hl. split_and!; [lia|apply matrix_rectangular|apply matrix_rectangular]. }
  rewrite (proj2 (validateBatch_ok b')) by eauto. cbn [mbind result_bind]. f_equal.
  apply (batch_eq b' b n); [done|done|]. intros row col Hr Hcol. unfold b'. cbn [batch_x batch_y].
  rewrite !at_matrix by lia. by apply Hat.
Qed.

(** ** Encryption *)

Lemma Encrypt_ok pub cells draws b : Encrypt pub cells draws = Ok b ->
  exists h, publicPoint pub = Ok h /\ Z.of_nat ChunkSize <= EmbedLen /\ batch_wf b (length cells) /\
    forall row col, (row < ChunkCount)%nat -> (col < length cells)%nat ->
      (at_ (batch_x b) row col, at_ (batch_y b) row col) =
      encrypt_chunk h (chunk (default [] (cells !! col)) row) (draws row col).
Proof.
  unfold Encrypt. destruct (len cells <? 2) eqn:E2; [done|]. destruct (EmbedLen <? _) eqn:Ee; [done|].
  destruct (publicPoint pub) as [h|] eqn:Eh; [|done]. cbn [mbind result_bind]. intros [= <-]. reflect_bools.
  exists h. split_and!; [done|done| |].
  - split_and!; [lia|apply matrix_rectangular|apply matrix_rectangular].
  - intros row col Hr Hc. cbn [batch_x batch_y]. rewrite !at_matrix by done. symmetry. apply surjective_pairing.
Qed.

Lemma length_chunk cell row : length cell = PlainCellSize -> (row < ChunkCount)%nat -> length (chunk cell row) = ChunkSize.
Proof. intros Hc Hr. unfold chunk. rewrite length_slice; unfold PlainCellSize, ChunkCount, ChunkSize in *; lia. Qed.

Lemma concat_chunks cell n : concat (map (chunk cell) (seq 0 n)) = take (n * ChunkSize) cell.
Proof.
  induction n as [|n IH]; [done|]. rewrite seq_S, map_app, concat_app, IH. cbn [map concat].
  rewrite app_nil_r. unfold chunk, slice. rewrite Nat.add_0_l.
  replace (n * ChunkSize + ChunkSize - n * ChunkSize)%nat with ChunkSize by lia.
  rewrite take_take_drop. f_equal. lia.
Qed.

Lemma decrypt_encrypt_chunk s data draw : length data = ChunkSize -> Z.of_nat ChunkSize <= EmbedLen ->
  decrypt_chunk s (encrypt_chunk (pmul s Base) data draw).1 (encrypt_chunk (pmul s Base) data draw).2 = Ok data.
Proof.
  intros Hd He. unfold decrypt_chunk, open_chunk, encrypt_chunk. cbn [fst snd]. rewrite unmask, data_embed by lia.
  by rewrite Hd, Nat.eqb_refl.
Qed.

(** Every cell of an encrypted batch decrypts to itself under the key. *)
Lemma decrypt_cell_encrypted s pub cells draws b col : publicPoint pub = Ok (pmul s Base) ->
  Encrypt pub cells draws = Ok b -> Forall (fun c => length c = PlainCellSize) cells -> (col < length cells)%nat ->
  decrypt_cell s b col = Ok (default [] (cells !! col)).
Proof.
  intros Hp Hb Hc Hcol. destruct (Encrypt_ok _ _ _ _ Hb) as (h & Eh & He & _ & Hat).
  rewrite Hp in Eh. apply (inj Ok) in Eh as <-. unfold decrypt_cell.
  destruct (lookup_lt_is_Some_2 cells col Hcol) as [cell Hcell]. rewrite Forall_lookup in Hc. specialize (Hc _ _ Hcell).
  rewrite Hcell. change (default [] (Some cell)) with cell.
  assert (collect (fun row => decrypt_chunk s (at_ (batch_x b) row col) (at_ (batch_y b) row col)) (seq 0 ChunkCount)
    = Ok (map (chunk cell) (seq 0 ChunkCount))) as ->.
  { rewrite <- (collect_total (E := mix_error)). apply collect_ext. intros row Hrow%elem_of_seq.
    assert (row < ChunkCount)%nat as Hr by lia. specialize (Hat row col Hr Hcol). rewrite Hcell in Hat.
    change (default [] (Some cell)) with cell in Hat.
    pose proof (decrypt_encrypt_chunk s (chunk cell row) (draws row col) (length_chunk cell row Hc Hr) He) as Hd.
    rewrite <- Hat in Hd. exact Hd. }
  cbn [mbind result_bind]. f_equal. rewrite concat_chunks. apply take_ge. rewrite Hc. unfold PlainCellSize. lia.
Qed.

Lemma map_lookup_seq {A} (l : list (list A)) : map (fun i => default [] (l !! i)) (seq 0 (length l)) = l.
Proof.
  apply list_eq. intros i. destruct (decide (i < length l)%nat) as [Hi|Hi].
  - rewrite list_lookup_fmap, lookup_seq_lt by done. cbn [fmap option_fmap option_map]. simpl.
    by destruct (lookup_lt_is_Some_2 l i Hi) as [c ->].
  - rewrite !(proj2 (lookup_ge_None _ _)); [done|lia|rewrite length_map, length_seq; lia].
Qed.
End batches.

(** A batch survives the wire: marshalled with whatever padding, it is one cell
    of exactly 1200 bytes per column, and parsing the cells gives the batch back. *)
Theorem wire_roundtrip `{HashFunction, KyberGroup} b n padding :
  batch_wf b n -> (48 * n <= length padding)%nat ->
  exists cells, MarshalWireWithPadding (Some b) (Some padding) = Ok cells /\ length cells = n /\
    Forall (fun c => length c = WireCellSize) cells /\ ParseWire cells = Ok b.
Proof.
  intros Hb Hp. unfold MarshalWireWithPadding. rewrite (proj2 (validateBatch_ok b)) by eauto. cbn [mbind result_bind].
  rewrite (Len_wf b n Hb).
  destruct (marshal_cells_ok b (seq 0 n) padding) as (cells & -> & Hc).
  { rewrite length_seq. change (WireCellSize - cipherSize)%nat with 48%nat. lia. }
  exists cells. split_and!; [done| | |].
  - apply Forall2_length in Hc. by rewrite length_seq in Hc.
  - apply Forall2_flip in Hc. eapply Forall2_Forall_l in Hc; [exact Hc|]. apply Forall_forall. by intros ? _ ? [].
  - eapply ParseWire_columns; [done|]. eapply Forall2_impl; [exact Hc|]. by intros ? ? [].
Qed.

(** Decryption inverts encryption: under any key that passes the small-order
    check, whatever the random draws, every cell comes back. *)
Theorem decrypt_encrypt `{HashFunction, KyberGroup} s cells draws b :
  Forall (fun c => length c = PlainCellSize) cells -> publicPoint (GenerateKey s).1 = Ok (pmul s Base) ->
  Encrypt (GenerateKey s).1 cells draws = Ok b -> Decrypt (GenerateKey s).2 (Some b) = Ok cells.
Proof.
  intros Hc Hp Hb. destruct (Encrypt_ok _ _ _ _ Hb) as (_ & _ & _ & Hwf & _). unfold Decrypt.
  rewrite (proj2 (validateBatch_ok b)) by eauto. cbn [mbind result_bind]. simpl snd. rewrite sunmarshal_smarshal.
  rewrite (Len_wf b _ Hwf). rewrite <- (map_lookup_seq cells) at 2. rewrite <- (collect_total (E := mix_error)).
  apply collect_ext. intros col Hcol%elem_of_seq. eapply decrypt_cell_encrypted; [done|done|done|lia].
Qed.

Section single_cells.
Context `{HashFunction, KyberGroup}.

Definition wire_column (b : Batch) (col : nat) (padding : list byte) : list byte :=
  concat (map marshal (column_points b col)) ++ take (WireCellSize - cipherSize) padding.

Lemma length_column_points b col : length (column_points b col) = (2 * ChunkCount)%nat.
Proof. unfold column_points. by rewrite length_pairs, length_seq. Qed.

Lemma encryptCell_column pub cells draws b col padding : Encrypt pub cells draws = Ok b -> (col < length cells)%nat ->
  (WireCellSize - cipherSize <= length padding)%nat ->
  encryptCellWithPadding pub (default [] (cells !! col)) (fun row => draws row col) (Some padding)
  = Ok (wire_column b col padding).
Proof.
  intros Hb Hcol Hp. destruct (Encrypt_ok _ _ _ _ Hb) as (h & Hh & He & _ & Hat).
  unfold encryptCellWithPadding. destruct (EmbedLen <? _) eqn:E; [reflect_bools; lia|]. rewrite Hh. cbn [mbind result_bind].
  rewrite map_map.
  assert (forall row, row ∈ seq 0 ChunkCount ->
    (fun row => let p := encrypt_chunk h (chunk (default [] (cells !! col)) row) (draws row col) in [p.1; p.2]) row =
    (fun row => [at_ (batch_x b) row col; at_ (batch_y b) row col]) row) as Hext.
  { intros row Hrow%elem_of_seq. cbv beta zeta. rewrite <- Hat by lia. done. }
  assert (concat (map (fun row => let p := encrypt_chunk h (chunk (default [] (cells !! col)) row) (draws row col) in [p.1; p.2])
    (seq 0 ChunkCount)) = column_points b col) as Hpts.
  { unfold column_points. f_equal. apply map_ext_in. intros row Hrow. apply Hext. by apply list_elem_of_In. }
  cbv zeta in Hpts. rewrite Hpts. rewrite marshal_cell_ok by (done || apply length_column_points). done.
Qed.

Lemma marshal_cells_columns b columns paddings : (forall col, (WireCellSize - cipherSize <= length (paddings col))%nat) ->
  marshal_cells b columns (concat (map (fun col => take (WireCellSize - cipherSize) (paddings col)) columns)) =
  Ok (map (fun col => wire_column b col (paddings col)) columns).
Proof.
  intros Hp. induction columns as [|col columns IH]; [done|]. cbn [map concat marshal_cells].
  set (w := (WireCellSize - cipherSize)%nat) in *. assert (length (take w (paddings col)) = w) as Hw
    by (rewrite length_take; specialize (Hp col); lia).
  rewrite marshal_cell_ok; [|apply length_column_points|rewrite length_app; fold w; lia].
  cbn [mbind result_bind fst snd]. fold w. rewrite take_app_exact, drop_app_exact, IH by done. cbn [mbind result_bind].
  unfold wire_column. fold w. done.
Qed.
End single_cells.

(** Cells encrypted one at a time compose: with the draws a batch would use, the
    individually encrypted cells are byte for byte the wire form of that batch,
    and parsing them yields the batch. *)
Theorem encrypt_cell_composes `{HashFunction, KyberGroup} pub cells draws b (paddings : nat -> list byte) :
  Encrypt pub cells draws = Ok b -> (forall col, (48 <= length (paddings col))%nat) ->
  exists wires,
    collect (fun col => encryptCellWithPadding pub (default [] (cells !! col)) (fun row => draws row col) (Some (paddings col)))
      (seq 0 (length cells)) = Ok wires /\
    MarshalWireWithPadding (Some b) (Some (concat (map (fun col => take 48 (paddings col)) (seq 0 (length cells))))) = Ok wires /\
    ParseWire wires = Ok b.
Proof.
  intros Hb Hp. destruct (Encrypt_ok _ _ _ _ Hb) as (_ & _ & _ & Hwf & _).
  exists (map (fun col => wire_column b col (paddings col)) (seq 0 (length cells))). split_and!.
  - rewrite <- (collect_total (E := mix_error)). apply collect_ext. intros col Hcol%elem_of_seq.
    apply encryptCell_column; [done|lia|apply Hp].
  - unfold MarshalWireWithPadding. rewrite (proj2 (validateBatch_ok b)) by eauto. cbn [mbind result_bind].
    rewrite (Len_wf b _ Hwf). apply (marshal_cells_columns b _ paddings Hp).
  - eapply ParseWire_columns; [done|]. apply Forall2_fmap_r. apply Forall_Forall2_diag. apply Forall_forall.
    intros col _. apply parse_cell_points, length_column_points.
Qed.

(** ** Shuffles *)

Section shuffling.
Context `{HashFunction, KyberGroup, !Shuffles}.

(** What an accepted round means for the holder of the key: the cells it would
    decrypt are those of the input, in another order. *)
Definition plain_cells (s : scalar) (b : Batch) (n : nat) : list (result mix_error (list byte)) :=
  map (decrypt_cell s b) (seq 0 n).

(** The columns of [b'] are those of [b] in another order: each decrypts alike,
    and stays honestly formed if it was. *)
Definition mixes (s : scalar) (n : nat) (b b' : Batch) : Prop :=
  exists perm : list nat, perm ≡ₚ seq 0 n /\ forall j i, perm !! j = Some i ->
    decrypt_cell s b' j = decrypt_cell s b i /\
    ((forall row, (row < ChunkCount)%nat -> prime_order (at_ (batch_x b) row i)) ->
     forall row, (row < ChunkCount)%nat -> prime_order (at_ (batch_x b') row j)).

Lemma mixes_refl s n b : mixes s n b b.
Proof. exists (seq 0 n). split; [done|]. intros j i [-> _]%lookup_seq. done. Qed.

Lemma mixes_trans s n b1 b2 b3 : mixes s n b1 b2 -> mixes s n b2 b3 -> mixes s n b1 b3.
Proof.
  intros (p1 & P1 & M1) (p2 & P2 & M2). exists (map (fun k => default 0%nat (p1 !! k)) p2).
  assert (length p1 = n) as L1 by (by rewrite P1, length_seq). split.
  - rewrite P2. assert (map (fun k => default 0%nat (p1 !! k)) (seq 0 n) = p1) as ->; [|done].
    apply list_eq_same_length with n; [done|by rewrite length_map, length_seq|]. intros k u v Hk Hu Hv.
    apply map_lookup_Some_1 in Hu as (k' & Hk' & ->). apply lookup_seq in Hk' as [-> _]. simpl. by rewrite Hv.
  - intros j i Hj. apply map_lookup_Some_1 in Hj as (k & Hk & ->).
    assert (k < n)%nat as Hkn.
    { assert (k ∈ p2) as Hin by (by eapply list_elem_of_lookup_2). rewrite P2 in Hin. apply elem_of_seq in Hin. lia. }
    destruct (lookup_lt_is_Some_2 p1 k) as [i' Hi']; [lia|]. rewrite Hi'. simpl.
    destruct (M1 k i' Hi') as [D1 H1'], (M2 j k Hk) as [D2 H2']. split; [congruence|eauto].
Qed.

Lemma mixes_plain s n b b' : mixes s n b b' -> plain_cells s b' n ≡ₚ plain_cells s b n.
Proof.
  intros (perm & Hperm & Hm). unfold plain_cells. rewrite <- Hperm at 2.
  assert (length perm = n) as Hl by (by rewrite Hperm, length_seq).
  assert (map (decrypt_cell s b') (seq 0 n) = map (decrypt_cell s b) perm) as ->; [|done].
  apply list_eq_same_length with n; [by rewrite length_map|by rewrite length_map, length_seq|].
  intros j r1 r2 Hj L1 L2. apply map_lookup_Some_1 in L1 as (j' & Hj' & ->), L2 as (i & Hi & ->).
  apply lookup_seq in Hj' as [-> _]. by apply Hm.
Qed.

Lemma reencrypts_mixes s b b' n :
  reencrypts (pmul s Base) ChunkCount n (batch_x b) (batch_y b) (batch_x b') (batch_y b') -> mixes s n b b'.
Proof.
  intros (perm & beta & Hperm & Hat). exists perm. split; [done|]. intros j i Hi. split.
  - unfold decrypt_cell. erewrite collect_ext; [reflexivity|]. intros row Hrow%elem_of_seq. cbv beta.
    destruct (Hat row j i ltac:(lia) Hi) as [-> ->]. unfold decrypt_chunk, open_chunk. by rewrite unmask_rerandomised.
  - intros Hp row Hrow. destruct (Hat row j i Hrow Hi) as [-> _]. apply prime_order_padd; [by apply Hp|apply prime_order_base].
Qed.

Lemma reencrypts_plain s b b' n :
  reencrypts (pmul s Base) ChunkCount n (batch_x b) (batch_y b) (batch_x b') (batch_y b') ->
  plain_cells s b' n ≡ₚ plain_cells s b n.
Proof. intros Hr. by apply mixes_plain, reencrypts_mixes. Qed.

Lemma encrypted_plain s pub cells draws b : publicPoint pub = Ok (pmul s Base) -> Encrypt pub cells draws = Ok b ->
  Forall (fun c => length c = PlainCellSize) cells -> plain_cells s b (length cells) = map Ok cells.
Proof.
  intros Hp Hb Hc. unfold plain_cells. rewrite <- (map_lookup_seq cells) at 2. rewrite map_map. apply map_ext_in.
  intros col Hcol%list_elem_of_In%elem_of_seq. eapply decrypt_cell_encrypted; [done|done|done|lia].
Qed.

Lemma BatchDigest_ok b n : batch_wf b n ->
  BatchDigest (Some b) = Ok (sha256 (batchDomain ++ concat (map marshal (digest_points b)))).
Proof. intros Hb. unfold BatchDigest. by rewrite (proj2 (validateBatch_ok b)) by eauto. Qed.

(** The work of a mixer that follows the protocol: it never fails on a valid
    batch and key, its proof is accepted and its output re-encrypts the input. *)
Lemma honest_shuffle pub h b n domain r : batch_wf b n -> publicPoint pub = Ok h -> domain <> [] ->
  exists b' proof, shuffleAndProveWithDomain pub (Some b) domain r = Ok (b', proof) /\ batch_wf b' n /\
    verifyShuffleWithDomain pub (Some b) (Some b') proof domain = Ok tt /\
    reencrypts h ChunkCount n (batch_x b) (batch_y b) (batch_x b') (batch_y b').
Proof.
  intros Hb Hh Hd. pose proof Hb as (H2 & Hx & Hy).
  destruct (shuffle_shape h (batch_x b) (batch_y b) r _ _ Hx Hy) as [Sx Sy].
  destruct (SequencesShuffle h (batch_x b) (batch_y b) r) as [x' y'] eqn:Es. cbn [fst snd] in Sx, Sy.
  set (b' := mkBatch x' y'). assert (batch_wf b' n) as Hb' by (split_and!; done).
  unfold shuffleAndProveWithDomain, verifyShuffleWithDomain, sequenceChallenges.
  rewrite (proj2 (validateBatch_ok b)) by eauto. cbn [mbind result_bind]. rewrite bool_decide_false by done.
  rewrite Hh. cbn [mbind result_bind]. rewrite Es. fold b'.
  rewrite (BatchDigest_ok b n Hb), (BatchDigest_ok b' n Hb'). cbn [mbind result_bind].
  set (cs := pick_challenges _ _).
  destruct (shuffle_complete domain h (batch_x b) (batch_y b) r cs ChunkCount n) as (proof & Hp & Hne & Hv);
    [unfold ChunkCount; lia|done|done|done|apply length_challenges|].
  rewrite Hp. exists b', proof. split_and!; [done|done| |].
  - rewrite bool_decide_false by done. rewrite (proj2 (validateBatch_ok b')) by eauto. cbn [wrap mbind result_bind].
    rewrite (Len_wf b n Hb), (Len_wf b' n Hb'), Nat.eqb_refl. cbn [negb]. rewrite Es in Hv. cbn [fst snd] in Hv.
    rewrite (BatchDigest_ok b' n Hb'). cbn [mbind result_bind]. fold cs. unfold b'. cbn [batch_x batch_y]. by rewrite Hv.
  - pose proof (shuffle_reencrypts h (batch_x b) (batch_y b) r _ _ Hx Hy) as Hr. by rewrite Es in Hr.
Qed.

Lemma committee_rounds_honest pub s b n rs : batch_wf b n -> publicPoint pub = Ok (pmul s Base) ->
  exists b' rounds, committee_rounds pub (Some b) rs = Ok (Some b', rounds) /\ batch_wf b' n /\
    length rounds = length rs /\ plain_cells s b' n ≡ₚ plain_cells s b n.
Proof.
  intros Hb Hp. revert b Hb. induction rs as [|r rs IH]; intros b Hb; [by exists b, []|].
  destruct (honest_shuffle pub _ b n proofDomain r Hb Hp ltac:(done)) as (b1 & proof & Hs & Hb1 & Hv & Hre).
  cbn [committee_rounds]. unfold ShuffleAndProve. rewrite Hs. cbn [wrap mbind result_bind fst snd]. unfold VerifyShuffle.
  rewrite Hv. cbn [wrap mbind result_bind]. destruct (IH b1 Hb1) as (b' & rounds & -> & Hb' & Hl & Hpl).
  cbn [mbind result_bind fst snd]. exists b', (mkRound (Some b) (Some b1) proof :: rounds).
  split_and!; [done|done|simpl; by rewrite Hl|]. rewrite Hpl. by apply reencrypts_plain.
Qed.
End shuffling.

(** The committee mix runs to completion and only permutes: for any cells, any
    number of mixers and any randomness, mixing the encrypted batch succeeds,
    yields one verified round per mixer, and the holder of the key decrypts
    exactly the published cells, each whole, in some order. *)
Theorem committee_mix_permutes `{HashFunction, KyberGroup, !Shuffles} s cells draws b rs :
  Forall (fun c => length c = PlainCellSize) cells -> publicPoint (GenerateKey s).1 = Ok (pmul s Base) ->
  Encrypt (GenerateKey s).1 cells draws = Ok b -> rs <> [] ->
  exists b' rounds mixed, CommitteeMix (GenerateKey s).1 (Some b) rs = Ok (Some b', rounds) /\
    length rounds = length rs /\ Decrypt (GenerateKey s).2 (Some b') = Ok mixed /\ mixed ≡ₚ cells.
Proof.
  intros Hc Hp Hb Hrs. destruct (Encrypt_ok _ _ _ _ Hb) as (_ & _ & _ & Hwf & _).
  destruct (committee_rounds_honest _ s b (length cells) rs Hwf Hp) as (b' & rounds & Hr & Hwf' & Hl & Hpl).
  rewrite (encrypted_plain s _ cells draws b Hp Hb Hc) in Hpl. destruct (Permutation_map_inv Ok _ Hpl) as (mixed & Em & Hm).
  exists b', rounds, mixed. split_and!; [|done| |by symmetry].
  - unfold CommitteeMix. destruct (len rs <? 1) eqn:E; [destruct rs; [done|reflect_bools; simpl in E; lia]|done].
  - unfold Decrypt. rewrite (proj2 (validateBatch_ok b')) by eauto. cbn [mbind result_bind]. simpl snd.
    rewrite sunmarshal_smarshal, (Len_wf b' _ Hwf'). apply collect_ok. unfold plain_cells in Em.
    rewrite <- (map_id mixed) in Em. change map with (@fmap list _) in Em.
    apply Forall2_same_length_lookup_2.
    + apply (f_equal length) in Em. by rewrite !length_fmap in Em.
    + intros i a c Ha Hci. apply (f_equal (.!! i)) in Em. rewrite !list_lookup_fmap, Ha, Hci in Em. simpl in Em. congruence.
Qed.

(** ** Examples *)

Section example.
#[local] Existing Instance example_hash.
#[local] Existing Instance gf_group.
#[local] Existing Instance gf_shuffles.

Definition example_cell (b : byte) : list byte := replicate PlainCellSize b.
Definition example_cells : list (list byte) := [example_cell x61; example_cell x62; example_cell x63].
Definition example_secret : scalar := x05.
Definition example_draws (row col : nat) : list byte * scalar := ([], byte_of_Z (Z.of_nat (7 * row + col + 1))).

Lemma example_key : publicPoint (GenerateKey example_secret).1 = Ok (pmul example_secret Base).
Proof. vm_compute. reflexivity. Qed.

Lemma example_sizes : Forall (fun c => length c = PlainCellSize) example_cells.
Proof. repeat constructor. Qed.

Lemma example_encrypts : exists b, Encrypt (GenerateKey example_secret).1 example_cells example_draws = Ok b.
Proof.
  assert (is_ok (Encrypt (GenerateKey example_secret).1 example_cells example_draws) = true) as E by (vm_compute; reflexivity).
  destruct (Encrypt (GenerateKey example_secret).1 example_cells example_draws) as [b|]; [by exists b|discriminate E].
Qed.

Lemma wire_roundtrip_witness : exists b cells, batch_wf b 3 /\
  MarshalWireWithPadding (Some b) (Some (replicate 144 x07)) = Ok cells /\ ParseWire cells = Ok b.
Proof.
  destruct example_encrypts as [b Hb]. destruct (Encrypt_ok _ _ _ _ Hb) as (_ & _ & _ & Hwf & _).
  destruct (wire_roundtrip b 3 (replicate 144 x07) Hwf) as (cells & Hm & _ & _ & Hp); [rewrite length_replicate; lia|].
  exists b, cells. split; [exact Hwf|split; [exact Hm|exact Hp]].
Defined.

Lemma decrypt_encrypt_witness : exists b, Encrypt (GenerateKey example_secret).1 example_cells example_draws = Ok b /\
  Decrypt (GenerateKey example_secret).2 (Some b) = Ok example_cells.
Proof.
  destruct example_encrypts as [b Hb]. exists b. split; [exact Hb|].
  exact (decrypt_encrypt example_secret example_cells example_draws b example_sizes example_key Hb).
Defined.

Lemma encrypt_cell_composes_witness : exists b wires,
  encryptCellWithPadding (GenerateKey example_secret).1 (example_cell x61) (fun row => example_draws row 0) (Some (replicate 48 x00))
    = Ok (hd [] wires) /\ ParseWire wires = Ok b.
Proof.
  destruct example_encrypts as [b Hb].
  destruct (encrypt_cell_composes _ _ _ _ (fun _ => replicate 48 x00) Hb) as (wires & Hw & _ & Hp);
    [intros _; rewrite length_replicate; lia|].
  exists b, wires. split; [|exact Hp]. apply collect_ok in Hw. change (length example_cells) with 3%nat in Hw.
  inversion Hw as [|? w ? ws Hfirst]. exact Hfirst.
Defined.

Lemma committee_mix_permutes_witness : exists b b' rounds mixed,
  CommitteeMix (GenerateKey example_secret).1 (Some b) [[x01]; [x02; x03]] = Ok (Some b', rounds) /\
  Decrypt (GenerateKey example_secret).2 (Some b') = Ok mixed /\ mixed ≡ₚ example_cells.
Proof.
  destruct example_encrypts as [b Hb].
  destruct (committee_mix_permutes example_secret example_cells example_draws b [[x01]; [x02; x03]] example_sizes example_key Hb)
    as (b' & rounds & mixed & Hc & _ & Hd & Hm); [discriminate|].
  exists b, b', rounds, mixed. split; [exact Hc|split; [exact Hd|exact Hm]].
Defined.
End example.
