(* ===== verification/Threshold.v ===== *)
(** Threshold decryption by a committee
    ([components/nomad-anytrust-mix-sim/mix/threshold.go]): the committee and its
    shares, partial decryptions with their proofs, and the recovery of the cells
    from any quorum of them. *)

From stdpp Require Import base list list_numbers sets strings.
From Stdlib Require Import ZArith Lia Strings.Byte.
From S2P Require Import Prelude Bytes Hash Codec Kyber Mix.

(** ** Data *)

Definition minCommitteeMembers : Z := 3.
Definition maxCommitteeMembers : Z := 64.
Definition thresholdProofLabel : list byte := String.list_byte_of_string "nomad-threshold-decryption-v1".
Definition thresholdContextDomain : list byte := String.list_byte_of_string "nomad-threshold-decryption-context-v1".

Record PublicMember := mkMember {
  MemberIdx : Z;
  MemberShare : list byte;
}.

Record ThresholdCommittee := mkCommittee {
  CommID : list byte;
  CommEpoch : Z;
  CommThreshold : Z;
  CommPublicKey : list byte;
  CommMembers : list PublicMember;
}.

Record MemberSecret := mkMemberSecret {
  SecCommitteeID : list byte;
  SecEpoch : Z;
  SecIndex : Z;
  SecSecret : list byte;
  SecPublic : list byte;
}.

Record PartialDecryption := mkPartial {
  PartCommitteeID : list byte;
  PartEpoch : Z;
  PartMember : Z;
  PartBatchDigest : list byte;
  PartPoints : list (list byte);
  PartProof : list byte;
}.

Inductive threshold_error :=
| ErrCommitteeID
| ErrCommitteeEpoch
| ErrMemberCount
| ErrCommitteeThreshold
| ErrCommitteeKey (e : mix_error)
| ErrMemberOrder
| ErrMemberShare (e : mix_error)
| ErrForeignSecret
| ErrMemberIndex
| ErrShareRegistry
| ErrSecretEncoding
| ErrSecretMismatch
| ErrBatch (e : mix_error)
| ErrPartialProver
| ErrNoPartial
| ErrForeignPartial
| ErrOtherBatch
| ErrPointCount
| ErrNoProof
| ErrPartialPoint
| ErrPartialProof
| ErrNotEnoughPartials
| ErrDuplicateMember
| ErrRecover
| ErrCell (e : mix_error).

(** ** Operations *)

Definition zeroID : list byte := replicate 32 x00.

Section threshold.
Context `{HashFunction, KyberGroup, !Sharing, !RepProofs}.

Definition isZeroCommitteeID (id : list byte) : bool := bool_decide (id = zeroID).

Definition sharePublicPoint (key : list byte) : result mix_error point :=
  match unmarshal key with Some p => Ok p | None => Err ErrKeyEncoding end.

Fixpoint validate_members (index : Z) (members : list PublicMember) : result threshold_error unit :=
  match members with
  | [] => Ok tt
  | member :: members =>
      if negb (MemberIdx member =? index) then Err ErrMemberOrder
      else
        memberShare ← wrap ErrMemberShare (sharePublicPoint (MemberShare member));
        _ ← wrap ErrMemberShare (rejectSmallOrder memberShare);
        validate_members (index + 1) members
  end.

Definition validateThresholdCommittee (c : ThresholdCommittee) : result threshold_error unit :=
  if isZeroCommitteeID (CommID c) then Err ErrCommitteeID
  else if CommEpoch c =? 0 then Err ErrCommitteeEpoch
  else if (len (CommMembers c) <? minCommitteeMembers) || (maxCommitteeMembers <? len (CommMembers c)) then Err ErrMemberCount
  else if (CommThreshold c <? 2) || (len (CommMembers c) <? CommThreshold c) then Err ErrCommitteeThreshold
  else
    key ← wrap ErrCommitteeKey (publicPoint (CommPublicKey c));
    _ ← wrap ErrCommitteeKey (rejectSmallOrder key);
    validate_members 0 (CommMembers c).

(** The polynomial [NewPriPoly] draws is given by its coefficients. *)
Definition GenerateDealerCommittee (id : list byte) (epoch members threshold : Z) (coefficients : list scalar)
  : result threshold_error (ThresholdCommittee * list MemberSecret) :=
  if isZeroCommitteeID id then Err ErrCommitteeID
  else if epoch =? 0 then Err ErrCommitteeEpoch
  else if (members <? minCommitteeMembers) || (maxCommitteeMembers <? members) then Err ErrMemberCount
  else if (threshold <? 2) || (members <? threshold) then Err ErrCommitteeThreshold
  else
    let commits := map (fun c => pmul c Base) coefficients in
    let indices := map Z.of_nat (seq 0 (Z.to_nat members)) in
    let public i := marshal (PubEval commits i) in
    let committee := mkCommittee id epoch threshold (marshal (hd Null commits))
                       (map (fun i => mkMember i (public i)) indices) in
    let secrets := map (fun i => mkMemberSecret id epoch i (smarshal (PriEval coefficients i)) (public i)) indices in
    _ ← validateThresholdCommittee committee;
    Ok (committee, secrets).

Definition memberForIndex (c : ThresholdCommittee) (index : Z) : result threshold_error PublicMember :=
  match CommMembers c !! Z.to_nat index with
  | None => Err ErrMemberIndex
  | Some member => if negb (MemberIdx member =? index) then Err ErrMemberIndex else Ok member
  end.

Definition ValidateMemberSecret (c : ThresholdCommittee) (m : MemberSecret) : result threshold_error unit :=
  _ ← validateThresholdCommittee c;
  if negb (bool_decide (SecCommitteeID m = CommID c)) || negb (SecEpoch m =? CommEpoch c) then Err ErrForeignSecret
  else
    publicMember ← memberForIndex c (SecIndex m);
    if negb (bool_decide (MemberShare publicMember = SecPublic m)) then Err ErrShareRegistry
    else match sunmarshal (SecSecret m), unmarshal (SecPublic m) with
    | Some secret, Some publicShare =>
        if negb (bool_decide (pmul secret Base = publicShare)) then Err ErrSecretMismatch else Ok tt
    | _, _ => Err ErrSecretEncoding
    end.

Definition partialProofDomain (c : ThresholdCommittee) (member : PublicMember) (batchDigest : list byte) : list byte :=
  thresholdProofLabel ++ [x3a] ++
  hex_encode (sha256 (thresholdContextDomain ++ CommID c ++ be 8 (CommEpoch c) ++ be 4 (CommThreshold c) ++
    CommPublicKey c ++ be 4 (MemberIdx member) ++ MemberShare member ++ batchDigest)).

(** The ciphertext points in row order, and what a partial decryption claims of
    them: one secret maps the base to the member's share and every ciphertext
    point to its partial. *)
Definition cipher_points (b : Batch) : list point := concat (batch_x b).
Definition partial_statement (publicShare : point) (partials ciphers : list point) : list (point * point) :=
  (publicShare, Base) :: zip partials ciphers.

(** [r] is the randomness of the prover. *)
Definition CreatePartialDecryption (c : ThresholdCommittee) (m : MemberSecret) (batch : option Batch) (r : list byte)
  : result threshold_error PartialDecryption :=
  _ ← ValidateMemberSecret c m;
  _ ← wrap ErrBatch (validateBatch batch);
  publicMember ← memberForIndex c (SecIndex m);
  match batch, sunmarshal (SecSecret m), unmarshal (SecPublic m) with
  | Some b, Some secret, Some publicShare =>
      batchDigest ← wrap ErrBatch (BatchDigest batch);
      let products := map (pmul secret) (cipher_points b) in
      match rep_prove (partialProofDomain c publicMember batchDigest)
              (partial_statement publicShare products (cipher_points b)) secret r with
      | None => Err ErrPartialProver
      | Some proof => Ok (mkPartial (CommID c) (CommEpoch c) (SecIndex m) batchDigest (map marshal products) proof)
      end
  | _, _, _ => Err ErrSecretEncoding
  end.

Definition decode_points (encoded : list (list byte)) : result threshold_error (list point) :=
  collect (fun e => match unmarshal e with Some p => Ok p | None => Err ErrPartialPoint end) encoded.

(** A nil partial is [None]. *)
Definition VerifyPartialDecryption (c : ThresholdCommittee) (batch : option Batch) (partial : option PartialDecryption)
  : result threshold_error unit :=
  _ ← validateThresholdCommittee c;
  _ ← wrap ErrBatch (validateBatch batch);
  match partial, batch with
  | Some p, Some b =>
      if negb (bool_decide (PartCommitteeID p = CommID c)) || negb (PartEpoch p =? CommEpoch c) then Err ErrForeignPartial
      else
        member ← memberForIndex c (PartMember p);
        batchDigest ← wrap ErrBatch (BatchDigest batch);
        if negb (bool_decide (PartBatchDigest p = batchDigest)) then Err ErrOtherBatch
        else if negb (Nat.eqb (length (PartPoints p)) (ChunkCount * Len batch)) then Err ErrPointCount
        else if bool_decide (PartProof p = []) then Err ErrNoProof
        else
          publicShare ← wrap ErrMemberShare (sharePublicPoint (MemberShare member));
          points ← decode_points (PartPoints p);
          if rep_verify (partialProofDomain c member batchDigest)
               (partial_statement publicShare points (cipher_points b)) (PartProof p)
          then Ok tt else Err ErrPartialProof
  | _, _ => Err ErrNoPartial
  end.

(** The partials are verified in parallel and the results walked in order. *)
Definition verify_and_decode (c : ThresholdCommittee) (batch : option Batch) (partial : option PartialDecryption)
  : result threshold_error (Z * list point) :=
  _ ← VerifyPartialDecryption c batch partial;
  match partial with
  | None => Err ErrNoPartial
  | Some p => points ← decode_points (PartPoints p); Ok (PartMember p, points)
  end.

Fixpoint walk_results (decoded : list (Z * list point)) (results : list (result threshold_error (Z * list point)))
  : result threshold_error (list (Z * list point)) :=
  match results with
  | [] => Ok decoded
  | r :: results =>
      e ← r;
      if bool_decide (fst e ∈ map fst decoded) then Err ErrDuplicateMember
      else walk_results (decoded ++ [e]) results
  end.

Definition verifiedPartialPoints (c : ThresholdCommittee) (batch : option Batch) (partials : list (option PartialDecryption))
  : result threshold_error (list (Z * list point)) :=
  if len partials <? CommThreshold c then Err ErrNotEnoughPartials
  else
    decoded ← walk_results [] (map (verify_and_decode c batch) partials);
    if len decoded <? CommThreshold c then Err ErrNotEnoughPartials else Ok decoded.

(** One column.  [visit] is the order in which each [range] over the map of
    decoded partials visits it, which Go leaves open.  The outer error is a
    failure of the committee, the inner one of this column alone. *)
Fixpoint recover_rows (c : ThresholdCommittee) (b : Batch) (visit : nat -> list (Z * list point)) (col : nat) (rows : list nat)
  : result threshold_error (result mix_error (list byte)) :=
  match rows with
  | [] => Ok (Ok [])
  | row :: rows =>
      let pointIndex := (row * Len (Some b) + col)%nat in
      let shares := map (fun d => (fst d, default Null (snd d !! pointIndex))) (visit row) in
      match RecoverCommit shares (CommThreshold c) (len (CommMembers c)) with
      | None => Err ErrRecover
      | Some sharedPoint =>
          match open_chunk sharedPoint (at_ (batch_y b) row col) with
          | Err e => Ok (Err e)
          | Ok data => rest ← recover_rows c b visit col rows; Ok (rest ← rest; Ok (data ++ rest))
          end
      end
  end.

Definition recoverColumns (c : ThresholdCommittee) (b : Batch) (visit : nat -> nat -> list (Z * list point))
  : result threshold_error (list (result mix_error (list byte))) :=
  collect (fun col => recover_rows c b (visit col) col (seq 0 ChunkCount)) (seq 0 (Len (Some b))).

Definition ThresholdDecryptColumns (c : ThresholdCommittee) (batch : option Batch) (partials : list (option PartialDecryption))
  (visit : nat -> nat -> list (Z * list point) -> list (Z * list point))
  : result threshold_error (list (result mix_error (list byte))) :=
  _ ← validateThresholdCommittee c;
  _ ← wrap ErrBatch (validateBatch batch);
  decoded ← verifiedPartialPoints c batch partials;
  match batch with
  | None => Err ErrNoPartial
  | Some b => recoverColumns c b (fun col row => visit col row decoded)
  end.

Definition ThresholdDecrypt (c : ThresholdCommittee) (batch : option Batch) (partials : list (option PartialDecryption))
  (visit : nat -> nat -> list (Z * list point) -> list (Z * list point)) : result threshold_error (list (list byte)) :=
  columns ← ThresholdDecryptColumns c batch partials visit;
  collect (wrap ErrCell) columns.

Definition ValidateCiphertextColumn (cell : list byte) : result mix_error unit :=
  _ ← collect (fun k => match unmarshal (slice cell (k * pointSize) (k * pointSize + pointSize)) with
                        | Some p => rejectSmallOrder p
                        | None => Err ErrDecodeCell
                        end) (seq 0 (2 * ChunkCount));
  Ok tt.
End threshold.

(** ** Committees dealt from one polynomial *)

Section dealt.
Context `{HashFunction, KyberGroup, !Sharing, !RepProofs}.

(** The members' shares lie on the polynomial [secret :: a], of as many
    coefficients as the threshold, and the committee's key is its value at 0. *)
Definition dealt (c : ThresholdCommittee) (secret : scalar) (a : list scalar) : Prop :=
  len (secret :: a) = CommThreshold c /\ CommPublicKey c = marshal (pmul secret Base) /\
  forall i m, CommMembers c !! i = Some m ->
    m = mkMember (Z.of_nat i) (marshal (pmul (PriEval (secret :: a) (Z.of_nat i)) Base)).

Lemma GenerateDealerCommittee_dealt id epoch members threshold secret a c secrets :
  GenerateDealerCommittee id epoch members threshold (secret :: a) = Ok (c, secrets) -> len (secret :: a) = threshold ->
  validateThresholdCommittee c = Ok tt /\ dealt c secret a /\ len (CommMembers c) = members /\
  secrets = map (fun i => mkMemberSecret (CommID c) (CommEpoch c) (Z.of_nat i) (smarshal (PriEval (secret :: a) (Z.of_nat i)))
                            (marshal (pmul (PriEval (secret :: a) (Z.of_nat i)) Base))) (seq 0 (Z.to_nat members)).
Proof.
  unfold GenerateDealerCommittee. cbv zeta. destruct (isZeroCommitteeID id); [done|]. destruct (epoch =? 0); [done|].
  destruct ((members <? _) || _) eqn:Em; [done|]. destruct ((threshold <? 2) || _); [done|].
  set (c' := mkCommittee _ _ _ _ _).
  destruct (validateThresholdCommittee c') as [[]|] eqn:Ev; cbn [mbind result_bind]; [|intros; discriminate].
  intros [= <- <-] Hl.
  reflect_bools. unfold minCommitteeMembers in *. split_and!; [done| | |].
  - split_and!; [done|done|]. intros i m Hm. unfold c' in Hm. cbn [CommMembers] in Hm. rewrite map_map in Hm.
    apply map_lookup_Some_1 in Hm as (k & Hk & ->). apply lookup_seq in Hk as [-> _].
    by rewrite (PubEval_commit (secret :: a)).
  - unfold c'. cbn [CommMembers]. rewrite !length_map, length_seq. lia.
  - rewrite map_map. apply map_ext. intros i. by rewrite (PubEval_commit (secret :: a)).
Qed.

Lemma validate_bounds c : validateThresholdCommittee c = Ok tt ->
  3 <= len (CommMembers c) <= 64 /\ 2 <= CommThreshold c <= len (CommMembers c).
Proof.
  unfold validateThresholdCommittee. destruct (isZeroCommitteeID _); [done|]. destruct (_ =? 0); [done|].
  destruct ((len _ <? _) || (_ <? _)) eqn:E1; [done|]. destruct ((CommThreshold c <? 2) || _) eqn:E2; [done|]. intros _.
  apply orb_false_iff in E1 as [? ?], E2 as [? ?]. reflect_bools. unfold minCommitteeMembers, maxCommitteeMembers in *. lia.
Qed.

Lemma memberForIndex_dealt c secret a i m : dealt c secret a -> memberForIndex c i = Ok m ->
  0 <= i < len (CommMembers c) /\ m = mkMember i (marshal (pmul (PriEval (secret :: a) i) Base)).
Proof.
  intros (_ & _ & Hm). unfold memberForIndex. destruct (CommMembers c !! Z.to_nat i) as [m'|] eqn:E; [|done].
  destruct (MemberIdx m' =? i) eqn:Ei; [|done]. cbn [negb]. intros [= <-]. apply Z.eqb_eq in Ei.
  pose proof (Hm _ _ E) as Em. rewrite Em in Ei. simpl in Ei. apply lookup_lt_Some in E. rewrite Ei in Em.
  split; [lia|done].
Qed.

Lemma memberForIndex_at c secret a i : dealt c secret a -> (i < length (CommMembers c))%nat ->
  memberForIndex c (Z.of_nat i) = Ok (mkMember (Z.of_nat i) (marshal (pmul (PriEval (secret :: a) (Z.of_nat i)) Base))).
Proof.
  intros (_ & _ & Hm) Hi. destruct (lookup_lt_is_Some_2 _ _ Hi) as [m E]. pose proof (Hm _ _ E) as ->.
  unfold memberForIndex. rewrite Nat2Z.id, E. cbn [MemberIdx]. by rewrite Z.eqb_refl.
Qed.

Lemma decode_points_marshal l : decode_points (map marshal l) = Ok l.
Proof.
  unfold decode_points. rewrite collect_map. transitivity (collect (E := threshold_error) Ok l).
  { apply collect_ext. intros p _. by rewrite unmarshal_marshal. }
  rewrite (collect_total (fun p => p)). by rewrite map_id.
Qed.

Lemma length_decode_points l r : decode_points l = Ok r -> length r = length l.
Proof. intros E%collect_ok. symmetry. by eapply Forall2_length. Qed.

Lemma length_cipher_points b n : batch_wf b n -> length (cipher_points b) = (ChunkCount * n)%nat.
Proof. intros (_ & Hx & _). by apply length_concat_rect. Qed.

Lemma batch_digest_wf b n : batch_wf b n -> exists d, BatchDigest (Some b) = Ok d.
Proof. intros Hb. eexists. by eapply BatchDigest_ok. Qed.

(** The proof of a partial, if accepted, is of a true statement. *)
Definition partial_sound (c : ThresholdCommittee) (b : Batch) (p : PartialDecryption) : Prop :=
  forall m points share digest, memberForIndex c (PartMember p) = Ok m -> decode_points (PartPoints p) = Ok points ->
    unmarshal (MemberShare m) = Some share -> BatchDigest (Some b) = Ok digest ->
    rep_sound (partialProofDomain c m digest) (partial_statement share points (cipher_points b)) (PartProof p).

Lemma zip_all_mul w l1 l2 : length l1 = length l2 -> Forall (fun s : point * point => s.1 = pmul w s.2) (zip l1 l2) ->
  l1 = map (pmul w) l2.
Proof.
  revert l2. induction l1 as [|p l1 IH]; intros [|q l2] Hl Hf; try done. simpl in *.
  apply Forall_cons in Hf as [Hp Hf]. simpl in Hp. subst p. f_equal. apply IH; [lia|done].
Qed.

(** An accepted partial is the member's share applied to every ciphertext. *)
Lemma verified_partial c secret a b n p : dealt c secret a -> batch_wf b n -> partial_sound c b p ->
  VerifyPartialDecryption c (Some b) (Some p) = Ok tt ->
  exists points, decode_points (PartPoints p) = Ok points /\ 0 <= PartMember p < len (CommMembers c) /\
    points = map (pmul (PriEval (secret :: a) (PartMember p))) (cipher_points b).
Proof.
  intros Hd Hb Hs. unfold VerifyPartialDecryption. destruct (validateThresholdCommittee c) as [[]|]; [|done].
  cbn [mbind result_bind]. rewrite (proj2 (validateBatch_ok b)) by eauto. cbn [wrap mbind result_bind].
  destruct (_ || _); [done|]. destruct (memberForIndex c (PartMember p)) as [m|] eqn:Em; [|done]. cbn [mbind result_bind].
  destruct (batch_digest_wf b n Hb) as [digest Hdig]. rewrite Hdig. cbn [wrap mbind result_bind].
  destruct (negb _); [done|]. destruct (Nat.eqb _ _) eqn:El; [|done]. apply Nat.eqb_eq in El. cbn [negb].
  destruct (bool_decide (PartProof p = [])); [done|].
  destruct (memberForIndex_dealt _ _ _ _ _ Hd Em) as [Hr Hm]. unfold sharePublicPoint. rewrite Hm. cbn [MemberShare].
  rewrite unmarshal_marshal. cbn [wrap mbind result_bind].
  destruct (decode_points (PartPoints p)) as [points|] eqn:Ep; [|done]. cbn [mbind result_bind].
  destruct (rep_verify _ _ _) eqn:Ev; [|done]. intros _. rewrite <- Hm in Ev.
  destruct (Hs m points _ digest Em Ep ltac:(rewrite Hm; apply unmarshal_marshal) Hdig Ev) as [w Hw].
  apply Forall_cons in Hw as [Hw Hz]. simpl in Hw. apply pmul_base_inj in Hw. subst w.
  exists points. split_and!; [done|lia|lia|]. apply zip_all_mul; [|done].
  rewrite (length_decode_points _ _ Ep), El, (length_cipher_points b n Hb), (Len_wf b n Hb). done.
Qed.

(** A member that follows the protocol is never refused. *)
Lemma honest_partial c secret a b n i r : validateThresholdCommittee c = Ok tt -> dealt c secret a -> batch_wf b n ->
  (i < length (CommMembers c))%nat ->
  exists p, CreatePartialDecryption c (mkMemberSecret (CommID c) (CommEpoch c) (Z.of_nat i)
      (smarshal (PriEval (secret :: a) (Z.of_nat i))) (marshal (pmul (PriEval (secret :: a) (Z.of_nat i)) Base)))
      (Some b) r = Ok p /\ PartMember p = Z.of_nat i /\ VerifyPartialDecryption c (Some b) (Some p) = Ok tt.
Proof.
  intros Hv Hd Hb Hi. set (k := PriEval (secret :: a) (Z.of_nat i)).
  pose proof (memberForIndex_at c secret a i Hd Hi) as Hm. fold k in Hm.
  destruct (batch_digest_wf b n Hb) as [digest Hdig].
  unfold CreatePartialDecryption, ValidateMemberSecret. rewrite Hv. cbn [mbind result_bind SecCommitteeID SecEpoch SecIndex SecSecret SecPublic].
  rewrite bool_decide_true, Z.eqb_refl by done. cbn [negb orb]. rewrite Hm. cbn [mbind result_bind MemberShare].
  rewrite bool_decide_true by done. cbn [negb]. rewrite sunmarshal_smarshal, unmarshal_marshal, bool_decide_true by done.
  cbn [negb mbind result_bind]. rewrite (proj2 (validateBatch_ok b)) by eauto. cbn [wrap mbind result_bind].
  rewrite Hdig. cbn [wrap mbind result_bind].
  set (st := partial_statement (pmul k Base) (map (pmul k) (cipher_points b)) (cipher_points b)).
  assert (Forall (fun s => s.1 = pmul k s.2) st) as Hst.
  { unfold st, partial_statement. constructor; [done|]. generalize (cipher_points b) as l. induction l; simpl; by constructor. }
  destruct (rep_complete (partialProofDomain c (mkMember (Z.of_nat i) (marshal (pmul k Base))) digest) st k r Hst)
    as (proof & Hp & Hne & Hver). rewrite Hp. eexists. split_and!; [done|done|].
  unfold VerifyPartialDecryption. rewrite Hv. cbn [mbind result_bind PartCommitteeID PartEpoch PartMember PartBatchDigest PartPoints PartProof].
  rewrite (proj2 (validateBatch_ok b)) by eauto. cbn [wrap mbind result_bind].
  rewrite bool_decide_true, Z.eqb_refl by done. cbn [negb orb]. rewrite Hm. cbn [mbind result_bind].
  rewrite Hdig. cbn [wrap mbind result_bind]. rewrite bool_decide_true by done. cbn [negb].
  rewrite !length_map, (length_cipher_points b n Hb), (Len_wf b n Hb), Nat.eqb_refl. cbn [negb].
  rewrite bool_decide_false by done. unfold sharePublicPoint. cbn [MemberShare]. rewrite unmarshal_marshal.
  cbn [wrap mbind result_bind]. rewrite decode_points_marshal. cbn [mbind result_bind]. fold st. by rewrite Hver.
Qed.
End dealt.

(** ** Recovery *)

Section recovery.
Context `{HashFunction, KyberGroup, !Sharing, !RepProofs}.

(** What the walk over verified partials leaves: distinct members of the
    committee, each with its share of every ciphertext point. *)
Definition decoded_ok (c : ThresholdCommittee) (secret : scalar) (a : list scalar) (b : Batch) (decoded : list (Z * list point)) : Prop :=
  NoDup (map fst decoded) /\ CommThreshold c <= len decoded /\
  Forall (fun d => 0 <= d.1 < len (CommMembers c) /\ d.2 = map (pmul (PriEval (secret :: a) d.1)) (cipher_points b)) decoded.

Lemma decoded_ok_permuted c secret a b l l' : l' ≡ₚ l -> decoded_ok c secret a b l -> decoded_ok c secret a b l'.
Proof.
  intros Hp (Hnd & Hl & Hf). split_and!.
  - by rewrite Hp.
  - by rewrite Hp.
  - by rewrite Hp.
Qed.

Definition row_shares (b : Batch) (row col : nat) (decoded : list (Z * list point)) : list (Z * point) :=
  map (fun d => (fst d, default Null (snd d !! (row * Len (Some b) + col)%nat))) decoded.

Lemma row_shares_ok c secret a b n row col decoded : batch_wf b n -> (row < ChunkCount)%nat -> (col < n)%nat ->
  decoded_ok c secret a b decoded ->
  let shares := row_shares b row col decoded in
  NoDup (map fst shares) /\ len shares = len decoded /\ Forall (fun s => 0 <= fst s < len (CommMembers c)) shares /\
  Forall (fun s => snd s = pmul (PriEval (secret :: a) (fst s)) (at_ (batch_x b) row col)) shares.
Proof.
  intros Hb Hr Hc (Hnd & _ & Hf) shares. unfold shares, row_shares. rewrite map_map, length_map, (Len_wf b n Hb).
  split_and!; [done|done|..]; apply Forall_map; eapply Forall_impl; [exact Hf|..|exact Hf|]; intros [i pts] [Hi Hp]; simpl in *; [done|].
  destruct Hb as (_ & Hx & _). rewrite Hp, list_lookup_fmap. unfold cipher_points.
  by rewrite (lookup_concat (batch_x b) ChunkCount n) by done.
Qed.

(** A column of honestly formed ciphertexts gives what one key would; any other
    column still gives a verdict of its own. *)
Lemma recover_rows_ok c secret a b n visit col rows : validateThresholdCommittee c = Ok tt -> dealt c secret a ->
  batch_wf b n -> (col < n)%nat -> Forall (fun row => row < ChunkCount)%nat rows ->
  (forall row, decoded_ok c secret a b (visit row)) ->
  exists r, recover_rows c b visit col rows = Ok r /\
    (Forall (fun row => prime_order (at_ (batch_x b) row col)) rows ->
     r = (chunks ← collect (fun row => decrypt_chunk secret (at_ (batch_x b) row col) (at_ (batch_y b) row col)) rows; Ok (concat chunks))).
Proof.
  intros Hv Hd Hb Hc Hrows Hvisit. destruct (validate_bounds c Hv) as [Hm Ht]. unfold decrypt_chunk.
  induction rows as [|row rows IH]; [by exists (Ok [])|]. apply Forall_cons in Hrows as [Hrow Hrows].
  destruct (IH Hrows) as (r & Hr & Hpr). cbn [recover_rows]. fold (row_shares b row col (visit row)).
  destruct (row_shares_ok c secret a b n row col (visit row) Hb Hrow Hc (Hvisit row)) as (Snd & Slen & Sr & Sv).
  destruct (Hvisit row) as (_ & Hq & _). destruct Hd as (Hlen & _).
  destruct (recover_total (row_shares b row col (visit row)) (CommThreshold c) (len (CommMembers c)) ltac:(lia) Snd Sr ltac:(lia))
    as [shared Hs]. rewrite Hs.
  assert (prime_order (at_ (batch_x b) row col) -> shared = pmul secret (at_ (batch_x b) row col)) as Hshared.
  { intros Hp. rewrite <- Hlen in Hs, Hq.
    rewrite (recover_commit secret a _ (row_shares b row col (visit row)) (len (CommMembers c)) ltac:(lia) Hp Snd Sr ltac:(lia) Sv)
      in Hs. by simplify_eq. }
  destruct (open_chunk shared (at_ (batch_y b) row col)) as [data|e] eqn:Eo.
  - rewrite Hr. cbn [mbind result_bind]. eexists. split; [done|]. intros [Hp Hps]%Forall_cons. cbn [collect].
    rewrite <- (Hshared Hp), Eo, (Hpr Hps). cbn [mbind result_bind].
    by destruct (collect _ rows).
  - eexists. split; [done|]. intros [Hp _]%Forall_cons. cbn [collect].
    by rewrite <- (Hshared Hp), Eo.
Qed.

Lemma walk_results_ok decoded results l : Forall2 (fun r e => r = Ok e) results l -> NoDup (map fst (decoded ++ l)) ->
  walk_results decoded results = Ok (decoded ++ l).
Proof.
  intros Hr. revert decoded. induction Hr as [|r e results l -> _ IH]; intros decoded Hnd; [by rewrite app_nil_r|].
  cbn [walk_results mbind result_bind]. rewrite bool_decide_false.
  - rewrite IH by (by rewrite <- app_assoc). by rewrite <- app_assoc.
  - rewrite map_app in Hnd. apply NoDup_app in Hnd as (_ & Hnd & _). intros Hin. apply (Hnd _ Hin). simpl. left.
Qed.

(** The quorum check of the walk, as what it lets through. *)
Lemma walk_results_inv decoded results l : walk_results decoded results = Ok l -> NoDup (map fst decoded) ->
  exists es, l = decoded ++ es /\ Forall2 (fun r e => r = Ok e) results es /\ NoDup (map fst l).
Proof.
  revert decoded. induction results as [|r results IH]; intros decoded; cbn [walk_results].
  { intros [= <-] Hnd. exists []. rewrite app_nil_r. split_and!; [done|constructor|done]. }
  destruct r as [e|]; [|done]. cbn [mbind result_bind]. case_bool_decide as Hin; [done|]. intros E Hnd.
  destruct (IH _ E) as (es & -> & Hf & Hn).
  { rewrite map_app. apply NoDup_app. split_and!; [done|set_solver|apply NoDup_singleton]. }
  exists (e :: es). rewrite <- app_assoc in *. split_and!; [done|by constructor|done].
Qed.

(** The partials that are offered, as records. *)
Definition members_of (partials : list PartialDecryption) : list Z := map PartMember partials.

Lemma verifiedPartialPoints_ok c secret a b n partials : validateThresholdCommittee c = Ok tt -> dealt c secret a ->
  batch_wf b n -> Forall (fun p => VerifyPartialDecryption c (Some b) (Some p) = Ok tt /\ partial_sound c b p) partials ->
  NoDup (members_of partials) -> CommThreshold c <= len partials ->
  exists decoded, verifiedPartialPoints c (Some b) (map Some partials) = Ok decoded /\ decoded_ok c secret a b decoded.
Proof.
  intros Hv Hd Hb Hf Hnd Hq. unfold verifiedPartialPoints. rewrite length_map.
  destruct (len partials <? CommThreshold c) eqn:E; [reflect_bools; lia|]. clear E.
  set (entry p := (PartMember p, map (pmul (PriEval (secret :: a) (PartMember p))) (cipher_points b))).
  assert (Forall2 (fun r e => r = Ok e) (map (verify_and_decode c (Some b)) (map Some partials)) (map entry partials)) as Hr.
  { rewrite map_map. apply Forall2_fmap. apply Forall_Forall2_diag. eapply Forall_impl; [exact Hf|]. intros p [Hp Hs].
    destruct (verified_partial c secret a b n p Hd Hb Hs Hp) as (points & Hpts & _ & Hpoints).
    unfold verify_and_decode. rewrite Hp. cbn [mbind result_bind]. rewrite Hpts. cbn [mbind result_bind].
    unfold entry. by rewrite Hpoints. }
  assert (map fst (map entry partials) = members_of partials) as Hm by (by rewrite map_map).
  rewrite (walk_results_ok [] _ _ Hr) by (by rewrite app_nil_l, Hm). rewrite app_nil_l. cbn [mbind result_bind].
  destruct (len (map entry partials) <? CommThreshold c) eqn:E; [rewrite length_map in E; reflect_bools; lia|].
  eexists. split; [done|]. split_and!; [by rewrite Hm|rewrite length_map; lia|].
  apply Forall_map. eapply Forall_impl; [exact Hf|]. intros p [Hp Hs].
  destruct (verified_partial c secret a b n p Hd Hb Hs Hp) as (_ & _ & Hrange & _). by split.
Qed.
Lemma threshold_columns c secret a b n partials
  (visit : nat -> nat -> list (Z * list point) -> list (Z * list point)) :
  validateThresholdCommittee c = Ok tt -> dealt c secret a -> batch_wf b n ->
  Forall (fun p => VerifyPartialDecryption c (Some b) (Some p) = Ok tt /\ partial_sound c b p) partials ->
  NoDup (members_of partials) -> CommThreshold c <= len partials ->
  (forall col row l, visit col row l ≡ₚ l) ->
  exists columns, ThresholdDecryptColumns c (Some b) (map Some partials) visit = Ok columns /\ length columns = n /\
    forall col, (col < n)%nat -> (forall row, (row < ChunkCount)%nat -> prime_order (at_ (batch_x b) row col)) ->
      columns !! col = Some (decrypt_cell secret b col).
Proof.
  intros Hv Hd Hb Hf Hnd Hq Hvisit. unfold ThresholdDecryptColumns. rewrite Hv. cbn [mbind result_bind].
  rewrite (proj2 (validateBatch_ok b)) by eauto. cbn [wrap mbind result_bind].
  destruct (verifiedPartialPoints_ok c secret a b n partials Hv Hd Hb Hf Hnd Hq) as (decoded & -> & Hok).
  cbn [mbind result_bind]. unfold recoverColumns. rewrite (Len_wf b n Hb).
  assert (forall col, col ∈ seq 0 n -> exists r, recover_rows c b (fun row => visit col row decoded) col (seq 0 ChunkCount) = Ok r /\
    ((forall row, (row < ChunkCount)%nat -> prime_order (at_ (batch_x b) row col)) -> r = decrypt_cell secret b col)) as Hcol.
  { intros col Hcol%elem_of_seq.
    destruct (recover_rows_ok c secret a b n (fun row => visit col row decoded) col (seq 0 ChunkCount)) as (r & Hr & Hpr);
      [done|done|done|lia| | |].
    - apply Forall_seq. lia.
    - intros row. eapply decoded_ok_permuted; [apply Hvisit|done].
    - exists r. split; [done|]. intros Hp. apply Hpr. apply Forall_seq. intros row Hrow. apply Hp. lia. }
  assert (exists columns, collect (fun col => recover_rows c b (fun row => visit col row decoded) col (seq 0 ChunkCount)) (seq 0 n) = Ok columns)
    as [columns Hcols].
  { generalize dependent (seq 0 n). intros l Hl. induction l as [|col l IH]; [by exists []|].
    destruct (Hl col (list_elem_of_here _ _)) as (r & Hr & _), IH as [rs Hrs]; [intros; by apply Hl, list_elem_of_further|].
    exists (r :: rs). cbn [collect]. rewrite Hr. cbn [mbind result_bind]. by rewrite Hrs. }
  exists columns. rewrite Hcols. apply collect_ok in Hcols. pose proof (Forall2_length _ _ _ Hcols) as Hl. rewrite length_seq in Hl.
  split_and!; [done|done|]. intros col Hc Hp. destruct (lookup_lt_is_Some_2 columns col) as [r Hr]; [lia|].
  pose proof (Forall2_lookup_lr _ _ _ _ _ _ Hcols (lookup_seq_lt 0 n col Hc) Hr) as E. cbn [Nat.add] in E.
  destruct (Hcol col) as (r' & Hr' & Hpr); [apply elem_of_seq; lia|]. rewrite Hr' in E. apply (inj Ok) in E as <-.
  by rewrite Hr, (Hpr Hp).
Qed.
End recovery.

(** Any quorum decrypts as the one key nobody holds.  For a committee whose
    shares lie on one polynomial, a valid batch, and partial decryptions that
    verify, from distinct members and at least as many as the threshold: the
    call succeeds, whatever order the runtime visits the partials in, and every
    column of honestly formed ciphertexts gives exactly what decryption with the
    secret of the polynomial gives; so one poisoned column does not censor its
    neighbours, and no two quorums disagree.  Accepted proofs are assumed sound. *)
Theorem threshold_decrypts_columns `{HashFunction, KyberGroup, !Sharing, !RepProofs} c secret a b n partials
  (visit : nat -> nat -> list (Z * list point) -> list (Z * list point)) :
  validateThresholdCommittee c = Ok tt -> dealt c secret a -> batch_wf b n ->
  Forall (fun p => VerifyPartialDecryption c (Some b) (Some p) = Ok tt /\ partial_sound c b p) partials ->
  NoDup (members_of partials) -> CommThreshold c <= len partials ->
  (forall col row l, visit col row l ≡ₚ l) ->
  exists columns, ThresholdDecryptColumns c (Some b) (map Some partials) visit = Ok columns /\ length columns = n /\
    forall col, (col < n)%nat -> (forall row, (row < ChunkCount)%nat -> prime_order (at_ (batch_x b) row col)) ->
      columns !! col = Some (decrypt_cell secret b col).
Proof. apply threshold_columns. Qed.

(** The quorum is enforced: nothing is decrypted from fewer partials than the
    threshold, from a member counted twice, or with a partial that does not
    verify for this committee, epoch and batch. *)
Theorem threshold_enforced `{HashFunction, KyberGroup, !Sharing, !RepProofs} c batch partials visit columns :
  ThresholdDecryptColumns c batch partials visit = Ok columns ->
  exists b ps, batch = Some b /\ partials = map Some ps /\ NoDup (members_of ps) /\ CommThreshold c <= len ps /\
    Forall (fun p => VerifyPartialDecryption c (Some b) (Some p) = Ok tt /\ PartCommitteeID p = CommID c /\
                     PartEpoch p = CommEpoch c /\ BatchDigest (Some b) = Ok (PartBatchDigest p)) ps.
Proof.
  unfold ThresholdDecryptColumns. destruct (validateThresholdCommittee c) as [[]|] eqn:Hv; [|done]. cbn [mbind result_bind].
  destruct (validateBatch batch) as [[]|] eqn:Hb; [|done]. cbn [wrap mbind result_bind].
  destruct (verifiedPartialPoints c batch partials) as [decoded|] eqn:E; [|done]. cbn [mbind result_bind].
  destruct batch as [b|]; [|done]. intros _. exists b. unfold verifiedPartialPoints in E.
  destruct (len partials <? _) eqn:Hq; [done|]. destruct (walk_results [] _) as [d|] eqn:Hw; [|done].
  cbn [mbind result_bind] in E. apply walk_results_inv in Hw as (es & Hd & Hf & Hnd); [|constructor]. rewrite app_nil_l in Hd. subst d.
  apply Forall2_fmap_l in Hf.
  assert (exists ps, partials = map Some ps /\ members_of ps = map fst es /\
    Forall (fun p => VerifyPartialDecryption c (Some b) (Some p) = Ok tt) ps) as (ps & -> & Hm & Hver).
  { clear -Hf. induction Hf as [|q e partials es Hqe _ (ps & -> & Hm & Hver)]; [by exists []|].
    cbv beta delta [compose] in Hqe. unfold verify_and_decode in Hqe. destruct (VerifyPartialDecryption c (Some b) q) as [[]|] eqn:Ev; [|done].
    cbn [mbind result_bind] in Hqe. destruct q as [p|]; [|done]. destruct (decode_points _); [|done]. cbn [mbind result_bind] in Hqe.
    injection Hqe as <-. exists (p :: ps). split_and!; [done|simpl; by rewrite Hm|by constructor]. }
  exists ps. rewrite length_map in Hq. reflect_bools. split_and!; [done|done|by rewrite Hm|lia|].
  eapply Forall_impl; [exact Hver|]. intros p Hp. split; [done|]. unfold VerifyPartialDecryption in Hp.
  rewrite Hv, Hb in Hp. cbn [wrap mbind result_bind] in Hp.
  destruct (bool_decide (PartCommitteeID p = CommID c)) eqn:Ei; [|done]. destruct (PartEpoch p =? CommEpoch c) eqn:Ee; [|done].
  cbn [negb orb] in Hp. destruct (memberForIndex c _); [|done]. cbn [mbind result_bind] in Hp.
  destruct (BatchDigest (Some b)) as [dg|]; [|done]. cbn [wrap mbind result_bind] in Hp.
  destruct (bool_decide (PartBatchDigest p = dg)) eqn:Eg; [|done]. reflect_bools. split_and!; [done|done|by rewrite Eg].
Qed.

(** ** Examples *)

Section example.
#[local] Existing Instance example_hash.
#[local] Existing Instance gf_group.
#[local] Existing Instance gf_sharing.
#[local] Existing Instance gf_rep_proofs.

Definition example_id : list byte := replicate 32 x2a.
(** Three members, any two of which decrypt. *)
Definition example_committee_of : option (ThresholdCommittee * list MemberSecret) :=
  match GenerateDealerCommittee example_id 1 3 2 [example_secret; x09] with Ok cs => Some cs | Err _ => None end.
Definition example_committee : ThresholdCommittee := Eval vm_compute in
  match example_committee_of with Some (c, _) => c | None => mkCommittee [] 0 0 [] [] end.

Lemma example_dealt : validateThresholdCommittee example_committee = Ok tt /\ dealt example_committee example_secret [x09].
Proof.
  assert (exists secrets, GenerateDealerCommittee example_id 1 3 2 [example_secret; x09] = Ok (example_committee, secrets)) as [secrets Hg].
  { eexists. vm_compute. reflexivity. }
  destruct (GenerateDealerCommittee_dealt _ _ _ _ _ _ _ _ Hg eq_refl) as (Hv & Hd & _). by split.
Qed.

(** The partials of the last two members verify. *)
Lemma example_partials b n : batch_wf b n -> exists p1 p2, members_of [p1; p2] = [2; 1] /\
  Forall (fun p => VerifyPartialDecryption example_committee (Some b) (Some p) = Ok tt /\ partial_sound example_committee b p) [p1; p2].
Proof.
  intros Hb. destruct example_dealt as [Hv Hd].
  destruct (honest_partial _ _ _ b n 2 [] Hv Hd Hb ltac:(simpl; lia)) as (p1 & _ & M1 & V1).
  destruct (honest_partial _ _ _ b n 1 [] Hv Hd Hb ltac:(simpl; lia)) as (p2 & _ & M2 & V2).
  exists p1, p2. split; [simpl; by rewrite M1, M2|].
  assert (forall p, partial_sound example_committee b p) as Hs by (intros p m points share digest _ _ _ _; apply gf_rep_sound).
  repeat constructor; auto.
Qed.

Lemma threshold_decrypts_columns_witness : exists b partials columns,
  ThresholdDecryptColumns example_committee (Some b) (map Some partials) (fun _ _ l => reverse l) = Ok columns /\
  columns !! 0%nat = Some (Ok (example_cell x61)).
Proof.
  destruct example_encrypts as [b Hb]. destruct (Encrypt_ok _ _ _ _ Hb) as (h & Hh & _ & Hwf & _).
  destruct example_dealt as [Hv Hd]. destruct (example_partials b 3 Hwf) as (p1 & p2 & Hm & Hf).
  destruct (threshold_decrypts_columns example_committee example_secret [x09] b 3 [p1; p2] (fun _ _ l => reverse l) Hv Hd Hwf Hf)
    as (columns & Hc & _ & Hcol).
  - rewrite Hm. apply (bool_decide_unpack _). exact I.
  - simpl. lia.
  - intros col row l. apply reverse_Permutation.
  - exists b, [p1; p2], columns. split; [exact Hc|]. rewrite (Hcol 0%nat) by (lia || (intros; exact I)). f_equal.
    exact (decrypt_cell_encrypted example_secret _ example_cells example_draws b 0 example_key Hb example_sizes ltac:(simpl; lia)).
Defined.

Lemma threshold_enforced_witness : exists b partials columns,
  ThresholdDecryptColumns example_committee (Some b) (map Some partials) (fun _ _ l => l) = Ok columns /\
  exists ps, map Some partials = map Some ps /\ NoDup (members_of ps) /\ 2 <= len ps.
Proof.
  destruct example_encrypts as [b Hb]. destruct (Encrypt_ok _ _ _ _ Hb) as (h & Hh & _ & Hwf & _).
  destruct example_dealt as [Hv Hd]. destruct (example_partials b 3 Hwf) as (p1 & p2 & Hm & Hf).
  assert (exists columns, ThresholdDecryptColumns example_committee (Some b) (map Some [p1; p2]) (fun _ _ l => l) = Ok columns) as [columns Hc].
  { destruct (verifiedPartialPoints_ok _ _ _ b 3 [p1; p2] Hv Hd Hwf Hf) as (decoded & Hdec & Hok);
      [rewrite Hm; apply (bool_decide_unpack _); exact I|simpl; lia|].
    unfold ThresholdDecryptColumns. rewrite Hv. cbn [mbind result_bind]. rewrite (proj2 (validateBatch_ok b)) by eauto.
    cbn [wrap mbind result_bind]. rewrite Hdec. cbn [mbind result_bind]. unfold recoverColumns. rewrite (Len_wf b 3 Hwf).
    assert (forall col, (col < 3)%nat -> exists r, recover_rows example_committee b (fun _ => decoded) col (seq 0 ChunkCount) = Ok r) as Hr.
    { intros col Hcol. destruct (recover_rows_ok example_committee example_secret [x09] b 3 (fun _ => decoded) col (seq 0 ChunkCount))
        as (r & Hr & _); [done|done|done|done|apply Forall_seq; lia|done|]. by exists r. }
    destruct (Hr 0%nat) as [r0 E0]; [lia|]. destruct (Hr 1%nat) as [r1 E1]; [lia|]. destruct (Hr 2%nat) as [r2 E2]; [lia|].
    exists [r0; r1; r2]. cbn [seq collect]. rewrite E0, E1, E2. done. }
  exists b, [p1; p2], columns. split; [exact Hc|].
  destruct (threshold_enforced _ _ _ _ _ Hc) as (b' & ps & _ & Hps & Hnd & Hq & _).
  exists ps. split; [exact Hps|split; [exact Hnd|exact Hq]].
Defined.
End example.
