(* ===== verification/Committee.v ===== *)
(** The certified result of a key-generation ceremony ([live/committee]):
    [certificate.go], a manifest of the committee's public material that every
    operator of the topology has attested, and [share.go], the file in which an
    operator keeps its private share.  The last part discharges the interface
    through which epochs read topologies and certificates. *)

From stdpp Require Import base list list_numbers strings sets sorting.
From Stdlib Require Import ZArith Lia Strings.Byte.
From S2P Require Import Prelude Bytes Hash Codec Endpoint Checkpoint Topology Kyber Mix Threshold TopologyDocument Epoch.

(** ** Data *)

Definition ManifestVersion : list byte := text "nomad-dkg-manifest-v1".
Definition CertificateVersion : list byte := text "nomad-dkg-certificate-v1".
Definition ShareVersion : list byte := text "nomad-threshold-share-v2".
Definition MaximumCertificateBytes : Z := Z.shiftl 1 20.
Definition committeeIDDomain : list byte := text "nomad-epoch-committee-v2".
Definition manifestDigestDomain : list byte := text "nomad-dkg-manifest-digest-v1".
Definition resultAttestationDomain : list byte := text "nomad-dkg-result-attestation-v1".

(** Of [mix] ([dkg.go]). *)
Record DKGTranscript := mkTranscript {
  TranscriptSession : list byte;
  TranscriptDigest : list byte;
  TranscriptIdentities : list (list byte);
  TranscriptQualified : list Z;
}.

Record MemberFile := mkMemberFile {
  MFIndex : Z;                   (* uint32 *)
  MFShare : list byte;           (* base64 text *)
}.

Record CommitteeFile := mkCommitteeFile {
  CFID : list byte;              (* hexadecimal text *)
  CFEpoch : Z;
  CFThreshold : Z;
  CFPublicKey : list byte;       (* base64 text *)
  CFMembers : list MemberFile;
}.

Record TranscriptFile := mkTranscriptFile {
  TFSessionID : list byte;       (* base64 text *)
  TFDigest : list byte;          (* hexadecimal text *)
  TFIdentities : list (list byte);
  TFQualified : list Z;
}.

Record CommitteeManifest := mkCommitteeManifest {
  CMVersion : list byte;
  CMNetworkID : list byte;
  CMTopologyDigest : list byte;  (* hexadecimal text *)
  CMCommittee : CommitteeFile;
  CMTranscript : TranscriptFile;
}.

(** An [Attestation] has the fields of an epoch's endorsement. *)
Record Certificate := mkCertificate {
  CertVersion : list byte;
  CertManifest : CommitteeManifest;
  CertAttestations : list Endorsement;
}.

Record VerifiedCommittee := mkVerifiedCommittee {
  VCManifest : CommitteeManifest;
  VCDigest : list byte;
  VCCommittee : ThresholdCommittee;
  VCTranscript : DKGTranscript;
}.

Record ShareFile := mkShareFile {
  SFVersion : list byte;
  SFNetworkID : list byte;
  SFTopologyDigest : list byte;
  SFOperatorID : list byte;
  SFCommitteeID : list byte;
  SFEpoch : Z;
  SFIndex : Z;
  SFSecret : list byte;          (* base64 text *)
  SFPublic : list byte;
}.

(** [json.Marshal] of a manifest, and the decodings that refuse unknown fields
    and trailing data. *)
Class CommitteeJSON := {
  manifest_json : CommitteeManifest -> list byte;
  certificate_json : list byte -> option Certificate;
  share_json : list byte -> option ShareFile;
}.

Inductive certificate_error :=
| ErrTopologySession
| ErrCertificateVersion
| ErrOtherTopology
| ErrCommitteeContext
| ErrPublicMaterial
| ErrPublicShare
| ErrCommitteeInvalid (e : threshold_error)
| ErrTranscriptContext
| ErrTranscriptSize
| ErrTranscriptMembership
| ErrAttestationCount
| ErrAttestationMembership
| ErrAttestationSignature
| ErrAttestationIdentity
| ErrCertificateSize
| ErrCertificateDecode
| ErrShareSize
| ErrShareDecode
| ErrShareTopology
| ErrShareOperator
| ErrShareCommittee
| ErrSharePrivate
| ErrSharePublic
| ErrShareInvalid (e : threshold_error).

Definition demand (condition : bool) (e : certificate_error) : result certificate_error unit :=
  if condition then Ok tt else Err e.

Definition obtain {A} (o : option A) (e : certificate_error) : result certificate_error A :=
  match o with Some a => Ok a | None => Err e end.

Section committee.
Context `{HashFunction, SignatureScheme, KyberGroup, CommitteeJSON}.

(** ** Manifests *)

Definition committee_message (network : VerifiedTopology) (session : list byte) : list byte :=
  committeeIDDomain ++ TDigest network ++ session ++ be 8 (DocEpoch (TDocument network)) ++
  be 4 (Threshold (DKG (TDocument network))).

Definition IDForTopology (network : VerifiedTopology) : result certificate_error (list byte) :=
  session ← obtain (decodeBase64 (SessionID (DKG (TDocument network))) 32) ErrTopologySession;
  Ok (sha256 (committee_message network session)).

(** The loop over the members. *)
Fixpoint read_members (index : Z) (members : list MemberFile) : result certificate_error (list PublicMember) :=
  match members with
  | [] => Ok []
  | member :: members =>
      share ← obtain (decodeBase64 (MFShare member) 32) ErrPublicShare;
      _ ← demand (MFIndex member =? index) ErrPublicShare;
      rest ← read_members (index + 1) members;
      Ok (mkMember index share :: rest)
  end.

(** The loop over the identities. *)
Fixpoint read_identities (index : nat) (qualified : list Z) (operators : list Operator) (identities : list (list byte))
  : result certificate_error (list (list byte)) :=
  match identities with
  | [] => Ok []
  | encoded :: identities =>
      identity ← obtain (decodeBase64 encoded 32) ErrTranscriptMembership;
      _ ← demand (bool_decide (DKGIdentityKey <$> operators !! index = Some encoded) &&
                  bool_decide (qualified !! index = Some (Z.of_nat index))) ErrTranscriptMembership;
      rest ← read_identities (S index) qualified operators identities;
      Ok (identity :: rest)
  end.

Definition verifyManifest (m : CommitteeManifest) (network : VerifiedTopology)
  : result certificate_error (ThresholdCommittee * DKGTranscript) :=
  let document := TDocument network in
  let committee := CMCommittee m in
  let transcript := CMTranscript m in
  _ ← demand (bool_decide (CMVersion m = ManifestVersion) && bool_decide (CMNetworkID m = NetworkID document) &&
              bool_decide (CMTopologyDigest m = hex_encode (TDigest network))) ErrOtherTopology;
  expectedID ← IDForTopology network;
  _ ← demand (bool_decide (canonical_hex (CFID committee) 32 = Some expectedID) && (CFEpoch committee =? DocEpoch document) &&
              (CFThreshold committee =? Threshold (DKG document))) ErrCommitteeContext;
  publicBytes ← obtain (decodeBase64 (CFPublicKey committee) 32) ErrPublicMaterial;
  _ ← demand (Nat.eqb (length (CFMembers committee)) (length (Operators document))) ErrPublicMaterial;
  members ← read_members 0 (CFMembers committee);
  let value := mkCommittee expectedID (CFEpoch committee) (CFThreshold committee) publicBytes members in
  _ ← wrap ErrCommitteeInvalid (validateThresholdCommittee value);
  session ← obtain (decodeBase64 (TFSessionID transcript) 32) ErrTranscriptContext;
  digest ← obtain (canonical_hex (TFDigest transcript) 32) ErrTranscriptContext;
  _ ← demand (bool_decide (TFSessionID transcript = SessionID (DKG document)) && negb (bool_decide (digest = replicate 32 x00)))
        ErrTranscriptContext;
  _ ← demand (Nat.eqb (length (TFIdentities transcript)) (length (Operators document)) &&
              Nat.eqb (length (TFQualified transcript)) (length (Operators document))) ErrTranscriptSize;
  identities ← read_identities 0 (TFQualified transcript) (Operators document) (TFIdentities transcript);
  Ok (value, mkTranscript session digest identities (TFQualified transcript)).

Definition manifest_of (network : VerifiedTopology) (value : ThresholdCommittee) (transcript : DKGTranscript) : CommitteeManifest :=
  mkCommitteeManifest ManifestVersion (NetworkID (TDocument network)) (hex_encode (TDigest network))
    (mkCommitteeFile (hex_encode (CommID value)) (CommEpoch value) (CommThreshold value) (b64_encode (CommPublicKey value))
       (map (fun member => mkMemberFile (MemberIdx member) (b64_encode (MemberShare member))) (CommMembers value)))
    (mkTranscriptFile (b64_encode (TranscriptSession transcript)) (hex_encode (TranscriptDigest transcript))
       (map b64_encode (TranscriptIdentities transcript)) (TranscriptQualified transcript)).

Definition NewCommitteeManifest (network : VerifiedTopology) (value : ThresholdCommittee) (transcript : DKGTranscript)
  : result certificate_error CommitteeManifest :=
  let manifest := manifest_of network value transcript in
  _ ← verifyManifest manifest network; Ok manifest.

(** ** Certificates *)

Definition ManifestDigest (m : CommitteeManifest) : list byte := sha256 (manifestDigestDomain ++ manifest_json m).

Definition attestationMessage (digest : list byte) : list byte := sha256 (resultAttestationDomain ++ digest).

(** [mustDecode] gives nothing for a key that does not decode. *)
Definition CreateAttestation (m : CommitteeManifest) (operator : Operator) (identity : list byte)
  : result certificate_error Endorsement :=
  if negb (Nat.eqb (length identity) 64) ||
     negb (bool_decide (public identity = default [] (decodeBase64 (IdentityKey operator) 32)))
  then Err ErrAttestationIdentity
  else Ok (mkEndorsement (OpID operator) (Z.of_nat (OpIndex operator))
             (b64_encode (sign identity (attestationMessage (ManifestDigest m))))).

(** The sorted attestations against the membership, position by position. *)
Fixpoint check_attestations (index : nat) (message : list byte) (attestations : list Endorsement) (operators : list Operator)
  : result certificate_error unit :=
  match attestations, operators with
  | [], _ => Ok tt
  | attestation :: attestations, operator :: operators =>
      _ ← demand ((EIndex attestation =? Z.of_nat index) && bool_decide (EOperatorID attestation = OpID operator))
            ErrAttestationMembership;
      signature ← obtain (decodeBase64 (ESignature attestation) 64) ErrAttestationSignature;
      public ← obtain (decodeBase64 (IdentityKey operator) 32) ErrAttestationSignature;
      _ ← demand (verify public message signature) ErrAttestationSignature;
      check_attestations (S index) message attestations operators
  | _ :: _, [] => Err ErrAttestationMembership     (* excluded by the length check *)
  end.

Definition VerifyCertificate (c : Certificate) (network : VerifiedTopology) : result certificate_error VerifiedCommittee :=
  _ ← demand (bool_decide (CertVersion c = CertificateVersion)) ErrCertificateVersion;
  checked ← verifyManifest (CertManifest c) network;
  _ ← demand (Nat.eqb (length (CertAttestations c)) (length (Operators (TDocument network)))) ErrAttestationCount;
  let digest := ManifestDigest (CertManifest c) in
  _ ← check_attestations 0 (attestationMessage digest) (merge_sort by_index (CertAttestations c)) (Operators (TDocument network));
  Ok (mkVerifiedCommittee (CertManifest c) digest checked.1 checked.2).

Definition Assemble (m : CommitteeManifest) (attestations : list Endorsement) (network : VerifiedTopology)
  : result certificate_error Certificate :=
  let certificate := mkCertificate CertificateVersion m attestations in
  _ ← VerifyCertificate certificate network; Ok certificate.

Definition DecodeCertificate (encoded : list byte) (network : VerifiedTopology)
  : result certificate_error (Certificate * VerifiedCommittee) :=
  if bool_decide (encoded = []) || (MaximumCertificateBytes <? len encoded) then Err ErrCertificateSize
  else
    certificate ← obtain (certificate_json encoded) ErrCertificateDecode;
    verified ← VerifyCertificate certificate network;
    Ok (certificate, verified).

(** ** Shares *)

Definition ShareFromSecret (secret : MemberSecret) (operator : Operator) (network : VerifiedTopology) : ShareFile :=
  mkShareFile ShareVersion (NetworkID (TDocument network)) (hex_encode (TDigest network)) (OpID operator)
    (hex_encode (SecCommitteeID secret)) (SecEpoch secret) (SecIndex secret) (b64_encode (SecSecret secret))
    (b64_encode (SecPublic secret)).

Definition VerifyShare (encoded : list byte) (certificate : VerifiedCommittee) (network : VerifiedTopology)
  : result certificate_error MemberSecret :=
  if bool_decide (encoded = []) || (MaximumCertificateBytes <? len encoded) then Err ErrShareSize
  else
    file ← obtain (share_json encoded) ErrShareDecode;
    let committee := VCCommittee certificate in
    _ ← demand (bool_decide (SFVersion file = ShareVersion) && bool_decide (SFNetworkID file = NetworkID (TDocument network)) &&
                bool_decide (SFTopologyDigest file = hex_encode (TDigest network))) ErrShareTopology;
    operator ← obtain (OperatorByID (TDocument network) (SFOperatorID file)) ErrShareOperator;
    _ ← demand (SFIndex file =? Z.of_nat (OpIndex operator)) ErrShareOperator;
    _ ← demand (bool_decide (SFCommitteeID file = hex_encode (CommID committee)) && (SFEpoch file =? CommEpoch committee) &&
                (SFIndex file <? len (CommMembers committee))) ErrShareCommittee;
    secretBytes ← obtain (decodeBase64 (SFSecret file) 32) ErrSharePrivate;
    publicBytes ← obtain (decodeBase64 (SFPublic file) 32) ErrSharePublic;
    _ ← demand (bool_decide (MemberShare <$> CommMembers committee !! Z.to_nat (SFIndex file) = Some publicBytes)) ErrSharePublic;
    let secret := mkMemberSecret (CommID committee) (SFEpoch file) (SFIndex file) secretBytes publicBytes in
    _ ← wrap ErrShareInvalid (ValidateMemberSecret committee secret);
    Ok secret.
End committee.

(** Run through the checks of a computation that ended well. *)
Ltac run_demands E :=
  repeat (match type of E with
  | (demand ?c ?e ≫= _) = _ => destruct c eqn:?; [|discriminate E]; cbn [demand] in E
  | (obtain ?o ?e ≫= _) = _ => destruct o as [?|] eqn:?; [|discriminate E]; cbn [obtain] in E
  | (wrap ?f ?r ≫= _) = _ => destruct r as [?|] eqn:?; [|discriminate E]; cbn [wrap] in E
  | (?r ≫= _) = _ => destruct r as [?|] eqn:?; [|discriminate E]
  end; cbn [mbind result_bind] in E).

(** ** What a verified certificate shows *)

Section sound.
Context `{HashFunction, SignatureScheme, KyberGroup, CommitteeJSON}.

(** The member that a manifest's entry names. *)
Definition member_named (file : MemberFile) (member : PublicMember) : Prop :=
  decodeBase64 (MFShare file) 32 = Some (MemberShare member) /\ MFIndex file = MemberIdx member.

(** The committee that a manifest names, key and members, and the transcript. *)
Definition committee_named (m : CommitteeManifest) (c : ThresholdCommittee) : Prop :=
  canonical_hex (CFID (CMCommittee m)) 32 = Some (CommID c) /\ CFEpoch (CMCommittee m) = CommEpoch c /\
  CFThreshold (CMCommittee m) = CommThreshold c /\ decodeBase64 (CFPublicKey (CMCommittee m)) 32 = Some (CommPublicKey c) /\
  Forall2 member_named (CFMembers (CMCommittee m)) (CommMembers c).

Definition transcript_named (m : CommitteeManifest) (t : DKGTranscript) : Prop :=
  decodeBase64 (TFSessionID (CMTranscript m)) 32 = Some (TranscriptSession t) /\
  canonical_hex (TFDigest (CMTranscript m)) 32 = Some (TranscriptDigest t) /\
  TFQualified (CMTranscript m) = TranscriptQualified t.

Lemma read_members_ok index files members : read_members index files = Ok members ->
  Forall2 member_named files members /\ forall i m, members !! i = Some m -> MemberIdx m = index + Z.of_nat i.
Proof.
  revert index members. induction files as [|f files IH]; intros index members; cbn [read_members].
  { intros [= <-]. split; [constructor|done]. }
  intros E. run_demands E. injection E as <-. destruct (IH _ _ Heqr) as [Hl Hi]. reflect_bools. split.
  { constructor; [|done]. split; [done|]. simpl. lia. }
  intros [|i] m Hm; [injection Hm as <-; simpl; lia|]. rewrite (Hi i m Hm). lia.
Qed.

Lemma read_identities_ok index qualified operators encoded identities :
  read_identities index qualified operators encoded = Ok identities ->
  length identities = length encoded /\
  forall i id, identities !! i = Some id -> exists o, operators !! (index + i)%nat = Some o /\
    decodeBase64 (DKGIdentityKey o) 32 = Some id /\ qualified !! (index + i)%nat = Some (Z.of_nat (index + i)).
Proof.
  revert index identities. induction encoded as [|e encoded IH]; intros index identities; cbn [read_identities].
  { intros [= <-]. done. }
  intros E. run_demands E. injection E as <-. destruct (IH _ _ Heqr) as [Hl Hi]. reflect_bools. split; [simpl; lia|].
  intros [|i] id Hid.
  - injection Hid as <-. rewrite Nat.add_0_r. match goal with Hb : DKGIdentityKey <$> _ = Some _ |- _ => apply fmap_Some in Hb as (o & Ho & ->) end. eauto.
  - rewrite <- Nat.add_succ_comm. by apply Hi.
Qed.

Record manifest_ok (m : CommitteeManifest) (network : VerifiedTopology) (c : ThresholdCommittee) (t : DKGTranscript) : Prop := {
  mo_version : CMVersion m = ManifestVersion;
  mo_network : CMNetworkID m = NetworkID (TDocument network);
  mo_topology : CMTopologyDigest m = hex_encode (TDigest network);
  mo_committee : committee_named m c;
  mo_transcript : transcript_named m t;
  mo_id : IDForTopology network = Ok (CommID c);
  mo_epoch : CommEpoch c = DocEpoch (TDocument network);
  mo_threshold : CommThreshold c = Threshold (DKG (TDocument network));
  mo_members : length (CommMembers c) = length (Operators (TDocument network));
  mo_valid : validateThresholdCommittee c = Ok tt;
  mo_identities : forall i o, Operators (TDocument network) !! i = Some o -> exists id,
    TranscriptIdentities t !! i = Some id /\ decodeBase64 (DKGIdentityKey o) 32 = Some id /\
    TranscriptQualified t !! i = Some (Z.of_nat i);
}.

Lemma verifyManifest_ok m network c t : verifyManifest m network = Ok (c, t) -> manifest_ok m network c t.
Proof.
  unfold verifyManifest. cbv zeta. intros E. run_demands E. reflect_bools. injection E as <- <-.
  destruct (read_members_ok _ _ _ Heqr0) as [Hnm _]. pose proof (Forall2_length _ _ _ Hnm) as Hlm.
  destruct (read_identities_ok _ _ _ _ _ Heqr2) as [Hli Hid].
  repeat match goal with Hb : Nat.eqb _ _ = true |- _ => apply Nat.eqb_eq in Hb end.
  split; cbn [CommID CommEpoch CommThreshold CommMembers TranscriptIdentities TranscriptQualified]; try done; try lia.
  - by destruct a1 as [].
  - intros i o Ho. pose proof (lookup_lt_Some _ _ _ Ho) as Hi.
    destruct (lookup_lt_is_Some_2 a2 i) as [id Hidi]; [lia|]. exists id. destruct (Hid i id Hidi) as (o' & Ho' & Hd & Hq).
    simpl in Ho', Hq. rewrite Ho in Ho'. injection Ho' as <-. done.
Qed.

(** An operator's own endorsement is among those of a certificate. *)
Definition endorsed (attestations : list Endorsement) (message : list byte) (o : Operator) : Prop :=
  exists a key signature, a ∈ attestations /\ EOperatorID a = OpID o /\ decodeBase64 (ESignature a) 64 = Some signature /\
    decodeBase64 (IdentityKey o) 32 = Some key /\ verify key message signature = true.

Lemma check_attestations_ok index message attestations operators :
  check_attestations index message attestations operators = Ok tt -> (length operators <= length attestations)%nat ->
  Forall (endorsed attestations message) operators.
Proof.
  revert index attestations. induction operators as [|o operators IH]; intros index attestations; [done|].
  destruct attestations as [|a attestations]; [simpl; lia|]. cbn [check_attestations]. intros E Hl. run_demands E. reflect_bools.
  constructor; [exists a; eexists _, _; split_and!; [left|eassumption..]|].
  eapply Forall_impl; [apply (IH _ _ E); simpl in Hl; lia|]. intros x (b & k & sg & Hb & Hr). exists b, k, sg. split; [by right|done].
Qed.

Lemma VerifyCertificate_ok c network v : VerifyCertificate c network = Ok v ->
  manifest_ok (VCManifest v) network (VCCommittee v) (VCTranscript v) /\ VCManifest v = CertManifest c /\
  VCDigest v = ManifestDigest (CertManifest c) /\
  Forall (endorsed (CertAttestations c) (attestationMessage (ManifestDigest (CertManifest c)))) (Operators (TDocument network)).
Proof.
  unfold VerifyCertificate. intros E. run_demands E. injection E as <-. destruct a as [committee transcript].
  apply verifyManifest_ok in Heqr. split_and!; [done..|]. destruct a0.
  eapply Forall_impl; [eapply check_attestations_ok; [eassumption|]|].
  - rewrite merge_sort_Permutation. apply Nat.eqb_eq in Heqb0. lia.
  - intros o (a & k & sg & Ha & Hr). exists a, k, sg. split; [|done]. by rewrite merge_sort_Permutation in Ha.
Qed.
End sound.

(** A certificate that verifies against a topology certifies a valid committee
    that is this topology's and no other's: its identifier is the hash of the
    topology's digest, session, epoch and threshold, it has the topology's
    threshold and one member per operator, and every operator has signed the
    manifest with the identity, and took part under the ceremony key, that the
    topology lists for it. *)
Theorem certificate_sound `{HashFunction, SignatureScheme, KyberGroup, CommitteeJSON} c network v :
  VerifyCertificate c network = Ok v ->
  let committee := VCCommittee v in
  let document := TDocument network in
  (exists session, decodeBase64 (SessionID (DKG document)) 32 = Some session /\
    CommID committee = sha256 (committee_message network session)) /\
  CommEpoch committee = DocEpoch document /\ CommThreshold committee = Threshold (DKG document) /\
  length (CommMembers committee) = length (Operators document) /\ validateThresholdCommittee committee = Ok tt /\
  forall i o, Operators document !! i = Some o ->
    (exists key signature, decodeBase64 (IdentityKey o) 32 = Some key /\
      verify key (attestationMessage (ManifestDigest (VCManifest v))) signature = true) /\
    exists id, TranscriptIdentities (VCTranscript v) !! i = Some id /\ decodeBase64 (DKGIdentityKey o) 32 = Some id /\
      TranscriptQualified (VCTranscript v) !! i = Some (Z.of_nat i).
Proof.
  intros (Hm & Ec & _ & Ha)%VerifyCertificate_ok. cbv zeta. split_and!; try apply Hm.
  - pose proof (mo_id _ _ _ _ Hm) as E. unfold IDForTopology in E. run_demands E. injection E as E. eauto.
  - intros i o Ho. split; [|by eapply (mo_identities _ _ _ _ Hm)].
    destruct (Forall_lookup_1 _ _ _ _ Ha Ho) as (a & k & sg & _ & _ & _ & Hk & Hv). exists k, sg. by rewrite Ec.
Qed.

(** ** From a ceremony to a certificate *)

Section ceremony.
Context `{HashFunction, SignatureScheme, KyberGroup, CommitteeJSON}.

(** What a ceremony run for a topology ends with. *)
Record ceremony_result (network : VerifiedTopology) (value : ThresholdCommittee) (transcript : DKGTranscript) : Prop := {
  cr_id : IDForTopology network = Ok (CommID value);
  cr_epoch : CommEpoch value = DocEpoch (TDocument network);
  cr_threshold : CommThreshold value = Threshold (DKG (TDocument network));
  cr_members : length (CommMembers value) = length (Operators (TDocument network));
  cr_valid : validateThresholdCommittee value = Ok tt;
  cr_key : length (CommPublicKey value) = 32%nat;
  cr_shares : Forall (fun m => length (MemberShare m) = 32%nat) (CommMembers value);
  cr_session : SessionID (DKG (TDocument network)) = b64_encode (TranscriptSession transcript);
  cr_digest : length (TranscriptDigest transcript) = 32%nat /\ TranscriptDigest transcript <> replicate 32 x00;
  cr_identities : map b64_encode (TranscriptIdentities transcript) = map DKGIdentityKey (Operators (TDocument network));
  cr_identity_size : Forall (fun id => length id = 32%nat) (TranscriptIdentities transcript);
  cr_qualified : TranscriptQualified transcript = map Z.of_nat (seq 0 (length (Operators (TDocument network))));
}.

Lemma validate_members_index index members : validate_members index members = Ok tt ->
  forall i m, members !! i = Some m -> MemberIdx m = index + Z.of_nat i.
Proof.
  revert index. induction members as [|m members IH]; intros index; cbn [validate_members]; [done|].
  destruct (MemberIdx m =? index) eqn:E; [|done]. cbn [negb]. intros Ev. run_demands Ev. reflect_bools.
  intros [|i] x Hx; [injection Hx as <-; lia|]. rewrite (IH _ Ev i x Hx). lia.
Qed.

Lemma validate_committee_index c : validateThresholdCommittee c = Ok tt ->
  forall i m, CommMembers c !! i = Some m -> MemberIdx m = Z.of_nat i.
Proof.
  unfold validateThresholdCommittee. destruct (isZeroCommitteeID _); [done|]. destruct (_ =? 0); [done|].
  destruct (_ || _); [done|]. destruct (_ || _); [done|]. intros E. run_demands E. intros i m Hm.
  rewrite (validate_members_index _ _ E i m Hm). lia.
Qed.

Lemma read_members_encode index members : Forall (fun m => length (MemberShare m) = 32%nat) members ->
  (forall i m, members !! i = Some m -> MemberIdx m = index + Z.of_nat i) ->
  read_members index (map (fun m => mkMemberFile (MemberIdx m) (b64_encode (MemberShare m))) members) = Ok members.
Proof.
  intros Hs. revert index. induction Hs as [|m members Hm _ IH]; intros index Hi; [done|]. cbn [map read_members MFShare MFIndex].
  rewrite decodeBase64_encode by done. cbn [obtain mbind result_bind].
  assert (MemberIdx m = index) as E by (rewrite (Hi 0%nat m eq_refl); lia). rewrite E, Z.eqb_refl. cbn [demand mbind result_bind].
  rewrite IH; [by destruct m; simpl in *; subst|]. intros i x Hx. rewrite (Hi (S i) x Hx). lia.
Qed.

Lemma read_identities_encode index qualified operators identities : Forall (fun id => length id = 32%nat) identities ->
  (forall i id, identities !! i = Some id -> DKGIdentityKey <$> operators !! (index + i)%nat = Some (b64_encode id) /\
    qualified !! (index + i)%nat = Some (Z.of_nat (index + i))) ->
  read_identities index qualified operators (map b64_encode identities) = Ok identities.
Proof.
  intros Hs. revert index. induction Hs as [|id identities Hid _ IH]; intros index Hi; [done|]. cbn [map read_identities].
  rewrite decodeBase64_encode by done. cbn [obtain mbind result_bind].
  destruct (Hi 0%nat id eq_refl) as [Ho Hq]. rewrite Nat.add_0_r in Ho, Hq. rewrite !bool_decide_true by done.
  cbn [andb demand mbind result_bind]. rewrite IH; [done|].
  intros i x Hx. rewrite Nat.add_succ_comm. by apply Hi.
Qed.

Lemma verifyManifest_of network value transcript : ceremony_result network value transcript ->
  verifyManifest (manifest_of network value transcript) network = Ok (value, transcript).
Proof.
  intros [Hid He Ht Hm Hv Hk Hsh Hse [Hdl Hdn] Hids Hidl Hq].
  assert (length (TranscriptSession transcript) = 32%nat) as Hsl.
  { unfold IDForTopology in Hid. rewrite Hse in Hid. destruct (decodeBase64 _ 32) eqn:E; [|done]. unfold decodeBase64 in E.
    rewrite DecodeBase64_encode in E. simpl in E. by destruct (Nat.eqb_spec (length (TranscriptSession transcript)) 32). }
  assert (length (TranscriptIdentities transcript) = length (Operators (TDocument network))) as Hil.
  { apply (f_equal length) in Hids. by rewrite !length_map in Hids. }
  unfold verifyManifest, manifest_of. cbv zeta. cbn [CMVersion CMNetworkID CMTopologyDigest CMCommittee CMTranscript CFID CFEpoch
    CFThreshold CFPublicKey CFMembers TFSessionID TFDigest TFIdentities TFQualified].
  rewrite !bool_decide_true by done. cbn [andb demand mbind result_bind]. rewrite Hid. cbn [mbind result_bind].
  rewrite bool_decide_true.
  2: { apply canonical_hex_encode. unfold IDForTopology in Hid. destruct (decodeBase64 _ 32); [|done]. injection Hid as <-. apply sha256_digest. }
  rewrite He, Ht, !Z.eqb_refl. cbn [andb demand mbind result_bind].
  rewrite (decodeBase64_encode (CommPublicKey value)) by done. cbn [obtain mbind result_bind].
  rewrite !length_map, Hm, Nat.eqb_refl. cbn [demand mbind result_bind].
  rewrite read_members_encode; [|done|intros i m Hi; rewrite (validate_committee_index value Hv i m Hi); lia].
  cbn [mbind result_bind]. rewrite <- He, <- Ht.
  replace (mkCommittee (CommID value) (CommEpoch value) (CommThreshold value) (CommPublicKey value) (CommMembers value)) with value by (by destruct value).
  rewrite Hv. cbn [wrap mbind result_bind]. rewrite (decodeBase64_encode (TranscriptSession transcript)) by done. cbn [obtain mbind result_bind].
  rewrite canonical_hex_encode by done. cbn [obtain mbind result_bind].
  rewrite bool_decide_false by done. cbn [andb negb demand mbind result_bind].
  rewrite Hil, Nat.eqb_refl, Hq, length_map, length_seq, Nat.eqb_refl. cbn [andb demand mbind result_bind].
  rewrite read_identities_encode; [|done|].
  - cbn [mbind result_bind]. rewrite <- Hq. by destruct transcript.
  - intros i id Hi. pose proof (lookup_lt_Some _ _ _ Hi) as Hlt. simpl. split.
    + rewrite <- (list_lookup_fmap DKGIdentityKey).
      apply (f_equal (fun l => l !! i)) in Hids. rewrite (list_lookup_fmap b64_encode), Hi in Hids. by symmetry.
    + rewrite (list_lookup_fmap Z.of_nat), lookup_seq_lt by lia. done.
Qed.

(** Every operator attests the manifest with its own identity. *)
Definition attests (m : CommitteeManifest) (operators : list Operator) (identities : list (list byte)) (attestations : list Endorsement) : Prop :=
  Forall2 (fun p a => CreateAttestation m p.1 p.2 = Ok a) (zip operators identities) attestations /\
  length identities = length operators.

Lemma attests_check m operators identities attestations n : attests m operators identities attestations ->
  (forall i o, operators !! i = Some o -> OpIndex o = (n + i)%nat) ->
  check_attestations n (attestationMessage (ManifestDigest m)) attestations operators = Ok tt /\
  StronglySorted by_index attestations /\ Forall (fun a => Z.of_nat n <= EIndex a) attestations /\ NoDup (EIndex <$> attestations).
Proof.
  intros [Ha Hl]. revert identities attestations n Ha Hl.
  induction operators as [|o operators IH]; intros [|id identities] attestations n Ha Hl Hi; try done.
  { apply Forall2_nil_inv_l in Ha as ->. split_and!; try done; constructor. }
  simpl in Ha. apply Forall2_cons_inv_l in Ha as (a & rest & Ha & Hrest & ->).
  destruct (IH identities rest (S n)) as (Hc & Hs & Hge & Hnd); [done|simpl in Hl; lia| |].
  { intros j oj Hj. rewrite (Hi (S j) oj Hj). lia. }
  unfold CreateAttestation in Ha. cbn [fst snd] in Ha. destruct (Nat.eqb_spec (length id) 64) as [Hid|]; [|done]. cbn [negb orb] in Ha.
  case_bool_decide as Hk; [|done]. cbn [negb] in Ha. injection Ha as <-.
  assert (decodeBase64 (IdentityKey o) 32 = Some (public id)) as Hdec.
  { destruct (decodeBase64 (IdentityKey o) 32) as [k|]; simpl in Hk; [by subst|]. pose proof (public_length id Hid) as Hp. by rewrite Hk in Hp. }
  cbn [check_attestations EIndex EOperatorID ESignature]. rewrite (Hi 0%nat o eq_refl), Nat.add_0_r, Z.eqb_refl, bool_decide_true by done.
  cbn [andb demand mbind result_bind]. rewrite decodeBase64_encode by apply sign_length. cbn [obtain mbind result_bind].
  rewrite Hdec. cbn [obtain mbind result_bind]. rewrite sign_verify by done. cbn [demand mbind result_bind]. split_and!; [done|..].
  - constructor; [done|]. eapply Forall_impl; [exact Hge|]. intros x Hx. unfold by_index. simpl in *. lia.
  - constructor; [simpl; lia|]. eapply Forall_impl; [exact Hge|]. simpl. intros x ?. lia.
  - constructor; [|done]. intros (x & Ex & Hx)%list_elem_of_fmap. rewrite Forall_forall in Hge. specialize (Hge x Hx). simpl in *. lia.
Qed.
End ceremony.

(** The result of a ceremony becomes a certificate: the manifest is accepted, and
    once every operator has attested it with its own identity the attestations,
    in whatever order they arrive, assemble into a certificate that verifies and
    gives back the committee and the transcript unchanged. *)
Theorem certificate_roundtrip `{HashFunction, SignatureScheme, KyberGroup, CommitteeJSON} network value transcript m identities
  attestations collected : ceremony_result network value transcript -> indexed (Operators (TDocument network)) ->
  m = manifest_of network value transcript ->
  attests m (Operators (TDocument network)) identities attestations -> collected ≡ₚ attestations ->
  NewCommitteeManifest network value transcript = Ok m /\
  exists certificate, Assemble m collected network = Ok certificate /\
    VerifyCertificate certificate network = Ok (mkVerifiedCommittee m (ManifestDigest m) value transcript).
Proof.
  intros Hr Hi -> Ha Hp. pose proof (verifyManifest_of _ _ _ Hr) as Hm. split.
  { unfold NewCommitteeManifest. by rewrite Hm. }
  exists (mkCertificate CertificateVersion (manifest_of network value transcript) collected).
  assert (VerifyCertificate (mkCertificate CertificateVersion (manifest_of network value transcript) collected) network =
    Ok (mkVerifiedCommittee (manifest_of network value transcript) (ManifestDigest (manifest_of network value transcript)) value transcript)) as Hv;
    [|unfold Assemble; by rewrite Hv].
  unfold VerifyCertificate. cbn [CertVersion CertManifest CertAttestations]. rewrite bool_decide_true by done.
  cbn [demand mbind result_bind]. rewrite Hm. cbn [mbind result_bind].
  destruct (attests_check _ _ _ _ 0 Ha) as (Hc & Hs & _ & Hnd); [intros i o Ho; by destruct (Hi i o Ho) as [-> _]|].
  assert (length attestations = length (Operators (TDocument network))) as Hl.
  { destruct Ha as [Hf Hl]. apply Forall2_length in Hf. rewrite <- Hf, length_zip_with. lia. }
  rewrite Hp, Hl, Nat.eqb_refl. cbn [demand mbind result_bind].
  assert (merge_sort by_index collected = attestations) as ->; [|by rewrite Hc].
  apply sorted_by_index_unique; [by rewrite merge_sort_Permutation|done|apply StronglySorted_merge_sort; apply _|done].
Qed.

(** ** Shares *)

Section shares.
Context `{HashFunction, SignatureScheme, KyberGroup, CommitteeJSON}.

Lemma ValidateMemberSecret_ok c m : ValidateMemberSecret c m = Ok tt ->
  SecCommitteeID m = CommID c /\ SecEpoch m = CommEpoch c /\
  (exists member, CommMembers c !! Z.to_nat (SecIndex m) = Some member /\ MemberIdx member = SecIndex m /\
    MemberShare member = SecPublic m) /\
  exists secret share, sunmarshal (SecSecret m) = Some secret /\ unmarshal (SecPublic m) = Some share /\ pmul secret Base = share.
Proof.
  unfold ValidateMemberSecret. intros E. run_demands E. destruct (_ || _) eqn:Ef; [done|]. reflect_bools.
  unfold memberForIndex in E. destruct (CommMembers c !! _) as [member|]; [|done].
  destruct (MemberIdx member =? SecIndex m) eqn:Ei; [|done]. cbn [negb mbind result_bind] in E. case_bool_decide as Hs; [|done]. cbn [negb] in E.
  destruct (sunmarshal _) as [secret|]; [|done]. destruct (unmarshal _) as [share|]; [|done]. case_bool_decide; [|done].
  reflect_bools. split_and!; [done|lia|by exists member|by exists secret, share].
Qed.

(** [VerifyShare] accepts only a secret of the certified committee. *)
Lemma VerifyShare_ok encoded v network secret : VerifyShare encoded v network = Ok secret ->
  ValidateMemberSecret (VCCommittee v) secret = Ok tt /\
  exists o, o ∈ Operators (TDocument network) /\ SecIndex secret = Z.of_nat (OpIndex o).
Proof.
  unfold VerifyShare. destruct (_ || _); [done|]. cbv zeta. intros E. run_demands E. injection E as <-.
  match goal with u : unit |- _ => destruct u end. split; [done|]. unfold OperatorByID in *. reflect_bools.
  match goal with Ho : snd <$> list_find _ _ = Some ?o |- _ =>
    apply fmap_Some in Ho as ([i x] & Hf & ->); apply list_find_Some in Hf as (Hx & _ & _); exists x end.
  split; [by eapply list_elem_of_lookup_2|done].
Qed.
End shares.

(** A member's secret survives its file: what [ShareFromSecret] writes for the
    operator that holds it is read back by [VerifyShare] as the same secret. *)
Theorem share_roundtrip `{HashFunction, SignatureScheme, KyberGroup, CommitteeJSON} v network secret i o encoded :
  ValidateMemberSecret (VCCommittee v) secret = Ok tt -> length (SecSecret secret) = 32%nat -> length (SecPublic secret) = 32%nat ->
  Operators (TDocument network) !! i = Some o -> indexed (Operators (TDocument network)) ->
  NoDup (map OpID (Operators (TDocument network))) -> SecIndex secret = Z.of_nat i ->
  encoded <> [] -> len encoded <= MaximumCertificateBytes -> share_json encoded = Some (ShareFromSecret secret o network) ->
  VerifyShare encoded v network = Ok secret.
Proof.
  intros Hv Hs Hp Ho Hi Hn Hidx Hne Hl Hj. destruct (ValidateMemberSecret_ok _ _ Hv) as (Hid & He & (member & Hm & Hmi & Hms) & _).
  unfold VerifyShare. rewrite bool_decide_false by done. rewrite (proj2 (Z.ltb_ge _ _)) by done. cbn [orb]. rewrite Hj.
  cbn [obtain mbind result_bind ShareFromSecret SFVersion SFNetworkID SFTopologyDigest SFOperatorID SFCommitteeID SFEpoch SFIndex SFSecret SFPublic].
  rewrite Hid, !bool_decide_true by done. cbn [andb demand mbind result_bind].
  assert (OperatorByID (TDocument network) (OpID o) = Some o) as ->.
  { unfold OperatorByID. apply fmap_Some. exists (i, o). split; [|done]. apply list_find_Some. split_and!; [done|done|].
    intros j x Hx Hlt E. by apply (distinct_keys OpID _ j i x o Hn Hx Ho); [lia|]. }
  cbn [obtain mbind result_bind]. destruct (Hi i o Ho) as [-> _]. rewrite Hidx, Z.eqb_refl. cbn [demand mbind result_bind].
  rewrite He, Z.eqb_refl. rewrite <- Hidx.
  pose proof (lookup_lt_Some _ _ _ Hm) as Hlt. rewrite (proj2 (Z.ltb_lt _ _)) by lia. cbn [andb demand mbind result_bind].
  rewrite (decodeBase64_encode (SecSecret secret)) by done. cbn [obtain mbind result_bind].
  rewrite (decodeBase64_encode (SecPublic secret)) by done. cbn [obtain mbind result_bind].
  rewrite Hm. cbn [fmap option_fmap option_map]. rewrite bool_decide_true by (by rewrite Hms). cbn [demand mbind result_bind].
  rewrite <- Hid, <- He. replace (mkMemberSecret (SecCommitteeID secret) (SecEpoch secret) (SecIndex secret) (SecSecret secret) (SecPublic secret))
    with secret by (by destruct secret). by rewrite Hv.
Qed.

(** ** Epochs over real topologies and certificates *)

(** The decodings of [live/epoch]: a descriptor, and the topology that
    [embeddedIdentity] reads without verifying it, which tolerates more than the
    strict decoding and agrees with it. *)
Class EpochJSON `{TopologyInputs} := {
  epoch_descriptor_json : list byte -> option Descriptor;
  embedded_json : list byte -> option Signed;
  embedded_agrees : forall b s, signed_json b = Some s -> embedded_json b = Some s;
}.

Section epochs.
Context `{HashFunction, SignatureScheme, Calendar, TopologyInputs, CommitteeJSON, !EpochJSON}.

Definition topology_digest (d : Document) : list byte :=
  match canonicalDocument d with Ok c => sha256 (topology_message topologyDigestDomain c) | Err _ => [] end.

Definition verify_embedded (b key : list byte) : option Document :=
  match VerifyTopology b key None with Ok v => Some (TDocument v) | Err _ => None end.

Definition decode_embedded (b : list byte) (d : Document) : option VerifiedCommittee :=
  match DecodeCertificate b (mkVerifiedTopology d (topology_digest d)) with Ok (_, v) => Some v | Err _ => None end.

Lemma verify_embedded_ok b key d : verify_embedded b key = Some d -> exists v, VerifyTopology b key None = Ok v /\ TDocument v = d /\
  v = mkVerifiedTopology d (topology_digest d).
Proof.
  unfold verify_embedded. destruct (VerifyTopology b key None) as [v|] eqn:E; [|done]. intros [= <-]. exists v. split_and!; [done|done|].
  apply VerifyTopology_ok in E as (s & c & g & _ & _ & _ & _ & Hc & _ & _ & Hd). unfold topology_digest. rewrite Hc, <- Hd. by destruct v.
Qed.

(** Topology and committee discharge what epochs rely on. *)
#[export] Instance epoch_inputs : EpochInputs.
Proof.
  refine {| certificate := VerifiedCommittee; descriptor_json := epoch_descriptor_json;
            topology_json := fun b => SDocument <$> embedded_json b;
            topology_verify := verify_embedded; committee_decode := decode_embedded |}.
  - intros b k d (v & E & <- & _)%verify_embedded_ok. apply VerifyTopology_ok in E as (s & c & g & Es & Ed & _).
    rewrite (embedded_agrees b s Es). simpl. by rewrite Ed.
  - intros b k d (v & E & <- & _)%verify_embedded_ok. apply VerifyTopology_ok in E as (s & c & g & Es & Ed & Hv & _).
    apply signed_json_typed in Es as (_ & He & _). apply validateDocument_ok in Hv. pose proof (ok_epoch _ Hv) as Hz.
    rewrite Ed in *. unfold fits in He. lia.
  - intros b k d (v & E & <- & _)%verify_embedded_ok. apply VerifyTopology_ok in E as (s & c & g & _ & _ & Hv & _).
    apply validateDocument_ok in Hv. split_and!; [by apply document_ok_indexed|apply Hv|apply Hv|].
    pose proof (ok_count _ Hv). lia.
Defined.
End epochs.

(** C13: An epoch descriptor that verifies carries a topology that the pinned authority
    signed and every operator attested, and a certificate whose manifest is this
    topology's, by network and digest. The committee it yields is the manifest's
    own: its identifier, epoch, threshold and public key, and each member's index
    and share, are those the manifest writes, it is a valid committee, and its
    identifier is the hash of the topology's digest, session, epoch and threshold.
    Every operator of the topology endorsed the digest of that very manifest, in
    the certificate, under the identity the topology lists for it; so neither the
    committee's key nor a member can be exchanged after the operators signed, and
    a committee cannot be moved to another topology. *)
Theorem epoch_committee_bound `{HashFunction, SignatureScheme, Calendar, TopologyInputs, CommitteeJSON, !EpochJSON}
  encoded authority previous revoked v : Verify encoded authority previous revoked = Ok v ->
  let committee := VCCommittee (VCertificate v) in
  exists network session cert, VerifyTopology (default [] (decodeBounded (DTopology (VDescriptor v)))) authority None = Ok network /\
    TDocument network = VTopology v /\ Forall (attested (VTopology v)) (Operators (VTopology v)) /\
    certificate_json (default [] (decodeBounded (DKGCertificate (VDescriptor v)))) = Some cert /\
    CMNetworkID (CertManifest cert) = NetworkID (VTopology v) /\ CMTopologyDigest (CertManifest cert) = hex_encode (TDigest network) /\
    committee_named (CertManifest cert) committee /\ validateThresholdCommittee committee = Ok tt /\
    decodeBase64 (SessionID (DKG (VTopology v))) 32 = Some session /\
    CommID committee = sha256 (committee_message network session) /\
    CommEpoch committee = DocEpoch (VTopology v) /\ CommThreshold committee = Threshold (DKG (VTopology v)) /\
    length (CommMembers committee) = length (Operators (VTopology v)) /\
    Forall (endorsed (CertAttestations cert) (attestationMessage (ManifestDigest (CertManifest cert)))) (Operators (VTopology v)).
Proof.
  unfold Verify. destruct (_ || _); [done|]. destruct (descriptor_json encoded) as [d|]; [|done].
  destruct (Digest d) as [digest|]; [|done]. cbn [mbind result_bind]. destruct (negb _); [done|].
  destruct (topology_verify _ authority) as [network|] eqn:Et; [|done].
  destruct (committee_decode _ network) as [certified|] eqn:Ec; [|done]. cbv zeta.
  destruct (negb _); [done|]. destruct (_ <? _); [done|]. destruct (_ || _); [done|]. destruct (existsb _ _); [done|].
  destruct (verifyChainLink _ _ _ _) as [[]|]; [|done]. cbn [mbind result_bind].
  destruct (verifyApprovals _ _ _ _) as [[]|]; [|done]. cbn [mbind result_bind].
  destruct (verifyActivations _ _ _) as [[]|]; [|done]. intros [= <-].
  cbn [VDescriptor VTopology VCertificate]. apply verify_embedded_ok in Et as (t & Ht & Hd & ->).
  apply VerifyTopology_ok in Ht as Hok. destruct Hok as (s & c & g & _ & _ & _ & Ha & _).
  simpl in Ec. unfold decode_embedded, DecodeCertificate in Ec. destruct (_ || _); [done|].
  destruct (certificate_json _) as [cert|] eqn:Ej; [|done]. cbn [obtain mbind result_bind] in Ec.
  destruct (VerifyCertificate cert _) as [vc|] eqn:Ev; [|done]. injection Ec as <-.
  apply VerifyCertificate_ok in Ev as (Hm & Emc & _ & Hatt). rewrite Emc in Hm.
  pose proof (mo_id _ _ _ _ Hm) as Hid. unfold IDForTopology in Hid. run_demands Hid. injection Hid as Hid.
  eexists _, _, cert. split_and!; [exact Ht|done|exact Ha|done| | | | |eassumption|by symmetry| | | |exact Hatt]; apply Hm.
Qed.

(** ** Example: the committee of the ring *)

Section example.
#[local] Existing Instance example_hash.
#[local] Existing Instance example_signatures.
#[local] Existing Instance example_calendar.
#[local] Existing Instance gf_group.
#[local] Existing Instance gf_sharing.
#[local] Existing Instance ring_inputs.

Definition ring_id : list byte := Eval vm_compute in
  match IDForTopology ring_of with Ok id => id | Err _ => [] end.

Definition ring_committee : option (ThresholdCommittee * list MemberSecret) := Eval vm_compute in
  match GenerateDealerCommittee ring_id 1 3 2 [x05; x07] with Ok r => Some r | Err _ => None end.

Definition ring_value : ThresholdCommittee := default (mkCommittee [] 0 0 [] []) (fst <$> ring_committee).
Definition ring_secret : MemberSecret := default (mkMemberSecret [] 0 0 [] []) (ring_committee ≫= fun r => r.2 !! 1%nat).

Definition ring_transcript : DKGTranscript :=
  mkTranscript (replicate 32 x09) (replicate 32 x0a) [replicate 32 x61; replicate 32 x62; replicate 32 x63] [0; 1; 2].

Definition ring_manifest : CommitteeManifest := manifest_of ring_of ring_value ring_transcript.

Definition committee_json (certificate : option Certificate) : CommitteeJSON :=
  {| manifest_json := fun m => CMTopologyDigest m ++ CFPublicKey (CMCommittee m);
     certificate_json := fun b => if bool_decide (b = [x02]) then certificate else None;
     share_json := fun b => if bool_decide (b = [x03]) then Some (ShareFromSecret ring_secret (ring_operator 1 x62) ring_of) else None |}.

Definition ring_identities : list (list byte) := [replicate 64 x61; replicate 64 x62; replicate 64 x63].

Definition ring_attestations : list Endorsement := Eval vm_compute in
  match collect (fun p => @CreateAttestation _ _ (committee_json None) ring_manifest p.1 p.2)
          (zip (Operators (TDocument ring_of)) ring_identities) with
  | Ok l => l
  | Err _ => []
  end.

Definition ring_certificate : Certificate := mkCertificate CertificateVersion ring_manifest (reverse ring_attestations).

#[local] Instance ring_json : CommitteeJSON := committee_json (Some ring_certificate).

Lemma ring_result : ceremony_result ring_of ring_value ring_transcript.
Proof.
  split; try (vm_compute; reflexivity).
  - repeat constructor.
  - split; [reflexivity|]. vm_compute. discriminate.
  - repeat constructor.
Qed.

Lemma ring_indexed : indexed (Operators (TDocument ring_of)).
Proof.
  destruct (VerifyTopology_ok _ _ _ _ ring_verifies) as (s & c & g & _ & _ & Hv & _).
  by eapply document_ok_indexed, validateDocument_ok.
Qed.

Lemma ring_attests : attests ring_manifest (Operators (TDocument ring_of)) ring_identities ring_attestations.
Proof. split; [|reflexivity]. repeat (apply Forall2_cons; split; [vm_compute; reflexivity|]). apply Forall2_nil_2. Qed.

Lemma certificate_roundtrip_witness : exists certificate,
  Assemble ring_manifest (reverse ring_attestations) ring_of = Ok certificate /\
  VerifyCertificate certificate ring_of = Ok (mkVerifiedCommittee ring_manifest (ManifestDigest ring_manifest) ring_value ring_transcript).
Proof.
  apply (certificate_roundtrip ring_of ring_value ring_transcript ring_manifest ring_identities ring_attestations (reverse ring_attestations)
    ring_result ring_indexed eq_refl ring_attests). apply reverse_Permutation.
Defined.

Definition ring_certified : VerifiedCommittee :=
  mkVerifiedCommittee ring_manifest (ManifestDigest ring_manifest) ring_value ring_transcript.

Lemma ring_certificate_verifies : VerifyCertificate ring_certificate ring_of = Ok ring_certified.
Proof. vm_compute. reflexivity. Qed.

Lemma certificate_sound_witness : VerifyCertificate ring_certificate ring_of = Ok ring_certified /\
  length (CommMembers (VCCommittee ring_certified)) = length (Operators (TDocument ring_of)).
Proof.
  split; [apply ring_certificate_verifies|].
  apply (certificate_sound ring_certificate ring_of ring_certified ring_certificate_verifies).
Defined.

Lemma share_roundtrip_witness : VerifyShare [x03] ring_certified ring_of = Ok ring_secret.
Proof.
  apply (share_roundtrip ring_certified ring_of ring_secret 1 (default (ring_operator 0 x61) (Operators (TDocument ring_of) !! 1%nat)) [x03]);
    [vm_compute; reflexivity..|apply ring_indexed|apply (bool_decide_unpack _); by vm_compute|vm_compute; reflexivity|discriminate|by vm_compute|].
  vm_compute. reflexivity.
Defined.

(** An epoch of the ring: its topology is the text [x31], its certificate [x02]. *)
Definition ring_descriptor : Descriptor := Eval vm_compute in
  let d := mkDescriptor EpochVersion (hex_encode (replicate 32 x00)) TransitionGenesis (format_time (10 * second))
             (format_time (50 * second)) (b64_encode [x31]) (b64_encode [x02]) [] [] [] in
  match collect (fun p => Activate d p.1 p.2) (zip (Operators (TDocument ring_of)) ring_identities) with
  | Ok l => endorse d [] l
  | Err _ => d
  end.

#[local] Instance ring_epoch_json : EpochJSON.
Proof.
  refine {| epoch_descriptor_json := fun b => if bool_decide (b = [x04]) then Some ring_descriptor else None;
            embedded_json := signed_json |}.
  done.
Defined.

Lemma ring_epoch_verifies : is_ok (Verify [x04] (public ring_authority) None ∅) = true.
Proof. vm_compute. reflexivity. Qed.

Lemma epoch_committee_bound_witness : exists v network cert, Verify [x04] (public ring_authority) None ∅ = Ok v /\
  VerifyTopology (default [] (decodeBounded (DTopology (VDescriptor v)))) (public ring_authority) None = Ok network /\
  TDocument network = VTopology v /\ committee_named (CertManifest cert) (VCCommittee (VCertificate v)).
Proof.
  pose proof ring_epoch_verifies as Hok. destruct (Verify [x04] (public ring_authority) None ∅) as [v|] eqn:E; [|discriminate Hok].
  destruct (epoch_committee_bound [x04] (public ring_authority) None ∅ v E) as (network & session & cert & Hn & Hd & _ & _ & _ & _ & Hc & _).
  exists v, network, cert. split; [reflexivity|]. split; [exact Hn|]. split; [exact Hd|exact Hc].
Defined.
End example.
