(* ===== verification/Rounds.v ===== *)
(** Signed mixing rounds
    ([components/nomad-anytrust-mix-sim/mix/transcript.go] and [blame.go]):
    receipts, their verification, the tracker of replayed and equivocating
    receipts, and the attribution of faults in a chain of rounds. *)

From stdpp Require Import base list list_numbers gmap strings.
From Stdlib Require Import ZArith Lia Strings.Byte.
From S2P Require Import Prelude Bytes Hash Codec Checkpoint Kyber Mix Threshold.

(** ** Data *)

Definition contextualShuffleProofLabel : list byte := String.list_byte_of_string "nomad-contextual-neff-shuffle-v1".
Definition roundContextDomain : list byte := String.list_byte_of_string "nomad-mix-round-context-v1".
Definition roundReceiptDomain : list byte := String.list_byte_of_string "nomad-mix-round-receipt-v1".
Definition receiptDigestDomain : list byte := String.list_byte_of_string "nomad-mix-receipt-digest-v1".

Record RoundContext := mkRoundContext {
  CtxCommittee : list byte;
  CtxEpoch : Z;
  CtxBatchID : list byte;
  CtxRound : Z;
}.

#[export] Instance RoundContext_eq_dec : EqDecision RoundContext.
Proof. solve_decision. Defined.

Record RoundReceipt := mkReceipt {
  RecContext : RoundContext;
  MixerPublic : list byte;
  InputDigest : list byte;
  OutputDigest : list byte;
  ProofDigest : list byte;
  RecSignature : list byte;
}.

Inductive round_error :=
| ErrRoundCommittee
| ErrRoundEpoch
| ErrRoundBatch
| ErrMixerKey
| ErrBatchID
| ErrRoundMix (e : mix_error)
| ErrInputMismatch
| ErrOutputMismatch
| ErrProofMismatch
| ErrReceiptSignature
| ErrForeignReceipt
| ErrTrackerContext
| ErrRoundReplay
| ErrRoundEquivocate.

(** ** Receipts *)

Section receipts.
Context `{HashFunction}.

Definition validateRoundContext (ctx : RoundContext) : result round_error unit :=
  if isZeroCommitteeID (CtxCommittee ctx) then Err ErrRoundCommittee
  else if CtxEpoch ctx =? 0 then Err ErrRoundEpoch
  else if bool_decide (CtxBatchID ctx = zeroID) then Err ErrRoundBatch
  else Ok tt.

Definition roundContextDigest (ctx : RoundContext) : list byte :=
  sha256 (roundContextDomain ++ CtxCommittee ctx ++ be 8 (CtxEpoch ctx) ++ CtxBatchID ctx ++ be 4 (CtxRound ctx)).

Definition contextualShuffleProofDomain (ctx : RoundContext) : list byte :=
  contextualShuffleProofLabel ++ [x3a] ++ hex_encode (roundContextDigest ctx).

Definition receiptSigningMessage (receipt : RoundReceipt) (encryptionKey : list byte) : list byte :=
  sha256 (roundReceiptDomain ++ roundContextDigest (RecContext receipt) ++ encryptionKey ++ MixerPublic receipt ++
    InputDigest receipt ++ OutputDigest receipt ++ ProofDigest receipt).

Definition receiptDigest (receipt : RoundReceipt) : list byte :=
  sha256 (receiptDigestDomain ++ roundContextDigest (RecContext receipt) ++ MixerPublic receipt ++
    InputDigest receipt ++ OutputDigest receipt ++ ProofDigest receipt ++ RecSignature receipt).

(** The tracker of one committee epoch: the digest accepted for each batch and
    round. *)
Record ReceiptTracker := mkTracker {
  trackCommittee : list byte;
  trackEpoch : Z;
  seen : gmap (list byte * Z) (list byte);
}.

Definition NewReceiptTracker (committeeID : list byte) (epoch : Z) : result round_error ReceiptTracker :=
  if isZeroCommitteeID committeeID || (epoch =? 0) then Err ErrTrackerContext
  else Ok (mkTracker committeeID epoch ∅).

Definition TrackerAccept (t : ReceiptTracker) (receipt : RoundReceipt) : ReceiptTracker * result round_error unit :=
  if negb (bool_decide (CtxCommittee (RecContext receipt) = trackCommittee t)) || negb (CtxEpoch (RecContext receipt) =? trackEpoch t)
  then (t, Err ErrForeignReceipt)
  else
    let digest := receiptDigest receipt in
    let key := (CtxBatchID (RecContext receipt), CtxRound (RecContext receipt)) in
    match seen t !! key with
    | Some previous => if bool_decide (previous = digest) then (t, Err ErrRoundReplay) else (t, Err ErrRoundEquivocate)
    | None => (mkTracker (trackCommittee t) (trackEpoch t) (<[key := digest]> (seen t)), Ok tt)
    end.
End receipts.

Section rounds.
Context `{HashFunction, SignatureScheme, KyberGroup, !Shuffles}.

(** [r] is the randomness of the shuffle. *)
Definition ShuffleAndSign (ctx : RoundContext) (encryptionKey : list byte) (input : option Batch) (identity r : list byte)
  : result round_error (Batch * list byte * RoundReceipt) :=
  _ ← validateRoundContext ctx;
  if negb (Nat.eqb (length identity) 64) then Err ErrMixerKey
  else
    inputDigest ← wrap ErrRoundMix (BatchDigest input);
    if negb (bool_decide (CtxBatchID ctx = inputDigest)) then Err ErrBatchID
    else
      op ← wrap ErrRoundMix (shuffleAndProveWithDomain encryptionKey input (contextualShuffleProofDomain ctx) r);
      let '(output, encodedProof) := op in
      outputDigest ← wrap ErrRoundMix (BatchDigest (Some output));
      let unsigned := mkReceipt ctx (public identity) inputDigest outputDigest (sha256 encodedProof) [] in
      let signature := sign identity (receiptSigningMessage unsigned encryptionKey) in
      Ok (output, encodedProof, mkReceipt ctx (public identity) inputDigest outputDigest (sha256 encodedProof) signature).

Definition VerifySignedRound (encryptionKey : list byte) (input output : option Batch) (encodedProof : list byte)
  (receipt : RoundReceipt) : result round_error unit :=
  _ ← validateRoundContext (RecContext receipt);
  inputDigest ← wrap ErrRoundMix (BatchDigest input);
  outputDigest ← wrap ErrRoundMix (BatchDigest output);
  if negb (bool_decide (CtxBatchID (RecContext receipt) = inputDigest)) || negb (bool_decide (InputDigest receipt = inputDigest))
  then Err ErrInputMismatch
  else if negb (bool_decide (OutputDigest receipt = outputDigest)) then Err ErrOutputMismatch
  else if negb (bool_decide (ProofDigest receipt = sha256 encodedProof)) then Err ErrProofMismatch
  else if negb (verify (MixerPublic receipt) (receiptSigningMessage receipt encryptionKey) (RecSignature receipt))
  then Err ErrReceiptSignature
  else wrap ErrRoundMix (verifyShuffleWithDomain encryptionKey input output encodedProof
         (contextualShuffleProofDomain (RecContext receipt))).

(** ** Faults *)

(** The last two kinds are those of [availability.go]. *)
Inductive FaultKind := FaultUnsoundRound | FaultForgedReceipt | FaultBrokenLinkage | FaultWrongCommittee
  | FaultUnavailable | FaultFalseAvailabilityReport.

Record SignedRound := mkSignedRound {
  SRound : Round;
  SReceipt : RoundReceipt;
}.

(** The text of the reason is left out. *)
Record FaultReport := mkFault {
  Kind : FaultKind;
  FaultRound : Z;
  Accused : list byte;
  Attributable : bool;
}.

(** The loop of [AttributeFault] from round [index] on; [previous] is the round
    before, if there is one. *)
Fixpoint attribute_rounds (encryptionKey : list byte) (committee : ThresholdCommittee) (mixers : list (list byte))
  (index : Z) (previous : option SignedRound) (rounds : list SignedRound) : option FaultReport :=
  match rounds with
  | [] => None
  | round :: rounds =>
      let receipt := SReceipt round in
      let mixer := MixerPublic receipt in
      match Input (SRound round), Output (SRound round) with
      | Some _, Some _ =>
          if negb (bool_decide (mixer ∈ mixers)) then Some (mkFault FaultWrongCommittee index mixer true)
          else if negb (bool_decide (CtxCommittee (RecContext receipt) = CommID committee)) ||
                  negb (CtxEpoch (RecContext receipt) =? CommEpoch committee)
          then Some (mkFault FaultWrongCommittee index mixer true)
          else
            let linkage :=
              match previous with
              | None => None
              | Some before =>
                  match BatchDigest (Output (SRound before)) with
                  | Err _ => Some (mkFault FaultBrokenLinkage (index - 1) [] false)
                  | Ok previousDigest =>
                      match BatchDigest (Input (SRound round)) with
                      | Err _ => Some (mkFault FaultBrokenLinkage index [] false)
                      | Ok current =>
                          if bool_decide (previousDigest = current) then None
                          else Some (mkFault FaultBrokenLinkage index [] false)
                      end
                  end
              end in
            match linkage with
            | Some fault => Some fault
            | None =>
                match VerifySignedRound encryptionKey (Input (SRound round)) (Output (SRound round)) (ShuffleProof (SRound round)) receipt with
                | Err _ =>
                    if negb (verify mixer (receiptSigningMessage receipt encryptionKey) (RecSignature receipt))
                    then Some (mkFault FaultForgedReceipt index mixer false)
                    else Some (mkFault FaultUnsoundRound index mixer true)
                | Ok _ => attribute_rounds encryptionKey committee mixers (index + 1) (Some round) rounds
                end
            end
      | _, _ => Some (mkFault FaultBrokenLinkage index [] false)
      end
  end.

Definition AttributeFault (encryptionKey : list byte) (committee : ThresholdCommittee) (mixers : list (list byte))
  (rounds : list SignedRound) : option FaultReport :=
  match rounds with
  | [] => Some (mkFault FaultBrokenLinkage 0 [] false)
  | _ => attribute_rounds encryptionKey committee mixers 0 None rounds
  end.

#[export] Instance FaultKind_eq_dec : EqDecision FaultKind.
Proof. solve_decision. Defined.

(** [true] is the nil error. *)
Definition VerifyFaultReport (encryptionKey : list byte) (committee : ThresholdCommittee) (mixers : list (list byte))
  (rounds : list SignedRound) (report : FaultReport) : bool :=
  match AttributeFault encryptionKey committee mixers rounds with
  | None => false
  | Some derived =>
      if negb (bool_decide (Kind derived = Kind report)) || negb (FaultRound derived =? FaultRound report) ||
         negb (Bool.eqb (Attributable derived) (Attributable report))
      then false
      else bool_decide (Accused derived = Accused report)
  end.
End rounds.

(** ** Digests determine batches *)

Lemma concat_inj {A} k (l1 l2 : list (list A)) : Forall (fun l => length l = k) l1 -> Forall (fun l => length l = k) l2 ->
  length l1 = length l2 -> concat l1 = concat l2 -> l1 = l2.
Proof.
  intros H1. revert l2. induction H1 as [|x l1 Hx _ IH]; intros [|y l2] H2 Hl E; try done.
  apply Forall_cons in H2 as [Hy H2]. cbn [concat] in E. apply app_inj_1 in E as [-> E]; [|congruence].
  f_equal. apply IH; [done|simpl in Hl; lia|done].
Qed.

Lemma last_default {A} (l : list A) a d : List.last (a :: l) d = List.last l a.
Proof. revert a d. induction l as [|b l IH]; intros a d; [done|]. change (List.last (a :: b :: l) d) with (List.last (b :: l) d). by rewrite !IH. Qed.

Section digests.
Context `{HashFunction, KyberGroup}.

Definition batch_message (b : Batch) : list byte := batchDomain ++ concat (map marshal (digest_points b)).

Definition digest_row (b : Batch) (n row : nat) : list point :=
  concat (map (fun col => [at_ (batch_x b) row col; at_ (batch_y b) row col]) (seq 0 n)).

Lemma digest_points_rows b n : batch_wf b n -> digest_points b = concat (map (digest_row b n) (seq 0 ChunkCount)).
Proof. intros Hb. unfold digest_points. by rewrite (Len_wf b n Hb). Qed.

Lemma length_digest_row b n row : length (digest_row b n row) = (2 * n)%nat.
Proof. unfold digest_row. by rewrite length_pairs, length_seq. Qed.

Lemma digest_rows_shape b n : rectangular ChunkCount (2 * n) (map (digest_row b n) (seq 0 ChunkCount)).
Proof.
  split; [by rewrite length_map, length_seq|]. apply Forall_map, Forall_forall. intros row _. apply length_digest_row.
Qed.

(** A batch is determined by the message its digest is taken of. *)
Lemma batch_message_inj b1 b2 n m : batch_wf b1 n -> batch_wf b2 m -> batch_message b1 = batch_message b2 -> b1 = b2.
Proof.
  intros B1 B2 E. unfold batch_message in E. apply app_inv_head in E.
  assert (digest_points b1 = digest_points b2) as Ed.
  { pose proof (length_points (digest_points b1)) as L1. pose proof (length_points (digest_points b2)) as L2.
    rewrite E in L1. rewrite L1 in L2. assert (length (digest_points b1) = length (digest_points b2)) as L by (unfold pointSize in L2; lia).
    apply concat_inj with (k := 32%nat) in E.
    - by apply (inj (map marshal)) in E.
    - apply Forall_map, Forall_forall. intros p _. apply length_marshal.
    - apply Forall_map, Forall_forall. intros p _. apply length_marshal.
    - by rewrite !length_map. }
  rewrite (digest_points_rows b1 n B1), (digest_points_rows b2 m B2) in Ed.
  assert (n = m) as <-.
  { apply (f_equal length) in Ed. rewrite (length_concat_rect _ _ _ (digest_rows_shape b1 n)) in Ed.
    rewrite (length_concat_rect _ _ _ (digest_rows_shape b2 m)) in Ed. unfold ChunkCount in Ed. lia. }
  apply concat_inj with (k := (2 * n)%nat) in Ed; [|apply digest_rows_shape|apply digest_rows_shape|by rewrite !length_map].
  apply (batch_eq b1 b2 n B1 B2). intros row col Hr Hc.
  assert (digest_row b1 n row = digest_row b2 n row) as Er.
  { apply (f_equal (.!! row)) in Ed. change map with (@fmap list _) in Ed.
    rewrite !list_lookup_fmap, lookup_seq_lt in Ed by done. simpl in Ed. by injection Ed. }
  unfold digest_row in Er.
  destruct (lookup_pairs (fun col => at_ (batch_x b1) row col) (fun col => at_ (batch_y b1) row col) n col Hc) as [X1 Y1].
  destruct (lookup_pairs (fun col => at_ (batch_x b2) row col) (fun col => at_ (batch_y b2) row col) n col Hc) as [X2 Y2].
  rewrite Er in X1, Y1. rewrite X2 in X1. rewrite Y2 in Y1. by simplify_eq.
Qed.

Lemma BatchDigest_inv ob d : BatchDigest ob = Ok d ->
  exists b n, ob = Some b /\ batch_wf b n /\ d = sha256 (batch_message b).
Proof.
  unfold BatchDigest. destruct (validateBatch ob) as [[]|] eqn:E; [|done]. cbn [mbind result_bind].
  destruct ob as [b|]; [|done]. intros [= <-]. apply validateBatch_ok in E as [n Hb]. by exists b, n.
Qed.
End digests.

(** ** Rounds that verify *)

Section chain.
Context `{HashFunction, SignatureScheme, KyberGroup, !Shuffles}.

(** The shuffle proof of a round, if accepted, is of a true statement. *)
Definition round_sound (key : list byte) (r : SignedRound) : Prop :=
  forall b b' h cs, Input (SRound r) = Some b -> Output (SRound r) = Some b' -> publicPoint key = Ok h ->
    sequenceChallenges key (Some b) (Some b') = Ok cs ->
    shuffle_sound (contextualShuffleProofDomain (RecContext (SReceipt r))) h ChunkCount (Len (Some b))
      (batch_x b) (batch_y b) (batch_x b') (batch_y b') cs (ShuffleProof (SRound r)).

Definition round_messages (rounds : list SignedRound) : list (list byte) :=
  concat (map (fun r => map batch_message (option_list (Input (SRound r)) ++ option_list (Output (SRound r)))) rounds).

Lemma VerifySignedRound_ok key ob ob' proof receipt : VerifySignedRound key ob ob' proof receipt = Ok tt ->
  exists b b' n m, ob = Some b /\ ob' = Some b' /\ batch_wf b n /\ batch_wf b' m /\
    CtxBatchID (RecContext receipt) = sha256 (batch_message b) /\ InputDigest receipt = sha256 (batch_message b) /\
    OutputDigest receipt = sha256 (batch_message b') /\ ProofDigest receipt = sha256 proof /\
    verify (MixerPublic receipt) (receiptSigningMessage receipt key) (RecSignature receipt) = true /\
    verifyShuffleWithDomain key (Some b) (Some b') proof (contextualShuffleProofDomain (RecContext receipt)) = Ok tt.
Proof.
  unfold VerifySignedRound. destruct (validateRoundContext _) as [[]|]; [|done]. cbn [mbind result_bind].
  destruct (BatchDigest ob) as [d|] eqn:E1; [|done]. cbn [wrap mbind result_bind].
  destruct (BatchDigest ob') as [d'|] eqn:E2; [|done]. cbn [wrap mbind result_bind].
  destruct (negb (bool_decide (CtxBatchID _ = d)) || _) eqn:Ei; [done|]. apply orb_false_iff in Ei as [Ei Ej].
  destruct (negb (bool_decide (OutputDigest receipt = d'))) eqn:Eo; [done|].
  destruct (negb (bool_decide (ProofDigest receipt = _))) eqn:Ep; [done|].
  destruct (negb (verify _ _ _)) eqn:Ev; [done|]. reflect_bools.
  destruct (verifyShuffleWithDomain key ob ob' proof _) as [[]|] eqn:Es; [|done]. intros _.
  apply BatchDigest_inv in E1 as (b & n & -> & Hb & ->), E2 as (b' & m & -> & Hb' & ->).
  exists b, b', n, m. by split_and!.
Qed.

Lemma verifyShuffle_reencrypts key h b b' n m proof domain : publicPoint key = Ok h -> batch_wf b n -> batch_wf b' m ->
  verifyShuffleWithDomain key (Some b) (Some b') proof domain = Ok tt ->
  (forall cs, sequenceChallenges key (Some b) (Some b') = Ok cs ->
     shuffle_sound domain h ChunkCount n (batch_x b) (batch_y b) (batch_x b') (batch_y b') cs proof) ->
  n = m /\ reencrypts h ChunkCount n (batch_x b) (batch_y b) (batch_x b') (batch_y b').
Proof.
  intros Hh Hb Hb' Hv Hs. revert Hv. unfold verifyShuffleWithDomain. destruct (bool_decide (proof = [])); [done|].
  destruct (bool_decide (domain = [])); [done|].
  rewrite (proj2 (validateBatch_ok b)), (proj2 (validateBatch_ok b')) by eauto. cbn [wrap mbind result_bind].
  rewrite (Len_wf b n Hb), (Len_wf b' m Hb'). destruct (Nat.eqb n m) eqn:En; [|done]. apply Nat.eqb_eq in En. cbn [negb].
  rewrite Hh. cbn [mbind result_bind]. destruct (sequenceChallenges key _ _) as [cs|] eqn:Ec; [|done]. cbn [mbind result_bind].
  destruct (shuffle_verify _ _ _ _ _ _ _ _) eqn:Ev; [|done]. intros _. split; [done|]. by apply (Hs cs).
Qed.

(** Columns of honestly formed ciphertexts stay so. *)
Definition honest_batch (b : Batch) (n : nat) : Prop :=
  forall row col, (row < ChunkCount)%nat -> (col < n)%nat -> prime_order (at_ (batch_x b) row col).

Lemma mixes_honest s b b' n : mixes s n b b' -> honest_batch b n -> honest_batch b' n.
Proof.
  intros (perm & Hperm & Hm) Hb row col Hr Hc.
  destruct (lookup_lt_is_Some_2 perm col) as [i Hi]; [by rewrite Hperm, length_seq|].
  destruct (Hm col i Hi) as [_ Hp]. apply Hp; [|done]. intros row' Hr'. apply Hb; [done|].
  assert (i ∈ perm) as Hin by (by eapply list_elem_of_lookup_2). rewrite Hperm in Hin. apply elem_of_seq in Hin. lia.
Qed.

Lemma Encrypt_honest pub cells draws b : Encrypt pub cells draws = Ok b -> honest_batch b (length cells).
Proof.
  intros Hb row col Hr Hc. destruct (Encrypt_ok _ _ _ _ Hb) as (h & _ & _ & _ & Hat).
  specialize (Hat row col Hr Hc). unfold encrypt_chunk in Hat. injection Hat as -> _. apply prime_order_base.
Qed.

(** One step of an accepted chain. *)
Lemma attribute_cons key c mixers i prev r rs : attribute_rounds key c mixers i prev (r :: rs) = None ->
  MixerPublic (SReceipt r) ∈ mixers /\
  VerifySignedRound key (Input (SRound r)) (Output (SRound r)) (ShuffleProof (SRound r)) (SReceipt r) = Ok tt /\
  (forall before, prev = Some before -> exists d, BatchDigest (Output (SRound before)) = Ok d /\ BatchDigest (Input (SRound r)) = Ok d) /\
  attribute_rounds key c mixers (i + 1) (Some r) rs = None.
Proof.
  cbn [attribute_rounds]. destruct (Input (SRound r)) as [b|] eqn:Ei; [|done]. destruct (Output (SRound r)) as [b'|] eqn:Eo; [|done].
  destruct (bool_decide (MixerPublic _ ∈ mixers)) eqn:Em; [|done]. cbn [negb]. destruct (_ || _); [done|].
  apply bool_decide_eq_true in Em. destruct prev as [before|].
  - destruct (BatchDigest (Output (SRound before))) as [d|] eqn:E1; [|done].
    destruct (BatchDigest (Some b)) as [d'|] eqn:E2; [|done]. case_bool_decide as Ed; [|done]. subst d'.
    destruct (VerifySignedRound key _ _ _ _) as [[]|] eqn:Ev; [|by destruct (negb _)]. intros Hrs.
    split_and!; [done|done| |done]. intros ? [= <-]. by exists d.
  - destruct (VerifySignedRound key _ _ _ _) as [[]|] eqn:Ev; [|by destruct (negb _)]. intros Hrs.
    split_and!; [done|done|done|done].
Qed.

(** An accepted chain takes its first input to its last output. *)
Lemma accepted_chain key s c mixers i prev r rs : attribute_rounds key c mixers i prev (r :: rs) = None ->
  publicPoint key = Ok (pmul s Base) -> Forall (round_sound key) (r :: rs) -> collision_free (round_messages (r :: rs)) ->
  exists b b' n, Input (SRound r) = Some b /\ Output (SRound (List.last rs r)) = Some b' /\ batch_wf b n /\ batch_wf b' n /\
    mixes s n b b'.
Proof.
  intros Ha Hk. revert i prev r Ha. induction rs as [|r2 rs IH]; intros i prev r Ha Hs Hcf.
  all: destruct (attribute_cons _ _ _ _ _ _ _ Ha) as (_ & Hv & _ & Hrest).
  all: apply VerifySignedRound_ok in Hv as (b & b1 & n & m & Ei & Eo & Hb & Hb1 & _ & _ & _ & _ & _ & Hsh).
  all: apply Forall_cons in Hs as [Hr Hs].
  all: destruct (verifyShuffle_reencrypts key _ b b1 n m _ _ Hk Hb Hb1 Hsh) as [<- Hre];
    [intros cs Hcs; rewrite <- (Len_wf b n Hb); by apply Hr|].
  - exists b, b1, n. split_and!; [done|done|done|done|by apply reencrypts_mixes].
  - assert (collision_free (round_messages (r2 :: rs))) as Hcf2.
    { eapply collision_free_mono; [|exact Hcf]. unfold round_messages. cbn [map concat]. set_solver. }
    destruct (IH _ _ _ Hrest Hs Hcf2) as (b2 & b' & n' & Ei2 & Eo' & Hb2 & Hb' & Hp).
    destruct (attribute_cons _ _ _ _ _ _ _ Hrest) as (_ & _ & Hlink & _). destruct (Hlink r eq_refl) as (d & D1 & D2).
    rewrite Eo in D1. rewrite Ei2 in D2. apply BatchDigest_inv in D1 as (? & ? & [= <-] & _ & ->), D2 as (? & ? & [= <-] & _ & D2).
    assert (b1 = b2) as <-.
    { eapply batch_message_inj; [exact Hb1|exact Hb2|]. apply Hcf; [..|exact D2]; unfold round_messages; cbn [map concat];
        rewrite ?Ei, ?Eo, ?Ei2; set_solver. }
    assert (n' = n) as -> by (rewrite <- (Len_wf b1 n Hb1), <- (Len_wf b1 n' Hb2); done).
    exists b, b', n. split_and!; [done| |done|done|].
    + by rewrite last_default.
    + eapply mixes_trans; [by apply reencrypts_mixes|done].
Qed.
End chain.

(** A chain of rounds in which no fault is found only permutes: whatever mixers
    produced it and whoever assembled it, the holder of the key decrypts from the
    last output the cells of the first input, each whole, in some order.
    Accepted shuffle proofs are assumed sound and the hash free of collisions on
    the batches of the chain. *)
Theorem accepted_chain_permutes `{HashFunction, SignatureScheme, KyberGroup, !Shuffles} key s c mixers r rs :
  AttributeFault key c mixers (r :: rs) = None -> publicPoint key = Ok (pmul s Base) ->
  Forall (round_sound key) (r :: rs) -> collision_free (round_messages (r :: rs)) ->
  exists b b' n, Input (SRound r) = Some b /\ Output (SRound (List.last rs r)) = Some b' /\
    Len (Some b) = n /\ Len (Some b') = n /\ plain_cells s b' n ≡ₚ plain_cells s b n.
Proof.
  intros Ha Hk Hs Hcf. destruct (accepted_chain key s c mixers _ _ _ _ Ha Hk Hs Hcf) as (b & b' & n & Hi & Ho & Hb & Hb' & Hp).
  exists b, b', n. rewrite (Len_wf b n Hb), (Len_wf b' n Hb'). split_and!; [done..|by apply mixes_plain].
Qed.

Section keys.
Context `{HashFunction, KyberGroup, !Sharing, !RepProofs}.

Lemma committee_key c secret a : validateThresholdCommittee c = Ok tt -> dealt c secret a ->
  publicPoint (CommPublicKey c) = Ok (pmul secret Base).
Proof.
  intros Hv (_ & Hk & _). unfold validateThresholdCommittee in Hv. destruct (isZeroCommitteeID _); [done|].
  destruct (_ =? 0); [done|]. destruct ((len _ <? _) || (_ <? _)); [done|]. destruct ((CommThreshold c <? 2) || _); [done|].
  destruct (publicPoint (CommPublicKey c)) as [p|] eqn:E; [|done]. revert E. rewrite Hk. unfold publicPoint.
  rewrite unmarshal_marshal. destruct (rejectSmallOrder _); [|done]. cbn [mbind result_bind]. by intros [= <-].
Qed.
End keys.

(** C2: End to end: cells encrypted to the committee's key, mixed through any chain
    of rounds in which no fault is found, and decrypted from partials of any
    quorum that verify, come out whole, in some order, and nothing else does. *)
Theorem mixnet_end_to_end `{HashFunction, SignatureScheme, KyberGroup, !Shuffles, !Sharing, !RepProofs}
  c secret a cells draws b mixers r rs b' partials
  (visit : nat -> nat -> list (Z * list point) -> list (Z * list point)) :
  validateThresholdCommittee c = Ok tt -> dealt c secret a -> Forall (fun x => length x = PlainCellSize) cells ->
  Encrypt (CommPublicKey c) cells draws = Ok b -> Input (SRound r) = Some b -> Output (SRound (List.last rs r)) = Some b' ->
  AttributeFault (CommPublicKey c) c mixers (r :: rs) = None ->
  Forall (round_sound (CommPublicKey c)) (r :: rs) -> collision_free (round_messages (r :: rs)) ->
  Forall (fun p => VerifyPartialDecryption c (Some b') (Some p) = Ok tt /\ partial_sound c b' p) partials ->
  NoDup (members_of partials) -> CommThreshold c <= len partials -> (forall col row l, visit col row l ≡ₚ l) ->
  exists mixed, ThresholdDecrypt c (Some b') (map Some partials) visit = Ok mixed /\ mixed ≡ₚ cells.
Proof.
  intros Hv Hd Hc He Hin Hout Ha Hs Hcf Hp Hnd Hq Hvisit. pose proof (committee_key c secret a Hv Hd) as Hk.
  destruct (accepted_chain _ secret c mixers _ _ _ _ Ha Hk Hs Hcf) as (b0 & b1 & n & Hi & Ho & Hb & Hb' & Hmix).
  pose proof (mixes_plain _ _ _ _ Hmix) as Hpl.
  rewrite Hin in Hi. rewrite Hout in Ho. simplify_eq.
  destruct (Encrypt_ok _ _ _ _ He) as (_ & _ & _ & Hwf & _).
  assert (n = length cells) as -> by (rewrite <- (Len_wf b0 n Hb), (Len_wf b0 _ Hwf); done).
  destruct (threshold_columns c secret a b1 (length cells) partials visit Hv Hd Hb' Hp Hnd Hq Hvisit)
    as (columns & Hcols & Hlen & Hcol).
  pose proof (mixes_honest _ _ _ _ Hmix (Encrypt_honest _ _ _ _ He)) as Hhon.
  assert (columns = plain_cells secret b1 (length cells)) as ->.
  { apply list_eq_same_length with (length cells); [by unfold plain_cells; rewrite length_map, length_seq|done|].
    intros col x y Hcl Hx Hy. rewrite (Hcol col Hcl) in Hx by (intros; by apply Hhon).
    unfold plain_cells in Hy. apply map_lookup_Some_1 in Hy as (k & Hk' & ->). apply lookup_seq in Hk' as [-> _]. by simplify_eq. }
  rewrite (encrypted_plain secret _ cells draws b0 Hk He Hc) in Hpl.
  destruct (Permutation_map_inv Ok _ Hpl) as (mixed & Em & Hm). exists mixed. split; [|by symmetry].
  unfold ThresholdDecrypt. rewrite Hcols. cbn [mbind result_bind]. rewrite Em, collect_map.
  etransitivity; [apply (collect_total (fun x => x))|]. by rewrite map_id.
Qed.

(** ** Honest rounds *)

Section honest.
Context `{HashFunction, SignatureScheme, KyberGroup, !Shuffles}.

(** What a mixer that follows the protocol produces verifies. *)
Lemma ShuffleAndSign_ok ctx key h b n identity r out proof receipt : batch_wf b n -> publicPoint key = Ok h ->
  ShuffleAndSign ctx key (Some b) identity r = Ok (out, proof, receipt) ->
  batch_wf out n /\ RecContext receipt = ctx /\ MixerPublic receipt = public identity /\
  verify (public identity) (receiptSigningMessage receipt key) (RecSignature receipt) = true /\
  ProofDigest receipt = sha256 proof /\
  VerifySignedRound key (Some b) (Some out) proof receipt = Ok tt /\
  reencrypts h ChunkCount n (batch_x b) (batch_y b) (batch_x out) (batch_y out).
Proof.
  intros Hb Hk. unfold ShuffleAndSign. destruct (validateRoundContext ctx) as [[]|] eqn:Hc; [|done]. cbn [mbind result_bind].
  destruct (Nat.eqb (length identity) 64) eqn:Hi; [|done]. apply Nat.eqb_eq in Hi. cbn [negb].
  rewrite (BatchDigest_ok b n Hb). cbn [wrap mbind result_bind]. case_bool_decide as Hid; [|done]. cbn [negb].
  destruct (honest_shuffle key h b n (contextualShuffleProofDomain ctx) r Hb Hk ltac:(done)) as (b' & pf & Hs & Hb' & Hv & Hre).
  rewrite Hs. cbn [wrap mbind result_bind]. rewrite (BatchDigest_ok b' n Hb'). cbn [wrap mbind result_bind]. intros [= <- <- <-].
  set (receipt := mkReceipt _ _ _ _ _ _). cbn [RecContext MixerPublic RecSignature ProofDigest receipt].
  assert (verify (public identity) (receiptSigningMessage receipt key) (RecSignature receipt) = true) as Hsig
    by (apply sign_verify; done).
  split_and!; try done. unfold VerifySignedRound. cbn [RecContext receipt]. rewrite Hc. cbn [mbind result_bind].
  rewrite (BatchDigest_ok b n Hb). cbn [wrap mbind result_bind]. rewrite (BatchDigest_ok b' n Hb'). cbn [wrap mbind result_bind].
  rewrite Hid. cbn [InputDigest OutputDigest ProofDigest MixerPublic receipt]. rewrite !bool_decide_true by done. cbn [negb orb].
  fold receipt. rewrite Hsig. cbn [negb]. by rewrite Hv.
Qed.

(** A chain in which every round was produced by a mixer of the list from the
    output of the round before. *)
Inductive honest_chain (key : list byte) (c : ThresholdCommittee) (mixers : list (list byte)) : Batch -> list SignedRound -> Prop :=
| honest_done b : honest_chain key c mixers b []
| honest_next b out ctx identity r proof receipt rest :
    CtxCommittee ctx = CommID c -> CtxEpoch ctx = CommEpoch c -> public identity ∈ mixers ->
    ShuffleAndSign ctx key (Some b) identity r = Ok (out, proof, receipt) ->
    honest_chain key c mixers out rest ->
    honest_chain key c mixers b (mkSignedRound (mkRound (Some b) (Some out) proof) receipt :: rest).

Lemma honest_chain_rounds key h c mixers b n rounds i prev : publicPoint key = Ok h -> batch_wf b n ->
  honest_chain key c mixers b rounds -> (forall before, prev = Some before -> Output (SRound before) = Some b) ->
  attribute_rounds key c mixers i prev rounds = None.
Proof.
  intros Hk Hb Hch. revert n i prev Hb. induction Hch as [b|b out ctx identity r proof receipt rest Hc He Hm Hs _ IH];
    intros n i prev Hb Hprev; [done|].
  destruct (ShuffleAndSign_ok _ _ _ _ _ _ _ _ _ _ Hb Hk Hs) as (Hout & Ectx & Emix & _ & _ & Hv & _).
  cbn [attribute_rounds SRound SReceipt Input Output ShuffleProof]. rewrite Ectx, Emix, Hc, He, !bool_decide_true, Z.eqb_refl by done.
  cbn [negb orb].
  assert (match prev with
    | None => None
    | Some before => match BatchDigest (Output (SRound before)) with
      | Ok previousDigest => match BatchDigest (Some b) with
        | Ok current => if bool_decide (previousDigest = current) then None else Some (mkFault FaultBrokenLinkage i [] false)
        | Err _ => Some (mkFault FaultBrokenLinkage i [] false) end
      | Err _ => Some (mkFault FaultBrokenLinkage (i - 1) [] false) end end = None) as ->.
  { destruct prev as [before|]; [|done]. rewrite (Hprev before eq_refl), (BatchDigest_ok b n Hb). by rewrite bool_decide_true. }
  rewrite Hv. eapply IH; [exact Hout|]. by intros ? [= <-].
Qed.
End honest.

(** Honest mixers are never blamed: a chain of rounds that mixers of the
    committee produced from one another is accepted, whatever the keys, the
    randomness and the number of rounds. *)
Theorem honest_chain_accepted `{HashFunction, SignatureScheme, KyberGroup, !Shuffles} key h c mixers b n rounds :
  publicPoint key = Ok h -> batch_wf b n -> honest_chain key c mixers b rounds -> rounds <> [] ->
  AttributeFault key c mixers rounds = None.
Proof.
  intros Hk Hb Hch Hne. unfold AttributeFault. destruct rounds; [done|]. by eapply honest_chain_rounds.
Qed.

(** What the reports mean: the rounds before the one reported verify; a round
    reported as unsound does not verify and its receipt carries the accused
    mixer's signature; a receipt reported as forged does not verify under the key
    it names and nobody is held responsible. *)
Theorem fault_meaning `{HashFunction, SignatureScheme, KyberGroup, !Shuffles} key c mixers rounds f :
  AttributeFault key c mixers rounds = Some f -> Kind f = FaultUnsoundRound \/ Kind f = FaultForgedReceipt ->
  exists r, rounds !! Z.to_nat (FaultRound f) = Some r /\ Accused f = MixerPublic (SReceipt r) /\ Accused f ∈ mixers /\
    VerifySignedRound key (Input (SRound r)) (Output (SRound r)) (ShuffleProof (SRound r)) (SReceipt r) <> Ok tt /\
    Attributable f = bool_decide (Kind f = FaultUnsoundRound) /\
    Attributable f = verify (Accused f) (receiptSigningMessage (SReceipt r) key) (RecSignature (SReceipt r)) /\
    Forall (fun r => VerifySignedRound key (Input (SRound r)) (Output (SRound r)) (ShuffleProof (SRound r)) (SReceipt r) = Ok tt)
      (take (Z.to_nat (FaultRound f)) rounds).
Proof.
  unfold AttributeFault. destruct rounds as [|r0 rs0]; [intros [= <-] [?|?]; done|].
  assert (forall rounds prev i, attribute_rounds key c mixers (Z.of_nat i) prev rounds = Some f ->
    Kind f = FaultUnsoundRound \/ Kind f = FaultForgedReceipt ->
    exists j r, FaultRound f = Z.of_nat (i + j) /\ rounds !! j = Some r /\ Accused f = MixerPublic (SReceipt r) /\ Accused f ∈ mixers /\
    VerifySignedRound key (Input (SRound r)) (Output (SRound r)) (ShuffleProof (SRound r)) (SReceipt r) <> Ok tt /\
    Attributable f = bool_decide (Kind f = FaultUnsoundRound) /\
    Attributable f = verify (Accused f) (receiptSigningMessage (SReceipt r) key) (RecSignature (SReceipt r)) /\
    Forall (fun r => VerifySignedRound key (Input (SRound r)) (Output (SRound r)) (ShuffleProof (SRound r)) (SReceipt r) = Ok tt)
      (take j rounds)) as Hgen.
  { clear. intros rounds. induction rounds as [|r rs IH]; intros prev i; [done|]. cbn [attribute_rounds].
    destruct (Input (SRound r)) as [b|] eqn:Ei; [|intros [= <-] [?|?]; done].
    destruct (Output (SRound r)) as [b'|] eqn:Eo; [|intros [= <-] [?|?]; done].
    destruct (bool_decide (MixerPublic (SReceipt r) ∈ mixers)) eqn:Em; [|intros [= <-] [?|?]; done].
    apply bool_decide_eq_true in Em. cbn [negb]. destruct (_ || _); [intros [= <-] [?|?]; done|].
    set (linkage := match prev with Some _ => _ | None => None end).
    assert (linkage = None \/ exists g, linkage = Some g /\ Kind g = FaultBrokenLinkage) as Hlink.
    { unfold linkage. clear. destruct prev; [|by left]. destruct (BatchDigest (Output _)); [|right; eauto].
      destruct (BatchDigest (Some b)); [|right; eauto]. case_bool_decide; [by left|right; eauto]. }
    destruct Hlink as [->|(g & -> & Hg)]; [|intros [= ->] [?|?]; congruence].
    destruct (VerifySignedRound key (Some b) (Some b') _ _) as [[]|e] eqn:Ev.
    - intros Ha Hkind. replace (Z.of_nat i + 1) with (Z.of_nat (S i)) in Ha by lia.
      destruct (IH _ _ Ha Hkind) as (j & r' & Hj & Hr & H1' & H2' & H3' & H4' & H5' & Hf). exists (S j), r'.
      split_and!; try done; [lia|]. constructor; [by rewrite Ei, Eo|done].
    - destruct (verify _ _ _) eqn:Es; cbn [negb]; intros [= <-] _; exists 0%nat, r; rewrite Nat.add_0_r;
        cbn [FaultRound Accused Kind Attributable]; rewrite Es, Ei, Eo, Ev; split_and!; try done;
        try (symmetry; by apply bool_decide_true); try (symmetry; by apply bool_decide_false); constructor. }
  intros Ha Hkind. destruct (Hgen _ _ 0%nat Ha Hkind) as (j & r & Hj & Hrest). exists r. rewrite Hj, Nat.add_0_l, Nat2Z.id. exact Hrest.
Qed.

(** Blame can be turned on an honest mixer.  Taking a round an honest mixer
    signed and replacing the proof that travels with its receipt by any other
    bytes yields a report that holds that mixer responsible for an unsound round,
    and the report passes re-verification against that transcript; and a receipt
    nobody signed, which names a member of the committee and another epoch, is
    attributed to that member. *)
Theorem honest_mixer_framed `{HashFunction, SignatureScheme, KyberGroup, !Shuffles} key h c mixers b n ctx identity r out proof receipt bad forged :
  publicPoint key = Ok h -> batch_wf b n -> CtxCommittee ctx = CommID c -> CtxEpoch ctx = CommEpoch c -> public identity ∈ mixers ->
  ShuffleAndSign ctx key (Some b) identity r = Ok (out, proof, receipt) -> sha256 bad <> sha256 proof ->
  MixerPublic forged = public identity -> CtxEpoch (RecContext forged) <> CommEpoch c ->
  let framed := [mkSignedRound (mkRound (Some b) (Some out) bad) receipt] in
  let report := mkFault FaultUnsoundRound 0 (public identity) true in
  AttributeFault key c mixers framed = Some report /\ VerifyFaultReport key c mixers framed report = true /\
  AttributeFault key c mixers [mkSignedRound (mkRound (Some b) (Some out) proof) forged] =
    Some (mkFault FaultWrongCommittee 0 (public identity) true).
Proof.
  intros Hk Hb Hc He Hm Hs Hbad Hf Hfe framed report.
  destruct (ShuffleAndSign_ok _ _ _ _ _ _ _ _ _ _ Hb Hk Hs) as (Hout & Ectx & Emix & Hsig & Hpd & Hv & _).
  assert (exists e, VerifySignedRound key (Some b) (Some out) bad receipt = Err e) as [e Ev].
  { destruct (VerifySignedRound key (Some b) (Some out) bad receipt) as [[]|e] eqn:Ev; [|by exists e].
    apply VerifySignedRound_ok in Ev as (? & ? & ? & ? & _ & _ & _ & _ & _ & _ & _ & Hp & _). congruence. }
  assert (AttributeFault key c mixers framed = Some report) as Hreport.
  { unfold AttributeFault, framed. cbn [attribute_rounds SRound SReceipt Input Output ShuffleProof].
    rewrite Ectx, Emix, Hc, He, !bool_decide_true, Z.eqb_refl by done. cbn [negb orb]. by rewrite Ev, Hsig. }
  split_and!; [done| |].
  - unfold VerifyFaultReport. rewrite Hreport. cbn [Kind FaultRound Attributable Accused report].
    by rewrite !bool_decide_true by done.
  - unfold AttributeFault. cbn [attribute_rounds SRound SReceipt Input Output]. rewrite Hf, bool_decide_true by done. cbn [negb].
    apply Z.eqb_neq in Hfe. rewrite Hfe. cbn [negb]. by rewrite orb_true_r.
Qed.

(** ** The tracker *)

Section tracker.
Context `{HashFunction}.

(** The receipts a tracker accepted, newest first, over a run of calls. *)
Fixpoint track (t : ReceiptTracker) (accepted : list RoundReceipt) (calls : list RoundReceipt) : ReceiptTracker * list RoundReceipt :=
  match calls with
  | [] => (t, accepted)
  | receipt :: calls =>
      match TrackerAccept t receipt with
      | (t', Ok _) => track t' (receipt :: accepted) calls
      | (t', Err _) => track t' accepted calls
      end
  end.

Definition receipt_key (r : RoundReceipt) : list byte * Z := (CtxBatchID (RecContext r), CtxRound (RecContext r)).

Definition tracker_inv (t : ReceiptTracker) (accepted : list RoundReceipt) : Prop :=
  (forall k d, seen t !! k = Some d <-> exists r, r ∈ accepted /\ receipt_key r = k /\ receiptDigest r = d) /\
  NoDup (map receipt_key accepted).

Lemma TrackerAccept_inv t accepted receipt : tracker_inv t accepted ->
  match TrackerAccept t receipt with
  | (t', Ok _) => tracker_inv t' (receipt :: accepted) /\ trackCommittee t' = trackCommittee t /\ trackEpoch t' = trackEpoch t
  | (t', Err _) => t' = t
  end.
Proof.
  intros [Hs Hnd]. unfold TrackerAccept. destruct (_ || _); [done|]. cbv zeta. fold (receipt_key receipt).
  destruct (seen t !! receipt_key receipt) as [d|] eqn:E; [by case_bool_decide|].
  split_and!; [|done|done]. split.
  - intros k d. cbn [seen]. rewrite lookup_insert_Some, Hs. split.
    + intros [[<- <-]|(Hk & r & Hr & Hkr & Hd)]; [exists receipt; set_solver|exists r; set_solver].
    + intros (r & Hr & Hk & Hd). apply elem_of_cons in Hr as [-> |Hr]; [by left|]. right. split; [|by exists r].
      intros Ek. assert (seen t !! k = Some d) as Hsome by (apply Hs; by exists r). congruence.
  - cbn [map]. constructor; [|done]. intros (r & Hk & Hr)%list_elem_of_fmap.
    assert (seen t !! receipt_key receipt = Some (receiptDigest r)) as Hsome by (apply Hs; by exists r). congruence.
Qed.

Lemma track_inv t accepted calls : tracker_inv t accepted ->
  tracker_inv (track t accepted calls).1 (track t accepted calls).2 /\
  trackCommittee (track t accepted calls).1 = trackCommittee t /\ trackEpoch (track t accepted calls).1 = trackEpoch t.
Proof.
  revert t accepted. induction calls as [|receipt calls IH]; intros t accepted Hinv; [done|]. cbn [track].
  pose proof (TrackerAccept_inv t accepted receipt Hinv) as Ha. destruct (TrackerAccept t receipt) as [t' [[]|e]].
  - destruct Ha as (Hinv' & Ec & Ee). destruct (IH t' (receipt :: accepted) Hinv') as (? & ? & ?). split_and!; [done|congruence|congruence].
  - subst t'. by apply IH.
Qed.
End tracker.

(** The tracker implements its history: after any run of calls, the accepted
    receipts name distinct batches and rounds, and the next receipt of the
    tracked committee epoch is accepted exactly if none was accepted for its
    batch and round, refused as a replay exactly if the one accepted has its
    digest, and refused as an equivocation exactly if it has another. *)
Theorem tracker_refines_history `{HashFunction} id epoch t0 calls receipt :
  NewReceiptTracker id epoch = Ok t0 -> CtxCommittee (RecContext receipt) = id -> CtxEpoch (RecContext receipt) = epoch ->
  let '(t, accepted) := track t0 [] calls in
  NoDup (map receipt_key accepted) /\
  ((TrackerAccept t receipt).2 = Ok tt <-> forall r, r ∈ accepted -> receipt_key r <> receipt_key receipt) /\
  ((TrackerAccept t receipt).2 = Err ErrRoundReplay <->
     exists r, r ∈ accepted /\ receipt_key r = receipt_key receipt /\ receiptDigest r = receiptDigest receipt) /\
  ((TrackerAccept t receipt).2 = Err ErrRoundEquivocate <->
     exists r, r ∈ accepted /\ receipt_key r = receipt_key receipt /\ receiptDigest r <> receiptDigest receipt).
Proof.
  intros Hnew Hid Hep. unfold NewReceiptTracker in Hnew. destruct (_ || _); [done|]. apply (inj Ok) in Hnew as <-.
  assert (tracker_inv (mkTracker id epoch ∅) []) as H0.
  { split; [|constructor]. intros k d. cbn [seen]. rewrite lookup_empty. split; [done|]. intros (r & Hr & _). by apply elem_of_nil in Hr. }
  pose proof (track_inv _ [] calls H0) as Ht. destruct (track (mkTracker id epoch ∅) [] calls) as [t accepted].
  cbn [fst snd] in Ht. destruct Ht as ([Hs Hnd] & Ec & Ee). cbn [trackCommittee trackEpoch] in Ec, Ee. split; [done|].
  unfold TrackerAccept. rewrite Ec, Ee, Hid, Hep, bool_decide_true, Z.eqb_refl by done. cbn [negb orb]. cbv zeta.
  fold (receipt_key receipt). destruct (seen t !! receipt_key receipt) as [d|] eqn:E.
  - apply Hs in E as (r & Hr & Hk & Hd).
    assert (forall r', r' ∈ accepted -> receipt_key r' = receipt_key receipt -> receiptDigest r' = d) as Huniq.
    { intros r' Hr' Hk'. assert (seen t !! receipt_key receipt = Some (receiptDigest r')) as E1 by (apply Hs; by exists r').
      assert (seen t !! receipt_key receipt = Some d) as E2 by (apply Hs; by exists r). congruence. }
    case_bool_decide as Heq; cbn [snd]; split_and!; split; try done;
      try (intros Hno; exfalso; by apply (Hno r)); try (intros _; exists r; split_and!; congruence);
      intros (r' & Hr' & Hk' & Hd'); pose proof (Huniq r' Hr' Hk'); congruence.
  - cbn [snd]. assert (forall r', r' ∈ accepted -> receipt_key r' <> receipt_key receipt) as Hno.
    { intros r' Hr' Hk'. assert (seen t !! receipt_key receipt = Some (receiptDigest r')) as E1 by (apply Hs; by exists r'). congruence. }
    split_and!; split; try done; intros (r' & Hr' & Hk' & _); exfalso; by apply (Hno r').
Qed.

(** ** Examples *)

Section example.
#[local] Existing Instance example_hash.
#[local] Existing Instance example_signatures.
#[local] Existing Instance gf_group.
#[local] Existing Instance gf_shuffles.
#[local] Existing Instance gf_sharing.
#[local] Existing Instance gf_rep_proofs.

Definition example_batch : Batch :=
  match Encrypt (GenerateKey example_secret).1 example_cells example_draws with Ok b => b | Err _ => mkBatch [] [] end.
Definition example_mixer : list byte := replicate 64 x11.
Definition example_mixers : list (list byte) := [public example_mixer].
Definition example_ctx : RoundContext :=
  mkRoundContext example_id 1 (match BatchDigest (Some example_batch) with Ok d => d | Err _ => [] end) 0.
Definition example_round : result round_error (Batch * list byte * RoundReceipt) :=
  ShuffleAndSign example_ctx (CommPublicKey example_committee) (Some example_batch) example_mixer [x03; x04].
Definition signed_of (p : Batch * list byte * RoundReceipt) : SignedRound :=
  mkSignedRound (mkRound (Some example_batch) (Some p.1.1) p.1.2) p.2.

Lemma example_batch_ok : Encrypt (CommPublicKey example_committee) example_cells example_draws = Ok example_batch.
Proof.
  destruct example_encrypts as [b Hb]. unfold example_batch. change (CommPublicKey example_committee) with (GenerateKey example_secret).1.
  by rewrite Hb.
Qed.

Lemma example_batch_wf : batch_wf example_batch 3.
Proof. by destruct (Encrypt_ok _ _ _ _ example_batch_ok) as (_ & _ & _ & Hwf & _). Qed.

Lemma example_committee_key : publicPoint (CommPublicKey example_committee) = Ok (pmul example_secret Base).
Proof. apply example_key. Qed.

(** The round is accepted, and the example hash tells its batches apart. *)
Lemma example_round_ok : exists p, example_round = Ok p /\
  AttributeFault (CommPublicKey example_committee) example_committee example_mixers [signed_of p] = None /\
  collision_free (round_messages [signed_of p]).
Proof.
  assert (match example_round with
          | Ok p => match AttributeFault (CommPublicKey example_committee) example_committee example_mixers [signed_of p] with
                    | None => collision_freeb (round_messages [signed_of p])
                    | Some _ => false end
          | Err _ => false end = true) as E by (vm_compute; reflexivity).
  destruct example_round as [p|]; [|discriminate E]. exists p. split; [reflexivity|].
  destruct (AttributeFault _ _ _ _); [discriminate E|]. split; [reflexivity|]. by apply collision_freeb_ok.
Qed.

Lemma example_round_sound p : Forall (round_sound (CommPublicKey example_committee)) [signed_of p].
Proof.
  constructor; [|constructor]. intros b b' h cs [= <-] [= <-] _ _. destruct example_batch_wf as (_ & Hx & Hy).
  rewrite (Len_wf _ _ example_batch_wf). by apply gf_shuffle_sound.
Qed.

Lemma accepted_chain_permutes_witness : exists p b b' n, example_round = Ok p /\
  Input (SRound (signed_of p)) = Some b /\ Output (SRound (signed_of p)) = Some b' /\
  plain_cells example_secret b' n ≡ₚ plain_cells example_secret b n.
Proof.
  destruct example_round_ok as (p & Hp & Ha & Hcf).
  destruct (accepted_chain_permutes _ example_secret _ _ (signed_of p) [] Ha example_committee_key (example_round_sound p) Hcf)
    as (b & b' & n & Hi & Ho & _ & _ & Hpl).
  exists p, b, b', n. split; [exact Hp|split; [exact Hi|split; [exact Ho|exact Hpl]]].
Defined.

Lemma example_output p : example_round = Ok p -> batch_wf p.1.1 3.
Proof.
  intros Hp. destruct p as [[out proof] receipt]. unfold example_round in Hp.
  by destruct (ShuffleAndSign_ok example_ctx _ _ _ _ example_mixer [x03; x04] _ _ _ example_batch_wf example_committee_key Hp) as (Hout & _).
Qed.

Lemma mixnet_end_to_end_witness : exists p partials mixed, example_round = Ok p /\
  ThresholdDecrypt example_committee (Some p.1.1) (map Some partials) (fun _ _ l => l) = Ok mixed /\ mixed ≡ₚ example_cells.
Proof.
  destruct example_round_ok as (p & Hp & Ha & Hcf). destruct example_dealt as [Hv Hd].
  destruct (example_partials p.1.1 3 (example_output p Hp)) as (p1 & p2 & Hm & Hf).
  destruct (mixnet_end_to_end example_committee example_secret [x09] example_cells example_draws example_batch example_mixers
    (signed_of p) [] p.1.1 [p1; p2] (fun _ _ l => l) Hv Hd example_sizes example_batch_ok eq_refl eq_refl Ha
    (example_round_sound p) Hcf Hf) as (mixed & Hdec & Hmix).
  - rewrite Hm. apply (bool_decide_unpack _). exact I.
  - simpl. lia.
  - reflexivity.
  - exists p, [p1; p2], mixed. split; [exact Hp|split; [exact Hdec|exact Hmix]].
Defined.

Lemma honest_chain_accepted_witness : exists p, example_round = Ok p /\
  AttributeFault (CommPublicKey example_committee) example_committee example_mixers [signed_of p] = None.
Proof.
  destruct example_round_ok as (p & Hp & _). exists p. split; [exact Hp|]. destruct p as [[out proof] receipt].
  apply (honest_chain_accepted _ _ _ _ example_batch 3 _ example_committee_key example_batch_wf); [|discriminate].
  unfold example_round in Hp.
  apply (honest_next _ _ _ _ out example_ctx example_mixer [x03; x04]); [reflexivity|reflexivity|left|exact Hp|apply honest_done].
Defined.

Definition example_framed (p : Batch * list byte * RoundReceipt) : list SignedRound :=
  [mkSignedRound (mkRound (Some example_batch) (Some p.1.1) [x00]) p.2].

Lemma example_frame : exists p, example_round = Ok p /\ sha256 [x00] <> sha256 p.1.2 /\
  AttributeFault (CommPublicKey example_committee) example_committee example_mixers (example_framed p) =
    Some (mkFault FaultUnsoundRound 0 (public example_mixer) true).
Proof.
  destruct example_round_ok as (p & Hp & _). exists p. split; [exact Hp|].
  assert (match example_round with Ok p => negb (bool_decide (sha256 [x00] = sha256 p.1.2)) | Err _ => false end = true) as E
    by (vm_compute; reflexivity).
  rewrite Hp in E. apply negb_true_iff, bool_decide_eq_false in E. split; [exact E|].
  destruct p as [[out proof] receipt]. simpl in E.
  assert (match example_round with
          | Ok p => match AttributeFault (CommPublicKey example_committee) example_committee example_mixers (example_framed p) with
                    | Some f => bool_decide (Kind f = FaultUnsoundRound) && (FaultRound f =? 0) &&
                                bool_decide (Accused f = public example_mixer) && Attributable f
                    | None => false end
          | Err _ => false end = true) as F by (vm_compute; reflexivity).
  rewrite Hp in F. destruct (AttributeFault _ _ _ (example_framed (out, proof, receipt))) as [[k i acc att]|]; [|discriminate F].
  apply andb_true_iff in F as [F Fa]. apply andb_true_iff in F as [F Fb]. apply andb_true_iff in F as [Fk Fi]. cbn in *.
  apply bool_decide_eq_true in Fk, Fb. apply Z.eqb_eq in Fi. by subst.
Qed.

Lemma fault_meaning_witness : exists p r, example_round = Ok p /\ example_framed p !! 0%nat = Some r /\
  VerifySignedRound (CommPublicKey example_committee) (Input (SRound r)) (Output (SRound r)) (ShuffleProof (SRound r)) (SReceipt r) <> Ok tt.
Proof.
  destruct example_frame as (p & Hp & _ & Hf).
  destruct (fault_meaning _ _ _ _ _ Hf (or_introl eq_refl)) as (r & Hr & _ & _ & Hv & _).
  exists p, r. split; [exact Hp|split; [exact Hr|exact Hv]].
Defined.

Definition example_forgery : RoundReceipt := mkReceipt (mkRoundContext example_id 2 [] 0) (public example_mixer) [] [] [] [].

Lemma honest_mixer_framed_witness : exists p, example_round = Ok p /\
  VerifyFaultReport (CommPublicKey example_committee) example_committee example_mixers (example_framed p)
    (mkFault FaultUnsoundRound 0 (public example_mixer) true) = true.
Proof.
  destruct example_frame as (p & Hp & Hne & _). exists p. split; [exact Hp|]. destruct p as [[out proof] receipt].
  unfold example_round in Hp.
  eapply (honest_mixer_framed _ _ example_committee example_mixers example_batch 3 example_ctx example_mixer [x03; x04] out proof receipt [x00] example_forgery
    example_committee_key example_batch_wf).
  - reflexivity.
  - reflexivity.
  - left.
  - exact Hp.
  - exact Hne.
  - reflexivity.
  - discriminate.
Defined.

(** Three calls: a receipt, the same again, and another for the same round. *)
Definition tracked (s : byte) : RoundReceipt := mkReceipt (mkRoundContext example_id 1 [x01] 0) [] [] [] [] [s].

Lemma tracker_refines_history_witness : exists t0, NewReceiptTracker example_id 1 = Ok t0 /\
  (TrackerAccept (track t0 [] [tracked x01]).1 (tracked x01)).2 = Err ErrRoundReplay /\
  (TrackerAccept (track t0 [] [tracked x01]).1 (tracked x02)).2 = Err ErrRoundEquivocate.
Proof.
  exists (mkTracker example_id 1 ∅). split; [reflexivity|].
  pose proof (tracker_refines_history example_id 1 (mkTracker example_id 1 ∅) [tracked x01] (tracked x01) eq_refl eq_refl eq_refl) as T1.
  pose proof (tracker_refines_history example_id 1 (mkTracker example_id 1 ∅) [tracked x01] (tracked x02) eq_refl eq_refl eq_refl) as T2.
  assert ((track (mkTracker example_id 1 ∅) [] [tracked x01]).2 = [tracked x01]) as Ea by reflexivity.
  destruct (track (mkTracker example_id 1 ∅) [] [tracked x01]) as [t accepted]. simpl in Ea. subst accepted.
  destruct T1 as (_ & _ & T1 & _), T2 as (_ & _ & _ & T2). split.
  - apply T1. exists (tracked x01). split; [left|split; reflexivity].
  - apply T2. exists (tracked x01). split; [left|split; [reflexivity|]]. apply (bool_decide_unpack _). vm_compute. exact I.
Defined.
End example.
