(* ===== verification/Availability.v ===== *)
(** Availability of mixers ([mix/availability.go]): the public deadline of a
    round, signed statements that a round had not arrived by it, reports of a
    quorum of such statements, and their refutation. *)

From stdpp Require Import base list list_numbers gmap strings.
From Stdlib Require Import ZArith Lia Strings.Byte.
From S2P Require Import Prelude Bytes Hash Checkpoint Kyber Mix Threshold Rounds.

(** Instants are Unix nanoseconds and durations nanoseconds, both [int64]. *)
Record RoundSchedule := mkRoundSchedule {
  EpochStart : Z;
  BatchInterval : Z;
  RoundBudget : Z;
}.

Inductive availability_error :=
| ErrEpochStart
| ErrIntervals
| ErrSlotOverflow
| ErrRoundOverflow
| ErrAvailabilityContext (e : round_error)
| ErrNeedsDeadline
| ErrObserverKey
| ErrSelfReport
| ErrObserverSignature
| ErrNeedsQuorum
| ErrReportCommittee
| ErrAccusedUnknown
| ErrDifferentRound (index : nat)
| ErrObserverUnknown (index : nat)
| ErrObservation (index : nat) (e : availability_error)
| ErrObserverRepeated (index : nat)
| ErrBelowQuorum
| ErrNotRefuted.

Definition round_schedule_validate (s : RoundSchedule) : result availability_error unit :=
  if EpochStart s <=? 0 then Err ErrEpochStart
  else if (BatchInterval s <=? 0) || (RoundBudget s <=? 0) then Err ErrIntervals
  else Ok tt.

(** [slot] is a [uint64], [round] a [uint32]; products, sums and conversions
    wrap, and the division truncates. *)
Definition Deadline (s : RoundSchedule) (slot round : Z) : result availability_error Z :=
  _ ← round_schedule_validate s;
  let slotStart := i64 (EpochStart s + i64 (i64 slot * BatchInterval s)) in
  if negb (slot =? 0) && negb (Z.quot (i64 (slotStart - EpochStart s)) (BatchInterval s) =? i64 slot) then Err ErrSlotOverflow
  else
    let deadline := i64 (slotStart + i64 (u32 (round + 1) * RoundBudget s)) in
    if deadline <=? slotStart then Err ErrRoundOverflow else Ok deadline.

Record NonReceipt := mkNonReceipt {
  NonContext : RoundContext;
  NonDeadline : Z;
  NonAccused : list byte;
  NonObserver : list byte;
  NonSignature : list byte;
}.

Record AvailabilityReport := mkReport {
  RepContext : RoundContext;
  RepDeadline : Z;
  RepAccused : list byte;
  Observations : list NonReceipt;
}.

Record Refutation := mkRefutation {
  RefReport : AvailabilityReport;
  Contradicted : list (list byte);
}.

Definition nonReceiptDomain : list byte := String.list_byte_of_string "nomad-mix-non-receipt-v1".

Section statements.
Context `{HashFunction, SignatureScheme}.

Definition nonReceiptSigningMessage (s : NonReceipt) : list byte :=
  sha256 (nonReceiptDomain ++ roundContextDigest (NonContext s) ++ be 8 (u64 (NonDeadline s)) ++ NonAccused s ++ NonObserver s).

Definition SignNonReceipt (ctx : RoundContext) (deadline : Z) (accused observer : list byte) : result availability_error NonReceipt :=
  _ ← wrap ErrAvailabilityContext (validateRoundContext ctx);
  if deadline <=? 0 then Err ErrNeedsDeadline
  else if negb (Nat.eqb (length observer) 64) then Err ErrObserverKey
  else if negb (Nat.eqb (length (public observer)) 32) then Err ErrObserverKey
  else
    let unsigned := mkNonReceipt ctx deadline accused (public observer) [] in
    if bool_decide (NonObserver unsigned = NonAccused unsigned) then Err ErrSelfReport
    else Ok (mkNonReceipt ctx deadline accused (public observer) (sign observer (nonReceiptSigningMessage unsigned))).

Definition VerifyNonReceipt (s : NonReceipt) : result availability_error unit :=
  _ ← wrap ErrAvailabilityContext (validateRoundContext (NonContext s));
  if NonDeadline s <=? 0 then Err ErrNeedsDeadline
  else if bool_decide (NonObserver s = NonAccused s) then Err ErrSelfReport
  else if negb (verify (NonObserver s) (nonReceiptSigningMessage s) (NonSignature s)) then Err ErrObserverSignature
  else Ok tt.

(** The loop over the observations from [index] on; the result is the distinct
    observers. *)
Fixpoint count_observers (mixers : list (list byte)) (report : AvailabilityReport) (index : nat) (distinct : list (list byte))
  (observations : list NonReceipt) : result availability_error (list (list byte)) :=
  match observations with
  | [] => Ok distinct
  | s :: observations =>
      if negb (bool_decide (NonContext s = RepContext report)) || negb (NonDeadline s =? RepDeadline report)
         || negb (bool_decide (NonAccused s = RepAccused report))
      then Err (ErrDifferentRound index)
      else if negb (bool_decide (NonObserver s ∈ mixers)) then Err (ErrObserverUnknown index)
      else
        _ ← wrap (ErrObservation index) (VerifyNonReceipt s);
        if bool_decide (NonObserver s ∈ distinct) then Err (ErrObserverRepeated index)
        else count_observers mixers report (S index) (distinct ++ [NonObserver s]) observations
  end.

Definition VerifyAvailabilityReport (committee : ThresholdCommittee) (mixers : list (list byte)) (report : AvailabilityReport) (quorum : Z)
  : result availability_error unit :=
  if quorum <=? 0 then Err ErrNeedsQuorum
  else
    _ ← wrap ErrAvailabilityContext (validateRoundContext (RepContext report));
    if negb (bool_decide (CtxCommittee (RepContext report) = CommID committee)) || negb (CtxEpoch (RepContext report) =? CommEpoch committee)
    then Err ErrReportCommittee
    else if RepDeadline report <=? 0 then Err ErrNeedsDeadline
    else if negb (bool_decide (RepAccused report ∈ mixers)) then Err ErrAccusedUnknown
    else
      distinct ← count_observers mixers report 0 [] (Observations report);
      if len distinct <? quorum then Err ErrBelowQuorum else Ok tt.
End statements.

Section refutations.
Context `{HashFunction, SignatureScheme, KyberGroup, !Shuffles}.

Definition RefuteAvailabilityReport (encryptionKey : list byte) (committee : ThresholdCommittee) (mixers : list (list byte))
  (report : AvailabilityReport) (quorum : Z) (round : SignedRound) : result availability_error Refutation :=
  _ ← VerifyAvailabilityReport committee mixers report quorum;
  if negb (bool_decide (MixerPublic (SReceipt round) = RepAccused report)) then Err ErrNotRefuted
  else if negb (bool_decide (RecContext (SReceipt round) = RepContext report)) then Err ErrNotRefuted
  else match Input (SRound round), Output (SRound round) with
  | Some input, Some output =>
      match VerifySignedRound encryptionKey (Some input) (Some output) (ShuffleProof (SRound round)) (SReceipt round) with
      | Err _ => Err ErrNotRefuted
      | Ok _ => Ok (mkRefutation report (map NonObserver (Observations report)))
      end
  | _, _ => Err ErrNotRefuted
  end.
End refutations.

Definition AvailabilityFault (report : AvailabilityReport) : FaultReport :=
  mkFault FaultUnavailable (CtxRound (RepContext report)) (RepAccused report) false.

Definition RefutedFault (refutation : Refutation) : FaultReport :=
  mkFault FaultFalseAvailabilityReport (CtxRound (RepContext (RefReport refutation))) [] false.

(** ** Deadlines *)

(** A schedule as its types allow it. *)
Definition round_schedule_typed (s : RoundSchedule) : Prop :=
  EpochStart s < 2 ^ 63 /\ BatchInterval s < 2 ^ 63 /\ RoundBudget s < 2 ^ 63.

Definition due (s : RoundSchedule) (slot round : Z) : Z := EpochStart s + slot * BatchInterval s + (round + 1) * RoundBudget s.

Section deadlines.
Variable s : RoundSchedule.
Hypothesis Hok : round_schedule_validate s = Ok tt.
Hypothesis Htyped : round_schedule_typed s.

Lemma round_schedule_bounds : 0 < EpochStart s < 2 ^ 63 /\ 0 < BatchInterval s < 2 ^ 63 /\ 0 < RoundBudget s < 2 ^ 63.
Proof.
  revert Hok. unfold round_schedule_validate. destruct (EpochStart s <=? 0) eqn:E1; [done|].
  destruct ((BatchInterval s <=? 0) || _) eqn:E2; [done|]. intros _. destruct Htyped as (? & ? & ?). reflect_bools. lia.
Qed.

(** The slot taken as the signed number [k], with a start and a deadline that
    do not leave the range of an [int64]. *)
Lemma Deadline_signed slot round k : i64 slot = k -> (slot = 0 -> k = 0) -> 0 <= round < 2 ^ 32 - 1 ->
  - 2 ^ 63 <= k * BatchInterval s < 2 ^ 63 -> - 2 ^ 63 <= EpochStart s + k * BatchInterval s ->
  due s k round < 2 ^ 63 -> (round + 1) * RoundBudget s < 2 ^ 63 -> Deadline s slot round = Ok (due s k round).
Proof.
  intros Hk H0 Hr Hm Hs Hd Hb. pose proof round_schedule_bounds as (Be & Bi & Br). unfold Deadline. rewrite Hok. cbn [mbind result_bind].
  unfold due in *. rewrite Hk. assert (0 < (round + 1) * RoundBudget s) as Hpos by nia.
  rewrite (i64_small (k * BatchInterval s)) by lia. rewrite (i64_small (EpochStart s + _)) by lia.
  replace (EpochStart s + k * BatchInterval s - EpochStart s) with (k * BatchInterval s) by lia.
  rewrite (i64_small (k * BatchInterval s)) by lia. rewrite Z.quot_mul by lia. rewrite Z.eqb_refl. cbn [negb]. rewrite andb_false_r.
  rewrite (wrapu_small 32) by (unfold fits; lia). rewrite (i64_small ((round + 1) * _)) by lia. rewrite i64_small by lia.
  destruct (_ <=? _) eqn:E; [reflect_bools; lia|]. done.
Qed.
End deadlines.

(** The deadline of a round is the public timetable's, as long as it is an
    instant that 64 bits can hold.  Past that the overflow test does not protect
    it: a slot number of [2^63] or more is taken as negative and, instead of an
    error, gives a deadline before the first one of the epoch. *)
Theorem deadline_exact s slot round : round_schedule_validate s = Ok tt -> round_schedule_typed s ->
  0 <= slot < 2 ^ 64 -> 0 <= round < 2 ^ 32 - 1 ->
  (due s slot round < 2 ^ 63 -> Deadline s slot round = Ok (due s slot round)) /\
  (2 ^ 63 <= slot -> (2 ^ 64 - slot) * BatchInterval s <= 2 ^ 63 -> due s 0 round < 2 ^ 63 ->
     exists d, Deadline s slot round = Ok d /\ d < due s 0 round).
Proof.
  intros Hok Ht Hs Hr. pose proof (round_schedule_bounds s Hok Ht) as (Be & Bi & Br). assert (0 < (round + 1) * RoundBudget s) by nia.
  split.
  - intros Hd. assert (0 <= slot * BatchInterval s) by nia. unfold due in Hd. assert (slot < 2 ^ 63) by nia.
    apply Deadline_signed; [done|done|by apply i64_small; lia|done|done|lia|lia|unfold due; lia|lia].
  - intros Hbig Hm Hd. exists (due s (slot - 2 ^ 64) round). unfold due in *. split; [|nia].
    apply Deadline_signed; [done|done| |lia|done|nia|nia|unfold due; nia|lia].
    unfold i64, wrapu. replace (slot + 2 ^ 63) with (slot - 2 ^ 63 + 1 * 2 ^ 64) by lia. rewrite Z.mod_add by lia. rewrite Z.mod_small; lia.
Qed.

(** ** Reports *)

Section reports.
Context `{HashFunction, SignatureScheme}.

(** A statement about the report's round and mixer, signed by an observer of
    the committee other than the accused. *)
Definition observation_ok (mixers : list (list byte)) (report : AvailabilityReport) (s : NonReceipt) : Prop :=
  NonContext s = RepContext report /\ NonDeadline s = RepDeadline report /\ NonAccused s = RepAccused report /\
  NonObserver s ∈ mixers /\ NonObserver s <> RepAccused report /\
  verify (NonObserver s) (nonReceiptSigningMessage s) (NonSignature s) = true.

Definition report_ok (c : ThresholdCommittee) (mixers : list (list byte)) (report : AvailabilityReport) (quorum : Z) : Prop :=
  0 < quorum /\ validateRoundContext (RepContext report) = Ok tt /\ CtxCommittee (RepContext report) = CommID c /\
  CtxEpoch (RepContext report) = CommEpoch c /\ 0 < RepDeadline report /\ RepAccused report ∈ mixers /\
  Forall (observation_ok mixers report) (Observations report) /\ NoDup (map NonObserver (Observations report)) /\
  quorum <= len (Observations report).

Lemma VerifyNonReceipt_ok s : VerifyNonReceipt s = Ok tt <->
  validateRoundContext (NonContext s) = Ok tt /\ 0 < NonDeadline s /\ NonObserver s <> NonAccused s /\
  verify (NonObserver s) (nonReceiptSigningMessage s) (NonSignature s) = true.
Proof.
  unfold VerifyNonReceipt. destruct (validateRoundContext _) as [[]|]; [|by split; [|intros [[=] _]]]. cbn [wrap mbind result_bind].
  destruct (_ <=? 0) eqn:E1; reflect_bools; [by split; [|lia]|]. case_bool_decide as E2; [by split; [|intros (_ & _ & ? & _)]|].
  destruct (verify _ _ _); cbn [negb]; [done|]. by split; [|intros (_ & _ & _ & [=])].
Qed.

Lemma count_observers_ok mixers report index distinct observations l :
  validateRoundContext (RepContext report) = Ok tt -> 0 < RepDeadline report -> NoDup distinct ->
  count_observers mixers report index distinct observations = Ok l <->
  Forall (observation_ok mixers report) observations /\ l = distinct ++ map NonObserver observations /\ NoDup l.
Proof.
  intros Hc Hd. revert index distinct. induction observations as [|s observations IH]; intros index distinct Hnd; cbn [count_observers].
  { simpl. rewrite app_nil_r. split; [intros [= <-]; by split_and!|by intros (_ & -> & _)]. }
  rewrite Forall_cons. cbn [map].
  destruct ((negb (bool_decide (NonContext s = _)) || _) || _) eqn:E.
  { split; [done|]. intros ([(E1 & E2 & E3 & _) _] & _). rewrite E1, E2, E3, Z.eqb_refl, !bool_decide_true in E by done. done. }
  reflect_bools. destruct (negb (bool_decide (NonObserver s ∈ mixers))) eqn:Em; reflect_bools.
  { split; [done|]. by intros ([(_ & _ & _ & ? & _) _] & _). }
  assert (wrap (ErrObservation index) (VerifyNonReceipt s) = Ok tt <-> observation_ok mixers report s) as Hs.
  { transitivity (VerifyNonReceipt s = Ok tt); [destruct (VerifyNonReceipt s) as [[]|]; cbn [wrap]; split; intros [=]; done|].
    rewrite VerifyNonReceipt_ok. unfold observation_ok. split.
    - intros (_ & _ & ? & ?). split_and!; try done. congruence.
    - intros (-> & -> & -> & _ & ? & ?). by split_and!. }
  destruct (wrap _ (VerifyNonReceipt s)) as [[]|]; cbn [mbind result_bind].
  2:{ split; [done|]. intros [[Ho _] _]. by apply Hs in Ho. }
  assert (observation_ok mixers report s) as Ho by (by apply Hs).
  destruct (bool_decide (NonObserver s ∈ distinct)) eqn:Ed; reflect_bools.
  { split; [done|]. intros (_ & -> & Hn). apply NoDup_app in Hn as (_ & Hdis & _).
    exfalso. apply (Hdis (NonObserver s)); [done|apply list_elem_of_here]. }
  rewrite IH; [|apply NoDup_app; split_and!; [done|set_solver|apply NoDup_singleton]]. rewrite <- app_assoc. cbn [app]. tauto.
Qed.

(** The verdict on a report is exactly its specification. *)
Lemma VerifyAvailabilityReport_ok c mixers report quorum :
  VerifyAvailabilityReport c mixers report quorum = Ok tt <-> report_ok c mixers report quorum.
Proof.
  unfold VerifyAvailabilityReport, report_ok. destruct (quorum <=? 0) eqn:E0; reflect_bools; [by split; [|lia]|].
  destruct (validateRoundContext (RepContext report)) as [[]|] eqn:Ec; [|by split; [|intros (_ & [=] & _)]]. cbn [wrap mbind result_bind].
  destruct (negb (bool_decide (CtxCommittee _ = _)) || _) eqn:E1.
  { split; [done|]. intros (_ & _ & C1 & C2 & _). rewrite C1, C2, Z.eqb_refl, bool_decide_true in E1 by done. done. }
  reflect_bools. destruct (RepDeadline report <=? 0) eqn:E2; reflect_bools; [by split; [|lia]|].
  destruct (negb (bool_decide (RepAccused report ∈ mixers))) eqn:E3; reflect_bools; [split; [done|]; by intros (_ & _ & _ & _ & _ & ? & _)|].
  pose proof (count_observers_ok mixers report 0 [] (Observations report)) as Hcount.
  destruct (count_observers mixers report 0 [] (Observations report)) as [l|e]; cbn [mbind result_bind].
  - destruct (proj1 (Hcount l Ec E2 (NoDup_nil_2)) eq_refl) as (Hf & -> & Hn). rewrite app_nil_l in *. rewrite length_map.
    destruct (len (Observations report) <? quorum) eqn:E4; reflect_bools; [by split; [|lia]|]. split; [|done]. intros _. by split_and!.
  - split; [done|]. intros (_ & _ & _ & _ & _ & _ & Hf & Hn & _).
    discriminate (proj2 (Hcount (map NonObserver (Observations report)) Ec E2 (NoDup_nil_2)) (conj Hf (conj eq_refl Hn))).
Qed.
End reports.

(** A verified report holds an honest operator's word: if fewer operators than
    the quorum are dishonest, and the observations under honest keys are their own,
    then some honest operator of the committee, other than the accused, itself
    signed that this round of this mixer had not arrived by this deadline; so a
    coalition below the quorum cannot produce a report that verifies. *)
Theorem report_needs_honest_observer `{HashFunction, SignatureScheme} c mixers report quorum (dishonest : list (list byte))
  (signed : list byte -> list byte -> Prop) :
  VerifyAvailabilityReport c mixers report quorum = Ok tt -> len dishonest < quorum ->
  (forall s, s ∈ Observations report -> NonObserver s ∉ dishonest ->
     verify (NonObserver s) (nonReceiptSigningMessage s) (NonSignature s) = true -> signed (NonObserver s) (nonReceiptSigningMessage s)) ->
  exists observer, observer ∈ mixers /\ observer ∉ dishonest /\ observer <> RepAccused report /\
    signed observer (nonReceiptSigningMessage (mkNonReceipt (RepContext report) (RepDeadline report) (RepAccused report) observer [])).
Proof.
  intros Hv Hq Hunf. apply VerifyAvailabilityReport_ok in Hv as (_ & _ & _ & _ & _ & _ & Hf & Hn & Hl).
  destruct (decide (Exists (fun s => NonObserver s ∉ dishonest) (Observations report))) as [He|Ha].
  - apply Exists_exists in He as (s & Hs & Hd). rewrite Forall_forall in Hf. destruct (Hf s Hs) as (E1 & E2 & E3 & Hm & Hne & Hsig).
    exists (NonObserver s). split_and!; [done|done|done|]. apply (Hunf _ Hs Hd) in Hsig. rewrite <- E1, <- E2, <- E3. exact Hsig.
  - assert (map NonObserver (Observations report) ⊆+ dishonest) as Hsub.
    { apply NoDup_submseteq; [done|]. intros o Ho. apply list_elem_of_fmap in Ho as (s & -> & Hs). 
      destruct (decide (NonObserver s ∈ dishonest)) as [|Hno]; [done|]. exfalso. apply Ha, Exists_exists. by exists s. }
    apply submseteq_length in Hsub. rewrite length_map in Hsub. lia.
Qed.

(** ** Refutations *)

(** A refutation is the accused mixer's own sound round for the position named:
    it is accepted only with a report that verifies, a receipt that the accused's
    key signed over the report's committee, epoch, batch and round, and a shuffle
    that verifies; and it contradicts every observer of the report. *)
Theorem refutation_sound `{HashFunction, SignatureScheme, KyberGroup, !Shuffles} key c mixers report quorum round refutation :
  RefuteAvailabilityReport key c mixers report quorum round = Ok refutation ->
  report_ok c mixers report quorum /\ RefReport refutation = report /\
  Contradicted refutation = map NonObserver (Observations report) /\ (0 < length (Contradicted refutation))%nat /\
  RepAccused report ∉ Contradicted refutation /\
  exists b b' n, Input (SRound round) = Some b /\ Output (SRound round) = Some b' /\ batch_wf b n /\
    CtxBatchID (RepContext report) = sha256 (batch_message b) /\
    verify (RepAccused report) (receiptSigningMessage (SReceipt round) key) (RecSignature (SReceipt round)) = true /\
    verifyShuffleWithDomain key (Some b) (Some b') (ShuffleProof (SRound round)) (contextualShuffleProofDomain (RepContext report)) = Ok tt.
Proof.
  unfold RefuteAvailabilityReport. destruct (VerifyAvailabilityReport c mixers report quorum) as [[]|] eqn:Hv; [|done].
  apply VerifyAvailabilityReport_ok in Hv. cbn [mbind result_bind].
  destruct (negb (bool_decide (MixerPublic _ = _))) eqn:E1; [done|]. destruct (negb (bool_decide (RecContext _ = _))) eqn:E2; [done|].
  reflect_bools. destruct (Input (SRound round)) as [b|] eqn:Ei; [|done]. destruct (Output (SRound round)) as [b'|] eqn:Eo; [|done].
  destruct (VerifySignedRound _ _ _ _ _) as [[]|] eqn:Es; [|done]. intros [= <-]. cbn [RefReport Contradicted].
  apply VerifySignedRound_ok in Es as (b0 & b1 & n & m & [= <-] & [= <-] & Hb & _ & Hid & _ & _ & _ & Hsig & Hsh).
  rewrite E1 in Hsig. rewrite E2 in Hid, Hsh. pose proof Hv as (Hq & _ & _ & _ & _ & _ & Hf & _ & Hl).
  split_and!; [done|done|done|rewrite length_map; lia| |by exists b, b', n; split_and!].
  intros Hin. apply list_elem_of_fmap in Hin as (s & E & Hs). rewrite Forall_forall in Hf.
  destruct (Hf s Hs) as (_ & _ & _ & _ & Hne & _). by apply Hne.
Qed.

(** The accused can always answer, and at any time: a round that a mixer
    produces by the protocol for the reported position refutes the report.  The
    receipt says nothing about when it was made, so a round produced only after
    the deadline contradicts the observers just as well, although each of them
    stated the truth. *)
Theorem late_round_refutes `{HashFunction, SignatureScheme, KyberGroup, !Shuffles} key h c mixers report quorum b n identity r out proof receipt :
  VerifyAvailabilityReport c mixers report quorum = Ok tt -> publicPoint key = Ok h -> batch_wf b n ->
  ShuffleAndSign (RepContext report) key (Some b) identity r = Ok (out, proof, receipt) -> public identity = RepAccused report ->
  RefuteAvailabilityReport key c mixers report quorum (mkSignedRound (mkRound (Some b) (Some out) proof) receipt) =
  Ok (mkRefutation report (map NonObserver (Observations report))).
Proof.
  intros Hv Hk Hb Hs Hid. destruct (ShuffleAndSign_ok _ _ _ _ _ _ _ _ _ _ Hb Hk Hs) as (_ & Hc & Hm & _ & _ & Hver & _).
  unfold RefuteAvailabilityReport. rewrite Hv. cbn [mbind result_bind SReceipt SRound Input Output ShuffleProof].
  rewrite Hc, Hm, Hid, !bool_decide_true by done. cbn [negb]. by rewrite Hver.
Qed.

(** ** Witnesses *)

Section example.
#[local] Existing Instance example_hash.
#[local] Existing Instance example_signatures.
#[local] Existing Instance gf_group.
#[local] Existing Instance gf_shuffles.

Definition example_timetable : RoundSchedule := mkRoundSchedule 1000 100 20.

Lemma deadline_exact_witness : Deadline example_timetable 3 1 = Ok 1340 /\
  exists d, Deadline example_timetable (2 ^ 64 - 1) 0 = Ok d /\ d < 1020.
Proof.
  assert (round_schedule_validate example_timetable = Ok tt) as Hv by reflexivity.
  assert (round_schedule_typed example_timetable) as Ht by (split_and!; reflexivity).
  split.
  - apply (proj1 (deadline_exact example_timetable 3 1 Hv Ht ltac:(lia) ltac:(lia))). reflexivity.
  - apply (proj2 (deadline_exact example_timetable (2 ^ 64 - 1) 0 Hv Ht ltac:(lia) ltac:(lia))); [lia|simpl; lia|reflexivity].
Defined.

Definition example_observers : list (list byte) := [replicate 64 x12; replicate 64 x13].
Definition example_operators : list (list byte) := public example_mixer :: map public example_observers.
Definition example_statement (observer : list byte) : NonReceipt :=
  match SignNonReceipt example_ctx 1340 (public example_mixer) observer with Ok s => s | Err _ => mkNonReceipt example_ctx 0 [] [] [] end.
Definition example_report : AvailabilityReport :=
  mkReport example_ctx 1340 (public example_mixer) (map example_statement example_observers).

Lemma example_report_ok : VerifyAvailabilityReport example_committee example_operators example_report 2 = Ok tt.
Proof. vm_compute. reflexivity. Qed.

Lemma report_needs_honest_observer_witness : exists observer, observer ∈ example_operators /\ observer ∉ [public (replicate 64 x13)] /\
  exists signature, verify observer (nonReceiptSigningMessage (mkNonReceipt example_ctx 1340 (public example_mixer) observer [])) signature = true.
Proof.
  destruct (report_needs_honest_observer example_committee example_operators example_report 2 [public (replicate 64 x13)]
    (fun key message => exists signature, verify key message signature = true) example_report_ok) as (o & Ho & Hd & _ & Hs).
  - simpl. lia.
  - intros s _ _ Hv. exists (NonSignature s). exact Hv.
  - exists o. split; [exact Ho|split; [exact Hd|exact Hs]].
Defined.

Definition example_answer (p : Batch * list byte * RoundReceipt) : SignedRound := signed_of p.

Lemma late_round_refutes_witness : exists p, example_round = Ok p /\
  RefuteAvailabilityReport (CommPublicKey example_committee) example_committee example_operators example_report 2 (example_answer p) =
  Ok (mkRefutation example_report (map NonObserver (Observations example_report))).
Proof.
  destruct example_round_ok as (p & Hp & _). exists p. split; [exact Hp|]. destruct p as [[out proof] receipt].
  unfold example_answer, signed_of. cbn [fst snd]. unfold example_round in Hp.
  exact (late_round_refutes _ _ example_committee example_operators example_report 2 example_batch 3 example_mixer [x03; x04] out proof receipt
    example_report_ok example_committee_key example_batch_wf Hp eq_refl).
Defined.

Lemma refutation_sound_witness : exists p refutation,
  RefuteAvailabilityReport (CommPublicKey example_committee) example_committee example_operators example_report 2 (example_answer p) = Ok refutation /\
  Contradicted refutation = map NonObserver (Observations example_report).
Proof.
  assert (exists p refutation, RefuteAvailabilityReport (CommPublicKey example_committee) example_committee example_operators example_report 2
    (example_answer p) = Ok refutation) as (p & refutation & Hr).
  { destruct example_round_ok as (p & Hp & _). exists p. assert (match example_round with
      | Ok p => match RefuteAvailabilityReport (CommPublicKey example_committee) example_committee example_operators example_report 2
          (example_answer p) with Ok _ => true | Err _ => false end
      | Err _ => false end = true) as E by (vm_compute; reflexivity).
    rewrite Hp in E. destruct (RefuteAvailabilityReport _ _ _ _ _ _) as [refutation|]; [|discriminate E]. exists refutation. reflexivity. }
  destruct (refutation_sound _ _ _ _ _ _ _ Hr) as (_ & _ & Hc & _). exists p, refutation. split; [exact Hr|exact Hc].
Defined.
End example.
