(* ===== verification/Transcript.v ===== *)
(** Published transcripts ([mix/transcript_export.go]): the text form of a
    committee's rounds, and its verification by anyone. *)

From stdpp Require Import base list list_numbers gmap strings.
From Stdlib Require Import ZArith Lia Strings.Byte.
From S2P Require Import Prelude Bytes Hash Codec Checkpoint Kyber Mix Threshold Rounds.

(** [base64.StdEncoding.DecodeString]: as the strict decoder of [Codec], but the
    unused bits of the last group are dropped unseen. *)
Fixpoint b64_std_groups (l : list byte) : option (list byte) :=
  match l with
  | [] => Some []
  | c0 :: c1 :: c2 :: c3 :: l =>
      v0 ← b64_value c0; v1 ← b64_value c1;
      if bool_decide (c2 = b64_pad) then
        if bool_decide (c3 = b64_pad) && bool_decide (l = []) then Some [byte_of_Z (v0 * 4 + v1 / 16)] else None
      else
        v2 ← b64_value c2;
        if bool_decide (c3 = b64_pad) then
          if bool_decide (l = []) then Some [byte_of_Z (v0 * 4 + v1 / 16); byte_of_Z (v1 * 16 + v2 / 4)] else None
        else
          v3 ← b64_value c3;
          rest ← b64_std_groups l;
          Some (byte_of_Z (v0 * 4 + v1 / 16) :: byte_of_Z (v1 * 16 + v2 / 4) :: byte_of_Z (v2 * 64 + v3) :: rest)
  | _ => None
  end.

Definition b64_std (l : list byte) : option (list byte) := b64_std_groups (filter (fun b => b <> x0d /\ b <> x0a) l).

Lemma b64_std_strict l raw : b64_decode_groups l = Some raw -> b64_std_groups l = Some raw.
Proof.
  revert raw. induction l as [|a|a b|a b c|c0 c1 c2 c3 l IH] using quad_ind; intros raw; try done. cbn [b64_decode_groups b64_std_groups].
  destruct (b64_value c0) as [v0|]; [|done]. cbn [mbind option_bind]. destruct (b64_value c1) as [v1|]; [|done]. cbn [mbind option_bind].
  case_bool_decide as P2.
  - destruct (bool_decide (c3 = b64_pad) && bool_decide (l = [])); cbn [andb]; [|done]. by destruct (v1 mod 16 =? 0).
  - destruct (b64_value c2) as [v2|]; [|done]. cbn [mbind option_bind]. case_bool_decide as P3.
    + destruct (bool_decide (l = [])); cbn [andb]; [|done]. by destruct (v2 mod 4 =? 0).
    + destruct (b64_value c3) as [v3|]; [|done]. cbn [mbind option_bind].
      destruct (b64_decode_groups l) as [rest|] eqn:El; [|done]. by rewrite (IH rest eq_refl).
Qed.

Lemma b64_std_encode l : b64_std (b64_encode l) = Some l.
Proof. unfold b64_std. rewrite (filter_all _ _ (b64_encode_no_breaks l)). apply b64_std_strict, b64_groups_encode. Qed.

(** ** The published form *)

(** A published receipt; the text fields are base64. *)
Record Receipt := mkPublished {
  PubCommitteeID : list byte;
  PubEpoch : Z;
  PubBatchID : list byte;
  PubRound : Z;
  PubMixer : list byte;
  PubInput : list byte;
  PubOutput : list byte;
  PubProof : list byte;
  PubSignature : list byte;
}.

Record TranscriptRound := mkTranscriptRound {
  TMixer : Z;
  TInputCells : list (list byte);
  TOutputCells : list (list byte);
  TProof : list byte;
  TReceipt : Receipt;
}.

Record Transcript := mkTranscript {
  TVersion : list byte;
  TEncryptionKey : list byte;
  TCommitteeID : list byte;
  TEpoch : Z;
  TRounds : list TranscriptRound;
}.

Definition TranscriptVersion : list byte := String.list_byte_of_string "nomad-mix-transcript-v1".

Inductive transcript_error :=
| ErrNoRounds
| ErrReceiptCount
| ErrTranscriptMix (e : mix_error)
| ErrTranscriptVersion
| ErrMixerCount
| ErrText
| ErrTextSize
| ErrRoundLabel
| ErrBrokenChain
| ErrFewCells
| ErrForeignMixer
| ErrTranscriptRound (e : round_error).

Definition fixed (size : nat) (encoded : list byte) : result transcript_error (list byte) :=
  match b64_std encoded with
  | None => Err ErrText
  | Some raw => if negb (Nat.eqb (length raw) size) then Err ErrTextSize else Ok raw
  end.

Definition receipt_decode (r : Receipt) : result transcript_error RoundReceipt :=
  committee ← fixed 32 (PubCommitteeID r);
  batch ← fixed 32 (PubBatchID r);
  mixer ← fixed 32 (PubMixer r);
  inputDigest ← fixed 32 (PubInput r);
  outputDigest ← fixed 32 (PubOutput r);
  proofDigest ← fixed 32 (PubProof r);
  signature ← fixed 64 (PubSignature r);
  Ok (mkReceipt (mkRoundContext committee (PubEpoch r) batch (PubRound r)) mixer inputDigest outputDigest proofDigest signature).

Definition receipt_encode (r : RoundReceipt) : Receipt :=
  mkPublished (b64_encode (CtxCommittee (RecContext r))) (CtxEpoch (RecContext r)) (b64_encode (CtxBatchID (RecContext r)))
    (CtxRound (RecContext r)) (b64_encode (MixerPublic r)) (b64_encode (InputDigest r)) (b64_encode (OutputDigest r))
    (b64_encode (ProofDigest r)) (b64_encode (RecSignature r)).

Section transcripts.
Context `{HashFunction, SignatureScheme, KyberGroup, !Shuffles}.

(** [zeroPadding] yields as many zeros as are read. *)
Definition encodeCells (batch : option Batch) : result transcript_error (list (list byte)) :=
  cells ← wrap ErrTranscriptMix (MarshalWireWithPadding batch (Some (replicate (Len batch * (WireCellSize - cipherSize)) x00)));
  Ok (map b64_encode cells).

Definition decodeCells (encoded : list (list byte)) : result transcript_error Batch :=
  if len encoded <? 2 then Err ErrFewCells
  else
    cells ← collect (fixed WireCellSize) encoded;
    wrap ErrTranscriptMix (ParseWire cells).

Definition export_round (index : nat) (round : Round) (receipt : RoundReceipt) : result transcript_error TranscriptRound :=
  input ← encodeCells (Input round);
  output ← encodeCells (Output round);
  Ok (mkTranscriptRound (Z.of_nat index) input output (b64_encode (ShuffleProof round)) (receipt_encode receipt)).

Definition ExportTranscript (encryptionKey : list byte) (ctx : RoundContext) (rounds : list Round) (receipts : list RoundReceipt)
  : result transcript_error Transcript :=
  if bool_decide (rounds = []) then Err ErrNoRounds
  else if negb (Nat.eqb (length rounds) (length receipts)) then Err ErrReceiptCount
  else
    exported ← collect (fun irr => export_round irr.1 irr.2.1 irr.2.2) (zip (seq 0 (length rounds)) (zip rounds receipts));
    Ok (mkTranscript TranscriptVersion (b64_encode encryptionKey) (b64_encode (CtxCommittee ctx)) (CtxEpoch ctx) exported).

Definition equalCells (left right : list (list byte)) : bool :=
  if negb (Nat.eqb (length left) (length right)) then false
  else forallb (fun lr => bool_decide (lr.1 = lr.2)) (zip left right).

(** The rounds from [index] on, each with the mixer named for it;
    [previousOutput] is the output of the round before. *)
Fixpoint verify_transcript_rounds (encryptionKey : list byte) (index : nat) (previousOutput : option (list (list byte)))
  (rounds : list (TranscriptRound * list byte)) : result transcript_error unit :=
  match rounds with
  | [] => Ok tt
  | (round, mixer) :: rounds =>
      if negb (TMixer round =? Z.of_nat index) then Err ErrRoundLabel
      else if match previousOutput with Some cells => negb (equalCells cells (TInputCells round)) | None => false end then Err ErrBrokenChain
      else
        input ← decodeCells (TInputCells round);
        output ← decodeCells (TOutputCells round);
        match b64_std (TProof round) with
        | None => Err ErrText
        | Some proof =>
            receipt ← receipt_decode (TReceipt round);
            if negb (bool_decide (MixerPublic receipt = mixer)) then Err ErrForeignMixer
            else
              _ ← wrap ErrTranscriptRound (VerifySignedRound encryptionKey (Some input) (Some output) proof receipt);
              verify_transcript_rounds encryptionKey (S index) (Some (TOutputCells round)) rounds
        end
  end.

Definition VerifyTranscript (t : Transcript) (mixers : list (list byte)) : result transcript_error unit :=
  if negb (bool_decide (TVersion t = TranscriptVersion)) then Err ErrTranscriptVersion
  else if bool_decide (TRounds t = []) then Err ErrNoRounds
  else if negb (Nat.eqb (length mixers) (length (TRounds t))) then Err ErrMixerCount
  else
    encryptionKey ← fixed 32 (TEncryptionKey t);
    verify_transcript_rounds encryptionKey 0 None (zip (TRounds t) mixers).
End transcripts.

(** ** Verification *)

Section verification.
Context `{HashFunction, SignatureScheme, KyberGroup, !Shuffles}.

Fixpoint linked_rounds (rounds : list Round) : Prop :=
  match rounds with
  | r1 :: (r2 :: _) as rest => Output r1 = Input r2 /\ linked_rounds rest
  | _ => True
  end.

Definition round_verified (key : list byte) (r : SignedRound) : Prop :=
  VerifySignedRound key (Input (SRound r)) (Output (SRound r)) (ShuffleProof (SRound r)) (SReceipt r) = Ok tt.

(** Joined rounds that verify take the first input to the last output. *)
Lemma linked_mixes key s r rs : publicPoint key = Ok (pmul s Base) -> Forall (round_verified key) (r :: rs) ->
  Forall (round_sound key) (r :: rs) -> linked_rounds (map SRound (r :: rs)) ->
  exists b b' n, Input (SRound r) = Some b /\ Output (SRound (List.last rs r)) = Some b' /\ batch_wf b n /\ batch_wf b' n /\ mixes s n b b'.
Proof.
  intros Hk. revert r. induction rs as [|r2 rs IH]; intros r [Hv Hvs]%Forall_cons [Hr Hs]%Forall_cons Hl.
  all: apply VerifySignedRound_ok in Hv as (b & b1 & n & m & Ei & Eo & Hb & Hb1 & _ & _ & _ & _ & _ & Hsh).
  all: destruct (verifyShuffle_reencrypts key _ b b1 n m _ _ Hk Hb Hb1 Hsh) as [<- Hre];
    [intros cs Hcs; rewrite <- (Len_wf b n Hb); by apply Hr|].
  - exists b, b1, n. split_and!; [done|done|done|done|by apply reencrypts_mixes].
  - destruct Hl as [Hj Hl]. destruct (IH r2 Hvs Hs Hl) as (b2 & b' & n' & Ei2 & Eo' & Hb2 & Hb' & Hm).
    rewrite Eo, Ei2 in Hj. injection Hj as <-.
    assert (n' = n) as -> by (rewrite <- (Len_wf b1 n Hb1), <- (Len_wf b1 n' Hb2); done).
    exists b, b', n. rewrite last_default. split_and!; [done|done|done|done|]. eapply mixes_trans; [by apply reencrypts_mixes|exact Hm].
Qed.

Lemma equalCells_ok l r : equalCells l r = true <-> l = r.
Proof.
  unfold equalCells. destruct (Nat.eqb_spec (length l) (length r)) as [Hl|Hl]; cbn [negb]; [|split; [done|by intros ->]]. split.
  - revert r Hl. induction l as [|x l IH]; intros [|y r] Hl E; try done. simpl in E. apply andb_true_iff in E as [E1 E2].
    apply bool_decide_eq_true in E1. simpl in E1. subst y. f_equal. apply IH; [by injection Hl|exact E2].
  - intros <-. clear Hl. induction l as [|x l IH]; [done|]. cbn [zip zip_with forallb fst snd]. by rewrite bool_decide_true.
Qed.

(** What a published round says, decoded. *)
Definition decodes (tr : TranscriptRound) (r : SignedRound) : Prop :=
  exists b b', decodeCells (TInputCells tr) = Ok b /\ decodeCells (TOutputCells tr) = Ok b' /\ Input (SRound r) = Some b /\
    Output (SRound r) = Some b' /\ b64_std (TProof tr) = Some (ShuffleProof (SRound r)) /\ receipt_decode (TReceipt tr) = Ok (SReceipt r).

Lemma verify_rounds_sound key index prev rounds : verify_transcript_rounds key index prev rounds = Ok tt ->
  exists signed, Forall2 (fun rm r => decodes rm.1 r /\ MixerPublic (SReceipt r) = rm.2 /\ round_verified key r) rounds signed /\
    linked_rounds (map SRound signed) /\
    (forall cells tr m rest, prev = Some cells -> rounds = (tr, m) :: rest -> TInputCells tr = cells).
Proof.
  revert index prev. induction rounds as [|[tr mixer] rounds IH]; intros index prev Hv.
  { exists []. split_and!; [constructor|done|done]. }
  cbn [verify_transcript_rounds] in Hv. destruct (negb (TMixer tr =? _)); [done|].
  destruct (match prev with Some cells => negb (equalCells cells (TInputCells tr)) | None => false end) eqn:Ep; [done|].
  destruct (decodeCells (TInputCells tr)) as [b|] eqn:Ei; [|done]. cbn [mbind result_bind] in Hv.
  destruct (decodeCells (TOutputCells tr)) as [b'|] eqn:Eo; [|done]. cbn [mbind result_bind] in Hv.
  destruct (b64_std (TProof tr)) as [proof|] eqn:Epf; [|done]. destruct (receipt_decode (TReceipt tr)) as [receipt|] eqn:Er; [|done].
  cbn [mbind result_bind] in Hv. destruct (negb (bool_decide (MixerPublic receipt = mixer))) eqn:Em; [done|]. reflect_bools.
  destruct (VerifySignedRound key (Some b) (Some b') proof receipt) as [[]|] eqn:Es; [|done]. cbn [wrap mbind result_bind] in Hv.
  destruct (IH _ _ Hv) as (signed & Hf & Hl & Hj). exists (mkSignedRound (mkRound (Some b) (Some b') proof) receipt :: signed). split_and!.
  - constructor; [|done]. split_and!; [by exists b, b'|done|done].
  - destruct signed as [|r2 signed]; [done|]. cbn [map linked_rounds]. split; [|exact Hl].
    apply Forall2_cons_inv_r in Hf as ([tr2 m2] & rest & [(b2 & _ & D2 & _ & E2 & _) _] & _ & ->). cbn [fst] in D2.
    specialize (Hj _ _ _ _ eq_refl eq_refl). rewrite Hj, Eo in D2. injection D2 as <-. cbn [SRound Output]. by rewrite E2.
  - intros cells tr' m rest -> [= <- _ _]. apply negb_false_iff, equalCells_ok in Ep. done.
Qed.

End verification.

(** A transcript that verifies is evidence on its own: with no key of the
    committee and nothing trusted but the caller's list of mixers, it decodes to
    one signed round per mixer, in order, each signed by that mixer and verifying
    as a shuffle under the published key, each starting from the very batch the
    one before ended with; so the last batch decrypts to the cells of the first,
    in another order, for whoever holds the key.  Accepted proofs are assumed
    sound. *)
Theorem transcript_sound `{HashFunction, SignatureScheme, KyberGroup, !Shuffles} t mixers :
  VerifyTranscript t mixers = Ok tt -> exists key r rs, fixed 32 (TEncryptionKey t) = Ok key /\
    Forall2 decodes (TRounds t) (r :: rs) /\ map (fun r => MixerPublic (SReceipt r)) (r :: rs) = mixers /\
    Forall (round_verified key) (r :: rs) /\ linked_rounds (map SRound (r :: rs)) /\
    forall s, publicPoint key = Ok (pmul s Base) -> Forall (round_sound key) (r :: rs) ->
      exists b b' n, Input (SRound r) = Some b /\ Output (SRound (List.last rs r)) = Some b' /\ Len (Some b) = n /\ Len (Some b') = n /\
        plain_cells s b' n ≡ₚ plain_cells s b n.
Proof.
  unfold VerifyTranscript. destruct (negb (bool_decide (TVersion t = _))); [done|]. case_bool_decide as Hr; [done|].
  destruct (Nat.eqb_spec (length mixers) (length (TRounds t))) as [Hl|]; [|done]. cbn [negb].
  destruct (fixed 32 (TEncryptionKey t)) as [key|] eqn:Hk; [|done]. cbn [mbind result_bind]. intros Hv.
  destruct (verify_rounds_sound _ _ _ _ Hv) as (signed & Hf & Hlink & _).
  assert (Forall2 decodes (TRounds t) signed /\ map (fun r => MixerPublic (SReceipt r)) signed = mixers /\ Forall (round_verified key) signed)
    as (Hd & Hm & Hver).
  { clear Hv Hlink Hr. revert mixers signed Hl Hf. induction (TRounds t) as [|tr l IH]; intros [|m mixers] signed Hl Hf; try done.
    - apply Forall2_nil_inv_l in Hf as ->. split_and!; [constructor|done|constructor].
    - apply Forall2_cons_inv_l in Hf as (r & rs & (D & M & V) & Hf & ->). cbn [fst snd] in *.
      destruct (IH mixers rs ltac:(by injection Hl) Hf) as (? & <- & ?). split_and!; [by constructor|by cbn [map]; rewrite M|by constructor]. }
  destruct signed as [|r rs]; [by apply Forall2_nil_inv_r in Hd|]. exists key, r, rs. split_and!; [done..|].
  intros s Hs Hsound. destruct (linked_mixes key s r rs Hs Hver Hsound Hlink) as (b & b' & n & Hi & Ho & Hb & Hb' & Hmix).
  exists b, b', n. rewrite (Len_wf b n Hb), (Len_wf b' n Hb'). split_and!; [done..|by apply mixes_plain].
Qed.

(** The header of a transcript is not evidence: the verifier never looks at the
    committee and the epoch a transcript names, so a transcript that verifies
    still verifies when it is relabelled as any other committee's. *)
Lemma header_unauthenticated `{HashFunction, SignatureScheme, KyberGroup, !Shuffles} t mixers committeeID epoch :
  VerifyTranscript (mkTranscript (TVersion t) (TEncryptionKey t) committeeID epoch (TRounds t)) mixers = VerifyTranscript t mixers.
Proof. done. Qed.

(** ** Export *)

(** A receipt as its array types allow it. *)
Definition receipt_typed (r : RoundReceipt) : Prop :=
  length (CtxCommittee (RecContext r)) = 32%nat /\ length (CtxBatchID (RecContext r)) = 32%nat /\ length (MixerPublic r) = 32%nat /\
  length (InputDigest r) = 32%nat /\ length (OutputDigest r) = 32%nat /\ length (ProofDigest r) = 32%nat /\ length (RecSignature r) = 64%nat.

Lemma fixed_encode size raw : length raw = size -> fixed size (b64_encode raw) = Ok raw.
Proof. intros Hl. unfold fixed. by rewrite b64_std_encode, Hl, Nat.eqb_refl. Qed.

Lemma receipt_roundtrip r : receipt_typed r -> receipt_decode (receipt_encode r) = Ok r.
Proof.
  intros (H1 & H2 & H3 & H4 & H5 & H6 & H7). unfold receipt_decode, receipt_encode.
  cbn [PubCommitteeID PubBatchID PubMixer PubInput PubOutput PubProof PubSignature PubEpoch PubRound].
  rewrite (fixed_encode 32 _ H1), (fixed_encode 32 _ H2), (fixed_encode 32 _ H3), (fixed_encode 32 _ H4), (fixed_encode 32 _ H5),
    (fixed_encode 32 _ H6), (fixed_encode 64 _ H7). cbn [mbind result_bind]. by destruct r as [[] ? ? ? ? ?].
Qed.

Section export.
Context `{HashFunction, SignatureScheme, KyberGroup, !Shuffles}.

Lemma cells_roundtrip ob cells : encodeCells ob = Ok cells -> exists b, ob = Some b /\ decodeCells cells = Ok b.
Proof.
  unfold encodeCells, MarshalWireWithPadding. destruct ob as [b|]; [|done].
  destruct (validateBatch (Some b)) as [[]|] eqn:Eb; [|done]. cbn [mbind result_bind].
  apply validateBatch_ok in Eb as [n Hb]. rewrite (Len_wf b n Hb).
  destruct (marshal_cells_ok b (seq 0 n) (replicate (n * (WireCellSize - cipherSize)) x00)) as (raw & Hm & Hf);
    [by rewrite length_seq, length_replicate|].
  rewrite Hm. cbn [wrap mbind result_bind]. intros [= <-]. exists b. split; [done|]. unfold decodeCells. rewrite length_map.
  pose proof (Forall2_length _ _ _ Hf) as Hl. rewrite length_seq in Hl. destruct (len raw <? 2) eqn:E.
  { reflect_bools. destruct Hb as [Hn _]. lia. }
  rewrite collect_map. erewrite (collect_ext _ (fun cell => Ok cell)); [rewrite (collect_total (fun x => x)), map_id|].
  - cbn [mbind result_bind]. rewrite (ParseWire_columns b n raw Hb); [done|]. eapply Forall2_impl; [exact Hf|]. by intros col cell [_ Hp].
  - intros cell Hc. apply fixed_encode. apply list_elem_of_lookup in Hc as [i Hi].
    by destruct (Forall2_lookup_r _ _ _ _ _ Hf Hi) as (col & _ & Hlen & _).
Qed.

(** Encoding is a function of the batch: equal batches are published alike. *)
Lemma exported_verify key index prev rounds receipts exported :
  collect (fun irr => export_round irr.1 irr.2.1 irr.2.2) (zip (seq index (length rounds)) (zip rounds receipts)) = Ok exported ->
  length rounds = length receipts -> Forall receipt_typed receipts -> linked_rounds rounds ->
  Forall2 (fun r receipt => VerifySignedRound key (Input r) (Output r) (ShuffleProof r) receipt = Ok tt) rounds receipts ->
  (forall cells, prev = Some cells -> match rounds with r :: _ => encodeCells (Input r) = Ok cells | [] => True end) ->
  verify_transcript_rounds key index prev (zip exported (map MixerPublic receipts)) = Ok tt /\ length exported = length rounds.
Proof.
  revert index prev receipts exported. induction rounds as [|r rounds IH]; intros index prev [|receipt receipts] exported Hc Hl Ht Hj Hv Hp;
    try done; [injection Hc as <-; done|].
  cbn [length seq zip zip_with collect fst snd] in Hc.
  destruct (export_round index r receipt) as [tr|] eqn:Etr; [|done]. cbn [mbind result_bind] in Hc.
  destruct (collect _ _) as [rest|] eqn:Er; [|done]. cbn [mbind result_bind] in Hc. injection Hc as <-. unfold export_round in Etr.
  destruct (encodeCells (Input r)) as [input|] eqn:Ei; [|done]. cbn [mbind result_bind] in Etr.
  destruct (encodeCells (Output r)) as [output|] eqn:Eo; [|done]. cbn [mbind result_bind] in Etr. injection Etr as <-.
  apply Forall_cons in Ht as [Ht Hts]. apply Forall2_cons in Hv as [Hv Hvs].
  destruct (cells_roundtrip _ _ Ei) as (b & Eb & Db), (cells_roundtrip _ _ Eo) as (b' & Eb' & Db').
  destruct (IH (S index) (Some output) receipts rest Er ltac:(by injection Hl) Hts) as [Hrest Hlen]; [|done| |].
  - destruct rounds; [done|apply Hj].
  - intros cells [= <-]. destruct rounds as [|r2 rounds]; [done|]. destruct Hj as [<- _]. exact Eo.
  - split; [|cbn [length]; by rewrite Hlen]. cbn [zip zip_with map verify_transcript_rounds TMixer TInputCells TOutputCells TProof TReceipt].
    rewrite Z.eqb_refl. cbn [negb].
    assert (match prev with Some cells => negb (equalCells cells input) | None => false end = false) as ->.
    { destruct prev as [cells|]; [|done]. specialize (Hp cells eq_refl). cbn iota in Hp. injection Hp as <-.
      apply negb_false_iff. by apply equalCells_ok. }
    rewrite Db. cbn [mbind result_bind]. rewrite Db'. cbn [mbind result_bind]. rewrite b64_std_encode, (receipt_roundtrip _ Ht).
    cbn [mbind result_bind]. rewrite bool_decide_true by done. cbn [negb]. rewrite <- Eb, <- Eb', Hv. exact Hrest.
Qed.
End export.

(** What a committee publishes is accepted: rounds that verify and join, exported
    with their receipts, verify as a transcript against the keys that signed
    them, although every batch, proof and receipt went through text. *)
Theorem published_roundtrip `{HashFunction, SignatureScheme, KyberGroup, !Shuffles} key ctx rounds receipts t :
  ExportTranscript key ctx rounds receipts = Ok t -> length key = 32%nat -> Forall receipt_typed receipts -> linked_rounds rounds ->
  Forall2 (fun r receipt => VerifySignedRound key (Input r) (Output r) (ShuffleProof r) receipt = Ok tt) rounds receipts ->
  VerifyTranscript t (map MixerPublic receipts) = Ok tt.
Proof.
  unfold ExportTranscript. case_bool_decide as Hr; [done|]. destruct (Nat.eqb_spec (length rounds) (length receipts)) as [Hl|]; [|done].
  cbn [negb]. destruct (collect _ _) as [exported|] eqn:Ec; [|done]. cbn [mbind result_bind]. intros [= <-] Hk Ht Hj Hv.
  destruct (exported_verify key 0 None rounds receipts exported Ec Hl Ht Hj Hv ltac:(done)) as [Hver Hlen].
  unfold VerifyTranscript. cbn [TVersion TRounds TEncryptionKey]. rewrite bool_decide_true by done. cbn [negb].
  rewrite bool_decide_false by (intros ->; by destruct rounds).
  rewrite length_map, Hlen, Hl, Nat.eqb_refl. cbn [negb]. rewrite (fixed_encode 32 key Hk). exact Hver.
Qed.

(** ** Witnesses *)

#[export] Instance receipt_typed_dec r : Decision (receipt_typed r).
Proof. unfold receipt_typed. apply _. Defined.

Section example.
#[local] Existing Instance example_hash.
#[local] Existing Instance example_signatures.
#[local] Existing Instance gf_group.
#[local] Existing Instance gf_shuffles.

Definition example_export (p : Batch * list byte * RoundReceipt) : result transcript_error Transcript :=
  ExportTranscript (CommPublicKey example_committee) example_ctx [SRound (signed_of p)] [p.2].

Definition export_okb (p : Batch * list byte * RoundReceipt) : bool :=
  bool_decide (receipt_typed p.2) && match example_export p with
    | Ok t => match VerifyTranscript t [MixerPublic p.2] with Ok _ => true | Err _ => false end
    | Err _ => false end
  && match VerifySignedRound (CommPublicKey example_committee) (Some example_batch) (Some p.1.1) p.1.2 p.2 with Ok _ => true | Err _ => false end.

Lemma example_export_ok : exists p t, example_round = Ok p /\ example_export p = Ok t /\ receipt_typed p.2 /\
  VerifySignedRound (CommPublicKey example_committee) (Some example_batch) (Some p.1.1) p.1.2 p.2 = Ok tt /\
  VerifyTranscript t [MixerPublic p.2] = Ok tt.
Proof.
  assert (match example_round with Ok p => export_okb p | Err _ => false end = true) as E by (vm_compute; reflexivity).
  destruct example_round as [p|]; [|discriminate E]. unfold export_okb in E. apply andb_true_iff in E as [E E3].
  apply andb_true_iff in E as [E1 E2]. apply bool_decide_eq_true in E1. destruct (example_export p) as [t|] eqn:Et; [|discriminate E2].
  destruct (VerifySignedRound _ _ _ _ _) as [[]|] eqn:Ev; [|discriminate E3]. destruct (VerifyTranscript t _) as [[]|] eqn:Evt; [|discriminate E2].
  exists p, t. split; [reflexivity|split; [exact Et|split; [exact E1|split; [exact Ev|exact Evt]]]].
Qed.

Lemma published_roundtrip_witness : exists p t, example_round = Ok p /\ example_export p = Ok t /\ VerifyTranscript t [MixerPublic p.2] = Ok tt.
Proof.
  destruct example_export_ok as (p & t & Hp & Ht & Htyped & Hv & _). exists p, t. split; [exact Hp|split; [exact Ht|]].
  refine (published_roundtrip (CommPublicKey example_committee) example_ctx [SRound (signed_of p)] [p.2] t Ht _ _ I _).
  - reflexivity.
  - constructor; [exact Htyped|constructor].
  - constructor; [exact Hv|constructor].
Defined.

Lemma transcript_sound_witness : exists t mixers r, VerifyTranscript t mixers = Ok tt /\ Forall2 decodes (TRounds t) [r] /\
  map (fun r => MixerPublic (SReceipt r)) [r] = mixers.
Proof.
  destruct example_export_ok as (p & t & _ & _ & _ & _ & Hv).
  destruct (transcript_sound t _ Hv) as (key & r & rs & _ & Hd & Hm & _). exists t, [MixerPublic p.2], r.
  assert (rs = []) as ->; [|split; [exact Hv|split; [exact Hd|exact Hm]]].
  apply (f_equal length) in Hm. cbn [map length] in Hm. rewrite length_map in Hm. destruct rs; [reflexivity|discriminate Hm].
Defined.
End example.
