(* ===== verification/Airlock.v ===== *)
(** The publication airlock ([live/airlock]): the public release schedule, the
    accumulation and sealing of one epoch's deposits, the verification of the
    shuffle chain over the sealed batch, and the release of its fragments. *)

From stdpp Require Import base list list_numbers gmap sorting strings.
From Stdlib Require Import ZArith Lia Strings.Byte.
From S2P Require Import Prelude Bytes Hash Checkpoint Kyber Mix Threshold Rounds.

(** ** The schedule ([schedule.go]) *)

(** Instants are nanoseconds, [None] the zero time; durations are [int64]. *)
Record Schedule := mkSchedule {
  Genesis : option Z;
  Period : Z;
  DepositCutoff : Z;
  BatchSize : Z;
  MaxDepositsPerSession : Z;
}.

Inductive airlock_error :=
| ErrScheduleInvalid
| ErrEpochOutOfRange
| ErrBeforeGenesis
| ErrAirlockCommittee (e : threshold_error)
| ErrWindowClosed
| ErrWindowOpen
| ErrDepositConflict
| ErrSealed
| ErrDepositMalformed (e : mix_error)
| ErrRandomness
| ErrAirlockMix (e : mix_error)
| ErrSealedBatch
| ErrChainContext
| ErrChainIncomplete
| ErrShuffleInvalid
| ErrChainNotRandomised
| ErrReleaseThreshold (e : threshold_error).

Definition MaxInt64 : Z := 2 ^ 63 - 1.

Definition schedule_validate (s : Schedule) : result airlock_error unit :=
  match Genesis s with
  | None => Err ErrScheduleInvalid
  | Some _ =>
      if Period s <=? 0 then Err ErrScheduleInvalid
      else if (DepositCutoff s <=? 0) || (Period s <=? DepositCutoff s) then Err ErrScheduleInvalid
      else if BatchSize s <? 2 then Err ErrScheduleInvalid
      else if (MaxDepositsPerSession s <? 1) || (BatchSize s <? MaxDepositsPerSession s) then Err ErrScheduleInvalid
      else Ok tt
  end.

Definition MaxEpoch (s : Schedule) : Z := if Period s <=? 0 then 0 else u64 (MaxInt64 / Period s - 1).

Definition checkEpoch (s : Schedule) (epoch : Z) : result airlock_error unit :=
  if MaxEpoch s <? epoch then Err ErrEpochOutOfRange else Ok tt.

(** [time.Time.Sub] saturates at the limits of a duration. *)
Definition time_sub (t u : Z) : Z := Z.max (- 2 ^ 63) (Z.min MaxInt64 (t - u)).

Definition genesis_of (s : Schedule) : Z := default 0 (Genesis s).

Definition EpochAt (s : Schedule) (now : Z) : result airlock_error Z :=
  _ ← schedule_validate s;
  if now <? genesis_of s then Err ErrBeforeGenesis
  else
    let elapsed := time_sub now (genesis_of s) in
    if elapsed =? MaxInt64 then Err ErrEpochOutOfRange
    else
      let epoch := u64 (Z.quot elapsed (Period s)) in
      _ ← checkEpoch s epoch;
      Ok epoch.

Definition DepositWindow (s : Schedule) (epoch : Z) : result airlock_error (Z * Z) :=
  _ ← schedule_validate s;
  _ ← checkEpoch s epoch;
  let opens := genesis_of s + i64 (i64 epoch * Period s) in
  Ok (opens, opens + i64 (Period s - DepositCutoff s)).

Definition ReleaseAt (s : Schedule) (epoch : Z) : result airlock_error Z :=
  _ ← schedule_validate s;
  _ ← checkEpoch s epoch;
  Ok (genesis_of s + i64 (i64 (u64 (epoch + 1)) * Period s)).

(** ** Deposits ([deposit.go]) *)

Definition DepositSize : nat := ChunkCount * 2 * 32.
Definition depositDomain : list byte := String.list_byte_of_string "nomad-airlock-deposit-id-v1".
Definition EmptyFragment : list byte := replicate PlainCellSize x00.
Definition IsCover (cell : list byte) : bool := forallb (fun v => bool_decide (v = x00)) cell.

(** A deposit in a zero-valued wire cell. *)
Definition deposit_cell (payload : list byte) : list byte := payload ++ replicate (WireCellSize - DepositSize) x00.

Record Airlock := mkAirlock {
  schedule : Schedule;
  committee_key : list byte;
  release_epoch : Z;
  opens : Z;
  closes : Z;
  deposits : gmap (list byte) (list byte);
  sessions : gmap (list byte) Z;
  cover : list (list byte);
  sealed : bool;
  droppedFull : Z;
  droppedSession : Z;
}.

Definition id_le (a b : list byte) : Prop := be_val a <= be_val b.
#[export] Instance id_le_dec a b : Decision (id_le a b).
Proof. unfold id_le. apply _. Defined.

(** [randomBelow] on what the random source yields; [None] is a read failure. *)
Definition randomBelow (bound : Z) (raw : option Z) : result airlock_error Z :=
  if bound <=? 0 then Err ErrRandomness
  else match raw with None => Err ErrRandomness | Some v => Ok (v mod bound) end.

Definition swap {A} (l : list A) (i j : nat) : list A :=
  match l !! i, l !! j with
  | Some a, Some b => <[i := b]> (<[j := a]> l)
  | _, _ => l
  end.

(** Fisher-Yates from the last index down. *)
Fixpoint shuffle_down {A} (index : nat) (columns : list A) (raws : nat -> option Z) : result airlock_error (list A) :=
  match index with
  | O => Ok columns
  | S k =>
      position ← randomBelow (Z.of_nat index + 1) (raws index);
      shuffle_down k (swap columns index (Z.to_nat position)) raws
  end.

Definition shuffleColumns {A} (columns : list A) (raws : nat -> option Z) : result airlock_error (list A) :=
  shuffle_down (length columns - 1) columns raws.

Section airlock.
Context `{HashFunction, KyberGroup}.

Definition DepositID (session : list byte) (sequence : Z) : list byte := sha256 (depositDomain ++ session ++ be 8 sequence).

Definition coverColumn (key : list byte) (draws : nat -> list byte * scalar) (padding : list byte) : result mix_error (list byte) :=
  encryptCellWithPadding key EmptyFragment draws (Some padding).

(** The draws and padding of the cover columns are those the runtime yields. *)
Definition NewAirlock (s : Schedule) (c : ThresholdCommittee) (epoch : Z) (draws : nat -> nat -> list byte * scalar)
  (paddings : nat -> list byte) : result airlock_error Airlock :=
  _ ← schedule_validate s;
  _ ← wrap ErrAirlockCommittee (validateThresholdCommittee c);
  window ← DepositWindow s epoch;
  columns ← wrap ErrAirlockMix (collect (fun index => coverColumn (CommPublicKey c) (draws index) (paddings index))
                                   (seq 0 (Z.to_nat (BatchSize s))));
  Ok (mkAirlock s (CommPublicKey c) epoch (fst window) (snd window) ∅ ∅ columns false 0 0).

Definition validatePayload (payload : list byte) : result mix_error unit := ValidateCiphertextColumn (deposit_cell payload).

Definition held (a : Airlock) (session : list byte) : Z := default 0 (sessions a !! session).

Definition with_deposits (a : Airlock) (d : gmap (list byte) (list byte)) (s : gmap (list byte) Z) : Airlock :=
  mkAirlock (schedule a) (committee_key a) (release_epoch a) (opens a) (closes a) d s (cover a) (sealed a) (droppedFull a) (droppedSession a).

Definition Deposit (a : Airlock) (session : list byte) (sequence : Z) (payload : list byte) (now : Z)
  : Airlock * result airlock_error unit :=
  let id := DepositID session sequence in
  if sealed a then (a, Err ErrSealed)
  else if (now <? opens a) || negb (now <? closes a) then (a, Err ErrWindowClosed)
  else match deposits a !! id with
  | Some existing => if negb (bool_decide (existing = payload)) then (a, Err ErrDepositConflict) else (a, Ok tt)
  | None =>
      if MaxDepositsPerSession (schedule a) <=? held a session
      then (mkAirlock (schedule a) (committee_key a) (release_epoch a) (opens a) (closes a) (deposits a) (sessions a) (cover a)
              (sealed a) (droppedFull a) (droppedSession a + 1), Ok tt)
      else if BatchSize (schedule a) <=? Z.of_nat (size (deposits a))
      then (mkAirlock (schedule a) (committee_key a) (release_epoch a) (opens a) (closes a) (deposits a) (sessions a) (cover a)
              (sealed a) (droppedFull a + 1) (droppedSession a), Ok tt)
      else match validatePayload payload with
      | Err e => (a, Err (ErrDepositMalformed e))
      | Ok _ => (with_deposits a (<[id := payload]> (deposits a)) (<[session := held a session + 1]> (sessions a)), Ok tt)
      end
  end.

Definition Pending (a : Airlock) : Z := Z.of_nat (size (deposits a)).

Record Sealed := mkSealed {
  SealedEpoch : Z;
  SealedDigest : list byte;
  SealedColumns : list (list byte);
  SealedBatch : option Batch;
}.

(** The columns before the shuffle: deposits by ID, then cover up to the size. *)
Definition seal_columns (a : Airlock) : list (list byte) :=
  let ids := merge_sort id_le (map fst (map_to_list (deposits a))) in
  let columns := map (fun id => deposit_cell (default [] (deposits a !! id))) ids in
  columns ++ map (fun i => default [] (cover a !! i)) (seq (length columns) (Z.to_nat (BatchSize (schedule a)) - length columns)).

Definition set_sealed (a : Airlock) : Airlock :=
  mkAirlock (schedule a) (committee_key a) (release_epoch a) (opens a) (closes a) (deposits a) (sessions a) (cover a) true
    (droppedFull a) (droppedSession a).

(** [raws] and [padding] are what the random source yields. *)
Definition Seal (a : Airlock) (now : Z) (raws : nat -> option Z) (padding : list byte) : Airlock * result airlock_error Sealed :=
  if sealed a then (a, Err ErrSealed)
  else if now <? closes a then (a, Err ErrWindowOpen)
  else match ReleaseAt (schedule a) (release_epoch a) with
  | Err e => (a, Err e)
  | Ok release =>
      if negb (now <? release) then (a, Err ErrWindowClosed)
      else
        let outcome :=
          columns ← shuffleColumns (seal_columns a) raws;
          batch ← wrap ErrAirlockMix (ParseWire columns);
          columns ← wrap ErrAirlockMix (MarshalWireWithPadding (Some batch) (Some padding));
          digest ← wrap ErrAirlockMix (BatchDigest (Some batch));
          Ok (mkSealed (release_epoch a) digest columns (Some batch)) in
        match outcome with
        | Err e => (a, Err e)
        | Ok s => (set_sealed a, Ok s)
        end
  end.
End airlock.

(** ** The shuffle chain and the release ([chain.go]) *)

Section chain.
Context `{HashFunction, SignatureScheme, KyberGroup, !Shuffles}.

Record ChainRound := mkChainRound {
  Member : Z;
  OutputCells : list (list byte);
  ChainProof : list byte;
  ChainReceipt : RoundReceipt;
}.

Definition Shuffle (c : ThresholdCommittee) (member : Z) (input : option Batch) (identity r padding : list byte)
  : result round_error (ChainRound * Batch) :=
  inputDigest ← wrap ErrRoundMix (BatchDigest input);
  let context := mkRoundContext (CommID c) (CommEpoch c) inputDigest member in
  signed ← ShuffleAndSign context (CommPublicKey c) input identity r;
  let '(output, encodedProof, receipt) := signed in
  cells ← wrap ErrRoundMix (MarshalWireWithPadding (Some output) (Some padding));
  Ok (mkChainRound member cells encodedProof receipt, output).

(** The ciphertext regions of the columns, as bytes. *)
Definition ciphertexts (b : Batch) : list (list byte) :=
  map (fun col => concat (map marshal (column_points b col))) (seq 0 (Len (Some b))).

(** Both batches were validated before; the padding is not compared. *)
Definition requireRerandomisation (input output : Batch) : result airlock_error unit :=
  if existsb (fun cell => bool_decide (cell ∈ ciphertexts input)) (ciphertexts output) then Err ErrChainNotRandomised else Ok tt.

Fixpoint verify_rounds (c : ThresholdCommittee) (current : Batch) (positions : list (PublicMember * list byte)) (rounds : list ChainRound)
  : result airlock_error Batch :=
  match positions, rounds with
  | (member, mixer) :: positions, round :: rounds =>
      let receipt := ChainReceipt round in
      if negb (Member round =? MemberIdx member) then Err ErrChainIncomplete
      else if negb (Nat.eqb (length mixer) 32) then Err ErrChainIncomplete
      else if negb (bool_decide (CtxCommittee (RecContext receipt) = CommID c)) || negb (CtxEpoch (RecContext receipt) =? CommEpoch c)
      then Err ErrChainContext
      else if negb (CtxRound (RecContext receipt) =? MemberIdx member) then Err ErrChainIncomplete
      else if negb (bool_decide (MixerPublic receipt = mixer)) then Err ErrShuffleInvalid
      else if negb (Nat.eqb (length (OutputCells round)) (Len (Some current))) then Err ErrShuffleInvalid
      else match ParseWire (OutputCells round) with
      | Err _ => Err ErrShuffleInvalid
      | Ok output =>
          match VerifySignedRound (CommPublicKey c) (Some current) (Some output) (ChainProof round) receipt with
          | Err _ => Err ErrShuffleInvalid
          | Ok _ => _ ← requireRerandomisation current output; verify_rounds c output positions rounds
          end
      end
  | _, _ => Ok current
  end.

Definition VerifyChain (c : ThresholdCommittee) (mixers : list (list byte)) (s : Sealed) (releaseEpoch : Z) (rounds : list ChainRound)
  : result airlock_error Batch :=
  _ ← wrap ErrAirlockCommittee (validateThresholdCommittee c);
  match SealedBatch s with
  | None => Err ErrSealedBatch
  | Some batch =>
      if negb (SealedEpoch s =? releaseEpoch) then Err ErrChainContext
      else
        sealedDigest ← wrap ErrAirlockMix (BatchDigest (Some batch));
        if negb (bool_decide (sealedDigest = SealedDigest s)) then Err ErrChainContext
        else if negb (Nat.eqb (length mixers) (length (CommMembers c))) then Err ErrChainIncomplete
        else if negb (Nat.eqb (length rounds) (length (CommMembers c))) then Err ErrChainIncomplete
        else verify_rounds c batch (zip (CommMembers c) mixers) rounds
  end.
End chain.

Section release.
Context `{HashFunction, KyberGroup, !Sharing, !RepProofs}.

(** The fragments and the number of columns that did not decrypt. *)
Definition release_columns (columns : list (result mix_error (list byte))) : list (list byte) * Z :=
  fold_left (fun acc column =>
    match column with
    | Err _ => (fst acc, snd acc + 1)
    | Ok cell => if IsCover cell then acc else (fst acc ++ [cell], snd acc)
    end) columns ([], 0).

Definition Release (c : ThresholdCommittee) (mixed : option Batch) (partials : list (option PartialDecryption))
  (visit : nat -> nat -> list (Z * list point) -> list (Z * list point)) : result airlock_error (list (list byte) * Z) :=
  columns ← wrap ErrReleaseThreshold (ThresholdDecryptColumns c mixed partials visit);
  Ok (release_columns columns).
End release.

(** ** The timetable *)

(** A schedule as its types allow it: durations are 64-bit. *)
Definition schedule_typed (s : Schedule) : Prop := Period s <= MaxInt64 /\ DepositCutoff s <= MaxInt64.

Definition opens_at (s : Schedule) (e : Z) : Z := genesis_of s + e * Period s.

Section timetable.
Variable s : Schedule.
Hypothesis Hok : schedule_validate s = Ok tt.
Hypothesis Htyped : schedule_typed s.

Lemma schedule_bounds : 0 < DepositCutoff s < Period s /\ Period s <= MaxInt64 /\ 2 <= BatchSize s /\
  1 <= MaxDepositsPerSession s <= BatchSize s.
Proof.
  revert Hok. unfold schedule_validate. destruct (Genesis s); [|done]. destruct (Period s <=? 0) eqn:E1; [done|].
  destruct ((DepositCutoff s <=? 0) || _) eqn:E2; [done|]. destruct (BatchSize s <? 2) eqn:E3; [done|].
  destruct ((MaxDepositsPerSession s <? 1) || _) eqn:E4; [done|]. intros _. destruct Htyped. reflect_bools. lia.
Qed.

Lemma MaxEpoch_eq : MaxEpoch s = MaxInt64 / Period s - 1 /\ 0 <= MaxEpoch s /\ (MaxEpoch s + 1) * Period s <= MaxInt64.
Proof.
  pose proof schedule_bounds as (Hc & Hp & _). unfold MaxEpoch. destruct (Period s <=? 0) eqn:E; [reflect_bools; lia|].
  assert (1 <= MaxInt64 / Period s) by (apply Z.div_le_lower_bound; lia).
  assert (MaxInt64 / Period s <= MaxInt64) by (apply Z.div_le_upper_bound; unfold MaxInt64 in *; nia).
  rewrite wrapu_small by (unfold fits; unfold MaxInt64 in *; lia). split_and!; [done|lia|].
  pose proof (Z.mul_div_le MaxInt64 (Period s) ltac:(lia)). nia.
Qed.

(** Within the checked range nothing wraps. *)
Lemma window_exact e : 0 <= e <= MaxEpoch s ->
  DepositWindow s e = Ok (opens_at s e, opens_at s (e + 1) - DepositCutoff s) /\ ReleaseAt s e = Ok (opens_at s (e + 1)).
Proof.
  intros He. pose proof schedule_bounds as (Hc & Hp & _). pose proof MaxEpoch_eq as (_ & _ & Hm).
  assert ((e + 1) * Period s <= MaxInt64) as Hle by nia. assert (0 <= e * Period s) by nia.
  assert (e + 1 <= MaxInt64) by nia. unfold MaxInt64 in *.
  unfold DepositWindow, ReleaseAt, checkEpoch. rewrite Hok. cbn [mbind result_bind].
  destruct (MaxEpoch s <? e) eqn:E; [reflect_bools; lia|]. cbn [mbind result_bind].
  rewrite (wrapu_small 64 (e + 1)) by (unfold fits; lia). rewrite (i64_small e), (i64_small (e + 1)) by lia.
  rewrite (i64_small (e * Period s)), (i64_small ((e + 1) * Period s)), (i64_small (Period s - DepositCutoff s)) by lia.
  unfold opens_at. split; do 2 f_equal; lia.
Qed.

Lemma window_range e : MaxEpoch s < e -> DepositWindow s e = Err ErrEpochOutOfRange /\ ReleaseAt s e = Err ErrEpochOutOfRange.
Proof.
  intros He. unfold DepositWindow, ReleaseAt, checkEpoch. rewrite Hok. cbn [mbind result_bind].
  destruct (MaxEpoch s <? e) eqn:E; [done|reflect_bools; lia].
Qed.

Lemma EpochAt_exact now e : EpochAt s now = Ok e <-> 0 <= e <= MaxEpoch s /\ opens_at s e <= now < opens_at s (e + 1).
Proof.
  pose proof schedule_bounds as (Hc & Hp & _). pose proof MaxEpoch_eq as (_ & Hm0 & Hm).
  unfold EpochAt, checkEpoch, opens_at. rewrite Hok. cbn [mbind result_bind]. set (g := genesis_of s).
  destruct (now <? g) eqn:E1; reflect_bools.
  { split; [done|]. intros [He Hn]. nia. }
  set (d := now - g). assert (0 <= d) by lia.
  assert (time_sub now g = Z.min MaxInt64 d) as -> by (unfold time_sub, MaxInt64; fold d; lia).
  destruct (Z.min MaxInt64 d =? MaxInt64) eqn:E2; reflect_bools.
  { split; [done|]. intros [He Hn]. nia. }
  assert (d < MaxInt64) by lia. rewrite (Z.min_r MaxInt64 d), (Z.quot_div_nonneg d (Period s)) by lia.
  assert (0 <= d / Period s <= MaxInt64) as Hq.
  { split; [apply Z.div_pos; lia|]. apply Z.div_le_upper_bound; unfold MaxInt64 in *; nia. }
  rewrite wrapu_small by (unfold fits; unfold MaxInt64 in *; lia).
  pose proof (Z.div_mod d (Period s) ltac:(lia)) as Hdm. pose proof (Z.mod_pos_bound d (Period s) ltac:(lia)) as Hmod.
  destruct (MaxEpoch s <? d / Period s) eqn:E3; reflect_bools; cbn [mbind result_bind]; split.
  - done.
  - intros [He Hn]. assert (d < (e + 1) * Period s) by lia. assert (d / Period s < e + 1) by (apply Z.div_lt_upper_bound; lia). lia.
  - intros [= <-]. nia.
  - intros [He Hn]. f_equal. symmetry. apply (Z.div_unique d (Period s) e (d - e * Period s)); lia.
Qed.
End timetable.

(** C37: The timetable is a partition of time fixed by the public schedule: within
    the representable range no boundary wraps, an epoch takes deposits from its
    opening until the cutoff before its release, its release is the next
    epoch's opening, and [EpochAt] names the one epoch whose interval contains
    the instant; outside that range nothing is returned. *)
Theorem timetable_exact s now e : schedule_validate s = Ok tt -> schedule_typed s ->
  (EpochAt s now = Ok e <-> 0 <= e <= MaxEpoch s /\ opens_at s e <= now < opens_at s (e + 1)) /\
  (0 <= e <= MaxEpoch s ->
     DepositWindow s e = Ok (opens_at s e, opens_at s (e + 1) - DepositCutoff s) /\ ReleaseAt s e = Ok (opens_at s (e + 1)) /\
     opens_at s e < opens_at s (e + 1) - DepositCutoff s < opens_at s (e + 1)) /\
  (MaxEpoch s < e -> DepositWindow s e = Err ErrEpochOutOfRange /\ ReleaseAt s e = Err ErrEpochOutOfRange).
Proof.
  intros Hok Ht. pose proof (schedule_bounds s Hok Ht) as (Hc & _). split; [by apply EpochAt_exact|]. split; [|by apply window_range].
  intros He. destruct (window_exact s Hok Ht e He) as [-> ->]. unfold opens_at. split_and!; [done|done|lia|lia].
Qed.

(** ** Deposits *)

Section deposits.
Context `{HashFunction, KyberGroup}.

(** A call of [Deposit], and a run of calls with a log of the deposits that took
    a slot, newest first. *)
Definition call : Type := list byte * Z * list byte * Z.          (* session, sequence, payload, now *)
Definition entry : Type := list byte * Z * list byte.

Definition deposit_step (st : Airlock * list entry) (c : call) : Airlock * list entry :=
  let '(a, log) := st in
  let '(session, sequence, payload, now) := c in
  let a' := fst (Deposit a session sequence payload now) in
  (a', if Nat.ltb (size (deposits a)) (size (deposits a')) then (session, sequence, payload) :: log else log).

Definition deposit_run (a : Airlock) (calls : list call) : Airlock * list entry := fold_left deposit_step calls (a, []).

Definition of_session (s : list byte) (log : list entry) : list entry := filter (fun e => e.1.1 = s) log.

Record deposits_inv (a : Airlock) (log : list entry) : Prop := {
  inv_map : forall id p, deposits a !! id = Some p <-> exists s q, (s, q, p) ∈ log /\ id = DepositID s q;
  inv_list : map_to_list (deposits a) ≡ₚ map (fun e => (DepositID e.1.1 e.1.2, e.2)) log;
  inv_size : size (deposits a) = length log;
  inv_held : forall s, held a s = len (of_session s log);
  inv_batch : len log <= BatchSize (schedule a);
  inv_session : forall s, held a s <= MaxDepositsPerSession (schedule a);
  inv_valid : Forall (fun e => validatePayload e.2 = Ok tt) log;
}.

(** What a call does to the state. *)
Lemma Deposit_outcome a session sequence payload now a' r : Deposit a session sequence payload now = (a', r) ->
  (deposits a' = deposits a /\ sessions a' = sessions a /\ schedule a' = schedule a /\ cover a' = cover a /\
   committee_key a' = committee_key a /\ release_epoch a' = release_epoch a /\ closes a' = closes a /\ opens a' = opens a /\ sealed a' = sealed a) \/
  (deposits a !! DepositID session sequence = None /\ held a session < MaxDepositsPerSession (schedule a) /\
   Z.of_nat (size (deposits a)) < BatchSize (schedule a) /\ validatePayload payload = Ok tt /\ r = Ok tt /\
   a' = with_deposits a (<[DepositID session sequence := payload]> (deposits a)) (<[session := held a session + 1]> (sessions a))).
Proof.
  unfold Deposit. destruct (sealed a) eqn:Es; [intros [= <- <-]; by left|]. destruct (_ || _); [intros [= <- <-]; by left|].
  destruct (deposits a !! DepositID session sequence) eqn:Ed.
  { destruct (negb _); intros [= <- <-]; by left. }
  destruct (MaxDepositsPerSession _ <=? _) eqn:E1; [intros [= <- <-]; by left|].
  destruct (BatchSize _ <=? _) eqn:E2; [intros [= <- <-]; by left|].
  destruct (validatePayload payload) as [[]|e] eqn:Ev; [|intros [= <- <-]; by left].
  intros [= <- <-]. right. reflect_bools. by split_and!.
Qed.

Lemma deposits_inv_fresh a : deposits a = ∅ -> sessions a = ∅ -> 0 <= BatchSize (schedule a) ->
  0 <= MaxDepositsPerSession (schedule a) -> deposits_inv a [].
Proof.
  intros Hd Hs Hb Hm. split; unfold held; rewrite ?Hd, ?Hs.
  - intros id p. rewrite lookup_empty. split; [done|]. intros (s & q & Hin & _). by apply elem_of_nil in Hin.
  - by rewrite map_to_list_empty.
  - apply map_size_empty.
  - intros s. by rewrite lookup_empty.
  - done.
  - intros s. by rewrite lookup_empty.
  - constructor.
Qed.

Lemma deposit_step_inv a log c : deposits_inv a log ->
  deposits_inv (deposit_step (a, log) c).1 (deposit_step (a, log) c).2 /\
  schedule (deposit_step (a, log) c).1 = schedule a /\ cover (deposit_step (a, log) c).1 = cover a /\
  closes (deposit_step (a, log) c).1 = closes a /\ sealed (deposit_step (a, log) c).1 = sealed a /\
  release_epoch (deposit_step (a, log) c).1 = release_epoch a /\ committee_key (deposit_step (a, log) c).1 = committee_key a.
Proof.
  intros [Im Il Is Ih Ib Ip Iv]. destruct c as [[[session sequence] payload] now]. cbn [deposit_step].
  destruct (Deposit a session sequence payload now) as [a' r] eqn:E. cbn [fst snd].
  destruct (Deposit_outcome _ _ _ _ _ _ _ E) as [(Hd & Hs & Hsch & Hcov & Hck & Hre & Hcl & _ & Hse)|(Hnone & Hq & Hb & Hv & _ & ->)].
  - rewrite Hd, Nat.ltb_irrefl. split_and!; [|done..]. split; unfold held; rewrite ?Hd, ?Hs, ?Hsch; done.
  - cbn [deposits with_deposits]. rewrite map_size_insert_None by done.
    rewrite (proj2 (Nat.ltb_lt _ _)) by lia. split_and!; [|done..]. split; cbn [deposits sessions schedule with_deposits].
    + intros id p. rewrite lookup_insert_Some, Im. split.
      * intros [[<- <-]|(_ & s & q & Hin & ->)]; [exists session, sequence; set_solver|exists s, q; set_solver].
      * intros (s & q & Hin & ->). apply elem_of_cons in Hin as [[= -> -> ->]|Hin]; [by left|].
        right. split; [|by exists s, q]. intros Eid.
        assert (deposits a !! DepositID s q = Some p) as Hsome by (apply Im; by exists s, q). congruence.
    + rewrite map_to_list_insert by done. cbn [map fst snd]. by rewrite Il.
    + rewrite map_size_insert_None by done. simpl. by rewrite Is.
    + intros s. unfold held, of_session in *. cbn [sessions with_deposits]. rewrite filter_cons. cbn [fst].
      destruct (decide (session = s)) as [->|Hne].
      * rewrite lookup_insert_eq. simpl. rewrite Ih, Nat2Z.inj_succ. reflexivity.
      * rewrite lookup_insert_ne by done. apply Ih.
    + simpl. rewrite Is in Hb. lia.
    + intros s. unfold held in *. cbn [sessions with_deposits]. destruct (decide (session = s)) as [->|Hne].
      * rewrite lookup_insert_eq. simpl. lia.
      * rewrite lookup_insert_ne by done. apply Ip.
    + by constructor.
Qed.

Lemma deposit_run_inv a calls : deposits_inv a [] ->
  let '(a', log) := deposit_run a calls in
  deposits_inv a' log /\ schedule a' = schedule a /\ cover a' = cover a /\ closes a' = closes a /\ sealed a' = sealed a /\
  release_epoch a' = release_epoch a /\ committee_key a' = committee_key a.
Proof.
  unfold deposit_run. generalize (@nil entry) as log. revert a. induction calls as [|c calls IH]; intros a log Hinv; [done|].
  cbn [fold_left]. destruct (deposit_step_inv a log c Hinv) as (Hinv' & H1' & H2' & H3' & H4' & H5' & H6').
  destruct (deposit_step (a, log) c) as [a1 log1]. cbn [fst snd] in *. specialize (IH a1 log1 Hinv').
  destruct (fold_left deposit_step calls (a1, log1)) as [a' log']. destruct IH as (? & ? & ? & ? & ? & ? & ?). split_and!; congruence.
Qed.
End deposits.

(** The airlock holds what its policy allows and loses nothing it took: over any
    run of deposits from a fresh airlock, the slots taken never exceed the batch
    size, no session holds more than its bound, every payload held decodes to
    usable points, and the stored deposits are exactly those that took a slot,
    each under its own name. *)
Theorem deposits_bounded `{HashFunction, KyberGroup} s c epoch draws paddings a calls :
  NewAirlock s c epoch draws paddings = Ok a -> schedule_typed s ->
  let '(a', log) := deposit_run a calls in
  Pending a' = len log /\ len log <= BatchSize s /\
  (forall session, len (of_session session log) <= MaxDepositsPerSession s) /\
  Forall (fun e => validatePayload e.2 = Ok tt) log /\
  (forall id p, deposits a' !! id = Some p <-> exists session sequence, (session, sequence, p) ∈ log /\ id = DepositID session sequence).
Proof.
  intros Hnew Ht. unfold NewAirlock in Hnew. destruct (schedule_validate s) as [[]|] eqn:Hv; [|done]. cbn [mbind result_bind] in Hnew.
  destruct (validateThresholdCommittee c) as [[]|]; [|done]. cbn [wrap mbind result_bind] in Hnew.
  destruct (DepositWindow s epoch) as [w|]; [|done]. cbn [mbind result_bind] in Hnew.
  destruct (collect _ _) as [cols|]; [|done]. cbn [wrap mbind result_bind] in Hnew. apply (inj Ok) in Hnew as <-.
  pose proof (schedule_bounds s Hv Ht) as (_ & _ & Hb & Hm).
  set (a0 := mkAirlock _ _ _ _ _ _ _ _ _ _ _).
  assert (deposits_inv a0 []) as Hfresh by (apply deposits_inv_fresh; simpl; [done|done|lia|lia]).
  pose proof (deposit_run_inv a0 calls Hfresh) as Hrun.
  destruct (deposit_run a0 calls) as [a' log]. destruct Hrun as ([Im Il Is Ih Ib Ip Iv] & Hs & _). cbn [schedule] in Hs. rewrite Hs in *.
  split_and!; [unfold Pending; by rewrite Is|done| |done|done]. intros session. rewrite <- Ih. apply Ip.
Qed.

(** The responses tell a depositor whether the epoch is full, although a full
    epoch is not to be reported.  In an open window, for a session below its
    bound and a sequence it has not used: a first offer of a well-formed payload
    always succeeds, but a second, different payload for the same sequence is
    refused as a conflict exactly if the epoch had room, and a malformed payload
    is refused exactly if it has room. *)
Theorem occupancy_oracle `{HashFunction, KyberGroup} a session sequence p1 p2 malformed e now :
  sealed a = false -> opens a <= now < closes a -> deposits a !! DepositID session sequence = None ->
  0 <= held a session < MaxDepositsPerSession (schedule a) -> validatePayload p1 = Ok tt -> p1 <> p2 ->
  validatePayload p2 = Ok tt -> validatePayload malformed = Err e ->
  let a1 := fst (Deposit a session sequence p1 now) in
  let full := BatchSize (schedule a) <=? Z.of_nat (size (deposits a)) in
  snd (Deposit a session sequence p1 now) = Ok tt /\
  snd (Deposit a1 session sequence p2 now) = (if full then Ok tt else Err ErrDepositConflict) /\
  snd (Deposit a session sequence malformed now) = (if full then Ok tt else Err (ErrDepositMalformed e)).
Proof.
  intros Hs Hw Hnone Hq Hv1 Hne Hv2 Hm. cbv zeta.
  assert ((now <? opens a) || negb (now <? closes a) = false) as Hwin.
  { destruct (now <? opens a) eqn:E1, (now <? closes a) eqn:E2; reflect_bools; try done; lia. }
  assert ((MaxDepositsPerSession (schedule a) <=? held a session) = false) as Hh by (apply Z.leb_gt; lia).
  set (full := BatchSize (schedule a) <=? Z.of_nat (size (deposits a))). remember (Deposit a session sequence p1 now) as d1 eqn:E1.
  assert (snd (Deposit a session sequence malformed now) = if full then Ok tt else Err (ErrDepositMalformed e)) as ->.
  { unfold Deposit. rewrite Hs, Hwin, Hnone, Hh, Hm. subst full. by destruct (BatchSize _ <=? _). }
  unfold Deposit in E1. rewrite Hs, Hwin, Hnone, Hh, Hv1 in E1. fold full in E1.
  destruct full eqn:Hfull; subst d1; cbn [fst snd]; (split; [done|split; [|done]]); unfold Deposit, with_deposits, held in *;
    cbn [sealed opens closes deposits schedule sessions]; rewrite ?Hs, Hwin.
  - rewrite Hnone, Hh. subst full. by rewrite Hfull.
  - rewrite lookup_insert_eq. by rewrite bool_decide_false.
Qed.

(** ** Witnesses *)

Section example.
#[local] Existing Instance example_hash.
#[local] Existing Instance gf_group.

Definition example_schedule : Schedule := mkSchedule (Some 1000) 100 10 3 2.

Lemma timetable_exact_witness : EpochAt example_schedule 1250 = Ok 2 /\ DepositWindow example_schedule 2 = Ok (1200, 1290) /\
  ReleaseAt example_schedule 2 = Ok 1300.
Proof.
  assert (schedule_validate example_schedule = Ok tt) as Hv by reflexivity.
  assert (schedule_typed example_schedule) as Ht by (split; vm_compute; discriminate).
  destruct (timetable_exact example_schedule 1250 2 Hv Ht) as (Hat & Hw & _).
  assert (0 <= 2 <= MaxEpoch example_schedule) as Hr by (vm_compute; split; discriminate).
  destruct (Hw Hr) as (W & R & _). split; [|split; [exact W|exact R]]. apply Hat. split; [exact Hr|vm_compute; split; [discriminate|reflexivity]].
Defined.

Definition example_wire (tag : byte) : list byte :=
  match encryptCellWithPadding (CommPublicKey example_committee) (example_cell tag) (fun row => ([], byte_of_Z (Z.of_nat (3 * row + 1))))
    (Some (replicate 48 x00)) with Ok w => w | Err _ => [] end.
Definition example_payload (tag : byte) : list byte := take DepositSize (example_wire tag).
Definition example_cover (index row : nat) : list byte * scalar := ([], byte_of_Z (Z.of_nat (5 * row + index + 1))).
Definition example_new : result airlock_error Airlock :=
  NewAirlock example_schedule example_committee 2 example_cover (fun _ => replicate 48 x00).

(** Two sessions; the first repeats a deposit and is cut off at its bound. *)
Definition example_calls : list call :=
  [([x01], 0, example_payload x61, 1200); ([x01], 0, example_payload x61, 1201); ([x01], 1, example_payload x62, 1202);
   ([x01], 2, example_payload x63, 1203); ([x02], 0, replicate 1152 x00, 1204); ([x02], 1, example_payload x64, 1289);
   ([x03], 0, example_payload x65, 1289); ([x03], 0, example_payload x65, 1290)].

Lemma example_new_ok : exists a, example_new = Ok a.
Proof.
  destruct example_new as [a|e] eqn:E; [by exists a|].
  assert (match example_new with Ok _ => true | Err _ => false end = true) as Hok by (vm_compute; reflexivity).
  rewrite E in Hok. discriminate.
Qed.
Definition example_airlock : Airlock := match example_new with Ok a => a | Err _ => mkAirlock example_schedule [] 0 0 0 ∅ ∅ [] true 0 0 end.
Lemma example_log : length (deposit_run example_airlock example_calls).2 = 3%nat.
Proof. vm_compute. reflexivity. Qed.

Lemma example_typed : schedule_typed example_schedule.
Proof. split; vm_compute; discriminate. Qed.

Lemma example_new_eq : NewAirlock example_schedule example_committee 2 example_cover (fun _ => replicate 48 x00) = Ok example_airlock.
Proof. destruct example_new_ok as [a Ha]. unfold example_airlock. rewrite Ha. exact Ha. Qed.

Lemma deposits_bounded_witness : Pending (deposit_run example_airlock example_calls).1 = 3 /\
  len (of_session [x01] (deposit_run example_airlock example_calls).2) <= 2.
Proof.
  pose proof (deposits_bounded example_schedule example_committee 2 example_cover (fun _ => replicate 48 x00) example_airlock
    example_calls example_new_eq example_typed) as Hb. pose proof example_log as Hl.
  destruct (deposit_run example_airlock example_calls) as [a' log]. destruct Hb as (Hp & _ & Hs & _). cbn [fst snd] in *.
  split; [by rewrite Hp, Hl|apply (Hs [x01])].
Defined.

(** The full epoch and the fresh one answer the same two calls differently. *)
Definition example_full : Airlock := (deposit_run example_airlock example_calls).1.

Lemma occupancy_oracle_witness : exists e,
  snd (Deposit example_airlock [x09] 7 (replicate 1152 x00) 1250) = Err (ErrDepositMalformed e) /\
  snd (Deposit example_full [x09] 7 (replicate 1152 x00) 1250) = Ok tt.
Proof.
  assert (exists e, validatePayload (replicate 1152 x00) = Err e) as [e He] by (eexists; vm_compute; reflexivity).
  assert (validatePayload (example_payload x61) = Ok tt) as H1 by (vm_compute; reflexivity).
  assert (validatePayload (example_payload x62) = Ok tt) as H2 by (vm_compute; reflexivity).
  assert (example_payload x61 <> example_payload x62) as Hne.
  { intros E. apply (f_equal (fun l => bool_decide (l = example_payload x62))) in E. vm_compute in E. discriminate. }
  exists e. split.
  - refine (proj2 (proj2 (occupancy_oracle example_airlock [x09] 7 (example_payload x61) (example_payload x62) (replicate 1152 x00) e 1250
      _ _ _ _ H1 Hne H2 He))).
    + vm_compute. reflexivity.
    + split; [vm_compute; discriminate|vm_compute; reflexivity].
    + vm_compute. reflexivity.
    + split; [vm_compute; discriminate|vm_compute; reflexivity].
  - refine (proj2 (proj2 (occupancy_oracle example_full [x09] 7 (example_payload x61) (example_payload x62) (replicate 1152 x00) e 1250
      _ _ _ _ H1 Hne H2 He))).
    + vm_compute. reflexivity.
    + split; [vm_compute; discriminate|vm_compute; reflexivity].
    + vm_compute. reflexivity.
    + split; [vm_compute; discriminate|vm_compute; reflexivity].
Defined.
End example.
