(* ===== verification/Uplink.v ===== *)
(** Uplink cells ([live/uplink/session.go]): the session key and nonces, and the
    sealing and opening of the fixed-size cells that carry a committee
    ciphertext from a publisher to an entry operator. *)

From stdpp Require Import base list list_numbers gmap strings.
From Stdlib Require Import ZArith Lia Strings.Byte.
From S2P Require Import Prelude Bytes Hash Kyber Mix Frame.

(** ** The cipher *)

(** [cipher.AEAD] of AES-GCM with a 32-byte key, and the key stream of
    [hkdf.New] on a secret, salt and info. *)
Class AEAD := {
  aead_seal : list byte -> list byte -> list byte -> list byte -> list byte;     (* key nonce plaintext data *)
  aead_open : list byte -> list byte -> list byte -> list byte -> option (list byte);
  length_aead_seal : forall key nonce plaintext data, length (aead_seal key nonce plaintext data) = (length plaintext + 16)%nat;
  aead_open_seal : forall key nonce plaintext data, aead_open key nonce (aead_seal key nonce plaintext data) data = Some plaintext;
}.

Class HKDF := {
  hkdf : list byte -> list byte -> list byte -> nat -> list byte;                (* secret salt info length *)
  length_hkdf : forall secret salt info n, length (hkdf secret salt info n) = n;
}.

(** [authentic key]: what opens under [key] was sealed under it, with the same
    nonce and data. *)
Definition authentic `{AEAD} (key : list byte) : Prop := forall nonce sealed data plaintext,
  aead_open key nonce sealed data = Some plaintext -> sealed = aead_seal key nonce plaintext data.

(** ** Sessions *)

Definition PayloadSize : nat := PlainCellSize.
Definition InnerSize : nat := 1152.
Definition SequenceSize : nat := 8.
Definition paddingSize : nat := CellSize - SequenceSize - InnerSize - 16.

Record Context := mkContext {
  NetworkID : list byte;
  Epoch : Z;
  TopologyDigest : list byte;
  EntryOperator : Z;
}.

Record Session := mkSession {
  session_key : list byte;
  committee : list byte;
  context : Context;
}.

Inductive uplink_error :=
| ErrSharedSecret
| ErrContext
| ErrSession
| ErrSequenceZero
| ErrUplinkMix (e : mix_error)
| ErrSealedLength
| ErrAuthentication
| ErrOpenedLength
| ErrPaddingNotZero.

Section uplink.
Context `{HashFunction, KyberGroup, AEAD, HKDF}.

Definition sessionLabel : list byte := String.list_byte_of_string "nomad-uplink-session-v1".
Definition nonceLabel : list byte := String.list_byte_of_string "nomad-uplink-nonce-v1".

Definition session_info (c : Context) : list byte :=
  sessionLabel ++ be 8 (len (NetworkID c)) ++ NetworkID c ++ be 8 (Epoch c) ++ be 2 (EntryOperator c).

Definition SessionKey (sharedSecret : list byte) (c : Context) : result uplink_error (list byte) :=
  if bool_decide (sharedSecret = []) then Err ErrSharedSecret
  else if bool_decide (NetworkID c = []) || (Epoch c =? 0) || bool_decide (TopologyDigest c = replicate 32 x00) then Err ErrContext
  else Ok (hkdf sharedSecret (TopologyDigest c) (session_info c) 32).

Definition NewSession (sharedSecret key : list byte) (c : Context) : result uplink_error Session :=
  k ← SessionKey sharedSecret c;
  Ok (mkSession k key c).

Definition Nonce (key : list byte) (sequence : Z) : list byte := take 12 (sha256 (nonceLabel ++ key ++ be 8 sequence)).

(** [draws] and [padding] are the randomness of the committee encryption. *)
Definition uplink_seal (session : option Session) (sequence : Z) (payload : list byte) (draws : nat -> list byte * scalar) (padding : list byte)
  : result uplink_error (list byte) :=
  match session with
  | None => Err ErrSession
  | Some s =>
      if sequence =? 0 then Err ErrSequenceZero
      else
        wire ← wrap ErrUplinkMix (encryptCellWithPadding (committee s) payload draws (Some padding));
        let inner := take InnerSize wire ++ replicate paddingSize x00 in
        let head := be 8 sequence in
        let sealed := aead_seal (session_key s) (Nonce (session_key s) sequence) inner head in
        if negb (Nat.eqb (length sealed) (CellSize - SequenceSize)) then Err ErrSealedLength
        else Ok (head ++ sealed)
  end.

Definition SealWork := uplink_seal.

Definition SealCover (session : option Session) (sequence : Z) (draws : nat -> list byte * scalar) (padding : list byte)
  : result uplink_error (list byte) := uplink_seal session sequence (replicate PayloadSize x00) draws padding.

Definition uplink_Open (session : option Session) (cell : list byte) : result uplink_error (Z * list byte) :=
  match session with
  | None => Err ErrSession
  | Some s =>
      let head := take SequenceSize cell in
      let sequence := be_val head in
      if sequence =? 0 then Err ErrSequenceZero
      else match aead_open (session_key s) (Nonce (session_key s) sequence) (drop SequenceSize cell) head with
      | None => Err ErrAuthentication
      | Some opened =>
          if negb (Nat.eqb (length opened) (InnerSize + paddingSize)) then Err ErrOpenedLength
          else if negb (forallb (fun v => bool_decide (v = x00)) (drop InnerSize opened)) then Err ErrPaddingNotZero
          else Ok (sequence, take InnerSize opened)
      end
  end.
End uplink.

(** ** Cells *)

Section cells.
Context `{HashFunction, KyberGroup, AEAD, HKDF}.

Lemma encrypted_length key cell draws padding w : encryptCellWithPadding key cell draws (Some padding) = Ok w -> length w = WireCellSize.
Proof.
  unfold encryptCellWithPadding. destruct (EmbedLen <? _); [discriminate|]. destruct (publicPoint key) as [h|]; [|discriminate].
  cbn [mbind result_bind]. destruct (marshal_cell _ padding) as [cp|] eqn:Em; [|discriminate]. cbn [mbind result_bind]. intros [= <-].
  unfold marshal_cell in Em. destruct (negb (forallb _ _)); [discriminate|]. destruct (negb _) eqn:El; [discriminate|].
  destruct (Nat.ltb _ _) eqn:Ep; [discriminate|]. apply (inj Ok) in Em as <-. rewrite negb_false_iff, Nat.eqb_eq in El.
  apply Nat.ltb_ge in Ep. cbn [fst]. rewrite length_app, El, length_take. revert Ep.
  change (WireCellSize - cipherSize)%nat with 48%nat. change cipherSize with 1152%nat. unfold WireCellSize. lia.
Qed.

(** What a seal produces, spelled out. *)
Lemma uplink_seal_ok s sequence payload draws padding cell : uplink_seal (Some s) sequence payload draws padding = Ok cell ->
  sequence <> 0 /\ exists w, encryptCellWithPadding (committee s) payload draws (Some padding) = Ok w /\
    cell = be 8 sequence ++ aead_seal (session_key s) (Nonce (session_key s) sequence) (take InnerSize w ++ replicate paddingSize x00) (be 8 sequence).
Proof.
  unfold uplink_seal. destruct (sequence =? 0) eqn:E0; [done|]. reflect_bools.
  destruct (encryptCellWithPadding _ _ _ _) as [w|] eqn:Ew; [|done]. cbn [wrap mbind result_bind].
  destruct (negb _); [done|]. intros [= <-]. split; [done|]. by exists w.
Qed.

(** Sealing fails for nothing but a missing session, a zero sequence or a
    failing encryption. *)
Lemma uplink_seal_total s sequence payload draws padding w : sequence <> 0 ->
  encryptCellWithPadding (committee s) payload draws (Some padding) = Ok w ->
  exists cell, uplink_seal (Some s) sequence payload draws padding = Ok cell.
Proof.
  intros Hz Hw. unfold uplink_seal. destruct (sequence =? 0) eqn:E0; [reflect_bools; done|]. rewrite Hw. cbn [wrap mbind result_bind].
  rewrite length_aead_seal, length_app, length_replicate, length_take, (encrypted_length _ _ _ _ _ Hw).
  change (Nat.eqb (Nat.min InnerSize WireCellSize + paddingSize + 16) (CellSize - SequenceSize)) with true. cbn [negb]. by eexists.
Qed.

Lemma uplink_open_sealed s sequence w : 0 < sequence < 2 ^ 64 -> length w = WireCellSize ->
  uplink_Open (Some s) (be 8 sequence ++ aead_seal (session_key s) (Nonce (session_key s) sequence)
    (take InnerSize w ++ replicate paddingSize x00) (be 8 sequence)) = Ok (sequence, take InnerSize w).
Proof.
  intros Hs Hw. unfold uplink_Open. assert (length (be 8 sequence) = SequenceSize) as Hb by apply length_be.
  rewrite (take_app_exact _ _ _ Hb), (drop_app_exact _ _ _ Hb), be_val_be_fits by (change (256 ^ Z.of_nat 8) with (2 ^ 64); lia).
  destruct (sequence =? 0) eqn:E0; [reflect_bools; lia|]. rewrite aead_open_seal.
  assert (length (take InnerSize w) = InnerSize) as Hl by (rewrite length_take, Hw; reflexivity).
  rewrite length_app, Hl, length_replicate, Nat.eqb_refl. cbn [negb]. rewrite (drop_app_exact _ _ _ Hl), (take_app_exact _ _ _ Hl).
  assert (forallb (fun v => bool_decide (v = x00)) (replicate paddingSize x00) = true) as -> by reflexivity. done.
Qed.
End cells.

(** A sealed cell arrives as it was sent: it has the one size of every cell, and
    opening it in the same session returns its sequence number and the committee
    ciphertext that was sealed into it, for work and cover alike. *)
Theorem uplink_roundtrip `{HashFunction, KyberGroup, AEAD} s sequence payload draws padding cell :
  0 < sequence < 2 ^ 64 -> uplink_seal (Some s) sequence payload draws padding = Ok cell ->
  length cell = CellSize /\ exists w, encryptCellWithPadding (committee s) payload draws (Some padding) = Ok w /\
    uplink_Open (Some s) cell = Ok (sequence, take InnerSize w).
Proof.
  intros Hs Hc. destruct (uplink_seal_ok _ _ _ _ _ _ Hc) as (_ & w & Hw & ->). pose proof (encrypted_length _ _ _ _ _ Hw) as Hl. split.
  - rewrite length_app, length_be, length_aead_seal, length_app, length_take, length_replicate, Hl. reflexivity.
  - exists w. split; [done|]. by apply uplink_open_sealed.
Qed.

(** An entry operator takes nothing the session key did not seal: with an
    authentic cipher, a cell that opens is, byte for byte, the cell that sealing
    its sequence number and inner ciphertext with zero padding gives.  So a
    sequence number and a content have one cell each, and no bit of a cell on
    the wire can be changed without refusal. *)
Theorem opened_cell_canonical `{HashFunction, AEAD} s cell sequence inner : authentic (session_key s) ->
  length cell = CellSize -> uplink_Open (Some s) cell = Ok (sequence, inner) ->
  0 < sequence < 2 ^ 64 /\ length inner = InnerSize /\
  cell = be 8 sequence ++ aead_seal (session_key s) (Nonce (session_key s) sequence) (inner ++ replicate paddingSize x00) (be 8 sequence).
Proof.
  intros Ha Hl. unfold uplink_Open. destruct (be_val _ =? 0) eqn:E0; [done|]. destruct (aead_open _ _ _ _) as [opened|] eqn:Eo; [|done].
  destruct (Nat.eqb_spec (length opened) (InnerSize + paddingSize)) as [Hlen|]; [|done]. cbn [negb].
  destruct (forallb _ _) eqn:Ep; [|done]. cbn [negb]. intros [= <- <-]. reflect_bools.
  assert (length (take SequenceSize cell) = 8%nat) as Hh by (rewrite length_take, Hl; reflexivity).
  pose proof (be_val_range (take SequenceSize cell)) as Hr. rewrite Hh in Hr. change (256 ^ Z.of_nat 8) with (2 ^ 64) in Hr.
  assert (be 8 (be_val (take SequenceSize cell)) = take SequenceSize cell) as Hbe by (rewrite <- Hh; apply be_be_val).
  apply Ha in Eo. rewrite Hbe.
  assert (drop InnerSize opened = replicate paddingSize x00) as Hz.
  { symmetry. apply replicate_as_elem_of. split; [rewrite length_drop; lia|]. intros v Hv%list_elem_of_In. rewrite forallb_forall in Ep.
    specialize (Ep v Hv). by apply bool_decide_eq_true in Ep. }
  split_and!; [lia|lia|rewrite length_take; lia|]. rewrite <- Hz, take_drop, <- Eo. symmetry. apply take_drop.
Qed.

(** A session belongs to one public state: what its key is derived from, the
    salt and the info, determine network, epoch, topology and entry operator. *)
Theorem session_binds_context c1 c2 :
  (forall c, c = c1 \/ c = c2 -> addressable (NetworkID c) /\ 0 <= Epoch c < 2 ^ 64 /\ 0 <= EntryOperator c < 2 ^ 16) ->
  TopologyDigest c1 = TopologyDigest c2 -> session_info c1 = session_info c2 -> c1 = c2.
Proof.
  intros Ht Htop Hi. destruct (Ht c1 (or_introl eq_refl)) as (A1 & E1 & O1), (Ht c2 (or_intror eq_refl)) as (A2 & E2 & O2).
  unfold session_info, addressable in *. apply app_inv_head in Hi.
  apply app_inj_1 in Hi as [Hn Hi]; [|by rewrite !length_be]. apply be_inj in Hn; [|change (256 ^ Z.of_nat 8) with (2 ^ 64); lia..].
  apply app_inj_1 in Hi as [Hnet Hi]; [|lia]. apply app_inj_1 in Hi as [He Ho]; [|by rewrite !length_be].
  apply be_inj in He; [|change (256 ^ Z.of_nat 8) with (2 ^ 64); lia..]. apply be_inj in Ho; [|change (256 ^ Z.of_nat 2) with (2 ^ 16); lia..].
  destruct c1, c2; simpl in *; by subst.
Qed.

(** ** Witnesses *)

(** A cipher with a constant tag; it is authentic, and hides nothing. *)
Definition example_tag : list byte := replicate 16 x2a.

Definition example_aead : AEAD.
Proof.
  refine {| aead_seal := fun _ _ plaintext _ => plaintext ++ example_tag;
    aead_open := fun _ _ sealed _ =>
      if bool_decide (drop (length sealed - 16) sealed = example_tag) then Some (take (length sealed - 16) sealed) else None |}.
  - intros _ _ plaintext _. by rewrite length_app.
  - intros _ _ plaintext _. rewrite length_app. change (length example_tag) with 16%nat. rewrite Nat.add_sub.
    rewrite (drop_app_exact _ _ _ eq_refl), (take_app_exact _ _ _ eq_refl). by rewrite bool_decide_true.
Defined.

Lemma example_authentic key : @authentic example_aead key.
Proof.
  intros nonce sealed data plaintext E. cbn in E. case_bool_decide as Ht; [|done]. injection E as <-. cbn. by rewrite <- Ht, take_drop.
Qed.

Definition example_hkdf : HKDF.
Proof. refine {| hkdf := fun secret salt info n => replicate n x17 |}. intros. apply length_replicate. Defined.

Section example.
#[local] Existing Instance example_hash.
#[local] Existing Instance gf_group.
#[local] Existing Instance example_aead.
#[local] Existing Instance example_hkdf.

Definition example_context : Context := mkContext [x6e] 4 (replicate 32 x01) 2.
Definition example_session : Session := mkSession (replicate 32 x17) (GenerateKey example_secret).1 example_context.
Definition example_uplink (sequence : Z) : result uplink_error (list byte) :=
  uplink_seal (Some example_session) sequence (Mix.example_cell x61) (fun row => example_draws row 1) (replicate 48 x00).

Lemma example_uplink_ok : exists cell, example_uplink 9 = Ok cell.
Proof.
  destruct (example_uplink 9) as [cell|e] eqn:E; [by exists cell|].
  assert (match example_uplink 9 with Ok _ => true | Err _ => false end = true) as Hok by (vm_compute; reflexivity).
  rewrite E in Hok. discriminate.
Qed.

Lemma uplink_roundtrip_witness : exists cell w, example_uplink 9 = Ok cell /\ length cell = CellSize /\
  uplink_Open (Some example_session) cell = Ok (9, take InnerSize w).
Proof.
  destruct example_uplink_ok as [cell Hc].
  destruct (uplink_roundtrip example_session 9 _ _ _ cell ltac:(lia) Hc) as (Hl & w & _ & Ho).
  exists cell, w. split; [exact Hc|split; [exact Hl|exact Ho]].
Defined.

Lemma opened_cell_canonical_witness : exists cell inner, uplink_Open (Some example_session) cell = Ok (9, inner) /\ length inner = InnerSize.
Proof.
  assert (exists cell inner, length cell = CellSize /\ uplink_Open (Some example_session) cell = Ok (9, inner)) as (cell & inner & Hl & Ho).
  { exists (be 8 9 ++ replicate InnerSize x61 ++ replicate paddingSize x00 ++ example_tag), (replicate InnerSize x61). split; vm_compute; reflexivity. }
  destruct (opened_cell_canonical example_session cell 9 inner (example_authentic _) Hl Ho) as (_ & Hi & _).
  exists cell, inner. split; [exact Ho|exact Hi].
Defined.

Lemma session_binds_context_witness : example_context = mkContext [x6e] 4 (replicate 32 x01) 2.
Proof.
  apply (session_binds_context example_context (mkContext [x6e] 4 (replicate 32 x01) 2)); [|reflexivity|reflexivity].
  intros c [-> | ->]; (split; [vm_compute; reflexivity|simpl; lia]).
Defined.
End example.
