(* ===== verification/Handshake.v ===== *)
(** The uplink handshake ([live/uplink/handshake.go]): a publisher that stays
    anonymous agrees on a session with an entry operator, whose key the signed
    topology names, in one cell of the size of every other. *)

From stdpp Require Import base list list_numbers gmap sets strings.
From Stdlib Require Import ZArith Lia Strings.Byte.
From S2P Require Import Prelude Bytes Hash Kyber Mix Frame Uplink.

(** [crypto/ecdh] on X25519: the public key of a private one, and the agreement,
    which fails on points of low order. *)
Class X25519 := {
  x_public : list byte -> list byte;
  x_agree : list byte -> list byte -> option (list byte);
  length_x_public : forall k, length (x_public k) = 32%nat;
  x_commutes : forall a b, x_agree a (x_public b) = x_agree b (x_public a);
}.

Definition EphemeralSize : nat := 32.
Definition handshakePadding : nat := CellSize - SequenceSize - EphemeralSize - 16.
Definition handshakeKeyDomain : list byte := String.list_byte_of_string "nomad-uplink-handshake-v1".
Definition handshakeSecretDomain : list byte := String.list_byte_of_string "nomad-uplink-handshake-secret-v1".
Definition handshakeIDDomain : list byte := String.list_byte_of_string "nomad-uplink-handshake-id-v1".

Inductive handshake_error :=
| ErrHandshakeSequence
| ErrHandshakeContext
| ErrOperatorKey
| ErrAgreement
| ErrHandshakeSession (e : uplink_error)
| ErrHandshakeLength
| ErrStaticKey
| ErrSessionLimit
| ErrNotAHandshake
| ErrSessionReplay
| ErrTooManySessions.

Record Initiator := mkInitiator {
  ephemeral : list byte;
  init_session : Session;
  init_sessionID : list byte;
  init_cell : list byte;
}.

Record Responder := mkResponder {
  static : list byte;
  resp_committee : list byte;
  resp_context : Context;
  resp_limit : Z;
  resp_seen : gset (list byte);
}.

Section handshake.
Context `{HashFunction, AEAD, HKDF, X25519}.

Definition context_validate (c : Context) : bool :=
  negb (bool_decide (NetworkID c = []) || (Epoch c =? 0) || bool_decide (TopologyDigest c = replicate 32 x00)).

Definition handshakeInfo (domain : list byte) (c : Context) (key : list byte) : list byte :=
  domain ++ be 8 (len (NetworkID c)) ++ NetworkID c ++ be 8 (Epoch c) ++ be 2 (EntryOperator c) ++ key.

Definition handshakeDerive (agreed key : list byte) (c : Context) (domain : list byte) : list byte :=
  hkdf agreed (TopologyDigest c) (handshakeInfo domain c key) 32.

Definition sessionFromAgreement (agreed key committee : list byte) (c : Context) : result handshake_error (Session * list byte) :=
  session ← wrap ErrHandshakeSession (NewSession (handshakeDerive agreed key c handshakeSecretDomain) committee c);
  Ok (session, handshakeDerive agreed key c handshakeIDDomain).

Definition handshakeNonce (agreed key : list byte) (c : Context) (sequence : Z) : list byte :=
  Nonce (handshakeDerive agreed key c handshakeKeyDomain) sequence.

Definition sealHandshake (agreed key : list byte) (c : Context) (sequence : Z) : result handshake_error (list byte) :=
  let head := be 8 sequence ++ key in
  let sealed := aead_seal (handshakeDerive agreed key c handshakeKeyDomain) (handshakeNonce agreed key c sequence) (replicate handshakePadding x00) head in
  if negb (Nat.eqb (length sealed) (CellSize - SequenceSize - EphemeralSize)) then Err ErrHandshakeLength
  else Ok (head ++ sealed).

Definition openHandshake (agreed key : list byte) (c : Context) (sequence : Z) (cell : list byte) : result handshake_error unit :=
  match aead_open (handshakeDerive agreed key c handshakeKeyDomain) (handshakeNonce agreed key c sequence)
          (drop (SequenceSize + EphemeralSize) cell) (take (SequenceSize + EphemeralSize) cell) with
  | None => Err ErrNotAHandshake
  | Some opened =>
      if negb (Nat.eqb (length opened) handshakePadding) then Err ErrNotAHandshake
      else if negb (bool_decide (opened = replicate handshakePadding x00)) then Err ErrNotAHandshake
      else Ok tt
  end.

(** [private] is the ephemeral key that [GenerateKey] draws. *)
Definition Establish (operatorKEXKey committee : list byte) (c : Context) (sequence : Z) (private : list byte) : result handshake_error Initiator :=
  if sequence =? 0 then Err ErrHandshakeSequence
  else if negb (context_validate c) then Err ErrHandshakeContext
  else if negb (Nat.eqb (length operatorKEXKey) 32) then Err ErrOperatorKey
  else match x_agree private operatorKEXKey with
  | None => Err ErrAgreement
  | Some agreed =>
      established ← sessionFromAgreement agreed (x_public private) committee c;
      cell ← sealHandshake agreed (x_public private) c sequence;
      Ok (mkInitiator private established.1 established.2 cell)
  end.

(** No key is the empty one. *)
Definition NewResponder (key committee : list byte) (c : Context) (limit : Z) : result handshake_error Responder :=
  if bool_decide (key = []) then Err ErrStaticKey
  else if negb (context_validate c) then Err ErrHandshakeContext
  else if limit <? 1 then Err ErrSessionLimit
  else Ok (mkResponder key committee c limit ∅).

Definition remember_ephemeral (r : Responder) (key : list byte) : Responder :=
  mkResponder (static r) (resp_committee r) (resp_context r) (resp_limit r) ({[key]} ∪ resp_seen r).

Definition Sessions (r : Responder) : Z := Z.of_nat (size (resp_seen r)).

Definition cell_ephemeral (cell : list byte) : list byte := take EphemeralSize (drop SequenceSize cell).

Definition AcceptHandshake (r : Responder) (cell : list byte) : Responder * result handshake_error (Session * list byte) :=
  let sequence := be_val (take SequenceSize cell) in
  if sequence =? 0 then (r, Err ErrNotAHandshake)
  else
    let key := cell_ephemeral cell in
    match x_agree (static r) key with
    | None => (r, Err ErrNotAHandshake)
    | Some agreed =>
        match openHandshake agreed key (resp_context r) sequence cell with
        | Err _ => (r, Err ErrNotAHandshake)
        | Ok _ =>
            if bool_decide (key ∈ resp_seen r) then (r, Err ErrSessionReplay)
            else if resp_limit r <=? Sessions r then (r, Err ErrTooManySessions)
            else (remember_ephemeral r key, sessionFromAgreement agreed key (resp_committee r) (resp_context r))
        end
    end.

Lemma Sessions_remember r key : key ∉ resp_seen r -> Sessions (remember_ephemeral r key) = Sessions r + 1.
Proof.
  intros Hn. unfold Sessions. cbn [remember_ephemeral resp_seen]. rewrite size_union; [rewrite size_singleton; lia|].
  by apply disjoint_singleton_l.
Qed.

(** ** One handshake *)

Lemma sessionFromAgreement_ok agreed key committee c : context_validate c = true ->
  sessionFromAgreement agreed key committee c =
  Ok (mkSession (hkdf (handshakeDerive agreed key c handshakeSecretDomain) (TopologyDigest c) (session_info c) 32) committee c,
      handshakeDerive agreed key c handshakeIDDomain).
Proof.
  unfold context_validate. intros Hc. apply negb_true_iff in Hc. unfold sessionFromAgreement, NewSession, SessionKey. rewrite Hc.
  rewrite bool_decide_false; [done|]. intros E. pose proof (length_hkdf agreed (TopologyDigest c) (handshakeInfo handshakeSecretDomain c key) 32) as Hl.
  unfold handshakeDerive in E. by rewrite E in Hl.
Qed.

Definition handshake_cell (agreed key : list byte) (c : Context) (sequence : Z) : list byte :=
  (be 8 sequence ++ key) ++ aead_seal (handshakeDerive agreed key c handshakeKeyDomain) (handshakeNonce agreed key c sequence) (replicate handshakePadding x00)
    (be 8 sequence ++ key).

Lemma sealHandshake_ok agreed key c sequence : sealHandshake agreed key c sequence = Ok (handshake_cell agreed key c sequence).
Proof. unfold sealHandshake. rewrite length_aead_seal, length_replicate. done. Qed.

Lemma handshake_cell_parts agreed key c sequence : length key = EphemeralSize ->
  take SequenceSize (handshake_cell agreed key c sequence) = be 8 sequence /\ cell_ephemeral (handshake_cell agreed key c sequence) = key /\
  take (SequenceSize + EphemeralSize) (handshake_cell agreed key c sequence) = be 8 sequence ++ key /\
  length (handshake_cell agreed key c sequence) = CellSize.
Proof.
  intros Hk. assert (length (be 8 sequence) = SequenceSize) as Hb by apply length_be. unfold cell_ephemeral, handshake_cell. split_and!.
  - rewrite <- app_assoc. by apply take_app_exact.
  - rewrite <- app_assoc, (drop_app_exact _ _ _ Hb). by apply take_app_exact.
  - apply take_app_exact. by rewrite length_app, Hb, Hk.
  - rewrite !length_app, Hb, Hk, length_aead_seal, length_replicate. reflexivity.
Qed.

Lemma openHandshake_sealed agreed key c sequence : length key = EphemeralSize ->
  openHandshake agreed key c sequence (handshake_cell agreed key c sequence) = Ok tt.
Proof.
  intros Hk. unfold openHandshake. destruct (handshake_cell_parts agreed key c sequence Hk) as (_ & _ & -> & _). unfold handshake_cell.
  rewrite drop_app_exact by (by rewrite length_app, length_be, Hk). rewrite aead_open_seal, length_replicate, Nat.eqb_refl, bool_decide_true by done. done.
Qed.

(** What opens is what was sealed. *)
Lemma openHandshake_ok agreed c cell : length cell = CellSize -> (forall key, authentic (handshakeDerive agreed key c handshakeKeyDomain)) ->
  openHandshake agreed (cell_ephemeral cell) c (be_val (take SequenceSize cell)) cell = Ok tt ->
  cell = handshake_cell agreed (cell_ephemeral cell) c (be_val (take SequenceSize cell)).
Proof.
  intros Hl Ha. unfold openHandshake. destruct (aead_open _ _ _ _) as [opened|] eqn:Eo; [|done]. destruct (negb _); [done|]. case_bool_decide as Ez; [|done].
  intros _. subst opened. apply Ha in Eo.
  assert (length (take SequenceSize cell) = 8%nat) as Hh by (rewrite length_take, Hl; reflexivity).
  assert (be 8 (be_val (take SequenceSize cell)) = take SequenceSize cell) as Hbe by (rewrite <- Hh; apply be_be_val).
  unfold handshake_cell. rewrite Hbe.
  assert (take SequenceSize cell ++ cell_ephemeral cell = take (SequenceSize + EphemeralSize) cell) as -> by (unfold cell_ephemeral; by rewrite <- take_take_drop).
  rewrite <- Eo. by rewrite take_drop.
Qed.
End handshake.

(** ** Many cells *)

Section cells.
Context `{HashFunction, AEAD, HKDF, X25519}.

(** The cells that were taken for a handshake, with the session and its
    identifier. *)
Fixpoint accept_cells (r : Responder) (cells : list (list byte)) : Responder * list (list byte * Session * list byte) :=
  match cells with
  | [] => (r, [])
  | cell :: cells =>
      match AcceptHandshake r cell with
      | (r, Err _) => accept_cells r cells
      | (r, Ok (session, id)) => let '(r', accepted) := accept_cells r cells in (r', (cell, session, id) :: accepted)
      end
  end.

(** A cell that was accepted: it opens under the agreement of its ephemeral key
    with the operator's, from which the session follows. *)
Definition accepted_by (r : Responder) (e : list byte * Session * list byte) : Prop :=
  let '(cell, session, id) := e in
  exists agreed, x_agree (static r) (cell_ephemeral cell) = Some agreed /\ 0 < be_val (take SequenceSize cell) /\
    openHandshake agreed (cell_ephemeral cell) (resp_context r) (be_val (take SequenceSize cell)) cell = Ok tt /\
    sessionFromAgreement agreed (cell_ephemeral cell) (resp_committee r) (resp_context r) = Ok (session, id).

Lemma AcceptHandshake_spec r cell r' x : context_validate (resp_context r) = true -> AcceptHandshake r cell = (r', x) ->
  (r' = r /\ is_ok x = false) \/
  (exists session id, x = Ok (session, id) /\ accepted_by r (cell, session, id) /\ cell_ephemeral cell ∉ resp_seen r /\ Sessions r < resp_limit r /\
    r' = remember_ephemeral r (cell_ephemeral cell)).
Proof.
  intros Hc. unfold AcceptHandshake. destruct (be_val _ =? 0) eqn:E0; [intros [= <- <-]; by left|]. reflect_bools.
  destruct (x_agree _ _) as [agreed|] eqn:Ea; [|intros [= <- <-]; by left]. destruct (openHandshake _ _ _ _ _) as [[]|] eqn:Eo; [|intros [= <- <-]; by left].
  case_bool_decide as Es; [intros [= <- <-]; by left|]. destruct (resp_limit r <=? Sessions r) eqn:El; [intros [= <- <-]; by left|]. reflect_bools.
  intros Er. right. rewrite sessionFromAgreement_ok in Er by done. injection Er as <- <-. eexists _, _. split; [done|]. split_and!; [|done|lia|done].
  exists agreed. pose proof (be_val_range (take SequenceSize cell)). split_and!; [done|lia|done|]. by rewrite sessionFromAgreement_ok.
Qed.

Lemma accept_cells_spec cells r r' accepted : context_validate (resp_context r) = true -> Sessions r <= resp_limit r -> accept_cells r cells = (r', accepted) ->
  NoDup (map (fun e => cell_ephemeral e.1.1) accepted) /\ Forall (fun e => cell_ephemeral e.1.1 ∉ resp_seen r) accepted /\
  Forall (accepted_by r) accepted /\ Sessions r' = Sessions r + len accepted /\ Sessions r' <= resp_limit r.
Proof.
  revert r accepted. induction cells as [|cell cells IH]; intros r accepted Hc Hl; cbn [accept_cells].
  { intros [= <- <-]. split_and!; [constructor|constructor|constructor|simpl; lia|lia]. }
  destruct (AcceptHandshake r cell) as [r1 x] eqn:Ea. apply AcceptHandshake_spec in Ea as [[-> Hx]|(session & id & -> & Hacc & Hn & Hlt & ->)]; [| |done].
  { destruct x as [[session id]|e]; [done|]. by apply IH. }
  destruct (accept_cells _ cells) as [r2 rest] eqn:Er. intros [= <- <-]. apply IH in Er as (Hnd & Hnew & Hall & Hsize & Hmax).
  - assert (Sessions (remember_ephemeral r (cell_ephemeral cell)) = Sessions r + 1) as Hs.
    { by apply Sessions_remember. }
    cbn [remember_ephemeral resp_seen resp_limit] in *. split_and!.
    + cbn [map fst]. apply NoDup_cons. split; [|done]. intros Hin. apply (list_elem_of_fmap (fun e : list byte * Session * list byte => cell_ephemeral e.1.1) rest) in Hin as (e & E & Hin).
      rewrite Forall_forall in Hnew. specialize (Hnew e Hin). set_solver.
    + constructor; [done|]. eapply Forall_impl; [exact Hnew|]. intros e He. set_solver.
    + constructor; [done|]. exact Hall.
    + rewrite Hsize, Hs. rewrite length_cons. lia.
    + done.
  - done.
  - rewrite Sessions_remember by done. cbn [remember_ephemeral resp_limit]. lia.
Qed.
End cells.

(** C29: Publisher and operator agree.  A handshake cell has the size of every cell; the
    operator whose published key it was made for takes it, and ends with exactly
    the publisher's session, so what the publisher seals afterwards the operator
    opens, and the same session identifier; the operator then remembers the
    ephemeral key, and refuses the cell, or any other cell that carries the key,
    from then on, without changing its state. *)
Theorem handshake_establishes `{HashFunction, AEAD, HKDF, X25519} (r : Responder) (sequence : Z) (private : list byte) (i : Initiator) :
  0 < sequence < 2 ^ 64 -> context_validate (resp_context r) = true ->
  Establish (x_public (static r)) (resp_committee r) (resp_context r) sequence private = Ok i ->
  x_public private ∉ resp_seen r -> Sessions r < resp_limit r ->
  length (init_cell i) = CellSize /\
  AcceptHandshake r (init_cell i) = (remember_ephemeral r (x_public private), Ok (init_session i, init_sessionID i)) /\
  Sessions (remember_ephemeral r (x_public private)) = Sessions r + 1 /\
  forall cell, cell_ephemeral cell = x_public private ->
    exists e, AcceptHandshake (remember_ephemeral r (x_public private)) cell = (remember_ephemeral r (x_public private), Err e) /\
      (e = ErrNotAHandshake \/ e = ErrSessionReplay).
Proof.
  intros Hs Hc He Hn Hl. unfold Establish in He. rewrite (proj2 (Z.eqb_neq sequence 0)), Hc, length_x_public in He by lia. cbn [negb Nat.eqb] in He.
  destruct (x_agree private _) as [agreed|] eqn:Ea; [|done]. rewrite sessionFromAgreement_ok, sealHandshake_ok in He by done. cbn [mbind result_bind fst snd] in He.
  injection He as <-. cbn [init_cell init_session init_sessionID].
  destruct (handshake_cell_parts agreed (x_public private) (resp_context r) sequence (length_x_public private)) as (P1 & P2 & P3 & P4). split_and!; [done| | |].
  - unfold AcceptHandshake. rewrite P1, P2, be_val_be_fits by (change (256 ^ Z.of_nat 8) with (2 ^ 64); lia). rewrite (proj2 (Z.eqb_neq sequence 0)) by lia.
    rewrite <- x_commutes, Ea, openHandshake_sealed by apply length_x_public. rewrite bool_decide_false by done. rewrite (proj2 (Z.leb_gt _ _)) by done.
    by rewrite sessionFromAgreement_ok.
  - by apply Sessions_remember.
  - clear Ea. intros cell Hcell. unfold AcceptHandshake. destruct (_ =? 0); [eauto|]. destruct (x_agree _ _) as [agreed'|]; [|eauto].
    match goal with |- context [openHandshake ?a ?k ?c ?q ?x] => destruct (openHandshake a k c q x) end; [|eauto]. rewrite bool_decide_true; [eauto|]. rewrite Hcell. cbn [remember_ephemeral resp_seen].
    by apply elem_of_union_l, elem_of_singleton.
Qed.

(** C30: What an operator can be made to hold.  Whatever cells arrive, in whatever order,
    a new responder holds at most as many sessions as its limit; no two of them
    come from one ephemeral key, so none shares its keys and nonces with another by
    a replay; and with an authentic cipher each comes from a cell that is, byte for
    byte, the one handshake its ephemeral key and sequence number make for this
    operator, network, epoch and topology. *)
Theorem responder_sessions `{HashFunction, AEAD, HKDF, X25519} (key committee : list byte) (c : Context) (limit : Z) (r : Responder) (cells : list (list byte)) :
  NewResponder key committee c limit = Ok r ->
  let '(r', accepted) := accept_cells r cells in
  Sessions r' = len accepted /\ len accepted <= limit /\ NoDup (map (fun e => cell_ephemeral e.1.1) accepted) /\
  Forall (fun e => exists agreed, x_agree key (cell_ephemeral e.1.1) = Some agreed /\
    sessionFromAgreement agreed (cell_ephemeral e.1.1) committee c = Ok (e.1.2, e.2) /\
    ((forall k, authentic (handshakeDerive agreed k c handshakeKeyDomain)) -> length e.1.1 = CellSize ->
      e.1.1 = handshake_cell agreed (cell_ephemeral e.1.1) c (be_val (take SequenceSize e.1.1)))) accepted.
Proof.
  intros Hr. unfold NewResponder in Hr. case_bool_decide; [done|]. destruct (context_validate c) eqn:Hc; [|done]. cbn [negb] in Hr.
  destruct (limit <? 1) eqn:El; [done|]. injection Hr as <-. reflect_bools.
  destruct (accept_cells _ cells) as [r' accepted] eqn:Ea. apply accept_cells_spec in Ea as (Hnd & _ & Hall & Hsize & Hmax); [|done|change (0 <= limit); lia].
  change (Sessions (mkResponder key committee c limit ∅)) with 0 in Hsize. cbn [resp_limit] in Hmax. split_and!; [lia|lia|done|].
  eapply Forall_impl; [exact Hall|]. intros [[cell session] id] (agreed & Hag & _ & Ho & Hsess). exists agreed. cbn [fst snd] in *.
  split_and!; [exact Hag|exact Hsess|]. intros Hau Hlen. by apply openHandshake_ok.
Qed.

(** ** Example *)

Definition example_x25519 : X25519.
Proof.
  refine {| x_public := fun k => take 32 (k ++ replicate 32 x00); x_agree := fun a b => Some (zip_with bxor (take 32 (a ++ replicate 32 x00)) (take 32 b)) |}.
  - intros k. rewrite length_take, length_app, length_replicate. lia.
  - intros a b. f_equal. rewrite !take_take, !Nat.min_id. rewrite <- (zip_with_flip bxor). apply zip_with_ext; [|done|done]. intros p q. apply bxor_comm.
Defined.

Section example.
#[local] Existing Instance example_hash.
#[local] Existing Instance example_aead.
#[local] Existing Instance example_hkdf.
#[local] Existing Instance example_x25519.

Definition entry_operator : Responder := mkResponder [x05] [x06] example_context 2 ∅.

Lemma handshake_establishes_witness : exists i, Establish (x_public [x05]) [x06] example_context 9 [x07] = Ok i /\
  AcceptHandshake entry_operator (init_cell i) = (remember_ephemeral entry_operator (x_public [x07]), Ok (init_session i, init_sessionID i)).
Proof.
  destruct (Establish (x_public [x05]) [x06] example_context 9 [x07]) as [i|e] eqn:E.
  - exists i. split; [reflexivity|].
    destruct (handshake_establishes entry_operator 9 [x07] i) as (_ & Ha & _); [split; reflexivity|vm_compute; reflexivity|exact E|set_solver|vm_compute; reflexivity|exact Ha].
  - assert (is_ok (Establish (x_public [x05]) [x06] example_context 9 [x07]) = true) as Hok by (vm_compute; reflexivity). rewrite E in Hok. discriminate Hok.
Defined.

(** Two publishers, a replay, two cells of nobody and a third publisher who comes
    too late for the limit of two. *)
Definition establish_cell (private : list byte) : list byte :=
  match Establish (x_public [x05]) [x06] example_context 9 private with Ok i => init_cell i | Err _ => [] end.

Definition arriving : list (list byte) :=
  [replicate CellSize x2a; establish_cell [x07]; establish_cell [x07]; establish_cell [x08]; replicate CellSize x00; establish_cell [x09]].

Lemma responder_sessions_witness :
  let '(r, accepted) := accept_cells entry_operator arriving in
  map (fun e => e.1.1) accepted = [establish_cell [x07]; establish_cell [x08]] /\ Sessions r = 2 /\
  Forall (fun e => exists agreed, x_agree [x05] (cell_ephemeral e.1.1) = Some agreed /\
    e.1.1 = handshake_cell agreed (cell_ephemeral e.1.1) example_context (be_val (take SequenceSize e.1.1))) accepted.
Proof.
  pose proof (responder_sessions [x05] [x06] example_context 2 entry_operator arriving ltac:(vm_compute; reflexivity)) as Hr.
  assert (map (fun e => e.1.1) (accept_cells entry_operator arriving).2 = [establish_cell [x07]; establish_cell [x08]]) as Hcells
    by (vm_compute; reflexivity).
  destruct (accept_cells entry_operator arriving) as [r accepted]. cbn [snd] in Hcells. destruct Hr as (Hs & _ & _ & Hall).
  split; [exact Hcells|]. split.
  - rewrite Hs. apply (f_equal length) in Hcells. rewrite length_map in Hcells. rewrite Hcells. reflexivity.
  - assert (Forall (fun cell => length cell = CellSize) (map (fun e => e.1.1) accepted)) as Hlen
      by (rewrite Hcells; repeat constructor).
    apply Forall_map in Hlen. apply Forall_forall. intros e Hin. rewrite Forall_forall in Hall, Hlen.
    destruct (Hall e Hin) as (agreed & Ha & _ & Hcell). exists agreed. split; [exact Ha|].
    apply Hcell; [intros k; apply example_authentic|exact (Hlen e Hin)].
Defined.
End example.
