(* ===== verification/PublishQueue.v ===== *)
(** The publication queue ([live/publish/queue.go]): an object is cut into
    fixed-size fragments, each sealed at rest in a file named by its identifier,
    and drained one by one in the order of the names.

    A directory is a map from file names to contents; what the operating system
    does during a call, failures included, is an argument of the call. *)

From stdpp Require Import base list list_numbers gmap sorting strings.
From Stdlib Require Import ZArith Lia Strings.Byte.
From S2P Require Import Prelude Bytes Hash Codec Uplink.

(** ** Definitions *)

Definition FragmentSize : nat := 504.
Definition MaximumObjectBytes : Z := 262144.
Definition fragmentIDDomain : list byte := String.list_byte_of_string "nomad-publication-fragment-v1".
Definition entryIDDomain : list byte := String.list_byte_of_string "nomad-publication-entry-v1".
Definition fragmentSuffix : list byte := String.list_byte_of_string ".fragment".

Definition headerSize : nat := 4 + 4 + 4 + 32.
Definition bodySize : nat := FragmentSize - headerSize.

Record Fragment := mkFragment {
  FragID : list byte;
  FragIndex : Z;
  FragTotal : Z;
  FragPayload : list byte;
}.

#[export] Instance Fragment_eq_dec : EqDecision Fragment.
Proof. solve_decision. Defined.

Record Queue := mkQueue {
  maxFragments : Z;
  queue_key : list byte;
}.

Notation directory := (gmap (list byte) (list byte)).

Inductive queue_error :=
| ErrQueueDirectory
| ErrQueueLimit
| ErrQueueKeySource
| ErrObjectSize
| ErrPublisherKey
| ErrFragmentCount
| ErrQueueFull
| ErrQueueIO
| ErrConflictingFragment
| ErrNoWork
| ErrEntryName
| ErrFragmentAuthentication
| ErrFragmentLength.

(** The outcome of each operation on the directory during one call; those on
    the file of a fragment are by its position. *)
Record queue_io := mkQueueIO {
  list_ok : bool;
  stat_ok : nat -> bool;
  read_ok : nat -> bool;
  write_ok : nat -> bool;
  remove_ok : bool;
  sync_ok : bool;
}.

Section queue.
Context `{HashFunction, AEAD}.

(** [Open], given that the directory exists and what the key source returns. *)
Definition OpenQueue (root_given root_ok : bool) (maximumFragments : Z) (key : option (result queue_error (list byte)))
  : result queue_error Queue :=
  if negb root_given then Err ErrQueueDirectory
  else if (maximumFragments <? 1) || (2 ^ 20 <? maximumFragments) then Err ErrQueueLimit
  else match key with
  | None => Err ErrQueueKeySource
  | Some openKey =>
      if negb root_ok then Err ErrQueueDirectory
      else k ← openKey; Ok (mkQueue maximumFragments k)
  end.

Definition fragmentID (root : list byte) (index : Z) : list byte := sha256 (fragmentIDDomain ++ root ++ be 4 index).

Definition fragment_payload (root object : list byte) (total index : nat) : list byte :=
  let body := slice object (index * bodySize) (Nat.min (index * bodySize + bodySize) (length object)) in
  be 4 (Z.of_nat index) ++ be 4 (Z.of_nat total) ++ be 4 (len object) ++ root ++ body ++ replicate (bodySize - length body) x00.

Definition fragmentObject (root object : list byte) : result queue_error (list Fragment) :=
  let total := ((length object + bodySize - 1) / bodySize)%nat in
  if Nat.eqb total 0 || (2 ^ 20 <? Z.of_nat total) then Err ErrFragmentCount
  else Ok (map (fun index => mkFragment (fragmentID root (u32 (Z.of_nat index))) (u32 (Z.of_nat index)) (u32 (Z.of_nat total))
                               (fragment_payload root object total index)) (seq 0 total)).

Definition entryNonce (id : list byte) : list byte := take 12 (sha256 (entryIDDomain ++ id)).

Definition sealFragment (q : Queue) (f : Fragment) : list byte :=
  aead_seal (queue_key q) (entryNonce (FragID f)) (be 4 (FragIndex f) ++ be 4 (FragTotal f) ++ FragPayload f) (FragID f).

Definition openFragment (q : Queue) (id sealed : list byte) : result queue_error Fragment :=
  match aead_open (queue_key q) (entryNonce id) sealed id with
  | None => Err ErrFragmentAuthentication
  | Some plaintext =>
      if negb (Nat.eqb (length plaintext) (8 + FragmentSize)) then Err ErrFragmentLength
      else Ok (mkFragment id (be_val (slice plaintext 0 4)) (be_val (slice plaintext 4 8)) (drop 8 plaintext))
  end.

(** The base name of [pathFor]. *)
Definition nameFor (id : list byte) : list byte := hex_encode id ++ fragmentSuffix.

(** [filepath.Ext(name) == ".fragment"]: the suffix starts at the last dot. *)
Definition is_fragment (name : list byte) : bool :=
  Nat.leb (length fragmentSuffix) (length name) &&
  bool_decide (drop (length name - length fragmentSuffix) name = fragmentSuffix).

Definition listLocked (d : directory) : list (list byte) :=
  merge_sort name_le (filter (fun name => is_fragment name = true) (map fst (map_to_list d))).

Definition Pending (env : queue_io) (d : directory) : result queue_error Z :=
  if negb (list_ok env) then Err ErrQueueIO else Ok (len (listLocked d)).

Definition writeOrCompare (env : queue_io) (index : nat) (d : directory) (name data : list byte) : directory * result queue_error unit :=
  match d !! name with
  | Some existing =>
      if negb (read_ok env index) then (d, Err ErrQueueIO)
      else if bool_decide (existing = data) then (d, Ok tt) else (d, Err ErrConflictingFragment)
  | None => if negb (write_ok env index) then (d, Err ErrQueueIO) else (<[name := data]> d, Ok tt)
  end.

Fixpoint write_fragments (q : Queue) (env : queue_io) (index : nat) (d : directory) (fragments : list Fragment)
  : directory * result queue_error unit :=
  match fragments with
  | [] => (d, Ok tt)
  | f :: fragments =>
      match writeOrCompare env index d (nameFor (FragID f)) (sealFragment q f) with
      | (d', Ok _) => write_fragments q env (S index) d' fragments
      | (d', Err e) => (d', Err e)
      end
  end.

(** [existing]: the fragments whose file [Lstat] finds. *)
Definition count_existing (env : queue_io) (d : directory) (fragments : list Fragment) : Z :=
  len (filter (fun fi => is_Some (d !! nameFor (FragID fi.1)) /\ stat_ok env fi.2 = true) (zip fragments (seq 0 (length fragments)))).

Definition Submit (q : Queue) (env : queue_io) (d : directory) (object publisher : list byte) : directory * result queue_error unit :=
  if bool_decide (object = []) || (MaximumObjectBytes <? len object) then (d, Err ErrObjectSize)
  else if negb (Nat.eqb (length publisher) 32) then (d, Err ErrPublisherKey)
  else match fragmentObject (sha256 object) object with
  | Err e => (d, Err e)
  | Ok fragments =>
      match Pending env d with
      | Err e => (d, Err e)
      | Ok pending =>
          if maxFragments q <? pending + len fragments - count_existing env d fragments then (d, Err ErrQueueFull)
          else match write_fragments q env 0 d fragments with
          | (d', Err e) => (d', Err e)
          | (d', Ok _) => (d', if sync_ok env then Ok tt else Err ErrQueueIO)
          end
      end
  end.

(** [Next] may return a fragment together with the error of the last sync. *)
Inductive next_result :=
| NextOk (f : Fragment)
| NextUnsynced (f : Fragment)
| NextErr (e : queue_error).

Definition QueueNext (q : Queue) (env : queue_io) (d : directory) : directory * next_result :=
  if negb (list_ok env) then (d, NextErr ErrQueueIO)
  else match listLocked d with
  | [] => (d, NextErr ErrNoWork)
  | name :: _ =>
      match hex_decode (take (length name - length fragmentSuffix) name) with
      | None => (d, NextErr ErrEntryName)
      | Some id =>
          if negb (Nat.eqb (length id) 32) then (d, NextErr ErrEntryName)
          else if negb (read_ok env 0) then (d, NextErr ErrQueueIO)
          else match openFragment q id (default [] (d !! name)) with
          | Err e => (if remove_ok env then delete name d else d, NextErr e)
          | Ok f =>
              if negb (remove_ok env) then (d, NextErr ErrQueueIO)
              else (delete name d, if sync_ok env then NextOk f else NextUnsynced f)
          end
      end
  end.
End queue.

(** ** Names and fragments *)

Section fragments.
Context `{HashFunction, AEAD}.

Lemma is_fragment_nameFor id : is_fragment (nameFor id) = true.
Proof.
  unfold is_fragment, nameFor. rewrite length_app, Nat.add_sub. rewrite (proj2 (Nat.leb_le _ _)) by lia.
  by rewrite (drop_app_exact _ _ _ eq_refl), bool_decide_true.
Qed.

Lemma nameFor_decodes id : hex_decode (take (length (nameFor id) - length fragmentSuffix) (nameFor id)) = Some id.
Proof. unfold nameFor. rewrite length_app, Nat.add_sub, (take_app_exact _ _ _ eq_refl). apply hex_decode_encode. Qed.

#[export] Instance nameFor_inj : Inj (=) (=) nameFor.
Proof. intros a b E. apply app_inv_tail in E. by apply hex_encode_inj. Qed.

(** A fragment as its types allow it. *)
Definition frag_typed (f : Fragment) : Prop := length (FragID f) = 32%nat /\ 0 <= FragIndex f < 2 ^ 32 /\ 0 <= FragTotal f < 2 ^ 32 /\
  length (FragPayload f) = FragmentSize.

Lemma openFragment_seal q f : frag_typed f -> openFragment q (FragID f) (sealFragment q f) = Ok f.
Proof.
  intros (_ & Hi & Ht & Hp). unfold openFragment, sealFragment. rewrite aead_open_seal.
  assert (forall v, length (be 4 v) = 4%nat) as Hb by (intros; apply length_be).
  rewrite !length_app, !Hb, Hp. cbn [Nat.add]. rewrite Nat.eqb_refl. cbn [negb].
  assert (slice (be 4 (FragIndex f) ++ be 4 (FragTotal f) ++ FragPayload f) 0 4 = be 4 (FragIndex f)) as ->
    by (apply (slice_app_at []); [done|by rewrite Hb]).
  assert (slice (be 4 (FragIndex f) ++ be 4 (FragTotal f) ++ FragPayload f) 4 8 = be 4 (FragTotal f)) as ->
    by (apply slice_app_at; [by rewrite Hb|by rewrite Hb]).
  rewrite !be_val_be_fits by (change (256 ^ Z.of_nat 4) with (2 ^ 32); lia).
  rewrite app_assoc, drop_app_exact by (by rewrite length_app, !Hb). by destruct f.
Qed.

Lemma sealFragment_inj q f g : frag_typed f -> frag_typed g -> FragID f = FragID g -> sealFragment q f = sealFragment q g -> f = g.
Proof.
  intros Hf Hg Hid E. pose proof (openFragment_seal q f Hf) as Of. pose proof (openFragment_seal q g Hg) as Og.
  rewrite Hid, E in Of. rewrite Of in Og. by injection Og.
Qed.

Lemma length_body object index : (length (slice object (index * bodySize) (Nat.min (index * bodySize + bodySize) (length object))) <= bodySize)%nat.
Proof. unfold slice. rewrite length_take. lia. Qed.

Lemma fragments_typed object fragments : fragmentObject (sha256 object) object = Ok fragments -> Forall frag_typed fragments.
Proof.
  unfold fragmentObject. destruct (_ || _); [done|]. intros [= <-]. apply Forall_map, Forall_forall. intros index _. unfold frag_typed.
  cbn [FragID FragIndex FragTotal FragPayload]. unfold wrapu. split_and!; try (apply Z.mod_pos_bound; lia); [apply sha256_digest|].
  pose proof (length_body object index). unfold fragment_payload. rewrite !length_app, !length_be, length_replicate.
  rewrite (sha256_digest object). unfold bodySize, FragmentSize, headerSize in *. lia.
Qed.

(** The bodies of an object's fragments, in order, are the object and zeros. *)
Lemma bodies_join object n : (n * bodySize <= length object)%nat ->
  concat (map (fun index => slice object (index * bodySize) (Nat.min (index * bodySize + bodySize) (length object))) (seq 0 n))
  = take (n * bodySize) object.
Proof.
  induction n as [|n IH]; intros Hn; [done|]. rewrite seq_S, map_app, concat_app, IH by lia. cbn [map concat]. rewrite app_nil_r, Nat.add_0_l.
  unfold slice. replace (Nat.min (n * bodySize + bodySize) (length object) - n * bodySize)%nat with bodySize by lia.
  replace (S n * bodySize)%nat with (n * bodySize + bodySize)%nat by lia. symmetry. rewrite <- (take_drop (n * bodySize) object) at 1.
  rewrite take_app. rewrite length_take. replace (Nat.min (n * bodySize) (length object)) with (n * bodySize)%nat by lia.
  replace (n * bodySize + bodySize - n * bodySize)%nat with bodySize by lia. f_equal. rewrite take_take. f_equal. lia.
Qed.

Definition fragment_body (f : Fragment) : list byte := drop headerSize (FragPayload f).

Lemma fragment_body_eq root object total index id i t : length root = 32%nat ->
  fragment_body (mkFragment id i t (fragment_payload root object total index)) =
  slice object (index * bodySize) (Nat.min (index * bodySize + bodySize) (length object)) ++
  replicate (bodySize - length (slice object (index * bodySize) (Nat.min (index * bodySize + bodySize) (length object)))) x00.
Proof.
  intros Hr. unfold fragment_body, fragment_payload. cbn [FragPayload]. rewrite !app_assoc. rewrite <- (app_assoc _ (slice _ _ _)).
  apply drop_app_exact. rewrite !length_app, !length_be, Hr. reflexivity.
Qed.

(** Cutting and joining. *)
Lemma fragment_indexes root object fragments : fragmentObject root object = Ok fragments ->
  map FragIndex fragments = map Z.of_nat (seq 0 (length fragments)).
Proof.
  unfold fragmentObject. set (total := (_ / bodySize)%nat). destruct (_ || _) eqn:E; [done|]. intros [= <-]. reflect_bools.
  rewrite map_map, length_map, length_seq. cbn [FragIndex]. apply map_ext_in. intros index Hin%in_seq. unfold u32. apply Z.mod_small. lia.
Qed.

Lemma fragments_join object fragments : fragmentObject (sha256 object) object = Ok fragments ->
  take (length object) (concat (map fragment_body fragments)) = object /\ fragments <> [].
Proof.
  unfold fragmentObject. set (total := (_ / bodySize)%nat). destruct (Nat.eqb_spec total 0) as [|Ht]; [done|]. cbn [orb].
  destruct (2 ^ 20 <? _); [done|]. intros [= <-]. split; [|by destruct total]. rewrite map_map.
  assert (bodySize = 460%nat) as Hbs by reflexivity.
  assert (total = S (total - 1)) as Es by lia. rewrite Es, seq_S, map_app, concat_app. cbn [map concat]. rewrite app_nil_r, Nat.add_0_l.
  assert ((total - 1) * bodySize < length object <= total * bodySize)%nat as [Hlo Hhi].
  { pose proof (Nat.div_mod_eq (length object + bodySize - 1) bodySize) as Hdiv. fold total in Hdiv.
    pose proof (Nat.mod_upper_bound (length object + bodySize - 1) bodySize ltac:(lia)) as Hmod.
    clearbody total. rewrite Hbs in Hdiv, Hmod |- *. lia. }
  rewrite <- Es.
  assert (forall k, (k < total - 1)%nat -> (length (slice object (k * bodySize) (Nat.min (k * bodySize + bodySize) (length object))) = bodySize)) as Hfull.
  { intros k Hk. assert (k * bodySize + bodySize <= (total - 1) * bodySize)%nat by nia. rewrite length_slice; lia. }
  erewrite (map_ext_in _ (fun index => slice object (index * bodySize) (Nat.min (index * bodySize + bodySize) (length object)))).
  2:{ intros k Hk%list_elem_of_In%elem_of_seq. rewrite fragment_body_eq by apply sha256_digest. rewrite Hfull by lia.
      rewrite Nat.sub_diag. apply app_nil_r. }
  rewrite bodies_join by lia. rewrite fragment_body_eq by apply sha256_digest.
  assert ((total - 1) * bodySize + bodySize = total * bodySize)%nat as Hlast by nia.
  replace (Nat.min ((total - 1) * bodySize + bodySize) (length object)) with (length object) by lia.
  rewrite app_assoc. assert (take ((total - 1) * bodySize) object ++ slice object ((total - 1) * bodySize) (length object) = object) as ->.
  { unfold slice. rewrite (take_ge (drop _ _)) by (rewrite length_drop; lia). apply take_drop. }
  by apply take_app_exact.
Qed.
End fragments.

(** ** The pending fragments *)

(** What the queue promises: a set of pending fragments by identifier. *)
Notation pending := (gmap (list byte) Fragment).

Section refinement.
Context `{HashFunction, AEAD}.

Definition stored (q : Queue) (d : directory) (p : pending) : Prop :=
  (forall id f, p !! id = Some f -> FragID f = id /\ frag_typed f) /\
  forall name, is_fragment name = true -> forall c, d !! name = Some c <-> exists f, p !! FragID f = Some f /\ name = nameFor (FragID f) /\ c = sealFragment q f.

Lemma stored_names q d p : stored q d p -> listLocked d ≡ₚ map nameFor (map fst (map_to_list p)).
Proof.
  intros [Hp Hd]. unfold listLocked. rewrite (merge_sort_Permutation name_le). apply NoDup_Permutation.
  - apply NoDup_filter. apply NoDup_fst_map_to_list.
  - apply (NoDup_fmap_2 nameFor). apply NoDup_fst_map_to_list.
  - intros name. rewrite list_elem_of_filter. split.
    + intros [Hf Hin]. apply list_elem_of_fmap in Hin as ([n c] & -> & Hin). apply elem_of_map_to_list in Hin.
      apply (Hd n Hf) in Hin as (f & Hf' & -> & ->). cbn [fst]. apply elem_of_map_2. apply list_elem_of_fmap.
      exists (FragID f, f). split; [done|]. by apply elem_of_map_to_list.
    + intros Hin. apply list_elem_of_fmap in Hin as (id & -> & Hin). apply list_elem_of_fmap in Hin as ([id' f] & -> & Hin).
      apply elem_of_map_to_list in Hin. simpl. destruct (Hp _ _ Hin) as [<- _]. split; [apply is_fragment_nameFor|].
      apply list_elem_of_fmap. exists (nameFor (FragID f), sealFragment q f). split; [done|]. apply elem_of_map_to_list.
      apply Hd; [apply is_fragment_nameFor|]. by exists f.
Qed.

Lemma stored_count q d p : stored q d p -> length (listLocked d) = size p.
Proof. intros Hs. rewrite (stored_names q d p Hs), !length_map. by rewrite length_map_to_list. Qed.

Lemma stored_lookup q d p f : stored q d p -> p !! FragID f = Some f -> d !! nameFor (FragID f) = Some (sealFragment q f).
Proof. intros [_ Hd] Hf. apply Hd; [apply is_fragment_nameFor|]. by exists f. Qed.

(** The writes add a prefix of the fragments, all of them unless one fails. *)
Lemma write_fragments_stored q env index d p fragments d' r : stored q d p -> Forall frag_typed fragments ->
  write_fragments q env index d fragments = (d', r) ->
  exists done rest, fragments = done ++ rest /\ (r = Ok tt -> rest = []) /\
    stored q d' (foldl (fun m f => <[FragID f := f]> m) p done).
Proof.
  revert index d p. induction fragments as [|f fragments IH]; intros index d p Hs Ht Hw.
  { injection Hw as <- <-. exists [], []. by split_and!. }
  apply Forall_cons in Ht as [Hf Ht]. cbn [write_fragments] in Hw. unfold writeOrCompare in Hw.
  assert (forall d1, stored q d1 (<[FragID f := f]> p) -> write_fragments q env (S index) d1 fragments = (d', r) ->
    exists done rest, f :: fragments = done ++ rest /\ (r = Ok tt -> rest = []) /\
      stored q d' (foldl (fun m f => <[FragID f := f]> m) p done)) as Hgo.
  { intros d1 Hs1 Hw1. destruct (IH _ _ _ Hs1 Ht Hw1) as (done & rest & -> & Hr & Hst). exists (f :: done), rest. by split_and!. }
  destruct (d !! nameFor (FragID f)) as [existing|] eqn:Ed.
  - destruct (read_ok env index); cbn [negb] in Hw; [|injection Hw as <- <-; by exists [], (f :: fragments)].
    case_bool_decide as Ee; [|injection Hw as <- <-; by exists [], (f :: fragments)]. subst existing. eapply Hgo; [|exact Hw].
    pose proof Hs as [Hp Hd]. apply Hd in Ed as (g & Hg & Hname & Hseal); [|apply is_fragment_nameFor]. apply (inj nameFor) in Hname.
    destruct (Hp _ _ Hg) as [_ Htg]. rewrite (sealFragment_inj q f g Hf Htg Hname Hseal). by rewrite insert_id.
  - destruct (write_ok env index); cbn [negb] in Hw; [|injection Hw as <- <-; by exists [], (f :: fragments)].
    eapply Hgo; [|exact Hw]. destruct Hs as [Hp Hd]. split.
    + intros id g. rewrite lookup_insert_Some. intros [[<- <-]|[_ Hg]]; [done|by apply Hp].
    + intros name Hn c. rewrite lookup_insert_Some. split.
      * intros [[<- <-]|[Hne Hc]]; [exists f; by rewrite lookup_insert_eq|]. apply (Hd name Hn) in Hc as (g & Hg & -> & ->). exists g.
        split_and!; [|done|done]. rewrite lookup_insert_ne; [done|]. intros E. apply Hne. by rewrite E.
      * intros (g & Hg & -> & ->). apply lookup_insert_Some in Hg as [[Hid <-]|[Hne Hg]]; [by left|]. right.
        split; [by intros E%(inj nameFor)|]. apply (Hd _ Hn). by exists g.
Qed.

Lemma size_insert_all (p : pending) done : (size (foldl (fun m f => <[FragID f := f]> m) p done) <=
  size p + length (filter (fun f => p !! FragID f = None) done))%nat.
Proof.
  enough (forall p0 : pending, (forall id, is_Some (p0 !! id) -> is_Some (p !! id)) ->
    (size (foldl (fun m f => <[FragID f := f]> m) p done) <= size p + length (filter (fun f => p0 !! FragID f = None) done))%nat) as Hg
    by (by apply Hg).
  intros p0. revert p. induction done as [|f done IH]; intros p Hsub; [simpl; lia|]. cbn [foldl]. rewrite filter_cons.
  assert (forall id, is_Some (p0 !! id) -> is_Some ((<[FragID f := f]> p : pending) !! id)) as Hsub'.
  { intros id Hi. destruct (decide (FragID f = id)) as [->|Hne]; [by rewrite lookup_insert_eq|rewrite lookup_insert_ne by done; auto]. }
  specialize (IH _ Hsub'). rewrite map_size_insert in IH. destruct (p !! FragID f) as [g|] eqn:Eg.
  - cbn in IH. destruct (decide _); cbn [length]; lia.
  - cbn in IH. rewrite decide_True; [cbn [length]; lia|]. destruct (p0 !! FragID f) eqn:E0; [|done].
    destruct (Hsub (FragID f)); [by rewrite E0|congruence].
Qed.

Definition insert_all (p : pending) (l : list Fragment) : pending := foldl (fun m f => <[FragID f := f]> m) p l.

(** A call of [Submit] adds a prefix of the object's fragments, all of them if
    it succeeds, and never exceeds the limit. *)
Lemma Submit_stored q env d p object publisher d' r : stored q d p -> Submit q env d object publisher = (d', r) ->
  exists added, stored q d' (insert_all p added) /\
    (added = [] \/ (Z.of_nat (size (insert_all p added)) <= maxFragments q /\
       exists fragments rest, fragmentObject (sha256 object) object = Ok fragments /\ fragments = added ++ rest)) /\
    (r = Ok tt -> fragmentObject (sha256 object) object = Ok added).
Proof.
  intros Hs. unfold Submit. assert (forall e, (d, Err e) = (d', r) -> exists added, stored q d' (insert_all p added) /\
    (added = [] \/ (Z.of_nat (size (insert_all p added)) <= maxFragments q /\
       exists fragments rest, fragmentObject (sha256 object) object = Ok fragments /\ fragments = added ++ rest)) /\
    (r = Ok tt -> fragmentObject (sha256 object) object = Ok added)) as Herr.
  { intros e [= <- <-]. exists []. split_and!; [done|by left|done]. }
  destruct (bool_decide (object = []) || _); [apply Herr|]. destruct (negb _); [apply Herr|].
  destruct (fragmentObject (sha256 object) object) as [fragments|e] eqn:Ef; [|apply Herr].
  unfold Pending. destruct (negb (list_ok env)); [apply Herr|].
  destruct (maxFragments q <? _) eqn:Em; [apply Herr|]. reflect_bools. rewrite (stored_count q d p Hs) in Em.
  destruct (write_fragments q env 0 d fragments) as [d1 r1] eqn:Ew.
  destruct (write_fragments_stored q env 0 d p fragments d1 r1 Hs (fragments_typed _ _ Ef) Ew) as (added & rest & -> & Hr & Hst).
  intros Hres. exists added. assert (d' = d1) as -> by (destruct r1 as [[]|]; by injection Hres as <- _).
  split_and!; [exact Hst| |].
  - right. split; [|by exists (added ++ rest), rest]. pose proof (size_insert_all p added) as Hsz. fold (insert_all p added) in Hsz.
    assert (count_existing env d (added ++ rest) + len (filter (fun f => p !! FragID f = None) added) <= len (added ++ rest)) as Hc; [|lia].
    unfold count_existing. clear -Hs. generalize (seq 0 (length (added ++ rest))). intros ns.
    rewrite length_app. assert (forall l (ns : list nat),
      len (filter (fun fi => is_Some (d !! nameFor (FragID fi.1)) /\ stat_ok env fi.2 = true) (zip l ns)) +
      len (filter (fun f => p !! FragID f = None) l) <= len l) as Hg.
    { induction l as [|f l IH]; intros [|n ms]; cbn [zip zip_with]; [simpl; lia..| |].
      - pose proof (length_filter (fun f => p !! FragID f = None) (f :: l)). rewrite filter_nil. cbn [length] in *. lia.
      - rewrite !filter_cons. specialize (IH ms).
        destruct (decide (is_Some _ /\ _)) as [[[c Hc] _]|]; destruct (decide (p !! FragID f = None)) as [Hn|]; cbn [length]; try lia.
        exfalso. destruct Hs as [_ Hd]. apply Hd in Hc as (g & Hg & Hname & _); [|apply is_fragment_nameFor].
        apply (inj nameFor) in Hname. cbn [fst] in Hname. congruence. }
    specialize (Hg (added ++ rest) ns). rewrite filter_app, !length_app in Hg. lia.
  - intros ->. destruct r1 as [[]|]; [|by injection Hres]. rewrite (Hr eq_refl), app_nil_r. done.
Qed.

Lemma stored_delete q d p id : stored q d p -> stored q (delete (nameFor id) d) (delete id p).
Proof.
  intros [Hp Hd]. split.
  - intros i f [_ Hf]%lookup_delete_Some. by apply Hp.
  - intros name Hn c. rewrite lookup_delete_Some, (Hd name Hn). split.
    + intros [Hne (f & Hf & -> & ->)]. exists f. split_and!; [|done|done]. apply lookup_delete_Some. split; [|done]. by intros ->.
    + intros (f & Hf & -> & ->). apply lookup_delete_Some in Hf as [Hne Hf]. split; [by intros E%(inj nameFor)|by exists f].
Qed.

(** A call of [Next] returns the pending fragment with the least name and
    forgets it, or changes nothing. *)
Lemma QueueNext_stored q env d p d' r : stored q d p -> QueueNext q env d = (d', r) ->
  match r with
  | NextOk f | NextUnsynced f => p !! FragID f = Some f /\ (forall id, is_Some (p !! id) -> name_le (nameFor (FragID f)) (nameFor id)) /\
      stored q d' (delete (FragID f) p)
  | NextErr e => d' = d /\ (e = ErrNoWork /\ p = ∅ \/ e = ErrQueueIO)
  end.
Proof.
  intros Hs. unfold QueueNext. destruct (list_ok env); cbn [negb]; [|intros [= <- <-]; split; [done|by right]].
  pose proof (stored_names q d p Hs) as Hn. destruct (listLocked d) as [|name names] eqn:El.
  { intros [= <- <-]. split; [done|]. left. split; [done|]. apply Permutation_nil in Hn. apply map_eq_nil, map_eq_nil in Hn.
    by apply map_to_list_empty_iff. }
  assert (name ∈ map nameFor (map fst (map_to_list p))) as Hin by (rewrite <- Hn; apply list_elem_of_here).
  apply list_elem_of_fmap in Hin as (id & -> & Hin). apply list_elem_of_fmap in Hin as ([id' f] & -> & Hin). cbn [fst] in *.
  apply elem_of_map_to_list in Hin. pose proof Hs as [Hp _]. destruct (Hp _ _ Hin) as [<- Hf].
  rewrite nameFor_decodes. destruct Hf as (Hl & Hf'). rewrite Hl, Nat.eqb_refl. cbn [negb].
  destruct (read_ok env 0); cbn [negb]; [|intros [= <- <-]; split; [done|by right]].
  rewrite (stored_lookup q d p f Hs Hin). change (default [] (Some (sealFragment q f))) with (sealFragment q f). rewrite (openFragment_seal q f) by (by split).
  destruct (remove_ok env); cbn [negb]; [|intros [= <- <-]; split; [done|by right]].
  assert (forall id, is_Some (p !! id) -> name_le (nameFor (FragID f)) (nameFor id)) as Hleast.
  { intros id [g Hg]. assert (nameFor id ∈ nameFor (FragID f) :: names) as Hi.
    { rewrite Hn. apply elem_of_map_2, list_elem_of_fmap. exists (id, g). split; [done|]. by apply elem_of_map_to_list. }
    pose proof (Sorted_merge_sort name_le (filter (fun name => is_fragment name = true) (map fst (map_to_list d)))) as Hsorted.
    fold (listLocked d) in Hsorted. rewrite El in Hsorted. apply Sorted_StronglySorted in Hsorted; [|apply _].
    apply StronglySorted_inv in Hsorted as [_ Hall]. apply elem_of_cons in Hi as [->|Hi]; [apply name_le_refl|].
    rewrite Forall_forall in Hall. by apply Hall. }
  assert (stored q (delete (nameFor (FragID f)) d) (delete (FragID f) p)) as Hst by (by apply stored_delete).
  destruct (sync_ok env); intros [= <- <-]; by split_and!.
Qed.
End refinement.

(** ** Runs *)

Inductive queue_call :=
| CallSubmit (env : queue_io) (object publisher : list byte)
| CallNext (env : queue_io).

Section runs.
Context `{HashFunction, AEAD}.

(** One call on the directory, with the fragment it hands out. *)
Definition queue_step (q : Queue) (d : directory) (c : queue_call) : directory * option Fragment :=
  match c with
  | CallSubmit env object publisher => (fst (Submit q env d object publisher), None)
  | CallNext env =>
      let '(d', r) := QueueNext q env d in
      (d', match r with NextOk f | NextUnsynced f => Some f | NextErr _ => None end)
  end.

(** What a call may do to the pending fragments. *)
Inductive abs_step (q : Queue) (p : pending) : queue_call -> option Fragment -> pending -> Prop :=
| abs_submit env object publisher fragments added rest :
    fragmentObject (sha256 object) object = Ok fragments -> fragments = added ++ rest ->
    Z.of_nat (size (insert_all p added)) <= maxFragments q -> abs_step q p (CallSubmit env object publisher) None (insert_all p added)
| abs_refused env object publisher : abs_step q p (CallSubmit env object publisher) None p
| abs_next env f : p !! FragID f = Some f -> (forall id, is_Some (p !! id) -> name_le (nameFor (FragID f)) (nameFor id)) ->
    abs_step q p (CallNext env) (Some f) (delete (FragID f) p)
| abs_idle env : (p = ∅ \/ list_ok env = false \/ read_ok env 0 = false \/ remove_ok env = false) -> abs_step q p (CallNext env) None p.

Inductive abs_run (q : Queue) : pending -> list queue_call -> list Fragment -> pending -> Prop :=
| abs_nil p : abs_run q p [] [] p
| abs_cons p c o p1 calls out p2 : abs_step q p c o p1 -> abs_run q p1 calls out p2 -> abs_run q p (c :: calls) (option_list o ++ out) p2.

Fixpoint queue_run (q : Queue) (d : directory) (calls : list queue_call) : directory * list Fragment :=
  match calls with
  | [] => (d, [])
  | c :: calls =>
      let '(d1, o) := queue_step q d c in
      let '(d2, out) := queue_run q d1 calls in
      (d2, option_list o ++ out)
  end.

(** Why a call of [Next] returns nothing. *)
Lemma QueueNext_idle q env d p d' e : stored q d p -> QueueNext q env d = (d', NextErr e) ->
  p = ∅ \/ list_ok env = false \/ read_ok env 0 = false \/ remove_ok env = false.
Proof.
  intros Hs Hn. destruct (list_ok env) eqn:E1; [|by right; left]. destruct (read_ok env 0) eqn:E2; [|by right; right; left].
  destruct (remove_ok env) eqn:E3; [|by right; right; right]. left. destruct (QueueNext_stored _ _ _ _ _ _ Hs Hn) as [_ [[_ ->]| ->]]; [done|].
  revert Hn. unfold QueueNext. rewrite E1, E2, E3. cbn [negb]. destruct (listLocked d) as [|name names]; [done|].
  destruct (hex_decode _) as [id|]; [|done]. destruct (negb _); [done|]. destruct (openFragment _ _ _) as [f|e] eqn:Eo; [by destruct (sync_ok env)|].
  unfold openFragment in Eo. intros [= _ ->]. destruct (aead_open _ _ _ _) as [pt|]; [|done]. by destruct (negb _).
Qed.

Lemma queue_step_refines q d p c d' o : stored q d p -> queue_step q d c = (d', o) -> exists p', abs_step q p c o p' /\ stored q d' p'.
Proof.
  intros Hs. destruct c as [env object publisher|env]; cbn [queue_step].
  - destruct (Submit q env d object publisher) as [d1 r] eqn:E. cbn [fst]. intros [= <- <-].
    destruct (Submit_stored _ _ _ _ _ _ _ _ Hs E) as (added & Hst & [->|(Hsz & fragments & rest & Hf & ->)] & _).
    + exists p. split; [apply abs_refused|exact Hst].
    + exists (insert_all p added). split; [by eapply abs_submit|exact Hst].
  - destruct (QueueNext q env d) as [d1 r] eqn:E. pose proof (QueueNext_stored _ _ _ _ _ _ Hs E) as Hn. intros [= <- <-].
    destruct r as [f|f|e].
    1,2: destruct Hn as (Hf & Hl & Hst); exists (delete (FragID f) p); split; [by apply abs_next|done].
    destruct Hn as [-> _]. exists p. split; [|done]. apply abs_idle. by eapply QueueNext_idle.
Qed.

Lemma queue_run_refines q d p calls d' out : stored q d p -> queue_run q d calls = (d', out) ->
  exists p', abs_run q p calls out p' /\ stored q d' p'.
Proof.
  revert d p out. induction calls as [|c calls IH]; intros d p out Hs Hr.
  { injection Hr as <- <-. exists p. split; [constructor|done]. }
  cbn [queue_run] in Hr. destruct (queue_step q d c) as [d1 o] eqn:E1. destruct (queue_run q d1 calls) as [d2 out2] eqn:E2. injection Hr as <- <-.
  destruct (queue_step_refines _ _ _ _ _ _ Hs E1) as (p1 & Ha & Hs1). destruct (IH d1 p1 out2 Hs1 E2) as (p2 & Hb & Hs2).
  exists p2. split; [by econstructor|done].
Qed.

Lemma abs_step_bound q p c o p' : abs_step q p c o p' -> Z.of_nat (size p) <= maxFragments q -> Z.of_nat (size p') <= maxFragments q.
Proof.
  intros Ha Hb. inversion Ha; subst; [done|done| |done]. eapply Z.le_trans; [|exact Hb]. apply Nat2Z.inj_le. rewrite map_size_delete. destruct (p !! FragID f); cbn; lia.
Qed.

Lemma abs_run_bound q p calls out p' : abs_run q p calls out p' -> Z.of_nat (size p) <= maxFragments q -> Z.of_nat (size p') <= maxFragments q.
Proof. induction 1 as [|p c o p1 calls out p2 Hs _ IH]; [done|]. intros Hb. by eapply IH, abs_step_bound. Qed.

Lemma stored_empty q d : (forall name, is_fragment name = true -> d !! name = None) -> stored q d ∅.
Proof.
  intros Hd. split; [intros id f; by rewrite lookup_empty|]. intros name Hn c. rewrite (Hd name Hn). split; [done|].
  intros (f & Hf & _). by rewrite lookup_empty in Hf.
Qed.
End runs.

(** C32: The queue on disk is a set of pending fragments.  Over any run of
    submissions and pulls from a directory without fragments, whatever operations
    of the disk fail, the files are exactly the sealed pending fragments; a
    submission adds fragments of its object and never exceeds the limit; a pull
    hands out the pending fragment with the least name and removes it, or, only if
    nothing is pending or the disk fails, hands out nothing and removes nothing. *)
Theorem queue_refines_pending `{HashFunction, AEAD} q d calls d' out : 1 <= maxFragments q ->
  (forall name, is_fragment name = true -> d !! name = None) -> queue_run q d calls = (d', out) ->
  exists p, abs_run q ∅ calls out p /\ stored q d' p /\ len (listLocked d') = Z.of_nat (size p) /\ Z.of_nat (size p) <= maxFragments q.
Proof.
  intros Hm Hd Hr. destruct (queue_run_refines _ _ _ _ _ _ (stored_empty q d Hd) Hr) as (p & Ha & Hs). exists p.
  split_and!; [done|done|by rewrite (stored_count q d' p Hs)|]. eapply abs_run_bound; [exact Ha|]. rewrite map_size_empty. lia.
Qed.

(** ** Draining *)

(** A disk on which everything works. *)
Definition working : queue_io := mkQueueIO true (fun _ => true) (fun _ => true) (fun _ => true) true true.

Section draining.
Context `{HashFunction, AEAD}.

Lemma QueueNext_working q d p : stored q d p -> p <> ∅ -> exists d' f, QueueNext q working d = (d', NextOk f) /\
  p !! FragID f = Some f /\ (forall id, is_Some (p !! id) -> name_le (nameFor (FragID f)) (nameFor id)) /\ stored q d' (delete (FragID f) p).
Proof.
  intros Hs Hp. destruct (QueueNext q working d) as [d' r] eqn:E. pose proof (QueueNext_stored _ _ _ _ _ _ Hs E) as Hn.
  destruct r as [f|f|e].
  - by exists d', f.
  - exfalso. revert E. unfold QueueNext. cbn [list_ok read_ok remove_ok sync_ok working negb]. destruct (listLocked d); [done|].
    destruct (hex_decode _); [|done]. destruct (negb _); [done|]. by destruct (openFragment _ _ _).
  - exfalso. destruct (QueueNext_idle _ _ _ _ _ _ Hs E) as [|[|[|]]]; done.
Qed.

(** The order in which fragments are handed out: that of their file names. *)
Definition name_order (f g : Fragment) : Prop := name_le (nameFor (FragID f)) (nameFor (FragID g)).

Lemma drain_all q d p : stored q d p -> exists d' out, queue_run q d (replicate (size p) (CallNext working)) = (d', out) /\
  out ≡ₚ map snd (map_to_list p) /\ StronglySorted name_order out /\ stored q d' ∅.
Proof.
  remember (size p) as n eqn:En. revert d p En. induction n as [|n IH]; intros d p En Hs.
  - exists d, []. symmetry in En. apply map_size_empty_inv in En as ->. split_and!; [done|by rewrite map_to_list_empty|constructor|done].
  - assert (p <> ∅) as Hne by (intros ->; by rewrite map_size_empty in En).
    destruct (QueueNext_working q d p Hs Hne) as (d1 & f & Hn & Hf & Hleast & Hs1). cbn [replicate queue_run queue_step]. rewrite Hn.
    assert (n = size (delete (FragID f) p)) as En1 by (rewrite map_size_delete, Hf; simpl; lia).
    destruct (IH d1 _ En1 Hs1) as (d2 & out & Hr & Hp & Hsort & Hs2). rewrite Hr. exists d2, (f :: out). split_and!; [done| | |done].
    + rewrite <- (map_to_list_delete p (FragID f) f Hf). cbn [map snd]. by rewrite Hp.
    + constructor; [done|]. rewrite Hp. apply Forall_map, Forall_forall. intros [id g] [_ Hg]%elem_of_map_to_list%lookup_delete_Some.
      cbn [snd]. unfold name_order. pose proof Hs as [Hid _]. destruct (Hid _ _ Hg) as [-> _]. by apply Hleast; eexists.
Qed.

Lemma insert_all_list (l : list Fragment) (p : pending) : NoDup (map FragID l) -> (forall f, f ∈ l -> p !! FragID f = None) ->
  map_to_list (insert_all p l) ≡ₚ map (fun f => (FragID f, f)) l ++ map_to_list p.
Proof.
  revert p. induction l as [|f l IH]; intros p Hn Hp; [done|]. cbn [map] in Hn. apply NoDup_cons in Hn as [Hni Hn].
  unfold insert_all. cbn [foldl]. fold (insert_all (<[FragID f := f]> p) l). rewrite IH; [|done|].
  - rewrite map_to_list_insert by (apply Hp; set_solver). cbn [map]. symmetry. apply Permutation_middle.
  - intros g Hg. rewrite lookup_insert_ne; [apply Hp; set_solver|]. intros E. apply Hni. rewrite E. by apply elem_of_map_2.
Qed.

(** The messages hashed to name the fragments of an object. *)
Definition id_messages (object : list byte) : list (list byte) :=
  map (fun index => fragmentIDDomain ++ sha256 object ++ be 4 (Z.of_nat index)) (seq 0 ((length object + bodySize - 1) / bodySize)%nat).

Lemma fragment_ids_distinct object fragments : fragmentObject (sha256 object) object = Ok fragments -> collision_free (id_messages object) ->
  NoDup (map FragID fragments).
Proof.
  unfold fragmentObject, id_messages. set (total := (_ / bodySize)%nat). destruct (Nat.eqb total 0); [done|]. cbn [orb].
  destruct (2 ^ 20 <? Z.of_nat total) eqn:Et; [done|]. intros [= <-] Hcf. reflect_bools. rewrite map_map. cbn [FragID].
  apply NoDup_alt. intros i j x Hi Hj. apply map_lookup_Some_1 in Hi as (i' & Hi & ->), Hj as (j' & Hj & E).
  apply lookup_seq in Hi as [-> Hi], Hj as [-> Hj]. cbn [Nat.add] in *.
  assert (forall k, (k < total)%nat -> u32 (Z.of_nat k) = Z.of_nat k) as Hu by (intros k Hk; apply wrapu_small; unfold fits; lia).
  unfold fragmentID in E. rewrite !Hu in E by done. apply Hcf in E.
  - do 2 apply app_inv_head in E. apply be_inj in E; [lia|change (256 ^ Z.of_nat 4) with (2 ^ 32); lia..].
  - apply list_elem_of_fmap. exists i. split; [done|]. apply elem_of_seq. lia.
  - apply list_elem_of_fmap. exists j. split; [done|]. apply elem_of_seq. lia.
Qed.
End draining.

(** C36: What is submitted comes out: after an object was submitted to a queue with
    nothing pending, as many pulls as it has fragments hand out its fragments,
    each once, in the order of their file names; the bodies joined in the order of
    the indexes, which count up from zero, and cut to the object's length are the
    object; and then nothing is pending.  The identifiers of the
    object's fragments are assumed not to collide. *)
Theorem object_roundtrip `{HashFunction, AEAD} q env d object publisher d' :
  (forall name, is_fragment name = true -> d !! name = None) -> Submit q env d object publisher = (d', Ok tt) ->
  collision_free (id_messages object) ->
  exists fragments out d'', fragmentObject (sha256 object) object = Ok fragments /\
    queue_run q d' (replicate (length fragments) (CallNext working)) = (d'', out) /\ out ≡ₚ fragments /\
    StronglySorted name_order out /\ map FragIndex fragments = map Z.of_nat (seq 0 (length fragments)) /\
    take (length object) (concat (map fragment_body fragments)) = object /\
    QueueNext q working d'' = (d'', NextErr ErrNoWork).
Proof.
  intros Hd Hsub Hcf. destruct (Submit_stored _ _ _ _ _ _ _ _ (stored_empty q d Hd) Hsub) as (fragments & Hs & _ & Hf).
  specialize (Hf eq_refl). exists fragments. pose proof (fragment_ids_distinct object fragments Hf Hcf) as Hn.
  assert (map_to_list (insert_all ∅ fragments) ≡ₚ map (fun f => (FragID f, f)) fragments) as Hl.
  { rewrite insert_all_list; [by rewrite map_to_list_empty, app_nil_r|done|]. intros f _. apply lookup_empty. }
  destruct (drain_all q d' _ Hs) as (d'' & out & Hr & Hp & Hsort & Hs').
  assert (size (insert_all ∅ fragments) = length fragments) as Hsz by (rewrite <- length_map_to_list, Hl; apply length_map).
  rewrite Hsz in Hr. exists out, d''. split_and!; [done|done| |done|by eapply fragment_indexes|by apply fragments_join|].
  - rewrite Hp, Hl, map_map. cbn [snd]. by rewrite map_id.
  - destruct (QueueNext q working d'') as [d3 r] eqn:E. pose proof (QueueNext_stored _ _ _ _ _ _ Hs' E) as Hq. destruct r as [f|f|e].
    + destruct Hq as (Hq & _). by rewrite lookup_empty in Hq.
    + destruct Hq as (Hq & _). by rewrite lookup_empty in Hq.
    + destruct Hq as [-> [[-> _]| ->]]; [done|]. exfalso. revert E. unfold QueueNext. cbn [list_ok read_ok remove_ok sync_ok working negb].
      pose proof (stored_names _ _ _ Hs') as Hnames. rewrite map_to_list_empty in Hnames. apply Permutation_nil_r in Hnames. by rewrite Hnames.
Qed.

(** A file whose name is not an identifier, and which sorts first, blocks the
    queue: every pull fails and leaves it in place, while a damaged file with a
    proper name is dropped. *)
Lemma malformed_name_blocks `{HashFunction, AEAD} q env d name names :
  listLocked d = name :: names -> list_ok env = true ->
  (forall id, hex_decode (take (length name - length fragmentSuffix) name) = Some id -> length id <> 32%nat) ->
  QueueNext q env d = (d, NextErr ErrEntryName).
Proof.
  intros Hl He Hn. unfold QueueNext. rewrite He, Hl. cbn [negb]. destruct (hex_decode _) as [id|]; [|done].
  specialize (Hn id eq_refl). destruct (Nat.eqb_spec (length id) 32) as [|]; [by exfalso|done].
Qed.

(** ** Witnesses *)

Section example.
#[local] Existing Instance example_hash.
#[local] Existing Instance example_aead.

Definition example_queue : Queue := mkQueue 8 (replicate 32 x07).
Definition example_object : list byte := replicate 1000 x61.
Definition example_submitted : directory * result queue_error unit := Submit example_queue working ∅ example_object (replicate 32 x01).

Lemma example_submit : example_submitted = (fst example_submitted, Ok tt).
Proof.
  assert (snd example_submitted = Ok tt) as E by (vm_compute; reflexivity).
  rewrite (surjective_pairing example_submitted) at 1. by rewrite E.
Qed.

Lemma object_roundtrip_witness : exists fragments out d'', length fragments = 3%nat /\
  queue_run example_queue (fst example_submitted) (replicate (length fragments) (CallNext working)) = (d'', out) /\ out ≡ₚ fragments /\
  StronglySorted name_order out.
Proof.
  assert (collision_free (id_messages example_object)) as Hcf by (apply collision_freeb_ok; vm_compute; reflexivity).
  destruct (object_roundtrip example_queue working ∅ example_object (replicate 32 x01) (fst example_submitted)
    (fun name _ => lookup_empty name) example_submit Hcf) as (fragments & out & d'' & Hf & Hr & Hp & Hsort & _).
  exists fragments, out, d''. split; [|split; [exact Hr|split; [exact Hp|exact Hsort]]].
  assert (match fragmentObject (sha256 example_object) example_object with Ok l => length l | Err _ => 0%nat end = 3%nat) as E
    by (vm_compute; reflexivity).
  rewrite Hf in E. exact E.
Defined.

Definition example_run : directory * list Fragment :=
  queue_run example_queue ∅ [CallNext working; CallSubmit working example_object (replicate 32 x01); CallNext working;
    CallSubmit working (replicate 4000 x62) (replicate 32 x01)].

Lemma queue_refines_pending_witness : exists p, stored example_queue (fst example_run) p /\ Z.of_nat (size p) <= 8 /\ length (snd example_run) = 1%nat.
Proof.
  destruct (queue_refines_pending example_queue ∅ _ (fst example_run) (snd example_run) ltac:(simpl; lia) (fun name _ => lookup_empty name)
    (surjective_pairing example_run)) as (p & _ & Hs & _ & Hb).
  exists p. split; [exact Hs|split; [exact Hb|]]. vm_compute. reflexivity.
Defined.
End example.
