(* ===== verification/Drain.v ===== *)
(** From the publication queue to the airlock ([live/deposit]): the drain that
    turns a queue into a fixed-cadence stream of uplink cells ([drain.go]), and
    the ingress that hands the cells of a session to the airlock
    ([ingress.go]).

    The filling goroutine and the emission loop share a one-slot channel.  The
    goroutine is a sequence of steps of its own: a tick, which may pull a fragment
    from the queue, and a send, which moves the pulled fragment into the slot.
    [Emit] receives from the slot at one instant; the send may happen before it,
    after it, or in the middle, between the receive and the use the rest of
    [Emit] makes of the slot. *)

From stdpp Require Import base list list_numbers gmap strings.
From Stdlib Require Import ZArith Lia Strings.Byte Sorting.Sorted.
From S2P Require Import Prelude Bytes Hash Codec Kyber Mix Threshold Rounds Airlock Uplink PublishQueue.

(** ** The drain *)

Record Drain := mkDrain {
  session : Session;
  drain_schedule : Schedule;
  ready : option Fragment;       (* the channel *)
  pulled : option Fragment;      (* what the goroutine waits to send *)
  stopped : bool;
  work : Z;
  cover_count : Z;
  deferred : Z;
  lastSequence : Z;
  quotaEpoch : Z;
  quotaSpent : Z;
}.

Inductive drain_error :=
| ErrDrainSession
| ErrDrainWindow (e : airlock_error)
| ErrPollInterval
| ErrDrainSequenceZero
| ErrSequenceReused
| ErrDrainUplink (e : uplink_error).

Definition NewDrainWithPoll (s : option Session) (schedule : Schedule) (poll : Z) : result drain_error Drain :=
  match s with
  | None => Err ErrDrainSession
  | Some s =>
      _ ← wrap ErrDrainWindow (schedule_validate schedule);
      if poll <=? 0 then Err ErrPollInterval
      else Ok (mkDrain s schedule None None false 0 0 0 0 0 0)
  end.

Definition windowState (d : Drain) (now : Z) : Z * bool :=
  match EpochAt (drain_schedule d) now with
  | Err _ => (0, false)
  | Ok epoch =>
      match DepositWindow (drain_schedule d) epoch with
      | Err _ => (0, false)
      | Ok (opens, closes) => (epoch, negb (now <? opens) && (now <? closes))
      end
  end.

Definition depositWindowOpen (d : Drain) (now : Z) : bool := snd (windowState d now).

Definition quotaRemaining (d : Drain) (epoch : Z) : bool :=
  if negb (quotaEpoch d =? epoch) then true else quotaSpent d <? MaxDepositsPerSession (drain_schedule d).

Definition with_slot (d : Drain) (r p : option Fragment) : Drain :=
  mkDrain (session d) (drain_schedule d) r p (stopped d) (work d) (cover_count d) (deferred d) (lastSequence d) (quotaEpoch d) (quotaSpent d).

Definition spendDepositSlot (d : Drain) (epoch : Z) : Drain :=
  let spent := if negb (quotaEpoch d =? epoch) then 0 else quotaSpent d in
  mkDrain (session d) (drain_schedule d) (ready d) (pulled d) (stopped d) (work d) (cover_count d) (deferred d) (lastSequence d) epoch (spent + 1).

Definition drain_reserve (d : Drain) (sequence : Z) : result drain_error Drain :=
  if sequence =? 0 then Err ErrDrainSequenceZero
  else if negb (lastSequence d =? 0) && (sequence <=? lastSequence d) then Err ErrSequenceReused
  else Ok (mkDrain (session d) (drain_schedule d) (ready d) (pulled d) (stopped d) (work d) (cover_count d) (deferred d) sequence
             (quotaEpoch d) (quotaSpent d)).

Inductive emissionKind := emissionWork | emissionCover | emissionDeferred.

Definition count (d : Drain) (kind : emissionKind) : Drain :=
  let w := match kind with emissionWork => u64 (work d + 1) | _ => work d end in
  let c := match kind with emissionWork => cover_count d | _ => u64 (cover_count d + 1) end in
  let f := match kind with emissionDeferred => u64 (deferred d + 1) | _ => deferred d end in
  mkDrain (session d) (drain_schedule d) (ready d) (pulled d) (stopped d) w c f (lastSequence d) (quotaEpoch d) (quotaSpent d).

Definition Close (d : Drain) : Drain :=
  mkDrain (session d) (drain_schedule d) (ready d) (pulled d) true (work d) (cover_count d) (deferred d) (lastSequence d) (quotaEpoch d) (quotaSpent d).

(** The goroutine sends what it pulled if the slot is free. *)
Definition fill_send (d : Drain) : Drain :=
  match pulled d, ready d with
  | Some f, None => with_slot d (Some f) None
  | _, _ => d
  end.

Section drain.
Context `{HashFunction, KyberGroup, AEAD}.

(** A tick of [fill]: outside the window nothing is touched; an error of [Next]
    is ignored, together with the fragment that came with it. *)
Definition fill_tick (q : Queue) (env : queue_io) (now : Z) (d : Drain) (dir : directory) : Drain * directory :=
  if stopped d then (d, dir)
  else match pulled d with
  | Some _ => (d, dir)
  | None =>
      if negb (depositWindowOpen d now) then (d, dir)
      else match QueueNext q env dir with
      | (dir', NextOk f) => (with_slot d (ready d) (Some f), dir')
      | (dir', NextUnsynced _) => (d, dir')
      | (dir', NextErr _) => (d, dir')
      end
  end.

Definition spend (d : Drain) (epoch : Z) (open : bool) : Drain := if open then spendDepositSlot d epoch else d.

(** The goroutine may get to send in the middle of a call. *)
Definition middle (refill : bool) (d : Drain) : Drain := if refill then fill_send d else d.

(** The fragment received from the slot is sealed; if that fails it goes back,
    unless the slot was filled in between. *)
Definition emit_work (d : Drain) (fragment : Fragment) (sequence epoch : Z) (open : bool) (draws : nat -> list byte * scalar) (padding : list byte)
  : Drain * result drain_error (list byte) :=
  match SealWork (Some (session d)) sequence (FragPayload fragment) draws padding with
  | Err e => (match ready d with None => with_slot d (Some fragment) (pulled d) | Some _ => d end, Err (ErrDrainUplink e))
  | Ok cell => (spend (count d emissionWork) epoch open, Ok cell)
  end.

Definition emit_cover (d : Drain) (sequence epoch : Z) (open : bool) (draws : nat -> list byte * scalar) (padding : list byte)
  : Drain * result drain_error (list byte) :=
  match SealCover (Some (session d)) sequence draws padding with
  | Err e => (d, Err (ErrDrainUplink e))
  | Ok cell =>
      let held_back := (negb open || negb (quotaRemaining d epoch)) && match ready d with Some _ => true | None => false end in
      (spend (count d (if held_back then emissionDeferred else emissionCover)) epoch open, Ok cell)
  end.

Definition Emit (d : Drain) (sequence now : Z) (refill : bool) (draws : nat -> list byte * scalar) (padding : list byte)
  : Drain * result drain_error (list byte) :=
  match drain_reserve d sequence with
  | Err e => (d, Err e)
  | Ok d =>
      let '(epoch, open) := windowState d now in
      match (if open && quotaRemaining d epoch then ready d else None) with
      | Some fragment => emit_work (middle refill (with_slot d None (pulled d))) fragment sequence epoch open draws padding
      | None => emit_cover (middle refill d) sequence epoch open draws padding
      end
  end.

(** ** The ingress *)

Inductive ingress_error :=
| ErrIngressSession
| ErrCellRefused (e : uplink_error)
| ErrNotForThisEpoch
| ErrIngressAirlock (e : airlock_error).

Definition IngressAccept (a : Airlock) (s : option Session) (sessionID cell : list byte) (now : Z) : Airlock * result ingress_error unit :=
  match s with
  | None => (a, Err ErrIngressSession)
  | Some s =>
      match uplink_Open (Some s) cell with
      | Err e => (a, Err (ErrCellRefused e))
      | Ok (sequence, inner) =>
          match Deposit a sessionID sequence inner now with
          | (a', Err ErrWindowClosed) | (a', Err ErrSealed) => (a', Err ErrNotForThisEpoch)
          | (a', Err e) => (a', Err (ErrIngressAirlock e))
          | (a', Ok _) => (a', Ok tt)
          end
      end
  end.
End drain.

(** ** What an emission does *)

Section emission.
Context `{HashFunction, KyberGroup, AEAD}.

(** The fragment a tick at [now] spends, if any. *)
Definition chosen (d : Drain) (now : Z) : option Fragment :=
  let '(epoch, open) := windowState d now in if open && quotaRemaining d epoch then ready d else None.

Definition emitted_payload (d : Drain) (now : Z) : list byte :=
  match chosen d now with Some f => FragPayload f | None => replicate PayloadSize x00 end.

(** The slots after a call that put out a cell. *)
Definition slots_after (refill : bool) (r p : option Fragment) : option Fragment * option Fragment :=
  match refill, r, p with true, None, Some f => (Some f, None) | _, _, _ => (r, p) end.

Definition quota_after (d : Drain) (now : Z) : Z * Z :=
  let '(epoch, open) := windowState d now in
  if open then (epoch, (if negb (quotaEpoch d =? epoch) then 0 else quotaSpent d) + 1) else (quotaEpoch d, quotaSpent d).

Record emission (d : Drain) (sequence now : Z) (refill : bool) (draws : nat -> list byte * scalar) (padding : list byte)
  (d' : Drain) (cell : list byte) : Prop := {
  em_fresh : sequence <> 0 /\ (lastSequence d = 0 \/ lastSequence d < sequence);
  em_last : lastSequence d' = sequence;
  em_same : session d' = session d /\ drain_schedule d' = drain_schedule d /\ stopped d' = stopped d;
  em_cell : uplink_seal (Some (session d)) sequence (emitted_payload d now) draws padding = Ok cell;
  em_slots : (ready d', pulled d') = slots_after refill (match chosen d now with Some _ => None | None => ready d end) (pulled d);
  em_quota : (quotaEpoch d', quotaSpent d') = quota_after d now;
}.

Lemma drain_reserve_ok d sequence d' : drain_reserve d sequence = Ok d' ->
  (sequence <> 0 /\ (lastSequence d = 0 \/ lastSequence d < sequence)) /\
  d' = mkDrain (session d) (drain_schedule d) (ready d) (pulled d) (stopped d) (work d) (cover_count d) (deferred d) sequence (quotaEpoch d) (quotaSpent d).
Proof.
  unfold drain_reserve. destruct (sequence =? 0) eqn:E0; [done|]. destruct (negb (lastSequence d =? 0) && _) eqn:E1; [done|].
  intros [= <-]. split; [|done]. reflect_bools. split; [done|]. apply andb_false_iff in E1 as [E1|E1]; reflect_bools; [by left|right; lia].
Qed.

(** A step of the goroutine in the middle touches only the slots. *)
Lemma middle_same refill d :
  session (middle refill d) = session d /\ drain_schedule (middle refill d) = drain_schedule d /\ stopped (middle refill d) = stopped d /\
  lastSequence (middle refill d) = lastSequence d /\ quotaEpoch (middle refill d) = quotaEpoch d /\ quotaSpent (middle refill d) = quotaSpent d /\
  (ready (middle refill d), pulled (middle refill d)) = slots_after refill (ready d) (pulled d).
Proof. unfold middle, fill_send. destruct refill; [|by split_and!]. destruct (pulled d) eqn:Ep, (ready d) eqn:Er; cbn; rewrite ?Ep, ?Er; by split_and!. Qed.

Lemma spend_count d kind epoch open :
  (quotaEpoch (spend (count d kind) epoch open), quotaSpent (spend (count d kind) epoch open)) =
    (if open then (epoch, (if negb (quotaEpoch d =? epoch) then 0 else quotaSpent d) + 1) else (quotaEpoch d, quotaSpent d)) /\
  lastSequence (spend (count d kind) epoch open) = lastSequence d /\ session (spend (count d kind) epoch open) = session d /\
  drain_schedule (spend (count d kind) epoch open) = drain_schedule d /\ stopped (spend (count d kind) epoch open) = stopped d /\
  (ready (spend (count d kind) epoch open), pulled (spend (count d kind) epoch open)) = (ready d, pulled d).
Proof. by destruct open. Qed.

Lemma Emit_ok d sequence now refill draws padding d' cell : Emit d sequence now refill draws padding = (d', Ok cell) ->
  emission d sequence now refill draws padding d' cell.
Proof.
  unfold Emit. destruct (drain_reserve d sequence) as [d0|] eqn:Er; [|done]. apply drain_reserve_ok in Er as [Hf Hd0].
  assert (windowState d0 now = windowState d now) as -> by (by subst d0). destruct (windowState d now) as [epoch open] eqn:Ew.
  assert ((if open && quotaRemaining d0 epoch then ready d0 else None) = chosen d now) as -> by (unfold chosen; rewrite Ew; by subst d0).
  assert (exists d1 kind, d1 = with_slot d0 (match chosen d now with Some _ => None | None => ready d end) (pulled d) /\
    (match chosen d now with Some fragment => emit_work (middle refill (with_slot d0 None (pulled d0))) fragment sequence epoch open draws padding
     | None => emit_cover (middle refill d0) sequence epoch open draws padding end = (d', Ok cell) ->
     uplink_seal (Some (session d)) sequence (emitted_payload d now) draws padding = Ok cell /\ d' = spend (count (middle refill d1) kind) epoch open))
    as (d1 & kind & Hd1 & Hshape).
  { unfold emitted_payload. destruct (chosen d now) as [f|] eqn:Ec; (eexists _, _; split; [reflexivity|]).
    - unfold emit_work. destruct (middle_same refill (with_slot d0 None (pulled d0))) as (-> & _). subst d0. cbn [with_slot session pulled].
      unfold SealWork. destruct (uplink_seal _ _ _ _ _) as [c|]; [|done]. by intros [= <- <-].
    - unfold emit_cover. destruct (middle_same refill d0) as (-> & _). unfold SealCover.
      assert (session d0 = session d) as -> by (by subst d0). destruct (uplink_seal _ _ _ _ _) as [c|]; [|done]. intros [= <- <-]. split; [done|].
      subst d0. reflexivity. }
  intros He. destruct (Hshape He) as [Hcell ->].
  destruct (middle_same refill d1) as (M1 & M2 & M3 & M4 & M5 & M6 & M7), (spend_count (middle refill d1) kind epoch open) as (Q & S1 & S2 & S3 & S4 & S5).
  subst d1 d0. cbn [with_slot lastSequence session drain_schedule stopped ready pulled quotaEpoch quotaSpent] in *. split.
  - done.
  - by rewrite S1, M4.
  - by rewrite S2, S3, S4.
  - done.
  - by rewrite S5.
  - unfold quota_after. by rewrite Ew, Q, M5, M6.
Qed.
End emission.

(** ** Runs of the drain *)

Section runs.
Context `{HashFunction, KyberGroup, AEAD}.

Inductive drain_event :=
| EvTick (env : queue_io) (now : Z)
| EvSend
| EvEmit (sequence now : Z) (refill : bool) (draws : nat -> list byte * scalar) (padding : list byte)
| EvClose.

(** What a step shows: a fragment pulled from the queue, or a cell put on the
    wire with the fragment it carries, if any. *)
Inductive drain_output :=
| OutNone
| OutPulled (f : Fragment)
| OutCell (sequence now : Z) (carried : option Fragment) (cell : list byte)
| OutFailed.

Definition drain_step (q : Queue) (st : Drain * directory) (e : drain_event) : (Drain * directory) * drain_output :=
  let '(d, dir) := st in
  match e with
  | EvTick env now =>
      let '(d', dir') := fill_tick q env now d dir in
      ((d', dir'), match pulled d, pulled d' with None, Some f => OutPulled f | _, _ => OutNone end)
  | EvSend => ((if stopped d then d else fill_send d, dir), OutNone)
  | EvEmit sequence now refill draws padding =>
      match Emit d sequence now refill draws padding with
      | (d', Ok cell) => ((d', dir), OutCell sequence now (chosen d now) cell)
      | (d', Err _) => ((d', dir), OutFailed)
      end
  | EvClose => ((Close d, dir), OutNone)
  end.

Fixpoint drain_run (q : Queue) (st : Drain * directory) (events : list drain_event) : (Drain * directory) * list drain_output :=
  match events with
  | [] => (st, [])
  | e :: events =>
      let '(st1, o) := drain_step q st e in
      let '(st2, outs) := drain_run q st1 events in
      (st2, o :: outs)
  end.

Definition sequence_of (o : drain_output) : option Z := match o with OutCell s _ _ _ => Some s | _ => None end.
Definition pull_of (o : drain_output) : option Fragment := match o with OutPulled f => Some f | _ => None end.
Definition work_of (o : drain_output) : option Fragment := match o with OutCell _ _ (Some f) _ => Some f | _ => None end.

(** Unless the encryption fails, the only step that changes the last sequence
    is an emission, which raises it. *)
Lemma Emit_err d sequence now refill draws padding d' e : Emit d sequence now refill draws padding = (d', Err e) ->
  (lastSequence d' = lastSequence d \/ lastSequence d = 0 /\ sequence <> 0 /\ lastSequence d' = sequence \/ lastSequence d < sequence /\ lastSequence d' = sequence) /\
  session d' = session d /\ drain_schedule d' = drain_schedule d /\ quotaEpoch d' = quotaEpoch d /\ quotaSpent d' = quotaSpent d /\
  sublist (option_list (ready d') ++ option_list (pulled d')) (option_list (ready d) ++ option_list (pulled d)).
Proof.
  unfold Emit. destruct (drain_reserve d sequence) as [d0|] eqn:Er; [|intros [= <- <-]; split_and!; auto].
  apply drain_reserve_ok in Er as [Hf Hd0]. assert (windowState d0 now = windowState d now) as -> by (by subst d0).
  destruct (windowState d now) as [epoch open].
  assert (forall r p, sublist (option_list (slots_after refill r p).1 ++ option_list (slots_after refill r p).2) (option_list r ++ option_list p)) as Hslots.
  { intros r p. by destruct refill, r, p. }
  assert (lastSequence d0 = sequence) as Hl by (by subst d0).
  destruct (if open && quotaRemaining d0 epoch then ready d0 else None) as [f|] eqn:Ec.
  - assert (ready d = Some f) as Hr by (subst d0; destruct (open && _); [done|discriminate Ec]).
    unfold emit_work. destruct (SealWork _ _ _ _ _); [done|]. intros [= <- <-].
    destruct (middle_same refill (with_slot d0 None (pulled d0))) as (M1 & M2 & _ & M4 & M5 & M6 & M7).
    set (d1 := middle refill (with_slot d0 None (pulled d0))) in *. clearbody d1. cbn [with_slot ready pulled session drain_schedule lastSequence quotaEpoch quotaSpent] in *.
    assert (pulled d0 = pulled d) as Hp by (by subst d0). rewrite Hp in M7.
    assert ((lastSequence d1 = lastSequence d \/ lastSequence d = 0 /\ sequence <> 0 /\ lastSequence d1 = sequence \/
      lastSequence d < sequence /\ lastSequence d1 = sequence) /\ session d1 = session d /\ drain_schedule d1 = drain_schedule d /\
      quotaEpoch d1 = quotaEpoch d /\ quotaSpent d1 = quotaSpent d) as Hsame.
    { rewrite M1, M2, M4, M5, M6. subst d0. cbn [lastSequence session drain_schedule quotaEpoch quotaSpent]. split_and!; try done.
      destruct Hf as [Hz [Hf|Hf]]; [right; left; by split_and!|right; right; by split]. }
    rewrite Hr. destruct (ready d1) as [g|] eqn:Eg; cbn [with_slot lastSequence session drain_schedule quotaEpoch quotaSpent ready pulled].
    + destruct Hsame as (? & ? & ? & ? & ?). split_and!; try done. rewrite Eg.
      destruct refill, (pulled d) as [h|]; cbn in M7; try discriminate M7. injection M7 as -> P. rewrite P. by apply sublist_cons.
    + destruct Hsame as (? & ? & ? & ? & ?). split_and!; try done.
      destruct refill, (pulled d) as [h|]; cbn in M7; try discriminate M7; injection M7 as P; by rewrite P.
  - unfold emit_cover. destruct (SealCover _ _ _ _); [done|]. intros [= <- <-].
    destruct (middle_same refill d0) as (M1 & M2 & _ & M4 & M5 & M6 & M7). rewrite M1, M2, M4, M5, M6. subst d0.
    cbn [ready pulled session drain_schedule lastSequence quotaEpoch quotaSpent] in *.
    split_and!; try done; [destruct Hf as [Hz [Hf|Hf]]; [right; left; by split_and!|right; right; by split]|].
    specialize (Hslots (ready d) (pulled d)). by rewrite <- M7 in Hslots.
Qed.

Definition slots (d : Drain) : list Fragment := option_list (ready d) ++ option_list (pulled d).

Lemma fill_tick_ok q env now d dir d' dir' : fill_tick q env now d dir = (d', dir') ->
  (d' = d \/ exists f, pulled d = None /\ depositWindowOpen d now = true /\ QueueNext q env dir = (dir', NextOk f) /\ d' = with_slot d (ready d) (Some f)).
Proof.
  unfold fill_tick. destruct (stopped d); [intros [= <- _]; by left|]. destruct (pulled d) eqn:Ep; [intros [= <- _]; by left|].
  destruct (depositWindowOpen d now) eqn:Ew; cbn [negb]; [|intros [= <- _]; by left].
  destruct (QueueNext q env dir) as [dir1 [f|f|e]]; intros [= <- <-]; [|by left|by left]. right. by exists f.
Qed.

Lemma fill_send_slots d : slots (fill_send d) = slots d /\ lastSequence (fill_send d) = lastSequence d /\ session (fill_send d) = session d /\
  drain_schedule (fill_send d) = drain_schedule d /\ quotaEpoch (fill_send d) = quotaEpoch d /\ quotaSpent (fill_send d) = quotaSpent d.
Proof. unfold fill_send, slots. destruct (pulled d) eqn:Ep, (ready d) eqn:Er; cbn; rewrite ?Ep, ?Er; done. Qed.

Lemma slots_after_list refill r p : option_list (slots_after refill r p).1 ++ option_list (slots_after refill r p).2 = option_list r ++ option_list p.
Proof. by destruct refill, r, p. Qed.

Lemma chosen_ready d now f : chosen d now = Some f -> ready d = Some f.
Proof. unfold chosen. destruct (windowState d now) as [epoch open]. by destruct (open && _). Qed.

(** One step, as seen from the sequence numbers and from the slots. *)
Lemma drain_step_ok q d dir e d' dir' o : drain_step q (d, dir) e = ((d', dir'), o) ->
  (forall sequence now refill draws padding, e = EvEmit sequence now refill draws padding -> 0 <= sequence) -> 0 <= lastSequence d ->
  lastSequence d <= lastSequence d' /\ (forall s, sequence_of o = Some s -> lastSequence d < s /\ lastSequence d' = s) /\
  sublist (option_list (work_of o) ++ slots d') (slots d ++ option_list (pull_of o)) /\
  (o <> OutFailed -> option_list (work_of o) ++ slots d' = slots d ++ option_list (pull_of o)).
Proof.
  intros Hs Hseq H0'. destruct e as [env now| |sequence now refill draws padding|]; cbn [drain_step] in Hs.
  - destruct (fill_tick q env now d dir) as [d1 dir1] eqn:Et. injection Hs as <- <- <-.
    destruct (fill_tick_ok _ _ _ _ _ _ _ Et) as [->|(f & Hp & _ & _ & ->)].
    + assert (match pulled d, pulled d with None, Some f => OutPulled f | _, _ => OutNone end = OutNone) as -> by (by destruct (pulled d)).
      cbn. rewrite app_nil_r. by split_and!.
    + unfold slots. cbn [with_slot pulled ready lastSequence]. rewrite Hp. cbn. rewrite app_nil_r. by split_and!.
  - injection Hs as <- <- <-. cbn. rewrite app_nil_r. destruct (stopped d); [by split_and!|].
    destruct (fill_send_slots d) as (-> & -> & _). by split_and!.
  - destruct (Emit d sequence now refill draws padding) as [d1 [cell|e]] eqn:Ee; injection Hs as <- <- <-.
    + destruct (Emit_ok _ _ _ _ _ _ _ _ Ee) as [[Hz Hf] Hl _ _ Hsl _]. specialize (Hseq _ _ _ _ _ eq_refl). cbn [sequence_of pull_of].
      rewrite app_nil_r. assert (option_list (chosen d now) ++ slots d1 = slots d) as Heq.
      { unfold slots. assert (ready d1 = (ready d1, pulled d1).1) as -> by done. assert (pulled d1 = (ready d1, pulled d1).2) as E2 by done.
        rewrite E2 at 2. rewrite Hsl, slots_after_list. destruct (chosen d now) as [f|] eqn:Ec; [|done].
        by rewrite (chosen_ready _ _ _ Ec). }
      assert (work_of (OutCell sequence now (chosen d now) cell) = chosen d now) as -> by (cbn; by destruct (chosen d now)).
      rewrite Heq. split_and!; [lia|intros s [= <-]; lia|done|done].
    + destruct (Emit_err _ _ _ _ _ _ _ _ Ee) as (Hl & _ & _ & _ & _ & Hsub). cbn. rewrite app_nil_r. specialize (Hseq _ _ _ _ _ eq_refl).
      split_and!; [lia|done|exact Hsub|done].
  - injection Hs as <- <- <-. cbn. rewrite app_nil_r. by split_and!.
Qed.

Definition emits_typed (events : list drain_event) : Prop := forall sequence now refill draws padding,
  EvEmit sequence now refill draws padding ∈ events -> 0 <= sequence < 2 ^ 64.

Lemma drain_run_ok q d dir events d' dir' outs : drain_run q (d, dir) events = ((d', dir'), outs) -> emits_typed events -> 0 <= lastSequence d ->
  StronglySorted Z.lt (omap sequence_of outs) /\ Forall (Z.lt (lastSequence d)) (omap sequence_of outs) /\
  sublist (omap work_of outs ++ slots d') (slots d ++ omap pull_of outs) /\
  (Forall (fun o => o <> OutFailed) outs -> omap work_of outs ++ slots d' = slots d ++ omap pull_of outs).
Proof.
  revert d dir outs. induction events as [|e events IH]; intros d dir outs Hr Ht H0'.
  { injection Hr as <- <- <-. simpl. rewrite app_nil_r. split_and!; [constructor|constructor|done|done]. }
  cbn [drain_run] in Hr. destruct (drain_step q (d, dir) e) as [[d1 dir1] o] eqn:E1. destruct (drain_run q (d1, dir1) events) as [[d2 dir2] outs2] eqn:E2.
  injection Hr as <- <- <-.
  destruct (drain_step_ok _ _ _ _ _ _ _ E1) as (Hmono & Hseq & Hsub & Heq);
    [intros s n r dr p ->; assert (0 <= s < 2 ^ 64) by (eapply Ht; apply list_elem_of_here); lia|done|].
  destruct (IH d1 dir1 outs2 E2) as (Hss & Hall & Hsub2 & Heq2);
    [intros s n r dr p Hin; eapply Ht; by apply list_elem_of_further|lia|].
  assert (forall A (f : drain_output -> option A), omap f (o :: outs2) = option_list (f o) ++ omap f outs2) as Homap
    by (intros A f; unfold omap; simpl; by destruct (f o)).
  rewrite !Homap. split_and!.
  - destruct (sequence_of o) as [s|] eqn:Es; cbn; [|done]. destruct (Hseq s eq_refl) as [_ Hl]. constructor; [done|]. by rewrite <- Hl.
  - apply Forall_app. split; [|eapply Forall_impl; [exact Hall|intros; lia]].
    destruct (sequence_of o) as [s|]; cbn; [|constructor]. destruct (Hseq s eq_refl) as [Hlt _]. by repeat constructor.
  - rewrite <- app_assoc. etransitivity; [apply sublist_app; [reflexivity|exact Hsub2]|]. rewrite !app_assoc. apply sublist_app; [exact Hsub|reflexivity].
  - intros [Ho Hos]%Forall_cons. rewrite <- app_assoc, Heq2 by done. rewrite !app_assoc, (Heq Ho). done.
Qed.
(** What the nonce of a cell is hashed from, and the clear header of a cell. *)
Definition nonce_input (key : list byte) (sequence : Z) : list byte := nonceLabel ++ key ++ be 8 sequence.
Definition header_of (o : drain_output) : option (list byte) := match o with OutCell _ _ _ cell => Some (take 8 cell) | _ => None end.

(** A cell of a session: its sequence number in clear, authenticated, and a text
    sealed under the session's key and the nonce that this number gives. *)
Definition cell_under (s : Session) (o : drain_output) : Prop :=
  match o with
  | OutCell sequence _ _ cell => 0 < sequence < 2 ^ 64 /\ exists text,
      cell = be 8 sequence ++ aead_seal (session_key s) (take 12 (sha256 (nonce_input (session_key s) sequence))) text (be 8 sequence)
  | _ => True
  end.

Lemma drain_step_cell q d dir e d' dir' o : drain_step q (d, dir) e = ((d', dir'), o) -> emits_typed [e] ->
  session d' = session d /\ cell_under (session d) o.
Proof.
  intros Hs Ht. destruct e as [env now| |sequence now refill draws padding|]; cbn [drain_step] in Hs.
  - destruct (fill_tick q env now d dir) as [d1 dir1] eqn:Et. injection Hs as <- <- <-.
    destruct (fill_tick_ok _ _ _ _ _ _ _ Et) as [->|(f & _ & _ & _ & ->)]; (split; [done|]); by repeat case_match.
  - injection Hs as <- <- <-. split; [|done]. destruct (stopped d); [done|]. by destruct (fill_send_slots d) as (_ & _ & ? & _).
  - destruct (Emit d sequence now refill draws padding) as [d1 [cell|e]] eqn:Ee; injection Hs as <- <- <-.
    + destruct (Emit_ok _ _ _ _ _ _ _ _ Ee) as [[Hz _] _ (? & _) Hcell _ _]. split; [done|].
      assert (0 <= sequence < 2 ^ 64) by (eapply Ht; apply list_elem_of_here). split; [lia|].
      destruct (uplink_seal_ok _ _ _ _ _ _ Hcell) as (_ & w & _ & ->). by eexists.
    + by destruct (Emit_err _ _ _ _ _ _ _ _ Ee) as (_ & ? & _).
  - by injection Hs as <- <- <-.
Qed.

Lemma drain_run_cells q d dir events d' dir' outs : drain_run q (d, dir) events = ((d', dir'), outs) -> emits_typed events ->
  Forall (cell_under (session d)) outs.
Proof.
  revert d dir outs. induction events as [|e events IH]; intros d dir outs Hr Ht; [injection Hr as <- <- <-; constructor|].
  cbn [drain_run] in Hr. destruct (drain_step q (d, dir) e) as [[d1 dir1] o] eqn:E1. destruct (drain_run q (d1, dir1) events) as [[d2 dir2] outs2] eqn:E2.
  injection Hr as <- <- <-. destruct (drain_step_cell _ _ _ _ _ _ _ E1) as [Es Hc].
  { intros s n r dr p <-%list_elem_of_singleton. eapply Ht, list_elem_of_here. }
  constructor; [done|]. rewrite <- Es. eapply IH; [exact E2|]. intros s n r dr p Hin. eapply Ht. by apply list_elem_of_further.
Qed.

(** The headers, read off the cells themselves. *)
Lemma headers_of_cells s outs : Forall (cell_under s) outs ->
  omap header_of outs = map (be 8) (omap sequence_of outs) /\ Forall (fun x => 0 < x < 2 ^ 64) (omap sequence_of outs).
Proof.
  induction 1 as [|o outs Ho _ [IH1 IH2]]; [split; constructor|]. destruct o as [| |sequence now carried cell|]; try done.
  destruct Ho as [Hs (text & ->)]. cbn [omap list_omap header_of sequence_of map].
  rewrite (take_app_exact 8) by apply length_be. split; [by f_equal|by constructor].
Qed.

Lemma distinct_numbers l : NoDup l -> Forall (fun x => 0 < x < 2 ^ 64) l -> NoDup (map (be 8) l).
Proof.
  intros Hn Hf. induction Hn as [|x l Hx _ IH]; [constructor|]. apply Forall_cons in Hf as [Hxr Hf]. constructor; [|by apply IH].
  intros (y & E & Hy)%list_elem_of_fmap. rewrite Forall_forall in Hf. specialize (Hf y Hy).
  apply (be_inj 8) in E; [by subst|lia..].
Qed.
End runs.

(** C28: No sequence number, and so no input of a nonce, is used twice under a
    session key.  Over any run of a new drain,
    with the filling goroutine interleaved in any way and emissions failing, every
    cell put on the wire is its sequence number in eight bytes, in clear, followed
    by a text sealed under the session's key, with those eight bytes authenticated
    and with the nonce hashed from the key and that very number.  The numbers are
    positive and strictly increase, so no two cells of the run have the same
    header, and no two nonces are hashed from the same input: they could only be
    equal by a collision of the truncated hash. *)
Theorem nonces_never_reused `{HashFunction, KyberGroup, AEAD} q s schedule poll d dir events st outs :
  NewDrainWithPoll (Some s) schedule poll = Ok d -> emits_typed events -> drain_run q (d, dir) events = (st, outs) ->
  Forall (cell_under s) outs /\
  StronglySorted Z.lt (omap sequence_of outs) /\ Forall (fun sequence => 0 < sequence) (omap sequence_of outs) /\
  NoDup (omap header_of outs) /\ NoDup (map (nonce_input (session_key s)) (omap sequence_of outs)).
Proof.
  intros Hn Ht Hr. unfold NewDrainWithPoll in Hn. destruct (schedule_validate schedule) as [[]|]; [|done]. cbn [wrap mbind result_bind] in Hn.
  destruct (poll <=? 0); [done|]. injection Hn as <-. destruct st as [d' dir'].
  pose proof (drain_run_cells _ _ _ _ _ _ _ Hr Ht) as Hc. destruct (headers_of_cells _ _ Hc) as [Hh Hrange].
  destruct (drain_run_ok _ _ _ _ _ _ _ Hr Ht ltac:(cbn; lia)) as (Hs & Hf & _).
  assert (NoDup (map (be 8) (omap sequence_of outs))) as Hnd.
  { apply distinct_numbers; [|done]. clear -Hs. induction Hs as [|x l Hs IH Hall]; [constructor|]. constructor; [|by apply IH].
    intros Hin. rewrite Forall_forall in Hall. specialize (Hall x Hin). lia. }
  split_and!; [done|done|exact Hf|by rewrite Hh|]. unfold nonce_input.
  rewrite <- (map_map (be 8) (fun b => nonceLabel ++ session_key s ++ b)). apply NoDup_fmap_2; [|done].
  intros x y E. by apply app_inv_head, app_inv_head in E.
Qed.

(** Publication work goes out once and in order: the fragments carried by the
    cells of a run, then those still in the channel and in the goroutine's hands,
    are fragments pulled from the queue in the order they were pulled, none of
    them twice; and if no emission failed they are all of them. *)
Theorem work_in_order `{HashFunction, KyberGroup, AEAD} q s schedule poll d dir events d' dir' outs :
  NewDrainWithPoll (Some s) schedule poll = Ok d -> emits_typed events -> drain_run q (d, dir) events = ((d', dir'), outs) ->
  sublist (omap work_of outs ++ option_list (ready d') ++ option_list (pulled d')) (omap pull_of outs) /\
  (Forall (fun o => o <> OutFailed) outs -> omap work_of outs ++ option_list (ready d') ++ option_list (pulled d') = omap pull_of outs).
Proof.
  intros Hn Ht Hr. unfold NewDrainWithPoll in Hn. destruct (schedule_validate schedule) as [[]|]; [|done]. cbn [wrap mbind result_bind] in Hn.
  destruct (poll <=? 0); [done|]. injection Hn as <-. by destruct (drain_run_ok _ _ _ _ _ _ _ Hr Ht ltac:(cbn; lia)) as (_ & _ & Hsub & Heq).
Qed.

(** Every tick puts out a cell: with a sequence number above the last and an
    encryption that works, the drain emits one cell of the one size, under the
    clear header of that number, whether or not there is work, the window is open
    or the quota is spent. *)
Theorem every_tick_emits `{HashFunction, KyberGroup, AEAD} d sequence now refill draws padding :
  0 <= lastSequence d < sequence -> sequence < 2 ^ 64 ->
  (forall payload, exists w, encryptCellWithPadding (committee (session d)) payload draws (Some padding) = Ok w) ->
  exists d' cell, Emit d sequence now refill draws padding = (d', Ok cell) /\ length cell = Frame.CellSize /\ take 8 cell = be 8 sequence.
Proof.
  intros Hl Hs Henc. assert (forall payload, exists cell, uplink_seal (Some (session d)) sequence payload draws padding = Ok cell /\
    length cell = Frame.CellSize /\ take 8 cell = be 8 sequence) as Hseal.
  { intros payload. destruct (Henc payload) as [w Hw]. destruct (uplink_seal_total (session d) sequence payload draws padding w ltac:(lia) Hw) as [cell Hc].
    exists cell. split; [done|]. destruct (uplink_seal_ok _ _ _ _ _ _ Hc) as (_ & w' & Hw' & ->). rewrite (take_app_exact 8) by apply length_be.
    split; [|done]. rewrite length_app, length_be, length_aead_seal, length_app, length_take, length_replicate, (encrypted_length _ _ _ _ _ Hw'). reflexivity. }
  unfold Emit, drain_reserve. destruct (sequence =? 0) eqn:E0; [reflect_bools; lia|].
  destruct (negb (lastSequence d =? 0) && (sequence <=? lastSequence d)) eqn:E1; [reflect_bools; lia|].
  set (d0 := mkDrain _ _ _ _ _ _ _ _ _ _ _). destruct (windowState d0 now) as [epoch open].
  destruct (if open && quotaRemaining d0 epoch then ready d0 else None) as [f|].
  - unfold emit_work. destruct (middle_same refill (with_slot d0 None (pulled d0))) as (-> & _). cbn [with_slot session d0].
    destruct (Hseal (FragPayload f)) as (cell & Hc & Hlen). unfold SealWork. rewrite Hc. by eexists _, cell.
  - unfold emit_cover. destruct (middle_same refill d0) as (-> & _). cbn [session d0].
    destruct (Hseal (replicate PayloadSize x00)) as (cell & Hc & Hlen). unfold SealCover. rewrite Hc. by eexists _, cell.
Qed.

(** ** From the drain into the airlock *)

Section pipeline.
Context `{HashFunction, KyberGroup, AEAD}.
Variable sch : Schedule.
Variable sid : list byte.

Hypothesis Hvalid : schedule_validate sch = Ok tt.
Hypothesis Htyped : schedule_typed sch.

(** A cell on its way: when it was emitted, by the publisher's clock, what it
    carries and how it was encrypted. *)
Record in_flight := mkFlight {
  fl_emitted : Z;
  fl_sequence : Z;
  fl_carried : option Fragment;
  fl_draws : nat -> list byte * scalar;
  fl_padding : list byte;
  fl_cell : list byte;
}.

Definition emitted_inside (a : Airlock) (c : in_flight) : Prop := opens a <= fl_emitted c < closes a.
#[local] Instance emitted_inside_dec a c : Decision (emitted_inside a c).
Proof. unfold emitted_inside. apply _. Defined.

(** A publisher's drain and the airlock of one epoch, with the cells under way and
    the time of the last emission.  The goroutine moves; cells are emitted at times
    that do not go back on the publisher's clock; each of them is lost or arrives
    at some instant of the airlock's own clock, after those emitted before it;
    other sessions deposit.  Delay and clock difference are arbitrary but for one
    thing: a cell that arrives inside the window was emitted inside the window. *)
Inductive pipeline (q : Queue) : Drain -> directory -> list in_flight -> Airlock -> Z -> Prop :=
| pipe_start s poll c epoch draws paddings d dir a t :
    NewDrainWithPoll (Some s) sch poll = Ok d -> NewAirlock sch c epoch draws paddings = Ok a -> 0 <= epoch -> pipeline q d dir [] a t
| pipe_tick d dir w a t env now : pipeline q d dir w a t -> pipeline q (fill_tick q env now d dir).1 (fill_tick q env now d dir).2 w a t
| pipe_send d dir w a t : pipeline q d dir w a t -> pipeline q (fill_send d) dir w a t
| pipe_emit d dir w a t sequence now refill draws padding d' cell : pipeline q d dir w a t -> t <= now -> 0 <= sequence < 2 ^ 64 ->
    Emit d sequence now refill draws padding = (d', Ok cell) ->
    pipeline q d' dir (w ++ [mkFlight now sequence (chosen d now) draws padding cell]) a now
| pipe_failed d dir w a t sequence now refill draws padding d' e : pipeline q d dir w a t -> t <= now ->
    Emit d sequence now refill draws padding = (d', Err e) -> pipeline q d' dir w a now
| pipe_lost d dir w1 c w2 a t : pipeline q d dir (w1 ++ c :: w2) a t -> pipeline q d dir (w1 ++ w2) a t
| pipe_arrive d dir c w a t arrival : pipeline q d dir (c :: w) a t -> (opens a <= arrival < closes a -> emitted_inside a c) ->
    pipeline q d dir w (IngressAccept a (Some (session d)) sid (fl_cell c) arrival).1 t
| pipe_other d dir w a t other sequence payload now : pipeline q d dir w a t -> other <> sid ->
    pipeline q d dir w (Deposit a other sequence payload now).1 t.

(** The cells under way that can still be charged to the session. *)
Definition charges (a : Airlock) (w : list in_flight) : Z := len (filter (emitted_inside a) w).

(** A cell under way is what the drain sealed. *)
Definition flight_sealed (d : Drain) (c : in_flight) : Prop :=
  0 <= fl_sequence c < 2 ^ 64 /\
  uplink_seal (Some (session d)) (fl_sequence c)
    (match fl_carried c with Some f => FragPayload f | None => replicate PayloadSize x00 end) (fl_draws c) (fl_padding c) = Ok (fl_cell c).

(** The drain's own count bounds what the airlock charged to the session or can
    still charge, and work under way has a slot left behind what is before it. *)
Record quota_inv (d : Drain) (w : list in_flight) (a : Airlock) (t : Z) : Prop := {
  qi_schedule : drain_schedule d = sch /\ schedule a = sch;
  qi_epoch : 0 <= release_epoch a /\ DepositWindow sch (release_epoch a) = Ok (opens a, closes a);
  qi_spent : 0 <= quotaSpent d /\ 0 <= quotaEpoch d;
  qi_past : quotaEpoch d = 0 \/ opens_at sch (quotaEpoch d) <= t;
  qi_same : quotaEpoch d = release_epoch a -> held a sid + charges a w <= quotaSpent d;
  qi_before : quotaEpoch d < release_epoch a -> held a sid + charges a w <= 0;
  qi_work : forall w1 c w2 f, w = w1 ++ c :: w2 -> fl_carried c = Some f -> emitted_inside a c ->
    held a sid + charges a w1 < MaxDepositsPerSession sch;
  qi_sealed : Forall (flight_sealed d) w;
}.

Lemma charges_app a w1 w2 : charges a (w1 ++ w2) = charges a w1 + charges a w2.
Proof. unfold charges. rewrite filter_app, length_app. lia. Qed.

Lemma charges_cons a c w : charges a (c :: w) = (if decide (emitted_inside a c) then 1 else 0) + charges a w.
Proof. unfold charges. rewrite filter_cons. case_decide; cbn [length]; lia. Qed.

Lemma charges_nonneg a w : 0 <= charges a w.
Proof. unfold charges. lia. Qed.

Lemma charges_same a a' w : opens a' = opens a -> closes a' = closes a -> charges a' w = charges a w.
Proof.
  intros E1 E2. induction w as [|c w IH]; [done|]. rewrite !charges_cons, IH. f_equal. apply decide_ext. unfold emitted_inside. by rewrite E1, E2.
Qed.

Lemma windowState_open d now epoch : drain_schedule d = sch -> windowState d now = (epoch, true) ->
  0 <= epoch <= MaxEpoch sch /\ opens_at sch epoch <= now < opens_at sch (epoch + 1) - DepositCutoff sch.
Proof.
  intros Hd. unfold windowState. rewrite Hd. destruct (EpochAt sch now) as [e|] eqn:Ee; [|done].
  apply (EpochAt_exact sch Hvalid Htyped) in Ee as [He _]. destruct (window_exact sch Hvalid Htyped e He) as [-> _].
  intros [= <- Ho]. apply andb_true_iff in Ho as [Ho1 Ho2]. reflect_bools. lia.
Qed.

Lemma windowState_at d now e opens closes : drain_schedule d = sch -> 0 <= e -> DepositWindow sch e = Ok (opens, closes) -> opens <= now < closes ->
  windowState d now = (e, true).
Proof.
  intros Hd He Hw Hn. assert (e <= MaxEpoch sch) as Hle.
  { destruct (Z_le_gt_dec e (MaxEpoch sch)); [done|]. destruct (window_range sch Hvalid e ltac:(lia)) as [Hw' _]. congruence. }
  destruct (window_exact sch Hvalid Htyped e (conj He Hle)) as [Hw' _]. rewrite Hw in Hw'. injection Hw' as -> ->.
  pose proof (schedule_bounds sch Hvalid Htyped) as (Hc & _).
  assert (EpochAt sch now = Ok e) as Hat by (apply (EpochAt_exact sch Hvalid Htyped); split; [done|lia]).
  unfold windowState. rewrite Hd, Hat. rewrite Hw. f_equal. apply andb_true_iff. split; [apply negb_true_iff, Z.ltb_ge; lia|apply Z.ltb_lt; lia].
Qed.

(** A deposit by one session leaves the others' counts. *)
Lemma Deposit_held a session sequence payload now other : held (Deposit a session sequence payload now).1 other = held a other \/
  other = session /\ held (Deposit a session sequence payload now).1 other = held a other + 1 /\ opens a <= now < closes a.
Proof.
  destruct (Deposit a session sequence payload now) as [a' r] eqn:E. cbn [fst].
  destruct (Deposit_outcome _ _ _ _ _ _ _ E) as [(_ & Hs & _)|(_ & _ & _ & _ & -> & ->)]; [left; unfold held; by rewrite Hs|].
  unfold held, with_deposits. cbn [sessions]. destruct (decide (other = session)) as [->|Hne].
  - rewrite lookup_insert_eq. right. split_and!; [done|done| |]; revert E; unfold Deposit; destruct (sealed a); try done;
      destruct ((now <? opens a) || negb (now <? closes a)) eqn:Ew; try done; intros _; reflect_bools; lia.
  - rewrite lookup_insert_ne by done. by left.
Qed.

Lemma Deposit_same a session sequence payload now : schedule (Deposit a session sequence payload now).1 = schedule a /\
  release_epoch (Deposit a session sequence payload now).1 = release_epoch a /\
  opens (Deposit a session sequence payload now).1 = opens a /\ closes (Deposit a session sequence payload now).1 = closes a.
Proof.
  destruct (Deposit a session sequence payload now) as [a' r] eqn:E. cbn [fst].
  by destruct (Deposit_outcome _ _ _ _ _ _ _ E) as [(_ & _ & ? & _ & _ & ? & ? & ? & _)|(_ & _ & _ & _ & _ & ->)].
Qed.

Lemma IngressAccept_deposit a s sessionID cell now : (IngressAccept a (Some s) sessionID cell now).1 = a \/
  exists sequence inner, (IngressAccept a (Some s) sessionID cell now).1 = (Deposit a sessionID sequence inner now).1.
Proof.
  unfold IngressAccept. destruct (uplink_Open (Some s) cell) as [[sequence inner]|]; [|by left]. right. exists sequence, inner.
  destruct (Deposit a sessionID sequence inner now) as [a' [|[]]]; done.
Qed.

(** Steps that change neither the count nor the airlock's view of it. *)
Lemma quota_inv_same d w a t d' a' t' : quota_inv d w a t -> session d' = session d -> drain_schedule d' = drain_schedule d ->
  quotaEpoch d' = quotaEpoch d -> quotaSpent d' = quotaSpent d -> schedule a' = schedule a -> release_epoch a' = release_epoch a ->
  opens a' = opens a -> closes a' = closes a -> held a' sid = held a sid -> t <= t' -> quota_inv d' w a' t'.
Proof.
  intros [Hs He Hsp Hp Hsame Hbefore Hwork Hseal] Es Ed Eq Eqs E1 E2 E3 E4 Eh Ht.
  split; rewrite ?(charges_same a a') by done; rewrite ?Ed, ?Eq, ?Eqs, ?E1, ?E2, ?E3, ?E4, ?Eh; try done.
  - destruct Hp; [by left|right; lia].
  - intros w1 c w2 f Ew Hf Hin. rewrite (charges_same a a') by done. apply (Hwork w1 c w2 f Ew Hf). unfold emitted_inside in *. by rewrite <- E3, <- E4.
  - eapply Forall_impl; [exact Hseal|]. intros c. unfold flight_sealed. by rewrite Es.
Qed.

(** A cell under way is lost. *)
Lemma quota_inv_lost d w1 c w2 a t : quota_inv d (w1 ++ c :: w2) a t -> quota_inv d (w1 ++ w2) a t.
Proof.
  assert (forall v, charges a v <= charges a (c :: v)) as Hle by (intros v; rewrite charges_cons; case_decide; lia).
  intros [Hs He Hsp Hp Hsame Hbefore Hwork Hseal]. pose proof (Hle w2). pose proof (charges_nonneg a w1). pose proof (charges_nonneg a w2).
  split; try done; rewrite ?charges_app in *.
  - intros E. specialize (Hsame E). lia.
  - intros E. specialize (Hbefore E). lia.
  - intros v1 x v2 f Ew Hf Hin.
    assert (exists u1, (exists u2, w1 ++ c :: w2 = u1 ++ x :: u2) /\ charges a v1 <= charges a u1) as (u1 & (u2 & Eu) & Hc).
    { apply app_eq_app in Ew as (k & [[-> Ek]|[-> Ek]]).
      - destruct k as [|y k]; cbn [app] in Ek.
        + exists (v1 ++ [c]). split; [exists v2; by rewrite app_nil_r, Ek, <- app_assoc|]. rewrite charges_app. pose proof (charges_nonneg a [c]). lia.
        + injection Ek as <- ->. exists v1. split; [exists (k ++ c :: w2); by rewrite <- app_assoc|lia].
      - exists (w1 ++ c :: k). split; [exists v2; rewrite Ek, <- app_assoc; done|]. rewrite !charges_app. specialize (Hle k). lia. }
    specialize (Hwork u1 x u2 f Eu Hf Hin). lia.
  - apply Forall_app in Hseal as [Hs1 [_ Hs2]%Forall_cons]. by apply Forall_app.
Qed.

(** The head of what is under way arrives. *)
Lemma quota_inv_arrive d c w a t a' : quota_inv d (c :: w) a t -> schedule a' = schedule a -> release_epoch a' = release_epoch a ->
  opens a' = opens a -> closes a' = closes a -> (held a' sid = held a sid \/ held a' sid = held a sid + 1 /\ emitted_inside a c) ->
  quota_inv d w a' t.
Proof.
  intros Hi E1 E2 E3 E4 [Hh|[Hh Hin]].
  { by eapply quota_inv_same; [exact (quota_inv_lost d [] c w a t Hi)|done..]. }
  destruct Hi as [Hs He Hsp Hp Hsame Hbefore Hwork Hseal]. rewrite charges_cons, decide_True in Hsame, Hbefore by done.
  split; rewrite ?(charges_same a a') by done; rewrite ?E1, ?E2, ?E3, ?E4, ?Hh; try done.
  - intros E. specialize (Hsame E). lia.
  - intros E. specialize (Hbefore E). lia.
  - intros w1 x w2 f -> Hf Hx. rewrite (charges_same a a') by done.
    assert (emitted_inside a x) as Hx' by (unfold emitted_inside in *; by rewrite <- E3, <- E4).
    specialize (Hwork (c :: w1) x w2 f eq_refl Hf Hx'). rewrite charges_cons, decide_True in Hwork by done. lia.
  - by apply Forall_cons in Hseal as [_ ?].
Qed.

(** Work is chosen only while the session has a slot left, also for all that is
    still under way. *)
Lemma work_within_quota d w a t now f : quota_inv d w a t -> t <= now -> opens a <= now < closes a -> chosen d now = Some f ->
  held a sid + charges a w < MaxDepositsPerSession sch.
Proof.
  intros [[Hd Hs] [He Hw] [Hsp Hqe] Hpast Hsame Hbefore _ _] Ht Hin Hc.
  unfold chosen in Hc. rewrite (windowState_at d now (release_epoch a) _ _ Hd He Hw Hin) in Hc. cbn [andb] in Hc.
  destruct (quotaRemaining d (release_epoch a)) eqn:Eq; [|done]. unfold quotaRemaining in Eq. rewrite Hd in Eq.
  pose proof (schedule_bounds sch Hvalid Htyped) as (Hcut & _ & _ & Hm).
  destruct (quotaEpoch d =? release_epoch a) eqn:Ee; cbn [negb] in Eq; reflect_bools; [specialize (Hsame Ee); lia|].
  assert (quotaEpoch d <= release_epoch a) as Hle.
  { pose proof (windowState_open d now (release_epoch a) Hd (windowState_at d now _ _ _ Hd He Hw Hin)) as [_ Hwin].
    destruct Hpast as [->|Hpast]; [lia|]. unfold opens_at in *. nia. }
  specialize (Hbefore ltac:(lia)). lia.
Qed.

(** The cell of an emission, and its count. *)
Lemma quota_inv_emit d w a t d' c : quota_inv d w a t -> t <= fl_emitted c -> session d' = session d -> drain_schedule d' = drain_schedule d ->
  (quotaEpoch d', quotaSpent d') = quota_after d (fl_emitted c) -> fl_carried c = chosen d (fl_emitted c) -> flight_sealed d c ->
  quota_inv d' (w ++ [c]) a (fl_emitted c).
Proof.
  intros Hi Ht Es Ed Hq Hcar Hfs. pose proof Hi as [[Hd Hs] [He Hw] [Hsp Hqe] Hpast Hsame Hbefore Hwork Hseal]. unfold quota_after in Hq.
  pose proof (schedule_bounds sch Hvalid Htyped) as (Hcut & _).
  assert (charges a [c] = if decide (emitted_inside a c) then 1 else 0) as Hone by (rewrite charges_cons; unfold charges; cbn; lia).
  assert (forall w1 x w2 f, w ++ [c] = w1 ++ x :: w2 -> fl_carried x = Some f -> emitted_inside a x -> held a sid + charges a w1 < MaxDepositsPerSession sch) as Hwork'.
  { intros w1 x w2 f Ew Hf Hin. destruct w2 as [|y w2 _] using rev_ind.
    - apply app_inj_tail in Ew as [<- <-]. rewrite Hcar in Hf. by eapply work_within_quota.
    - rewrite app_comm_cons, app_assoc in Ew. apply app_inj_tail in Ew as [Ew _]. by eapply Hwork. }
  assert (forall x, flight_sealed d x -> flight_sealed d' x) as Hkeep by (intros x; unfold flight_sealed; by rewrite Es).
  assert (Forall (flight_sealed d') (w ++ [c])) as Hseal'.
  { apply Forall_app. split; [by eapply Forall_impl|]. constructor; [auto|constructor]. }
  destruct (windowState d (fl_emitted c)) as [epoch open] eqn:Ew. destruct open.
  - destruct (windowState_open d _ epoch Hd Ew) as [Hep Hwin]. injection Hq as Eq Esp.
    assert (quotaEpoch d <= epoch) as Hle.
    { destruct Hpast as [->|Hpast]; [lia|]. unfold opens_at in *. nia. }
    assert (charges a [c] = 0 \/ charges a [c] = 1 /\ epoch = release_epoch a) as Hone'.
    { rewrite Hone. case_decide as Hin; [right|by left]. split; [done|].
      rewrite (windowState_at d _ (release_epoch a) _ _ Hd He Hw Hin) in Ew. by injection Ew as ->. }
    split; rewrite ?Ed, ?Eq, ?Esp, ?charges_app; try done.
    + destruct (negb (quotaEpoch d =? epoch)); lia.
    + right. lia.
    + intros E. destruct (quotaEpoch d =? epoch) eqn:Ee; reflect_bools; cbn [negb].
      * specialize (Hsame ltac:(lia)). lia.
      * specialize (Hbefore ltac:(lia)). lia.
    + intros Hlt. specialize (Hbefore ltac:(lia)). lia.
  - injection Hq as Eq Esp. assert (charges a [c] = 0) as Hz.
    { rewrite Hone. case_decide as Hin; [|done]. by rewrite (windowState_at d _ (release_epoch a) _ _ Hd He Hw Hin) in Ew. }
    split; rewrite ?Ed, ?Eq, ?Esp, ?charges_app, ?Hz, ?Z.add_0_r; try done. destruct Hpast as [|]; [by left|right; lia].
Qed.

Lemma pipeline_inv q d dir w a t : pipeline q d dir w a t -> quota_inv d w a t.
Proof.
  induction 1 as [s poll c epoch draws paddings d dir a t Hd Ha He|d dir w a t env now _ IH|d dir w a t _ IH
    |d dir w a t sequence now refill draws padding d' cell _ IH Ht Hsq Hem|d dir w a t sequence now refill draws padding d' e _ IH Ht Hem
    |d dir w1 c w2 a t _ IH|d dir c w a t arrival _ IH Hin|d dir w a t other sequence payload now _ IH Hne].
  - unfold NewDrainWithPoll in Hd. rewrite Hvalid in Hd. cbn [wrap mbind result_bind] in Hd. destruct (poll <=? 0); [done|]. injection Hd as <-.
    unfold NewAirlock in Ha. rewrite Hvalid in Ha. cbn [mbind result_bind] in Ha.
    destruct (validateThresholdCommittee c) as [[]|]; [|done]. cbn [wrap mbind result_bind] in Ha.
    destruct (DepositWindow sch epoch) as [win|] eqn:Ew; [|done]. cbn [mbind result_bind] in Ha.
    destruct (collect _ _); [|done]. cbn [wrap mbind result_bind] in Ha. apply (inj Ok) in Ha as <-.
    split; cbn; unfold held; cbn; rewrite ?lookup_empty; try done; [|by left|intros []; discriminate].
    split; [done|]. rewrite Ew. by destruct win.
  - destruct (fill_tick q env now d dir) as [d' dir'] eqn:E. cbn [fst].
    destruct (fill_tick_ok _ _ _ _ _ _ _ E) as [->|(f & _ & _ & _ & ->)]; [done|]. by eapply quota_inv_same.
  - destruct (fill_send_slots d) as (_ & _ & ? & ? & ? & ?). by eapply quota_inv_same.
  - destruct (Emit_ok _ _ _ _ _ _ _ _ Hem) as [_ _ (? & ? & _) Hcell _ Hq].
    apply (quota_inv_emit d w a t d' (mkFlight now sequence (chosen d now) draws padding cell)); try done.
  - destruct (Emit_err _ _ _ _ _ _ _ _ Hem) as (_ & ? & ? & ? & ? & _). by eapply quota_inv_same.
  - by eapply quota_inv_lost.
  - destruct (IngressAccept_deposit a (session d) sid (fl_cell c) arrival) as [->|(sq & inner & ->)];
      [by eapply quota_inv_arrive; [done..|left]|].
    destruct (Deposit_same a sid sq inner arrival) as (? & ? & ? & ?). eapply quota_inv_arrive; [done..|].
    destruct (Deposit_held a sid sq inner arrival sid) as [|(_ & ? & ?)]; [by left|right; auto].
  - destruct (Deposit_same a other sequence payload now) as (? & ? & ? & ?).
    destruct (Deposit_held a other sequence payload now sid) as [Hh|(-> & _)]; [|done]. by eapply quota_inv_same.
Qed.
End pipeline.

(** C27: Work is not spent on a slot it cannot get.  Take a publisher's drain, the
    airlock of an epoch and the cells under way between them in any state they can
    reach together: any delay, any lost cells, other sessions, and two clocks that
    need not agree, where the publisher's does not go back, cells arrive in the
    order in which they were sent, each at most once, and a cell that arrives inside the airlock's
    window left the drain inside it.  (The last
    condition is needed, see [late_cover_takes_slot]: the drain counts a cell when
    it leaves and the airlock when it arrives.)  If the next cell to arrive carries a
    fragment and arrives inside the window, it is never dropped for the session's
    bound: with a slot left in the batch, its identifier not taken and its points
    usable, the airlock takes it and holds under that identifier the committee
    ciphertext of exactly this fragment. *)
Theorem work_gets_its_slot `{HashFunction, KyberGroup, AEAD} sch sid q d dir c w a t arrival f :
  schedule_validate sch = Ok tt -> schedule_typed sch -> pipeline sch sid q d dir (c :: w) a t ->
  fl_carried c = Some f -> opens a <= arrival < closes a -> emitted_inside a c -> sealed a = false ->
  deposits a !! DepositID sid (fl_sequence c) = None -> Z.of_nat (size (deposits a)) < BatchSize sch ->
  exists e, encryptCellWithPadding (committee (session d)) (FragPayload f) (fl_draws c) (Some (fl_padding c)) = Ok e /\
    (validatePayload (take DepositSize e) = Ok tt ->
     let a' := (IngressAccept a (Some (session d)) sid (fl_cell c) arrival).1 in
     IngressAccept a (Some (session d)) sid (fl_cell c) arrival = (a', Ok tt) /\
     deposits a' = <[DepositID sid (fl_sequence c) := take DepositSize e]> (deposits a)).
Proof.
  intros Hv Ht Hp Hf Hin Hem Hse Hnone Hroom.
  destruct (pipeline_inv sch sid Hv Ht _ _ _ _ _ _ Hp) as [[_ Hsch] _ _ _ _ _ Hwork Hseal].
  specialize (Hwork [] c w f eq_refl Hf Hem). unfold charges in Hwork. cbn in Hwork.
  apply Forall_cons in Hseal as [[Hsq Hcell] _]. rewrite Hf in Hcell.
  destruct (uplink_seal_ok _ _ _ _ _ _ Hcell) as (Hz & e & He & ->). exists e. split; [done|]. intros Hpay. cbv zeta.
  assert (IngressAccept a (Some (session d)) sid (be 8 (fl_sequence c) ++ aead_seal (session_key (session d)) (Nonce (session_key (session d)) (fl_sequence c))
      (take InnerSize e ++ replicate paddingSize x00) (be 8 (fl_sequence c))) arrival =
    (with_deposits a (<[DepositID sid (fl_sequence c) := take DepositSize e]> (deposits a)) (<[sid := held a sid + 1]> (sessions a)), Ok tt)) as ->;
    [|split; reflexivity].
  unfold IngressAccept. rewrite (uplink_open_sealed (session d) (fl_sequence c) e) by (lia || exact (encrypted_length _ _ _ _ _ He)).
  change InnerSize with DepositSize. unfold Deposit. rewrite Hse.
  assert ((arrival <? opens a) || negb (arrival <? closes a) = false) as ->.
  { destruct (arrival <? opens a) eqn:E1, (arrival <? closes a) eqn:E2; reflect_bools; try done; lia. }
  rewrite Hnone, Hsch. destruct (_ <=? held a sid) eqn:E1; [reflect_bools; lia|].
  destruct (BatchSize sch <=? _) eqn:E2; [reflect_bools; lia|]. by rewrite Hpay.
Qed.

(** A pull whose last sync fails loses its fragment: the queue has removed it and
    returns it with an error, the goroutine ignores both, and no file, slot or
    cell holds it any more. *)
Theorem unsynced_pull_lost `{HashFunction, KyberGroup, AEAD} q d dir p env now : stored q dir p -> p <> ∅ ->
  stopped d = false -> pulled d = None -> depositWindowOpen d now = true ->
  list_ok env = true -> read_ok env 0 = true -> remove_ok env = true -> sync_ok env = false ->
  exists f dir', p !! FragID f = Some f /\ fill_tick q env now d dir = (d, dir') /\ stored q dir' (delete (FragID f) p).
Proof.
  intros Hs Hp Hst Hpl Hw E1 E2 E3 E4. destruct (QueueNext q env dir) as [dir' r] eqn:En.
  pose proof (QueueNext_stored _ _ _ _ _ _ Hs En) as Hn. unfold fill_tick. rewrite Hst, Hpl, Hw, En. cbn [negb]. destruct r as [f|f|e].
  - exfalso. revert En. unfold QueueNext. rewrite E1, E2, E3, E4. cbn [negb]. destruct (listLocked dir); [done|].
    destruct (hex_decode _); [|done]. destruct (negb _); [done|]. by destruct (openFragment _ _ _).
  - exists f, dir'. destruct Hn as (? & _ & ?). by split_and!.
  - exfalso. destruct (QueueNext_idle _ _ _ _ _ _ Hs En) as [?|[?|[?|?]]]; congruence.
Qed.

(** ** Witnesses *)

Section example.
#[local] Existing Instance example_hash.
#[local] Existing Instance gf_group.
#[local] Existing Instance example_aead.

Definition example_publisher : Session := mkSession (replicate 32 x17) (CommPublicKey example_committee) example_context.
Definition example_drain : Drain := mkDrain example_publisher example_schedule None None false 0 0 0 0 0 0.
Definition example_row (row : nat) : list byte * scalar := ([], byte_of_Z (Z.of_nat (3 * row + 1))).
Definition example_pad : list byte := replicate 48 x00.

Lemma example_drain_new : NewDrainWithPoll (Some example_publisher) example_schedule 1 = Ok example_drain.
Proof. reflexivity. Qed.

(** Cover, then a fragment, then cover while the window is shut. *)
Definition example_events : list drain_event :=
  [EvEmit 3 1205 false example_row example_pad; EvTick working 1210; EvSend; EvEmit 5 1211 false example_row example_pad;
   EvTick working 1212; EvEmit 6 1295 true example_row example_pad].
Definition example_drained : (Drain * directory) * list drain_output := drain_run example_queue (example_drain, fst example_submitted) example_events.

Lemma example_events_typed : emits_typed example_events.
Proof.
  intros s now refill draws padding Hin. unfold example_events in Hin. rewrite !elem_of_cons in Hin.
  destruct Hin as [[= -> _ _ _]|[?|[?|[[= -> _ _ _]|[?|[[= -> _ _ _]|Hin]]]]]]; try discriminate; try lia. by apply elem_of_nil in Hin.
Qed.

Lemma nonces_never_reused_witness : omap sequence_of example_drained.2 = [3; 5; 6] /\
  omap header_of example_drained.2 = [be 8 3; be 8 5; be 8 6] /\ NoDup (omap header_of example_drained.2).
Proof.
  destruct (nonces_never_reused example_queue example_publisher example_schedule 1 example_drain (fst example_submitted) example_events
    example_drained.1 example_drained.2 example_drain_new example_events_typed (surjective_pairing example_drained)) as (_ & _ & _ & Hn & _).
  split; [vm_compute; reflexivity|]. split; [vm_compute; reflexivity|exact Hn].
Defined.

Lemma work_in_order_witness : length (omap work_of example_drained.2) = 1%nat /\
  sublist (omap work_of example_drained.2 ++ option_list (ready example_drained.1.1) ++ option_list (pulled example_drained.1.1))
    (omap pull_of example_drained.2).
Proof.
  split; [vm_compute; reflexivity|].
  refine (proj1 (work_in_order example_queue example_publisher example_schedule 1 example_drain (fst example_submitted) example_events
    example_drained.1.1 example_drained.1.2 example_drained.2 example_drain_new example_events_typed _)).
  rewrite <- surjective_pairing. apply surjective_pairing.
Defined.

Lemma example_encryption payload : exists w, encryptCellWithPadding (CommPublicKey example_committee) payload example_row (Some example_pad) = Ok w.
Proof.
  unfold encryptCellWithPadding. destruct (EmbedLen <? Z.of_nat ChunkSize) eqn:E; [vm_compute in E; discriminate|].
  rewrite example_committee_key. cbn [mbind result_bind]. rewrite map_map.
  rewrite marshal_cell_ok; [by eexists| |apply Nat.leb_le; vm_compute; reflexivity].
  rewrite (length_pairs (fun row => (encrypt_chunk (pmul example_secret Base) (chunk payload row) (example_row row)).1)
    (fun row => (encrypt_chunk (pmul example_secret Base) (chunk payload row) (example_row row)).2)). by rewrite length_seq.
Qed.

Lemma every_tick_emits_witness : exists d' cell, Emit example_drain 3 1205 false example_row example_pad = (d', Ok cell) /\ length cell = Frame.CellSize.
Proof.
  destruct (every_tick_emits example_drain 3 1205 false example_row example_pad ltac:(cbn; lia) ltac:(lia) example_encryption)
    as (d' & cell & He & Hl & _). exists d', cell. split; [exact He|exact Hl].
Defined.

Definition example_loaded : Drain := fill_send (fill_tick example_queue working 1210 example_drain (fst example_submitted)).1.

Lemma example_pipeline : exists dir, pipeline example_schedule [x05] example_queue example_loaded dir [] example_airlock 1200.
Proof.
  eexists. apply pipe_send, pipe_tick.
  refine (pipe_start example_schedule [x05] example_queue example_publisher 1 example_committee 2 example_cover (fun _ => replicate 48 x00)
    example_drain (fst example_submitted) example_airlock 1200 example_drain_new example_new_eq _). lia.
Qed.

Definition example_offer_ok : bool :=
  match chosen example_loaded 1211, Emit example_loaded 9 1211 false example_row example_pad with
  | Some f, (_, Ok _) =>
      match encryptCellWithPadding (CommPublicKey example_committee) (FragPayload f) example_row (Some example_pad) with
      | Ok w => match validatePayload (take DepositSize w) with Ok _ => true | Err _ => false end
      | Err _ => false end
  | _, _ => false
  end.

(** Emitted at 1211, the work arrives at 1230. *)
Lemma work_gets_its_slot_witness : exists f w d' cell, chosen example_loaded 1211 = Some f /\
  Emit example_loaded 9 1211 false example_row example_pad = (d', Ok cell) /\
  deposits (IngressAccept example_airlock (Some example_publisher) [x05] cell 1230).1 =
    <[DepositID [x05] 9 := take DepositSize w]> (deposits example_airlock).
Proof.
  destruct example_pipeline as [dir Hp]. assert (example_offer_ok = true) as Hok by (vm_compute; reflexivity). unfold example_offer_ok in Hok.
  destruct (chosen example_loaded 1211) as [f|] eqn:Hc; [|discriminate Hok].
  destruct (Emit example_loaded 9 1211 false example_row example_pad) as [d' [cell|]] eqn:He; [|discriminate Hok].
  assert (session d' = example_publisher) as Hsess by (destruct (Emit_ok _ _ _ _ _ _ _ _ He) as [_ _ (Hs & _) _ _ _]; exact Hs).
  pose proof (pipe_emit _ _ _ _ _ _ _ _ 9 1211 false example_row example_pad d' cell Hp ltac:(lia) ltac:(lia) He) as Hp'. rewrite Hc in Hp'.
  destruct (work_gets_its_slot example_schedule [x05] example_queue d' dir (mkFlight 1211 9 (Some f) example_row example_pad cell) []
    example_airlock 1211 1230 f eq_refl example_typed Hp' eq_refl) as (w & Hw & Hdep).
  - split; [vm_compute; discriminate|vm_compute; reflexivity].
  - split; [vm_compute; discriminate|vm_compute; reflexivity].
  - vm_compute. reflexivity.
  - vm_compute. reflexivity.
  - vm_compute. reflexivity.
  - cbn [fl_draws fl_padding fl_cell fl_sequence] in Hw, Hdep. rewrite Hsess in Hw, Hdep.
    change (committee example_publisher) with (CommPublicKey example_committee) in Hw. rewrite Hw in Hok.
    destruct (validatePayload (take DepositSize w)) as [[]|] eqn:Hv; [|discriminate Hok].
    exists f, w, d', cell. split; [reflexivity|split; [reflexivity|]]. exact (proj2 (Hdep eq_refl)).
Defined.

(** Two cover cells leave just before the window opens, uncounted, and arrive just
    after; the work that follows arrives in time and is dropped for the bound. *)
Definition late_arrivals : option (Airlock * Airlock) :=
  match Emit example_loaded 7 1198 false example_row example_pad with
  | (d1, Ok c1) =>
      match Emit d1 8 1199 false example_row example_pad with
      | (d2, Ok c2) =>
          match chosen d2 1211, Emit d2 9 1211 false example_row example_pad with
          | Some _, (_, Ok c3) =>
              let a1 := (IngressAccept example_airlock (Some example_publisher) [x05] c1 1205).1 in
              let a2 := (IngressAccept a1 (Some example_publisher) [x05] c2 1206).1 in
              Some (a2, (IngressAccept a2 (Some example_publisher) [x05] c3 1212).1)
          | _, _ => None
          end
      | _ => None
      end
  | _ => None
  end.

Example late_cover_takes_slot : (fun p => (held p.1 [x05], size (deposits p.1), size (deposits p.2), droppedSession p.2)) <$> late_arrivals =
  Some (2, 2%nat, 2%nat, 1).
Proof. vm_compute. reflexivity. Qed.

Lemma unsynced_pull_lost_witness : exists p f dir', p !! FragID f = Some f /\
  fill_tick example_queue (mkQueueIO true (fun _ => true) (fun _ => true) (fun _ => true) true false) 1210 example_drain (fst example_submitted)
    = (example_drain, dir') /\ stored example_queue dir' (delete (FragID f) p).
Proof.
  destruct (Submit_stored _ _ _ _ _ _ _ _ (stored_empty example_queue ∅ (fun name _ => lookup_empty name)) example_submit) as (added & Hs & _ & Hf).
  assert (insert_all ∅ added <> ∅) as Hne.
  { intros E. assert (match fragmentObject (sha256 example_object) example_object with Ok l => size (insert_all ∅ l) | Err _ => 0%nat end = 3%nat) as E3
      by (vm_compute; reflexivity).
    rewrite (Hf eq_refl), E, map_size_empty in E3. discriminate. }
  destruct (unsynced_pull_lost example_queue example_drain (fst example_submitted) _
    (mkQueueIO true (fun _ => true) (fun _ => true) (fun _ => true) true false) 1210 Hs Hne eq_refl eq_refl eq_refl eq_refl eq_refl eq_refl eq_refl)
    as (f & dir' & Hp & Ht & Hst).
  exists (insert_all ∅ added), f, dir'. split; [exact Hp|split; [exact Ht|exact Hst]].
Defined.
End example.
