(* ===== verification/Publication.v ===== *)
(** From deposit to publication: sealing always yields a full batch of the
    epoch's columns, a verified chain only permutes them, and the release
    publishes what honest depositors sent, whatever else was deposited. *)

From stdpp Require Import base list list_numbers gmap sorting strings.
From Stdlib Require Import ZArith Lia Strings.Byte Sorting.Permutation.
From S2P Require Import Prelude Bytes Hash Checkpoint Kyber Mix Threshold Rounds Airlock.

(** ** Sealing *)

Section order.
Context {A : Type}.
Implicit Types l : list A.

Lemma swap_middle (l1 l2 l3 : list A) a b :
  swap (l1 ++ a :: l2 ++ b :: l3) (length l1) (length l1 + S (length l2)) = l1 ++ b :: l2 ++ a :: l3 /\
  swap (l1 ++ a :: l2 ++ b :: l3) (length l1 + S (length l2)) (length l1) = l1 ++ b :: l2 ++ a :: l3.
Proof.
  assert (forall x y, (l1 ++ x :: l2 ++ y :: l3) !! length l1 = Some x) as L1 by (intros; by apply list_lookup_middle).
  assert (forall x y, (l1 ++ x :: l2 ++ y :: l3) !! (length l1 + S (length l2))%nat = Some y) as L2.
  { intros x y. rewrite lookup_app_r by lia. replace (_ - _)%nat with (S (length l2)) by lia. simpl. by apply list_lookup_middle. }
  assert (forall x y z, <[length l1 := z]> (l1 ++ x :: l2 ++ y :: l3) = l1 ++ z :: l2 ++ y :: l3) as I1.
  { intros x y z. rewrite insert_app_r_alt by lia. by rewrite Nat.sub_diag. }
  assert (forall x y z, <[(length l1 + S (length l2))%nat := z]> (l1 ++ x :: l2 ++ y :: l3) = l1 ++ x :: l2 ++ z :: l3) as I2.
  { intros x y z. rewrite insert_app_r_alt by lia. replace (_ - _)%nat with (S (length l2)) by lia. simpl.
    rewrite insert_app_r_alt by lia. by rewrite Nat.sub_diag. }
  unfold swap. split; rewrite ?L1, ?L2; [rewrite I2, I1|rewrite I1, I2]; done.
Qed.

Lemma split_two l i j a b : (i < j)%nat -> l !! i = Some a -> l !! j = Some b ->
  exists l1 l2 l3, l = l1 ++ a :: l2 ++ b :: l3 /\ i = length l1 /\ j = (length l1 + S (length l2))%nat.
Proof.
  intros Hij Hi Hj. destruct (list_elem_of_split_length _ _ _ Hi) as (l1 & l2 & -> & ->).
  rewrite lookup_app_r in Hj by lia. replace (j - length l1)%nat with (S (j - length l1 - 1)) in Hj by lia. simpl in Hj.
  destruct (list_elem_of_split_length _ _ _ Hj) as (l3 & l4 & -> & E). exists l1, l3, l4. split_and!; [done|done|lia].
Qed.

Lemma swap_permutation l i j : swap l i j ≡ₚ l.
Proof.
  unfold swap at 1. destruct (l !! i) as [a|] eqn:Ei; [|done]. destruct (l !! j) as [b|] eqn:Ej; [|done].
  assert (forall l1 l2 l3 x y, l1 ++ x :: l2 ++ y :: l3 ≡ₚ l1 ++ y :: l2 ++ x :: l3) as Hs by (intros; solve_Permutation).
  assert (<[i := b]> (<[j := a]> l) = swap l i j) as -> by (unfold swap; by rewrite Ei, Ej).
  destruct (lt_eq_lt_dec i j) as [[Hlt| ->]|Hgt].
  - destruct (split_two l i j a b Hlt Ei Ej) as (l1 & l2 & l3 & -> & -> & ->). by rewrite (proj1 (swap_middle l1 l2 l3 a b)).
  - unfold swap. rewrite Ei. rewrite (list_insert_id l j a) by done. by rewrite list_insert_id.
  - destruct (split_two l j i b a Hgt Ej Ei) as (l1 & l2 & l3 & -> & -> & ->). by rewrite (proj2 (swap_middle l1 l2 l3 b a)).
Qed.

Lemma shuffle_down_ok l raws index : (forall i, is_Some (raws i)) -> exists l', shuffle_down index l raws = Ok l'.
Proof.
  intros Hr. revert l. induction index as [|k IH]; intros l; [by exists l|]. cbn [shuffle_down]. unfold randomBelow.
  destruct (_ <=? 0) eqn:E; [reflect_bools; lia|]. destruct (Hr (S k)) as [v ->]. cbn [mbind result_bind]. apply IH.
Qed.

Lemma shuffle_down_permutation l raws index l' : shuffle_down index l raws = Ok l' -> l' ≡ₚ l.
Proof.
  revert l. induction index as [|k IH]; intros l; cbn [shuffle_down]; [by intros [= <-]|].
  destruct (randomBelow _ _) as [p|]; [|done]. cbn [mbind result_bind]. intros Hs. by rewrite (IH _ Hs), swap_permutation.
Qed.
End order.

Lemma shuffleColumns_permutation {A} (l : list A) raws l' : shuffleColumns l raws = Ok l' -> l' ≡ₚ l.
Proof. apply shuffle_down_permutation. Qed.

Section columns.
Context `{HashFunction, KyberGroup}.

(** What the points of one wire column decrypt to, and when they are honestly
    formed. *)
Definition decrypt_points (s : scalar) (pts : list point) : result mix_error (list byte) :=
  chunks ← collect (fun row => decrypt_chunk s (default Null (pts !! (2 * row)%nat)) (default Null (pts !! (2 * row + 1)%nat)))
                   (seq 0 ChunkCount);
  Ok (concat chunks).

Definition honest_points (pts : list point) : Prop := forall row, (row < ChunkCount)%nat -> prime_order (default Null (pts !! (2 * row)%nat)).

(** The result an honestly formed wire cell must give; a cell that is not
    honestly formed may give any. *)
Definition yields (s : scalar) (cell : list byte) (r : result mix_error (list byte)) : Prop :=
  exists pts, parse_cell cell = Ok pts /\ (honest_points pts -> r = decrypt_points s pts).

Lemma parse_cell_length cell pts : parse_cell cell = Ok pts -> length pts = (2 * ChunkCount)%nat.
Proof. intros Hp%collect_ok%Forall2_length. by rewrite length_seq in Hp. Qed.

Lemma parse_cell_take cell : parse_cell cell = parse_cell (take DepositSize cell).
Proof.
  unfold parse_cell. apply collect_ext. intros k Hk%elem_of_seq. cbv beta.
  assert (slice (take DepositSize cell) (k * pointSize) (k * pointSize + pointSize) = slice cell (k * pointSize) (k * pointSize + pointSize))
    as ->; [|done].
  unfold slice. rewrite skipn_firstn_comm, take_take. f_equal. unfold DepositSize, ChunkCount, pointSize in *. lia.
Qed.

(** Parsing succeeds on any two or more cells that parse alone. *)
Lemma ParseWire_total cells : (2 <= length cells)%nat -> Forall (fun cell => exists pts, parse_cell cell = Ok pts) cells ->
  exists b, ParseWire cells = Ok b.
Proof.
  intros Hl Hp. unfold ParseWire. destruct (len cells <? 2) eqn:E; [reflect_bools; lia|].
  assert (exists columns, collect parse_cell cells = Ok columns) as [columns ->].
  { clear Hl E. induction Hp as [|cell cells [pts Hc] _ [cs IH]]; [by exists []|]. exists (pts :: cs). cbn [collect].
    rewrite Hc. cbn [mbind result_bind]. by rewrite IH. }
  cbn [mbind result_bind]. set (b := mkBatch _ _). exists b. rewrite (proj2 (validateBatch_ok b)); [done|].
  exists (length cells). split_and!; [done|apply matrix_rectangular|apply matrix_rectangular].
Qed.

Lemma ParseWire_ok cells b : ParseWire cells = Ok b -> batch_wf b (length cells) /\
  forall col cell, cells !! col = Some cell -> exists pts, parse_cell cell = Ok pts /\
    forall row, (row < ChunkCount)%nat ->
      at_ (batch_x b) row col = default Null (pts !! (2 * row)%nat) /\ at_ (batch_y b) row col = default Null (pts !! (2 * row + 1)%nat).
Proof.
  unfold ParseWire. destruct (len cells <? 2) eqn:E; [done|]. destruct (collect parse_cell cells) as [columns|] eqn:Ec; [|done].
  cbn [mbind result_bind]. set (b0 := mkBatch _ _). destruct (validateBatch (Some b0)) as [[]|]; [|done]. cbn [mbind result_bind].
  intros [= <-]. reflect_bools. split; [split_and!; [lia|apply matrix_rectangular|apply matrix_rectangular]|].
  intros col cell Hcell. apply collect_ok in Ec. destruct (Forall2_lookup_l _ _ _ _ _ Ec Hcell) as (pts & Hpts & Hp).
  exists pts. split; [done|]. intros row Hrow. apply lookup_lt_Some in Hcell. subst b0. cbn [batch_x batch_y].
  rewrite !at_matrix by done. unfold at_. by rewrite Hpts.
Qed.

(** A parsed batch decrypts column by column as its cells do. *)
Lemma ParseWire_yields s cells b (R : list (result mix_error (list byte))) : ParseWire cells = Ok b ->
  Forall2 (fun col r => (forall row, (row < ChunkCount)%nat -> prime_order (at_ (batch_x b) row col)) -> r = decrypt_cell s b col)
    (seq 0 (length cells)) R -> Forall2 (yields s) cells R.
Proof.
  intros Hp HR. destruct (ParseWire_ok _ _ Hp) as [_ Hcol]. pose proof (Forall2_length _ _ _ HR) as Hl. rewrite length_seq in Hl.
  apply Forall2_same_length_lookup_2; [done|]. intros col cell r Hcell Hr. destruct (Hcol col cell Hcell) as (pts & Hpts & Hat).
  exists pts. split; [done|]. intros Hh.
  pose proof (Forall2_lookup_lr _ _ _ _ _ _ HR (lookup_seq_lt 0 _ col (lookup_lt_Some _ _ _ Hcell)) Hr) as E. rewrite Nat.add_0_l in E.
  rewrite E by (intros row Hrow; rewrite (proj1 (Hat row Hrow)); by apply Hh). unfold decrypt_cell, decrypt_points.
  erewrite collect_ext; [reflexivity|]. intros row Hrow%elem_of_seq. cbv beta. by destruct (Hat row ltac:(lia)) as [-> ->].
Qed.

Lemma encrypted_cell key h cell draws padding w : publicPoint key = Ok h -> encryptCellWithPadding key cell draws (Some padding) = Ok w ->
  exists pts, parse_cell w = Ok pts /\ Z.of_nat ChunkSize <= EmbedLen /\ forall row, (row < ChunkCount)%nat ->
    (default Null (pts !! (2 * row)%nat), default Null (pts !! (2 * row + 1)%nat)) = encrypt_chunk h (chunk cell row) (draws row).
Proof.
  intros Hk. unfold encryptCellWithPadding. destruct (EmbedLen <? _) eqn:E; [done|]. rewrite Hk. cbn [mbind result_bind].
  rewrite map_map. set (pts := concat _). assert (length pts = (2 * ChunkCount)%nat) as Hl.
  { unfold pts. rewrite (length_pairs (fun row => (encrypt_chunk h (chunk cell row) (draws row)).1)
      (fun row => (encrypt_chunk h (chunk cell row) (draws row)).2)). by rewrite length_seq. }
  destruct (marshal_cell pts padding) as [cp|] eqn:Em; [|done]. cbn [mbind result_bind]. intros [= <-].
  exists pts. split_and!.
  - unfold marshal_cell in Em. destruct (negb (forallb _ _)); [done|]. destruct (negb _); [done|]. destruct (Nat.ltb _ _); [done|].
    apply (inj Ok) in Em as <-. by apply parse_cell_points.
  - reflect_bools. done.
  - intros row Hrow. destruct (lookup_pairs (fun row => (encrypt_chunk h (chunk cell row) (draws row)).1)
      (fun row => (encrypt_chunk h (chunk cell row) (draws row)).2) ChunkCount row Hrow) as [L1 L2].
    unfold pts. rewrite L1, L2. simpl. symmetry. apply surjective_pairing.
Qed.

Lemma encrypted_yields s key cell draws padding w r : publicPoint key = Ok (pmul s Base) -> length cell = PlainCellSize ->
  encryptCellWithPadding key cell draws (Some padding) = Ok w -> yields s w r -> r = Ok cell.
Proof.
  intros Hk Hl Hw (pts & Hpts & Hy). destruct (encrypted_cell _ _ _ _ _ _ Hk Hw) as (pts' & Hpts' & He & Hat).
  rewrite Hpts in Hpts'. simplify_eq. rewrite Hy.
  - unfold decrypt_points.
    erewrite (collect_ext _ (fun row => Ok (chunk cell row))).
    + rewrite collect_total. cbn [mbind result_bind]. rewrite concat_chunks, take_ge; [done|]. by rewrite Hl, Nat.mul_comm.
    + intros row Hrow%elem_of_seq. specialize (Hat row ltac:(lia)). cbv beta. apply pair_equal_spec in Hat as [-> ->].
      pose proof (decrypt_encrypt_chunk s (chunk cell row) (draws row) (length_chunk cell row Hl ltac:(lia)) He) as Hd.
      unfold encrypt_chunk in Hd. exact Hd.
  - intros row Hrow. specialize (Hat row Hrow). unfold encrypt_chunk in Hat. apply pair_equal_spec in Hat as [-> _]. apply prime_order_base.
Qed.

Lemma validated_parses payload : validatePayload payload = Ok tt -> exists pts, parse_cell (deposit_cell payload) = Ok pts.
Proof.
  unfold validatePayload, ValidateCiphertextColumn. destruct (collect _ _) as [us|] eqn:E; [|done]. intros _. unfold parse_cell.
  revert us E. generalize (seq 0 (2 * ChunkCount)). intros l. induction l as [|k l IH]; intros us; cbn [collect]; [by exists []|].
  destruct (unmarshal _) as [p|]; [|done]. destruct (rejectSmallOrder p); [|done]. cbn [mbind result_bind].
  destruct (collect _ l) as [vs|]; [|done]. intros _. destruct (IH vs eq_refl) as [pts Hpts]. exists (p :: pts). by rewrite Hpts.
Qed.
End columns.

Section sealing.
Context `{HashFunction, KyberGroup}.

Lemma cipher_region w key h cell draws padding : publicPoint key = Ok h ->
  encryptCellWithPadding key cell draws (Some padding) = Ok w -> parse_cell (deposit_cell (take DepositSize w)) = parse_cell w.
Proof.
  intros Hk. unfold encryptCellWithPadding. destruct (EmbedLen <? _); [discriminate|]. rewrite Hk. cbn [mbind result_bind].
  destruct (marshal_cell _ padding) as [cp|] eqn:Em; [|discriminate]. cbn [mbind result_bind]. intros [= <-].
  unfold marshal_cell in Em. destruct (negb (forallb _ _)); [discriminate|]. destruct (negb _) eqn:El; [discriminate|]. destruct (Nat.ltb _ _); [discriminate|].
  apply (inj Ok) in Em as <-. apply negb_false_iff, Nat.eqb_eq in El. cbn [fst].
  change cipherSize with DepositSize in El at 1. revert El. generalize (concat (map marshal (concat (map (fun pair => [pair.1; pair.2])
    (map (fun row => encrypt_chunk h (chunk cell row) (draws row)) (seq 0 ChunkCount)))))). intros l El.
  rewrite (take_app_length' l _ DepositSize) by (symmetry; exact El). symmetry. rewrite parse_cell_take, (parse_cell_take (deposit_cell _)). unfold deposit_cell.
  by rewrite !(take_app_length' l _ DepositSize) by (symmetry; exact El).
Qed.

(** The columns an epoch is sealed from, before the shuffle: the deposits that
    took a slot, and cover in the slots left. *)
Definition source_columns (a : Airlock) (log : list entry) : list (list byte) :=
  map (fun e => deposit_cell e.2) log ++ drop (length log) (cover a).

Lemma seal_columns_source a log : deposits_inv a log -> length (cover a) = Z.to_nat (BatchSize (schedule a)) ->
  seal_columns a ≡ₚ source_columns a log.
Proof.
  intros [Im Il Is _ Ib _ _] Hc. unfold seal_columns, source_columns. rewrite !length_map.
  assert (length (merge_sort id_le (map fst (map_to_list (deposits a)))) = length log) as ->.
  { rewrite (merge_sort_Permutation id_le), length_map, Il, length_map. done. }
  f_equiv.
  - rewrite (merge_sort_Permutation id_le). rewrite map_map.
    assert (map (fun x => deposit_cell (default [] (deposits a !! x.1))) (map_to_list (deposits a)) =
            map (fun x => deposit_cell x.2) (map_to_list (deposits a))) as ->.
    { apply map_ext_in. intros [id p] Hin%list_elem_of_In%elem_of_map_to_list. simpl in *. by rewrite Hin. }
    rewrite Il, map_map. done.
  - assert (map (fun i => default [] (cover a !! i)) (seq (length log) (Z.to_nat (BatchSize (schedule a)) - length log))
      = drop (length log) (cover a)) as ->; [|done].
    rewrite <- Hc, <- length_drop. rewrite <- (map_lookup_seq (drop (length log) (cover a))) at 2.
    rewrite <- (Nat.add_0_r (length log)) at 1. rewrite <- fmap_add_seq, map_map. apply map_ext. intros i. by rewrite lookup_drop.
Qed.

Definition cover_ok (a : Airlock) : Prop := length (cover a) = Z.to_nat (BatchSize (schedule a)) /\
  Forall (fun w => exists draws padding, encryptCellWithPadding (committee_key a) EmptyFragment draws (Some padding) = Ok w) (cover a).

Lemma source_length a log : deposits_inv a log -> cover_ok a -> length (source_columns a log) = Z.to_nat (BatchSize (schedule a)).
Proof.
  intros [_ _ _ _ Ib _ _] [Hc _]. unfold source_columns. rewrite length_app, length_map, length_drop, Hc. unfold entry in *. lia.
Qed.

Lemma source_parses a log h : deposits_inv a log -> cover_ok a -> publicPoint (committee_key a) = Ok h ->
  Forall (fun cell => exists pts, parse_cell cell = Ok pts) (source_columns a log).
Proof.
  intros Hinv [_ Hc] Hk. unfold source_columns. apply Forall_app. split.
  - apply Forall_map. eapply Forall_impl; [apply (inv_valid a log Hinv)|]. intros e He. by apply validated_parses.
  - apply Forall_drop. eapply Forall_impl; [exact Hc|]. intros w (draws & padding & Hw).
    destruct (encrypted_cell _ _ _ _ _ _ Hk Hw) as (pts & Hp & _). by exists pts.
Qed.

(** A successful seal. *)
Lemma airlock_Seal_ok a now raws padding a' s : Seal a now raws padding = (a', Ok s) ->
  exists columns batch, shuffleColumns (seal_columns a) raws = Ok columns /\ ParseWire columns = Ok batch /\
    s = mkSealed (release_epoch a) (sha256 (batch_message batch)) (SealedColumns s) (Some batch) /\ a' = set_sealed a /\
    MarshalWireWithPadding (Some batch) (Some padding) = Ok (SealedColumns s).
Proof.
  unfold Seal. destruct (sealed a); [done|]. destruct (now <? closes a); [done|]. destruct (ReleaseAt _ _) as [release|]; [|done].
  destruct (negb (now <? release)); [done|]. destruct (shuffleColumns _ _) as [columns|] eqn:E1; [|done]. cbn [mbind result_bind].
  destruct (ParseWire columns) as [batch|] eqn:E2; [|done]. cbn [wrap mbind result_bind].
  destruct (MarshalWireWithPadding _ _) as [cells|] eqn:E3; [|done]. cbn [wrap mbind result_bind].
  destruct (BatchDigest (Some batch)) as [d|] eqn:E4; [|done]. cbn [wrap mbind result_bind]. intros [= <- <-].
  apply BatchDigest_inv in E4 as (b & n & [= <-] & _ & ->). exists columns, batch. by split_and!.
Qed.

Lemma Seal_batch_wf a now raws padding s b : snd (Seal a now raws padding) = Ok s -> SealedBatch s = Some b -> exists n, batch_wf b n.
Proof.
  intros Hs Hb. destruct (Seal a now raws padding) as [a' r] eqn:E. cbn [snd] in Hs. subst r.
  destruct (airlock_Seal_ok _ _ _ _ _ _ E) as (columns & b' & _ & Hp & Es & _). rewrite Es in Hb. cbn [SealedBatch] in Hb. simplify_eq.
  exists (length columns). by destruct (ParseWire_ok _ _ Hp).
Qed.
End sealing.

Section epoch.
Context `{HashFunction, KyberGroup}.

Lemma committee_point c : validateThresholdCommittee c = Ok tt -> exists h, publicPoint (CommPublicKey c) = Ok h.
Proof.
  unfold validateThresholdCommittee. destruct (isZeroCommitteeID _); [done|].
  destruct (_ =? 0); [done|]. destruct ((len _ <? _) || (_ <? _)); [done|]. destruct ((CommThreshold c <? 2) || _); [done|].
  destruct (publicPoint (CommPublicKey c)) as [p|]; [|done]. by exists p.
Qed.

Lemma NewAirlock_ok s c epoch draws paddings a : NewAirlock s c epoch draws paddings = Ok a -> schedule_typed s ->
  schedule_validate s = Ok tt /\ validateThresholdCommittee c = Ok tt /\ deposits_inv a [] /\ cover_ok a /\ schedule a = s /\
  committee_key a = CommPublicKey c /\ release_epoch a = epoch /\ sealed a = false /\ DepositWindow s epoch = Ok (opens a, closes a).
Proof.
  intros Hnew Ht. unfold NewAirlock in Hnew. destruct (schedule_validate s) as [[]|] eqn:Hv; [|done]. cbn [mbind result_bind] in Hnew.
  destruct (validateThresholdCommittee c) as [[]|] eqn:Hc; [|done]. cbn [wrap mbind result_bind] in Hnew.
  destruct (DepositWindow s epoch) as [w|]; [|done]. cbn [mbind result_bind] in Hnew.
  destruct (collect _ _) as [cols|] eqn:Ec; [|done]. cbn [wrap mbind result_bind] in Hnew. apply (inj Ok) in Hnew as <-.
  pose proof (schedule_bounds s Hv Ht) as (_ & _ & Hb & Hm). apply collect_ok in Ec.
  split_and!; try done; cbn [opens closes].
  - apply deposits_inv_fresh; simpl; [done|done|lia|lia].
  - split; cbn [cover schedule committee_key]; [by rewrite <- (Forall2_length _ _ _ Ec), length_seq|].
    eapply Forall2_Forall_r; [exact Ec|]. apply Forall_forall. intros i _ w' Hw. by exists (draws i), (paddings i).
  - by destruct w.
Qed.

(** Everything a run of deposits leaves as it was. *)
Lemma run_keeps a calls a' log : deposits_inv a [] -> cover_ok a -> deposit_run a calls = (a', log) ->
  deposits_inv a' log /\ cover_ok a' /\ schedule a' = schedule a /\ committee_key a' = committee_key a /\ closes a' = closes a /\
  sealed a' = sealed a /\ release_epoch a' = release_epoch a /\ cover a' = cover a.
Proof.
  intros Hinv Hc Hrun. pose proof (deposit_run_inv a calls Hinv) as Hi. rewrite Hrun in Hi.
  destruct Hi as (Hi & Hs & Hco & Hcl & Hse & Hre & Hk). unfold cover_ok in *. destruct Hc. rewrite Hs, Hco, Hk. by split_and!.
Qed.
End epoch.

(** Every epoch seals to the same size: once the window has closed and before
    the release, with a working random source, sealing succeeds after any run of
    deposits, full, empty or hostile; the sealed batch has exactly the epoch's
    batch size of full-size cells, which are the deposits that took a slot and
    cover in the slots left, in another order; and afterwards the airlock takes
    no deposit and seals nothing again. *)
Theorem epoch_seals `{HashFunction, KyberGroup} s c epoch draws paddings a0 calls a log release now raws padding :
  NewAirlock s c epoch draws paddings = Ok a0 -> schedule_typed s -> deposit_run a0 calls = (a, log) ->
  ReleaseAt s epoch = Ok release -> closes a0 <= now < release -> (forall i, is_Some (raws i)) ->
  (Z.to_nat (BatchSize s) * 48 <= length padding)%nat ->
  exists sealed_batch, Seal a now raws padding = (set_sealed a, Ok sealed_batch) /\
    len (SealedColumns sealed_batch) = BatchSize s /\ Forall (fun cell => length cell = WireCellSize) (SealedColumns sealed_batch) /\
    (exists columns, columns ≡ₚ source_columns a0 log /\ SealedBatch sealed_batch = (match ParseWire columns with Ok b => Some b | Err _ => None end)) /\
    (forall session sequence payload t, Deposit (set_sealed a) session sequence payload t = (set_sealed a, Err ErrSealed)) /\
    (forall t raws padding, Seal (set_sealed a) t raws padding = (set_sealed a, Err ErrSealed)).
Proof.
  intros Hnew Ht Hrun Hrel Hnow Hraws Hpad. destruct (NewAirlock_ok _ _ _ _ _ _ Hnew Ht) as (Hv & Hc & Hi0 & Hc0 & Hs0 & Hk0 & He0 & Hse0 & _).
  destruct (run_keeps _ _ _ _ Hi0 Hc0 Hrun) as (Hi & Hco & Hs & Hk & Hcl & Hse & He & Hcov).
  rewrite Hs0 in Hs. destruct (committee_point c Hc) as [h Hh].
  destruct (shuffle_down_ok (seal_columns a) raws (length (seal_columns a) - 1) Hraws) as [columns Hsh].
  pose proof (shuffleColumns_permutation _ _ _ Hsh) as Hp. rewrite (seal_columns_source a log Hi (proj1 Hco)) in Hp.
  pose proof (source_length a log Hi Hco) as Hl. rewrite Hs in Hl. pose proof (schedule_bounds s Hv Ht) as (_ & _ & Hb & _).
  destruct (ParseWire_total columns) as [b Hb'].
  { rewrite Hp, Hl. lia. }
  { rewrite Hp. eapply source_parses; [done|done|]. rewrite Hk, Hk0. exact Hh. }
  destruct (ParseWire_ok _ _ Hb') as [Hwf _]. rewrite Hp, Hl in Hwf.
  destruct (marshal_cells_ok b (seq 0 (Z.to_nat (BatchSize s))) padding) as (cells & Hm & Hf).
  { rewrite length_seq. exact Hpad. }
  assert (MarshalWireWithPadding (Some b) (Some padding) = Ok cells) as Hmw.
  { unfold MarshalWireWithPadding. rewrite (proj2 (validateBatch_ok b)) by eauto. cbn [mbind result_bind].
    rewrite (Len_wf b _ Hwf). exact Hm. }
  exists (mkSealed epoch (sha256 (batch_message b)) cells (Some b)). split_and!.
  - unfold Seal. rewrite Hse, Hse0, Hcl, Hs, He, He0, Hrel. destruct (now <? closes a0) eqn:E1; [reflect_bools; lia|].
    destruct (now <? release) eqn:E2; [|reflect_bools; lia]. cbn [negb]. unfold shuffleColumns. rewrite Hsh. cbn [mbind result_bind].
    rewrite Hb'. cbn [wrap mbind result_bind]. rewrite Hmw. cbn [wrap mbind result_bind].
    rewrite (BatchDigest_ok b _ Hwf). done.
  - cbn [SealedColumns]. rewrite <- (Forall2_length _ _ _ Hf), length_seq. lia.
  - cbn [SealedColumns]. eapply Forall2_Forall_r; [exact Hf|]. apply Forall_forall. intros col _ cell [Hlen _]. exact Hlen.
  - exists columns. split; [|by rewrite Hb']. rewrite Hp. unfold source_columns. by rewrite Hcov.
  - done.
  - done.
Qed.

(** ** The shuffle chain *)

Section verified.
Context `{HashFunction, SignatureScheme, KyberGroup, !Shuffles}.

(** The accepted shuffle proofs of a chain, each over the batch before it, are
    of true statements. *)
Fixpoint chain_sound (key : list byte) (current : Batch) (rounds : list ChainRound) : Prop :=
  match rounds with
  | [] => True
  | r :: rounds => forall out, ParseWire (OutputCells r) = Ok out ->
      round_sound key (mkSignedRound (mkRound (Some current) (Some out) (ChainProof r)) (ChainReceipt r)) /\ chain_sound key out rounds
  end.

(** One member's turn: its mixer signed a receipt for this committee, epoch,
    input, output and place. *)
Definition signed_turn (c : ThresholdCommittee) (b out : Batch) (member : PublicMember) (mixer : list byte) (r : ChainRound) : Prop :=
  let receipt := ChainReceipt r in
  Member r = MemberIdx member /\ MixerPublic receipt = mixer /\
  RecContext receipt = mkRoundContext (CommID c) (CommEpoch c) (sha256 (batch_message b)) (MemberIdx member) /\
  InputDigest receipt = sha256 (batch_message b) /\ OutputDigest receipt = sha256 (batch_message out) /\
  verify mixer (receiptSigningMessage receipt (CommPublicKey c)) (RecSignature receipt) = true.

Inductive turns (secret : scalar) (c : ThresholdCommittee) (n : nat) : Batch -> list (PublicMember * list byte) -> list ChainRound -> Batch -> Prop :=
| turns_nil b : turns secret c n b [] [] b
| turns_cons b out mixed member mixer positions r rounds :
    ParseWire (OutputCells r) = Ok out -> signed_turn c b out member mixer r ->
    (forall cell, cell ∈ ciphertexts out -> cell ∉ ciphertexts b) -> mixes secret n b out ->
    turns secret c n out positions rounds mixed -> turns secret c n b ((member, mixer) :: positions) (r :: rounds) mixed.

Lemma turns_mixes secret c n b positions rounds mixed : turns secret c n b positions rounds mixed -> mixes secret n b mixed.
Proof.
  induction 1 as [b|b out mixed member mixer positions r rounds _ _ _ Hm _ IH]; [apply mixes_refl|]. exact (mixes_trans _ _ _ _ _ Hm IH).
Qed.

Lemma requireRerandomisation_ok b out : requireRerandomisation b out = Ok tt -> forall cell, cell ∈ ciphertexts out -> cell ∉ ciphertexts b.
Proof.
  unfold requireRerandomisation. destruct (existsb _ _) eqn:E; [done|]. intros _ cell Ho Hi.
  assert (existsb (fun cell => bool_decide (cell ∈ ciphertexts b)) (ciphertexts out) = true) as E'; [|congruence].
  apply existsb_exists. exists cell. split; [by apply list_elem_of_In|by apply bool_decide_eq_true].
Qed.

Lemma verify_rounds_ok secret c b n positions rounds mixed : publicPoint (CommPublicKey c) = Ok (pmul secret Base) ->
  batch_wf b n -> length positions = length rounds -> verify_rounds c b positions rounds = Ok mixed ->
  chain_sound (CommPublicKey c) b rounds -> batch_wf mixed n /\ turns secret c n b positions rounds mixed.
Proof.
  intros Hk. revert b rounds. induction positions as [|[member mixer] positions IH]; intros b [|r rounds] Hb Hl Hv Hs;
    [simplify_eq/=; split; [done|constructor]|done|done|].
  cbn [verify_rounds] in Hv. destruct (negb (Member r =? _)) eqn:E1; [done|]. destruct (negb (Nat.eqb (length mixer) 32)); [done|].
  destruct (negb (bool_decide (CtxCommittee _ = _)) || _) eqn:E2; [done|]. apply orb_false_iff in E2 as [E2 E3].
  destruct (negb (CtxRound _ =? _)) eqn:E4; [done|]. destruct (negb (bool_decide (MixerPublic _ = _))) eqn:E5; [done|].
  destruct (negb (Nat.eqb (length (OutputCells r)) _)) eqn:E6; [done|]. destruct (ParseWire (OutputCells r)) as [out|] eqn:Ep; [|done].
  destruct (VerifySignedRound _ _ _ _ _) as [[]|] eqn:Er; [|done]. destruct (requireRerandomisation b out) as [[]|] eqn:Ee; [|done].
  cbn [mbind result_bind] in Hv. reflect_bools. destruct (Hs out Ep) as [Hr Hs']. apply Nat.eqb_eq in E6.
  apply VerifySignedRound_ok in Er as (b0 & out0 & n0 & m0 & [= <-] & [= <-] & Hb0 & Ho & Hbid & Hin & Hout & _ & Hsig & Hsh).
  assert (n0 = n) as -> by (rewrite <- (Len_wf b n0 Hb0); by apply Len_wf).
  destruct (verifyShuffle_reencrypts _ _ b out n m0 _ _ Hk Hb Ho Hsh) as [<- Hre].
  { intros cs Hcs. rewrite <- (Len_wf b n Hb). by apply (Hr b out). }
  destruct (IH out rounds Ho ltac:(simpl in Hl; lia) Hv Hs') as [Hm Ht]. split; [done|].
  econstructor; [done| |by apply requireRerandomisation_ok|by apply reencrypts_mixes|done].
  unfold signed_turn. destruct (RecContext (ChainReceipt r)) as [ci ep bi ro] eqn:Ec. cbn [CtxCommittee CtxEpoch CtxRound CtxBatchID] in *.
  subst. by split_and!.
Qed.

Lemma VerifyChain_ok secret c mixers s releaseEpoch rounds mixed b : publicPoint (CommPublicKey c) = Ok (pmul secret Base) ->
  VerifyChain c mixers s releaseEpoch rounds = Ok mixed -> SealedBatch s = Some b -> chain_sound (CommPublicKey c) b rounds ->
  exists n, batch_wf b n /\ batch_wf mixed n /\ SealedEpoch s = releaseEpoch /\ SealedDigest s = sha256 (batch_message b) /\
    length mixers = length (CommMembers c) /\ turns secret c n b (zip (CommMembers c) mixers) rounds mixed.
Proof.
  intros Hk Hv Hb Hs. unfold VerifyChain in Hv. destruct (validateThresholdCommittee c) as [[]|]; [|done]. cbn [wrap mbind result_bind] in Hv.
  rewrite Hb in Hv. destruct (negb (SealedEpoch s =? releaseEpoch)) eqn:E1; [done|]. destruct (BatchDigest (Some b)) as [d|] eqn:Ed; [|done].
  cbn [wrap mbind result_bind] in Hv. destruct (negb (bool_decide (d = SealedDigest s))) eqn:E2; [done|].
  destruct (negb (Nat.eqb (length mixers) _)) eqn:E3; [done|]. destruct (negb (Nat.eqb (length rounds) _)) eqn:E4; [done|]. reflect_bools.
  apply Nat.eqb_eq in E3, E4. apply BatchDigest_inv in Ed as (b' & n & [= <-] & Hwf & ->). exists n.
  destruct (verify_rounds_ok secret c b n (zip (CommMembers c) mixers) rounds mixed Hk Hwf) as [Hm Ht]; [|done|done|by split_and!].
  rewrite length_zip. lia.
Qed.
End verified.

(** A verified chain is a turn of every member and nothing else: each member of
    the committee, in committee order, signed a round for this committee, epoch
    and place from the batch of the round before, no ciphertext of a round's
    input reappears in its output, and so the holder of the committee's secret
    decrypts from the last output exactly what the sealed batch holds, in another
    order.  Accepted proofs are assumed sound. *)
Theorem verified_chain `{HashFunction, SignatureScheme, KyberGroup, !Shuffles} secret c mixers s releaseEpoch rounds mixed b :
  publicPoint (CommPublicKey c) = Ok (pmul secret Base) -> VerifyChain c mixers s releaseEpoch rounds = Ok mixed ->
  SealedBatch s = Some b -> chain_sound (CommPublicKey c) b rounds ->
  SealedEpoch s = releaseEpoch /\ length mixers = length (CommMembers c) /\
  turns secret c (Len (Some b)) b (zip (CommMembers c) mixers) rounds mixed /\
  Len (Some mixed) = Len (Some b) /\ plain_cells secret mixed (Len (Some b)) ≡ₚ plain_cells secret b (Len (Some b)).
Proof.
  intros Hk Hv Hb Hs. destruct (VerifyChain_ok _ _ _ _ _ _ _ _ Hk Hv Hb Hs) as (n & Hwf & Hm & He & _ & Hl & Ht).
  rewrite (Len_wf b n Hwf), (Len_wf mixed n Hm). split_and!; [done..|]. by eapply mixes_plain, turns_mixes.
Qed.

(** ** The release *)

Definition fragment_of (r : result mix_error (list byte)) : option (list byte) :=
  match r with Ok cell => if IsCover cell then None else Some cell | Err _ => None end.
Definition is_err (r : result mix_error (list byte)) : bool := match r with Err _ => true | Ok _ => false end.

Lemma release_columns_eq columns : release_columns columns = (omap fragment_of columns, len (List.filter is_err columns)).
Proof.
  unfold release_columns. enough (forall acc n, fold_left (fun acc column =>
      match column with
      | Err _ => (fst acc, snd acc + 1)
      | Ok cell => if IsCover cell then acc else (fst acc ++ [cell], snd acc)
      end) columns (acc, n) = (acc ++ omap fragment_of columns, n + len (List.filter is_err columns))) as Hg by apply Hg.
  induction columns as [|[cell|e] columns IH]; intros acc n; cbn [fold_left]; [simpl; by rewrite app_nil_r, Z.add_0_r|..].
  - destruct (IsCover cell) eqn:E; cbn [fst snd]; rewrite IH; simpl; rewrite E; [done|]. by rewrite <- app_assoc.
  - cbn [fst snd]. rewrite IH. simpl. f_equal. lia.
Qed.

(** A result is a fragment, an error or cover. *)
Lemma release_count columns : len (omap fragment_of columns) + len (List.filter is_err columns) <= len columns.
Proof.
  unfold omap. induction columns as [|[cell|e] columns IH]; [done|..]; cbn [list_omap fragment_of List.filter is_err length] in *; [|lia].
  destruct (IsCover cell); cbn [length]; lia.
Qed.

Lemma release_permutes columns columns' : columns ≡ₚ columns' ->
  omap fragment_of columns ≡ₚ omap fragment_of columns' /\ len (List.filter is_err columns) = len (List.filter is_err columns').
Proof.
  intros Hp. split; [by rewrite Hp|]. f_equal. induction Hp as [|r l l' _ IH|r1 r2 l|l1 l2 l3 _ IH1 _ IH2]; simpl; [done|..].
  - destruct (is_err r); simpl; by rewrite IH.
  - by destruct (is_err r1), (is_err r2).
  - congruence.
Qed.

Section release.
Context `{HashFunction, KyberGroup}.

(** A payload an honest depositor would send for a cell. *)
Definition carries (key : list byte) (e : entry) (cell : list byte) : Prop :=
  length cell = PlainCellSize /\ IsCover cell = false /\
  exists draws padding w, encryptCellWithPadding key cell draws (Some padding) = Ok w /\ e.2 = take DepositSize w.

Lemma carried_yields s key e cell r : publicPoint key = Ok (pmul s Base) -> carries key e cell ->
  yields s (deposit_cell e.2) r -> r = Ok cell.
Proof.
  intros Hk (Hl & _ & draws & padding & w & Hw & He) (pts & Hp & Hy). rewrite He, (cipher_region _ _ _ _ _ _ Hk Hw) in Hp.
  eapply encrypted_yields; [done|done|done|]. by exists pts.
Qed.

Lemma IsCover_empty : IsCover EmptyFragment = true.
Proof. done. Qed.

(** What the source columns yield is released: the honest cells among them, and
    at most one fragment or failure per deposit. *)
Lemma released_source s a log sent R : publicPoint (committee_key a) = Ok (pmul s Base) -> cover_ok a ->
  map fst sent ⊆+ log -> Forall (fun ec => carries (committee_key a) ec.1 ec.2) sent ->
  Forall2 (yields s) (source_columns a log) R ->
  map snd sent ⊆+ omap fragment_of R /\ len (omap fragment_of R) + len (List.filter is_err R) <= len log.
Proof.
  intros Hk [_ Hc] [rest Hsent]%submseteq_Permutation Hs HR. unfold source_columns in HR.
  apply Forall2_app_inv_l in HR as (RL & RC & HL & HC & ->). rewrite omap_app, List.filter_app, !length_app.
  assert (omap fragment_of RC = [] /\ List.filter is_err RC = []) as [-> ->].
  { apply Forall_drop with (n := length log) in Hc. clear HL. induction HC as [|w r ws RC Hy _ IH]; [done|].
    apply Forall_cons in Hc as [(draws & padding & Hw) Hc]. rewrite (encrypted_yields _ _ EmptyFragment _ _ _ _ Hk eq_refl Hw Hy).
    unfold omap in *. cbn [list_omap fragment_of List.filter is_err]. rewrite IsCover_empty. by apply IH. }
  rewrite app_nil_r. cbn [length]. split.
  - destruct (Permutation_Forall2 (Permutation_map (fun e => deposit_cell e.2) Hsent) HL) as (R' & Hp & HL').
    rewrite (proj1 (release_permutes _ _ Hp)). rewrite map_app in HL'. apply Forall2_app_inv_l in HL' as (R1 & R2 & H1' & _ & ->).
    rewrite omap_app. assert (omap fragment_of R1 = map snd sent) as ->; [|apply submseteq_inserts_r; done].
    clear -H1' Hs Hk. revert R1 H1'. induction sent as [|[e cell] sent IH]; intros R1 H1'; [by inversion H1'|].
    simpl in H1'. apply Forall2_cons_inv_l in H1' as (r & R1' & Hy & H1' & ->). apply Forall_cons in Hs as [Hcar Hs]. simpl in Hcar.
    rewrite (carried_yields _ _ _ _ _ Hk Hcar Hy). unfold omap in *. cbn [list_omap fragment_of map snd]. destruct Hcar as (_ & -> & _). by rewrite (IH Hs R1' H1').
  - pose proof (release_count RL) as Hcount. apply Forall2_length in HL. rewrite length_map in HL. rewrite <- HL in Hcount.
    rewrite !Nat.add_0_r. exact Hcount.
Qed.
End release.

Section published.
Context `{HashFunction, SignatureScheme, KyberGroup, !Shuffles, !Sharing, !RepProofs}.

(** The columns a quorum recovers from a mixed batch are, up to order, what the
    cells of the sealed batch yield. *)
Lemma recovered_yields secret n b mixed columns cells : ParseWire cells = Ok b -> length cells = n -> mixes secret n b mixed ->
  length columns = n ->
  (forall col, (col < n)%nat -> (forall row, (row < ChunkCount)%nat -> prime_order (at_ (batch_x mixed) row col)) ->
     columns !! col = Some (decrypt_cell secret mixed col)) ->
  exists R, columns ≡ₚ R /\ Forall2 (yields secret) cells R.
Proof.
  intros Hp Hl (perm & Hperm & Hm) Hc Hcol.
  assert (length perm = n) as Hpl by (by rewrite Hperm, length_seq).
  assert (Forall2 (fun i r => (forall row, (row < ChunkCount)%nat -> prime_order (at_ (batch_x b) row i)) -> r = decrypt_cell secret b i)
    perm columns) as HR.
  { apply Forall2_same_length_lookup_2; [lia|]. intros j i r Hi Hr Hh. destruct (Hm j i Hi) as [<- Hh'].
    rewrite (Hcol j) in Hr; [by simplify_eq|by apply lookup_lt_Some in Hr; lia|by apply Hh']. }
  destruct (Permutation_Forall2 Hperm HR) as (R & HpR & HR'). exists R. split; [done|].
  eapply ParseWire_yields; [done|]. by rewrite Hl.
Qed.

Lemma VerifyChain_key c mixers s releaseEpoch rounds mixed : VerifyChain c mixers s releaseEpoch rounds = Ok mixed ->
  exists b, SealedBatch s = Some b.
Proof.
  unfold VerifyChain. destruct (validateThresholdCommittee c) as [[]|]; [|done]. cbn [wrap mbind result_bind].
  destruct (SealedBatch s) as [b|]; [by exists b|done].
Qed.
End published.

(** C1: What was deposited is published, and nothing else is.  An epoch's airlock is
    filled by any run of deposits, sealed, mixed by a chain that verifies, and
    released with verified partials of a quorum.  Then the release succeeds; for
    any of the deposits that took a slot and carry the encryption of a cell, those
    cells are among the fragments, each as often as it was sent, whatever the other
    deposits held; and the fragments and the undecryptable columns together are no
    more than the deposits, so that cover never surfaces.  If all deposits carry
    cells, the fragments are exactly these cells in some order. *)
Theorem deposits_published `{HashFunction, SignatureScheme, KyberGroup, !Shuffles, !Sharing, !RepProofs}
  s c secret coefficients epoch draws paddings a0 calls a log now raws padding a' sealed_batch b mixers rounds mixed partials
  (visit : nat -> nat -> list (Z * list point) -> list (Z * list point)) (sent : list (entry * list byte)) :
  NewAirlock s c epoch draws paddings = Ok a0 -> schedule_typed s -> dealt c secret coefficients ->
  deposit_run a0 calls = (a, log) -> Seal a now raws padding = (a', Ok sealed_batch) ->
  VerifyChain c mixers sealed_batch epoch rounds = Ok mixed ->
  SealedBatch sealed_batch = Some b -> chain_sound (CommPublicKey c) b rounds ->
  Forall (fun p => VerifyPartialDecryption c (Some mixed) (Some p) = Ok tt /\ partial_sound c mixed p) partials ->
  NoDup (members_of partials) -> CommThreshold c <= len partials -> (forall col row l, visit col row l ≡ₚ l) ->
  map fst sent ⊆+ log -> Forall (fun ec => carries (CommPublicKey c) ec.1 ec.2) sent ->
  exists fragments undecryptable, Release c (Some mixed) (map Some partials) visit = Ok (fragments, undecryptable) /\
    map snd sent ⊆+ fragments /\ 0 <= undecryptable /\ len fragments + undecryptable <= len log /\
    (map fst sent ≡ₚ log -> fragments ≡ₚ map snd sent /\ undecryptable = 0).
Proof.
  intros Hnew Ht Hd Hrun Hseal Hv Hb Hs Hp Hnd Hq Hvisit Hsent Hcar.
  destruct (NewAirlock_ok _ _ _ _ _ _ Hnew Ht) as (_ & Hc & Hi0 & Hc0 & Hs0 & Hk0 & _).
  destruct (run_keeps _ _ _ _ Hi0 Hc0 Hrun) as (Hi & Hco & Hsch & Hk & _). rewrite Hk0 in Hk.
  pose proof (Rounds.committee_key c secret coefficients Hc Hd) as Hkey.
  destruct (airlock_Seal_ok _ _ _ _ _ _ Hseal) as (cells & b' & Hsh & Hpw & Es & _). rewrite Es in Hb. cbn [SealedBatch] in Hb. simplify_eq.
  destruct (VerifyChain_ok secret _ _ _ _ _ _ b Hkey Hv ltac:(by rewrite Es) Hs) as (n & Hwf & Hm & _ & _ & _ & Hturns).
  destruct (threshold_columns c secret coefficients mixed n partials visit Hc Hd Hm Hp Hnd Hq Hvisit) as (columns & Hcols & Hlen & Hcol).
  destruct (ParseWire_ok _ _ Hpw) as [Hwf' _].
  assert (length cells = n) as Hn by (rewrite <- (Len_wf b n Hwf); symmetry; by apply Len_wf).
  destruct (recovered_yields secret n b mixed columns cells Hpw Hn (turns_mixes _ _ _ _ _ _ _ Hturns) Hlen Hcol) as (R & HpR & HR).
  pose proof (shuffleColumns_permutation _ _ _ Hsh) as Hperm. rewrite (seal_columns_source a log Hi (proj1 Hco)) in Hperm.
  destruct (Permutation_Forall2 Hperm HR) as (R' & HpR' & HR').
  destruct (released_source secret a log sent R' ltac:(by rewrite Hk) Hco Hsent ltac:(by rewrite Hk) HR') as [Hsub Hcount].
  destruct (release_permutes columns R' (transitivity HpR HpR')) as [Hfr Her].
  exists (omap fragment_of columns), (len (List.filter is_err columns)). rewrite <- Her, <- Hfr in Hcount. rewrite <- Hfr in Hsub. split_and!.
  - unfold Release. rewrite Hcols. cbn [wrap mbind result_bind]. by rewrite release_columns_eq.
  - done.
  - lia.
  - done.
  - intros Hall. apply Permutation_length in Hall. rewrite length_map in Hall.
    pose proof (submseteq_length _ _ Hsub) as Hle. rewrite length_map in Hle. split; [|lia]. symmetry.
    apply submseteq_length_Permutation; [done|]. rewrite length_map. lia.
Qed.

(** ** Witnesses *)

Section example.
#[local] Existing Instance example_hash.
#[local] Existing Instance example_signatures.
#[local] Existing Instance gf_group.
#[local] Existing Instance gf_shuffles.
#[local] Existing Instance gf_sharing.
#[local] Existing Instance gf_rep_proofs.

Lemma example_epoch_start : closes example_airlock = 1290.
Proof. vm_compute. reflexivity. Qed.

Lemma epoch_seals_witness : exists sealed_batch,
  Seal example_full 1295 (fun _ => Some 1) (replicate 144 x00) = (set_sealed example_full, Ok sealed_batch) /\
  len (SealedColumns sealed_batch) = 3.
Proof.
  destruct (epoch_seals example_schedule example_committee 2 example_cover (fun _ => replicate 48 x00) example_airlock example_calls
    example_full (deposit_run example_airlock example_calls).2 1300 1295 (fun _ => Some 1) (replicate 144 x00)
    example_new_eq example_typed) as (sealed_batch & Hs & Hl & _).
  - unfold example_full. apply surjective_pairing.
  - vm_compute. reflexivity.
  - rewrite example_epoch_start. lia.
  - intros _. by exists 1.
  - rewrite length_replicate. apply Nat.leb_le. vm_compute. reflexivity.
  - exists sealed_batch. split; [exact Hs|exact Hl].
Defined.

(** The sealed batch of the full epoch and an honest chain of its three members. *)
Definition example_sealed : result airlock_error Sealed := snd (Seal example_full 1295 (fun _ => Some 1) (replicate 144 x00)).

Fixpoint example_turns (members : list Z) (current : Batch) : list ChainRound :=
  match members with
  | [] => []
  | m :: members =>
      match Shuffle example_committee m (Some current) (replicate 64 (byte_of_Z (m + 17))) (replicate 54 (byte_of_Z (m + 7))) (replicate 144 x00) with
      | Ok (r, out) => r :: example_turns members out
      | Err _ => []
      end
  end.
Definition example_chain_mixers : list (list byte) := map (fun m => public (replicate 64 (byte_of_Z (m + 17)))) [0; 1; 2].

Lemma example_chain_ok : exists s b mixed, example_sealed = Ok s /\ SealedBatch s = Some b /\
  VerifyChain example_committee example_chain_mixers s 2 (example_turns [0; 1; 2] b) = Ok mixed.
Proof.
  assert (match example_sealed with
          | Ok s => match SealedBatch s with
                    | Some b => match VerifyChain example_committee example_chain_mixers s 2 (example_turns [0; 1; 2] b) with
                                | Ok _ => true | Err _ => false end
                    | None => false end
          | Err _ => false end = true) as E by (vm_compute; reflexivity).
  destruct example_sealed as [s|]; [|discriminate E]. destruct (SealedBatch s) as [b|] eqn:Hb; [|discriminate E].
  destruct (VerifyChain _ _ _ _ _) as [mixed|] eqn:Hv; [|discriminate E]. exists s, b, mixed. split; [reflexivity|split; [exact Hb|exact Hv]].
Qed.

(** The instance's proofs are sound wherever the input is a batch. *)
Lemma example_chain_sound key b n rounds : batch_wf b n -> chain_sound key b rounds.
Proof.
  revert b n. induction rounds as [|r rounds IH]; intros b n Hb; [exact I|]. intros out Hout.
  destruct (ParseWire_ok _ _ Hout) as [Ho _]. split; [|by eapply IH].
  intros b0 b' h cs [= <-] [= <-] _ _. destruct Hb as (H2 & Hx & Hy). rewrite (Len_wf b n) by (by split_and!). by apply gf_shuffle_sound.
Qed.

Lemma example_sealed_wf s b : example_sealed = Ok s -> SealedBatch s = Some b -> exists n, batch_wf b n.
Proof. apply Seal_batch_wf. Qed.

Lemma verified_chain_witness : exists s b mixed, example_sealed = Ok s /\ SealedBatch s = Some b /\
  turns example_secret example_committee (Len (Some b)) b (zip (CommMembers example_committee) example_chain_mixers)
    (example_turns [0; 1; 2] b) mixed.
Proof.
  destruct example_chain_ok as (s & b & mixed & Hs & Hb & Hv). destruct (example_sealed_wf s b Hs Hb) as [n Hwf].
  destruct (verified_chain example_secret example_committee example_chain_mixers s 2 _ mixed b example_committee_key Hv Hb
    (example_chain_sound _ b n _ Hwf)) as (_ & _ & Ht & _).
  exists s, b, mixed. split; [exact Hs|split; [exact Hb|exact Ht]].
Defined.
Definition example_sent : list (entry * list byte) :=
  [(([x02], 1, example_payload x64), example_cell x64); (([x01], 1, example_payload x62), example_cell x62);
   (([x01], 0, example_payload x61), example_cell x61)].

Lemma example_log_eq : (deposit_run example_airlock example_calls).2 = map fst example_sent.
Proof. vm_compute. reflexivity. Qed.

Lemma example_wire_ok tag session sequence : tag ∈ [x61; x62; x64] ->
  carries (CommPublicKey example_committee) (session, sequence, example_payload tag) (example_cell tag).
Proof.
  assert (Forall (fun tag => IsCover (example_cell tag) = false /\ match encryptCellWithPadding (CommPublicKey example_committee) (example_cell tag)
    (fun row => ([], byte_of_Z (Z.of_nat (3 * row + 1)))) (Some (replicate 48 x00)) with Ok _ => true | Err _ => false end = true)
    [x61; x62; x64]) as Hall by (repeat constructor; vm_compute; reflexivity).
  intros Htag. rewrite Forall_forall in Hall. destruct (Hall tag Htag) as [Hc Hw]. split; [apply length_replicate|split; [exact Hc|]].
  exists (fun row => ([], byte_of_Z (Z.of_nat (3 * row + 1)))), (replicate 48 x00), (example_wire tag). cbn [snd]. unfold example_payload.
  split; [|reflexivity]. unfold example_wire. destruct (encryptCellWithPadding _ _ _ _); [reflexivity|discriminate Hw].
Qed.

Lemma example_sent_ok : Forall (fun ec => carries (CommPublicKey example_committee) ec.1 ec.2) example_sent.
Proof.
  constructor; [|constructor; [|constructor; [|constructor]]]; cbn [fst snd]; apply example_wire_ok; apply (bool_decide_unpack _); exact I.
Qed.

Lemma example_run : deposit_run example_airlock example_calls = (example_full, (deposit_run example_airlock example_calls).2).
Proof. unfold example_full. apply surjective_pairing. Qed.

Lemma example_seal_ok s : example_sealed = Ok s -> exists a', Seal example_full 1295 (fun _ => Some 1) (replicate 144 x00) = (a', Ok s).
Proof.
  unfold example_sealed. generalize (Seal example_full 1295 (fun _ => Some 1) (replicate 144 x00)). intros [a' r]. cbn [snd]. intros ->.
  exists a'. reflexivity.
Qed.

Lemma deposits_published_witness : exists s b mixed partials fragments, example_sealed = Ok s /\ SealedBatch s = Some b /\
  VerifyChain example_committee example_chain_mixers s 2 (example_turns [0; 1; 2] b) = Ok mixed /\
  Release example_committee (Some mixed) (map Some partials) (fun _ _ l => l) = Ok (fragments, 0) /\
  fragments ≡ₚ [example_cell x64; example_cell x62; example_cell x61].
Proof.
  destruct example_chain_ok as (s & b & mixed & Hs & Hb & Hv). destruct (example_sealed_wf s b Hs Hb) as [n Hwf].
  destruct (VerifyChain_ok example_secret _ _ _ _ _ _ b example_committee_key Hv Hb (example_chain_sound _ b n _ Hwf)) as (m & _ & Hm & _).
  destruct example_dealt as [_ Hd]. destruct (example_partials mixed m Hm) as (p1 & p2 & Hmem & Hf).
  destruct (example_seal_ok s Hs) as [a' Hseal].
  destruct (deposits_published example_schedule example_committee example_secret [x09] 2 example_cover (fun _ => replicate 48 x00)
    example_airlock example_calls example_full (deposit_run example_airlock example_calls).2 1295 (fun _ => Some 1) (replicate 144 x00) a' s b
    example_chain_mixers (example_turns [0; 1; 2] b) mixed [p1; p2] (fun _ _ l => l) example_sent
    example_new_eq example_typed Hd example_run Hseal Hv Hb (example_chain_sound _ b n _ Hwf) Hf)
    as (fragments & undecryptable & Hr & _ & _ & _ & Hall).
  - rewrite Hmem. apply (bool_decide_unpack _). exact I.
  - simpl. lia.
  - reflexivity.
  - by rewrite example_log_eq.
  - exact example_sent_ok.
  - destruct (Hall ltac:(by rewrite example_log_eq)) as [Hp ->]. exists s, b, mixed, [p1; p2], fragments.
    split; [exact Hs|split; [exact Hb|split; [exact Hv|split; [exact Hr|exact Hp]]]].
Defined.
End example.
