(* ===== verification/Batch.v ===== *)
(** The description of one encrypted batch ([live/batch]): [descriptor.go], the
    signed descriptor with its chain of mixing rounds; [dto.go] and [share.go],
    receipts and partial decryptions as files; the signed envelopes of
    [generate.go]; and the seed bundle of [live/bundle]. *)

From stdpp Require Import base list list_numbers strings sets.
From Stdlib Require Import ZArith Lia Strings.Byte.
From S2P Require Import Prelude Bytes Hash Codec StrictJSON Endpoint Checkpoint Frame RLNC Decoder Packet Bounded Reconstruct Topology Kyber Mix Threshold TopologyDocument Rounds Transcript Publication Committee.

(** ** Data *)

Definition DescriptorVersion : list byte := text "nomad-batch-descriptor-v3".
Definition EnvelopeVersion : Z := 1.
Definition MaximumBatchBytes : Z := Z.shiftl 4 20.
Definition DefaultBatchSize : Z := 16.
Definition MaximumPayloadBytes : Z := 262144.
Definition PartialVersion : list byte := text "nomad-partial-decryption-v1".
Definition BundleVersion : list byte := text "nomad-seed-bundle-v1".
Definition MaximumBundleBytes : Z := Z.shiftl 2 20.
Definition descriptorDomain : list byte := text "nomad-batch-descriptor-authority-v1".

Record SignedEnvelope := mkEnvelope {
  EnvVersion : Z;
  EnvPayload : list byte;            (* base64 text *)
  EnvContentHash : list byte;        (* hexadecimal text *)
  EnvPublisherKey : list byte;
  EnvSignature : list byte;
}.

Record ReceiptFile := mkReceiptFile {
  RFCommitteeID : list byte;         (* hexadecimal text *)
  RFEpoch : Z;
  RFBatchID : list byte;
  RFRound : Z;
  RFMixerPublic : list byte;         (* base64 text *)
  RFInputDigest : list byte;
  RFOutputDigest : list byte;
  RFProofDigest : list byte;
  RFSignature : list byte;           (* base64 text *)
}.

Record MixRoundFile := mkMixRoundFile {
  MRInput : list (list byte);        (* base64 texts *)
  MROutput : list (list byte);
  MRProof : list byte;
  MRReceipt : ReceiptFile;
}.

Record BatchDescriptor := mkBatchDescriptor {
  BDVersion : list byte;
  BDNetworkID : list byte;
  BDTopologyEpoch : Z;
  BDTopologyDigest : list byte;      (* hexadecimal text *)
  BDStreamID : list byte;
  BDBatchSize : Z;                   (* uint16 *)
  BDGeneration : list byte;
  BDK : Z;                           (* uint16 *)
  BDSymbolSize : Z;                  (* uint16 *)
  BDOriginalSize : Z;                (* uint32 *)
  BDContentHash : list byte;
  BDSourceCommitments : list (list byte);
  BDPublisherKey : list byte;        (* base64 text *)
  BDObjectSignature : list byte;
  BDCertificate : Certificate;
  BDMixRounds : list MixRoundFile;
  BDAuthoritySignature : list byte;
}.

Record VerifiedDescriptor := mkVerifiedDescriptor {
  VDDescriptor : BatchDescriptor;
  VDStream : list byte;
  VDGeneration : list byte;
  VDRoot : list byte;
  VDPublisher : list byte;
  VDSignature : list byte;
  VDCommittee : ThresholdCommittee;
  VDTranscript : DKGTranscript;
  VDCertificate : VerifiedCommittee;
  VDCommitments : list (list byte);
}.

Record PartialFile := mkPartialFile {
  PFVersion : list byte;
  PFStreamID : list byte;
  PFCommitteeID : list byte;         (* hexadecimal text *)
  PFEpoch : Z;
  PFMemberIndex : Z;                 (* uint32 *)
  PFBatchDigest : list byte;
  PFPoints : list (list byte);       (* base64 texts *)
  PFProof : list byte;
}.

Record BundleFile := mkBundleFile {
  BFVersion : list byte;
  BFStreamID : list byte;            (* hexadecimal text *)
  BFCells : list (list byte);        (* base64 texts *)
}.

(** The widths of the numbers of a descriptor. *)
Definition descriptor_typed (d : BatchDescriptor) : Prop :=
  fits 64 (BDTopologyEpoch d) /\ fits 16 (BDBatchSize d) /\ fits 16 (BDK d) /\ fits 16 (BDSymbolSize d) /\ fits 32 (BDOriginalSize d).

#[export] Instance descriptor_typed_dec d : Decision (descriptor_typed d).
Proof. unfold descriptor_typed. apply _. Defined.

(** [json.Marshal], and the decodings that refuse unknown fields and trailing
    data. *)
Class BatchJSON := {
  descriptor_text : BatchDescriptor -> list byte;
  descriptor_parse : list byte -> option BatchDescriptor;
  envelope_text : SignedEnvelope -> list byte;
  envelope_parse : list byte -> option SignedEnvelope;
  catalog_parse : list byte -> option (list SignedEnvelope);
  partial_parse : list byte -> option PartialFile;
  bundle_parse : list byte -> option BundleFile;
  descriptor_parse_typed : forall b d, descriptor_parse b = Some d -> descriptor_typed d;
}.

Inductive batch_error :=
| ErrBatchSize
| ErrBatchAuthority
| ErrBatchAmbiguous
| ErrBatchDecode
| ErrBatchSignature
| ErrBatchNetwork
| ErrBatchTopology
| ErrBatchStream
| ErrRoundPerOperator
| ErrDescriptorBatchSize
| ErrContentHashText
| ErrPublisherKey
| ErrDescriptorObject
| ErrDescriptorGeneration
| ErrDimensions
| ErrCommitments
| ErrCertificate (e : certificate_error)
| ErrPayloads
| ErrRoundBatchSize
| ErrRoundWire (e : mix_error)
| ErrRoundProof
| ErrReceiptFields
| ErrReceiptContext
| ErrRoundOperator
| ErrRoundDigest
| ErrRound (e : round_error)
| ErrRoundPayloads
| ErrStreamMismatch
| ErrEnvelopeVersion
| ErrEnvelopePayload
| ErrEnvelopeHash
| ErrEnvelopeKey
| ErrEnvelopeSignature
| ErrCatalogIndex
| ErrEnvelopeDecode
| ErrPartialDecode
| ErrPartialContext
| ErrPartialMember
| ErrPartialFields
| ErrBundleProfile
| ErrBundleStream
| ErrBundleCells
| ErrHop (e : hop_error)
| ErrContext
| ErrCancelled
| ErrObjectTooLarge
| ErrCoder (e : rlnc_error)
| ErrPacket (e : packet_error)
| ErrMixer
| ErrNoPartialGiven
| ErrBatchPrivateKey.

Definition check (condition : bool) (e : batch_error) : result batch_error unit :=
  if condition then Ok tt else Err e.

Definition need {A} (o : option A) (e : batch_error) : result batch_error A :=
  match o with Some a => Ok a | None => Err e end.

(** ** Receipts and payloads as text *)

Definition receiptToFile (r : RoundReceipt) : ReceiptFile :=
  mkReceiptFile (hex_encode (CtxCommittee (RecContext r))) (CtxEpoch (RecContext r)) (hex_encode (CtxBatchID (RecContext r)))
    (CtxRound (RecContext r)) (b64_encode (MixerPublic r)) (hex_encode (InputDigest r)) (hex_encode (OutputDigest r))
    (hex_encode (ProofDigest r)) (b64_encode (RecSignature r)).

Definition toMix (f : ReceiptFile) : result batch_error RoundReceipt :=
  committeeID ← need (canonical_hex (RFCommitteeID f) 32) ErrReceiptFields;
  batchID ← need (canonical_hex (RFBatchID f) 32) ErrReceiptFields;
  mixerPublic ← need (decodeBase64 (RFMixerPublic f) 32) ErrReceiptFields;
  inputDigest ← need (canonical_hex (RFInputDigest f) 32) ErrReceiptFields;
  outputDigest ← need (canonical_hex (RFOutputDigest f) 32) ErrReceiptFields;
  proofDigest ← need (canonical_hex (RFProofDigest f) 32) ErrReceiptFields;
  signature ← need (decodeBase64 (RFSignature f) 64) ErrReceiptFields;
  Ok (mkReceipt (mkRoundContext committeeID (RFEpoch f) batchID (RFRound f)) mixerPublic inputDigest outputDigest proofDigest signature).

Definition decodePayloads (encoded : list (list byte)) : result batch_error (list (list byte)) :=
  _ ← check (negb ((len encoded <? 2) || (MaximumBatch <? len encoded))) ErrPayloads;
  collect (fun item => need (decodeBase64 item CiphertextSize) ErrPayloads) encoded.

(** A payload at the start of a cell of zeros. *)
Definition payload_cell (payload : list byte) : list byte := payload ++ replicate (WireCellSize - CiphertextSize) x00.

Definition equalEncodedPayloads (left right : list (list byte)) : bool := equalCells left right.

Definition receiptBatchSize (round : MixRoundFile) : Z := u16 (len (MROutput round)).

Definition capacity : Z := PacketSize - PacketHeaderSize.

Section batch.
Context `{HashFunction, SignatureScheme, KyberGroup, !Shuffles, CommitteeJSON, BatchJSON}.

Definition parsePayloadBatch (payloads : list (list byte)) : result batch_error Batch :=
  wrap ErrRoundWire (ParseWire (map payload_cell payloads)).

(** [padding] is what [MarshalWire] draws. *)
Definition encodeBatch (b : Batch) (padding : list byte) : result batch_error (list (list byte)) :=
  cells ← wrap ErrRoundWire (MarshalWireWithPadding (Some b) (Some padding));
  Ok (map (fun cell => b64_encode (take CiphertextSize cell)) cells).

(** ** Verification *)

(** The identity the topology lists at a position; none decodes to nothing. *)
Definition expectedIdentity (network : VerifiedTopology) (index : nat) : list byte :=
  match operator_at (TDocument network) index with
  | Some operator => default [] (decodeBase64 (IdentityKey operator) 32)
  | None => []
  end.

(** The rounds from [index] on; [size] is the batch size of the first round and
    [previous] the output digest of the round before. *)
Fixpoint verify_rounds (size : Z) (committee : ThresholdCommittee) (network : VerifiedTopology) (tracker : ReceiptTracker)
  (index : nat) (previous : list byte) (rounds : list MixRoundFile) : result batch_error unit :=
  match rounds with
  | [] => Ok tt
  | round :: rest =>
      inputPayloads ← decodePayloads (MRInput round);
      outputPayloads ← decodePayloads (MROutput round);
      _ ← check (Nat.eqb (length inputPayloads) (length outputPayloads) && (len inputPayloads =? size)) ErrRoundBatchSize;
      input ← parsePayloadBatch inputPayloads;
      output ← parsePayloadBatch outputPayloads;
      proof ← need (DecodeBase64 (MRProof round)) ErrRoundProof;
      _ ← check (negb (bool_decide (proof = []))) ErrRoundProof;
      receipt ← toMix (MRReceipt round);
      let ctx := RecContext receipt in
      _ ← check ((CtxRound ctx =? u32 (Z.of_nat index)) && bool_decide (CtxCommittee ctx = CommID committee) &&
                 (CtxEpoch ctx =? CommEpoch committee)) ErrReceiptContext;
      _ ← check (bool_decide (MixerPublic receipt = expectedIdentity network index)) ErrRoundOperator;
      _ ← check (Nat.eqb index 0 || bool_decide (InputDigest receipt = previous)) ErrRoundDigest;
      _ ← wrap ErrRound (VerifySignedRound (CommPublicKey committee) (Some input) (Some output) proof receipt);
      let '(tracker, accepted) := TrackerAccept tracker receipt in
      _ ← wrap ErrRound accepted;
      _ ← check (match rest with next :: _ => equalEncodedPayloads (MROutput round) (MRInput next) | [] => true end) ErrRoundPayloads;
      verify_rounds size committee network tracker (S index) (OutputDigest receipt) rest
  end.

Definition verifyMixRounds (rounds : list MixRoundFile) (committee : ThresholdCommittee) (network : VerifiedTopology)
  : result batch_error (list (list byte)) :=
  tracker ← wrap ErrRound (NewReceiptTracker (CommID committee) (CommEpoch committee));
  let size := match rounds with first :: _ => receiptBatchSize first | [] => 0 end in
  _ ← verify_rounds size committee network tracker 0 (replicate 32 x00) rounds;
  decodePayloads (match List.last (map Some rounds) None with Some round => MROutput round | None => [] end).

Definition descriptor_message (d : BatchDescriptor) : list byte := descriptorDomain ++ descriptor_text d.

Definition set_signature (d : BatchDescriptor) (signature : list byte) : BatchDescriptor :=
  mkBatchDescriptor (BDVersion d) (BDNetworkID d) (BDTopologyEpoch d) (BDTopologyDigest d) (BDStreamID d) (BDBatchSize d) (BDGeneration d)
    (BDK d) (BDSymbolSize d) (BDOriginalSize d) (BDContentHash d) (BDSourceCommitments d) (BDPublisherKey d) (BDObjectSignature d)
    (BDCertificate d) (BDMixRounds d) signature.

Definition VerifyBatchDescriptor (encoded authority : list byte) (network : VerifiedTopology) : result batch_error VerifiedDescriptor :=
  _ ← check (negb (bool_decide (encoded = []) || (MaximumBatchBytes <? len encoded))) ErrBatchSize;
  _ ← check (Nat.eqb (length authority) 32) ErrBatchAuthority;
  _ ← check (is_ok (RejectDuplicateKeys encoded)) ErrBatchAmbiguous;
  d ← need (descriptor_parse encoded) ErrBatchDecode;
  authoritySignature ← need (decodeBase64 (BDAuthoritySignature d) 64) ErrBatchSignature;
  _ ← check (verify authority (descriptor_message (set_signature d [])) authoritySignature) ErrBatchSignature;
  _ ← check (bool_decide (BDVersion d = DescriptorVersion) && bool_decide (BDNetworkID d = NetworkID (TDocument network)) &&
             (BDTopologyEpoch d =? DocEpoch (TDocument network))) ErrBatchNetwork;
  _ ← check (bool_decide (BDTopologyDigest d = hex_encode (TDigest network))) ErrBatchTopology;
  stream ← need (canonical_hex (BDStreamID d) 16) ErrBatchStream;
  _ ← check (Nat.eqb (length (BDMixRounds d)) (length (Operators (TDocument network))) && negb (bool_decide (length (BDMixRounds d) = 0%nat)))
        ErrRoundPerOperator;
  _ ← check (negb ((BDBatchSize d <? 2) || (MaximumBatch <? BDBatchSize d)) &&
             match BDMixRounds d with first :: _ => BDBatchSize d =? len (MROutput first) | [] => false end) ErrDescriptorBatchSize;
  root ← need (canonical_hex (BDContentHash d) 32) ErrContentHashText;
  publisher ← need (decodeBase64 (BDPublisherKey d) 32) ErrPublisherKey;
  objectSignature ← need (decodeBase64 (BDObjectSignature d) 64) ErrDescriptorObject;
  _ ← check (verify publisher (SigningMessage root) objectSignature) ErrDescriptorObject;
  generation ← need (canonical_hex (BDGeneration d) 16) ErrDescriptorGeneration;
  _ ← check (bool_decide (generation = GenerationFor root)) ErrDescriptorGeneration;
  _ ← check (negb ((BDK d =? 0) || (BDSymbolSize d =? 0) || (BDOriginalSize d =? 0) || (MaximumPayloadBytes <? BDOriginalSize d) ||
                   (u64 (BDK d * BDSymbolSize d) <? BDOriginalSize d) || (capacity <? BDK d + BDSymbolSize d))) ErrDimensions;
  _ ← check (len (BDSourceCommitments d) =? BDK d) ErrCommitments;
  commitments ← collect (fun c => need (canonical_hex c 32) ErrCommitments) (BDSourceCommitments d);
  certified ← wrap ErrCertificate (VerifyCertificate (BDCertificate d) network);
  finalPayloads ← verifyMixRounds (BDMixRounds d) (VCCommittee certified) network;
  calculated ← match StreamFor finalPayloads with Ok s => Ok s | Err _ => Err ErrStreamMismatch end;
  _ ← check (bool_decide (calculated = stream)) ErrStreamMismatch;
  Ok (mkVerifiedDescriptor d stream generation root publisher objectSignature (VCCommittee certified) (VCTranscript certified) certified commitments).

Definition SignDescriptor (d : BatchDescriptor) (authority : list byte) : result batch_error BatchDescriptor :=
  _ ← check (Nat.eqb (length authority) 64) ErrBatchPrivateKey;
  let unsigned := set_signature d [] in
  Ok (set_signature d (b64_encode (sign authority (descriptor_message unsigned)))).

(** ** Partial decryptions *)

Definition PartialToFile (stream : list byte) (partial : option PartialDecryption) : result batch_error PartialFile :=
  match partial with
  | None => Err ErrNoPartialGiven
  | Some p => Ok (mkPartialFile PartialVersion stream (hex_encode (PartCommitteeID p)) (PartEpoch p) (PartMember p)
                    (hex_encode (PartBatchDigest p)) (map b64_encode (PartPoints p)) (b64_encode (PartProof p)))
  end.

Definition DecodePartial (encoded : list byte) (v : VerifiedDescriptor) : result batch_error PartialDecryption :=
  file ← need (partial_parse encoded) ErrPartialDecode;
  let committee := VDCommittee v in
  _ ← check (bool_decide (PFVersion file = PartialVersion) && bool_decide (PFStreamID file = BDStreamID (VDDescriptor v)) &&
             bool_decide (PFCommitteeID file = hex_encode (CommID committee)) && (PFEpoch file =? CommEpoch committee)) ErrPartialContext;
  _ ← check (PFMemberIndex file <? len (CommMembers committee)) ErrPartialMember;
  batchDigest ← need (canonical_hex (PFBatchDigest file) 32) ErrPartialFields;
  proof ← need (DecodeBase64 (PFProof file)) ErrPartialFields;
  _ ← check (negb (bool_decide (proof = []) || (MaximumBatchBytes <? len proof))) ErrPartialFields;
  points ← collect (fun p => need (decodeBase64 p 32) ErrPartialFields) (PFPoints file);
  Ok (mkPartial (CommID committee) (PFEpoch file) (PFMemberIndex file) batchDigest points proof).

(** ** Envelopes *)

Definition DecodeEnvelope (encoded : list byte) (catalogIndex : Z) : result batch_error SignedEnvelope :=
  if bool_decide (encoded = []) || (MaximumBatchBytes <? len encoded) then Err ErrBatchSize
  else
    let from_catalog :=
      match catalog_parse encoded with
      | None => Err ErrEnvelopeDecode
      | Some catalog =>
          if (catalogIndex <? 0) || (len catalog <=? catalogIndex) then Err ErrCatalogIndex
          else need (catalog !! Z.to_nat catalogIndex) ErrCatalogIndex
      end in
    match envelope_parse encoded with
    | Some single =>
        if negb (EnvVersion single =? 0)
        then if negb (catalogIndex =? 0) then Err ErrCatalogIndex else Ok single
        else from_catalog
    | None => from_catalog
    end.

(** The payload, its hash, the publisher's key and signature. *)
Definition VerifySignedEnvelope (e : SignedEnvelope) : result batch_error (list byte * list byte * list byte * list byte) :=
  _ ← check (EnvVersion e =? EnvelopeVersion) ErrEnvelopeVersion;
  payload ← need (DecodeBase64 (EnvPayload e)) ErrEnvelopePayload;
  _ ← check (negb (bool_decide (payload = []) || (MaximumPayloadBytes <? len payload))) ErrEnvelopePayload;
  let root := sha256 payload in
  _ ← check (bool_decide (EnvContentHash e = hex_encode root)) ErrEnvelopeHash;
  publisher ← need (decodeBase64 (EnvPublisherKey e) 32) ErrEnvelopeKey;
  signature ← need (decodeBase64 (EnvSignature e) 64) ErrEnvelopeSignature;
  _ ← check (verify publisher (SigningMessage root) signature) ErrEnvelopeSignature;
  Ok (payload, root, publisher, signature).

(** ** Seed bundles *)

Definition NewBundle (payloads : list (list byte)) : result batch_error BundleFile :=
  stream ← wrap ErrHop (StreamFor payloads);
  Ok (mkBundleFile BundleVersion (hex_encode stream) (map b64_encode payloads)).

(** The stream and its payloads. *)
Definition VerifyBundle (encoded : list byte) : result batch_error (list byte * list (list byte)) :=
  _ ← check (negb (bool_decide (encoded = []) || (MaximumBundleBytes <? len encoded))) ErrBatchSize;
  file ← need (bundle_parse encoded) ErrBatchDecode;
  _ ← check (bool_decide (BFVersion file = BundleVersion) && negb ((len (BFCells file) <? 2) || (MaximumBatch <? len (BFCells file))))
        ErrBundleProfile;
  decodedStream ← need (hex_decode (BFStreamID file)) ErrBundleStream;
  _ ← check (Nat.eqb (length decodedStream) 16) ErrBundleStream;
  payloads ← collect (fun cell => need (decodeBase64 cell CiphertextSize) ErrBundleCells) (BFCells file);
  calculated ← wrap ErrHop (StreamFor payloads);
  _ ← check (bool_decide (calculated = decodedStream)) ErrBundleStream;
  Ok (decodedStream, payloads).

Definition bundle_cell (stream : list byte) (total : Z) (ordinal : nat) (payload : list byte) : result batch_error (list byte) :=
  metadata ← wrap ErrHop (WorkMetadata stream (u16 (Z.of_nat ordinal)) (u16 total));
  wrap ErrHop (FromCiphertext payload metadata).

Definition BundleCells (stream : list byte) (payloads : list (list byte)) : result batch_error (list (list byte)) :=
  collect (fun ip => bundle_cell stream (len payloads) ip.1 ip.2) (zip (seq 0 (length payloads)) payloads).
End batch.

(** Run through the checks of a computation that ended well. *)
Ltac run_checks E :=
  repeat (match type of E with
  | (check ?c ?e ≫= _) = _ => destruct c eqn:?; [|discriminate E]; cbn [check] in E
  | (need ?o ?e ≫= _) = _ => destruct o as [?|] eqn:?; [|discriminate E]; cbn [need] in E
  | (wrap ?f ?r ≫= _) = _ => destruct r as [?|] eqn:?; [|discriminate E]; cbn [wrap] in E
  | (?r ≫= _) = _ => destruct r as [?|] eqn:?; [|discriminate E]
  end; cbn [mbind result_bind] in E).

(** ** What a verified descriptor shows *)

Section sound.
Context `{HashFunction, SignatureScheme, KyberGroup, !Shuffles, CommitteeJSON, BatchJSON}.

(** A list of payload texts is the text of a batch. *)
Definition payloads_are (encoded : list (list byte)) (b : Batch) : Prop :=
  exists payloads, decodePayloads encoded = Ok payloads /\ parsePayloadBatch payloads = Ok b.

(** What a round of a descriptor says, decoded. *)
Definition file_decodes (f : MixRoundFile) (r : SignedRound) : Prop :=
  exists b b', payloads_are (MRInput f) b /\ payloads_are (MROutput f) b' /\ Input (SRound r) = Some b /\ Output (SRound r) = Some b' /\
    DecodeBase64 (MRProof f) = Some (ShuffleProof (SRound r)) /\ toMix (MRReceipt f) = Ok (SReceipt r).

Lemma payloads_are_unique encoded b b' : payloads_are encoded b -> payloads_are encoded b' -> b = b'.
Proof. intros (p & E & P) (p' & E' & P'). rewrite E in E'. injection E' as <-. rewrite P in P'. by injection P' as <-. Qed.

Lemma mix_files_sound size c network tracker index previous files :
  verify_rounds size c network tracker index previous files = Ok tt ->
  exists rounds, Forall2 file_decodes files rounds /\
    (forall i r, rounds !! i = Some r -> MixerPublic (SReceipt r) = expectedIdentity network (index + i) /\
      CtxCommittee (RecContext (SReceipt r)) = CommID c /\ CtxEpoch (RecContext (SReceipt r)) = CommEpoch c /\
      CtxRound (RecContext (SReceipt r)) = u32 (Z.of_nat (index + i))) /\
    Forall (round_verified (CommPublicKey c)) rounds /\ linked_rounds (map SRound rounds).
Proof.
  revert tracker index previous. induction files as [|f files IH]; intros tracker index previous E.
  { exists []. split_and!; [constructor|done|constructor|done]. }
  cbn [verify_rounds] in E. run_checks E.
  match type of E with (let '(_, _) := ?t in _) = _ => destruct t as [tracker' [[]|]] eqn:Et end; [|done].
  cbn [wrap mbind result_bind] in E. run_checks E.
  match goal with u : unit |- _ => destruct u end.
  destruct (IH _ _ _ E) as (rounds & Hd & Hid & Hv & Hl).
  match goal with
  | Hi : decodePayloads (MRInput f) = Ok ?pi, Ho : decodePayloads (MROutput f) = Ok ?po, Pi : parsePayloadBatch ?pi = Ok ?b,
    Po : parsePayloadBatch ?po = Ok ?b', Hp : DecodeBase64 (MRProof f) = Some ?proof, Hr : toMix (MRReceipt f) = Ok ?receipt |- _ =>
      exists (mkSignedRound (mkRound (Some b) (Some b') proof) receipt :: rounds); set (r := mkSignedRound _ _);
      assert (payloads_are (MRInput f) b) as Hin by (by exists pi); assert (payloads_are (MROutput f) b') as Hout by (by exists po);
      assert (file_decodes f r) as Hf by (exists b, b'; by split_and!)
  end.
  reflect_bools. split_and!.
  - by constructor.
  - intros [|i] r' Hr'.
    + injection Hr' as <-. rewrite Nat.add_0_r. cbn [r SReceipt]. done.
    + rewrite <- Nat.add_succ_comm. by apply Hid.
  - by constructor.
  - destruct files as [|f2 files], rounds as [|r2 rounds]; try done; [by apply Forall2_nil_inv_l in Hd|].
    cbn [map linked_rounds]. split; [|exact Hl]. apply Forall2_cons in Hd as [(b2 & _ & Hb2 & _ & E2 & _) _].
    match goal with Hq : equalEncodedPayloads _ _ = true |- _ => apply equalCells_ok in Hq; rewrite <- Hq in Hb2 end.
    cbn [r SRound Output]. rewrite E2. f_equal. by eapply payloads_are_unique.
Qed.

Lemma last_map_Some {A} (l : list A) a : List.last (map Some (a :: l)) None = Some (List.last l a).
Proof.
  revert a. induction l as [|b l IH]; intros a; [done|].
  change (List.last (map Some (a :: b :: l)) None) with (List.last (map Some (b :: l)) None). rewrite IH. f_equal. symmetry. apply last_default.
Qed.

Lemma Forall2_last {A B} (P : A -> B -> Prop) l l' a b : Forall2 P (a :: l) (b :: l') -> P (List.last l a) (List.last l' b).
Proof.
  intros HP. revert a b l' HP. induction l as [|a2 l IH]; intros a b l' [Hab HP]%Forall2_cons.
  { by apply Forall2_nil_inv_l in HP as ->. }
  destruct l' as [|b2 l']; [by apply Forall2_nil_inv_r in HP|]. rewrite !last_default. by apply IH.
Qed.

(** A chain of rounds that verifies, in a batch of the size of the first. *)
Lemma verifyMixRounds_sound files c network final : files <> [] -> verifyMixRounds files c network = Ok final ->
  exists r rs b, Forall2 file_decodes files (r :: rs) /\
    (forall i x, (r :: rs) !! i = Some x -> MixerPublic (SReceipt x) = expectedIdentity network i) /\
    Forall (round_verified (CommPublicKey c)) (r :: rs) /\ linked_rounds (map SRound (r :: rs)) /\
    Output (SRound (List.last rs r)) = Some b /\ parsePayloadBatch final = Ok b.
Proof.
  intros Hne. unfold verifyMixRounds. intros E. run_checks E. match goal with u : unit |- _ => destruct u end.
  match goal with Hv : verify_rounds _ _ _ _ _ _ _ = Ok tt |- _ => apply mix_files_sound in Hv as (rounds & Hd & Hid & Hv & Hl) end.
  destruct files as [|f files]; [done|]. destruct rounds as [|r rs]; [by apply Forall2_nil_inv_r in Hd|].
  rewrite last_map_Some in E. destruct (Forall2_last _ _ _ _ _ Hd) as (b & b' & _ & (p & Ep & Pp) & _ & Ho & _).
  rewrite E in Ep. injection Ep as <-. exists r, rs, b'. split_and!; try done. intros i x Hx. by destruct (Hid i x Hx).
Qed.

Record descriptor_ok (authority : list byte) (network : VerifiedTopology) (v : VerifiedDescriptor) : Prop := {
  do_authority : exists signature, verify authority (descriptor_message (set_signature (VDDescriptor v) [])) signature = true;
  do_network : BDNetworkID (VDDescriptor v) = NetworkID (TDocument network) /\ BDTopologyEpoch (VDDescriptor v) = DocEpoch (TDocument network) /\
    BDTopologyDigest (VDDescriptor v) = hex_encode (TDigest network);
  do_rounds : length (BDMixRounds (VDDescriptor v)) = length (Operators (TDocument network)) /\ BDMixRounds (VDDescriptor v) <> [];
  do_root : BDContentHash (VDDescriptor v) = hex_encode (VDRoot v) /\ is_digest (VDRoot v);
  do_publisher : length (VDPublisher v) = 32%nat /\ length (VDSignature v) = 64%nat /\ verify (VDPublisher v) (SigningMessage (VDRoot v)) (VDSignature v) = true;
  do_generation : VDGeneration v = GenerationFor (VDRoot v);
  do_dimensions : 0 < BDK (VDDescriptor v) /\ 0 < BDSymbolSize (VDDescriptor v) /\ BDK (VDDescriptor v) + BDSymbolSize (VDDescriptor v) <= capacity /\
    0 < BDOriginalSize (VDDescriptor v) <= MaximumPayloadBytes /\ BDOriginalSize (VDDescriptor v) <= BDK (VDDescriptor v) * BDSymbolSize (VDDescriptor v);
  do_commitments : len (VDCommitments v) = BDK (VDDescriptor v) /\ Forall is_digest (VDCommitments v);
  do_certificate : VerifyCertificate (BDCertificate (VDDescriptor v)) network = Ok (VDCertificate v) /\ VDCommittee v = VCCommittee (VDCertificate v);
  do_stream : exists final, verifyMixRounds (BDMixRounds (VDDescriptor v)) (VDCommittee v) network = Ok final /\ StreamFor final = Ok (VDStream v);
}.

Lemma decodeBase64_length t n l : decodeBase64 t n = Some l -> length l = n.
Proof. unfold decodeBase64. destruct (DecodeBase64 t) as [x|]; [|done]. simpl. destruct (Nat.eqb_spec (length x) n); [|done]. by intros [= <-]. Qed.

Lemma VerifyBatchDescriptor_ok encoded authority network v : VerifyBatchDescriptor encoded authority network = Ok v -> descriptor_ok authority network v.
Proof.
  unfold VerifyBatchDescriptor. intros E. run_checks E.
  injection E as <-.
  match goal with Hm : match StreamFor ?f with Ok _ => _ | Err _ => _ end = Ok _ |- _ => destruct (StreamFor f) eqn:Es; [injection Hm as ->|discriminate Hm] end.
  match goal with Hd : descriptor_parse _ = Some _ |- _ => apply descriptor_parse_typed in Hd as (_ & _ & [HK0 HK] & [HS0 HS] & [HO0 _]) end.
  reflect_bools.
  repeat match goal with Hc : canonical_hex _ _ = Some _ |- _ => apply canonical_hex_unique in Hc as [? ?] end.
  repeat match goal with Hb : decodeBase64 _ _ = Some _ |- _ => apply decodeBase64_length in Hb end.
  rewrite wrapu_small in * by (unfold fits; nia).
  split; cbn [VDDescriptor VDStream VDGeneration VDRoot VDPublisher VDSignature VDCommittee VDTranscript VDCertificate VDCommitments].
  - eauto.
  - done.
  - split; [by apply Nat.eqb_eq|]. intros En. by rewrite En in *.
  - done.
  - done.
  - done.
  - lia.
  - match goal with Hc : collect _ _ = Ok _ |- _ => apply collect_ok in Hc; pose proof (Forall2_length _ _ _ Hc); split; [lia|];
      eapply Forall2_Forall_r; [exact Hc|]; apply Forall_forall end.
    intros x _ y Hy. destruct (canonical_hex x 32) as [z|] eqn:Ez; [|done]. injection Hy as <-. by apply canonical_hex_unique in Ez as [? _].
  - done.
  - subst. eauto.
Qed.
(** The checks, from the fields they pass on. *)
Lemma VerifyBatchDescriptor_intro encoded authority network d authoritySignature stream root publisher objectSignature commitments certified final :
  encoded <> [] -> len encoded <= MaximumBatchBytes -> length authority = 32%nat -> RejectDuplicateKeys encoded = Ok tt ->
  descriptor_parse encoded = Some d -> decodeBase64 (BDAuthoritySignature d) 64 = Some authoritySignature ->
  verify authority (descriptor_message (set_signature d [])) authoritySignature = true ->
  BDVersion d = DescriptorVersion -> BDNetworkID d = NetworkID (TDocument network) -> BDTopologyEpoch d = DocEpoch (TDocument network) ->
  BDTopologyDigest d = hex_encode (TDigest network) -> canonical_hex (BDStreamID d) 16 = Some stream ->
  length (BDMixRounds d) = length (Operators (TDocument network)) -> (2 <= BDBatchSize d <= MaximumBatch) ->
  (exists first rest, BDMixRounds d = first :: rest /\ BDBatchSize d = len (MROutput first)) ->
  canonical_hex (BDContentHash d) 32 = Some root -> decodeBase64 (BDPublisherKey d) 32 = Some publisher ->
  decodeBase64 (BDObjectSignature d) 64 = Some objectSignature -> verify publisher (SigningMessage root) objectSignature = true ->
  canonical_hex (BDGeneration d) 16 = Some (GenerationFor root) ->
  0 < BDK d < 2 ^ 16 -> 0 < BDSymbolSize d < 2 ^ 16 -> 0 < BDOriginalSize d <= MaximumPayloadBytes -> BDOriginalSize d <= BDK d * BDSymbolSize d ->
  BDK d + BDSymbolSize d <= capacity -> len (BDSourceCommitments d) = BDK d ->
  collect (fun c => need (canonical_hex c 32) ErrCommitments) (BDSourceCommitments d) = Ok commitments ->
  VerifyCertificate (BDCertificate d) network = Ok certified -> verifyMixRounds (BDMixRounds d) (VCCommittee certified) network = Ok final ->
  StreamFor final = Ok stream ->
  VerifyBatchDescriptor encoded authority network = Ok (mkVerifiedDescriptor d stream (GenerationFor root) root publisher objectSignature
    (VCCommittee certified) (VCTranscript certified) certified commitments).
Proof.
  intros E1 E2 E3 E4 E5 E6 E7 E8 E9 E10 E11 E12 E13 E14 (first & rest & E15 & E16) E17 E18 E19 E20 E21 E22 E23 E24 E25 E26 E27 E28 E29 E30 E31.
  unfold VerifyBatchDescriptor. rewrite bool_decide_false by done. rewrite (proj2 (Z.ltb_ge _ _)) by done. cbn [orb negb check mbind result_bind].
  rewrite E3, E4, E5. cbn [Nat.eqb is_ok check need mbind result_bind]. rewrite E6. cbn [need mbind result_bind]. rewrite E7. cbn [check mbind result_bind].
  rewrite E8, E9, E10, (bool_decide_true (DescriptorVersion = _)), (bool_decide_true (NetworkID (TDocument network) = _)), Z.eqb_refl by done.
  cbn [andb check mbind result_bind]. rewrite (bool_decide_true (BDTopologyDigest d = _)) by done. cbn [check mbind result_bind]. rewrite E12. cbn [need mbind result_bind].
  rewrite E13, Nat.eqb_refl. rewrite bool_decide_false by (rewrite <- E13, E15; discriminate). cbn [andb negb check mbind result_bind].
  rewrite (proj2 (Z.ltb_ge (BDBatchSize d) 2)), (proj2 (Z.ltb_ge MaximumBatch (BDBatchSize d))), E15, <- E15, E16, Z.eqb_refl by lia. cbn [orb andb negb check mbind result_bind].
  rewrite E17. cbn [need mbind result_bind]. rewrite E18. cbn [need mbind result_bind]. rewrite E19. cbn [need mbind result_bind]. rewrite E20.
  cbn [check mbind result_bind]. rewrite E21. cbn [need mbind result_bind]. rewrite bool_decide_true by done. cbn [check mbind result_bind].
  rewrite (proj2 (Z.eqb_neq (BDK d) 0)), (proj2 (Z.eqb_neq (BDSymbolSize d) 0)), (proj2 (Z.eqb_neq (BDOriginalSize d) 0)) by lia.
  rewrite wrapu_small by (unfold fits; nia). rewrite !(proj2 (Z.ltb_ge _ _)) by lia.
  cbn [orb negb check mbind result_bind]. rewrite E27, Z.eqb_refl. cbn [check mbind result_bind]. rewrite E28. cbn [mbind result_bind].
  rewrite E29. cbn [wrap mbind result_bind]. rewrite E30. cbn [mbind result_bind]. rewrite E31. cbn [mbind result_bind].
  by rewrite bool_decide_true.
Qed.
End sound.

(** C12: A batch descriptor that verifies binds one object to one batch of the network:
    the pinned authority signed it for this topology; the publisher it names
    signed the object's hash, of which the generation is a function; the coding
    fits the packet and there is a commitment for every source symbol; its
    committee is certified by every operator of the topology; and it carries one
    mixing round per operator, in the order of the topology, each signed by that
    operator's identity and verifying as a shuffle of the batch before it.  The
    stream is the hash of the payloads of the last batch, which the holder of the
    committee's key therefore decrypts to the cells of the first batch in another
    order.  Accepted shuffle proofs are assumed sound. *)
Theorem batch_descriptor_sound `{HashFunction, SignatureScheme, KyberGroup, !Shuffles, CommitteeJSON, BatchJSON} encoded authority network v :
  VerifyBatchDescriptor encoded authority network = Ok v -> indexed (Operators (TDocument network)) ->
  let d := VDDescriptor v in
  let key := CommPublicKey (VDCommittee v) in
  (exists signature, verify authority (descriptor_message (set_signature d [])) signature = true) /\
  BDTopologyDigest d = hex_encode (TDigest network) /\ verify (VDPublisher v) (SigningMessage (VDRoot v)) (VDSignature v) = true /\
  VDGeneration v = GenerationFor (VDRoot v) /\ BDK d + BDSymbolSize d <= capacity /\ 0 < BDOriginalSize d <= BDK d * BDSymbolSize d /\
  len (VDCommitments v) = BDK d /\ VerifyCertificate (BDCertificate d) network = Ok (VDCertificate v) /\
  exists r rs final mixed, Forall2 file_decodes (BDMixRounds d) (r :: rs) /\
    Forall2 (fun o x => decodeBase64 (IdentityKey o) 32 = Some (MixerPublic (SReceipt x))) (Operators (TDocument network)) (r :: rs) /\
    Forall (round_verified key) (r :: rs) /\ StreamFor final = Ok (VDStream v) /\ parsePayloadBatch final = Ok mixed /\
    forall s, publicPoint key = Ok (pmul s Base) -> Forall (round_sound key) (r :: rs) ->
      exists b n, Input (SRound r) = Some b /\ Len (Some b) = n /\ Len (Some mixed) = n /\ plain_cells s mixed n ≡ₚ plain_cells s b n.
Proof.
  intros Hv Hi. apply VerifyBatchDescriptor_ok in Hv as Hok. cbv zeta.
  destruct (do_stream _ _ _ Hok) as (final & Hf & Hs). destruct (do_rounds _ _ _ Hok) as [Hlen Hne].
  destruct (do_publisher _ _ _ Hok) as (_ & _ & Hpub). destruct (do_dimensions _ _ _ Hok) as (_ & _ & Hcap & Ho & Hfit).
  split_and!; [apply Hok|apply Hok|done|apply Hok|done|lia|lia|apply Hok|apply Hok|].
  destruct (verifyMixRounds_sound _ _ _ _ Hne Hf) as (r & rs & b & Hd & Hid & Hrv & Hl & Hb & Hp).
  exists r, rs, final, b. split_and!; [done| |done|done|done|].
  - apply Forall2_same_length_lookup_2.
    + rewrite <- Hlen. by apply Forall2_length in Hd.
    + intros i o x Hoi Hx. specialize (Hid i x Hx). unfold expectedIdentity, operator_at in Hid. rewrite Hoi in Hid. simpl in Hid.
      destruct (Hi i o Hoi) as [Hio _]. rewrite Hio, Nat.eqb_refl in Hid. destruct (decodeBase64 (IdentityKey o) 32) as [k|] eqn:Ek; [by rewrite Hid|].
      exfalso. destruct (Forall2_lookup_r _ _ _ _ _ Hd Hx) as (f & _ & (_ & _ & _ & _ & _ & _ & _ & Hr)).
      unfold toMix in Hr. run_checks Hr. injection Hr as Hr. rewrite <- Hr in Hid. cbn [MixerPublic] in Hid.
      repeat match goal with Hb : decodeBase64 _ _ = Some _ |- _ => apply decodeBase64_length in Hb end. by subst.
  - intros s Hk Hsound. destruct (linked_mixes _ s r rs Hk Hrv Hsound Hl) as (b0 & b' & n & Hi0 & Hb' & W0 & W' & Hm).
    rewrite Hb in Hb'. injection Hb' as <-. exists b0, n. rewrite (Len_wf b0 n W0), (Len_wf b n W'). split_and!; [done..|by apply mixes_plain].
Qed.

(** ** Round trips *)

Lemma receipt_file_roundtrip r : receipt_typed r -> toMix (receiptToFile r) = Ok r.
Proof.
  intros (Hc & Hb & Hm & Hi & Ho & Hp & Hs). unfold toMix, receiptToFile.
  cbn [RFCommitteeID RFEpoch RFBatchID RFRound RFMixerPublic RFInputDigest RFOutputDigest RFProofDigest RFSignature].
  rewrite !canonical_hex_encode by done. rewrite (decodeBase64_encode (MixerPublic r)), (decodeBase64_encode (RecSignature r)) by done.
  cbn [need mbind result_bind]. by destruct r as [[] ? ? ? ? ?].
Qed.
