(* ===== verification/Generate.v ===== *)
(** The publication of an object as an encrypted batch ([live/batch/generate.go]):
    coding, encryption and one mixing round per operator, described and signed;
    and that what is published verifies. *)

From stdpp Require Import base list list_numbers strings sets gmap.
From Stdlib Require Import ZArith Lia Strings.Byte.
From S2P Require Import Prelude Bytes Hash Codec StrictJSON Endpoint Checkpoint Frame GF256 RLNC Decoder Packet Bounded Reconstruct Topology Kyber Mix Threshold TopologyDocument Rounds Transcript Publication Committee Batch.

(** ** The size of a symbol *)

Definition ceil_div (a b : Z) : Z := (a + b - 1) / b.

(** The loop downwards from [symbolSize]. *)
Fixpoint choose_down (contentSize batchSize : Z) (symbolSize : nat) : result batch_error Z :=
  match symbolSize with
  | O => Err ErrObjectTooLarge
  | S smaller =>
      let k := ceil_div contentSize (Z.of_nat symbolSize) in
      if (k <=? batchSize) && (k + Z.of_nat symbolSize <=? capacity) then Ok (Z.of_nat symbolSize)
      else choose_down contentSize batchSize smaller
  end.

Definition chooseSymbolSize (contentSize batchSize : Z) : result batch_error Z :=
  choose_down contentSize batchSize (Z.to_nat (capacity - 1)).

(** ** Publication *)

Record Generated := mkGenerated {
  GenDescriptor : BatchDescriptor;
  GenBundle : BundleFile;
  GenShares : list ShareFile;
}.

Definition encodeSourceCommitments (commitments : list (list byte)) : list (list byte) := map hex_encode commitments.

Section generate.
Context `{HashFunction, SignatureScheme, KyberGroup, !Shuffles, CommitteeJSON, BatchJSON}.

(** What a publication draws: the coefficients and the packet padding of each cell,
    the encryption, the padding of the wire forms of each round, and the shuffles. *)
Record randomness := mkRandomness {
  rand_coeff : nat -> list (option (list byte));
  rand_packet : nat -> option (list byte);
  rand_encrypt : nat -> nat -> list byte * scalar;
  rand_input : nat -> list byte;
  rand_output : nat -> list byte;
  rand_shuffle : nat -> list byte;
}.

(** One cell of the batch: a source symbol, or a coded one after the last source. *)
Definition plain_cell (e : Encoder) (generation : list byte) (r : randomness) (index : nat) : result batch_error (list byte) :=
  symbol ← wrap ErrCoder (if Z.of_nat index <? K e then Systematic e (Z.of_nat index) else Encode e (rand_coeff r index));
  packet ← wrap ErrPacket (NewPacket generation (K e) (SymbolSize e) (OriginalSize e) symbol);
  encoded ← wrap ErrPacket (MarshalBinaryFrom packet (rand_packet r index));
  Ok (take PlainCellSize encoded ++ replicate (PlainCellSize - length encoded) x00).

(** Coding and encryption: the first part of [generateCertified]. *)
Definition encrypt_object (payload root : list byte) (committee : ThresholdCommittee) (r : randomness) : result batch_error (Encoder * Batch) :=
  symbolSize ← chooseSymbolSize (len payload) DefaultBatchSize;
  encoder ← wrap ErrCoder (NewEncoder payload symbolSize);
  _ ← check (negb (DefaultBatchSize <? K encoder)) ErrObjectTooLarge;
  plainCells ← collect (plain_cell encoder (GenerationFor root) r) (seq 0 (Z.to_nat DefaultBatchSize));
  current ← wrap ErrRoundWire (Encrypt (CommPublicKey committee) plainCells (rand_encrypt r));
  Ok (encoder, current).

(** The round of one operator, and the batch it passes on. *)
Definition mix_round (committee : ThresholdCommittee) (r : randomness) (index : nat) (current : Batch) (identity : list byte)
  : result batch_error (MixRoundFile * Batch) :=
  _ ← check (Nat.eqb (length identity) 64) ErrMixer;
  inputEncoded ← encodeBatch current (rand_input r index);
  inputDigest ← wrap ErrRoundWire (BatchDigest (Some current));
  let ctx := mkRoundContext (CommID committee) (CommEpoch committee) inputDigest (u32 (Z.of_nat index)) in
  shuffled ← wrap ErrRound (ShuffleAndSign ctx (CommPublicKey committee) (Some current) identity (rand_shuffle r index));
  let '(output, proof, receipt) := shuffled in
  _ ← wrap ErrRound (VerifySignedRound (CommPublicKey committee) (Some current) (Some output) proof receipt);
  outputEncoded ← encodeBatch output (rand_output r index);
  Ok (mkMixRoundFile inputEncoded outputEncoded (b64_encode proof) (receiptToFile receipt), output).

(** [cancelled] is asked once at the start and once before each operator's turn. *)
Fixpoint mix_rounds (committee : ThresholdCommittee) (identities : list byte -> list byte) (cancelled : nat -> bool) (r : randomness)
  (index : nat) (current : Batch) (operators : list Operator) : result batch_error (list MixRoundFile) :=
  match operators with
  | [] => Ok []
  | operator :: operators =>
      _ ← check (negb (cancelled (S index))) ErrCancelled;
      step ← mix_round committee r index current (identities (OpID operator));
      rest ← mix_rounds committee identities cancelled r (S index) step.2 operators;
      Ok (step.1 :: rest)
  end.

Definition generateCertified (ctx : option (nat -> bool)) (envelope : SignedEnvelope) (network : VerifiedTopology) (authority : list byte)
  (identities : list byte -> list byte) (certificate : Certificate) (certified : VerifiedCommittee) (memberSecrets : list MemberSecret)
  (r : randomness) : result batch_error Generated :=
  cancelled ← need ctx ErrContext;
  _ ← check (negb (cancelled O)) ErrCancelled;
  verified ← VerifySignedEnvelope envelope;
  let '(payload, root, publisher, objectSignature) := verified in
  let committee := VCCommittee certified in
  encrypted ← encrypt_object payload root committee r;
  let '(encoder, current) := encrypted in
  let generation := GenerationFor root in
  rounds ← mix_rounds committee identities cancelled r 0 current (Operators (TDocument network));
  finalPayloads ← decodePayloads (match List.last (map Some rounds) None with Some round => MROutput round | None => [] end);
  seed ← NewBundle finalPayloads;
  let stream := default [] (hex_decode (BFStreamID seed)) in
  descriptor ← SignDescriptor (mkBatchDescriptor DescriptorVersion (NetworkID (TDocument network)) (DocEpoch (TDocument network))
    (hex_encode (TDigest network)) (hex_encode stream) DefaultBatchSize (hex_encode generation) (u16 (K encoder)) (u16 (SymbolSize encoder))
    (u32 (OriginalSize encoder)) (hex_encode root) (encodeSourceCommitments (SourceCommitments encoder)) (b64_encode publisher)
    (b64_encode objectSignature) certificate rounds []) authority;
  let shares := map (fun ns => ShareFromSecret ns.2 (default (mkOperator 0 [] [] [] [] [] [] [] [] []) (operator_at (TDocument network) ns.1)) network)
                  (zip (seq 0 (length memberSecrets)) memberSecrets) in
  Ok (mkGenerated descriptor seed shares).

Definition GenerateCertified (ctx : option (nat -> bool)) (envelope : SignedEnvelope) (network : VerifiedTopology) (authority : list byte)
  (identities : list byte -> list byte) (certificate : Certificate) (r : randomness) : result batch_error Generated :=
  certified ← wrap ErrCertificate (VerifyCertificate certificate network);
  generateCertified ctx envelope network authority identities certificate certified [] r.
End generate.


(** ** The chosen size *)

Definition size_fits (contentSize batchSize s : Z) : Prop :=
  0 < s < capacity /\ ceil_div contentSize s <= batchSize /\ ceil_div contentSize s + s <= capacity.

Lemma choose_down_ok n batch start s : choose_down n batch start = Ok s -> Z.of_nat start < capacity ->
  size_fits n batch s /\ s <= Z.of_nat start /\ forall s', s < s' <= Z.of_nat start -> ~ size_fits n batch s'.
Proof.
  induction start as [|start IH]; [done|]. cbn [choose_down]. destruct (_ && _) eqn:E; intros Hs Hc.
  - injection Hs as <-. reflect_bools. unfold size_fits. split_and!; try lia.
  - destruct (IH Hs ltac:(lia)) as (Hf & Hle & Hmax). split_and!; [done|lia|]. intros s' Hs'.
    destruct (decide (s' = Z.of_nat (S start))) as [->|]; [|apply Hmax; lia]. intros (_ & H1' & H2').
    apply andb_false_iff in E as [E|E]; reflect_bools; lia.
Qed.

Lemma choose_down_err n batch start e : choose_down n batch start = Err e -> e = ErrObjectTooLarge /\ forall s, s <= Z.of_nat start -> ~ size_fits n batch s.
Proof.
  induction start as [|start IH]; cbn [choose_down].
  - intros [= <-]. split; [done|]. intros s Hs (Hp & _). lia.
  - destruct (_ && _) eqn:E; [done|]. intros He. destruct (IH He) as [-> Hno]. split; [done|]. intros s Hs.
    destruct (decide (s = Z.of_nat (S start))) as [->|]; [|apply Hno; lia]. intros (_ & H1' & H2').
    apply andb_false_iff in E as [E|E]; reflect_bools; lia.
Qed.

Lemma ceil_div_spec n s : 0 < n -> 0 < s -> 0 < ceil_div n s /\ n <= ceil_div n s * s /\ ceil_div n s * s < n + s.
Proof.
  intros Hn Hs. unfold ceil_div. pose proof (Z.div_mod (n + s - 1) s ltac:(lia)). pose proof (Z.mod_pos_bound (n + s - 1) s Hs). nia.
Qed.

(** The loop ends with the largest symbol that lets the object's symbols fit one
    generation of a batch and each coded symbol fit one packet, or refuses the
    object exactly if there is none; for the batches that are published, the
    objects accepted are those of at most 7360 bytes. *)
Theorem symbol_size_exact (n batch : Z) : 0 < n ->
  (forall s, chooseSymbolSize n batch = Ok s <-> size_fits n batch s /\ forall s', size_fits n batch s' -> s' <= s) /\
  (chooseSymbolSize n batch = Err ErrObjectTooLarge <-> forall s, ~ size_fits n batch s) /\
  ((exists s, chooseSymbolSize n DefaultBatchSize = Ok s) <-> n <= 7360).
Proof.
  intros Hn. unfold chooseSymbolSize. set (start := Z.to_nat (capacity - 1)).
  assert (Z.of_nat start = capacity - 1) as Hst by done.
  assert (forall batch s, choose_down n batch start = Ok s <-> size_fits n batch s /\ forall s', size_fits n batch s' -> s' <= s) as Hok.
  { intros bt s. split.
    - intros E. destruct (choose_down_ok _ _ _ _ E ltac:(lia)) as (Hf & Hle & Hmax). split; [done|]. intros s' Hs'.
      destruct (Z.le_gt_cases s' s); [done|]. exfalso. apply (Hmax s'); [|done]. destruct Hs' as [Hp _]. lia.
    - intros [Hf Hmax]. destruct (choose_down n bt start) as [s1|e] eqn:E.
      + destruct (choose_down_ok _ _ _ _ E ltac:(lia)) as (Hf1 & _ & Hmax1). f_equal.
        destruct (Z.lt_trichotomy s1 s) as [|[|]]; [|done|].
        * exfalso. apply (Hmax1 s); [|done]. destruct Hf as [Hp _]. lia.
        * specialize (Hmax s1 Hf1). lia.
      + destruct (choose_down_err _ _ _ _ E) as [_ Hno]. exfalso. apply (Hno s); [|done]. destruct Hf as [Hp _]. lia. }
  split_and!; [apply Hok| |].
  - split.
    + intros E s Hf. destruct (choose_down_err _ _ _ _ E) as [_ Hno]. apply (Hno s); [|done]. destruct Hf as [Hp _]. lia.
    + intros Hno. destruct (choose_down n batch start) as [s|e] eqn:E; [|by destruct (choose_down_err _ _ _ _ E) as [-> _]].
      apply Hok in E as [Hf _]. by destruct (Hno s).
  - split.
    + intros [s E]. apply Hok in E as [(Hp & Hk & Hc) _]. destruct (ceil_div_spec n s Hn ltac:(lia)) as (? & ? & ?).
      unfold DefaultBatchSize, capacity, PacketSize, PacketHeaderSize in *. nia.
    + intros Hle. destruct (choose_down n DefaultBatchSize start) as [s|e] eqn:E; [by exists s|].
      destruct (choose_down_err _ _ _ _ E) as [_ Hno]. exfalso. apply (Hno 460); [rewrite Hst; by vm_compute|].
      destruct (ceil_div_spec n 460 Hn ltac:(lia)) as (? & ? & ?). unfold size_fits, DefaultBatchSize, capacity, PacketSize, PacketHeaderSize. lia.
Qed.

Lemma symbol_size_exact_witness : chooseSymbolSize 1000 DefaultBatchSize = Ok 473 /\ chooseSymbolSize 7361 DefaultBatchSize = Err ErrObjectTooLarge /\
  size_fits 1000 DefaultBatchSize 473.
Proof.
  split; [vm_compute; reflexivity|]. split; [vm_compute; reflexivity|].
  apply (proj1 (symbol_size_exact 1000 DefaultBatchSize eq_refl) 473). vm_compute. reflexivity.
Defined.

(** ** Cells *)

Lemma published_size n : 0 < n <= 7360 -> exists s, chooseSymbolSize n DefaultBatchSize = Ok s /\ size_fits n DefaultBatchSize s.
Proof.
  intros Hn. unfold chooseSymbolSize. destruct (choose_down n DefaultBatchSize (Z.to_nat (capacity - 1))) as [s|e] eqn:E.
  - exists s. split; [done|]. by destruct (choose_down_ok _ _ _ _ E ltac:(by vm_compute)).
  - destruct (choose_down_err _ _ _ _ E) as [_ Hno]. exfalso. apply (Hno 460); [by vm_compute|].
    destruct (ceil_div_spec n 460 ltac:(lia) ltac:(lia)) as (? & ? & ?). unfold size_fits, DefaultBatchSize, capacity, PacketSize, PacketHeaderSize. lia.
Qed.

(** Draws that end with a vector of [k] coefficients that are not all zero. *)
Definition drawn (k : nat) (draws : list (option (list byte))) : Prop :=
  exists zeros c rest, draws = map Some zeros ++ Some c :: rest /\ Forall (fun z => anyNonZero z = false) zeros /\
    length c = k /\ anyNonZero c = true.

Lemma Encode_drawn e k draws : drawn k draws -> exists c, Encode e draws = Ok (encodeWith e c) /\ length c = k /\ anyNonZero c = true.
Proof.
  intros (zeros & c & rest & -> & Hz & Hl & Hc). exists c. split_and!; [|done..].
  induction Hz as [|z zeros Hz _ IH]; cbn [map app Encode]; [by rewrite Hc|by rewrite Hz].
Qed.

Lemma anyNonZero_unit k i : (i < k)%nat -> anyNonZero (unit_vector k i) = true.
Proof.
  intros Hi. destruct (anyNonZero (unit_vector k i)) eqn:E; [done|]. apply anyNonZero_false in E. rewrite length_unit in E.
  pose proof (nth_unit k i i Hi) as Hn. by rewrite E, nth_zeros, Nat.eqb_refl in Hn.
Qed.

Section cells.
Context `{HashFunction, SignatureScheme, KyberGroup, !Shuffles, CommitteeJSON, BatchJSON}.

(** The symbol of a cell of the batch. *)
Definition cell_symbol (e : Encoder) (index : nat) (s : Symbol) : Prop :=
  exists c, s = encodeWith e c /\ length c = length (source e) /\ anyNonZero c = true /\
    ((index < length (source e))%nat -> c = unit_vector (length (source e)) index).

(** A cell is the packet of its symbol. *)
Definition cell_of (e : Encoder) (generation : list byte) (index : nat) (cell : list byte) : Prop :=
  length cell = PlainCellSize /\ exists s, cell_symbol e index s /\
    ParsePacket cell = Ok (mkPacket generation (K e) (SymbolSize e) (OriginalSize e) s).

Lemma plain_cell_ok data size e generation (r : randomness) index : NewEncoder data size = Ok e -> size_fits (len data) DefaultBatchSize size ->
  len data <= 7360 -> length generation = 16%nat -> drawn (length (source e)) (rand_coeff r index) ->
  (exists padding, rand_packet r index = Some padding /\ (504 <= length padding)%nat) ->
  exists cell, plain_cell e generation r index = Ok cell /\ cell_of e generation index cell.
Proof.
  intros He (Hp & Hk & Hc) Hd Hg Hdraw (padding & Hpad & Hplen). destruct (NewEncoder_wf _ _ _ He) as (Hwf & Ho & _).
  pose proof (NewEncoder_symbolSize _ _ _ He) as Hsz. pose proof Hwf as (_ & Hvec & HK & Hor).
  assert (K e = ceil_div (len data) size) as EK.
  { unfold NewEncoder in He. destruct (_ <=? 0); [done|]. destruct (_ =? 0); [done|]. injection He as <-. unfold K. cbn [source].
    rewrite length_map, length_seq. change ((len data + size - 1) / size) with (ceil_div (len data) size).
    pose proof (ceil_div_spec (len data) size). lia. }
  assert (exists s, (if Z.of_nat index <? K e then Systematic e (Z.of_nat index) else Encode e (rand_coeff r index)) = Ok s /\ cell_symbol e index s)
    as (s & Es & c & -> & Hl & Hnz & Hunit).
  { destruct (Z.of_nat index <? K e) eqn:Ei; reflect_bools.
    - unfold Systematic. rewrite (proj2 (Z.ltb_ge _ _)), (proj2 (Z.leb_gt _ _)) by lia. cbn [orb]. rewrite Nat2Z.id.
      eexists. split; [done|]. eexists. unfold K in Ei. split_and!; [done|by rewrite length_unit|apply anyNonZero_unit; lia|done].
    - destruct (Encode_drawn e _ _ Hdraw) as (c & -> & Hl & Hc'). eexists. split; [done|]. exists c. split_and!; try done.
      unfold K in Ei. intros. lia. }
  unfold plain_cell. rewrite Es. cbn [wrap mbind result_bind].
  set (p := mkPacket generation (K e) (SymbolSize e) (OriginalSize e) (encodeWith e c)).
  unfold capacity, PacketSize, PacketHeaderSize, DefaultBatchSize in *.
  assert (packet_typed p) as Ht by (split; [done|]; cbn [p pOriginalSize]; unfold OriginalSize; lia).
  assert (packet_ok p) as Hok.
  { unfold packet_ok, p, SymbolSize, OriginalSize. cbn [pK pSymbolSize pOriginalSize pSymbol]. rewrite (encodeWith_comb e c Hwf). cbn [Coeff Data].
    rewrite length_comb, Hl by done. unfold K in *. split_and!; try lia. done. }
  unfold NewPacket. fold p. rewrite (proj2 (validate_ok p Ht) Hok). cbn [wrap mbind result_bind].
  rewrite Hpad. destruct (packet_roundtrip p padding Ht (proj2 (validate_ok p Ht) Hok) Hplen) as (wire & -> & Hwl & Hparse).
  cbn [wrap mbind result_bind]. eexists. split; [done|].
  assert (length wire = PlainCellSize) as Hwl' by (unfold PacketSize in Hwl; change PlainCellSize with 504%nat; lia).
  rewrite firstn_all2, Hwl', Nat.sub_diag, app_nil_r by lia. split; [done|]. exists (encodeWith e c). split; [by exists c|exact Hparse].
Qed.

(** *** Payload texts *)

(** The texts of a batch: its columns, whatever the padding was. *)
Definition batch_payloads (b : Batch) (n : nat) : list (list byte) := map (fun col => concat (map marshal (column_points b col))) (seq 0 n).

Lemma length_batch_payload b col : length (concat (map marshal (column_points b col))) = CiphertextSize.
Proof. rewrite length_points. unfold column_points. by rewrite length_pairs, length_seq. Qed.

Lemma marshal_cells_take b columns padding cells : marshal_cells b columns padding = Ok cells ->
  map (take CiphertextSize) cells = map (fun col => concat (map marshal (column_points b col))) columns.
Proof.
  revert padding cells. induction columns as [|col columns IH]; intros padding cells; cbn [marshal_cells]; [by intros [= <-]|].
  unfold marshal_cell. destruct (negb _); [done|]. destruct (negb _); [done|]. destruct (Nat.ltb _ _); [done|]. cbn [mbind result_bind fst snd].
  destruct (marshal_cells b columns _) as [rest|] eqn:E; [|done]. cbn [mbind result_bind]. intros [= <-]. cbn [map].
  rewrite (take_app_exact CiphertextSize) by apply length_batch_payload. f_equal. by eapply IH.
Qed.

Lemma encodeBatch_ok b n padding : batch_wf b n -> (48 * n <= length padding)%nat ->
  encodeBatch b padding = Ok (map b64_encode (batch_payloads b n)).
Proof.
  intros Hb Hp. unfold encodeBatch. destruct (wire_roundtrip b n padding Hb Hp) as (cells & Hm & _ & _ & _). rewrite Hm.
  cbn [wrap mbind result_bind]. f_equal. unfold MarshalWireWithPadding in Hm. rewrite (proj2 (validateBatch_ok b)) in Hm by eauto.
  cbn [mbind result_bind] in Hm. rewrite (Len_wf b n Hb) in Hm. apply marshal_cells_take in Hm. unfold batch_payloads. rewrite <- Hm.
  by rewrite !map_map.
Qed.

Lemma decodePayloads_encode payloads : (2 <= length payloads)%nat -> len payloads <= MaximumBatch ->
  Forall (fun p => length p = CiphertextSize) payloads -> decodePayloads (map b64_encode payloads) = Ok payloads.
Proof.
  intros Hmin Hm Hp. unfold decodePayloads. rewrite length_map. rewrite (proj2 (Z.ltb_ge _ _)), (proj2 (Z.ltb_ge _ _)) by lia.
  cbn [orb negb check mbind result_bind]. rewrite collect_map. rewrite (collect_ext _ (fun p => Ok p)).
  - rewrite (collect_total (fun p => p)). by rewrite map_id.
  - intros p Hin. rewrite Forall_forall in Hp. by rewrite decodeBase64_encode by (by apply Hp).
Qed.

Lemma batch_payloads_typed b n : Forall (fun p => length p = CiphertextSize) (batch_payloads b n).
Proof. unfold batch_payloads. apply Forall_map, Forall_forall. intros. apply length_batch_payload. Qed.

Lemma length_batch_payloads b n : length (batch_payloads b n) = n.
Proof. unfold batch_payloads. by rewrite length_map, length_seq. Qed.

Lemma parsePayloadBatch_payloads b n : batch_wf b n -> parsePayloadBatch (batch_payloads b n) = Ok b.
Proof.
  intros Hb. unfold parsePayloadBatch. rewrite (ParseWire_columns b n); [done|done|]. unfold batch_payloads. rewrite map_map.
  apply Forall2_fmap_r. apply Forall_Forall2_diag. apply Forall_forall. intros col _. unfold payload_cell.
  apply parse_cell_points. unfold column_points. by rewrite length_pairs, length_seq.
Qed.

Lemma batch_text b n : batch_wf b n -> Z.of_nat n <= MaximumBatch -> payloads_are (map b64_encode (batch_payloads b n)) b.
Proof.
  intros Hb Hn. exists (batch_payloads b n). split; [|by apply parsePayloadBatch_payloads].
  apply decodePayloads_encode; [rewrite length_batch_payloads; apply Hb|by rewrite length_batch_payloads|apply batch_payloads_typed].
Qed.
End cells.

(** ** Rounds *)

Section rounds.
Context `{HashFunction, SignatureScheme, KyberGroup, !Shuffles, CommitteeJSON, BatchJSON}.

(** The batches a publication passes through. *)
Fixpoint batches_met (c : ThresholdCommittee) (identities : list byte -> list byte) (r : randomness) (index : nat) (current : Batch)
  (operators : list Operator) : list Batch :=
  current ::
  match operators with
  | [] => []
  | operator :: operators =>
      match mix_round c r index current (identities (OpID operator)) with
      | Ok (_, output) => batches_met c identities r (S index) output operators
      | Err _ => []
      end
  end.

Definition digest_set (b : Batch) : Prop := sha256 (batch_message b) <> zeroID.

Lemma ShuffleAndSign_total ctx key h b n identity r : batch_wf b n -> publicPoint key = Ok h -> validateRoundContext ctx = Ok tt ->
  length identity = 64%nat -> CtxBatchID ctx = sha256 (batch_message b) ->
  exists out proof receipt, ShuffleAndSign ctx key (Some b) identity r = Ok (out, proof, receipt) /\
    InputDigest receipt = sha256 (batch_message b) /\ OutputDigest receipt = sha256 (batch_message out) /\
    length (RecSignature receipt) = 64%nat /\ proof <> [].
Proof.
  intros Hb Hk Hc Hi Hid. unfold ShuffleAndSign. rewrite Hc. cbn [mbind result_bind]. rewrite Hi. cbn [Nat.eqb negb].
  rewrite (BatchDigest_ok b n Hb). cbn [wrap mbind result_bind]. fold (batch_message b). rewrite bool_decide_true by done. cbn [negb].
  destruct (honest_shuffle key h b n (contextualShuffleProofDomain ctx) r Hb Hk ltac:(done)) as (b' & pf & -> & Hb' & Hv & _).
  cbn [wrap mbind result_bind]. rewrite (BatchDigest_ok b' n Hb'). cbn [wrap mbind result_bind]. eexists _, _, _. split; [done|].
  cbn [InputDigest OutputDigest RecSignature]. split_and!; [done|done|apply sign_length|].
  intros ->. unfold verifyShuffleWithDomain in Hv. by rewrite bool_decide_true in Hv.
Qed.

Section chain.
Context (network : VerifiedTopology) (c : ThresholdCommittee) (identities : list byte -> list byte) (r : randomness)
  (n : nat) (secret : scalar).
Hypothesis Hkey : publicPoint (CommPublicKey c) = Ok (pmul secret Base).
Hypothesis Hid : length (CommID c) = 32%nat /\ CommID c <> zeroID /\ CommEpoch c <> 0.
Hypothesis Hindexed : indexed (Operators (TDocument network)).
Hypothesis Hown : forall o, o ∈ Operators (TDocument network) -> length (identities (OpID o)) = 64%nat /\
  decodeBase64 (IdentityKey o) 32 = Some (public (identities (OpID o))).
Hypothesis Hpadding : forall i, (48 * n <= length (rand_input r i))%nat /\ (48 * n <= length (rand_output r i))%nat.
Hypothesis Hsize : Z.of_nat n <= MaximumBatch.

(** The file of a round that took [b] to [out]. *)
Definition round_file (b out : Batch) (proof : list byte) (receipt : RoundReceipt) : MixRoundFile :=
  mkMixRoundFile (map b64_encode (batch_payloads b n)) (map b64_encode (batch_payloads out n)) (b64_encode proof) (receiptToFile receipt).

Definition round_facts (index : nat) (b out : Batch) (proof : list byte) (receipt : RoundReceipt) : Prop :=
  batch_wf out n /\ receipt_typed receipt /\ proof <> [] /\ mixes secret n b out /\
  CtxRound (RecContext receipt) = u32 (Z.of_nat index) /\ CtxCommittee (RecContext receipt) = CommID c /\ CtxEpoch (RecContext receipt) = CommEpoch c /\
  InputDigest receipt = sha256 (batch_message b) /\ OutputDigest receipt = sha256 (batch_message out) /\
  MixerPublic receipt = expectedIdentity network index /\
  VerifySignedRound (CommPublicKey c) (Some b) (Some out) proof receipt = Ok tt.

Lemma mix_round_ok index b o : batch_wf b n -> digest_set b -> Operators (TDocument network) !! index = Some o ->
  exists out proof receipt, mix_round c r index b (identities (OpID o)) = Ok (round_file b out proof receipt, out) /\
    round_facts index b out proof receipt.
Proof.
  intros Hb Hz Ho. destruct (Hown o) as [Hl Hdec]; [by eapply list_elem_of_lookup_2|]. destruct (Hpadding index) as [Hpi Hpo].
  destruct Hid as (Hidl & Hidz & Hep). unfold mix_round. rewrite Hl. cbn [Nat.eqb check mbind result_bind].
  rewrite (encodeBatch_ok b n _ Hb Hpi). cbn [mbind result_bind]. rewrite (BatchDigest_ok b n Hb). fold (batch_message b). cbn [wrap mbind result_bind].
  set (ctx := mkRoundContext _ _ _ _).
  assert (validateRoundContext ctx = Ok tt) as Hctx.
  { unfold validateRoundContext, isZeroCommitteeID, ctx. cbn [CtxCommittee CtxEpoch CtxBatchID]. rewrite !bool_decide_false by done.
    apply Z.eqb_neq in Hep. by rewrite Hep. }
  destruct (ShuffleAndSign_total ctx _ _ b n (identities (OpID o)) (rand_shuffle r index) Hb Hkey Hctx Hl eq_refl)
    as (out & proof & receipt & Hs & Hin & Hout & Hsig & Hne).
  destruct (ShuffleAndSign_ok _ _ _ _ _ _ _ _ _ _ Hb Hkey Hs) as (Hwf & Ectx & Emix & _ & Hpd & Hv & Hre).
  rewrite Hs. cbn [wrap mbind result_bind]. rewrite Hv. cbn [wrap mbind result_bind]. rewrite (encodeBatch_ok out n _ Hwf Hpo). cbn [mbind result_bind].
  exists out, proof, receipt. split; [done|]. unfold round_facts. rewrite Ectx. cbn [ctx CtxRound CtxCommittee CtxEpoch].
  split_and!; try done.
  - unfold receipt_typed. rewrite Ectx, Emix, Hin, Hout, Hpd. cbn [ctx CtxCommittee CtxBatchID].
    pose proof (sha256_digest (batch_message b)). pose proof (sha256_digest (batch_message out)). pose proof (sha256_digest proof).
    split_and!; try done. by apply public_length.
  - by apply reencrypts_mixes.
  - rewrite Emix. unfold expectedIdentity, operator_at. rewrite Ho. simpl. destruct (Hindexed index o Ho) as [-> _]. by rewrite Nat.eqb_refl, Hdec.
Qed.

Lemma decode_batch_text b : batch_wf b n -> decodePayloads (map b64_encode (batch_payloads b n)) = Ok (batch_payloads b n).
Proof.
  intros Hb. apply decodePayloads_encode; [|by rewrite length_batch_payloads|apply batch_payloads_typed].
  rewrite length_batch_payloads. apply Hb.
Qed.

(** A tracker that has accepted no receipt of round [index] or later. *)
Definition tracker_before (index : nat) (t : ReceiptTracker) : Prop :=
  trackCommittee t = CommID c /\ trackEpoch t = CommEpoch c /\ forall k d, Rounds.seen t !! k = Some d -> exists i, (i < index)%nat /\ k.2 = u32 (Z.of_nat i).

Lemma tracker_advances index t receipt : tracker_before index t -> (index < 64)%nat -> CtxRound (RecContext receipt) = u32 (Z.of_nat index) ->
  CtxCommittee (RecContext receipt) = CommID c -> CtxEpoch (RecContext receipt) = CommEpoch c ->
  exists t', TrackerAccept t receipt = (t', Ok tt) /\ tracker_before (S index) t'.
Proof.
  intros (Ec & Ee & Hs) Hi Hr Hc He. unfold TrackerAccept. rewrite Ec, Ee, Hc, He, bool_decide_true, Z.eqb_refl by done. cbn [negb orb]. cbv zeta.
  destruct (Rounds.seen t !! _) as [d|] eqn:E.
  - exfalso. apply Hs in E as (i & Hlt & Ei). simpl in Ei. rewrite Hr in Ei. rewrite !wrapu_small in Ei by (unfold fits; lia). lia.
  - eexists. split; [done|]. split_and!; [done|done|]. cbn [Rounds.seen]. intros k d. rewrite lookup_insert_Some.
    intros [[<- _]|[_ Hk]]; [exists index; simpl; split; [lia|done]|]. destruct (Hs k d Hk) as (i & Hlt & Ei). exists i. split; [lia|done].
Qed.

Lemma verify_rounds_step t index previous b out proof receipt files : batch_wf b n -> tracker_before index t -> (index < 64)%nat ->
  (index = 0%nat \/ previous = sha256 (batch_message b)) -> round_facts index b out proof receipt ->
  (match files with next :: _ => MRInput next = map b64_encode (batch_payloads out n) | [] => True end) ->
  (forall t', tracker_before (S index) t' ->
     verify_rounds (Z.of_nat n) c network t' (S index) (sha256 (batch_message out)) files = Ok tt) ->
  verify_rounds (Z.of_nat n) c network t index previous (round_file b out proof receipt :: files) = Ok tt.
Proof.
  intros Hb Ht Hi Hprev (Hwf & Hty & Hne & _ & Hr & Hc & He & Hin & Hout & Hmix & Hv) Hnext Hrest.
  cbn [verify_rounds round_file MRInput MROutput MRProof MRReceipt].
  rewrite (decode_batch_text b Hb). cbn [mbind result_bind]. rewrite (decode_batch_text out Hwf). cbn [mbind result_bind].
  rewrite !length_batch_payloads, Nat.eqb_refl, Z.eqb_refl. cbn [andb check mbind result_bind].
  rewrite (parsePayloadBatch_payloads b n Hb). cbn [mbind result_bind]. rewrite (parsePayloadBatch_payloads out n Hwf). cbn [mbind result_bind].
  rewrite DecodeBase64_encode. cbn [need mbind result_bind]. rewrite bool_decide_false by done. cbn [negb check mbind result_bind].
  rewrite (receipt_file_roundtrip _ Hty). cbn [mbind result_bind]. cbv zeta. rewrite Hr, Hc, He, !Z.eqb_refl, (bool_decide_true (CommID c = CommID c)) by done.
  cbn [andb check mbind result_bind]. rewrite (bool_decide_true (MixerPublic receipt = _)) by done. cbn [check mbind result_bind].
  assert (Nat.eqb index 0 || bool_decide (InputDigest receipt = previous) = true) as ->.
  { destruct Hprev as [-> | ->]; [done|]. by rewrite Hin, bool_decide_true, orb_true_r. }
  cbn [check mbind result_bind]. rewrite Hv. cbn [wrap mbind result_bind].
  destruct (tracker_advances _ _ _ Ht Hi Hr Hc He) as (t' & -> & Ht'). cbn [wrap mbind result_bind].
  assert (match files with next :: _ => equalEncodedPayloads (map b64_encode (batch_payloads out n)) (MRInput next) | [] => true end = true) as ->.
  { destruct files as [|next files]; [done|]. apply equalCells_ok. by symmetry. }
  cbn [check mbind result_bind]. rewrite Hout. by apply Hrest.
Qed.

Lemma mix_rounds_ok operators cancelled index b : (forall i, cancelled i = false) -> batch_wf b n ->
  drop index (Operators (TDocument network)) = operators -> (length (Operators (TDocument network)) <= 64)%nat ->
  Forall digest_set (batches_met c identities r index b operators) ->
  exists files final, mix_rounds c identities cancelled r index b operators = Ok files /\ length files = length operators /\
    batch_wf final n /\ mixes secret n b final /\
    (match files with
     | first :: rest => MRInput first = map b64_encode (batch_payloads b n) /\ length (MROutput first) = n /\
         MROutput (List.last rest first) = map b64_encode (batch_payloads final n)
     | [] => final = b
     end) /\
    forall t previous, tracker_before index t -> index = 0%nat \/ previous = sha256 (batch_message b) ->
      verify_rounds (Z.of_nat n) c network t index previous files = Ok tt.
Proof.
  intros Hcan Hb Hdrop Hle. revert index b Hb Hdrop. induction operators as [|o operators IH]; intros index b Hb Hdrop Hz.
  { exists [], b. split_and!; try done. apply mixes_refl. }
  assert (Operators (TDocument network) !! index = Some o) as Ho by (rewrite <- (Nat.add_0_r index), <- lookup_drop, Hdrop; done).
  pose proof (lookup_lt_Some _ _ _ Ho) as Hlt.
  cbn [batches_met] in Hz. apply Forall_cons in Hz as [Hz Hzs].
  destruct (mix_round_ok index b o Hb Hz Ho) as (out & proof & receipt & Hm & Hf). rewrite Hm in Hzs. pose proof Hf as (Hout & _ & _ & Hmx & _).
  destruct (IH (S index) out Hout) as (files & final & Hms & Hl & Hfin & Hmxs & Hshape & Hvs).
  { rewrite <- Nat.add_1_r, <- drop_drop, Hdrop. done. }
  { done. }
  exists (round_file b out proof receipt :: files), final. cbn [mix_rounds]. rewrite Hcan. cbn [negb check mbind result_bind]. rewrite Hm.
  cbn [mbind result_bind fst snd]. rewrite Hms. cbn [mbind result_bind]. split_and!; try done.
  - simpl. lia.
  - exact (mixes_trans _ _ _ _ _ Hmx Hmxs).
  - cbn [MROutput round_file]. by rewrite length_map, length_batch_payloads.
  - destruct files as [|f2 rest]; [by subst final|]. rewrite last_default. apply Hshape.
  - intros t previous Ht Hprev. apply verify_rounds_step; try done; [lia| |].
    + destruct files as [|f2 rest]; [done|]. apply Hshape.
    + intros t' Ht'. apply Hvs; [done|by right].
Qed.
End chain.
End rounds.

(** ** What is published verifies *)

Section published.
Context `{HashFunction, SignatureScheme, KyberGroup, !Shuffles, CommitteeJSON, BatchJSON}.

(** The draws suffice for an object of [k] source symbols. *)
Definition draws_ok (k : nat) (r : randomness) : Prop :=
  forall i, drawn k (rand_coeff r i) /\ (exists padding, rand_packet r i = Some padding /\ (504 <= length padding)%nat) /\
    (768 <= length (rand_input r i))%nat /\ (768 <= length (rand_output r i))%nat.

Definition symbol_count (payload : list byte) : nat :=
  match chooseSymbolSize (len payload) DefaultBatchSize with Ok s => Z.to_nat (ceil_div (len payload) s) | Err _ => O end.

Lemma encrypt_object_ok payload root c r h : payload <> [] -> len payload <= 7360 -> publicPoint (CommPublicKey c) = Ok h ->
  Z.of_nat ChunkSize <= EmbedLen -> draws_ok (symbol_count payload) r ->
  exists e cells b size, encrypt_object payload root c r = Ok (e, b) /\ NewEncoder payload size = Ok e /\ size_fits (len payload) DefaultBatchSize size /\
    K e = ceil_div (len payload) size /\ length cells = 16%nat /\
    (forall i cell, cells !! i = Some cell -> cell_of e (GenerationFor root) i cell) /\
    Encrypt (CommPublicKey c) cells (rand_encrypt r) = Ok b /\ batch_wf b 16.
Proof.
  intros Hne Hle Hk Hemb Hr. assert (0 < len payload) as Hpos by (destruct payload; [done|simpl; lia]).
  destruct (published_size (len payload)) as (size & Hsize & Hfit); [lia|]. pose proof Hfit as (Hsz & HK & Hcap).
  destruct (NewEncoder payload size) as [e|] eqn:He.
  2: { unfold NewEncoder in He. rewrite (proj2 (Z.leb_gt _ _)), (proj2 (Z.eqb_neq _ _)) in He by lia. done. }
  destruct (ceil_div_spec (len payload) size Hpos ltac:(lia)) as (Hc1 & Hc2 & Hc3).
  assert (K e = ceil_div (len payload) size) as EK.
  { unfold NewEncoder in He. rewrite (proj2 (Z.leb_gt _ _)), (proj2 (Z.eqb_neq _ _)) in He by lia. injection He as <-. unfold K. cbn [source].
    rewrite length_map, length_seq. change ((len payload + size - 1) / size) with (ceil_div (len payload) size). lia. }
  assert (symbol_count payload = length (source e)) as Hcount by (unfold symbol_count; rewrite Hsize, <- EK; unfold K; lia).
  assert (length (GenerationFor root) = 16%nat) as Hg.
  { unfold GenerationFor. rewrite length_take. pose proof (sha256_digest (generationDomain ++ root)) as Hd. unfold is_digest in Hd. lia. }
  assert (exists cells, collect (plain_cell e (GenerationFor root) r) (seq 0 16) = Ok cells /\
    forall i cell, cells !! i = Some cell -> cell_of e (GenerationFor root) i cell) as (cells & Hcells & Hof).
  { assert (forall i, exists cell, plain_cell e (GenerationFor root) r i = Ok cell /\ cell_of e (GenerationFor root) i cell) as Hall.
    { intros i. destruct (Hr i) as (Hd & Hp & _). rewrite Hcount in Hd. by apply (plain_cell_ok payload size). }
    clear - Hall. assert (forall k start, exists cells, collect (plain_cell e (GenerationFor root) r) (seq start k) = Ok cells /\
      forall i cell, cells !! i = Some cell -> cell_of e (GenerationFor root) (start + i) cell) as Hgen.
    { induction k as [|k IH]; intros start; [by exists []|]. destruct (Hall start) as (cell & Hc & Ho). destruct (IH (S start)) as (cells & Hcs & Hos).
      exists (cell :: cells). cbn [seq collect]. rewrite Hc. cbn [mbind result_bind]. rewrite Hcs. split; [done|].
      intros [|i] x Hx; [injection Hx as <-; by rewrite Nat.add_0_r|]. rewrite <- Nat.add_succ_comm. by apply Hos. }
    apply (Hgen 16%nat 0%nat). }
  assert (length cells = 16%nat) as Hl by (apply collect_ok, Forall2_length in Hcells; by rewrite length_seq in Hcells).
  assert (exists b, Encrypt (CommPublicKey c) cells (rand_encrypt r) = Ok b) as [b Hb].
  { unfold Encrypt. rewrite Hl. change (Z.of_nat 16 <? 2) with false. cbn iota. rewrite (proj2 (Z.ltb_ge _ _)) by done. rewrite Hk. by eexists. }
  exists e, cells, b, size. split_and!; try done.
  - unfold encrypt_object. rewrite Hsize. cbn [mbind result_bind]. rewrite He. cbn [wrap mbind result_bind].
    rewrite (proj2 (Z.ltb_ge _ _)) by lia. cbn [negb check mbind result_bind]. change (Z.to_nat DefaultBatchSize) with 16%nat. rewrite Hcells.
    cbn [mbind result_bind]. by rewrite Hb.
  - destruct (Encrypt_ok _ _ _ _ Hb) as (_ & _ & _ & Hwf & _). by rewrite Hl in Hwf.
Qed.

(** A published object: how it was coded, the batch it ends in, and what its
    descriptor and bundle say. *)
Record published (payload root publisher signature : list byte) (network : VerifiedTopology) (authority : list byte)
  (certificate : Certificate) (certified : VerifiedCommittee) (secret : scalar) (g : Generated)
  (e : Encoder) (size : Z) (cells : list (list byte)) (final : Batch) : Prop := {
  pub_encoder : NewEncoder payload size = Ok e;
  pub_size : size_fits (len payload) DefaultBatchSize size /\ K e = ceil_div (len payload) size;
  pub_cells : length cells = 16%nat /\ forall i cell, cells !! i = Some cell -> cell_of e (GenerationFor root) i cell;
  pub_final : batch_wf final 16 /\ plain_cells secret final 16 ≡ₚ map Ok cells /\ honest_batch final 16;
  pub_bundle : NewBundle (batch_payloads final 16) = Ok (GenBundle g);
  pub_verifies : forall encoded, encoded <> [] -> len encoded <= MaximumBatchBytes -> RejectDuplicateKeys encoded = Ok tt ->
    descriptor_parse encoded = Some (GenDescriptor g) ->
    exists stream, StreamFor (batch_payloads final 16) = Ok stream /\
      VerifyBatchDescriptor encoded (public authority) network = Ok (mkVerifiedDescriptor (GenDescriptor g) stream (GenerationFor root) root publisher
        signature (VCCommittee certified) (VCTranscript certified) certified (SourceCommitments e));
  pub_fields : BDK (GenDescriptor g) = K e /\ BDSymbolSize (GenDescriptor g) = size /\ BDOriginalSize (GenDescriptor g) = len payload /\
    exists stream, StreamFor (batch_payloads final 16) = Ok stream /\ BDStreamID (GenDescriptor g) = hex_encode stream;
  pub_typed : fits 64 (DocEpoch (TDocument network)) -> descriptor_typed (GenDescriptor g);
}.

Lemma set_signature_twice d x y : set_signature (set_signature d x) y = set_signature d y.
Proof. done. Qed.

Lemma length_stream payloads stream : StreamFor payloads = Ok stream -> length stream = 16%nat.
Proof.
  unfold StreamFor. destruct (_ || _); [done|]. intros [= <-]. rewrite length_take.
  match goal with |- context [sha256 ?m] => pose proof (sha256_digest m) as Hd end. unfold is_digest in Hd. lia.
Qed.

Lemma VerifySignedEnvelope_ok e payload root publisher signature : VerifySignedEnvelope e = Ok (payload, root, publisher, signature) ->
  EnvVersion e = EnvelopeVersion /\ DecodeBase64 (EnvPayload e) = Some payload /\ payload <> [] /\ len payload <= MaximumPayloadBytes /\ root = sha256 payload /\
  length publisher = 32%nat /\ length signature = 64%nat /\ verify publisher (SigningMessage root) signature = true.
Proof.
  unfold VerifySignedEnvelope. intros E. run_checks E. injection E as <- <- <- <-. reflect_bools.
  repeat match goal with Hb : decodeBase64 _ _ = Some _ |- _ => apply decodeBase64_length in Hb end. by split_and!.
Qed.

Lemma certified_committee certificate network certified : VerifyCertificate certificate network = Ok certified ->
  let c := VCCommittee certified in
  length (CommID c) = 32%nat /\ CommID c <> zeroID /\ CommEpoch c <> 0 /\
  length (CommMembers c) = length (Operators (TDocument network)) /\ (3 <= length (Operators (TDocument network)) <= 64)%nat.
Proof.
  intros [Hm _]%VerifyCertificate_ok. cbv zeta. pose proof (mo_valid _ _ _ _ Hm) as Hv. destruct (validate_bounds _ Hv) as [Hb _].
  pose proof (mo_members _ _ _ _ Hm) as Hl. split_and!; try lia.
  - pose proof (mo_id _ _ _ _ Hm) as Hi. unfold IDForTopology in Hi. run_demands Hi. injection Hi as <-. apply sha256_digest.
  - intros Ez. unfold validateThresholdCommittee, isZeroCommitteeID in Hv. by rewrite bool_decide_true in Hv.
  - intros Ez. unfold validateThresholdCommittee in Hv. destruct (isZeroCommitteeID _); [done|]. by rewrite (proj2 (Z.eqb_eq _ _) Ez) in Hv.
Qed.

Section generated.
Context (cancelled : nat -> bool) (envelope : SignedEnvelope) (network : VerifiedTopology) (authority : list byte)
  (identities : list byte -> list byte) (certificate : Certificate) (certified : VerifiedCommittee) (secret : scalar) (r : randomness)
  (payload root publisher signature : list byte).
Hypothesis Henv : VerifySignedEnvelope envelope = Ok (payload, root, publisher, signature).
Hypothesis Hsize : len payload <= 7360.
Hypothesis Hcert : VerifyCertificate certificate network = Ok certified.
Hypothesis Hkey : publicPoint (CommPublicKey (VCCommittee certified)) = Ok (pmul secret Base).
Hypothesis Hembed : Z.of_nat ChunkSize <= EmbedLen.
Hypothesis Hindexed : indexed (Operators (TDocument network)).
Hypothesis Hauthority : length authority = 64%nat.
Hypothesis Hown : forall o, o ∈ Operators (TDocument network) -> length (identities (OpID o)) = 64%nat /\
  decodeBase64 (IdentityKey o) 32 = Some (public (identities (OpID o))).
Hypothesis Hdraws : draws_ok (symbol_count payload) r.
Hypothesis Hcancel : forall i, cancelled i = false.
Hypothesis Hdigests : forall e b, encrypt_object payload root (VCCommittee certified) r = Ok (e, b) ->
  Forall digest_set (batches_met (VCCommittee certified) identities r 0 b (Operators (TDocument network))).

Lemma generate_ok : exists g e size cells final,
  GenerateCertified (Some cancelled) envelope network authority identities certificate r = Ok g /\
  published payload root publisher signature network authority certificate certified secret g e size cells final.
Proof.
  destruct (VerifySignedEnvelope_ok _ _ _ _ _ Henv) as (_ & _ & Hne & _ & -> & Hpl & Hsl & Hsig).
  destruct (encrypt_object_ok payload (sha256 payload) (VCCommittee certified) r _ Hne Hsize Hkey Hembed Hdraws)
    as (e & cells & b & size & Henc & He & Hfit & HK & Hcl & Hcells & Hb & Hwf).
  destruct (certified_committee _ _ _ Hcert) as (Hidl & Hidz & Hep & Hml & Hol).
  destruct (mix_rounds_ok network (VCCommittee certified) identities r 16 secret Hkey (conj Hidl (conj Hidz Hep)) Hindexed Hown
    ltac:(intros i; by destruct (Hdraws i) as (_ & _ & ? & ?)) ltac:(by vm_compute)
    (Operators (TDocument network)) cancelled 0 b Hcancel Hwf eq_refl ltac:(lia) (Hdigests _ _ Henc))
    as (files & final & Hmix & Hfl & Hfwf & Hmx & Hshape & Hvr).
  destruct files as [|first rest]; [simpl in Hfl; lia|]. destruct Hshape as (_ & Hfirst & Hlast).
  assert (exists stream, StreamFor (batch_payloads final 16) = Ok stream) as [stream Hstream].
  { unfold StreamFor. rewrite length_batch_payloads. change ((Z.of_nat 16 <? 2) || (MaximumBatch <? Z.of_nat 16)) with false. by eexists. }
  pose proof (length_stream _ _ Hstream) as Hstl.
  assert (decodePayloads (match List.last (map Some (first :: rest)) None with Some round => MROutput round | None => [] end) = Ok (batch_payloads final 16)) as Hdec.
  { rewrite last_map_Some, Hlast. by apply (decode_batch_text 16); [by vm_compute|]. }
  assert (NewBundle (batch_payloads final 16) = Ok (mkBundleFile BundleVersion (hex_encode stream) (map b64_encode (batch_payloads final 16)))) as Hnew.
  { unfold NewBundle. by rewrite Hstream. }
  destruct (NewEncoder_wf _ _ _ He) as (Hewf & Hor & _). pose proof (NewEncoder_symbolSize _ _ _ He) as Hes.
  destruct Hewf as (Hes0 & Hvec & HK0 & Hor0). destruct Hfit as (Hs0 & Hk16 & Hcap).
  unfold capacity, PacketSize, PacketHeaderSize, DefaultBatchSize in *.
  set (unsigned := mkBatchDescriptor DescriptorVersion (NetworkID (TDocument network)) (DocEpoch (TDocument network))
    (hex_encode (TDigest network)) (hex_encode stream) DefaultBatchSize (hex_encode (GenerationFor (sha256 payload))) (u16 (K e)) (u16 (SymbolSize e))
    (u32 (OriginalSize e)) (hex_encode (sha256 payload)) (encodeSourceCommitments (SourceCommitments e)) (b64_encode publisher)
    (b64_encode signature) certificate (first :: rest) []).
  set (signed := set_signature unsigned (b64_encode (sign authority (descriptor_message (set_signature unsigned []))))).
  exists (mkGenerated signed (mkBundleFile BundleVersion (hex_encode stream) (map b64_encode (batch_payloads final 16))) []), e, size, cells, final.
  split.
  - unfold GenerateCertified. rewrite Hcert. cbn [wrap mbind result_bind]. unfold generateCertified. cbn [need mbind result_bind].
    rewrite Hcancel. cbn [negb check mbind result_bind]. rewrite Henv. cbn [mbind result_bind]. rewrite Henc. cbn [mbind result_bind].
    rewrite Hmix. cbn [mbind result_bind]. rewrite Hdec. cbn [mbind result_bind]. rewrite Hnew. cbn [mbind result_bind BFStreamID].
    rewrite hex_decode_encode. cbn [default]. unfold SignDescriptor. rewrite Hauthority. done.
  - assert (u16 (K e) = K e) as EuK by (apply wrapu_small; unfold fits; lia).
    assert (u16 (SymbolSize e) = size) as EuS by (unfold SymbolSize; rewrite Hes; apply wrapu_small; unfold fits; lia).
    assert (u32 (OriginalSize e) = len payload) as EuO by (unfold OriginalSize; rewrite Hor; apply wrapu_small; unfold fits; lia).
    split.
    + done.
    + split; [by unfold size_fits, capacity, PacketSize, PacketHeaderSize, DefaultBatchSize|done].
    + done.
    + split_and!; [done| |].
      * rewrite (mixes_plain _ _ _ _ Hmx). rewrite <- Hcl. erewrite (encrypted_plain secret _ cells); [done|exact Hkey|exact Hb|].
        apply Forall_forall. intros cell Hin. apply list_elem_of_lookup in Hin as [i Hi]. by destruct (Hcells i cell Hi).
      * apply (mixes_honest _ _ _ _ Hmx). rewrite <- Hcl. by eapply Encrypt_honest.
    + done.
    + intros encoded Hnil Hlen Hdup Hparse. exists stream. split; [done|]. cbn [GenDescriptor].
      apply VerifyBatchDescriptor_intro with (authoritySignature := sign authority (descriptor_message (set_signature unsigned []))) (final := batch_payloads final 16);
        try done; cbn [signed unsigned set_signature BDVersion BDNetworkID BDTopologyEpoch BDTopologyDigest BDStreamID BDBatchSize BDGeneration BDK BDSymbolSize
        BDOriginalSize BDContentHash BDSourceCommitments BDPublisherKey BDObjectSignature BDCertificate BDMixRounds BDAuthoritySignature].
      all: rewrite ?EuK, ?EuS, ?EuO; try lia.
      * by apply public_length.
      * by rewrite decodeBase64_encode by apply sign_length.
      * unfold signed. rewrite set_signature_twice. by apply sign_verify.
      * by apply canonical_hex_encode.
      * exists first, rest. by rewrite Hfirst.
      * apply canonical_hex_encode, sha256_digest.
      * by apply decodeBase64_encode.
      * by apply decodeBase64_encode.
      * apply canonical_hex_encode. unfold GenerationFor. rewrite length_take. pose proof (sha256_digest (generationDomain ++ sha256 payload)) as Hd.
        unfold is_digest in Hd. lia.
      * unfold MaximumPayloadBytes. lia.
      * unfold capacity, PacketSize, PacketHeaderSize. lia.
      * unfold encodeSourceCommitments, SourceCommitments, CommitSource. by rewrite length_map, length_imap.
      * unfold encodeSourceCommitments. rewrite collect_map, (collect_ext _ (fun x => Ok x)); [rewrite (collect_total (fun x => x)); by rewrite map_id|].
        intros x Hx. rewrite canonical_hex_encode; [done|]. unfold SourceCommitments, CommitSource in Hx.
        apply list_elem_of_lookup in Hx as [k Hk]. rewrite list_lookup_imap in Hk. apply fmap_Some in Hk as (y & _ & ->). apply sha256_digest.
      * unfold verifyMixRounds, NewReceiptTracker, isZeroCommitteeID. rewrite bool_decide_false by done. rewrite (proj2 (Z.eqb_neq _ _)) by done.
        cbn [orb wrap mbind result_bind]. cbv zeta. unfold receiptBatchSize. rewrite Hfirst.
        rewrite Hvr; [cbn [mbind result_bind]; exact Hdec| |by left]. split_and!; [done|done|]. intros k d. cbn [Rounds.seen]. by rewrite lookup_empty.
    + cbn [GenDescriptor signed unsigned set_signature BDK BDSymbolSize BDOriginalSize BDStreamID]. rewrite EuK, EuS, EuO. split_and!; [done..|]. by exists stream.
    + intros Hepoch. unfold descriptor_typed. cbn [GenDescriptor signed unsigned set_signature BDTopologyEpoch BDBatchSize BDK BDSymbolSize BDOriginalSize].
      rewrite EuK, EuS, EuO. unfold fits, DefaultBatchSize in *. split_and!; lia.
Qed.
End generated.
End published.

Lemma VerifyBundle_new `{HashFunction, BatchJSON} payloads file encoded : NewBundle payloads = Ok file -> Forall (fun p => length p = CiphertextSize) payloads ->
  encoded <> [] -> len encoded <= MaximumBundleBytes -> bundle_parse encoded = Some file ->
  exists stream, StreamFor payloads = Ok stream /\ VerifyBundle encoded = Ok (stream, payloads).
Proof.
  unfold NewBundle. destruct (StreamFor payloads) as [stream|] eqn:Es; [|done]. cbn [wrap mbind result_bind]. intros [= <-] Hp Hne Hl Hj.
  exists stream. split; [done|]. pose proof (length_stream _ _ Es) as Hsl.
  assert ((len payloads <? 2) || (MaximumBatch <? len payloads) = false) as Hcount by (unfold StreamFor in Es; by destruct (_ || _)).
  unfold VerifyBundle. rewrite bool_decide_false by done. rewrite (proj2 (Z.ltb_ge _ _)) by done. cbn [orb negb check mbind result_bind].
  rewrite Hj. cbn [need mbind result_bind BFVersion BFStreamID BFCells]. rewrite bool_decide_true by done. rewrite length_map, Hcount.
  cbn [andb negb check mbind result_bind]. rewrite hex_decode_encode. cbn [need mbind result_bind]. rewrite Hsl. cbn [Nat.eqb check mbind result_bind].
  rewrite collect_map, (collect_ext _ (fun p => Ok p)).
  - rewrite (collect_total (fun p => p)). rewrite map_id. cbn [mbind result_bind]. rewrite Es. cbn [wrap mbind result_bind]. by rewrite bool_decide_true.
  - intros p Hin. rewrite Forall_forall in Hp. by rewrite decodeBase64_encode by (by apply Hp).
Qed.

(** Publication succeeds and what it publishes is accepted: for every signed
    envelope of at most 7360 bytes, certified committee and operators' identities,
    and every choice of randomness that the drawing loops accept, a descriptor and
    a seed bundle are produced; a text of the descriptor verifies under the
    authority's key, for the envelope's object, publisher and signature, with the
    commitments of its source symbols; and a text of the bundle verifies to the
    payloads of the very batch the descriptor's stream commits to.  (No batch on
    the way may have the digest of zeros, which rounds refuse as unset.) *)
Theorem publication_verifies `{HashFunction, SignatureScheme, KyberGroup, !Shuffles, CommitteeJSON, BatchJSON}
  cancelled envelope network authority identities certificate certified secret r payload root publisher signature :
  VerifySignedEnvelope envelope = Ok (payload, root, publisher, signature) -> len payload <= 7360 ->
  VerifyCertificate certificate network = Ok certified -> publicPoint (CommPublicKey (VCCommittee certified)) = Ok (pmul secret Base) ->
  Z.of_nat ChunkSize <= EmbedLen -> indexed (Operators (TDocument network)) -> length authority = 64%nat ->
  (forall o, o ∈ Operators (TDocument network) -> length (identities (OpID o)) = 64%nat /\
    decodeBase64 (IdentityKey o) 32 = Some (public (identities (OpID o)))) ->
  draws_ok (symbol_count payload) r -> (forall i, cancelled i = false) ->
  (forall e b, encrypt_object payload root (VCCommittee certified) r = Ok (e, b) ->
    Forall digest_set (batches_met (VCCommittee certified) identities r 0 b (Operators (TDocument network)))) ->
  exists g e stream final, GenerateCertified (Some cancelled) envelope network authority identities certificate r = Ok g /\
    StreamFor final = Ok stream /\
    (forall encoded, encoded <> [] -> len encoded <= MaximumBatchBytes -> RejectDuplicateKeys encoded = Ok tt ->
      descriptor_parse encoded = Some (GenDescriptor g) ->
      exists v, VerifyBatchDescriptor encoded (public authority) network = Ok v /\ VDStream v = stream /\ VDRoot v = root /\
        VDPublisher v = publisher /\ VDSignature v = signature /\ VDCommitments v = SourceCommitments e /\
        BDOriginalSize (VDDescriptor v) = len payload /\ take (length payload) (concat (source e)) = payload) /\
    (forall encoded, encoded <> [] -> len encoded <= MaximumBundleBytes -> bundle_parse encoded = Some (GenBundle g) ->
      VerifyBundle encoded = Ok (stream, final)).
Proof.
  intros Henv Hsize Hcert Hkey Hemb Hidx Haut Hown Hdraws Hcan Hdig.
  destruct (generate_ok cancelled envelope network authority identities certificate certified secret r payload root publisher signature
    Henv Hsize Hcert Hkey Hemb Hidx Haut Hown Hdraws Hcan Hdig) as (g & e & size & cells & final & Hgen & Hpub).
  destruct (pub_fields _ _ _ _ _ _ _ _ _ _ _ _ _ _ Hpub) as (_ & _ & Ho & stream & Hs & _).
  exists g, e, stream, (batch_payloads final 16). split_and!; [done|done| |].
  - intros encoded Hne Hl Hd Hp. destruct (pub_verifies _ _ _ _ _ _ _ _ _ _ _ _ _ _ Hpub encoded Hne Hl Hd Hp) as (stream' & Hs' & Hv).
    rewrite Hs in Hs'. injection Hs' as <-. eexists. split; [exact Hv|]. cbn [VDStream VDRoot VDPublisher VDSignature VDCommitments VDDescriptor].
    split_and!; try done. destruct (NewEncoder_wf _ _ _ (pub_encoder _ _ _ _ _ _ _ _ _ _ _ _ _ _ Hpub)) as (_ & Hor & Htk).
    by rewrite Hor, Nat2Z.id in Htk.
  - intros encoded Hne Hl Hp. destruct (VerifyBundle_new _ _ encoded (pub_bundle _ _ _ _ _ _ _ _ _ _ _ _ _ _ Hpub) (batch_payloads_typed _ _) Hne Hl Hp)
      as (stream' & Hs' & Hv). rewrite Hs in Hs'. by injection Hs' as <-.
Qed.

(** ** Example: one byte published by the ring *)

Section example.
#[local] Existing Instance example_hash.
#[local] Existing Instance example_signatures.
#[local] Existing Instance gf_group.
#[local] Existing Instance gf_shuffles.
#[local] Existing Instance gf_sharing.
#[local] Existing Instance ring_json.

Definition ring_publisher : list byte := replicate 64 x70.
Definition ring_object : list byte := [x41].

Definition ring_envelope : SignedEnvelope :=
  mkEnvelope 1 (b64_encode ring_object) (hex_encode (sha256 ring_object)) (b64_encode (public ring_publisher))
    (b64_encode (sign ring_publisher (SigningMessage (sha256 ring_object)))).

Definition ring_randomness : randomness :=
  mkRandomness (fun _ => [Some [x00]; Some [x02]]) (fun _ => Some (replicate 504 x00)) example_draws (fun _ => replicate 768 x00)
    (fun _ => replicate 768 x00) (fun _ => [x03; x04]).

(** The texts are stand-ins: [1] for the descriptor, [2] for the bundle. *)
Definition batch_json (generated : option Generated) (partials : list byte -> option PartialFile) (envelope : option SignedEnvelope) : BatchJSON.
Proof.
  refine {| descriptor_text := fun d => BDContentHash d ++ BDStreamID d;
            descriptor_parse := fun b => if bool_decide (b = [x31])
              then d ← GenDescriptor <$> generated; if decide (descriptor_typed d) then Some d else None else None;
            envelope_text := fun _ => [x33]; envelope_parse := fun b => if bool_decide (b = [x33]) then envelope else None;
            catalog_parse := fun _ => None; partial_parse := partials;
            bundle_parse := fun b => if bool_decide (b = [x32]) then GenBundle <$> generated else None |}.
  intros b d. case_bool_decide; [|done]. destruct generated as [g|]; [|done]. simpl. by destruct (decide (descriptor_typed (GenDescriptor g))); intros [= <-].
Defined.

#[local] Instance ring_batch_json : BatchJSON := batch_json None (fun _ => None) None.

Lemma ring_envelope_ok : VerifySignedEnvelope ring_envelope = Ok (ring_object, sha256 ring_object, public ring_publisher,
  sign ring_publisher (SigningMessage (sha256 ring_object))).
Proof. vm_compute. reflexivity. Qed.

Lemma ring_draws : draws_ok (symbol_count ring_object) ring_randomness.
Proof.
  intros i. split_and!.
  - exists [[x00]], [x02], []. split_and!; [done| |vm_compute; reflexivity|done]. by constructor.
  - by exists (replicate 504 x00).
  - done.
  - done.
Qed.

Lemma ring_own o : o ∈ Operators (TDocument ring_of) -> length (ring_identity (OpID o)) = 64%nat /\
  decodeBase64 (IdentityKey o) 32 = Some (public (ring_identity (OpID o))).
Proof.
  intros Ho. assert (Forall (fun o => length (ring_identity (OpID o)) = 64%nat /\ decodeBase64 (IdentityKey o) 32 = Some (public (ring_identity (OpID o))))
    (Operators (TDocument ring_of))) as Hall by (repeat (constructor; [split; vm_compute; reflexivity|]); constructor).
  rewrite Forall_forall in Hall. by apply Hall.
Qed.

Lemma ring_digests e b : encrypt_object ring_object (sha256 ring_object) (VCCommittee ring_certified) ring_randomness = Ok (e, b) ->
  Forall digest_set (batches_met (VCCommittee ring_certified) ring_identity ring_randomness 0 b (Operators (TDocument ring_of))).
Proof.
  assert (match encrypt_object ring_object (sha256 ring_object) (VCCommittee ring_certified) ring_randomness with
          | Ok (_, b) => forallb (fun b => negb (bool_decide (sha256 (batch_message b) = zeroID)))
              (batches_met (VCCommittee ring_certified) ring_identity ring_randomness 0 b (Operators (TDocument ring_of)))
          | Err _ => false end = true) as E by (vm_compute; reflexivity).
  intros Hb. rewrite Hb in E. rewrite forallb_forall in E. apply Forall_forall. intros x Hx. apply list_elem_of_In in Hx. specialize (E x Hx).
  by apply negb_true_iff, bool_decide_eq_false in E.
Qed.

Lemma ring_key : publicPoint (CommPublicKey (VCCommittee ring_certified)) = Ok (pmul example_secret Base).
Proof. vm_compute. reflexivity. Qed.

Lemma publication_verifies_witness : exists g, GenerateCertified (Some (fun _ => false)) ring_envelope ring_of ring_authority ring_identity ring_certificate
  ring_randomness = Ok g.
Proof.
  destruct (publication_verifies (fun _ => false) ring_envelope ring_of ring_authority ring_identity ring_certificate ring_certified example_secret ring_randomness
    ring_object (sha256 ring_object) (public ring_publisher) (sign ring_publisher (SigningMessage (sha256 ring_object))) ring_envelope_ok)
    as (g & e & stream & final & Hg & _).
  - by vm_compute.
  - apply ring_certificate_verifies.
  - apply ring_key.
  - by vm_compute.
  - apply ring_indexed.
  - reflexivity.
  - apply ring_own.
  - apply ring_draws.
  - reflexivity.
  - apply ring_digests.
  - exists g. exact Hg.
Defined.

(** What the ring publishes, and the texts in which it is read. *)
Definition ring_generated : option Generated :=
  match GenerateCertified (Some (fun _ => false)) ring_envelope ring_of ring_authority ring_identity ring_certificate ring_randomness with
  | Ok g => Some g | Err _ => None end.

Definition ring_texts (partials : list byte -> option PartialFile) (envelope : option SignedEnvelope) : BatchJSON :=
  batch_json ring_generated partials envelope.

Lemma batch_json_text generated partials envelope d : @descriptor_text (batch_json generated partials envelope) d = BDContentHash d ++ BDStreamID d.
Proof. reflexivity. Qed.

Lemma GenerateCertified_text (j j' : BatchJSON) ctx envelope network authority identities certificate r :
  (forall d, @descriptor_text j d = @descriptor_text j' d) ->
  @GenerateCertified _ _ _ _ _ j ctx envelope network authority identities certificate r =
  @GenerateCertified _ _ _ _ _ j' ctx envelope network authority identities certificate r.
Proof.
  intros Ht. unfold GenerateCertified, generateCertified.
  destruct (wrap _ _) as [certified|]; [|done]. cbn [mbind result_bind]. destruct (need ctx _); [|done]. cbn [mbind result_bind].
  destruct (check _ _); [|done]. cbn [mbind result_bind]. destruct (VerifySignedEnvelope envelope) as [[[[payload root] publisher] signature]|]; [|done].
  cbn [mbind result_bind]. destruct (encrypt_object _ _ _ _) as [[encoder current]|]; [|done]. cbn [mbind result_bind].
  destruct (mix_rounds _ _ _ _ _ _ _) as [rounds|]; [|done]. cbn [mbind result_bind].
  destruct (decodePayloads _) as [finalPayloads|]; [|done]. cbn [mbind result_bind]. destruct (NewBundle finalPayloads) as [seed|]; [|done].
  cbn [mbind result_bind]. unfold SignDescriptor, descriptor_message. by rewrite Ht.
Qed.

(** The publication of the ring, read back under any of these texts. *)
Lemma ring_published partials envelope : exists g e size cells final, ring_generated = Some g /\
  @published _ _ _ _ _ (ring_texts partials envelope) ring_object (sha256 ring_object) (public ring_publisher)
    (sign ring_publisher (SigningMessage (sha256 ring_object))) ring_of ring_authority ring_certificate ring_certified example_secret g e size cells final.
Proof.
  destruct (@generate_ok _ _ _ _ _ (ring_texts partials envelope) (fun _ => false) ring_envelope ring_of ring_authority ring_identity ring_certificate
    ring_certified example_secret ring_randomness ring_object (sha256 ring_object) (public ring_publisher)
    (sign ring_publisher (SigningMessage (sha256 ring_object))) ring_envelope_ok) as (g & e & size & cells & final & Hg & Hp).
  - by vm_compute.
  - apply ring_certificate_verifies.
  - apply ring_key.
  - by vm_compute.
  - apply ring_indexed.
  - reflexivity.
  - apply ring_own.
  - apply ring_draws.
  - reflexivity.
  - apply ring_digests.
  - exists g, e, size, cells, final. split; [|exact Hp]. unfold ring_generated.
    assert (forall d, @descriptor_text (ring_texts partials envelope) d = @descriptor_text ring_batch_json d) as Ht
      by (intros d; unfold ring_texts, ring_batch_json; rewrite !batch_json_text; reflexivity).
    pose proof (eq_trans (eq_sym (GenerateCertified_text (ring_texts partials envelope) ring_batch_json (Some (fun _ => false)) ring_envelope ring_of
      ring_authority ring_identity ring_certificate ring_randomness Ht)) Hg) as ->. reflexivity.
Qed.

Lemma batch_json_parses g partials envelope : descriptor_typed (GenDescriptor g) ->
  @descriptor_parse (batch_json (Some g) partials envelope) [x31] = Some (GenDescriptor g) /\
  @bundle_parse (batch_json (Some g) partials envelope) [x32] = Some (GenBundle g).
Proof.
  intros Ht. cbn [batch_json descriptor_parse bundle_parse]. rewrite !bool_decide_true by done.
  cbn [fmap option_fmap option_map mbind option_bind]. by destruct (decide (descriptor_typed (GenDescriptor g))).
Qed.

Lemma ring_parses partials envelope g : ring_generated = Some g -> descriptor_typed (GenDescriptor g) ->
  @descriptor_parse (ring_texts partials envelope) [x31] = Some (GenDescriptor g) /\ @bundle_parse (ring_texts partials envelope) [x32] = Some (GenBundle g).
Proof. intros Hg Ht. unfold ring_texts. rewrite Hg. exact (batch_json_parses g partials envelope Ht). Qed.

Lemma ring_epoch : fits 64 (DocEpoch (TDocument ring_of)).
Proof. vm_compute. split; [discriminate|reflexivity]. Qed.

Lemma one_byte : len [x31] <= MaximumBatchBytes.
Proof. vm_compute. discriminate. Qed.

Lemma one_value : RejectDuplicateKeys [x31] = Ok tt.
Proof. vm_compute. reflexivity. Qed.

Lemma batch_descriptor_sound_witness : exists v,
  @VerifyBatchDescriptor _ _ _ _ _ (ring_texts (fun _ => None) None) [x31] (public ring_authority) ring_of = Ok v /\
  VDRoot v = sha256 ring_object /\ verify (VDPublisher v) (SigningMessage (VDRoot v)) (VDSignature v) = true.
Proof.
  destruct (ring_published (fun _ => None) None) as (g & e & size & cells & final & Hg & Hp).
  pose proof (pub_typed _ _ _ _ _ _ _ _ _ _ _ _ _ _ Hp ring_epoch) as Ht.
  destruct (ring_parses (fun _ => None) None g Hg Ht) as [Hd _].
  destruct (pub_verifies _ _ _ _ _ _ _ _ _ _ _ _ _ _ Hp [x31] (ltac:(discriminate)) one_byte one_value Hd) as (stream & _ & Hv).
  eexists. split; [exact Hv|]. split; [reflexivity|].
  apply (@batch_descriptor_sound _ _ _ _ _ (ring_texts (fun _ => None) None) _ _ _ _ Hv ring_indexed).
Defined.
End example.
