(* ===== verification/Materialize.v ===== *)
(** The materializer ([live/materialize/materializer.go]): on the reader's machine
    it takes the complete stream of a batch from the cache and the partial
    decryptions that were fetched, decrypts, decodes, and stores the object once
    it is exactly what the publisher signed. *)

From stdpp Require Import base list list_numbers strings sets gmap sorting.
From Stdlib Require Import ZArith Lia Strings.Byte.
From S2P Require Import Prelude Bytes Hash Codec StrictJSON Checkpoint Reconstruct GF256 Kyber RLNC Decoder Packet Bounded Frame RawCache Topology TopologyDocument Mix Threshold Committee Rounds Batch Generate.

(** ** The decoder of packets *)

Record packetDecoder := mkPacketDecoder {
  expectedGeneration : list byte;
  pd_k : Z;
  pd_symbolSize : Z;
  pd_originalSize : Z;
  pd_decoder : BoundedDecoder;
  (* the instants that [time.Now] returns, and how many were asked for *)
  pd_clock : nat -> Z;
  pd_calls : nat;
}.

Inductive fragment_error :=
| ErrFragmentPacket (e : packet_error)
| ErrFragmentMetadata
| ErrFragmentBounded (e : bounded_error).

Definition set_decoder (d : packetDecoder) (b : BoundedDecoder) : packetDecoder :=
  mkPacketDecoder (expectedGeneration d) (pd_k d) (pd_symbolSize d) (pd_originalSize d) b (pd_clock d) (S (pd_calls d)).

Section packets.
Context `{HashFunction}.

Definition newPacketDecoder (d : VerifiedDescriptor) (clock : nat -> Z) : result bounded_error packetDecoder :=
  let k := BDK (VDDescriptor d) in
  let symbolSize := BDSymbolSize (VDDescriptor d) in
  let originalSize := BDOriginalSize (VDDescriptor d) in
  decoder ← NewBoundedDecoder k symbolSize originalSize (DefaultLimits k symbolSize) (Some (VDCommitments d)) (clock O);
  Ok (mkPacketDecoder (VDGeneration d) k symbolSize originalSize decoder clock 1).

Definition packetDecoder_Add (d : packetDecoder) (fragment : list byte) : packetDecoder * result fragment_error unit :=
  match ParsePacket fragment with
  | Err e => (d, Err (ErrFragmentPacket e))
  | Ok p =>
      if negb (bool_decide (Packet.Generation p = expectedGeneration d)) || negb (pK p =? pd_k d) || negb (pSymbolSize p =? pd_symbolSize d) ||
         negb (pOriginalSize p =? pd_originalSize d)
      then (d, Err ErrFragmentMetadata)
      else
        let '(b, r) := BoundedAdd (pd_decoder d) (pSymbol p) (pd_clock d (pd_calls d)) in
        (set_decoder d b, match r with Ok _ => Ok tt | Err e => Err (ErrFragmentBounded e) end)
  end.

#[export] Instance packet_decoder : ObjectDecoder packetDecoder fragment_error := {|
  AddFragment := packetDecoder_Add;
  DecoderReady := fun d => Ready (Bounded.decoder (pd_decoder d));
  DecodeObject := fun d => (d, wrap ErrFragmentBounded (BoundedDecode (pd_decoder d)));
|}.
End packets.

(** ** Files *)

(** An entry of the directory of partials. *)
Record part_entry := mkEntry {
  entry_dir : bool;
  entry_regular : bool;
  entry_content : list byte;
}.

(** The three ways in which storing the object can end: nothing is there, it is
    there but the directory was not synced, or it is there. *)
Inductive commit := NotStored | StoredUnsynced | Stored.

(** What the calls into the operating system answer. *)
Record materialize_io := mkMaterializeIO {
  io_output_directory : bool;
  io_output_read : bool;
  io_cache : cache_io;
  io_partials_list : bool;
  io_partial_open : list byte -> bool;
  io_partial_read : list byte -> bool;
  io_commit : commit;
  io_clock : nat -> Z;
}.

Record Materializer := mkMaterializer {
  MCache : option Store;
  MDescriptor : VerifiedDescriptor;
  PartialsDir : list byte;
  OutputDir : list byte;
  Interval : Z;
}.

Inductive materialize_error :=
| ErrMatConfig
| ErrMatContext
| ErrMatContextDone
| ErrMatOutputDirectory
| ErrMatIO
| ErrMatEnvelopeText
| ErrMatEnvelope (e : batch_error)
| ErrMatDiffers
| ErrMatCache (e : cache_error)
| ErrMatWire (e : mix_error)
| ErrMatPartialFile
| ErrMatPartial (e : batch_error)
| ErrMatDuplicate
| ErrMatPartialProof (e : threshold_error)
| ErrMatDecrypt (e : threshold_error)
| ErrMatDecoder (e : bounded_error)
| ErrMatReconstruct (e : reconstruct_error fragment_error)
| ErrMatLength
| ErrMatExists
| ErrMatStore.

Definition output_name (root : list byte) : list byte := hex_encode root ++ String.list_byte_of_string ".nomadobject".

(** [strings.HasPrefix] and [strings.HasSuffix]. *)
Definition has_prefix (p s : list byte) : bool := bool_decide (take (length p) s = p).
Definition has_suffix (p s : list byte) : bool := Nat.leb (length p) (length s) && bool_decide (drop (length s - length p) s = p).

Definition partial_suffix : list byte := String.list_byte_of_string ".partial.json".

Section operations.
Context `{HashFunction, SignatureScheme, KyberGroup, !Sharing, !RepProofs, BatchJSON}.

(** ** Partial decryptions *)

Definition partial_names (stream : list byte) (files : gmap (list byte) part_entry) : list (list byte) :=
  filter (fun name => has_prefix (stream ++ String.list_byte_of_string "-") name && has_suffix partial_suffix name &&
                      match files !! name with Some f => negb (entry_dir f) | None => false end = true)
    (merge_sort name_le (elements (dom files))).

Definition load_partial (env : materialize_io) (d : VerifiedDescriptor) (encrypted : Batch) (files : gmap (list byte) part_entry)
  (seen : list Z) (name : list byte) : result materialize_error PartialDecryption :=
  match files !! name with
  | None => Err ErrMatIO
  | Some f =>
      if negb (io_partial_open env name) then Err ErrMatIO
      else if negb (entry_regular f) || (MaximumBatchBytes <? len (entry_content f)) then Err ErrMatPartialFile
      else if negb (io_partial_read env name) then Err ErrMatIO
      else
        p ← wrap ErrMatPartial (DecodePartial (entry_content f) d);
        if bool_decide (PartMember p ∈ seen) then Err ErrMatDuplicate
        else
          _ ← wrap ErrMatPartialProof (VerifyPartialDecryption (VDCommittee d) (Some encrypted) (Some p));
          Ok p
  end.

Fixpoint load_names (env : materialize_io) (d : VerifiedDescriptor) (encrypted : Batch) (files : gmap (list byte) part_entry)
  (seen : list Z) (names : list (list byte)) : result materialize_error (list PartialDecryption) :=
  match names with
  | [] => Ok []
  | name :: names =>
      p ← load_partial env d encrypted files seen name;
      ps ← load_names env d encrypted files (PartMember p :: seen) names;
      Ok (p :: ps)
  end.

(** A directory that does not exist is [None]. *)
Definition loadPartials (env : materialize_io) (d : VerifiedDescriptor) (encrypted : Batch) (dir : option (gmap (list byte) part_entry))
  : result materialize_error (list PartialDecryption) :=
  match dir with
  | None => Ok []
  | Some files =>
      if negb (io_partials_list env) then Err ErrMatIO
      else load_names env d encrypted files [] (partial_names (BDStreamID (VDDescriptor d)) files)
  end.

(** ** The object on disk *)

Definition verifyOutput (encoded : list byte) (d : VerifiedDescriptor) : result materialize_error unit :=
  match envelope_parse encoded with
  | None => Err ErrMatEnvelopeText
  | Some envelope =>
      verified ← wrap ErrMatEnvelope (VerifySignedEnvelope envelope);
      let '(payload, root, publisher, signature) := verified in
      if negb (bool_decide (root = VDRoot d)) || negb (bool_decide (publisher = VDPublisher d)) ||
         negb (bool_decide (signature = VDSignature d)) || negb (u32 (len payload) =? BDOriginalSize (VDDescriptor d))
      then Err ErrMatDiffers else Ok tt
  end.

Definition writeImmutable (env : materialize_io) (out : gmap (list byte) (list byte)) (name encoded : list byte)
  : gmap (list byte) (list byte) * result materialize_error unit :=
  match out !! name with
  | Some _ => (out, Err ErrMatExists)
  | None =>
      match io_commit env with
      | NotStored => (out, Err ErrMatStore)
      | StoredUnsynced => (<[name := encoded]> out, Err ErrMatStore)
      | Stored => (<[name := encoded]> out, Ok tt)
      end
  end.

Definition OutputDigest (out : gmap (list byte) (list byte)) (name : list byte) : option (list byte) := sha256 <$> out !! name.

(** ** One pass *)

(** [visit] is the order in which the maps of the threshold decryption are
    ranged over. *)
Definition recover (env : materialize_io) (visit : nat -> nat -> list (Z * list point) -> list (Z * list point)) (d : VerifiedDescriptor)
  (encrypted : Batch) (partials : list PartialDecryption) : result materialize_error (list byte) :=
  plainCells ← wrap ErrMatDecrypt (ThresholdDecrypt (VDCommittee d) (Some encrypted) (map Some partials) visit);
  decoder ← wrap ErrMatDecoder (newPacketDecoder d (io_clock env));
  recovered ← wrap ErrMatReconstruct (Reconstruct (Some decoder) plainCells (mkVerifier (VDRoot d) (VDPublisher d) (VDSignature d)));
  if negb (len recovered =? BDOriginalSize (VDDescriptor d)) then Err ErrMatLength else Ok recovered.

Definition envelope_of (d : VerifiedDescriptor) (payload : list byte) : SignedEnvelope :=
  mkEnvelope EnvelopeVersion (b64_encode payload) (hex_encode (VDRoot d)) (b64_encode (VDPublisher d)) (b64_encode (VDSignature d)).

Definition store (env : materialize_io) (d : VerifiedDescriptor) (out : gmap (list byte) (list byte)) (recovered : list byte)
  : gmap (list byte) (list byte) * result materialize_error bool :=
  let encoded := envelope_text (envelope_of d recovered) in
  match verifyOutput encoded d with
  | Err e => (out, Err e)
  | Ok _ =>
      match writeImmutable env out (output_name (VDRoot d)) encoded with
      | (out, Err e) => (out, Err e)
      | (out, Ok _) => (out, Ok true)
      end
  end.

Definition ProcessOnce (m : Materializer) (env : materialize_io) (visit : nat -> nat -> list (Z * list point) -> list (Z * list point))
  (cache : cache_root) (dir : option (gmap (list byte) part_entry)) (out : gmap (list byte) (list byte))
  : gmap (list byte) (list byte) * result materialize_error bool :=
  let d := MDescriptor m in
  if negb (bool_decide (is_Some (MCache m))) || bool_decide (PartialsDir m = []) || bool_decide (OutputDir m = []) then (out, Err ErrMatConfig)
  else if negb (io_output_directory env) then (out, Err ErrMatOutputDirectory)
  else match out !! output_name (VDRoot d) with
  | Some existing =>
      if negb (io_output_read env) then (out, Err ErrMatIO)
      else match verifyOutput existing d with Err e => (out, Err e) | Ok _ => (out, Ok false) end
  | None =>
      match Load (io_cache env) cache (VDStream d) with
      | Err e => (out, Err (ErrMatCache e))
      | Ok None => (out, Ok false)
      | Ok (Some payloads) =>
          match ParseWire (map payload_cell payloads) with
          | Err e => (out, Err (ErrMatWire e))
          | Ok encrypted =>
              match loadPartials env d encrypted dir with
              | Err e => (out, Err e)
              | Ok partials =>
                  if len partials <? CommThreshold (VDCommittee d) then (out, Ok false)
                  else match recover env visit d encrypted partials with
                  | Err e => (out, Err e)
                  | Ok recovered => store env d out recovered
                  end
              end
          end
      end
  end.

(** ** The loop *)

(** What one turn of the loop meets: the cache and the partials are written by
    other processes meanwhile. *)
Record tick := mkTick {
  tick_io : materialize_io;
  tick_visit : nat -> nat -> list (Z * list point) -> list (Z * list point);
  tick_cache : cache_root;
  tick_partials : option (gmap (list byte) part_entry);
}.

(** The ticks are those before the context is done. *)
Fixpoint run_ticks (m : Materializer) (ticks : list tick) (out : gmap (list byte) (list byte)) : gmap (list byte) (list byte) * materialize_error :=
  match ticks with
  | [] => (out, ErrMatContextDone)
  | t :: ticks =>
      match ProcessOnce m (tick_io t) (tick_visit t) (tick_cache t) (tick_partials t) out with
      | (out, Err e) => (out, e)
      | (out, Ok _) => run_ticks m ticks out
      end
  end.

Definition Run (m : Materializer) (ctx directory : bool) (ticks : list tick) (out : gmap (list byte) (list byte))
  : gmap (list byte) (list byte) * materialize_error :=
  if negb ctx then (out, ErrMatContext)
  else if negb (bool_decide (is_Some (MCache m))) || bool_decide (PartialsDir m = []) || bool_decide (OutputDir m = []) || (Interval m <=? 0)
  then (out, ErrMatConfig)
  else if negb directory then (out, ErrMatOutputDirectory)
  else run_ticks m ticks out.
End operations.

(** ** What is stored *)

Section sound.
Context `{HashFunction, SignatureScheme, KyberGroup, !Sharing, !RepProofs, BatchJSON}.

(** A file from which a reader gets the object of the descriptor. *)
Definition materialized (d : VerifiedDescriptor) (content : list byte) : Prop :=
  exists envelope payload, envelope_parse content = Some envelope /\ DecodeBase64 (EnvPayload envelope) = Some payload /\
    sha256 payload = VDRoot d /\ verify (VDPublisher d) (SigningMessage (VDRoot d)) (VDSignature d) = true /\
    len payload = BDOriginalSize (VDDescriptor d).

(** The partial decryption is what a regular file of the directory, named for the
    stream, decodes to. *)
Definition from_file (d : VerifiedDescriptor) (dir : option (gmap (list byte) part_entry)) (p : PartialDecryption) : Prop :=
  exists files name f, dir = Some files /\ name ∈ partial_names (BDStreamID (VDDescriptor d)) files /\ files !! name = Some f /\
    entry_regular f = true /\ DecodePartial (entry_content f) d = Ok p.

(** How the file came to be, in one pass: [content] is the envelope of the bytes
    that the decoder gives back from the cells, which are the decryption of the
    complete stream in the cache with the partial decryptions [partials]; those are
    the files of the directory, they verify, and come from as many different
    members as the threshold. *)
Definition decrypted_by_quorum (d : VerifiedDescriptor) (t : tick) (content : list byte) : Prop :=
  exists payloads encrypted partials cells decoder recovered,
    Load (io_cache (tick_io t)) (tick_cache t) (VDStream d) = Ok (Some payloads) /\ ParseWire (map payload_cell payloads) = Ok encrypted /\
    Forall (from_file d (tick_partials t)) partials /\ NoDup (members_of partials) /\ CommThreshold (VDCommittee d) <= len partials /\
    Forall (fun p => VerifyPartialDecryption (VDCommittee d) (Some encrypted) (Some p) = Ok tt) partials /\
    ThresholdDecrypt (VDCommittee d) (Some encrypted) (map Some partials) (tick_visit t) = Ok cells /\
    newPacketDecoder d (io_clock (tick_io t)) = Ok decoder /\
    Reconstruct (Some decoder) cells (mkVerifier (VDRoot d) (VDPublisher d) (VDSignature d)) = Ok recovered /\
    content = envelope_text (envelope_of d recovered).

Lemma verifyOutput_ok content d : verifyOutput content d = Ok tt -> materialized d content.
Proof.
  unfold verifyOutput, materialized. destruct (envelope_parse content) as [e|]; [|done].
  destruct (VerifySignedEnvelope e) as [[[[payload root] publisher] signature]|] eqn:E; [|done]. cbn [wrap mbind result_bind].
  destruct (_ || _) eqn:Eb; [done|]. intros _. reflect_bools. apply VerifySignedEnvelope_ok in E as (_ & Hp & _ & Hl & Hr & _ & _ & Hv). subst.
  unfold MaximumPayloadBytes in Hl. rewrite wrapu_small in * by (unfold fits; lia). exists e, payload.
  match goal with Hx : sha256 payload = _ |- _ => rewrite Hx in Hv end. by split_and!.
Qed.

Lemma load_partial_ok env d encrypted files seen name p : load_partial env d encrypted files seen name = Ok p ->
  PartMember p ∉ seen /\ VerifyPartialDecryption (VDCommittee d) (Some encrypted) (Some p) = Ok tt /\
  exists f, files !! name = Some f /\ entry_regular f = true /\ DecodePartial (entry_content f) d = Ok p.
Proof.
  unfold load_partial. destruct (files !! name) as [f|]; [|done]. destruct (negb _); [done|]. destruct (_ || _) eqn:Eb; [done|].
  destruct (negb (io_partial_read _ _)); [done|]. destruct (DecodePartial _ d) as [q|] eqn:Ed; [|done]. cbn [wrap mbind result_bind].
  case_bool_decide as Hs; [done|]. destruct (VerifyPartialDecryption _ _ _) as [[]|] eqn:Ev; [|done]. cbn [wrap mbind result_bind].
  intros [= <-]. reflect_bools. split_and!; [done|done|]. by exists f.
Qed.

Lemma load_names_ok env d encrypted files seen names ps : load_names env d encrypted files seen names = Ok ps ->
  NoDup (members_of ps) /\ (forall p, p ∈ ps -> PartMember p ∉ seen) /\
  Forall (fun p => VerifyPartialDecryption (VDCommittee d) (Some encrypted) (Some p) = Ok tt) ps /\
  Forall (fun p => exists name f, name ∈ names /\ files !! name = Some f /\ entry_regular f = true /\ DecodePartial (entry_content f) d = Ok p) ps.
Proof.
  revert seen ps. induction names as [|name names IH]; intros seen ps; cbn [load_names].
  - intros [= <-]. split_and!; [constructor|set_solver|constructor|constructor].
  - destruct (load_partial _ _ _ _ _ _) as [p|] eqn:Ep; [|done]. cbn [mbind result_bind].
    destruct (load_names _ _ _ _ _ _) as [qs|] eqn:Eq; [|done]. cbn [mbind result_bind]. intros [= <-].
    destruct (IH _ _ Eq) as (Hnd & Hns & Hall & Hfiles). apply load_partial_ok in Ep as (Hs & Hv & f & Hf & Hreg & Hdec). split_and!.
    + unfold members_of in *. cbn [map]. apply NoDup_cons. split; [|done]. intros Hin. apply list_elem_of_In, in_map_iff in Hin as (q & Hq & Hin).
      apply list_elem_of_In, Hns in Hin. rewrite Hq in Hin. set_solver.
    + intros q Hq. apply elem_of_cons in Hq as [->|Hq]; [done|]. specialize (Hns q Hq). set_solver.
    + by constructor.
    + constructor; [by exists name, f; split; [apply list_elem_of_here|]|]. eapply Forall_impl; [exact Hfiles|]. intros q (n & g & Hn & Hg).
      exists n, g. by split; [apply list_elem_of_further|].
Qed.

Lemma loadPartials_ok env d encrypted dir ps : loadPartials env d encrypted dir = Ok ps -> NoDup (members_of ps) /\
  Forall (fun p => VerifyPartialDecryption (VDCommittee d) (Some encrypted) (Some p) = Ok tt) ps /\ Forall (from_file d dir) ps.
Proof.
  unfold loadPartials. destruct dir as [files|].
  - destruct (negb _); [done|]. intros (? & _ & ? & Hf)%load_names_ok. split_and!; [done|done|]. eapply Forall_impl; [exact Hf|].
    intros p (name & f & Hn & Hl & Hr & Hd). by exists files, name, f.
  - intros [= <-]. split_and!; constructor.
Qed.

Lemma store_spec env d out recovered out' r : store env d out recovered = (out', r) -> out !! output_name (VDRoot d) = None ->
  out' = out \/ (out' = <[output_name (VDRoot d) := envelope_text (envelope_of d recovered)]> out /\ materialized d (envelope_text (envelope_of d recovered))).
Proof.
  unfold store, writeImmutable. intros E Hn. rewrite Hn in E. destruct (verifyOutput _ d) as [[]|] eqn:Ev; [|injection E as <- _; by left].
  apply verifyOutput_ok in Ev. destruct (io_commit env); injection E as <- _; eauto.
Qed.

(** What a pass may add: the object, decrypted by a quorum. *)
Definition added (d : VerifiedDescriptor) (t : tick) (out out' : gmap (list byte) (list byte)) : Prop :=
  out !! output_name (VDRoot d) = None /\
  exists content, out' = <[output_name (VDRoot d) := content]> out /\ materialized d content /\ decrypted_by_quorum d t content.

Lemma ProcessOnce_spec m t out out' r : ProcessOnce m (tick_io t) (tick_visit t) (tick_cache t) (tick_partials t) out = (out', r) ->
  out' = out \/ added (MDescriptor m) t out out'.
Proof.
  set (d := MDescriptor m). unfold ProcessOnce. fold d. intros E.
  destruct (_ || _); [injection E as <- _; by left|]. destruct (negb _); [injection E as <- _; by left|].
  destruct (out !! output_name _) as [existing|] eqn:Eo.
  { destruct (negb _); [injection E as <- _; by left|]. destruct (verifyOutput existing d); injection E as <- _; by left. }
  destruct (Load _ _ _) as [[payloads|]|] eqn:El; [|injection E as <- _; by left..].
  destruct (ParseWire _) as [encrypted|] eqn:Ew; [|injection E as <- _; by left].
  destruct (loadPartials _ _ _ _) as [partials|] eqn:Ep; [|injection E as <- _; by left].
  destruct (len partials <? _) eqn:Eq; [injection E as <- _; by left|]. apply Z.ltb_ge in Eq.
  destruct (recover _ _ _ _ _) as [recovered|] eqn:Er; [|injection E as <- _; by left].
  apply store_spec in E as [->|[-> Hc]]; [by left| |done]. right. split; [done|]. eexists. split; [reflexivity|]. split; [done|].
  apply loadPartials_ok in Ep as (Hnd & Hv & Hf). unfold recover in Er.
  destruct (ThresholdDecrypt _ _ _ _) as [cells|] eqn:Et; [|done]. cbn [wrap mbind result_bind] in Er.
  destruct (newPacketDecoder _ _) as [decoder|] eqn:En; [|done]. cbn [wrap mbind result_bind] in Er.
  destruct (Reconstruct _ _ _) as [x|] eqn:Ex; [|done]. cbn [wrap mbind result_bind] in Er. destruct (negb _); [done|]. injection Er as ->.
  exists payloads, encrypted, partials, cells, decoder, recovered. by split_and!.
Qed.

Lemma run_ticks_spec m ticks out out' e : run_ticks m ticks out = (out', e) ->
  out' = out \/ exists t, t ∈ ticks /\ added (MDescriptor m) t out out'.
Proof.
  revert out. induction ticks as [|t ticks IH]; intros out; cbn [run_ticks]; [intros [= <- _]; by left|].
  destruct (ProcessOnce _ _ _ _ _ out) as [out1 r] eqn:E. intros Hr. apply ProcessOnce_spec in E.
  assert (out' = out1 \/ exists t, t ∈ ticks /\ added (MDescriptor m) t out1 out') as Hrest.
  { destruct r as [b|e']; [by apply IH|]. injection Hr as <- _. by left. }
  destruct E as [->|Hadd].
  - destruct Hrest as [->|(t' & Ht & Hq)]; [by left|]. right. exists t'. by split; [apply list_elem_of_further|].
  - destruct Hrest as [->|(t' & _ & Hn' & _)]; [right; exists t; by split; [apply list_elem_of_here|]|].
    destruct Hadd as (_ & content & -> & _). by rewrite lookup_insert_eq in Hn'.
Qed.
End sound.

(** C5: The materializer stores nothing but the object, and stores it once.  However
    often it runs, whatever the cache, the files of partial decryptions and the
    operating system give it, a file of the output directory is never replaced
    or removed; a file that appears is named after the root of the descriptor,
    decodes to an object of the announced length whose hash is the root that the
    publisher signed, and was made in one of the passes: its bytes are what the
    decoder gave back from the cells that threshold decryption made of the complete
    stream in the cache, with partial decryptions that were read from files of that
    pass's directory, verify, and come from as many different members as the
    threshold. *)
Theorem materialized_sound `{HashFunction, SignatureScheme, KyberGroup, !Sharing, !RepProofs, BatchJSON} (m : Materializer) (ctx directory : bool)
  (ticks : list tick) (out : gmap (list byte) (list byte)) :
  let d := MDescriptor m in
  let out' := (Run m ctx directory ticks out).1 in
  (forall name content, out !! name = Some content -> out' !! name = Some content) /\
  forall name content, out' !! name = Some content ->
    out !! name = Some content \/
    out !! name = None /\ name = output_name (VDRoot d) /\ materialized d content /\ exists t, t ∈ ticks /\ decrypted_by_quorum d t content.
Proof.
  cbv zeta. destruct (Run m ctx directory ticks out) as [out' e] eqn:E. cbn [fst].
  assert (out' = out \/ exists t, t ∈ ticks /\ added (MDescriptor m) t out out') as Hspec.
  { unfold Run in E. destruct (negb ctx); [injection E as <- _; by left|]. destruct (_ || _); [injection E as <- _; by left|].
    destruct (negb directory); [injection E as <- _; by left|]. by eapply run_ticks_spec. }
  destruct Hspec as [->|(t & Ht & Hn & content & -> & Hc & Hq)]; [by auto|]. split.
  - intros name c Hin. rewrite lookup_insert_ne; [done|]. intros <-. by rewrite Hn in Hin.
  - intros name c Hin. destruct (decide (name = output_name (VDRoot (MDescriptor m)))) as [->|Hne].
    + rewrite lookup_insert_eq in Hin. injection Hin as <-. right. split_and!; [done|done|done|]. by exists t.
    + rewrite lookup_insert_ne in Hin by done. by left.
Qed.

(** ** Decoding what was published *)

Section decoding.
Context `{HashFunction}.

Lemma systematic_loop_range c index found : 0 <= index -> -1 <= found < index ->
  -1 <= systematic_loop c index found < index + len c.
Proof.
  revert index found. induction c as [|v c IH]; intros index found Hi Hf; cbn [systematic_loop length]; [lia|].
  case_bool_decide; [specialize (IH (index + 1) found); lia|]. destruct (_ || _); [lia|]. specialize (IH (index + 1) index). lia.
Qed.

(** A symbol the encoder makes agrees with its commitments. *)
Lemma honest_agrees e b c : encoder_wf e -> length c = length (source e) -> commitments b = Some (SourceCommitments e) ->
  contradicts b (encodeWith e c) = false.
Proof.
  intros Hwf Hc Hcs. unfold contradicts. rewrite Hcs, encodeWith_comb by done. cbn [Coeff Data].
  destruct (systematicIndex c <? 0) eqn:Ei; [done|]. apply Z.ltb_ge in Ei. unfold systematicIndex in *.
  pose proof (systematic_loop_range c 0 (-1) ltac:(lia) ltac:(lia)) as Hr. set (i := Z.to_nat (systematic_loop c 0 (-1))).
  assert (systematic_loop c 0 (-1) = Z.of_nat i) as Es by lia. rewrite Es.
  assert (c = unit_vector (length c) i) as Hu by (apply systematicIndex_unit; [lia|done]). rewrite Hc in Hu.
  unfold SourceCommitments. rewrite nth_CommitSource by lia. destruct Hwf as (_ & Hv & _). rewrite Hu, comb_unit by (try done; lia).
  by rewrite bool_decide_true.
Qed.

Lemma fail_with_failed b e : failed b = None -> failed (fail_with b e).1 <> None.
Proof. intros Hf. unfold fail_with, fail. by rewrite Hf. Qed.

Definition honest_symbol (e : Encoder) (s : Symbol) : Prop :=
  exists c, s = encodeWith e c /\ length c = length (source e) /\ anyNonZero c = true.

Lemma honest_symbol_facts e s d : encoder_wf e -> honest_symbol e s -> dk d = K e -> dsymbolSize d = symbolSize e ->
  honest_row (source e) (Z.to_nat (dsymbolSize d)) (symbol_row s) /\ fits_decoder d s /\ anyNonZero (Coeff s) = true.
Proof.
  intros Hwf (c & -> & Hc & Hnz) Hk Hs. rewrite encodeWith_comb by done. destruct Hwf as (Hs0 & Hv & _).
  unfold symbol_row, honest_row, fits_decoder. cbn [Coeff Data]. rewrite Hs, Hk. unfold K. split_and!; [eauto|lia| |done]. rewrite length_comb by done. lia.
Qed.

(** A generation in progress: what it was given so far. *)
Record gathering (e : Encoder) (limit : Z) (d0 : Decoder) (b : BoundedDecoder) (admitted : list Symbol) : Prop := {
  ga_inv : bounded_inv b;
  ga_live : failed b = None;
  ga_limits : limits b = DefaultLimits (K e) (symbolSize e);
  ga_k : dk (decoder b) = K e;
  ga_size : dsymbolSize (decoder b) = symbolSize e;
  ga_deadline : deadline b = limit;
  ga_commitments : commitments b = Some (SourceCommitments e);
  ga_work : work b <= symbols b * K e * (K e + symbolSize e);
  ga_count : symbols b = len admitted;
  ga_added : add_all d0 admitted = Ok (decoder b);
  ga_honest : Forall (honest_symbol e) admitted;
  ga_basis : honest_basis (source e) (decoder b);
  ga_seen : forall f, f ∈ Bounded.seen b -> exists s, s ∈ admitted /\ fingerprint s = f;
}.

Lemma add_all_snoc d l s d1 d2 r : add_all d l = Ok d1 -> Add d1 s = (d2, Ok r) -> add_all d (l ++ [s]) = Ok d2.
Proof.
  revert d. induction l as [|x l IH]; intros d; cbn [add_all app]; [intros [= ->] ->; done|].
  destruct (Add d x) as [d' [r'|]]; [|done]. apply IH.
Qed.

(** An incomplete generation takes an honest symbol, or has its fingerprint. *)
Lemma gather_step e limit d0 b admitted s now : encoder_wf e -> small_dimensions (K e) (symbolSize e) -> gathering e limit d0 b admitted ->
  honest_symbol e s -> now < limit -> len admitted < 4 * K e -> Ready (decoder b) = false ->
  exists b' fresh, BoundedAdd b s now = (b', Ok fresh) /\
    ((fingerprint s ∈ Bounded.seen b /\ gathering e limit d0 b' admitted) \/ gathering e limit d0 b' (admitted ++ [s])).
Proof.
  intros Hwf Hsm [] Hs Hnow Hroom Hready.
  destruct (default_step b (K e) (symbolSize e) s now Hsm) as (F1 & F2 & F3 & F4 & F5 & F6 & F7); auto; [lia|lia|].
  destruct (honest_symbol_facts e s (decoder b) Hwf Hs ga_k0 ga_size0) as (Hrow & Hfit & Hnz).
  pose proof (BoundedAdd_inv b s now ga_inv0) as Hinv'. pose proof ga_inv0 as (_ & _ & Hacc). unfold accounted in Hacc. rewrite ga_live0 in Hacc.
  destruct Hacc as (Hdwf & _). pose proof Hwf as (Hs0 & Hvec & HK0 & Ho).
  destruct (Add_honest (source e) (decoder b) s Hdwf) as (d' & r & Ea & Hb'); auto; [by rewrite ga_size0|].
  assert (contradicts b s = false) as Hc by (destruct Hs as (c & -> & Hcl & _); by apply honest_agrees).
  pose proof (fail_with_failed b) as Hfw. specialize (fun e => Hfw e ga_live0) as Hfw.
  destruct (BoundedAdd b s now) as [b' q] eqn:E. cbn [fst] in *. pose proof E as E'. unfold BoundedAdd in E. rewrite ga_live0 in E.
  rewrite ga_deadline0, (proj2 (Z.ltb_lt _ _) Hnow) in E. cbn [negb] in E. destruct Hfit as [Hf1 Hf2]. rewrite Hf1, Hf2, !Z.eqb_refl in E. cbn [negb orb] in E.
  case_bool_decide as Hseen.
  { injection E as <- <-. eexists _, false. split; [reflexivity|]. left. split; [done|]. split; auto. }
  cbv zeta in E. rewrite Hc in E.
  repeat (match type of E with (if ?c then fail_with b ?x else _) = _ => destruct c;
    [specialize (Hfw x); rewrite E in Hfw; cbn [fst] in Hfw; done|] end).
  unfold admit_symbol in E. rewrite Ea in E. injection E as <- <-. eexists _, r. split; [reflexivity|]. right.
  pose proof (Add_wf _ _ _ _ Hdwf Ea) as (_ & Hk' & Hs' & _).
  split; cbn [decoder limits commitments deadline symbols work Bounded.seen failed]; auto.
  - rewrite i64_small; [rewrite length_app; simpl; lia|]. destruct Hsm. lia.
  - by eapply add_all_snoc.
  - apply Forall_app. by split; [|constructor].
  - intros f Hf. apply elem_of_union in Hf as [->%elem_of_singleton|Hf]; [exists s; set_solver|]. destruct (ga_seen0 f Hf) as (x & Hx & Hxf). exists x. set_solver.
Qed.

Lemma span_member n V v : length v = n -> v ∈ V -> span n V v.
Proof.
  intros <- Hv. pose proof (span_add (length v) V (zeros (length v)) v x01 (span_zero _ V) Hv) as Hs. by rewrite vscale_1, vadd_zeros_l in Hs.
Qed.

(** With one source symbol, one coded symbol is enough. *)
Lemma single_ready e limit d0 b s admitted : encoder_wf e -> decoder_wf d0 -> dk d0 = K e -> K e = 1 -> gathering e limit d0 b (s :: admitted) ->
  Ready (decoder b) = true.
Proof.
  intros Hwf Hd0 Hk H1 Hga. pose proof (ga_honest _ _ _ _ _ Hga) as Hh.
  pose proof (add_all_wf _ _ _ Hd0 (ga_added _ _ _ _ _ Hga)) as (_ & Hk' & Hs' & _).
  assert (dsymbolSize d0 = symbolSize e) as Hs0 by (rewrite <- Hs'; apply Hga).
  apply (spanning_ready (s :: admitted) d0 (decoder b) Hd0 (ga_added _ _ _ _ _ Hga)).
  - eapply Forall_impl; [exact Hh|]. intros x Hx. by apply (honest_symbol_facts e x d0).
  - intros i Hi. rewrite Hk, H1 in *. change (Z.to_nat 1) with 1%nat in *. assert (i = 0%nat) as -> by lia.
    apply Forall_cons in Hh as [(c & -> & Hc & Hnz) _]. rewrite encodeWith_comb by done. cbn [map Coeff]. unfold K in H1.
    destruct c as [|c [|]]; simpl in Hc; [lia| |lia]. destruct (decide (c = x00)) as [->|Hc0]; [done|].
    destruct (inv_total c Hc0) as [f Hf]. apply mul_inv in Hf.
    assert (unit_vector 1 0 = vadd (zeros 1) (vscale f [c])) as ->.
    { unfold unit_vector, zeros. cbn. rewrite mul_comm in Hf. rewrite Hf. reflexivity. }
    constructor; [constructor|set_solver].
Qed.

Definition carries (e : Encoder) (generation cell : list byte) (s : Symbol) : Prop :=
  honest_symbol e s /\ ParsePacket cell = Ok (mkPacket generation (K e) (SymbolSize e) (OriginalSize e) s).

Definition decodes_for (e : Encoder) (generation : list byte) (clock : nat -> Z) (d : packetDecoder) : Prop :=
  expectedGeneration d = generation /\ pd_k d = K e /\ pd_symbolSize d = SymbolSize e /\ pd_originalSize d = OriginalSize e /\ pd_clock d = clock.

(** Feeding honest cells ends in a complete generation, or has taken them all. *)
Lemma feed_gathers e generation clock limit d0 remaining d admitted : encoder_wf e -> small_dimensions (K e) (symbolSize e) ->
  decoder_wf d0 -> dk d0 = K e -> (forall n, clock n < limit) -> decodes_for e generation clock d ->
  gathering e limit d0 (pd_decoder d) admitted -> Ready (decoder (pd_decoder d)) = false ->
  (forall cell, cell ∈ remaining -> exists s, carries e generation cell s) -> K e = 1 \/ len admitted + len remaining <= 4 * K e ->
  exists d' admitted', feed d remaining = (d', Ok tt) /\ gathering e limit d0 (pd_decoder d') admitted' /\ (forall s, s ∈ admitted -> s ∈ admitted') /\
    (forall s, s ∈ admitted' -> s ∈ admitted \/ exists cell, cell ∈ remaining /\ carries e generation cell s) /\
    (Ready (decoder (pd_decoder d')) = true \/
     forall cell s, cell ∈ remaining -> carries e generation cell s -> exists s', s' ∈ admitted' /\ fingerprint s' = fingerprint s).
Proof.
  intros Hwf Hsm Hd0 Hk0 Hclock. revert d admitted. induction remaining as [|cell remaining IH]; intros d admitted Hd Hga Hready Hcells Hroom; cbn [feed].
  { exists d, admitted. split_and!; [done|done|done|by left|]. right. intros cell s Hin. by apply elem_of_nil in Hin. }
  destruct (Hcells cell (list_elem_of_here _ _)) as (s & Hs & Hparse). pose proof Hd as (Hg & Hk & Hsz & Ho & Hcl).
  destruct (gather_step e limit d0 (pd_decoder d) admitted s (clock (pd_calls d)) Hwf Hsm Hga Hs (Hclock _)) as (b' & fresh & Hadd & Hnext); [|done|].
  { destruct Hroom as [H1|Hr]; [|simpl in Hr; lia]. destruct admitted as [|x admitted]; [simpl; lia|].
    rewrite (single_ready e limit d0 (pd_decoder d) x admitted Hwf Hd0 Hk0 H1 Hga) in Hready. done. }
  cbn [AddFragment packet_decoder]. unfold packetDecoder_Add. rewrite Hparse. cbn [Packet.Generation pK pSymbolSize pOriginalSize pSymbol].
  rewrite bool_decide_true by done. rewrite Hk, Hsz, Ho, !Z.eqb_refl. cbn [negb orb]. rewrite Hcl, Hadd.
  change (DecoderReady (set_decoder d b')) with (Ready (decoder b')).
  assert (exists admitted1, gathering e limit d0 b' admitted1 /\ (forall x, x ∈ admitted -> x ∈ admitted1) /\ (length admitted1 <= S (length admitted))%nat /\
    (forall x, x ∈ admitted1 -> x ∈ admitted \/ x = s) /\
    exists s', s' ∈ admitted1 /\ fingerprint s' = fingerprint s) as (admitted1 & Hga1 & Hsub & Hlen & Hor & s1 & Hs1 & Hf1).
  { destruct Hnext as [[Hseen Hn]|Hn].
    - destruct (ga_seen _ _ _ _ _ Hga _ Hseen) as (x & Hx & Hxf). exists admitted. split_and!; [done|done|lia|by left|eauto].
    - exists (admitted ++ [s]). split_and!; [done|set_solver|rewrite length_app; simpl; lia|set_solver|]. exists s. set_solver. }
  assert (forall x, x ∈ admitted1 -> x ∈ admitted \/ exists c, c ∈ cell :: remaining /\ carries e generation c x) as Hor1.
  { intros x Hx. destruct (Hor x Hx) as [?| ->]; [by left|right]. exists cell. split; [apply list_elem_of_here|by split]. }
  destruct (Ready (decoder b')) eqn:Hr'.
  { exists (set_decoder d b'), admitted1. split_and!; [done|done|done|done|by left]. }
  destruct (IH (set_decoder d b') admitted1) as (d' & admitted' & Hf & Hga' & Hsub' & Hor' & Hend); auto.
  - intros c Hc. apply Hcells. set_solver.
  - destruct Hroom as [?|Hr]; [by left|right]. simpl in Hr. lia.
  - exists d', admitted'. split_and!; [done|done|auto| |].
    { intros x Hx. destruct (Hor' x Hx) as [Hx1|(c & Hc & Hcx)]; [by apply Hor1|right]. exists c. split; [set_solver|done]. }
     destruct Hend as [?|Hall]; [by left|right].
    intros c x Hc Hx. apply elem_of_cons in Hc as [->|Hc]; [|by apply (Hall c)].
    assert (x = s) as -> by (destruct Hx as [_ Hx]; rewrite Hparse in Hx; by injection Hx). exists s1. auto.
Qed.

(** A fresh generation for what an encoder holds. *)
Lemma fresh_generation e now : encoder_wf e -> small_dimensions (K e) (symbolSize e) ->
  exists b, NewBoundedDecoder (K e) (symbolSize e) (OriginalSize e) (DefaultLimits (K e) (symbolSize e)) (Some (SourceCommitments e)) now = Ok b /\
    gathering e (now + 300000000000) (decoder b) b [] /\ decoder_wf (decoder b) /\ doriginalSize (decoder b) = OriginalSize e /\
    Ready (decoder b) = false.
Proof.
  intros Hwf Hsm. pose proof Hwf as (Hs0 & Hvec & HK0 & Ho). pose proof Hsm as [Hk Hs]. unfold OriginalSize.
  assert (exists d, NewDecoder (K e) (symbolSize e) (original e) = Ok d) as [d Hd].
  { unfold NewDecoder. rewrite !(proj2 (Z.leb_gt _ _)) by lia. cbn [orb]. rewrite wrapu_small by (unfold fits; nia).
    rewrite (proj2 (Z.ltb_ge _ _)) by lia. by eexists. }
  assert (exists b, NewBoundedDecoder (K e) (symbolSize e) (original e) (DefaultLimits (K e) (symbolSize e)) (Some (SourceCommitments e)) now = Ok b
    /\ decoder b = d /\ Bounded.seen b = ∅) as (b & Hb & Hbd & Hbs).
  { unfold NewBoundedDecoder. rewrite (DefaultLimits_eq _ _ Hsm). unfold limits_validate.
    cbn [MaxSymbols MaxBytes MaxRankAttempts MaxWorkUnits MaxMemoryBytes Lifetime]. rewrite !(proj2 (Z.leb_gt _ _)) by nia.
    cbn [orb mbind result_bind]. assert (len (SourceCommitments e) = K e) as Hl by (unfold SourceCommitments, CommitSource, K; by rewrite length_imap).
    rewrite Hl, Z.eqb_refl. cbn [negb]. rewrite Hd. cbn [wrap mbind result_bind]. by eexists. }
  exists b. split; [done|]. pose proof Hb as Hb'. apply NewBoundedDecoder_inv in Hb' as (Hinv & Hl & Hc & Hdl & Hdk & Hds & Hf & Hsy & Hwk & Hnd);
    [|rewrite (DefaultLimits_eq _ _ Hsm); cbn [MaxSymbols MaxBytes MaxRankAttempts MaxWorkUnits MaxMemoryBytes]; nia..|nia].
  pose proof (NewDecoder_wf _ _ _ _ Hnd) as (Hdwf & _ & _ & Hdo & Hempty). split_and!; [|done|done|].
  - split; auto.
    + rewrite Hsy, Hwk. lia.
    + intros p r Hp. by rewrite Hempty in Hp.
    + rewrite Hbs. set_solver.
  - unfold NewDecoder in Hnd. run_guards Hnd. rewrite <- Hnd. unfold Ready. cbn [rank dk]. apply Z.eqb_neq. lia.
Qed.

Definition cell_message (cell : list byte) : list byte :=
  match ParsePacket cell with Ok p => symbol_row (pSymbol p) | Err _ => [] end.

Lemma carried_row e generation cell s : carries e generation cell s -> cell_message cell = symbol_row s.
Proof. intros [_ Hp]. unfold cell_message. by rewrite Hp. Qed.

Lemma honest_row_inj e s s' : encoder_wf e -> honest_symbol e s -> honest_symbol e s' -> symbol_row s = symbol_row s' -> s = s'.
Proof.
  intros Hwf (c & -> & Hc & _) (c' & -> & Hc' & _). rewrite !encodeWith_comb by done. unfold symbol_row. cbn [Coeff Data].
  intros [-> _]%app_eq_length_inj; [done|lia].
Qed.

(** A complete honest generation decodes to the object. *)
Lemma gathered_decodes payload size e limit d0 b admitted : NewEncoder payload size = Ok e -> decoder_wf d0 -> dk d0 = K e ->
  dsymbolSize d0 = symbolSize e -> doriginalSize d0 = OriginalSize e -> gathering e limit d0 b admitted -> Ready (decoder b) = true ->
  BoundedDecode b = Ok payload.
Proof.
  intros He Hd0 Hk Hs Ho Hga Hready. destruct (NewEncoder_wf _ _ _ He) as (Hwf & Hor & Htk). pose proof Hwf as (Hs0 & Hvec & HK0 & _).
  pose proof (add_all_wf _ _ _ Hd0 (ga_added _ _ _ _ _ Hga)) as (Hwf' & Hk' & Hs' & Ho' & _).
  unfold BoundedDecode. rewrite (ga_live _ _ _ _ _ Hga). unfold DecoderDecode. rewrite Hready. cbn [negb].
  rewrite (complete_basis (source e) (decoder b) Hwf'); [|by rewrite Hs', Hs|by rewrite Hk', Hk|apply Hga|done].
  cbn [mbind result_bind wrap]. rewrite Ho', Ho. unfold OriginalSize. by rewrite Htk.
Qed.

(** Whatever the order of the cells, the generation is complete in the end. *)
Lemma gathered_ready e generation limit d0 b admitted (cells cells' : list (list byte)) : encoder_wf e -> decoder_wf d0 -> dk d0 = K e ->
  dsymbolSize d0 = symbolSize e -> gathering e limit d0 b admitted -> cells' ≡ₚ cells -> (length (source e) <= length cells)%nat ->
  (forall i cell, cells !! i = Some cell -> exists s, cell_symbol e i s /\ carries e generation cell s) -> collision_free (map cell_message cells) ->
  (forall s, s ∈ admitted -> exists cell, cell ∈ cells /\ carries e generation cell s) ->
  (forall cell s, cell ∈ cells' -> carries e generation cell s -> exists s', s' ∈ admitted /\ fingerprint s' = fingerprint s) ->
  Ready (decoder b) = true.
Proof.
  intros Hwf Hd0 Hk Hs Hga Hperm Hlen Hcells Hcf Hfrom Hall.
  apply (spanning_ready admitted d0 (decoder b) Hd0 (ga_added _ _ _ _ _ Hga)).
  - eapply Forall_impl; [exact (ga_honest _ _ _ _ _ Hga)|]. intros x Hx. by apply (honest_symbol_facts e x d0).
  - intros i Hi. rewrite Hk in *. unfold K in *. rewrite Nat2Z.id in *. apply span_member; [apply length_unit|].
    destruct (lookup_lt_is_Some_2 cells i ltac:(lia)) as [cell Hcell]. destruct (Hcells i cell Hcell) as (s & (c & -> & Hc & _ & Hu) & Hcar).
    assert (cell ∈ cells) as Hin by (by eapply list_elem_of_lookup_2).
    destruct (Hall cell _ ltac:(by rewrite Hperm) Hcar) as (s' & Hs' & Hf). destruct (Hfrom s' Hs') as (cell' & Hin' & Hcar').
    assert (s' = encodeWith e c) as ->.
    { apply (honest_row_inj e); [done|apply Hcar'|apply Hcar|].
      rewrite <- (carried_row _ _ _ _ Hcar), <- (carried_row _ _ _ _ Hcar'). apply Hcf; [by apply elem_of_map_2|by apply elem_of_map_2|].
      rewrite (carried_row _ _ _ _ Hcar), (carried_row _ _ _ _ Hcar'). exact Hf. }
    rewrite <- (Hu Hi). apply list_elem_of_In, in_map_iff. exists (encodeWith e c). rewrite encodeWith_comb at 1 by done. split; [done|by apply list_elem_of_In].
Qed.
Context `{SignatureScheme}.

(** The cells of a publication, in any order, give the object back. *)
Lemma cells_reconstruct payload size e generation clock (cells cells' : list (list byte)) (d : VerifiedDescriptor) :
  NewEncoder payload size = Ok e -> small_dimensions (K e) (symbolSize e) -> (length (source e) <= length cells)%nat -> cells' ≡ₚ cells ->
  (forall i cell, cells !! i = Some cell -> cell_of e generation i cell) -> K e = 1 \/ len cells <= 4 * K e /\ collision_free (map cell_message cells) ->
  (forall n, clock n < clock O + 300000000000) ->
  BDK (VDDescriptor d) = K e -> BDSymbolSize (VDDescriptor d) = symbolSize e -> BDOriginalSize (VDDescriptor d) = OriginalSize e ->
  VDCommitments d = SourceCommitments e -> VDGeneration d = generation ->
  VerifierVerify (mkVerifier (VDRoot d) (VDPublisher d) (VDSignature d)) payload = Ok tt ->
  exists dec, newPacketDecoder d clock = Ok dec /\ Reconstruct (Some dec) cells' (mkVerifier (VDRoot d) (VDPublisher d) (VDSignature d)) = Ok payload.
Proof.
  intros He Hsm Hlen Hperm Hcells Hroom Hclock Ek Es Eo Ec Eg Hver. destruct (NewEncoder_wf _ _ _ He) as (Hwf & _).
  destruct (fresh_generation e (clock O) Hwf Hsm) as (b & Hb & Hga & Hdwf & Hdo & Hready).
  assert (forall i cell, cells !! i = Some cell -> exists s, cell_symbol e i s /\ carries e generation cell s) as Hcar.
  { intros i cell Hi. destruct (Hcells i cell Hi) as (_ & s & Hs & Hp). exists s. split; [done|]. split; [|done]. destruct Hs as (c & ? & ? & ? & _). by exists c. }
  set (dec := mkPacketDecoder generation (K e) (symbolSize e) (OriginalSize e) b clock 1).
  exists dec. split. { unfold newPacketDecoder. rewrite Ek, Es, Eo, Ec, Eg, Hb. done. }
  destruct (feed_gathers e generation clock (clock O + 300000000000) (decoder b) cells' dec []) as (dec' & admitted & Hf & Hga' & _ & Hfrom & Hend); auto.
  - apply Hga.
  - by split_and!.
  - intros cell Hin. rewrite Hperm in Hin. apply list_elem_of_lookup in Hin as [i Hi]. destruct (Hcar i cell Hi) as (s & _ & Hs). eauto.
  - destruct Hroom as [?|[? _]]; [by left|right]. simpl. rewrite Hperm. lia.
  - assert (Ready (decoder (pd_decoder dec')) = true) as Hr.
    { destruct Hend as [?|Hall]; [done|]. destruct Hroom as [H1|[_ Hcf]].
      { destruct (lookup_lt_is_Some_2 cells 0 ltac:(unfold K in H1; lia)) as [cell Hcell]. destruct (Hcar 0%nat cell Hcell) as (s & _ & Hs).
        destruct (Hall cell s ltac:(rewrite Hperm; by eapply list_elem_of_lookup_2) Hs) as (s' & Hin & _). destruct admitted as [|x l]; [set_solver|].
        apply (single_ready e (clock O + 300000000000) (decoder b) (pd_decoder dec') x l); auto. apply Hga. }
      apply (gathered_ready e generation (clock O + 300000000000) (decoder b) (pd_decoder dec') admitted cells cells'); auto; [apply Hga|apply Hga|].
      intros s Hs. destruct (Hfrom s Hs) as [Hn|(cell & Hin & Hc)]; [by apply elem_of_nil in Hn|]. exists cell. by rewrite <- Hperm. }
    unfold Reconstruct. rewrite Hf. cbn [DecoderReady packet_decoder]. rewrite Hr. cbn [negb DecodeObject packet_decoder].
    rewrite (gathered_decodes payload size e (clock O + 300000000000) (decoder b) (pd_decoder dec') admitted He Hdwf); auto; [|apply Hga|apply Hga].
    cbn [wrap]. by rewrite Hver.
Qed.
End decoding.

(** ** Decrypting what was published *)

Section decrypting.
Context `{HashFunction, SignatureScheme, KyberGroup, !Sharing, !RepProofs, BatchJSON}.

(** A quorum gets the plain cells, in the order of the last batch. *)
Lemma decrypted_cells c secret a b n cells partials (visit : nat -> nat -> list (Z * list point) -> list (Z * list point)) :
  validateThresholdCommittee c = Ok tt -> dealt c secret a -> batch_wf b n -> honest_batch b n -> plain_cells secret b n ≡ₚ map Ok cells ->
  Forall (fun p => VerifyPartialDecryption c (Some b) (Some p) = Ok tt /\ partial_sound c b p) partials ->
  NoDup (members_of partials) -> CommThreshold c <= len partials -> (forall col row l, visit col row l ≡ₚ l) ->
  exists cells', ThresholdDecrypt c (Some b) (map Some partials) visit = Ok cells' /\ cells' ≡ₚ cells.
Proof.
  intros Hv Hd Hb Hh Hplain Hp Hnd Hq Hvisit.
  destruct (threshold_columns c secret a b n partials visit Hv Hd Hb Hp Hnd Hq Hvisit) as (columns & Hc & Hl & Hcol).
  assert (columns = plain_cells secret b n) as ->.
  { apply list_eq. intros i. unfold plain_cells. destruct (decide (i < n)%nat) as [Hi|Hi].
    - rewrite Hcol by (done || intros; by apply Hh). change (map (decrypt_cell secret b)) with (fmap (M := list) (decrypt_cell secret b)).
      rewrite list_lookup_fmap, lookup_seq_lt by done. done.
    - rewrite !lookup_ge_None_2; [done|rewrite length_map, length_seq; lia|lia]. }
  apply Permutation_sym, Permutation_sym, Permutation_map_inv in Hplain as (cells' & Hmap & Hperm).
  exists cells'. split; [|by symmetry]. unfold ThresholdDecrypt. rewrite Hc. cbn [mbind result_bind]. rewrite Hmap, collect_map. cbn [wrap].
  rewrite (collect_total (fun x => x)). by rewrite map_id.
Qed.

(** A partial decryption that can be sent in a file. *)
Definition honest_share (d : VerifiedDescriptor) (b : Batch) (p : PartialDecryption) : Prop :=
  VerifyPartialDecryption (VDCommittee d) (Some b) (Some p) = Ok tt /\ partial_sound (VDCommittee d) b p /\
  Forall (fun e => length e = 32%nat) (PartPoints p) /\ len (PartProof p) <= MaximumBatchBytes.

Lemma VerifyPartialDecryption_fields c b p : VerifyPartialDecryption c (Some b) (Some p) = Ok tt ->
  PartCommitteeID p = CommID c /\ PartEpoch p = CommEpoch c /\ (exists m, memberForIndex c (PartMember p) = Ok m) /\
  length (PartBatchDigest p) = 32%nat /\ PartProof p <> [].
Proof.
  unfold VerifyPartialDecryption. destruct (validateThresholdCommittee c); [|done]. cbn [mbind result_bind].
  destruct (validateBatch (Some b)) as [[]|] eqn:Eb; [|done]. cbn [wrap mbind result_bind]. destruct (_ || _) eqn:E; [done|]. reflect_bools.
  destruct (memberForIndex c (PartMember p)) as [m|]; [|done]. cbn [mbind result_bind].
  unfold BatchDigest. rewrite Eb. cbn [mbind result_bind wrap]. destruct (negb (bool_decide (PartBatchDigest p = _))) eqn:Ed; [done|]. reflect_bools.
  destruct (negb _); [done|]. case_bool_decide; [done|]. intros _. split_and!; [done|done|eauto| |done].
  match goal with Hx : PartBatchDigest p = _ |- _ => rewrite Hx end. apply sha256_digest.
Qed.

Lemma DecodePartial_file d b p encoded file secret a : honest_share d b p -> dealt (VDCommittee d) secret a -> partial_parse encoded = Some file ->
  PartialToFile (BDStreamID (VDDescriptor d)) (Some p) = Ok file -> DecodePartial encoded d = Ok p.
Proof.
  intros (Hv & _ & Hpts & Hpl) Hd Hparse Hfile. injection Hfile as <-.
  destruct (VerifyPartialDecryption_fields _ _ _ Hv) as (Hc & He & (m & Hm) & Hdig & Hpr). destruct (memberForIndex_dealt _ _ _ _ _ Hd Hm) as [Hi _].
  unfold DecodePartial. rewrite Hparse. cbn [need mbind result_bind PFVersion PFStreamID PFCommitteeID PFEpoch PFMemberIndex PFBatchDigest PFProof PFPoints].
  rewrite !bool_decide_true by congruence. rewrite He, Z.eqb_refl. cbn [andb check mbind result_bind]. rewrite (proj2 (Z.ltb_lt _ _)) by lia.
  cbn [check mbind result_bind]. rewrite canonical_hex_encode by done. cbn [need mbind result_bind]. rewrite DecodeBase64_encode. cbn [need mbind result_bind].
  rewrite bool_decide_false by done. rewrite (proj2 (Z.ltb_ge _ _)) by lia. cbn [orb negb check mbind result_bind].
  rewrite collect_map, (collect_ext _ (fun x => Ok x)); [rewrite (collect_total (fun x => x)), map_id|].
  - cbn [mbind result_bind]. rewrite <- Hc, <- He. by destruct p.
  - intros x Hx. rewrite Forall_forall in Hpts. by rewrite decodeBase64_encode by auto.
Qed.

(** The directory of partials holds the files of [ps], in the order of their
    names, and they can be read. *)
Definition partial_files (env : materialize_io) (d : VerifiedDescriptor) (files : gmap (list byte) part_entry) (ps : list PartialDecryption) : Prop :=
  io_partials_list env = true /\
  Forall2 (fun name p => exists content file, files !! name = Some (mkEntry false true content) /\ len content <= MaximumBatchBytes /\
      io_partial_open env name = true /\ io_partial_read env name = true /\
      partial_parse content = Some file /\ PartialToFile (BDStreamID (VDDescriptor d)) (Some p) = Ok file)
    (partial_names (BDStreamID (VDDescriptor d)) files) ps.

Lemma load_names_files env d b files secret a seen names ps : dealt (VDCommittee d) secret a -> Forall (honest_share d b) ps ->
  NoDup (members_of ps) -> (forall p, p ∈ ps -> PartMember p ∉ seen) ->
  Forall2 (fun name p => exists content file, files !! name = Some (mkEntry false true content) /\ len content <= MaximumBatchBytes /\
      io_partial_open env name = true /\ io_partial_read env name = true /\
      partial_parse content = Some file /\ PartialToFile (BDStreamID (VDDescriptor d)) (Some p) = Ok file) names ps ->
  load_names env d b files seen names = Ok ps.
Proof.
  intros Hd Hh Hnd Hns Hf. revert seen Hh Hnd Hns. induction Hf as [|name p names ps (content & file & Hin & Hl & Ho & Hr & Hp & Hpf) _ IH];
    intros seen Hh Hnd Hns; [done|]. cbn [load_names]. apply Forall_cons in Hh as [Hp0 Hh]. apply NoDup_cons in Hnd as [Hnot Hnd].
  unfold load_partial. rewrite Hin, Ho. cbn [negb entry_regular entry_content]. rewrite (proj2 (Z.ltb_ge _ _)) by lia. cbn [orb]. rewrite Hr. cbn [negb].
  rewrite (DecodePartial_file d b p content file secret a Hp0 Hd Hp Hpf). cbn [wrap mbind result_bind].
  rewrite bool_decide_false by (apply Hns, list_elem_of_here). destruct Hp0 as (Hv & _). rewrite Hv. cbn [wrap mbind result_bind].
  rewrite IH; [done|done|done|]. intros q Hq Hm. apply elem_of_cons in Hm as [Heq|Hm].
  - apply Hnot. unfold members_of. rewrite <- Heq. by apply elem_of_map_2.
  - by apply (Hns q); [set_solver|].
Qed.

Lemma partial_files_load env d b files secret a ps : dealt (VDCommittee d) secret a -> Forall (honest_share d b) ps -> NoDup (members_of ps) ->
  partial_files env d files ps -> loadPartials env d b (Some files) = Ok ps.
Proof.
  intros Hd Hh Hnd [Hlist Hf]. unfold loadPartials. rewrite Hlist. cbn [negb]. apply (load_names_files env d b files secret a [] _ ps Hd Hh Hnd); [set_solver|exact Hf].
Qed.
End decrypting.

(** ** From the publisher to the reader *)

(** The reader's side of one pass: it is configured, the output directory works, it
    has the stream [payloads] complete in its cache, it finds no output yet, and
    decoding takes less than the five minutes a generation lives.  Nothing is said
    of the directory of partial decryptions, which may hold anything. *)
Record reader_ready `{HashFunction, BatchJSON} (m : Materializer) (env : materialize_io) (cache : cache_root)
  (out : gmap (list byte) (list byte)) (payloads : list (list byte)) : Prop := {
  rr_config : is_Some (MCache m) /\ PartialsDir m <> [] /\ OutputDir m <> [];
  rr_output : io_output_directory env = true /\ io_commit env = Stored /\ out !! output_name (VDRoot (MDescriptor m)) = None;
  rr_clock : forall n, io_clock env n < io_clock env O + 300000000000;
  rr_cache : Load (io_cache env) cache (VDStream (MDescriptor m)) = Ok (Some payloads);
}.

Section end_to_end.
Context `{HashFunction, SignatureScheme, KyberGroup, !Shuffles, !Sharing, !RepProofs, CommitteeJSON, BatchJSON}.

(** The last steps of a pass, once the object is recovered. *)
Lemma store_object env d out payload : VerifySignedEnvelope (envelope_of d payload) = Ok (payload, VDRoot d, VDPublisher d, VDSignature d) ->
  u32 (len payload) = BDOriginalSize (VDDescriptor d) -> io_commit env = Stored -> out !! output_name (VDRoot d) = None ->
  envelope_parse (envelope_text (envelope_of d payload)) = Some (envelope_of d payload) ->
  store env d out payload = (<[output_name (VDRoot d) := envelope_text (envelope_of d payload)]> out, Ok true).
Proof.
  intros Hv Hl Hc Ho Hj. unfold store, verifyOutput, writeImmutable. rewrite Hj, Hv. cbn [wrap mbind result_bind].
  rewrite !bool_decide_true by done. rewrite Hl, Z.eqb_refl, Ho, Hc. done.
Qed.

Lemma envelope_verifies d payload : payload <> [] -> len payload <= MaximumPayloadBytes -> VDRoot d = sha256 payload ->
  length (VDPublisher d) = 32%nat -> length (VDSignature d) = 64%nat -> verify (VDPublisher d) (SigningMessage (VDRoot d)) (VDSignature d) = true ->
  VerifySignedEnvelope (envelope_of d payload) = Ok (payload, VDRoot d, VDPublisher d, VDSignature d).
Proof.
  intros Hne Hl Hr Hp Hs Hv. unfold VerifySignedEnvelope, envelope_of. cbn [EnvVersion EnvPayload EnvContentHash EnvPublisherKey EnvSignature].
  rewrite Z.eqb_refl. cbn [check mbind result_bind]. rewrite DecodeBase64_encode. cbn [need mbind result_bind].
  rewrite (bool_decide_false (payload = [])) by done. rewrite (proj2 (Z.ltb_ge _ _)) by lia. cbn [orb negb check mbind result_bind].
  rewrite Hr, bool_decide_true by done. cbn [check mbind result_bind]. rewrite !decodeBase64_encode by done. cbn [need mbind result_bind].
  rewrite <- Hr, Hv. done.
Qed.
(** A pass of a reader that is ready is decided by the directory of partial
    decryptions. *)
Lemma ProcessOnce_ready m env visit cache files out final : let d := MDescriptor m in reader_ready m env cache out (batch_payloads final 16) -> batch_wf final 16 ->
  ProcessOnce m env visit cache (Some files) out =
  match loadPartials env d final (Some files) with
  | Err e => (out, Err e)
  | Ok ps => if len ps <? CommThreshold (VDCommittee d) then (out, Ok false)
             else match recover env visit d final ps with Err e => (out, Err e) | Ok recovered => store env d out recovered end
  end.
Proof.
  intros d [(Hmc & Hpd & Hod) (Hdir & Hcommit & Hout) Hclock Hload] Hwf. fold d in Hout, Hload. unfold ProcessOnce. fold d.
  rewrite bool_decide_true by done. rewrite !bool_decide_false by done. cbn [negb orb]. rewrite Hdir, Hout. cbn [negb].
  rewrite Hload. pose proof (parsePayloadBatch_payloads final 16 Hwf) as Hparse. unfold parsePayloadBatch in Hparse.
  destruct (ParseWire _) as [b|]; [|done]. by injection Hparse as ->.
Qed.

(** With enough partial decryptions that are sound, it stores the object. *)
Lemma ProcessOnce_materializes payload size e generation cells secret a final ps m env visit cache files out :
  let d := MDescriptor m in
  reader_ready m env cache out (batch_payloads final 16) -> loadPartials env d final (Some files) = Ok ps ->
  NewEncoder payload size = Ok e -> small_dimensions (K e) (symbolSize e) -> (length (source e) <= 16)%nat -> length cells = 16%nat ->
  (forall i cell, cells !! i = Some cell -> cell_of e generation i cell) -> K e = 1 \/ 4 <= K e /\ collision_free (map cell_message cells) ->
  batch_wf final 16 -> honest_batch final 16 -> plain_cells secret final 16 ≡ₚ map Ok cells ->
  validateThresholdCommittee (VDCommittee d) = Ok tt -> dealt (VDCommittee d) secret a -> Forall (partial_sound (VDCommittee d) final) ps ->
  CommThreshold (VDCommittee d) <= len ps -> (forall col row l, visit col row l ≡ₚ l) ->
  BDK (VDDescriptor d) = K e -> BDSymbolSize (VDDescriptor d) = symbolSize e -> BDOriginalSize (VDDescriptor d) = OriginalSize e ->
  VDCommitments d = SourceCommitments e -> VDGeneration d = generation -> len payload = OriginalSize e ->
  payload <> [] -> len payload <= MaximumPayloadBytes -> VDRoot d = sha256 payload ->
  length (VDPublisher d) = 32%nat -> length (VDSignature d) = 64%nat -> verify (VDPublisher d) (SigningMessage (VDRoot d)) (VDSignature d) = true ->
  envelope_parse (envelope_text (envelope_of d payload)) = Some (envelope_of d payload) ->
  ProcessOnce m env visit cache (Some files) out = (<[output_name (VDRoot d) := envelope_text (envelope_of d payload)]> out, Ok true).
Proof.
  intros d Hready Hload He Hsm Hk16 Hl Hcells Hroom Hwf Hhon Hplain Hval Hdealt Hps Hq Hvisit
    Ek Es Eo Ec Eg Hlen Hne Hmax Hroot Hpub Hsig Hver Hjson. destruct (loadPartials_ok _ _ _ _ _ Hload) as (Hnd & Hvp0 & _).
  assert (Forall (fun p => VerifyPartialDecryption (VDCommittee d) (Some final) (Some p) = Ok tt /\ partial_sound (VDCommittee d) final p) ps) as Hvp
    by (by apply Forall_and).
  destruct (decrypted_cells (VDCommittee d) secret a final 16 cells ps visit Hval Hdealt Hwf Hhon Hplain Hvp Hnd Hq Hvisit) as (cells' & Hdec & Hperm).
  pose proof (rr_clock _ _ _ _ _ Hready) as Hclock. destruct (rr_output _ _ _ _ _ Hready) as (_ & Hcommit & Hout). fold d in Hout.
  destruct (cells_reconstruct payload size e generation (io_clock env) cells cells' d He Hsm) as (dec & Hnew & Hrec); auto; [lia|intuition lia| |].
  { unfold VerifierVerify. cbn [VfRoot VfPublicKey VfSignature]. rewrite Hpub, Hsig. cbn [Nat.eqb negb]. rewrite <- Hroot, bool_decide_true by done.
    cbn [negb]. by rewrite Hver. }
  rewrite (ProcessOnce_ready m env visit cache files out final Hready Hwf). fold d. rewrite Hload. rewrite (proj2 (Z.ltb_ge _ _)) by lia.
  unfold recover. rewrite Hdec. cbn [wrap mbind result_bind]. rewrite Hnew. cbn [wrap mbind result_bind]. rewrite Hrec. cbn [wrap mbind result_bind].
  rewrite Hlen, Eo, Z.eqb_refl. cbn [negb]. apply store_object; [by apply envelope_verifies| |done|done|done].
  rewrite wrapu_small; [congruence|]. unfold fits, MaximumPayloadBytes in *. lia.
Qed.
End end_to_end.


(** ** Example: the reader of the ring *)

Lemma shares_permute (P : PartialDecryption -> Prop) ps qs n : ps ≡ₚ qs -> Forall P qs /\ NoDup (members_of qs) /\ n <= len qs ->
  Forall P ps /\ NoDup (members_of ps) /\ n <= len ps.
Proof.
  intros Hperm (Hf & Hn & Hl). split; [|split].
  - exact (Permutation_Forall (Permutation_sym Hperm) Hf).
  - exact (proj2 (NoDup_Permutation_proper _ _ (Permutation_map PartMember Hperm)) Hn).
  - by rewrite (Permutation_length Hperm).
Qed.

Section example.
#[local] Existing Instance example_hash.
#[local] Existing Instance example_signatures.
#[local] Existing Instance gf_group.
#[local] Existing Instance gf_shuffles.
#[local] Existing Instance gf_sharing.
#[local] Existing Instance gf_rep_proofs.
#[local] Existing Instance ring_json.

Lemma Load_stored payloads stream n : StreamFor payloads = Ok stream -> Forall (fun p => length p = CiphertextSize) payloads -> length payloads = n ->
  2 <= Z.of_nat n <= MaximumBatch ->
  Load sound_disk {[hex_encode stream := mkDir (Some (be 2 (Z.of_nat n))) None (list_to_map (zip (seqZ 0 (Z.of_nat n)) payloads))]} stream = Ok (Some payloads).
Proof.
  intros Hs Hf Hl Hn. unfold Load. rewrite lookup_singleton_eq. unfold readBatchSize, MaximumBatch in *. cbn [batch_file].
  rewrite be_val_be_fits by (simpl; lia). change (io_batch_read sound_disk) with true. rewrite length_be. cbn [negb Nat.eqb].
  rewrite (proj2 (Z.ltb_ge (Z.of_nat n) 2)), (proj2 (Z.ltb_ge _ (Z.of_nat n))) by lia. cbn [orb].
  cbn [mbind result_bind]. rewrite (load_cells_sound _ _ payloads).
  - cbn [mbind result_bind]. rewrite Hs. cbn [wrap mbind result_bind]. by rewrite bool_decide_true.
  - assert (length (seqZ 0 (Z.of_nat n)) = length payloads) as Hlen by (rewrite length_seqZ, Hl; lia). apply Forall2_same_length_lookup_2; [done|].
    intros i o c Ho Hc. split; [|rewrite Forall_forall in Hf; apply Hf; by eapply list_elem_of_lookup_2]. cbn [cell_files].
    apply elem_of_list_to_map_1; [rewrite fst_zip by lia; apply NoDup_seqZ|]. apply list_elem_of_lookup. exists i. by rewrite lookup_zip_with, Ho, Hc.
Qed.

Lemma created_fields c m b r p : CreatePartialDecryption c m (Some b) r = Ok p ->
  Forall (fun e => length e = 32%nat) (PartPoints p) /\ exists domain st w, rep_prove domain st w r = Some (PartProof p).
Proof.
  unfold CreatePartialDecryption. destruct (ValidateMemberSecret c m); [|done]. cbn [mbind result_bind].
  destruct (validateBatch (Some b)); [|done]. cbn [wrap mbind result_bind]. destruct (memberForIndex c (SecIndex m)) as [pm|]; [|done]. cbn [mbind result_bind].
  destruct (sunmarshal (SecSecret m)) as [s|]; [|done]. destruct (unmarshal (SecPublic m)) as [q|]; [|done].
  destruct (BatchDigest (Some b)); [|done]. cbn [wrap mbind result_bind].
  match goal with |- context [rep_prove ?x ?y ?z ?w] => destruct (rep_prove x y z w) as [proof|] eqn:Epr; [|done] end.
  intros E. apply (inj Ok) in E. rewrite <- E. cbn [PartPoints PartProof]. split; [|eauto].
  apply Forall_map, Forall_forall. intros x _. apply length_marshal.
Qed.

Definition ring_final : option Batch :=
  g ← ring_generated;
  match decodePayloads (BFCells (GenBundle g)) with
  | Ok payloads => match parsePayloadBatch payloads with Ok b => Some b | Err _ => None end
  | Err _ => None
  end.

Lemma ring_final_eq g final : ring_generated = Some g -> NewBundle (batch_payloads final 16) = Ok (GenBundle g) -> batch_wf final 16 -> ring_final = Some final.
Proof.
  intros Hg Hn Hwf. unfold ring_final. rewrite Hg. cbn [mbind option_bind]. unfold NewBundle in Hn. destruct (StreamFor _) as [stream|]; [|done].
  cbn [wrap mbind result_bind] in Hn. apply (inj Ok) in Hn. rewrite <- Hn. cbn [BFCells].
  destruct (batch_text final 16 Hwf ltac:(by vm_compute)) as (payloads & -> & ->). done.
Qed.

Definition ring_member (i : Z) : MemberSecret :=
  mkMemberSecret (CommID ring_value) (CommEpoch ring_value) i (smarshal (PriEval [example_secret; x07] i)) (marshal (pmul (PriEval [example_secret; x07] i) Base)).

Definition ring_partial (i : Z) : option PartialFile :=
  b ← ring_final; g ← ring_generated;
  match CreatePartialDecryption ring_value (ring_member i) (Some b) [] with
  | Ok p => match PartialToFile (BDStreamID (GenDescriptor g)) (Some p) with Ok f => Some f | Err _ => None end
  | Err _ => None
  end.

Definition by_text (one two : option PartialFile) (t : list byte) : option PartialFile :=
  if bool_decide (t = [x35]) then one else if bool_decide (t = [x36]) then two else None.

#[local] Instance ring_reader_json : BatchJSON := ring_texts (by_text (ring_partial 1) (ring_partial 2)) (Some ring_envelope).

Lemma by_text_parse generated one two envelope : @partial_parse (batch_json generated (by_text one two) envelope) [x35] = one /\
  @partial_parse (batch_json generated (by_text one two) envelope) [x36] = two.
Proof. split; reflexivity. Qed.

Lemma ring_partial_parse : partial_parse [x35] = ring_partial 1 /\ partial_parse [x36] = ring_partial 2.
Proof. exact (by_text_parse ring_generated (ring_partial 1) (ring_partial 2) (Some ring_envelope)). Qed.

Lemma ring_dealt : validateThresholdCommittee ring_value = Ok tt /\ dealt ring_value example_secret [x07].
Proof.
  assert (exists secrets, GenerateDealerCommittee ring_id 1 3 2 [example_secret; x07] = Ok (ring_value, secrets)) as [secrets Hg] by (eexists; vm_compute; reflexivity).
  destruct (GenerateDealerCommittee_dealt _ _ _ _ _ _ _ _ Hg eq_refl) as (Hv & Hd & _). by split.
Qed.

(** The share of one member, as its file is read. *)
Lemma ring_share g final i : ring_generated = Some g -> ring_final = Some final -> batch_wf final 16 -> (i < 3)%nat ->
  exists p file, PartMember p = Z.of_nat i /\ VerifyPartialDecryption ring_value (Some final) (Some p) = Ok tt /\
    Forall (fun e => length e = 32%nat) (PartPoints p) /\ len (PartProof p) <= MaximumBatchBytes /\
    ring_partial (Z.of_nat i) = Some file /\ PartialToFile (BDStreamID (GenDescriptor g)) (Some p) = Ok file.
Proof.
  intros Hg Hf Hwf Hi. destruct ring_dealt as [Hv Hd].
  destruct (honest_partial ring_value example_secret [x07] final 16 i [] Hv Hd Hwf Hi) as (p & Hp & Hm & Hver).
  exists p. unfold ring_partial. rewrite Hf, Hg. cbn [mbind option_bind]. unfold ring_member. rewrite Hp. cbn [PartialToFile].
  destruct (created_fields _ _ _ _ _ Hp) as [Hpts (domain & st & w & Hpr)]. injection Hpr as Hpr. clear Hg Hf Hp.
  eexists. split_and!; [done|done|done| |done|done]. by rewrite <- Hpr.
Qed.

Definition part_name (stream : list byte) (i : byte) : list byte := stream ++ String.list_byte_of_string "-" ++ i :: partial_suffix.

Lemma part_name_listed stream i : has_prefix (stream ++ String.list_byte_of_string "-") (part_name stream i) && has_suffix partial_suffix (part_name stream i) = true.
Proof.
  unfold has_prefix, has_suffix, part_name. apply andb_true_intro. split.
  - apply bool_decide_eq_true. rewrite (app_assoc stream). by rewrite take_app_length.
  - replace (stream ++ String.list_byte_of_string "-" ++ i :: partial_suffix) with ((stream ++ String.list_byte_of_string "-" ++ [i]) ++ partial_suffix)
      by (rewrite <- !app_assoc; done).
    rewrite length_app. rewrite (proj2 (Nat.leb_le _ _)) by lia. apply bool_decide_eq_true. rewrite Nat.add_sub. by rewrite drop_app_length.
Qed.

Lemma part_name_inj stream i j : part_name stream i = part_name stream j -> i = j.
Proof. unfold part_name. intros E. apply app_inv_head in E. by injection E. Qed.

Definition two_files (stream : list byte) : gmap (list byte) part_entry :=
  {[part_name stream x31 := mkEntry false true [x35]; part_name stream x32 := mkEntry false true [x36]]}.

Lemma two_files_lookup stream : two_files stream !! part_name stream x31 = Some (mkEntry false true [x35]) /\
  two_files stream !! part_name stream x32 = Some (mkEntry false true [x36]).
Proof.
  unfold two_files. split; [by rewrite lookup_insert_eq|]. rewrite lookup_insert_ne, lookup_singleton_eq; [done|]. by intros E%part_name_inj.
Qed.

Lemma two_files_names stream : partial_names stream (two_files stream) ≡ₚ [part_name stream x31; part_name stream x32].
Proof.
  destruct (two_files_lookup stream) as [H1 H2]. unfold partial_names. apply NoDup_Permutation.
  - apply NoDup_filter. rewrite (merge_sort_Permutation name_le). apply NoDup_elements.
  - apply NoDup_cons. split; [|apply NoDup_singleton]. rewrite list_elem_of_singleton. by intros E%part_name_inj.
  - intros x. rewrite list_elem_of_filter, (merge_sort_Permutation name_le), elem_of_elements, elem_of_dom. split.
    + intros [_ Hin]. unfold two_files in Hin. destruct (decide (x = part_name stream x31)) as [->|Hx1]; [set_solver|].
      rewrite lookup_insert_ne in Hin by done. destruct (decide (x = part_name stream x32)) as [->|Hx2]; [set_solver|].
      rewrite lookup_singleton_ne in Hin by done. by destruct Hin.
    + intros Hx. rewrite elem_of_cons, list_elem_of_singleton in Hx. destruct Hx as [->| ->]; rewrite part_name_listed; [rewrite H1|rewrite H2]; (split; [done|by eexists]).
Qed.

Definition ring_reader_io : materialize_io := mkMaterializeIO true true sound_disk true (fun _ => true) (fun _ => true) Stored (fun n => Z.of_nat n `min` 100).

Lemma ring_generated_under partials envelope g :
  @GenerateCertified _ _ _ _ _ (ring_texts partials envelope) (Some (fun _ => false)) ring_envelope ring_of ring_authority ring_identity ring_certificate
    ring_randomness = Ok g -> ring_generated = Some g.
Proof.
  intros Hg. unfold ring_generated.
  assert (forall d, @descriptor_text (ring_texts partials envelope) d = @descriptor_text ring_batch_json d) as Ht
    by (intros d; unfold ring_texts, ring_batch_json; rewrite !batch_json_text; reflexivity).
  pose proof (eq_trans (eq_sym (GenerateCertified_text (ring_texts partials envelope) ring_batch_json (Some (fun _ => false)) ring_envelope ring_of
    ring_authority ring_identity ring_certificate ring_randomness Ht)) Hg) as ->. reflexivity.
Qed.

Lemma one_file `{BatchJSON} v stream i content p f : two_files stream !! part_name stream i = Some (mkEntry false true content) ->
  partial_parse content = Some f -> PartialToFile (BDStreamID (VDDescriptor v)) (Some p) = Ok f -> len content <= MaximumBatchBytes ->
  exists content file, two_files stream !! part_name stream i = Some (mkEntry false true content) /\ len content <= MaximumBatchBytes /\
    io_partial_open ring_reader_io (part_name stream i) = true /\ io_partial_read ring_reader_io (part_name stream i) = true /\
    partial_parse content = Some file /\ PartialToFile (BDStreamID (VDDescriptor v)) (Some p) = Ok file.
Proof. intros Hl Hp Hf Hc. by exists content, f. Qed.

Lemma two_partials `{BatchJSON} v p1 p2 f1 f2 : partial_parse [x35] = Some f1 -> partial_parse [x36] = Some f2 ->
  PartialToFile (BDStreamID (VDDescriptor v)) (Some p1) = Ok f1 -> PartialToFile (BDStreamID (VDDescriptor v)) (Some p2) = Ok f2 ->
  exists ps, partial_files ring_reader_io v (two_files (BDStreamID (VDDescriptor v))) ps /\ ps ≡ₚ [p1; p2].
Proof.
  intros T1 T2 F1 F2. set (stream := BDStreamID (VDDescriptor v)). destruct (two_files_lookup stream) as [Q1 Q2].
  pose proof (one_file v stream x31 [x35] p1 f1 Q1 T1 F1 ltac:(vm_compute; discriminate)) as O1.
  pose proof (one_file v stream x32 [x36] p2 f2 Q2 T2 F2 ltac:(vm_compute; discriminate)) as O2.
  unfold partial_files. fold stream in O1, O2 |- *.
  destruct (Permutation_length_2_inv (Permutation_sym (two_files_names stream))) as [Hn|Hn]; rewrite Hn.
  - exists [p1; p2]. split; [|done]. split; [done|]. by repeat constructor.
  - exists [p2; p1]. split; [|by apply Permutation_swap]. split; [done|]. by repeat constructor.
Qed.

(** The files of two members are what the reader of the ring finds. *)
Lemma ring_partial_files g final v : ring_generated = Some g -> ring_final = Some final -> batch_wf final 16 -> VDDescriptor v = GenDescriptor g ->
  VDCommittee v = ring_value ->
  exists ps, partial_files ring_reader_io v (two_files (BDStreamID (VDDescriptor v))) ps /\ Forall (honest_share v final) ps /\ NoDup (members_of ps) /\ 2 <= len ps.
Proof.
  intros Hg Hf Hwf Hv Hc. destruct (ring_share g final 1 Hg Hf Hwf ltac:(lia)) as (p1 & f1 & M1 & V1 & L1 & P1 & R1 & F1).
  destruct (ring_share g final 2 Hg Hf Hwf ltac:(lia)) as (p2 & f2 & M2 & V2 & L2 & P2 & R2 & F2). rewrite <- Hv in F1, F2. clear Hg Hf.
  assert (forall p, partial_sound ring_value final p) as Hs by (intros p m points share digest _ _ _ _; apply gf_rep_sound).
  change (Z.of_nat 1) with 1 in R1. change (Z.of_nat 2) with 2 in R2. destruct ring_partial_parse as [T1 T2]. rewrite <- T1 in R1. rewrite <- T2 in R2. clear T1 T2.
  destruct (two_partials v p1 p2 f1 f2 R1 R2 F1 F2) as (ps & Hps & Hperm). clear R1 R2. exists ps. split; [exact Hps|]. apply (shares_permute _ ps [p1; p2] 2 Hperm). split; [|split].
  - constructor; [|constructor; [|constructor]]; unfold honest_share; rewrite Hc; split_and!; auto.
  - unfold members_of. cbn [map]. rewrite M1, M2. apply (bool_decide_unpack _). vm_compute. exact I.
  - vm_compute. discriminate.
Qed.

Lemma ring_envelope_text v : VDRoot v = sha256 ring_object -> VDPublisher v = public ring_publisher ->
  VDSignature v = sign ring_publisher (SigningMessage (sha256 ring_object)) -> envelope_of v ring_object = ring_envelope.
Proof. intros Hr Hp Hs. unfold envelope_of, ring_envelope. rewrite Hr, Hp, Hs. reflexivity. Qed.

Lemma batch_json_envelope generated partials envelope : @envelope_text (batch_json generated partials envelope) (default ring_envelope envelope) = [x33] /\
  @envelope_parse (batch_json generated partials envelope) [x33] = envelope.
Proof. split; reflexivity. Qed.

Lemma ring_reads : envelope_text ring_envelope = [x33] /\ envelope_parse [x33] = Some ring_envelope.
Proof. exact (batch_json_envelope ring_generated (by_text (ring_partial 1) (ring_partial 2)) (Some ring_envelope)). Qed.

(** The verified descriptor of the ring, with its stream. *)
Lemma ring_verified_descriptor g final : ring_generated = Some g -> NewBundle (batch_payloads final 16) = Ok (GenBundle g) -> batch_wf final 16 ->
  exists v, VerifyBatchDescriptor [x31] (public ring_authority) ring_of = Ok v /\ descriptor_parse [x31] = Some (GenDescriptor g) /\
    VDDescriptor v = GenDescriptor g /\ VDCommittee v = ring_value /\ VDRoot v = sha256 ring_object /\ VDPublisher v = public ring_publisher /\
    VDSignature v = sign ring_publisher (SigningMessage (sha256 ring_object)) /\ StreamFor (batch_payloads final 16) = Ok (VDStream v).
Proof.
  intros Hg Hn Hwf. pose proof (ring_final_eq g final Hg Hn Hwf) as Hfin.
  destruct (ring_published (by_text (ring_partial 1) (ring_partial 2)) (Some ring_envelope)) as (g0 & e0 & size0 & cells0 & final0 & Hg0 & Hp).
  rewrite Hg in Hg0. injection Hg0 as <-. pose proof (pub_final _ _ _ _ _ _ _ _ _ _ _ _ _ _ Hp) as (Hwf0 & _).
  pose proof (ring_final_eq g final0 Hg (pub_bundle _ _ _ _ _ _ _ _ _ _ _ _ _ _ Hp) Hwf0) as Hfin0. rewrite Hfin in Hfin0. injection Hfin0 as <-. clear Hfin.
  pose proof (pub_typed _ _ _ _ _ _ _ _ _ _ _ _ _ _ Hp ring_epoch) as Ht.
  destruct (ring_parses (by_text (ring_partial 1) (ring_partial 2)) (Some ring_envelope) g Hg Ht) as [Hd _]. clear Hg.
  destruct (pub_verifies _ _ _ _ _ _ _ _ _ _ _ _ _ _ Hp [x31] (ltac:(discriminate)) one_byte one_value Hd) as (stream & Hs & Hv).
  eexists. split; [exact Hv|]. split; [exact Hd|]. cbn [VDDescriptor VDCommittee VDRoot VDPublisher VDSignature VDStream].
  split; [reflexivity|]. split; [reflexivity|]. split; [reflexivity|]. split; [reflexivity|]. split; [reflexivity|]. exact Hs.
Qed.

Definition ring_reader (v : VerifiedDescriptor) : Materializer := mkMaterializer (Some (mkStore 1 1 ∅)) v [x70] [x6f] 1.
Definition ring_cache (v : VerifiedDescriptor) (final : Batch) : cache_root :=
  {[hex_encode (VDStream v) := mkDir (Some (be 2 16)) None (list_to_map (zip (seqZ 0 16) (batch_payloads final 16)))]}.

Lemma ring_reader_ready v final : StreamFor (batch_payloads final 16) = Ok (VDStream v) ->
  reader_ready (ring_reader v) ring_reader_io (ring_cache v final) ∅ (batch_payloads final 16).
Proof.
  intros Hs. split; cbn [ring_reader MCache PartialsDir OutputDir MDescriptor].
  - split_and!; [by eexists|discriminate|discriminate].
  - split_and!; [reflexivity|reflexivity|apply lookup_empty].
  - intros n. cbn [ring_reader_io io_clock]. lia.
  - apply (Load_stored _ _ 16 Hs); [apply batch_payloads_typed|apply length_batch_payloads|vm_compute; split; discriminate].
Qed.

Lemma ceil_div_one s : 0 < s -> ceil_div (len ring_object) s = 1.
Proof. intros Hs. destruct (ceil_div_spec (len ring_object) s eq_refl Hs) as (H1 & H2 & H3). change (len ring_object) with 1 in *. nia. Qed.

End example.
