(* ===== verification/Share.v ===== *)
(** Partial decryptions on their way to a reader.  An operator's share service
    ([live/share]) makes its partial decryption of a batch, as long as the epoch may
    be served, and hands it out; the fetcher ([live/partialfetch/fetcher.go]) polls
    every operator of the topology and keeps what it gets, for the stream that the
    authority's plan ([live/fetchplan/plan.go]) names. *)

From stdpp Require Import base list list_numbers strings sets gmap.
From Stdlib Require Import ZArith Lia Strings.Byte.
From S2P Require Import Prelude Bytes Hash Codec StrictJSON Endpoint Checkpoint Frame RawCache Kyber Topology TopologyDocument Epoch Chain Mix Threshold Committee Batch Generate Materialize.

(** ** When an epoch may be served *)

(** What the service asks of the component that knows the epochs: [true] is the
    nil error. *)
Class EpochGuard (G : Type) := { serves : G -> Z -> Z -> bool }.

#[export] Instance chain_guard `{HashFunction, SignatureScheme, Calendar, EpochInputs} : EpochGuard Chain.Chain := {| serves := ServesEpoch |}.

Record TopologyWindowGuard := mkWindowGuard { GNetwork : VerifiedTopology }.

Definition WindowServes `{Calendar} (g : TopologyWindowGuard) (epochNumber now : Z) : bool :=
  let d := TDocument (GNetwork g) in
  if negb (DocEpoch d =? epochNumber) then false
  else match parse_time (NotBefore d), parse_time (NotAfter d) with
  | Some notBefore, Some notAfter => negb (now <? notBefore) && (now <? notAfter)
  | _, _ => false
  end.

#[export] Instance window_guard `{Calendar} : EpochGuard TopologyWindowGuard := {| serves := WindowServes |}.

(** ** Files *)

(** What the calls into the operating system answer: whether the output directory
    is a real one, a file can be read, a new file gets its name, and, for the
    fetcher, the directory is synced after that. *)
Record share_io := mkShareIO {
  sh_directory : bool;
  sh_cache : cache_io;
  sh_read : list byte -> bool;
  sh_write : list byte -> bool;
  sh_sync : list byte -> bool;
}.

Inductive share_error :=
| ErrShareConfig
| ErrShareGuard
| ErrShareContext
| ErrShareRefused
| ErrShareDirectory
| ErrShareIO
| ErrShareCache (e : cache_error)
| ErrShareWire (e : mix_error)
| ErrSharePartial (e : batch_error)
| ErrShareOtherMember
| ErrShareThreshold (e : threshold_error)
| ErrShareEquivocation
| ErrShareServer.

(** Two digits at least. *)
Definition pad2 (n : Z) : list byte := if n <? 10 then x30 :: FormatUint n else FormatUint n.

Definition partial_file_name (stream : list byte) (index : Z) : list byte := stream ++ text "-" ++ pad2 index ++ partial_suffix.

Definition partial_path (stream : list byte) (index : Z) : list byte := text "/v1/partial/" ++ stream ++ text "/" ++ FormatUint index.

Notation directory := (gmap (list byte) part_entry).

(** [os.ReadFile]; [None] is a file that does not exist. *)
Definition read_file (env : share_io) (files : directory) (name : list byte) : result share_error (option (list byte)) :=
  match files !! name with
  | None => Ok None
  | Some f => if entry_dir f || negb (sh_read env name) then Err ErrShareIO else Ok (Some (entry_content f))
  end.

(** [writeOrCompare] of the two packages.  The share service does not sync the
    directory, [synced] is then true. *)
Definition writeOrCompare (env : share_io) (synced : bool) (files : directory) (name encoded : list byte) : directory * result share_error bool :=
  match read_file env files name with
  | Err e => (files, Err e)
  | Ok (Some existing) => (files, if bool_decide (existing = encoded) then Ok false else Err ErrShareEquivocation)
  | Ok None =>
      if negb (sh_write env name) then (files, Err ErrShareIO)
      else (<[name := mkEntry false true encoded]> files, if synced then Ok true else Err ErrShareIO)
  end.

(** ** The share service *)

(** [json.MarshalIndent] of a partial. *)
Class PartialEncoding := { partial_text : PartialFile -> list byte }.

Record Service {G : Type} := mkService {
  SvcCache : option Store;
  SvcDescriptor : VerifiedDescriptor;
  SvcSecret : MemberSecret;
  SvcOutputDir : list byte;
  SvcInterval : Z;
  ListenAddress : list byte;
  Guard : option G;
}.
Arguments Service : clear implicits.
Arguments mkService {_}.

Record http_request := mkRequest {
  rq_get : bool;
  rq_path : list byte;
  rq_query : list byte;
}.

Inductive http_response :=
| NotFound
| Unavailable
| Served (body : list byte).

(** What one pass meets: the operating system, the instant, the cache, which the
    node writes meanwhile, and the randomness of the prover. *)
Record share_pass := mkPass {
  pass_io : share_io;
  pass_now : Z;
  pass_cache : cache_root;
  pass_random : list byte;
}.

(** What happens to the running service. *)
Inductive share_event :=
| Pass (p : share_pass)
| Asked (env : share_io) (q : http_request)
| ContextDone
| ServerFailed.

Section service.
Context `{HashFunction, KyberGroup, !Sharing, !RepProofs, BatchJSON, PartialEncoding} {G : Type} `{EpochGuard G}.

Definition service_stream (s : Service G) : list byte := BDStreamID (VDDescriptor (SvcDescriptor s)).
Definition service_file (s : Service G) : list byte := partial_file_name (service_stream s) (SecIndex (SvcSecret s)).

Definition handler (s : Service G) (env : share_io) (files : directory) (q : http_request) : http_response :=
  if negb (rq_get q) || negb (bool_decide (rq_path q = partial_path (service_stream s) (SecIndex (SvcSecret s)))) || negb (bool_decide (rq_query q = []))
  then NotFound
  else match files !! service_file s with
  | None => NotFound
  | Some f =>
      if negb (entry_regular f) || (len (entry_content f) <=? 0) || (MaximumBatchBytes <? len (entry_content f)) then NotFound
      else if negb (sh_read env (service_file s)) then Unavailable
      else Served (entry_content f)
  end.

(** The partial on disk is checked again. *)
Definition check_existing (s : Service G) (encrypted : Batch) (existing : list byte) : result share_error bool :=
  p ← wrap ErrSharePartial (DecodePartial existing (SvcDescriptor s));
  if negb (PartMember p =? SecIndex (SvcSecret s)) then Err ErrShareOtherMember
  else
    _ ← wrap ErrShareThreshold (VerifyPartialDecryption (VDCommittee (SvcDescriptor s)) (Some encrypted) (Some p));
    Ok false.

Definition make_partial (s : Service G) (encrypted : Batch) (r : list byte) : result share_error (list byte) :=
  p ← wrap ErrShareThreshold (CreatePartialDecryption (VDCommittee (SvcDescriptor s)) (SvcSecret s) (Some encrypted) r);
  _ ← wrap ErrShareThreshold (VerifyPartialDecryption (VDCommittee (SvcDescriptor s)) (Some encrypted) (Some p));
  file ← wrap ErrSharePartial (PartialToFile (service_stream s) (Some p));
  Ok (partial_text file).

Definition ProcessOnce (s : Service G) (p : share_pass) (files : directory) : directory * result share_error bool :=
  let d := SvcDescriptor s in
  let env := pass_io p in
  if negb (bool_decide (is_Some (SvcCache s))) || bool_decide (SvcOutputDir s = []) then (files, Err ErrShareConfig)
  else match Guard s with
  | None => (files, Err ErrShareGuard)
  | Some guard =>
      if negb (serves guard (CommEpoch (VDCommittee d)) (pass_now p)) then (files, Err ErrShareRefused)
      else if negb (sh_directory env) then (files, Err ErrShareDirectory)
      else match Load (sh_cache env) (pass_cache p) (VDStream d) with
      | Err e => (files, Err (ErrShareCache e))
      | Ok None => (files, Ok false)
      | Ok (Some payloads) =>
          match ParseWire (map payload_cell payloads) with
          | Err e => (files, Err (ErrShareWire e))
          | Ok encrypted =>
              match read_file env files (service_file s) with
              | Err e => (files, Err e)
              | Ok (Some existing) => (files, check_existing s encrypted existing)
              | Ok None =>
                  match make_partial s encrypted (pass_random p) with
                  | Err e => (files, Err e)
                  | Ok encoded => writeOrCompare env true files (service_file s) encoded
                  end
              end
          end
      end
  end.

(** The loop and the requests that arrive meanwhile: the responses, in order, and
    how the service ends; [None] is a list of events that does not end it. *)
Fixpoint run_service (s : Service G) (events : list share_event) (files : directory) : directory * list http_response * option share_error :=
  match events with
  | [] => (files, [], None)
  | Pass p :: events =>
      match ProcessOnce s p files with
      | (files, Err e) => (files, [], Some e)
      | (files, Ok _) => run_service s events files
      end
  | Asked env q :: events =>
      let '(files', responses, e) := run_service s events files in (files', handler s env files q :: responses, e)
  | ContextDone :: _ => (files, [], Some ErrShareContext)
  | ServerFailed :: _ => (files, [], Some ErrShareServer)
  end.

Definition Run (s : Service G) (ctx output : bool) (events : list share_event) (files : directory)
  : directory * list http_response * option share_error :=
  if negb ctx then (files, [], Some ErrShareContext)
  else if negb (bool_decide (is_Some (SvcCache s))) || bool_decide (SvcOutputDir s = []) || (SvcInterval s <=? 0) || bool_decide (ListenAddress s = [])
  then (files, [], Some ErrShareConfig)
  else if negb (bool_decide (is_Some (Guard s))) then (files, [], Some ErrShareGuard)
  else if negb output then (files, [], Some ErrShareDirectory)
  else run_service s events files.
End service.

(** ** The fetcher *)

Definition MaximumPartialBytes : Z := Z.shiftl 4 20.
Definition partial_media : list byte := text "application/vnd.nomad.partial+json".
Definition millisecond : Z := 1000000.
Definition minute : Z := 60000000000.

Record Fetcher := mkFetcher {
  FTopology : VerifiedTopology;
  FStreamID : list byte;
  FOutputDir : list byte;
  FInterval : Z;
}.

Inductive fetch_error :=
| ErrFetchStream
| ErrFetchInterval
| ErrFetchContext
| ErrFetchContextDone
| ErrFetchDirectory
| ErrFetchStatus
| ErrFetchMedia
| ErrFetchBody
| ErrFetchStore (e : share_error)
| ErrFetchCadence.

Definition NewFetcher (network : VerifiedTopology) (streamID outputDirectory : list byte) (interval : Z) : result fetch_error Fetcher :=
  match canonical_hex streamID 16 with
  | None => Err ErrFetchStream
  | Some _ =>
      if bool_decide (outputDirectory = []) || (interval <? 100 * millisecond) || (minute <? interval) then Err ErrFetchInterval
      else Ok (mkFetcher network streamID outputDirectory interval)
  end.

(** A response, as the client returns it: [-1] is a length that is not known,
    [ans_media] the media type that [mime.ParseMediaType] reads. *)
Record http_answer := mkAnswer {
  ans_status : Z;
  ans_length : Z;
  ans_media : option (list byte);
  ans_body : list byte;
  ans_read : bool;
}.

(** What the operator answers to a path of its endpoint; [None] is a request
    that fails. *)
Notation answers := (Operator -> list byte -> option http_answer).

(** [io.ReadAll] of an [io.LimitReader]. *)
Definition limit_read (limit : Z) (body : list byte) : list byte := if limit <? len body then take (Z.to_nat limit) body else body.

(** [Ok None] is a partial that is not there yet. *)
Definition fetch (f : Fetcher) (network : answers) (o : Operator) : result fetch_error (option (list byte)) :=
  match network o (partial_path (FStreamID f) (Z.of_nat (OpIndex o))) with
  | None => Err ErrFetchStatus
  | Some a =>
      if ans_status a =? 404 then Ok None
      else if negb (ans_status a =? 200) || (ans_length a <=? 0) || (MaximumPartialBytes <? ans_length a) then Err ErrFetchStatus
      else if negb (bool_decide (ans_media a = Some partial_media)) then Err ErrFetchMedia
      else
        let encoded := limit_read (MaximumPartialBytes + 1) (ans_body a) in
        if negb (ans_read a) || bool_decide (encoded = []) || (MaximumPartialBytes <? len encoded) then Err ErrFetchBody
        else Ok (Some encoded)
  end.

(** What is done with the result of one operator; the error is that of the last
    file that could not be stored. *)
Definition keep (f : Fetcher) (env : share_io) (network : answers) (state : directory * option share_error) (o : Operator)
  : directory * option share_error :=
  match fetch f network o with
  | Ok (Some encoded) =>
      let name := partial_file_name (FStreamID f) (Z.of_nat (OpIndex o)) in
      match writeOrCompare env (sh_sync env name) state.1 name encoded with
      | (files, Err e) => (files, Some e)
      | (files, Ok _) => (files, state.2)
      end
  | _ => state
  end.

(** The operators are asked at once; [arrival] is the order of the results. *)
Definition PollOnce (f : Fetcher) (env : share_io) (network : answers) (arrival : list Operator) (files : directory)
  : directory * result fetch_error unit :=
  if negb (sh_directory env) then (files, Err ErrFetchDirectory)
  else match foldl (keep f env network) (files, None) arrival with
  | (files, Some e) => (files, Err (ErrFetchStore e))
  | (files, None) => (files, Ok tt)
  end.

(** One turn of the fetcher; [poll_late] is a cycle that ends after the next one
    should have begun. *)
Record poll := mkPoll {
  poll_io : share_io;
  poll_network : answers;
  poll_arrival : list Operator;
  poll_late : bool;
}.

Fixpoint run_polls (f : Fetcher) (polls : list poll) (files : directory) : directory * fetch_error :=
  match polls with
  | [] => (files, ErrFetchContextDone)
  | p :: polls =>
      match PollOnce f (poll_io p) (poll_network p) (poll_arrival p) files with
      | (files, Err e) => (files, e)
      | (files, Ok _) => if poll_late p then (files, ErrFetchCadence) else run_polls f polls files
      end
  end.

Definition RunFetcher (f : Fetcher) (ctx output : bool) (polls : list poll) (files : directory) : directory * fetch_error :=
  if negb ctx then (files, ErrFetchContext)
  else if negb output then (files, ErrFetchDirectory)
  else run_polls f polls files.

(** ** The plan of the fetcher *)

Definition FetchPlanVersion : list byte := text "nomad-partial-fetch-plan-v1".
Definition MaximumPlanBytes : Z := Z.shiftl 16 10.
Definition fetchPlanDomain : list byte := text "nomad-partial-fetch-plan-authority-v1".

Record FetchPlan := mkFetchPlan {
  FPVersion : list byte;
  FPNetworkID : list byte;
  FPTopologyEpoch : Z;
  FPTopologyDigest : list byte;      (* hexadecimal text *)
  FPStreamID : list byte;
  FPAuthoritySignature : list byte;  (* base64 text *)
}.

Class FetchPlanJSON := {
  plan_text : FetchPlan -> list byte;
  plan_parse : list byte -> option FetchPlan;
}.

Inductive plan_error :=
| ErrPlanPrivateKey
| ErrPlanInput
| ErrPlanDecode
| ErrPlanSignatureText
| ErrPlanSignature
| ErrPlanTopology
| ErrPlanStream.

Definition set_plan_signature (p : FetchPlan) (signature : list byte) : FetchPlan :=
  mkFetchPlan (FPVersion p) (FPNetworkID p) (FPTopologyEpoch p) (FPTopologyDigest p) (FPStreamID p) signature.

Section plan.
Context `{SignatureScheme, FetchPlanJSON}.

Definition plan_message (p : FetchPlan) : list byte := fetchPlanDomain ++ plan_text (set_plan_signature p []).

Definition SignPlan (p : FetchPlan) (authority : list byte) : result plan_error FetchPlan :=
  if negb (Nat.eqb (length authority) 64) then Err ErrPlanPrivateKey
  else Ok (set_plan_signature p (b64_encode (sign authority (plan_message p)))).

Definition VerifyPlan (encoded authority : list byte) (network : VerifiedTopology) : result plan_error FetchPlan :=
  if bool_decide (encoded = []) || (MaximumPlanBytes <? len encoded) || negb (Nat.eqb (length authority) 32) then Err ErrPlanInput
  else match plan_parse encoded with
  | None => Err ErrPlanDecode
  | Some p =>
      match decodeBase64 (FPAuthoritySignature p) 64 with
      | None => Err ErrPlanSignatureText
      | Some signature =>
          if negb (verify authority (plan_message p) signature) then Err ErrPlanSignature
          else if negb (bool_decide (FPVersion p = FetchPlanVersion)) || negb (bool_decide (FPNetworkID p = NetworkID (TDocument network))) ||
                  negb (FPTopologyEpoch p =? DocEpoch (TDocument network)) || negb (bool_decide (FPTopologyDigest p = hex_encode (TDigest network)))
          then Err ErrPlanTopology
          else match canonical_hex (FPStreamID p) 16 with None => Err ErrPlanStream | Some _ => Ok p end
      end
  end.
End plan.

(** ** Names *)

Lemma pad2_value n : fits 64 n -> digits_value (pad2 n) = n.
Proof.
  intros Hn. unfold pad2. destruct (FormatUint_spec n Hn) as [Hv _]. destruct (n <? 10); [|done].
  rewrite <- Hv at 2. unfold digits_value. cbn [fold_left]. by change (0 * 10 + (Z_of_byte x30 - 48)) with 0.
Qed.

Lemma partial_file_name_inj stream i j : fits 64 i -> fits 64 j -> partial_file_name stream i = partial_file_name stream j -> i = j.
Proof.
  intros Hi Hj E. unfold partial_file_name in E. apply app_inv_head, app_inv_head, app_inv_tail in E.
  by rewrite <- (pad2_value i Hi), E, (pad2_value j Hj).
Qed.

Lemma partial_file_listed stream i :
  has_prefix (stream ++ String.list_byte_of_string "-") (partial_file_name stream i) && has_suffix partial_suffix (partial_file_name stream i) = true.
Proof.
  unfold has_prefix, has_suffix, partial_file_name. change (text "-") with (String.list_byte_of_string "-"). apply andb_true_intro. split.
  - apply bool_decide_eq_true. rewrite (app_assoc stream). by rewrite take_app_length.
  - rewrite !app_assoc, length_app. rewrite (proj2 (Nat.leb_le _ _)) by lia. apply bool_decide_eq_true. rewrite Nat.add_sub. by rewrite drop_app_length.
Qed.

Lemma writeOrCompare_spec env synced files name encoded files' r : writeOrCompare env synced files name encoded = (files', r) ->
  files' = files \/ files !! name = None /\ files' = <[name := mkEntry false true encoded]> files.
Proof.
  unfold writeOrCompare, read_file. destruct (files !! name) as [f|] eqn:Ef.
  - destruct (_ || _); intros [= <- _]; by left.
  - destruct (negb _); intros [= <- _]; [by left|by right].
Qed.

(** ** What an operator hands out *)

Section service_sound.
Context `{HashFunction, KyberGroup, !Sharing, !RepProofs, BatchJSON, PartialEncoding} {G : Type} `{EpochGuard G}.

(** The file was made in one of the passes: the guard let the epoch be served at
    that instant, and the file is this member's partial decryption, which
    verifies, of the batch that the cache held. *)
Definition made (s : Service G) (events : list share_event) (f : part_entry) : Prop :=
  exists p guard payloads encrypted partial file, Pass p ∈ events /\ Guard s = Some guard /\
    serves guard (CommEpoch (VDCommittee (SvcDescriptor s))) (pass_now p) = true /\
    Load (sh_cache (pass_io p)) (pass_cache p) (VDStream (SvcDescriptor s)) = Ok (Some payloads) /\
    ParseWire (map payload_cell payloads) = Ok encrypted /\ PartMember partial = SecIndex (SvcSecret s) /\
    VerifyPartialDecryption (VDCommittee (SvcDescriptor s)) (Some encrypted) (Some partial) = Ok tt /\
    PartialToFile (service_stream s) (Some partial) = Ok file /\ f = mkEntry false true (partial_text file).

Lemma created_partial c m b r p : CreatePartialDecryption c m (Some b) r = Ok p ->
  PartMember p = SecIndex m /\ Forall (fun e => length e = 32%nat) (PartPoints p).
Proof.
  unfold CreatePartialDecryption. destruct (ValidateMemberSecret c m); [|done]. cbn [mbind result_bind].
  destruct (validateBatch (Some b)); [|done]. cbn [wrap mbind result_bind]. destruct (memberForIndex c (SecIndex m)) as [pm|]; [|done]. cbn [mbind result_bind].
  destruct (sunmarshal (SecSecret m)) as [x|]; [|done]. destruct (unmarshal (SecPublic m)) as [q|]; [|done].
  destruct (BatchDigest (Some b)); [|done]. cbn [wrap mbind result_bind]. destruct (rep_prove _ _ _ _) as [proof|]; [|done].
  intros E. apply (inj Ok) in E. rewrite <- E. split; [done|]. cbn [PartPoints]. apply Forall_map, Forall_forall. intros y _. apply length_marshal.
Qed.

Lemma share_pass_spec s p files files' r : ProcessOnce s p files = (files', r) ->
  files' = files \/ exists f, files !! service_file s = None /\ files' = <[service_file s := f]> files /\ made s [Pass p] f.
Proof.
  unfold ProcessOnce. destruct (_ || _); [intros [= <- _]; by left|]. destruct (Guard s) as [guard|] eqn:Eg; [|intros [= <- _]; by left].
  destruct (serves guard _ _) eqn:Es; [|intros [= <- _]; by left]. cbn [negb]. destruct (negb _); [intros [= <- _]; by left|].
  destruct (Load _ _ _) as [[payloads|]|] eqn:El; [|intros [= <- _]; by left..].
  destruct (ParseWire _) as [encrypted|] eqn:Ep; [|intros [= <- _]; by left].
  destruct (read_file _ _ _) as [[existing|]|] eqn:Er; [intros [= <- _]; by left| |intros [= <- _]; by left].
  unfold make_partial. destruct (CreatePartialDecryption _ _ _ _) as [partial|] eqn:Ec; [|intros [= <- _]; by left]. cbn [wrap mbind result_bind].
  destruct (VerifyPartialDecryption _ _ _) as [[]|] eqn:Ev; [|intros [= <- _]; by left]. cbn [wrap mbind result_bind].
  destruct (PartialToFile _ _) as [file|] eqn:Ef; [|intros [= <- _]; by left]. cbn [wrap mbind result_bind].
  intros Hw. apply writeOrCompare_spec in Hw as [->|[Hn ->]]; [by left|right]. exists (mkEntry false true (partial_text file)). split_and!; [done|done|].
  exists p, guard, payloads, encrypted, partial, file. destruct (created_partial _ _ _ _ _ Ec) as [Hm _]. split_and!; [by apply list_elem_of_here|done..].
Qed.

Lemma made_weaken s events events' f : (forall e, e ∈ events -> e ∈ events') -> made s events f -> made s events' f.
Proof.
  intros Hsub (p & guard & payloads & encrypted & partial & file & Hin & Hrest). exists p, guard, payloads, encrypted, partial, file. by split; [apply Hsub|].
Qed.

(** The file changes at most once, from nothing. *)
Lemma run_service_spec s events files files' responses e : run_service s events files = (files', responses, e) ->
  (files' = files \/ exists f, files !! service_file s = None /\ files' = <[service_file s := f]> files /\ made s events f) /\
  forall body, Served body ∈ responses -> exists f, files' !! service_file s = Some f /\ entry_content f = body.
Proof.
  revert files responses. induction events as [|ev events IH]; intros files responses; cbn [run_service].
  { intros [= <- <- <-]. split; [by left|set_solver]. }
  destruct ev as [p|env q| |]; [| |intros [= <- <- <-]; split; [by left|set_solver]..].
  - destruct (ProcessOnce s p files) as [files1 r] eqn:Ep. apply share_pass_spec in Ep. destruct r as [ok|err].
    + intros Hr. apply IH in Hr as [Hf Hb]. split; [|exact Hb].
      destruct Ep as [->|(f & Hn & -> & Hm)].
      * destruct Hf as [->|(f & Hn & -> & Hm)]; [by left|right]. exists f. split_and!; [done|done|]. eapply made_weaken; [|exact Hm]. set_solver.
      * right. exists f. destruct Hf as [->|(f2 & Hn2 & _)]; [|by rewrite lookup_insert_eq in Hn2].
        split_and!; [done|done|]. eapply made_weaken; [|exact Hm]. set_solver.
    + intros [= <- <- <-]. split; [|set_solver]. destruct Ep as [->|(f & Hn & -> & Hm)]; [by left|right].
      exists f. split_and!; [done|done|]. eapply made_weaken; [|exact Hm]. set_solver.
  - destruct (run_service s events files) as [[files1 rs] e1] eqn:Er. intros [= <- <- <-]. apply IH in Er as [Hf Hb]. split.
    + destruct Hf as [->|(f & Hn & -> & Hm)]; [by left|right]. exists f. split_and!; [done|done|]. eapply made_weaken; [|exact Hm]. set_solver.
    + intros body [Hh|Hin]%elem_of_cons; [|by apply Hb]. unfold handler in Hh. destruct (_ || _); [done|].
      destruct (files !! service_file s) as [f|] eqn:Ef; [|done]. destruct (_ || _); [done|]. destruct (negb _); [done|]. injection Hh as ->.
      exists f. split; [|done]. destruct Hf as [->|(f2 & Hn & _)]; [done|congruence].
Qed.
End service_sound.

(** C21: An operator hands out one partial decryption of the batch, and only one.
    Whatever passes and requests come in whatever order, until the service ends:
    every body it serves is the same, the content of one file; a file that was
    there is never changed, and one that was not is only made in a pass at whose
    instant the guard let the epoch be served, from this member's secret and the
    complete batch of the cache, with a proof that verifies; no other file is
    touched. *)
Theorem share_served_once `{HashFunction, KyberGroup, !Sharing, !RepProofs, BatchJSON, PartialEncoding} {G : Type} `{EpochGuard G}
  (s : Service G) (ctx output : bool) (events : list share_event) (files : directory) :
  let '(files', responses, _) := Run s ctx output events files in
  (forall name, name <> service_file s -> files' !! name = files !! name) /\
  (forall f, files !! service_file s = Some f -> files' !! service_file s = Some f) /\
  (forall f, files !! service_file s = None -> files' !! service_file s = Some f -> made s events f) /\
  (forall body, Served body ∈ responses -> exists f, files' !! service_file s = Some f /\ entry_content f = body).
Proof.
  destruct (Run s ctx output events files) as [[files' responses] e] eqn:E.
  assert ((files' = files \/ exists f, files !! service_file s = None /\ files' = <[service_file s := f]> files /\ made s events f) /\
    forall body, Served body ∈ responses -> exists f, files' !! service_file s = Some f /\ entry_content f = body) as [Hf Hb].
  { unfold Run in E. destruct (negb ctx); [injection E as <- <- <-; split; [by left|set_solver]|].
    destruct (_ || _); [injection E as <- <- <-; split; [by left|set_solver]|]. destruct (negb _); [injection E as <- <- <-; split; [by left|set_solver]|].
    destruct (negb output); [injection E as <- <- <-; split; [by left|set_solver]|]. by apply run_service_spec in E. }
  destruct Hf as [->|(f & Hn & -> & Hm)]; split_and!; try done.
  - intros f Hn Hs. by rewrite Hn in Hs.
  - intros name Hne. by rewrite lookup_insert_ne.
  - intros f2 Hs. by rewrite Hn in Hs.
  - intros f2 _. rewrite lookup_insert_eq. by intros [= <-].
Qed.

(** ** What the fetcher keeps *)

Section fetching.
Variables (f : Fetcher) (env : share_io) (network : answers).

Definition fetched_name (o : Operator) : list byte := partial_file_name (FStreamID f) (Z.of_nat (OpIndex o)).

(** The result of one operator depends on its own file only. *)
Definition slot_result (o : Operator) (slot : option part_entry) : option part_entry * option share_error :=
  match fetch f network o with
  | Ok (Some encoded) =>
      match slot with
      | Some g => (None, if entry_dir g || negb (sh_read env (fetched_name o)) then Some ErrShareIO
                         else if bool_decide (entry_content g = encoded) then None else Some ErrShareEquivocation)
      | None => if negb (sh_write env (fetched_name o)) then (None, Some ErrShareIO)
                else (Some (mkEntry false true encoded), if sh_sync env (fetched_name o) then None else Some ErrShareIO)
      end
  | _ => (None, None)
  end.

Lemma keep_local files e o : keep f env network (files, e) o =
  (match (slot_result o (files !! fetched_name o)).1 with Some g => <[fetched_name o := g]> files | None => files end,
   match (slot_result o (files !! fetched_name o)).2 with Some e' => Some e' | None => e end).
Proof.
  unfold keep, slot_result, writeOrCompare, read_file. fold (fetched_name o). destruct (fetch f network o) as [[encoded|]|]; [|done..].
  cbn [fst snd]. destruct (files !! fetched_name o) as [g|].
  - destruct (_ || _); [done|]. by case_bool_decide.
  - destruct (negb _); [done|]. by destruct (sh_sync _ _).
Qed.

(** States that differ in which of the errors is kept. *)
Definition same_state (x y : directory * option share_error) : Prop := x.1 = y.1 /\ (is_Some x.2 <-> is_Some y.2).

#[local] Instance same_state_equiv : Equivalence same_state.
Proof. unfold same_state. split; [by intros [? ?]|by intros [? ?] [? ?] [-> ->]|by intros [? ?] [? ?] [? ?] [-> ->] [-> ->]]. Qed.

#[local] Instance keep_proper : Proper (same_state ==> eq ==> same_state) (keep f env network).
Proof.
  intros [fx ex] [fy ey] [Hf He] o _ <-. cbn [fst snd] in *. subst fy. rewrite !keep_local. split; [done|]. cbn [snd].
  by destruct ((slot_result o (fx !! fetched_name o)).2).
Qed.

#[local] Instance fold_proper l : Proper (same_state ==> same_state) (fun st => foldl (keep f env network) st l).
Proof. intros x y Hxy. revert x y Hxy. induction l as [|o l IH]; intros x y Hxy; [done|]. cbn [foldl]. apply IH. by rewrite Hxy. Qed.

Lemma keep_commutes st o1 o2 : fetched_name o1 <> fetched_name o2 ->
  same_state (keep f env network (keep f env network st o1) o2) (keep f env network (keep f env network st o2) o1).
Proof.
  intros Hne. destruct st as [files e]. rewrite !keep_local.
  destruct (slot_result o1 (files !! fetched_name o1)) as [p1 e1] eqn:E1. destruct (slot_result o2 (files !! fetched_name o2)) as [p2 e2] eqn:E2.
  assert ((match p1 with Some g => <[fetched_name o1 := g]> files | None => files end) !! fetched_name o2 = files !! fetched_name o2) as L2
    by (destruct p1; [by rewrite lookup_insert_ne|done]).
  assert ((match p2 with Some g => <[fetched_name o2 := g]> files | None => files end) !! fetched_name o1 = files !! fetched_name o1) as L1
    by (destruct p2; [by rewrite lookup_insert_ne|done]).
  cbn [fst snd]. rewrite L1, L2, E1, E2. split; cbn [fst snd]; [|by destruct e1, e2].
  destruct p1, p2; try done. by rewrite insert_insert_ne.
Qed.

Lemma fold_permutes l l' st : l ≡ₚ l' -> NoDup (map fetched_name l) ->
  same_state (foldl (keep f env network) st l) (foldl (keep f env network) st l').
Proof.
  intros Hp. revert st. induction Hp as [|o l l' Hp IH|o1 o2 l|l1 l2 l3 Hp1 IH1 Hp2 IH2]; intros st Hnd.
  - done.
  - cbn [foldl]. apply IH. cbn [map] in Hnd. by apply NoDup_cons in Hnd as [_ ?].
  - cbn [foldl]. apply (fold_proper l). symmetry. apply keep_commutes. cbn [map] in Hnd. apply NoDup_cons in Hnd as [Hn _]. set_solver.
  - rewrite (IH1 st Hnd). apply IH2. by rewrite <- Hp1.
Qed.

Lemma keep_preserves files e files' e' l name g : foldl (keep f env network) (files, e) l = (files', e') -> files !! name = Some g -> files' !! name = Some g.
Proof.
  revert files e. induction l as [|o l IH]; intros files e; cbn [foldl]; [by intros [= <- <-]|]. rewrite keep_local. intros E Hn. apply IH in E; [done|].
  unfold slot_result. destruct (fetch f network o) as [[encoded|]|]; [|done..]. destruct (files !! fetched_name o) as [g2|] eqn:Eo; [done|].
  destruct (negb _); [done|]. cbn [fst]. rewrite lookup_insert_ne; [done|]. congruence.
Qed.
End fetching.

Lemma PollOnce_preserves f env network arrival files name g : files !! name = Some g -> (PollOnce f env network arrival files).1 !! name = Some g.
Proof.
  intros Hn. unfold PollOnce. destruct (negb _); [done|]. destruct (foldl _ _ _) as [files' e] eqn:E.
  pose proof (keep_preserves _ _ _ _ _ _ _ _ _ _ E Hn) as Hn'. by destruct e.
Qed.

Lemma run_polls_preserves f polls files name g : files !! name = Some g -> (run_polls f polls files).1 !! name = Some g.
Proof.
  revert files. induction polls as [|p polls IH]; intros files Hn; [done|]. cbn [run_polls].
  pose proof (PollOnce_preserves f (poll_io p) (poll_network p) (poll_arrival p) files name g Hn) as Hp.
  destruct (PollOnce _ _ _ _ _) as [files1 [u|e]]; [|done]. destruct (poll_late p); [done|]. by apply IH.
Qed.

(** The names of different operators differ. *)
Lemma fetched_names_distinct f l : Forall (fun o => fits 16 (Z.of_nat (OpIndex o))) l -> NoDup (map OpIndex l) -> NoDup (map (fetched_name f) l).
Proof.
  intros Hfit Hnd. induction l as [|o l IH]; [constructor|]. cbn [map] in *. apply Forall_cons in Hfit as [Ho Hfit]. apply NoDup_cons in Hnd as [Hn Hnd].
  apply NoDup_cons. split; [|by apply IH]. intros Hin. apply (list_elem_of_fmap _ l) in Hin as (o2 & E & Hin). apply Hn. apply (list_elem_of_fmap OpIndex l). exists o2. split; [|done].
  rewrite Forall_forall in Hfit. pose proof (Hfit o2 Hin) as Hf2. unfold fetched_name in E. unfold fits in *. apply partial_file_name_inj in E; [|unfold fits; lia..].
  lia.
Qed.

(** The operators are polled at once and their answers handled as they come; the
    order does not matter.  For operators of different indexes, any two orders of
    arrival leave the same directory, and either both report an error or neither
    does. *)
Theorem poll_order_irrelevant (f : Fetcher) (env : share_io) (network : answers) (arrival arrival' : list Operator) (files : directory) :
  arrival ≡ₚ arrival' -> Forall (fun o => fits 16 (Z.of_nat (OpIndex o))) arrival -> NoDup (map OpIndex arrival) ->
  (PollOnce f env network arrival files).1 = (PollOnce f env network arrival' files).1 /\
  is_ok (PollOnce f env network arrival files).2 = is_ok (PollOnce f env network arrival' files).2.
Proof.
  intros Hp Hfit Hnd. unfold PollOnce. destruct (negb _); [done|].
  destruct (fold_permutes f env network arrival arrival' (files, None) Hp (fetched_names_distinct f _ Hfit Hnd)) as [Hf He].
  destruct (foldl _ _ arrival) as [f1 e1], (foldl _ _ arrival') as [f2 e2]. cbn [fst snd] in *. subst f2.
  destruct e1 as [e1|], e2 as [e2|]; try done; exfalso; destruct He as [He1 He2].
  - by destruct (He1 ltac:(eauto)).
  - by destruct (He2 ltac:(eauto)).
Qed.

Lemma NoDup_map_filter {A B} (g : A -> B) (P : A -> Prop) `{!forall x, Decision (P x)} l : NoDup (map g l) -> NoDup (map g (filter P l)).
Proof.
  induction l as [|x l IH]; intros Hnd; [done|]. cbn [map] in Hnd. apply NoDup_cons in Hnd as [Hn Hnd]. rewrite filter_cons.
  case_decide; [|by apply IH]. cbn [map]. apply NoDup_cons. split; [|by apply IH]. intros Hin. apply Hn.
  apply (list_elem_of_fmap g) in Hin as (y & -> & [_ Hy]%list_elem_of_filter). apply (list_elem_of_fmap g). eauto.
Qed.

Section after_poll.
Variables (f : Fetcher) (env : share_io) (network : answers).

Lemma fold_other l files e name : name ∉ map (fetched_name f) l -> (foldl (keep f env network) (files, e) l).1 !! name = files !! name.
Proof.
  revert files e. induction l as [|o l IH]; intros files e Hn; [done|]. cbn [map] in Hn. apply not_elem_of_cons in Hn as [Ho Hn].
  cbn [foldl]. rewrite keep_local, IH by done. destruct (slot_result f env network o _).1; [|done]. by rewrite lookup_insert_ne.
Qed.

(** The file of an operator whose answer was handled. *)
Lemma fold_lookup l files e o : NoDup (map (fetched_name f) l) -> o ∈ l ->
  (foldl (keep f env network) (files, e) l).1 !! fetched_name f o =
  match (slot_result f env network o (files !! fetched_name f o)).1 with Some g => Some g | None => files !! fetched_name f o end.
Proof.
  revert files e. induction l as [|o2 l IH]; intros files e Hnd Hin; [by apply elem_of_nil in Hin|]. cbn [map] in Hnd.
  apply NoDup_cons in Hnd as [Hn Hnd]. cbn [foldl]. rewrite keep_local. apply elem_of_cons in Hin as [->|Hin].
  - rewrite fold_other by done. destruct (slot_result f env network o2 _).1; [by rewrite lookup_insert_eq|done].
  - assert (fetched_name f o2 <> fetched_name f o) as Hne by (intros E; apply Hn; rewrite E; apply (list_elem_of_fmap _ l); eauto).
    rewrite IH by done. by destruct (slot_result f env network o2 _).1; [rewrite lookup_insert_ne|].
Qed.

(** No error, if none of the answers gives one. *)
Lemma fold_error l files : NoDup (map (fetched_name f) l) ->
  Forall (fun o => (slot_result f env network o (files !! fetched_name f o)).2 = None) l -> (foldl (keep f env network) (files, None) l).2 = None.
Proof.
  revert files. induction l as [|o l IH]; intros files Hnd Hall; [done|]. cbn [map] in Hnd. apply NoDup_cons in Hnd as [Hn Hnd].
  apply Forall_cons in Hall as [Ho Hall]. cbn [foldl]. rewrite keep_local, Ho. apply IH; [done|]. rewrite Forall_forall in *. intros o2 Hin.
  assert (fetched_name f o <> fetched_name f o2) as Hne by (intros E; apply Hn; rewrite E; apply (list_elem_of_fmap _ l); eauto).
  destruct (slot_result f env network o _).1; [rewrite lookup_insert_ne by done|]; by apply Hall.
Qed.
End after_poll.

Section reader_blocked.
Context `{HashFunction, SignatureScheme, KyberGroup, !Sharing, !RepProofs, BatchJSON}.

(** One file that does not decode is enough. *)
Lemma load_names_blocked env d b files names seen name content : name ∈ names -> files !! name = Some (mkEntry false true content) -> partial_parse content = None ->
  is_ok (load_names env d b files seen names) = false.
Proof.
  intros Hin Hf Hp. revert seen. induction names as [|name2 names IH]; intros seen; [by apply elem_of_nil in Hin|]. cbn [load_names].
  apply elem_of_cons in Hin as [<-|Hin].
  - unfold load_partial, DecodePartial. rewrite Hf. destruct (negb _); [done|]. destruct (_ || _); [done|]. destruct (negb _); [done|].
    cbn [entry_content]. by rewrite Hp.
  - destruct (load_partial _ _ _ _ _ _) as [p|]; [|done]. cbn [mbind result_bind]. specialize (IH Hin (PartMember p :: seen)).
    by destruct (load_names _ _ _ _ _ _).
Qed.

Lemma partial_names_listed stream files i content : files !! partial_file_name stream i = Some (mkEntry false true content) ->
  partial_file_name stream i ∈ partial_names stream files.
Proof.
  intros Hf. unfold partial_names. apply list_elem_of_filter. rewrite partial_file_listed, Hf. split; [done|].
  rewrite (sorting.merge_sort_Permutation name_le). apply elem_of_elements, elem_of_dom. eauto.
Qed.

Lemma reader_blocked m env visit cache files out i content : out !! output_name (VDRoot (MDescriptor m)) = None ->
  files !! partial_file_name (BDStreamID (VDDescriptor (MDescriptor m))) i = Some (mkEntry false true content) -> partial_parse content = None ->
  exists r, Materialize.ProcessOnce m env visit cache (Some files) out = (out, r) /\ r <> Ok true.
Proof.
  intros Ho Hf Hp. unfold Materialize.ProcessOnce. destruct (_ || _); [by eexists|]. destruct (negb _); [by eexists|]. rewrite Ho.
  destruct (Load _ _ _) as [[payloads|]|]; [|by eexists..]. destruct (ParseWire _) as [b|]; [|by eexists].
  assert (is_ok (loadPartials env (MDescriptor m) b (Some files)) = false) as Hl.
  { unfold loadPartials. destruct (negb _); [done|]. eapply load_names_blocked; [by eapply partial_names_listed|done|done]. }
  destruct (loadPartials _ _ _ _) as [ps|e]; [done|by eexists].
Qed.
End reader_blocked.

(** C20: One operator can keep an object from a reader for ever.  The fetcher keeps any
    body within the bounds without looking at it, and never replaces it; the
    materializer gives up on the first file that is not a partial decryption.  So
    if one operator answers with bytes that do not decode, then whatever every
    operator answers later, and however many partial decryptions that verify
    are in the directory, no pass of the materializer stores the object. *)
Theorem garbage_blocks_reader `{HashFunction, SignatureScheme, KyberGroup, !Sharing, !RepProofs, BatchJSON} (f : Fetcher) (env : share_io) (network : answers)
  (arrival : list Operator) (files : directory) (o : Operator) (content : list byte) (m : Materializer) :
  FStreamID f = BDStreamID (VDDescriptor (MDescriptor m)) -> sh_directory env = true -> o ∈ arrival ->
  Forall (fun o => fits 16 (Z.of_nat (OpIndex o))) arrival -> NoDup (map OpIndex arrival) ->
  files !! fetched_name f o = None -> sh_write env (fetched_name f o) = true ->
  fetch f network o = Ok (Some content) -> partial_parse content = None ->
  forall polls files', (run_polls f polls (PollOnce f env network arrival files).1).1 = files' ->
  forall menv visit cache out, out !! output_name (VDRoot (MDescriptor m)) = None ->
    exists r, Materialize.ProcessOnce m menv visit cache (Some files') out = (out, r) /\ r <> Ok true.
Proof.
  intros Hs Hd Hin Hfit Hnd Hn Hw Hf Hp polls files' <- menv visit cache out Ho. apply (reader_blocked m menv visit cache _ out (Z.of_nat (OpIndex o)) content Ho); [|done].
  rewrite <- Hs. fold (fetched_name f o). apply run_polls_preserves. unfold PollOnce. rewrite Hd. cbn [negb].
  pose proof (fold_lookup f env network arrival files None o (fetched_names_distinct f _ Hfit Hnd) Hin) as Hl. unfold slot_result in Hl.
  rewrite Hf, Hn, Hw in Hl. cbn [negb fst] in Hl. destruct (foldl _ _ _) as [files1 [e|]]; exact Hl.
Qed.

(** ** From the operators to the reader *)

(** The response as it is written. *)
Definition respond (r : http_response) : http_answer :=
  match r with
  | NotFound => mkAnswer 404 19 (Some (text "text/plain")) (text "404 page not found" ++ [x0a]) true
  | Unavailable => mkAnswer 503 12 (Some (text "text/plain")) (text "unavailable" ++ [x0a]) true
  | Served body => mkAnswer 200 (len body) (Some partial_media) body true
  end.

Lemma fetch_served f network o body :
  network o (partial_path (FStreamID f) (Z.of_nat (OpIndex o))) = Some (respond (Served body)) -> body <> [] -> len body <= MaximumPartialBytes ->
  fetch f network o = Ok (Some body).
Proof.
  intros Hn Hne Hl. unfold fetch. rewrite Hn. cbn [respond ans_status ans_length ans_media ans_body ans_read].
  assert (0 < len body) by (destruct body; [done|simpl; lia]). change (200 =? 404) with false. change (200 =? 200) with true. cbn [negb orb].
  rewrite (proj2 (Z.leb_gt _ _)), (proj2 (Z.ltb_ge _ _)) by lia. cbn [orb]. rewrite bool_decide_true by done. cbn [negb].
  unfold limit_read. rewrite (proj2 (Z.ltb_ge (MaximumPartialBytes + 1) _)) by lia. rewrite bool_decide_false by done.
  rewrite (proj2 (Z.ltb_ge _ _)) by lia. done.
Qed.

Section reaching.
Context `{HashFunction, KyberGroup, !Sharing, !RepProofs, BatchJSON, PartialEncoding} {G : Type} `{EpochGuard G}.

(** The secret that member [i] was dealt. *)
Definition dealt_secret (c : ThresholdCommittee) (secret : scalar) (a : list scalar) (i : nat) : MemberSecret :=
  mkMemberSecret (CommID c) (CommEpoch c) (Z.of_nat i) (smarshal (PriEval (secret :: a) (Z.of_nat i))) (marshal (pmul (PriEval (secret :: a) (Z.of_nat i)) Base)).

(** Operator [o] follows the protocol: its service is configured for the batch
    with the operator's own secret, its disk works, its cache is complete and its
    guard lets the epoch be served when the pass runs.  The proof it makes is
    taken to be sound, and the file to be one that decodes again, within the
    bounds. *)
Record honest_operator (d : VerifiedDescriptor) (b : Batch) (secret : scalar) (a : list scalar) (o : Operator) (s : Service G) (p : share_pass) : Prop := {
  ho_service : SvcDescriptor s = d /\ is_Some (SvcCache s) /\ SvcOutputDir s <> [];
  ho_member : SvcSecret s = dealt_secret (VDCommittee d) secret a (OpIndex o) /\ (OpIndex o < length (CommMembers (VDCommittee d)))%nat;
  ho_guard : exists guard, Guard s = Some guard /\ serves guard (CommEpoch (VDCommittee d)) (pass_now p) = true;
  ho_disk : sh_directory (pass_io p) = true /\ forall name, sh_read (pass_io p) name = true /\ sh_write (pass_io p) name = true;
  ho_cache : exists payloads, Load (sh_cache (pass_io p)) (pass_cache p) (VDStream d) = Ok (Some payloads) /\ ParseWire (map payload_cell payloads) = Ok b;
  ho_partial : forall q file, CreatePartialDecryption (VDCommittee d) (SvcSecret s) (Some b) (pass_random p) = Ok q ->
    PartialToFile (BDStreamID (VDDescriptor d)) (Some q) = Ok file ->
    partial_sound (VDCommittee d) b q /\ len (PartProof q) <= MaximumBatchBytes /\ partial_parse (partial_text file) = Some file /\
    partial_text file <> [] /\ len (partial_text file) <= MaximumPartialBytes;
}.

(** What such an operator serves. *)
Definition serves_share (d : VerifiedDescriptor) (b : Batch) (o : Operator) (body : list byte) (q : PartialDecryption) : Prop :=
  exists file, honest_share d b q /\ PartMember q = Z.of_nat (OpIndex o) /\ PartialToFile (BDStreamID (VDDescriptor d)) (Some q) = Ok file /\
    partial_parse body = Some file /\ body <> [] /\ len body <= MaximumPartialBytes.

Lemma honest_serves d b n secret a o s p : validateThresholdCommittee (VDCommittee d) = Ok tt -> dealt (VDCommittee d) secret a -> batch_wf b n ->
  honest_operator d b secret a o s p -> exists body q, serves_share d b o body q /\
    handler s (pass_io p) (ProcessOnce s p ∅).1 (mkRequest true (partial_path (BDStreamID (VDDescriptor d)) (Z.of_nat (OpIndex o))) []) = Served body.
Proof.
  intros Hv Hd Hb [[Hs [Hc Ho]] [Hm Hi] (guard & Hg & Hgs) [Hdir Hdisk] (payloads & Hl & Hw) Hp]. rewrite Hm in Hp.
  destruct (honest_partial _ _ _ b n (OpIndex o) (pass_random p) Hv Hd Hb Hi) as (q & Hq & Hqm & Hqv). fold (dealt_secret (VDCommittee d) secret a (OpIndex o)) in Hq.
  destruct (created_partial _ _ _ _ _ Hq) as [_ Hpts]. destruct (PartialToFile (BDStreamID (VDDescriptor d)) (Some q)) as [file|] eqn:Ef; [|done].
  destruct (Hp q file Hq Ef) as (Hsound & Hlen & Hparse & Hne & Hmax). exists (partial_text file), q. split; [by exists file|].
  assert (ProcessOnce s p ∅ = (<[service_file s := mkEntry false true (partial_text file)]> ∅, Ok true)) as ->.
  { unfold ProcessOnce. rewrite (bool_decide_true (is_Some _)), (bool_decide_false (SvcOutputDir s = [])) by done. cbn [negb orb]. rewrite Hg, Hs, Hgs, Hdir. cbn [negb].
    rewrite Hl, Hw. unfold read_file. rewrite lookup_empty. unfold make_partial, service_stream. rewrite Hs, Hm, Hq. cbn [wrap mbind result_bind].
    rewrite Hqv. cbn [wrap mbind result_bind]. rewrite Ef. cbn [wrap mbind result_bind]. unfold writeOrCompare, read_file. rewrite lookup_empty.
    by rewrite (proj2 (Hdisk _)). }
  unfold handler, service_stream. cbn [fst rq_get rq_path rq_query]. rewrite Hs, Hm. cbn [SecIndex dealt_secret negb orb].
  rewrite !bool_decide_true by done. cbn [negb orb]. rewrite lookup_insert_eq. cbn [entry_regular entry_content negb orb].
  assert (0 < len (partial_text file)) by (destruct (partial_text file); [done|simpl; lia]). unfold MaximumPartialBytes, MaximumBatchBytes in *.
  rewrite (proj2 (Z.leb_gt _ _)), (proj2 (Z.ltb_ge _ _)) by lia. cbn [orb]. by rewrite (proj1 (Hdisk _)).
Qed.
End reaching.

Section collected.
Context `{HashFunction, BatchJSON}.
Variables (f : Fetcher) (env : share_io) (network : answers) (ops : list Operator) (up : Operator -> bool).
Context (Hfit : Forall (fun o => fits 16 (Z.of_nat (OpIndex o))) ops) (Hdistinct : NoDup (map OpIndex ops)).
Context (Hdown : forall o, o ∈ ops -> up o = false -> is_ok (fetch f network o) = false).
Context (Hdisk : forall name, sh_write env name = true /\ sh_sync env name = true).

(** The directory after one poll of an empty one. *)
Lemma polled_names files : foldl (keep f env network) (∅, None) ops = (files, None) ->
  (forall o, o ∈ ops -> up o = true -> exists body, fetch f network o = Ok (Some body)) ->
  partial_names (FStreamID f) files ≡ₚ map (fetched_name f) (filter (fun o => up o = true) ops).
Proof.
  intros Hf Hup. pose proof (fetched_names_distinct f ops Hfit Hdistinct) as Hnd.
  assert (forall name, is_Some (files !! name) <-> exists o, o ∈ ops /\ up o = true /\ name = fetched_name f o) as Hdom.
  { intros name. destruct (decide (name ∈ map (fetched_name f) ops)) as [Hin|Hnot].
    - apply (list_elem_of_fmap _ ops) in Hin as (o & -> & Ho). pose proof (fold_lookup f env network ops ∅ None o Hnd Ho) as Hl.
      rewrite Hf, lookup_empty in Hl. cbn [fst] in Hl. rewrite Hl. unfold slot_result. destruct (up o) eqn:Eu.
      + destruct (Hup o Ho Eu) as [body ->]. rewrite (proj1 (Hdisk _)). cbn [negb fst]. split; [|by eexists]. intros _. by exists o.
      + pose proof (Hdown o Ho Eu) as Hd. destruct (fetch f network o) as [x|]; [done|]. split; [by intros [? ?]|].
        intros (o2 & Ho2 & Eu2 & E). exfalso.
        assert (OpIndex o = OpIndex o2) as Hi.
        { rewrite Forall_forall in Hfit. pose proof (Hfit o Ho). pose proof (Hfit o2 Ho2). unfold fits in *.
          apply partial_file_name_inj in E; [lia|unfold fits; lia..]. }
        assert (o = o2) as ->; [|congruence]. apply list_elem_of_lookup in Ho as [i Ho]. apply list_elem_of_lookup in Ho2 as [j Ho2].
        assert (i = j) as ->; [|congruence]. apply (NoDup_lookup (OpIndex <$> ops) i j (OpIndex o)); [exact Hdistinct|by rewrite list_lookup_fmap, Ho|].
        by rewrite list_lookup_fmap, Ho2, Hi.
    - pose proof (fold_other f env network ops ∅ None name Hnot) as Hl. rewrite Hf, lookup_empty in Hl. cbn [fst] in Hl. rewrite Hl.
      split; [by intros [? ?]|]. intros (o & Ho & _ & ->). exfalso. apply Hnot, (list_elem_of_fmap _ ops). eauto. }
  assert (forall name g, files !! name = Some g -> entry_dir g = false) as Hfile.
  { intros name g Hg. destruct (proj1 (Hdom name) ltac:(eauto)) as (o & Ho & Eu & ->). pose proof (fold_lookup f env network ops ∅ None o Hnd Ho) as Hl.
    rewrite Hf, lookup_empty in Hl. cbn [fst] in Hl. rewrite Hl in Hg. unfold slot_result in Hg. destruct (Hup o Ho Eu) as [body Hb].
    rewrite Hb, (proj1 (Hdisk _)) in Hg. cbn [negb fst] in Hg. by injection Hg as <-. }
  unfold partial_names. apply NoDup_Permutation.
  - apply NoDup_filter. rewrite (sorting.merge_sort_Permutation name_le). apply NoDup_elements.
  - by apply NoDup_map_filter.
  - intros name. rewrite list_elem_of_filter, (sorting.merge_sort_Permutation name_le), elem_of_elements, elem_of_dom.
    rewrite (list_elem_of_fmap (fetched_name f)). split.
    + intros [_ Hin]. apply Hdom in Hin as (o & Ho & Eu & ->). exists o. by rewrite list_elem_of_filter.
    + intros (o & -> & [Eu Ho]%list_elem_of_filter). assert (is_Some (files !! fetched_name f o)) as [g Hg] by (apply Hdom; eauto).
      unfold fetched_name at 1 2. rewrite partial_file_listed, Hg, (Hfile _ _ Hg). by split; [|eexists].
Qed.
End collected.

Section reached.
Context `{HashFunction, KyberGroup, !Sharing, !RepProofs, BatchJSON, PartialEncoding} {G : Type} `{EpochGuard G}.

(** The operators as the fetcher meets them: those that are up answer from their
    service after its pass, the others not at all. *)
Definition operators_answer (svc : Operator -> option (Service G * share_pass)) : answers := fun o path =>
  '(s, p) ← svc o; Some (respond (handler s (pass_io p) (ProcessOnce s p ∅).1 (mkRequest true path []))).

Definition is_up (svc : Operator -> option (Service G * share_pass)) (o : Operator) : bool := bool_decide (is_Some (svc o)).

Lemma up_served d b n secret a f svc o : validateThresholdCommittee (VDCommittee d) = Ok tt -> dealt (VDCommittee d) secret a -> batch_wf b n ->
  FStreamID f = BDStreamID (VDDescriptor d) -> (forall s p, svc o = Some (s, p) -> honest_operator d b secret a o s p) -> is_up svc o = true ->
  exists body q, fetch f (operators_answer svc) o = Ok (Some body) /\ serves_share d b o body q.
Proof.
  intros Hv Hd Hb Hs Hsvc Hu. apply bool_decide_eq_true in Hu as [[s p] E].
  destruct (honest_serves d b n secret a o s p Hv Hd Hb (Hsvc s p E)) as (body & q & Hq & Hh). exists body, q. split; [|done].
  destruct Hq as (file & _ & _ & _ & _ & Hne & Hl). apply fetch_served; [|done|done]. unfold operators_answer. rewrite E. cbn [mbind option_bind].
  by rewrite Hs, Hh.
Qed.

Lemma down_unserved f svc o : is_up svc o = false -> is_ok (fetch f (operators_answer svc) o) = false.
Proof.
  intros Hu. apply bool_decide_eq_false in Hu. unfold fetch, operators_answer. destruct (svc o) as [[s p]|]; [|done]. destruct Hu. by eexists.
Qed.

(** The shares, in the order of a list of operators. *)
Lemma shares_of d b f env svc ops files l : foldl (keep f env (operators_answer svc)) (∅, None) ops = (files, None) -> NoDup (map (fetched_name f) ops) ->
  (forall name, sh_write env name = true) -> (forall o, o ∈ l -> o ∈ ops) ->
  (forall o, o ∈ l -> exists body q, fetch f (operators_answer svc) o = Ok (Some body) /\ serves_share d b o body q) ->
  exists qs, Forall2 (fun o q => exists body, files !! fetched_name f o = Some (mkEntry false true body) /\ serves_share d b o body q) l qs.
Proof.
  intros Hf Hnd Hw Hsub Hl. induction l as [|o l IH]; [by exists []|]. destruct IH as [qs Hqs]; [set_solver|intros o2 Ho2; apply Hl; set_solver|].
  destruct (Hl o ltac:(set_solver)) as (body & q & Hfetch & Hq). exists (q :: qs). constructor; [|done]. exists body. split; [|done].
  pose proof (fold_lookup f env (operators_answer svc) ops ∅ None o Hnd (Hsub o ltac:(set_solver))) as Hlk. rewrite Hf, lookup_empty in Hlk.
  unfold slot_result in Hlk. rewrite Hfetch, Hw in Hlk. exact Hlk.
Qed.

Lemma shares_members (d : VerifiedDescriptor) (b : Batch) (f : Fetcher) (files : directory) (l : list Operator) (qs : list PartialDecryption) :
  Forall2 (fun o q => exists body, files !! fetched_name f o = Some (mkEntry false true body) /\ serves_share d b o body q) l qs ->
  members_of qs = map (fun o => Z.of_nat (OpIndex o)) l /\ Forall (honest_share d b) qs.
Proof.
  induction 1 as [|o q l qs (body & _ & (file & Hh & Hm & _)) _ [IH1 IH2]]; [done|]. unfold members_of in *. cbn [map]. rewrite Hm, IH1. split; [done|by constructor].
Qed.

Lemma members_distinct (l : list Operator) : NoDup (map OpIndex l) -> NoDup (map (fun o => Z.of_nat (OpIndex o)) l).
Proof.
  intros Hl. rewrite <- (map_map OpIndex Z.of_nat). apply (NoDup_fmap_2 Z.of_nat). exact Hl.
Qed.

(** A poll of an empty directory meets no error. *)
Lemma poll_quiet f env svc ops : NoDup (map (fetched_name f) ops) -> (forall name, sh_write env name = true /\ sh_sync env name = true) ->
  (forall o, o ∈ ops -> is_up svc o = true -> exists body, fetch f (operators_answer svc) o = Ok (Some body)) ->
  exists files, foldl (keep f env (operators_answer svc)) (∅, None) ops = (files, None).
Proof.
  intros Hnames Hdisk Hup. pose proof (fold_error f env (operators_answer svc) ops ∅ Hnames) as He. destruct (foldl _ _ _) as [files e]. exists files. f_equal. apply He.
  apply Forall_forall. intros o Ho. rewrite lookup_empty. unfold slot_result. destruct (is_up svc o) eqn:Eu.
  - destruct (Hup o Ho Eu) as [body ->]. by rewrite (proj1 (Hdisk _)), (proj2 (Hdisk _)).
  - pose proof (down_unserved f svc o Eu) as Hdown. by destruct (fetch _ _ _).
Qed.
End reached.

(** C4: The shares of the operators that are up reach the reader.  If those follow the
    protocol and the others do not answer at all, then after one poll, in
    whatever order the answers come, the reader's directory holds exactly the
    partial decryptions of the operators that are up, each of which verifies; the
    materializer loads them all, so a threshold of operators is enough. *)
Theorem shares_reach_reader `{HashFunction, SignatureScheme, KyberGroup, !Sharing, !RepProofs, BatchJSON, PartialEncoding} {G : Type} `{EpochGuard G}
  (d : VerifiedDescriptor) (b : Batch) (n : nat) (secret : scalar) (a : list scalar) (f : Fetcher) (env : share_io) (menv : materialize_io)
  (svc : Operator -> option (Service G * share_pass)) (arrival : list Operator) :
  validateThresholdCommittee (VDCommittee d) = Ok tt -> dealt (VDCommittee d) secret a -> batch_wf b n -> FStreamID f = BDStreamID (VDDescriptor d) ->
  Forall (fun o => fits 16 (Z.of_nat (OpIndex o))) arrival -> NoDup (map OpIndex arrival) ->
  (forall o s p, o ∈ arrival -> svc o = Some (s, p) -> honest_operator d b secret a o s p) ->
  sh_directory env = true -> (forall name, sh_write env name = true /\ sh_sync env name = true) ->
  io_partials_list menv = true -> (forall name, io_partial_open menv name = true /\ io_partial_read menv name = true) ->
  exists files ps, PollOnce f env (operators_answer svc) arrival ∅ = (files, Ok tt) /\ partial_files menv d files ps /\ loadPartials menv d b (Some files) = Ok ps /\
    members_of ps ≡ₚ map (fun o => Z.of_nat (OpIndex o)) (filter (fun o => is_up svc o = true) arrival) /\ Forall (honest_share d b) ps.
Proof.
  intros Hv Hd Hb Hs Hfit Hnd Hsvc Hdir Hdisk Hlist Hio. pose proof (fetched_names_distinct f arrival Hfit Hnd) as Hnames.
  assert (forall o, o ∈ arrival -> is_up svc o = true -> exists body q, fetch f (operators_answer svc) o = Ok (Some body) /\ serves_share d b o body q) as Hup.
  { intros o Ho Hu. eapply up_served; [done..| |done]. intros s p E. by apply Hsvc. }
  assert (forall o, o ∈ arrival -> is_up svc o = true -> exists body, fetch f (operators_answer svc) o = Ok (Some body)) as Hbody.
  { intros o Ho Hu. destruct (Hup o Ho Hu) as (body & q & Hq & _). by exists body. }
  destruct (poll_quiet f env svc arrival Hnames Hdisk Hbody) as [files Hf].
  assert (partial_names (FStreamID f) files ≡ₚ map (fetched_name f) (filter (fun o => is_up svc o = true) arrival)) as Hperm.
  { eapply (polled_names f env (operators_answer svc) arrival (is_up svc)); try done.
    intros o _ Hu. by apply down_unserved. }
  destruct (Permutation_map_inv _ _ Hperm) as (l & El & Hpl).
  assert (forall o, o ∈ l -> o ∈ arrival /\ is_up svc o = true) as Hin.
  { intros o Ho. rewrite <- Hpl in Ho. apply list_elem_of_filter in Ho as [? ?]. done. }
  destruct (shares_of d b f env svc arrival files l Hf Hnames (fun name => proj1 (Hdisk name))) as (ps & Hps).
  { intros o Ho. by apply Hin. }
  { intros o Ho. destruct (Hin o Ho). by apply Hup. }
  destruct (shares_members d b f files l ps Hps) as [Hm Hh].
  assert (partial_files menv d files ps) as Hpf.
  { split; [done|]. rewrite <- Hs, El. apply Forall2_fmap_l. eapply Forall2_impl; [exact Hps|]. intros o q (body & Hat & (file & _ & _ & Hfile & Hparse & _ & Hl)).
    exists body, file. destruct (Hio (fetched_name f o)). split_and!; (done || by rewrite Hs). }
  assert (NoDup (members_of ps)) as Hndm.
  { rewrite Hm. apply members_distinct. rewrite <- Hpl. by apply NoDup_map_filter. }
  exists files, ps. split_and!; [|exact Hpf| | |exact Hh].
  - unfold PollOnce. rewrite Hdir, Hf. done.
  - by apply (partial_files_load menv d b files secret a ps).
  - rewrite Hm, Hpl. done.
Qed.

(** The authority's plan verifies against the topology it was signed for. *)
Lemma plan_verifies `{SignatureScheme, FetchPlanJSON} (private encoded stream : list byte) (network : VerifiedTopology) (signed : FetchPlan) :
  length private = 64%nat -> length stream = 16%nat -> encoded <> [] -> len encoded <= MaximumPlanBytes ->
  SignPlan (mkFetchPlan FetchPlanVersion (NetworkID (TDocument network)) (DocEpoch (TDocument network)) (hex_encode (TDigest network)) (hex_encode stream) []) private = Ok signed ->
  plan_parse encoded = Some signed -> VerifyPlan encoded (public private) network = Ok signed.
Proof.
  intros Hk Hstream Hne Hl Hs Hp. unfold SignPlan in Hs. rewrite Hk in Hs. cbn [Nat.eqb negb] in Hs. injection Hs as <-.
  unfold VerifyPlan. rewrite bool_decide_false by done. rewrite (proj2 (Z.ltb_ge _ _)), public_length, Hp by done. cbn [orb negb Nat.eqb set_plan_signature FPAuthoritySignature].
  rewrite decodeBase64_encode by apply sign_length.
  unfold plan_message at 1. cbn [set_plan_signature FPVersion FPNetworkID FPTopologyEpoch FPTopologyDigest FPStreamID]. unfold plan_message.
  cbn [set_plan_signature FPVersion FPNetworkID FPTopologyEpoch FPTopologyDigest FPStreamID]. rewrite sign_verify by done. cbn [negb FPVersion FPNetworkID FPTopologyEpoch FPTopologyDigest FPStreamID].
  rewrite !bool_decide_true, Z.eqb_refl, canonical_hex_encode by done. done.
Qed.

(** ** Example: two of three operators are up *)

Section example.
#[local] Existing Instance example_hash.
#[local] Existing Instance example_signatures.
#[local] Existing Instance example_calendar.
#[local] Existing Instance gf_group.
#[local] Existing Instance gf_sharing.
#[local] Existing Instance gf_rep_proofs.

Definition trio_operator (i : nat) : Operator := mkOperator i [] [] [] [] [] [] [] [] [].
Definition trio_operators : list Operator := map trio_operator [2; 0; 1]%nat.
Definition trio_network : VerifiedTopology :=
  mkVerifiedTopology (mkDocument [] [] 1 (format_time 0) (format_time (100 * second)) (mkTraffic 1200 100 200 64) (mkDKGProfile 2 [] [] 1000) trio_operators) [].

Definition trio_io : share_io := mkShareIO true sound_disk (fun _ => true) (fun _ => true) (fun _ => true).

Definition trio_descriptor (stream : list byte) : VerifiedDescriptor :=
  mkVerifiedDescriptor (mkBatchDescriptor [] [] 1 [] (hex_encode stream) 3 [] 1 1 1 [] [] [] [] ring_certificate [] []) stream [] [] [] [] example_committee
    (VCTranscript ring_certified) ring_certified [].

Definition trio_fetcher (stream : list byte) : Fetcher := mkFetcher trio_network (hex_encode stream) [x6f] (1000 * millisecond).

(** Three answers, in two orders. *)
Lemma poll_order_irrelevant_witness :
  let poll := fun arrival => PollOnce (trio_fetcher []) trio_io (fun o _ => Some (respond (Served [x61]))) arrival ∅ in
  (poll trio_operators).1 = (poll (reverse trio_operators)).1 /\ is_ok (poll (reverse trio_operators)).2 = true.
Proof.
  cbv zeta.
  destruct (poll_order_irrelevant (trio_fetcher []) trio_io (fun o _ => Some (respond (Served [x61]))) trio_operators (reverse trio_operators) ∅) as [E1 E2].
  - symmetry. apply reverse_Permutation.
  - apply (bool_decide_unpack _). vm_compute. exact I.
  - apply (bool_decide_unpack _). vm_compute. exact I.
  - split; [exact E1|]. rewrite <- E2. vm_compute. reflexivity.
Defined.

(** Operator 2 answers with one byte. *)
Lemma garbage_blocks_reader_witness :
  let polls := [mkPoll trio_io (fun _ _ => None) trio_operators false] in
  let m := mkMaterializer (Some (RawCache.mkStore 1 1 ∅)) (trio_descriptor []) [x70] [x6f] 1 in
  let files := (PollOnce (trio_fetcher []) trio_io (fun o _ => Some (respond (Served [x61]))) trio_operators ∅).1 in
  exists r, @Materialize.ProcessOnce _ _ _ _ _ (batch_json None (fun _ => None) None) m ring_reader_io (fun _ _ l => l) ∅ (Some (run_polls (trio_fetcher []) polls files).1) ∅ = (∅, r) /\ r <> Ok true.
Proof.
  intros polls m files.
  apply (@garbage_blocks_reader _ _ _ _ _ (batch_json None (fun _ => None) None) (trio_fetcher []) trio_io (fun o _ => Some (respond (Served [x61]))) trio_operators ∅
    (trio_operator 2) [x61] m) with (polls := polls); try reflexivity.
  - apply list_elem_of_here.
  - apply (bool_decide_unpack _). vm_compute. exact I.
  - apply (bool_decide_unpack _). vm_compute. exact I.
Defined.

Definition trio_text : PartialEncoding := {| partial_text := fun file => if PFMemberIndex file =? 0 then [x35] else [x36] |}.

Definition trio_cache (b : Batch) (stream : list byte) : cache_root :=
  {[hex_encode stream := mkDir (Some (be 2 3)) None (list_to_map (zip (seqZ 0 3) (batch_payloads b 3)))]}.

Definition trio_pass (b : Batch) (stream : list byte) : share_pass := mkPass trio_io 5 (trio_cache b stream) [].

(** The service of a member, and the one that is down. *)
Definition trio_service (stream : list byte) (i : nat) : Service TopologyWindowGuard :=
  mkService (Some (RawCache.mkStore 1 1 ∅)) (trio_descriptor stream) (dealt_secret example_committee example_secret [x09] i) [x6f] 1 [x6c] (Some (mkWindowGuard trio_network)).

Definition trio_up (b : Batch) (stream : list byte) (o : Operator) : option (Service TopologyWindowGuard * share_pass) :=
  if Nat.ltb (OpIndex o) 2 then Some (trio_service stream (OpIndex o), trio_pass b stream) else None.

Definition trio_partial (b : Batch) (stream : list byte) (i : nat) : option PartialFile :=
  match CreatePartialDecryption example_committee (dealt_secret example_committee example_secret [x09] i) (Some b) [] with
  | Ok q => match PartialToFile (hex_encode stream) (Some q) with Ok f => Some f | Err _ => None end
  | Err _ => None
  end.

(** The bytes of the example decode to the two partials. *)
Lemma trio_reads b stream i q file : (i < 2)%nat ->
  CreatePartialDecryption example_committee (dealt_secret example_committee example_secret [x09] i) (Some b) [] = Ok q ->
  PartialToFile (hex_encode stream) (Some q) = Ok file ->
  @partial_parse (batch_json None (by_text (trio_partial b stream 0) (trio_partial b stream 1)) None) (@partial_text trio_text file) = Some file /\
  (@partial_text trio_text file = [x35] \/ @partial_text trio_text file = [x36]).
Proof.
  intros Hi Hq Hf. destruct (created_partial _ _ _ _ _ Hq) as [Hm _]. cbn [dealt_secret SecIndex] in Hm.
  assert (trio_partial b stream i = Some file) as Ht by (unfold trio_partial; rewrite Hq, Hf; reflexivity).
  destruct (by_text_parse None (trio_partial b stream 0) (trio_partial b stream 1) None) as [E0 E1].
  assert (PFMemberIndex file = Z.of_nat i) as Hmi by (cbn [PartialToFile] in Hf; injection Hf as <-; exact Hm).
  cbn [partial_text trio_text]. rewrite Hmi. destruct i as [|[|i]]; [| |lia].
  - change (Z.of_nat 0 =? 0) with true. split; [exact (eq_trans E0 Ht)|by left].
  - change (Z.of_nat 1 =? 0) with false. split; [exact (eq_trans E1 Ht)|by right].
Qed.

Lemma trio_honest b stream o s p : batch_wf b 3 -> StreamFor (batch_payloads b 3) = Ok stream -> trio_up b stream o = Some (s, p) ->
  @honest_operator _ _ _ _ (batch_json None (by_text (trio_partial b stream 0) (trio_partial b stream 1)) None) trio_text TopologyWindowGuard _
    (trio_descriptor stream) b example_secret [x09] o s p.
Proof.
  intros Hb Hs Hu. unfold trio_up in Hu. destruct (Nat.ltb (OpIndex o) 2) eqn:Ei; [|discriminate Hu]. apply Nat.ltb_lt in Ei. injection Hu as <- <-. split.
  - split_and!; [reflexivity|by eexists|discriminate].
  - split; [reflexivity|]. change (length (CommMembers (VDCommittee (trio_descriptor stream)))) with 3%nat. lia.
  - exists (mkWindowGuard trio_network). split; [reflexivity|]. vm_compute. reflexivity.
  - split; [reflexivity|]. intros name. split; reflexivity.
  - exists (batch_payloads b 3). split; [|pose proof (parsePayloadBatch_payloads b 3 Hb) as Hpp; unfold parsePayloadBatch in Hpp; destruct (ParseWire _); [by injection Hpp as ->|discriminate Hpp]].
    apply (Load_stored _ _ 3 Hs); [apply batch_payloads_typed|apply length_batch_payloads|vm_compute; split; discriminate].
  - intros q file Hq Hf. split; [intros m points share digest _ _ _ _; apply gf_rep_sound|].
    split; [destruct (created_fields _ _ _ _ _ Hq) as [_ (dom & st & w & Hpr)]; injection Hpr as <-; vm_compute; discriminate|].
    destruct (trio_reads b stream (OpIndex o) q file Ei Hq Hf) as [Hp Ht]. split; [exact Hp|]. destruct Ht as [-> | ->]; split; (discriminate || (vm_compute; discriminate)).
Qed.

Lemma shares_reach_reader_witness : exists b stream files ps,
  @PollOnce (trio_fetcher stream) trio_io (@operators_answer _ _ _ (batch_json None (by_text (trio_partial b stream 0) (trio_partial b stream 1)) None) trio_text
    TopologyWindowGuard _ (trio_up b stream)) trio_operators ∅ = (files, Ok tt) /\
  members_of ps ≡ₚ [0; 1] /\ Forall (honest_share (trio_descriptor stream) b) ps.
Proof.
  destruct example_encrypts as [b Hb]. destruct (Encrypt_ok _ _ _ _ Hb) as (h & Hh & _ & Hwf & _). clear Hb.
  assert (exists stream, StreamFor (batch_payloads b 3) = Ok stream) as [stream Hs].
  { unfold StreamFor. rewrite length_batch_payloads. change ((Z.of_nat 3 <? 2) || (MaximumBatch <? Z.of_nat 3)) with false. by eexists. }
  destruct example_dealt as [Hv Hd].
  destruct (@shares_reach_reader _ _ _ _ _ (batch_json None (by_text (trio_partial b stream 0) (trio_partial b stream 1)) None) trio_text TopologyWindowGuard _
    (trio_descriptor stream) b 3 example_secret [x09] (trio_fetcher stream) trio_io ring_reader_io (trio_up b stream) trio_operators)
    as (files & ps & Hp & _ & _ & Hm & Hf).
  - exact Hv.
  - exact Hd.
  - exact Hwf.
  - reflexivity.
  - apply (bool_decide_unpack _). vm_compute. exact I.
  - apply (bool_decide_unpack _). vm_compute. exact I.
  - intros o s p _ Hu. by apply trio_honest.
  - reflexivity.
  - intros name. split; reflexivity.
  - reflexivity.
  - intros name. split; reflexivity.
  - exists b, stream, files, ps. split; [exact Hp|]. split; [exact Hm|exact Hf].
Defined.
End example.
