(* ===== verification/ObjectStore.v ===== *)
(** The objects a client renders ([browser/objectstore/object.go] and [store.go]):
    the files that the materializer stored, each verified again from its bytes
    against the publishers this client trusts. *)

From stdpp Require Import base list list_numbers strings sets gmap sorting.
From Stdlib Require Import ZArith Lia Strings.Byte.
From S2P Require Import Prelude Bytes Hash Codec CanonicalJSON StrictJSON Checkpoint Reconstruct Committee Batch Generate Materialize.

(** ** Data *)

Definition MaxEncodedEnvelopeBytes : Z := 400000.
Definition MaxPayloadBytes : Z := 262144.
Definition MaxBodyRunes : Z := 200000.
Definition MaxTitleRunes : Z := 300.
Definition MaxSummaryRunes : Z := 2000.
Definition MaxPublisherNameRunes : Z := 200.
Definition MaxPublishedAtRunes : Z := 64.
Definition MaxTags : Z := 64.
Definition MaxTagRunes : Z := 100.
Definition RenderableMediaType : list byte := String.list_byte_of_string "text/plain; charset=utf-8".
Definition Extension : list byte := String.list_byte_of_string ".nomadobject".
Definition MaxObjects : nat := 256.

Record RenderDocument := mkRenderDocument {
  DocTitle : list byte;
  DocSummary : list byte;
  DocBody : list byte;
  DocTags : list (list byte);
  DocPublishedAt : list byte;
  DocPublisherName : list byte;
  DocMediaType : list byte;
}.

Record Object := mkObject {
  ObjectID : list byte;
  ObjectDocument : RenderDocument;
  PublisherFingerprint : list byte;
}.

(** The keys, each of 32 bytes. *)
Notation TrustSet := (gset (list byte)).

Inductive object_error :=
| ErrTrustEmpty
| ErrTrustKey
| ErrUnsupportedVersion
| ErrMalformedEncoding
| ErrObjectSize
| ErrCommitmentMismatch
| ErrInvalidSignature
| ErrUntrustedPublisher
| ErrUnsupportedMedia
| ErrInvalidDocument
| ErrObjectFile
| ErrObjectDirectory.

(** [json.Unmarshal] of an envelope, and the decoding of a document that refuses
    unknown fields: it stops after the first value and leaves the rest. *)
Class ObjectJSON := {
  envelope_read : list byte -> option SignedEnvelope;
  document_read : list byte -> option (RenderDocument * list byte);
}.

(** ** Encodings *)

(** [base64.StdEncoding.DecodeString]: as the strict decoding, without a test of
    the unused bits. *)
Fixpoint b64_lax_groups (l : list byte) : option (list byte) :=
  match l with
  | [] => Some []
  | c0 :: c1 :: c2 :: c3 :: l =>
      v0 ← b64_value c0; v1 ← b64_value c1;
      if bool_decide (c2 = b64_pad) then
        if bool_decide (c3 = b64_pad) && bool_decide (l = []) then Some [byte_of_Z (v0 * 4 + v1 / 16)] else None
      else
        v2 ← b64_value c2;
        if bool_decide (c3 = b64_pad) then
          if bool_decide (l = []) then Some [byte_of_Z (v0 * 4 + v1 / 16); byte_of_Z (v1 * 16 + v2 / 4)] else None
        else
          v3 ← b64_value c3;
          rest ← b64_lax_groups l;
          Some (byte_of_Z (v0 * 4 + v1 / 16) :: byte_of_Z (v1 * 16 + v2 / 4) :: byte_of_Z (v2 * 64 + v3) :: rest)
  | _ => None
  end.

Definition b64_lax (l : list byte) : option (list byte) := b64_lax_groups (filter (fun b => b <> x0d /\ b <> x0a) l).

(** [strings.ToLower] as far as hexadecimal digits can come from it. *)
Definition lower (b : byte) : byte := let c := Z_of_byte b in if (65 <=? c) && (c <=? 90) then byte_of_Z (c + 32) else b.

(** [utf8.RuneCountInString]. *)
Definition RuneCount (s : list byte) : Z := len (runes s).

(** [unicode.IsSpace]. *)
Definition is_space (r : option Z) : bool :=
  match r with
  | None => false
  | Some c => ((9 <=? c) && (c <=? 13)) || bool_decide (c ∈ [32; 133; 160; 5760; 8232; 8233; 8239; 8287; 12288]) || ((8192 <=? c) && (c <=? 8202))
  end.

(** [strings.TrimSpace(s) == ""]. *)
Definition is_blank (s : list byte) : bool := forallb is_space (runes s).

Fixpoint skip_json_space (l : list byte) : list byte :=
  match l with
  | b :: rest => if bool_decide (b ∈ [x20; x09; x0d; x0a]) then skip_json_space rest else l
  | [] => []
  end.

(** [Decoder.More] on what the decoder left. *)
Definition More (rest : list byte) : bool :=
  match skip_json_space rest with
  | [] => false
  | b :: _ => negb (bool_decide (b = x5d)) && negb (bool_decide (b = x7d))
  end.

Definition NewTrustSet (keys : list (list byte)) : result object_error TrustSet :=
  if bool_decide (keys = []) then Err ErrTrustEmpty
  else if negb (forallb (fun k => Nat.eqb (length k) 32) keys) then Err ErrTrustKey
  else Ok (list_to_set keys).

Definition trusts (t : TrustSet) (key : list byte) : bool := Nat.eqb (length key) 32 && bool_decide (key ∈ t).

(** ** Verification *)

Definition within_bounds (d : RenderDocument) : bool :=
  (RuneCount (DocTitle d) <=? MaxTitleRunes) && (RuneCount (DocSummary d) <=? MaxSummaryRunes) && (RuneCount (DocBody d) <=? MaxBodyRunes) &&
  (RuneCount (DocPublisherName d) <=? MaxPublisherNameRunes) && (RuneCount (DocPublishedAt d) <=? MaxPublishedAtRunes).

Section objects.
Context `{HashFunction, SignatureScheme, ObjectJSON}.

Definition parseDocument (payload : list byte) : result object_error RenderDocument :=
  match document_read payload with
  | None => Err ErrInvalidDocument
  | Some (d, rest) =>
      if More rest then Err ErrInvalidDocument
      else if negb (bool_decide (DocMediaType d = RenderableMediaType)) then Err ErrUnsupportedMedia
      else if is_blank (DocTitle d) then Err ErrInvalidDocument
      else if negb (within_bounds d) then Err ErrInvalidDocument
      else if MaxTags <? len (DocTags d) then Err ErrInvalidDocument
      else if negb (forallb (fun tag => RuneCount tag <=? MaxTagRunes) (DocTags d)) then Err ErrInvalidDocument
      else Ok d
  end.

Definition read_exactly (o : option (list byte)) (n : nat) : result object_error (list byte) :=
  match o with Some l => if Nat.eqb (length l) n then Ok l else Err ErrMalformedEncoding | None => Err ErrMalformedEncoding end.

Definition ObjectVerify (envelope : SignedEnvelope) (trusted : TrustSet) : result object_error Object :=
  if bool_decide (trusted = ∅) then Err ErrTrustEmpty
  else if negb (EnvVersion envelope =? 1) then Err ErrUnsupportedVersion
  else match b64_lax (EnvPayload envelope) with
  | None => Err ErrMalformedEncoding
  | Some payload =>
      if MaxPayloadBytes <? len payload then Err ErrObjectSize
      else
        publisherKey ← read_exactly (b64_lax (EnvPublisherKey envelope)) 32;
        signature ← read_exactly (b64_lax (EnvSignature envelope)) 64;
        let digest := sha256 payload in
        commitment ← read_exactly (hex_decode (map lower (EnvContentHash envelope))) 32;
        if negb (bool_decide (digest = commitment)) then Err ErrCommitmentMismatch
        else if negb (verify publisherKey (SigningMessage digest) signature) then Err ErrInvalidSignature
        else if negb (trusts trusted publisherKey) then Err ErrUntrustedPublisher
        else
          document ← parseDocument payload;
          Ok (mkObject (hex_encode digest) document (take 16 (hex_encode (sha256 publisherKey))))
  end.

(** ** The directory *)

(** Whether a file opens and reads. *)
Notation object_io := (list byte -> bool).

Definition loadOne (env : object_io) (files : gmap (list byte) part_entry) (trusted : TrustSet) (name : list byte) : result object_error Object :=
  match files !! name with
  | None => Err ErrObjectFile
  | Some f =>
      if negb (env name) || negb (entry_regular f) then Err ErrObjectFile
      else if MaxEncodedEnvelopeBytes <? len (entry_content f) then Err ErrObjectSize
      else match envelope_read (entry_content f) with
      | None => Err ErrMalformedEncoding
      | Some envelope => ObjectVerify envelope trusted
      end
  end.

Definition object_names (files : gmap (list byte) part_entry) : list (list byte) :=
  filter (fun name => negb (has_prefix (String.list_byte_of_string ".") name) && has_suffix Extension name &&
                      match files !! name with Some f => entry_regular f | None => false end = true)
    (merge_sort name_le (elements (dom files))).

(** The objects in the order of the files, without repetitions, and the number of
    files that did not verify. *)
Fixpoint scan (env : object_io) (files : gmap (list byte) part_entry) (trusted : TrustSet) (seen : gset (list byte)) (names : list (list byte)) : list Object * Z :=
  match names with
  | [] => ([], 0)
  | name :: names =>
      match loadOne env files trusted name with
      | Err _ => let '(objects, rejected) := scan env files trusted seen names in (objects, rejected + 1)
      | Ok object =>
          if bool_decide (ObjectID object ∈ seen) then scan env files trusted seen names
          else let '(objects, rejected) := scan env files trusted ({[ObjectID object]} ∪ seen) names in (object :: objects, rejected)
      end
  end.

(** By title, then by identifier. *)
Definition object_le (a b : Object) : Prop :=
  if bool_decide (DocTitle (ObjectDocument a) = DocTitle (ObjectDocument b)) then name_le (ObjectID a) (ObjectID b)
  else name_le (DocTitle (ObjectDocument a)) (DocTitle (ObjectDocument b)).

#[global] Instance object_le_dec a b : Decision (object_le a b).
Proof. unfold object_le. case_bool_decide; apply _. Defined.

(** A directory that cannot be read is [None]. *)
Definition LoadObjects (env : object_io) (dir : option (gmap (list byte) part_entry)) (trusted : TrustSet) : result object_error (list Object * Z) :=
  match dir with
  | None => Err ErrObjectDirectory
  | Some files =>
      let '(objects, rejected) := scan env files trusted ∅ (take MaxObjects (object_names files)) in
      Ok (merge_sort object_le objects, rejected)
  end.
End objects.

(** ** Encodings agree *)

Lemma lax_of_strict l r : b64_decode_groups l = Some r -> b64_lax_groups l = Some r.
Proof.
  revert r. induction l as [l IH] using (induction_ltof1 _ (@length byte)). unfold ltof in IH. intros r.
  destruct l as [|c0 [|c1 [|c2 [|c3 l]]]]; try done. cbn [b64_decode_groups b64_lax_groups].
  destruct (b64_value c0) as [v0|]; [|done]. destruct (b64_value c1) as [v1|]; [|done]. cbn [mbind option_bind]. case_bool_decide.
  - destruct (bool_decide (c3 = b64_pad) && bool_decide (l = [])); [|done]. cbn [andb]. by destruct (v1 mod 16 =? 0).
  - destruct (b64_value c2) as [v2|]; [|done]. cbn [mbind option_bind]. case_bool_decide.
    + destruct (bool_decide (l = [])); [|done]. cbn [andb]. by destruct (v2 mod 4 =? 0).
    + destruct (b64_value c3) as [v3|]; [|done]. cbn [mbind option_bind]. destruct (b64_decode_groups l) as [rest|] eqn:E; [|done].
      rewrite (IH l ltac:(simpl; lia) rest E). done.
Qed.

Lemma b64_lax_strict text raw : DecodeBase64 text = Some raw -> b64_lax text = Some raw.
Proof. unfold DecodeBase64. destruct (negb _); [done|]. unfold b64_decode, b64_lax. apply lax_of_strict. Qed.

Lemma lower_hex_digit v : 0 <= v < 16 -> lower (hex_digit v) = hex_digit v.
Proof.
  intros Hv. replace v with (Z.of_nat (Z.to_nat v)) by lia. pattern (Z.of_nat (Z.to_nat v)).
  apply (proj1 (Forall_forall (fun v => lower (hex_digit v) = hex_digit v) (seqZ 0 16))); [|apply elem_of_seqZ; lia].
  repeat (constructor; [reflexivity|]). constructor.
Qed.

Lemma lower_hex l : map lower (hex_encode l) = hex_encode l.
Proof.
  unfold hex_encode. induction l as [|b l IH]; [done|]. cbn [flat_map]. rewrite map_app, IH. f_equal. cbn [map].
  pose proof (Z_of_byte_range b). rewrite !lower_hex_digit; [done|Z.to_euclidean_division_equations; lia..].
Qed.

#[export] Instance object_le_total : Total object_le.
Proof.
  intros a b. unfold object_le. rewrite (bool_decide_ext (DocTitle (ObjectDocument b) = _) (DocTitle (ObjectDocument a) = DocTitle (ObjectDocument b))) by done.
  case_bool_decide; apply (total name_le).
Qed.

(** ** What is rendered *)

Section rendering.
Context `{HashFunction, SignatureScheme, ObjectJSON}.

(** A document within all the bounds of the renderer. *)
Definition renderable (d : RenderDocument) : Prop :=
  DocMediaType d = RenderableMediaType /\ is_blank (DocTitle d) = false /\ within_bounds d = true /\ len (DocTags d) <= MaxTags /\
  Forall (fun tag => RuneCount tag <= MaxTagRunes) (DocTags d).

(** An object that some bytes on disk carry: the signature of a trusted publisher
    covers their hash, which is the identifier. *)
Definition object_of (trusted : TrustSet) (envelope : SignedEnvelope) (o : Object) : Prop :=
  exists payload key signature, b64_lax (EnvPayload envelope) = Some payload /\ len payload <= MaxPayloadBytes /\ key ∈ trusted /\
    verify key (SigningMessage (sha256 payload)) signature = true /\ ObjectID o = hex_encode (sha256 payload) /\
    (exists rest, document_read payload = Some (ObjectDocument o, rest)) /\ renderable (ObjectDocument o) /\
    PublisherFingerprint o = take 16 (hex_encode (sha256 key)).

Lemma parseDocument_ok payload d : parseDocument payload = Ok d -> (exists rest, document_read payload = Some (d, rest)) /\ renderable d.
Proof.
  unfold parseDocument. destruct (document_read payload) as [[d' rest]|]; [|done]. destruct (More rest); [done|]. case_bool_decide as Em; [|done]. cbn [negb].
  destruct (is_blank _) eqn:Eb; [done|]. destruct (within_bounds d') eqn:Ew; [|done]. cbn [negb]. destruct (MaxTags <? _) eqn:Et; [done|].
  destruct (forallb _ _) eqn:Ef; [|done]. cbn [negb]. intros [= <-]. reflect_bools. split; [eauto|]. split_and!; [done|done|done|lia|].
  apply Forall_forall. intros tag Htag. rewrite forallb_forall in Ef. specialize (Ef tag (proj1 (list_elem_of_In _ _) Htag)). by apply Z.leb_le.
Qed.

Lemma parseDocument_renderable payload d rest : document_read payload = Some (d, rest) -> More rest = false -> renderable d -> parseDocument payload = Ok d.
Proof.
  intros Hr Hm (Em & Eb & Ew & Et & Ef). unfold parseDocument. rewrite Hr, Hm, bool_decide_true, Eb, Ew by done. cbn [negb].
  rewrite (proj2 (Z.ltb_ge _ _)) by lia. rewrite (proj2 (forallb_forall _ _)); [done|]. intros tag Htag%list_elem_of_In. rewrite Forall_forall in Ef.
  by apply Z.leb_le, Ef.
Qed.

Lemma read_exactly_ok o n l : read_exactly o n = Ok l -> o = Some l /\ length l = n.
Proof. unfold read_exactly. destruct o as [x|]; [|done]. destruct (Nat.eqb_spec (length x) n); [|done]. by intros [= <-]. Qed.

Lemma ObjectVerify_ok envelope trusted o : ObjectVerify envelope trusted = Ok o -> object_of trusted envelope o.
Proof.
  unfold ObjectVerify. case_bool_decide; [done|]. destruct (negb _); [done|]. destruct (b64_lax (EnvPayload envelope)) as [payload|] eqn:Ep; [|done].
  destruct (MaxPayloadBytes <? _) eqn:El; [done|]. destruct (read_exactly (b64_lax (EnvPublisherKey envelope)) 32) as [key|]; [|done]. cbn [mbind result_bind].
  destruct (read_exactly (b64_lax (EnvSignature envelope)) 64) as [signature|]; [|done]. cbn [mbind result_bind].
  destruct (read_exactly (hex_decode _) 32) as [commitment|]; [|done]. cbn [mbind result_bind]. case_bool_decide; [|done]. cbn [negb].
  destruct (verify key _ signature) eqn:Ev; [|done]. cbn [negb]. destruct (trusts trusted key) eqn:Et; [|done]. cbn [negb].
  destruct (parseDocument payload) as [d|] eqn:Ed; [|done]. cbn [mbind result_bind]. intros [= <-]. reflect_bools.
  unfold trusts in Et. apply andb_true_iff in Et as [_ Et%bool_decide_eq_true]. apply parseDocument_ok in Ed as [Hr Hd]. exists payload, key, signature. by split_and!.
Qed.

Lemma loadOne_ok env files trusted name o : loadOne env files trusted name = Ok o ->
  exists f envelope, files !! name = Some f /\ entry_regular f = true /\ len (entry_content f) <= MaxEncodedEnvelopeBytes /\
    envelope_read (entry_content f) = Some envelope /\ object_of trusted envelope o.
Proof.
  unfold loadOne. destruct (files !! name) as [f|]; [|done]. destruct (_ || _) eqn:Eo; [done|]. destruct (MaxEncodedEnvelopeBytes <? _) eqn:El; [done|].
  destruct (envelope_read _) as [envelope|] eqn:Ee; [|done]. intros Hv%ObjectVerify_ok. reflect_bools. exists f, envelope. by split_and!.
Qed.

Lemma scan_spec env files trusted seen names objects rejected : scan env files trusted seen names = (objects, rejected) ->
  NoDup (map ObjectID objects) /\ Forall (fun o => ObjectID o ∉ seen /\ exists name, name ∈ names /\ loadOne env files trusted name = Ok o) objects /\
  (forall name o, name ∈ names -> loadOne env files trusted name = Ok o -> ObjectID o ∈ seen \/ ObjectID o ∈ map ObjectID objects) /\
  rejected = len (filter (fun name => is_ok (loadOne env files trusted name) = false) names) /\ (length objects <= length names)%nat.
Proof.
  revert seen objects rejected. induction names as [|name names IH]; intros seen objects rejected; cbn [scan].
  { intros [= <- <-]. split_and!; [constructor|constructor|set_solver|done|done]. }
  destruct (loadOne env files trusted name) as [o|e] eqn:El.
  - rewrite filter_cons_False by (by rewrite El). case_bool_decide as Es.
    + intros E. apply IH in E as (Hnd & Hall & Hc & Hr & Hl). split_and!; [done| | |done|simpl; lia].
      * eapply Forall_impl; [exact Hall|]. intros x (Hx & n & Hn & Hload). split; [done|]. exists n. split; [by apply list_elem_of_further|done].
      * intros n x [->|Hn]%elem_of_cons Hload; [left; congruence|]. by eapply Hc.
    + destruct (scan _ _ _ _ names) as [rest rej] eqn:Er. intros [= <- <-]. apply IH in Er as (Hnd & Hall & Hc & Hr & Hl). rewrite Forall_forall in Hall. split_and!; [| | |done|simpl; lia].
      * cbn [map]. apply NoDup_cons. split; [|done]. intros Hin. apply (list_elem_of_fmap ObjectID rest) in Hin as (x & E & Hx). destruct (Hall x Hx) as [Hn _]. set_solver.
      * apply Forall_cons. split; [split; [done|]; exists name; split; [apply list_elem_of_here|done]|]. apply Forall_forall. intros x Hx. destruct (Hall x Hx) as (Hn & n & Hin & Hload).
        split; [set_solver|]. exists n. split; [by apply list_elem_of_further|done].
      * cbn [map]. intros n x [->|Hn]%elem_of_cons Hload; [right; replace x with o by congruence; apply list_elem_of_here|].
        destruct (Hc n x Hn Hload) as [[Heq%elem_of_singleton|Hs]%elem_of_union|Hin]; [right; rewrite Heq; apply list_elem_of_here|by left|right; by apply list_elem_of_further].
  - rewrite filter_cons_True by (by rewrite El). destruct (scan _ _ _ _ names) as [rest rej] eqn:Er. intros [= <- <-]. apply IH in Er as (Hnd & Hall & Hc & Hr & Hl).
    split_and!; [done| | |rewrite Hr, length_cons; lia|simpl; lia].
    + eapply Forall_impl; [exact Hall|]. intros x (Hx & n & Hn & Hload). split; [done|]. exists n. split; [by apply list_elem_of_further|done].
    + intros n x [->|Hn]%elem_of_cons Hload; [congruence|]. by eapply Hc.
Qed.
End rendering.

(** C6: What a client shows.  A scan of a directory always gives a result, whatever files
    are in it.  Every object of it comes from a regular file whose bytes a
    publisher of the trust set signed, carries the hash of those bytes as its
    identifier and a document within all the bounds; there are at most 256, no
    two with one identifier, in the order of title and identifier.  No file that
    verifies is lost because of others that do not, as long as there are no more
    than 256 names: its object is shown, and the others are counted. *)
Theorem rendered_exactly `{HashFunction, SignatureScheme, ObjectJSON} (env : list byte -> bool) (files : gmap (list byte) part_entry) (trusted : TrustSet) :
  exists objects rejected, LoadObjects env (Some files) trusted = Ok (objects, rejected) /\
    (length objects <= MaxObjects)%nat /\ NoDup (map ObjectID objects) /\ Sorted object_le objects /\
    Forall (fun o => exists name f envelope, name ∈ object_names files /\ files !! name = Some f /\ entry_regular f = true /\
      envelope_read (entry_content f) = Some envelope /\ object_of trusted envelope o) objects /\
    ((length (object_names files) <= MaxObjects)%nat ->
      (forall name o, name ∈ object_names files -> loadOne env files trusted name = Ok o -> ObjectID o ∈ map ObjectID objects) /\
      rejected = len (filter (fun name => is_ok (loadOne env files trusted name) = false) (object_names files))).
Proof.
  unfold LoadObjects. destruct (scan env files trusted ∅ (take MaxObjects (object_names files))) as [objects rejected] eqn:E.
  apply scan_spec in E as (Hnd & Hall & Hc & Hr & Hl). exists (merge_sort object_le objects), rejected. pose proof (merge_sort_Permutation object_le objects) as Hp.
  split_and!; [done| | |apply (Sorted_merge_sort object_le)| |].
  - rewrite Hp. rewrite length_take in Hl. lia.
  - exact (proj2 (NoDup_Permutation_proper _ _ (Permutation_map ObjectID Hp)) Hnd).
  - apply (Permutation_Forall (Permutation_sym Hp)). eapply Forall_impl; [exact Hall|]. intros o (_ & name & Hin & Hload).
    destruct (loadOne_ok _ _ _ _ _ Hload) as (f & envelope & Hf & Hreg & _ & He & Ho). exists name, f, envelope. split_and!; try done.
    eapply subseteq_take; exact Hin.
  - intros Hn. rewrite take_ge in * by lia. split; [|exact Hr]. intros name o Hin Hload. destruct (Hc name o Hin Hload) as [?|Hm]; [set_solver|].
    by rewrite (Permutation_map ObjectID Hp).
Qed.

Lemma output_name_listed root : is_digest root ->
  negb (has_prefix (String.list_byte_of_string ".") (output_name root)) && has_suffix Extension (output_name root) = true.
Proof.
  intros Hroot. unfold is_digest in Hroot. unfold output_name, Extension. apply andb_true_intro. split.
  - destruct root as [|b root]; [done|]. unfold has_prefix. cbn [hex_encode flat_map app]. rewrite bool_decide_false; [done|]. intros E. apply (f_equal head) in E.
    cbn in E. injection E as E. pose proof (Z_of_byte_range b) as Hb. assert (0 <= Z_of_byte b / 16 < 16) as Hv by (Z.to_euclidean_division_equations; lia).
    pose proof (hex_value_digit _ Hv) as Hh. rewrite E in Hh. discriminate Hh.
  - unfold has_suffix. rewrite length_app. rewrite (proj2 (Nat.leb_le _ _)) by lia. apply bool_decide_eq_true. rewrite Nat.add_sub. by rewrite drop_app_length.
Qed.

Section accepted.
Context `{HashFunction, SignatureScheme, BatchJSON, ObjectJSON}.

(** What the materializer's own test lets through, the renderer verifies. *)
Lemma verified_renders (d : VerifiedDescriptor) content envelope payload doc rest trusted : verifyOutput content d = Ok tt -> envelope_parse content = Some envelope ->
  DecodeBase64 (EnvPayload envelope) = Some payload -> VDPublisher d ∈ trusted -> document_read payload = Some (doc, rest) -> More rest = false -> renderable doc ->
  ObjectVerify envelope trusted = Ok (mkObject (hex_encode (VDRoot d)) doc (take 16 (hex_encode (sha256 (VDPublisher d))))).
Proof.
  intros Hv He Hp Ht Hr Hm Hd. unfold verifyOutput in Hv. rewrite He in Hv.
  destruct (VerifySignedEnvelope envelope) as [[[[payload' root] publisher] signature]|] eqn:E; [|done]. cbn [wrap mbind result_bind] in Hv.
  destruct (_ || _) eqn:Eb; [done|]. clear Hv. reflect_bools. unfold VerifySignedEnvelope in E. rewrite Hp in E. run_checks E. injection E as <- <- <- <-. reflect_bools.
  match goal with Hx : Some payload = Some ?l |- _ => injection Hx as <- end.
  match goal with Hk : decodeBase64 (EnvPublisherKey envelope) 32 = Some ?k |- _ => rename k into key; rename Hk into Hkey end.
  match goal with Hk : decodeBase64 (EnvSignature envelope) 64 = Some ?k |- _ => rename k into sig; rename Hk into Hsig end.
  match goal with Hx : verify key _ sig = true |- _ => rename Hx into Hvf end. match goal with Hx : EnvContentHash envelope = _ |- _ => rename Hx into Hhash end.
  match goal with Hx : sha256 payload = VDRoot d |- _ => rename Hx into Hroot end. match goal with Hx : key = VDPublisher d |- _ => rename Hx into Hpub end.
  pose proof (decodeBase64_length _ _ _ Hkey) as Hkl. pose proof (decodeBase64_length _ _ _ Hsig) as Hsl.
  unfold decodeBase64 in Hkey, Hsig. destruct (DecodeBase64 (EnvPublisherKey envelope)) as [k|] eqn:Ek; [|done].
  destruct (DecodeBase64 (EnvSignature envelope)) as [g|] eqn:Eg; [|done]. cbn [mbind option_bind] in Hkey, Hsig. destruct (Nat.eqb _ _) in Hkey; [|done].
  destruct (Nat.eqb _ _) in Hsig; [|done]. injection Hkey as ->. injection Hsig as ->.
  unfold ObjectVerify. rewrite (bool_decide_false (trusted = ∅)) by (intros ->; by apply not_elem_of_empty in Ht).
  rewrite (b64_lax_strict _ _ Hp), (b64_lax_strict _ _ Ek), (b64_lax_strict _ _ Eg), Hhash, lower_hex, hex_decode_encode. unfold read_exactly.
  rewrite Hkl, Hsl, sha256_digest. cbn [Nat.eqb mbind result_bind]. unfold MaximumPayloadBytes, EnvelopeVersion in *.
  rewrite (proj2 (Z.eqb_eq (EnvVersion envelope) 1)) by lia. cbn [negb]. unfold MaxPayloadBytes. rewrite (proj2 (Z.ltb_ge _ _)) by lia.
  rewrite bool_decide_true by done. cbn [negb]. rewrite Hvf. cbn [negb]. unfold trusts. rewrite Hkl, Hpub, bool_decide_true by done. cbn [Nat.eqb andb negb].
  rewrite (parseDocument_renderable payload doc rest Hr Hm Hd). cbn [mbind result_bind]. by rewrite Hroot.
Qed.
End accepted.

(** C7: A published object is shown.  If the file of an object that passes the
    materializer's test is in the directory, under the materializer's name for it,
    the client reads it as the materializer does and trusts its publisher, and its
    content is a document within the bounds, then the client shows an object with
    the root of the descriptor as its identifier, whatever else the directory
    holds, up to 256 files. *)
Theorem object_rendered `{HashFunction, SignatureScheme, BatchJSON, ObjectJSON} (env : list byte -> bool) (files : gmap (list byte) part_entry) (trusted : TrustSet)
  (d : VerifiedDescriptor) (content payload rest : list byte) (envelope : SignedEnvelope) (doc : RenderDocument) :
  files !! output_name (VDRoot d) = Some (mkEntry false true content) -> env (output_name (VDRoot d)) = true -> len content <= MaxEncodedEnvelopeBytes ->
  verifyOutput content d = Ok tt -> envelope_parse content = Some envelope -> envelope_read content = Some envelope -> is_digest (VDRoot d) ->
  DecodeBase64 (EnvPayload envelope) = Some payload -> document_read payload = Some (doc, rest) -> More rest = false -> renderable doc ->
  VDPublisher d ∈ trusted -> (length (object_names files) <= MaxObjects)%nat ->
  exists objects rejected, LoadObjects env (Some files) trusted = Ok (objects, rejected) /\ hex_encode (VDRoot d) ∈ map ObjectID objects.
Proof.
  intros Hf Henv Hl Hv He Hread Hroot Hp Hr Hm Hd Ht Hn.
  assert (output_name (VDRoot d) ∈ object_names files) as Hin.
  { unfold object_names. apply list_elem_of_filter. rewrite Hf, output_name_listed by done. split; [done|].
    rewrite (merge_sort_Permutation name_le). apply elem_of_elements, elem_of_dom. eauto. }
  assert (loadOne env files trusted (output_name (VDRoot d)) = Ok (mkObject (hex_encode (VDRoot d)) doc (take 16 (hex_encode (sha256 (VDPublisher d)))))) as Hload.
  { unfold loadOne. rewrite Hf, Henv. cbn [entry_regular entry_content negb orb]. rewrite (proj2 (Z.ltb_ge _ _)) by done. rewrite Hread.
    by eapply verified_renders. }
  unfold LoadObjects. destruct (scan env files trusted ∅ (take MaxObjects (object_names files))) as [objects rejected] eqn:E. rewrite take_ge in E by lia.
  apply scan_spec in E as (_ & _ & Hc & _). exists (merge_sort object_le objects), rejected. split; [done|]. destruct (Hc _ _ Hin Hload) as [Hx|Hx]; [set_solver|].
  by rewrite (Permutation_map ObjectID (merge_sort_Permutation object_le objects)).
Qed.

(** The test for data after the document looks at one character only, and lets a
    closing bracket through: bytes that continue with one, and anything after it,
    are taken for the document alone. *)
Lemma closing_bracket_passes `{HashFunction, ObjectJSON} payload doc rest : document_read payload = Some (doc, x7d :: rest) -> renderable doc -> parseDocument payload = Ok doc.
Proof. intros Hr Hd. by apply (parseDocument_renderable payload doc (x7d :: rest)). Qed.

(** ** Example *)

Section example.
#[local] Existing Instance example_hash.
#[local] Existing Instance example_signatures.

Definition note : RenderDocument := mkRenderDocument [x61] [] [x62] [[x63]] [] [] RenderableMediaType.
Definition note_author : list byte := replicate 64 x41.
Definition note_envelope : SignedEnvelope :=
  mkEnvelope 1 (b64_encode [x6e]) (hex_encode (sha256 [x6e])) (b64_encode (public note_author)) (b64_encode (sign note_author (SigningMessage (sha256 [x6e])))).
Definition note_descriptor : VerifiedDescriptor :=
  mkVerifiedDescriptor (mkBatchDescriptor [] [] 1 [] [] 16 [] 1 1 1 [] [] [] [] ring_certificate [] []) [] [] (sha256 [x6e]) (public note_author)
    (sign note_author (SigningMessage (sha256 [x6e]))) (VCCommittee ring_certified) (VCTranscript ring_certified) ring_certified [].

#[local] Instance note_batch_json : BatchJSON := batch_json None (fun _ => None) (Some note_envelope).
#[local] Instance note_json : ObjectJSON := {| envelope_read := fun b => if bool_decide (b = [x33]) then Some note_envelope else None;
  document_read := fun b => if bool_decide (b = [x6e]) then Some (note, [x0a]) else None |}.

Definition note_files : gmap (list byte) part_entry := {[output_name (sha256 [x6e]) := mkEntry false true [x33]; [x2e; x78] := mkEntry false true [x00]]}.

Lemma object_rendered_witness : exists objects rejected,
  LoadObjects (fun _ => true) (Some note_files) {[public note_author]} = Ok (objects, rejected) /\ hex_encode (sha256 [x6e]) ∈ map ObjectID objects.
Proof.
  apply (object_rendered (fun _ => true) note_files {[public note_author]} note_descriptor [x33] [x6e] [x0a] note_envelope note).
  - apply lookup_insert_eq.
  - reflexivity.
  - vm_compute. discriminate.
  - vm_compute. reflexivity.
  - reflexivity.
  - reflexivity.
  - apply sha256_digest.
  - vm_compute. reflexivity.
  - reflexivity.
  - reflexivity.
  - split_and!; [reflexivity|reflexivity|reflexivity|vm_compute; discriminate|]. repeat constructor. vm_compute. discriminate.
  - by apply elem_of_singleton.
  - apply Nat.leb_le. vm_compute. reflexivity.
Defined.
End example.
